(* ===== verification/_CoqProject ===== *)
-Q . S2P
Prelude.v
GoUnicode.v
GoStrings.v
GoNum.v
GoJson.v
Base64.v
Secret.v
Journal.v
Renew.v
RenewSafe.v
RouteTypes.v
GoHttp.v
Redact.v
GoPath.v
GoClean.v
Profile.v
Volumes.v
VolumesSafe.v
DeliverSafe.v
Decode.v
Allow.v
Token.v
Inject.v
GoNetip.v
GoUrl.v
RoutePath.v
Spelling.v
Matcher.v
Scan.v
RouteValidate.v
PolicyValidate.v
RouteMode.v
Expand.v
Registry.v
Routes.v
Creds.v
Attach.v
Policies.v
GuestEnv.v
HostSide.v
RouteStore.v
Settings.v
GitFiles.v
EgressRules.v
Dns.v
DnsAnswer.v
Divert.v
Nft.v
NetAlloc.v
Publish.v
ProfileReg.v
Session.v
SessionIndex.v
Posture.v
RunHome.v
EnsureRun.v
FileSys.v
RootIO.v
RootFiles.v
Verify.v
BundleFiles.v
VerifyRun.v
Resolver.v
EgressMain.v
Placeholder.v
Pipeline.v
CredCache.v
CloudCred.v
AwsCred.v
GcpCred.v
BrokerServer.v
RuntimeCaps.v
RuntimeArgs.v
CommandLine.v
