(* ===== verification/Prelude.v ===== *)
(** * Brig: a verification library for the core of the sandbox runner

    Brig runs an agent in a sandbox and keeps the credentials of its user
    outside of it.  The development models the Go code that decides what
    leaves the sandbox and with which secret, and the code of the runner that
    decides what a run boots, mounts, delivers and keeps.  There is one file
    per part, and every definition is a function that evaluates on concrete
    input.

    ** The program's parts and where they are

    The _runner_ ([internal/wrap]) turns a profile and the policies bound to
    it into a run: it names the sandbox and its home, verifies the image,
    decides the network posture, takes the injected secrets out of what the
    guest is handed, starts the sandbox, mounts its volumes and delivers its
    credential files.  The sandbox reaches the world through two doors.  The
    _broker_ ([internal/broker]) is an HTTP server that holds the credentials:
    a guest sends it requests with a session token in the place of the real
    secret, and the broker checks the token, checks the request against the
    rules of its route, injects the credential, sends the request upstream,
    and hides the credential in what comes back.  The _egress gateway_
    ([internal/egress]) answers the guest's DNS, fills the sets of a packet
    filter with the addresses it hands out, and sends the diverted ones to a
    relay ([internal/divert]).  Both are configured from _policies_
    ([api/policy/v1alpha1], [internal/policy]).  A credential that expires is
    renewed by [internal/renew] through a journal in the secret store.

    Foundations.
    - [Prelude]: results with an error ([res], the notation [let? x := m in
      k]), the automation ([res_inv], [bool_inv], [case_if], the [brig] hint
      database), and lemmas on lists that the parts share.
    - [GoStrings], [GoUnicode], [GoNum], [GoPath], [GoClean], [GoHttp],
      [GoJson], [Base64], [GoNetip], [GoUrl]: what the sources use of Go's
      standard library: strings as lists of bytes, UTF-8, [strconv],
      [path.Match], [path.Clean], [http.Header], [encoding/json], both base64
      alphabets, [net/netip] and [net/url].

    Policies ([api/policy/v1alpha1], [internal/policy], [internal/routemode]).
    - [RouteTypes]: the documents.  [Decode]: the exact-key walk of
      [decode.go].  [RouteValidate], [PolicyValidate]: validation.
    - [RouteMode]: the registered modes.  [Expand], [Routes]: a route over
      its preset and the routes of a run.
    - [Attach]: bindings, attachments and coverage.  [Policies]: parsing,
      loading and merging.

    Broker ([internal/broker]).
    - [Token]: session tokens.  [Spelling], [Matcher], [Scan], [Placeholder]:
      [placeholder.go], from the spellings of a token to the walk over a
      request.  [Allow], [Inject], [Redact], [RoutePath]: the rules, the
      credentials, the redactor and the paths of a request.
    - [Registry]: the sandboxes and the replay budget.  [Pipeline]:
      [Handler.ServeHTTP] from the first check to the answer.
    - [BrokerServer] ([cmd/brig-broker]): the control API, with the looks at
      the clouds that a registration makes without the lock, and what a
      request's arrival says of its sandbox.

    Egress ([internal/egress], [internal/divert], [internal/injector]).
    - [EgressRules], [Dns], [DnsAnswer], [Divert], [Nft], [Resolver],
      [EgressMain]: the rules, the DNS messages, the diverted destinations,
      the packet filter, the resolver, its flags and its table keeper.
    - [GuestEnv]: the variables and the git configuration of a guest's routes.

    Secrets and renewal ([internal/secret], [internal/creds],
    [internal/renew]).
    - [Secret]: names, provenance, the store's interface.  [Creds]: which
      credentials reach the guest.
    - [Journal], [Renew], [RenewSafe]: the journal as bytes, the renewal as a
      state machine over a store that may fail and a process that may die, and
      the invariant over its runs.

    Clouds ([internal/awscred], [internal/gcpcred]).
    - [CredCache]: the caches of fetched credentials, one algorithm with two
      margins.  [CloudCred], [AwsCred], [GcpCred]: the pointers of a stored
      secret, and what is asked of [aws], [gcloud] and tokeninfo for them.

    Profiles ([internal/profile]).
    - [Profile]: documents and their checks.  [ProfileReg]: the registry.

    Runner ([internal/wrap], [internal/runtime], [internal/session],
    [internal/verify]).
    - [Settings], [HostSide], [RouteStore]: the settings of a run, the
      credentials that stay on the host, what the store says of them.
    - [Session], [SessionIndex], [RunHome]: names of sessions, what brig
      remembers of them, the sandbox and the home of a run.
    - [Posture], [NetAlloc], [Publish]: the network of a run, its addresses
      and its published ports.
    - [GitFiles]: the git files of the guest.  [Volumes], [VolumesSafe],
      [DeliverSafe]: mounts and credential files.
    - [FileSys], [RootIO], [RootFiles]: a directory that is reached and held
      while a guest changes it, and the files of a workspace under it.
    - [EnsureRun]: [EnsureRunning], [Stop] and [Remove], with the broker.
    - [Verify], [BundleFiles], [VerifyRun]: the signature of an image, the
      files that a signed digest lists, and the decision to boot.
    - [RuntimeCaps]: which run paths enforce a policy and serve a route mode,
      and what a containerd shim stands on.  [RuntimeArgs]: which runs hull and
      nerdctl take, their command lines and their environments.

    Command line ([cmd/brig]).
    - [CommandLine]: the flags of brig, and where a line stops being brig's.

    ** How the model is written

    A Go [(T, error)] is a [res E T] with one constructor of [E] per error
    message.  A struct is a [Record], a map a [gmap] or, where its order
    shows, an association list with the order of the range as a parameter.
    A slice that can be nil is an [option] of a list.  Machine integers are
    [Z] with the width written where it can matter.  [ServeHTTP] runs in a
    writer over the trace of what it asks of the outside, [Answer] threads a
    world that holds its trace and its divert sets, and the operations of
    [Renew], [Volumes] and [EnsureRun] are programs over a world that answers
    or fails each call.  A method on a shared object takes the object and
    returns it changed.

    ** What the theorems show

    - Nothing happens before the checks: [Pipeline.ServeHTTP_gate],
      [ServeHTTP_unverified], [ServeHTTP_upstream].
    - No injected secret reaches the guest: [Pipeline.ServeHTTP_redacted] says
      what is redacted of what, [Redact.redactor_hides] that no secret without
      a bracket, and that is no part of the word redacted, then shows; no
      session token goes upstream: [ServeHTTP_keeps_token], [Inject.dropGuestHeaders_clean],
      [Scan.scan_stream_exact] and its corollaries on percent, hex, JSON and
      base64 spellings, [Placeholder.findPlaceholder_nothing]; an injected
      secret is bound to nothing that the guest is handed ([HostSide]).
    - A renewed credential is in the secret, in the journal, or in the memory
      of the process while a journal says that it renews, whatever of the store
      fails, and a crash loses it in that window alone ([RenewSafe]); a
      credential file is written only where memory was just seen to be mounted ([VolumesSafe], [DeliverSafe]).
    - A run is refused or guarded before it starts, and one that fails asks the
      broker to forget it or leaves what it started; that the broker forgot is
      its answer, which only warns ([EnsureRun]).  A required image boots only
      verified, for the identity and the issuer of the policy, by the digest
      that verified where the runtime boots by digest ([VerifyRun]).
    - A runtime is handed a run exactly when it keeps what the run promises
      ([RuntimeArgs.hull_boots_enforced], [nerdctl_boots_enforced],
      [RuntimeCaps.brig_internal_boundary]); no stored secret is on a command
      line, and every variable reaches the guest
      ([RuntimeArgs.argv_secret_blind], [env_delivered]).
    - The agent is given the words of the line that are not brig's, and those
      alone; empty words before a project are dropped ([CommandLine.split_accounts], [flags_registered]).
    - Homes, sessions and claims: what is deleted and what is told apart
      ([RunHome], [Session], [SessionIndex]); a file of a workspace is opened
      in the directory that was looked at ([RootIO]).
    - Tokens: [Token.verify_mint], [Token.verify_sound].
    - A cloud's keys go to the sandbox, the route and the pointer they were
      fetched for, and from memory only while they last or soon after they
      came ([CredCache]), and are the identity's that the pointer names
      ([GcpCred.Mint_identity]); a later sandbox of the same name is not given
      the keys of an earlier one ([BrokerServer.removed_keys]).
    - What the broker keeps of its sandboxes agrees whatever requests
      interleave, and what a vendor keeps was asked for since the sandbox last
      went ([BrokerServer.server_agrees]); what a registration comes to
      ([register_outcome]).
    - Rules: [Allow.allow_sound], [RoutePath.canonical_stable].
    - Policies: validation gives what the broker relies on
      ([RouteValidate], [PolicyValidate]), expansion and the routes of a run
      ([Expand], [Routes]); what resolution returns, the broker registers
      under the names they have, in mode endpoint ([Routes]); merging
      ([Policies]); decoding ([Decode]).
    - DNS: [Dns.parseQuery_exact] against the grammar of messages,
      [DnsAnswer.chainAddrs_spec], [DnsAnswer.dns_reads_in_range],
      [Resolver.Answer_safe].
    - Packet filter and divert: [Nft.elements_cover], [Divert.Add_exact];
      addresses and ports: [NetAlloc], [Publish], [Posture].

    ** Parameters

    Code that is not under [src/] is an argument of the definitions that use
    it: HMAC-SHA256 and HKDF ([Token]), SHA-256 ([NetAlloc], [Session],
    [BundleFiles]), the gzip, zlib and flate decoders ([Placeholder]), the
    YAML decoder ([RouteValidate], [Expand], [Policies], [ProfileReg]), the
    upstream DNS server and [nft] ([Resolver]), cosign, the registry and the
    disk ([VerifyRun]), the shell of a guest ([Volumes]).  So are the results
    of the parts that the development leaves out: the secret store, the
    vendor, the minter and the transports ([Pipeline], functions of the trace
    so far), the [aws] and [gcloud] commands and Google's tokeninfo ([AwsCred],
    [GcpCred]), the runtime's answers ([EnsureRun]), the setup that a
    registered route mode adds ([RuntimeArgs]), the listings of a directory
    and the clock.  The order in which Go ranges over a map is a parameter as
    well, a permutation of the entries, and so is the result of an unstable
    sort.  Theorems that need something of a parameter name it as a
    hypothesis, and their witnesses give a concrete one.

    ** Fuel

    JSON values are read with twice the length of the input as fuel, one unit
    a value or a token.  A decoder loop has [maxReplay + 2] turns, since each
    turn yields a byte or ends and the loop stops after [maxReplay] bytes; the
    hold loop as many.  [nameLabels] has 289 turns: 32 pointers and at most
    255 bytes of labels.  [path.Match], the matcher's search, the fields of a
    line and the digest scans recurse on the length of the input.  A renewal
    flushes its journal in at most [flush_fuel] turns, an allocator tries each
    of its slots once, and a redirect is followed ten times as [net/http]
    does.  The theorems that matter say that the fuel suffices:
    [DnsAnswer.dns_reads_in_range], [GoPath.Match_ok],
    [Placeholder.findPlaceholder_total], [Renew] and [VerifyRun].

    ** Not modelled

    Sockets, processes and signals: the commands ([cmd], but for the broker's
    control API and the reading of brig's line), the processes of the runtimes
    and their gateways ([internal/runtime] but for what is listed above), the
    relay, the injector's client and the
    stores behind [secret.Store].  In the runner: the layout and the words of
    its messages, the terminal handover and its filter, and the walk over a
    [.git] directory, whose snapshot is a parameter of [SessionIndex].  The TLS
    transports of a route ([tlsroute.go]) and telemetry are mostly calls of
    libraries.  Concurrency is modelled where a part keeps a state that two
    calls share, as an interleaving of its operations ([Scan] for live tokens,
    [Registry] for the budget, [CredCache] for the callers of a fetch,
    [BrokerServer] for its requests, [RootIO] for the moves of a guest in a
    workspace); the memory model of Go is not. *)

From stdpp Require Import prelude list strings gmap sorting.
From Stdlib Require Import ZArith Lia Ascii.

(** ** Results: Go's [(T, error)] pairs *)

(** A call that returns a value or an error.  A Go function that returns an
    error returns the zero value beside it, and no caller reads that value, so
    the two are a sum. *)
Inductive res (E A : Type) : Type :=
  | Ok (a : A)
  | Err (e : E).
Arguments Ok {E A} a.
Arguments Err {E A} e.

#[export] Instance res_eq_dec {E A} `{EqDecision E, EqDecision A} : EqDecision (res E A).
Proof. solve_decision. Defined.

Declare Scope res_scope.
Delimit Scope res_scope with res.
Open Scope res_scope.

Definition res_bind {E A B} (m : res E A) (f : A -> res E B) : res E B :=
  match m with Ok a => f a | Err e => Err e end.

Notation "'let?' x := m 'in' k" := (res_bind m (fun x => k))
  (at level 200, x pattern, m at level 100, k at level 200, right associativity) : res_scope.
Notation "m ;? k" := (res_bind m (fun _ => k))
  (at level 99, right associativity) : res_scope.

(** [if c { return err }]. *)
Definition fail_if {E} (c : bool) (e : E) : res E unit :=
  if c then Err e else Ok tt.

(** A loop that returns the first error of its body. *)
Fixpoint check_all {E A} (f : A -> res E unit) (l : list A) : res E unit :=
  match l with
  | [] => Ok tt
  | x :: l' => match f x with Ok _ => check_all f l' | Err e => Err e end
  end.

Definition is_ok {E A} (m : res E A) : bool :=
  match m with Ok _ => true | Err _ => false end.

Definition map_err {E E' A} (f : E -> E') (m : res E A) : res E' A :=
  match m with Ok a => Ok a | Err e => Err (f e) end.

Definition is_some {A} (o : option A) : bool := match o with Some _ => true | None => false end.

Create HintDb brig discriminated.

Section Results.
Context {E : Type}.

Lemma res_bind_ok {A B} (m : res E A) (f : A -> res E B) b :
  res_bind m f = Ok b <-> exists a, m = Ok a /\ f a = Ok b.
Proof.
  destruct m as [a|e]; simpl; split.
  - eauto.
  - intros (a' & [= <-] & H). exact H.
  - discriminate.
  - intros (a' & [=] & _).
Qed.

Lemma seq_ok {B} (m : res E unit) (k : res E B) b :
  res_bind m (fun _ => k) = Ok b <-> m = Ok tt /\ k = Ok b.
Proof.
  rewrite res_bind_ok. split.
  - intros ([] & H1 & H2). auto.
  - intros [H1 H2]. eauto.
Qed.

Lemma fail_if_ok (c : bool) (e : E) u : fail_if c e = Ok u <-> c = false.
Proof. destruct c, u; simpl; split; congruence. Qed.

Lemma check_all_ok {A} (f : A -> res E unit) (l : list A) u :
  check_all f l = Ok u <-> Forall (fun x => f x = Ok tt) l.
Proof.
  destruct u. induction l as [|x l IH]; simpl.
  - split; [constructor | done].
  - rewrite Forall_cons. destruct (f x) as [[]|e].
    + rewrite IH. naive_solver.
    + split; [done | intros [[=] _]].
Qed.

Lemma map_err_ok {E' A} (f : E -> E') (m : res E A) a :
  map_err f m = Ok a <-> m = Ok a.
Proof. destruct m; simpl; split; congruence. Qed.
End Results.

(** [res_inv] opens every equation [... = Ok _] in the context whose left side
    is a bind, a guard or a loop. *)
Ltac res_inv :=
  repeat match goal with
  | H : res_bind _ (fun _ => _) = Ok _ |- _ =>
      first [ apply seq_ok in H; destruct H as [? ?]
            | apply res_bind_ok in H; destruct H as (? & ? & ?) ]
  | H : fail_if _ _ = Ok _ |- _ => apply fail_if_ok in H
  | H : check_all _ _ = Ok _ |- _ => apply check_all_ok in H
  | H : map_err _ _ = Ok _ |- _ => apply map_err_ok in H
  end.

(** Splits boolean conjunctions and disjunctions of the code's conditions. *)
Ltac bool_inv :=
  repeat match goal with
  | H : andb _ _ = true |- _ => apply andb_true_iff in H; destruct H
  | H : orb _ _ = false |- _ => apply orb_false_iff in H; destruct H
  | H : negb _ = true |- _ => apply negb_true_iff in H
  | H : negb _ = false |- _ => apply negb_false_iff in H
  | H : Is_true _ |- _ => apply Is_true_eq_true in H
  | H : bool_decide _ = true |- _ => apply bool_decide_eq_true in H
  | H : bool_decide _ = false |- _ => apply bool_decide_eq_false in H
  end.

(** Case analysis on the first [if] or [match] of the goal, with its equation. *)
Ltac case_if :=
  match goal with
  | |- context [if ?c then _ else _] => let E := fresh "Hc" in destruct c eqn:E
  end.

(** ** Slices: [nil] is not the empty slice *)

(** A Go slice read where [nil] and [[]T{}] are told apart. *)
Notation slice A := (option (list A)) (only parsing).

(** The elements of a slice, as [range] and [len] see them. *)
Definition elems {A} (s : slice A) : list A := default [] s.

Definition is_nil {A} (s : option A) : bool :=
  match s with None => true | Some _ => false end.

Lemma is_nil_false {A} (o : option A) : is_nil o = false <-> is_Some o.
Proof. destruct o as [a|]; split; try done; by intros [? [=]]. Qed.

Lemma is_nil_true {A} (o : option A) : is_nil o = true <-> o = None.
Proof. by destruct o. Qed.

(** ** Lists *)

Fixpoint index_of {A} (p : A -> bool) (l : list A) : option nat :=
  match l with
  | [] => None
  | x :: l' => if p x then Some 0%nat else S <$> index_of p l'
  end.

(** [slices.ContainsFunc] is the Standard Library's [existsb]. *)
Definition mem {A} `{EqDecision A} (x : A) (l : list A) : bool :=
  bool_decide (x ∈ l).

Section Lists.
Context {A : Type}.

Lemma existsb_true (p : A -> bool) (l : list A) :
  existsb p l = true <-> exists x, x ∈ l /\ p x = true.
Proof. rewrite existsb_exists. setoid_rewrite list_elem_of_In. done. Qed.

Lemma existsb_false (p : A -> bool) (l : list A) :
  existsb p l = false <-> Forall (fun x => p x = false) l.
Proof.
  rewrite <- not_true_iff_false, existsb_true, Forall_forall. split.
  - intros H x Hx. destruct (p x) eqn:E; [|done]. exfalso. eauto.
  - intros H (x & Hx & Hp). specialize (H x Hx). congruence.
Qed.

Lemma forallb_true (p : A -> bool) (l : list A) :
  forallb p l = true <-> Forall (fun x => p x = true) l.
Proof. rewrite forallb_forall, Forall_forall. setoid_rewrite list_elem_of_In. done. Qed.

Lemma mem_true `{EqDecision A} (x : A) l : mem x l = true <-> x ∈ l.
Proof. apply bool_decide_eq_true. Qed.

Lemma mem_false `{EqDecision A} (x : A) l : mem x l = false <-> x ∉ l.
Proof. apply bool_decide_eq_false. Qed.

Lemma elem_of_drop (x : A) n l : x ∈ drop n l -> x ∈ l.
Proof. intros H. rewrite <- (take_drop n l). apply elem_of_app. by right. Qed.

Lemma StronglySorted_drop (R : relation A) n l :
  StronglySorted R l -> StronglySorted R (drop n l).
Proof.
  revert n. induction l as [|x l IH]; intros [|n] H; try done. cbn [drop]. apply IH.
  by apply StronglySorted_cons in H as [_ H].
Qed.

Lemma StronglySorted_lookup_lt (R : relation A) l i j x y :
  StronglySorted R l -> (i < j)%nat -> l !! i = Some x -> l !! j = Some y -> R x y.
Proof.
  revert i j. induction l as [|z l IH]; intros i j Hs Hij Hx Hy; [done|].
  apply StronglySorted_cons in Hs as [Hall Hs]. destruct j as [|j]; [lia|].
  destruct i as [|i]; cbn in *.
  - injection Hx as ->. rewrite Forall_forall in Hall. apply Hall, list_elem_of_lookup. eauto.
  - eapply (IH i j); eauto. lia.
Qed.

Lemma Forall_app_inv (P : A -> Prop) l1 l2 :
  Forall P (l1 ++ l2) -> Forall P l1 /\ Forall P l2.
Proof. apply Forall_app. Qed.
End Lists.

(** A loop that appends one element a turn is [map]. *)
Lemma foldl_snoc_map {A B} (f : A -> B) (l : list A) acc :
  foldl (fun out x => out ++ [f x]) acc l = acc ++ (f <$> l).
Proof.
  revert acc. induction l as [|x l IH]; intros acc; cbn [foldl]; [by rewrite app_nil_r|].
  rewrite IH, <- app_assoc. done.
Qed.

(** A loop that keeps the elements that pass a test is [filter]. *)
Lemma foldl_keeps {A} (p : A -> bool) (f : list A -> A -> list A) (l acc : list A) :
  (forall out x, f out x = if p x then out ++ [x] else out) -> foldl f acc l = acc ++ List.filter p l.
Proof.
  intros Hf. revert acc. induction l as [|x l IH]; intros acc; cbn [foldl List.filter]; [by rewrite app_nil_r|].
  rewrite IH, Hf. destruct (p x); [by rewrite <- app_assoc|done].
Qed.

Lemma list_filter_elem {A} (p : A -> bool) (l : list A) x : x ∈ List.filter p l <-> x ∈ l /\ p x = true.
Proof. rewrite !list_elem_of_In. apply filter_In. Qed.

Lemma list_filter_NoDup {A} (p : A -> bool) (l : list A) : NoDup l -> NoDup (List.filter p l).
Proof. rewrite !NoDup_ListNoDup. apply List.NoDup_filter. Qed.

Lemma list_filter_sorted {A} (R : relation A) (p : A -> bool) (l : list A) : StronglySorted R l -> StronglySorted R (List.filter p l).
Proof.
  induction 1 as [|x l Hl IH Hx]; cbn [List.filter]; [constructor|]. destruct (p x); [|done]. constructor; [done|].
  apply Forall_forall. intros y [Hy _]%list_filter_elem. by eapply Forall_forall in Hx.
Qed.

(** ** The first occurrences in a list *)

Section Firsts.
Context {A : Type} `{EqDecision A}.

(** A loop that keeps what it has not seen. *)
Definition firsts_from (out l : list A) : list A := foldl (fun out x => if decide (x ∈ out) then out else out ++ [x]) out l.
Definition firsts (l : list A) : list A := firsts_from [] l.

Lemma firsts_from_elem out l x : x ∈ firsts_from out l <-> x ∈ out \/ x ∈ l.
Proof.
  revert out. induction l as [|y l IH]; intros out; cbn; [rewrite elem_of_nil; tauto|].
  fold (firsts_from (if decide (y ∈ out) then out else out ++ [y]) l). rewrite IH, elem_of_cons.
  destruct (decide (y ∈ out)); [naive_solver|]. rewrite elem_of_app, list_elem_of_singleton. tauto.
Qed.

Lemma firsts_from_nodup out l : NoDup out -> NoDup (firsts_from out l).
Proof.
  revert out. induction l as [|y l IH]; intros out H; [done|]. cbn. apply IH. destruct (decide (y ∈ out)); [done|].
  apply NoDup_app. split_and!; [done| |apply NoDup_singleton]. by intros x Hx ->%list_elem_of_singleton.
Qed.

Lemma firsts_elem l x : x ∈ firsts l <-> x ∈ l.
Proof. unfold firsts. rewrite firsts_from_elem, elem_of_nil. tauto. Qed.

Lemma firsts_nodup l : NoDup (firsts l).
Proof. apply firsts_from_nodup. constructor. Qed.

Lemma firsts_app l l' : firsts (l ++ l') = firsts_from (firsts l) l'.
Proof. apply foldl_app. Qed.

Lemma firsts_from_id out l : NoDup (out ++ l) -> firsts_from out l = out ++ l.
Proof.
  revert out. induction l as [|y l IH]; intros out H; [by rewrite app_nil_r|]. cbn.
  rewrite decide_False by (intros Hy; apply NoDup_app in H as (_ & H & _); by apply (H y); [|left]).
  change (firsts_from (out ++ [y]) l = out ++ y :: l). rewrite IH; rewrite <- app_assoc; done.
Qed.
End Firsts.

(** ** A stable sort

    [slices.SortStableFunc] by a number: an element goes before the first one
    whose key is as large, and the elements are put in from the last to the
    first. *)

Section StableSort.
Context {A : Type} (key : A -> nat).

Fixpoint stable_insert (x : A) (l : list A) : list A :=
  match l with
  | [] => [x]
  | y :: l' => if (key x <=? key y)%nat then x :: l else y :: stable_insert x l'
  end.
Definition stable_sort (l : list A) : list A := foldr stable_insert [] l.

Lemma stable_insert_perm x l : Permutation (stable_insert x l) (x :: l).
Proof.
  induction l as [|y l IH]; cbn; [done|]. destruct (_ <=? _)%nat; [done|]. rewrite IH. apply perm_swap.
Qed.

Lemma stable_sort_perm l : Permutation (stable_sort l) l.
Proof. induction l as [|x l IH]; cbn; [done|]. by rewrite stable_insert_perm, IH. Qed.

Lemma stable_sort_elem x l : x ∈ stable_sort l <-> x ∈ l.
Proof. by rewrite stable_sort_perm. Qed.

Lemma stable_insert_sorted x l :
  StronglySorted (fun x y => (key x <= key y)%nat) l -> StronglySorted (fun x y => (key x <= key y)%nat) (stable_insert x l).
Proof.
  induction 1 as [|y l Hl IH Hy]; cbn; [by repeat constructor|]. destruct (Nat.leb_spec (key x) (key y)) as [H|H].
  - constructor; [by constructor|]. constructor; [done|]. eapply Forall_impl; [exact Hy|]. cbn. lia.
  - constructor; [done|]. rewrite stable_insert_perm. constructor; [|done]. lia.
Qed.

Lemma stable_sort_sorted l : StronglySorted (fun x y => (key x <= key y)%nat) (stable_sort l).
Proof. induction l as [|x l IH]; cbn; [constructor|]. by apply stable_insert_sorted. Qed.

Lemma stable_insert_stable k x l : filter (fun y => key y = k) (stable_insert x l) = filter (fun y => key y = k) (x :: l).
Proof.
  induction l as [|y l IH]; cbn [stable_insert]; [done|]. destruct (Nat.leb_spec (key x) (key y)) as [H|H]; [done|].
  rewrite !filter_cons, IH, filter_cons. repeat case_decide; congruence || lia.
Qed.

Lemma stable_sort_stable k l : filter (fun y => key y = k) (stable_sort l) = filter (fun y => key y = k) l.
Proof.
  induction l as [|x l IH]; [done|]. change (stable_sort (x :: l)) with (stable_insert x (stable_sort l)).
  rewrite stable_insert_stable, !filter_cons. by rewrite IH.
Qed.
End StableSort.

Create Rewrite HintDb brig_bool.
#[export] Hint Rewrite @existsb_true @existsb_false @forallb_true @mem_true @mem_false : brig_bool.

(** ** [sort.Search] *)

(** The binary search loop: [i] and [j] close in on the least index in [i, j]
    where [f] holds, for an [f] that stays true once it is. *)
Fixpoint search_loop (fuel : nat) (f : nat -> bool) (i j : nat) : nat :=
  match fuel with
  | O => i
  | S k =>
    if (i <? j)%nat then
      let h := ((i + j) / 2)%nat in
      if f h then search_loop k f i h else search_loop k f (h + 1) j
    else i
  end.

(** [sort.Search(n, f)].  Each turn removes at least one index, so [n] turns
    are enough. *)
Definition sort_search (n : nat) (f : nat -> bool) : nat := search_loop n f 0 n.

Lemma search_loop_spec fuel f i j n :
  (forall a b, (a <= b)%nat -> (b < n)%nat -> f a = true -> f b = true) ->
  (i <= j)%nat -> (j <= n)%nat -> (j - i <= fuel)%nat ->
  (forall a, (a < i)%nat -> f a = false) -> (forall a, (j <= a < n)%nat -> f a = true) ->
  let r := search_loop fuel f i j in
  (r <= n)%nat /\ (forall a, (a < r)%nat -> f a = false) /\
  (forall a, (r <= a < n)%nat -> f a = true).
Proof.
  intros Hmono. revert i j. induction fuel as [|k IH]; intros i j Hij Hjn Hfuel Hlo Hhi.
  - cbn. assert (i = j) as -> by lia. auto.
  - cbn [search_loop]. destruct (Nat.ltb_spec i j) as [Hlt|Hge].
    + assert (i <= (i + j) / 2 < j)%nat as Hh.
      { split; [apply Nat.div_le_lower_bound; lia | apply Nat.Div0.div_lt_upper_bound; lia]. }
      destruct (f ((i + j) / 2)%nat) eqn:E.
      * apply IH; try lia; [done|]. intros a Ha.
        destruct (Nat.lt_ge_cases a j); [|apply Hhi; lia].
        eapply Hmono; [ | |exact E]; lia.
      * apply IH; try lia; [|done]. intros a Ha.
        destruct (f a) eqn:Ea; [|done]. rewrite <- E. symmetry.
        eapply Hmono; [ | |exact Ea]; lia.
    + assert (i = j) as -> by lia. auto.
Qed.

Lemma sort_search_spec n f :
  (forall a b, (a <= b)%nat -> (b < n)%nat -> f a = true -> f b = true) ->
  (sort_search n f <= n)%nat /\ (forall a, (a < sort_search n f)%nat -> f a = false) /\
  (forall a, (sort_search n f <= a < n)%nat -> f a = true).
Proof. intros H. apply (search_loop_spec n f 0 n n); try done; lia. Qed.
