(* ===== verification/GoUnicode.v ===== *)
(** * Runes: UTF-8 and the case tables of Go's [unicode] package

    Go strings are byte strings.  [range], [strings.ToLower], [strings.EqualFold]
    and the [unicode] predicates read them as UTF-8, with an invalid byte read as
    U+FFFD and a width of one.  This file models the decoder, the encoder and the
    simple case mappings; [GoStrings] builds the string functions on them. *)

From S2P Require Import Prelude.
From stdpp Require Import prelude list strings.
From Stdlib Require Import ZArith Lia Ascii.

(** A Go byte, and a Go [string] or [[]byte] read as a value. *)
Abbreviation byte := ascii (only parsing).
Abbreviation gostr := (list ascii).

(** A string literal. *)
Definition lit (s : string) : gostr := String.list_ascii_of_string s.
Arguments lit s%_string_scope.

(** ** Bytes as integers *)

Definition bz (c : byte) : Z := Z.of_N (N_of_ascii c).

(** The conversion [byte(z)], which keeps the low eight bits. *)
Definition zb (z : Z) : byte := ascii_of_N (Z.to_N (z mod 256)).

Lemma bz_range c : (0 <= bz c < 256)%Z.
Proof. unfold bz. pose proof (N_ascii_bounded c). lia. Qed.

Lemma zb_bz c : zb (bz c) = c.
Proof.
  unfold zb. pose proof (bz_range c). rewrite Z.mod_small by lia.
  unfold bz. rewrite N2Z.id. apply ascii_N_embedding.
Qed.

Lemma bz_zb z : bz (zb z) = (z mod 256)%Z.
Proof.
  unfold bz, zb. pose proof (Z.mod_pos_bound z 256 eq_refl).
  rewrite N_ascii_embedding by lia. lia.
Qed.

Lemma bz_inj c d : bz c = bz d -> c = d.
Proof. intros H. rewrite <- (zb_bz c), <- (zb_bz d), H. done. Qed.

Lemma bz_zb_small z : (0 <= z < 256)%Z -> bz (zb z) = z.
Proof. intros H. rewrite bz_zb. apply Z.mod_small. lia. Qed.

Create Rewrite HintDb brig_byte.
#[export] Hint Rewrite zb_bz : brig_byte.

(** [lo <= z && z <= hi]. *)
Definition in_range (lo hi z : Z) : bool := (lo <=? z)%Z && (z <=? hi)%Z.

Lemma in_range_true lo hi z : in_range lo hi z = true <-> (lo <= z <= hi)%Z.
Proof. unfold in_range. rewrite andb_true_iff, !Z.leb_le. lia. Qed.

(** ** [utf8.DecodeRuneInString] *)

Definition rune_error : Z := 65533.

(** The second byte's range, by the first byte. *)
Definition second_range (b0 : Z) : Z * Z :=
  if (b0 =? 224)%Z then (160, 191)%Z
  else if (b0 =? 237)%Z then (128, 159)%Z
  else if (b0 =? 240)%Z then (144, 191)%Z
  else if (b0 =? 244)%Z then (128, 143)%Z
  else (128, 191)%Z.

Definition cont (b : Z) : bool := in_range 128 191 b.

(** The first rune of [s] and its width in bytes; the width of an empty string
    is zero. *)
Definition decode_rune (s : gostr) : Z * nat :=
  match s with
  | [] => (rune_error, 0%nat)
  | c0 :: s1 =>
    let b0 := bz c0 in
    if (b0 <? 128)%Z then (b0, 1%nat)
    else
      let '(lo, hi) := second_range b0 in
      match s1 with
      | [] => (rune_error, 1%nat)
      | c1 :: s2 =>
        let b1 := bz c1 in
        if negb (in_range 194 244 b0 && in_range lo hi b1) then (rune_error, 1%nat)
        else if (b0 <? 224)%Z then ((b0 - 192) * 64 + (b1 - 128), 2%nat)%Z
        else match s2 with
        | [] => (rune_error, 1%nat)
        | c2 :: s3 =>
          let b2 := bz c2 in
          if negb (cont b2) then (rune_error, 1%nat)
          else if (b0 <? 240)%Z
          then (((b0 - 224) * 64 + (b1 - 128)) * 64 + (b2 - 128), 3%nat)%Z
          else match s3 with
          | [] => (rune_error, 1%nat)
          | c3 :: _ =>
            let b3 := bz c3 in
            if negb (cont b3) then (rune_error, 1%nat)
            else ((((b0 - 240) * 64 + (b1 - 128)) * 64 + (b2 - 128)) * 64 + (b3 - 128), 4%nat)%Z
          end
        end
      end
  end.

(** The runes of a string, as [range] yields them. *)
Fixpoint runes_fuel (fuel : nat) (s : gostr) : list Z :=
  match fuel, s with
  | _, [] => []
  | O, _ => []
  | S f, _ => let '(r, n) := decode_rune s in r :: runes_fuel f (drop n s)
  end.
Definition runes (s : gostr) : list Z := runes_fuel (length s) s.

(** [utf8.AppendRune]: the encoding of a rune, U+FFFD for one that has none. *)
Definition encode_rune (r : Z) : gostr :=
  if in_range 0 127 r then [zb r]
  else if in_range 128 2047 r then [zb (192 + r / 64); zb (128 + r mod 64)]
  else if in_range 55296 57343 r || negb (in_range 0 1114111 r)
  then [zb 239; zb 191; zb 189]
  else if (r <? 65536)%Z
  then [zb (224 + r / 4096); zb (128 + r / 64 mod 64); zb (128 + r mod 64)]
  else [zb (240 + r / 262144); zb (128 + r / 4096 mod 64);
        zb (128 + r / 64 mod 64); zb (128 + r mod 64)].

Definition is_ascii (c : byte) : bool := (bz c <? 128)%Z.

Lemma decode_rune_ascii c s : is_ascii c = true -> decode_rune (c :: s) = (bz c, 1%nat).
Proof. unfold is_ascii. simpl. intros ->. done. Qed.

Lemma decode_rune_width c s : (1 <= (decode_rune (c :: s)).2)%nat.
Proof. simpl. repeat case_match; simpl; lia. Qed.

Lemma runes_fuel_enough f s : (length s <= f)%nat -> runes_fuel f s = runes s.
Proof.
  unfold runes. revert f s.
  assert (forall n f s, (length s <= n)%nat -> (length s <= f)%nat ->
    runes_fuel n s = runes_fuel f s) as H.
  { induction n as [|n IH]; intros f [|c s] Hn Hf; try (destruct f; done); simpl in Hn; [lia|].
    destruct f as [|f]; simpl in Hf; [lia|].
    cbn [runes_fuel]. pose proof (decode_rune_width c s).
    destruct (decode_rune (c :: s)) as [r w]. cbn [snd] in *. f_equal.
    apply IH; rewrite length_drop; cbn [length]; lia. }
  intros f s Hf. apply H; lia.
Qed.

Lemma runes_cons c s :
  runes (c :: s) = (decode_rune (c :: s)).1 :: runes (drop (decode_rune (c :: s)).2 (c :: s)).
Proof.
  unfold runes at 1. cbn [length runes_fuel].
  pose proof (decode_rune_width c s). destruct (decode_rune (c :: s)) as [r w] eqn:E.
  cbn [fst snd] in *. f_equal. apply runes_fuel_enough.
  rewrite length_drop. cbn [length]. lia.
Qed.

Lemma runes_ascii s : Forall (fun c => is_ascii c = true) s -> runes s = bz <$> s.
Proof.
  induction 1 as [|c s Hc Hs IH]; [done|].
  rewrite runes_cons, decode_rune_ascii by done. cbn [fst snd].
  rewrite skipn_cons, skipn_O, IH. done.
Qed.

Lemma encode_rune_ascii c : is_ascii c = true -> encode_rune (bz c) = [c].
Proof.
  unfold is_ascii, encode_rune. intros H%Z.ltb_lt. pose proof (bz_range c).
  replace (in_range 0 127 (bz c)) with true; [by rewrite zb_bz|].
  symmetry. apply in_range_true. lia.
Qed.

(** A rune that is not an error is decoded from its own bytes. *)
Lemma decode_rune_take s r n t :
  decode_rune s = (r, n) -> (r =? rune_error)%Z && (n =? 1)%nat = false -> s <> [] ->
  decode_rune (take n s ++ t) = (r, n) /\ (n <= length s)%nat /\ (1 <= n)%nat.
Proof.
  intros E Hne Hs. destruct s as [|c0 s1]; [done|]. clear Hs. revert E Hne. unfold decode_rune.
  destruct (Z.ltb_spec (bz c0) 128) as [Hlt|Hge].
  - intros [= <- <-] _. cbn [take app length]. destruct (Z.ltb_spec (bz c0) 128); [|lia].
    split; [done|lia].
  - destruct (second_range (bz c0)) as [lo hi] eqn:Esr.
    destruct s1 as [|c1 s2]; [by intros [= <- <-]|].
    destruct (negb _) eqn:E1; [by intros [= <- <-]|].
    destruct (bz c0 <? 224)%Z eqn:E2.
    { intros [= <- <-] _. cbn [take app length]. destruct (Z.ltb_spec (bz c0) 128); [lia|].
      rewrite Esr, E1, E2. split; [done|lia]. }
    destruct s2 as [|c2 s3]; [by intros [= <- <-]|].
    destruct (negb (cont (bz c2))) eqn:E3; [by intros [= <- <-]|].
    destruct (bz c0 <? 240)%Z eqn:E4.
    { intros [= <- <-] _. cbn [take app length]. destruct (Z.ltb_spec (bz c0) 128); [lia|].
      rewrite Esr, E1, E2, E3, E4. split; [done|lia]. }
    destruct s3 as [|c3 s4]; [by intros [= <- <-]|].
    destruct (negb (cont (bz c3))) eqn:E5; [by intros [= <- <-]|].
    intros [= <- <-] _. cbn [take app length]. destruct (Z.ltb_spec (bz c0) 128); [lia|].
    rewrite Esr, E1, E2, E3, E4, E5. split; [done|lia].
Qed.

(** The bytes of a rune after its first are not ASCII. *)
Lemma decode_rune_tail c s r n :
  decode_rune (c :: s) = (r, n) -> (r =? rune_error)%Z && (n =? 1)%nat = false ->
  Forall (fun x => is_ascii x = false) (take (n - 1) s).
Proof.
  assert (forall x, (128 <= bz x)%Z -> is_ascii x = false) as Ha.
  { intros x Hx. unfold is_ascii. by apply Z.ltb_ge. }
  assert (forall x, negb (cont (bz x)) = false -> is_ascii x = false) as Hc.
  { intros x Hx. apply Ha. apply negb_false_iff in Hx. unfold cont in Hx. apply in_range_true in Hx. lia. }
  unfold decode_rune. destruct (bz c <? 128)%Z; [intros [= <- <-] _; constructor|].
  destruct (second_range (bz c)) as [lo hi] eqn:Esr.
  destruct s as [|c1 s2]; [by intros [= <- <-]|].
  destruct (negb _) eqn:E1; [by intros [= <- <-]|].
  assert (is_ascii c1 = false) as H1.
  { apply negb_false_iff, andb_true_iff in E1 as [_ E1]. apply in_range_true in E1. apply Ha.
    unfold second_range in Esr. repeat case_match; injection Esr as <- <-; lia. }
  destruct (bz c <? 224)%Z; [intros [= <- <-] _; by repeat constructor|].
  destruct s2 as [|c2 s3]; [by intros [= <- <-]|].
  destruct (negb (cont (bz c2))) eqn:E3; [by intros [= <- <-]|].
  destruct (bz c <? 240)%Z; [intros [= <- <-] _; cbn; auto|].
  destruct s3 as [|c3 s4]; [by intros [= <- <-]|].
  destruct (negb (cont (bz c3))) eqn:E5; [by intros [= <- <-]|].
  intros [= <- <-] _. cbn. auto 10.
Qed.

(** ** Simple case mappings *)

(** One run of a case table: the code points [lo], [lo + step], up to [hi] map
    to themselves plus [delta]. *)
Record case_run := R { run_lo : Z; run_hi : Z; run_step : Z; run_delta : Z }.

Definition in_run (r : Z) (t : case_run) : bool :=
  in_range (run_lo t) (run_hi t) r && ((r - run_lo t) mod run_step t =? 0)%Z.

Definition map_case (table : list case_run) (r : Z) : Z :=
  match find (in_run r) table with Some t => r + run_delta t | None => r end.

(** The code points above U+007F whose simple lower case mapping is another
    code point. *)
Definition lower_runs : list case_run := Eval cbv in
  [
   R 192 214 1 (32); R 216 222 1 (32); R 256 302 2 (1); R 304 304 1 (-199);
   R 306 310 2 (1); R 313 327 2 (1); R 330 374 2 (1); R 376 376 1 (-121);
   R 377 381 2 (1); R 385 385 1 (210); R 386 388 2 (1); R 390 390 1 (206);
   R 391 391 1 (1); R 393 394 1 (205); R 395 395 1 (1); R 398 398 1 (79);
   R 399 399 1 (202); R 400 400 1 (203); R 401 401 1 (1); R 403 403 1 (205);
   R 404 404 1 (207); R 406 406 1 (211); R 407 407 1 (209); R 408 408 1 (1);
   R 412 412 1 (211); R 413 413 1 (213); R 415 415 1 (214); R 416 420 2 (1);
   R 422 422 1 (218); R 423 423 1 (1); R 425 425 1 (218); R 428 428 1 (1);
   R 430 430 1 (218); R 431 431 1 (1); R 433 434 1 (217); R 435 437 2 (1);
   R 439 439 1 (219); R 440 440 1 (1); R 444 444 1 (1); R 452 452 1 (2);
   R 453 453 1 (1); R 455 455 1 (2); R 456 456 1 (1); R 458 458 1 (2);
   R 459 475 2 (1); R 478 494 2 (1); R 497 497 1 (2); R 498 500 2 (1);
   R 502 502 1 (-97); R 503 503 1 (-56); R 504 542 2 (1); R 544 544 1 (-130);
   R 546 562 2 (1); R 570 570 1 (10795); R 571 571 1 (1); R 573 573 1 (-163);
   R 574 574 1 (10792); R 577 577 1 (1); R 579 579 1 (-195); R 580 580 1 (69);
   R 581 581 1 (71); R 582 590 2 (1); R 880 882 2 (1); R 886 886 1 (1);
   R 895 895 1 (116); R 902 902 1 (38); R 904 906 1 (37); R 908 908 1 (64);
   R 910 911 1 (63); R 913 929 1 (32); R 931 939 1 (32); R 975 975 1 (8);
   R 984 1006 2 (1); R 1012 1012 1 (-60); R 1015 1015 1 (1); R 1017 1017 1 (-7);
   R 1018 1018 1 (1); R 1021 1023 1 (-130); R 1024 1039 1 (80); R 1040 1071 1 (32);
   R 1120 1152 2 (1); R 1162 1214 2 (1); R 1216 1216 1 (15); R 1217 1229 2 (1);
   R 1232 1326 2 (1); R 1329 1366 1 (48); R 4256 4293 1 (7264); R 4295 4295 1 (7264);
   R 4301 4301 1 (7264); R 5024 5103 1 (38864); R 5104 5109 1 (8); R 7312 7354 1 (-3008);
   R 7357 7359 1 (-3008); R 7680 7828 2 (1); R 7838 7838 1 (-7615); R 7840 7934 2 (1);
   R 7944 7951 1 (-8); R 7960 7965 1 (-8); R 7976 7983 1 (-8); R 7992 7999 1 (-8);
   R 8008 8013 1 (-8); R 8025 8031 2 (-8); R 8040 8047 1 (-8); R 8072 8079 1 (-8);
   R 8088 8095 1 (-8); R 8104 8111 1 (-8); R 8120 8121 1 (-8); R 8122 8123 1 (-74);
   R 8124 8124 1 (-9); R 8136 8139 1 (-86); R 8140 8140 1 (-9); R 8152 8153 1 (-8);
   R 8154 8155 1 (-100); R 8168 8169 1 (-8); R 8170 8171 1 (-112); R 8172 8172 1 (-7);
   R 8184 8185 1 (-128); R 8186 8187 1 (-126); R 8188 8188 1 (-9); R 8486 8486 1 (-7517);
   R 8490 8490 1 (-8383); R 8491 8491 1 (-8262); R 8498 8498 1 (28); R 8544 8559 1 (16);
   R 8579 8579 1 (1); R 9398 9423 1 (26); R 11264 11311 1 (48); R 11360 11360 1 (1);
   R 11362 11362 1 (-10743); R 11363 11363 1 (-3814); R 11364 11364 1 (-10727); R 11367 11371 2 (1);
   R 11373 11373 1 (-10780); R 11374 11374 1 (-10749); R 11375 11375 1 (-10783); R 11376 11376 1 (-10782);
   R 11378 11378 1 (1); R 11381 11381 1 (1); R 11390 11391 1 (-10815); R 11392 11490 2 (1);
   R 11499 11501 2 (1); R 11506 11506 1 (1); R 42560 42604 2 (1); R 42624 42650 2 (1);
   R 42786 42798 2 (1); R 42802 42862 2 (1); R 42873 42875 2 (1); R 42877 42877 1 (-35332);
   R 42878 42886 2 (1); R 42891 42891 1 (1); R 42893 42893 1 (-42280); R 42896 42898 2 (1);
   R 42902 42920 2 (1); R 42922 42922 1 (-42308); R 42923 42923 1 (-42319); R 42924 42924 1 (-42315);
   R 42925 42925 1 (-42305); R 42926 42926 1 (-42308); R 42928 42928 1 (-42258); R 42929 42929 1 (-42282);
   R 42930 42930 1 (-42261); R 42931 42931 1 (928); R 42932 42946 2 (1); R 42948 42948 1 (-48);
   R 42949 42949 1 (-42307); R 42950 42950 1 (-35384); R 42951 42953 2 (1); R 42960 42960 1 (1);
   R 42966 42968 2 (1); R 42997 42997 1 (1); R 65313 65338 1 (32); R 66560 66599 1 (40);
   R 66736 66771 1 (40); R 66928 66938 1 (39); R 66940 66954 1 (39); R 66956 66962 1 (39);
   R 66964 66965 1 (39); R 68736 68786 1 (64); R 71840 71871 1 (32); R 93760 93791 1 (32);
   R 125184 125217 1 (34)]%Z.

(** The code points above U+007F whose simple upper case mapping is another
    code point. *)
Definition upper_runs : list case_run := Eval cbv in
  [
   R 181 181 1 (743); R 224 246 1 (-32); R 248 254 1 (-32); R 255 255 1 (121);
   R 257 303 2 (-1); R 305 305 1 (-232); R 307 311 2 (-1); R 314 328 2 (-1);
   R 331 375 2 (-1); R 378 382 2 (-1); R 383 383 1 (-300); R 384 384 1 (195);
   R 387 389 2 (-1); R 392 392 1 (-1); R 396 396 1 (-1); R 402 402 1 (-1);
   R 405 405 1 (97); R 409 409 1 (-1); R 410 410 1 (163); R 414 414 1 (130);
   R 417 421 2 (-1); R 424 424 1 (-1); R 429 429 1 (-1); R 432 432 1 (-1);
   R 436 438 2 (-1); R 441 441 1 (-1); R 445 445 1 (-1); R 447 447 1 (56);
   R 453 453 1 (-1); R 454 454 1 (-2); R 456 456 1 (-1); R 457 457 1 (-2);
   R 459 459 1 (-1); R 460 460 1 (-2); R 462 476 2 (-1); R 477 477 1 (-79);
   R 479 495 2 (-1); R 498 498 1 (-1); R 499 499 1 (-2); R 501 501 1 (-1);
   R 505 543 2 (-1); R 547 563 2 (-1); R 572 572 1 (-1); R 575 576 1 (10815);
   R 578 578 1 (-1); R 583 591 2 (-1); R 592 592 1 (10783); R 593 593 1 (10780);
   R 594 594 1 (10782); R 595 595 1 (-210); R 596 596 1 (-206); R 598 599 1 (-205);
   R 601 601 1 (-202); R 603 603 1 (-203); R 604 604 1 (42319); R 608 608 1 (-205);
   R 609 609 1 (42315); R 611 611 1 (-207); R 613 613 1 (42280); R 614 614 1 (42308);
   R 616 616 1 (-209); R 617 617 1 (-211); R 618 618 1 (42308); R 619 619 1 (10743);
   R 620 620 1 (42305); R 623 623 1 (-211); R 625 625 1 (10749); R 626 626 1 (-213);
   R 629 629 1 (-214); R 637 637 1 (10727); R 640 640 1 (-218); R 642 642 1 (42307);
   R 643 643 1 (-218); R 647 647 1 (42282); R 648 648 1 (-218); R 649 649 1 (-69);
   R 650 651 1 (-217); R 652 652 1 (-71); R 658 658 1 (-219); R 669 669 1 (42261);
   R 670 670 1 (42258); R 837 837 1 (84); R 881 883 2 (-1); R 887 887 1 (-1);
   R 891 893 1 (130); R 940 940 1 (-38); R 941 943 1 (-37); R 945 961 1 (-32);
   R 962 962 1 (-31); R 963 971 1 (-32); R 972 972 1 (-64); R 973 974 1 (-63);
   R 976 976 1 (-62); R 977 977 1 (-57); R 981 981 1 (-47); R 982 982 1 (-54);
   R 983 983 1 (-8); R 985 1007 2 (-1); R 1008 1008 1 (-86); R 1009 1009 1 (-80);
   R 1010 1010 1 (7); R 1011 1011 1 (-116); R 1013 1013 1 (-96); R 1016 1016 1 (-1);
   R 1019 1019 1 (-1); R 1072 1103 1 (-32); R 1104 1119 1 (-80); R 1121 1153 2 (-1);
   R 1163 1215 2 (-1); R 1218 1230 2 (-1); R 1231 1231 1 (-15); R 1233 1327 2 (-1);
   R 1377 1414 1 (-48); R 4304 4346 1 (3008); R 4349 4351 1 (3008); R 5112 5117 1 (-8);
   R 7296 7296 1 (-6254); R 7297 7297 1 (-6253); R 7298 7298 1 (-6244); R 7299 7300 1 (-6242);
   R 7301 7301 1 (-6243); R 7302 7302 1 (-6236); R 7303 7303 1 (-6181); R 7304 7304 1 (35266);
   R 7545 7545 1 (35332); R 7549 7549 1 (3814); R 7566 7566 1 (35384); R 7681 7829 2 (-1);
   R 7835 7835 1 (-59); R 7841 7935 2 (-1); R 7936 7943 1 (8); R 7952 7957 1 (8);
   R 7968 7975 1 (8); R 7984 7991 1 (8); R 8000 8005 1 (8); R 8017 8023 2 (8);
   R 8032 8039 1 (8); R 8048 8049 1 (74); R 8050 8053 1 (86); R 8054 8055 1 (100);
   R 8056 8057 1 (128); R 8058 8059 1 (112); R 8060 8061 1 (126); R 8064 8071 1 (8);
   R 8080 8087 1 (8); R 8096 8103 1 (8); R 8112 8113 1 (8); R 8115 8115 1 (9);
   R 8126 8126 1 (-7205); R 8131 8131 1 (9); R 8144 8145 1 (8); R 8160 8161 1 (8);
   R 8165 8165 1 (7); R 8179 8179 1 (9); R 8526 8526 1 (-28); R 8560 8575 1 (-16);
   R 8580 8580 1 (-1); R 9424 9449 1 (-26); R 11312 11359 1 (-48); R 11361 11361 1 (-1);
   R 11365 11365 1 (-10795); R 11366 11366 1 (-10792); R 11368 11372 2 (-1); R 11379 11379 1 (-1);
   R 11382 11382 1 (-1); R 11393 11491 2 (-1); R 11500 11502 2 (-1); R 11507 11507 1 (-1);
   R 11520 11557 1 (-7264); R 11559 11559 1 (-7264); R 11565 11565 1 (-7264); R 42561 42605 2 (-1);
   R 42625 42651 2 (-1); R 42787 42799 2 (-1); R 42803 42863 2 (-1); R 42874 42876 2 (-1);
   R 42879 42887 2 (-1); R 42892 42892 1 (-1); R 42897 42899 2 (-1); R 42900 42900 1 (48);
   R 42903 42921 2 (-1); R 42933 42947 2 (-1); R 42952 42954 2 (-1); R 42961 42961 1 (-1);
   R 42967 42969 2 (-1); R 42998 42998 1 (-1); R 43859 43859 1 (-928); R 43888 43967 1 (-38864);
   R 65345 65370 1 (-32); R 66600 66639 1 (-40); R 66776 66811 1 (-40); R 66967 66977 1 (-39);
   R 66979 66993 1 (-39); R 66995 67001 1 (-39); R 67003 67004 1 (-39); R 68800 68850 1 (-64);
   R 71872 71903 1 (-32); R 93792 93823 1 (-32); R 125218 125251 1 (-34)]%Z.

(** [unicode.ToLower]. *)
Definition rune_lower (r : Z) : Z :=
  if (r <? 128)%Z then (if in_range 65 90 r then r + 32 else r)%Z
  else map_case lower_runs r.

(** [unicode.ToUpper]. *)
Definition rune_upper (r : Z) : Z :=
  if (r <? 128)%Z then (if in_range 97 122 r then r - 32 else r)%Z
  else map_case upper_runs r.

(** The representative of a rune's [unicode.SimpleFold] orbit.  U+0130 and
    U+0131 fold to themselves alone. *)
Definition rune_fold (r : Z) : Z :=
  if ((r =? 304) || (r =? 305))%Z then r else rune_lower (rune_upper r).

(** [unicode.IsSpace]. *)
Definition rune_space (r : Z) : bool :=
  in_range 9 13 r || existsb (Z.eqb r) [32; 133; 160; 5760; 8232; 8233; 8239; 8287; 12288]%Z
  || in_range 8192 8202 r.

(** [unicode.IsControl]. *)
Definition rune_control (r : Z) : bool := in_range 0 31 r || in_range 127 159 r.

(** Only an ASCII byte decodes to an ASCII rune. *)
Lemma decode_rune_not_ascii c s : is_ascii c = false -> (128 <= (decode_rune (c :: s)).1)%Z.
Proof.
  unfold is_ascii. intros Hc. cbn [decode_rune]. rewrite Hc. apply Z.ltb_ge in Hc.
  assert (128 <= rune_error)%Z as He by (vm_compute; congruence). cbv zeta.
  destruct (second_range (bz c)) as [lo hi] eqn:Er.
  assert ((128 <= lo)%Z /\ (bz c = 224 -> lo = 160)%Z /\ (bz c = 240 -> lo = 144)%Z) as (L0 & L1 & L2).
  { revert Er. unfold second_range. repeat case_match; intros [= <- <-]; rewrite ?Z.eqb_eq, ?Z.eqb_neq in *; lia. }
  destruct s as [|c1 s]; [done|].
  destruct (negb _) eqn:E; [done|]. apply negb_false_iff, andb_true_iff in E as [E0 E1].
  apply in_range_true in E0, E1.
  destruct (Z.ltb_spec (bz c) 224); [cbn [fst]; lia|].
  destruct s as [|c2 s]; [done|]. destruct (negb (cont (bz c2))) eqn:F2; [done|].
  apply negb_false_iff in F2. unfold cont in F2. apply in_range_true in F2.
  destruct (Z.ltb_spec (bz c) 240); [cbn [fst]; lia|].
  destruct s as [|c3 s]; [done|]. destruct (negb (cont (bz c3))) eqn:F3; [done|].
  apply negb_false_iff in F3. unfold cont in F3. apply in_range_true in F3. cbn [fst]. lia.
Qed.

(** A string whose runes are all ASCII is ASCII. *)
Lemma runes_all_ascii s : Forall (fun r => (r < 128)%Z) (runes s) -> Forall (fun c => is_ascii c = true) s.
Proof.
  induction s as [|c s IH]; [constructor|]. rewrite runes_cons. intros H.
  destruct (is_ascii c) eqn:E.
  - rewrite decode_rune_ascii in H by done. cbn [fst snd drop] in H. apply Forall_cons in H as [_ H]. constructor; [done|by apply IH].
  - pose proof (decode_rune_not_ascii c s E) as Hn. destruct (decode_rune (c :: s)) as [r n]. cbn in *.
    apply Forall_cons in H as [H _]. lia.
Qed.
