(* ===== verification/GoStrings.v ===== *)
(** * Go's [strings] and [bytes] functions on byte lists

    The functions the modelled packages call, each with the lemmas its callers
    use.  A [string] and a [[]byte] read as a value are both lists of bytes. *)

From S2P Require Import Prelude GoUnicode.
From stdpp Require Import prelude list strings sorting.
From Stdlib Require Import ZArith Lia Ascii.

(** ** Prefixes and suffixes *)

Fixpoint strip_prefix (p s : gostr) : option gostr :=
  match p, s with
  | [], _ => Some s
  | a :: p', b :: s' => if Ascii.eqb a b then strip_prefix p' s' else None
  | _ :: _, [] => None
  end.

(** [strings.HasPrefix], [CutPrefix], [TrimPrefix]. *)
Definition has_prefix (s p : gostr) : bool :=
  match strip_prefix p s with Some _ => true | None => false end.
Definition trim_prefix (s p : gostr) : gostr := default s (strip_prefix p s).

Definition strip_suffix (p s : gostr) : option gostr :=
  reverse <$> strip_prefix (reverse p) (reverse s).

(** [strings.HasSuffix], [CutSuffix], [TrimSuffix]. *)
Definition has_suffix (s p : gostr) : bool :=
  match strip_suffix p s with Some _ => true | None => false end.
Definition trim_suffix (s p : gostr) : gostr := default s (strip_suffix p s).

Lemma strip_prefix_Some p s r : strip_prefix p s = Some r <-> s = p ++ r.
Proof.
  revert s. induction p as [|a p IH]; intros [|b s]; simpl; try (split; congruence).
  - destruct (Ascii.eqb_spec a b) as [->|Hne].
    + rewrite IH. split; [by intros -> | by intros [= ->]].
    + split; [done | intros [= <- _]; done].
Qed.

Lemma strip_prefix_app p s : strip_prefix p (p ++ s) = Some s.
Proof. by apply strip_prefix_Some. Qed.

Lemma has_prefix_true s p : has_prefix s p = true <-> exists r, s = p ++ r.
Proof.
  unfold has_prefix. destruct (strip_prefix p s) as [r|] eqn:E.
  - apply strip_prefix_Some in E. naive_solver.
  - split; [done|]. intros (r & ->). rewrite strip_prefix_app in E. done.
Qed.

Lemma strip_suffix_Some p s r : strip_suffix p s = Some r <-> s = r ++ p.
Proof.
  unfold strip_suffix. rewrite fmap_Some. split.
  - intros (x & H%strip_prefix_Some & ->).
    apply (f_equal reverse) in H. rewrite reverse_involutive, reverse_app, reverse_involutive in H. done.
  - intros ->. exists (reverse r). rewrite reverse_involutive. split; [|done].
    apply strip_prefix_Some. apply reverse_app.
Qed.

Lemma has_suffix_true s p : has_suffix s p = true <-> exists r, s = r ++ p.
Proof.
  unfold has_suffix. destruct (strip_suffix p s) as [r|] eqn:E.
  - apply strip_suffix_Some in E. naive_solver.
  - split; [done|]. intros (r & ->).
    rewrite (proj2 (strip_suffix_Some p (r ++ p) r) eq_refl) in E. done.
Qed.

(** ** Searching *)

(** The text before and after the first occurrence of [sep]. *)
Fixpoint cut_at (sep s : gostr) : option (gostr * gostr) :=
  match strip_prefix sep s with
  | Some r => Some ([], r)
  | None =>
    match s with
    | [] => None
    | c :: s' =>
      match cut_at sep s' with
      | Some (a, b) => Some (c :: a, b)
      | None => None
      end
    end
  end.

(** [before, after, found := strings.Cut(s, sep)]. *)
Definition cut (s sep : gostr) : gostr * gostr * bool :=
  match cut_at sep s with
  | Some (a, b) => (a, b, true)
  | None => (s, [], false)
  end.

(** [strings.Contains]. *)
Definition contains (s sub : gostr) : bool :=
  match cut_at sub s with Some _ => true | None => false end.

(** [sub] occurs in [s]. *)
Definition occurs (sub s : gostr) : Prop := exists a b, s = a ++ sub ++ b.

Lemma cut_at_Some sep s a b : cut_at sep s = Some (a, b) -> s = a ++ sep ++ b.
Proof.
  revert a b. induction s as [|c s IH]; intros a b.
  - simpl. destruct (strip_prefix sep []) as [r|] eqn:E; [|done].
    intros [= <- <-]. apply strip_prefix_Some in E. done.
  - cbn [cut_at]. destruct (strip_prefix sep (c :: s)) as [r|] eqn:E.
    + intros [= <- <-]. apply strip_prefix_Some in E. done.
    + destruct (cut_at sep s) as [[a' b']|]; [|done].
      intros [= <- <-]. simpl. f_equal. auto.
Qed.

Lemma cut_at_first sep s a b x y :
  cut_at sep s = Some (a, b) -> s = x ++ sep ++ y -> (length a <= length x)%nat.
Proof.
  revert a b x. induction s as [|c s IH]; intros a b x.
  - simpl. destruct (strip_prefix sep []); [intros [= <- <-]; simpl; lia | done].
  - cbn [cut_at]. destruct (strip_prefix sep (c :: s)) as [r|] eqn:E.
    + intros [= <- <-]. simpl. lia.
    + destruct (cut_at sep s) as [[a' b']|] eqn:E'; [|done]. intros [= <- <-].
      destruct x as [|d x]; simpl; intros Hs.
      * rewrite Hs, strip_prefix_app in E. done.
      * injection Hs as -> ->. specialize (IH a' b' x eq_refl eq_refl). lia.
Qed.

Lemma cut_at_None sep s : cut_at sep s = None <-> ~ occurs sep s.
Proof.
  split.
  - intros H (a & b & ->). revert H. induction a as [|c a IH]; simpl.
    + destruct (sep ++ b) eqn:E; simpl; rewrite <- E, strip_prefix_app; done.
    + destruct (strip_prefix sep (c :: a ++ sep ++ b)); [done|].
      destruct (cut_at sep (a ++ sep ++ b)) as [[]|]; [done|auto].
  - intros H. destruct (cut_at sep s) as [[a b]|] eqn:E; [|done].
    exfalso. apply H. exists a, b. by apply cut_at_Some.
Qed.

Lemma contains_true s sub : contains s sub = true <-> occurs sub s.
Proof.
  unfold contains. destruct (cut_at sub s) as [[a b]|] eqn:E.
  - split; [|done]. intros _. exists a, b. by apply cut_at_Some.
  - apply cut_at_None in E. split; [done|contradiction].
Qed.

Lemma contains_false s sub : contains s sub = false <-> ~ occurs sub s.
Proof. rewrite <- contains_true. destruct (contains s sub); split; congruence. Qed.

Lemma occurs_app_l sub s t : occurs sub s -> occurs sub (s ++ t).
Proof. intros (a & b & ->). exists a, (b ++ t). by rewrite <- !app_assoc. Qed.

Lemma occurs_app_r sub s t : occurs sub t -> occurs sub (s ++ t).
Proof. intros (a & b & ->). exists (s ++ a), b. by rewrite <- !app_assoc. Qed.

Lemma occurs_refl s : occurs s s.
Proof. exists [], []. by rewrite app_nil_r. Qed.

Lemma occurs_trans s t u : occurs s t -> occurs t u -> occurs s u.
Proof. intros (a & b & ->) H. destruct H as (c & d & ->).
  exists (c ++ a), (b ++ d). by rewrite <- !app_assoc. Qed.

#[export] Instance occurs_dec sub s : Decision (occurs sub s).
Proof.
  destruct (contains s sub) eqn:E; [left; by apply contains_true | right; by apply contains_false].
Defined.

#[export] Hint Resolve occurs_app_l occurs_app_r occurs_refl : brig.

Lemma cut_at_byte (c : byte) s : cut_at [c] s = None <-> c ∉ s.
Proof.
  rewrite cut_at_None. split; intros H.
  - intros Hin. apply H. apply list_elem_of_split in Hin as (a & b & ->). by exists a, b.
  - intros (a & b & ->). apply H. rewrite !elem_of_app. right. left. constructor.
Qed.

Lemma cut_at_byte_app (c : byte) a b : c ∉ a -> cut_at [c] (a ++ c :: b) = Some (a, b).
Proof.
  induction a as [|x a IH]; intros Hin; cbn [app cut_at strip_prefix].
  - by destruct (Ascii.eqb_spec c c).
  - apply not_elem_of_cons in Hin as [Hx Hin]. destruct (Ascii.eqb_spec c x) as [->|_]; [done|].
    by rewrite IH.
Qed.

Lemma cut_at_byte_inv (c : byte) s a b : cut_at [c] s = Some (a, b) -> s = a ++ c :: b /\ c ∉ a.
Proof.
  intros H. split; [by apply cut_at_Some in H|]. intros Hin.
  pose proof (cut_at_Some _ _ _ _ H) as Hs.
  apply list_elem_of_split in Hin as (x & y & Ha). subst a.
  assert (s = x ++ [c] ++ (y ++ [c] ++ b)) as Hs' by (rewrite Hs, <- app_assoc; done).
  pose proof (cut_at_first _ _ _ _ _ _ H Hs') as Hl. rewrite length_app in Hl. cbn in Hl. lia.
Qed.

(** A byte that a text lacks keeps its occurrences on one side. *)
Lemma occurs_split (c : byte) w a b : c ∉ w -> w <> [] -> occurs w (a ++ c :: b) -> occurs w a \/ occurs w b.
Proof.
  intros Hc Hw (x & y & H).
  apply app_eq_inv in H as [(k & -> & H)|(k & -> & H)].
  - apply app_eq_inv in H as [(k' & -> & H)|(k' & -> & H)].
    + destruct k' as [|d k']; cbn [app] in H.
      * left. exists x, []. by rewrite !app_nil_r.
      * injection H as -> _. exfalso. apply Hc. rewrite elem_of_app. right. constructor.
    + left. by exists x, k'.
  - destruct k as [|d k]; cbn [app] in H.
    + destruct w as [|e w]; [done|]. injection H as -> _. exfalso. apply Hc. constructor.
    + injection H as -> H. right. by exists k, y.
Qed.

Lemma occurs_nil w : occurs w [] -> w = [].
Proof. intros (a & b & H). symmetry in H. apply app_eq_nil in H as [_ H]. by apply app_eq_nil in H as [-> _]. Qed.

(** [strings.IndexByte(s, c) >= 0]. *)
Definition has_byte (c : byte) (s : gostr) : bool := existsb (Ascii.eqb c) s.

Lemma has_byte_true c s : has_byte c s = true <-> c ∈ s.
Proof.
  unfold has_byte. rewrite existsb_true. split.
  - intros (x & Hx & ->%Ascii.eqb_eq). done.
  - intros H. exists c. rewrite Ascii.eqb_refl. done.
Qed.

(** [strings.IndexFunc(s, f) >= 0]. *)
Definition has_rune (f : Z -> bool) (s : gostr) : bool := existsb f (runes s).

(** [strings.ContainsAny(s, chars)]. *)
Definition contains_any (s chars : gostr) : bool :=
  has_rune (fun r => existsb (Z.eqb r) (runes chars)) s.

(** The first [n] runes' worth of bytes before the first rune that [f] accepts:
    [s[:i]] for [i := strings.IndexFunc(s, f)], or [None] when there is none. *)
Fixpoint before_rune_fuel (fuel : nat) (f : Z -> bool) (s : gostr) : option gostr :=
  match fuel, s with
  | _, [] => None
  | O, _ => None
  | S k, _ =>
    let '(r, n) := decode_rune s in
    if f r then Some [] else (fun t => take n s ++ t) <$> before_rune_fuel k f (drop n s)
  end.
Definition before_rune (f : Z -> bool) (s : gostr) : option gostr :=
  before_rune_fuel (length s) f s.

(** [if i := strings.IndexAny(s, chars); i >= 0 { s = s[:i] }]. *)
Definition before_any (s chars : gostr) : gostr :=
  default s (before_rune (fun r => existsb (Z.eqb r) (runes chars)) s).

(** [strings.Count(s, sub)] for a [sub] that is not empty: the occurrences that
    do not overlap, from the left. *)
Fixpoint count_fuel (fuel : nat) (s sub : gostr) : nat :=
  match fuel with
  | O => 0
  | S k => match cut_at sub s with Some (_, r) => S (count_fuel k r sub) | None => 0 end
  end.
Definition count (s sub : gostr) : nat := count_fuel (S (length s)) s sub.

(** ** Splitting and joining *)

(** [strings.Split(s, c)] on a separator of one byte. *)
Fixpoint split_byte (c : byte) (s : gostr) : list gostr :=
  match s with
  | [] => [[]]
  | d :: s' =>
    if Ascii.eqb d c then [] :: split_byte c s'
    else match split_byte c s' with
         | w :: ws => (d :: w) :: ws
         | [] => [[d]]
         end
  end.

(** [strings.SplitN(s, c, n)] for [n] at least one. *)
Fixpoint split_byte_n (n : nat) (c : byte) (s : gostr) : list gostr :=
  match n with
  | O => []
  | S O => [s]
  | S k =>
    match cut_at [c] s with
    | Some (a, b) => a :: split_byte_n k c b
    | None => [s]
    end
  end.

(** [strings.Join]. *)
Fixpoint join (sep : gostr) (l : list gostr) : gostr :=
  match l with
  | [] => []
  | [w] => w
  | w :: ws => w ++ sep ++ join sep ws
  end.

Lemma split_byte_not_nil c s : split_byte c s <> [].
Proof. destruct s; simpl; repeat case_match; done. Qed.

Lemma split_byte_no_sep c s : Forall (fun w => c ∉ w) (split_byte c s).
Proof.
  induction s as [|d s IH]; simpl.
  - repeat constructor. apply not_elem_of_nil.
  - destruct (Ascii.eqb_spec d c) as [->|Hne].
    + constructor; [apply not_elem_of_nil | done].
    + destruct (split_byte c s) as [|w ws]; [constructor; [|done]|].
      * by intros ->%list_elem_of_singleton.
      * apply Forall_cons in IH as [H1 H2]. constructor; [|done].
        rewrite not_elem_of_cons. split; congruence.
Qed.

Lemma join_split_byte c s : join [c] (split_byte c s) = s.
Proof.
  induction s as [|d s IH]; [done|]. simpl.
  destruct (Ascii.eqb_spec d c) as [->|Hne].
  - destruct (split_byte c s) eqn:E; [by apply split_byte_not_nil in E|].
    change (join [c] ([] :: l :: l0)) with ([] ++ [c] ++ join [c] (l :: l0)). by rewrite IH.
  - destruct (split_byte c s) as [|w ws] eqn:E; [by apply split_byte_not_nil in E|].
    destruct ws; simpl in *; by rewrite IH.
Qed.

Lemma split_byte_app c a s : c ∉ a -> split_byte c (a ++ c :: s) = a :: split_byte c s.
Proof.
  induction a as [|d a IH]; intros H; cbn [app split_byte]; [by rewrite Ascii.eqb_refl|].
  apply not_elem_of_cons in H as [Hd Ha]. destruct (Ascii.eqb_spec d c) as [->|_]; [done|]. by rewrite IH.
Qed.

Lemma split_byte_none c a : c ∉ a -> split_byte c a = [a].
Proof.
  induction a as [|d a IH]; intros H; cbn [split_byte]; [done|].
  apply not_elem_of_cons in H as [Hd Ha]. destruct (Ascii.eqb_spec d c) as [->|_]; [done|]. by rewrite IH.
Qed.

Lemma split_byte_join c l : l <> [] -> Forall (fun w => c ∉ w) l -> split_byte c (join [c] l) = l.
Proof.
  intros Hne. induction 1 as [|w l Hw Hl IH]; [done|]. destruct l as [|w' l]; [by apply split_byte_none|].
  change (join [c] (w :: w' :: l)) with (w ++ c :: join [c] (w' :: l)). rewrite split_byte_app by done. by rewrite IH.
Qed.

(** ** Replacing *)

(** [strings.ReplaceAll(s, old, new)] for an [old] that is not empty. *)
Fixpoint replace_skip (old new : gostr) (skip : nat) (s : gostr) : gostr :=
  match s with
  | [] => []
  | c :: s' =>
    match skip with
    | S k => replace_skip old new k s'
    | O =>
      match strip_prefix old s with
      | Some _ => new ++ replace_skip old new (length old - 1) s'
      | None => c :: replace_skip old new 0 s'
      end
    end
  end.
Definition replace_all (old new s : gostr) : gostr := replace_skip old new 0 s.

Lemma replace_skip_drop old new k s :
  replace_skip old new k s = replace_skip old new 0 (drop k s).
Proof.
  revert k. induction s as [|c s IH]; intros [|k]; try done.
  cbn [replace_skip drop]. rewrite IH. done.
Qed.

Lemma replace_all_nil old new : replace_all old new [] = [].
Proof. done. Qed.

Lemma replace_all_hit old new s :
  old <> [] -> replace_all old new (old ++ s) = new ++ replace_all old new s.
Proof.
  intros Hne. destruct old as [|o old]; [done|]. unfold replace_all.
  rewrite <- app_comm_cons. cbn [replace_skip].
  rewrite app_comm_cons, strip_prefix_app, replace_skip_drop. cbn [length].
  replace (S (length old) - 1)%nat with (length old) by lia.
  by rewrite drop_app_length.
Qed.

Lemma replace_all_miss old new c s :
  ~ (exists r, c :: s = old ++ r) ->
  replace_all old new (c :: s) = c :: replace_all old new s.
Proof.
  intros H. unfold replace_all. cbn [replace_skip].
  destruct (strip_prefix old (c :: s)) as [r|] eqn:E; [|done].
  exfalso. apply H. exists r. by apply strip_prefix_Some.
Qed.

(** [strings.Replace(s, old, new, 1)] for an [old] that is not empty. *)
Definition replace_first (old new s : gostr) : gostr :=
  match cut_at old s with
  | Some (a, b) => a ++ new ++ b
  | None => s
  end.

(** ** Case *)

(** [strings.ToLower], [strings.ToUpper]: an invalid byte becomes U+FFFD. *)
Definition to_lower (s : gostr) : gostr := runes s ≫= fun r => encode_rune (rune_lower r).
Definition to_upper (s : gostr) : gostr := runes s ≫= fun r => encode_rune (rune_upper r).

(** [strings.EqualFold]. *)
Definition equal_fold (s t : gostr) : bool :=
  bool_decide (rune_fold <$> runes s = rune_fold <$> runes t).

(** The lower case of an ASCII byte. *)
Definition lower_byte (c : byte) : byte := if in_range 65 90 (bz c) then zb (bz c + 32) else c.

Definition all_ascii (s : gostr) : bool := forallb is_ascii s.

Lemma all_ascii_Forall s : all_ascii s = true <-> Forall (fun c => is_ascii c = true) s.
Proof. apply forallb_true. Qed.

Lemma is_ascii_bz c : is_ascii c = true <-> (0 <= bz c < 128)%Z.
Proof. unfold is_ascii. rewrite Z.ltb_lt. pose proof (bz_range c). lia. Qed.

Lemma rune_lower_ascii c : is_ascii c = true -> encode_rune (rune_lower (bz c)) = [lower_byte c].
Proof.
  intros Hc. pose proof Hc as H%is_ascii_bz. unfold rune_lower, lower_byte.
  replace (bz c <? 128)%Z with true by (symmetry; apply Z.ltb_lt; lia).
  destruct (in_range 65 90 (bz c)) eqn:E; [|by apply encode_rune_ascii].
  apply in_range_true in E. unfold encode_rune.
  replace (in_range 0 127 (bz c + 32)) with true; [done|].
  symmetry. apply in_range_true. lia.
Qed.

Lemma to_lower_ascii s : all_ascii s = true -> to_lower s = lower_byte <$> s.
Proof.
  rewrite all_ascii_Forall. intros H. unfold to_lower. rewrite runes_ascii by done.
  induction H as [|c s Hc Hs IH]; [done|].
  cbn [fmap list_fmap mbind list_bind]. cbn. rewrite rune_lower_ascii by done. simpl. f_equal. apply IH.
Qed.

Lemma lower_byte_idem c : lower_byte (lower_byte c) = lower_byte c.
Proof.
  unfold lower_byte at 2 3. destruct (in_range 65 90 (bz c)) eqn:E; unfold lower_byte; [|by rewrite E].
  apply in_range_true in E. rewrite bz_zb_small by lia.
  destruct (in_range 65 90 (bz c + 32)) eqn:E2; [|done].
  apply in_range_true in E2. lia.
Qed.

Lemma lower_byte_ascii c : is_ascii c = true -> is_ascii (lower_byte c) = true.
Proof.
  rewrite !is_ascii_bz. unfold lower_byte. destruct (in_range 65 90 (bz c)) eqn:E; [|done].
  apply in_range_true in E. rewrite bz_zb_small by lia. lia.
Qed.

Lemma equal_fold_refl s : equal_fold s s = true.
Proof. by apply bool_decide_eq_true. Qed.

Lemma equal_fold_sym s t : equal_fold s t = equal_fold t s.
Proof. apply bool_decide_ext. split; congruence. Qed.

Lemma equal_fold_trans s t u :
  equal_fold s t = true -> equal_fold t u = true -> equal_fold s u = true.
Proof. unfold equal_fold. rewrite !bool_decide_eq_true. congruence. Qed.

(** ** Trimming *)

Fixpoint trim_left_fuel (fuel : nat) (f : Z -> bool) (s : gostr) : gostr :=
  match fuel, s with
  | _, [] => []
  | O, _ => s
  | S k, _ => let '(r, n) := decode_rune s in if f r then trim_left_fuel k f (drop n s) else s
  end.
(** [strings.TrimLeftFunc]. *)
Definition trim_left (f : Z -> bool) (s : gostr) : gostr := trim_left_fuel (length s) f s.

(** The length of the longest end of [s] whose runes [f] all accepts, read as
    [strings.TrimRightFunc] reads it: rune by rune from the right, where the
    last rune of a string is the longest valid encoding that ends it. *)
Definition last_rune (s : gostr) : Z * nat :=
  let try (n : nat) :=
    let t := drop (length s - n) s in
    if bool_decide (n <= length s)%nat
    then let '(r, w) := decode_rune t in if bool_decide (w = n) then Some (r, n) else None
    else None in
  match s with
  | [] => (rune_error, 0%nat)
  | _ =>
    match try 4%nat, try 3%nat, try 2%nat, try 1%nat with
    | Some x, _, _, _ => x
    | None, Some x, _, _ => x
    | None, None, Some x, _ => x
    | None, None, None, Some x => x
    | None, None, None, None => (rune_error, 1%nat)
    end
  end.

Fixpoint trim_right_fuel (fuel : nat) (f : Z -> bool) (s : gostr) : gostr :=
  match fuel, s with
  | _, [] => []
  | O, _ => s
  | S k, _ =>
    let '(r, n) := last_rune s in
    if f r then trim_right_fuel k f (take (length s - n) s) else s
  end.
Definition trim_right (f : Z -> bool) (s : gostr) : gostr := trim_right_fuel (length s) f s.

(** [strings.TrimSpace]. *)
Definition trim_space (s : gostr) : gostr := trim_right rune_space (trim_left rune_space s).

(** [strings.Trim(s, cutset)]. *)
Definition trim (s cutset : gostr) : gostr :=
  let f := fun r => existsb (Z.eqb r) (runes cutset) in trim_right f (trim_left f s).

(** [strings.Fields]: what is between runs of white space. *)
Fixpoint fields_fuel (fuel : nat) (s : gostr) : list gostr :=
  match fuel with
  | O => []
  | S k =>
    let s := trim_left rune_space s in
    if bool_decide (s = []) then []
    else match before_rune rune_space s with
         | Some w => w :: fields_fuel k (drop (length w) s)
         | None => [s]
         end
  end.
Definition fields (s : gostr) : list gostr := fields_fuel (S (length s)) s.

Lemma trim_left_occurs f s : occurs (trim_left f s) s.
Proof.
  unfold trim_left. generalize (length s) as k. intros k. revert s.
  induction k as [|k IH]; intros [|c s]; try apply occurs_refl. cbn [trim_left_fuel].
  destruct (decode_rune (c :: s)) as [r n].
  case_if; [|apply occurs_refl]. eapply occurs_trans; [apply IH|].
  exists (take n (c :: s)), []. by rewrite app_nil_r, take_drop.
Qed.

Lemma trim_right_occurs f s : occurs (trim_right f s) s.
Proof.
  unfold trim_right. generalize (length s) as k. intros k. revert s.
  induction k as [|k IH]; intros [|c s]; try apply occurs_refl. cbn [trim_right_fuel].
  destruct (last_rune (c :: s)) as [r n].
  case_if; [|apply occurs_refl]. eapply occurs_trans; [apply IH|].
  exists [], (drop (length (c :: s) - n) (c :: s)). cbn [app]. by rewrite take_drop.
Qed.

Lemma trim_space_occurs s : occurs (trim_space s) s.
Proof. eapply occurs_trans; [apply trim_right_occurs|apply trim_left_occurs]. Qed.

Lemma trim_prefix_cases s p : s = p ++ trim_prefix s p \/ trim_prefix s p = s.
Proof.
  unfold trim_prefix. destruct (strip_prefix p s) as [r|] eqn:E; [|by right].
  left. by apply strip_prefix_Some in E.
Qed.

Lemma trim_suffix_cases s p : s = trim_suffix s p ++ p \/ trim_suffix s p = s.
Proof.
  unfold trim_suffix. destruct (strip_suffix p s) as [r|] eqn:E; [|by right].
  left. by apply strip_suffix_Some in E.
Qed.

Lemma occurs_Forall (P : byte -> Prop) sub s : occurs sub s -> Forall P s -> Forall P sub.
Proof. intros (a & b & ->). rewrite !Forall_app. tauto. Qed.

Lemma trim_suffix_occurs s p : occurs (trim_suffix s p) s.
Proof.
  destruct (trim_suffix_cases s p) as [E|E]; [|rewrite E; apply occurs_refl].
  exists [], p. exact E.
Qed.

Lemma last_rune_ascii s c : Forall (fun c => is_ascii c = true) (s ++ [c]) -> last_rune (s ++ [c]) = (bz c, 1%nat).
Proof.
  intros H. assert (forall n, (2 <= n)%nat -> (if bool_decide (n <= length (s ++ [c]))%nat
      then let '(r, w) := decode_rune (drop (length (s ++ [c]) - n) (s ++ [c])) in if bool_decide (w = n) then Some (r, n) else None
      else None) = None) as Hn.
  { intros n Hn. case_bool_decide as Hle; [|done]. destruct (drop (length (s ++ [c]) - n) (s ++ [c])) as [|d t] eqn:E.
    - apply (f_equal length) in E. rewrite length_drop in E. cbn in E. lia.
    - assert (is_ascii d = true) as Hd by (rewrite Forall_forall in H; apply H; apply (elem_of_drop d (length (s ++ [c]) - n)); rewrite E; by left).
      rewrite decode_rune_ascii by done. rewrite bool_decide_false by lia. done. }
  unfold last_rune. rewrite !Hn by lia. assert (drop (length (s ++ [c]) - 1) (s ++ [c]) = [c]) as ->.
  { rewrite length_app. cbn [length]. replace (length s + 1 - 1)%nat with (length s) by lia. by rewrite drop_app_length. }
  apply Forall_app in H as [_ H]. apply Forall_cons in H as [Hc _]. rewrite decode_rune_ascii by done.
  rewrite length_app. cbn [length]. rewrite !bool_decide_true by lia. by destruct s.
Qed.

(** The text before and after the last [c]. *)
Definition cut_last (c : byte) (s : gostr) : option (gostr * gostr) :=
  match cut_at [c] (rev s) with
  | Some (a, b) => Some (rev b, rev a)
  | None => None
  end.

Lemma cut_last_app c a b : c ∉ b -> cut_last c (a ++ c :: b) = Some (a, b).
Proof.
  intros H. unfold cut_last. rewrite rev_app_distr. cbn [rev]. rewrite <- app_assoc. cbn [app].
  rewrite cut_at_byte_app by (rewrite list_elem_of_In, <- in_rev, <- list_elem_of_In; done).
  by rewrite !rev_involutive.
Qed.

(** [net.JoinHostPort]. *)
Definition joinHostPort (host port : gostr) : gostr :=
  if has_byte ":" host then lit "[" ++ host ++ lit "]:" ++ port else host ++ lit ":" ++ port.

(** [net.SplitHostPort]; every error is refused alike by the callers. *)
Definition SplitHostPort (hostport : gostr) : option (gostr * gostr) :=
  match cut_last ":" hostport with
  | None => None
  | Some (before, port) =>
    match hostport with
    | c :: _ =>
      if Ascii.eqb c "[" then
        match cut_at (lit "]") hostport with
        | None => None
        | Some (bracketed, after) =>
          (* the bracket closes right in front of the last colon *)
          if negb (bool_decide (length before = S (length bracketed))) then None
          else if has_byte "[" (drop 1 hostport) || has_byte "]" after then None
          else Some (drop 1 bracketed, port)
        end
      else if has_byte ":" before then None
      else if has_byte "[" hostport || has_byte "]" hostport then None
      else Some (before, port)
    | [] => None
    end
  end.

Example split_host_port_1 :
  SplitHostPort (lit "[::1]:443") = Some (lit "::1", lit "443") /\ SplitHostPort (lit "a.b:80") = Some (lit "a.b", lit "80") /\
  SplitHostPort (lit "::1:80") = None /\ SplitHostPort (lit "a.b") = None /\ SplitHostPort (lit "[::1]x:80") = None /\
  SplitHostPort (lit ":80") = Some ([], lit "80") /\ SplitHostPort (lit "[::1]:") = Some (lit "::1", []).
Proof. vm_compute. done. Qed.

(** ** Order *)

(** Strings compare byte by byte. *)
Fixpoint str_leb (s t : gostr) : bool :=
  match s, t with
  | [], _ => true
  | _, [] => false
  | c :: s', d :: t' => if (bz c =? bz d)%Z then str_leb s' t' else (bz c <? bz d)%Z
  end.

Definition str_le (s t : gostr) : Prop := str_leb s t = true.

#[export] Instance str_le_dec : RelDecision str_le.
Proof. intros s t. unfold str_le. apply _. Defined.

#[export] Instance str_le_total : Total str_le.
Proof.
  intros s. unfold str_le. induction s as [|c s IH]; intros t; [by left|]. destruct t as [|d t]; [by right|].
  cbn [str_leb]. rewrite (Z.eqb_sym (bz d)). destruct (Z.eqb_spec (bz c) (bz d)); [apply IH|].
  rewrite !Z.ltb_lt. lia.
Qed.

#[export] Instance str_le_trans : Transitive str_le.
Proof.
  intros s. unfold str_le. induction s as [|c s IH]; intros [|d t] [|e u]; try done. cbn [str_leb].
  destruct (Z.eqb_spec (bz c) (bz d)), (Z.eqb_spec (bz d) (bz e)), (Z.eqb_spec (bz c) (bz e));
    rewrite ?Z.ltb_lt; (apply IH || (intros; exfalso; lia) || (intros; lia)).
Qed.

#[export] Instance str_le_antisym : AntiSymm (=) str_le.
Proof.
  intros s. unfold str_le. induction s as [|c s IH]; intros [|d t]; try done. cbn [str_leb].
  rewrite (Z.eqb_sym (bz d)). destruct (Z.eqb_spec (bz c) (bz d)) as [E|].
  - intros H1 H2. f_equal; [by apply bz_inj|by apply IH].
  - rewrite !Z.ltb_lt. lia.
Qed.

(** [sort.Strings] and [slices.Sort]. *)
Definition sort_strings (l : list gostr) : list gostr := merge_sort str_le l.

Lemma sort_strings_perm l : Permutation (sort_strings l) l.
Proof. apply merge_sort_Permutation. Qed.

Lemma sort_strings_sorted l : StronglySorted str_le (sort_strings l).
Proof. apply (StronglySorted_merge_sort str_le). Qed.
