(* ===== verification/GoNum.v ===== *)
(** * Decimal and hexadecimal numbers

    [strconv.FormatInt], [strconv.ParseInt] and [strconv.ParseUint] in base 10,
    and the round trips between them. *)

From stdpp Require Import prelude list strings.
From Stdlib Require Import ZArith Lia ZifyNat Ascii.
From S2P Require Import Prelude GoUnicode GoStrings.

Local Open Scope Z_scope.

Definition is_digit (c : byte) : bool := in_range 48 57 (bz c).

(** The decimal digits of a natural number, least first. *)
Fixpoint digits_rev (fuel : nat) (z : Z) : gostr :=
  match fuel with
  | O => []
  | S k => zb (48 + z mod 10) :: (if z <? 10 then [] else digits_rev k (z / 10))
  end.

(** [strconv.FormatUint(z, 10)].  A number below [2 ^ n] has at most [n]
    digits. *)
Definition utoa (z : Z) : gostr := rev (digits_rev (S (Z.to_nat (Z.log2 z))) z).

(** [strconv.Itoa] and [strconv.FormatInt(z, 10)]. *)
Definition itoa (z : Z) : gostr := if z <? 0 then "-"%char :: utoa (- z) else utoa z.

Fixpoint value_of (acc : Z) (s : gostr) : option Z :=
  match s with
  | [] => Some acc
  | c :: s' => if is_digit c then value_of (acc * 10 + (bz c - 48)) s' else None
  end.

(** A run of one or more decimal digits. *)
Definition parse_nat (s : gostr) : option Z :=
  match s with [] => None | _ => value_of 0 s end.

(** [strconv.ParseUint(s, 10, bits)]. *)
Definition parse_uint (bits : Z) (s : gostr) : option Z :=
  match parse_nat s with
  | Some z => if z <? 2 ^ bits then Some z else None
  | None => None
  end.

(** [strconv.ParseInt(s, 10, bits)]. *)
Definition parse_int (bits : Z) (s : gostr) : option Z :=
  match s with
  | c :: s' =>
    if Ascii.eqb c "-" then
      match parse_nat s' with
      | Some z => if z <=? 2 ^ (bits - 1) then Some (- z) else None
      | None => None
      end
    else
      match parse_nat (if Ascii.eqb c "+" then s' else s) with
      | Some z => if z <? 2 ^ (bits - 1) then Some z else None
      | None => None
      end
  | [] => None
  end.

Definition hex_digit_value (c : byte) : option Z :=
  let z := bz c in
  if in_range 48 57 z then Some (z - 48)
  else if in_range 97 102 z then Some (z - 87)
  else if in_range 65 70 z then Some (z - 55)
  else None.

(** ** Round trips *)

Lemma is_digit_zb d : 0 <= d < 10 -> is_digit (zb (48 + d)) = true /\ bz (zb (48 + d)) = 48 + d.
Proof.
  intros Hd. rewrite bz_zb_small by lia. split; [|done].
  unfold is_digit. rewrite bz_zb_small by lia. apply in_range_true. lia.
Qed.

Lemma value_of_app acc s t :
  value_of acc (s ++ t) = match value_of acc s with Some a => value_of a t | None => None end.
Proof. revert acc. induction s as [|c s IH]; intros acc; cbn; [done|]. case_if; [apply IH|done]. Qed.

Lemma digits_rev_spec fuel z acc :
  0 <= z < 2 ^ Z.of_nat fuel ->
  value_of acc (rev (digits_rev fuel z))
  = Some (acc * 10 ^ Z.of_nat (length (digits_rev fuel z)) + z).
Proof.
  revert z acc. induction fuel as [|k IH]; intros z acc Hz.
  - cbn in *. f_equal. lia.
  - cbn [digits_rev rev]. rewrite value_of_app.
    destruct (is_digit_zb (z mod 10) ltac:(apply Z.mod_pos_bound; lia)) as [Hd Hb].
    destruct (Z.ltb_spec z 10) as [Hlt|Hge].
    + cbn [rev value_of length]. rewrite Hd, Hb. f_equal.
      rewrite (Z.mod_small z 10) by lia. lia.
    + rewrite IH.
      2:{ rewrite Nat2Z.inj_succ, Z.pow_succ_r in Hz by lia. split; [apply Z.div_pos; lia|].
          apply Z.div_lt_upper_bound; lia. }
      cbn [value_of length]. rewrite Hd, Hb. f_equal.
      rewrite Nat2Z.inj_succ, Z.pow_succ_r by lia. pose proof (Z.div_mod z 10). lia.
Qed.

Lemma utoa_value z : 0 <= z -> value_of 0 (utoa z) = Some z.
Proof.
  intros Hz. unfold utoa. rewrite digits_rev_spec.
  - reflexivity.
  - rewrite Nat2Z.inj_succ. rewrite Z2Nat.id by apply Z.log2_nonneg.
    destruct (Z.eq_dec z 0) as [->|]; [done|]. pose proof (Z.log2_spec z ltac:(lia)). lia.
Qed.

Lemma utoa_digits z : 0 <= z -> Forall (fun c => is_digit c = true) (utoa z).
Proof.
  intros Hz. unfold utoa. apply Forall_rev. generalize (S (Z.to_nat (Z.log2 z))). intros fuel.
  revert z Hz. induction fuel as [|k IH]; intros z Hz; cbn [digits_rev]; constructor.
  - apply is_digit_zb. apply Z.mod_pos_bound. lia.
  - destruct (z <? 10); [constructor|]. apply IH. apply Z.div_pos; lia.
Qed.

Lemma utoa_cons z : exists c s, utoa z = c :: s.
Proof.
  unfold utoa. cbn [digits_rev rev]. destruct (rev _) as [|c s]; cbn; eauto.
Qed.

Lemma parse_nat_utoa z : 0 <= z -> parse_nat (utoa z) = Some z.
Proof.
  intros Hz. rewrite <- (utoa_value z Hz). unfold parse_nat.
  destruct (utoa_cons z) as (c & s & ->). done.
Qed.

(** No leading zero, but for zero itself. *)
Lemma utoa_no_leading_zero z c s : 0 < z -> utoa z = c :: s -> bz c <> 48.
Proof.
  intros Hz H. unfold utoa in H.
  assert (forall fuel z, 0 < z < 2 ^ Z.of_nat fuel ->
    exists d, last (digits_rev fuel z) = Some d /\ bz d <> 48) as Hl.
  { clear. induction fuel as [|k IH]; intros z Hz; [cbn in Hz; lia|]. cbn [digits_rev].
    rewrite Nat2Z.inj_succ, Z.pow_succ_r in Hz by lia.
    destruct (Z.ltb_spec z 10) as [Hlt|Hge].
    - eexists. split; [reflexivity|]. rewrite bz_zb_small by (rewrite Z.mod_small by lia; lia).
      rewrite Z.mod_small by lia. lia.
    - destruct (IH (z / 10)) as (d & Hd & Hne).
      { split; [apply Z.div_str_pos; lia | apply Z.div_lt_upper_bound; lia]. }
      exists d. split; [|done]. destruct (digits_rev k (z / 10)) as [|e l] eqn:E; [done|].
      rewrite <- Hd. done. }
  destruct (Hl (S (Z.to_nat (Z.log2 z))) z) as (d & Hd & Hne).
  { rewrite Nat2Z.inj_succ. rewrite Z2Nat.id by apply Z.log2_nonneg.
    pose proof (Z.log2_spec z Hz). lia. }
  apply last_Some in Hd as (l' & Hl'). rewrite Hl', rev_app_distr in H. cbn in H.
  injection H as <- _. done.
Qed.

Lemma parse_int_itoa bits z :
  - 2 ^ (bits - 1) <= z < 2 ^ (bits - 1) -> parse_int bits (itoa z) = Some z.
Proof.
  intros Hz. unfold itoa. destruct (Z.ltb_spec z 0) as [Hneg|Hpos].
  - cbn [parse_int]. change (Ascii.eqb "-" "-") with true. cbv iota.
    rewrite parse_nat_utoa by lia.
    destruct (Z.leb_spec (- z) (2 ^ (bits - 1))); [|lia]. f_equal. lia.
  - pose proof (parse_nat_utoa z Hpos) as Hp. pose proof (utoa_digits z Hpos) as Hd.
    destruct (utoa_cons z) as (c & s & Hc). rewrite Hc in *. cbn [parse_int].
    apply Forall_cons in Hd as [Hd _]. unfold is_digit in Hd. apply in_range_true in Hd.
    destruct (Ascii.eqb_spec c "-"); [subst; change (bz "-") with 45 in Hd; lia|].
    destruct (Ascii.eqb_spec c "+"); [subst; change (bz "+") with 43 in Hd; lia|].
    rewrite Hp. destruct (Z.ltb_spec z (2 ^ (bits - 1))); [done|lia].
Qed.

(** The range of an [int64]. *)
Definition int64 (z : Z) : Prop := - 2 ^ 63 <= z < 2 ^ 63.
