(* ===== verification/GoJson.v ===== *)
(** * [encoding/json]: what the program reads and writes with it

    A value is parsed as the scanner checks it and [unquoteBytes] reads its
    strings; an object keeps its members in order, duplicates included.  The
    writer is [appendString] with HTML escaping, which [json.Marshal] uses. *)

From stdpp Require Import prelude list strings.
From Stdlib Require Import ZArith Lia ZifyNat Ascii.
From S2P Require Import Prelude GoUnicode GoStrings GoNum.

Local Open Scope Z_scope.

(** A number keeps its literal: each reader converts it its own way. *)
Inductive json :=
  | JNull
  | JBool (b : bool)
  | JNum (literal : gostr)
  | JStr (s : gostr)
  | JArr (items : list json)
  | JObj (members : list (gostr * json)).

(** Induction on a value with the members and items of its parts. *)
Fixpoint json_nested_ind (P : json -> Prop)
    (Hnull : P JNull) (Hbool : forall b, P (JBool b)) (Hnum : forall n, P (JNum n)) (Hstr : forall s, P (JStr s))
    (Harr : forall l, Forall P l -> P (JArr l))
    (Hobj : forall ms, Forall (fun m => P m.2) ms -> P (JObj ms)) (v : json) : P v :=
  let rec := json_nested_ind P Hnull Hbool Hnum Hstr Harr Hobj in
  match v with
  | JNull => Hnull
  | JBool b => Hbool b
  | JNum n => Hnum n
  | JStr s => Hstr s
  | JArr l => Harr l ((fix go l : Forall P l :=
      match l with [] => List.Forall_nil _ | x :: l' => List.Forall_cons _ x l' (rec x) (go l') end) l)
  | JObj ms => Hobj ms ((fix go ms : Forall (fun m => P m.2) ms :=
      match ms with [] => List.Forall_nil _ | m :: ms' => List.Forall_cons _ m ms' (rec m.2) (go ms') end) ms)
  end.

Definition is_ws (c : byte) : bool :=
  (bz c =? 32) || (bz c =? 9) || (bz c =? 13) || (bz c =? 10).

Fixpoint skip_ws (s : gostr) : gostr :=
  match s with c :: s' => if is_ws c then skip_ws s' else s | [] => [] end.

(** ** Strings *)

Definition quote : byte := zb 34.

(** [getu4] after the backslash: [u] and four hex digits. *)
Definition getu4 (s : gostr) : option (Z * gostr) :=
  match s with
  | u :: a :: b :: c :: d :: s' =>
    if Ascii.eqb u "u" then
      match hex_digit_value a, hex_digit_value b, hex_digit_value c, hex_digit_value d with
      | Some a, Some b, Some c, Some d => Some (((a * 16 + b) * 16 + c) * 16 + d, s')
      | _, _, _, _ => None
      end
    else None
  | _ => None
  end.

Definition is_surrogate (r : Z) : bool := in_range 55296 57343 r.

(** [utf16.DecodeRune], [None] for U+FFFD. *)
Definition utf16_decode (r1 r2 : Z) : option Z :=
  if in_range 55296 56319 r1 && in_range 56320 57343 r2
  then Some ((r1 - 55296) * 1024 + (r2 - 56320) + 65536) else None.

(** The rune of a [\u] escape and what follows it.  A surrogate takes the
    escape after it when the two are a pair, and is U+FFFD when they are not. *)
Definition unicode_escape (s : gostr) : option (Z * gostr) :=
  match getu4 s with
  | None => None
  | Some (r, s') =>
    if is_surrogate r then
      match s' with
      | b :: s'' =>
        if Ascii.eqb b "\" then
          match getu4 s'' with
          | Some (r2, s3) =>
            match utf16_decode r r2 with Some d => Some (d, s3) | None => Some (rune_error, s') end
          | None => Some (rune_error, s')
          end
        else Some (rune_error, s')
      | [] => Some (rune_error, s')
      end
    else Some (r, s')
  end.

(** The byte of a one-character escape. *)
Definition simple_escape (c : byte) : option byte :=
  if Ascii.eqb c quote then Some quote
  else if Ascii.eqb c "\" then Some "\"%char
  else if Ascii.eqb c "/" then Some "/"%char
  else if Ascii.eqb c "b" then Some (zb 8)
  else if Ascii.eqb c "f" then Some (zb 12)
  else if Ascii.eqb c "n" then Some (zb 10)
  else if Ascii.eqb c "r" then Some (zb 13)
  else if Ascii.eqb c "t" then Some (zb 9)
  else None.

(** What follows an opening quote: the string and the bytes after its closing
    quote. *)
Fixpoint string_body (fuel : nat) (s : gostr) : option (gostr * gostr) :=
  match fuel with
  | O => None
  | S k =>
    match s with
    | [] => None
    | c :: s' =>
      if Ascii.eqb c quote then Some ([], s')
      else if Ascii.eqb c "\" then
        match s' with
        | [] => None
        | e :: s'' =>
          match simple_escape e with
          | Some b =>
            match string_body k s'' with Some (t, r) => Some (b :: t, r) | None => None end
          | None =>
            match unicode_escape s' with
            | Some (u, s3) =>
              match string_body k s3 with Some (t, r) => Some (encode_rune u ++ t, r) | None => None end
            | None => None
            end
          end
        end
      else if bz c <? 32 then None
      else
        let '(u, n) := decode_rune s in
        match string_body k (drop n s) with
        | Some (t, r) => Some (encode_rune u ++ t, r)
        | None => None
        end
    end
  end.

(** ** Numbers *)

Fixpoint span_digits (s : gostr) : gostr * gostr :=
  match s with
  | c :: s' => if is_digit c then let '(d, r) := span_digits s' in (c :: d, r) else ([], s)
  | [] => ([], [])
  end.

Definition is_sign (c : byte) : bool := Ascii.eqb c "+" || Ascii.eqb c "-".

(** An optional minus sign, an integer without leading zeros, an optional
    fraction and an optional exponent. *)
Definition number_frac (s : gostr) : option (gostr * gostr) :=
  match s with
  | c :: s' =>
    if Ascii.eqb c "." then
      let '(d, r) := span_digits s' in
      match d with [] => None | _ => Some (c :: d, r) end
    else Some ([], s)
  | [] => Some ([], [])
  end.

Definition number_exp (s : gostr) : option (gostr * gostr) :=
  match s with
  | c :: s' =>
    if Ascii.eqb c "e" || Ascii.eqb c "E" then
      let '(sg, s'') := match s' with x :: t => if is_sign x then ([x], t) else ([], s') | [] => ([], []) end in
      let '(d, r) := span_digits s'' in
      match d with [] => None | _ => Some (c :: sg ++ d, r) end
    else Some ([], s)
  | [] => Some ([], [])
  end.

Definition number_int (s : gostr) : option (gostr * gostr) :=
  match s with
  | c :: s' =>
    if Ascii.eqb c "0" then Some ([c], s')
    else if is_digit c then Some (span_digits s) else None
  | [] => None
  end.

Definition number (s : gostr) : option (gostr * gostr) :=
  let '(sg, s1) := match s with c :: t => if Ascii.eqb c "-" then ([c], t) else ([], s) | [] => ([], []) end in
  match number_int s1 with
  | None => None
  | Some (i, s2) =>
    match number_frac s2 with
    | None => None
    | Some (f, s3) =>
      match number_exp s3 with
      | None => None
      | Some (e, s4) => Some (sg ++ i ++ f ++ e, s4)
      end
    end
  end.

(** ** Values *)

(** [maxNestingDepth]. *)
Definition max_depth : Z := 10000.

Definition expect (c : byte) (s : gostr) : option gostr :=
  match skip_ws s with x :: s' => if Ascii.eqb x c then Some s' else None | [] => None end.

(** A string from its opening quote. *)
Definition json_string (s : gostr) : option (gostr * gostr) :=
  match s with
  | c :: s' => if Ascii.eqb c quote then string_body (length s') s' else None
  | [] => None
  end.

(** A value, after white space.  [members] and [items] read the rest of an
    object and of an array, from a member or an item on.  Two calls in a row read
    at least a byte, so twice the length of the input is fuel enough. *)
Fixpoint json_value (fuel : nat) (depth : Z) (s : gostr) : option (json * gostr) :=
  match fuel with
  | O => None
  | S k =>
    match skip_ws s with
    | [] => None
    | c :: s' =>
      if Ascii.eqb c "{" then
        if max_depth <? depth + 1 then None
        else
          match expect "}" s' with
          | Some r => Some (JObj [], r)
          | None =>
            match json_members k (depth + 1) s' with Some (m, r) => Some (JObj m, r) | None => None end
          end
      else if Ascii.eqb c "[" then
        if max_depth <? depth + 1 then None
        else
          match expect "]" s' with
          | Some r => Some (JArr [], r)
          | None =>
            match json_items k (depth + 1) s' with Some (m, r) => Some (JArr m, r) | None => None end
          end
      else if Ascii.eqb c quote then
        match string_body (length s') s' with Some (t, r) => Some (JStr t, r) | None => None end
      else
        match strip_prefix (lit "null") (c :: s'), strip_prefix (lit "true") (c :: s'),
              strip_prefix (lit "false") (c :: s') with
        | Some r, _, _ => Some (JNull, r)
        | _, Some r, _ => Some (JBool true, r)
        | _, _, Some r => Some (JBool false, r)
        | None, None, None =>
          match number (c :: s') with Some (n, r) => Some (JNum n, r) | None => None end
        end
    end
  end
with json_members (fuel : nat) (depth : Z) (s : gostr) : option (list (gostr * json) * gostr) :=
  match fuel with
  | O => None
  | S k =>
    match json_string (skip_ws s) with
    | None => None
    | Some (key, s1) =>
      match expect ":" s1 with
      | None => None
      | Some s2 =>
        match json_value k depth s2 with
        | None => None
        | Some (v, s3) =>
          match expect "," s3 with
          | Some s4 =>
            match json_members k depth s4 with Some (m, r) => Some ((key, v) :: m, r) | None => None end
          | None =>
            match expect "}" s3 with Some r => Some ([(key, v)], r) | None => None end
          end
        end
      end
    end
  end
with json_items (fuel : nat) (depth : Z) (s : gostr) : option (list json * gostr) :=
  match fuel with
  | O => None
  | S k =>
    match json_value k depth s with
    | None => None
    | Some (v, s1) =>
      match expect "," s1 with
      | Some s2 =>
        match json_items k depth s2 with Some (l, r) => Some (v :: l, r) | None => None end
      | None =>
        match expect "]" s1 with Some r => Some ([v], r) | None => None end
      end
    end
  end.

(** The whole input is one value. *)
Definition json_parse (s : gostr) : option json :=
  match json_value (S (2 * length s)) 0 s with
  | Some (v, r) => match skip_ws r with [] => Some v | _ => None end
  | None => None
  end.

(** ** Writing a string *)

Definition lower_hex (v : Z) : byte := nth (Z.to_nat v) (lit "0123456789abcdef") Ascii.zero.

(** Bytes that [htmlSafeSet] holds. *)
Definition html_safe (c : byte) : bool :=
  (32 <=? bz c) &&
  negb (Ascii.eqb c quote || Ascii.eqb c "\" || Ascii.eqb c "<" || Ascii.eqb c ">" || Ascii.eqb c "&").

Definition escape_byte (c : byte) : gostr :=
  if Ascii.eqb c "\" || Ascii.eqb c quote then ["\"%char; c]
  else if bz c =? 8 then ["\"%char; "b"%char]
  else if bz c =? 12 then ["\"%char; "f"%char]
  else if bz c =? 10 then ["\"%char; "n"%char]
  else if bz c =? 13 then ["\"%char; "r"%char]
  else if bz c =? 9 then ["\"%char; "t"%char]
  else ["\"%char; "u"%char; "0"%char; "0"%char; lower_hex (Z.shiftr (bz c) 4); lower_hex (Z.land (bz c) 15)].

(** One rune of [s], as it is written, and its width. *)
Definition append_rune (s : gostr) : gostr * nat :=
  match s with
  | [] => ([], 0%nat)
  | c :: _ =>
    if is_ascii c then (if html_safe c then [c] else escape_byte c, 1%nat)
    else
      let '(r, n) := decode_rune s in
      if (r =? rune_error) && (n =? 1)%nat then (lit "\ufffd", n)
      else if (r =? 8232) || (r =? 8233) then (lit "\u202" ++ [lower_hex (Z.land r 15)], n)
      else (take n s, n)
  end.

Fixpoint append_body (fuel : nat) (s : gostr) : gostr :=
  match fuel, s with
  | _, [] => []
  | O, _ => []
  | S k, _ => let '(t, n) := append_rune s in t ++ append_body k (drop n s)
  end.

Definition json_quote (s : gostr) : gostr := quote :: append_body (length s) s ++ [quote].

(** What a string is once it is written and read back: every byte that is not
    part of a rune is U+FFFD. *)
Definition to_valid (s : gostr) : gostr := runes s ≫= encode_rune.

(** ** Written strings read back *)

(** An escaped ASCII byte is read by one turn of [string_body]. *)
Lemma string_body_ascii k c rest :
  is_ascii c = true ->
  string_body (S k) ((if html_safe c then [c] else escape_byte c) ++ rest)
  = match string_body k rest with Some (u, r) => Some (c :: u, r) | None => None end.
Proof.
  destruct c as [[] [] [] [] [] [] [] []]; intros H; try discriminate H; cbv [html_safe escape_byte];
    cbn -[string_body]; reflexivity.
Qed.

Lemma string_body_rune k s t n rest :
  s <> [] -> append_rune s = (t, n) ->
  string_body (S k) (t ++ rest)
  = match string_body k rest with
    | Some (u, r) => Some (encode_rune (decode_rune s).1 ++ u, r)
    | None => None
    end.
Proof.
  intros Hs E. destruct s as [|c s']; [done|]. clear Hs. unfold append_rune in E.
  destruct (is_ascii c) eqn:Ha.
  { injection E as <- <-. rewrite string_body_ascii by done.
    rewrite decode_rune_ascii by done. cbn [fst]. rewrite encode_rune_ascii by done. done. }
  destruct (decode_rune (c :: s')) as [r m] eqn:Ed. cbn [fst].
  destruct ((r =? rune_error) && (m =? 1)%nat) eqn:Eerr.
  { injection E as <- <-. apply andb_true_iff in Eerr as [Hr%Z.eqb_eq _]. subst r. reflexivity. }
  destruct ((r =? 8232) || (r =? 8233)) eqn:E2.
  { injection E as <- <-. apply orb_true_iff in E2 as [Hr%Z.eqb_eq|Hr%Z.eqb_eq]; subst r; reflexivity. }
  injection E as <- <-.
  destruct (decode_rune_take (c :: s') r m rest Ed Eerr ltac:(done)) as (Hd & Hle & Hm).
  destruct m as [|m]; [lia|]. cbn [take app] in *. cbn [string_body].
  unfold is_ascii in Ha. apply Z.ltb_ge in Ha.
  destruct (Ascii.eqb_spec c quote) as [->|_]; [exfalso; revert Ha; vm_compute; congruence|].
  destruct (Ascii.eqb_spec c "\") as [->|_]; [exfalso; revert Ha; vm_compute; congruence|].
  destruct (Z.ltb_spec (bz c) 32); [lia|]. rewrite Hd. cbn [drop].
  rewrite drop_app_length'; [done|]. rewrite length_take. cbn [length] in Hle. lia.
Qed.

Lemma append_rune_width s t n :
  s <> [] -> append_rune s = (t, n) -> n = (decode_rune s).2 /\ (1 <= n)%nat /\ (1 <= length t)%nat.
Proof.
  intros Hs E. destruct s as [|c s']; [done|]. clear Hs. unfold append_rune in E.
  destruct (is_ascii c) eqn:Ha.
  { injection E as <- <-. rewrite decode_rune_ascii by done. cbn [snd]. split_and!; [done|lia|].
    destruct (html_safe c); [cbn; lia|]. unfold escape_byte. repeat case_if; cbn; lia. }
  pose proof (decode_rune_width c s') as Hw.
  destruct (decode_rune (c :: s')) as [r m] eqn:Ed. cbn [snd] in *.
  destruct ((r =? rune_error) && (m =? 1)%nat); [injection E as <- <-; cbn; split_and!; lia|].
  destruct ((r =? 8232) || (r =? 8233)); [injection E as <- <-; cbn; split_and!; lia|].
  injection E as <- <-. split_and!; [done|lia|]. rewrite length_take. cbn [length]. lia.
Qed.

Lemma string_body_append f s k rest :
  (length s <= f)%nat -> (length (append_body f s) < k)%nat ->
  string_body k (append_body f s ++ quote :: rest) = Some (to_valid s, rest).
Proof.
  revert s k. induction f as [|f IH]; intros s k Hf Hk; destruct s as [|c s]; cbn [length] in Hf; try lia.
  - destruct k; [cbn in Hk; lia|]. reflexivity.
  - destruct k; [cbn in Hk; lia|]. reflexivity.
  - cbn [append_body] in *. destruct (append_rune (c :: s)) as [t n] eqn:E.
    destruct (append_rune_width (c :: s) t n ltac:(done) E) as (Hn & Hn1 & Ht).
    rewrite length_app in Hk. destruct k as [|k]; [lia|].
    rewrite <- app_assoc, (string_body_rune k (c :: s) t n) by done.
    rewrite IH; [| rewrite length_drop; cbn [length]; lia | lia].
    unfold to_valid. rewrite runes_cons, <- Hn. done.
Qed.

Lemma json_string_quote s rest : json_string (json_quote s ++ rest) = Some (to_valid s, rest).
Proof.
  unfold json_string, json_quote. cbn [app]. change (Ascii.eqb quote quote) with true. cbv iota.
  rewrite <- app_assoc. cbn [app]. apply string_body_append; [done|].
  rewrite length_app. cbn [length]. lia.
Qed.

Lemma to_valid_ascii s : all_ascii s = true -> to_valid s = s.
Proof.
  rewrite all_ascii_Forall. intros H. unfold to_valid. rewrite runes_ascii by done.
  induction H as [|c s Hc Hs IH]; [done|]. cbn [fmap list_fmap mbind list_bind].
  rewrite encode_rune_ascii by done. cbn [app]. f_equal. exact IH.
Qed.

(** ** Fuel *)

Lemma skip_ws_length s : (length (skip_ws s) <= length s)%nat.
Proof. induction s as [|c s IH]; cbn [skip_ws]; [done|]. case_if; cbn [length]; lia. Qed.

Lemma expect_length c s r : expect c s = Some r -> (S (length r) <= length s)%nat.
Proof.
  unfold expect. pose proof (skip_ws_length s). destruct (skip_ws s) as [|x l]; [done|].
  case_if; [|done]. intros [= <-]. cbn [length] in *. lia.
Qed.

Lemma getu4_length s r t : getu4 s = Some (r, t) -> (length t <= length s)%nat.
Proof.
  unfold getu4. destruct s as [|u [|a [|b [|c [|d s]]]]]; try done. case_if; [|done].
  repeat case_match; try done. intros [= _ <-]. cbn [length]. lia.
Qed.

Lemma unicode_escape_length s r t : unicode_escape s = Some (r, t) -> (length t <= length s)%nat.
Proof.
  unfold unicode_escape. destruct (getu4 s) as [[a s']|] eqn:E; [|done].
  apply getu4_length in E. case_if; [|intros [= _ <-]; lia].
  destruct s' as [|b s'']; [intros [= _ <-]; lia|]. case_if; [|intros [= _ <-]; lia].
  destruct (getu4 s'') as [[a2 s3]|] eqn:E2; [|intros [= _ <-]; lia].
  apply getu4_length in E2. destruct (utf16_decode a a2); intros [= _ <-]; cbn [length] in *; lia.
Qed.

Lemma string_body_length k s t r : string_body k s = Some (t, r) -> (S (length r) <= length s)%nat.
Proof.
  revert s t r. induction k as [|k IH]; intros s t r; cbn [string_body]; [done|].
  destruct s as [|c s]; [done|]. case_if; [intros [= _ <-]; cbn [length]; lia|]. case_if.
  - destruct s as [|e s]; [done|]. destruct (simple_escape e).
    + destruct (string_body k s) as [[u v]|] eqn:E; [|done]. intros [= _ <-].
      apply IH in E. cbn [length]. lia.
    + destruct (unicode_escape (e :: s)) as [[u s3]|] eqn:Eu; [|done].
      apply unicode_escape_length in Eu.
      destruct (string_body k s3) as [[t' v]|] eqn:E; [|done]. intros [= _ <-].
      apply IH in E. cbn [length] in *. lia.
  - case_if; [done|]. destruct (decode_rune (c :: s)) as [u n].
    destruct (string_body k (drop n (c :: s))) as [[t' v]|] eqn:E; [|done]. intros [= _ <-].
    apply IH in E. rewrite length_drop in E. lia.
Qed.

Lemma json_string_length s t r : json_string s = Some (t, r) -> (S (length r) <= length s)%nat.
Proof.
  unfold json_string. destruct s as [|c s]; [done|]. case_if; [|done].
  intros H%string_body_length. cbn [length]. lia.
Qed.

Lemma span_digits_length s d r : span_digits s = (d, r) -> (length d + length r = length s)%nat.
Proof.
  revert d r. induction s as [|c s IH]; cbn [span_digits]; intros d r; [by intros [= <- <-]|].
  case_if; [|by intros [= <- <-]]. destruct (span_digits s) as [d' r'].
  intros [= <- <-]. cbn [length]. specialize (IH _ _ eq_refl). lia.
Qed.

Lemma number_int_length s d r : number_int s = Some (d, r) -> (S (length r) <= length s)%nat.
Proof.
  unfold number_int. destruct s as [|c s]; [done|].
  destruct (Ascii.eqb c "0"); [by intros [= <- <-]|].
  destruct (is_digit c) eqn:Hd; [|done]. intros [= E]. cbn [span_digits] in E. rewrite Hd in E.
  destruct (span_digits s) as [d' r'] eqn:Es. apply span_digits_length in Es.
  injection E as <- <-. cbn [length]. lia.
Qed.

Lemma number_frac_length s d r : number_frac s = Some (d, r) -> (length r <= length s)%nat.
Proof.
  unfold number_frac. destruct s as [|c s]; [by intros [= <- <-]|]. case_if; [|by intros [= <- <-]].
  destruct (span_digits s) as [[|x d'] r'] eqn:E; [done|].
  apply span_digits_length in E. intros [= <- <-]. cbn [length] in *. lia.
Qed.

Lemma number_exp_length s d r : number_exp s = Some (d, r) -> (length r <= length s)%nat.
Proof.
  unfold number_exp. destruct s as [|c s]; [by intros [= <- <-]|]. case_if; [|by intros [= <- <-]].
  set (q := match s with x :: t => _ | [] => _ end).
  assert (length q.2 <= length s)%nat as Hq.
  { subst q. destruct s as [|x t]; [done|]. case_if; cbn [snd length]; lia. }
  destruct q as [sg s'']. cbn [snd] in Hq. destruct (span_digits s'') as [[|x d'] r'] eqn:E; [done|].
  apply span_digits_length in E. intros [= <- <-]. cbn [length] in *. lia.
Qed.

Lemma number_length s d r : number s = Some (d, r) -> (S (length r) <= length s)%nat.
Proof.
  unfold number.
  set (p := match s with c :: t => _ | [] => _ end).
  assert (length p.1 + length p.2 = length s)%nat as Hp.
  { subst p. destruct s as [|c s]; [done|]. case_if; done. }
  destruct p as [sg s1]. cbn [fst snd] in Hp.
  destruct (number_int s1) as [[i s2]|] eqn:Ei; [|done].
  apply number_int_length in Ei.
  destruct (number_frac s2) as [[f s3]|] eqn:Ef; [|done]. apply number_frac_length in Ef.
  destruct (number_exp s3) as [[e s4]|] eqn:Ee; [|done]. apply number_exp_length in Ee.
  intros [= _ <-]. lia.
Qed.

Lemma strip_prefix_length p s r : strip_prefix p s = Some r -> (length r + length p = length s)%nat.
Proof. intros H%strip_prefix_Some. subst s. rewrite length_app. lia. Qed.

(** The three readers answer the same for every fuel above twice the length. *)
Lemma json_fuel_enough f g :
  (forall d s, (2 * length s < f)%nat -> (2 * length s < g)%nat ->
     json_value f d s = json_value g d s /\
     forall v r, json_value f d s = Some (v, r) -> (S (length r) <= length s)%nat) /\
  (forall d s, (2 * length s < f)%nat -> (2 * length s < g)%nat ->
     json_members f d s = json_members g d s /\
     forall v r, json_members f d s = Some (v, r) -> (S (length r) <= length s)%nat) /\
  (forall d s, (S (2 * length s) < f)%nat -> (S (2 * length s) < g)%nat ->
     json_items f d s = json_items g d s /\
     forall v r, json_items f d s = Some (v, r) -> (S (length r) <= length s)%nat).
Proof.
  revert g. induction f as [|f IH]; intros g; [split_and!; intros; lia|].
  destruct g as [|g]; [split_and!; intros; lia|].
  destruct (IH g) as (IHv & IHm & IHi). split_and!; intros d s Hf Hg.
  - cbn [json_value]. pose proof (skip_ws_length s) as Hws.
    destruct (skip_ws s) as [|c s']; [done|]. cbn [length] in Hws.
    case_if; [|case_if; [|case_if]].
    + case_if; [done|]. destruct (expect "}" s') as [r'|] eqn:E.
      * apply expect_length in E. split; [done|]. intros v r [= _ <-]. lia.
      * destruct (IHm (d + 1) s') as [<- Hl]; [lia|lia|]. split; [done|].
        intros v r. destruct (json_members f (d + 1) s') as [[m r']|]; [|done]. intros [= _ <-].
        specialize (Hl _ _ eq_refl). lia.
    + case_if; [done|]. destruct (expect "]" s') as [r'|] eqn:E.
      * apply expect_length in E. split; [done|]. intros v r [= _ <-]. lia.
      * destruct (IHi (d + 1) s') as [<- Hl]; [lia|lia|]. split; [done|].
        intros v r. destruct (json_items f (d + 1) s') as [[m r']|]; [|done]. intros [= _ <-].
        specialize (Hl _ _ eq_refl). lia.
    + split; [done|]. intros v r. destruct (string_body _ _) as [[t r']|] eqn:E; [|done].
      intros [= _ <-]. apply string_body_length in E. lia.
    + split; [done|]. intros v r.
      destruct (strip_prefix (lit "null") _) as [r1|] eqn:E1.
      { intros [= _ <-]. apply strip_prefix_length in E1. cbn [length lit String.list_ascii_of_string] in E1. lia. }
      destruct (strip_prefix (lit "true") _) as [r2|] eqn:E2.
      { intros [= _ <-]. apply strip_prefix_length in E2. cbn [length lit String.list_ascii_of_string] in E2. lia. }
      destruct (strip_prefix (lit "false") _) as [r3|] eqn:E3.
      { intros [= _ <-]. apply strip_prefix_length in E3. cbn [length lit String.list_ascii_of_string] in E3. lia. }
      destruct (number _) as [[n r']|] eqn:E; [|done]. intros [= _ <-].
      apply number_length in E. cbn [length] in E. lia.
  - cbn [json_members]. pose proof (skip_ws_length s) as Hws.
    destruct (json_string (skip_ws s)) as [[key s1]|] eqn:Es; [|done]. apply json_string_length in Es.
    destruct (expect ":" s1) as [s2|] eqn:E2; [|done]. apply expect_length in E2.
    destruct (IHv d s2) as [<- Hv]; [lia|lia|].
    destruct (json_value f d s2) as [[v s3]|]; [|done]. specialize (Hv _ _ eq_refl).
    destruct (expect "," s3) as [s4|] eqn:E4.
    + apply expect_length in E4. destruct (IHm d s4) as [<- Hm]; [lia|lia|]. split; [done|].
      intros m r. destruct (json_members f d s4) as [[m' r']|]; [|done]. intros [= _ <-].
      specialize (Hm _ _ eq_refl). lia.
    + split; [done|]. intros m r. destruct (expect "}" s3) as [r'|] eqn:E5; [|done].
      apply expect_length in E5. intros [= _ <-]. lia.
  - cbn [json_items]. destruct (IHv d s) as [<- Hv]; [lia|lia|].
    destruct (json_value f d s) as [[v s1]|]; [|done]. specialize (Hv _ _ eq_refl).
    destruct (expect "," s1) as [s2|] eqn:E2.
    + apply expect_length in E2. destruct (IHi d s2) as [<- Hm]; [lia|lia|]. split; [done|].
      intros m r. destruct (json_items f d s2) as [[m' r']|]; [|done]. intros [= _ <-].
      specialize (Hm _ _ eq_refl). lia.
    + split; [done|]. intros m r. destruct (expect "]" s1) as [r'|] eqn:E5; [|done].
      apply expect_length in E5. intros [= _ <-]. lia.
Qed.

(** ** Reading back what the writer wrote *)

Definition json_key (name : gostr) : gostr := json_quote name ++ [":"%char].

Lemma span_digits_app d c r :
  Forall (fun x => is_digit x = true) d -> is_digit c = false ->
  span_digits (d ++ c :: r) = (d, c :: r).
Proof.
  intros Hd Hc. induction Hd as [|x d Hx Hd IH]; cbn [app span_digits]; [by rewrite Hc|].
  by rewrite Hx, IH.
Qed.

Lemma number_int_utoa z c r :
  0 <= z -> is_digit c = false -> number_int (utoa z ++ c :: r) = Some (utoa z, c :: r).
Proof.
  intros Hz Hc. destruct (Z.eq_dec z 0) as [->|Hne]; [reflexivity|].
  pose proof (utoa_digits z Hz) as Hd. destruct (utoa_cons z) as (x & s & E).
  pose proof (utoa_no_leading_zero z x s ltac:(lia) E) as Hx. rewrite E in *.
  pose proof Hd as Hd'. apply Forall_cons in Hd' as [Hxd _]. cbn [app]. unfold number_int.
  destruct (Ascii.eqb_spec x "0") as [->|_]; [exfalso; apply Hx; reflexivity|].
  rewrite Hxd. f_equal. exact (span_digits_app (x :: s) c r Hd Hc).
Qed.

Definition after_number (c : byte) : bool :=
  negb (is_digit c || Ascii.eqb c "." || Ascii.eqb c "e" || Ascii.eqb c "E").

Lemma number_itoa z c r :
  after_number c = true -> number (itoa z ++ c :: r) = Some (itoa z, c :: r).
Proof.
  unfold after_number. intros Hc. bool_inv.
  assert (forall s, number_frac (c :: s) = Some ([], c :: s)) as Hf.
  { intros s. unfold number_frac. by rewrite H2. }
  assert (forall s, number_exp (c :: s) = Some ([], c :: s)) as He.
  { intros s. unfold number_exp. by rewrite H1, H0. }
  unfold itoa. destruct (Z.ltb_spec z 0) as [Hneg|Hpos].
  - unfold number. cbn [app]. change (Ascii.eqb "-" "-") with true. cbv iota.
    rewrite number_int_utoa by (done || lia). rewrite Hf, He. by rewrite !app_nil_r.
  - pose proof (number_int_utoa z c r Hpos H) as Hi. pose proof (utoa_digits z Hpos) as Hd.
    unfold number. destruct (utoa_cons z) as (x & s & E). rewrite E in *. cbn [app] in *.
    apply Forall_cons in Hd as [Hxd _].
    destruct (Ascii.eqb_spec x "-") as [->|_]; [exfalso; revert Hxd; vm_compute; congruence|].
    rewrite Hi, Hf, He. by rewrite !app_nil_r.
Qed.

Lemma itoa_head z : exists x s, itoa z = x :: s /\ (is_digit x = true \/ x = "-"%char).
Proof.
  unfold itoa. case_if; [eauto|]. apply Z.ltb_ge in Hc. pose proof (utoa_digits z Hc) as Hd.
  destruct (utoa_cons z) as (x & s & E). rewrite E in *. apply Forall_cons in Hd as [Hx _]. eauto.
Qed.

Lemma json_value_digit k d x s :
  In x (lit "0123456789-") ->
  json_value (S k) d (x :: s) = match number (x :: s) with Some (n, r) => Some (JNum n, r) | None => None end.
Proof.
  intros Hin. cbn in Hin. repeat destruct Hin as [<-|Hin]; [reflexivity .. | destruct Hin].
Qed.

Lemma json_value_number k d z c r :
  after_number c = true ->
  json_value (S k) d (itoa z ++ c :: r) = Some (JNum (itoa z), c :: r).
Proof.
  intros Hc. pose proof (number_itoa z c r Hc) as Hn. destruct (itoa_head z) as (x & s & E & Hx).
  rewrite E in *. cbn [app json_value] in *.
  assert (In x (lit "0123456789-")) as Hin.
  { destruct Hx as [Hx| ->]; [|cbn; tauto]. unfold is_digit in Hx. apply in_range_true in Hx.
    rewrite <- (zb_bz x). assert (bz x = 48 \/ bz x = 49 \/ bz x = 50 \/ bz x = 51 \/ bz x = 52 \/
      bz x = 53 \/ bz x = 54 \/ bz x = 55 \/ bz x = 56 \/ bz x = 57) as H by lia.
    cbn. repeat destruct H as [->|H]; [.. | rewrite H]; tauto. }
  change (json_value (S k) d (x :: s ++ c :: r) = Some (JNum (x :: s), c :: r)).
  rewrite json_value_digit, Hn by done. done.
Qed.

Lemma json_value_quote k d s r : json_value (S k) d (json_quote s ++ r) = Some (JStr (to_valid s), r).
Proof.
  pose proof (json_string_quote s r) as H. unfold json_quote in *. cbn [app] in *.
  change (json_value (S k) d (quote :: ?x))
    with (match json_string (quote :: x) with Some (t, r) => Some (JStr t, r) | None => None end).
  by rewrite H.
Qed.

(** One member of an object, whose value is a string or a number. *)
Lemma json_members_more k d key v jv r :
  json_value (S k) d (v ++ ","%char :: r) = Some (jv, ","%char :: r) ->
  json_members (S (S k)) d (json_key key ++ v ++ ","%char :: r)
  = match json_members (S k) d r with Some (m, r') => Some ((to_valid key, jv) :: m, r') | None => None end.
Proof.
  intros Hv. unfold json_key. rewrite <- app_assoc. cbn [app].
  remember (S k) as k'. cbn [json_members].
  replace (skip_ws (json_quote key ++ ":"%char :: v ++ ","%char :: r))
    with (json_quote key ++ ":"%char :: v ++ ","%char :: r) by reflexivity.
  rewrite json_string_quote. cbn [expect skip_ws is_ws].
  replace (expect ":" (":"%char :: v ++ ","%char :: r)) with (Some (v ++ ","%char :: r)) by reflexivity.
  rewrite Hv. replace (expect "," (","%char :: r)) with (Some r) by reflexivity. done.
Qed.

Lemma json_members_last k d key v jv r :
  json_value (S k) d (v ++ "}"%char :: r) = Some (jv, "}"%char :: r) ->
  json_members (S (S k)) d (json_key key ++ v ++ "}"%char :: r) = Some ([(to_valid key, jv)], r).
Proof.
  intros Hv. unfold json_key. rewrite <- app_assoc. cbn [app].
  remember (S k) as k'. cbn [json_members].
  replace (skip_ws (json_quote key ++ ":"%char :: v ++ "}"%char :: r))
    with (json_quote key ++ ":"%char :: v ++ "}"%char :: r) by reflexivity.
  rewrite json_string_quote.
  replace (expect ":" (":"%char :: v ++ "}"%char :: r)) with (Some (v ++ "}"%char :: r)) by reflexivity.
  rewrite Hv. replace (expect "," ("}"%char :: r)) with (@None gostr) by reflexivity.
  replace (expect "}" ("}"%char :: r)) with (Some r) by reflexivity. done.
Qed.


(** ** Objects as the writer lays them out *)

(** The members of an object, each a key and the text of its value. *)
Fixpoint members_text (ms : list (gostr * gostr)) : gostr :=
  match ms with
  | [] => []
  | m :: ms' => json_key m.1 ++ m.2 ++ match ms' with [] => [] | _ => lit "," ++ members_text ms' end
  end.

Definition object_text (ms : list (gostr * gostr)) : gostr := lit "{" ++ members_text ms ++ lit "}".

(** [text] in front of a separator reads as [v], at depth [d]. *)
Definition reads (d : Z) (text : gostr) (v : json) : Prop :=
  forall f c r, (2 * length text <= f)%nat -> (c = "," \/ c = "}")%char ->
  json_value f d (text ++ c :: r) = Some (v, c :: r).

Lemma json_key_length k : (3 <= length (json_key k))%nat.
Proof. unfold json_key, json_quote. rewrite length_app. cbn. rewrite length_app. cbn. lia. Qed.

Lemma json_key_read k r :
  json_string (skip_ws (json_key k ++ r)) = Some (to_valid k, ":"%char :: r).
Proof.
  unfold json_key. rewrite <- app_assoc. cbn [app].
  replace (skip_ws (json_quote k ++ ":"%char :: r)) with (json_quote k ++ ":"%char :: r) by reflexivity.
  apply json_string_quote.
Qed.

Lemma reads_quote d s : reads d (json_quote s) (JStr (to_valid s)).
Proof. intros [|f] c r Hf _; [unfold json_quote in Hf; cbn in Hf; lia|]. apply json_value_quote. Qed.

Lemma reads_number d z : reads d (itoa z) (JNum (itoa z)).
Proof.
  intros [|f] c r Hf Hc; [destruct (itoa_head z) as (x & s & E & _); rewrite E in Hf; cbn in Hf; lia|].
  apply json_value_number. by destruct Hc as [->| ->].
Qed.

Lemma json_members_read d ms vs r :
  Forall2 (fun m v => reads d m.2 v) ms vs -> ms <> [] ->
  forall f, (2 * length (members_text ms) < f)%nat ->
  json_members f d (members_text ms ++ "}"%char :: r) = Some (zip (to_valid <$> ms.*1) vs, r).
Proof.
  intros H. induction H as [|m v ms vs Hm Hms IH]; [done|]. intros _ [|f] Hf; [lia|].
  pose proof (json_key_length m.1) as Hk. cbn [members_text] in *. rewrite <- !app_assoc. cbn [json_members].
  rewrite json_key_read. cbn [expect skip_ws is_ws].
  rewrite !length_app in Hf.
  destruct ms as [|m' ms].
  - inversion Hms; subst. cbn [app].
    replace (expect ":" (":"%char :: m.2 ++ "}"%char :: r)) with (Some (m.2 ++ "}"%char :: r)) by reflexivity.
    rewrite (Hm f "}"%char r) by (auto || lia).
    replace (expect "," ("}"%char :: r)) with (@None gostr) by reflexivity.
    replace (expect "}" ("}"%char :: r)) with (Some r) by reflexivity. done.
  - set (rest := members_text (m' :: ms)) in *. rewrite <- !app_assoc.
    change (lit "," ++ rest ++ ?x) with (","%char :: rest ++ x).
    replace (expect ":" (":"%char :: m.2 ++ ","%char :: rest ++ "}"%char :: r))
      with (Some (m.2 ++ ","%char :: rest ++ "}"%char :: r)) by reflexivity.
    rewrite (Hm f ","%char (rest ++ "}"%char :: r)) by (auto || lia).
    replace (expect "," (","%char :: rest ++ "}"%char :: r)) with (Some (rest ++ "}"%char :: r)) by reflexivity.
    rewrite length_app in Hf. cbn [length lit String.list_ascii_of_string] in Hf.
    rewrite IH by (done || lia). done.
Qed.

(** An object reads back as its members, with what follows it left over. *)
Lemma json_object_read d ms vs f r :
  Forall2 (fun m v => reads (d + 1) m.2 v) ms vs -> ms <> [] -> d + 1 <= max_depth ->
  (2 * length (object_text ms) <= f)%nat ->
  json_value f d (object_text ms ++ r) = Some (JObj (zip (to_valid <$> ms.*1) vs), r).
Proof.
  intros H Hne Hd Hf. unfold object_text in *. rewrite <- !app_assoc. cbn [lit String.list_ascii_of_string app] in *.
  cbn [length] in Hf. rewrite length_app in Hf. cbn [length] in Hf. destruct f as [|f]; [lia|].
  change (json_value (S f) d ("{"%char :: ?s))
    with (if max_depth <? d + 1 then None else match expect "}" s with
          | Some r => Some (JObj [], r)
          | None => match json_members f (d + 1) s with Some (m, r) => Some (JObj m, r) | None => None end end).
  rewrite (proj2 (Z.ltb_ge _ _)) by lia.
  assert (exists t, members_text ms ++ "}"%char :: r = quote :: t) as [t Ht].
  { destruct ms as [|m ms]; [done|]. cbn [members_text]. unfold json_key, json_quote. by eexists. }
  replace (expect "}" (members_text ms ++ "}"%char :: r)) with (@None gostr) by (rewrite Ht; reflexivity).
  rewrite (json_members_read (d + 1) ms vs r H Hne) by lia. done.
Qed.

Lemma reads_object d ms vs :
  Forall2 (fun m v => reads (d + 1) m.2 v) ms vs -> ms <> [] -> d + 1 <= max_depth ->
  reads d (object_text ms) (JObj (zip (to_valid <$> ms.*1) vs)).
Proof. intros H Hne Hd f c r Hf _. by apply json_object_read. Qed.

Lemma json_parse_object ms vs :
  Forall2 (fun m v => reads 1 m.2 v) ms vs -> ms <> [] ->
  json_parse (object_text ms) = Some (JObj (zip (to_valid <$> ms.*1) vs)).
Proof.
  intros H Hne. unfold json_parse. rewrite <- (app_nil_r (object_text ms)) at 2.
  rewrite (json_object_read 0 ms vs _ [] H Hne); [done|vm_compute; congruence|lia].
Qed.

(** ** Fields of a struct *)

(** The field that a key names: by its exact name, then under case folding. *)
Definition json_field {F} (fields : list (gostr * F)) (key : gostr) : option F :=
  match List.find (fun f => bool_decide (f.1 = key)) fields with
  | Some f => Some f.2
  | None => snd <$> List.find (fun f => equal_fold f.1 key) fields
  end.

(** A member that [omitempty] can leave out. *)
Definition opt_member (set : bool) (key value : gostr) : list (gostr * gostr) :=
  if set then [(key, value)] else [].

(** The members set one after the other; the first that cannot fails all. *)
Fixpoint set_members {A} (set : A -> gostr * json -> option A) (a : A) (ms : list (gostr * json)) : option A :=
  match ms with
  | [] => Some a
  | m :: ms' => match set a m with Some a' => set_members set a' ms' | None => None end
  end.
