(* ===== verification/Base64.v ===== *)
(** * [encoding/base64]: the standard and the URL alphabet, padded and raw

    The encoder groups three bytes into four sextets.  [sextet] names the value
    of one output character from the input bytes, which is what the placeholder
    scan of the broker computes character by character. *)

From S2P Require Import Prelude GoUnicode GoStrings.
From stdpp Require Import prelude list strings.
From Stdlib Require Import ZArith Lia ZifyNat Ascii.

Local Open Scope Z_scope.

Definition std_alphabet : gostr :=
  lit "ABCDEFGHIJKLMNOPQRSTUVWXYZabcdefghijklmnopqrstuvwxyz0123456789+/".
Definition url_alphabet : gostr :=
  lit "ABCDEFGHIJKLMNOPQRSTUVWXYZabcdefghijklmnopqrstuvwxyz0123456789-_".

(** Character [v] of an alphabet. *)
Definition sym (alpha : gostr) (v : Z) : byte := nth (Z.to_nat v) alpha Ascii.zero.

(** The sextet number [k] (0 to 3) of the group [x y z]. *)
Definition group_sextet (k : nat) (x y z : Z) : Z :=
  match k with
  | 0%nat => Z.shiftr x 2
  | 1%nat => Z.lor (Z.shiftl (Z.land x 3) 4) (Z.shiftr y 4)
  | 2%nat => Z.lor (Z.shiftl (Z.land y 15) 2) (Z.shiftr z 6)
  | _ => Z.land z 63
  end.

(** [EncodeToString] without padding. *)
Fixpoint encode_raw (alpha : gostr) (s : gostr) : gostr :=
  match s with
  | [] => []
  | [a] => let x := bz a in
      [sym alpha (group_sextet 0 x 0 0); sym alpha (group_sextet 1 x 0 0)]
  | [a; b] => let x := bz a in let y := bz b in
      [sym alpha (group_sextet 0 x y 0); sym alpha (group_sextet 1 x y 0);
       sym alpha (group_sextet 2 x y 0)]
  | a :: b :: c :: s' => let x := bz a in let y := bz b in let z := bz c in
      sym alpha (group_sextet 0 x y z) :: sym alpha (group_sextet 1 x y z)
      :: sym alpha (group_sextet 2 x y z) :: sym alpha (group_sextet 3 x y z)
      :: encode_raw alpha s'
  end.

(** [base64.StdEncoding.EncodeToString]: padded to a multiple of four. *)
Definition std_encode (s : gostr) : gostr :=
  encode_raw std_alphabet s
  ++ match (length s mod 3)%nat with 1%nat => lit "==" | 2%nat => lit "=" | _ => [] end.

(** [base64.RawURLEncoding.EncodeToString]. *)
Definition raw_url_encode (s : gostr) : gostr := encode_raw url_alphabet s.

(** ** Decoding *)

Fixpoint sym_index (c : byte) (alpha : gostr) (i : Z) : option Z :=
  match alpha with
  | [] => None
  | a :: alpha' => if Ascii.eqb a c then Some i else sym_index c alpha' (i + 1)
  end.

(** The value of a character. *)
Definition unsym (alpha : gostr) (c : byte) : option Z := sym_index c alpha 0.

(** [RawURLEncoding.Strict().DecodeString]: no padding, no line breaks inside
    a quantum, and the unused low bits of the last character are zero.

    [encoding/base64] skips [\r] and [\n] before it reads a character, in
    strict mode as well; [skip_newlines] is that. *)
Definition is_newline (c : byte) : bool := (bz c =? 10) || (bz c =? 13).
Definition skip_newlines (s : gostr) : gostr := filter (fun c => is_newline c = false) s.

Fixpoint decode_quanta (alpha : gostr) (s : gostr) : option gostr :=
  match s with
  | [] => Some []
  | [_] => None
  | [c0; c1] =>
      match unsym alpha c0, unsym alpha c1 with
      | Some v0, Some v1 =>
          if Z.land v1 15 =? 0 then Some [zb (Z.lor (Z.shiftl v0 2) (Z.shiftr v1 4))] else None
      | _, _ => None
      end
  | [c0; c1; c2] =>
      match unsym alpha c0, unsym alpha c1, unsym alpha c2 with
      | Some v0, Some v1, Some v2 =>
          if Z.land v2 3 =? 0
          then Some [zb (Z.lor (Z.shiftl v0 2) (Z.shiftr v1 4));
                     zb (Z.lor (Z.shiftl v1 4) (Z.shiftr v2 2))]
          else None
      | _, _, _ => None
      end
  | c0 :: c1 :: c2 :: c3 :: s' =>
      match unsym alpha c0, unsym alpha c1, unsym alpha c2, unsym alpha c3, decode_quanta alpha s' with
      | Some v0, Some v1, Some v2, Some v3, Some r =>
          Some (zb (Z.lor (Z.shiftl v0 2) (Z.shiftr v1 4))
                :: zb (Z.lor (Z.shiftl v1 4) (Z.shiftr v2 2))
                :: zb (Z.lor (Z.shiftl v2 6) v3) :: r)
      | _, _, _, _, _ => None
      end
  end.

Definition raw_url_decode_strict (s : gostr) : option gostr :=
  decode_quanta url_alphabet (skip_newlines s).

(** ** Characters of an encoding *)

(** Byte [i] of [s], zero past the end. *)
Definition byte_or_0 (s : gostr) (i : nat) : Z :=
  match s !! i with Some c => bz c | None => 0 end.

(** The value of output character [j]. *)
Definition sextet (s : gostr) (j : nat) : Z :=
  let g := (j / 4 * 3)%nat in
  group_sextet (j mod 4) (byte_or_0 s g) (byte_or_0 s (g + 1)) (byte_or_0 s (g + 2)).

(** The number of characters of a raw encoding: the bits, in groups of six. *)
Definition raw_length (n : nat) : nat := ((n * 8 + 5) / 6)%nat.

Lemma list_ind3 {A} (P : list A -> Prop) :
  P [] -> (forall a, P [a]) -> (forall a b, P [a; b]) ->
  (forall a b c l, P l -> P (a :: b :: c :: l)) -> forall l, P l.
Proof.
  intros H0 H1 H2 H3. fix IH 1. intros [|a [|b [|c l]]].
  - exact H0.
  - apply H1.
  - apply H2.
  - apply H3, IH.
Qed.

Lemma encode_raw_length alpha s : length (encode_raw alpha s) = raw_length (length s).
Proof.
  unfold raw_length. induction s as [| | |a b c s IH] using list_ind3; try done.
  cbn [encode_raw length]. rewrite IH.
  replace (S (S (S (length s))) * 8 + 5)%nat with (4 * 6 + (length s * 8 + 5))%nat by lia.
  rewrite Nat.div_add_l by lia. lia.
Qed.

Lemma byte_or_0_cons3 a b c s i : byte_or_0 (a :: b :: c :: s) (3 + i) = byte_or_0 s i.
Proof. done. Qed.

Lemma sextet_cons3 a b c s j : sextet (a :: b :: c :: s) (4 + j) = sextet s j.
Proof.
  unfold sextet. replace (4 + j)%nat with (j + 1 * 4)%nat by lia.
  rewrite Nat.div_add, Nat.Div0.mod_add by lia.
  replace ((j / 4 + 1) * 3)%nat with (3 + j / 4 * 3)%nat by lia.
  rewrite <- !Nat.add_assoc, !byte_or_0_cons3. done.
Qed.

Lemma encode_raw_lookup alpha s j :
  (j < raw_length (length s))%nat -> encode_raw alpha s !! j = Some (sym alpha (sextet s j)).
Proof.
  revert j. induction s as [| | |a b c s IH] using list_ind3; intros j Hj.
  - unfold raw_length in Hj. simpl in Hj. lia.
  - cbn in Hj. destruct j as [|[|j]]; [done|done|lia].
  - cbn in Hj. destruct j as [|[|[|j]]]; [done|done|done|lia].
  - destruct j as [|[|[|[|j]]]]; try done.
    change (S (S (S (S j)))) with (4 + j)%nat. rewrite sextet_cons3.
    cbn [encode_raw]. simpl. apply IH.
    rewrite <- (encode_raw_length alpha) in Hj |- *. cbn [encode_raw length] in Hj. lia.
Qed.

(** ** Bit operations as arithmetic *)

Lemma lor_shiftl_add a b n :
  0 <= n -> 0 <= b < 2 ^ n -> Z.lor (Z.shiftl a n) b = a * 2 ^ n + b.
Proof.
  intros Hn Hb.
  assert (Z.land (Z.shiftl a n) b = 0) as Hz.
  { apply Z.bits_inj'. intros m Hm. rewrite Z.land_spec, Z.bits_0.
    destruct (Z.lt_ge_cases m n) as [Hlt|Hge].
    - by rewrite Z.shiftl_spec_low.
    - rewrite <- (Z.mod_small b (2 ^ n)) by lia.
      rewrite Z.mod_pow2_bits_high by lia. apply andb_false_r. }
  rewrite <- Z.lxor_lor, <- Z.add_nocarry_lxor by done.
  by rewrite Z.shiftl_mul_pow2.
Qed.

Lemma lor_shl2 a b : 0 <= b < 4 -> Z.lor (Z.shiftl a 2) b = a * 4 + b.
Proof. intros H. by rewrite lor_shiftl_add by lia. Qed.
Lemma lor_shl4 a b : 0 <= b < 16 -> Z.lor (Z.shiftl a 4) b = a * 16 + b.
Proof. intros H. by rewrite lor_shiftl_add by lia. Qed.
Lemma lor_shl6 a b : 0 <= b < 64 -> Z.lor (Z.shiftl a 6) b = a * 64 + b.
Proof. intros H. by rewrite lor_shiftl_add by lia. Qed.
Lemma shr2 a : Z.shiftr a 2 = a / 4.
Proof. by rewrite Z.shiftr_div_pow2. Qed.
Lemma shr4 a : Z.shiftr a 4 = a / 16.
Proof. by rewrite Z.shiftr_div_pow2. Qed.
Lemma shr6 a : Z.shiftr a 6 = a / 64.
Proof. by rewrite Z.shiftr_div_pow2. Qed.
Lemma land3 a : Z.land a 3 = a mod 4.
Proof. change 3 with (Z.ones 2). by rewrite Z.land_ones. Qed.
Lemma land15 a : Z.land a 15 = a mod 16.
Proof. change 15 with (Z.ones 4). by rewrite Z.land_ones. Qed.
Lemma land63 a : Z.land a 63 = a mod 64.
Proof. change 63 with (Z.ones 6). by rewrite Z.land_ones. Qed.

(** Arithmetic with division and modulo by constants. *)
Ltac div_lia := zify; Z.to_euclidean_division_equations; lia.

Lemma group_sextet_0 x y z : group_sextet 0 x y z = x / 4.
Proof. apply shr2. Qed.

Lemma group_sextet_1 x y z : 0 <= y < 256 -> group_sextet 1 x y z = x mod 4 * 16 + y / 16.
Proof.
  intros Hy. unfold group_sextet. rewrite land3, shr4, lor_shl4; [done | div_lia].
Qed.

Lemma group_sextet_2 x y z : 0 <= z < 256 -> group_sextet 2 x y z = y mod 16 * 4 + z / 64.
Proof.
  intros Hz. unfold group_sextet. rewrite land15, shr6, lor_shl2; [done | div_lia].
Qed.

Lemma group_sextet_3 x y z : group_sextet 3 x y z = z mod 64.
Proof. apply land63. Qed.

(** ** Round trip *)

Lemma unsym_sym v : 0 <= v < 64 -> unsym url_alphabet (sym url_alphabet v) = Some v.
Proof.
  intros Hv.
  assert (forallb (fun v => bool_decide (unsym url_alphabet (sym url_alphabet v) = Some v)) (seqZ 0 64)
    = true) as H by (vm_compute; reflexivity).
  rewrite forallb_true, Forall_forall in H. apply (bool_decide_eq_true_1 _), H, elem_of_seqZ. lia.
Qed.

Lemma unsym_range c v : unsym url_alphabet c = Some v -> 0 <= v < 64 /\ sym url_alphabet v = c.
Proof.
  intros H.
  assert (forall c, c ∈ url_alphabet \/ unsym url_alphabet c = None) as Hc.
  { clear. intros c. unfold unsym. generalize 0. induction url_alphabet as [|a l IH]; intros i; [by right|].
    cbn [sym_index]. destruct (Ascii.eqb_spec a c) as [->|]; [left; constructor|].
    destruct (IH (i + 1)); [left; by constructor | by right]. }
  destruct (Hc c) as [Hin|Hn]; [|congruence].
  assert (forallb (fun c => match unsym url_alphabet c with
    | Some v => in_range 0 63 v && Ascii.eqb (sym url_alphabet v) c | None => false end) url_alphabet
    = true) as Hf by (vm_compute; reflexivity).
  rewrite forallb_true, Forall_forall in Hf. specialize (Hf c Hin). rewrite H in Hf.
  apply andb_true_iff in Hf as [Hr%in_range_true Hs%Ascii.eqb_eq]. split; [lia|done].
Qed.

Lemma sym_not_newline v : 0 <= v < 64 -> is_newline (sym url_alphabet v) = false.
Proof.
  intros Hv.
  assert (forallb (fun v => negb (is_newline (sym url_alphabet v))) (seqZ 0 64) = true) as H
    by (vm_compute; reflexivity).
  rewrite forallb_true, Forall_forall in H. apply negb_true_iff, H, elem_of_seqZ. lia.
Qed.

Lemma group_sextet_range k x y z :
  0 <= x < 256 -> 0 <= y < 256 -> 0 <= z < 256 -> 0 <= group_sextet k x y z < 64.
Proof.
  intros Hx Hy Hz. destruct k as [|[|[|k]]].
  - rewrite group_sextet_0. div_lia.
  - rewrite group_sextet_1 by done. div_lia.
  - rewrite group_sextet_2 by done. div_lia.
  - change (0 <= group_sextet 3 x y z < 64). rewrite group_sextet_3.
    div_lia.
Qed.

(** The bytes that a group of sextets decodes to. *)
Lemma decode_byte_0 x y z :
  0 <= x < 256 -> 0 <= y < 256 -> 0 <= z < 256 ->
  Z.lor (Z.shiftl (group_sextet 0 x y z) 2) (Z.shiftr (group_sextet 1 x y z) 4) = x.
Proof.
  intros Hx Hy Hz. pose proof (group_sextet_range 1 x y z Hx Hy Hz).
  rewrite shr4, lor_shl2 by div_lia.
  rewrite group_sextet_0, group_sextet_1 by done. div_lia.
Qed.

Lemma decode_byte_1 x y z :
  0 <= x < 256 -> 0 <= y < 256 -> 0 <= z < 256 ->
  Z.lor (Z.shiftl (group_sextet 1 x y z) 4) (Z.shiftr (group_sextet 2 x y z) 2) mod 256 = y.
Proof.
  intros Hx Hy Hz. pose proof (group_sextet_range 2 x y z Hx Hy Hz).
  rewrite shr2, lor_shl4 by div_lia.
  rewrite group_sextet_1, group_sextet_2 by done. div_lia.
Qed.

Lemma decode_byte_2 x y z :
  0 <= x < 256 -> 0 <= y < 256 -> 0 <= z < 256 ->
  Z.lor (Z.shiftl (group_sextet 2 x y z) 6) (group_sextet 3 x y z) mod 256 = z.
Proof.
  intros Hx Hy Hz. pose proof (group_sextet_range 3 x y z Hx Hy Hz).
  rewrite lor_shl6 by lia.
  rewrite group_sextet_2, group_sextet_3 by done. div_lia.
Qed.

Lemma zb_eq z c : z mod 256 = bz c -> zb z = c.
Proof. intros H. apply bz_inj. by rewrite bz_zb. Qed.

Lemma decode_encode_quanta s : decode_quanta url_alphabet (encode_raw url_alphabet s) = Some s.
Proof.
  induction s as [|a|a b|a b c s IH] using list_ind3; [done| | |];
    pose proof (bz_range a) as Ra; try pose proof (bz_range b) as Rb; try pose proof (bz_range c) as Rc;
    cbn [encode_raw decode_quanta];
    rewrite !unsym_sym by (apply group_sextet_range; lia).
  - replace (Z.land (group_sextet 1 (bz a) 0 0) 15 =? 0) with true.
    + rewrite (zb_eq _ a); [done|]. rewrite decode_byte_0 by lia. apply Z.mod_small. lia.
    + symmetry. apply Z.eqb_eq. rewrite land15, group_sextet_1 by lia.
      div_lia.
  - replace (Z.land (group_sextet 2 (bz a) (bz b) 0) 3 =? 0) with true.
    + rewrite (zb_eq _ a), (zb_eq _ b); [done| |].
      * by apply decode_byte_1.
      * rewrite decode_byte_0 by lia. apply Z.mod_small. lia.
    + symmetry. apply Z.eqb_eq. rewrite land3, group_sextet_2 by lia.
      div_lia.
  - rewrite IH, (zb_eq _ a), (zb_eq _ b), (zb_eq _ c); [done| | |].
    + by apply decode_byte_2.
    + by apply decode_byte_1.
    + rewrite decode_byte_0 by lia. apply Z.mod_small. lia.
Qed.

Lemma sextet_range s j : 0 <= sextet s j < 64.
Proof.
  unfold sextet, byte_or_0. apply group_sextet_range; case_match; try apply bz_range; lia.
Qed.

Lemma encode_raw_no_newline s : Forall (fun c => is_newline c = false) (encode_raw url_alphabet s).
Proof.
  apply Forall_lookup. intros i c Hi. pose proof (lookup_lt_Some _ _ _ Hi) as Hlt.
  rewrite encode_raw_length in Hlt. rewrite encode_raw_lookup in Hi by done.
  injection Hi as <-. apply sym_not_newline, sextet_range.
Qed.

Lemma skip_newlines_id s : Forall (fun c => is_newline c = false) s -> skip_newlines s = s.
Proof. intros H. unfold skip_newlines. induction H as [|c s Hc Hs IH]; [done|].
  rewrite filter_cons_True by done. by rewrite IH. Qed.

(** Decoding an encoding gives the bytes back. *)
Lemma raw_url_decode_encode s : raw_url_decode_strict (raw_url_encode s) = Some s.
Proof.
  unfold raw_url_decode_strict, raw_url_encode.
  rewrite skip_newlines_id by apply encode_raw_no_newline. apply decode_encode_quanta.
Qed.

(** ** One spelling per value *)

(** A quantum that decodes is the encoding of what it decodes to. *)
Lemma quantum_encode v0 v1 v2 v3 :
  0 <= v0 < 64 -> 0 <= v1 < 64 -> 0 <= v2 < 64 -> 0 <= v3 < 64 ->
  let x := bz (zb (Z.lor (Z.shiftl v0 2) (Z.shiftr v1 4))) in
  let y := bz (zb (Z.lor (Z.shiftl v1 4) (Z.shiftr v2 2))) in
  let z := bz (zb (Z.lor (Z.shiftl v2 6) v3)) in
  group_sextet 0 x y z = v0 /\ group_sextet 1 x y z = v1 /\
  group_sextet 2 x y z = v2 /\ group_sextet 3 x y z = v3.
Proof.
  intros H0 H1 H2 H3 x y z.
  assert (x = v0 * 4 + v1 / 16) as Hx.
  { unfold x. rewrite bz_zb, shr4, lor_shl2 by div_lia.
    div_lia. }
  assert (y = v1 mod 16 * 16 + v2 / 4) as Hy.
  { unfold y. rewrite bz_zb, shr2, lor_shl4 by div_lia.
    div_lia. }
  assert (z = v2 mod 4 * 64 + v3) as Hz.
  { unfold z. rewrite bz_zb, lor_shl6 by lia. div_lia. }
  pose proof (bz_range (zb (Z.lor (Z.shiftl v1 4) (Z.shiftr v2 2)))).
  pose proof (bz_range (zb (Z.lor (Z.shiftl v2 6) v3))).
  rewrite group_sextet_0, group_sextet_1, group_sextet_2, group_sextet_3 by (unfold y, z; lia).
  rewrite Hx, Hy, Hz. repeat split; Z.to_euclidean_division_equations; lia.
Qed.

Lemma encode_decode_quanta s t :
  decode_quanta url_alphabet s = Some t -> encode_raw url_alphabet t = s.
Proof.
  revert s t. fix IH 1. intros [|c0 [|c1 [|c2 [|c3 s]]]] t; cbn [decode_quanta].
  - by intros [= <-].
  - done.
  - destruct (unsym url_alphabet c0) as [v0|] eqn:E0; [|done].
    destruct (unsym url_alphabet c1) as [v1|] eqn:E1; [|done].
    apply unsym_range in E0 as [R0 <-], E1 as [R1 <-].
    destruct (Z.eqb_spec (Z.land v1 15) 0) as [Hz|]; [|done]. intros [= <-].
    destruct (quantum_encode v0 v1 0 0) as (Q0 & Q1 & _); try lia. cbn zeta in Q0, Q1.
    rewrite land15 in Hz.
    cbn [encode_raw]. rewrite group_sextet_0 in Q0 |- *.
    rewrite group_sextet_1 in Q1 |- * by (apply bz_range || lia).
    rewrite Q0. do 3 f_equal. rewrite <- Q1 at 2.
    revert Hz Q1. generalize (bz (zb (Z.lor (Z.shiftl v0 2) (Z.shiftr v1 4)))). intros x Hz Q1.
    rewrite bz_zb, Z.shiftl_mul_pow2, Z.lor_0_r by lia. div_lia.
  - destruct (unsym url_alphabet c0) as [v0|] eqn:E0; [|done].
    destruct (unsym url_alphabet c1) as [v1|] eqn:E1; [|done].
    destruct (unsym url_alphabet c2) as [v2|] eqn:E2; [|done].
    apply unsym_range in E0 as [R0 <-], E1 as [R1 <-], E2 as [R2 <-].
    destruct (Z.eqb_spec (Z.land v2 3) 0) as [Hz|]; [|done]. intros [= <-].
    destruct (quantum_encode v0 v1 v2 0) as (Q0 & Q1 & Q2 & _); try lia. cbn zeta in Q0, Q1, Q2.
    rewrite land3 in Hz.
    cbn [encode_raw]. rewrite group_sextet_0 in Q0 |- *.
    rewrite group_sextet_1 in Q1 |- * by apply bz_range.
    rewrite group_sextet_2 in Q2 |- * by (apply bz_range || lia).
    rewrite Q0, Q1. do 4 f_equal. rewrite <- Q2 at 2.
    revert Hz Q2. generalize (bz (zb (Z.lor (Z.shiftl v1 4) (Z.shiftr v2 2)))). intros x Hz Q2.
    rewrite bz_zb, Z.lor_0_r, Z.shiftl_mul_pow2 by lia. div_lia.
  - destruct (unsym url_alphabet c0) as [v0|] eqn:E0; [|done].
    destruct (unsym url_alphabet c1) as [v1|] eqn:E1; [|done].
    destruct (unsym url_alphabet c2) as [v2|] eqn:E2; [|done].
    destruct (unsym url_alphabet c3) as [v3|] eqn:E3; [|done].
    apply unsym_range in E0 as [R0 <-], E1 as [R1 <-], E2 as [R2 <-], E3 as [R3 <-].
    specialize (IH s). destruct (decode_quanta url_alphabet s) as [r|]; [|done]. intros [= <-].
    destruct (quantum_encode v0 v1 v2 v3) as (Q0 & Q1 & Q2 & Q3); try lia.
    cbn zeta in Q0, Q1, Q2, Q3. cbn [encode_raw]. rewrite Q0, Q1, Q2, Q3.
    do 4 f_equal. by apply IH.
Qed.

(** A string without line breaks that the strict decoder takes is the one
    spelling of its value. *)
Lemma raw_url_decode_canonical s t :
  Forall (fun c => is_newline c = false) s ->
  raw_url_decode_strict s = Some t -> s = raw_url_encode t.
Proof.
  intros Hn H. unfold raw_url_decode_strict in H. rewrite skip_newlines_id in H by done.
  symmetry. by apply encode_decode_quanta.
Qed.

(** ** The padded encoding *)

(** The quanta of [StdEncoding.DecodeString], which is not strict: the unused
    bits of the last character are not looked at, and nothing follows a
    padded quantum. *)
Fixpoint std_quanta (s : gostr) : option gostr :=
  match s with
  | [] => Some []
  | c0 :: c1 :: c2 :: c3 :: s' =>
    match unsym std_alphabet c0, unsym std_alphabet c1, unsym std_alphabet c2, unsym std_alphabet c3 with
    | Some v0, Some v1, Some v2, Some v3 =>
      match std_quanta s' with
      | Some r => Some (zb (Z.lor (Z.shiftl v0 2) (Z.shiftr v1 4))
                        :: zb (Z.lor (Z.shiftl v1 4) (Z.shiftr v2 2))
                        :: zb (Z.lor (Z.shiftl v2 6) v3) :: r)
      | None => None
      end
    | Some v0, Some v1, Some v2, None =>
      if Ascii.eqb c3 "=" && bool_decide (s' = [])
      then Some [zb (Z.lor (Z.shiftl v0 2) (Z.shiftr v1 4)); zb (Z.lor (Z.shiftl v1 4) (Z.shiftr v2 2))]
      else None
    | Some v0, Some v1, None, _ =>
      if Ascii.eqb c2 "=" && Ascii.eqb c3 "=" && bool_decide (s' = [])
      then Some [zb (Z.lor (Z.shiftl v0 2) (Z.shiftr v1 4))] else None
    | _, _, _, _ => None
    end
  | _ => None
  end.

(** [base64.StdEncoding.DecodeString]. *)
Definition std_decode (s : gostr) : option gostr := std_quanta (skip_newlines s).

Lemma std_unsym_sym v : 0 <= v < 64 -> unsym std_alphabet (sym std_alphabet v) = Some v.
Proof.
  intros Hv.
  assert (forallb (fun v => bool_decide (unsym std_alphabet (sym std_alphabet v) = Some v)) (seqZ 0 64)
    = true) as H by (vm_compute; reflexivity).
  rewrite forallb_true, Forall_forall in H. apply (bool_decide_eq_true_1 _), H, elem_of_seqZ. lia.
Qed.

Lemma std_sym_ascii v : 0 <= v < 64 -> is_newline (sym std_alphabet v) = false /\ is_ascii (sym std_alphabet v) = true.
Proof.
  intros Hv.
  assert (forallb (fun v => negb (is_newline (sym std_alphabet v)) && is_ascii (sym std_alphabet v)) (seqZ 0 64) = true)
    as H by (vm_compute; reflexivity).
  rewrite forallb_true, Forall_forall in H. specialize (H v).
  apply andb_true_iff in H as [H1 H2]; [by apply negb_true_iff in H1|]. apply elem_of_seqZ. lia.
Qed.

Lemma length_mod3 {A} (a b c : A) l : (length (a :: b :: c :: l) mod 3 = length l mod 3)%nat.
Proof. cbn [length]. replace (S (S (S (length l)))) with (length l + 1 * 3)%nat by lia. apply Nat.Div0.mod_add. Qed.

Lemma std_quanta_encode s : std_quanta (std_encode s) = Some s.
Proof.
  unfold std_encode.
  induction s as [|a|a b|a b c s IH] using list_ind3; [done| | |];
    pose proof (bz_range a) as Ra; try pose proof (bz_range b) as Rb; try pose proof (bz_range c) as Rc.
  - cbn [encode_raw app std_quanta].
    rewrite !std_unsym_sym by (apply group_sextet_range; lia).
    change (unsym std_alphabet "=") with (@None Z). cbn [Ascii.eqb andb].
    rewrite (zb_eq _ a); [done|]. rewrite decode_byte_0 by lia. apply Z.mod_small. lia.
  - cbn [encode_raw app std_quanta].
    rewrite !std_unsym_sym by (apply group_sextet_range; lia).
    change (unsym std_alphabet "=") with (@None Z).
    rewrite (zb_eq _ a), (zb_eq _ b); [done| |].
    + by apply decode_byte_1.
    + rewrite decode_byte_0 by lia. apply Z.mod_small. lia.
  - rewrite length_mod3. cbn [encode_raw app std_quanta].
    rewrite !std_unsym_sym by (apply group_sextet_range; lia).
    rewrite IH, (zb_eq _ a), (zb_eq _ b), (zb_eq _ c); [done| | |].
    + by apply decode_byte_2.
    + by apply decode_byte_1.
    + rewrite decode_byte_0 by lia. apply Z.mod_small. lia.
Qed.

Lemma std_encode_Forall (P : byte -> Prop) s :
  (forall v, 0 <= v < 64 -> P (sym std_alphabet v)) -> P "="%char -> Forall P (std_encode s).
Proof.
  intros Hs He. unfold std_encode. apply Forall_app. split.
  - apply Forall_lookup. intros i c Hi. pose proof (lookup_lt_Some _ _ _ Hi) as Hlt.
    rewrite encode_raw_length in Hlt. rewrite encode_raw_lookup in Hi by done.
    injection Hi as <-. apply Hs, sextet_range.
  - destruct (length s mod 3)%nat as [|[|[|n]]]; repeat constructor; done.
Qed.

(** Decoding the padded encoding gives the bytes back. *)
Lemma std_decode_encode s : std_decode (std_encode s) = Some s.
Proof.
  unfold std_decode. rewrite skip_newlines_id; [apply std_quanta_encode|].
  apply std_encode_Forall; [|done]. intros v Hv. apply std_sym_ascii, Hv.
Qed.

Lemma std_encode_ascii s : all_ascii (std_encode s) = true.
Proof. apply all_ascii_Forall, std_encode_Forall; [|done]. intros v Hv. apply std_sym_ascii, Hv. Qed.

(** [RawURLEncoding.DecodeString], which is not strict: the unused bits of the
    last character are not looked at. *)
Fixpoint raw_quanta (alpha : gostr) (s : gostr) : option gostr :=
  match s with
  | [] => Some []
  | [_] => None
  | [c0; c1] =>
      match unsym alpha c0, unsym alpha c1 with
      | Some v0, Some v1 => Some [zb (Z.lor (Z.shiftl v0 2) (Z.shiftr v1 4))]
      | _, _ => None
      end
  | [c0; c1; c2] =>
      match unsym alpha c0, unsym alpha c1, unsym alpha c2 with
      | Some v0, Some v1, Some v2 =>
          Some [zb (Z.lor (Z.shiftl v0 2) (Z.shiftr v1 4)); zb (Z.lor (Z.shiftl v1 4) (Z.shiftr v2 2))]
      | _, _, _ => None
      end
  | c0 :: c1 :: c2 :: c3 :: s' =>
      match unsym alpha c0, unsym alpha c1, unsym alpha c2, unsym alpha c3, raw_quanta alpha s' with
      | Some v0, Some v1, Some v2, Some v3, Some r =>
          Some (zb (Z.lor (Z.shiftl v0 2) (Z.shiftr v1 4))
                :: zb (Z.lor (Z.shiftl v1 4) (Z.shiftr v2 2))
                :: zb (Z.lor (Z.shiftl v2 6) v3) :: r)
      | _, _, _, _, _ => None
      end
  end.

Definition raw_url_decode (s : gostr) : option gostr := raw_quanta url_alphabet (skip_newlines s).

Lemma list_ind4 {A} (P : list A -> Prop) :
  P [] -> (forall a, P [a]) -> (forall a b, P [a; b]) -> (forall a b c, P [a; b; c]) ->
  (forall a b c d l, P l -> P (a :: b :: c :: d :: l)) -> forall l, P l.
Proof.
  intros H0 H1 H2 H3 H4. fix IH 1. intros [|a [|b [|c [|d l]]]].
  - exact H0.
  - apply H1.
  - apply H2.
  - apply H3.
  - apply H4, IH.
Qed.

(** What the strict decoder takes, the other one takes with the same bytes. *)
Lemma decode_quanta_raw alpha s t : decode_quanta alpha s = Some t -> raw_quanta alpha s = Some t.
Proof.
  revert t. induction s as [|a|a b|a b c|a b c d s IH] using list_ind4; intros t; try done; cbn [decode_quanta raw_quanta].
  - repeat case_match; done.
  - repeat case_match; done.
  - destruct (unsym alpha a), (unsym alpha b), (unsym alpha c), (unsym alpha d); try done.
    destruct (decode_quanta alpha s) as [r|]; [|done]. by rewrite (IH r).
Qed.

Lemma raw_url_decode_lax s : raw_url_decode (raw_url_encode s) = Some s.
Proof. apply decode_quanta_raw. exact (raw_url_decode_encode s). Qed.
