(* ===== verification/Secret.v ===== *)
(** * [internal/secret]: names, provenance and the store's interface

    The names a store takes, the provenance that rides with a value, and how a
    value is written with it.  The stores themselves are bindings to a system
    keyring: what they promise is the comment of the [Store] interface, and
    [Renew] states it as a function of a finite map. *)

From stdpp Require Import prelude list strings.
From Stdlib Require Import ZArith Lia ZifyNat Ascii.
From S2P Require Import Prelude GoUnicode GoStrings GoNum GoJson Base64.

Local Open Scope Z_scope.

(** ** Names *)

Definition JournalSuffix : gostr := lit ".journal".
Definition JournalName (name : gostr) : gostr := name ++ JournalSuffix.
Definition maxName : nat := 128.

Inductive name_error := NameEmpty | NameLong | NameStart (c : byte) | NameByte (c : byte).

Definition name_letter (c : byte) : bool := in_range 97 122 (bz c) || in_range 65 90 (bz c).
Definition name_other (c : byte) : bool := is_digit c || Ascii.eqb c "_" || Ascii.eqb c "-".

(** The loop of [ValidName] from index [i] on. *)
Fixpoint name_bytes (i : nat) (name : gostr) : res name_error unit :=
  match name with
  | [] => Ok tt
  | c :: name' =>
    if name_letter c then name_bytes (S i) name'
    else if name_other c then
      if (i =? 0)%nat then Err (NameStart c) else name_bytes (S i) name'
    else Err (NameByte c)
  end.

Definition ValidName (name : gostr) : res name_error unit :=
  fail_if (bool_decide (name = [])) NameEmpty ;?
  fail_if (maxName <? length name)%nat NameLong ;?
  name_bytes 0 name.

(** [validStoreName]. *)
Definition validStoreName (name : gostr) : res name_error unit :=
  match strip_suffix JournalSuffix name with
  | Some base => if is_ok (ValidName base) then Ok tt else ValidName name
  | None => ValidName name
  end.

(** ** Provenance *)

Record Provenance := MkProvenance { pv_v : Z; pv_from : gostr; pv_expires : Z }.

#[export] Instance Provenance_eq_dec : EqDecision Provenance.
Proof. solve_decision. Defined.

Definition ProvenanceVersion : Z := 1.
Definition provenancePrefix : gostr := lit "brig1:".
Definition no_provenance : Provenance := MkProvenance 0 [] 0.
Definition prov_IsZero (p : Provenance) : bool := bool_decide (p = no_provenance).

(** [json.Marshal] of a [Provenance]. *)
Definition prov_members (p : Provenance) : list (gostr * gostr) :=
  (lit "v", itoa (pv_v p))
  :: opt_member (negb (bool_decide (pv_from p = []))) (lit "from") (json_quote (pv_from p))
  ++ opt_member (negb (pv_expires p =? 0)) (lit "expiresAt") (itoa (pv_expires p)).

Definition Encode (p : Provenance) : gostr := provenancePrefix ++ raw_url_encode (object_text (prov_members p)).

Inductive prov_field := PV | PFrom | PExpires.

Definition prov_fields : list (gostr * prov_field) := [(lit "v", PV); (lit "from", PFrom); (lit "expiresAt", PExpires)].

(** [json.Unmarshal]: unknown keys and [null] are passed over, and a value of
    another type is an error. *)
Definition set_prov (p : Provenance) (m : gostr * json) : option Provenance :=
  match json_field prov_fields m.1, m.2 with
  | None, _ => Some p
  | _, JNull => Some p
  | Some PV, JNum n => (fun z => MkProvenance z (pv_from p) (pv_expires p)) <$> parse_int 64 n
  | Some PFrom, JStr s => Some (MkProvenance (pv_v p) s (pv_expires p))
  | Some PExpires, JNum n => (fun z => MkProvenance (pv_v p) (pv_from p) z) <$> parse_int 64 n
  | Some _, _ => None
  end.

Definition decode_prov (blob : gostr) : option Provenance :=
  match json_parse blob with
  | Some (JObj ms) => set_members set_prov no_provenance ms
  | Some JNull => Some no_provenance
  | _ => None
  end.

Definition maxFromLen : nat := 256.

Definition validFromByte (c : byte) : bool :=
  in_range 97 122 (bz c) || in_range 65 90 (bz c) || is_digit c || has_byte c (lit " -_.:/~").

Definition validFrom (from : gostr) : bool :=
  negb (maxFromLen <? length from)%nat && forallb validFromByte from.

Definition SafeFrom (from : gostr) : gostr :=
  (fun c => if validFromByte c then c else "_"%char)
  <$> (if (maxFromLen <? length from)%nat then take maxFromLen from else from).

Definition DecodeProvenance (comment : gostr) : option Provenance :=
  match strip_prefix provenancePrefix comment with
  | None => None
  | Some rest =>
    match raw_url_decode rest with
    | None => None
    | Some blob =>
      match decode_prov blob with
      | None => None
      | Some p => Some (if validFrom (pv_from p) then p else MkProvenance (pv_v p) [] (pv_expires p))
      end
    end
  end.

(** ** Names and journals *)

Lemma name_bytes_ok i name u :
  name_bytes i name = Ok u <->
  Forall (fun c => name_letter c || name_other c = true) name /\
  (i = 0%nat -> forall c name', name = c :: name' -> name_letter c = true).
Proof.
  destruct u. revert i. induction name as [|c name IH]; intros i; cbn [name_bytes].
  { split; [intros _; split; [constructor|done] | done]. }
  rewrite Forall_cons. destruct (name_letter c) eqn:El; cbn [orb].
  - rewrite (IH (S i)). split.
    + intros [H _]. split; [done|]. intros _ c' n' [= -> ->]. done.
    + intros [[_ H] _]. split; [done|]. intros [=].
  - destruct (name_other c).
    + destruct i as [|i]; cbn [Nat.eqb].
      * split; [done|]. intros [_ H]. specialize (H eq_refl c name eq_refl). congruence.
      * rewrite (IH (S (S i))). split.
        -- intros [H _]. split; [done|]. intros [=].
        -- intros [[_ H] _]. split; [done|]. intros [=].
    + split; [done|]. intros [[[=] _] _].
Qed.

Lemma ValidName_ok name u :
  ValidName name = Ok u <->
  name <> [] /\ (length name <= maxName)%nat /\ Forall (fun c => name_letter c || name_other c = true) name /\
  (forall c name', name = c :: name' -> name_letter c = true).
Proof.
  unfold ValidName. destruct u. rewrite !seq_ok, !fail_if_ok, name_bytes_ok, bool_decide_eq_false, Nat.ltb_ge. naive_solver.
Qed.

Lemma name_plain name : ValidName name = Ok tt -> "."%char ∉ name.
Proof.
  intros (_ & _ & H & _)%ValidName_ok. rewrite Forall_forall in H. intros Hin. specialize (H _ Hin). by vm_compute in H.
Qed.

(** No secret is named like a journal: a store takes the name of a journal
    exactly for a name it takes for a secret, and it takes nothing else with a
    dot, the journal of a journal least of all. *)
Lemma journal_names (name : gostr) :
  (validStoreName (JournalName name) = Ok tt <-> ValidName name = Ok tt) /\
  ValidName (JournalName name) <> Ok tt /\
  (forall n, validStoreName n = Ok tt <-> ValidName n = Ok tt \/ exists m, n = JournalName m /\ ValidName m = Ok tt).
Proof.
  assert (forall m, ValidName (JournalName m) <> Ok tt) as Hj.
  { intros m H%name_plain. apply H, elem_of_app. right. vm_compute. left. }
  assert (forall m, strip_suffix JournalSuffix (JournalName m) = Some m) as Hs by (intros m; by apply strip_suffix_Some).
  assert (forall m, validStoreName (JournalName m) = Ok tt <-> ValidName m = Ok tt) as H1.
  { intros m. unfold validStoreName. rewrite Hs. destruct (ValidName m) as [[]|e] eqn:E; cbn [is_ok]; [done|].
    split; [by intros ?%Hj|done]. }
  split; [apply H1|]. split; [apply Hj|]. intros n. split.
  - unfold validStoreName. destruct (strip_suffix JournalSuffix n) as [m|] eqn:E; [|by left].
    apply strip_suffix_Some in E as ->. destruct (ValidName m) as [[]|] eqn:Em; cbn [is_ok]; [right; eauto|by left].
  - intros [H|(m & -> & H)]; [|by apply H1]. unfold validStoreName.
    destruct (strip_suffix JournalSuffix n) as [m|]; [|done]. by destruct (is_ok (ValidName m)).
Qed.

(** ** The round trip of a provenance *)

Lemma validFromByte_ascii c : validFromByte c = true -> is_ascii c = true.
Proof.
  unfold validFromByte, is_ascii. intros H. apply Z.ltb_lt. rewrite !orb_true_iff, !in_range_true in H.
  unfold is_digit in H. rewrite in_range_true, has_byte_true in H.
  destruct H as [[[H|H]|H]|H]; [lia|lia|lia|].
  revert H. cbn. rewrite !elem_of_cons, elem_of_nil. intros H. 
  repeat destruct H as [->|H]; vm_compute; auto; destruct H.
Qed.

Lemma validFrom_ok from :
  validFrom from = true <-> (length from <= maxFromLen)%nat /\ Forall (fun c => validFromByte c = true) from.
Proof. unfold validFrom. rewrite andb_true_iff, negb_true_iff, Nat.ltb_ge, forallb_true. done. Qed.

Lemma validFrom_ascii from : validFrom from = true -> to_valid from = from.
Proof.
  intros [_ H]%validFrom_ok. apply to_valid_ascii, all_ascii_Forall.
  apply (Forall_impl _ _ _ H). apply validFromByte_ascii.
Qed.

Lemma parse_prov p :
  json_parse (object_text (prov_members p)) = Some (JObj
    ((lit "v", JNum (itoa (pv_v p)))
     :: (if bool_decide (pv_from p = []) then [] else [(lit "from", JStr (to_valid (pv_from p)))])
     ++ (if pv_expires p =? 0 then [] else [(lit "expiresAt", JNum (itoa (pv_expires p)))]))).
Proof.
  set (vs := JNum (itoa (pv_v p))
     :: (if bool_decide (pv_from p = []) then [] else [JStr (to_valid (pv_from p))])
     ++ (if pv_expires p =? 0 then [] else [JNum (itoa (pv_expires p))])).
  rewrite (json_parse_object _ vs).
  - subst vs. unfold prov_members, opt_member. by destruct (bool_decide _), (pv_expires p =? 0).
  - subst vs. unfold prov_members, opt_member.
    destruct (bool_decide _), (pv_expires p =? 0); cbn [negb app];
      repeat (apply Forall2_cons; split || apply Forall2_nil); try done; cbn [snd]; auto using reads_number, reads_quote.
  - done.
Qed.

Lemma set_prov_v p n : set_prov p (lit "v", JNum n) = (fun z => MkProvenance z (pv_from p) (pv_expires p)) <$> parse_int 64 n.
Proof. reflexivity. Qed.
Lemma set_prov_from p s : set_prov p (lit "from", JStr s) = Some (MkProvenance (pv_v p) s (pv_expires p)).
Proof. reflexivity. Qed.
Lemma set_prov_expires p n :
  set_prov p (lit "expiresAt", JNum n) = (fun z => MkProvenance (pv_v p) (pv_from p) z) <$> parse_int 64 n.
Proof. reflexivity. Qed.

Lemma decode_prov_members p :
  int64 (pv_v p) -> int64 (pv_expires p) -> validFrom (pv_from p) = true ->
  decode_prov (object_text (prov_members p)) = Some p.
Proof.
  intros Hv He Hf. unfold decode_prov. rewrite parse_prov, validFrom_ascii by done. cbn [set_members].
  rewrite set_prov_v, parse_int_itoa by exact Hv. cbn [fmap option_fmap option_map no_provenance pv_from pv_expires].
  destruct p as [v from ex]. cbn [pv_v pv_from pv_expires] in *.
  destruct (bool_decide_reflect (from = [])) as [->|Hne]; destruct (Z.eqb_spec ex 0) as [->|Hx];
    cbn [app set_members]; rewrite ?set_prov_from; cbn [pv_v pv_from pv_expires];
    rewrite ?set_prov_expires, ?parse_int_itoa by exact He; done.
Qed.

(** A provenance whose source was made safe reads back whole: what an import
    records is what a later listing shows. *)
Lemma provenance_roundtrip (p : Provenance) (Hv : int64 (pv_v p)) (He : int64 (pv_expires p)) :
  let p' := MkProvenance (pv_v p) (SafeFrom (pv_from p)) (pv_expires p) in
  validFrom (SafeFrom (pv_from p)) = true /\ DecodeProvenance (Encode p') = Some p' /\
  (validFrom (pv_from p) = true -> p' = p).
Proof.
  assert (validFrom (SafeFrom (pv_from p)) = true) as Hs.
  { apply validFrom_ok. unfold SafeFrom. split.
    - rewrite length_fmap. case_if; [rewrite length_take; lia|by apply Nat.ltb_ge in Hc].
    - apply Forall_fmap, Forall_true. intros c. cbn. by destruct (validFromByte c) eqn:E. }
  cbv zeta. split; [done|]. split.
  - unfold DecodeProvenance, Encode. rewrite (proj2 (strip_prefix_Some _ _ _) eq_refl), raw_url_decode_lax.
    rewrite decode_prov_members by done. cbn [pv_from]. by rewrite Hs.
  - intros [Hl H]%validFrom_ok. destruct p as [v from ex]. cbn [pv_v pv_from pv_expires] in *. f_equal. unfold SafeFrom.
    rewrite (proj2 (Nat.ltb_ge _ _)) by done. clear -H. induction H as [|c from Hc H IH]; [done|].
    cbn [fmap list_fmap]. rewrite Hc. by f_equal.
Qed.

Example provenance_roundtrip_witness :
  let p := MkProvenance 1 (lit "file:~/My,Tool/creds.json") 1700000000000 in
  pv_from p <> SafeFrom (pv_from p) /\
  DecodeProvenance (Encode (MkProvenance 1 (lit "file:~/My_Tool/creds.json") 1700000000000))
    = Some (MkProvenance 1 (lit "file:~/My_Tool/creds.json") 1700000000000).
Proof.
  split; [by vm_compute|].
  apply (provenance_roundtrip (MkProvenance 1 (lit "file:~/My,Tool/creds.json") 1700000000000)); unfold int64; cbn; lia.
Defined.
