(* ===== verification/Journal.v ===== *)
(** * [internal/renew/journal.go]: the journal of a renewal as a document

    The journal of a renewal is a JSON document in the store next to the
    secret it renews.  This file holds the document, its bytes, the owner of a
    journal and its age; [Renew] walks it. *)

From stdpp Require Import prelude list strings.
From Stdlib Require Import ZArith Lia ZifyNat Ascii.
From S2P Require Import Prelude GoUnicode GoStrings GoNum GoJson Base64 Secret.

Local Open Scope Z_scope.

(** ** Times

    A [time.Time] is its nanoseconds since the year 1, so 0 is the zero time.
    The monotonic reading that a process also keeps is left out. *)
Definition time : Type := Z.
Definition zero_time : time := 0.
Definition IsZero (t : time) : bool := t =? 0.
Definition second : Z := 1000000000.
Definition minute : Z := 60 * second.

(** Nanoseconds from the year 1 to 1970. *)
Definition epoch : Z := 62135596800 * second.

Definition UnixMilli (t : time) : Z := (t - epoch) / 1000000.
Definition time_UnixMilli (ms : Z) : time := ms * 1000000 + epoch.

(** [t.Sub(u)], which saturates at the range of a [Duration]. *)
Definition Sub (t u : time) : Z := Z.max (- 2 ^ 63) (Z.min (2 ^ 63 - 1) (t - u)).

(** ** The document *)

Definition journalVersion : Z := 1.
Definition phaseRenewing : gostr := lit "renewing".
Definition phaseRenewed : gostr := lit "renewed".
Definition journalLife : Z := 10 * minute.

Record journalOwner := MkOwner { ow_pid : Z; ow_start : gostr; ow_nonce : gostr }.

#[export] Instance journalOwner_eq_dec : EqDecision journalOwner.
Proof. solve_decision. Defined.

Record journal := MkJournal {
  j_v : Z; j_phase : gostr; j_owner : journalOwner; j_startedAt : Z; j_docHash : gostr; j_doc : gostr }.

#[export] Instance journal_eq_dec : EqDecision journal.
Proof. solve_decision. Defined.

Definition no_owner : journalOwner := MkOwner 0 [] [].
Definition no_journal : journal := MkJournal 0 [] no_owner 0 [] [].

Definition set_phase (p : gostr) (doc : gostr) (j : journal) : journal :=
  MkJournal (j_v j) p (j_owner j) (j_startedAt j) (j_docHash j) doc.

(** [docHash]: the SHA-256 of a document in hex. *)
Definition hex_encode (s : gostr) : gostr := s ≫= fun c => [lower_hex (bz c / 16); lower_hex (bz c mod 16)].
Definition docHash (sha256 : gostr -> gostr) (doc : gostr) : gostr := hex_encode (sha256 doc).

(** [ownerAlive], where [alive] says whether a process runs and [start] reads
    its start time. *)
Definition ownerAlive (alive : Z -> bool) (start : Z -> option gostr) (o : journalOwner) : bool :=
  if negb (alive (ow_pid o)) then false
  else if bool_decide (ow_start o = []) then true
  else match start (ow_pid o) with None => true | Some s => bool_decide (s = ow_start o) end.

(** Less than [journalLife] old, and not from the future. *)
Definition young (now : time) (j : journal) : bool :=
  let age := Sub now (time_UnixMilli (j_startedAt j)) in (0 <=? age) && (age <? journalLife).

(** ** Its bytes *)

Definition owner_members (o : journalOwner) : list (gostr * gostr) :=
  (lit "pid", itoa (ow_pid o))
  :: opt_member (negb (bool_decide (ow_start o = []))) (lit "start") (json_quote (ow_start o))
  ++ [(lit "nonce", json_quote (ow_nonce o))].

Definition journal_members (j : journal) : list (gostr * gostr) :=
  [(lit "v", itoa (j_v j)); (lit "phase", json_quote (j_phase j)); (lit "owner", object_text (owner_members (j_owner j)));
   (lit "startedAt", itoa (j_startedAt j)); (lit "docHash", json_quote (j_docHash j))]
  ++ opt_member (negb (bool_decide (j_doc j = []))) (lit "doc") (json_quote (std_encode (j_doc j))).

(** [json.Marshal(j)]. *)
Definition marshal_journal (j : journal) : gostr := object_text (journal_members j).

Inductive owner_field := OPid | OStart | ONonce.
Inductive journal_field := JV | JPhase | JOwner | JStartedAt | JDocHash | JDoc.

Definition owner_fields : list (gostr * owner_field) := [(lit "pid", OPid); (lit "start", OStart); (lit "nonce", ONonce)].
Definition journal_fields : list (gostr * journal_field) :=
  [(lit "v", JV); (lit "phase", JPhase); (lit "owner", JOwner); (lit "startedAt", JStartedAt);
   (lit "docHash", JDocHash); (lit "doc", JDoc)].

Definition set_owner (o : journalOwner) (m : gostr * json) : option journalOwner :=
  match json_field owner_fields m.1, m.2 with
  | None, _ => Some o
  | _, JNull => Some o
  | Some OPid, JNum n => (fun z => MkOwner z (ow_start o) (ow_nonce o)) <$> parse_int 64 n
  | Some OStart, JStr s => Some (MkOwner (ow_pid o) s (ow_nonce o))
  | Some ONonce, JStr s => Some (MkOwner (ow_pid o) (ow_start o) s)
  | Some _, _ => None
  end.

(** A byte of a [[]byte] that is written as an array of numbers. *)
Definition byte_item (v : json) : option byte :=
  match v with JNum n => zb <$> parse_uint 8 n | JNull => Some (zb 0) | _ => None end.

Definition set_journal (j : journal) (m : gostr * json) : option journal :=
  match json_field journal_fields m.1, m.2 with
  | None, _ => Some j
  | Some JDoc, JNull => Some (MkJournal (j_v j) (j_phase j) (j_owner j) (j_startedAt j) (j_docHash j) [])
  | Some _, JNull => Some j
  | Some JV, JNum n =>
    (fun z => MkJournal z (j_phase j) (j_owner j) (j_startedAt j) (j_docHash j) (j_doc j)) <$> parse_int 64 n
  | Some JPhase, JStr s => Some (MkJournal (j_v j) s (j_owner j) (j_startedAt j) (j_docHash j) (j_doc j))
  | Some JOwner, JObj ms =>
    (fun o => MkJournal (j_v j) (j_phase j) o (j_startedAt j) (j_docHash j) (j_doc j)) <$> set_members set_owner (j_owner j) ms
  | Some JStartedAt, JNum n =>
    (fun z => MkJournal (j_v j) (j_phase j) (j_owner j) z (j_docHash j) (j_doc j)) <$> parse_int 64 n
  | Some JDocHash, JStr s => Some (MkJournal (j_v j) (j_phase j) (j_owner j) (j_startedAt j) s (j_doc j))
  | Some JDoc, JStr s =>
    (fun d => MkJournal (j_v j) (j_phase j) (j_owner j) (j_startedAt j) (j_docHash j) d) <$> std_decode s
  | Some JDoc, JArr l =>
    (fun d => MkJournal (j_v j) (j_phase j) (j_owner j) (j_startedAt j) (j_docHash j) d) <$> mapM byte_item l
  | Some _, _ => None
  end.

Definition unmarshal_journal (blob : gostr) : option journal :=
  match json_parse blob with
  | Some (JObj ms) => set_members set_journal no_journal ms
  | Some JNull => Some no_journal
  | _ => None
  end.

(** What [readJournal] makes of the bytes it read: a journal of this schema,
    or [errBadJournal]. *)
Definition parse_journal (blob : gostr) : option journal :=
  match unmarshal_journal blob with
  | Some j =>
    if bool_decide (j_v j = journalVersion) && (bool_decide (j_phase j = phaseRenewing) || bool_decide (j_phase j = phaseRenewed))
    then Some j else None
  | None => None
  end.

(** ** The round trip *)

(** A journal as a cache writes one. *)
Definition journal_ok (j : journal) : Prop :=
  j_v j = journalVersion /\ (j_phase j = phaseRenewing \/ j_phase j = phaseRenewed) /\ int64 (j_startedAt j) /\
  int64 (ow_pid (j_owner j)) /\ all_ascii (ow_start (j_owner j)) = true /\ all_ascii (ow_nonce (j_owner j)) = true /\
  all_ascii (j_docHash j) = true.

Definition owner_values (o : journalOwner) : list json :=
  JNum (itoa (ow_pid o)) :: (if bool_decide (ow_start o = []) then [] else [JStr (to_valid (ow_start o))])
  ++ [JStr (to_valid (ow_nonce o))].

Definition journal_values (j : journal) : list json :=
  [JNum (itoa (j_v j)); JStr (to_valid (j_phase j));
   JObj (zip (to_valid <$> (owner_members (j_owner j)).*1) (owner_values (j_owner j)));
   JNum (itoa (j_startedAt j)); JStr (to_valid (j_docHash j))]
  ++ (if bool_decide (j_doc j = []) then [] else [JStr (to_valid (std_encode (j_doc j)))]).

Lemma owner_reads d o : Forall2 (fun m v => reads d m.2 v) (owner_members o) (owner_values o).
Proof.
  unfold owner_members, owner_values, opt_member. destruct (bool_decide (ow_start o = [])); cbn [negb app];
    repeat (apply Forall2_cons; split || apply Forall2_nil); cbn [snd]; auto using reads_number, reads_quote.
Qed.

Lemma parse_marshal j :
  json_parse (marshal_journal j) = Some (JObj (zip (to_valid <$> (journal_members j).*1) (journal_values j))).
Proof.
  apply json_parse_object; [|done].
  unfold journal_members, journal_values, opt_member. destruct (bool_decide (j_doc j = [])); cbn [negb app];
    repeat (apply Forall2_cons; split || apply Forall2_nil); cbn [snd]; auto using reads_number, reads_quote;
    (apply reads_object; [apply owner_reads|done|vm_compute; congruence]).
Qed.

Lemma set_owner_members o :
  int64 (ow_pid o) -> all_ascii (ow_start o) = true -> all_ascii (ow_nonce o) = true ->
  set_members set_owner no_owner (zip (to_valid <$> (owner_members o).*1) (owner_values o)) = Some o.
Proof.
  intros Hp Hs Hn. destruct o as [pid start nonce]. unfold owner_members, owner_values, opt_member.
  cbn [ow_pid ow_start ow_nonce] in *. rewrite !to_valid_ascii by done.
  assert (forall p o, set_owner o (to_valid (lit "pid"), JNum p) = (fun z => MkOwner z (ow_start o) (ow_nonce o)) <$> parse_int 64 p)
    as E1 by reflexivity.
  destruct (bool_decide_reflect (start = [])) as [->|_]; cbn [negb app fmap list_fmap fst zip zip_with set_members];
    rewrite E1, parse_int_itoa by exact Hp; reflexivity.
Qed.

(** A journal reads back as it was written. *)
Lemma parse_marshal_journal j : journal_ok j -> parse_journal (marshal_journal j) = Some j.
Proof.
  intros (Hv & Hph & Hst & Hp & Hs & Hn & Hh). unfold parse_journal, unmarshal_journal. rewrite parse_marshal.
  destruct j as [v ph o st h doc]. cbn [j_v j_phase j_owner j_startedAt j_docHash j_doc] in *.
  assert (set_members set_journal no_journal (zip (to_valid <$> (journal_members (MkJournal v ph o st h doc)).*1)
    (journal_values (MkJournal v ph o st h doc))) = Some (MkJournal v ph o st h doc)) as ->.
  { unfold journal_members, journal_values, opt_member. cbn [j_v j_phase j_owner j_startedAt j_docHash j_doc].
    rewrite (to_valid_ascii h), (to_valid_ascii (std_encode doc)) by (done || apply std_encode_ascii).
    rewrite (to_valid_ascii ph) by (by destruct Hph as [->| ->]).
    assert (forall n j, set_journal j (to_valid (lit "v"), JNum n) =
      (fun z => MkJournal z (j_phase j) (j_owner j) (j_startedAt j) (j_docHash j) (j_doc j)) <$> parse_int 64 n) as E1 by reflexivity.
    assert (forall n j, set_journal j (to_valid (lit "startedAt"), JNum n) =
      (fun z => MkJournal (j_v j) (j_phase j) (j_owner j) z (j_docHash j) (j_doc j)) <$> parse_int 64 n) as E2 by reflexivity.
    assert (forall ms j, set_journal j (to_valid (lit "owner"), JObj ms) =
      (fun o => MkJournal (j_v j) (j_phase j) o (j_startedAt j) (j_docHash j) (j_doc j)) <$> set_members set_owner (j_owner j) ms)
      as E3 by reflexivity.
    assert (forall s j, set_journal j (to_valid (lit "phase"), JStr s) =
      Some (MkJournal (j_v j) s (j_owner j) (j_startedAt j) (j_docHash j) (j_doc j))) as E4 by reflexivity.
    assert (forall s j, set_journal j (to_valid (lit "docHash"), JStr s) =
      Some (MkJournal (j_v j) (j_phase j) (j_owner j) (j_startedAt j) s (j_doc j))) as E5 by reflexivity.
    assert (forall s j, set_journal j (to_valid (lit "doc"), JStr s) =
      (fun d => MkJournal (j_v j) (j_phase j) (j_owner j) (j_startedAt j) (j_docHash j) d) <$> std_decode s) as E6 by reflexivity.
    destruct (bool_decide_reflect (doc = [])) as [->|_]; cbn [negb app fmap list_fmap fst zip zip_with set_members];
      rewrite E1, Hv, parse_int_itoa by (vm_compute; split; congruence); cbn [fmap option_fmap option_map];
      rewrite E4, E3; cbn [j_owner no_journal]; rewrite set_owner_members by done; cbn [fmap option_fmap option_map];
      rewrite E2, parse_int_itoa by exact Hst; cbn [fmap option_fmap option_map]; rewrite E5; [done|];
      rewrite E6, std_decode_encode; done. }
  cbn [j_v j_phase]. rewrite bool_decide_true by done. destruct Hph as [->| ->]; done.
Qed.

(** ** Hashes *)

Lemma lower_hex_inj a b : 0 <= a < 16 -> 0 <= b < 16 -> lower_hex a = lower_hex b -> a = b.
Proof.
  intros Ha Hb E.
  assert (forallb (fun a => forallb (fun b => negb (Ascii.eqb (lower_hex a) (lower_hex b)) || (a =? b)) (seqZ 0 16)) (seqZ 0 16) = true)
    as H by (vm_compute; reflexivity).
  rewrite forallb_true, Forall_forall in H. specialize (H a ltac:(apply elem_of_seqZ; lia)).
  rewrite forallb_true, Forall_forall in H. specialize (H b ltac:(apply elem_of_seqZ; lia)).
  rewrite E in H. destruct (Ascii.eqb_spec (lower_hex b) (lower_hex b)); [|done]. by apply Z.eqb_eq in H.
Qed.

Lemma hex_encode_inj s t : hex_encode s = hex_encode t -> s = t.
Proof.
  revert t. induction s as [|c s IH]; intros [|d t]; cbn; try done. intros [= H1 H2 H3].
  pose proof (bz_range c). pose proof (bz_range d).
  apply lower_hex_inj in H1; [|div_lia..]. apply lower_hex_inj in H2; [|div_lia..].
  f_equal; [|by apply IH]. apply bz_inj. rewrite (Z.div_mod (bz c) 16), (Z.div_mod (bz d) 16) by lia. lia.
Qed.

Lemma hex_encode_ascii s : all_ascii (hex_encode s) = true.
Proof.
  apply all_ascii_Forall. induction s as [|c s IH]; [constructor|]. cbn. pose proof (bz_range c).
  assert (forall a, 0 <= a < 16 -> is_ascii (lower_hex a) = true) as Ha.
  { intros a Ha. assert (forallb (fun a => is_ascii (lower_hex a)) (seqZ 0 16) = true) as H' by (vm_compute; reflexivity).
    rewrite forallb_true, Forall_forall in H'. apply H', elem_of_seqZ. lia. }
  repeat constructor; [apply Ha; div_lia..|exact IH].
Qed.

Lemma docHash_inj (sha256 : gostr -> gostr) `{!Inj (=) (=) sha256} : Inj (=) (=) (docHash sha256).
Proof. intros a b H%hex_encode_inj. by apply (inj sha256). Qed.
