(* ===== verification/Renew.v ===== *)
(** * [internal/renew]: the renewal of a credential, journaled in the store

    The cache of one secret as a state machine over a store and a provider
    that rotates the document single-use.  [Resolve], [ForceRenew] and
    [Recover] are the operations; every call on the outside can fail, a write
    can land and report a failure, and the store after each step is kept, for a
    crash can come after any of them.

    One call at a time holds the turn of an entry, and only that call writes
    it, so the operations of one secret run one after the other.  [RenewSafe]
    holds the theorems. *)

From stdpp Require Import prelude list strings gmap sorting.
From Stdlib Require Import ZArith Lia ZifyNat Ascii.
From S2P Require Import Prelude GoUnicode GoStrings GoNum GoJson Base64 Secret Journal.

Local Open Scope Z_scope.

Definition renewAhead : Z := 10 * minute.
Definition retryAfter : Z := 30 * second.
Definition recheck : Z := 5 * minute.

(** ** The entry of a secret *)

Inductive journalStep := journalNone | journalStarted | journalRenewed | journalClear.

#[export] Instance journalStep_eq_dec : EqDecision journalStep.
Proof. solve_decision. Defined.

(** What a store reports; [FDamaged] is [ErrDamaged]. *)
Inductive fault := FDamaged | FOther (n : nat).
Inductive store_error := SNotFound | SExists | SFault (f : fault).

(** One constructor per message. *)
Inductive renew_error :=
  | EStore (e : store_error)
  | ECtx
  | EUnread
  | EGone (name : gostr)
  | EExpiry (name : gostr) (n : nat)
  | EProvider (n : nat) (spent : bool)
  | EEmptyDoc
  | EPendingWrite
  | EBadJournal
  | EJournalThere
  | EJournalUnwritten (e : store_error)
  | ENoLifecycle (name : gostr)
  | EExpired (name : gostr)
  | EExpiredFailing (name : gostr) (e : renew_error)
  | EExpiredBlocked (name : gostr)
  | ENotRenewed (name : gostr) (e : renew_error)
  | ESpentAgain (name : gostr) (e : option renew_error)
  | EStillPending (name : gostr)
  | EOtherProcess (name : gostr).

(** [errors.Is(err, ErrNotFound)] and [errors.Is(err, ErrSpent)]. *)
Fixpoint is_not_found (e : renew_error) : bool :=
  match e with
  | EStore SNotFound | EGone _ | EJournalUnwritten SNotFound => true
  | EExpiredFailing _ e | ENotRenewed _ e | ESpentAgain _ (Some e) => is_not_found e
  | _ => false
  end.

Definition is_spent (e : renew_error) : bool := match e with EProvider _ s => s | EEmptyDoc => true | _ => false end.
Definition is_unread (f : option renew_error) : bool := match f with Some EUnread => true | _ => false end.

Record entry := MkEntry {
  e_doc : option gostr; e_stored : option gostr; e_expires : time; e_issued : time; e_checkedAt : time;
  e_failure : option renew_error; e_failedAt : time; e_spent : bool; e_writeFailedAt : time;
  e_journal : journalStep; e_startedAt : time; e_from : gostr; e_owner : journalOwner;
  e_recovered : bool; e_recoverFailedAt : time; e_blockedAt : time; e_suspect : bool; e_adopted : bool }.

Definition new_entry : entry :=
  MkEntry None None 0 0 0 None 0 false 0 journalNone 0 [] no_owner false 0 0 false false.

(** The assignments of the sources, one definition for each group of fields
    that are set together. *)
Definition set_checked (t : time) (e : entry) : entry :=
  MkEntry (e_doc e) (e_stored e) (e_expires e) (e_issued e) t (e_failure e) (e_failedAt e) (e_spent e) (e_writeFailedAt e)
    (e_journal e) (e_startedAt e) (e_from e) (e_owner e) (e_recovered e) (e_recoverFailedAt e) (e_blockedAt e) (e_suspect e) (e_adopted e).
Definition set_stored (s : option gostr) (e : entry) : entry :=
  MkEntry (e_doc e) s (e_expires e) (e_issued e) (e_checkedAt e) (e_failure e) (e_failedAt e) (e_spent e) (e_writeFailedAt e)
    (e_journal e) (e_startedAt e) (e_from e) (e_owner e) (e_recovered e) (e_recoverFailedAt e) (e_blockedAt e) (e_suspect e) (e_adopted e).
Definition set_held (doc : option gostr) (expires issued : time) (e : entry) : entry :=
  MkEntry doc (e_stored e) expires issued (e_checkedAt e) (e_failure e) (e_failedAt e) (e_spent e) (e_writeFailedAt e)
    (e_journal e) (e_startedAt e) (e_from e) (e_owner e) (e_recovered e) (e_recoverFailedAt e) (e_blockedAt e) (e_suspect e) (e_adopted e).
Definition set_failure (f : option renew_error) (at_ : time) (spent : bool) (e : entry) : entry :=
  MkEntry (e_doc e) (e_stored e) (e_expires e) (e_issued e) (e_checkedAt e) f at_ spent (e_writeFailedAt e)
    (e_journal e) (e_startedAt e) (e_from e) (e_owner e) (e_recovered e) (e_recoverFailedAt e) (e_blockedAt e) (e_suspect e) (e_adopted e).
Definition set_writeFailed (t : time) (e : entry) : entry :=
  MkEntry (e_doc e) (e_stored e) (e_expires e) (e_issued e) (e_checkedAt e) (e_failure e) (e_failedAt e) (e_spent e) t
    (e_journal e) (e_startedAt e) (e_from e) (e_owner e) (e_recovered e) (e_recoverFailedAt e) (e_blockedAt e) (e_suspect e) (e_adopted e).
Definition set_journal_step (j : journalStep) (e : entry) : entry :=
  MkEntry (e_doc e) (e_stored e) (e_expires e) (e_issued e) (e_checkedAt e) (e_failure e) (e_failedAt e) (e_spent e) (e_writeFailedAt e)
    j (e_startedAt e) (e_from e) (e_owner e) (e_recovered e) (e_recoverFailedAt e) (e_blockedAt e) (e_suspect e) (e_adopted e).
Definition set_origin (startedAt : time) (from : gostr) (o : journalOwner) (e : entry) : entry :=
  MkEntry (e_doc e) (e_stored e) (e_expires e) (e_issued e) (e_checkedAt e) (e_failure e) (e_failedAt e) (e_spent e) (e_writeFailedAt e)
    (e_journal e) startedAt from o (e_recovered e) (e_recoverFailedAt e) (e_blockedAt e) (e_suspect e) (e_adopted e).
Definition set_recovered (r : bool) (failedAt blockedAt : time) (e : entry) : entry :=
  MkEntry (e_doc e) (e_stored e) (e_expires e) (e_issued e) (e_checkedAt e) (e_failure e) (e_failedAt e) (e_spent e) (e_writeFailedAt e)
    (e_journal e) (e_startedAt e) (e_from e) (e_owner e) r failedAt blockedAt (e_suspect e) (e_adopted e).
Definition set_suspect (s : bool) (e : entry) : entry :=
  MkEntry (e_doc e) (e_stored e) (e_expires e) (e_issued e) (e_checkedAt e) (e_failure e) (e_failedAt e) (e_spent e) (e_writeFailedAt e)
    (e_journal e) (e_startedAt e) (e_from e) (e_owner e) (e_recovered e) (e_recoverFailedAt e) (e_blockedAt e) s (e_adopted e).
Definition set_adopted (a : bool) (e : entry) : entry :=
  MkEntry (e_doc e) (e_stored e) (e_expires e) (e_issued e) (e_checkedAt e) (e_failure e) (e_failedAt e) (e_spent e) (e_writeFailedAt e)
    (e_journal e) (e_startedAt e) (e_from e) (e_owner e) (e_recovered e) (e_recoverFailedAt e) (e_blockedAt e) (e_suspect e) a.

(** [e.reset(doc, expires, checkedAt)]: both served and stored. *)
Definition reset (doc : option gostr) (expires checkedAt : time) (e : entry) : entry :=
  set_suspect false (set_writeFailed 0 (set_failure None 0 false
    (set_checked checkedAt (set_stored doc (set_held doc expires 0 e))))).

(** [bytes.Equal], for which nil is the empty slice. *)
Definition bytes_equal (a b : option gostr) : bool := bool_decide (default [] a = default [] b).

(** [pendingLocked]: a write of the last renewal, or of the journal being
    cleared, has yet to land. *)
Definition pending (e : entry) : bool :=
  negb (bool_decide (e_journal e = journalNone)) || (is_some (e_doc e) && negb (bytes_equal (e_doc e) (e_stored e))).

(** [renewAt]. *)
Definition renewAt (e : entry) : time :=
  let ahead := if IsZero (e_issued e) then renewAhead
               else Z.min renewAhead (Z.max (Z.quot (Sub (e_expires e) (e_issued e)) 2) 0) in
  e_expires e - ahead.

(** ** The outside *)

(** A write lands, lands and reports a failure, or fails and changes nothing. *)
Inductive write_fault := Lands | Landed (f : fault) | Lost (f : fault).

(** A refresh that never reached the provider; one that did and whose answer
    was lost, the document perhaps rotated; or an answer. *)
Inductive answer := Unreached (n : nat) | Spent (n : nat) (rotated : option gostr) | Renewed (next : gostr).

Record outside := MkOutside {
  o_now : nat -> time; o_ctx : nat -> bool; o_turn : nat -> bool;
  o_read : nat -> option fault; o_list : nat -> option fault; o_write : nat -> write_fault;
  o_renew : nat -> gostr -> answer; o_alive : nat -> journalOwner -> bool }.

Record cell := MkCell { c_value : gostr; c_prov : Provenance }.
Abbreviation store := (gmap gostr cell).

(** What a crash leaves: the store and the state of the provider, which takes
    the document [p_valid] and took [p_old] before.  [p_lost] is set when the
    document the provider takes is nowhere any more: a new login is due. *)
Record point := MkPoint { p_store : store; p_valid : gostr; p_old : list gostr; p_lost : bool }.

(** A refresh that was sent: its document, the one the provider took then, and
    whether that one was lost. *)
Record refresh := MkRefresh { rf_doc : gostr; rf_valid : gostr; rf_lost : bool }.

(** A run of the cache so far: the durable state, the ones before it, the
    refreshes sent, and the entry in memory.  [w_n] counts the calls on the
    outside. *)
Record state := MkState { s_now : point; s_points : list point; s_sent : list refresh; s_entry : entry }.
Record world := MkWorld { w_n : nat; w_st : state }.

Definition M (A : Type) : Type := world -> A * world.

#[export] Instance M_ret : MRet M := fun A a w => (a, w).
#[export] Instance M_bind : MBind M := fun A B f m w => let '(a, w') := m w in f a w'.

Definition tick {A} (f : nat -> A) : M A := fun w => (f (w_n w), MkWorld (S (w_n w)) (w_st w)).
Definition modify (f : state -> state) : M unit := fun w => (tt, MkWorld (w_n w) (f (w_st w))).
Definition get : M entry := fun w => (s_entry (w_st w), w).
Definition durable : M point := fun w => (s_now (w_st w), w).

Definition upd (f : entry -> entry) : M unit :=
  modify (fun s => MkState (s_now s) (s_points s) (s_sent s) (f (s_entry s))).
(** The durable state becomes [p], which a crash can leave. *)
Definition settle (p : point) : M unit :=
  modify (fun s => MkState p (s_points s ++ [p]) (s_sent s) (s_entry s)).
Definition sent (r : refresh) : M unit :=
  modify (fun s => MkState (s_now s) (s_points s) (s_sent s ++ [r]) (s_entry s)).

(** Go's [a || b] and [a && b] over conditions that read the clock. *)
Definition orM (a b : M bool) : M bool := x ← a; if (x : bool) then mret true else b.
Definition andM (a b : M bool) : M bool := x ← a; if (x : bool) then b else mret false.

Section Renew.
Variable env : outside.
Variable sha256 : gostr -> gostr.
(** The store is an [Annotator], and the renewer an [Expirer]. *)
Variable annotator : bool.
Variable expiry : option (gostr -> res nat time).
(** The cache's own name in a journal. *)
Variable own : journalOwner.
(** The secret, and whether the cache has a [Renewer] for it. *)
Variable name : gostr.
Variable renewable : bool.

Definition now : M time := tick (o_now env).

(** ** The store *)

Definition read_store (n : gostr) : M (res store_error gostr) :=
  f ← tick (o_read env);
  match f with
  | Some f => mret (Err (SFault f))
  | None => p ← durable; mret (match p_store p !! n with Some c => Ok (c_value c) | None => Err SNotFound end)
  end.

Definition store_write (f : store -> res store_error store) : M (option store_error) :=
  wf ← tick (o_write env);
  p ← durable;
  match wf, f (p_store p) with
  | Lost ft, _ => mret (Some (SFault ft))
  | _, Err e => mret (Some e)
  | Lands, Ok s => settle (MkPoint s (p_valid p) (p_old p) (p_lost p));; mret None
  | Landed ft, Ok s => settle (MkPoint s (p_valid p) (p_old p) (p_lost p));; mret (Some (SFault ft))
  end.

Definition put_cell (n : gostr) (c : cell) (update : bool) (s : store) : res store_error store :=
  match s !! n, update with
  | None, true => Err SNotFound
  | Some _, false => Err SExists
  | _, _ => Ok (<[n := c]> s)
  end.

(** [WriteWithProvenance]: a store with no room for provenance keeps none. *)
Definition WriteWithProvenance (n value : gostr) (p : Provenance) (update : bool) : M (option store_error) :=
  store_write (put_cell n (MkCell value (if annotator then p else no_provenance)) update).

Definition store_delete (n : gostr) : M (option store_error) :=
  store_write (fun s => match s !! n with None => Err SNotFound | Some _ => Ok (delete n s) end).

(** [provenanceOf]. *)
Definition provenanceOf (expires : time) : M (res store_error Provenance) :=
  if negb annotator then mret (Ok no_provenance)
  else
    f ← tick (o_list env);
    match f with
    | Some f => mret (Err (SFault f))
    | None =>
      p ← durable;
      mret (match p_store p !! name with
            | None => Err SNotFound
            | Some c =>
              Ok (if prov_IsZero (c_prov c) then c_prov c
                  else MkProvenance (pv_v (c_prov c)) (pv_from (c_prov c)) (if IsZero expires then 0 else UnixMilli expires))
            end)
    end.

Definition writeJournal (j : journal) (expires : time) (update : bool) : M (option store_error) :=
  p ← provenanceOf expires;
  match p with
  | Err e => mret (Some e)
  | Ok p =>
    err ← WriteWithProvenance (JournalName name) (marshal_journal j) p update;
    match err, update with
    | Some SNotFound, true => WriteWithProvenance (JournalName name) (marshal_journal j) p false
    | _, _ => mret err
    end
  end.

Definition writeBack (value : gostr) (expires : time) : M (option store_error) :=
  if negb annotator then store_write (put_cell name (MkCell value no_provenance) true)
  else
    p ← provenanceOf expires;
    match p with
    | Err e => mret (Some e)
    | Ok p => WriteWithProvenance name value p true
    end.

(** ** Conditions *)

Definition backingOff (failure : option renew_error) (at_ : time) : M bool :=
  match failure with
  | None => mret false
  | Some _ => t ← now; mret (Sub t at_ <? retryAfter)
  end.

Definition unsettledLocked : M bool :=
  e ← get;
  t ← now;
  mret (if negb (e_recovered e) then IsZero (e_recoverFailedAt e) || (retryAfter <=? Sub t (e_recoverFailedAt e))
        else negb (IsZero (e_blockedAt e)) && (retryAfter <=? Sub t (e_blockedAt e))).

Definition dueLocked : M bool :=
  e ← get;
  if negb (is_some (e_doc e)) || e_spent e then mret false
  else
    b ← backingOff (e_failure e) (e_failedAt e);
    if (b : bool) || pending e || negb (IsZero (e_blockedAt e)) then mret false
    else if e_suspect e then mret true
    else if IsZero (e_expires e) then mret false
    else t ← now; mret (renewAt e <? t).

Definition expiredLocked : M bool :=
  e ← get;
  if IsZero (e_expires e) then mret false else t ← now; mret (e_expires e <=? t).

Definition writeDue : M bool :=
  e ← get;
  if negb (pending e) then mret false
  else if IsZero (e_writeFailedAt e) then mret true
  else t ← now; mret (retryAfter <=? Sub t (e_writeFailedAt e)).

Definition stale : M bool :=
  e ← get;
  match e_doc e with None => mret true | Some _ => t ← now; mret (recheck <=? Sub t (e_checkedAt e)) end.

(** [ready]: the held document, when nothing has to happen first. *)
Definition ready : M (option gostr) :=
  t ← now;
  e ← get;
  match e_doc e with
  | None => mret None
  | Some d =>
    b ← orM (mret (recheck <=? Sub t (e_checkedAt e))) (orM unsettledLocked (orM writeDue (orM dueLocked expiredLocked)));
    mret (if (b : bool) then None else Some d)
  end.

(** ** Reading the store *)

(** The caller's context, which a call under [context.WithoutCancel] does not
    have. *)
Definition canceled (cancelable : bool) : M bool :=
  if cancelable then tick (o_ctx env) else mret false.

(** [c.read], through [StoreBroker]. *)
Definition read (cancelable : bool) : M (res renew_error gostr) :=
  c ← canceled cancelable;
  if (c : bool) then mret (Err ECtx)
  else v ← read_store name; mret (map_err EStore v).

(** [reconcileLocked]. *)
Definition reconcile (v : gostr) : M (option renew_error) :=
  t ← now;
  upd (set_checked t);;
  e ← get;
  if is_some (e_doc e) && (bytes_equal (Some v) (e_stored e) || bytes_equal (Some v) (e_doc e))
  then upd (set_stored (Some v));; mret None
  else
    match expiry with
    | None => upd (reset (Some v) 0 (e_checkedAt e));; mret None
    | Some x =>
      match x v with
      | Err n => upd (reset None 0 0);; mret (Some (EExpiry name n))
      | Ok expires => upd (reset (Some v) expires (e_checkedAt e));; mret None
      end
    end.

(** [syncRead]: whether the store was read, and an error. *)
Definition syncRead (cancelable : bool) : M (bool * option renew_error) :=
  r ← read cancelable;
  match r with
  | Ok v => err ← reconcile v; mret (true, err)
  | Err e =>
    if is_not_found e then upd (reset None 0 0);; mret (false, Some e)
    else
      c ← canceled cancelable;
      if (c : bool) then mret (false, Some e)
      else
        en ← get;
        match e_doc en with
        | None => mret (false, Some e)
        | Some _ => t ← now; upd (set_checked t);; mret (false, None)
        end
  end.

(** ** The journal *)

Inductive journal_read := JNoJournal | JBad | JFault (e : renew_error) | JGood (j : journal).

Definition readJournal : M journal_read :=
  r ← read_store (JournalName name);
  mret (match r with
        | Err (SFault FDamaged) => JBad
        | Err SNotFound => JNoJournal
        | Err e => JFault (EStore e)
        | Ok blob => match parse_journal blob with Some j => JGood j | None => JBad end
        end).

Definition journalOf (e : entry) : journal :=
  MkJournal journalVersion phaseRenewing (e_owner e) (UnixMilli (e_startedAt e)) (e_from e) [].

Definition dropJournal : M unit :=
  err ← store_delete (JournalName name);
  match err with
  | None | Some SNotFound => upd (fun e => set_adopted false (set_journal_step journalNone e))
  | Some _ => t ← now; upd (set_writeFailed t)
  end.

(** The last part of [recover]: what the journal [j] of a stopped process means
    for the secret, which holds [v]. *)
Definition settle_journal (j : option journal) (v : gostr) : M unit :=
  match j with
  | None => upd (fun e => set_suspect true (set_journal_step journalClear e))
  | Some j =>
    if bool_decide (j_phase j = phaseRenewed) && bool_decide (j_docHash j = docHash sha256 v) && negb (bool_decide (j_doc j = []))
    then
      match (match expiry with None => Ok 0 | Some x => x (j_doc j) end) with
      | Err _ => upd (fun e => set_suspect true (set_journal_step journalClear e))
      | Ok expires =>
        upd (fun e => set_failure None 0 false (set_journal_step journalRenewed
               (set_held (Some (j_doc j)) expires (time_UnixMilli (j_startedAt j)) e)))
      end
    else if bool_decide (j_phase j = phaseRenewing) && bool_decide (j_docHash j = docHash sha256 v)
    then upd (fun e => set_suspect true (set_journal_step journalClear e))
    else upd (set_journal_step journalClear)
  end.

(** The second part of [recover]: the journal was left by a process that
    stopped. *)
Definition recover_stopped (cancelable : bool) (t : time) (j : option journal) : M (option renew_error) :=
  r ← read cancelable;
  match r with
  | Err e =>
    if is_not_found e then
      upd (fun e => set_journal_step journalClear (set_recovered true 0 0 (reset None 0 0 e)));;
      dropJournal;; mret (Some e)
    else
      c ← canceled cancelable;
      if (c : bool) then mret (Some e)
      else
        upd (fun e => set_recovered (e_recovered e) t (e_blockedAt e) e);;
        en ← get; mret (if is_some (e_doc en) then None else Some e)
  | Ok v =>
    upd (fun e => set_adopted true (set_recovered true 0 0 e));;
    (match j with
     | Some j => upd (set_origin (time_UnixMilli (j_startedAt j)) (j_docHash j) (j_owner j))
     | None => mret tt
     end);;
    err ← reconcile v;
    match err with
    | Some e => mret (Some e)
    | None => settle_journal j v;; mret None
    end
  end.

Definition recover (cancelable : bool) : M (option renew_error) :=
  jr ← readJournal;
  t ← now;
  match jr with
  | JNoJournal => upd (set_recovered true 0 0);; mret None
  | JFault err =>
    c ← canceled cancelable;
    if (c : bool) then mret (Some err)
    else upd (fun e => set_recovered (e_recovered e) t (e_blockedAt e) e);; mret None
  | JBad =>
    c ← canceled cancelable;
    if (c : bool) then mret (Some EBadJournal) else recover_stopped cancelable t None
  | JGood j =>
    if bool_decide (j_owner j = own) then
      upd (set_recovered true 0 0);;
      upd (fun e => if bool_decide (e_journal e = journalNone) then set_journal_step journalClear e else e);;
      mret None
    else if negb (young t j) then recover_stopped cancelable t (Some j)
    else
      alive ← tick (fun n => o_alive env n (j_owner j));
      if (alive : bool) then upd (set_recovered true 0 t);; mret None
      else recover_stopped cancelable t (Some j)
  end.

(** ** Writing back *)

Definition flush_write (step : journalStep) (e : entry) : M (option store_error) :=
  match step with
  | journalStarted => writeJournal (set_phase phaseRenewed (default [] (e_doc e)) (journalOf e)) (e_expires e) true
  | journalClear =>
    err ← store_delete (JournalName name);
    mret (match err with Some SNotFound => None | _ => err end)
  | _ => writeBack (default [] (e_doc e)) (e_expires e)
  end.

Definition flush_done (step : journalStep) (doc : option gostr) (e : entry) : entry :=
  match step with
  | journalStarted => set_journal_step journalRenewed e
  | journalClear => set_adopted false (set_journal_step journalNone e)
  | _ =>
    let e := set_stored doc e in
    if bool_decide (e_journal e = journalRenewed) then set_journal_step journalClear e else e
  end.

(** The loop of [flush]: each turn is one write, which moves the journal on. *)
Fixpoint flush_loop (fuel : nat) : M unit :=
  match fuel with
  | O => mret tt
  | S k =>
    b ← writeDue;
    if negb (b : bool) then mret tt
    else
      upd (fun e => if negb (bool_decide (e_journal e = journalNone)) && bytes_equal (e_doc e) (e_stored e)
                    then set_journal_step journalClear e else e);;
      e ← get;
      err ← flush_write (e_journal e) e;
      match err with
      | Some _ => t ← now; upd (set_writeFailed t)
      | None =>
        upd (fun e' => flush_done (e_journal e) (e_doc e) (set_writeFailed 0 e'));;
        flush_loop k
      end
  end.

(** A write of the journal, one of the secret, one that clears the journal, and
    the turn that finds nothing left. *)
Definition flush_fuel : nat := 4.

Definition flush : M (option renew_error) :=
  b ← writeDue;
  if negb (b : bool) then mret None
  else
    r ← syncRead false;
    match r with
    | (_, Some err) =>
      (if is_not_found err then dropJournal else mret tt);; mret (Some err)
    | (false, None) => t ← now; upd (set_writeFailed t);; mret None
    | (true, None) => flush_loop flush_fuel;; mret None
    end.

(** ** The provider *)

(** A document that a provider which rotates single-use can answer with: not
    empty, readable for its expiry, and none it has taken before. *)
Definition usable (next : gostr) (old : list gostr) : bool :=
  negb (bool_decide (next = [])) && negb (bool_decide (next ∈ old)) &&
  match expiry with None => true | Some x => is_ok (x next) end.

Definition provider (cur : gostr) : M (res renew_error gostr) :=
  p ← durable;
  sent (MkRefresh cur (p_valid p) (p_lost p));;
  a ← tick (fun n => o_renew env n cur);
  match a with
  | Unreached n => mret (Err (EProvider n false))
  | Spent n rotated =>
    (match rotated with
     | Some d => if bool_decide (cur = p_valid p) then settle (MkPoint (p_store p) d (cur :: p_old p) true) else mret tt
     | None => mret tt
     end);;
    mret (Err (EProvider n true))
  | Renewed next =>
    if bool_decide (cur = p_valid p) then
      settle (MkPoint (p_store p) next (cur :: p_old p) (p_lost p || negb (usable next (cur :: p_old p))));;
      mret (Ok next)
    else mret (Err (EProvider 0 true))
  end.

(** What [renew] does with the provider's answer. *)
Definition renew_answer (answer : res renew_error gostr) : M (option renew_error) :=
  let answer := match answer with Ok [] => Err EEmptyDoc | a => a end in
  match answer with
  | Err err =>
    t ← now;
    upd (fun e =>
      let e := set_failure (Some err) t (is_spent err) e in
      set_journal_step journalClear (if is_spent err then set_suspect false e else e));;
    flush;;
    mret (Some err)
  | Ok next =>
    t ← now;
    upd (fun e => set_suspect false (set_writeFailed 0 (set_failure None 0 false
           (set_held (Some next) (match expiry with None => 0 | Some x => match x next with Ok t => t | Err _ => 0 end end) t e))));;
    flush
  end.

Definition renew (cancelable : bool) : M (option renew_error) :=
  e ← get;
  started ← now;
  if pending e then mret (Some EPendingWrite)
  else
    let current := default [] (e_doc e) in
    let j := MkJournal journalVersion phaseRenewing own (UnixMilli started) (docHash sha256 current) [] in
    err ← writeJournal j (e_expires e) false;
    match err with
    | Some SExists =>
      upd (fun e => set_recovered false 0 (e_blockedAt e) e);;
      err ← recover cancelable;
      match err with
      | Some err => mret (Some err)
      | None => t ← now; upd (set_failure (Some EJournalThere) t false);; mret (Some EJournalThere)
      end
    | Some err => t ← now; upd (set_failure (Some (EJournalUnwritten err)) t false);; mret (Some (EJournalUnwritten err))
    | None =>
      upd (fun e => set_origin started (j_docHash j) own (set_journal_step journalStarted e));;
      answer ← provider current;
      renew_answer answer
    end.

(** ** The operations *)

Definition serve : M (res renew_error gostr) :=
  e ← get;
  match e_doc e with
  | None => mret (Err (EGone name))
  | Some d =>
    x ← expiredLocked;
    mret (if negb (x : bool) then Ok d
          else match e_failure e with
               | Some f => Err (EExpiredFailing name f)
               | None => Err (if negb (IsZero (e_blockedAt e)) then EExpiredBlocked name else EExpired name)
               end)
  end.

Definition holdRenewal : M unit := t ← now; upd (set_failure (Some EUnread) t false).

(** [m], and [k] of what it found when it found no error. *)
Definition try {A} (m : M (option renew_error)) (k : M (res renew_error A)) : M (res renew_error A) :=
  err ← m; match err with Some e => mret (Err e) | None => k end.

Definition sync_if (cond : M bool) (read : bool) (k : bool -> M (res renew_error gostr)) : M (res renew_error gostr) :=
  b ← cond;
  if (b : bool) then
    r ← syncRead true;
    match r with (_, Some e) => mret (Err e) | (rd, None) => k rd end
  else k read.

Definition recover_if_unsettled : M (option renew_error) :=
  b ← unsettledLocked; if (b : bool) then recover true else mret None.

(** [Resolve] from the second look at what is due, [read] telling whether the
    store was read in this call. *)
Definition resolve_due (read : bool) : M (res renew_error gostr) :=
  d ← dueLocked;
  if negb (d : bool) then serve
  else
    sync_if (mret (negb read)) read (fun read =>
      if negb read then holdRenewal;; serve
      else
        d ← dueLocked;
        if negb (d : bool) then serve
        else
          err ← renew true;
          en ← get;
          match err with
          | Some err => if is_some (e_doc en) then serve else mret (Err err)
          | None => serve
          end).

Definition Resolve : M (res renew_error gostr) :=
  if negb renewable then read true
  else
    r ← ready;
    match r with
    | Some doc => mret (Ok doc)
    | None =>
      turn ← tick (o_turn env);
      if negb (turn : bool) then mret (Err ECtx)
      else
        try recover_if_unsettled
          (sync_if stale false (fun read => try flush (resolve_due read)))
    end.

Definition force_ready (read : bool) (stale_doc : gostr) : M (res renew_error gostr) :=
  upd (fun e => if read && is_unread (e_failure e) then set_failure None 0 (e_spent e) e else e);;
  e ← get;
  backoff ← backingOff (e_failure e) (e_failedAt e);
  if negb (bytes_equal (e_doc e) (Some stale_doc)) then mret (Ok (default [] (e_doc e)))
  else if negb read then mret (Err (ENotRenewed name EUnread))
  else if e_spent e then mret (Err (ESpentAgain name (e_failure e)))
  else if pending e then mret (Err (EStillPending name))
  else if negb (IsZero (e_blockedAt e)) then mret (Err (EOtherProcess name))
  else
    match (backoff : bool), e_failure e with
    | true, Some f => mret (Err (ENotRenewed name f))
    | _, _ =>
      err ← renew true;
      match err with
      | Some err => mret (Err (ENotRenewed name err))
      | None => e ← get; mret (Ok (default [] (e_doc e)))
      end
    end.

Definition ForceRenew (stale_doc : gostr) : M (res renew_error gostr) :=
  if negb renewable then mret (Err (ENoLifecycle name))
  else
    turn ← tick (o_turn env);
    if negb (turn : bool) then mret (Err ECtx)
    else
      try recover_if_unsettled
        (r ← syncRead true;
         match r with
         | (_, Some e) => mret (Err e)
         | (read, None) => try flush (force_ready read stale_doc)
         end).

Definition Recover : M (option renew_error) :=
  if negb renewable then mret None
  else
    turn ← tick (o_turn env);
    if negb (turn : bool) then mret (Some ECtx)
    else
      b ← unsettledLocked;
      if negb (b : bool) then mret None
      else
        err ← recover true;
        match err with Some e => mret (Some e) | None => flush end.

(** What the reports of a cache say of an entry. *)
Definition Failing (e : entry) : bool := is_some (e_failure e).
Definition Recovering (e : entry) : bool :=
  negb (IsZero (e_blockedAt e)) || e_suspect e || e_adopted e || negb (IsZero (e_recoverFailedAt e)).
End Renew.

(** [Cache.names]: the names of the entries that match, sorted. *)
Definition names (match_ : entry -> bool) (entries : list (gostr * entry)) : list gostr :=
  sort_strings ((filter (fun x => match_ x.2 = true) entries).*1).

(** ** An example *)

Definition example_owner : journalOwner := MkOwner 42 (lit "12:00") (lit "0a1b").
Definition example_env : outside :=
  MkOutside (fun n => epoch + 1000 * minute + Z.of_nat (n mod 1000)) (fun _ => false) (fun _ => true) (fun _ => None) (fun _ => None)
    (fun _ => Lands) (fun _ cur => Renewed (cur ++ lit "'")) (fun _ _ => false).
(** Documents that expire 1005 minutes after 1970, and renewed ones an hour
    later. *)
Definition example_expiry (doc : gostr) : res nat time :=
  Ok (epoch + (if bool_decide (doc = lit "pair") then 1005 else 1065) * minute).
Definition example_point : point :=
  MkPoint {[ lit "claude" := MkCell (lit "pair") (MkProvenance 1 (lit "env:X") 5) ]} (lit "pair") [] false.
Definition example_state : state := MkState example_point [] [] new_entry.

Definition example_run : res renew_error gostr * world :=
  Resolve example_env id true (Some example_expiry) example_owner (lit "claude") true (MkWorld 0 example_state).

Example resolve_renews :
  let p := s_now (w_st example_run.2) in
  (example_run.1, map_to_list (p_store p), p_valid p, rf_doc <$> s_sent (w_st example_run.2), length (s_points (w_st example_run.2)))
  = (Ok (lit "pair'"), [(lit "claude", MkCell (lit "pair'") (MkProvenance 1 (lit "env:X") (1065 * 60000)))], lit "pair'",
     [lit "pair"], 5%nat).
Proof. vm_compute. reflexivity. Qed.

(** ** The loop of [flush] ends *)

Section FlushEnds.
Variable env : outside.
Variable annotator : bool.
Variable expiry : option (gostr -> res nat time).
Variable name : gostr.

(** A computation that leaves the entry as it is. *)
Definition entry_kept {A} (m : M A) : Prop := forall w, s_entry (w_st (m w).2) = s_entry (w_st w).

Lemma kept_ret {A} (a : A) : entry_kept (mret a).
Proof. done. Qed.
Lemma kept_tick {A} (f : nat -> A) : entry_kept (tick f).
Proof. done. Qed.
Lemma kept_durable : entry_kept durable.
Proof. done. Qed.
Lemma kept_get : entry_kept get.
Proof. done. Qed.
Lemma kept_settle p : entry_kept (settle p).
Proof. done. Qed.
Lemma kept_bind {A B} (m : M A) (k : A -> M B) : entry_kept m -> (forall a, entry_kept (k a)) -> entry_kept (m ≫= k).
Proof.
  intros Hm Hk w. specialize (Hm w). unfold mbind, M_bind. destruct (m w) as [a w'] eqn:E. cbn in Hm. by rewrite Hk.
Qed.

Ltac kept :=
  repeat match goal with
  | |- entry_kept (_ ≫= _) => apply kept_bind; [|intros ?]
  | |- entry_kept (if ?b then _ else _) => destruct b
  | |- entry_kept (match ?x with _ => _ end) => destruct x
  | |- entry_kept (mret _) => apply kept_ret
  | |- entry_kept (tick _) => apply kept_tick
  | |- entry_kept durable => apply kept_durable
  | |- entry_kept get => apply kept_get
  | |- entry_kept (settle _) => apply kept_settle
  end.

Lemma kept_store_write f : entry_kept (store_write env f).
Proof. unfold store_write. kept. Qed.

Lemma kept_writeDue : entry_kept (writeDue env).
Proof. unfold writeDue, now. kept. Qed.

Lemma kept_flush_write step e : entry_kept (flush_write env annotator name step e).
Proof.
  unfold flush_write, writeJournal, writeBack, provenanceOf, WriteWithProvenance, store_delete. kept; apply kept_store_write.
Qed.

Lemma writeDue_pending w w' : writeDue env w = (true, w') -> pending (s_entry (w_st w')) = true.
Proof.
  unfold writeDue, get, mbind, M_bind. cbn. destruct (pending _) eqn:E; cbn; [|done].
  destruct (IsZero _); cbn; intros H; injection H as; subst; by cbn.
Qed.

(** How many writes an entry is from settled. *)
Definition writes_left (e : entry) : nat :=
  match e_journal e with
  | journalStarted => 3
  | journalRenewed => 2
  | journalClear => if bytes_equal (e_doc e) (e_stored e) then 1 else 2
  | journalNone => if pending e then 1 else 0
  end.

Definition flush_turn (e : entry) : entry :=
  if negb (bool_decide (e_journal e = journalNone)) && bytes_equal (e_doc e) (e_stored e) then set_journal_step journalClear e else e.

Lemma flush_turn_less (e : entry) : pending e = true ->
  (writes_left (flush_done (e_journal (flush_turn e)) (e_doc (flush_turn e)) (set_writeFailed 0%Z (flush_turn e))) < writes_left e)%nat.
Proof.
  intros Hp.
  assert (Hs : bytes_equal (e_doc e) (e_doc e) = true) by by apply bool_decide_eq_true.
  unfold flush_turn, writes_left, pending in *. destruct e as [doc st a b c f g h i j k l m n o p q r]. cbn in *.
  destruct (bytes_equal doc st) eqn:Eb; destruct j; cbn in *;
    repeat (first [rewrite bool_decide_true in * by done|rewrite bool_decide_false in * by done
                  |rewrite Eb in *|rewrite Hs in *|rewrite andb_false_r in *]; cbn in *); try lia; destruct (is_some doc); cbn in *; lia.
Qed.

(** C40: [flush] loops until no write is due.  Its loop ends: [flush_fuel] turns
    are as good as any larger number, from every entry and whatever the store
    answers. *)
Theorem flush_loop_ends (k : nat) (w : world) :
  flush_loop env annotator name (flush_fuel + k) w = flush_loop env annotator name flush_fuel w.
Proof.
  assert (G : forall n w, (writes_left (s_entry (w_st w)) <= n)%nat ->
            flush_loop env annotator name (n + k) w = flush_loop env annotator name n w).
  2: { apply G. unfold flush_fuel, writes_left. destruct (e_journal _); repeat case_match; lia. }
  clear w. induction n as [|n IH]; intros w Hle.
  { assert (Hp : pending (s_entry (w_st w)) = false).
    { destruct (pending _) eqn:Ep; [|done]. pose proof (flush_turn_less _ Ep). lia. }
    destruct k; [done|]. cbn. unfold writeDue, get, mbind, M_bind. cbn. by rewrite Hp. }
  cbn [Nat.add flush_loop]. unfold mbind, M_bind.
  destruct (writeDue env w) as [b w1] eqn:E1. pose proof (kept_writeDue w) as K1. rewrite E1 in K1. cbn in K1.
  destruct b; [|done]. cbn [negb].
  assert (Hp : pending (s_entry (w_st w1)) = true) by (by eapply writeDue_pending).
  cbn. fold (flush_turn (s_entry (w_st w1))).
  match goal with |- context [flush_write _ _ _ ?st ?e ?w] => pose proof (kept_flush_write st e w) as K2; destruct (flush_write env annotator name st e w) as [err w2] end.
  cbn in K2. destruct err as [err|]; [done|]. cbn. apply IH. cbn. rewrite K2.
  pose proof (flush_turn_less _ Hp). rewrite K1 in *. lia.
Qed.
End FlushEnds.
