(* ===== verification/RenewSafe.v ===== *)
(** * [internal/renew]: no renewed credential is lost

    The invariant of [Renew] over any faults of the store and any crash: the
    document that the provider takes is the secret, or it is in the journal
    next to the document it replaced, or a journal says that a refresh of the
    secret is under way and the new document is in memory.  Every refresh is
    sent with the document that the provider takes. *)

From stdpp Require Import prelude list strings gmap sorting.
From Stdlib Require Import ZArith Lia ZifyNat Ascii.
From S2P Require Import Prelude GoUnicode GoStrings GoNum GoJson Base64 Secret Journal Renew.

Local Open Scope Z_scope.

(** ** Weakest preconditions

    [wp m Q s]: from state [s] and however many calls were made before, [m]
    ends with an answer and a state of which [Q] holds. *)

Definition wp {A} (m : M A) (Q : A -> state -> Prop) (s : state) : Prop :=
  forall n, Q (m (MkWorld n s)).1 (w_st (m (MkWorld n s)).2).

Lemma wp_ret {A} (a : A) Q s : Q a s -> wp (mret a) Q s.
Proof. intros H n. exact H. Qed.

Lemma wp_bind {A B} (m : M A) (k : A -> M B) Q s : wp m (fun a => wp (k a) Q) s -> wp (m ≫= k) Q s.
Proof.
  intros H n. specialize (H n). unfold mbind, M_bind. destruct (m (MkWorld n s)) as [a [n' s']]. exact (H n').
Qed.

Lemma wp_mono {A} (m : M A) (Q R : A -> state -> Prop) s : wp m Q s -> (forall a s', Q a s' -> R a s') -> wp m R s.
Proof. intros H HR n. apply HR, H. Qed.

Lemma wp_tick {A} (f : nat -> A) (Q : A -> state -> Prop) s : (forall n, Q (f n) s) -> wp (tick f) Q s.
Proof. intros H n. apply H. Qed.

Lemma wp_get (Q : entry -> state -> Prop) s : Q (s_entry s) s -> wp get Q s.
Proof. intros H n. exact H. Qed.

Lemma wp_durable (Q : point -> state -> Prop) s : Q (s_now s) s -> wp durable Q s.
Proof. intros H n. exact H. Qed.

Lemma wp_upd f (Q : unit -> state -> Prop) s :
  Q tt (MkState (s_now s) (s_points s) (s_sent s) (f (s_entry s))) -> wp (upd f) Q s.
Proof. intros H n. exact H. Qed.

Lemma wp_settle p (Q : unit -> state -> Prop) s :
  Q tt (MkState p (s_points s ++ [p]) (s_sent s) (s_entry s)) -> wp (settle p) Q s.
Proof. intros H n. exact H. Qed.

Lemma wp_sent r (Q : unit -> state -> Prop) s :
  Q tt (MkState (s_now s) (s_points s) (s_sent s ++ [r]) (s_entry s)) -> wp (sent r) Q s.
Proof. intros H n. exact H. Qed.

(** A computation that asks and changes nothing. *)
Definition quiet {A} (m : M A) : Prop := forall w, w_st (m w).2 = w_st w.

Lemma quiet_ret {A} (a : A) : quiet (mret a).
Proof. done. Qed.
Lemma quiet_tick {A} (f : nat -> A) : quiet (tick f).
Proof. done. Qed.
Lemma quiet_get : quiet get.
Proof. done. Qed.
Lemma quiet_durable : quiet durable.
Proof. done. Qed.
Lemma quiet_bind {A B} (m : M A) (k : A -> M B) : quiet m -> (forall a, quiet (k a)) -> quiet (m ≫= k).
Proof.
  intros Hm Hk w. specialize (Hm w). unfold mbind, M_bind. destruct (m w) as [a w'] eqn:E. cbn in Hm. by rewrite Hk.
Qed.

Lemma wp_quiet {A} (m : M A) (Q : A -> state -> Prop) s : quiet m -> (forall a, Q a s) -> wp m Q s.
Proof. intros Hm H n. rewrite Hm. apply H. Qed.

Create HintDb quiet discriminated.
#[export] Hint Resolve quiet_ret quiet_tick quiet_get quiet_durable quiet_bind : quiet.

Ltac quiet :=
  repeat match goal with
  | |- quiet (_ ≫= _) => apply quiet_bind; [|intros ?]
  | |- quiet (if ?b then _ else _) => destruct b
  | |- quiet (match ?x with _ => _ end) => destruct x
  | |- quiet _ => solve [auto with quiet]
  end.

(** One step of a symbolic run. *)
Ltac wp_step :=
  lazymatch goal with
  | |- wp (mret _) _ _ => apply wp_ret
  | |- wp (_ ≫= _) _ _ => apply wp_bind
  | |- wp (tick _) _ _ => apply wp_tick; intros ?
  | |- wp (now _) _ _ => apply wp_tick; intros ?
  | |- wp get _ _ => apply wp_get
  | |- wp durable _ _ => apply wp_durable
  | |- wp (upd _) _ _ => apply wp_upd
  | |- wp (settle _) _ _ => apply wp_settle
  | |- wp (sent _) _ _ => apply wp_sent
  end.
Ltac wp_steps := repeat (wp_step; cbv beta; cbn [s_now s_points s_sent s_entry]).
(** Passes over a condition. *)
Ltac wp_ask := apply wp_bind, wp_quiet; [quiet|intros ?].

(** ** What is in the store *)

Section Safe.
Variable sha256 : gostr -> gostr.
Variable annotator : bool.
Variable expiry : option (gostr -> res nat time).
Variable name : gostr.
Variable renewable : bool.
(** Two documents have two hashes. *)
Context {Hsha : Inj (=) (=) sha256}.

Notation hash := (docHash sha256).

Definition secret_of (p : point) : option gostr := c_value <$> p_store p !! name.
Definition journal_of (p : point) : option journal :=
  match p_store p !! JournalName name with Some c => parse_journal (c_value c) | None => None end.
Definition readable (doc : gostr) : bool :=
  negb (bool_decide (doc = [])) && match expiry with None => true | Some x => is_ok (x doc) end.

(** The secret is the document that the provider takes. *)
Definition current (p : point) : Prop := secret_of p = Some (p_valid p).

(** The journal holds it, next to the secret it replaced. *)
Definition journaled (p : point) (s : gostr) (j : journal) : Prop :=
  secret_of p = Some s /\ s ∈ p_old p /\ journal_of p = Some j /\ j_phase j = phaseRenewed /\ j_docHash j = hash s /\
  j_doc j = p_valid p /\ readable (p_valid p) = true.

(** A refresh of the secret was answered, and the journal does not hold the
    answer yet. *)
Definition window (p : point) (s : gostr) (j : journal) : Prop :=
  secret_of p = Some s /\ s ∈ p_old p /\ journal_of p = Some j /\ j_phase j = phaseRenewing /\ j_docHash j = hash s /\
  readable (p_valid p) = true.

(** Where the document that the provider takes is. *)
Definition somewhere (p : point) : Prop :=
  p_lost p = true \/ current p \/ (exists s j, journaled p s j) \/ (exists s j, window p s j).

(** What a crash may leave. *)
Definition crash_ok (p : point) : Prop :=
  somewhere p /\ (p_lost p = false -> p_valid p ∉ p_old p) /\
  (forall j, journal_of p = Some j -> j_phase j = phaseRenewed -> exists f, f ∈ p_old p /\ j_docHash j = hash f).

Definition sent_ok (r : refresh) : Prop := rf_lost r = false -> rf_doc r = rf_valid r.

(** ** The invariant of one process *)

Section Process.
Variable own : journalOwner.
Hypothesis own_ok : int64 (ow_pid own) /\ all_ascii (ow_start own) = true /\ all_ascii (ow_nonce own) = true.

(** What holds in memory and store, the document lost or not: a document that
    memory has replaced is one the provider took before, and so is the one a
    renewed journal started from. *)
Record general (p : point) (e : entry) : Prop := {
  g_both : is_some (e_doc e) = is_some (e_stored e);
  g_valid : p_lost p = false -> p_valid p ∉ p_old p;
  g_journal : forall j, journal_of p = Some j -> j_phase j = phaseRenewed -> exists f, f ∈ p_old p /\ j_docHash j = hash f;
  g_stored : forall d s, e_doc e = Some d -> e_stored e = Some s -> d <> s -> s ∈ p_old p;
  g_started : e_journal e = journalStarted -> e_doc e <> e_stored e ->
    (exists f, f ∈ p_old p /\ e_from e = hash f) /\ e_owner e = own /\ int64 (UnixMilli (e_startedAt e));
  g_owner : e_journal e = journalStarted -> forall j, journal_of p = Some j -> j_owner j = own }.

(** How memory and store stand while the document is not lost. *)
Definition standing (p : point) (e : entry) : Prop :=
  current p \/
  (exists s j, journaled p s j /\
    ((e_journal e = journalNone /\ j_owner j <> own /\ e_doc e = e_stored e) \/
     ((e_journal e = journalStarted \/ e_journal e = journalRenewed) /\
      e_doc e = Some (p_valid p) /\ e_stored e = Some s /\ e_from e = hash s))) \/
  (exists s j, window p s j /\ j_owner j = own /\ e_journal e = journalStarted /\
    e_doc e = Some (p_valid p) /\ e_stored e = Some s /\ e_from e = hash s).

Definition inside (p : point) (e : entry) : Prop := general p e /\ (p_lost p = false -> standing p e).

Definition Inv (s : state) : Prop :=
  inside (s_now s) (s_entry s) /\ Forall crash_ok (s_points s) /\ Forall sent_ok (s_sent s).

Lemma inside_crash p e : inside p e -> crash_ok p.
Proof.
  intros [G H]. split; [|split; [apply (g_valid _ _ G)|apply (g_journal _ _ G)]].
  unfold somewhere. destruct (p_lost p); [by left|]. right.
  destruct (H eq_refl) as [Ha|[(s & j & Hj & _)|(s & j & Hw & _)]]; [by left|right; left; eauto|right; right; eauto].
Qed.

(** The fields of an entry that the invariant looks at. *)
Definition core (e : entry) := (e_doc e, e_stored e, e_journal e, e_startedAt e, e_from e, e_owner e).

Lemma inside_core p e e' : core e' = core e -> inside p e -> inside p e'.
Proof.
  unfold core. intros E. injection E as E1 E2 E3 E4 E5 E6. intros [[G1 G2 G3 G4 G5 G6] H]. split.
  - split; rewrite ?E1, ?E2, ?E3, ?E4, ?E5, ?E6; assumption.
  - unfold standing. rewrite ?E1, ?E2, ?E3, ?E4, ?E5, ?E6. exact H.
Qed.

Lemma Inv_core s e' : core e' = core (s_entry s) -> Inv s -> Inv (MkState (s_now s) (s_points s) (s_sent s) e').
Proof. intros E (H & Hp & Hs). split; [by apply (inside_core _ (s_entry s))|done]. Qed.

Lemma Inv_entry s e' : (inside (s_now s) (s_entry s) -> inside (s_now s) e') -> Inv s ->
  Inv (MkState (s_now s) (s_points s) (s_sent s) e').
Proof. intros He (H & Hp & Hs). split; [by apply He|done]. Qed.

Lemma Inv_change p ps ss e e' : (inside p e -> inside p e') -> Inv (MkState p ps ss e) -> Inv (MkState p ps ss e').
Proof. intros He (H & Hp & Hs). split; [by apply He|done]. Qed.

Lemma Inv_settle s p : inside p (s_entry s) -> Inv s -> Inv (MkState p (s_points s ++ [p]) (s_sent s) (s_entry s)).
Proof.
  intros He (H & Hp & Hs). split; [done|]. split; [|done]. apply Forall_app. split; [done|].
  apply Forall_singleton. by eapply inside_crash.
Qed.
(** ** Calls on the outside *)

Variable env : outside.
(** No read finds half a journal, and the clock is in the range of an
    [int64] of milliseconds. *)
Hypothesis no_damage : forall n, o_read env n <> Some FDamaged.
Hypothesis clock_ok : forall n, int64 (UnixMilli (o_now env n)).

Notation reconcile := (reconcile env expiry name).
Notation syncRead := (syncRead env expiry name).
Notation store_write := (store_write env).
Notation store_delete := (store_delete env).
Notation dropJournal := (dropJournal env name).
Notation writeJournal := (writeJournal env annotator name).
Notation flush_loop := (flush_loop env annotator name).
Notation flush := (flush env annotator expiry name).

Lemma quiet_now : quiet (now env).
Proof. unfold now. quiet. Qed.
Lemma quiet_read_store n : quiet (read_store env n).
Proof. unfold read_store. quiet. Qed.
Lemma quiet_canceled c : quiet (canceled env c).
Proof. unfold canceled. quiet. Qed.
Hint Resolve quiet_now quiet_read_store quiet_canceled : quiet.
Lemma quiet_read c : quiet (read env name c).
Proof. unfold read. quiet. Qed.
Lemma quiet_provenanceOf an t : quiet (provenanceOf env an name t).
Proof. unfold provenanceOf. quiet. Qed.
Lemma quiet_backingOff f t : quiet (backingOff env f t).
Proof. unfold backingOff. quiet. Qed.
Hint Resolve quiet_read quiet_provenanceOf quiet_backingOff : quiet.
Lemma quiet_unsettled : quiet (unsettledLocked env).
Proof. unfold unsettledLocked. quiet. Qed.
Lemma quiet_due : quiet (dueLocked env).
Proof. unfold dueLocked. quiet. Qed.
Lemma quiet_expired : quiet (expiredLocked env).
Proof. unfold expiredLocked. quiet. Qed.
Lemma quiet_writeDue : quiet (writeDue env).
Proof. unfold writeDue. quiet. Qed.
Lemma quiet_stale : quiet (stale env).
Proof. unfold stale. quiet. Qed.
Hint Resolve quiet_unsettled quiet_due quiet_expired quiet_writeDue quiet_stale : quiet.
Lemma quiet_orM a b : quiet a -> quiet b -> quiet (orM a b).
Proof. intros Ha Hb. unfold orM. apply quiet_bind; [done|]. intros x. destruct x; [apply quiet_ret|done]. Qed.
Hint Resolve quiet_orM : quiet.
Lemma quiet_ready : quiet (ready env).
Proof. unfold ready. quiet. Qed.

(** What a read of the store can answer. *)
Lemma wp_read_store n (Q : res store_error gostr -> state -> Prop) s :
  (forall c, p_store (s_now s) !! n = Some c -> Q (Ok (c_value c)) s) ->
  (p_store (s_now s) !! n = None -> Q (Err SNotFound) s) ->
  (forall k, Q (Err (SFault (FOther k))) s) ->
  wp (read_store env n) Q s.
Proof.
  intros Hc Hn Hf. unfold read_store. wp_step. wp_step.
  destruct (o_read env n0) as [[|k]|] eqn:E; [by destruct (no_damage n0)|wp_step; apply Hf|].
  wp_step. wp_step. wp_step. destruct (p_store (s_now s) !! n) as [c|]; auto.
Qed.

Lemma wp_read c (Q : res renew_error gostr -> state -> Prop) s :
  (forall v, secret_of (s_now s) = Some v -> Q (Ok v) s) ->
  (secret_of (s_now s) = None -> Q (Err (EStore SNotFound)) s) ->
  (forall e, is_not_found e = false -> Q (Err e) s) ->
  wp (read env name c) Q s.
Proof.
  intros Hc Hn Hf. unfold read. wp_ask. destruct a; [wp_step; by apply Hf|]. wp_step. apply wp_read_store.
  - intros x Hx. wp_step. apply Hc. unfold secret_of. by rewrite Hx.
  - intros Hx. wp_step. apply Hn. unfold secret_of. by rewrite Hx.
  - intros k. wp_step. by apply Hf.
Qed.

Lemma wp_store_write f (Q : option store_error -> state -> Prop) s :
  (forall e, (forall st, f (p_store (s_now s)) = Ok st -> exists ft, e = SFault ft) -> Q (Some e) s) ->
  (forall st p, f (p_store (s_now s)) = Ok st ->
    p = MkPoint st (p_valid (s_now s)) (p_old (s_now s)) (p_lost (s_now s)) ->
    forall err, (forall e, err = Some e -> exists ft, e = SFault ft) ->
    Q err (MkState p (s_points s ++ [p]) (s_sent s) (s_entry s))) ->
  wp (store_write f) Q s.
Proof.
  intros He Ho. unfold Renew.store_write. wp_steps. destruct (f (p_store (s_now s))) as [st|e] eqn:E.
  - destruct (o_write env n); wp_steps.
    + by eapply Ho.
    + eapply Ho; [done..|]. intros e [= <-]. eauto.
    + apply He. eauto.
  - destruct (o_write env n); wp_steps; apply He; done || eauto.
Qed.
(** ** Reading the secret *)

Lemma bytes_equal_true a b : is_some a = is_some b -> bytes_equal a b = true <-> a = b.
Proof. unfold bytes_equal. rewrite bool_decide_eq_true. destruct a, b; cbn; split; congruence. Qed.

Lemma pending_false p e : general p e -> pending e = false <-> e_journal e = journalNone /\ e_doc e = e_stored e.
Proof.
  intros G. unfold pending. rewrite orb_false_iff, negb_false_iff, bool_decide_eq_true.
  pose proof (g_both _ _ G) as Hb. pose proof (bytes_equal_true _ _ Hb) as He.
  destruct (e_doc e) as [d|] eqn:Ed, (e_stored e) as [t|] eqn:Es; try done; cbn [is_some andb].
  - by rewrite negb_false_iff, He.
  - naive_solver.
Qed.

(** While the document is not lost, what memory has of the secret is either
    the document that the provider takes, or the one it replaced. *)
Lemma inside_stored p e v :
  inside p e -> p_lost p = false -> e_stored e = Some v -> v = p_valid p -> e_doc e = Some v.
Proof.
  intros [[Gb Gv _ Gs _ _] _] Hl Hs ->. rewrite Hs in Gb. destruct (e_doc e) as [d|] eqn:Ed; [|done].
  destruct (decide (d = p_valid p)) as [->|Hne]; [done|]. destruct (Gv Hl). by apply (Gs d).
Qed.

Lemma standing_secret p e : inside p e -> p_lost p = false -> is_Some (secret_of p).
Proof. intros [_ H] Hl. destruct (H Hl) as [Ha|[(s & j & Hj & _)|(s & j & Hw & _)]]; [by rewrite Ha|by destruct Hj as [-> _]|by destruct Hw as [-> _]]. Qed.

(** Taking in what the store holds. *)
Lemma inside_stored_set p e v :
  inside p e -> secret_of p = Some v -> is_some (e_doc e) = true -> e_stored e = Some v \/ e_doc e = Some v ->
  inside p (set_stored (Some v) e).
Proof.
  intros [[Gb Gv Gj Gs Gt Go] H] Hv Hd Hor. split.
  - split; cbn [set_stored e_doc e_stored e_journal e_startedAt e_from e_owner]; try done.
    + intros d s Hd' [= <-] Hne. destruct Hor as [Hs|Hs]; [by apply (Gs d)|congruence].
    + intros Hj Hne. destruct Hor as [Hs|Hs]; [|congruence]. apply Gt; congruence.
  - intros Hl. destruct (H Hl) as [Ha|[(s & j & Hj & [(Hn & Ho & He)|(Hst & Hdo & Hso & Hf)])|(s & j & Hw & Ho & Hst & Hdo & Hso & Hf)]].
    + by left.
    + right; left. exists s, j. split; [done|]. left. cbn. split; [done|]. split; [done|]. rewrite <- He in Hor. by destruct Hor.
    + right; left. exists s, j. split; [done|]. right. cbn. destruct Hj as (Hse & _). rewrite Hse in Hv. injection Hv as <-. done.
    + right; right. exists s, j. split; [done|]. cbn. destruct Hw as (Hse & _). rewrite Hse in Hv. injection Hv as <-. done.
Qed.

(** What a reset brings in is both served and stored, so it is safe unless
    memory holds the answer to a refresh of what the store holds. *)
Lemma inside_reset p e v x t :
  inside p e -> (p_lost p = false -> e_doc e = None \/ e_stored e <> secret_of p) -> inside p (reset v x t e).
Proof.
  intros [[Gb Gv Gj Gs Gt Go] H] Hor. split.
  - split; cbn; try done; congruence.
  - intros Hl. specialize (Hor Hl). destruct (H Hl) as [Ha|[(s & j & Hj & [(Hn & Ho & He)|(Hst & Hdo & Hso & Hf)])|(s & j & Hw & Ho & Hst & Hdo & Hso & Hf)]].
    + by left.
    + right; left. exists s, j. split; [done|]. by left.
    + exfalso. destruct Hj as (Hse & _). destruct Hor; congruence.
    + exfalso. destruct Hw as (Hse & _). destruct Hor; congruence.
Qed.

(** Taking in what the store holds leaves the journal's fields alone. *)
Definition kept (e e' : entry) : Prop := e_journal e' = e_journal e /\ e_from e' = e_from e.

Lemma wp_reconcile v (Q : option renew_error -> state -> Prop) s :
  Inv s -> secret_of (s_now s) = Some v ->
  (forall err s', Inv s' -> s_now s' = s_now s -> kept (s_entry s) (s_entry s') ->
    (err = None -> is_some (e_doc (s_entry s')) = true /\ e_stored (s_entry s') = Some v) ->
    (forall e, err = Some e -> is_not_found e = false /\ e_doc (s_entry s') = None) -> Q err s') ->
  wp (reconcile v) Q s.
Proof.
  intros HI Hv HQ. unfold Renew.reconcile. wp_ask. wp_steps.
  assert (Inv (MkState (s_now s) (s_points s) (s_sent s) (set_checked a (s_entry s)))) as HI1 by (by apply Inv_core).
  set (e := set_checked a (s_entry s)) in *. change (kept (s_entry s)) with (kept e) in HQ.
  pose proof (g_both _ _ (proj1 (proj1 HI1))) as Hb. cbn [s_entry] in Hb |- *. clearbody e.
  destruct (is_some (e_doc e) && (bytes_equal (Some v) (e_stored e) || bytes_equal (Some v) (e_doc e))) eqn:Ec.
  - wp_steps. apply andb_true_iff in Ec as [Ed Ec]. rewrite orb_true_iff, !bytes_equal_true in Ec by (cbn [is_some]; congruence).
    apply HQ; try done. apply (Inv_change _ _ _ e); [|exact HI1]. intros Hi. apply inside_stored_set; try done.
    destruct Ec as [E|E]; [left|right]; congruence.
  - assert (forall v' x t, Inv (MkState (s_now s) (s_points s) (s_sent s) (reset v' x t e))) as Hr.
    { intros v' x t. apply (Inv_change _ _ _ e); [|exact HI1]. intros Hi. apply inside_reset; [done|]. intros _.
      destruct (e_doc e) as [d|] eqn:Ed; [right|by left]. cbn [is_some andb] in Ec. apply orb_false_iff in Ec as [Ec _].
      rewrite Hv. intros E. rewrite E in Ec. unfold bytes_equal in Ec. by rewrite bool_decide_true in Ec. }
    destruct expiry as [x|]; [destruct (x v) as [t|n]|]; wp_steps; apply HQ; try done.
    intros ? [= <-]. done.
Qed.

(** [syncRead]: the entry holds what the store does, or the store could not be
    read. *)
Lemma wp_syncRead c (Q : bool * option renew_error -> state -> Prop) s :
  Inv s ->
  (forall rd err s', Inv s' -> s_now s' = s_now s -> kept (s_entry s) (s_entry s') ->
    (err = None -> is_some (e_doc (s_entry s')) = true) ->
    (err = None -> rd = true -> e_stored (s_entry s') = secret_of (s_now s)) ->
    (err = None -> rd = false -> core (s_entry s') = core (s_entry s)) ->
    (forall e, err = Some e -> is_not_found e = true -> p_lost (s_now s) = true) -> Q (rd, err) s') ->
  wp (syncRead c) Q s.
Proof.
  intros HI HQ. unfold Renew.syncRead. wp_step. apply wp_read.
  - intros v Hv. wp_step. apply wp_reconcile; [done..|]. intros err s' HI' Hn Hj He Hx. wp_step. apply HQ; try done.
    + intros ->. by apply He.
    + intros -> _. rewrite Hv. by apply He.
    + intros e -> Hnf. destruct (Hx e eq_refl). congruence.
  - intros Hno. cbn [is_not_found]. wp_steps.
    assert (p_lost (s_now s) = true) as Hl.
    { destruct (p_lost (s_now s)) eqn:Hl; [done|]. destruct (standing_secret _ _ (proj1 HI) Hl). congruence. }
    apply HQ; try done. eapply (Inv_entry s); [|done]. intros Hi. apply inside_reset; [done|]. congruence.
  - intros e He. rewrite He. wp_ask. destruct a.
    + wp_step. apply HQ; try done. intros ? [= <-]. congruence.
    + wp_steps. destruct (e_doc (s_entry s)) as [d|] eqn:Ed.
      * wp_ask. wp_steps. apply HQ; try done; [by apply Inv_core|]. intros _. cbn. by rewrite Ed.
      * wp_step. apply HQ; try done. intros ? [= <-]. congruence.
Qed.
(** ** Settling the journal of a stopped process *)

Lemma journal_name_ne : JournalName name <> name.
Proof. intros E. apply (f_equal length) in E. unfold JournalName in E. rewrite length_app in E. cbn in E. lia. Qed.

(** A journal can go, and any step but the first be recorded, once the secret
    is the document the provider takes, or that one is lost. *)
Lemma inside_step p e j :
  inside p e -> (p_lost p = false -> current p) -> j <> journalStarted -> inside p (set_journal_step j e).
Proof. intros [[Gb Gv Gj Gs Gt Go] H] Hc Hj. split; [split; cbn; done|]. intros Hl. left. by apply Hc. Qed.

Lemma inside_delete p e :
  inside p e -> (p_lost p = false -> current p) ->
  inside (MkPoint (delete (JournalName name) (p_store p)) (p_valid p) (p_old p) (p_lost p)) e.
Proof.
  intros [[Gb Gv Gj Gs Gt Go] H] Hc.
  assert (journal_of (MkPoint (delete (JournalName name) (p_store p)) (p_valid p) (p_old p) (p_lost p)) = None) as Hn.
  { unfold journal_of. cbn [p_store]. by rewrite lookup_delete_eq. }
  split; [split; try done; rewrite Hn; done|]. intros Hl. left. unfold current, secret_of. cbn [p_store].
  rewrite lookup_delete_ne by apply journal_name_ne. by apply Hc.
Qed.

Lemma wp_store_delete (Q : option store_error -> state -> Prop) s :
  Inv s -> (p_lost (s_now s) = false -> current (s_now s)) ->
  (forall err s', Inv s' -> s_entry s' = s_entry s -> secret_of (s_now s') = secret_of (s_now s) ->
    p_lost (s_now s') = p_lost (s_now s) -> (p_lost (s_now s') = false -> current (s_now s')) -> Q err s') ->
  wp (store_delete (JournalName name)) Q s.
Proof.
  intros HI Hc HQ. unfold Renew.store_delete. apply wp_store_write.
  - intros e _. by apply HQ.
  - intros st p Hf -> err _. destruct (p_store (s_now s) !! JournalName name) as [c|] eqn:Ec; [|done]. injection Hf as <-.
    assert (secret_of (MkPoint (delete (JournalName name) (p_store (s_now s))) (p_valid (s_now s)) (p_old (s_now s)) (p_lost (s_now s)))
      = secret_of (s_now s)) as Hse.
    { unfold secret_of. cbn [p_store]. by rewrite lookup_delete_ne by apply journal_name_ne. }
    apply HQ; try done.
    + apply Inv_settle; [|done]. by apply inside_delete; [apply HI|].
    + cbn [s_now p_lost]. intros Hl. unfold current. rewrite Hse. by apply Hc.
Qed.

Lemma wp_dropJournal (Q : unit -> state -> Prop) s :
  Inv s -> (p_lost (s_now s) = false -> current (s_now s)) ->
  (forall s', Inv s' -> Q tt s') -> wp dropJournal Q s.
Proof.
  intros HI Hc HQ. unfold Renew.dropJournal. wp_step. apply wp_store_delete; [done..|].
  intros err s' HI' He Hse Hlo Hc'.
  assert (Inv (MkState (s_now s') (s_points s') (s_sent s') (set_adopted false (set_journal_step journalNone (s_entry s'))))) as Hd.
  { apply Inv_entry; [|done]. intros Hi. apply (inside_core _ (set_journal_step journalNone (s_entry s'))); [done|].
    by apply inside_step. }
  destruct err as [[| |f]|]; wp_steps; apply HQ; done || by apply Inv_core.
Qed.

Lemma inside_origin p e j t :
  inside p e -> journal_of p = Some j -> e_journal e <> journalStarted ->
  inside p (set_origin t (j_docHash j) (j_owner j) e).
Proof.
  intros [[Gb Gv Gj Gs Gt Go] H] Hj Hn. split; [split; cbn; done|]. intros Hl.
  destruct (H Hl) as [Ha|[(s & j' & Hj' & [B|(Hst & Hdo & Hso & Hf)])|(s & j' & Hw & Ho & Hst & _)]]; [by left| | |done].
  - right; left. exists s, j'. split; [done|]. by left.
  - right; left. exists s, j'. split; [done|]. right. cbn.
    destruct Hj' as (_ & _ & Hjo & _ & Hh & _). rewrite Hj in Hjo. injection Hjo as ->. done.
Qed.

Lemma readable_ok doc : readable doc = true -> doc <> [] /\ is_ok (match expiry with None => Ok 0 | Some x => x doc end) = true.
Proof.
  unfold readable. rewrite andb_true_iff, negb_true_iff, bool_decide_eq_false. intros [? H]. split; [done|]. by destruct expiry.
Qed.

(** What [settle_journal] records of the journal of another process. *)
Lemma inside_settle p e jo v :
  inside p e -> secret_of p = Some v -> e_stored e = Some v -> journal_of p = jo ->
  (forall j, jo = Some j -> j_owner j <> own /\ e_from e = j_docHash j) ->
  forall Q : unit -> state -> Prop, forall ps ss,
  (forall e', inside p e' -> Q tt (MkState p ps ss e')) ->
  wp (settle_journal sha256 expiry jo v) Q (MkState p ps ss e).
Proof.
  intros Hi Hv Hst Hjo Hown Q ps ss HQ.
  assert (forall b, (p_lost p = false -> current p) ->
    inside p (set_suspect b (set_journal_step journalClear e)) /\ inside p (set_journal_step journalClear e)) as Hclear.
  { intros b Hc. split; [apply (inside_core _ (set_journal_step journalClear e)); [done|]|]; by apply inside_step. }
  assert (p_lost p = false -> current p \/ exists j, journaled p v j /\ jo = Some j) as Hcase.
  { intros Hl. destruct (proj2 Hi Hl) as [Ha|[(s & j & Hj & _)|(s & j & Hw & Ho & _)]]; [by left| |].
    - right. destruct Hj as (Hs & Hj). rewrite Hv in Hs. injection Hs as ->. exists j. split; [by split|].
      destruct Hj as (_ & Hj & _). congruence.
    - destruct Hw as (_ & _ & Hj & _). rewrite Hjo in Hj. subst jo. by destruct (Hown j Hj). }
  destruct jo as [j|]; cbn [settle_journal].
  2:{ wp_steps. apply HQ. apply Hclear. intros Hl. destruct (Hcase Hl) as [|(j & _ & [=])]; done. }
  destruct (bool_decide_reflect (j_phase j = phaseRenewed)) as [Hph|Hph]; cbn [andb].
  2:{ assert (p_lost p = false -> current p) as Hc.
      { intros Hl. destruct (Hcase Hl) as [|(j' & (_ & _ & _ & Hph' & _) & [= <-])]; done. }
      destruct (_ && _); wp_steps; apply HQ; by apply Hclear. }
  destruct (bool_decide_reflect (j_docHash j = hash v)) as [Hh|Hh]; cbn [andb].
  2:{ assert (p_lost p = false -> current p) as Hc.
      { intros Hl. destruct (Hcase Hl) as [|(j' & (_ & _ & _ & _ & Hh' & _) & [= <-])]; done. }
      rewrite andb_false_r. wp_steps. apply HQ. by apply (Hclear true). }
  destruct (bool_decide_reflect (j_doc j = [])) as [Hd|Hd]; cbn [negb].
  { assert (p_lost p = false -> current p) as Hc.
    { intros Hl. destruct (Hcase Hl) as [|(j' & (_ & _ & _ & _ & _ & Hd' & Hr) & [= <-])]; [done|].
      apply readable_ok in Hr as [Hr _]. congruence. }
    destruct (_ && _); wp_steps; apply HQ; by apply Hclear. }
  destruct (match expiry with None => Ok 0 | Some x => x (j_doc j) end) as [t|n] eqn:Ex; wp_steps; apply HQ.
  2:{ apply Hclear. intros Hl. destruct (Hcase Hl) as [|(j' & (_ & _ & _ & _ & _ & Hd' & Hr) & [= <-])]; [done|].
      apply readable_ok in Hr as [_ Hr]. rewrite <- Hd', Ex in Hr. done. }
  destruct Hi as [[Gb Gv Gj Gs Gt Go] H]. destruct (Gj j Hjo Hph) as (f & Hf & Hhf).
  assert (v = f) as -> by (apply (docHash_inj sha256); congruence).
  split; [split; cbn; try done; [by rewrite Hst|congruence]|].
  intros Hl. destruct (Hcase Hl) as [Ha|(j' & Hj & [= <-])].
  - unfold current in Ha. rewrite Hv in Ha. injection Ha as ->. by destruct (Gv Hl).
  - right; left. exists f, j. split; [done|]. right. cbn. destruct Hj as (_ & _ & _ & _ & _ & Hd' & _).
    destruct (Hown j eq_refl). split; [by right|]. split; [by rewrite Hd'|]. split; [done|]. congruence.
Qed.
Notation recover_stopped := (recover_stopped env sha256 expiry name).
Notation recover := (recover env sha256 expiry own name).

Lemma wp_readJournal (Q : journal_read -> state -> Prop) s :
  Q JNoJournal s -> (journal_of (s_now s) = None -> Q JBad s) -> (forall e, Q (JFault e) s) ->
  (forall j, journal_of (s_now s) = Some j -> Q (JGood j) s) ->
  wp (readJournal env name) Q s.
Proof.
  intros Hn Hb Hf Hg. unfold readJournal. wp_step. apply wp_read_store.
  - intros c Hc. wp_steps. unfold journal_of in Hb, Hg. rewrite Hc in Hb, Hg. destruct (parse_journal (c_value c)); auto.
  - intros _. by wp_steps.
  - intros k. by wp_steps.
Qed.

(** The journal [jo] was read from the store, and it is not this cache's. *)
Definition foreign (p : point) (jo : option journal) : Prop :=
  journal_of p = jo /\ forall j, jo = Some j -> j_owner j <> own.

Lemma wp_recover_stopped c t jo (Q : option renew_error -> state -> Prop) s :
  Inv s -> foreign (s_now s) jo -> (forall err s', Inv s' -> Q err s') -> wp (recover_stopped c t jo) Q s.
Proof.
  intros HI [Hjo Hown] HQ. unfold Renew.recover_stopped. wp_step. apply wp_read.
  - intros v Hv. wp_steps.
    set (e1 := set_adopted true (set_recovered true 0 0 (s_entry s))).
    assert (inside (s_now s) e1) as Hi1 by (apply (inside_core _ (s_entry s)); [done|apply HI]).
    assert (exists e2, inside (s_now s) e2 /\ e_journal e2 = e_journal e1 /\
      (forall j, jo = Some j -> e_from e2 = j_docHash j) /\
      forall Q' : unit -> state -> Prop, Q' tt (MkState (s_now s) (s_points s) (s_sent s) e2) ->
        wp (match jo with
            | Some j => upd (set_origin (time_UnixMilli (j_startedAt j)) (j_docHash j) (j_owner j))
            | None => mret tt end) Q' (MkState (s_now s) (s_points s) (s_sent s) e1)) as (e2 & Hi2 & _ & Hf2 & Hwp).
    { destruct jo as [j|].
      - exists (set_origin (time_UnixMilli (j_startedAt j)) (j_docHash j) (j_owner j) e1). split; [|split; [done|split]].
        + apply inside_origin; [done..|]. intros Hst. destruct (Hown j eq_refl). by apply (g_owner _ _ (proj1 Hi1)).
        + by intros ? [= <-].
        + intros Q' HQ'. wp_steps. exact HQ'.
      - exists e1. split; [done|]. split; [done|]. split; [done|]. intros Q' HQ'. by wp_steps. }
    apply Hwp. wp_step.
    apply (wp_reconcile v); [by split; [|apply HI]|done|]. intros err s' HI' Hn Hk He _. cbn [s_now s_entry] in Hn, Hk.
    destruct err as [e|]; [wp_steps; by apply HQ|]. destruct (He eq_refl) as [_ Hst]. wp_step.
    destruct s' as [p' ps' ss' e']. cbn [s_now s_entry] in *. subst p'.
    apply (inside_settle (s_now s) e' jo v); try done; [apply HI'| |].
    + intros j Hj. split; [by apply Hown|]. rewrite (proj2 Hk). by apply Hf2.
    + intros e'' Hi''. wp_steps. apply HQ. split; [done|apply HI'].
  - intros Hno. cbn [is_not_found]. wp_steps.
    assert (p_lost (s_now s) = false -> current (s_now s)) as Hc.
    { intros Hl. destruct (standing_secret _ _ (proj1 HI) Hl). congruence. }
    apply wp_dropJournal; [|exact Hc|intros s' HI'; wp_steps; by apply HQ].
    apply Inv_entry; [|done]. intros Hi.
    apply (inside_core _ (set_journal_step journalClear (reset None 0 0 (s_entry s)))); [done|].
    apply inside_step; [|exact Hc|done]. apply inside_reset; [done|]. intros Hl.
    destruct (standing_secret _ _ (proj1 HI) Hl). congruence.
  - intros e He. rewrite He. wp_ask. destruct a; wp_steps; [by apply HQ|].
    destruct (is_some _); apply HQ; by apply Inv_core.
Qed.

Lemma wp_recover c (Q : option renew_error -> state -> Prop) s :
  Inv s -> (forall err s', Inv s' -> Q err s') -> wp (recover c) Q s.
Proof.
  intros HI HQ. unfold Renew.recover. wp_step. apply wp_readJournal.
  - wp_steps. apply HQ. by apply Inv_core.
  - intros Hb. wp_step. wp_step. wp_ask. destruct a; [wp_steps; by apply HQ|].
    by apply wp_recover_stopped.
  - intros e. wp_step. wp_step. wp_ask. destruct a; wp_steps; apply HQ; [done|by apply Inv_core].
  - intros j Hj. wp_step. wp_step. destruct (bool_decide_reflect (j_owner j = own)) as [Ho|Ho].
    + wp_steps. apply HQ. apply Inv_entry; [|done]. intros Hi.
      assert (inside (s_now s) (set_recovered true 0 0 (s_entry s))) as Hi1 by (by apply (inside_core _ (s_entry s))).
      case_bool_decide as Hn; [|done]. apply inside_step; [done| |done]. intros Hl.
      destruct (proj2 Hi1 Hl) as [Ha|[(s' & j' & Hj' & [(_ & Hno & _)|([Hst|Hst] & _)])|(s' & j' & _ & _ & Hst & _)]]; try congruence.
      destruct Hj' as (_ & _ & Hj' & _). congruence.
    + assert (foreign (s_now s) (Some j)) as Hfo by (split; [done|]; by intros ? [= <-]).
      destruct (young _ j); cbn [negb]; [|by apply wp_recover_stopped].
      wp_step. wp_step. destruct (o_alive env _ _); [|by apply wp_recover_stopped].
      wp_steps. apply HQ. by apply Inv_core.
Qed.
(** ** Writing back *)

(** The store after one of its cells was written. *)
Definition put_point (n : gostr) (c : cell) (p : point) : point :=
  MkPoint (<[n := c]> (p_store p)) (p_valid p) (p_old p) (p_lost p).

Lemma put_cell_ok n c u st st' : put_cell n c u st = Ok st' -> st' = <[n := c]> st /\ (u = false -> st !! n = None).
Proof. unfold put_cell. destruct (st !! n), u; intros [= <-]; done. Qed.

Lemma secret_put_journal c p : secret_of (put_point (JournalName name) c p) = secret_of p.
Proof. unfold secret_of, put_point. cbn [p_store]. by rewrite lookup_insert_ne by apply journal_name_ne. Qed.

Lemma journal_put_journal c p j :
  c_value c = marshal_journal j -> journal_ok j -> journal_of (put_point (JournalName name) c p) = Some j.
Proof. intros Hc Hj. unfold journal_of, put_point. cbn [p_store]. by rewrite lookup_insert_eq, Hc, parse_marshal_journal. Qed.

Lemma secret_put_secret c p : secret_of (put_point name c p) = Some (c_value c).
Proof. unfold secret_of, put_point. cbn [p_store]. by rewrite lookup_insert_eq. Qed.

Lemma journal_put_secret c p : journal_of (put_point name c p) = journal_of p.
Proof. unfold journal_of, put_point. cbn [p_store]. by rewrite lookup_insert_ne by (symmetry; apply journal_name_ne). Qed.

Lemma wp_put n c u (Q : option store_error -> state -> Prop) s :
  (forall e, Q (Some e) s) ->
  (forall err p, p = put_point n c (s_now s) -> (u = false -> p_store (s_now s) !! n = None) ->
     (forall e, err = Some e -> exists ft, e = SFault ft) -> Q err (MkState p (s_points s ++ [p]) (s_sent s) (s_entry s))) ->
  wp (store_write (put_cell n c u)) Q s.
Proof.
  intros He Hp. apply wp_store_write; [auto|]. intros st p Hst -> err Herr. apply put_cell_ok in Hst as [-> Hu]. by apply Hp.
Qed.

Lemma wp_writeJournal j x u (Q : option store_error -> state -> Prop) s :
  (forall e, Q (Some e) s) ->
  (forall err c p, c_value c = marshal_journal j -> p = put_point (JournalName name) c (s_now s) ->
     (u = false -> p_store (s_now s) !! JournalName name = None) ->
     Q err (MkState p (s_points s ++ [p]) (s_sent s) (s_entry s))) ->
  wp (writeJournal j x u) Q s.
Proof.
  intros He Hp. unfold Renew.writeJournal. wp_ask. destruct a as [pv|e]; [|wp_step; apply He]. wp_step.
  unfold WriteWithProvenance. apply wp_put.
  - intros e. destruct e, u; try (wp_step; apply He). apply wp_put; [apply He|].
    intros err p -> _ _. eapply Hp; [|reflexivity|]; done.
  - intros err p -> Hu Herr.
    destruct err as [e|]; [destruct (Herr e eq_refl) as [ft ->]|]; wp_step; (eapply Hp; [|reflexivity|]; done).
Qed.

Lemma wp_writeBack v x (Q : option store_error -> state -> Prop) s :
  (forall e, Q (Some e) s) ->
  (forall err c p, c_value c = v -> p = put_point name c (s_now s) ->
     Q err (MkState p (s_points s ++ [p]) (s_sent s) (s_entry s))) ->
  wp (writeBack env annotator name v x) Q s.
Proof.
  intros He Hp. unfold writeBack. destruct annotator; cbn [negb].
  - wp_ask. destruct a as [pv|e]; [|wp_step; apply He]. unfold WriteWithProvenance. apply wp_put; [apply He|].
    intros err p -> _ _. eapply Hp; [|reflexivity]; done.
  - apply wp_put; [apply He|]. intros err p -> _ _. eapply Hp; [|reflexivity]; done.
Qed.

(** Memory and store agree on the secret. *)
Definition level (p : point) (e : entry) : Prop := p_lost p = true \/ e_stored e = secret_of p.

Lemma level_current p e :
  inside p e -> level p e -> p_lost p = false -> current p -> e_doc e = e_stored e.
Proof.
  intros Hi [Hl|Hs] Hl' Hc; [congruence|]. unfold current in Hc. rewrite Hc in Hs. rewrite Hs.
  by apply (inside_stored p e).
Qed.

Lemma equal_current p e :
  inside p e -> p_lost p = false -> e_doc e = e_stored e -> e_journal e <> journalNone -> current p.
Proof.
  intros [G H] Hl He Hn. destruct (H Hl) as [Ha|[(s & j & Hj & [(Hn' & _)|(_ & Hd & Hs & _)])|(s & j & Hw & _ & _ & Hd & Hs & _)]]; try done.
  - destruct Hj as (_ & Ho & _). destruct (g_valid _ _ G Hl). congruence.
  - destruct Hw as (_ & Ho & _). destruct (g_valid _ _ G Hl). congruence.
Qed.

(** The journal takes the renewed document. *)
Lemma inside_journal p e c d :
  inside p e -> level p e -> e_journal e = journalStarted -> e_doc e <> e_stored e -> e_doc e = Some d ->
  c_value c = marshal_journal (set_phase phaseRenewed d (journalOf e)) ->
  inside (put_point (JournalName name) c p) e /\
  (exists j, journal_of (put_point (JournalName name) c p) = Some j /\ j_phase j = phaseRenewed).
Proof.
  intros Hi Hlv Hst Hne Hd Hc. pose proof Hi as [[Gb Gv Gj Gs Gt Go] H].
  destruct (Gt Hst Hne) as ((f & Hf & Hfr) & Hown & H64).
  set (j := set_phase phaseRenewed d (journalOf e)) in *.
  assert (journal_ok j) as Hok.
  { split; [done|]. split; [by right|]. split; [done|].
    change (j_owner j) with (e_owner e). change (j_docHash j) with (e_from e). rewrite Hown, Hfr.
    destruct own_ok as (? & ? & ?). do 3 (split; [done|]). apply hex_encode_ascii. }
  pose proof (journal_put_journal c p j Hc Hok) as Hj. pose proof (secret_put_journal c p) as Hse.
  split; [|exists j; done]. split.
  - split; try done.
    + rewrite Hj. intros ? [= <-] _. exists f. split; [done|]. exact Hfr.
    + intros _ j' Hj'. rewrite Hj in Hj'. injection Hj' as <-. exact Hown.
  - intros Hl. assert (forall s, e_stored e = Some s -> e_doc e = Some (p_valid p) -> secret_of p = Some s -> s ∈ p_old p ->
      e_from e = hash s -> readable (p_valid p) = true -> standing (put_point (JournalName name) c p) e) as HB.
    { intros s Hs Hv Hsec Hold Hfrom Hr. right; left. exists s, j. split.
      - unfold journaled. rewrite Hse, Hj. repeat split; try done. cbn. congruence.
      - right. split; [by left|]. done. }
    destruct (H Hl) as [Ha|[(s & j' & Hj' & [(Hn & _)|(_ & Hdo & Hso & Hfm)])|(s & j' & Hw & _ & _ & Hdo & Hso & Hfm)]].
    + destruct Hne. by apply (level_current p e).
    + congruence.
    + destruct Hj' as (Hs & Ho & _ & _ & _ & _ & Hr). by apply (HB s).
    + destruct Hw as (Hs & Ho & _ & _ & _ & Hr). by apply (HB s).
Qed.

Lemma inside_renewed p e j :
  inside p e -> e_journal e = journalStarted -> journal_of p = Some j -> j_phase j = phaseRenewed ->
  inside p (set_journal_step journalRenewed e).
Proof.
  intros [[Gb Gv Gj Gs Gt Go] H] Hst Hj Hph. split; [split; cbn; done|]. intros Hl.
  destruct (H Hl) as [Ha|[(s & j' & Hj' & [(Hn & _)|(_ & Hrest)])|(s & j' & Hw & _)]].
  - by left.
  - congruence.
  - right; left. exists s, j'. split; [done|]. right. cbn. split; [by right|done].
  - destruct Hw as (_ & _ & Hj' & Hph' & _). rewrite Hj in Hj'. injection Hj' as ->. rewrite Hph in Hph'. done.
Qed.

(** The secret takes it. *)
Lemma inside_secret p e c d :
  inside p e -> level p e -> e_journal e = journalNone \/ e_journal e = journalRenewed -> e_doc e <> e_stored e ->
  e_doc e = Some d -> c_value c = d ->
  inside (put_point name c p) e /\ (p_lost p = false -> current (put_point name c p)).
Proof.
  intros Hi Hlv Hst Hne Hd Hc.
  assert (p_lost p = false -> current (put_point name c p)) as Hcur.
  { intros Hl. unfold current. rewrite secret_put_secret, Hc. cbn [p_valid put_point].
    destruct (proj2 Hi Hl) as [Ha|[(s & j & Hj & [(_ & _ & He)|(_ & Hdo & _)])|(s & j & Hw & _ & Hs & _)]].
    - destruct Hne. by apply (level_current p e).
    - done.
    - congruence.
    - destruct Hst; congruence. }
  split; [|done]. destruct Hi as [[Gb Gv Gj Gs Gt Go] H]. split; [|intros Hl; left; by apply Hcur].
  split; rewrite ?journal_put_secret; done.
Qed.
Lemma pending_core e e' : core e' = core e -> pending e' = pending e.
Proof. unfold core, pending. intros E. injection E as E1 E2 E3 _ _ _. by rewrite E1, E2, E3. Qed.

(** What a call leaves of the agreement of memory and store: a write that
    failed is pending. *)
Definition synced (s : state) : Prop :=
  is_some (e_doc (s_entry s)) = true /\
  (pending (s_entry s) = true \/ level (s_now s) (s_entry s)).

Lemma wp_writeDue (Q : bool -> state -> Prop) s :
  (pending (s_entry s) = true -> Q true s) -> Q false s -> wp (writeDue env) Q s.
Proof.
  intros Ht Hf. unfold writeDue. wp_steps. destruct (pending (s_entry s)); cbn [negb]; [|by wp_steps].
  destruct (IsZero _); wp_steps; [by apply Ht|]. destruct (_ <=? _); auto.
Qed.

Lemma flush_done_doc j doc e : e_doc (flush_done j doc e) = e_doc e.
Proof. unfold flush_done. destruct j; [case_bool_decide| |case_bool_decide|]; done. Qed.

Lemma flush_done_stored j doc e :
  e_stored (flush_done j doc e) = match j with journalStarted | journalClear => e_stored e | _ => doc end.
Proof. unfold flush_done. destruct j; [case_bool_decide| |case_bool_decide|]; done. Qed.

(** A turn of the loop, from the write on: it fails and is pending, or it
    lands and is recorded. *)
Lemma wp_flush_turn (k : M unit) (Q : unit -> state -> Prop) p ps ss e :
  Inv (MkState p ps ss e) -> is_some (e_doc e) = true -> level p e -> pending e = true ->
  (e_journal e <> journalClear -> e_doc e <> e_stored e) ->
  (forall s', Inv s' -> synced s' -> Q tt s') ->
  (forall s', Inv s' -> is_some (e_doc (s_entry s')) = true -> level (s_now s') (s_entry s') -> wp k Q s') ->
  wp (err ← flush_write env annotator name (e_journal e) e;
      match err with
      | Some _ => t ← now env; upd (set_writeFailed t)
      | None => upd (fun e' => flush_done (e_journal e) (e_doc e) (set_writeFailed 0 e'));; k
      end) Q (MkState p ps ss e).
Proof.
  intros HI Hd Hlv Hp Hne HQ Hk. destruct (e_doc e) as [d|] eqn:Ed; [|done].
  assert (forall s' (er : store_error), Inv s' -> s_entry s' = e -> 
    wp (t ← now env; upd (set_writeFailed t)) Q s') as Hfail.
  { intros s' _ HI' He. wp_steps. apply HQ; [by apply Inv_core|]. split; cbn [s_entry]; rewrite He; [by cbn; rewrite Ed|].
    left. by rewrite (pending_core e). }
  pose proof Hlv as Hlv'. pose proof (proj1 HI) as Hi0. cbn [s_now s_entry] in Hi0.
  wp_step. unfold flush_write. destruct (e_journal e) eqn:Ej.
  - (* the secret, with no journal *)
    apply wp_writeBack; [intros er; by apply Hfail|]. intros err c p' Hc ->. rewrite Ed in Hc.
    destruct (inside_secret p e c d Hi0 Hlv (or_introl Ej)) as [Hi Hcur]; [rewrite Ed; by apply Hne|done|done|].
    pose proof (Inv_settle (MkState p ps ss e) _ Hi HI) as HI'. destruct err as [er|]; [by apply Hfail|]. wp_steps.
    apply Hk; cbn [s_now s_entry].
    + apply (Inv_change _ _ _ e); [|exact HI']. intros _. unfold flush_done. cbn [e_journal set_writeFailed set_stored]. rewrite Ej.
      rewrite bool_decide_false by done. split; [|intros Hl; left; by apply Hcur].
      destruct Hi as [[Gb Gv Gj Gs Gt Go] _]. split; cbn; rewrite ?Ed; try done. all: intros; congruence.
    + rewrite flush_done_doc. cbn. by rewrite Ed.
    + right. by rewrite secret_put_secret, Hc, flush_done_stored.
  - (* the journal takes the document *)
    apply wp_writeJournal; [intros er; by apply Hfail|]. intros err c p' Hc -> _. rewrite Ed in Hc.
    destruct (inside_journal p e c d Hi0 Hlv Ej) as [Hi (j & Hj & Hph)]; [rewrite Ed; by apply Hne|done|done|].
    pose proof (Inv_settle (MkState p ps ss e) _ Hi HI) as HI'. destruct err as [er|]; [by apply Hfail|]. wp_steps.
    apply Hk; cbn [s_now s_entry].
    + apply (Inv_change _ _ _ e); [|exact HI']. intros _.
      apply (inside_core _ (set_journal_step journalRenewed e)); [done|]. by apply (inside_renewed _ _ j).
    + cbn. by rewrite Ed.
    + destruct Hlv' as [Hl|Hs]; [by left|]. right. rewrite secret_put_journal. exact Hs.
  - (* the secret takes it *)
    apply wp_writeBack; [intros er; by apply Hfail|]. intros err c p' Hc ->. rewrite Ed in Hc.
    destruct (inside_secret p e c d Hi0 Hlv (or_intror Ej)) as [Hi Hcur]; [rewrite Ed; by apply Hne|done|done|].
    pose proof (Inv_settle (MkState p ps ss e) _ Hi HI) as HI'. destruct err as [er|]; [by apply Hfail|]. wp_steps.
    apply Hk; cbn [s_now s_entry].
    + apply (Inv_change _ _ _ e); [|exact HI']. intros _. unfold flush_done. cbn [e_journal set_writeFailed set_stored]. rewrite Ej.
      rewrite bool_decide_true by done. split; [|intros Hl; left; by apply Hcur].
      destruct Hi as [[Gb Gv Gj Gs Gt Go] _]. split; cbn; rewrite ?Ed; try done. all: intros; congruence.
    + rewrite flush_done_doc. cbn. by rewrite Ed.
    + right. by rewrite secret_put_secret, Hc, flush_done_stored.
  - (* the journal goes *)
    wp_step. apply wp_store_delete; [done| |].
    { intros Hl. destruct (proj2 Hi0 Hl) as [Ha|[(x & j & _ & [(Hn & _)|([Hn|Hn] & _)])|(x & j & _ & _ & Hn & _)]]; try done; congruence. }
    intros err s' HI' He Hse Hlo Hc'. cbn [s_entry s_now] in He, Hse, Hlo.
    assert (wp (upd (fun e' => flush_done journalClear (Some d) (set_writeFailed 0 e'));; k) Q s') as Hok.
    { wp_steps. apply Hk; cbn [s_now s_entry].
      - apply Inv_entry; [|done]. intros Hi. apply (inside_core _ (set_journal_step journalNone (s_entry s'))); [done|].
        by apply inside_step.
      - cbn. rewrite He. by rewrite Ed.
      - destruct Hlv' as [Hl|Hs]; [left; congruence|]. right. cbn. rewrite Hse, He. exact Hs. }
    destruct err as [[| |f]|]; wp_step; [exact Hok| | |exact Hok]; by apply (Hfail s' SNotFound).
Qed.
Lemma wp_flush_loop k (Q : unit -> state -> Prop) s :
  Inv s -> is_some (e_doc (s_entry s)) = true -> level (s_now s) (s_entry s) ->
  (forall s', Inv s' -> synced s' -> Q tt s') -> wp (flush_loop k) Q s.
Proof.
  revert s. induction k as [|k IH]; intros s HI Hd Hlv HQ; cbn [Renew.flush_loop].
  { wp_step. apply HQ; [done|]. split; [done|by right]. }
  wp_step. apply wp_writeDue; cbn [negb]; [|wp_step; apply HQ; [done|]; split; [done|by right]].
  intros Hp. do 4 wp_step. destruct s as [p ps ss e]. cbn [s_now s_points s_sent s_entry] in *.
  pose proof (g_both _ _ (proj1 (proj1 HI))) as Hb. cbn [s_entry] in Hb.
  set (e1 := if negb (bool_decide (e_journal e = journalNone)) && bytes_equal (e_doc e) (e_stored e)
             then set_journal_step journalClear e else e).
  assert (e_doc e1 = e_doc e /\ e_stored e1 = e_stored e) as [Ed1 Es1] by (subst e1; by destruct (_ && _)).
  assert (inside p e1 /\ pending e1 = true /\ (e_journal e1 <> journalClear -> e_doc e1 <> e_stored e1)) as (Hi1 & Hp1 & Hn1).
  { pose proof (proj1 HI) as Hi. cbn [s_now s_entry] in Hi. subst e1.
    destruct (bool_decide_reflect (e_journal e = journalNone)) as [Hj|Hj]; cbn [negb andb].
    - split; [done|]. split; [done|]. intros _ E. destruct (pending_false p e (proj1 Hi)) as [_ Hpf].
      rewrite Hpf in Hp by done. done.
    - destruct (bytes_equal (e_doc e) (e_stored e)) eqn:Eb.
      + apply bytes_equal_true in Eb; [|done]. split; [|by split; [unfold pending|]].
        apply inside_step; [done| |done]. intros Hl. by apply (equal_current p e).
      + split; [done|]. split; [done|]. intros _ E%bytes_equal_true; [congruence|done]. }
  apply wp_flush_turn; try done.
  - split; [done|apply HI].
  - by rewrite Ed1.
  - unfold level. by rewrite Es1.
  - intros s' HI' Hd' Hlv'. by apply IH.
Qed.

Lemma wp_flush (Q : option renew_error -> state -> Prop) s :
  Inv s -> (forall err s', Inv s' -> (err = None -> synced s -> synced s') -> Q err s') -> wp flush Q s.
Proof.
  intros HI HQ. unfold Renew.flush. wp_step. apply wp_writeDue; cbn [negb]; [|by wp_step; apply HQ].
  intros _. wp_step. apply wp_syncRead; [done|]. intros rd err s' HI' Hn Hk Hd Hst Hco Hnf.
  assert (forall e, err = Some e -> is_not_found e = true -> p_lost (s_now s') = false -> current (s_now s')) as Hc.
  { intros e He Hx Hl. rewrite Hn in Hl. rewrite (Hnf e He Hx) in Hl. done. }
  destruct err as [e|].
  - assert (wp (if is_not_found e then dropJournal else mret tt) (fun _ s'' => Q (Some e) s'') s') as Hdrop.
    { destruct (is_not_found e) eqn:Ex; [|by wp_step; apply HQ].
      apply wp_dropJournal; [done|by apply (Hc e)|]. intros s'' HI''. by apply HQ. }
    destruct rd; wp_step; (eapply wp_mono; [exact Hdrop|]; intros [] s'' H; by wp_step).
  - destruct rd.
    + wp_step. apply wp_flush_loop; [done|by apply Hd|right; rewrite Hn; by apply Hst|].
      intros s'' HI'' Hsy. wp_step. by apply HQ.
    + wp_steps. apply HQ; [by apply Inv_core|]. intros _ [_ Hsy]. split; cbn [s_entry s_now]; [by apply Hd|].
      specialize (Hco eq_refl eq_refl). rewrite (pending_core (s_entry s)) by exact Hco.
      destruct Hsy as [Hp|Hl]; [by left|]. right. unfold level in *. rewrite Hn.
      unfold core in Hco. injection Hco as _ Es _ _ _ _. cbn [e_stored set_writeFailed]. by rewrite Es.
Qed.
(** ** Renewing *)

Notation renew := (renew env sha256 annotator expiry own name).

Lemma Inv_sent p ps ss e r : sent_ok r -> Inv (MkState p ps ss e) -> Inv (MkState p ps (ss ++ [r]) e).
Proof. intros Hr (Hi & Hp & Hs). split; [done|]. split; [done|]. apply Forall_app. split; [done|by apply Forall_singleton]. Qed.

Lemma wp_renew_failed er (Q : option renew_error -> state -> Prop) s :
  Inv s -> (p_lost (s_now s) = false -> current (s_now s)) -> (forall err s', Inv s' -> Q err s') ->
  wp (renew_answer env annotator expiry name (Err er)) Q s.
Proof.
  intros HI Hc HQ. unfold renew_answer. wp_steps.
  apply wp_flush; [|intros err s' HI' _; wp_step; by apply HQ].
  apply Inv_entry; [|done]. intros Hi. apply (inside_core _ (set_journal_step journalClear (s_entry s))).
  - by destruct (is_spent er).
  - by apply inside_step.
Qed.

(** The answer of the provider goes into memory. *)
Lemma inside_answer p e cur next started t :
  current p \/ p_lost p = true -> cur = p_valid p -> general p e ->
  (exists j, journal_of p = Some j /\ j_phase j = phaseRenewing /\ j_owner j = own /\ j_docHash j = hash cur) ->
  e_journal e = journalStarted -> e_stored e = Some cur -> e_from e = hash cur -> e_owner e = own ->
  e_startedAt e = started -> int64 (UnixMilli started) ->
  let p' := MkPoint (p_store p) next (cur :: p_old p) (p_lost p || negb (usable expiry next (cur :: p_old p))) in
  crash_ok p' /\ forall x, inside p' (set_held (Some next) x t e).
Proof.
  intros Hc -> [Gb Gv Gj Gs Gt Go] (j & Hj & Hph & Hjo & Hjh) Hst Hso Hfr Hown Hsa H64 p'.
  assert (p_lost p' = false -> window p' (p_valid p) j /\ next ∉ p_old p') as Hw.
  { cbn [p_lost p']. intros [Hl Hu]%orb_false_iff. apply negb_false_iff in Hu. unfold usable in Hu.
    rewrite !andb_true_iff, !negb_true_iff, !bool_decide_eq_false in Hu. destruct Hu as [[Hne Hold] Hx].
    split; [|done]. destruct Hc as [Hc|Hc]; [|congruence]. split; [exact Hc|]. split; [left|]. do 3 (split; [done|]).
    unfold readable. cbn. by rewrite bool_decide_false. }
  assert (forall x, inside p' (set_held (Some next) x t e)) as Hin.
  2:{ split; [|done]. by apply (inside_crash _ (set_held (Some next) 0 t e)). }
  intros x. split.
  - split; cbn; try done.
    + by rewrite Hso.
    + intros Hl. by apply Hw.
    + intros j' Hj'. change (journal_of p = Some j') in Hj'. rewrite Hj in Hj'. injection Hj' as <-. by rewrite Hph.
    + intros d s [= <-] Hs _. rewrite Hso in Hs. injection Hs as <-. left.
    + intros _ _. split; [exists (p_valid p); split; [left|done]|]. by rewrite Hsa.
  - intros Hl. right; right. exists (p_valid p), j. cbn. split; [by apply Hw|]. done.
Qed.

(** The call of the provider and what follows it: [s] is the secret, the
    journal says so, and nothing is pending. *)
Lemma wp_provider cur (Q : option renew_error -> state -> Prop) p ps ss e :
  Inv (MkState p ps ss e) -> (p_lost p = false -> p_valid p = cur /\ current p) ->
  (exists j, journal_of p = Some j /\ j_phase j = phaseRenewing /\ j_owner j = own /\ j_docHash j = hash cur) ->
  e_journal e = journalStarted -> e_doc e = Some cur -> e_stored e = Some cur -> e_from e = hash cur -> e_owner e = own ->
  int64 (UnixMilli (e_startedAt e)) ->
  (forall err s', Inv s' -> Q err s') ->
  wp (answer ← provider env expiry cur; renew_answer env annotator expiry name answer) Q (MkState p ps ss e).
Proof.
  intros HI Hv Hj Hst Hdo Hso Hfr Hown H64 HQ. unfold provider. wp_steps.
  assert (sent_ok (MkRefresh cur (p_valid p) (p_lost p))) as Hsent by (intros Hl; symmetry; by apply Hv).
  pose proof (Inv_sent _ _ _ _ _ Hsent HI) as HI1.
  assert (forall er, wp (renew_answer env annotator expiry name (Err er)) Q
    (MkState p ps (ss ++ [MkRefresh cur (p_valid p) (p_lost p)]) e)) as Hfail.
  { intros er. apply wp_renew_failed; [done| |done]. intros Hl. by apply Hv. }
  destruct (o_renew env n cur) as [k|k rot|next].
  - wp_step. apply Hfail.
  - wp_step. destruct rot as [d|]; [|by wp_steps].
    destruct (bool_decide_reflect (cur = p_valid p)) as [Hcv|Hcv]; [|wp_steps; apply Hfail].
    do 2 (wp_step; cbv beta). cbn [s_now s_points s_sent s_entry].
    apply wp_renew_failed; [|done|done].
    apply (Inv_settle (MkState p ps (ss ++ [MkRefresh cur (p_valid p) (p_lost p)]) e)); [|done]. cbn [s_entry].
    destruct HI as [[[Gb Gv Gj Gs Gt Go] _] _]. split; [|done]. destruct Hj as (j & Hj & Hph & Hjo & _).
    split; cbn; try done.
    + intros j' Hj'. change (journal_of p = Some j') in Hj'. rewrite Hj in Hj'. injection Hj' as <-. by rewrite Hph.
    + intros d' s' Hd' Hs' Hne. congruence.
    + intros _ Hne. congruence.
  - destruct (bool_decide_reflect (cur = p_valid p)) as [Hcv|Hcv]; [|wp_steps; apply Hfail].
    do 3 (wp_step; cbv beta). cbn [s_now s_points s_sent s_entry].
    destruct HI1 as [[G _] [Hpts Hsnt]]. cbn [s_now s_points s_sent s_entry] in *.
    destruct (inside_answer p e cur next (e_startedAt e) 0) as [Hcr _]; try done.
    { destruct (p_lost p) eqn:El; [by right|]. left. by apply Hv. }
    assert (forall e', inside (MkPoint (p_store p) next (cur :: p_old p) (p_lost p || negb (usable expiry next (cur :: p_old p)))) e' ->
      Inv (MkState (MkPoint (p_store p) next (cur :: p_old p) (p_lost p || negb (usable expiry next (cur :: p_old p))))
        (ps ++ [MkPoint (p_store p) next (cur :: p_old p) (p_lost p || negb (usable expiry next (cur :: p_old p)))])
        (ss ++ [MkRefresh cur (p_valid p) (p_lost p)]) e')) as Hinv.
    { intros e' Hi. split; [done|]. split; [|done]. apply Forall_app. split; [done|by apply Forall_singleton]. }
    destruct next as [|c next].
    + apply wp_renew_failed; [|intros Hl; cbn in Hl; by rewrite orb_true_r in Hl|done]. apply Hinv.
      split; [|intros Hl; cbn in Hl; by rewrite orb_true_r in Hl].
      destruct G as [Gb Gv Gj Gs Gt Go]. destruct Hj as (j & Hj & Hph & Hjo & _).
      split; cbn; rewrite ?orb_true_r; try done.
      * intros j' Hj'. change (journal_of p = Some j') in Hj'. rewrite Hj in Hj'. injection Hj' as <-. by rewrite Hph.
      * intros d' s' Hd' Hs' Hne. congruence.
      * intros _ Hne. congruence.
    + unfold renew_answer. wp_steps. apply wp_flush; [|by intros err s' HI' _; apply HQ].
      apply Hinv.
      lazymatch goal with |- inside _ (set_suspect _ (set_writeFailed _ (set_failure _ _ _ (set_held ?d ?x ?t e)))) =>
        apply (inside_core _ (set_held d x t e)); [done|] end.
      apply (inside_answer p e cur (c :: next) (e_startedAt e)); try done.
      destruct (p_lost p) eqn:El; [by right|]. left. by apply Hv.
Qed.
Lemma wp_renew c (Q : option renew_error -> state -> Prop) s :
  Inv s -> synced s -> (forall err s', Inv s' -> Q err s') -> wp (renew c) Q s.
Proof.
  intros HI [Hd Hsy] HQ. unfold Renew.renew. do 4 wp_step. destruct (pending (s_entry s)) eqn:Hp; [wp_step; by apply HQ|].
  assert (level (s_now s) (s_entry s)) as Hlv by (by destruct Hsy). clear Hsy.
  destruct s as [p ps ss e]. cbn [s_now s_points s_sent s_entry] in *.
  destruct (pending_false p e (proj1 (proj1 HI))) as [Hpf _]. destruct (Hpf Hp) as [Hj Hds]. clear Hpf.
  destruct (e_doc e) as [d|] eqn:Ed; [|done]. set (started := o_now env n).
  set (j := MkJournal journalVersion phaseRenewing own (UnixMilli started) (hash (default [] (Some d))) []).
  assert (journal_ok j) as Hok.
  { split; [done|]. split; [by left|]. split; [apply clock_ok|]. destruct own_ok as (? & ? & ?).
    do 3 (split; [done|]). apply hex_encode_ascii. }
  assert (forall s' er, Inv s' -> wp (match Some er with
      | Some SExists =>
        upd (fun e => set_recovered false 0 (e_blockedAt e) e);;
        err ← recover c;
        match err with
        | Some err => mret (Some err)
        | None => t ← now env; upd (set_failure (Some EJournalThere) t false);; mret (Some EJournalThere)
        end
      | Some err => t ← now env; upd (set_failure (Some (EJournalUnwritten err)) t false);; mret (Some (EJournalUnwritten err))
      | None => mret None
      end) Q s') as Hrej.
  { intros s' er HI'. destruct er; try (wp_steps; apply HQ; by apply Inv_core).
    do 3 (wp_step; cbv beta). apply wp_recover; [by apply Inv_core|]. intros [err|] s'' HI''; wp_steps; apply HQ; [done|by apply Inv_core]. }
  wp_step. apply wp_writeJournal; [intros er; by apply Hrej|].
  intros err cl p' Hc -> Hfree. specialize (Hfree eq_refl). cbn [s_now s_points s_sent s_entry] in *.
  assert (journal_of p = None) as Hno by (unfold journal_of; by rewrite Hfree).
  pose proof (journal_put_journal cl p j Hc Hok) as Hjp. pose proof (secret_put_journal cl p) as Hse.
  destruct HI as [[G H] [Hpts Hsnt]]. cbn [s_now s_points s_sent s_entry] in *.
  assert (p_lost p = false -> current (put_point (JournalName name) cl p)) as Hcur.
  { intros Hl. unfold current. rewrite Hse.
    destruct (H Hl) as [Ha|[(x & j' & (_ & _ & Hj' & _) & _)|(x & j' & (_ & _ & Hj' & _) & _)]]; [done|congruence..]. }
  assert (forall e', general p e' -> inside (put_point (JournalName name) cl p) e') as Hin.
  { intros e' [Gb Gv Gj Gs Gt Go]. split; [|intros Hl; left; by apply Hcur].
    split; rewrite ?Hjp; try done.
    - intros j' [= <-] [=].
    - intros _ j' [= <-]. done. }
  assert (forall e', inside (put_point (JournalName name) cl p) e' ->
    Inv (MkState (put_point (JournalName name) cl p) (ps ++ [put_point (JournalName name) cl p]) ss e')) as HI'.
  { intros e' Hi. split; [done|]. split; [|done]. apply Forall_app. split; [done|]. apply Forall_singleton. by eapply inside_crash. }
  destruct err as [er|]; [by apply Hrej, HI', Hin|].
  do 2 (wp_step; cbv beta). cbn [s_now s_points s_sent s_entry].
  assert (general p (set_origin started (j_docHash j) own (set_journal_step journalStarted e))) as G'.
  { destruct G as [Gb Gv Gj Gs Gt Go]. split; cbn; rewrite ?Ed; try done.
    - by rewrite <- Hds.
    - intros d' s' [= <-] Hs' Hne. congruence.
    - intros _ j'. by rewrite Hno. }
  apply wp_provider; cbn; try done.
  - apply HI', Hin, G'.
  - intros Hl. specialize (Hcur Hl). split; [|done]. unfold current in Hcur. rewrite Hse in Hcur.
    destruct Hlv as [Hl'|Hs]; [congruence|]. rewrite Hcur, <- Hds in Hs. by injection Hs.
  - exists j. by rewrite Hjp.
  - apply clock_ok.
Qed.

(** ** The operations *)

Lemma wp_serve (Q : res renew_error gostr -> state -> Prop) s :
  Inv s -> (forall r, Q r s) -> wp (serve env name) Q s.
Proof.
  intros HI HQ. unfold serve. wp_steps. destruct (e_doc (s_entry s)); [|wp_step; apply HQ]. wp_ask. wp_step. apply HQ.
Qed.

Lemma wp_recover_if (Q : option renew_error -> state -> Prop) s :
  Inv s -> (forall err s', Inv s' -> Q err s') -> wp (recover_if_unsettled env sha256 expiry own name) Q s.
Proof.
  intros HI HQ. unfold recover_if_unsettled. wp_ask. destruct a; [by apply wp_recover|]. wp_step. by apply HQ.
Qed.

Lemma wp_resolve_due rd (Q : res renew_error gostr -> state -> Prop) s :
  Inv s -> (rd = true -> synced s) -> (forall r s', Inv s' -> Q r s') ->
  wp (resolve_due env sha256 annotator expiry own name rd) Q s.
Proof.
  intros HI Hsy HQ. unfold resolve_due. wp_ask. destruct a; cbn [negb]; [|apply wp_serve; auto].
  assert (forall rd' s', Inv s' -> (rd' = true -> synced s') -> wp (if negb rd' then holdRenewal env;; serve env name
      else d ← dueLocked env;
        if negb (d : bool) then serve env name
        else err ← renew true; en ← get;
          match err with
          | Some err => if is_some (e_doc en) then serve env name else mret (Err err)
          | None => serve env name
          end) Q s') as Hrest.
  { intros rd' s' HI' Hsy'. destruct rd'; cbn [negb].
    - wp_ask. destruct a; cbn [negb]; [|apply wp_serve; auto]. wp_step. apply wp_renew; [done|by apply Hsy'|].
      intros err s'' HI''. wp_steps. destruct err as [err|]; [|apply wp_serve; auto].
      destruct (is_some _); [apply wp_serve; auto|wp_step; by apply HQ].
    - unfold holdRenewal. wp_steps. apply wp_serve; [by apply Inv_core|]. intros r. apply HQ. by apply Inv_core. }
  unfold sync_if. wp_steps. destruct rd; cbn [negb]; [apply (Hrest true); [done|intros _; by apply Hsy]|].
  wp_step. apply wp_syncRead; [done|]. intros rd' err s' HI' Hn Hk Hd Hst Hco Hnf.
  destruct err as [err|]; [wp_step; by apply HQ|]. apply (Hrest rd'); [done|]. intros ->. split; [by apply Hd|].
  right. right. rewrite Hn. by apply Hst.
Qed.

Lemma wp_Resolve (Q : res renew_error gostr -> state -> Prop) s :
  Inv s -> (forall r s', Inv s' -> Q r s') -> wp (Resolve env sha256 annotator expiry own name renewable) Q s.
Proof.
  intros HI HQ. unfold Resolve. destruct renewable; cbn [negb]; [|apply wp_quiet; [apply quiet_read|auto]].
  apply wp_bind, wp_quiet; [apply quiet_ready|]. intros [d|]; [wp_step; by apply HQ|].
  wp_step. wp_step. destruct (o_turn env n); cbn [negb]; [|wp_step; by apply HQ].
  unfold try at 1. wp_step. apply wp_recover_if; [done|]. intros [err|] s1 HI1; [wp_step; by apply HQ|].
  assert (forall rd s', Inv s' -> (rd = true -> synced s') -> wp (try flush (resolve_due env sha256 annotator expiry own name rd)) Q s') as Hrest.
  { intros rd s' HI' Hsy. unfold try. wp_step. apply wp_flush; [done|]. intros [err|] s2 HI2 Hsy2; [wp_step; by apply HQ|].
    apply wp_resolve_due; [done|auto|done]. }
  unfold sync_if. wp_ask. destruct a; [|by apply Hrest].
  wp_step. apply wp_syncRead; [done|]. intros rd' err s' HI' Hn Hk Hd Hst Hco Hnf.
  destruct err as [err|]; [wp_step; by apply HQ|]. apply Hrest; [done|]. intros ->. split; [by apply Hd|].
  right. right. rewrite Hn. by apply Hst.
Qed.

Lemma wp_ForceRenew doc (Q : res renew_error gostr -> state -> Prop) s :
  Inv s -> (forall r s', Inv s' -> Q r s') -> wp (ForceRenew env sha256 annotator expiry own name renewable doc) Q s.
Proof.
  intros HI HQ. unfold ForceRenew. destruct renewable; cbn [negb]; [|wp_step; by apply HQ].
  wp_step. wp_step. destruct (o_turn env n); cbn [negb]; [|wp_step; by apply HQ].
  unfold try at 1. wp_step. apply wp_recover_if; [done|]. intros [err|] s1 HI1; [wp_step; by apply HQ|].
  wp_step. apply wp_syncRead; [done|]. intros rd err s2 HI2 Hn Hk Hd Hst Hco Hnf.
  destruct err as [err|]; [wp_step; by apply HQ|]. unfold try. wp_step.
  apply wp_flush; [done|]. intros [err|] s3 HI3 Hsy; [wp_step; by apply HQ|].
  assert (rd = true -> synced s3) as Hsy3.
  { intros ->. apply Hsy; [done|]. split; [by apply Hd|]. right. right. rewrite Hn. by apply Hst. }
  unfold force_ready. do 4 (wp_step; cbv beta). cbn [s_now s_points s_sent s_entry].
  set (e3 := if rd && _ then _ else _).
  assert (core e3 = core (s_entry s3)) as Hcore by (subst e3; by destruct (_ && _)). clearbody e3.
  assert (Inv (MkState (s_now s3) (s_points s3) (s_sent s3) e3)) as HI4 by (by apply Inv_core).
  wp_ask.
  destruct (negb (bytes_equal (e_doc e3) (Some doc))); [wp_step; by apply HQ|].
  destruct rd; cbn [negb]; [|wp_step; by apply HQ].
  destruct (e_spent e3); [wp_step; by apply HQ|]. destruct (pending e3) eqn:Hp; [wp_step; by apply HQ|].
  destruct (negb (IsZero (e_blockedAt e3))); [wp_step; by apply HQ|].
  assert (wp (err ← renew true; match err with
      | Some err => mret (Err (ENotRenewed name err))
      | None => e ← get; mret (Ok (default [] (e_doc e))) end) Q (MkState (s_now s3) (s_points s3) (s_sent s3) e3)) as Hren.
  { wp_step. apply wp_renew; [done| |].
    - destruct (Hsy3 eq_refl) as [Hd3 Hl3]. split; cbn [s_entry s_now]; unfold core in Hcore.
      + injection Hcore as -> _. done.
      + rewrite (pending_core (s_entry s3)) by done. unfold level in *. injection Hcore as _ -> _. done.
    - intros [err|] s4 HI5; wp_steps; by apply HQ. }
  destruct a, (e_failure e3); try exact Hren. wp_step. by apply HQ.
Qed.

Lemma wp_Recover (Q : option renew_error -> state -> Prop) s :
  Inv s -> (forall r s', Inv s' -> Q r s') -> wp (Recover env sha256 annotator expiry own name renewable) Q s.
Proof.
  intros HI HQ. unfold Recover. destruct renewable; cbn [negb]; [|wp_step; by apply HQ].
  wp_step. wp_step. destruct (o_turn env n); cbn [negb]; [|wp_step; by apply HQ].
  wp_ask. destruct a; cbn [negb]; [|wp_step; by apply HQ].
  wp_step. apply wp_recover; [done|]. intros [err|] s1 HI1; [wp_step; by apply HQ|].
  apply wp_flush; [done|]. intros err s2 HI2 _. by apply HQ.
Qed.
End Process.

(** ** Runs, crashes and other programs *)

Definition owner_ok (own : journalOwner) : Prop :=
  int64 (ow_pid own) /\ all_ascii (ow_start own) = true /\ all_ascii (ow_nonce own) = true.

Definition outside_ok (env : outside) : Prop :=
  (forall n, o_read env n <> Some FDamaged) /\ (forall n, int64 (UnixMilli (o_now env n))).

Inductive operation := OpResolve | OpForceRenew (refused : gostr) | OpRecover.

Definition run_op (env : outside) (own : journalOwner) (op : operation) (n : nat) (s : state) : state :=
  let w := MkWorld n s in
  w_st (match op with
        | OpResolve => (Resolve env sha256 annotator expiry own name renewable w).2
        | OpForceRenew d => (ForceRenew env sha256 annotator expiry own name renewable d w).2
        | OpRecover => (Recover env sha256 annotator expiry own name renewable w).2
        end).

(** The store holds the document that the provider takes, in the secret or in
    the journal next to the document it replaced. *)
Definition held (p : point) : bool :=
  match secret_of p with
  | None => false
  | Some s =>
    bool_decide (s = p_valid p) ||
    match journal_of p with
    | None => false
    | Some j => bool_decide (j_phase j = phaseRenewed) && bool_decide (j_docHash j = hash s) && bool_decide (j_doc j = p_valid p)
    end
  end.

(** A process that stops leaves the store, and loses what it had in memory. *)
Definition after_crash (p : point) : point :=
  MkPoint (p_store p) (p_valid p) (p_old p) (p_lost p || negb (held p)).

(** A new login: another program stores the document [v], and the provider
    takes that one from now on. *)
Definition after_login (v : gostr) (pv : Provenance) (p : point) : point :=
  MkPoint (<[name := MkCell v pv]> (p_store p)) v (p_old p) false.

Definition after_removal (p : point) : point :=
  MkPoint (delete name (p_store p)) (p_valid p) (p_old p) true.

Definition move (p : point) (s : state) : state := MkState p (s_points s ++ [p]) (s_sent s) (s_entry s).

Inductive reachable : journalOwner -> state -> Prop :=
  | reach_start own p : owner_ok own -> current p -> p_old p = [] -> journal_of p = None ->
      reachable own (MkState p [p] [] new_entry)
  | reach_op own s env op n : reachable own s -> outside_ok env -> reachable own (run_op env own op n s)
  | reach_crash own own' s p : reachable own s -> p ∈ s_points s -> owner_ok own' ->
      (forall j, journal_of p = Some j -> j_owner j <> own') ->
      reachable own' (MkState (after_crash p) (s_points s ++ [after_crash p]) (s_sent s) new_entry)
  | reach_login own s v pv : reachable own s -> v ∉ p_old (s_now s) ->
      reachable own (move (after_login v pv (s_now s)) s)
  | reach_removal own s : reachable own s -> reachable own (move (after_removal (s_now s)) s).

Lemma run_op_Inv own env op n s : owner_ok own -> outside_ok env -> Inv own s -> Inv own (run_op env own op n s).
Proof.
  intros Ho [Hd Hc] HI. unfold run_op. destruct op.
  - by apply (wp_Resolve own Ho env Hd Hc (fun _ => Inv own)).
  - by apply (wp_ForceRenew own Ho env Hd Hc refused (fun _ => Inv own)).
  - by apply (wp_Recover own Ho env Hd (fun _ => Inv own)).
Qed.

Lemma inside_after_crash own p :
  crash_ok p -> (forall j, journal_of p = Some j -> j_owner j <> own) -> inside own (after_crash p) new_entry.
Proof.
  intros (Hsome & Hv & Hj) Hown. split.
  - split; cbn; try done. intros [Hl _]%orb_false_iff. by apply Hv.
  - cbn [p_lost after_crash]. intros [Hl Hh]%orb_false_iff. apply negb_false_iff in Hh. unfold held in Hh.
    destruct Hsome as [Hl'|[Ha|[(s & j & Hb)|(s & j & Hw)]]]; [congruence|by left| |].
    + right; left. exists s, j. split; [done|]. left. cbn. split; [done|]. split; [|done].
      apply Hown. by destruct Hb as (_ & _ & ? & _).
    + destruct Hw as (Hs & Hold & Hjo & Hph & _). rewrite Hs, Hjo in Hh.
      apply orb_true_iff in Hh as [Hh|Hh]; bool_inv; [left; change (secret_of p = Some (p_valid p)); congruence|].
      rewrite Hph in *. done.
Qed.

Lemma inside_after_login own p e v pv : inside own p e -> v ∉ p_old p -> inside own (after_login v pv p) e.
Proof.
  intros [[Gb Gv Gj Gs Gt Go] _] Hv.
  assert (journal_of (after_login v pv p) = journal_of p) as Hj by exact (journal_put_secret (MkCell v pv) p).
  split; [split; rewrite ?Hj; done|]. intros _. left. exact (secret_put_secret (MkCell v pv) p).
Qed.

Lemma inside_after_removal own p e : inside own p e -> inside own (after_removal p) e.
Proof.
  intros [[Gb Gv Gj Gs Gt Go] _].
  assert (journal_of (after_removal p) = journal_of p) as Hj.
  { unfold journal_of, after_removal. cbn [p_store]. by rewrite lookup_delete_ne by (symmetry; apply journal_name_ne). }
  split; [split; rewrite ?Hj; done|]. done.
Qed.

Lemma reachable_Inv own s : reachable own s -> owner_ok own /\ Inv own s.
Proof.
  intros H. induction H as [own p Ho Hc Hold Hj|own s env op n H [Ho HI] Henv|own own' s p H [_ HI] Hp Ho Hown|own s v pv H [Ho HI] Hv|own s H [Ho HI]].
  - split; [done|]. assert (inside own p new_entry) as Hi.
    { split; [split; cbn; try done; [rewrite Hold; by intros _ ?%elem_of_nil|congruence]|]. intros _. by left. }
    split; [done|]. split; [|constructor]. apply Forall_singleton. by eapply inside_crash.
  - split; [done|]. by apply run_op_Inv.
  - split; [done|]. destruct HI as [_ [Hpts Hsnt]]. rewrite Forall_forall in Hpts.
    pose proof (inside_after_crash own' p (Hpts p Hp) Hown) as Hi. split; [done|]. split; [|done].
    apply Forall_app. split; [by apply Forall_forall|]. apply Forall_singleton. by eapply inside_crash.
  - split; [done|]. apply Inv_settle; [|done]. apply inside_after_login; [apply HI|done].
  - split; [done|]. apply Inv_settle; [|done]. apply inside_after_removal, HI.
Qed.
(** ** A healthy outside *)

Section Healthy.
Variable env : outside.
Hypothesis reads_ok : forall n, o_read env n = None.
Hypothesis list_ok : forall n, o_list env n = None.
Hypothesis writes_ok : forall n, o_write env n = Lands.
Hypothesis turn_ok : forall n, o_turn env n = true.
Hypothesis not_canceled : forall n, o_ctx env n = false.
Hypothesis owner_dead : forall n o, o_alive env n o = false.
Variable own : journalOwner.

Lemma wp_reads n (Q : res store_error gostr -> state -> Prop) s :
  Q (match p_store (s_now s) !! n with Some c => Ok (c_value c) | None => Err SNotFound end) s -> wp (read_store env n) Q s.
Proof. intros H. unfold read_store. wp_step. wp_step. rewrite reads_ok. by wp_steps. Qed.

Lemma wp_writes f st (Q : option store_error -> state -> Prop) s :
  f (p_store (s_now s)) = Ok st ->
  Q None (MkState (MkPoint st (p_valid (s_now s)) (p_old (s_now s)) (p_lost (s_now s)))
    (s_points s ++ [MkPoint st (p_valid (s_now s)) (p_old (s_now s)) (p_lost (s_now s))]) (s_sent s) (s_entry s)) ->
  wp (store_write env f) Q s.
Proof. intros Hf H. unfold store_write. wp_steps. rewrite writes_ok, Hf. by wp_steps. Qed.

Lemma wp_canceled c (Q : bool -> state -> Prop) s : Q false s -> wp (canceled env c) Q s.
Proof. intros H. unfold canceled. destruct c; wp_step; [rewrite not_canceled|]; exact H. Qed.

Lemma wp_reads_secret c v (Q : res renew_error gostr -> state -> Prop) s :
  secret_of (s_now s) = Some v -> Q (Ok v) s -> wp (read env name c) Q s.
Proof.
  intros Hv H. unfold read. wp_step. apply wp_canceled. wp_step. apply wp_reads. unfold secret_of in Hv.
  destruct (p_store (s_now s) !! name) as [cl|]; [|done]. injection Hv as <-. by wp_step.
Qed.

Lemma wp_writes_back v x (Q : option store_error -> state -> Prop) s :
  is_Some (secret_of (s_now s)) ->
  (forall c, c_value c = v ->
    Q None (MkState (put_point name c (s_now s)) (s_points s ++ [put_point name c (s_now s)]) (s_sent s) (s_entry s))) ->
  wp (writeBack env annotator name v x) Q s.
Proof.
  intros [u Hu] H. unfold secret_of in Hu. destruct (p_store (s_now s) !! name) as [cl|] eqn:Ec; [|done].
  assert (forall c, put_cell name c true (p_store (s_now s)) = Ok (<[name := c]> (p_store (s_now s)))) as Hput
    by (intros c; unfold put_cell; by rewrite Ec).
  unfold writeBack, provenanceOf. destruct annotator; cbn [negb].
  - wp_steps. rewrite list_ok. wp_steps. rewrite Ec. unfold WriteWithProvenance.
    eapply wp_writes; [apply Hput|]. by apply H.
  - eapply wp_writes; [apply Hput|]. by apply H.
Qed.

(** A new cache reads the journal of a stopped one and finishes its renewal. *)
Lemma wp_recover_journaled p ps ss v j (Q : option renew_error -> state -> Prop) :
  journaled p v j -> j_owner j <> own -> is_ok (match expiry with None => Ok 0 | Some x => x v end) = true ->
  (forall e, e_doc e = Some (p_valid p) -> e_stored e = Some v -> e_journal e = journalRenewed -> e_writeFailedAt e = 0 ->
    Q None (MkState p ps ss e)) ->
  wp (recover env sha256 expiry own name true) Q (MkState p ps ss new_entry).
Proof.
  intros (Hs & Hold & Hj & Hph & Hh & Hd & Hr) Hown Hv HQ.
  assert (readable (j_doc j) = true) as Hr' by (by rewrite Hd). apply readable_ok in Hr' as [Hne Hx].
  assert (forall t, wp (recover_stopped env sha256 expiry name true t (Some j)) Q (MkState p ps ss new_entry)) as Hstopped.
  { intros t. unfold recover_stopped. wp_step. apply (wp_reads_secret _ v); [exact Hs|]. wp_steps. unfold reconcile. wp_steps.
    cbn [is_some new_entry e_doc set_checked set_origin set_adopted set_recovered andb].
    assert (forall x k, wp (settle_journal sha256 expiry (Some j) v) (fun _ s' => Q None s')
      (MkState p ps ss (reset (Some v) x k (set_checked k (set_origin (time_UnixMilli (j_startedAt j)) (j_docHash j) (j_owner j)
        (set_adopted true (set_recovered true 0 0 new_entry))))))) as Hsettle.
    { intros x k. unfold settle_journal. rewrite !bool_decide_true by done. rewrite bool_decide_false by done. cbn [andb negb].
      destruct (match expiry with None => Ok 0 | Some x => x (j_doc j) end); [|done]. wp_steps. apply HQ; cbn; try done. by rewrite Hd. }
    destruct expiry as [x|]; [destruct (x v) as [t'|]; [|done]|]; wp_steps; (eapply wp_mono; [apply Hsettle|]);
      intros [] s' H; by wp_step. }
  unfold recover. wp_step. unfold readJournal. wp_step. apply wp_reads. unfold journal_of in Hj. cbn [s_now].
  destruct (p_store p !! JournalName name) as [c|]; [|done]. wp_step. rewrite Hj. wp_step. wp_step.
  rewrite bool_decide_false by done. destruct (negb (young _ j)); [apply Hstopped|].
  wp_step. wp_step. rewrite owner_dead. apply Hstopped.
Qed.

Lemma wp_due_write (Q : bool -> state -> Prop) s :
  e_writeFailedAt (s_entry s) = 0 -> Q (pending (s_entry s)) s -> wp (writeDue env) Q s.
Proof. intros Hw H. unfold writeDue. wp_steps. rewrite Hw. change (IsZero 0) with true. by destruct (pending (s_entry s)); cbn [negb]; wp_steps. Qed.

(** A turn of the loop whose write lands. *)
Lemma wp_healthy_turn k (Q : unit -> state -> Prop) p ps ss e :
  e_writeFailedAt e = 0 -> pending e = true ->
  (e_journal e <> journalNone -> bytes_equal (e_doc e) (e_stored e) = true -> e_journal e = journalClear) ->
  wp (flush_write env annotator name (e_journal e) e) (fun err s' => err = None /\ s_entry s' = e /\
    wp (flush_loop env annotator name k) Q (MkState (s_now s') (s_points s') (s_sent s') (flush_done (e_journal e) (e_doc e) (set_writeFailed 0 e))))
    (MkState p ps ss e) ->
  wp (flush_loop env annotator name (S k)) Q (MkState p ps ss e).
Proof.
  intros Hw Hp Hcl H. cbn [flush_loop]. wp_step. apply wp_due_write; [done|]. cbn [s_entry]. rewrite Hp. cbn [negb].
  assert ((if negb (bool_decide (e_journal e = journalNone)) && bytes_equal (e_doc e) (e_stored e)
           then set_journal_step journalClear e else e) = e) as He.
  { case_bool_decide as Hn; cbn [negb andb]; [done|]. destruct (bytes_equal _ _) eqn:Eb; [|done].
    specialize (Hcl Hn eq_refl). destruct e. cbn in Hcl. by subst. }
  do 4 (wp_step; cbv beta). cbn [s_now s_points s_sent s_entry]. rewrite He. wp_step. eapply wp_mono; [exact H|].
  intros err s' (-> & Hs' & Hk). wp_steps. by rewrite Hs'.
Qed.

Lemma wp_flush_renewed p ps ss e v c (Q : option renew_error -> state -> Prop) :
  e_doc e = Some (p_valid p) -> e_stored e = Some v -> e_journal e = journalRenewed -> e_writeFailedAt e = 0 ->
  p_valid p <> v -> secret_of p = Some v -> p_store p !! JournalName name = Some c ->
  (forall p' ps' e', secret_of p' = Some (p_valid p) -> p_valid p' = p_valid p -> p_store p' !! JournalName name = None ->
    e_doc e' = Some (p_valid p) -> e_stored e' = Some (p_valid p) -> e_journal e' = journalNone -> Q None (MkState p' ps' ss e')) ->
  wp (flush env annotator expiry name) Q (MkState p ps ss e).
Proof.
  intros Hd Hst Hj Hw Hne Hs Hc HQ.
  assert (bytes_equal (Some (p_valid p)) (Some v) = false) as Hneq.
  { unfold bytes_equal. by rewrite bool_decide_false. }
  unfold flush. wp_step. apply wp_due_write; [done|]. cbn [s_entry].
  assert (pending e = true) as -> by (unfold pending; by rewrite Hj). cbn [negb].
  wp_step. unfold syncRead. wp_step. apply (wp_reads_secret _ v); [done|]. wp_step. unfold reconcile. wp_steps.
  cbn [set_checked e_doc e_stored]. rewrite Hd, Hst. cbn [is_some andb]. unfold bytes_equal at 1. rewrite bool_decide_true by done.
  cbn [orb]. wp_steps.
  unfold flush_fuel. apply wp_healthy_turn; cbn [e_writeFailedAt e_journal e_doc e_stored set_checked set_stored]; rewrite ?Hj, ?Hd; try done.
  { unfold pending. cbn. by rewrite Hj. }
  { intros _ Hb. congruence. }
  apply wp_writes_back; [cbn [s_now]; by rewrite Hs|]. intros cl Hcl. cbn [e_doc set_stored set_checked] in Hcl. rewrite Hd in Hcl. cbn in Hcl.
  split; [done|]. split; [done|]. cbn [s_now s_points s_sent].
  set (p1 := put_point name cl p).
  apply wp_healthy_turn; cbn [flush_done set_stored set_writeFailed set_checked set_journal_step e_writeFailedAt e_journal e_doc e_stored];
    rewrite ?Hj, ?bool_decide_true by done; cbn; try done.
  wp_step. unfold store_delete.
  assert (p_store p1 !! JournalName name = Some c) as Hc1.
  { unfold p1, put_point. cbn [p_store]. by rewrite lookup_insert_ne by (symmetry; apply journal_name_ne). }
  apply (wp_writes _ (delete (JournalName name) (p_store p1))); [cbn [s_now]; by rewrite Hc1|]. wp_step.
  split; [done|]. split; [done|]. cbn [s_now s_points s_sent].
  wp_step. apply wp_due_write; [done|].
  lazymatch goal with |- wp (if negb (pending ?e) then _ else _) _ _ => assert (pending e = false) as -> end.
  { unfold pending. cbn. unfold bytes_equal. by rewrite Hd, !bool_decide_true. }
  cbn [negb]. wp_steps. apply HQ; cbn; try done.
  - unfold secret_of. cbn [p_store]. rewrite lookup_delete_ne by apply journal_name_ne.
    unfold p1, put_point. cbn [p_store]. rewrite lookup_insert_eq. cbn. by rewrite Hcl.
  - by rewrite lookup_delete_eq.
Qed.
End Healthy.
End Safe.

(** ** Properties *)


(** C9: Over any calls of the cache, any failure of the store but a file it reads
    as damaged, calls that land and report failure, crashes at any write, logins
    and removals: at every point where a crash may fall, unless the document
    that the provider takes is lost, it is the secret, or the journal holds it
    next to the document it replaced, or a journal says that a refresh of the
    secret was under way; and in the last case the process that runs holds it in
    memory.  It is lost when the provider spends it and answers with nothing
    usable, when another program removes the secret, and when a crash falls in
    that last case. *)
Theorem pair_kept (sha256 : gostr -> gostr) (annotator : bool) (expiry : option (gostr -> res nat time)) (name : gostr)
    (renewable : bool) (Hsha : Inj (=) (=) sha256) (own : journalOwner) (s : state)
    (H : reachable sha256 annotator expiry name renewable own s) :
  Forall (fun p => p_lost p = true \/ current name p \/ (exists v j, journaled sha256 expiry name p v j) \/
    (exists v j, window sha256 expiry name p v j)) (s_points s) /\
  (p_lost (s_now s) = false ->
     current name (s_now s) \/ (exists v j, journaled sha256 expiry name (s_now s) v j) \/
     (exists v j, window sha256 expiry name (s_now s) v j /\ e_doc (s_entry s) = Some (p_valid (s_now s)))).
Proof.
  destruct (reachable_Inv _ _ _ _ _ _ _ H) as (_ & [_ Hi] & Hp & _). split.
  - eapply Forall_impl; [exact Hp|]. by intros p [? _].
  - intros Hl. destruct (Hi Hl) as [Ha|[(v & j & Hj & _)|(v & j & Hw & _ & _ & Hd & _)]]; [by left|right; left; eauto|right; right; eauto].
Qed.

(** C30: A process that finds the journal of a renewal which was answered and
    not stored puts the renewed document in place: the secret is the document
    that the provider takes, the journal is gone, and no refresh is sent. *)
Theorem recovery_restores (sha256 : gostr -> gostr) (annotator : bool) (expiry : option (gostr -> res nat time)) (name : gostr)
    (Hsha : Inj (=) (=) sha256) (own own' : journalOwner) (s : state) (p : point) (v : gostr) (j : journal) (env : outside) (n : nat)
    (H : reachable sha256 annotator expiry name true own s) (Hp : p ∈ s_points s) (Hl : p_lost p = false)
    (Hj : journaled sha256 expiry name p v j) (Hown : j_owner j <> own')
    (Hv : is_ok (match expiry with None => Ok 0 | Some x => x v end) = true)
    (Hreads : forall n, o_read env n = None) (Hlist : forall n, o_list env n = None) (Hwrites : forall n, o_write env n = Lands)
    (Hturn : forall n, o_turn env n = true) (Hctx : forall n, o_ctx env n = false) (Hdead : forall n o, o_alive env n o = false) :
  let r := Recover env sha256 annotator expiry own' name true (MkWorld n (MkState p [p] (s_sent s) new_entry)) in
  let s' := w_st r.2 in
  r.1 = None /\ secret_of name (s_now s') = Some (p_valid p) /\ p_valid (s_now s') = p_valid p /\
  p_store (s_now s') !! JournalName name = None /\ e_doc (s_entry s') = Some (p_valid p) /\ s_sent s' = s_sent s.
Proof.
  destruct (reachable_Inv _ _ _ _ _ _ _ H) as (_ & _ & Hpts & _). rewrite Forall_forall in Hpts.
  destruct (Hpts p Hp) as (_ & Hold & _). specialize (Hold Hl). clear Hpts H Hp.
  pose proof Hj as (Hs & Hvo & Hjo & _).
  intros r s'. subst r s'.
  enough (G : wp (Recover env sha256 annotator expiry own' name true) (fun r s' => r = None /\
    secret_of name (s_now s') = Some (p_valid p) /\ p_valid (s_now s') = p_valid p /\
    p_store (s_now s') !! JournalName name = None /\ e_doc (s_entry s') = Some (p_valid p) /\ s_sent s' = s_sent s)
    (MkState p [p] (s_sent s) new_entry)) by exact (G n).
  unfold Recover. cbn [negb]. wp_step. wp_step. rewrite Hturn. cbn [negb]. wp_step. unfold unsettledLocked. wp_steps.
  cbn [new_entry e_recovered e_recoverFailedAt negb]. change (IsZero 0) with true. cbn [orb negb].
  wp_step. apply (wp_recover_journaled sha256 expiry name env Hreads Hctx Hdead own' _ _ _ v j); [done..|].
  intros e Hd Hst Hje Hw. unfold journal_of in Hjo. destruct (p_store p !! JournalName name) as [c|] eqn:Ec; [|done].
  apply (wp_flush_renewed annotator expiry name env Hreads Hlist Hwrites Hctx _ _ _ _ v c); [done..| |done|done|].
  { intros E. apply Hold. by rewrite E. }
  intros p' ps' e' H1 H2 H3 H4 _ _. done.
Qed.

(** ** Witnesses *)

Definition example_start : state := MkState example_point [example_point] [] new_entry.
Definition example_end : state :=
  run_op id true (Some example_expiry) (lit "claude") true example_env example_owner OpResolve 0 example_start.
Definition next_owner : journalOwner := MkOwner 43 (lit "12:05") (lit "ffff").
(** The store as a crash after the journal took the answer leaves it. *)
Definition example_crash : point := nth 3 (s_points example_end) example_point.

Lemma example_env_ok : outside_ok example_env.
Proof.
  split; [done|]. intros n. unfold int64, UnixMilli. cbn [example_env o_now].
  assert (0 <= Z.of_nat (n mod 1000) < 1000) by (pose proof (Nat.mod_upper_bound n 1000); lia).
  set (z := Z.of_nat (n mod 1000)) in *. unfold epoch, minute, second. clearbody z. div_lia.
Qed.

Lemma example_reachable : reachable id true (Some example_expiry) (lit "claude") true example_owner example_end.
Proof.
  apply reach_op; [|exact example_env_ok]. apply reach_start; try done.
Qed.


Example pair_kept_witness :
  length (s_points example_end) = 6%nat /\
  Forall (fun p => p_lost p = true \/ current (lit "claude") p \/ (exists v j, journaled id (Some example_expiry) (lit "claude") p v j) \/
    (exists v j, window id (Some example_expiry) (lit "claude") p v j)) (s_points example_end).
Proof. split; [vm_compute; reflexivity|]. exact (proj1 (pair_kept _ _ _ _ _ _ _ _ example_reachable)). Defined.

Definition example_journal : journal :=
  default no_journal (journal_of (lit "claude") example_crash).

Lemma example_journaled : journaled id (Some example_expiry) (lit "claude") example_crash (lit "pair") example_journal.
Proof. repeat split; try (vm_compute; reflexivity). vm_compute. left. Qed.

Example recovery_restores_witness :
  let r := Recover example_env id true (Some example_expiry) next_owner (lit "claude") true
             (MkWorld 7 (MkState example_crash [example_crash] (s_sent example_end) new_entry)) in
  p_valid example_crash = lit "pair'" /\ secret_of (lit "claude") example_crash = Some (lit "pair") /\
  secret_of (lit "claude") (s_now (w_st r.2)) = Some (p_valid example_crash).
Proof.
  split; [vm_compute; reflexivity|]. split; [vm_compute; reflexivity|].
  assert (Hp : example_crash ∈ s_points example_end) by (apply (list_elem_of_lookup_2 _ 3); vm_compute; reflexivity).
  assert (Hl : p_lost example_crash = false) by (vm_compute; reflexivity).
  assert (Hown : j_owner example_journal <> next_owner)
    by (intros E; apply (f_equal ow_pid) in E; vm_compute in E; discriminate E).
  assert (Hv : is_ok (example_expiry (lit "pair")) = true) by (vm_compute; reflexivity).
  exact (proj1 (proj2 (recovery_restores id true (Some example_expiry) (lit "claude") _ example_owner next_owner example_end
    example_crash (lit "pair") example_journal example_env 7 example_reachable Hp Hl example_journaled Hown Hv
    (fun _ => eq_refl) (fun _ => eq_refl) (fun _ => eq_refl) (fun _ => eq_refl) (fun _ => eq_refl) (fun _ _ => eq_refl)))).
Defined.
