(* ===== verification/RouteTypes.v ===== *)
(** * The policy document as data (api/policy/v1alpha1)

    The types of a route and of a policy, with the source's fields.  A pointer
    that may be nil is an [option], a slice whose nil is told apart is a
    [slice], and the typed strings of the package are strings: a decoded
    document can hold any. *)

From stdpp Require Import prelude list strings gmap.
From Stdlib Require Import ZArith Lia ZifyNat Ascii.
From S2P Require Import Prelude GoUnicode GoStrings.

(** ** route.go *)

Definition PresetClaudeCode : gostr := lit "claude-code".
Definition PresetAnthropicAPIKey : gostr := lit "anthropic-api-key".
Definition PresetGitHubToken : gostr := lit "github-token".
Definition PresetAWS : gostr := lit "aws".
Definition PresetGCP : gostr := lit "gcp".

Definition ModeEndpoint : gostr := lit "endpoint".
Definition LifecycleAnthropicOAuth : gostr := lit "anthropic-oauth".

Definition PlaceholderValue : gostr := lit "{value}".
Definition PlaceholderRouteURL : gostr := lit "{route.url}".
Definition PlaceholderSessionToken : gostr := lit "{session.token}".
Definition PlaceholderRouteRegion : gostr := lit "{route.region}".

(** A Go [map[string]string]; [None] is nil. *)
Abbreviation gomap := (option (gmap gostr gostr)) (only parsing).

Record SecretRef := MkSecretRef { sr_name : gostr }.
Record CertificateRef := MkCertificateRef { cr_secretRef : SecretRef }.
Record CredentialRef := MkCredentialRef { cd_secretRef : SecretRef; cd_field : gostr; cd_lifecycle : gostr }.
Record Header := MkHeader { hd_name : gostr; hd_value : gostr }.
Record HeaderAllow := MkHeaderAllow { ha_name : gostr; ha_values : slice gostr }.
Record HeaderInject := MkHeaderInject {
  hi_set : slice Header;
  hi_remove : slice gostr;
  hi_allow : slice HeaderAllow;
}.
Record BasicAuth := MkBasicAuth { ba_username : gostr }.
Record TLSInject := MkTLSInject { ti_clientCertificate : option CertificateRef; ti_ca : option CertificateRef }.
Record Inject := MkInject {
  in_headers : option HeaderInject;
  in_basicAuth : option BasicAuth;
  in_tls : option TLSInject;
}.
Record GitGuest := MkGitGuest { gg_insteadOf : slice gostr }.
Record Guest := MkGuest { gu_env : gomap; gu_git : option GitGuest }.
Record RequestAllow := MkRequestAllow {
  ra_methods : slice gostr;
  ra_paths : slice gostr;
  ra_repos : slice gostr;
}.
Record RequestPolicy := MkRequestPolicy { rp_allow : option RequestAllow }.

(** [Service] is in gcp.go. *)
Record Service := MkService { sv_name : gostr; sv_request : option RequestPolicy }.

Record Route := MkRoute {
  rt_name : gostr;
  rt_preset : gostr;
  rt_mode : gostr;
  rt_upstream : gostr;
  rt_credential : option CredentialRef;
  rt_inject : option Inject;
  rt_guest : option Guest;
  rt_request : option RequestPolicy;
  rt_services : slice Service;
  rt_lifecycleFromPreset : bool;
}.

#[export] Instance SecretRef_eq_dec : EqDecision SecretRef.
Proof. solve_decision. Defined.
#[export] Instance CertificateRef_eq_dec : EqDecision CertificateRef.
Proof. solve_decision. Defined.
#[export] Instance CredentialRef_eq_dec : EqDecision CredentialRef.
Proof. solve_decision. Defined.
#[export] Instance Header_eq_dec : EqDecision Header.
Proof. solve_decision. Defined.
#[export] Instance HeaderAllow_eq_dec : EqDecision HeaderAllow.
Proof. solve_decision. Defined.
#[export] Instance HeaderInject_eq_dec : EqDecision HeaderInject.
Proof. solve_decision. Defined.
#[export] Instance BasicAuth_eq_dec : EqDecision BasicAuth.
Proof. solve_decision. Defined.
#[export] Instance TLSInject_eq_dec : EqDecision TLSInject.
Proof. solve_decision. Defined.
#[export] Instance Inject_eq_dec : EqDecision Inject.
Proof. solve_decision. Defined.
#[export] Instance GitGuest_eq_dec : EqDecision GitGuest.
Proof. solve_decision. Defined.
#[export] Instance Guest_eq_dec : EqDecision Guest.
Proof. solve_decision. Defined.
#[export] Instance RequestAllow_eq_dec : EqDecision RequestAllow.
Proof. solve_decision. Defined.
#[export] Instance RequestPolicy_eq_dec : EqDecision RequestPolicy.
Proof. solve_decision. Defined.
#[export] Instance Service_eq_dec : EqDecision Service.
Proof. solve_decision. Defined.
#[export] Instance Route_eq_dec : EqDecision Route.
Proof. solve_decision. Defined.

Definition empty_credential : CredentialRef := MkCredentialRef (MkSecretRef []) [] [].

Definition Vends (r : Route) : bool := bool_decide (rt_preset r = PresetAWS).

Definition SetLifecycleFromPreset (r : Route) (l : gostr) : Route :=
  let c := default empty_credential (rt_credential r) in
  MkRoute (rt_name r) (rt_preset r) (rt_mode r) (rt_upstream r)
    (Some (MkCredentialRef (cd_secretRef c) (cd_field c) l))
    (rt_inject r) (rt_guest r) (rt_request r) (rt_services r) (negb (bool_decide (l = []))).

(** [Inject.CertificateOnly], which takes a nil [Inject]. *)
Definition CertificateOnly (i : option Inject) : bool :=
  match i with
  | None => false
  | Some i =>
    match in_tls i with
    | None => false
    | Some t =>
      if is_nil (ti_clientCertificate t) then false
      else
        (match in_headers i with None => true | Some h => is_nil (head (elems (hi_set h))) end)
        && is_nil (in_basicAuth i)
    end
  end.

(** [slices.Clone]: nil stays nil, and the copy has the same elements. *)
Definition clone {A} (s : slice A) : slice A :=
  match s with None => None | Some l => Some (foldl (fun out x => out ++ [x]) [] l) end.

(** ** DeepCopy, field by field *)

Definition deepCopy (p : option RequestPolicy) : option RequestPolicy :=
  match p with
  | None => None
  | Some p =>
    Some (MkRequestPolicy
      match rp_allow p with
      | None => None
      | Some a => Some (MkRequestAllow (clone (ra_methods a)) (clone (ra_paths a)) (clone (ra_repos a)))
      end)
  end.

Definition copy_headers (h : HeaderInject) : HeaderInject :=
  MkHeaderInject (clone (hi_set h)) (clone (hi_remove h))
    match hi_allow h with
    | None => None
    | Some l => Some (foldl (fun out a => out ++ [MkHeaderAllow (ha_name a) (clone (ha_values a))]) [] l)
    end.

Definition copy_inject (i : Inject) : Inject :=
  MkInject
    match in_headers i with None => None | Some h => Some (copy_headers h) end
    match in_basicAuth i with None => None | Some b => Some b end
    match in_tls i with
    | None => None
    | Some t =>
      Some (MkTLSInject
        match ti_clientCertificate t with None => None | Some c => Some c end
        match ti_ca t with None => None | Some c => Some c end)
    end.

Definition copy_guest (g : Guest) : Guest :=
  MkGuest
    match gu_env g with
    | None => None
    | Some m => Some (foldl (fun out kv => <[kv.1 := kv.2]> out) ∅ (map_to_list m))
    end
    match gu_git g with None => None | Some gg => Some (MkGitGuest (clone (gg_insteadOf gg))) end.

Definition DeepCopy (r : option Route) : option Route :=
  match r with
  | None => None
  | Some r =>
    Some (MkRoute (rt_name r) (rt_preset r) (rt_mode r) (rt_upstream r)
      match rt_credential r with None => None | Some c => Some c end
      match rt_inject r with None => None | Some i => Some (copy_inject i) end
      match rt_guest r with None => None | Some g => Some (copy_guest g) end
      match rt_request r with None => None | Some p => deepCopy (Some p) end
      match rt_services r with
      | None => None
      | Some l => Some ((fun s => MkService (sv_name s) (deepCopy (sv_request s))) <$> l)
      end
      (rt_lifecycleFromPreset r))
  end.

Lemma clone_id {A} (s : slice A) : clone s = s.
Proof. destruct s as [l|]; [|done]. cbn. f_equal. rewrite (foldl_snoc_map (fun x => x)). apply list_fmap_id. Qed.

Lemma deepCopy_id p : deepCopy p = p.
Proof. destruct p as [[[[]|]]|]; cbn -[clone]; rewrite ?clone_id; done. Qed.

Lemma copy_inject_id i : copy_inject i = i.
Proof.
  destruct i as [h b t]. unfold copy_inject. cbn [in_headers in_basicAuth in_tls]. f_equal.
  - destruct h as [[s r a]|]; [|done]. unfold copy_headers. cbn [hi_set hi_remove hi_allow].
    rewrite !clone_id. do 2 f_equal. destruct a as [l|]; [|done]. rewrite foldl_snoc_map. cbn [app]. f_equal.
    rewrite <- (list_fmap_id l) at 2. apply list_fmap_ext. intros i [n v] _. cbn. by rewrite clone_id.
  - by destruct b.
  - destruct t as [[[c|] [d|]]|]; done.
Qed.

Lemma fold_insert_map (m : gmap gostr gostr) :
  foldl (fun out kv => <[kv.1 := kv.2]> out) (∅ : gmap gostr gostr) (map_to_list m) = m.
Proof.
  rewrite <- (list_to_map_to_list m) at 2.
  assert (forall l (acc : gmap gostr gostr), NoDup (l.*1) ->
    foldl (fun out kv => <[kv.1 := kv.2]> out) acc l = list_to_map l ∪ acc) as H.
  { clear. induction l as [|[k v] l IH]; intros acc Hl; cbn [foldl].
    - symmetry. apply (left_id_L ∅ (∪)).
    - apply NoDup_cons in Hl as [Hk Hl]. rewrite IH by done. cbn [fst snd list_to_map foldr].
      rewrite <- insert_union_r; [by rewrite insert_union_l|]. by apply not_elem_of_list_to_map_1. }
  rewrite H by apply NoDup_fst_map_to_list. by rewrite (right_id_L ∅ (∪)).
Qed.

Lemma copy_guest_id g : copy_guest g = g.
Proof.
  destruct g as [e g]. unfold copy_guest. cbn [gu_env gu_git]. f_equal.
  - destruct e as [m|]; [|done]. f_equal. apply fold_insert_map.
  - destruct g as [[l]|]; [|done]. cbn. by rewrite clone_id.
Qed.

(** [DeepCopy] drops and changes no field of a route, the unexported
    lifecycle mark included, and keeps nil apart from empty. *)
Lemma DeepCopy_eq (r : option Route) : DeepCopy r = r.
Proof.
  destruct r as [[]|]; [|done]. unfold DeepCopy. cbn. f_equal. f_equal.
  - by destruct rt_credential0.
  - destruct rt_inject0; [|done]. by rewrite copy_inject_id.
  - destruct rt_guest0; [|done]. by rewrite copy_guest_id.
  - destruct rt_request0 as [p|]; [|done]. exact (deepCopy_id (Some p)).
  - destruct rt_services0 as [l|]; [|done]. f_equal. rewrite <- (list_fmap_id l) at 2.
    apply list_fmap_ext. intros i [n p] _. cbn. by rewrite deepCopy_id.
Qed.

(** ** gcp.go *)

Definition GCPEndpointOverridePrefix : gostr := lit "CLOUDSDK_API_ENDPOINT_OVERRIDES_".
Definition GCPCACertsVar : gostr := lit "CLOUDSDK_CORE_CUSTOM_CA_CERTS_FILE".

Definition GCPEndpointOverrideName (service : gostr) : gostr :=
  GCPEndpointOverridePrefix ++ to_upper service.

Definition GCPGuestVars (services : list Service) : list gostr :=
  (GCPEndpointOverrideName ∘ sv_name <$> services) ++ [GCPCACertsVar].

Definition gcpServicePaths : list (gostr * gostr) :=
  [(lit "storage", lit "storage/v1/"); (lit "cloudresourcemanager", []); (lit "compute", lit "compute/v1/");
   (lit "logging", []); (lit "iam", [])].

Definition GCPServicePath (name : gostr) : option gostr :=
  snd <$> List.find (fun p => bool_decide (p.1 = name)) gcpServicePaths.

Definition GCPServiceNames : list gostr := sort_strings (fst <$> gcpServicePaths).

(** ** types.go *)

Definition APIVersion : gostr := lit "brig.sh/v1alpha1".
Definition Kind : gostr := lit "Policy".

Record Rule := MkRule { ru_host : gostr; ru_cidr : gostr }.

Definition EgressAllow : gostr := lit "allow".
Definition EgressDeny : gostr := lit "deny".

Record Egress := MkEgress { eg_default : gostr; eg_allow : slice Rule; eg_deny : slice Rule }.

Record ObjectMeta := MkObjectMeta {
  om_name : gostr;
  om_description : gostr;
  om_labels : gomap;
  om_annotations : gomap;
}.

Record PolicySpec := MkPolicySpec { ps_egress : option Egress; ps_routes : slice Route }.

Record Policy := MkPolicy {
  po_apiVersion : gostr;
  po_kind : gostr;
  po_metadata : ObjectMeta;
  po_spec : PolicySpec;
}.

#[export] Instance Rule_eq_dec : EqDecision Rule.
Proof. solve_decision. Defined.
#[export] Instance Egress_eq_dec : EqDecision Egress.
Proof. solve_decision. Defined.
