(* ===== verification/GoHttp.v ===== *)
(** * [net/http] headers

    A header is a map from names to values; the methods that take a name look
    it up in its canonical form, and the program also writes keys of its own
    choice. *)

From stdpp Require Import prelude list strings gmap.
From Stdlib Require Import ZArith Lia ZifyNat Ascii.
From S2P Require Import Prelude GoUnicode GoStrings.

Abbreviation header := (gmap gostr (list gostr)) (only parsing).

(** The bytes of an HTTP token. *)
Definition token_byte (c : byte) : bool :=
  in_range 97 122 (bz c) || in_range 65 90 (bz c) || in_range 48 57 (bz c)
  || existsb (Ascii.eqb c) (lit "!#$%&'*+-.^_`|~").

Definition upper_byte (c : byte) : byte := if in_range 97 122 (bz c) then zb (bz c - 32) else c.

Fixpoint canonical_bytes (upper : bool) (s : gostr) : gostr :=
  match s with
  | [] => []
  | c :: s' => (if upper then upper_byte c else lower_byte c) :: canonical_bytes (Ascii.eqb c "-") s'
  end.

(** [http.CanonicalHeaderKey]: a name with a byte that no token has stays as it
    is. *)
Definition CanonicalHeaderKey (s : gostr) : gostr :=
  if forallb token_byte s then canonical_bytes true s else s.

Definition h_values (h : header) (name : gostr) : list gostr := default [] (h !! CanonicalHeaderKey name).
Definition h_get (h : header) (name : gostr) : gostr := default [] (head (h_values h name)).
Definition h_set (h : header) (name value : gostr) : header := <[CanonicalHeaderKey name := [value]]> h.
Definition h_del (h : header) (name : gostr) : header := delete (CanonicalHeaderKey name) h.

(** The names of a header in order. *)
Definition h_names (h : header) : list gostr := sort_strings (fst <$> map_to_list h).

Lemma elem_of_h_names h name : name ∈ h_names h <-> is_Some (h !! name).
Proof.
  unfold h_names. rewrite sort_strings_perm, list_elem_of_fmap. split.
  - intros ([k v] & -> & Hk%elem_of_map_to_list). eauto.
  - intros [v Hv]. exists (name, v). split; [done|]. by apply elem_of_map_to_list.
Qed.

Lemma canonical_byte_idem (b : bool) c :
  token_byte c = true ->
  let d := if b then upper_byte c else lower_byte c in
  token_byte d = true /\ (if b then upper_byte d else lower_byte d) = d /\ Ascii.eqb d "-" = Ascii.eqb c "-".
Proof.
  destruct c as [[] [] [] [] [] [] [] []]; intros H; try discriminate H; destruct b; vm_compute; auto.
Qed.

Lemma CanonicalHeaderKey_idem s : CanonicalHeaderKey (CanonicalHeaderKey s) = CanonicalHeaderKey s.
Proof.
  unfold CanonicalHeaderKey. destruct (forallb token_byte s) eqn:E; [|by rewrite E].
  assert (forall b, forallb token_byte (canonical_bytes b s) = true /\
    canonical_bytes b (canonical_bytes b s) = canonical_bytes b s) as H.
  { induction s as [|c s IH]; intros b; [done|]. cbn [forallb] in E. bool_inv. cbn [canonical_bytes forallb].
    destruct (canonical_byte_idem b c) as (H1 & H2 & H3); [done|].
    destruct (IH H0 (Ascii.eqb c "-")) as [H4 H5]. rewrite H1, H2, H3, H4, H5. done. }
  destruct (H true) as [-> ->]. done.
Qed.

Lemma h_get_set h name value : h_get (h_set h name value) name = value.
Proof. unfold h_get, h_values, h_set. by rewrite lookup_insert_eq. Qed.
