(* ===== verification/Redact.v ===== *)
(** * Redaction of responses (internal/broker/redact.go)

    The redactor replaces the injected strings in a response body as it
    streams.  The theorem of the file: whatever the pieces the upstream sends
    and the sizes the client reads, no injected string is in what the client
    got. *)

From stdpp Require Import prelude list strings gmap sorting.
From Stdlib Require Import ZArith Lia ZifyNat Ascii.
From S2P Require Import Prelude GoUnicode GoStrings GoHttp.

Definition redacted : gostr := lit "[redacted]".

(** ** Headers *)

Definition holdsAny (s : gostr) (secrets : list gostr) : bool := existsb (contains s) secrets.

(** The trimmed codings of the [Content-Encoding] headers. *)
Definition codings (h : header) : list gostr :=
  h_values h (lit "Content-Encoding") ≫= fun v => trim_space <$> split_byte ","%char v.

(** [encoded]; [has_body] is false for a nil body and for [NoBody]. *)
Definition encoded (has_body : bool) (h : header) : bool :=
  has_body && existsb (fun c => negb (bool_decide (c = [])) && negb (equal_fold c (lit "identity"))) (codings h).

Definition drop_holding (secrets : list gostr) (h : header) : header :=
  filter (fun kv => existsb (fun v => holdsAny v secrets) kv.2 = false) h.

Definition response_headers (secrets : list gostr) (h : header) : header :=
  h_del (drop_holding secrets (h_del h (lit "Set-Cookie"))) (lit "Content-Length").

(** ** The redactor *)

(** What the body's [Read] answers: the bytes, and whether an error came with
    them.  Past the end of the list it answers an error and no bytes. *)
Definition source := list (gostr * bool).

Record redactor := MkRedactor {
  rd_src : source;
  rd_secrets : list gostr;
  rd_held : gostr;
  rd_out : gostr;
  rd_err : bool;
}.

Definition longer (a b : gostr) : Prop := (length b <= length a)%nat.

#[export] Instance longer_dec : RelDecision longer.
Proof. intros a b. unfold longer. apply _. Defined.

Definition newRedactor (src : source) (secrets : list gostr) : redactor :=
  MkRedactor src (merge_sort longer (filter (fun s => s <> []) secrets)) [] [] false.

(** The inner loop of [startOfSecret], from [k] down to [longest]. *)
Fixpoint start_loop (k : nat) (longest : nat) (s data : gostr) : nat :=
  match k with
  | O => longest
  | S k' =>
    if (longest <? k)%nat then
      if has_prefix s (drop (length data - k) data) then k else start_loop k' longest s data
    else longest
  end.

Definition startOfSecret (secrets : list gostr) (data : gostr) : nat :=
  foldl (fun longest s => start_loop (Nat.min (length s - 1) (length data)) longest s data) 0%nat secrets.

Definition replace_secrets (secrets : list gostr) (data : gostr) : gostr :=
  foldl (fun data s => replace_all s redacted data) data secrets.

(** One turn of [Read]'s loop. *)
Definition read_turn (r : redactor) : redactor :=
  let '(chunk, err, src) :=
    match rd_src r with (c, e) :: t => (c, e, t) | [] => ([], true, []) end in
  let data := replace_secrets (rd_secrets r) (rd_held r ++ chunk) in
  if (err : bool) then MkRedactor src (rd_secrets r) [] data true
  else
    let keep := startOfSecret (rd_secrets r) data in
    MkRedactor src (rd_secrets r) (drop (length data - keep) data) (take (length data - keep) data) false.

Fixpoint fill (fuel : nat) (r : redactor) : redactor :=
  match fuel with
  | O => r
  | S k =>
    if bool_decide (rd_out r = []) && negb (rd_err r) then fill k (read_turn r) else r
  end.

(** [Read] into a buffer of [n] bytes: the bytes, whether the error is
    returned, and the redactor.  Each turn takes an answer of the source, or
    its last error, so one turn more than it has answers is enough. *)
Definition Read (n : nat) (r : redactor) : gostr * bool * redactor :=
  let r := fill (S (length (rd_src r))) r in
  if bool_decide (rd_out r = []) && rd_err r then ([], true, r)
  else (take n (rd_out r), false,
        MkRedactor (rd_src r) (rd_secrets r) (rd_held r) (drop n (rd_out r)) (rd_err r)).

(** [Close] drops the trailers that hold a secret. *)
Definition Close_trailers (r : redactor) (trailer : header) : header := drop_holding (rd_secrets r) trailer.

(** A sequence of reads, with what each returned. *)
Fixpoint read_many (sizes : list nat) (r : redactor) : gostr * redactor :=
  match sizes with
  | [] => ([], r)
  | n :: sizes' =>
    let '(b, _, r') := Read n r in
    let '(bs, r'') := read_many sizes' r' in (b ++ bs, r'')
  end.

(** ** Replacement *)

Definition open_bracket : byte := "["%char.
Definition close_bracket : byte := "]"%char.

(** A string that the replacement itself neither holds nor can complete. *)
Definition plain_secret (s : gostr) : Prop :=
  s <> [] /\ open_bracket ∉ s /\ close_bracket ∉ s /\ ~ occurs s (lit "redacted").

#[export] Instance plain_secret_dec s : Decision (plain_secret s).
Proof. unfold plain_secret. apply _. Defined.

(** An occurrence in text with a replacement in front is before or after it. *)
Lemma occurs_redacted w a b :
  plain_secret w -> occurs w (a ++ redacted ++ b) -> occurs w a \/ occurs w b.
Proof.
  intros (Hne & Ho & Hc & Hr) H. unfold redacted in H.
  change (lit "[redacted]") with (open_bracket :: lit "redacted" ++ [close_bracket]) in H.
  cbn [app] in H. apply (occurs_split open_bracket) in H; [|done|done].
  destruct H as [H|H]; [by left|]. rewrite <- app_assoc in H. cbn [app] in H.
  apply (occurs_split close_bracket) in H; [|done|done]. destruct H as [H|H]; [done|by right].
Qed.

(** Induction along the text that [replace_all] walks. *)
Lemma replace_all_ind (s new : gostr) (P : gostr -> gostr -> Prop) :
  s <> [] -> P [] [] ->
  (forall r, P r (replace_all s new r) -> P (s ++ r) (new ++ replace_all s new r)) ->
  (forall c t, ~ (exists r, c :: t = s ++ r) -> P t (replace_all s new t) -> P (c :: t) (c :: replace_all s new t)) ->
  forall d, P d (replace_all s new d).
Proof.
  intros Hs H0 Hhit Hmiss d. remember (length d) as n eqn:En. revert d En.
  induction n as [n IH] using lt_wf_ind. intros d ->. destruct d as [|c t].
  - by rewrite replace_all_nil.
  - destruct (strip_prefix s (c :: t)) as [r|] eqn:E.
    + apply strip_prefix_Some in E. rewrite E. rewrite replace_all_hit by done. apply Hhit.
      apply (IH (length r)); [|done]. apply (f_equal length) in E. rewrite length_app in E.
      destruct s; [done|]. cbn [length] in *. lia.
    + assert (~ exists r, c :: t = s ++ r) as Hn.
      { intros [r Hr]. apply strip_prefix_Some in Hr. congruence. }
      rewrite replace_all_miss by done. apply Hmiss; [done|].
      apply (IH (length t)); [cbn; lia|done].
Qed.

(** [occurs] on the left of a replacement and inside it. *)
Lemma replace_all_occurs s w u d :
  s <> [] -> plain_secret w ->
  occurs w (u ++ replace_all s redacted d) -> occurs w (u ++ d).
Proof.
  intros Hs Hw. revert u. apply (replace_all_ind s redacted (fun d d' => forall u, occurs w (u ++ d') -> occurs w (u ++ d)));
    [done | done | |].
  - intros r IH u [H|H]%occurs_redacted; [by apply occurs_app_l| |done].
    apply occurs_app_r, occurs_app_r. by apply (IH []).
  - intros c t _ IH u H. change (c :: ?x) with ([c] ++ x) in *. rewrite app_assoc in *. by apply IH.
Qed.

(** What is left of a bracket-free prefix of the result was there before. *)
Lemma replace_all_prefix s p x d :
  s <> [] -> open_bracket ∉ p -> replace_all s redacted d = p ++ x -> exists y, d = p ++ y.
Proof.
  intros Hs. revert p x.
  apply (replace_all_ind s redacted (fun d d' => forall p x, open_bracket ∉ p -> d' = p ++ x -> exists y, d = p ++ y)); [done| | |].
  - intros p x _ H. symmetry in H. apply app_eq_nil in H as [-> _]. by exists [].
  - intros r _ p x Hp H. destruct p as [|c p]; [eauto|]. injection H as <- _. exfalso. apply Hp. constructor.
  - intros c t _ IH p x Hp H. destruct p as [|e p]; [eauto|]. injection H as <- H.
    apply not_elem_of_cons in Hp as [_ Hp]. destruct (IH p x Hp H) as [y ->]. by exists y.
Qed.

Lemma replace_all_clear s d : plain_secret s -> ~ occurs s (replace_all s redacted d).
Proof.
  intros Hp. pose proof Hp as (Hne & Ho & _).
  apply (replace_all_ind s redacted (fun d d' => ~ occurs s d')); [done| | |].
  - intros H%occurs_nil. done.
  - intros r IH H. change (redacted ++ ?x) with ([] ++ redacted ++ x) in H.
    apply occurs_redacted in H as [H%occurs_nil|H]; done.
  - intros c t Hmiss IH (a & b & H). destruct a as [|e a].
    + apply Hmiss. cbn [app] in H.
      destruct s as [|c' s]; [done|]. injection H as <- H.
      apply not_elem_of_cons in Ho as [_ Ho].
      destruct (replace_all_prefix (c :: s) s b t ltac:(done) Ho H) as [y ->]. by exists y.
    + injection H as <- H. apply IH. by exists a, b.
Qed.

Lemma replace_all_absent s d : s <> [] -> ~ occurs s d -> replace_all s redacted d = d.
Proof.
  intros Hs. apply (replace_all_ind s redacted (fun d d' => ~ occurs s d -> d' = d)); [done|done| |].
  - intros r _ H. exfalso. apply H. by exists [], r.
  - intros c t _ IH H. f_equal. apply IH. intros Ho. apply H.
    change (c :: t) with ([c] ++ t). by apply occurs_app_r.
Qed.

(** ** All the secrets *)

Section Secrets.
Context (secrets : list gostr) (Hplain : Forall plain_secret secrets).

Lemma replace_secrets_occurs w u d :
  plain_secret w -> occurs w (u ++ replace_secrets secrets d) -> occurs w (u ++ d).
Proof using Hplain.
  intros Hw. unfold replace_secrets. revert d. pose proof Hplain as Hall; clear Hplain; induction Hall as [|s l Hs Hl IH]; intros d; [done|].
  cbn [foldl]. intros H%IH. eapply replace_all_occurs; [|done|done]. apply Hs.
Qed.

Lemma replace_secrets_prefix p x d :
  open_bracket ∉ p -> replace_secrets secrets d = p ++ x -> exists y, d = p ++ y.
Proof using Hplain.
  intros Hp. unfold replace_secrets. revert d x. pose proof Hplain as Hall; clear Hplain; induction Hall as [|s l Hs Hl IH]; intros d x; cbn [foldl].
  - eauto.
  - intros H. destruct (IH _ _ H) as [y Hy]. eapply replace_all_prefix; [apply Hs|done|done].
Qed.

Lemma replace_secrets_clear w d : w ∈ secrets -> ~ occurs w (replace_secrets secrets d).
Proof using Hplain.
  unfold replace_secrets. revert d. pose proof Hplain as Hall; clear Hplain; induction Hall as [|s l Hs Hl IH]; intros d.
  - by intros ?%not_elem_of_nil.
  - cbn [foldl]. intros [->|Hw]%elem_of_cons; [|by apply IH].
    intros H. apply (replace_all_clear s d Hs).
    assert (forall l d, Forall plain_secret l ->
      occurs s (foldl (fun data x => replace_all x redacted data) d l) -> occurs s d) as Hf; [|by eapply Hf].
    clear -Hs. induction l as [|x l IH]; intros d Hl; [done|]. cbn [foldl].
    apply Forall_cons in Hl as [Hx Hl]. intros H%IH; [|done].
    apply (replace_all_occurs x s [] d); [apply Hx|done|done].
Qed.

Lemma replace_secrets_absent d :
  (forall w, w ∈ secrets -> ~ occurs w d) -> replace_secrets secrets d = d.
Proof using Hplain.
  unfold replace_secrets. pose proof Hplain as Hall; clear Hplain; induction Hall as [|s l Hs Hl IH]; [done|]. cbn [foldl]. intros H.
  rewrite replace_all_absent; [apply IH; intros w Hw; apply H; by constructor|apply Hs|apply H; constructor].
Qed.

Lemma replace_secrets_no_bracket d :
  open_bracket ∉ replace_secrets secrets d -> replace_secrets secrets d = d.
Proof using Hplain.
  unfold replace_secrets. revert d. pose proof Hplain as Hall; clear Hplain.
  induction Hall as [|s l Hs Hl IH]; intros d; [done|]. cbn [foldl]. intros H.
  rewrite IH in * by done. revert H.
  apply (replace_all_ind s redacted (fun d d' => open_bracket ∉ d' -> d' = d)); [apply Hs|done| |].
  - intros r _ H. exfalso. apply H. rewrite elem_of_app. left. constructor.
  - intros c t _ IHt [_ H]%not_elem_of_cons. f_equal. by apply IHt.
Qed.

(** [startOfSecret] is the longest end of the data that is a proper prefix of
    a secret. *)
Definition is_start (k : nat) (data : gostr) : Prop :=
  (k <= length data)%nat /\ exists s t, s ∈ secrets /\ t <> [] /\ s = drop (length data - k) data ++ t.

Lemma start_loop_spec s data k l :
  (k <= length data)%nat -> (k <= length s - 1)%nat -> s <> [] ->
  let r := start_loop k l s data in
  (l <= r)%nat /\ (r = l \/ (r <= k)%nat /\ exists t, t <> [] /\ s = drop (length data - r) data ++ t) /\
  forall j t, (j <= k)%nat -> t <> [] -> s = drop (length data - j) data ++ t -> (j <= r)%nat.
Proof.
  intros Hk Hs Hne. cbn zeta. induction k as [|k IH]; cbn [start_loop].
  - split_and!; [lia|by left|]. intros j t Hj. lia.
  - destruct (Nat.ltb_spec l (S k)) as [Hlt|Hge].
    2:{ split_and!; [lia|by left|]. intros j t Hj. lia. }
    destruct (has_prefix s (drop (length data - S k) data)) eqn:E.
    + apply has_prefix_true in E as [t Ht]. split_and!; [lia| |lia].
      right. split; [lia|]. exists t. split; [|done]. intros ->. rewrite app_nil_r in Ht.
      apply (f_equal length) in Ht. rewrite length_drop in Ht. lia.
    + destruct (IH ltac:(lia) ltac:(lia)) as (H1 & H2 & H3). split_and!; [done| |].
      * destruct H2 as [H2|[H2 H2']]; [by left|right; split; [lia|done]].
      * intros j t Hj Ht Hst. destruct (Nat.eq_dec j (S k)) as [->|]; [|by eapply (H3 j t); [lia| |]].
        exfalso. assert (has_prefix s (drop (length data - S k) data) = true); [|congruence].
        apply has_prefix_true. eauto.
Qed.

Lemma startOfSecret_spec data :
  is_start (startOfSecret secrets data) data \/ startOfSecret secrets data = 0%nat.
Proof using Hplain.
  unfold startOfSecret, is_start.
  assert (forall l acc, Forall plain_secret l -> (forall s, s ∈ l -> s ∈ secrets) ->
    (is_start acc data \/ acc = 0%nat) ->
    let r := foldl (fun longest s => start_loop (Nat.min (length s - 1) (length data)) longest s data) acc l in
    is_start r data \/ r = 0%nat) as H; [|by apply (H secrets 0%nat Hplain); auto].
  induction l as [|s l IH]; intros acc Hl Hin Hacc; [done|]. cbn [foldl]. cbn zeta in *.
  apply Forall_cons in Hl as [Hs Hl].
  destruct (start_loop_spec s data (Nat.min (length s - 1) (length data)) acc) as (_ & Hr & _);
    [lia|lia|apply Hs|].
  apply IH; [done|intros; apply Hin; by constructor|].
  destruct Hr as [->|(Hr & t & Ht & Hst)]; [done|]. left. split; [lia|].
  exists s, t. split_and!; [apply Hin; constructor|done|done].
Qed.

Lemma startOfSecret_max data j s t :
  s ∈ secrets -> t <> [] -> (j <= length data)%nat -> s = drop (length data - j) data ++ t ->
  (j <= startOfSecret secrets data)%nat.
Proof using Hplain.
  intros Hin Ht Hj Hst. unfold startOfSecret.
  assert (forall l acc, Forall plain_secret l ->
    let r := foldl (fun longest s => start_loop (Nat.min (length s - 1) (length data)) longest s data) acc l in
    (acc <= r)%nat /\ (s ∈ l -> (j <= r)%nat)) as H; [|by apply (H secrets 0%nat Hplain)].
  induction l as [|x l IH]; intros acc Hl; cbn zeta in *.
  - split; [done|by intros ?%not_elem_of_nil].
  - cbn [foldl]. apply Forall_cons in Hl as [Hx Hl].
    destruct (start_loop_spec x data (Nat.min (length x - 1) (length data)) acc) as (H1 & _ & H3);
      [lia|lia|apply Hx|].
    destruct (IH (start_loop (Nat.min (length x - 1) (length data)) acc x data) Hl) as [H4 H5].
    split; [lia|]. intros [->|Hs]%elem_of_cons; [|by apply H5].
    etransitivity; [|exact H4]. apply (H3 j t); [|done|done].
    pose proof (f_equal length Hst) as Hlen. rewrite length_app, length_drop in Hlen.
    destruct t; [done|]. cbn [length] in Hlen. lia.
Qed.
End Secrets.

(** ** The stream *)

Section Stream.
Context (secrets : list gostr) (Hplain : Forall plain_secret secrets).

Definition clear (b : gostr) : Prop := forall w, w ∈ secrets -> ~ occurs w b.

(** [e] is what was sent and [h] what is held back: together they hold no
    secret, and every end of them that starts one is held. *)
Definition held_inv (e h : gostr) : Prop :=
  clear (e ++ h) /\
  forall w x y t, w ∈ secrets -> e ++ h = x ++ y -> w = y ++ t -> t <> [] -> (length y <= length h)%nat.

Lemma held_inv_nil : held_inv [] [].
Proof using Hplain.
  split.
  - intros w Hw Ho%occurs_nil. subst w. rewrite Forall_forall in Hplain. by destruct (Hplain _ Hw) as [? _].
  - intros w x y t _ H _ _. symmetry in H. apply app_eq_nil in H as [_ ->]. cbn. lia.
Qed.

(** A text that ends in [e] and starts a secret reaches no further than [h]. *)
Lemma held_inv_straddle e h n w x1 x2 z b :
  held_inv e h -> w ∈ secrets -> e = z ++ x1 -> x1 <> [] -> w = x1 ++ x2 -> x2 <> [] ->
  replace_secrets secrets (h ++ n) = x2 ++ b -> False.
Proof using Hplain.
  intros [Hclear Hmax] Hw -> Hx1 -> Hx2 HD.
  assert (open_bracket ∉ x2) as Hbr.
  { rewrite Forall_forall in Hplain. destruct (Hplain _ Hw) as (_ & Ho & _).
    rewrite not_elem_of_app in Ho. tauto. }
  destruct (replace_secrets_prefix secrets Hplain x2 b (h ++ n) Hbr HD) as [y Hy].
  apply app_eq_inv in Hy as [(k & -> & Hk)|(k & -> & Hk)].
  - apply (Hclear _ Hw). exists z, k. by rewrite <- !app_assoc.
  - destruct k as [|c k].
    + rewrite app_nil_r in *. apply (Hclear _ Hw). exists z, []. by rewrite <- app_assoc, app_nil_r.
    + pose proof (Hmax (x1 ++ h ++ c :: k) z (x1 ++ h) (c :: k) Hw) as H.
      rewrite <- !app_assoc in H. specialize (H eq_refl eq_refl ltac:(done)).
      rewrite length_app in H. destruct x1; [done|]. cbn in H. lia.
Qed.

Lemma turn_clear e h n : held_inv e h -> clear (e ++ replace_secrets secrets (h ++ n)).
Proof using Hplain.
  intros Hinv w Hw (a & b & H). set (D := replace_secrets secrets (h ++ n)) in *.
  assert (w <> []) as Hne by (rewrite Forall_forall in Hplain; apply (Hplain _ Hw)).
  apply app_eq_inv in H as [(k & He & H)|(k & -> & H)].
  - apply app_eq_inv in H as [(x2 & -> & H)|(x2 & -> & H)].
    + destruct k as [|c k].
      * cbn in *. apply (replace_secrets_clear secrets Hplain x2 (h ++ n) Hw). exists [], b. done.
      * destruct x2 as [|d x2].
        -- rewrite app_nil_r in *. destruct Hinv as [Hclear _]. apply (Hclear _ Hw).
           apply occurs_app_l. exists a, []. by rewrite app_nil_r.
        -- by apply (held_inv_straddle e h n _ (c :: k) (d :: x2) a b Hinv Hw He).
    + destruct Hinv as [Hclear _]. apply (Hclear _ Hw). apply occurs_app_l. by exists a, x2.
  - apply (replace_secrets_clear secrets Hplain w (h ++ n) Hw). by exists k, b.
Qed.

Lemma turn_inv e h n :
  held_inv e h ->
  let d := replace_secrets secrets (h ++ n) in
  let keep := startOfSecret secrets d in
  held_inv (e ++ take (length d - keep) d) (drop (length d - keep) d).
Proof using Hplain.
  intros Hinv. cbn zeta. set (D := replace_secrets secrets (h ++ n)).
  set (keep := startOfSecret secrets D).
  assert (keep <= length D)%nat as Hkeep.
  { destruct (startOfSecret_spec secrets Hplain D) as [[H _]|H]; fold keep in H; lia. }
  split.
  - rewrite <- app_assoc, take_drop. by apply turn_clear.
  - intros w x y t Hw Heq Hwy Ht. rewrite <- app_assoc, take_drop in Heq.
    rewrite length_drop. replace (length D - (length D - keep))%nat with keep by lia.
    apply app_eq_inv in Heq as [(k & He & Hy)|(k & Hx & Hy)].
    + destruct k as [|c k].
      * cbn in Hy. subst y. apply (startOfSecret_max secrets Hplain D (length D) w t); [done|done|done|].
        rewrite Nat.sub_diag. done.
      * exfalso. assert (D = h ++ n) as HD.
        { apply (replace_secrets_no_bracket secrets Hplain). fold D. rewrite Forall_forall in Hplain.
          destruct (Hplain _ Hw) as (_ & Ho & _). rewrite Hwy, Hy, !not_elem_of_app in Ho. apply Ho. }
        destruct Hinv as [_ Hmax]. pose proof (Hmax w x ((c :: k) ++ h) (n ++ t) Hw) as H.
        rewrite He, <- app_assoc in H. specialize (H eq_refl).
        rewrite Hwy, Hy, HD, <- !app_assoc in H. specialize (H eq_refl).
        rewrite length_app in H. cbn [length] in H. apply (Nat.nle_succ_diag_l (length h)).
        etransitivity; [|apply H]; [lia|]. by intros [_ ?]%app_eq_nil.
    + apply (startOfSecret_max secrets Hplain D (length y) w t); [done|done| |].
      * rewrite Hy, length_app. lia.
      * rewrite Hwy. f_equal. rewrite Hy, length_app.
        replace (length k + length y - length y)%nat with (length k) by lia.
        by rewrite drop_app_length.
Qed.
End Stream.

(** ** Reading *)

(** What the source holds up to its first error. *)
Fixpoint body (src : source) : gostr :=
  match src with
  | [] => []
  | (c, true) :: _ => c
  | (c, false) :: src' => c ++ body src'
  end.

Section Reading.
Context (secrets : list gostr) (Hplain : Forall plain_secret secrets).

(** The invariant of a redactor that delivered [sent]. *)
Definition reader_inv (sent : gostr) (r : redactor) : Prop :=
  rd_secrets r = secrets /\
  if rd_err r then clear secrets (sent ++ rd_out r) else held_inv secrets (sent ++ rd_out r) (rd_held r).

Lemma read_turn_inv sent r :
  rd_out r = [] -> rd_err r = false -> reader_inv sent r -> reader_inv sent (read_turn r).
Proof using Hplain.
  intros Ho He [Hs Hinv]. rewrite Ho, He, app_nil_r in Hinv. unfold read_turn. rewrite Hs.
  set (p := match rd_src r with (c, e) :: t => _ | [] => _ end). destruct p as [[chunk err] src].
  split; [by destruct err|]. destruct err; cbn [rd_err rd_out rd_held].
  - by apply turn_clear.
  - by apply turn_inv.
Qed.

Lemma fill_inv fuel sent r : reader_inv sent r -> reader_inv sent (fill fuel r).
Proof using Hplain.
  revert r. induction fuel as [|k IH]; intros r Hr; [done|]. cbn [fill].
  destruct (bool_decide (rd_out r = []) && negb (rd_err r)) eqn:E; [|done]. bool_inv.
  apply IH. by apply read_turn_inv.
Qed.

Lemma Read_inv n sent r b e r' :
  reader_inv sent r -> Read n r = (b, e, r') -> reader_inv (sent ++ b) r'.
Proof using Hplain.
  intros Hr. unfold Read. pose proof (fill_inv (S (length (rd_src r))) sent r Hr) as Hf.
  set (f := fill _ r) in *. destruct (bool_decide (rd_out f = []) && rd_err f).
  - intros [= <- _ <-]. by rewrite app_nil_r.
  - intros [= <- _ <-]. destruct Hf as [Hs Hf]. split; [done|]. cbn [rd_err rd_out rd_held].
    by rewrite <- app_assoc, take_drop.
Qed.

Lemma read_many_inv sizes sent r b r' :
  reader_inv sent r -> read_many sizes r = (b, r') -> reader_inv (sent ++ b) r'.
Proof using Hplain.
  revert sent r b. induction sizes as [|n sizes IH]; intros sent r b Hr; cbn [read_many].
  - intros [= <- <-]. by rewrite app_nil_r.
  - destruct (Read n r) as [[x e] r1] eqn:E. destruct (read_many sizes r1) as [y r2] eqn:E2.
    intros [= <- <-]. rewrite app_assoc. eapply IH; [|done]. by eapply Read_inv.
Qed.

Lemma reader_inv_clear sent r : reader_inv sent r -> clear secrets sent.
Proof.
  intros [_ H] w Hw Ho. destruct (rd_err r).
  - apply (H w Hw). by apply occurs_app_l.
  - destruct H as [H _]. apply (H w Hw). by do 2 apply occurs_app_l.
Qed.

(** A redactor that has not changed a byte of [whole]. *)
Definition same_inv (whole sent : gostr) (r : redactor) : Prop :=
  rd_secrets r = secrets /\
  if rd_err r then sent ++ rd_out r = whole
  else sent ++ rd_out r ++ rd_held r ++ body (rd_src r) = whole.

Lemma read_turn_same whole sent r :
  clear secrets whole -> rd_out r = [] -> rd_err r = false ->
  same_inv whole sent r -> same_inv whole sent (read_turn r).
Proof using Hplain.
  intros Hc Ho He [Hs Hinv]. rewrite Ho, He in Hinv. cbn [app] in Hinv. unfold read_turn. rewrite Hs.
  assert (forall c t, sent ++ (rd_held r ++ c) ++ t = whole ->
    replace_secrets secrets (rd_held r ++ c) = rd_held r ++ c) as Hrep.
  { intros c t Hw. apply replace_secrets_absent; [done|]. intros w Hin Hocc. apply (Hc w Hin).
    rewrite <- Hw. by apply occurs_app_r, occurs_app_l. }
  destruct (rd_src r) as [|[c [|]] t]; cbn [body] in Hinv; split; try done; cbn [rd_err rd_out rd_held rd_src].
  - rewrite (Hrep [] []); [by rewrite app_nil_r in *|]. by rewrite !app_nil_r in *.
  - rewrite (Hrep c []); [done|]. by rewrite app_nil_r.
  - rewrite (Hrep c (body t)); [|by rewrite <- app_assoc].
    rewrite (app_assoc (take _ _)), take_drop. by rewrite <- app_assoc.
Qed.

Lemma fill_same fuel whole sent r :
  clear secrets whole -> same_inv whole sent r -> same_inv whole sent (fill fuel r).
Proof using Hplain.
  intros Hc. revert r. induction fuel as [|k IH]; intros r Hr; [done|]. cbn [fill].
  destruct (bool_decide (rd_out r = []) && negb (rd_err r)) eqn:E; [|done]. bool_inv.
  apply IH. by apply read_turn_same.
Qed.

Lemma Read_same n whole sent r b e r' :
  clear secrets whole -> same_inv whole sent r -> Read n r = (b, e, r') ->
  same_inv whole (sent ++ b) r' /\ (e = true -> sent = whole).
Proof using Hplain.
  intros Hc Hr. unfold Read. pose proof (fill_same (S (length (rd_src r))) whole sent r Hc Hr) as Hf.
  set (f := fill _ r) in *. destruct (bool_decide (rd_out f = []) && rd_err f) eqn:E.
  - intros [= <- <- <-]. bool_inv. rewrite app_nil_r. split; [done|]. intros _.
    destruct Hf as [_ Hf]. rewrite H0, H, app_nil_r in Hf. done.
  - intros [= <- <- <-]. split; [|done]. destruct Hf as [Hs Hf]. split; [done|]. cbn [rd_err rd_out rd_held rd_src].
    destruct (rd_err f); rewrite <- app_assoc; [by rewrite take_drop|].
    by rewrite (app_assoc (take _ _)), take_drop.
Qed.

Lemma read_many_same sizes whole sent r b r' :
  clear secrets whole -> same_inv whole sent r -> read_many sizes r = (b, r') ->
  same_inv whole (sent ++ b) r'.
Proof using Hplain.
  intros Hc. revert sent r b. induction sizes as [|n sizes IH]; intros sent r b Hr; cbn [read_many].
  - intros [= <- <-]. by rewrite app_nil_r.
  - destruct (Read n r) as [[x e] r1] eqn:E. destruct (read_many sizes r1) as [y r2] eqn:E2.
    intros [= <- <-]. rewrite app_assoc. eapply IH; [|done]. by eapply Read_same.
Qed.
End Reading.

Lemma fill_done fuel r :
  (length (rd_src r) < fuel)%nat -> rd_out (fill fuel r) <> [] \/ rd_err (fill fuel r) = true.
Proof.
  revert r. induction fuel as [|k IH]; intros r Hf; [lia|]. cbn [fill].
  destruct (bool_decide (rd_out r = []) && negb (rd_err r)) eqn:E.
  2:{ apply andb_false_iff in E as [E|E]; bool_inv; auto. }
  assert (rd_err (read_turn r) = true \/ (length (rd_src (read_turn r)) < length (rd_src r))%nat) as [He|Hl].
  { unfold read_turn. destruct (rd_src r) as [|[c [|]] t]; cbn; auto. }
  - destruct k as [|k]; [by right|]. cbn [fill]. rewrite He, andb_false_r. auto.
  - apply IH. lia.
Qed.

Lemma newRedactor_secrets src secrets :
  (forall w, w ∈ rd_secrets (newRedactor src secrets) <-> w ∈ secrets /\ w <> []).
Proof.
  intros w. unfold newRedactor. cbn [rd_secrets].
  rewrite (merge_sort_Permutation longer), list_elem_of_filter. tauto.
Qed.

(** ** Properties *)

(** C7: No injected string reaches the client in a response body, when each
    injected string is a [plain_secret]: without a bracket, and no part of the
    word redacted.  Then for every way the upstream cuts the body into pieces,
    and every sequence of read sizes, the bytes delivered so far hold none of
    the injected strings, also not one that spans two pieces.  The hypothesis is
    needed: [bracket_secret_shows]. *)
Theorem redactor_hides (src : source) (secrets : list gostr) (sizes : list nat)
    (Hplain : Forall (fun s => s <> [] -> plain_secret s) secrets) (w : gostr)
    (Hw : w ∈ secrets) (Hne : w <> []) :
  ~ occurs w (read_many sizes (newRedactor src secrets)).1.
Proof.
  set (r := newRedactor src secrets). destruct (read_many sizes r) as [b r'] eqn:E. cbn [fst].
  assert (Forall plain_secret (rd_secrets r)) as Hp.
  { apply Forall_forall. intros x [Hx Hx0]%newRedactor_secrets. rewrite Forall_forall in Hplain. auto. }
  pose proof (read_many_inv (rd_secrets r) Hp sizes [] r b r') as H. cbn [app] in H.
  apply (reader_inv_clear (rd_secrets r) b r'); [|by apply newRedactor_secrets].
  apply H; [|done]. split; [done|]. by apply held_inv_nil.
Qed.

Example redactor_hides_witness :
  ~ occurs (lit "sk-ant-1")
    (read_many [4; 100; 100; 100]%nat (newRedactor
      [(lit "a sk-a", false); (lit "nt-1 b sk-ant", false); (lit "-12", true)] [lit "sk-ant-1"])).1.
Proof.
  apply redactor_hides.
  - apply Forall_singleton. intros _. refine (bool_decide_unpack _ _). vm_compute. exact I.
  - constructor.
  - discriminate.
Defined.

(** A string that starts with the bracket that ends the mask can be completed by
    it: the replacement of one occurrence shows another. *)
Example bracket_secret_shows :
  (read_many [100]%nat (newRedactor [(lit "]abcabc", true)] [lit "]abc"])).1 = lit "[redacted]abc".
Proof. vm_compute. reflexivity. Qed.

(** A body that holds no injected string goes through unchanged: what is
    delivered is always a prefix of it, and it is all of it once [Read] returns
    the source's error. *)
Lemma redactor_transparent (src : source) (secrets : list gostr) (sizes : list nat) (n : nat)
    (Hplain : Forall (fun s => s <> [] -> plain_secret s) secrets)
    (Hclear : Forall (fun w => w <> [] -> ~ occurs w (body src)) secrets) :
  let '(b, r) := read_many sizes (newRedactor src secrets) in
  (exists t, body src = b ++ t) /\ ((Read n r).1.2 = true -> b = body src).
Proof.
  set (r := newRedactor src secrets). destruct (read_many sizes r) as [b r'] eqn:E.
  assert (Forall plain_secret (rd_secrets r)) as Hp.
  { apply Forall_forall. intros x [Hx Hx0]%newRedactor_secrets. rewrite Forall_forall in Hplain. auto. }
  assert (clear (rd_secrets r) (body src)) as Hc.
  { intros w [Hw Hw0]%newRedactor_secrets. rewrite Forall_forall in Hclear. auto. }
  assert (same_inv (rd_secrets r) (body src) b r') as Hs.
  { apply (read_many_same (rd_secrets r) Hp sizes (body src) [] r b r' Hc); [by split|done]. }
  split.
  - destruct Hs as [_ Hs]. destruct (rd_err r'); eauto.
  - destruct (Read n r') as [[x e] r2] eqn:E2. cbn [fst snd].
    apply (Read_same (rd_secrets r) Hp n (body src) b r' x e r2 Hc Hs E2).
Qed.

Example redactor_transparent_witness :
  (Read 10 (read_many [10; 10; 10]%nat (newRedactor [(lit "a sk", false); (lit "-ant", true)] [lit "sk-b"])).2).1.2 = true /\
  (read_many [10; 10; 10]%nat (newRedactor [(lit "a sk", false); (lit "-ant", true)] [lit "sk-b"])).1 = lit "a sk-ant".
Proof.
  split; [vm_compute; reflexivity|].
  pose proof (redactor_transparent [(lit "a sk", false); (lit "-ant", true)] [lit "sk-b"] [10; 10; 10]%nat 10) as H.
  destruct (read_many _ _) as [b r] eqn:E. destruct H as [_ H].
  - apply Forall_singleton. intros _. refine (bool_decide_unpack _ _). vm_compute. exact I.
  - apply Forall_singleton. intros _. refine (bool_decide_unpack _ _). vm_compute. exact I.
  - apply H. vm_compute in E. injection E as _ <-. vm_compute. reflexivity.
Defined.

(** Every [Read] into a buffer that is not empty returns bytes or the
    source's error: the loop cannot spin on an empty answer. *)
Lemma redactor_progress (n : nat) (r : redactor) (Hn : (0 < n)%nat) :
  (Read n r).1.2 = true \/ (Read n r).1.1 <> [].
Proof.
  unfold Read. pose proof (fill_done (S (length (rd_src r))) r ltac:(lia)) as H. set (f := fill _ r) in *.
  destruct (bool_decide (rd_out f = []) && rd_err f) eqn:E; [by left|]. right. cbn [fst].
  destruct (rd_out f) as [|c o] eqn:Eo.
  - destruct H as [H|H]; [done|]. rewrite H in E. done.
  - destruct n; [lia|]. done.
Qed.

Example redactor_progress_witness :
  (Read 5 (newRedactor [([], false)] [])).1.2 = true \/ (Read 5 (newRedactor [([], false)] [])).1.1 <> [].
Proof. apply redactor_progress. lia. Defined.

(** An event of an event stream is never held back: when a piece ends with
    a byte that no secret holds, as a line feed, nothing of it is kept for the
    next read. *)
Lemma redactor_no_hold (secrets : list gostr) (data : gostr) (c : byte)
    (Hc : Forall (fun s => c ∉ s) secrets) : startOfSecret secrets (data ++ [c]) = 0%nat.
Proof.
  unfold startOfSecret. induction Hc as [|s l Hs Hl IH]; [done|]. cbn [foldl].
  assert (forall k, start_loop k 0 s (data ++ [c]) = 0%nat \/ (length (data ++ [c]) < k)%nat) as Hk.
  { induction k as [|k IHk]; [by left|]. cbn [start_loop].
    destruct (Nat.lt_ge_cases (length (data ++ [c])) (S k)); [by right|]. left. cbn [Nat.ltb Nat.leb].
    destruct (has_prefix s _) eqn:E; [|destruct IHk; [done|lia]]. exfalso.
    apply has_prefix_true in E as [t ->]. apply Hs. rewrite !elem_of_app. left.
    rewrite drop_app_le by (rewrite length_app in *; cbn [length] in *; lia).
    rewrite elem_of_app. right. constructor. }
  destruct (Hk (Nat.min (length s - 1) (length (data ++ [c])))) as [->|H]; [exact IH|lia].
Qed.

Example redactor_no_hold_witness : startOfSecret [lit "secret"] (lit "data: s" ++ [zb 10]) = 0%nat.
Proof.
  apply redactor_no_hold. apply Forall_singleton. apply (proj1 (mem_false _ _)). vm_compute. reflexivity.
Defined.

(** A secret that starts with another one is not always replaced whole: when
    the piece of the upstream ends with the shorter one, the shorter one is
    replaced, and what follows it of the longer one is sent. *)
Lemma redactor_splits_longer :
  let secrets := [lit "tok"; lit "tok-extra"] in
  (read_many [99]%nat (newRedactor [(lit "tok-extra", true)] secrets)).1 = lit "[redacted]" /\
  (read_many [99; 99]%nat (newRedactor [(lit "tok", false); (lit "-extra", true)] secrets)).1 = lit "[redacted]-extra".
Proof. vm_compute. split; reflexivity. Qed.
