(* ===== verification/GoPath.v ===== *)
(** * [path.Match]

    The glob matcher of the Standard Library, and what it promises: a name it
    matches is in the language of the pattern, where [*] and [?] stop at a
    slash, and on an ASCII name without a slash it matches all of them. *)

From stdpp Require Import prelude list strings.
From Stdlib Require Import ZArith Lia ZifyNat Ascii.
From S2P Require Import Prelude GoUnicode GoStrings.

Local Open Scope Z_scope.

Definition slash : byte := "/"%char.

(** [ErrBadPattern] is the one error. *)
Inductive bad_pattern := ErrBadPattern.

(** [scanChunk]: the leading stars, and the text up to the next star outside a
    class. *)
Fixpoint scan_stars (p : gostr) : bool * gostr :=
  match p with
  | c :: p' => if Ascii.eqb c "*" then (true, (scan_stars p').2) else (false, p)
  | [] => (false, [])
  end.

Fixpoint scan_text (inrange : bool) (p : gostr) : gostr * gostr :=
  match p with
  | [] => ([], [])
  | c :: p' =>
    if Ascii.eqb c "\" then
      match p' with
      | [] => ([c], [])
      | e :: p'' => let '(a, b) := scan_text inrange p'' in (c :: e :: a, b)
      end
    else if Ascii.eqb c "*" && negb inrange then ([], p)
    else
      let '(a, b) := scan_text (if Ascii.eqb c "[" then true else if Ascii.eqb c "]" then false else inrange) p' in
      (c :: a, b)
  end.

Definition scanChunk (p : gostr) : bool * gostr * gostr :=
  let '(star, p') := scan_stars p in
  let '(chunk, rest) := scan_text false p' in (star, chunk, rest).

(** [getEsc]: one rune of a class. *)
Definition getEsc (chunk : gostr) : option (Z * gostr) :=
  match chunk with
  | [] => None
  | c :: chunk' =>
    if Ascii.eqb c "-" || Ascii.eqb c "]" then None
    else
      let ch := if Ascii.eqb c "\" then chunk' else chunk in
      match ch with
      | [] => None
      | _ =>
        let '(r, n) := decode_rune ch in
        if (r =? rune_error) && (n =? 1)%nat then None
        else match drop n ch with [] => None | rest => Some (r, rest) end
      end
  end.

(** The ranges of a class, up to its closing bracket: whether [r] is in one of
    them, and what follows. *)
Fixpoint class_ranges (fuel : nat) (chunk : gostr) (r : Z) (first matched : bool) : option (bool * gostr) :=
  match fuel with
  | O => None
  | S k =>
    match chunk with
    | c :: chunk' =>
      if Ascii.eqb c "]" && negb first then Some (matched, chunk')
      else
        match getEsc chunk with
        | None => None
        | Some (lo, rest) =>
          match rest with
          | d :: rest' =>
            if Ascii.eqb d "-" then
              match getEsc rest' with
              | Some (hi, rest'') => class_ranges k rest'' r false (matched || ((lo <=? r) && (r <=? hi)))
              | None => None
              end
            else class_ranges k rest r false (matched || (lo =? r))
          | [] => None
          end
        end
    | [] => None
    end
  end.

(** A class, from after its opening bracket: whether [r] is in it. *)
Definition class_match (chunk : gostr) (r : Z) : option (bool * gostr) :=
  let '(neg, body) :=
    match chunk with c :: t => if Ascii.eqb c "^" then (true, t) else (false, chunk) | [] => (false, []) end in
  match class_ranges (S (length body)) body r true false with
  | Some (m, rest) => Some (xorb m neg, rest)
  | None => None
  end.

(** [matchChunk].  [s] is [None] once the match has failed: the loop goes on
    only to check the pattern. *)
Fixpoint match_chunk (fuel : nat) (chunk : gostr) (s : option gostr) : res bad_pattern (option gostr) :=
  match fuel with
  | O => Err ErrBadPattern
  | S k =>
    match chunk with
    | [] => Ok s
    | c :: chunk' =>
      let s := match s with Some [] => None | _ => s end in
      if Ascii.eqb c "[" then
        let '(r, s') :=
          match s with
          | Some t => let '(r, n) := decode_rune t in (r, Some (drop n t))
          | None => (0, None)
          end in
        match class_match chunk' r with
        | Some (m, rest) => match_chunk k rest (if m then s' else None)
        | None => Err ErrBadPattern
        end
      else if Ascii.eqb c "?" then
        let s' :=
          match s with
          | Some (x :: t) => if Ascii.eqb x slash then None else Some (drop (decode_rune (x :: t)).2 (x :: t))
          | _ => None
          end in
        match_chunk k chunk' s'
      else
        let lit := if Ascii.eqb c "\" then
                     match chunk' with [] => None | e :: t => Some (e, t) end
                   else Some (c, chunk') in
        match lit with
        | None => Err ErrBadPattern
        | Some (e, rest) =>
          let s' :=
            match s with
            | Some (x :: t) => if Ascii.eqb e x then Some t else None
            | _ => None
            end in
          match_chunk k rest s'
        end
    end
  end.

Definition matchChunk (chunk s : gostr) : res bad_pattern (option gostr) :=
  match_chunk (S (length chunk)) chunk (Some s).

(** The loop that skips bytes under a star, one at a time and never a slash. *)
Fixpoint skip_loop (chunk : gostr) (last : bool) (name : gostr) : res bad_pattern (option gostr) :=
  match name with
  | [] => Ok None
  | c :: name' =>
    if Ascii.eqb c slash then Ok None
    else
      match matchChunk chunk name' with
      | Err e => Err e
      | Ok (Some t) =>
        if last && negb (is_nil (head t)) then skip_loop chunk last name' else Ok (Some t)
      | Ok None => skip_loop chunk last name'
      end
  end.

(** The rest of the pattern is well formed. *)
Fixpoint rest_ok (fuel : nat) (p : gostr) : res bad_pattern bool :=
  match fuel with
  | O => Err ErrBadPattern
  | S k =>
    match p with
    | [] => Ok false
    | _ =>
      let '(_, chunk, p') := scanChunk p in
      match matchChunk chunk [] with
      | Ok _ => rest_ok k p'
      | Err e => Err e
      end
    end
  end.

Fixpoint match_loop (fuel : nat) (p name : gostr) : res bad_pattern bool :=
  match fuel with
  | O => Err ErrBadPattern
  | S k =>
    match p with
    | [] => Ok (is_nil (head name))
    | _ =>
      let '(star, chunk, p') := scanChunk p in
      let last := is_nil (head p') in
      if star && is_nil (head chunk) then Ok (negb (has_byte slash name))
      else
        match matchChunk chunk name with
        | Ok (Some t) =>
          if is_nil (head t) || negb last then match_loop k p' t
          else if star then
            match skip_loop chunk last name with
            | Err e => Err e
            | Ok (Some t) => match_loop k p' t
            | Ok None => rest_ok (S (length p')) p'
            end
          else rest_ok (S (length p')) p'
        | Err e => Err e
        | Ok None =>
          if star then
            match skip_loop chunk last name with
            | Err e => Err e
            | Ok (Some t) => match_loop k p' t
            | Ok None => rest_ok (S (length p')) p'
            end
          else rest_ok (S (length p')) p'
        end
    end
  end.

(** [path.Match(pattern, name)].  Every chunk is at least one byte of the
    pattern, so its length is fuel enough. *)
Definition Match (pattern name : gostr) : res bad_pattern bool :=
  match_loop (S (length pattern)) pattern name.

(** ** The language of a pattern *)

(** [glob p s]: the pattern [p] describes the name [s]. *)
Inductive glob : gostr -> gostr -> Prop :=
  | glob_nil : glob [] []
  | glob_star p a s : slash ∉ a -> glob p s -> glob ("*"%char :: p) (a ++ s)
  | glob_any p x t : x <> slash -> glob p (drop (decode_rune (x :: t)).2 (x :: t)) -> glob ("?"%char :: p) (x :: t)
  | glob_class p rest t : t <> [] ->
      class_match p (decode_rune t).1 = Some (true, rest) ->
      glob rest (drop (decode_rune t).2 t) -> glob ("["%char :: p) t
  | glob_escape p e t : glob p t -> glob ("\"%char :: e :: p) (e :: t)
  | glob_literal p c t : c <> "*"%char -> c <> "?"%char -> c <> "["%char -> c <> "\"%char ->
      glob p t -> glob (c :: p) (c :: t).

(** ** Chunks *)

(** No star outside a class, as [scan_text] sees classes. *)
Fixpoint no_star (inrange : bool) (p : gostr) : bool :=
  match p with
  | [] => true
  | c :: p' =>
    if Ascii.eqb c "\" then match p' with [] => true | _ :: p'' => no_star inrange p'' end
    else if Ascii.eqb c "*" && negb inrange then false
    else no_star (if Ascii.eqb c "[" then true else if Ascii.eqb c "]" then false else inrange) p'
  end.

Lemma scan_text_spec inr p a b :
  scan_text inr p = (a, b) -> p = a ++ b /\ no_star inr a = true.
Proof.
  revert inr a b. remember (length p) as n eqn:En. revert p En.
  induction n as [n IH] using lt_wf_ind. intros p -> inr a b.
  destruct p as [|c p]; cbn [scan_text]; [by intros [= <- <-]|].
  destruct (Ascii.eqb c "\") eqn:E1.
  - destruct p as [|e p]; [intros [= <- <-]; cbn [no_star]; by rewrite E1|].
    destruct (scan_text inr p) as [a' b'] eqn:E. intros [= <- <-].
    destruct (IH (length p) ltac:(cbn; lia) p eq_refl _ _ _ E) as [-> Hn]. cbn [no_star app]. by rewrite E1.
  - destruct (Ascii.eqb c "*" && negb inr) eqn:E2; [by intros [= <- <-]|].
    set (inr' := if Ascii.eqb c "[" then true else _). destruct (scan_text inr' p) as [a' b'] eqn:E.
    intros [= <- <-]. destruct (IH (length p) ltac:(cbn; lia) p eq_refl _ _ _ E) as [-> Hn].
    cbn [no_star app]. by rewrite E1, E2.
Qed.

Lemma no_star_high inr x p :
  is_ascii x = false -> no_star inr (x :: p) = no_star inr p.
Proof.
  intros Hx. cbn [no_star].
  assert (forall c, is_ascii c = true -> Ascii.eqb x c = false) as H.
  { intros c Hc. apply Ascii.eqb_neq. congruence. }
  rewrite !H by reflexivity. done.
Qed.

Lemma no_star_highs inr l p :
  Forall (fun x => is_ascii x = false) l -> no_star inr (l ++ p) = no_star inr p.
Proof. induction 1 as [|x l Hx Hl IH]; [done|]. cbn [app]. by rewrite no_star_high. Qed.

(** A rune of a class, with what [getEsc] leaves. *)
Lemma getEsc_spec chunk r rest :
  getEsc chunk = Some (r, rest) ->
  (no_star true chunk = true -> no_star true rest = true) /\
  (length rest < length chunk)%nat /\ forall p, getEsc (chunk ++ p) = Some (r, rest ++ p).
Proof.
  unfold getEsc. destruct chunk as [|c chunk]; [done|]. cbn [app].
  destruct (Ascii.eqb c "-" || Ascii.eqb c "]") eqn:E1; [done|].
  destruct (Ascii.eqb c "\") eqn:E2; cbn [app].
  - destruct chunk as [|e chunk]; [done|]. cbn [app].
    destruct (decode_rune (e :: chunk)) as [r' n] eqn:Ed.
    destruct ((r' =? rune_error) && (n =? 1)%nat) eqn:Ee; [done|].
    destruct (drop n (e :: chunk)) as [|y l] eqn:Edr; [done|]. intros [= <- <-].
    destruct (decode_rune_take _ _ _ [] Ed Ee ltac:(done)) as (_ & Hn & Hn1).
    pose proof (decode_rune_tail _ _ _ _ Ed Ee) as Ht. destruct n as [|n]; [lia|]. cbn [drop] in Edr.
    rewrite Nat.sub_succ, Nat.sub_0_r in Ht. split_and!.
    + cbn [no_star]. rewrite E2. rewrite <- (take_drop n chunk) at 1. rewrite no_star_highs by done.
      by rewrite Edr.
    + rewrite <- Edr, length_drop. cbn [length]. lia.
    + intros p. destruct (decode_rune_take (e :: chunk) r' (S n) (drop n chunk ++ p) Ed Ee ltac:(done)) as [Hd _].
      cbn [take app] in Hd. rewrite app_assoc, take_drop in Hd. rewrite Hd, Ee. cbn [drop].
      rewrite drop_app_le by (cbn [length] in Hn; lia). by rewrite Edr.
  - destruct (decode_rune (c :: chunk)) as [r' n] eqn:Ed.
    destruct ((r' =? rune_error) && (n =? 1)%nat) eqn:Ee; [done|].
    destruct (drop n (c :: chunk)) as [|y l] eqn:Edr; [done|]. intros [= <- <-].
    destruct (decode_rune_take _ _ _ [] Ed Ee ltac:(done)) as (_ & Hn & Hn1).
    pose proof (decode_rune_tail _ _ _ _ Ed Ee) as Ht. destruct n as [|n]; [lia|]. cbn [drop] in Edr.
    rewrite Nat.sub_succ, Nat.sub_0_r in Ht. split_and!.
    + cbn [no_star]. rewrite E2. cbn [negb]. rewrite andb_false_r.
      apply orb_false_iff in E1 as [_ ->].
      replace (if Ascii.eqb c "[" then true else true) with true by (by destruct (Ascii.eqb c "[")).
      rewrite <- (take_drop n chunk) at 1. rewrite no_star_highs by done. by rewrite Edr.
    + rewrite <- Edr, length_drop. cbn [length]. lia.
    + intros p. destruct (decode_rune_take (c :: chunk) r' (S n) (drop n chunk ++ p) Ed Ee ltac:(done)) as [Hd _].
      cbn [take app] in Hd. rewrite app_assoc, take_drop in Hd. rewrite Hd, Ee. cbn [drop].
      rewrite drop_app_le by (cbn [length] in Hn; lia). by rewrite Edr.
Qed.

Lemma class_ranges_spec fuel chunk r first matched m rest :
  class_ranges fuel chunk r first matched = Some (m, rest) ->
  (no_star true chunk = true -> no_star false rest = true) /\ (length rest < length chunk)%nat /\
  forall fuel' p, (length (chunk ++ p) < fuel')%nat ->
    class_ranges fuel' (chunk ++ p) r first matched = Some (m, rest ++ p).
Proof.
  revert chunk first matched. induction fuel as [|k IH]; intros chunk first matched; cbn [class_ranges]; [done|].
  destruct chunk as [|c chunk]; [done|].
  destruct (Ascii.eqb c "]" && negb first) eqn:E1.
  { intros [= <- <-]. split_and!; [|cbn; lia|].
    - apply andb_true_iff in E1 as [->%Ascii.eqb_eq _]. done.
    - intros [|f'] p Hf; [lia|]. cbn [app class_ranges]. by rewrite E1. }
  destruct (getEsc (c :: chunk)) as [[lo l1]|] eqn:E2; [|done].
  destruct (getEsc_spec _ _ _ E2) as (Hs1 & Hl1 & Hx1).
  destruct l1 as [|d l2]; [done|]. destruct (Ascii.eqb d "-") eqn:E3.
  - destruct (getEsc l2) as [[hi l3]|] eqn:E4; [|done]. destruct (getEsc_spec _ _ _ E4) as (Hs2 & Hl2 & Hx2).
    intros H. destruct (IH _ _ _ H) as (Hs & Hl & Hx). cbn [length] in *. split_and!; [|lia|].
    + intros Hn. apply Hs, Hs2. apply Hs1 in Hn. apply Ascii.eqb_eq in E3. subst d. exact Hn.
    + intros [|f'] p Hf; [lia|]. cbn [app class_ranges]. rewrite E1.
      specialize (Hx1 p). cbn [app] in Hx1. rewrite Hx1, E3, Hx2. apply Hx.
      cbn [app length] in Hf. rewrite length_app in *. lia.
  - intros H. destruct (IH _ _ _ H) as (Hs & Hl & Hx). cbn [length] in *. split_and!; [|lia|].
    + intros Hn. by apply Hs, Hs1.
    + intros [|f'] p Hf; [lia|]. cbn [app class_ranges]. rewrite E1.
      specialize (Hx1 p). cbn [app] in Hx1. rewrite Hx1, E3. apply Hx.
      cbn [app length] in *. rewrite length_app in *. lia.
Qed.

Lemma class_match_spec chunk r m rest :
  class_match chunk r = Some (m, rest) ->
  (no_star true chunk = true -> no_star false rest = true) /\ (length rest < length chunk)%nat /\
  forall p, class_match (chunk ++ p) r = Some (m, rest ++ p).
Proof.
  unfold class_match. destruct chunk as [|c chunk].
  { cbn. done. }
  cbn [app]. destruct (Ascii.eqb c "^") eqn:E.
  - destruct (class_ranges _ chunk r true false) as [[m' rest']|] eqn:Er; [|done]. intros [= <- <-].
    destruct (class_ranges_spec _ _ _ _ _ _ _ Er) as (Hs & Hl & Hx). split_and!; [|cbn; lia|].
    + intros Hn. apply Hs. apply Ascii.eqb_eq in E. subst c. exact Hn.
    + intros p. by rewrite Hx by lia.
  - destruct (class_ranges _ (c :: chunk) r true false) as [[m' rest']|] eqn:Er; [|done]. intros [= <- <-].
    destruct (class_ranges_spec _ _ _ _ _ _ _ Er) as (Hs & Hl & Hx). split_and!; [done|done|].
    intros p. change (c :: chunk ++ p) with ((c :: chunk) ++ p). by rewrite Hx by lia.
Qed.

Lemma match_chunk_None fuel chunk t : match_chunk fuel chunk None <> Ok (Some t).
Proof.
  revert chunk. induction fuel as [|k IH]; intros chunk; cbn [match_chunk]; [done|].
  destruct chunk as [|c chunk]; [done|]. case_if.
  - destruct (class_match chunk 0) as [[m rest]|]; [|done]. destruct m; apply IH.
  - case_if; [apply IH|].
    match goal with |- match ?l with _ => _ end <> _ => destruct l as [[e rest]|] end; [apply IH|done].
Qed.

(** A chunk consumes a text of its language, in front of what the rest of the
    pattern describes. *)
Lemma match_chunk_sound fuel chunk s t p :
  match_chunk fuel chunk (Some s) = Ok (Some t) -> no_star false chunk = true ->
  glob p t -> glob (chunk ++ p) s.
Proof.
  intros H Hn Hp. revert chunk s H Hn. induction fuel as [|k IH]; intros chunk s; cbn [match_chunk]; [done|].
  destruct chunk as [|c chunk]; [by intros [= ->]|]. cbn [app].
  destruct (Ascii.eqb_spec c "[") as [->|Hb].
  { destruct s as [|x s].
    - destruct (class_match chunk 0) as [[m rest]|]; [|done]. intros H. exfalso.
      revert H. destruct m; apply match_chunk_None.
    - destruct (decode_rune (x :: s)) as [r n] eqn:Ed.
      destruct (class_match chunk r) as [[m rest]|] eqn:Em; [|done].
      destruct (class_match_spec _ _ _ _ Em) as (Hs & Hl & Hx).
      destruct m; [|intros H; by apply match_chunk_None in H]. intros H Hn.
      apply (glob_class _ (rest ++ p)); [done | by rewrite Ed; apply Hx |].
      rewrite Ed. apply IH; [exact H|]. by apply Hs. }
  destruct (Ascii.eqb_spec c "?") as [->|Hq].
  { destruct s as [|x s]; [intros H; by apply match_chunk_None in H|].
    destruct (Ascii.eqb_spec x slash) as [->|Hx]; [intros H; by apply match_chunk_None in H|].
    intros H Hn. apply glob_any; [done|]. by apply IH. }
  cbn [no_star]. destruct (Ascii.eqb_spec c "\") as [->|Hs].
  { destruct chunk as [|e chunk]; [done|].
    destruct s as [|x s]; [intros H; by apply match_chunk_None in H|].
    destruct (Ascii.eqb_spec e x) as [->|Hx]; [|intros H; by apply match_chunk_None in H].
    intros H Hn. cbn [app]. apply glob_escape. by apply IH. }
  destruct s as [|x s]; [intros H; by apply match_chunk_None in H|].
  destruct (Ascii.eqb_spec c x) as [->|Hx]; [|intros H; by apply match_chunk_None in H].
  intros H Hn. destruct (Ascii.eqb_spec x "*") as [->|Hst]; [done|]. cbn [andb] in Hn.
  apply glob_literal; try done. apply IH; [done|].
  destruct (Ascii.eqb_spec x "["); [done|]. by destruct (Ascii.eqb x "]").
Qed.

Lemma matchChunk_sound chunk s t p :
  matchChunk chunk s = Ok (Some t) -> no_star false chunk = true -> glob p t -> glob (chunk ++ p) s.
Proof. apply match_chunk_sound. Qed.

Lemma skip_loop_sound chunk last name t :
  skip_loop chunk last name = Ok (Some t) ->
  exists a s, name = a ++ s /\ slash ∉ a /\ matchChunk chunk s = Ok (Some t).
Proof.
  induction name as [|c name IH]; cbn [skip_loop]; [done|].
  destruct (Ascii.eqb_spec c slash) as [->|Hc]; [done|].
  assert (forall a, slash ∉ a -> slash ∉ c :: a) as Hcons by (intros; by apply not_elem_of_cons).
  assert (skip_loop chunk last name = Ok (Some t) ->
    exists a s, c :: name = a ++ s /\ slash ∉ a /\ matchChunk chunk s = Ok (Some t)) as Hrec.
  { intros H. destruct (IH H) as (a & s & -> & Ha & Hm). exists (c :: a), s. auto. }
  destruct (matchChunk chunk name) as [[t'|]|] eqn:E; [|auto|done].
  case_if; [done|]. intros [= <-]. exists [c], name. split_and!; try done.
  apply Hcons. apply not_elem_of_nil.
Qed.

Lemma scan_stars_spec p b q :
  scan_stars p = (b, q) ->
  (head q <> Some "*"%char) /\ (b = false -> p = q) /\
  forall a s, slash ∉ a -> (b = false -> a = []) -> glob q s -> glob p (a ++ s).
Proof.
  revert b q. induction p as [|c p IH]; intros b q; cbn [scan_stars].
  - intros [= <- <-]. split_and!; [done|done|]. intros a s _ -> ?; done.
  - destruct (Ascii.eqb_spec c "*") as [->|Hc].
    + intros [= <- <-]. destruct (scan_stars p) as [b' q'] eqn:E. cbn [snd].
      destruct (IH _ _ eq_refl) as (Hh & Hb & Hg). split_and!; [done|done|].
      intros a s Ha _ Hq. apply glob_star; [done|].
      apply (Hg [] s); [apply not_elem_of_nil | done | done].
    + intros [= <- <-]. split_and!; [cbn; congruence|done|]. intros a s _ -> ?; done.
Qed.

Lemma rest_ok_false fuel p : rest_ok fuel p <> Ok true.
Proof.
  revert p. induction fuel as [|k IH]; intros p; cbn [rest_ok]; [done|].
  destruct p as [|c p]; [done|]. destruct (scanChunk (c :: p)) as [[b ch] r].
  destruct (matchChunk ch []); [apply IH|done].
Qed.

Lemma match_loop_sound fuel p name : match_loop fuel p name = Ok true -> glob p name.
Proof.
  revert p name. induction fuel as [|k IH]; intros p name; cbn [match_loop]; [done|].
  destruct p as [|c p]; [destruct name; [constructor|done]|].
  unfold scanChunk. destruct (scan_stars (c :: p)) as [star q] eqn:Es.
  destruct (scan_text false q) as [chunk p'] eqn:Et.
  destruct (scan_text_spec _ _ _ _ Et) as [-> Hn].
  destruct (scan_stars_spec _ _ _ Es) as (Hh & Hb & Hg).
  destruct (star && is_nil (head chunk)) eqn:E1.
  { intros [= H]. apply negb_true_iff in H. apply andb_true_iff in E1 as [-> E1].
    destruct chunk; [|done]. cbn [app] in *.
    assert (p' = []) as ->.
    { destruct p' as [|x p']; [done|]. exfalso. cbn [scan_text] in Et.
      destruct (Ascii.eqb x "\"); [destruct p'; [done|by destruct (scan_text _ _)]|].
      destruct (Ascii.eqb_spec x "*") as [->|_]; [by apply Hh|]. cbn [andb] in Et.
      by destruct (scan_text _ _). }
    rewrite <- (app_nil_r name). apply Hg; [|done|constructor].
    intros Hin. apply has_byte_true in Hin. congruence. }
  assert (forall t, matchChunk chunk name = Ok (Some t) -> match_loop k p' t = Ok true -> glob (c :: p) name) as H0.
  { intros t Hm Hr. apply (Hg []); [apply not_elem_of_nil|done|].
    eapply matchChunk_sound; eauto. }
  assert (forall t, star = true -> skip_loop chunk (is_nil (head p')) name = Ok (Some t) ->
    match_loop k p' t = Ok true -> glob (c :: p) name) as H1.
  { intros t -> Hm Hr. destruct (skip_loop_sound _ _ _ _ Hm) as (a & s & -> & Ha & Hc).
    apply Hg; [done|done|]. eapply matchChunk_sound; eauto. }
  assert ((if star then
       match skip_loop chunk (is_nil (head p')) name with
       | Err e => Err e
       | Ok (Some t) => match_loop k p' t
       | Ok None => rest_ok (S (length p')) p'
       end
     else rest_ok (S (length p')) p') = Ok true -> glob (c :: p) name) as H2.
  { destruct star; [|intros H; by apply rest_ok_false in H].
    destruct (skip_loop _ _ _) as [[t|]|] eqn:E; [eauto | intros H; by apply rest_ok_false in H | done]. }
  destruct (matchChunk chunk name) as [[t|]|]; [|done|done].
  case_if; [eauto|done].
Qed.

Lemma Match_sound p name : Match p name = Ok true -> glob p name.
Proof. apply match_loop_sound. Qed.


(** ** Completeness on names without slashes *)

(** The chunk of a pattern decides on its own: when the pattern describes the
    name, the chunk matches in front of what the rest describes. *)
Lemma match_chunk_complete fuel chunk s o p :
  match_chunk fuel chunk (Some s) = Ok o -> no_star false chunk = true -> glob (chunk ++ p) s ->
  exists t, o = Some t /\ glob p t.
Proof.
  revert chunk s. induction fuel as [|k IH]; intros chunk s; cbn [match_chunk]; [done|].
  destruct chunk as [|c chunk]; [intros [= <-] _ ?; by exists s|]. cbn [app]. intros H Hn Hg.
  inversion Hg as [|q a s' Ha Hg'|q x t Hx Hg'|q rest t Ht Hm Hg'|q e t Hg'|q d t H1 H2 H3 H4 Hg']; subst.
  - by cbn in Hn.
  - cbn [Ascii.eqb Bool.eqb] in H. apply Ascii.eqb_neq in Hx. rewrite Hx in H. by apply (IH _ _ H).
  - destruct s as [|x s]; [done|]. destruct (decode_rune (x :: s)) as [r n] eqn:Ed. cbn in H.
    cbn [fst snd] in *. destruct (class_match chunk r) as [[m rest0]|] eqn:Em; [|done].
    destruct (class_match_spec _ _ _ _ Em) as (Hs & _ & Hx). rewrite Hx in Hm. injection Hm as -> <-.
    apply (IH _ _ H); [|done]. by apply Hs.
  - destruct chunk as [|e1 chunk]; [done|]. cbn [app] in H1. injection H1 as E1 E2. subst. cbn in H.
    rewrite Ascii.eqb_refl in H. by apply (IH _ _ H).
  - apply Ascii.eqb_neq in H1, H2, H3, H4. rewrite H2, H3, H4, Ascii.eqb_refl in H. cbn [no_star] in Hn.
    rewrite H1, H3, H4 in Hn. cbn [andb] in Hn. apply (IH _ _ H); [|done]. by destruct (Ascii.eqb c "]").
Qed.

Lemma class_ranges_rest fuel chunk r r' first m m' b b' rest rest' :
  class_ranges fuel chunk r first m = Some (b, rest) -> class_ranges fuel chunk r' first m' = Some (b', rest') -> rest = rest'.
Proof.
  revert chunk first m m'. induction fuel as [|k IH]; intros chunk first m m'; cbn [class_ranges]; [done|].
  destruct chunk as [|c chunk]; [done|]. case_if; [by intros [= _ <-] [= _ <-]|].
  destruct (getEsc (c :: chunk)) as [[lo [|d l]]|]; [done| |done].
  case_if; [destruct (getEsc l) as [[hi l']|]; [|done]|]; apply IH.
Qed.

Lemma class_match_rest chunk r r' m m' rest rest' :
  class_match chunk r = Some (m, rest) -> class_match chunk r' = Some (m', rest') -> rest = rest'.
Proof.
  unfold class_match. destruct (match chunk with [] => _ | _ => _ end) as [neg body].
  destruct (class_ranges _ body r _ _) as [[b l]|] eqn:E; [|done].
  destruct (class_ranges _ body r' _ _) as [[b' l']|] eqn:E'; [|done].
  intros [= _ <-] [= _ <-]. by eapply class_ranges_rest.
Qed.

(** Whether a chunk is well formed does not depend on the text. *)
Lemma class_ranges_none fuel chunk r r' first m m' :
  class_ranges fuel chunk r first m = None -> class_ranges fuel chunk r' first m' = None.
Proof.
  revert chunk first m m'. induction fuel as [|k IH]; intros chunk first m m'; cbn [class_ranges]; [done|].
  destruct chunk as [|c chunk]; [done|]. case_if; [done|].
  destruct (getEsc (c :: chunk)) as [[lo [|d l]]|]; [done| |done].
  case_if; [destruct (getEsc l) as [[hi l']|]; [|done]|]; apply IH.
Qed.

Lemma class_match_none chunk r r' : class_match chunk r = None -> class_match chunk r' = None.
Proof.
  unfold class_match. destruct (match chunk with [] => _ | _ => _ end) as [neg body].
  destruct (class_ranges _ body r _ _) as [[b l]|] eqn:E; [done|].
  by rewrite (class_ranges_none _ _ _ r' _ _ false E).
Qed.

Lemma match_chunk_err_same fuel chunk s s' a e :
  match_chunk fuel chunk s = Ok a -> match_chunk fuel chunk s' <> Err e.
Proof.
  revert chunk s s'. induction fuel as [|k IH]; intros chunk s s'; cbn [match_chunk]; [done|].
  destruct chunk as [|c chunk]; [done|]. destruct (Ascii.eqb c "[").
  { destruct (match match s with Some [] => None | _ => s end with Some _ => _ | None => _ end) as [r u].
    destruct (match match s' with Some [] => None | _ => s' end with Some _ => _ | None => _ end) as [r' u'].
    destruct (class_match chunk r) as [[m rest]|] eqn:E; [|done].
    destruct (class_match chunk r') as [[m' rest']|] eqn:E'; [|by rewrite (class_match_none _ _ r E') in E].
    rewrite (class_match_rest _ _ _ _ _ _ _ E E'). apply IH. }
  destruct (Ascii.eqb c "?"); [apply IH|].
  match goal with |- match ?l with _ => _ end = _ -> _ => destruct l as [[e' rest]|] end; [apply IH|done].
Qed.

(** In ASCII a chunk takes the same number of bytes wherever it matches, and
    leaves a suffix. *)
Lemma match_chunk_width fuel chunk s s' t t' :
  all_ascii s = true -> all_ascii s' = true ->
  match_chunk fuel chunk (Some s) = Ok (Some t) -> match_chunk fuel chunk (Some s') = Ok (Some t') ->
  exists a a', s = a ++ t /\ s' = a' ++ t' /\ length a = length a'.
Proof.
  revert chunk s s'. induction fuel as [|k IH]; intros chunk s s' Hs Hs'; cbn [match_chunk]; [done|].
  destruct chunk as [|c chunk]; [intros [= ->] [= ->]; by exists [], []|].
  assert (forall rest x x' u u', all_ascii (x :: u) = true -> all_ascii (x' :: u') = true ->
    match_chunk k rest (Some u) = Ok (Some t) -> match_chunk k rest (Some u') = Ok (Some t') ->
    exists a a', x :: u = a ++ t /\ x' :: u' = a' ++ t' /\ length a = length a') as Hstep.
  { intros rest x x' u u' Hu Hu' H H'. cbn in Hu, Hu'. apply andb_true_iff in Hu as [_ Hu], Hu' as [_ Hu'].
    destruct (IH _ _ _ Hu Hu' H H') as (a & a' & -> & -> & Hl). exists (x :: a), (x' :: a'). cbn. auto. }
  destruct (Ascii.eqb c "[").
  { destruct s as [|x s]; [intros H; exfalso; revert H; destruct (class_match _ _) as [[[] ?]|]; [apply match_chunk_None..|done]|].
    destruct s' as [|x' s']; [intros _ H; exfalso; revert H; destruct (class_match _ _) as [[[] ?]|]; [apply match_chunk_None..|done]|].
    pose proof Hs as Hx. cbn in Hx. apply andb_true_iff in Hx as [Hx _]. pose proof Hs' as Hx'. cbn in Hx'. apply andb_true_iff in Hx' as [Hx' _].
    rewrite !decode_rune_ascii by done. cbn [drop].
    destruct (class_match chunk (bz x)) as [[m rest]|] eqn:E; [|done]. destruct (class_match chunk (bz x')) as [[m' rest']|] eqn:E'; [|done].
    rewrite (class_match_rest _ _ _ _ _ _ _ E E'). destruct m; [|intros H; by apply match_chunk_None in H].
    destruct m'; [|intros _ H; by apply match_chunk_None in H]. by apply Hstep. }
  destruct (Ascii.eqb c "?").
  { destruct s as [|x s]; [intros H; by apply match_chunk_None in H|].
    destruct s' as [|x' s']; [intros _ H; by apply match_chunk_None in H|].
    pose proof Hs as Hx. cbn in Hx. apply andb_true_iff in Hx as [Hx _]. pose proof Hs' as Hx'. cbn in Hx'. apply andb_true_iff in Hx' as [Hx' _].
    rewrite !decode_rune_ascii by done. cbn [drop snd].
    case_if; [intros H; by apply match_chunk_None in H|]. case_if; [intros _ H; by apply match_chunk_None in H|]. by apply Hstep. }
  match goal with |- match ?l with _ => _ end = _ -> _ => destruct l as [[e rest]|] end; [|done].
  destruct s as [|x s]; [intros H; by apply match_chunk_None in H|].
  destruct s' as [|x' s']; [intros _ H; by apply match_chunk_None in H|].
  case_if; [|intros H; by apply match_chunk_None in H]. case_if; [|intros _ H; by apply match_chunk_None in H]. by apply Hstep.
Qed.

Lemma match_chunk_suffix fuel chunk s t :
  match_chunk fuel chunk (Some s) = Ok (Some t) -> exists u, s = u ++ t.
Proof.
  revert chunk s. induction fuel as [|k IH]; intros chunk s; cbn [match_chunk]; [done|].
  destruct chunk as [|c chunk]; [intros [= ->]; by exists []|].
  assert (forall rest n, match_chunk k rest (Some (drop n s)) = Ok (Some t) -> exists u, s = u ++ t) as Hstep.
  { intros rest n H. apply IH in H as [u Hu]. exists (take n s ++ u). by rewrite <- app_assoc, <- Hu, take_drop. }
  destruct (Ascii.eqb c "[").
  { destruct s as [|x s]; [intros H; exfalso; revert H; destruct (class_match _ _) as [[[] ?]|]; [apply match_chunk_None..|done]|].
    destruct (decode_rune (x :: s)) as [r n]. destruct (class_match _ _) as [[[] ?]|]; [apply Hstep|intros H; by apply match_chunk_None in H|done]. }
  destruct (Ascii.eqb c "?").
  { destruct s as [|x s]; [intros H; by apply match_chunk_None in H|]. case_if; [intros H; by apply match_chunk_None in H|]. apply Hstep. }
  match goal with |- match ?l with _ => _ end = _ -> _ => destruct l as [[e rest]|] end; [|done].
  destruct s as [|x s]; [intros H; by apply match_chunk_None in H|]. case_if; [apply (Hstep _ 1%nat)|intros H; by apply match_chunk_None in H].
Qed.

Lemma all_ascii_app s t : all_ascii (s ++ t) = true <-> all_ascii s = true /\ all_ascii t = true.
Proof. unfold all_ascii. rewrite forallb_app. apply andb_true_iff. Qed.

(** What a star in front describes, a star in front of more text describes. *)
Lemma glob_star_more p a t : slash ∉ a -> glob ("*"%char :: p) t -> glob ("*"%char :: p) (a ++ t).
Proof.
  intros Ha H. inversion H as [|q b s Hb Hg| | | |q d t' H1]; subst; [|by destruct H1].
  rewrite app_assoc. apply glob_star; [|done]. rewrite elem_of_app. naive_solver.
Qed.

(** An earlier match of the chunk leaves a text that the rest describes too. *)
Lemma earlier_match fuel chunk a s t t1 p :
  all_ascii (a ++ s) = true -> slash ∉ a ++ s ->
  match_chunk fuel chunk (Some (a ++ s)) = Ok (Some t) -> match_chunk fuel chunk (Some s) = Ok (Some t1) ->
  glob ("*"%char :: p) t1 -> glob ("*"%char :: p) t.
Proof.
  intros Ha Hsl H H1 Hg. pose proof (proj1 (all_ascii_app _ _) Ha) as [_ Hs].
  destruct (match_chunk_width _ _ _ _ _ _ Ha Hs H H1) as (u & u1 & E & E1 & Hl).
  assert (exists b, t = b ++ t1) as [b ->].
  { exists (drop (length u) (a ++ u1)). rewrite E1, app_assoc in E.
    apply (f_equal (drop (length u))) in E. rewrite drop_app_length in E. rewrite <- E.
    rewrite drop_app_le by (rewrite length_app; lia). done. }
  apply glob_star_more; [|done]. rewrite E in Hsl. rewrite !elem_of_app in Hsl. naive_solver.
Qed.

Definition star_or_end (p : gostr) : Prop := p = [] \/ exists p', p = "*"%char :: p'.

Lemma skip_loop_complete chunk p name o c a s :
  skip_loop chunk (is_nil (head p)) name = Ok o -> no_star false chunk = true -> star_or_end p ->
  name = c :: a ++ s -> all_ascii name = true -> slash ∉ name -> glob (chunk ++ p) s ->
  exists t, o = Some t /\ glob p t.
Proof.
  intros H Hn Hp. revert c a H. induction name as [|c' name IH]; intros c a H E Ha Hsl Hg; [done|].
  injection E as -> E. cbn [skip_loop] in H. apply not_elem_of_cons in Hsl as [Hc Hsl]. cbn in Ha. apply andb_true_iff in Ha as [_ Ha].
  assert (Ascii.eqb c slash = false) as E' by (apply Ascii.eqb_neq; congruence). rewrite E' in H.
  assert (forall r, skip_loop chunk (is_nil (head p)) name = Ok o -> matchChunk chunk name = Ok r ->
    (forall t, r = Some t -> p = [] /\ t <> []) -> exists t, o = Some t /\ glob p t) as Hrec.
  { intros r Hk Hm Hr. destruct a as [|c1 a]; [|by eapply (IH c1 a)]. exfalso. cbn [app] in E. subst s.
    destruct (match_chunk_complete _ _ _ _ _ Hm Hn Hg) as (t & -> & Ht). destruct (Hr t eq_refl) as [-> Hne]. by inversion Ht. }
  destruct (matchChunk chunk name) as [[t|]|] eqn:Em; [|by eapply Hrec|done].
  destruct Hp as [->|[p' ->]].
  - cbn [head is_nil andb] in *. destruct t as [|x t]; cbn [head is_nil negb] in H; [injection H as <-; exists []; by repeat constructor|].
    eapply Hrec; [exact H|done|]. by intros ? [= <-].
  - cbn [head is_nil andb] in H. injection H as <-. exists t. split; [done|].
    assert (exists r, matchChunk chunk s = Ok r) as [r Hr].
    { destruct (matchChunk chunk s) eqn:Es; [eauto|]. by apply (match_chunk_err_same _ _ _ _ _ _ Em) in Es. }
    destruct (match_chunk_complete _ _ _ _ _ Hr Hn Hg) as (t1 & -> & Ht1). subst name. by eapply earlier_match.
Qed.

Lemma scan_text_rest inr p a b : scan_text inr p = (a, b) -> star_or_end b.
Proof.
  revert inr a b. remember (length p) as n eqn:En. revert p En.
  induction n as [n IH] using lt_wf_ind. intros p -> inr a b.
  destruct p as [|c p]; cbn [scan_text]; [intros [= <- <-]; by left|].
  destruct (Ascii.eqb c "\").
  - destruct p as [|e p]; [intros [= <- <-]; by left|]. destruct (scan_text inr p) as [a' b'] eqn:E. intros [= <- <-].
    apply (IH (length p) ltac:(cbn; lia) p eq_refl _ _ _ E).
  - destruct (Ascii.eqb_spec c "*") as [->|_]; [destruct inr; cbn [andb negb]|cbn [andb]].
    2: intros [= <- <-]; right; by exists p.
    all: destruct (scan_text _ p) as [a' b'] eqn:E; intros [= <- <-]; apply (IH (length p) ltac:(cbn; lia) p eq_refl _ _ _ E).
Qed.

Lemma scan_stars_inv p b q name :
  scan_stars p = (b, q) -> glob p name ->
  exists a s, name = a ++ s /\ (b = false -> a = []) /\ glob q s /\ (b = false -> q = p) /\ (b = true -> length q < length p)%nat /\ (length q <= length p)%nat.
Proof.
  revert b q name. induction p as [|c p IH]; intros b q name; cbn [scan_stars]; [intros [= <- <-] H; by exists [], name|].
  destruct (Ascii.eqb_spec c "*") as [->|Hc]; [|intros [= <- <-] H; by exists [], name].
  destruct (scan_stars p) as [b' q'] eqn:E. intros [= <- <-] H. cbn [snd].
  inversion H as [|r a s Ha Hg| | | |r d t' H1]; subst; [|by destruct H1].
  destruct (IH _ _ _ eq_refl Hg) as (a' & s' & -> & _ & Hg' & _ & _ & Hl). exists (a ++ a'), s'. rewrite app_assoc.
  split_and!; try done; cbn; intros; lia.
Qed.

Lemma match_loop_complete fuel p name b :
  match_loop fuel p name = Ok b -> (length p < fuel)%nat -> all_ascii name = true -> slash ∉ name -> glob p name -> b = true.
Proof.
  revert p name b. induction fuel as [|k IH]; intros p name b; cbn [match_loop]; [done|]. intros H Hf Hascii Hsl Hg.
  destruct p as [|c p]; [inversion Hg; subst; by injection H as <-|].
  unfold scanChunk in H. destruct (scan_stars (c :: p)) as [star q] eqn:Es.
  destruct (scan_text false q) as [chunk p'] eqn:Et.
  destruct (scan_text_spec _ _ _ _ Et) as [-> Hn]. pose proof (scan_text_rest _ _ _ _ Et) as Hp.
  destruct (scan_stars_inv _ _ _ _ Es Hg) as (a & s & -> & Ha & Hgs & Hq & Hlt & Hle).
  destruct (star && is_nil (head chunk)) eqn:E1.
  { injection H as <-. apply negb_true_iff, not_true_iff_false. by rewrite has_byte_true. }
  assert (length p' < k)%nat as Hk.
  { rewrite length_app in Hlt, Hle. destruct star; [specialize (Hlt eq_refl); lia|]. specialize (Hq eq_refl).
    destruct chunk as [|c1 chunk]; [|cbn [length] in *; lia]. exfalso. cbn [app] in *. rewrite Hq in Et.
    cbn [scan_stars] in Es. destruct (Ascii.eqb_spec c "*") as [|Hc]; [done|]. revert Et. cbn [scan_text].
    apply Ascii.eqb_neq in Hc. rewrite Hc. cbn [andb].
    destruct (Ascii.eqb c "\"); [destruct p; [done|]|]; by destruct (scan_text _ _). }
  assert (forall t, glob p' t -> all_ascii t = true -> slash ∉ t -> match_loop k p' t = Ok b -> b = true) as Hrec by eauto.
  assert (forall u t, (a ++ s) = u ++ t -> all_ascii t = true /\ slash ∉ t) as Hsub.
  { intros u t E. rewrite E in Hascii, Hsl. apply all_ascii_app in Hascii as [_ ?]. rewrite elem_of_app in Hsl. naive_solver. }
  assert (forall o, star = true -> skip_loop chunk (is_nil (head p')) (a ++ s) = Ok o -> a <> [] ->
    exists t, o = Some t /\ glob p' t) as Hskip.
  { intros o _ Ho Hne. destruct a as [|c1 a]; [done|]. by eapply skip_loop_complete. }
  assert (forall t, skip_loop chunk (is_nil (head p')) (a ++ s) = Ok (Some t) -> all_ascii t = true /\ slash ∉ t) as Hskip'.
  { intros t Ht. destruct (skip_loop_sound _ _ _ _ Ht) as (a1 & s1 & E & _ & Hm).
    destruct (match_chunk_suffix _ _ _ _ Hm) as [u ->]. rewrite app_assoc in E. by eapply Hsub. }
  assert (match (if star then
       match skip_loop chunk (is_nil (head p')) (a ++ s) with
       | Err e => Err e
       | Ok (Some t) => match_loop k p' t
       | Ok None => rest_ok (S (length p')) p'
       end
     else rest_ok (S (length p')) p') with Ok b => a <> [] -> b = true | Err _ => True end) as Htail.
  { destruct star; [|destruct (rest_ok _ _); [intros Hne; exfalso; by apply Hne, Ha|done]].
    destruct (skip_loop _ _ _) as [[t|]|] eqn:E; [| |done].
    - destruct (match_loop k p' t) as [b'|] eqn:E'; [|done]. intros Hne.
      destruct (Hskip _ eq_refl eq_refl Hne) as (t' & [= <-] & Ht). destruct (Hskip' _ eq_refl). by eapply IH.
    - destruct (rest_ok _ _); [|done]. intros Hne. by destruct (Hskip _ eq_refl eq_refl Hne) as (? & ? & _). }
  destruct (matchChunk chunk (a ++ s)) as [r|] eqn:Em; [|done].
  assert (forall t, r = Some t -> is_nil (head t) || negb (is_nil (head p')) = true -> glob p' t) as Hfront.
  { intros t -> Ht. destruct (matchChunk chunk s) as [r1|] eqn:Es1; [|by apply (match_chunk_err_same _ _ _ _ _ _ Em) in Es1].
    destruct (match_chunk_complete _ _ _ _ _ Es1 Hn Hgs) as (t1 & -> & Ht1).
    destruct Hp as [->|[p2 ->]]; [|by eapply earlier_match]. destruct t; [constructor|done]. }
  assert (is_Some r -> (forall t, r = Some t -> is_nil (head t) || negb (is_nil (head p')) = false) -> a <> []) as Hback.
  { intros [t ->] Ht ->. destruct (match_chunk_complete _ _ _ _ _ Em Hn Hgs) as (t1 & [= <-] & Ht1). specialize (Ht _ eq_refl).
    apply orb_false_iff in Ht as [Ht Hl]. apply negb_false_iff in Hl. destruct p'; [|done]. by inversion Ht1; subst. }
  destruct r as [t|].
  - destruct (is_nil (head t) || negb (is_nil (head p'))) eqn:Ec.
    + destruct (match_chunk_suffix _ _ _ _ Em) as [u E]. destruct (Hsub _ _ E). eapply IH; eauto.
    + rewrite H in Htail. apply Htail, Hback; [done|]. by intros ? [= <-].
  - rewrite H in Htail. apply Htail. intros ->. by destruct (match_chunk_complete _ _ _ _ _ Em Hn Hgs) as (? & ? & _).
Qed.

(** A pattern is well formed or not whatever the name: every chunk of it is
    checked. *)
Lemma matchChunk_ok chunk s s' r : matchChunk chunk s = Ok r -> exists r', matchChunk chunk s' = Ok r'.
Proof.
  intros H. destruct (matchChunk chunk s') as [r'|] eqn:E; [by exists r'|]. by apply (match_chunk_err_same _ _ _ _ _ _ H) in E.
Qed.

Lemma skip_loop_ok chunk last name s r : matchChunk chunk s = Ok r -> is_ok (skip_loop chunk last name) = true.
Proof.
  intros H. induction name as [|c name IH]; cbn [skip_loop]; [done|]. case_if; [done|].
  destruct (matchChunk_ok _ _ name _ H) as [[t|] ->]; [|done]. by case_if.
Qed.

(** What [scanChunk] cuts off is not empty. *)
Lemma scanChunk_shorter c p star chunk p' : scanChunk (c :: p) = (star, chunk, p') ->
  (length p' < length (c :: p))%nat /\ (star && is_nil (head chunk) = true -> p' = []).
Proof.
  unfold scanChunk. destruct (scan_stars (c :: p)) as [b q] eqn:Es. destruct (scan_text false q) as [ch r] eqn:Et.
  intros [= <- <- <-]. destruct (scan_text_spec _ _ _ _ Et) as [-> _]. destruct (scan_stars_spec _ _ _ Es) as (Hh & Hb & _).
  assert ((length (ch ++ r) <= length p)%nat \/ b = false) as Hl.
  { cbn [scan_stars] in Es. destruct (Ascii.eqb c "*"); [left|right; congruence]. injection Es as _ <-.
    destruct (scan_stars p) as [b' q'] eqn:E. clear -E. revert b' q' E.
    induction p as [|d p IH]; intros b' q'; cbn [scan_stars]; [intros [= <- <-]; done|].
    destruct (Ascii.eqb d "*"); [|intros [= <- <-]; done]. intros [= <- <-]. destruct (scan_stars p) as [b2 q2].
    cbn [snd]. specialize (IH _ _ eq_refl). cbn [snd length] in *. lia. }
  assert (forall x s, ch ++ r = x :: s -> x <> "*"%char -> ch <> []) as Hne.
  { intros x s E Hx ->. cbn [app] in *. subst r. revert Et. cbn [scan_text].
    apply Ascii.eqb_neq in Hx. rewrite Hx. cbn [andb].
    destruct (Ascii.eqb x "\"); [destruct s; [done|]|]; by destruct (scan_text _ _). }
  split.
  - rewrite length_app in Hl. destruct Hl as [Hl|Hl]; [cbn [length]; lia|]. specialize (Hb Hl).
    assert (ch <> []) as Hc.
    { apply (Hne c p); [done|]. intros ->. apply Hh. by rewrite <- Hb. }
    rewrite Hb, length_app. destruct ch; [done|]. cbn [length]. lia.
  - intros H. apply andb_true_iff in H as [_ H]. destruct ch as [|x ch]; [|done]. destruct r as [|x r]; [done|].
    exfalso. apply (Hne x r); [done| |done]. intros ->. by apply Hh.
Qed.

Lemma rest_ok_fuel f f' p : (length p < f)%nat -> (length p < f')%nat -> rest_ok f p = rest_ok f' p.
Proof.
  revert f' p. induction f as [|f IH]; intros [|f'] p H H'; try lia. cbn [rest_ok].
  destruct p as [|c p]; [done|]. destruct (scanChunk (c :: p)) as [[b ch] r] eqn:E.
  destruct (scanChunk_shorter _ _ _ _ _ E) as [Hl _]. destruct (matchChunk ch []); [|done]. apply IH; lia.
Qed.

Lemma match_loop_rest f p name : (length p < f)%nat -> is_ok (match_loop f p name) = is_ok (rest_ok f p).
Proof.
  revert p name. induction f as [|f IH]; intros p name H; [lia|]. cbn [match_loop rest_ok].
  destruct p as [|c p]; [done|]. destruct (scanChunk (c :: p)) as [[star ch] r] eqn:E.
  destruct (scanChunk_shorter _ _ _ _ _ E) as [Hl Hlast].
  destruct (star && is_nil (head ch)) eqn:E1.
  { rewrite (Hlast eq_refl). apply andb_true_iff in E1 as [_ E1]. destruct ch; [|done]. cbn. destruct f; [cbn [length] in H; lia|done]. }
  assert (is_ok (rest_ok (S (length r)) r) = is_ok (rest_ok f r)) as Hr by (f_equal; apply rest_ok_fuel; lia).
  destruct (matchChunk ch name) as [o|] eqn:Em.
  - destruct (matchChunk_ok _ _ [] _ Em) as [o' ->].
    pose proof (skip_loop_ok _ (is_nil (head r)) name _ _ Em) as Hs.
    destruct (skip_loop _ _ _) as [[u|]|]; [| |done]; destruct o as [t|]; repeat case_if; try (apply IH; lia); exact Hr.
  - destruct (matchChunk ch []) eqn:Em'; [|done]. by apply (match_chunk_err_same _ _ _ _ _ _ Em') in Em.
Qed.

Lemma Match_ok p name name' : is_ok (Match p name) = is_ok (Match p name').
Proof. unfold Match. by rewrite !match_loop_rest by lia. Qed.

(** On an ASCII name without a slash, such as a host name, a well-formed
    pattern matches exactly the names of its language. *)
Lemma Match_exact p name b :
  Match p name = Ok b -> all_ascii name = true -> slash ∉ name -> b = true <-> glob p name.
Proof.
  intros H Ha Hs. split.
  - intros ->. by apply Match_sound.
  - intros Hg. eapply match_loop_complete; eauto.
Qed.
(** ** Slashes *)

Definition slashes (s : gostr) : nat := length (filter (fun c => c = slash) s).

Lemma slashes_app s t : slashes (s ++ t) = (slashes s + slashes t)%nat.
Proof. unfold slashes. by rewrite filter_app, length_app. Qed.

Lemma slashes_none s : slash ∉ s -> slashes s = 0%nat.
Proof.
  unfold slashes. induction s as [|c s IH]; [done|]. intros [Hc Hs]%not_elem_of_cons.
  rewrite filter_cons, decide_False by congruence. auto.
Qed.

Lemma slashes_cons c s : slashes (c :: s) = ((if decide (c = slash) then 1 else 0) + slashes s)%nat.
Proof. unfold slashes. rewrite filter_cons. by destruct (decide (c = slash)). Qed.

Lemma slashes_rune x t :
  x <> slash -> slashes (drop (decode_rune (x :: t)).2 (x :: t)) = slashes (x :: t).
Proof.
  intros Hx. destruct (decode_rune (x :: t)) as [r n] eqn:Ed. cbn [snd].
  pose proof (decode_rune_width x t) as Hw. rewrite Ed in Hw. cbn [snd] in Hw.
  destruct n as [|n]; [lia|]. cbn [drop]. rewrite slashes_cons, decide_False by done. cbn [Nat.add].
  destruct ((r =? rune_error) && (S n =? 1)%nat) eqn:Ee.
  { apply andb_true_iff in Ee as [_ Ee%Nat.eqb_eq]. by replace n with 0%nat by lia. }
  pose proof (decode_rune_tail _ _ _ _ Ed Ee) as Ht. rewrite Nat.sub_succ, Nat.sub_0_r in Ht.
  rewrite <- (take_drop n t) at 2. rewrite slashes_app, (slashes_none (take n t)); [done|].
  intros Hin. rewrite Forall_forall in Ht. specialize (Ht _ Hin). done.
Qed.

(** Without a class, every slash of the name is a slash of the pattern. *)
Lemma glob_slashes p s : glob p s -> "["%char ∉ p -> slashes s = slashes p.
Proof.
  induction 1 as [|p a s Ha Hg IH|p x t Hx Hg IH|p rest t Ht Hc Hg IH|p e t Hg IH|p c t H1 H2 H3 H4 Hg IH];
    intros Hp; [done| .. ]; apply not_elem_of_cons in Hp as [Hp0 Hp]; try done.
  - rewrite slashes_app, (slashes_none a), IH by done. by rewrite slashes_cons.
  - rewrite slashes_rune in IH by done. rewrite IH by done. by rewrite slashes_cons.
  - apply not_elem_of_cons in Hp as [_ Hp]. rewrite !slashes_cons, IH by done. done.
  - rewrite !slashes_cons, IH by done. done.
Qed.
