(* ===== verification/GoClean.v ===== *)
(** * [path.Clean], and paths below paths

    [path.Clean] by components, as its documentation says it, which is
    [filepath.Clean] on Unix.  The rest is about paths in their simplest form:
    the sequences of names that join to them, and what it is for one to be
    below another. *)

From stdpp Require Import prelude list strings sorting.
From Stdlib Require Import ZArith Lia ZifyNat Ascii.
From S2P Require Import Prelude GoUnicode GoStrings GoPath.

Definition dot1 : gostr := lit ".".
Definition dot2 : gostr := lit "..".

(** One component after those of [st], the last one first: "." and an empty
    one go, ".." takes the one before it away, and stays at the start of a
    relative path only. *)
Definition clean_step (rooted : bool) (st : list gostr) (c : gostr) : list gostr :=
  if bool_decide (c = []) || bool_decide (c = dot1) then st
  else if bool_decide (c = dot2) then
    match st with
    | top :: st' => if bool_decide (top = dot2) then c :: st else st'
    | [] => if rooted then [] else [c]
    end
  else c :: st.

Definition path_Clean (p : gostr) : gostr :=
  if bool_decide (p = []) then dot1
  else
    let rooted := has_prefix p [slash] in
    let out := join [slash] (rev (foldl (clean_step rooted) [] (split_byte slash p))) in
    if rooted then slash :: out else if bool_decide (out = []) then dot1 else out.

Example path_Clean_examples :
  path_Clean <$> [lit "a//b/./c/"; lit "a/../../b"; lit "/../a"; lit "/a/b/.."; lit "a/.."; lit "./"; lit "//"; lit "../.."]
  = [lit "a/b/c"; lit "../b"; lit "/a"; lit "/a"; lit "."; lit "."; lit "/"; lit "../.."].
Proof. vm_compute. reflexivity. Qed.

(** [filepath.Ext]: from the last dot of the last element. *)
Fixpoint ext_loop (s : gostr) : option gostr :=
  match s with
  | [] => None
  | c :: s' =>
    match ext_loop s' with
    | Some e => Some e
    | None => if Ascii.eqb c "." && negb (has_byte slash s') then Some s else None
    end
  end.
Definition path_Ext (s : gostr) : gostr := default [] (ext_loop s).

(** ** Names and joined names *)

Definition normal (c : gostr) : Prop := c <> [] /\ c <> dot1 /\ c <> dot2 /\ slash ∉ c.

(** A path in its simplest form, relative and below where it starts. *)
Definition rel_path (p : gostr) : Prop := exists l, l <> [] /\ Forall normal l /\ p = join [slash] l.
Definition abs_path (p : gostr) : Prop := exists l, Forall normal l /\ p = slash :: join [slash] l.

Lemma normal_no_slash l : Forall normal l -> Forall (fun w => slash ∉ w) l.
Proof. intros H. eapply Forall_impl; [exact H|]. by intros w (_ & _ & _ & ?). Qed.

Lemma join_not_nil l : l <> [] -> Forall normal l -> join [slash] l <> [].
Proof.
  destruct l as [|w l]; [done|]. intros _ [(Hw & _) _]%Forall_cons. destruct w as [|c w]; [done|]. by destruct l.
Qed.

Lemma join_head l : Forall normal l -> has_prefix (join [slash] l) [slash] = false.
Proof.
  destruct l as [|w l]; [done|]. intros [(Hw & _ & _ & Hs) _]%Forall_cons. destruct w as [|c w]; [done|].
  apply not_elem_of_cons in Hs as [Hc _].
  assert (forall x, has_prefix ((c :: w) ++ x) [slash] = false) as H2.
  { intros x. destruct (has_prefix _ _) eqn:E; [|done]. apply has_prefix_true in E as [r [= E _]]. by subst c. }
  destruct l; [rewrite <- (app_nil_r (c :: w)); apply H2|]. apply H2.
Qed.

Lemma join_app l m : l <> [] -> m <> [] -> join [slash] (l ++ m) = join [slash] l ++ slash :: join [slash] m.
Proof.
  intros Hl Hm. induction l as [|w l IH]; [done|]. destruct l as [|v l].
  - by destruct m.
  - change (join [slash] ((w :: v :: l) ++ m)) with (w ++ [slash] ++ join [slash] ((v :: l) ++ m)).
    rewrite IH by done. change (join [slash] (w :: v :: l)) with (w ++ [slash] ++ join [slash] (v :: l)).
    by rewrite <- !app_assoc.
Qed.

(** ** What [path.Clean] keeps *)

Lemma clean_normal rooted l st : Forall normal l -> foldl (clean_step rooted) st l = rev l ++ st.
Proof.
  intros H. revert st. induction H as [|w l (H1 & H2 & H3 & _) H IH]; intros st; [done|].
  cbn [foldl rev]. rewrite IH. unfold clean_step. rewrite !bool_decide_false by done. cbn. by rewrite <- app_assoc.
Qed.

Lemma Clean_rel p : rel_path p -> path_Clean p = p.
Proof.
  intros (l & Hl & Hn & ->). unfold path_Clean. pose proof (join_not_nil l Hl Hn) as Hne.
  rewrite (bool_decide_false (join _ _ = [])), join_head by done.
  rewrite split_byte_join by (done || by apply normal_no_slash). rewrite clean_normal, app_nil_r, rev_involutive by done.
  by rewrite bool_decide_false.
Qed.

Lemma Clean_abs p : abs_path p -> path_Clean p = p.
Proof.
  intros (l & Hn & ->). unfold path_Clean. rewrite bool_decide_false by done.
  assert (has_prefix (slash :: join [slash] l) [slash] = true) as -> by by apply has_prefix_true; eexists.
  f_equal. cbn [split_byte]. rewrite Ascii.eqb_refl. cbn [foldl].
  change (clean_step true [] []) with (@nil gostr). destruct l as [|w l]; [done|].
  rewrite split_byte_join by (done || by apply normal_no_slash). by rewrite clean_normal, app_nil_r, rev_involutive by done.
Qed.

(** The components that are left, the last one first: names after any ".."s,
    and none of those in a rooted path. *)
Definition clean_stack (rooted : bool) (st : list gostr) : Prop :=
  exists l n, Forall normal l /\ st = l ++ repeat dot2 n /\ (rooted = true -> n = 0%nat).

Lemma clean_step_stack rooted st c : slash ∉ c -> clean_stack rooted st -> clean_stack rooted (clean_step rooted st c).
Proof.
  intros Hc (l & n & Hl & -> & Hr). unfold clean_step.
  case_bool_decide as H1; [by exists l, n|]. case_bool_decide as H2; [by exists l, n|]. cbn [orb].
  case_bool_decide as H3.
  - subst c. destruct l as [|w l]; cbn.
    + destruct n as [|n]; cbn.
      * destruct rooted; [by exists [], 0%nat|]. exists [], 1%nat. done.
      * rewrite bool_decide_true by done. exists [], (S (S n)). split; [done|]. split; [done|]. intros ->. by specialize (Hr eq_refl).
    + apply Forall_cons in Hl as [(_ & _ & Hw & _) Hl]. rewrite bool_decide_false by done. by exists l, n.
  - exists (c :: l), n. split; [|done]. constructor; [|done]. done.
Qed.

Lemma clean_stack_loop rooted l st :
  Forall (fun c => slash ∉ c) l -> clean_stack rooted st -> clean_stack rooted (foldl (clean_step rooted) st l).
Proof.
  intros H. revert st. induction H as [|c l Hc H IH]; intros st Hst; [done|]. cbn. by apply IH, clean_step_stack.
Qed.

(** What [path.Clean] returns. *)
Lemma Clean_shape p :
  path_Clean p = dot1 \/ abs_path (path_Clean p) \/ rel_path (path_Clean p) \/
  (exists r, path_Clean p = dot2 ++ r /\ (r = [] \/ exists r', r = slash :: r')).
Proof.
  unfold path_Clean. case_bool_decide; [by left|].
  destruct (clean_stack_loop (has_prefix p [slash]) (split_byte slash p) [] (split_byte_no_sep _ _)) as (l & n & Hl & E & Hr).
  { by exists [], 0%nat. }
  rewrite E, rev_app_distr. apply Forall_rev in Hl. set (m := rev l) in *. clearbody m.
  destruct (has_prefix p [slash]).
  - rewrite (Hr eq_refl). right; left. by exists m.
  - case_bool_decide; [by left|]. right; right. destruct n as [|n].
    + left. exists m. split; [|done]. intros ->. done.
    + right. rewrite rev_repeat. change (repeat dot2 (S n) ++ m) with (dot2 :: (repeat dot2 n ++ m)).
      destruct (repeat dot2 n ++ m) as [|x r].
      * exists []. split; [done|by left].
      * exists (slash :: join [slash] (x :: r)). split; [done|]. right. by eexists.
Qed.

(** ** Below a path *)

(** What is left of [p] after [m]: nothing, or from the slash that follows. *)
Definition rest_of (m p : gostr) : option gostr :=
  match strip_prefix m p with
  | Some [] => Some []
  | Some (c :: r) => if Ascii.eqb c slash then Some (c :: r) else None
  | None => None
  end.

Definition tail_ok (r : gostr) : Prop := r = [] \/ exists r', r = slash :: r'.

Lemma rest_of_Some m p r : rest_of m p = Some r <-> p = m ++ r /\ tail_ok r.
Proof.
  unfold rest_of. split.
  - destruct (strip_prefix m p) as [[|c s]|] eqn:E; [| |done].
    + intros [= <-]. apply strip_prefix_Some in E. split; [done|by left].
    + destruct (Ascii.eqb_spec c slash) as [->|]; [|done]. intros [= <-]. apply strip_prefix_Some in E.
      split; [done|]. right. by eexists.
  - intros [-> Hr]. rewrite strip_prefix_app. destruct Hr as [->|[r' ->]]; [done|]. by rewrite Ascii.eqb_refl.
Qed.

Lemma rest_of_app m r : tail_ok r -> rest_of m (m ++ r) = Some r.
Proof. intros Hr. by apply rest_of_Some. Qed.

Lemma rest_of_refl m : rest_of m m = Some [].
Proof. apply rest_of_Some. rewrite app_nil_r. split; [done|by left]. Qed.

Lemma tail_ok_app r s : tail_ok r -> tail_ok s -> tail_ok (r ++ s).
Proof. intros [->|[r' ->]] Hs; [done|]. right. by eexists. Qed.

Lemma rest_of_trans a b c r s : rest_of a b = Some r -> rest_of b c = Some s -> rest_of a c = Some (r ++ s).
Proof.
  intros [-> Hr]%rest_of_Some [-> Hs]%rest_of_Some. rewrite <- app_assoc. by apply rest_of_app, tail_ok_app.
Qed.

(** Two paths above one are above one another. *)
Lemma rest_of_comparable a b p r s :
  rest_of a p = Some r -> rest_of b p = Some s -> is_Some (rest_of a b) \/ is_Some (rest_of b a).
Proof.
  intros [-> Hr]%rest_of_Some [E Hs]%rest_of_Some.
  assert (forall a b r s, a ++ r = b ++ s -> tail_ok r -> (length a <= length b)%nat -> is_Some (rest_of a b)) as G.
  { clear. intros a b r s E Hr Hl.
    assert (b = a ++ take (length b - length a) r) as Hb.
    { pose proof (f_equal (take (length b)) E) as E'. rewrite take_app_length, take_app, take_ge in E' by lia. done. }
    rewrite Hb. exists (take (length b - length a) r). apply rest_of_app.
    destruct Hr as [->|[r' ->]]; [rewrite take_nil; by left|].
    destruct (length b - length a)%nat; [by left|right; by eexists]. }
  destruct (le_ge_dec (length a) (length b)).
  - left. by eapply G.
  - right. by eapply G; [symmetry| |lia].
Qed.

Lemma slashes_join l : Forall normal l -> slashes (join [slash] l) = pred (length l).
Proof.
  intros H. induction H as [|w l (_ & _ & _ & Hw) H IH]; [done|]. destruct l as [|v l].
  - by apply slashes_none.
  - change (join [slash] (w :: v :: l)) with (w ++ slash :: join [slash] (v :: l)).
    rewrite slashes_app, slashes_cons, IH, (slashes_none w) by done. done.
Qed.
