(* ===== verification/Profile.v ===== *)
(** * Profiles (internal/profile)

    A profile as data, the volumes it mounts and the order they are mounted in,
    and every check of [Profile.Validate].  The YAML decoder is third party; a
    decoded profile is where the model starts. *)

From stdpp Require Import prelude list strings gmap sorting.
From Stdlib Require Import ZArith Lia ZifyNat Ascii.
From S2P Require Import Prelude GoUnicode GoStrings GoNum GoJson GoPath GoClean Secret.

Local Open Scope Z_scope.

(** ** profile.go and binding.go: the document *)

Definition KindAgent : gostr := lit "agent".
Definition KindShell : gostr := lit "shell".
Definition KindGUI : gostr := lit "gui".

Definition NamespaceSecrets : gostr := lit "secrets".
Definition NamespaceEnv : gostr := lit "env".

Record Source := MkSource { so_from : gostr; so_service : gostr; so_path : gostr; so_var : gostr; so_hint : gostr }.

Record SecretDecl := MkSecretDecl {
  sd_name : gostr; sd_required : option bool; sd_field : gostr; sd_expiryField : gostr; sd_sources : slice Source;
  sd_from : gostr; sd_service : gostr; sd_path : gostr; sd_var : gostr; sd_hint : gostr }.

Record EnvBinding := MkEnvBinding { eb_name : gostr; eb_value : gostr; eb_ref : gostr; eb_refs : list gostr }.
Record FileBinding := MkFileBinding { fb_ref : gostr; fb_path : gostr; fb_mode : gostr }.
Record Volume := MkVolume {
  v_kind : gostr; v_path : gostr; v_source : gostr; v_size : gostr; v_file : bool; v_at : gostr }.
Record Onboarding := MkOnboarding { ob_file : gostr; ob_seed : list (gostr * json); ob_trustKey : gostr * gostr }.

Record Profile := MkProfile {
  p_name : gostr; p_desc : gostr; p_binary : gostr; p_image : gostr; p_guestHome : gostr;
  p_secrets : list SecretDecl; p_env : list EnvBinding; p_deny : list gostr; p_files : list FileBinding;
  p_volumes : list Volume; p_headless : bool; p_kind : gostr; p_guiTitle : gostr; p_mem : Z; p_cpus : Z;
  p_hypervisor : gostr; p_network : gostr; p_runtimeBin : gostr; p_rootfsType : gostr; p_genericBoot : bool;
  p_staleCredentialFiles : list gostr; p_onboarding : option Onboarding; p_hostConfigDir : gostr;
  p_projectPaths : list gostr; p_unpublished : bool; p_reserved : bool; p_policy : list gostr }.

#[export] Instance Source_eq_dec : EqDecision Source.
Proof. solve_decision. Defined.
#[export] Instance SecretDecl_eq_dec : EqDecision SecretDecl.
Proof. solve_decision. Defined.
#[export] Instance EnvBinding_eq_dec : EqDecision EnvBinding.
Proof. solve_decision. Defined.
#[export] Instance FileBinding_eq_dec : EqDecision FileBinding.
Proof. solve_decision. Defined.
#[export] Instance Volume_eq_dec : EqDecision Volume.
Proof. solve_decision. Defined.

(** [Profile.kind]: the kind with the default applied. *)
Definition kind (p : Profile) : gostr := if bool_decide (p_kind p = []) then KindAgent else p_kind p.
Definition IsShell (p : Profile) : bool := bool_decide (kind p = KindShell).
Definition IsGUI (p : Profile) : bool := bool_decide (kind p = KindGUI).

(** [Profile.Denied]. *)
Definition Denied (p : Profile) (name : gostr) : bool := existsb (fun d => bool_decide (d = name)) (p_deny p).

(** [Profile.GuestUser]: what follows the last slash of the home. *)
Definition GuestUser (p : Profile) : gostr :=
  match cut_last slash (p_guestHome p) with Some (_, u) => u | None => p_guestHome p end.

(** ** binding.go: refs *)

Record Ref := MkRef { rf_namespace : gostr; rf_name : gostr }.

Definition ref_string (r : Ref) : gostr := rf_namespace r ++ lit "." ++ rf_name r.

Inductive ref_error := RefNoNamespace | RefEmpty | RefUnknown (namespace : gostr).

Definition ParseRef (s : gostr) : res ref_error Ref :=
  let '(namespace, name, ok) := cut s (lit ".") in
  if negb ok then Err RefNoNamespace
  else if bool_decide (namespace = []) || bool_decide (name = []) then Err RefEmpty
  else if bool_decide (namespace = NamespaceSecrets) || bool_decide (namespace = NamespaceEnv) then Ok (MkRef namespace name)
  else Err (RefUnknown namespace).

Definition RefList (b : EnvBinding) : list gostr :=
  match eb_refs b with
  | _ :: _ => eb_refs b
  | [] => if bool_decide (eb_ref b = []) then [] else [eb_ref b]
  end.

(** [EnvBinding.Resolved]: [None] for a binding with a literal. *)
Definition Resolved (b : EnvBinding) : res ref_error (option Ref) :=
  if bool_decide (eb_ref b = []) then Ok None else let? r := ParseRef (eb_ref b) in Ok (Some r).

(** ** secrets.go *)

Definition SourceKeychain : gostr := lit "keychain".
Definition SourceFile : gostr := lit "file".
Definition SourceEnv : gostr := lit "env".
Definition SourceAWS : gostr := lit "aws".
Definition SourceGCloud : gostr := lit "gcloud".

Definition locatorValue (s : Source) : gostr :=
  if bool_decide (so_from s = SourceKeychain) then so_service s
  else if bool_decide (so_from s = SourceFile) then so_path s
  else if bool_decide (so_from s = SourceEnv) then so_var s
  else [].

Definition Locator (s : Source) : gostr := so_from s ++ lit ":" ++ locatorValue s.

Definition IsRequired (d : SecretDecl) : bool := match sd_required d with None => true | Some b => b end.

Definition SourceList (d : SecretDecl) : list Source :=
  match elems (sd_sources d) with
  | _ :: _ => elems (sd_sources d)
  | [] =>
    if bool_decide (sd_from d = []) then []
    else [MkSource (sd_from d) (sd_service d) (sd_path d) (sd_var d) (sd_hint d)]
  end.

Definition HintText (d : SecretDecl) : gostr :=
  if negb (bool_decide (sd_hint d = [])) then sd_hint d
  else match List.find (fun s => negb (bool_decide (so_hint s = []))) (SourceList d) with Some s => so_hint s | None => [] end.

Definition Importable (d : SecretDecl) : bool := (0 <? length (SourceList d))%nat.
Definition SecretNames (l : list SecretDecl) : list gostr := foldl (fun names d => names ++ [sd_name d]) [] l.

(** [Profile.Secret]. *)
Definition find_secret (p : Profile) (name : gostr) : option SecretDecl :=
  List.find (fun d => bool_decide (sd_name d = name)) (p_secrets p).

(** ** volumes.go *)

Definition VolumeTmpfs : gostr := lit "tmpfs".
Definition VolumeHostMount : gostr := lit "hostmount".
Definition VolumeNamed : gostr := lit "volume".
Definition defaultTmpfsSize : gostr := lit "64m".

(** The rest of [tmpfsSizePattern], [[0-9]*[kKmMgG]?$]. *)
Fixpoint size_tail (s : gostr) : bool :=
  match s with
  | [] => true
  | [c] => is_digit c || has_byte c (lit "kKmMgG")
  | c :: s' => is_digit c && size_tail s'
  end.
Definition tmpfsSizePattern (s : gostr) : bool :=
  match s with c :: s' => in_range 49 57 (bz c) && size_tail s' | [] => false end.

Definition TmpfsOptions (v : Volume) : gostr :=
  lit "size=" ++ (if bool_decide (v_size v = []) then defaultTmpfsSize else v_size v) ++ lit ",mode=0700,nodev,nosuid".

Definition systemTrees : list gostr :=
  lit <$> ["/proc"; "/sys"; "/dev"; "/run"; "/tmp"; "/etc"; "/usr"; "/bin"; "/sbin"; "/boot"; "/var"; "/work"]%string.

Definition Under (child parent : gostr) : bool :=
  negb (bool_decide (child = parent)) && has_prefix (path_Clean child) (path_Clean parent ++ [slash]).

Inductive at_error := AtRelative | AtDots | AtForm | AtRoot | AtHome | AtSystem (first : gostr).

Definition tmpfsAt (at_ home : gostr) : res at_error unit :=
  fail_if (negb (has_prefix at_ [slash])) AtRelative ;?
  fail_if (mem (lit "..") (split_byte slash at_)) AtDots ;?
  fail_if (negb (bool_decide (path_Clean at_ = at_))) AtForm ;?
  fail_if (bool_decide (at_ = [slash])) AtRoot ;?
  fail_if (negb (bool_decide (home = [])) && (bool_decide (at_ = home) || Under at_ home || Under home at_)) AtHome ;?
  let first := slash :: nth 1 (split_byte slash at_) [] in
  fail_if (mem first systemTrees || has_prefix first (lit "/lib")) (AtSystem first).

Definition pathDepth (p : gostr) : nat := slashes (path_Clean p).

Definition MountOrder (l : list Volume) : list Volume := stable_sort (fun v => pathDepth (v_path v)) l.

Definition volumesOfKind (p : Profile) (k : gostr) : list Volume :=
  filter (fun v => v_kind v = k) (MountOrder (p_volumes p)).
Definition Tmpfs (p : Profile) : list Volume := volumesOfKind p VolumeTmpfs.
Definition HostMounts (p : Profile) : list Volume := volumesOfKind p VolumeHostMount.

Definition EphemeralPath (p : Profile) (target : gostr) : bool :=
  existsb (fun v => bool_decide (v_kind v = VolumeTmpfs) && (Under target (v_path v) || bool_decide (target = v_path v))) (p_volumes p)
  && negb (existsb (fun v => bool_decide (v_kind v = VolumeHostMount) &&
                             (bool_decide (target = v_path v) || Under target (v_path v))) (p_volumes p)).

Fixpoint octal_value (acc : Z) (s : gostr) : option Z :=
  match s with
  | [] => Some acc
  | c :: s' => if in_range 48 55 (bz c) then octal_value (acc * 8 + (bz c - 48)) s' else None
  end.

Inductive mode_error := ModeNotOctal | ModeTooMany.
Definition DefaultFileMode : Z := 384.

Definition FileMode (b : FileBinding) : res mode_error Z :=
  if bool_decide (fb_mode b = []) then Ok DefaultFileMode
  else
    match octal_value 0 (fb_mode b) with
    | Some n => if 2 ^ 32 <=? n then Err ModeNotOctal else if 511 <? n then Err ModeTooMany else Ok n
    | None => Err ModeNotOctal
    end.

Inductive path_error := PathEmpty | PathAbsolute | PathHome | PathEscapes | PathForm (clean : gostr).

Definition guestPath (p : gostr) : res path_error unit :=
  if bool_decide (p = []) then Err PathEmpty
  else if has_prefix p [slash] then Err PathAbsolute
  else if has_prefix p (lit "~") then Err PathHome
  else
    let clean := path_Clean p in
    if bool_decide (clean = lit ".") || bool_decide (clean = lit "..") || has_prefix clean (lit "../") then Err PathEscapes
    else if negb (bool_decide (clean = p)) then Err (PathForm clean)
    else Ok tt.

(** ** validate.go *)

Inductive profile_error :=
  | PNoName | PName | PNoImage | PNoHome | PNoBinary | PMem | PHypervisor | PNetwork | PRootfs
  | PPolicyName (n : gostr) | PPolicyShell | PPolicyGUI | PKind (k : gostr)
  | PSecretName (e : name_error) | PSecretTwice (n : gostr) | PSecretBoth (n : gostr) | PSecretNoSources (n : gostr)
  | PSourceNoFrom (n : gostr) | PSourceFrom (n from : gostr) | PSourceExtra (n from key : gostr) | PSourceMissing (n from key : gostr)
  | PVolumeNamed (path : gostr) | PVolumeNoKind | PVolumeKind (path k : gostr) | PVolumePath (path : gostr) (e : path_error)
  | PVolumeTwice (path : gostr) | PVolumeSource (path : gostr) | PVolumeFile (path : gostr) | PVolumeSizeKind (path : gostr)
  | PVolumeSize (path : gostr) | PVolumeAtKind (path : gostr) | PVolumeAt (path : gostr) (e : at_error)
  | PVolumeAtTwice (other path : gostr) | PVolumeNested (a b : gostr) | PVolumeNoTmpfs (path : gostr)
  | PFilePath (path : gostr) (e : path_error) | PFileTwice (path : gostr) | PFileMode (path : gostr) (e : mode_error)
  | PFileNoRef (path : gostr) | PFileRef (path : gostr) (e : ref_error) | PFileNotSecret (path : gostr)
  | PFileUndeclared (path name : gostr) | PFileOnDisk (path : gostr)
  | PEnvNoName | PEnvName (n : gostr) | PEnvTwice (n : gostr) | PEnvRefAndRefs (n : gostr) | PEnvValueAndRef (n : gostr)
  | PEnvNothing (n : gostr) | PEnvDenied (n : gostr) | PEnvRef (n : gostr) (e : ref_error) | PEnvUndeclared (n name : gostr).

Definition locator_key (s : Source) (key : gostr) : gostr :=
  if bool_decide (key = lit "service") then so_service s
  else if bool_decide (key = lit "path") then so_path s
  else if bool_decide (key = lit "var") then so_var s else [].

(** [validateSource]: the locator that its [from] wants, and none of the
    others. *)
Definition validateSource (name : gostr) (s : Source) : res profile_error unit :=
  let from := so_from s in
  let? we := (if bool_decide (from = SourceKeychain) then Ok (lit "service", [lit "path"; lit "var"])
              else if bool_decide (from = SourceFile) then Ok (lit "path", [lit "service"; lit "var"])
              else if bool_decide (from = SourceEnv) then Ok (lit "var", [lit "service"; lit "path"])
              else if bool_decide (from = SourceAWS) || bool_decide (from = SourceGCloud)
              then Ok ([], [lit "service"; lit "path"; lit "var"])
              else if bool_decide (from = []) then Err (PSourceNoFrom name) else Err (PSourceFrom name from)) in
  check_all (fun k => fail_if (negb (bool_decide (locator_key s k = []))) (PSourceExtra name from k)) we.2 ;?
  fail_if (negb (bool_decide (we.1 = [])) && bool_decide (locatorValue s = [])) (PSourceMissing name from we.1).

Fixpoint validateSecrets (declared : list gostr) (l : list SecretDecl) : res profile_error (list gostr) :=
  match l with
  | [] => Ok declared
  | d :: l' =>
    map_err PSecretName (ValidName (sd_name d)) ;?
    fail_if (mem (sd_name d) declared) (PSecretTwice (sd_name d)) ;?
    fail_if (negb (bool_decide (sd_from d = [])) && negb (bool_decide (elems (sd_sources d) = []))) (PSecretBoth (sd_name d)) ;?
    fail_if (negb (is_nil (sd_sources d)) && bool_decide (elems (sd_sources d) = [])) (PSecretNoSources (sd_name d)) ;?
    check_all (validateSource (sd_name d)) (SourceList d) ;?
    validateSecrets (sd_name d :: declared) l'
  end.

Definition checkVolumeKind (v : Volume) : res profile_error unit :=
  if bool_decide (v_kind v = VolumeTmpfs) || bool_decide (v_kind v = VolumeHostMount) then Ok tt
  else if bool_decide (v_kind v = VolumeNamed) then Err (PVolumeNamed (v_path v))
  else if bool_decide (v_kind v = []) then Err PVolumeNoKind
  else Err (PVolumeKind (v_path v) (v_kind v)).

(** Two mounts that cover one another. *)
Definition overlaps (a b : gostr) : bool := bool_decide (a = b) || Under a b || Under b a.

(** One turn of the first loop of [validateVolumes]: the paths and the tmpfs
    before this one are [seen] and [tmpfs]. *)
Definition checkVolume (home : gostr) (seen : list gostr) (tmpfs : list Volume) (v : Volume) : res profile_error unit :=
  checkVolumeKind v ;?
  map_err (PVolumePath (v_path v)) (guestPath (v_path v)) ;?
  fail_if (mem (v_path v) seen) (PVolumeTwice (v_path v)) ;?
  fail_if (negb (bool_decide (v_source v = []))) (PVolumeSource (v_path v)) ;?
  fail_if (v_file v && negb (bool_decide (v_kind v = VolumeHostMount))) (PVolumeFile (v_path v)) ;?
  (if bool_decide (v_size v = []) then Ok tt
   else
     fail_if (negb (bool_decide (v_kind v = VolumeTmpfs))) (PVolumeSizeKind (v_path v)) ;?
     fail_if (negb (tmpfsSizePattern (v_size v))) (PVolumeSize (v_path v))) ;?
  (if bool_decide (v_at v = []) then Ok tt
   else
     fail_if (negb (bool_decide (v_kind v = VolumeTmpfs))) (PVolumeAtKind (v_path v)) ;?
     map_err (PVolumeAt (v_path v)) (tmpfsAt (v_at v) home) ;?
     check_all (fun t => fail_if (negb (bool_decide (v_at t = [])) && overlaps (v_at t) (v_at v)) (PVolumeAtTwice (v_path t) (v_path v))) tmpfs).

Fixpoint checkVolumes (home : gostr) (seen : list gostr) (tmpfs l : list Volume) : res profile_error (list Volume) :=
  match l with
  | [] => Ok tmpfs
  | v :: l' =>
    checkVolume home seen tmpfs v ;?
    checkVolumes home (v_path v :: seen) (if bool_decide (v_kind v = VolumeTmpfs) then tmpfs ++ [v] else tmpfs) l'
  end.

(** The pairs of tmpfs one of which is inside the other and one of which sets
    [at:]. *)
Fixpoint checkNested (tmpfs : list Volume) : res profile_error unit :=
  match tmpfs with
  | [] => Ok tt
  | a :: l =>
    check_all (fun b => fail_if ((negb (bool_decide (v_at a = [])) || negb (bool_decide (v_at b = []))) &&
      (Under (v_path a) (v_path b) || Under (v_path b) (v_path a))) (PVolumeNested (v_path a) (v_path b))) l ;?
    checkNested l
  end.

Definition nestedUnder (target : gostr) (l : list Volume) : bool := existsb (fun v => Under target (v_path v)) l.

Definition validateVolumes (p : Profile) : res profile_error unit :=
  let? tmpfs := checkVolumes (p_guestHome p) [] [] (p_volumes p) in
  checkNested tmpfs ;?
  check_all (fun v => fail_if (bool_decide (v_kind v = VolumeHostMount) && negb (nestedUnder (v_path v) tmpfs)) (PVolumeNoTmpfs (v_path v)))
    (p_volumes p).

Definition checkFile (p : Profile) (declared : list gostr) (b : FileBinding) : res profile_error unit :=
  (let? _ := map_err (PFileMode (fb_path b)) (FileMode b) in Ok tt) ;?
  fail_if (bool_decide (fb_ref b = [])) (PFileNoRef (fb_path b)) ;?
  let? r := map_err (PFileRef (fb_path b)) (ParseRef (fb_ref b)) in
  fail_if (negb (bool_decide (rf_namespace r = NamespaceSecrets))) (PFileNotSecret (fb_path b)) ;?
  fail_if (negb (mem (rf_name r) declared)) (PFileUndeclared (fb_path b) (rf_name r)) ;?
  fail_if (negb (EphemeralPath p (fb_path b))) (PFileOnDisk (fb_path b)).

Fixpoint validateFiles (p : Profile) (declared bound : list gostr) (l : list FileBinding) : res profile_error unit :=
  match l with
  | [] => Ok tt
  | b :: l' =>
    map_err (PFilePath (fb_path b)) (guestPath (fb_path b)) ;?
    fail_if (mem (fb_path b) bound) (PFileTwice (fb_path b)) ;?
    checkFile p declared b ;?
    validateFiles p declared (fb_path b :: bound) l'
  end.

Definition checkEnvRef (declared : list gostr) (n raw : gostr) : res profile_error unit :=
  let? r := map_err (PEnvRef n) (ParseRef raw) in
  fail_if (bool_decide (rf_namespace r = NamespaceSecrets) && negb (mem (rf_name r) declared)) (PEnvUndeclared n (rf_name r)).

Definition checkEnv (p : Profile) (declared : list gostr) (b : EnvBinding) : res profile_error unit :=
  let hasValue := negb (bool_decide (eb_value b = [])) in
  let hasRef := negb (bool_decide (eb_ref b = [])) in
  let hasRefs := (0 <? length (eb_refs b))%nat in
  fail_if (hasRef && hasRefs) (PEnvRefAndRefs (eb_name b)) ;?
  fail_if (hasValue && (hasRef || hasRefs)) (PEnvValueAndRef (eb_name b)) ;?
  fail_if (negb hasValue && negb hasRef && negb hasRefs) (PEnvNothing (eb_name b)) ;?
  fail_if (Denied p (eb_name b)) (PEnvDenied (eb_name b)) ;?
  check_all (checkEnvRef declared (eb_name b)) (RefList b).

Fixpoint validateEnv (p : Profile) (declared bound : list gostr) (l : list EnvBinding) : res profile_error unit :=
  match l with
  | [] => Ok tt
  | b :: l' =>
    fail_if (bool_decide (eb_name b = [])) PEnvNoName ;?
    fail_if (contains_any (eb_name b) (lit "= " ++ [zb 9; zb 10])) (PEnvName (eb_name b)) ;?
    fail_if (mem (eb_name b) bound) (PEnvTwice (eb_name b)) ;?
    checkEnv p declared b ;?
    validateEnv p declared (eb_name b :: bound) l'
  end.

Definition validateBindings (p : Profile) : res profile_error unit :=
  let? declared := validateSecrets [] (p_secrets p) in
  validateVolumes p ;?
  validateFiles p declared [] (p_files p) ;?
  validateEnv p declared [] (p_env p).

(** ** file.go *)

(** The loop of [safeName] over the runes. *)
Fixpoint safe_runes (first : bool) (l : list Z) : bool :=
  match l with
  | [] => true
  | r :: l' =>
    (in_range 97 122 r || in_range 48 57 r || ((bool_decide (r = 46) || bool_decide (r = 45) || bool_decide (r = 95)) && negb first))
    && safe_runes false l'
  end.
Definition safeName (s : gostr) : bool := negb (bool_decide (s = [])) && safe_runes true (runes s).

Definition one_of (s : gostr) (l : list string) : bool := mem s (lit <$> l).

Definition Validate (p : Profile) : res profile_error unit :=
  fail_if (bool_decide (p_name p = [])) PNoName ;?
  fail_if (negb (safeName (p_name p))) PName ;?
  fail_if (bool_decide (p_image p = [])) PNoImage ;?
  fail_if (bool_decide (p_guestHome p = []) || negb (has_prefix (p_guestHome p) [slash])) PNoHome ;?
  fail_if (bool_decide (p_binary p = []) && bool_decide (kind p = KindAgent)) PNoBinary ;?
  validateBindings p ;?
  fail_if ((p_mem p <=? 0) || (p_cpus p <=? 0)) PMem ;?
  fail_if (negb (one_of (p_hypervisor p) [""; "vz"; "hvi"; "qemu"]%string)) PHypervisor ;?
  fail_if (negb (one_of (p_network p) [""; "shared"; "isolated"; "offline"]%string)) PNetwork ;?
  fail_if (negb (one_of (p_rootfsType p) [""; "block"; "virtiofs"; "9pfs"]%string)) PRootfs ;?
  check_all (fun n => fail_if (negb (safeName n)) (PPolicyName n)) (p_policy p) ;?
  match p_policy p with
  | [] => Ok tt
  | _ => fail_if (IsShell p) PPolicyShell ;? fail_if (IsGUI p) PPolicyGUI
  end.

(** [normaliseKind]: the kind that the profile then carries. *)
Definition normaliseKind (p : Profile) : res profile_error gostr :=
  let k := kind p in
  if bool_decide (k = KindAgent) || bool_decide (k = KindShell) || bool_decide (k = KindGUI) then Ok k else Err (PKind k).

(** ** Paths *)

Lemma has_prefix_false_head c p x : has_prefix (c :: p) [x] = negb (bool_decide (c <> x)).
Proof.
  destruct (has_prefix _ _) eqn:E.
  - apply has_prefix_true in E as [r [= -> _]]. by rewrite bool_decide_false by (intros H; by apply H).
  - rewrite bool_decide_true; [done|]. intros ->. assert (has_prefix (x :: p) [x] = true) by (apply has_prefix_true; by exists p). congruence.
Qed.

(** The paths that [guestPath] takes: names joined by slashes, none of them
    empty, "." or "..", and not from the home of a user. *)
Lemma guestPath_ok p : guestPath p = Ok tt <-> rel_path p /\ has_prefix p (lit "~") = false.
Proof.
  unfold guestPath. split.
  - case_bool_decide as H0; [done|]. destruct (has_prefix p [slash]) eqn:H1; [done|].
    destruct (has_prefix p (lit "~")) eqn:H2; [done|].
    destruct (bool_decide (path_Clean p = lit ".") || bool_decide (path_Clean p = lit "..") || has_prefix (path_Clean p) (lit "../")) eqn:H3; [done|].
    rewrite !orb_false_iff, !bool_decide_eq_false in H3. destruct H3 as [[H3 H4] H5].
    case_bool_decide as H6; [|done]. intros _. split; [|done].
    destruct (Clean_shape p) as [E|[(l & _ & E)|[E|(r & E & Hr)]]].
    + done.
    + rewrite E in H6. rewrite <- H6 in H1. by rewrite has_prefix_false_head in H1.
    + by rewrite H6 in E.
    + destruct Hr as [->|[r' ->]]; [by rewrite app_nil_r in E|].
      exfalso. rewrite E in H5. change (has_prefix (lit "../" ++ r') (lit "../") = false) in H5.
      assert (has_prefix (lit "../" ++ r') (lit "../") = true) by (apply has_prefix_true; by eexists). congruence.
  - intros [Hp H2]. pose proof (Clean_rel p Hp) as E. destruct Hp as (l & Hl & Hn & Hp).
    rewrite E, H2. pose proof (join_not_nil l Hl Hn). pose proof (join_head l Hn) as Hh. rewrite <- Hp in *.
    rewrite (bool_decide_false (p = [])), Hh, (bool_decide_true (p = p)) by done. cbn [negb].
    destruct l as [|w l]; [done|]. apply Forall_cons in Hn as [(H1 & H3 & H4 & H5) Hn].
    assert (forall r, p = dot2 ++ r -> tail_ok r -> False) as Hd.
    { intros r Er Hr. assert (split_byte slash p = w :: l) as Es.
      { rewrite Hp. apply split_byte_join; [done|]. constructor; [done|]. by apply normal_no_slash. }
      assert (slash ∉ dot2) as Hs by (intros Hi; repeat (apply elem_of_cons in Hi as [Hi|Hi]; [done|]); by apply elem_of_nil in Hi).
      destruct Hr as [->|[r' ->]]; rewrite Er in Es.
      - rewrite app_nil_r, split_byte_none in Es by done. by injection Es as <- _.
      - rewrite split_byte_app in Es by done. by injection Es as <- _. }
    rewrite !bool_decide_false.
    + destruct (has_prefix p (lit "../")) eqn:H6; [|done]. apply has_prefix_true in H6 as [r Er].
      exfalso. apply (Hd (slash :: r)); [done|]. right. by eexists.
    + intros E2. apply (Hd []); [by rewrite app_nil_r|by left].
    + intros E2. assert (split_byte slash p = w :: l) as Es.
      { rewrite Hp. apply split_byte_join; [done|]. constructor; [done|]. by apply normal_no_slash. }
      rewrite E2 in Es. vm_compute in Es. injection Es as <- _. by apply H3.
Qed.

(** One path is below another, for paths in their simplest form. *)
Lemma Under_rest c q : path_Clean c = c -> path_Clean q = q ->
  Under c q = true <-> exists r, rest_of q c = Some (slash :: r).
Proof.
  intros Hc Hq. unfold Under. rewrite Hc, Hq, andb_true_iff, negb_true_iff, bool_decide_eq_false, has_prefix_true. split.
  - intros [_ [r E]]. exists r. apply rest_of_Some. split; [by rewrite E, <- app_assoc|right; by eexists].
  - intros [r [E _]%rest_of_Some]. split.
    + intros ->. apply (f_equal length) in E. rewrite length_app in E. cbn in E. lia.
    + exists r. by rewrite E, <- app_assoc.
Qed.

Lemma covers_rest c q : path_Clean c = c -> path_Clean q = q ->
  bool_decide (c = q) || Under c q = true <-> is_Some (rest_of q c).
Proof.
  intros Hc Hq. rewrite orb_true_iff, bool_decide_eq_true, Under_rest by done. split.
  - intros [->|[r E]]; [exists []; apply rest_of_refl|by eexists].
  - intros [r E]. pose proof E as [Ec Hr]%rest_of_Some. destruct Hr as [->|[r' ->]]; [left|right; by eexists].
    by rewrite app_nil_r in Ec.
Qed.

Lemma Under_deeper c q : Under c q = true -> (pathDepth q < pathDepth c)%nat.
Proof.
  unfold Under, pathDepth. intros [_ [r E]%has_prefix_true]%andb_true_iff. rewrite E, !slashes_app.
  change (slashes [slash]) with 1%nat. lia.
Qed.

(** ** The order of the mounts *)

Definition depth (v : Volume) : nat := pathDepth (v_path v).

(** The volumes are mounted parents first: the order holds the volumes of
    the list, none before one that it lies under, and those at one depth as
    their author wrote them. *)
Lemma MountOrder_spec (l : list Volume) :
  Permutation (MountOrder l) l /\
  StronglySorted (fun v w => (depth v <= depth w)%nat /\ Under (v_path v) (v_path w) = false) (MountOrder l) /\
  forall d, filter (fun v => depth v = d) (MountOrder l) = filter (fun v => depth v = d) l.
Proof.
  split_and!; [apply stable_sort_perm| |intros d; apply stable_sort_stable].
  pose proof (stable_sort_sorted depth l) as H. fold (MountOrder l) in H.
  change (stable_sort depth l) with (MountOrder l) in H.
  induction H as [|v m H IH Hv]; constructor; [done|]. eapply Forall_impl; [exact Hv|]. cbn. intros w Hw. split; [done|].
  destruct (Under _ _) eqn:E; [|done]. apply Under_deeper in E. unfold depth in Hw. lia.
Qed.

Lemma MountOrder_elem v l : v ∈ MountOrder l <-> v ∈ l.
Proof. apply stable_sort_elem. Qed.

Lemma elem_of_kind p k v : v ∈ volumesOfKind p k <-> v ∈ p_volumes p /\ v_kind v = k.
Proof. unfold volumesOfKind. rewrite list_elem_of_filter, MountOrder_elem. tauto. Qed.

(** ** What is checked *)

(** [ParseRef] takes the two namespaces, and a name after the first dot: the
    text it takes is the text of its answer. *)
Lemma ParseRef_ok s r :
  ParseRef s = Ok r <-> ref_string r = s /\ (rf_namespace r = NamespaceSecrets \/ rf_namespace r = NamespaceEnv) /\ rf_name r <> [].
Proof.
  unfold ParseRef, cut. change (lit ".") with ["."%char]. split.
  - destruct (cut_at ["."%char] s) as [[a b]|] eqn:E; [|done]. cbn [negb].
    apply cut_at_Some in E. destruct (bool_decide (a = []) || bool_decide (b = [])) eqn:E1; [done|].
    rewrite orb_false_iff, !bool_decide_eq_false in E1. destruct (_ || _) eqn:E2; [|done]. intros [= <-]. cbn.
    rewrite orb_true_iff, !bool_decide_eq_true in E2. destruct E1. split_and!; [by rewrite E|done|done].
  - intros (<- & Hn & Hm). destruct r as [a b]. cbn in *. unfold ref_string. cbn [rf_namespace rf_name].
    change (lit ".") with ["."%char]. cbn [app]. rewrite cut_at_byte_app.
    + cbn [negb]. rewrite (bool_decide_false (b = [])), (bool_decide_false (a = [])) by (done || by destruct Hn as [-> | ->]).
      cbn [orb]. destruct Hn as [-> | ->]; [done|]. by rewrite orb_true_r.
    + destruct Hn as [-> | ->]; intros Hi; repeat (apply elem_of_cons in Hi as [Hi|Hi]; [done|]); by apply elem_of_nil in Hi.
Qed.

Lemma octal_value_range acc s n : 0 <= acc -> octal_value acc s = Some n -> 0 <= n.
Proof.
  revert acc. induction s as [|c s IH]; intros acc Ha; cbn; [by intros [= <-]|].
  destruct (in_range 48 55 (bz c)) eqn:E; [|done]. apply in_range_true in E. apply IH. lia.
Qed.

Lemma FileMode_range b m : FileMode b = Ok m -> 0 <= m <= 511.
Proof.
  unfold FileMode. case_bool_decide; [intros [= <-]; unfold DefaultFileMode; lia|].
  destruct (octal_value 0 (fb_mode b)) as [n|] eqn:E; [|done]. apply octal_value_range in E; [|lia].
  destruct (Z.leb_spec (2 ^ 32) n); [done|]. destruct (Z.ltb_spec 511 n); [done|]. intros [= <-]. lia.
Qed.

Lemma checkVolume_ok home seen tmpfs v u : checkVolume home seen tmpfs v = Ok u ->
  (v_kind v = VolumeTmpfs \/ v_kind v = VolumeHostMount) /\ rel_path (v_path v) /\ v_path v ∉ seen /\
  (v_at v <> [] -> v_kind v = VolumeTmpfs /\ tmpfsAt (v_at v) home = Ok tt /\
     Forall (fun t => v_at t <> [] -> overlaps (v_at t) (v_at v) = false) tmpfs).
Proof.
  unfold checkVolume. intros H. apply seq_ok in H as [H1 H]. apply seq_ok in H as [H2 H]. apply seq_ok in H as [H3 H].
  apply seq_ok in H as [_ H]. apply seq_ok in H as [_ H]. apply seq_ok in H as [_ H].
  apply map_err_ok in H2. destruct guestPath as [[]|] eqn:Eg in H2; [|done]. apply guestPath_ok in Eg as [Hr _]. apply fail_if_ok, mem_false in H3.
  split_and!; [|done|done|].
  - unfold checkVolumeKind in H1. destruct (bool_decide (v_kind v = VolumeTmpfs) || _) eqn:E.
    + by rewrite orb_true_iff, !bool_decide_eq_true in E.
    + by repeat case_bool_decide.
  - intros Ha. rewrite bool_decide_false in H by done. apply seq_ok in H as [H4 H]. apply seq_ok in H as [H5 H].
    apply fail_if_ok in H4. apply negb_false_iff, bool_decide_eq_true in H4. apply map_err_ok in H5.
    destruct (tmpfsAt _ _) as [[]|]; [|done]. split_and!; [done..|]. apply check_all_ok in H.
    eapply Forall_impl; [exact H|]. cbn. intros t Ht%fail_if_ok Hat. rewrite bool_decide_false in Ht by done. done.
Qed.

Definition is_tmpfs (v : Volume) : Prop := v_kind v = VolumeTmpfs.
#[export] Instance is_tmpfs_dec v : Decision (is_tmpfs v).
Proof. unfold is_tmpfs. apply _. Defined.

(** Two tmpfs with an [at:] each that do not cover one another. *)
Definition apart (v w : Volume) : Prop := v_at v <> [] -> v_at w <> [] -> overlaps (v_at v) (v_at w) = false.
(** Two tmpfs neither of which is inside the other, if one sets [at:]. *)
Definition flat (v w : Volume) : Prop :=
  (v_at v <> [] \/ v_at w <> []) -> Under (v_path v) (v_path w) = false /\ Under (v_path w) (v_path v) = false.

Lemma checkVolumes_ok home seen tmpfs l out : checkVolumes home seen tmpfs l = Ok out ->
  out = tmpfs ++ filter is_tmpfs l /\
  Forall (fun v => v_kind v = VolumeTmpfs \/ v_kind v = VolumeHostMount) l /\
  Forall (fun v => rel_path (v_path v)) l /\
  NoDup (v_path <$> l) /\ Forall (fun v => v_path v ∉ seen) l /\
  Forall (fun v => v_at v <> [] -> v_kind v = VolumeTmpfs /\ tmpfsAt (v_at v) home = Ok tt) l /\
  (forall v t, v ∈ l -> t ∈ tmpfs -> apart t v) /\ ForallOrdPairs apart l.
Proof.
  revert seen tmpfs. induction l as [|v l IH]; intros seen tmpfs H.
  { injection H as <-. rewrite app_nil_r. split_and!; try constructor. by intros v t ?%elem_of_nil. }
  cbn [checkVolumes] in H. apply seq_ok in H as [(Hk & Hr & Hs & Ha)%checkVolume_ok H].
  apply IH in H as (-> & Hks & Hrs & Hn & Hss & Has & Hts & Hps). clear IH.
  assert (Hlast : forall w, w ∈ l -> apart v w).
  { intros w Hw Hv Hwa. destruct (Ha Hv) as (Hvk & _). apply (Hts w v); [done| |done|done].
    rewrite bool_decide_true by done. apply elem_of_app. right. by apply list_elem_of_singleton. }
  split_and!.
  - rewrite filter_cons. unfold is_tmpfs at 2. case_bool_decide.
    + rewrite decide_True by done. by rewrite <- app_assoc.
    + by rewrite decide_False by done.
  - by constructor.
  - by constructor.
  - constructor; [|done]. intros (w & E & Hw)%list_elem_of_fmap. rewrite Forall_forall in Hss.
    apply (Hss w Hw). rewrite E. apply elem_of_cons. by left.
  - constructor; [done|]. eapply Forall_impl; [exact Hss|]. cbn. intros w Hw. by apply not_elem_of_cons in Hw as [_ Hw].
  - constructor; [|done]. intros Hv. by destruct (Ha Hv) as (? & ? & _).
  - intros w t [->|Hw]%elem_of_cons Ht.
    + intros Hat Hv. destruct (Ha Hv) as (_ & _ & Hf). rewrite Forall_forall in Hf. by apply Hf.
    + apply Hts; [done|]. case_bool_decide; [apply elem_of_app; by left|done].
  - constructor; [|done]. by apply Forall_forall.
Qed.

Lemma overlaps_sym a b : overlaps a b = overlaps b a.
Proof.
  unfold overlaps. rewrite (bool_decide_ext (a = b) (b = a)) by done. by destruct (bool_decide _), (Under a b), (Under b a).
Qed.

Lemma apart_sym v w : apart v w -> apart w v.
Proof. intros H Hw Hv. rewrite overlaps_sym. by apply H. Qed.

Lemma ordpairs_elem {A} (R : A -> A -> Prop) l v w :
  (forall v w, R v w -> R w v) -> ForallOrdPairs R l -> v ∈ l -> w ∈ l -> v <> w -> R v w.
Proof.
  intros Hs H. induction H as [|x l Hx H IH]; [by intros ?%elem_of_nil|]. rewrite Forall_forall in Hx.
  intros [->|Hv]%elem_of_cons [->|Hw]%elem_of_cons Hne; [done|by apply Hx|apply Hs; by apply Hx|by apply IH].
Qed.

Lemma checkNested_ok l u : checkNested l = Ok u -> ForallOrdPairs flat l.
Proof.
  induction l as [|a l IH]; [constructor|]. cbn [checkNested]. intros [H1 H2]%seq_ok. apply check_all_ok in H1.
  constructor; [|by apply IH]. eapply Forall_impl; [exact H1|]. cbn. intros b Hb%fail_if_ok Hat.
  assert (negb (bool_decide (v_at a = [])) || negb (bool_decide (v_at b = [])) = true) as Ho.
  { apply orb_true_iff. destruct Hat; [left|right]; by rewrite bool_decide_false. }
  rewrite Ho in Hb. cbn in Hb. by apply orb_false_iff in Hb.
Qed.

(** What a volume list that was taken is. *)
Record volumes_ok (home : gostr) (l : list Volume) : Prop := {
  vo_kinds : Forall (fun v => v_kind v = VolumeTmpfs \/ v_kind v = VolumeHostMount) l;
  vo_paths : Forall (fun v => rel_path (v_path v)) l;
  vo_once : NoDup (v_path <$> l);
  vo_at : Forall (fun v => v_at v <> [] -> v_kind v = VolumeTmpfs /\ tmpfsAt (v_at v) home = Ok tt) l;
  vo_apart : forall v w, v ∈ l -> w ∈ l -> v <> w -> apart v w;
  vo_flat : forall v w, v ∈ l -> w ∈ l -> v_kind v = VolumeTmpfs -> v_kind w = VolumeTmpfs -> v <> w -> flat v w;
  vo_host : forall v, v ∈ l -> v_kind v = VolumeHostMount ->
            exists t, t ∈ l /\ v_kind t = VolumeTmpfs /\ Under (v_path v) (v_path t) = true }.

Lemma validateVolumes_ok p u : validateVolumes p = Ok u -> volumes_ok (p_guestHome p) (p_volumes p).
Proof.
  unfold validateVolumes. intros (tmpfs & H1 & H)%res_bind_ok. apply seq_ok in H as [H2 H3]. apply check_all_ok in H3.
  apply checkVolumes_ok in H1 as (-> & Hk & Hr & Hn & _ & Ha & _ & Hp). cbn [app] in *.
  constructor; try done.
  - intros v w Hv Hw Hne. by eapply ordpairs_elem; [apply apart_sym|..].
  - intros v w Hv Hw Kv Kw Hne. apply checkNested_ok in H2. eapply (ordpairs_elem flat); [|exact H2|..|done].
    + intros x y H Hor. destruct H; [by destruct Hor; [right|left]|]. done.
    + by apply list_elem_of_filter.
    + by apply list_elem_of_filter.
  - intros v Hv Kv. rewrite Forall_forall in H3. specialize (H3 v Hv). apply fail_if_ok in H3.
    rewrite bool_decide_true in H3 by done. cbn in H3. apply negb_false_iff in H3. apply existsb_true in H3 as (t & Ht & Hu).
    apply list_elem_of_filter in Ht as [Kt Ht]. by exists t.
Qed.

Lemma tmpfsAt_ok at_ home u : tmpfsAt at_ home = Ok u ->
  exists w l, Forall normal (w :: l) /\ at_ = slash :: join [slash] (w :: l) /\ slash :: w ∉ systemTrees /\
    (home <> [] -> overlaps at_ home = false).
Proof.
  unfold tmpfsAt. intros H. apply seq_ok in H as [H0 H]. apply seq_ok in H as [_ H]. apply seq_ok in H as [H2 H].
  apply seq_ok in H as [H3 H]. apply seq_ok in H as [H4 H5]. apply fail_if_ok in H0, H2, H3, H4, H5.
  apply orb_false_iff in H5 as [H5 _]. bool_inv.
  assert (abs_path at_) as (l & Hl & ->).
  { destruct (Clean_shape at_) as [E|[Ha|[(l & Hl & Hn & E)|(r & E & Hr)]]]; rewrite H2 in *; [|done|..]; rewrite E in H0.
    - done.
    - by rewrite join_head in H0.
    - change (dot2 ++ r) with ("."%char :: ("."%char :: r)) in H0. by rewrite has_prefix_false_head in H0. }
  destruct l as [|w l]; [done|]. exists w, l. split_and!; [done|done|..].
  - assert (nth 1 (split_byte slash (slash :: join [slash] (w :: l))) [] = w) as E.
    { cbn [split_byte]. rewrite Ascii.eqb_refl. by rewrite split_byte_join by (done || by apply normal_no_slash). }
    rewrite E in H5. by apply mem_false in H5.
  - intros Hh. apply andb_false_iff in H4 as [H4|H4].
    + by rewrite negb_false_iff, bool_decide_eq_true in H4.
    + unfold overlaps. done.
Qed.

Lemma validateSecrets_names declared l out : validateSecrets declared l = Ok out ->
  Forall (fun n => n ∈ declared \/ n ∈ sd_name <$> l) out.
Proof.
  revert declared. induction l as [|d l IH]; intros declared H; cbn in H.
  { injection H as <-. apply Forall_forall. by left. }
  res_inv. match goal with H : validateSecrets _ _ = Ok _ |- _ => apply IH in H; rename H into Hn end.
  eapply Forall_impl; [exact Hn|]. cbn. intros n [[->|Hd]%elem_of_cons|Hl]; [right|by left|right]; apply elem_of_cons; auto.
Qed.

Lemma validateFiles_elem p declared bound l u b :
  validateFiles p declared bound l = Ok u -> b ∈ l ->
  guestPath (fb_path b) = Ok tt /\ fb_path b ∉ bound /\ checkFile p declared b = Ok tt.
Proof.
  revert bound. induction l as [|c l IH]; intros bound H Hb; [by apply elem_of_nil in Hb|].
  cbn [validateFiles] in H. apply seq_ok in H as [H1 H]. apply seq_ok in H as [H2 H]. apply seq_ok in H as [H3 H]. res_inv.
  apply mem_false in H2. apply elem_of_cons in Hb as [->|Hb]; [done|]. destruct (IH _ H Hb) as (? & Hn & ?).
  apply not_elem_of_cons in Hn as [_ Hn]. done.
Qed.

Lemma validateEnv_elem p declared bound l u b :
  validateEnv p declared bound l = Ok u -> b ∈ l ->
  eb_name b <> [] /\ eb_name b ∉ bound /\ checkEnv p declared b = Ok tt.
Proof.
  revert bound. induction l as [|c l IH]; intros bound H Hb; [by apply elem_of_nil in Hb|].
  cbn [validateEnv] in H. apply seq_ok in H as [H1 H]. apply seq_ok in H as [_ H]. apply seq_ok in H as [H2 H].
  apply seq_ok in H as [H3 H]. res_inv. bool_inv.
  apply mem_false in H2. apply elem_of_cons in Hb as [->|Hb]; [done|]. destruct (IH _ H Hb) as (? & Hn & ?).
  apply not_elem_of_cons in Hn as [_ Hn]. done.
Qed.

Lemma Validate_bindings p u : Validate p = Ok u -> exists declared,
  validateSecrets [] (p_secrets p) = Ok declared /\ validateVolumes p = Ok tt /\
  validateFiles p declared [] (p_files p) = Ok tt /\ validateEnv p declared [] (p_env p) = Ok tt /\
  Forall (fun n => n ∈ sd_name <$> p_secrets p) declared.
Proof.
  unfold Validate. intros H. do 5 (apply seq_ok in H as [_ H]). apply seq_ok in H as [H _].
  unfold validateBindings in H. apply res_bind_ok in H as (declared & H1 & H). apply seq_ok in H as [H2 H].
  apply seq_ok in H as [H3 H4]. exists declared. split_and!; [done..|].
  apply validateSecrets_names in H1. eapply Forall_impl; [exact H1|]. by intros n [?%elem_of_nil|?].
Qed.

Lemma EphemeralPath_ok p target : volumes_ok (p_guestHome p) (p_volumes p) -> rel_path target -> EphemeralPath p target = true ->
  (exists t, t ∈ Tmpfs p /\ is_Some (rest_of (v_path t) target)) /\
  (forall h, h ∈ HostMounts p -> rest_of (v_path h) target = None).
Proof.
  intros Hv Ht H. unfold EphemeralPath in H. bool_inv. pose proof (vo_paths _ _ Hv) as Hp. rewrite Forall_forall in Hp. split.
  - apply existsb_true in H as (t & Hin & H). bool_inv. exists t. split; [by apply elem_of_kind|].
    apply covers_rest; [by apply Clean_rel|by apply Clean_rel, Hp|]. by rewrite orb_comm.
  - intros h [Hin Hk]%elem_of_kind. destruct (rest_of (v_path h) target) eqn:E; [|done].
    rewrite existsb_false, Forall_forall in H0. specialize (H0 h Hin). rewrite bool_decide_true in H0 by done. cbn in H0.
    assert (bool_decide (target = v_path h) || Under target (v_path h) = true); [|congruence].
    apply covers_rest; [by apply Clean_rel|by apply Clean_rel, Hp|by eexists].
Qed.

(** A profile that validates writes each of its credential files from a
    secret that it declares, with a mode of permission bits, at a path inside
    one of its tmpfs and in none of its hostmounts. *)
Lemma Validate_files (p : Profile) (H : Validate p = Ok tt) (b : FileBinding) (Hb : b ∈ p_files p) :
  rel_path (fb_path b) /\
  (exists n, fb_ref b = lit "secrets." ++ n /\ n ∈ SecretNames (p_secrets p)) /\
  (exists m, FileMode b = Ok m /\ 0 <= m <= 511) /\
  (exists t, t ∈ Tmpfs p /\ is_Some (rest_of (v_path t) (fb_path b))) /\
  (forall h, h ∈ HostMounts p -> rest_of (v_path h) (fb_path b) = None).
Proof.
  apply Validate_bindings in H as (declared & _ & Hv & Hf & _ & Hd). apply validateVolumes_ok in Hv.
  destruct (validateFiles_elem _ _ _ _ _ _ Hf Hb) as (Hg & _ & Hc). apply guestPath_ok in Hg as [Hr _].
  unfold checkFile in Hc. apply seq_ok in Hc as [(m & Hm & _)%res_bind_ok Hc]. apply map_err_ok in Hm.
  apply seq_ok in Hc as [_ Hc]. apply res_bind_ok in Hc as (r & Hpr%map_err_ok & Hc).
  apply seq_ok in Hc as [Hns Hc]. apply seq_ok in Hc as [Hdec He]. apply fail_if_ok in Hns, Hdec, He. bool_inv.
  apply mem_true in Hdec. split_and!; [done|..|by apply (EphemeralPath_ok p)|by apply (EphemeralPath_ok p)].
  - apply ParseRef_ok in Hpr as (<- & _). exists (rf_name r). unfold ref_string. rewrite Hns. split; [done|].
    unfold SecretNames. rewrite (foldl_snoc_map sd_name). rewrite Forall_forall in Hd. by apply Hd.
  - exists m. split; [done|]. by apply (FileMode_range b).
Qed.

(** How many sources a binding names: a literal, a ref and a chain of refs. *)
Definition env_sources (b : EnvBinding) : nat :=
  length (filter (fun x : bool => x = true)
    [negb (bool_decide (eb_value b = [])); negb (bool_decide (eb_ref b = [])); (0 <? length (eb_refs b))%nat]).

(** The refs of a binding parse, and those of the store are declared. *)
Lemma env_refs_declared (p : Profile) (b : EnvBinding) : Validate p = Ok tt -> b ∈ p_env p ->
  Forall (fun raw => exists r, ParseRef raw = Ok r /\ ref_string r = raw /\
    (rf_namespace r = NamespaceSecrets -> rf_name r ∈ SecretNames (p_secrets p))) (RefList b).
Proof.
  intros (declared & _ & _ & _ & He & Hd)%Validate_bindings Hb. destruct (validateEnv_elem _ _ _ _ _ _ He Hb) as (_ & _ & Hc).
  unfold checkEnv in Hc. do 4 (apply seq_ok in Hc as [_ Hc]). apply check_all_ok in Hc.
  eapply Forall_impl; [exact Hc|]. cbn. intros raw Hraw. unfold checkEnvRef in Hraw.
  apply res_bind_ok in Hraw as (r & Hr%map_err_ok & Hx%fail_if_ok). exists r. split_and!; [done|by apply ParseRef_ok in Hr as [? _]|].
  intros Hns. rewrite bool_decide_true in Hx by done. cbn in Hx. apply negb_false_iff, mem_true in Hx.
  unfold SecretNames. rewrite (foldl_snoc_map sd_name). rewrite Forall_forall in Hd. by apply Hd.
Qed.

Lemma Validate_env_refs (p : Profile) : Validate p = Ok tt -> forall b, b ∈ p_env p -> forall n,
  (exists raw r, raw ∈ RefList b /\ ParseRef raw = Ok r /\ rf_namespace r = NamespaceSecrets /\ rf_name r = n) ->
  exists d, d ∈ p_secrets p /\ sd_name d = n.
Proof.
  intros Hv b Hb n (raw & r & Hin & Hr & Hns & <-). pose proof (env_refs_declared p b Hv Hb) as F. rewrite Forall_forall in F.
  destruct (F _ Hin) as (r' & Hr' & _ & Hd). rewrite Hr in Hr'. injection Hr' as <-. specialize (Hd Hns).
  unfold SecretNames in Hd. rewrite (foldl_snoc_map sd_name) in Hd. cbn [app] in Hd. apply list_elem_of_fmap in Hd as (d & -> & ?). by exists d.
Qed.

(** A profile that validates binds each variable from one source: a
    literal, or refs that all parse, those of the store to secrets that it
    declares.  No variable that it denies is bound, and none twice. *)
Lemma Validate_env (p : Profile) (H : Validate p = Ok tt) :
  NoDup (eb_name <$> p_env p) /\
  Forall (fun b => eb_name b ∉ p_deny p /\ env_sources b = 1%nat /\
    Forall (fun raw => exists r, ParseRef raw = Ok r /\ ref_string r = raw /\
      (rf_namespace r = NamespaceSecrets -> rf_name r ∈ SecretNames (p_secrets p))) (RefList b)) (p_env p).
Proof.
  pose proof H as (declared & _ & _ & _ & He & _)%Validate_bindings. split.
  - revert He. generalize (@nil gostr). induction (p_env p) as [|b l IH]; intros bound He; [constructor|].
    cbn [fmap list_fmap]. constructor.
    + intros (c & E & Hc)%list_elem_of_fmap. cbn [validateEnv] in He. do 4 (apply seq_ok in He as [_ He]).
      destruct (validateEnv_elem _ _ _ _ _ _ He Hc) as (_ & Hn & _). rewrite E in Hn. by apply not_elem_of_cons in Hn as [? _].
    + cbn [validateEnv] in He. do 4 (apply seq_ok in He as [_ He]). by eapply IH.
  - apply Forall_forall. intros b Hb. destruct (validateEnv_elem _ _ _ _ _ _ He Hb) as (_ & _ & Hc).
    unfold checkEnv in Hc. do 4 (apply seq_ok in Hc as [?%fail_if_ok Hc]). apply check_all_ok in Hc. split_and!.
    + intros Hin. unfold Denied in H3. rewrite existsb_false, Forall_forall in H3. specialize (H3 _ Hin). cbn in H3. by rewrite bool_decide_true in H3.
    + unfold env_sources. destruct (negb (bool_decide (eb_value b = []))), (negb (bool_decide (eb_ref b = []))), (0 <? length (eb_refs b))%nat; done.
    + by apply env_refs_declared.
Qed.

(** ** An example: the profile that brig ships for Claude Code *)

Definition example_hostmount (path : string) (file : bool) : Volume :=
  MkVolume VolumeHostMount (lit path) [] [] file [].

Definition example_profile : Profile :=
  MkProfile (lit "claude-code") (lit "Claude Code (Anthropic)") (lit "claude") (lit "ghcr.io/brig-sh/claude-code-stock:root") (lit "/root")
    [MkSecretDecl (lit "claude-credentials") (Some false) [] (lit "expiresAt")
       (Some [MkSource SourceKeychain (lit "Claude Code-credentials") [] [] [];
              MkSource SourceFile [] (lit "~/.claude/.credentials.json") [] (lit "run `claude` on the host once to log in")]) [] [] [] [] [];
     MkSecretDecl (lit "gh-token") (Some false) [] [] None [] [] [] [] (lit "export GH_TOKEN before running brig")]
    [MkEnvBinding (lit "IS_SANDBOX") (lit "1") [] []; MkEnvBinding (lit "CLAUDE_CONFIG_DIR") (lit "/brig/claude") [] [];
     MkEnvBinding (lit "GH_TOKEN") [] [] [lit "env.GH_TOKEN"; lit "secrets.gh-token"]]
    [lit "ANTHROPIC_API_KEY"; lit "ANTHROPIC_AUTH_TOKEN"]
    [MkFileBinding (lit "secrets.claude-credentials") (lit ".claude/.credentials.json") (lit "0600")]
    [MkVolume VolumeTmpfs (lit ".claude") [] (lit "512m") false (lit "/brig/claude");
     example_hostmount ".claude/.claude.json" true; example_hostmount ".claude/settings.json" true;
     example_hostmount ".claude/sessions" false; example_hostmount ".claude/projects" false]
    true KindAgent [] 4096 4 (lit "hvi") (lit "isolated") [] [] true [lit ".claude/.credentials.json"] None (lit "~/.claude")
    [lit "skills"; lit "plugins"] false false [].

Example Validate_files_witness :
  Validate example_profile = Ok tt /\
  exists t, t ∈ Tmpfs example_profile /\ is_Some (rest_of (v_path t) (lit ".claude/.credentials.json")).
Proof.
  assert (H : Validate example_profile = Ok tt) by (vm_compute; reflexivity). split; [exact H|].
  assert (Hb : MkFileBinding (lit "secrets.claude-credentials") (lit ".claude/.credentials.json") (lit "0600") ∈ p_files example_profile)
    by (apply elem_of_cons; left; reflexivity).
  exact (proj1 (proj2 (proj2 (proj2 (Validate_files example_profile H _ Hb))))).
Defined.

Example Validate_env_witness :
  Validate example_profile = Ok tt /\ NoDup (eb_name <$> p_env example_profile).
Proof.
  assert (H : Validate example_profile = Ok tt) by (vm_compute; reflexivity). split; [exact H|].
  exact (proj1 (Validate_env example_profile H)).
Defined.

(** A mount in a tmpfs that relocates, a hostmount under none, a credential on
    the host and a directory above the home are refused. *)
Example Validate_refuses :
  let p l f := MkProfile (lit "x") [] (lit "b") (lit "i") (lit "/home/x") [MkSecretDecl (lit "s") None [] [] None [] [] [] [] []] [] []
                 f l false [] [] 1 1 [] [] [] [] false [] None [] [] false false [] in
  let t path at_ := MkVolume VolumeTmpfs (lit path) [] [] false (lit at_) in
  let f path := MkFileBinding (lit "secrets.s") (lit path) [] in
  [Validate (p [t "a"%string "/brig/a"%string; t "a/b"%string ""%string] []);
   Validate (p [example_hostmount "a" false] []);
   Validate (p [t "a"%string ""%string; example_hostmount "a/b" false] [f "a/b/c"%string]);
   Validate (p [t "a"%string "/home"%string] []); Validate (p [] [f "../x"%string]);
   Validate (p [t "a"%string "/lib64/x"%string] [])]
  = [Err (PVolumeNested (lit "a") (lit "a/b")); Err (PVolumeNoTmpfs (lit "a")); Err (PFileOnDisk (lit "a/b/c"));
     Err (PVolumeAt (lit "a") AtHome); Err (PFilePath (lit "../x") PathEscapes); Err (PVolumeAt (lit "a") (AtSystem (lit "/lib64")))].
Proof. vm_compute. reflexivity. Qed.

(** The directory of the brig CA is not one of the trees that [at:] may not
    cover. *)
Lemma at_covers_ca : tmpfsAt (lit "/brig/ca") (lit "/root") = Ok tt.
Proof. vm_compute. reflexivity. Qed.
