(* ===== verification/Volumes.v ===== *)
(** * Volumes and credential files in the guest (internal/wrap/secretfiles.go)

    What brig runs in a guest to mount the volumes of a profile and to write
    its credential files, in order.  A runtime is an interface: it runs a
    command in the guest as root and gives its output, or feeds a text to one.
    The result of a step is the error of the source, or a value. *)

From stdpp Require Import prelude list strings gmap sorting.
From Stdlib Require Import ZArith Lia ZifyNat Ascii.
From S2P Require Import Prelude GoUnicode GoStrings GoNum GoPath GoClean Secret Profile.

Local Open Scope Z_scope.

(** ** The runtime *)

(** [runtime.Runtime], as far as a delivery uses it: [Output] and [Feed] of the
    command with its arguments, run as root, over the state [W] of the guest.
    An error is its text. *)
Class Runtime (W : Type) := {
  Output : list gostr -> W -> res gostr gostr * W;
  Feed : list gostr -> gostr -> W -> option gostr * W }.

(** What a delivery reads of the configuration. *)
Record Config := MkConfig {
  c_profile : Profile;
  c_secrets : gmap gostr gostr;
  c_brigCA : gostr;
  c_kind : gostr;
  (** [FeedLimiter.MaxFeed], 0 for a runtime that has no limit. *)
  c_maxFeed : Z }.

Inductive deliver_error :=
  | CACreate (e : gostr) | CAFeed (e : gostr) | CASize (e : gostr) | CABundle (e : gostr)
  | MountTable (e : gostr) | OldHome (path at_ : gostr) | PinFailed (path : gostr) (e : gostr) | AtFailed (at_ path : gostr) (e : gostr)
  | CoverFailed (path : gostr) (e : gostr) | TargetFailed (e : gostr) | BindFailed (path target : gostr) (e : gostr)
  | BackFailed (path : gostr) (e : gostr) | NotMounted (path : gostr)
  | FstypeFailed (target : gostr) (e : gostr) | NotEphemeral (path fstype : gostr) | NotKept (path : gostr)
  | SwapFailed (e : gostr) | SwapOn (line : gostr)
  | FileRef (path : gostr) (e : ref_error) | FileModeBad (path : gostr) (e : mode_error) | ValueEmpty (path : gostr)
  | CreateFailed (path : gostr) (e : gostr) | CheckFailed (path : gostr) (e : gostr) | NotRegular (path got : gostr)
  | OnDisk (path fstype : gostr) | FeedFailed (path : gostr) (e : gostr) | SizeFailed (path : gostr) (e : gostr)
  | SizeWrong (path got : gostr) | ChownFailed (dir user : gostr) (e : gostr).

(** ** Paths *)

Definition persistRoot : gostr := lit "/run/brig/persist".
Definition guestRootUser : gostr := lit "root".

(** [path(base, rel)]. *)
Definition wrap_path (base rel : gostr) : gostr := trim_suffix base [slash] ++ [slash] ++ rel.

(** [Config.guestPath]. *)
Definition home_path (p : Profile) (rel : gostr) : gostr := wrap_path (p_guestHome p) rel.

Definition has_at (v : Volume) : bool := negb (bool_decide (v_at v = [])).

(** The loop of [mountTarget]: the deepest of the relocated tmpfs over [rel]. *)
Definition relocated (rel : gostr) (l : list Volume) : option Volume :=
  foldl (fun best t =>
    if negb (has_at t) || (negb (bool_decide (rel = v_path t)) && negb (Under rel (v_path t))) then best
    else match best with
         | None => Some t
         | Some b => if Under (v_path t) (v_path b) then Some t else best
         end) None l.

Definition mountTarget (p : Profile) (rel : gostr) : gostr :=
  match relocated rel (Tmpfs p) with
  | None => home_path p rel
  | Some best =>
    if bool_decide (rel = v_path best) then v_at best
    else v_at best ++ trim_prefix (path_Clean rel) (path_Clean (v_path best))
  end.

Definition slashDir (p : gostr) : gostr := match cut_last slash p with Some (a, _) => a | None => lit "." end.

Definition pinPath (rel : gostr) : gostr :=
  persistRoot ++ [slash] ++ replace_all (lit "/") (lit "%2F") (replace_all (lit "%") (lit "%25") rel).

Definition newline : byte := zb 10.

Definition nonEmptyLines (s : gostr) : list gostr :=
  filter (fun line => trim_space line <> []) (split_byte newline s).

(** The mount points that the text of mountinfo names: the fifth field. *)
Definition mountpoints (out : gostr) : list gostr :=
  foldl (fun points line => match nth_error (fields line) 4 with Some f => points ++ [f] | None => points end) [] (nonEmptyLines out).

(** A shell script: a backquote stands for a double quote. *)
Definition script (s : string) : gostr := (fun c => if Ascii.eqb c "`" then zb 34 else c) <$> lit s.

Definition targetScript : gostr := script "set -e; mkdir -p -- `$(dirname `$1`)`; [ -e `$1` ] || : > `$1`".
Definition createScript : gostr :=
  script "set -e; rm -f -- `$1`; umask 077; set -C; : > `$1`; chown `$2` `$1`; chmod `$3` `$1`".
Definition appendScript : gostr := script "cat >> `$1`".

(** The digits of a mode, as [%o] writes them. *)
Fixpoint octal_rev (fuel : nat) (z : Z) : gostr :=
  match fuel with
  | O => []
  | S k => zb (48 + z mod 8) :: (if z <? 8 then [] else octal_rev k (z / 8))
  end.
Definition octal (z : Z) : gostr := rev (octal_rev (S (Z.to_nat (Z.log2 z))) z).
(** [%04o]. *)
Definition octal4 (z : Z) : gostr := let s := octal z in repeat "0"%char (4 - length s) ++ s.

(** ** Commands *)

Definition M (W A : Type) : Type := W -> res deliver_error A * W.

#[export] Instance M_ret {W} : MRet (M W) := fun A a w => (Ok a, w).
#[export] Instance M_bind {W} : MBind (M W) := fun A B f m w =>
  match m w with (Ok a, w') => f a w' | (Err e, w') => (Err e, w') end.

Section Deliver.
Context {W : Type} `{Runtime W}.

Definition fail {A} (e : deliver_error) : M W A := fun w => (Err e, w).
Definition lift {A} (r : res deliver_error A) : M W A := fun w => (r, w).

(** [Config.guestOutput], with its error in [wrap], and [Config.guestRoot]. *)
Definition guestOutput (wrap : gostr -> deliver_error) (argv : list gostr) : M W gostr :=
  fun w => let '(r, w') := Output argv w in (map_err wrap r, w').
Definition guestRoot (wrap : gostr -> deliver_error) (argv : list gostr) : M W unit :=
  guestOutput wrap argv ≫= fun _ => mret tt.
Definition guestFeed (wrap : gostr -> deliver_error) (argv : list gostr) (text : gostr) : M W unit :=
  fun w => let '(r, w') := Feed argv text w in (match r with Some e => Err (wrap e) | None => Ok tt end, w').

(** A [for] loop that returns the first error of its body. *)
Fixpoint each {A} (l : list A) (f : A -> M W unit) : M W unit :=
  match l with [] => mret tt | x :: l' => f x ≫= fun _ => each l' f end.

(** The pieces of a value, of [piece] bytes each but the last. *)
Fixpoint pieces (fuel : nat) (piece : nat) (value : gostr) : list gostr :=
  match fuel, value with
  | _, [] => []
  | O, _ => []
  | S k, _ => take piece value :: pieces k piece (drop piece value)
  end.

Definition piece_size (maxFeed : Z) (value : gostr) : nat :=
  if (0 <? maxFeed) && (maxFeed <? Z.of_nat (length value)) then Z.to_nat maxFeed else length value.

Definition feedValue (maxFeed : Z) (wrap : gostr -> deliver_error) (value target : gostr) : M W unit :=
  each (pieces (length value) (piece_size maxFeed value) value)
    (fun piece => guestFeed wrap [lit "sh"; lit "-c"; appendScript; lit "sh"; target] piece).

(** ** mountVolumes *)

Definition guestMountpoints : M W (list gostr) :=
  out ← guestOutput MountTable [lit "cat"; lit "/proc/self/mountinfo"]; mret (mountpoints out).

Definition createGuestTarget (target : gostr) (file : bool) : M W unit :=
  if file then guestRoot TargetFailed [lit "sh"; lit "-c"; targetScript; lit "sh"; target]
  else guestRoot TargetFailed [lit "mkdir"; lit "-p"; target].

Section Config.
Variable c : Config.
Local Notation p := (c_profile c).

(** The tmpfs that this pass mounts: those that are not there yet. *)
Fixpoint to_cover (mounted : list gostr) (l : list Volume) : res deliver_error (list Volume) :=
  match l with
  | [] => Ok []
  | v :: l' =>
    if mem (mountTarget p (v_path v)) mounted then to_cover mounted l'
    else if has_at v && mem (home_path p (v_path v)) mounted then Err (OldHome (v_path v) (v_at v))
    else let? rest := to_cover mounted l' in Ok (v :: rest)
  end.

(** The deepest of the tmpfs [cover] above a hostmount. *)
Definition coveredBy (cover : list Volume) (h : Volume) : option Volume :=
  foldl (fun found t =>
    if Under (v_path h) (v_path t) &&
       match found with None => true | Some f => Under (v_path t) (v_path f) end
    then Some t else found) None cover.

Definition pinning (cover : list Volume) (h : Volume) : bool :=
  match coveredBy cover h with Some t => negb (has_at t) | None => false end.
Definition relocating (cover : list Volume) (h : Volume) : bool :=
  match coveredBy cover h with Some t => has_at t | None => false end.

Definition pin_one (cover : list Volume) (mounted : list gostr) (h : Volume) : M W unit :=
  if negb (pinning cover h) || mem (pinPath (v_path h)) mounted then mret tt
  else
    createGuestTarget (pinPath (v_path h)) (v_file h);;
    guestRoot (PinFailed (v_path h)) [lit "mount"; lit "--bind"; home_path p (v_path h); pinPath (v_path h)].

Definition cover_one (t : Volume) : M W unit :=
  (if has_at t then guestRoot (AtFailed (v_at t) (v_path t)) [lit "mkdir"; lit "-p"; v_at t] else mret tt);;
  guestRoot (CoverFailed (v_path t))
    [lit "mount"; lit "-t"; lit "tmpfs"; lit "-o"; TmpfsOptions t; lit "tmpfs"; mountTarget p (v_path t)].

Definition bind_one (cover : list Volume) (h : Volume) : M W unit :=
  if relocating cover h then
    let target := mountTarget p (v_path h) in
    createGuestTarget target (v_file h);;
    guestRoot (BindFailed (v_path h) target) [lit "mount"; lit "--bind"; home_path p (v_path h); target]
  else if negb (pinning cover h) then mret tt
  else
    createGuestTarget (home_path p (v_path h)) (v_file h);;
    guestRoot (BackFailed (v_path h)) [lit "mount"; lit "--bind"; pinPath (v_path h); home_path p (v_path h)].

(** The three phases: pin, cover and bind back. *)
Definition mount_phases (cover : list Volume) (mounted : list gostr) : M W unit :=
  each (HostMounts p) (pin_one cover mounted);;
  each cover cover_one;;
  each (HostMounts p) (bind_one cover).

Definition mountVolumes : M W unit :=
  mounted ← guestMountpoints;
  cover ← lift (to_cover mounted (Tmpfs p));
  mounted ← match cover with
            | [] => mret mounted
            | _ => mount_phases cover mounted;; guestMountpoints
            end;
  each (HostMounts p) (fun h => if mem (mountTarget p (v_path h)) mounted then mret tt else fail (NotMounted (v_path h))).

(** ** verifyVolumes *)

Definition guestFstype (target : gostr) : M W gostr :=
  out ← guestOutput (FstypeFailed target) [lit "stat"; lit "-f"; lit "-c"; lit "%T"; target]; mret (trim_space out).

Definition tmpfs_name : gostr := lit "tmpfs".

Definition verifyVolumes : M W unit :=
  each (Tmpfs p) (fun v =>
    fstype ← guestFstype (mountTarget p (v_path v));
    if bool_decide (fstype = tmpfs_name) then mret tt else fail (NotEphemeral (v_path v) fstype));;
  each (HostMounts p) (fun v =>
    fstype ← guestFstype (mountTarget p (v_path v));
    if bool_decide (fstype = tmpfs_name) then fail (NotKept (v_path v)) else mret tt);;
  swaps ← guestOutput SwapFailed [lit "cat"; lit "/proc/swaps"];
  match nonEmptyLines swaps with _ :: line :: _ => fail (SwapOn line) | _ => mret tt end.

(** ** writeSecretFiles *)

(** The bindings whose secret was resolved. *)
Fixpoint pending_files (l : list FileBinding) : res deliver_error (list FileBinding) :=
  match l with
  | [] => Ok []
  | b :: l' =>
    let? r := map_err (FileRef (fb_path b)) (ParseRef (fb_ref b)) in
    match c_secrets c !! rf_name r with
    | None => pending_files l'
    | Some _ => let? rest := pending_files l' in Ok (b :: rest)
    end
  end.

(** The directories from [dir] up to the tmpfs at [top], added to [out]. *)
Fixpoint dir_chain (fuel : nat) (top dir : gostr) (out : list gostr) : list gostr :=
  match fuel with
  | O => out
  | S k =>
    if negb (Under dir top) then out
    else
      let guest := mountTarget p dir in
      dir_chain k top (slashDir dir) (if mem guest out then out else out ++ [guest])
  end.

Definition credentialDirs (files : list FileBinding) : list gostr :=
  foldl (fun out t =>
    foldl (fun out b =>
      if negb (Under (fb_path b) (v_path t)) then out
      else dir_chain (S (length (fb_path b))) (v_path t) (slashDir (fb_path b)) out)
    (out ++ [mountTarget p (v_path t)]) files) [] (Tmpfs p).

Definition chownGuest (dirs : list gostr) (user : gostr) : M W unit :=
  let ordered := stable_sort slashes dirs in
  each (if bool_decide (user = guestRootUser) then ordered else rev ordered)
    (fun dir => guestRoot (ChownFailed dir user) [lit "chown"; user; dir]).

Definition verifySecretFile (b : FileBinding) (target user : gostr) (mode : Z) : M W unit :=
  got ← guestOutput (CheckFailed (fb_path b)) [lit "stat"; lit "-c"; lit "%F|%U|%a"; target];
  let want := user ++ lit "|" ++ octal mode in
  let '(kind, rest, _) := cut (trim_space got) (lit "|") in
  if negb (has_prefix kind (lit "regular ")) || negb (bool_decide (rest = want))
  then fail (NotRegular (fb_path b) (trim_space got))
  else
    fstype ← guestFstype target;
    if bool_decide (fstype = tmpfs_name) then mret tt else fail (OnDisk (fb_path b) fstype).

(** [writeSecretFile] once its ref and mode are parsed. *)
Definition write_value (b : FileBinding) (mode : Z) (value : gostr) : M W unit :=
  let target := mountTarget p (fb_path b) in
  let user := GuestUser p in
  if bool_decide (value = []) then fail (ValueEmpty (fb_path b))
  else
    guestRoot (CreateFailed (fb_path b)) [lit "sh"; lit "-c"; createScript; lit "sh"; target; user; octal4 mode];;
    verifySecretFile b target user mode;;
    feedValue (c_maxFeed c) (FeedFailed (fb_path b)) value target;;
    size ← guestOutput (SizeFailed (fb_path b)) [lit "stat"; lit "-c"; lit "%s"; target];
    let got := trim_space size in
    if bool_decide (got = itoa (Z.of_nat (length value))) then mret tt else fail (SizeWrong (fb_path b) got).

Definition writeSecretFile (b : FileBinding) : M W unit :=
  r ← lift (map_err (FileRef (fb_path b)) (ParseRef (fb_ref b)));
  mode ← lift (map_err (FileModeBad (fb_path b)) (FileMode b));
  write_value b mode (default [] (c_secrets c !! rf_name r)).

(** [m], and then [release] whatever came of [m]; the error of [m] stands. *)
Definition deferred (m release : M W unit) : M W unit :=
  fun w => let '(r, w1) := m w in let '(r', w2) := release w1 in (match r with Err e => Err e | Ok _ => r' end, w2).

Definition writeSecretFiles : M W unit :=
  pending ← lift (pending_files (p_files p));
  match pending with
  | [] => mret tt
  | _ =>
    let dirs := credentialDirs pending in
    chownGuest dirs guestRootUser;;
    deferred (each pending writeSecretFile) (chownGuest dirs (GuestUser p))
  end.

Definition releaseTmpfs : M W unit :=
  chownGuest ((fun t => mountTarget p (v_path t)) <$> Tmpfs p) (GuestUser p).

(** ** The brig CA (briginternal.go) *)

Definition GuestCAPath : gostr := lit "/brig/ca/brig.pem".
Definition GuestCABundlePath : gostr := lit "/brig/ca/bundle.pem".

Definition caBundleSources : list gostr :=
  [lit "/etc/ssl/certs/ca-certificates.crt"; lit "/etc/pki/tls/certs/ca-bundle.crt"; lit "/etc/ssl/cert.pem"].

Definition caCreateScript : gostr :=
  script "set -e; for d in `$(dirname `$1`)` `$1`; do [ ! -L `$d` ] || { echo `$d is a link` >&2; exit 1; }; done; " ++
  script "mkdir -p -m 0755 `$1`; chown root `$1`; chmod 0755 `$1`; rm -f -- `$2` `$3` `$3.new`; umask 022; set -C; : > `$2`".
Definition caSizeScript : gostr := script "[ `$(stat -c %s `$1`)` = `$2` ]".
Definition caBundleScript : gostr :=
  script "set -e; umask 022; set -C; out=`$1`; ca=`$2`; shift 2; : > `$out.new`; " ++
  script "for f in `$@`; do if [ -f `$f` ]; then cat `$f` >> `$out.new`; echo >> `$out.new`; break; fi; done; " ++
  script "cat `$ca` >> `$out.new`; mv -f `$out.new` `$out`".

Definition deliverBrigCA : M W unit :=
  if bool_decide (c_brigCA c = []) then mret tt
  else
    guestRoot CACreate [lit "sh"; lit "-c"; caCreateScript; lit "sh"; slashDir GuestCAPath; GuestCAPath; GuestCABundlePath];;
    feedValue (c_maxFeed c) CAFeed (c_brigCA c) GuestCAPath;;
    guestRoot CASize [lit "sh"; lit "-c"; caSizeScript; lit "sh"; GuestCAPath; itoa (Z.of_nat (length (c_brigCA c)))];;
    guestRoot CABundle ([lit "sh"; lit "-c"; caBundleScript; lit "sh"; GuestCABundlePath; GuestCAPath] ++ caBundleSources).

Definition deliver_files : M W unit :=
  deliverBrigCA;;
  match p_volumes p, p_files p with
  | [], [] => mret tt
  | _, _ => mountVolumes;; verifyVolumes;; writeSecretFiles;; releaseTmpfs
  end.
End Config.

(** [deliverSecretFiles]: whatever comes of it, the values are cleared. *)
Definition deliverSecretFiles (c : Config) (w : W) : res deliver_error unit * Config * W :=
  let '(r, w') := deliver_files c w in
  (r, MkConfig (c_profile c) ∅ (c_brigCA c) (c_kind c) (c_maxFeed c), w').
End Deliver.

(** [filepath.Join(home, rel)]. *)
Definition filepath_Join (a b : gostr) : gostr :=
  if bool_decide (a = []) && bool_decide (b = []) then []
  else path_Clean (if bool_decide (a = []) then b else if bool_decide (b = []) then a else a ++ [slash] ++ b).

(** What a container runtime takes when it creates the sandbox: the tmpfs and
    the shares of a host path and a guest path. *)
Definition createTimeVolumes (c : Config) (home : gostr) : list gostr * list (gostr * gostr) :=
  if bool_decide (c_kind c = lit "hull") then ([], [])
  else
    foldl (fun '(tmpfs, shares) v =>
      let target := mountTarget (c_profile c) (v_path v) in
      if bool_decide (v_kind v = VolumeTmpfs) then (tmpfs ++ [target ++ lit ":" ++ TmpfsOptions v], shares)
      else if bool_decide (v_kind v = VolumeHostMount) then (tmpfs, shares ++ [(filepath_Join home (v_path v), target)])
      else (tmpfs, shares)) ([], []) (MountOrder (p_volumes (c_profile c))).
