(* ===== verification/VolumesSafe.v ===== *)
(** * [internal/wrap/secretfiles.go]: what a delivery makes of the guest

    A guest is a runtime whose mount table can be looked at.  From a guest that
    has just booted, the three phases of [mountVolumes] leave every credential
    file of a valid profile in memory, and every hostmount where the workspace
    has it. *)

From stdpp Require Import prelude list strings gmap sorting.
From Stdlib Require Import ZArith Lia ZifyNat Ascii.
From S2P Require Import Prelude GoUnicode GoStrings GoNum GoPath GoClean Secret Profile Volumes.

Local Open Scope Z_scope.

(** ** Pins *)

Lemma replace_all_byte c new s : replace_all [c] new s = s ≫= fun d => if Ascii.eqb d c then new else [d].
Proof.
  induction s as [|d s IH]; [done|]. cbn [mbind list_bind]. destruct (Ascii.eqb_spec d c) as [->|Hne].
  - change (c :: s) with ([c] ++ s). rewrite replace_all_hit by done. by rewrite IH.
  - rewrite replace_all_miss; [by rewrite IH|]. by intros (r & [= ? _]).
Qed.

Definition escape_byte (c : byte) : gostr :=
  if Ascii.eqb c "%" then lit "%25" else if Ascii.eqb c slash then lit "%2F" else [c].

Definition escape (rel : gostr) : gostr := rel ≫= escape_byte.

Lemma pinPath_escape rel : pinPath rel = persistRoot ++ slash :: escape rel.
Proof.
  unfold pinPath. do 2 f_equal. change (lit "/") with [slash]. change (lit "%") with ["%"%char].
  rewrite !replace_all_byte. unfold escape. induction rel as [|c rel IH]; [done|]. cbn [mbind list_bind]. rewrite bind_app, IH. f_equal.
  unfold escape_byte. destruct (Ascii.eqb_spec c "%"); [done|]. cbn. by destruct (Ascii.eqb c slash).
Qed.

Lemma escapes_no_slash : slash ∉ lit "%25" /\ slash ∉ lit "%2F".
Proof. apply (bool_decide_unpack _). by vm_compute. Qed.

Lemma escape_no_slash rel : slash ∉ escape rel.
Proof.
  unfold escape. rewrite list_elem_of_bind. intros (c & Hin & _). revert Hin. unfold escape_byte.
  destruct (Ascii.eqb_spec c "%"); [apply escapes_no_slash|]. destruct (Ascii.eqb_spec c slash); [apply escapes_no_slash|].
  intros E%list_elem_of_singleton. congruence.
Qed.

Lemma escape_byte_inj c d x y : escape_byte c ++ x = escape_byte d ++ y -> c = d /\ x = y.
Proof.
  unfold escape_byte. destruct (Ascii.eqb_spec c "%"), (Ascii.eqb_spec d "%"); [..|];
    try destruct (Ascii.eqb_spec c slash); try destruct (Ascii.eqb_spec d slash); cbn; intros E; injection E as; subst; done.
Qed.

Lemma escape_inj : Inj (=) (=) escape.
Proof.
  intros s. induction s as [|c s IH]; intros [|d t]; [done| | |].
  - change (escape (d :: t)) with (escape_byte d ++ escape t). unfold escape_byte. destruct (Ascii.eqb _ _); [|destruct (Ascii.eqb _ _)]; discriminate.
  - change (escape (c :: s)) with (escape_byte c ++ escape s). unfold escape_byte. destruct (Ascii.eqb _ _); [|destruct (Ascii.eqb _ _)]; discriminate.
  - change (escape (c :: s)) with (escape_byte c ++ escape s). change (escape (d :: t)) with (escape_byte d ++ escape t).
    intros [-> E]%escape_byte_inj. f_equal. by apply IH.
Qed.

(** Two volumes are never pinned at one place. *)
Lemma pinPath_inj : Inj (=) (=) pinPath.
Proof.
  intros s t. rewrite !pinPath_escape. intros H. apply app_inv_head in H. injection H as H. by apply escape_inj.
Qed.

(** ** Guest paths *)

(** A path of the guest in its simplest form, other than the root. *)
Definition gpath (p : gostr) : Prop := exists l, l <> [] /\ Forall normal l /\ p = slash :: join [slash] l.
Definition gtail (r : gostr) : Prop := r = [] \/ gpath r.

Lemma gtail_ok r : gtail r -> tail_ok r.
Proof. intros [->|(l & _ & _ & ->)]; [by left|right; by eexists]. Qed.

Lemma gpath_app p r : gpath p -> gtail r -> gpath (p ++ r).
Proof.
  intros (l & Hl & Hn & ->) [->|(m & Hm & Hnm & ->)]; [rewrite app_nil_r; by exists l|].
  exists (l ++ m). split; [by destruct l|]. split; [by apply Forall_app|]. cbn. by rewrite join_app.
Qed.

Lemma gpath_rel p x : gpath p -> rel_path x -> gpath (p ++ slash :: x).
Proof. intros Hp (l & Hl & Hn & ->). apply gpath_app; [done|]. right. by exists l. Qed.

Lemma gpath_rest p q r : gpath p -> gpath q -> rest_of p q = Some r -> gtail r.
Proof.
  intros (l & Hl & Hn & ->) (m & Hm & Hnm & ->) [E Hr]%rest_of_Some. destruct Hr as [->|[r' ->]]; [by left|]. right.
  injection E as E. assert (split_byte slash (join [slash] l ++ slash :: r') = l ++ split_byte slash r') as Hs.
  { clear -Hl Hn. induction Hn as [|w l (_ & _ & _ & Hw) Hn IH]; [done|]. destruct l as [|v l].
    - by apply split_byte_app.
    - change (join [slash] (w :: v :: l)) with (w ++ slash :: join [slash] (v :: l)).
      rewrite <- app_assoc. cbn [app]. rewrite split_byte_app by done. by rewrite IH. }
  rewrite <- E, split_byte_join in Hs by (done || by apply normal_no_slash). subst m. apply Forall_app in Hnm as [_ Hnm].
  exists (split_byte slash r'). split; [apply split_byte_not_nil|]. split; [done|]. by rewrite join_split_byte.
Qed.

Lemma rest_of_cat m x y : rest_of (m ++ x) (m ++ y) = rest_of x y.
Proof. unfold rest_of. replace (strip_prefix (m ++ x) (m ++ y)) with (strip_prefix x y); [done|]. induction m as [|c m IH]; [done|]. cbn. by rewrite Ascii.eqb_refl. Qed.

Lemma rest_of_app_l x y r : is_Some (rest_of x y) -> tail_ok r -> is_Some (rest_of x (y ++ r)).
Proof. intros [s [-> Hs]%rest_of_Some] Hr. rewrite <- app_assoc. eexists. apply rest_of_app. by apply tail_ok_app. Qed.

Lemma Clean_gpath p : gpath p -> path_Clean p = p.
Proof. intros (l & _ & Hn & ->). apply Clean_abs. by exists l. Qed.

Lemma overlaps_apart a b : gpath a -> gpath b -> overlaps a b = false -> rest_of a b = None /\ rest_of b a = None.
Proof.
  intros Ha%Clean_gpath Hb%Clean_gpath. unfold overlaps. rewrite !orb_false_iff. intros [[H1 H2] H3].
  assert (bool_decide (b = a) || Under b a = false) as H4.
  { rewrite orb_false_iff. split; [|done]. rewrite bool_decide_eq_false in *. congruence. }
  assert (bool_decide (a = b) || Under a b = false) as H5 by by rewrite orb_false_iff.
  split.
  - destruct (rest_of a b) eqn:E; [|done]. rewrite (proj2 (covers_rest b a Hb Ha)) in H4; [done|by eexists].
  - destruct (rest_of b a) eqn:E; [|done]. rewrite (proj2 (covers_rest a b Ha Hb)) in H5; [done|by eexists].
Qed.

(** Two paths with nothing below both. *)
Lemma rest_of_disjoint a b p : rest_of a b = None -> rest_of b a = None -> is_Some (rest_of a p) -> rest_of b p = None.
Proof.
  intros Ha Hb [r Hr]. destruct (rest_of b p) as [s|] eqn:Hs; [|done].
  destruct (rest_of_comparable _ _ _ _ _ Hr Hs) as [[? ?]|[? ?]]; congruence.
Qed.

(** ** Guests

    What is relied on of a guest, which is Linux: [mount --bind] shows one place
    at another, [mount -t tmpfs] puts memory there, and other commands mount
    nothing.  [place] is what a path leads to, and [points] where anything is
    mounted.  A bind takes no mount below its source along, so its law asks for
    a source with none. *)

Definition quiet_argv (argv : list gostr) : bool :=
  match argv with
  | c :: _ => negb (bool_decide (c = lit "mount"))
  | [] => true
  end.

Class Guest (W : Type) `{Runtime W} := {
  place : Type;
  look : W -> gostr -> place;
  in_memory : place -> bool;
  points : W -> gostr -> Prop;
  guest_quiet argv w : quiet_argv argv = true ->
    (forall p, look (Output argv w).2 p = look w p) /\ (forall q, points (Output argv w).2 q -> points w q);
  guest_bind src dst w o w' : gpath src -> gpath dst ->
    Output [lit "mount"; lit "--bind"; src; dst] w = (Ok o, w') ->
    (forall q r, points w q -> rest_of src q = Some r -> r = []) ->
    (forall p, gpath p -> look w' p = match rest_of dst p with Some r => look w (src ++ r) | None => look w p end) /\
    (forall q, points w' q -> q = dst \/ points w q);
  guest_tmpfs opts dst w o w' : gpath dst ->
    Output [lit "mount"; lit "-t"; lit "tmpfs"; lit "-o"; opts; lit "tmpfs"; dst] w = (Ok o, w') ->
    (forall p, gpath p -> match rest_of dst p with Some _ => in_memory (look w' p) = true | None => look w' p = look w p end) /\
    (forall q, points w' q -> q = dst \/ points w q) }.

(** A guest whose mounts are a list, the last one first. *)
Inductive mnt := MBind (src : gostr) | MTmpfs.
Inductive where_ := OnHost (p : gostr) | InMemory (n : nat) (r : gostr).
Definition table : Type := list (gostr * mnt).

Fixpoint table_look (l : table) (p : gostr) : where_ :=
  match l with
  | [] => OnHost p
  | (dst, m) :: l' =>
    match rest_of dst p with
    | Some r => match m with MBind src => table_look l' (src ++ r) | MTmpfs => InMemory (length l') r end
    | None => table_look l' p
    end
  end.

Definition table_run (argv : list gostr) (l : table) : res gostr gostr * table :=
  match argv with
  | [c; a; src; dst] =>
    if bool_decide (c = lit "mount") && bool_decide (a = lit "--bind") then (Ok [], (dst, MBind src) :: l) else (Ok [], l)
  | [c; a; fs; o; _; _; dst] =>
    if bool_decide (c = lit "mount") && bool_decide (a = lit "-t") then (Ok [], (dst, MTmpfs) :: l) else (Ok [], l)
  | [c; f] =>
    if bool_decide (f = lit "/proc/self/mountinfo")
    then (Ok (l ≫= fun x => lit "1 1 0:1 / " ++ x.1 ++ lit " rw" ++ [newline]), l) else (Ok [], l)
  | _ => (Ok [], l)
  end.

#[export] Instance table_runtime : Runtime table :=
  { Output := table_run; Feed := fun _ _ l => (None, l) }.

Lemma table_quiet argv l : quiet_argv argv = true -> (table_run argv l).2 = l.
Proof.
  unfold quiet_argv, table_run. destruct argv as [|c argv]; [done|]. intros Hq%negb_true_iff. rewrite Hq. cbn [andb].
  do 6 (destruct argv as [|? argv]; [by repeat case_match|]). by destruct argv.
Qed.

#[export, program] Instance table_guest : Guest table :=
  { place := where_; look := table_look; in_memory := fun w => match w with InMemory _ _ => true | OnHost _ => false end;
    points := fun l q => q ∈ l.*1 }.
Next Obligation.
  intros argv l Hq. cbn [Output table_runtime]. by rewrite table_quiet.
Qed.
Next Obligation.
  intros src dst l o l' _ _ [= _ <-] _. split; [done|]. intros q. cbn. by rewrite elem_of_cons.
Qed.
Next Obligation.
  intros opts dst l o l' _ [= _ <-]. split.
  - intros p _. cbn. by destruct (rest_of dst p).
  - intros q. cbn. by rewrite elem_of_cons.
Qed.

(** ** Runs that end well *)

Section Runs.
Context {W : Type}.

Lemma run_bind_ok {A B} (m : M W A) (k : A -> M W B) w b w' :
  (m ≫= k) w = (Ok b, w') <-> exists a w1, m w = (Ok a, w1) /\ k a w1 = (Ok b, w').
Proof.
  unfold mbind, M_bind. split.
  - destruct (m w) as [[a|e] w1]; [|done]. eauto.
  - by intros (a & w1 & -> & ?).
Qed.

Lemma each_ok {A} (P : list A -> W -> Prop) (l : list A) (f : A -> M W unit) w w' :
  P [] w ->
  (forall done x todo w1 w2, l = done ++ x :: todo -> P done w1 -> f x w1 = (Ok tt, w2) -> P (done ++ [x]) w2) ->
  each l f w = (Ok tt, w') -> P l w'.
Proof.
  intros H0 Hs. assert (forall todo done w, l = done ++ todo -> P done w -> each todo f w = (Ok tt, w') -> P l w') as G.
  { clear w H0. induction todo as [|x todo IH]; intros done w El HP H.
    - injection H as <-. by rewrite El, app_nil_r.
    - cbn [each] in H. apply run_bind_ok in H as ([] & w1 & H1 & H2). apply (IH (done ++ [x]) w1); [by rewrite <- app_assoc|by eapply Hs|done]. }
  by apply (G l []).
Qed.
End Runs.

(** ** Where the paths of a valid profile lead *)

Definition home_ok (home : gostr) : Prop := gpath home /\ rest_of persistRoot home = None /\ rest_of home persistRoot = None.

Lemma gpath_persist : gpath persistRoot.
Proof.
  exists [lit "run"; lit "brig"; lit "persist"]. split; [done|]. split; [|done]. unfold normal. apply (bool_decide_unpack _). by vm_compute.
Qed.

Section Paths.
Variable p : Profile.
Hypothesis Hv : volumes_ok (p_guestHome p) (p_volumes p).
Hypothesis Hh : home_ok (p_guestHome p).
Notation home := (p_guestHome p).
Notation T := (mountTarget p).
Notation Hom := (home_path p).

Lemma home_path_eq x : Hom x = home ++ slash :: x.
Proof.
  unfold home_path, wrap_path. replace (trim_suffix home [slash]) with home; [done|].
  destruct Hh as [(l & Hl & Hn & E) _]. unfold trim_suffix. destruct (strip_suffix [slash] home) as [r|] eqn:Es; [|done].
  apply strip_suffix_Some in Es. exfalso. rewrite E in Es. destruct (exists_last Hl) as (l' & w & ->).
  apply Forall_app in Hn as [Hl' [(Hw & _ & _ & Hs) _]%Forall_cons].
  assert (exists u c, join [slash] (l' ++ [w]) = u ++ [c] /\ c <> slash) as (u & c & Ej & Hc).
  { destruct (exists_last Hw) as (w' & c & ->). rewrite not_elem_of_app, list_elem_of_singleton in Hs.
    destruct l' as [|v l']; [exists w', c|exists (join [slash] (v :: l') ++ slash :: w'), c]; split; [done|naive_solver| |naive_solver].
    rewrite join_app by done. by rewrite <- app_assoc. }
  rewrite Ej in Es. change (slash :: u ++ [c]) with ((slash :: u) ++ [c]) in Es. by apply app_inj_tail in Es as [_ ->].
Qed.

Lemma rest_of_home x y : rest_of (Hom x) (Hom y) = rest_of x y.
Proof. rewrite !home_path_eq, rest_of_cat. exact (rest_of_cat [slash] x y). Qed.

Lemma rest_of_H x : rest_of home (Hom x) = Some (slash :: x).
Proof. rewrite home_path_eq. apply rest_of_app. right. by eexists. Qed.

Lemma gpath_H x : rel_path x -> gpath (Hom x).
Proof. intros Hx. rewrite home_path_eq. apply gpath_rel; [apply Hh|done]. Qed.

Definition reloc (t : Volume) : Prop := t ∈ Tmpfs p /\ v_at t <> [].

Lemma path_rel v : v ∈ p_volumes p -> rel_path (v_path v).
Proof. pose proof (vo_paths _ _ Hv) as G. rewrite Forall_forall in G. apply G. Qed.

Lemma tmpfs_rel t : t ∈ Tmpfs p -> rel_path (v_path t).
Proof. intros [? _]%elem_of_kind. by apply path_rel. Qed.

Lemma host_rel h : h ∈ HostMounts p -> rel_path (v_path h).
Proof. intros [? _]%elem_of_kind. by apply path_rel. Qed.

Lemma reloc_at t : reloc t -> gpath (v_at t) /\ rest_of (v_at t) home = None /\ rest_of home (v_at t) = None /\
  rest_of (v_at t) persistRoot = None /\ rest_of persistRoot (v_at t) = None.
Proof.
  intros [[Hin _]%elem_of_kind Ha]. pose proof (vo_at _ _ Hv) as G. rewrite Forall_forall in G. destruct (G t Hin Ha) as [_ Hok].
  apply tmpfsAt_ok in Hok as (w & l & Hn & E & Hw & Ho).
  assert (gpath (v_at t)) as Hg by (exists (w :: l); done).
  assert (home <> []) as Hne by (destruct Hh as [(? & _ & _ & ->) _]; done).
  destruct (overlaps_apart _ _ Hg (proj1 Hh) (Ho Hne)) as [H1 H2].
  assert (w <> lit "run") as Hrun.
  { intros ->. apply Hw. apply (bool_decide_unpack _). by vm_compute. }
  split_and!; [done..| |].
  - destruct (rest_of (v_at t) persistRoot) as [r|] eqn:Er; [|done]. exfalso. pose proof Er as [Ep _]%rest_of_Some.
    pose proof (gpath_rest _ _ _ Hg gpath_persist Er) as Hr. rewrite E in Ep. change persistRoot with (slash :: join [slash] [lit "run"; lit "brig"; lit "persist"]) in Ep.
    apply (f_equal (split_byte slash)) in Ep. destruct Hr as [->|(m & Hm & Hnm & ->)].
    + rewrite app_nil_r in Ep. cbn [split_byte] in Ep. rewrite Ascii.eqb_refl, (split_byte_join _ (w :: l)) in Ep by (done || by apply normal_no_slash).
      vm_compute in Ep. by injection Ep as <- _.
    + change ((slash :: join [slash] (w :: l)) ++ slash :: join [slash] m) with (slash :: (join [slash] (w :: l) ++ slash :: join [slash] m)) in Ep.
      rewrite <- join_app in Ep by done. cbn [split_byte] in Ep. rewrite Ascii.eqb_refl, (split_byte_join _ ((w :: l) ++ m)) in Ep
        by (done || by apply normal_no_slash, Forall_app). vm_compute in Ep. by injection Ep as <- _.
  - destruct (rest_of persistRoot (v_at t)) as [r|] eqn:Er; [|done]. exfalso. pose proof Er as [Ep _]%rest_of_Some.
    pose proof (gpath_rest _ _ _ gpath_persist Hg Er) as Hr. rewrite E in Ep. apply (f_equal (split_byte slash)) in Ep.
    cbn [split_byte] in Ep. rewrite Ascii.eqb_refl, (split_byte_join _ (w :: l)) in Ep by (done || by apply normal_no_slash).
    destruct Hr as [->|(m & _ & _ & ->)]; injection Ep as Ew _; by rewrite Ew in Hrun.
Qed.

Lemma flat_paths t u x : t ∈ Tmpfs p -> u ∈ Tmpfs p -> v_at t <> [] \/ v_at u <> [] ->
  is_Some (rest_of (v_path t) x) -> is_Some (rest_of (v_path u) x) -> t = u.
Proof.
  intros Ht Hu Ha [r Hr] [s Hs]. destruct (decide (t = u)) as [|Hne]; [done|]. exfalso.
  pose proof (Clean_rel _ (tmpfs_rel t Ht)) as Ct. pose proof (Clean_rel _ (tmpfs_rel u Hu)) as Cu.
  apply elem_of_kind in Ht as [Ht Kt], Hu as [Hu Ku].
  destruct (vo_flat _ _ Hv t u Ht Hu Kt Ku Hne Ha) as [F1 F2].
  assert (v_path t <> v_path u) as Hp.
  { intros E. pose proof (vo_once _ _ Hv) as Hn. apply list_elem_of_lookup in Ht as [i Hi], Hu as [j Hj].
    apply Hne. assert (i = j) as ->; [|congruence]. apply (NoDup_lookup _ i j (v_path t) Hn).
    - by rewrite list_lookup_fmap, Hi.
    - by rewrite list_lookup_fmap, Hj, E. }
  destruct (rest_of_comparable _ _ _ _ _ Hr Hs) as [Hc|Hc].
  - apply covers_rest in Hc; [|done..]. rewrite F2, bool_decide_false in Hc by congruence. done.
  - apply covers_rest in Hc; [|done..]. rewrite F1, bool_decide_false in Hc by congruence. done.
Qed.

Lemma relocated_cases x l (Hx : rel_path x) (Hl : Forall (fun t => rel_path (v_path t)) l) :
  match relocated x l with
  | Some t => t ∈ l /\ v_at t <> [] /\ is_Some (rest_of (v_path t) x)
  | None => forall t, t ∈ l -> v_at t <> [] -> rest_of (v_path t) x = None
  end.
Proof.
  induction l as [|t m IH] using rev_ind; [by intros t ?%elem_of_nil|].
  apply Forall_app in Hl as [Hm [Ht _]%Forall_cons]. specialize (IH Hm). unfold relocated in *. rewrite foldl_app. cbn [foldl].
  set (best := foldl _ None m) in *. clearbody best.
  assert (forall u, u ∈ m -> u ∈ m ++ [t]) as Hsub by (intros u Hu; apply elem_of_app; by left).
  assert (t ∈ m ++ [t]) as Hin by (apply elem_of_app; right; by apply list_elem_of_singleton).
  assert (has_at t = true <-> v_at t <> []) as Ha by (unfold has_at; by rewrite negb_true_iff, bool_decide_eq_false).
  assert (negb (bool_decide (x = v_path t)) && negb (Under x (v_path t)) = false <-> is_Some (rest_of (v_path t) x)) as Hc.
  { rewrite <- (covers_rest x (v_path t)) by by apply Clean_rel. rewrite <- negb_orb, negb_false_iff. done. }
  destruct (negb (has_at t) || _) eqn:E.
  - destruct best as [u|]; [destruct IH as (? & ? & ?); auto|]. intros u Hu Hau. apply elem_of_app in Hu as [Hu| ->%list_elem_of_singleton]; [by apply IH|].
    apply orb_true_iff in E as [E|E]; [by rewrite (proj2 Ha Hau) in E|]. destruct (rest_of (v_path t) x) eqn:Er; [|done].
    rewrite (proj2 Hc) in E; [done|by eexists].
  - apply orb_false_iff in E as [E1%negb_false_iff E2]. apply Ha in E1. apply Hc in E2.
    destruct best as [u|]; [|done]. destruct (Under (v_path t) (v_path u)); [done|]. destruct IH as (? & ? & ?); auto.
Qed.

(** Either a relocated tmpfs is above [x], and [x] is where it was in it, or
    [x] is below the home. *)
Lemma target_cases x : rel_path x ->
  (exists t s, reloc t /\ rest_of (v_path t) x = Some s /\ T x = v_at t ++ s) \/
  ((forall t, reloc t -> rest_of (v_path t) x = None) /\ T x = Hom x).
Proof.
  intros Hx. pose proof (relocated_cases x (Tmpfs p) Hx) as G. unfold mountTarget.
  assert (Forall (fun t => rel_path (v_path t)) (Tmpfs p)) as Hl by (apply Forall_forall, tmpfs_rel). specialize (G Hl).
  destruct (relocated x (Tmpfs p)) as [t|].
  - left. destruct G as (Ht & Ha & [s Hs]). exists t, s. split; [done|]. split; [done|]. pose proof Hs as [E _]%rest_of_Some. case_bool_decide as Ex.
    + rewrite Ex in E. rewrite <- (app_nil_r (v_path t)) in E at 1. apply app_inv_head in E as <-. by rewrite app_nil_r.
    + rewrite !Clean_rel by (done || by apply tmpfs_rel). f_equal. unfold trim_prefix. rewrite E. by rewrite strip_prefix_app.
  - right. split; [|done]. intros t [Ht Ha]. by apply G.
Qed.

(** What is below a tmpfs is below its mount point, at the same place. *)
Lemma target_below t x r : t ∈ Tmpfs p -> rel_path x -> rest_of (v_path t) x = Some r -> T x = T (v_path t) ++ r.
Proof.
  intros Ht Hx Hr. pose proof (tmpfs_rel t Ht) as Htr. pose proof Hr as [E Hok]%rest_of_Some.
  assert (forall u, reloc u -> is_Some (rest_of (v_path u) x) -> u = t) as U.
  { intros u [Hu Ha] Hs. apply (flat_paths u t x); [done|done|by left|done|by eexists]. }
  assert (forall u s, reloc u -> rest_of (v_path u) (v_path t) = Some s -> u = t) as U'.
  { intros u s Hu Hs. apply U; [done|]. eexists. by eapply rest_of_trans. }
  destruct (target_cases x Hx) as [(u & s & Hu & Hs & ->)|[Hn ->]].
  - assert (u = t) as -> by (apply U; [done|by eexists]). rewrite Hr in Hs. injection Hs as <-.
    destruct (target_cases (v_path t) Htr) as [(u & s & Hu' & Hs & ->)|[Hn _]].
    + assert (u = t) as -> by by eapply U'. rewrite rest_of_refl in Hs. injection Hs as <-. by rewrite app_nil_r.
    + specialize (Hn t Hu). by rewrite rest_of_refl in Hn.
  - destruct (target_cases (v_path t) Htr) as [(u & s & Hu' & Hs & ->)|[_ ->]].
    + assert (u = t) as -> by by eapply U'. specialize (Hn t Hu'). congruence.
    + rewrite !home_path_eq, E, <- app_assoc. done.
Qed.

Lemma target_at t : reloc t -> T (v_path t) = v_at t.
Proof.
  intros Ht. destruct (target_cases (v_path t) (tmpfs_rel t (proj1 Ht))) as [(u & s & Hu & Hs & ->)|[Hn _]].
  - assert (u = t) as ->.
    { apply (flat_paths u t (v_path t)); [apply Hu|apply Ht|left; apply Hu|by eexists|]. rewrite rest_of_refl. by eexists. }
    rewrite rest_of_refl in Hs. injection Hs as <-. by rewrite app_nil_r.
  - specialize (Hn t Ht). by rewrite rest_of_refl in Hn.
Qed.

Lemma target_home t : t ∈ Tmpfs p -> v_at t = [] -> T (v_path t) = Hom (v_path t).
Proof.
  intros Ht Ha. destruct (target_cases (v_path t) (tmpfs_rel t Ht)) as [(u & s & Hu & Hs & _)|[_ ->]]; [|done].
  assert (u = t) as ->.
  { apply (flat_paths u t (v_path t)); [apply Hu|done|left; apply Hu|by eexists|]. rewrite rest_of_refl. by eexists. }
  by destruct Hu as [_ ?].
Qed.

(** A place of the workspace and the place in the guest that shows it: the home
    in itself, and a relocated tmpfs at its mount point. *)
Definition root (src dst : gostr) : Prop :=
  (src = home /\ dst = home) \/ exists t, reloc t /\ src = Hom (v_path t) /\ dst = v_at t.

Lemma target_root x : rel_path x -> exists src dst s, root src dst /\ tail_ok s /\ T x = dst ++ s /\ Hom x = src ++ s.
Proof.
  intros Hx. destruct (target_cases x Hx) as [(t & s & Ht & Hs & E)|[_ E]].
  - pose proof Hs as [Ex Hok]%rest_of_Some. exists (Hom (v_path t)), (v_at t), s. split_and!; [right; by exists t|done|done|].
    rewrite !home_path_eq, Ex, <- app_assoc. done.
  - exists home, home, (slash :: x). split_and!; [by left|right; by eexists|by rewrite E, home_path_eq|apply home_path_eq].
Qed.

Lemma roots_same s1 d1 s2 d2 q : root s1 d1 -> root s2 d2 ->
  is_Some (rest_of d1 q) -> is_Some (rest_of d2 q) -> s1 = s2 /\ d1 = d2.
Proof.
  intros R1 R2 Hq1 Hq2. assert (forall a b, rest_of a b = None -> rest_of b a = None -> is_Some (rest_of a q) -> is_Some (rest_of b q) -> False) as D.
  { intros a b Ha Hb Hsa [r Hr]. rewrite (rest_of_disjoint a b q) in Hr; done. }
  destruct R1 as [[-> ->]|(t & Ht & -> & ->)], R2 as [[-> ->]|(u & Hu & -> & ->)]; [done| | |].
  - destruct (reloc_at u Hu) as (_ & A1 & A2 & _). by destruct (D _ _ A2 A1).
  - destruct (reloc_at t Ht) as (_ & A1 & A2 & _). by destruct (D _ _ A1 A2).
  - destruct (decide (t = u)) as [->|Hne]; [done|]. exfalso. destruct Ht as [Ht Hat], Hu as [Hu Hau].
    destruct (reloc_at t (conj Ht Hat)) as (Gt & _). destruct (reloc_at u (conj Hu Hau)) as (Gu & _).
    apply elem_of_kind in Ht as [Ht _], Hu as [Hu _].
    destruct (overlaps_apart _ _ Gt Gu (vo_apart _ _ Hv t u Ht Hu Hne Hat Hau)) as [A1 A2]. by apply (D _ _ A1 A2).
Qed.

(** Where one path shows below two targets, the workspace has one place. *)
Lemma target_consistent x y r r' : rel_path x -> rel_path y -> tail_ok r -> tail_ok r' ->
  T x ++ r = T y ++ r' -> Hom x ++ r = Hom y ++ r'.
Proof.
  intros Hx Hy Hr Hr' E. destruct (target_root x Hx) as (s1 & d1 & a & R1 & Ha & E1 & ->), (target_root y Hy) as (s2 & d2 & b & R2 & Hb & E2 & ->).
  rewrite E1, E2, <- !app_assoc in E. destruct (roots_same s1 d1 s2 d2 (d1 ++ a ++ r) R1 R2) as [-> ->].
  - eexists. by apply rest_of_app, tail_ok_app.
  - rewrite E. eexists. by apply rest_of_app, tail_ok_app.
  - apply app_inv_head in E. by rewrite <- !app_assoc, E.
Qed.

Lemma target_covers x y : rel_path x -> rel_path y -> is_Some (rest_of (T x) (T y)) -> is_Some (rest_of x y).
Proof.
  intros Hx Hy [r [E Hr]%rest_of_Some]. exists r. apply rest_of_Some. split; [|done].
  rewrite <- (app_nil_r (T y)) in E. apply target_consistent in E; [|done..|by left|done].
  rewrite app_nil_r, !home_path_eq, <- app_assoc in E. apply app_inv_head in E. by injection E.
Qed.

Lemma gpath_T x : rel_path x -> gpath (T x).
Proof.
  intros Hx. destruct (target_cases x Hx) as [(t & s & Ht & Hs & ->)|[_ ->]]; [|by apply gpath_H].
  apply gpath_app; [apply (reloc_at t Ht)|]. pose proof (tmpfs_rel t (proj1 Ht)) as Htr.
  apply (gpath_rest (Hom (v_path t)) (Hom x)); [by apply gpath_H..|]. by rewrite rest_of_home.
Qed.

(** Below the mount points nothing is under the place of the pins. *)
Lemma target_outside x r : rel_path x -> tail_ok r -> rest_of persistRoot (T x ++ r) = None.
Proof.
  intros Hx Hr. destruct (target_root x Hx) as (s & d & a & R & Ha & -> & _). rewrite <- app_assoc.
  assert (rest_of persistRoot d = None /\ rest_of d persistRoot = None) as [A1 A2].
  { destruct R as [[_ ->]|(t & Ht & _ & ->)]; [apply Hh|]. by destruct (reloc_at t Ht) as (_ & _ & _ & ? & ?). }
  apply (rest_of_disjoint d); [done..|]. eexists. by apply rest_of_app, tail_ok_app.
Qed.

Lemma home_outside x r : tail_ok r -> rest_of persistRoot (Hom x ++ r) = None.
Proof.
  intros Hr. apply (rest_of_disjoint home); [apply Hh..|]. rewrite home_path_eq, <- app_assoc. eexists. apply rest_of_app. right. by eexists.
Qed.

Lemma pin_inside x r : tail_ok r -> is_Some (rest_of persistRoot (pinPath x ++ r)).
Proof. intros Hr. rewrite pinPath_escape, <- app_assoc. eexists. apply rest_of_app. right. by eexists. Qed.

Lemma outside_pin x q : rest_of persistRoot q = None -> rest_of (pinPath x) q = None.
Proof.
  intros Hq. destruct (rest_of (pinPath x) q) as [r|] eqn:E; [|done]. apply rest_of_Some in E as [-> Hr].
  destruct (pin_inside x r Hr) as [? ?]. congruence.
Qed.

Lemma pin_below x y r : tail_ok r -> is_Some (rest_of (pinPath x) (pinPath y ++ r)) -> x = y.
Proof.
  intros Hr [s [E Hs]%rest_of_Some]. rewrite !pinPath_escape, <- !app_assoc in E. apply app_inv_head in E. injection E as E.
  apply escape_inj. assert (forall a b r s, slash ∉ a -> slash ∉ b -> tail_ok r -> tail_ok s -> a ++ r = b ++ s -> a = b) as G.
  { clear. induction a as [|c a IH]; intros [|d b] r s Ha Hb Hr Hs E; [done| | |].
    - cbn in E. destruct Hr as [->|[? ->]]; [done|]. injection E as <- _. by apply not_elem_of_cons in Hb as [? _].
    - cbn in E. destruct Hs as [->|[? ->]]; [done|]. injection E as -> _. by apply not_elem_of_cons in Ha as [? _].
    - injection E as -> E. apply not_elem_of_cons in Ha as [_ Ha], Hb as [_ Hb]. f_equal. by apply (IH b r s). }
  symmetry. by eapply G; [apply escape_no_slash..|exact Hr|exact Hs|].
Qed.

Lemma gpath_pin x : rel_path x -> gpath (pinPath x).
Proof.
  intros (l & Hl & Hn & E). rewrite pinPath_escape. apply gpath_rel; [apply gpath_persist|].
  exists [escape x]. split; [done|]. split; [|done]. constructor; [|constructor].
  assert (forall y, escape x = escape y -> x = y) as Hi by apply escape_inj.
  assert (forall w, x = w -> slash ∉ w -> normal w) as Hw.
  { intros w -> Hs. assert (split_byte slash w = l) as El by (rewrite E; apply split_byte_join; [done|by apply normal_no_slash]).
    rewrite split_byte_none in El by done. rewrite <- El in Hn. by apply Forall_cons in Hn as [? _]. }
  split_and!; [| | |apply escape_no_slash]; intros Ee.
  - apply (Hi []) in Ee. by destruct (Hw [] Ee (not_elem_of_nil _)) as (? & _).
  - apply (Hi dot1) in Ee. destruct (Hw dot1 Ee) as (_ & ? & _); [|done]. apply (bool_decide_unpack _). by vm_compute.
  - apply (Hi dot2) in Ee. destruct (Hw dot2 Ee) as (_ & _ & ? & _); [|done]. apply (bool_decide_unpack _). by vm_compute.
Qed.
End Paths.

(** ** The three phases *)

Lemma coveredBy_ok cover h :
  match coveredBy cover h with
  | Some t => t ∈ cover /\ Under (v_path h) (v_path t) = true
  | None => forall t, t ∈ cover -> Under (v_path h) (v_path t) = false
  end.
Proof.
  induction cover as [|t m IH] using rev_ind; [by intros t ?%elem_of_nil|]. unfold coveredBy in *. rewrite foldl_app. cbn [foldl].
  set (best := foldl _ None m) in *. clearbody best.
  destruct (Under (v_path h) (v_path t)) eqn:E; cbn [andb].
  - destruct best as [f|]; [destruct (Under (v_path t) (v_path f))|]; rewrite elem_of_app, ?list_elem_of_singleton; naive_solver.
  - destruct best as [f|]; [rewrite elem_of_app; naive_solver|]. intros u [Hu| ->%list_elem_of_singleton]%elem_of_app; auto.
Qed.

Section Mounts.
Context {W : Type} {RW : Runtime W} {GW : Guest W}.
Variable c : Config.
Notation p := (c_profile c).
Hypothesis Hv : volumes_ok (p_guestHome p) (p_volumes p).
Hypothesis Hh : home_ok (p_guestHome p).
Notation T := (mountTarget p).
Notation Hom := (home_path p).
(** The guest as it booted. *)
Variable w0 : W.

Definition outside (q : gostr) : Prop := gpath q /\ rest_of persistRoot q = None.

(** Nothing is mounted on a volume of the profile, nor where volumes are
    pinned. *)
Definition unmounted (q : gostr) : Prop :=
  (forall x r, x ∈ v_path <$> p_volumes p -> rest_of (Hom x) q = Some r -> False) /\ rest_of persistRoot q = None.
Hypothesis Hfresh : forall q, points w0 q -> unmounted q.

(** Every mount so far is an old one, a pin or the target of a volume. *)
Definition points_ok (w : W) : Prop :=
  forall q, points w q -> points w0 q \/ exists v, v ∈ p_volumes p /\ (q = pinPath (v_path v) \/ q = T (v_path v)).

Definition pin_shows (w : W) (h : Volume) : Prop :=
  forall r, gtail r -> look w (pinPath (v_path h) ++ r) = look w0 (Hom (v_path h) ++ r).

Lemma quiet_ok argv f w w' u : quiet_argv argv = true -> guestRoot f argv w = (Ok u, w') ->
  (forall q, look w' q = look w q) /\ (forall q, points w' q -> points w q).
Proof.
  intros Hq Hr. unfold guestRoot in Hr. apply run_bind_ok in Hr as (o & w1 & Ho & [= _ <-]). unfold guestOutput in Ho.
  pose proof (guest_quiet argv w Hq) as G. destruct (Output argv w) as [r w2]. injection Ho as _ <-. exact G.
Qed.

Lemma target_quiet target file w w' u : createGuestTarget target file w = (Ok u, w') ->
  (forall q, look w' q = look w q) /\ (forall q, points w' q -> points w q).
Proof. unfold createGuestTarget. by destruct file; apply quiet_ok. Qed.

(** A bind after its target was made. *)
Lemma bind_step target file f src w w' : gpath src -> gpath target -> points_ok w ->
  (forall q r, points w q -> rest_of src q = Some r -> r = []) ->
  (createGuestTarget target file ≫= fun _ => guestRoot f [lit "mount"; lit "--bind"; src; target]) w = (Ok tt, w') ->
  (forall q, gpath q -> look w' q = match rest_of target q with Some r => look w (src ++ r) | None => look w q end) /\
  (forall q, points w' q -> q = target \/ points w q).
Proof.
  intros Hs Ht Hp Hbelow (? & w1 & H1%target_quiet & H2)%run_bind_ok. destruct H1 as [L1 P1].
  unfold guestRoot in H2. apply run_bind_ok in H2 as (o & w2 & Ho & [= <-]). unfold guestOutput in Ho.
  destruct (Output _ w1) as [[o'|] w3] eqn:E; [|done]. injection Ho as _ <-.
  destruct (guest_bind src target w1 _ _ Hs Ht E) as [L2 P2]; [intros q r Hq; apply Hbelow; auto|].
  split; [|intros q [->|Hq]%P2; auto]. intros q Hq. rewrite L2 by done. destruct (rest_of target q); apply L1.
Qed.

Lemma path_in v : v ∈ p_volumes p -> v_path v ∈ v_path <$> p_volumes p.
Proof. intros Hin. apply list_elem_of_fmap. by exists v. Qed.


Lemma outside_home x r : rel_path x -> gtail r -> outside (Hom x ++ r).
Proof. intros Hx Hr. split; [by apply gpath_app; [apply gpath_H|]|by apply home_outside; [|apply gtail_ok]]. Qed.

Lemma outside_target x r : rel_path x -> gtail r -> outside (T x ++ r).
Proof. intros Hx Hr. split; [by apply gpath_app; [apply gpath_T|]|by apply target_outside; [..|apply gtail_ok]]. Qed.

Lemma host_vol h : h ∈ HostMounts p -> h ∈ p_volumes p.
Proof. by intros [? _]%elem_of_kind. Qed.

Lemma old_points x q r : x ∈ v_path <$> p_volumes p -> points w0 q -> rest_of (Hom x) q = Some r -> r = [].
Proof. intros Hx Hq Hr. exfalso. destruct (Hfresh q Hq) as [Hf _]. by eapply Hf. Qed.

Lemma pin_not_home x y q r : q = pinPath y -> rest_of (Hom x) q = Some r -> r = [].
Proof.
  intros -> Hr. exfalso. destruct (pin_inside y [] (or_introl eq_refl)) as [s Hs]. rewrite app_nil_r in Hs.
  assert (rest_of (Hom x) (pinPath y) = None); [|congruence]. apply (rest_of_disjoint persistRoot); [..|by eexists].
  - rewrite <- (app_nil_r (Hom x)). apply home_outside; [done|by left].
  - destruct (rest_of (Hom x) persistRoot) as [s'|] eqn:E; [|done].
    assert (rest_of (p_guestHome p) persistRoot = Some ((slash :: x) ++ s')) as E'; [|by destruct Hh as (_ & _ & Hn); rewrite Hn in E'].
    eapply rest_of_trans; [by apply rest_of_H|done].
Qed.

Lemma target_pin x y r : rel_path x -> tail_ok r -> rest_of (T x) (pinPath y ++ r) = None.
Proof.
  intros Hx Hr. apply (rest_of_disjoint persistRoot); [| |by apply pin_inside].
  - rewrite <- (app_nil_r (T x)). apply target_outside; [done..|by left].
  - destruct (target_root p Hv Hh x Hx) as (s & d & a & R & Ha & Et & _). rewrite Et.
    destruct (rest_of (d ++ a) persistRoot) eqn:Ed; [|done]. exfalso.
    assert (rest_of d (d ++ a) = Some a) as Eda by by apply rest_of_app.
    pose proof (rest_of_trans _ _ _ _ _ Eda Ed) as Edp.
    destruct R as [[_ ->]|(u & Hu & _ & ->)]; [by destruct Hh as (_ & _ & Hn); rewrite Hn in Edp|].
    destruct (reloc_at p Hv Hh u Hu) as (_ & _ & _ & Hn & _). congruence.
Qed.

(** After the pins. *)
Definition phase1 (done : list Volume) (w : W) : Prop :=
  (forall q, outside q -> look w q = look w0 q) /\
  (forall g, g ∈ done -> pinning (Tmpfs p) g = true -> pin_shows w g) /\
  (forall q, points w q -> points w0 q \/ exists v, v ∈ p_volumes p /\ q = pinPath (v_path v)).

Lemma phase1_points done w : phase1 done w -> points_ok w.
Proof. intros (_ & _ & P) q [Hq|(v & Hin & ->)]%P; [by left|right; exists v; auto]. Qed.

Lemma phase1_step mounted done h w w' : h ∈ HostMounts p -> (forall g, g ∈ done -> g ∈ HostMounts p) -> pinPath (v_path h) ∉ mounted -> phase1 done w ->
  pin_one c (Tmpfs p) mounted h w = (Ok tt, w') -> phase1 (done ++ [h]) w'.
Proof.
  intros Hin Hsub Hm Hd Hs. pose proof (phase1_points _ _ Hd) as Hp. destruct Hd as (Hl & Hd & P1).
  unfold pin_one in Hs. rewrite (proj2 (mem_false _ _) Hm), orb_false_r in Hs. pose proof (host_rel p Hv h Hin) as Hr.
  destruct (pinning (Tmpfs p) h) eqn:Ep; cbn [negb] in Hs.
  2:{ injection Hs as <-. split_and!; [done| |done]. intros g [Hg| ->%list_elem_of_singleton]%elem_of_app Hgp; [auto|congruence]. }
  apply bind_step in Hs as [L P]; [|by apply gpath_H|by apply gpath_pin|done|].
  2:{ intros q r [Hq|(v & _ & Hq)]%P1 Hrest; [|by eapply pin_not_home]. eapply old_points; [by apply path_in, host_vol|done..]. }
  split_and!.
  - intros q Hq. rewrite L, outside_pin by apply Hq. by apply Hl.
  - assert (forall r, gtail r -> look w' (pinPath (v_path h) ++ r) = look w0 (Hom (v_path h) ++ r)) as Hnew.
    { intros r Hgr. rewrite L, rest_of_app by (by apply gtail_ok || by apply gpath_app; [apply gpath_pin|]). by apply Hl, outside_home. }
    intros g [Hg| ->%list_elem_of_singleton]%elem_of_app Hgp; [|exact Hnew]. intros r Hgr.
    destruct (decide (v_path h = v_path g)) as [E|Hne]; [rewrite <- E; by apply Hnew|].
    pose proof (host_rel p Hv g (Hsub g Hg)) as Hgr'. rewrite L by by apply gpath_app; [apply gpath_pin|].
    destruct (rest_of (pinPath (v_path h)) _) eqn:E; [|by apply Hd].
    exfalso. apply Hne. eapply pin_below; [by apply gtail_ok|by eexists].
  - intros q [->|Hq]%P; [right; exists h; split; [by apply host_vol|done]|by apply P1].
Qed.

(** What the tmpfs alone make of the home. *)
Definition covered (l : list Volume) (w : W) (q : gostr) : Prop :=
  ((forall t, t ∈ l -> rest_of (T (v_path t)) q = None) -> look w q = look w0 q) /\
  (forall t, t ∈ l -> is_Some (rest_of (T (v_path t)) q) -> in_memory (look w q) = true).

Definition pins_show (w : W) : Prop := forall g, g ∈ HostMounts p -> pinning (Tmpfs p) g = true -> pin_shows w g.

Definition phase2 (done : list Volume) (w : W) : Prop :=
  (forall q, outside q -> covered done w q) /\ pins_show w /\
  (forall q, points w q -> points w0 q \/ exists v, v ∈ p_volumes p /\ (q = pinPath (v_path v) \/ v ∈ Tmpfs p /\ q = T (v_path v))).

Lemma phase2_step done t w w' : t ∈ Tmpfs p -> phase2 done w -> cover_one c t w = (Ok tt, w') -> phase2 (done ++ [t]) w'.
Proof.
  intros Hin (Hl & Hd & P1) Hs. pose proof (tmpfs_rel p Hv t Hin) as Hr. unfold cover_one in Hs.
  apply run_bind_ok in Hs as ([] & w1 & H1 & H2).
  assert ((forall q, look w1 q = look w q) /\ (forall q, points w1 q -> points w q)) as [L1 P1'].
  { destruct (has_at t); [by eapply quiet_ok; [|exact H1]|]. by injection H1 as <-. }
  unfold guestRoot in H2. apply run_bind_ok in H2 as (o & w2 & Ho & [= <-]). unfold guestOutput in Ho.
  destruct (Output _ w1) as [[o'|] w3] eqn:E; [|done]. injection Ho as _ <-.
  destruct (guest_tmpfs _ _ w1 _ _ (gpath_T p Hv Hh _ Hr) E) as [L2 P2]. split_and!.
  - intros q Hq. specialize (L2 q (proj1 Hq)). destruct (Hl q Hq) as [C1 C2]. split.
    + intros Hn. rewrite (Hn t) in L2 by (apply elem_of_app; right; by apply list_elem_of_singleton). rewrite L2, L1.
      apply C1. intros u Hu. apply Hn, elem_of_app. by left.
    + intros u Hu Hs. destruct (rest_of (T (v_path t)) q) eqn:Et; [done|]. rewrite L2, L1.
      apply elem_of_app in Hu as [Hu| ->%list_elem_of_singleton]; [by eapply C2|]. rewrite Et in Hs. by destruct Hs.
  - intros g Hg Hgp r Hgr. pose proof (host_rel p Hv g Hg) as Hgg.
    specialize (L2 (pinPath (v_path g) ++ r) (gpath_app _ _ (gpath_pin _ Hgg) Hgr)).
    rewrite (target_pin _ _ _ Hr (gtail_ok _ Hgr)) in L2. rewrite L2, L1. by apply Hd.
  - intros q [->|Hq]%P2; [right; exists t; split; [by apply elem_of_kind in Hin as [? _]|by right]|by apply P1, P1'].
Qed.

(** After the first of the hostmounts are bound back. *)
Definition phase3 (done : list Volume) (w : W) : Prop :=
  (forall q, outside q -> (forall h, h ∈ done -> rest_of (T (v_path h)) q = None) -> covered (Tmpfs p) w q) /\
  (forall h r, h ∈ done -> gtail r -> look w (T (v_path h) ++ r) = look w0 (Hom (v_path h) ++ r)) /\
  pins_show w /\ points_ok w.

Lemma target_in_home x q : rel_path x -> is_Some (rest_of (T x) q) -> is_Some (rest_of (p_guestHome p) q) ->
  T x = Hom x /\ forall t, reloc p t -> rest_of (v_path t) x = None.
Proof.
  intros Hx Hq Hhq. destruct (target_cases p Hv x Hx) as [(t & s & Ht & Hs & E)|[Hn E]]; [|done]. exfalso.
  destruct (reloc_at p Hv Hh t Ht) as (_ & A1 & A2 & _). rewrite E in Hq. destruct Hq as [r Hr].
  assert (is_Some (rest_of (v_at t) q)) as Hat.
  { eexists. eapply rest_of_trans; [|exact Hr]. apply rest_of_app. by apply rest_of_Some in Hs as [_ ?]. }
  pose proof (rest_of_disjoint _ _ q A1 A2 Hat) as Hnone. destruct Hhq as [? ?]. congruence.
Qed.

Lemma phase3_bind done h src w w' : h ∈ HostMounts p -> (forall g, g ∈ done -> g ∈ HostMounts p) -> phase3 done w ->
  (forall r, gtail r -> look w (src ++ r) = look w0 (Hom (v_path h) ++ r)) ->
  (forall q, gpath q -> look w' q = match rest_of (T (v_path h)) q with Some r => look w (src ++ r) | None => look w q end) ->
  (forall q, points w' q -> q = T (v_path h) \/ points w q) -> phase3 (done ++ [h]) w'.
Proof.
  intros Hin Hsub (A & B & Pn & P) Hsrc L P'. pose proof (host_rel p Hv h Hin) as Hr. split_and!.
  - intros q Hq Hn. assert (look w' q = look w q) as E.
    { rewrite L by apply Hq. rewrite (Hn h); [done|]. apply elem_of_app; right; by apply list_elem_of_singleton. }
    unfold covered. rewrite E. apply A; [done|]. intros g Hg. apply Hn, elem_of_app. by left.
  - assert (forall r, gtail r -> look w' (T (v_path h) ++ r) = look w0 (Hom (v_path h) ++ r)) as Hnew.
    { intros r Hgr. rewrite L, rest_of_app by (by apply gtail_ok || by apply gpath_app; [apply gpath_T|]). by apply Hsrc. }
    intros g r [Hg| ->%list_elem_of_singleton]%elem_of_app Hgr; [|by apply Hnew]. pose proof (host_rel p Hv g (Hsub g Hg)) as Hg'.
    assert (gpath (T (v_path g) ++ r)) as Hgp by (by apply gpath_app; [apply gpath_T|]).
    rewrite L by done. destruct (rest_of (T (v_path h)) _) as [s|] eqn:E; [|by apply B].
    pose proof (gpath_rest _ _ _ (gpath_T p Hv Hh _ Hr) Hgp E) as Hs. apply rest_of_Some in E as [E Hok].
    rewrite Hsrc by done. f_equal. symmetry. apply (target_consistent p Hv Hh); [done|done|by apply gtail_ok|done|done].
  - intros g Hg Hgp r Hgr. pose proof (host_rel p Hv g Hg) as Hgg.
    rewrite L by by apply gpath_app; [apply gpath_pin|]. rewrite target_pin by (done || by apply gtail_ok). by apply Pn.
  - intros q [->|Hq]%P'; [|by apply P]. right. exists h. split; [by apply host_vol|by right].
Qed.

Lemma host_covered h : h ∈ HostMounts p ->
  exists t, coveredBy (Tmpfs p) h = Some t /\ t ∈ Tmpfs p /\ is_Some (rest_of (v_path t) (v_path h)).
Proof.
  intros Hin. pose proof (host_rel p Hv h Hin) as Hr. apply elem_of_kind in Hin as [Hin Hk].
  pose proof (coveredBy_ok (Tmpfs p) h) as G. destruct (coveredBy (Tmpfs p) h) as [t|].
  - destruct G as [Ht Hu]. exists t. split; [done|]. split; [done|].
    apply Under_rest in Hu as [r Hu]; [by eexists|by apply Clean_rel|by apply Clean_rel, (tmpfs_rel p Hv)].
  - destruct (vo_host _ _ Hv h Hin Hk) as (t & Ht & Kt & Hu). rewrite G in Hu; [done|]. by apply elem_of_kind.
Qed.

Lemma home_shows done h t r w : h ∈ HostMounts p -> (forall g, g ∈ done -> g ∈ HostMounts p) -> phase3 done w ->
  reloc p t -> is_Some (rest_of (v_path t) (v_path h)) -> gtail r ->
  look w (Hom (v_path h) ++ r) = look w0 (Hom (v_path h) ++ r).
Proof.
  intros Hin Hsub (A & B & _) Ht Hth Hgr. pose proof (host_rel p Hv h Hin) as Hr. set (q := Hom (v_path h) ++ r).
  assert (outside q) as Hq by by apply outside_home.
  assert (is_Some (rest_of (p_guestHome p) q)) as Hhq.
  { apply rest_of_app_l; [|by apply gtail_ok]. rewrite rest_of_H by done. by eexists. }
  destruct (existsb (fun g => is_some (rest_of (T (v_path g)) q)) done) eqn:E.
  - apply existsb_true in E as (g & Hg & E). destruct (rest_of (T (v_path g)) q) as [s|] eqn:Es; [|done].
    pose proof (host_rel p Hv g (Hsub g Hg)) as Hg'. destruct (target_in_home (v_path g) q Hg') as [ET _]; [by eexists|done|].
    pose proof (gpath_rest _ _ _ (gpath_T p Hv Hh _ Hg') (proj1 Hq) Es) as Hs. apply rest_of_Some in Es as [Es _].
    rewrite Es, B by done. by rewrite ET.
  - rewrite existsb_false, Forall_forall in E. apply A; [done| |].
    + intros g Hg. specialize (E g Hg). cbv beta in E. by destruct (rest_of (T (v_path g)) q).
    + intros u Hu. pose proof (tmpfs_rel p Hv u Hu) as Hur. destruct (rest_of (T (v_path u)) q) as [s|] eqn:Es; [|done]. exfalso.
      destruct (target_in_home (v_path u) q Hur) as [ET Hn]; [by eexists|done|]. rewrite ET in Es. unfold q in Es.
      rewrite !home_path_eq, <- app_assoc, rest_of_cat in Es by done. change ((slash :: v_path h) ++ r) with ([slash] ++ (v_path h ++ r)) in Es.
      change (slash :: v_path u) with ([slash] ++ v_path u) in Es. rewrite rest_of_cat in Es.
      assert (t = u) as ->.
      { apply (flat_paths p Hv t u (v_path h ++ r)); [apply Ht|done|left; apply Ht|apply rest_of_app_l; [done|by apply gtail_ok]|by eexists]. }
      specialize (Hn u Ht). by rewrite rest_of_refl in Hn.
Qed.

Lemma phase3_step done h w w' : h ∈ HostMounts p -> (forall g, g ∈ done -> g ∈ HostMounts p) -> phase3 done w ->
  bind_one c (Tmpfs p) h w = (Ok tt, w') -> phase3 (done ++ [h]) w'.
Proof.
  intros Hin Hsub H3 Hs. pose proof (host_rel p Hv h Hin) as Hr. destruct (host_covered h Hin) as (t & Ec & Ht & Hth).
  pose proof H3 as (A & B & Pn & P). unfold bind_one in Hs.
  destruct (relocating (Tmpfs p) h) eqn:Er.
  - unfold relocating in Er. rewrite Ec in Er.
    assert (reloc p t) as Hrt by (split; [done|]; unfold has_at in Er; by rewrite negb_true_iff, bool_decide_eq_false in Er).
    apply bind_step in Hs as [L P']; [|by apply gpath_H|by apply gpath_T|done|].
    + apply (phase3_bind done h (Hom (v_path h)) w); [done..| |done|done]. intros r Hgr. by apply (home_shows done h t).
    + intros q r [Hq|(v & Hin' & [->| ->])]%P Hrest.
      * eapply old_points; [by apply path_in, host_vol|done..].
      * by eapply pin_not_home.
      * exfalso. destruct (target_in_home (v_path v) (T (v_path v))) as [ET Hn]; [by apply (path_rel p Hv)|rewrite rest_of_refl; by eexists| |].
        { eexists. eapply rest_of_trans; [by apply (rest_of_H p Hh)|exact Hrest]. }
        rewrite ET, rest_of_home in Hrest by done. specialize (Hn t Hrt).
        destruct Hth as [s Hth]. rewrite (rest_of_trans _ _ _ _ _ Hth Hrest) in Hn. done.
  - unfold relocating in Er. rewrite Ec in Er. unfold pinning in Hs. rewrite Ec, Er in Hs. cbn [negb] in Hs.
    assert (v_at t = []) as Hat by (unfold has_at in Er; by rewrite negb_false_iff, bool_decide_eq_true in Er).
    assert (T (v_path h) = Hom (v_path h)) as ET.
    { destruct Hth as [s Hth]. rewrite (target_below p Hv Hh t _ s), (target_home p Hv t) by done.
      apply rest_of_Some in Hth as [E _]. by rewrite !home_path_eq, E, <- app_assoc by done. }
    assert (pinning (Tmpfs p) h = true) as Hpin by (unfold pinning; by rewrite Ec, Er).
    rewrite <- ET in Hs. apply bind_step in Hs as [L P']; [|by apply gpath_pin|by apply gpath_T|done|].
    + apply (phase3_bind done h (pinPath (v_path h)) w); [done..| |done|done]. by apply Pn.
    + intros q r [Hq|(v & Hin' & [->| ->])]%P Hrest.
      * exfalso. destruct (Hfresh q Hq) as [_ Ho]. rewrite outside_pin in Hrest; done.
      * rewrite <- (app_nil_r (pinPath (v_path v))) in Hrest.
        assert (v_path h = v_path v) as E by (apply (pin_below _ _ []); [by left|by exists r]).
        rewrite E, app_nil_r, rest_of_refl in Hrest. by injection Hrest as <-.
      * exfalso. rewrite outside_pin in Hrest; [done|]. rewrite <- (app_nil_r (T _)). apply target_outside; [done..|by apply (path_rel p Hv)|by left].
Qed.

Lemma phases_serve mounted w' : (forall v, v ∈ p_volumes p -> pinPath (v_path v) ∉ mounted) ->
  mount_phases c (Tmpfs p) mounted w0 = (Ok tt, w') -> phase3 (HostMounts p) w'.
Proof.
  intros Hm Hs. unfold mount_phases in Hs. apply run_bind_ok in Hs as ([] & w1 & H1 & Hs). apply run_bind_ok in Hs as ([] & w2 & H2 & H3).
  assert (forall (l done : list Volume) h todo, l = done ++ h :: todo -> h ∈ l /\ forall g, g ∈ done -> g ∈ l) as Hsub.
  { intros l done h todo ->. split; [|intros g Hg]; rewrite elem_of_app; [right; by apply elem_of_cons; left|by left]. }
  assert (phase1 (HostMounts p) w1) as P1.
  { revert H1. apply (each_ok phase1); [split_and!; [done|by intros g ?%elem_of_nil|by left]|].
    intros done h todo u u' [Hh1 Hd]%Hsub. apply phase1_step; [done..|]. by apply Hm, host_vol. }
  assert (phase2 (Tmpfs p) w2) as P2.
  { revert H2. apply (each_ok phase2).
    - destruct P1 as (L & Pn & P). split_and!; [|intros g Hg; by apply Pn|].
      + intros q Hq. split; [intros _; by apply L|by intros t ?%elem_of_nil].
      + intros q [Hq|(v & Hin & ->)]%P; [by left|]. right. exists v. auto.
    - intros done t todo u u' [Ht _]%Hsub. by apply phase2_step. }
  revert H3. apply (each_ok phase3).
  - destruct P2 as (L & Pn & P). split_and!; [intros q Hq _; by apply L|by intros h r ?%elem_of_nil|done|].
    intros q [Hq|(v & Hin & [->|[_ ->]])]%P; [by left|right; exists v; auto..].
  - intros done h todo u u' [Hh1 Hd]%Hsub. by apply phase3_step.
Qed.
End Mounts.

(** A guest that has just booted: nothing is mounted on a volume nor where
    volumes are pinned, and its mount table says so. *)
Record fresh {W : Type} {RW : Runtime W} {GW : Guest W} (p : Profile) (w : W) : Prop := {
  fr_points : forall q, points w q -> unmounted (MkConfig p ∅ [] [] 0) q;
  fr_table : forall mounted w1, guestMountpoints w = (Ok mounted, w1) ->
    forall v, v ∈ p_volumes p -> mountTarget p (v_path v) ∉ mounted /\ home_path p (v_path v) ∉ mounted /\ pinPath (v_path v) ∉ mounted }.

Lemma to_cover_all c mounted l :
  (forall v, v ∈ l -> mountTarget (c_profile c) (v_path v) ∉ mounted /\ home_path (c_profile c) (v_path v) ∉ mounted) ->
  to_cover c mounted l = Ok l.
Proof.
  induction l as [|v l IH]; [done|]. intros Hn. cbn [to_cover]. destruct (Hn v) as [H1 H2]; [apply elem_of_cons; by left|].
  apply mem_false in H1, H2. rewrite H1, H2, andb_false_r, IH; [done|]. intros u Hu. apply Hn, elem_of_cons. by right.
Qed.

Lemma checks_quiet {W : Type} (l : list Volume) (f : Volume -> bool) (g : Volume -> deliver_error) (w w' : W) :
  each l (fun h => if f h then mret tt else fail (g h)) w = (Ok tt, w') -> w' = w.
Proof.
  intros Hs. revert Hs. apply (each_ok (fun _ u => u = w)); [done|]. intros done x todo w1 w2 _ -> Hx. destruct (f x); by injection Hx.
Qed.

Lemma mountpoints_quiet {W : Type} {RW : Runtime W} {GW : Guest W} (w w' : W) mounted : guestMountpoints w = (Ok mounted, w') ->
  (forall q, look w' q = look w q) /\ (forall q, points w' q -> points w q).
Proof.
  intros (o & w1 & Ho & [= _ <-])%run_bind_ok. unfold guestOutput in Ho.
  pose proof (guest_quiet [lit "cat"; lit "/proc/self/mountinfo"] w eq_refl) as G. destruct (Output _ w). by injection Ho as _ <-.
Qed.

Lemma mountVolumes_phases {W : Type} {RW : Runtime W} {GW : Guest W} (c : Config) (w w' : W)
    (Hv : volumes_ok (p_guestHome (c_profile c)) (p_volumes (c_profile c))) (Hh : home_ok (p_guestHome (c_profile c)))
    (Hf : fresh (c_profile c) w) (Hm : mountVolumes c w = (Ok tt, w')) :
  exists w1, (forall q, look w1 q = look w q) /\ (phase3 c w1 (HostMounts (c_profile c)) w' \/ Tmpfs (c_profile c) = []).
Proof.
  unfold mountVolumes in Hm. apply run_bind_ok in Hm as (mounted & w1 & H1 & Hm). pose proof (fr_table _ _ Hf _ _ H1) as Ht.
  apply run_bind_ok in Hm as (cover & w2 & [= Hc <-] & Hm). rewrite to_cover_all in Hc.
  2:{ intros v [Hin _]%elem_of_kind. by destruct (Ht v Hin) as (? & ? & _). }
  injection Hc as <-. apply run_bind_ok in Hm as (mounted' & w3 & H3 & H4). apply checks_quiet in H4 as <-.
  destruct (mountpoints_quiet _ _ _ H1) as [L1 P1]. exists w1. split; [done|].
  destruct (Tmpfs (c_profile c)) as [|t l] eqn:Et; [by right|]. left. rewrite <- Et in H3. apply run_bind_ok in H3 as ([] & w4 & Hph & Hg).
  apply (phases_serve c Hv Hh w1) in Hph; [|intros q Hq; by apply (fr_points _ _ Hf), P1|intros v Hin; by destruct (Ht v Hin) as (_ & _ & ?)].
  destruct (mountpoints_quiet _ _ _ Hg) as [L4 P4]. destruct Hph as (A & B & Pn & P). split_and!.
  - intros q Hq Hn. unfold covered. rewrite L4. by apply A.
  - intros h r Hin Hr. rewrite L4. by apply B.
  - intros g Hg' Hp r Hr. rewrite L4. by apply Pn.
  - intros q Hq%P4. by apply P.
Qed.

(** C11: In a guest that has just booted, when [mountVolumes] succeeds for a
    valid profile, every credential file is in memory where the guest sees it,
    and every hostmount, with all that is below it, is where the workspace has
    it.  This holds for volumes in the home and for relocated ones, for
    hostmounts in hostmounts, and in any order that the profile lists them. *)
Theorem mountVolumes_serves {W : Type} {RW : Runtime W} {GW : Guest W} (c : Config) (w w' : W)
    (Hv : Validate (c_profile c) = Ok tt) (Hh : home_ok (p_guestHome (c_profile c))) (Hf : fresh (c_profile c) w)
    (Hm : mountVolumes c w = (Ok tt, w')) :
  (forall b, b ∈ p_files (c_profile c) -> in_memory (look w' (mountTarget (c_profile c) (fb_path b))) = true) /\
  (forall h r, h ∈ HostMounts (c_profile c) -> gtail r ->
     look w' (mountTarget (c_profile c) (v_path h) ++ r) = look w (home_path (c_profile c) (v_path h) ++ r)).
Proof.
  pose proof Hv as (declared & _ & Hvol & _)%Validate_bindings. apply validateVolumes_ok in Hvol.
  destruct (mountVolumes_phases c w w' Hvol Hh Hf Hm) as (w1 & L1 & [(A & B & _)|E]); (split; [intros b Hb|intros h r Hin]).
  - destruct (Validate_files _ Hv b Hb) as (Hr & _ & _ & (t & Ht & [r Htb]) & Hn).
    apply (A (mountTarget (c_profile c) (fb_path b))) with (t := t); [| |done|].
    + rewrite <- (app_nil_r (mountTarget _ _)). apply outside_target; [done..|by left].
    + intros h Hin. destruct (rest_of (mountTarget _ _) _) eqn:E; [|done]. exfalso.
      destruct (target_covers _ Hvol Hh (v_path h) (fb_path b)) as [s Hs]; [by apply (host_rel _ Hvol)|done|by eexists|].
      rewrite (Hn h Hin) in Hs. done.
    + rewrite (target_below _ Hvol Hh t _ r Ht Hr Htb). eexists. apply rest_of_app. by apply rest_of_Some in Htb as [_ ?].
  - intros Hr. rewrite <- L1. by apply B.
  - destruct (Validate_files _ Hv b Hb) as (_ & _ & _ & (t & Hin & _) & _). rewrite E in Hin. by apply elem_of_nil in Hin.
  - destruct (host_covered c Hvol h Hin) as (t & _ & Hin' & _). rewrite E in Hin'. by apply elem_of_nil in Hin'.
Qed.

(** The guest of the witness: the workspace is the host's directory, and
    nothing else is mounted. *)
Definition booted : table := [(lit "/root", MBind (lit "/host/ws"))].
Definition example_run : Config := MkConfig example_profile ∅ [] (lit "hull") 0.

Lemma booted_fresh : fresh example_profile booted.
Proof.
  split.
  - intros q Hq%list_elem_of_singleton. cbn in Hq. subst q. split; [|by vm_compute]. intros x r Hx Hr.
    assert (Forall (fun x => rest_of (home_path example_profile x) (lit "/root") = None) (v_path <$> p_volumes example_profile)) as F
      by (repeat constructor; vm_compute; reflexivity).
    rewrite Forall_forall in F. apply F in Hx. pose proof (eq_trans (eq_sym Hx) Hr) as E. discriminate E.
  - intros mounted w1 Hm. assert (guestMountpoints booted = (Ok [lit "/root"], booted)) as E by (vm_compute; reflexivity).
    rewrite E in Hm. injection Hm as <- _.
    assert (forallb (fun v => negb (existsb (fun q => bool_decide (q = lit "/root"))
      [mountTarget example_profile (v_path v); home_path example_profile (v_path v); pinPath (v_path v)]))
      (p_volumes example_profile) = true) as F by (vm_compute; reflexivity).
    intros v Hin. rewrite forallb_forall in F. specialize (F v (proj1 (list_elem_of_In _ _) Hin)). cbn [existsb] in F.
    rewrite negb_true_iff, !orb_false_iff, !bool_decide_eq_false in F. rewrite !list_elem_of_singleton. tauto.
Qed.

Lemma example_home : home_ok (lit "/root").
Proof.
  split; [|by vm_compute]. exists [lit "root"]. split; [done|]. split; [|done].
  unfold normal. apply (bool_decide_unpack _). by vm_compute.
Qed.

(** The mounts of the stock Claude Code profile, and what the guest then finds
    at the credential file and at a session's log. *)
Example mountVolumes_serves_witness :
  let w' := (mountVolumes example_run booted).2 in
  mountVolumes example_run booted = (Ok tt, w') /\
  in_memory (look w' (lit "/brig/claude/.credentials.json")) = true /\
  look w' (lit "/brig/claude/projects/p/log") = OnHost (lit "/host/ws/.claude/projects/p/log").
Proof.
  cbv zeta.
  assert (Hm : mountVolumes example_run booted = (Ok tt, (mountVolumes example_run booted).2)) by (vm_compute; reflexivity).
  split; [exact Hm|].
  assert (Hv : Validate example_profile = Ok tt) by (vm_compute; reflexivity).
  destruct (mountVolumes_serves example_run booted _ Hv example_home booted_fresh Hm) as [A B]. split.
  - refine (eq_trans _ (A (MkFileBinding (lit "secrets.claude-credentials") (lit ".claude/.credentials.json") (lit "0600")) _));
      [vm_compute; reflexivity|apply elem_of_cons; left; reflexivity].
  - refine (eq_trans _ (B (example_hostmount ".claude/projects" false) (lit "/p/log") _ _)); [vm_compute; reflexivity| |].
    + do 3 (apply elem_of_cons; right). apply elem_of_cons. left. reflexivity.
    + right. exists [lit "p"; lit "log"]. split; [done|]. split; [|done]. unfold normal. apply (bool_decide_unpack _). by vm_compute.
Defined.
