(* ===== verification/DeliverSafe.v ===== *)
(** What [deliverSecretFiles] tells the guest: a value is only ever written to
    a file that was just seen to be the right one in memory, and the commands
    do not depend on what the values are. *)

From stdpp Require Import prelude list strings gmap sorting.
From Stdlib Require Import ZArith Lia ZifyNat Ascii.
From S2P Require Import Prelude GoUnicode GoStrings GoNum GoPath GoClean Secret Profile Volumes.

Local Open Scope Z_scope.

(** ** The commands that a run issues *)

Inductive event :=
  | Ran (argv : list gostr) (r : res gostr gostr)
  | Fed (argv : list gostr) (text : gostr) (r : option gostr).

(** A runtime that keeps the commands it was given. *)
#[export] Instance recorder {W : Type} {RW : Runtime W} : Runtime (W * list event) :=
  { Output := fun argv '(w, t) => let '(r, w') := Output argv w in (r, (w', t ++ [Ran argv r]));
    Feed := fun argv text '(w, t) => let '(r, w') := Feed argv text w in (r, (w', t ++ [Fed argv text r])) }.

(** The command that a value is fed to. *)
Definition append_argv (target : gostr) : list gostr := [lit "sh"; lit "-c"; appendScript; lit "sh"; target].

(** The pieces that [t] feeds to the command, when it does nothing else. *)
Inductive feeding (argv : list gostr) : list event -> gostr -> Prop :=
  | feeding_nil : feeding argv [] []
  | feeding_cons t text s : feeding argv t s -> feeding argv (Fed argv text None :: t) (text ++ s).

(** The answers to the two checks of a credential file. *)
Definition is_checked (target user : gostr) (mode : Z) (t : list event) : Prop :=
  exists got fstype kind,
    t = [Ran [lit "stat"; lit "-c"; lit "%F|%U|%a"; target] (Ok got); Ran [lit "stat"; lit "-f"; lit "-c"; lit "%T"; target] (Ok fstype)] /\
    trim_space got = kind ++ lit "|" ++ user ++ lit "|" ++ octal mode /\ has_prefix kind (lit "regular ") = true /\
    trim_space fstype = tmpfs_name.

Section Safe.
Context {W : Type} {RW : Runtime W} (c : Config).
Local Notation p := (c_profile c).

(** What may come before a piece of a value. *)
Definition fed_right (t : list event) (argv : list gostr) (text : gostr) : Prop :=
  (0 < c_maxFeed c -> Z.of_nat (length text) <= c_maxFeed c) /\
  ((exists u s rest, argv = append_argv GuestCAPath /\ u `suffix_of` t /\ feeding argv u s /\ c_brigCA c = s ++ text ++ rest) \/
  (exists b r mode value check u s rest,
     b ∈ p_files p /\ ParseRef (fb_ref b) = Ok r /\ FileMode b = Ok mode /\ c_secrets c !! rf_name r = Some value /\
     argv = append_argv (mountTarget p (fb_path b)) /\ (check ++ u) `suffix_of` t /\
     is_checked (mountTarget p (fb_path b)) (GuestUser p) mode check /\
     feeding argv u s /\ value = s ++ text ++ rest)).

Definition safe_trace (t : list event) : Prop :=
  forall t1 argv text o t2, t = t1 ++ Fed argv text o :: t2 -> fed_right t1 argv text.

Definition safe {A} (m : M (W * list event) A) : Prop :=
  forall w t r w' t', m (w, t) = (r, (w', t')) -> exists u, t' = t ++ u /\ safe_trace u.

Lemma fed_right_app t0 t argv text : fed_right t argv text -> fed_right (t0 ++ t) argv text.
Proof.
  intros [Hl [(u & s & rest & ? & ? & ? & ?)|(b & r & mode & value & check & u & s & rest & ? & ? & ? & ? & ? & ? & ? & ? & ?)]]; (split; [done|]).
  - left. exists u, s, rest. split_and!; [done|by apply suffix_app_r|done..].
  - right. exists b, r, mode, value, check, u, s, rest. split_and!; try done. by apply suffix_app_r.
Qed.

Lemma safe_trace_app t1 t2 : safe_trace t1 -> safe_trace t2 -> safe_trace (t1 ++ t2).
Proof.
  intros H1 H2 u argv text o v E. apply app_eq_inv in E as [(k & E1 & E2)|(k & E1 & E2)].
  - destruct k as [|e k].
    + rewrite app_nil_r in E1. subst u. rewrite <- (app_nil_r t1). apply fed_right_app. by apply (H2 [] _ _ o v).
    + injection E2 as <- ->. by apply (H1 _ _ _ o k).
  - subst u. apply fed_right_app. by apply (H2 _ _ _ o v).
Qed.

Lemma safe_ret {A} (r : res deliver_error A) : safe (fun w => (r, w)).
Proof. intros w t ? w' t' [= <- <- <-]. exists []. split; [by rewrite app_nil_r|]. by intros [|] *. Qed.

Lemma safe_mret {A} (a : A) : safe (mret a).
Proof. apply safe_ret. Qed.

Lemma safe_bind {A B} (m : M (W * list event) A) (k : A -> M (W * list event) B) :
  safe m -> (forall a, safe (k a)) -> safe (m ≫= k).
Proof.
  intros Hm Hk w t r w' t' E. unfold mbind, M_bind in E. destruct (m (w, t)) as [[a|e] [w1 t1]] eqn:E1.
  - apply Hm in E1 as (u1 & -> & S1). apply (Hk a) in E as (u2 & -> & S2). exists (u1 ++ u2). split; [by rewrite app_assoc|].
    by apply safe_trace_app.
  - injection E as _ _ <-. by apply Hm in E1.
Qed.

Lemma ran_safe argv r : safe_trace [Ran argv r].
Proof. intros [|? [|]] *; done. Qed.

Lemma safe_output wrap argv : safe (guestOutput wrap argv).
Proof.
  intros w t r w' t' E. unfold guestOutput in E. cbn in E. destruct (Output argv w) as [o w1]. injection E as _ _ <-.
  eexists. split; [done|]. apply ran_safe.
Qed.

Lemma safe_root wrap argv : safe (guestRoot wrap argv).
Proof. apply safe_bind; [apply safe_output|]. intros a. apply safe_ret. Qed.

Lemma safe_each {A} (l : list A) f : (forall x, x ∈ l -> safe (f x)) -> safe (each l f).
Proof.
  induction l as [|x l IH]; intros Hf; [apply safe_ret|]. cbn [each]. apply safe_bind; [apply Hf; by left|].
  intros _. apply IH. intros y Hy. apply Hf. by right.
Qed.

(** *** The feeding of a value *)

Lemma pieces_concat fuel n value : (length value <= fuel)%nat -> (0 < n)%nat -> concat (pieces fuel n value) = value.
Proof.
  revert value. induction fuel as [|fuel IH]; intros [|x value] Hl Hn; try done; [cbn in Hl; lia|].
  destruct n as [|n]; [lia|]. cbn [pieces take drop concat app]. f_equal.
  rewrite IH; [apply take_drop|rewrite length_drop; cbn in Hl; lia|lia].
Qed.

Lemma piece_size_pos n x value : (0 < piece_size n (x :: value))%nat.
Proof. unfold piece_size. destruct ((0 <? n) && _) eqn:E; [|cbn; lia]. apply andb_prop in E as [?%Z.ltb_lt _]. lia. Qed.

Lemma pieces_bounded fuel n value x : x ∈ pieces fuel (piece_size n value) value -> 0 < n -> Z.of_nat (length x) <= n.
Proof.
  intros Hin Hn. assert (forall k v, x ∈ pieces fuel k v -> (length x <= k)%nat /\ (length x <= length v)%nat) as G.
  { clear Hin. induction fuel as [|fuel IH]; intros k [|y v] Hin; try by apply elem_of_nil in Hin.
    cbn [pieces] in Hin. apply elem_of_cons in Hin as [->|Hin]; [rewrite length_take; lia|].
    apply IH in Hin as [? Hl]. rewrite length_drop in Hl. lia. }
  apply G in Hin as [H1 H2]. unfold piece_size in H1. destruct ((0 <? n) && _) eqn:E; [lia|].
  apply andb_false_iff in E as [?%Z.ltb_ge|?%Z.ltb_ge]; lia.
Qed.

Lemma feed_pieces wrap target l w t r w' t' :
  each l (fun piece => guestFeed wrap (append_argv target) piece) (w, t) = (r, (w', t')) ->
  exists u, t' = t ++ u /\ forall t1 e t2, u = t1 ++ e :: t2 ->
    exists text o s rest, e = Fed (append_argv target) text o /\ feeding (append_argv target) t1 s /\ concat l = s ++ text ++ rest /\ text ∈ l.
Proof.
  revert w t. induction l as [|x l IH]; intros w t E.
  - injection E as _ _ <-. exists []. split; [by rewrite app_nil_r|]. by intros [|] *.
  - cbn [each] in E. unfold mbind, M_bind, guestFeed in E. cbn [Feed recorder] in E.
    destruct (Feed (append_argv target) x w) as [[e|] w1].
    + injection E as _ _ <-. exists [Fed (append_argv target) x (Some e)]. split; [done|].
      intros [|e1 [|]] e2 t2 Et; [|done..]. injection Et as <- <-. exists x, (Some e), [], (concat l). split_and!; [done|constructor|done|by left].
    + apply IH in E as (u & -> & Hu). exists (Fed (append_argv target) x None :: u). split; [by rewrite <- app_assoc|].
      intros [|e1 t1] e2 t2 Et; injection Et as <- Et.
      * exists x, None, [], (concat l). split_and!; [done|constructor|done|by left].
      * apply Hu in Et as (text & o & s & rest & -> & Hs & El & Hin). exists text, o, (x ++ s), rest.
        split_and!; [done|by constructor| |by right]. cbn [concat]. by rewrite El, <- !app_assoc.
Qed.

Lemma feedValue_trace n wrap value target w t r w' t' : feedValue n wrap value target (w, t) = (r, (w', t')) ->
  exists u, t' = t ++ u /\ forall t1 e t2, u = t1 ++ e :: t2 ->
    exists text o s rest, e = Fed (append_argv target) text o /\ feeding (append_argv target) t1 s /\ value = s ++ text ++ rest /\
      (0 < n -> Z.of_nat (length text) <= n).
Proof.
  intros E. apply feed_pieces in E as (u & Hu & E). exists u. split; [done|]. intros t1 e t2 Et.
  apply E in Et as (text & o & s & rest & ? & ? & El & Hin). exists text, o, s, rest. split_and!; [done..| |by eapply pieces_bounded].
  rewrite <- El. symmetry. destruct value as [|x value]; [done|]. apply pieces_concat; [done|apply piece_size_pos].
Qed.
(** *** The commands of the delivery *)

Ltac safe_tac :=
  repeat first [apply safe_mret | apply safe_ret | apply safe_output | apply safe_root | apply safe_bind; [|intros ?] |
                apply safe_each; intros ? ? | case_match].

Lemma safe_chown dirs user : safe (chownGuest dirs user).
Proof. unfold chownGuest. safe_tac. Qed.

Lemma safe_target target file : safe (createGuestTarget target file).
Proof. unfold createGuestTarget. safe_tac. Qed.

Lemma safe_volumes : safe (mountVolumes c).
Proof.
  unfold mountVolumes, mount_phases, guestMountpoints, pin_one, cover_one, bind_one, lift, fail.
  safe_tac; first [apply safe_target | safe_tac].
Qed.

Lemma safe_verify_volumes : safe (verifyVolumes c).
Proof. unfold verifyVolumes, guestFstype, fail. safe_tac. Qed.

Lemma safe_verify b target user mode : safe (verifySecretFile b target user mode).
Proof. unfold verifySecretFile, guestFstype, fail. safe_tac. Qed.

Lemma verify_trace b target user mode w t w' t' : verifySecretFile b target user mode (w, t) = (Ok tt, (w', t')) ->
  exists check, t' = t ++ check /\ is_checked target user mode check.
Proof.
  unfold verifySecretFile, guestFstype, guestOutput, fail. intros E. unfold mbind, M_bind, mret, M_ret in E. cbn [Output recorder] in E.
  destruct (Output [lit "stat"; lit "-c"; _; _] w) as [[got|e] w1]; [|done]. cbn [map_err] in E.
  destruct (cut (trim_space got) (lit "|")) as [[kind rest] ok] eqn:Ec. destruct (negb (has_prefix kind _) || _) eqn:Ek; [done|].
  apply orb_false_iff in Ek as [Ek%negb_false_iff Er%negb_false_iff]. apply bool_decide_eq_true in Er as ->.
  destruct (Output [lit "stat"; lit "-f"; _; _; _] w1) as [[fs|e] w2]; [|done]. cbn [map_err] in E.
  destruct (bool_decide (trim_space fs = tmpfs_name)) eqn:Ef; [|done]. apply bool_decide_eq_true in Ef.
  injection E as _ <-. eexists. split; [by rewrite <- app_assoc|]. exists got, fs, kind. split_and!; [done| |done..].
  unfold cut in Ec. destruct (cut_at (lit "|") (trim_space got)) as [[a b']|] eqn:Ea; [|by injection Ec as _ E2 _; destruct user].
  injection Ec as -> -> _. by apply cut_at_Some in Ea.
Qed.

Lemma checked_safe b r mode value check u : b ∈ p_files p -> ParseRef (fb_ref b) = Ok r -> FileMode b = Ok mode ->
  c_secrets c !! rf_name r = Some value -> is_checked (mountTarget p (fb_path b)) (GuestUser p) mode check ->
  (forall t1 e t2, u = t1 ++ e :: t2 -> exists text o s rest, e = Fed (append_argv (mountTarget p (fb_path b))) text o /\
     feeding (append_argv (mountTarget p (fb_path b))) t1 s /\ value = s ++ text ++ rest /\ (0 < c_maxFeed c -> Z.of_nat (length text) <= c_maxFeed c)) ->
  safe_trace (check ++ u).
Proof.
  intros Hb Hr Hm Hv Hc Hu t1 argv text o t2 E. pose proof Hc as (got & fs & kind & -> & _).
  destruct t1 as [|e1 [|e2 t1]]; [done|done|]. injection E as <- <- E.
  apply Hu in E as (text' & o' & s & rest & [= -> <- <-] & Hs & Ev & Hl). split; [done|]. right. eexists b, r, mode, value, _, t1, s, rest.
  split_and!; try done. by exists [].
Qed.

Lemma safe_write b r mode : b ∈ p_files p -> ParseRef (fb_ref b) = Ok r -> FileMode b = Ok mode ->
  safe (write_value c b mode (default [] (c_secrets c !! rf_name r))).
Proof.
  intros Hb Hr Hm. unfold write_value. case_match eqn:E; [unfold fail; safe_tac|]. apply bool_decide_eq_false in E.
  destruct (c_secrets c !! rf_name r) as [value|] eqn:Hv; [|done]. cbn [default] in *.
  apply safe_bind; [safe_tac|]. intros []. intros w t o w' t' H. unfold mbind at 1, M_bind at 1 in H.
  destruct (verifySecretFile _ _ _ _ (w, t)) as [[[]|e] [w1 t1]] eqn:E1.
  2:{ injection H as _ _ <-. by apply safe_verify in E1. }
  apply verify_trace in E1 as (check & -> & Hc). unfold mbind at 1, M_bind at 1 in H.
  destruct (feedValue _ _ _ _ (w1, t ++ check)) as [x [w2 t2]] eqn:E2. apply feedValue_trace in E2 as (u & -> & Hu).
  pose proof (checked_safe _ _ _ _ _ _ Hb Hr Hm Hv Hc Hu) as Hs. destruct x as [[]|e].
  - assert (exists u', t' = ((t ++ check) ++ u) ++ u' /\ safe_trace u') as (u' & -> & Hu').
    { revert H. generalize ((t ++ check) ++ u). intros t0 H. revert H. unfold fail.
      match goal with |- ?m (w2, t0) = _ -> _ => assert (safe m) as S by safe_tac end. apply S. }
    exists ((check ++ u) ++ u'). split; [by rewrite <- !app_assoc|]. by apply safe_trace_app.
  - injection H as _ _ <-. exists (check ++ u). split; [by rewrite <- app_assoc|done].
Qed.

Lemma pending_elem l l' b : pending_files c l = Ok l' -> b ∈ l' -> b ∈ l.
Proof.
  revert l'. induction l as [|x l IH]; intros l' H Hin; [injection H as <-; by apply elem_of_nil in Hin|].
  cbn [pending_files] in H. apply res_bind_ok in H as (r & _ & H). destruct (c_secrets c !! rf_name r).
  - apply res_bind_ok in H as (rest & Hr & [= <-]). apply elem_of_cons in Hin as [->|Hin]; [by left|right; by eapply IH].
  - right. by eapply IH.
Qed.

Lemma safe_lift_bind {A B} (r : res deliver_error A) (k : A -> M (W * list event) B) :
  (forall a, r = Ok a -> safe (k a)) -> safe (lift r ≫= k).
Proof.
  intros Hk w t o w' t' E. unfold lift, mbind, M_bind in E. destruct r as [a|e]; [by apply (Hk a eq_refl) in E|].
  by apply (safe_ret (Err e) w t o w' t').
Qed.

Lemma safe_deferred m m' : safe m -> safe m' -> safe (deferred m m').
Proof.
  intros Hm Hm' w t r w' t' E. unfold deferred in E. destruct (m (w, t)) as [o [w1 t1]] eqn:E1. apply Hm in E1 as (u1 & -> & S1).
  destruct (m' (w1, t ++ u1)) as [o' [w2 t2]] eqn:E2. apply Hm' in E2 as (u2 & -> & S2). injection E as _ _ <-.
  exists (u1 ++ u2). split; [by rewrite app_assoc|]. by apply safe_trace_app.
Qed.

Lemma safe_secrets : safe (writeSecretFiles c).
Proof.
  apply safe_lift_bind. intros pending Hp. destruct pending as [|b0 l0] eqn:El; [safe_tac|]. rewrite <- El in *. clear El.
  apply safe_bind; [apply safe_chown|]. intros _. apply safe_deferred; [|apply safe_chown].
  apply safe_each. intros b Hb. apply (pending_elem _ _ _ Hp) in Hb. apply safe_lift_bind. intros r Hr%map_err_ok.
  apply safe_lift_bind. intros mode Hm%map_err_ok. by apply safe_write.
Qed.

Lemma safe_ca : safe (deliverBrigCA c).
Proof.
  unfold deliverBrigCA. case_match; [safe_tac|]. apply safe_bind; [safe_tac|]. intros _. apply safe_bind; [|intros; safe_tac].
  intros w t r w' t' E. apply feedValue_trace in E as (u & -> & Hu). exists u. split; [done|]. intros t1 argv text o t2 Et.
  apply Hu in Et as (text' & o' & s & rest & [= -> <- <-] & Hs & Ev & Hl). split; [done|]. left. by exists t1, s, rest.
Qed.

Lemma safe_deliver : safe (deliver_files c).
Proof.
  unfold deliver_files. apply safe_bind; [apply safe_ca|]. intros _.
  repeat case_match; [safe_tac|..];
    (apply safe_bind; [apply safe_volumes|intros _]; apply safe_bind; [apply safe_verify_volumes|intros _];
     apply safe_bind; [apply safe_secrets|intros _]; apply safe_chown).
Qed.
End Safe.

(** C12: The guest is only fed a value in pieces of it, in order and none
    larger than the runtime takes, by a command
    that appends to the CA's file, or to the file of a credential binding whose
    secret it is.  Just before the first piece of a credential the same file
    was seen to be a regular one, of the profile's user and mode, and on a
    tmpfs. *)
Theorem delivery_feeds_checked {W : Type} {RW : Runtime W} (c : Config) (w : W) t1 argv text o t2
    (H : (deliverSecretFiles c (w, [])).2.2 = t1 ++ Fed argv text o :: t2) : fed_right c t1 argv text.
Proof.
  unfold deliverSecretFiles in H. destruct (deliver_files c (w, [])) as [r [w' t]] eqn:E.
  apply safe_deliver in E as (u & -> & Hu). by apply (Hu _ _ _ o t2).
Qed.

(** ** What the commands depend on *)

Section Oblivious.
Context {W : Type} {RW : Runtime W} (R : W -> W -> Prop).

(** A runtime that answers alike in [R]-related worlds, whatever the text that
    it is fed, as long as the length is the same. *)
Class Oblivious : Prop := {
  obl_output argv w1 w2 : R w1 w2 ->
    (Output argv w1).1 = (Output argv w2).1 /\ R (Output argv w1).2 (Output argv w2).2;
  obl_feed argv a b w1 w2 : length a = length b -> R w1 w2 ->
    (Feed argv a w1).1 = (Feed argv b w2).1 /\ R (Feed argv a w1).2 (Feed argv b w2).2 }.
Context {O : Oblivious}.

Definition alike {A} (m1 m2 : M W A) : Prop :=
  forall w1 w2, R w1 w2 -> (m1 w1).1 = (m2 w2).1 /\ R (m1 w1).2 (m2 w2).2.

Lemma alike_ret {A} (r : res deliver_error A) : alike (fun w => (r, w)) (fun w => (r, w)).
Proof. by intros w1 w2 H. Qed.

Lemma alike_mret {A} (a : A) : alike (mret a) (mret a).
Proof. apply alike_ret. Qed.

Lemma alike_bind {A B} (m1 m2 : M W A) (k1 k2 : A -> M W B) :
  alike m1 m2 -> (forall a, alike (k1 a) (k2 a)) -> alike (m1 ≫= k1) (m2 ≫= k2).
Proof.
  intros Hm Hk w1 w2 H. unfold mbind, M_bind. destruct (Hm _ _ H) as [E HR].
  destruct (m1 w1) as [r1 u1], (m2 w2) as [r2 u2]. cbn in E, HR. subst r2. destruct r1; [by apply Hk|done].
Qed.

Lemma alike_output wrap argv : alike (guestOutput wrap argv) (guestOutput wrap argv).
Proof.
  intros w1 w2 H. unfold guestOutput. destruct (obl_output argv _ _ H) as [E HR].
  destruct (Output argv w1), (Output argv w2). cbn in E, HR. by subst.
Qed.

Lemma alike_feed wrap argv a b : length a = length b -> alike (guestFeed wrap argv a) (guestFeed wrap argv b).
Proof.
  intros Hl w1 w2 H. unfold guestFeed. destruct (obl_feed argv _ _ _ _ Hl H) as [E HR].
  destruct (Feed argv a w1), (Feed argv b w2). cbn in E, HR. by subst.
Qed.

Lemma alike_each {A} (l1 l2 : list A) f g : Forall2 (fun x y => alike (f x) (g y)) l1 l2 -> alike (each l1 f) (each l2 g).
Proof. induction 1 as [|x y l1 l2 H Hl IH]; [apply alike_mret|]. by apply alike_bind. Qed.

Lemma alike_same {A} (l : list A) f : (forall x, alike (f x) (f x)) -> alike (each l f) (each l f).
Proof. intros Hf. apply alike_each. by induction l; constructor. Qed.

Lemma alike_root wrap argv : alike (guestRoot wrap argv) (guestRoot wrap argv).
Proof. apply alike_bind; [apply alike_output|intros; apply alike_mret]. Qed.

Lemma pieces_alike fuel n a b : length a = length b -> Forall2 (fun x y => length x = length y) (pieces fuel n a) (pieces fuel n b).
Proof.
  revert a b. induction fuel as [|fuel IH]; intros [|x a] [|y b] Hl; try done; [constructor..|].
  cbn [pieces]. constructor; [rewrite !length_take; cbn in *; lia|]. apply IH. rewrite !length_drop. cbn in *. lia.
Qed.

Lemma alike_value n wrap a b target : length a = length b -> alike (feedValue n wrap a target) (feedValue n wrap b target).
Proof.
  intros Hl. unfold feedValue, piece_size. rewrite Hl. apply alike_each.
  eapply Forall2_impl; [by apply pieces_alike|]. intros x y Hxy. by apply alike_feed.
Qed.

Ltac alike_tac :=
  repeat first [apply alike_mret | apply alike_ret | apply alike_output | apply alike_root | apply alike_bind; [|intros ?] |
                apply alike_same; intros ? | case_match].

Lemma alike_volumes c : alike (mountVolumes c) (mountVolumes c).
Proof.
  unfold mountVolumes, mount_phases, guestMountpoints, pin_one, cover_one, bind_one, createGuestTarget, lift, fail. alike_tac.
Qed.

Lemma alike_verify c : alike (verifyVolumes c) (verifyVolumes c).
Proof. unfold verifyVolumes, guestFstype, fail. alike_tac. Qed.

Lemma alike_chown dirs user : alike (chownGuest dirs user) (chownGuest dirs user).
Proof. unfold chownGuest. alike_tac. Qed.

Lemma alike_deferred m1 m2 r1 r2 : alike m1 m2 -> alike r1 r2 -> alike (deferred m1 r1) (deferred m2 r2).
Proof.
  intros Hm Hr w1 w2 H. unfold deferred. destruct (Hm _ _ H) as [E HR].
  destruct (m1 w1) as [a1 u1], (m2 w2) as [a2 u2]. cbn in E, HR. subst a2. destruct (Hr _ _ HR) as [E' HR'].
  destruct (r1 u1) as [b1 v1], (r2 u2) as [b2 v2]. cbn in *. by subst b2.
Qed.

Lemma alike_ca c : alike (deliverBrigCA c) (deliverBrigCA c).
Proof. unfold deliverBrigCA. alike_tac. by apply alike_feed. Qed.

(** Two configurations that differ in what the secrets are, not in which are
    there nor in how long they are. *)
Variables (c : Config) (s : gmap gostr gostr).
Local Notation c' := (MkConfig (c_profile c) s (c_brigCA c) (c_kind c) (c_maxFeed c)).
Hypothesis Hs : forall k, length <$> c_secrets c !! k = length <$> s !! k.

Lemma pending_alike l : pending_files c' l = pending_files c l.
Proof.
  induction l as [|b l IH]; [done|]. cbn [pending_files]. destruct (ParseRef _) as [r|]; [|done]. cbn [map_err res_bind].
  cbn [c_secrets]. specialize (Hs (rf_name r)). rewrite IH. by destruct (c_secrets c !! _), (s !! _).
Qed.

Lemma write_alike b : alike (writeSecretFile c b) (writeSecretFile c' b).
Proof.
  apply alike_bind; [apply alike_ret|]. intros r. apply alike_bind; [apply alike_ret|]. intros mode.
  cbn [c_secrets]. specialize (Hs (rf_name r)).
  assert (length (default [] (c_secrets c !! rf_name r)) = length (default [] (s !! rf_name r))) as Hl
    by (destruct (c_secrets c !! _), (s !! _); try done; by apply (inj Some)).
  revert Hl. generalize (default [] (c_secrets c !! rf_name r)) (default [] (s !! rf_name r)). intros a a' Hl.
  unfold write_value. cbn [c_profile c_maxFeed]. destruct a as [|x a], a' as [|y a']; try done.
  rewrite !bool_decide_false by done. apply alike_bind; [apply alike_root|]. intros [].
  apply alike_bind; [unfold verifySecretFile, guestFstype, fail; alike_tac|]. intros []. apply alike_bind; [by apply alike_value|].
  intros []. rewrite Hl. unfold fail. alike_tac.
Qed.

Lemma secrets_alike : alike (writeSecretFiles c) (writeSecretFiles c').
Proof.
  unfold writeSecretFiles. cbn [c_profile]. rewrite pending_alike. apply alike_bind; [apply alike_ret|]. intros [|b l]; [apply alike_mret|].
  change (credentialDirs c' (b :: l)) with (credentialDirs c (b :: l)). apply alike_bind; [apply alike_chown|]. intros _.
  apply alike_deferred; [|apply alike_chown]. apply alike_each. generalize (b :: l). intros l'.
  induction l' as [|b' l' IH]; constructor; [apply write_alike|done].
Qed.

Lemma deliver_alike : alike (deliver_files c) (deliver_files c').
Proof.
  unfold deliver_files. cbn [c_profile]. apply alike_bind; [apply (alike_ca c)|]. intros _.
  repeat case_match; [apply alike_mret|..];
    (apply alike_bind; [apply (alike_volumes c)|intros _]; apply alike_bind; [apply (alike_verify c)|intros _];
     apply alike_bind; [apply secrets_alike|intros _]; apply (alike_chown _ _)).
Qed.
End Oblivious.

Arguments Oblivious {W RW} R.

(** What is left of an event when the text is only known by its length. *)
Definition outline (e : event) : list gostr * option nat * (res gostr gostr + option gostr) :=
  match e with Ran argv r => (argv, None, inl r) | Fed argv text r => (argv, Some (length text), inr r) end.

Lemma recorder_oblivious {W : Type} {RW : Runtime W} (R : W -> W -> Prop) : Oblivious R ->
  Oblivious (fun x y : W * list event => R x.1 y.1 /\ (outline <$> x.2) = (outline <$> y.2)).
Proof.
  intros [Ho Hf]. split.
  - intros argv [w1 t1] [w2 t2] [H E]. cbn in H, E |- *. destruct (Ho argv _ _ H) as [E' H'].
    destruct (Output argv w1), (Output argv w2). cbn in *. rewrite !fmap_app, E. by subst.
  - intros argv a b [w1 t1] [w2 t2] Hl [H E]. cbn in H, E |- *. destruct (Hf argv _ _ _ _ Hl H) as [E' H'].
    destruct (Feed argv a w1), (Feed argv b w2). cbn in *. rewrite !fmap_app, E. subst. cbn. by rewrite Hl.
Qed.

(** What a delivery does outside of the text that it feeds does not depend
    on what the secrets are.  With secrets of the same names and lengths, and
    a guest that does not answer by what it is fed, the commands, their
    arguments, the sizes of the pieces and the outcome are the same. *)
Lemma delivery_oblivious {W : Type} {RW : Runtime W} (R : W -> W -> Prop) (O : Oblivious R) (c : Config) (s : gmap gostr gostr) (w : W)
    (Hw : R w w) (Hs : forall k, length <$> c_secrets c !! k = length <$> s !! k) :
  let run secrets := deliverSecretFiles (MkConfig (c_profile c) secrets (c_brigCA c) (c_kind c) (c_maxFeed c)) (w, []) in
  (run (c_secrets c)).1.1 = (run s).1.1 /\ (outline <$> (run (c_secrets c)).2.2) = (outline <$> (run s).2.2).
Proof.
  cbv zeta. destruct c as [p s0 ca kind n]. cbn [c_profile c_secrets c_brigCA c_kind c_maxFeed] in *. unfold deliverSecretFiles.
  destruct (deliver_alike (O := recorder_oblivious R O) _ (MkConfig p s0 ca kind n) s Hs (w, []) (w, [])) as [E [_ E']]; [done|].
  cbn [c_profile c_secrets c_brigCA c_kind c_maxFeed] in *. destruct (deliver_files _ _) as [r1 u1], (deliver_files _ _) as [r2 u2]. done.
Qed.

(** ** A run *)

(** A guest whose volumes are mounted, that answers each check as it should. *)
Definition answer (argv : list gostr) : gostr :=
  match argv with
  | [_; f] => if bool_decide (f = lit "/proc/self/mountinfo")
              then MountOrder (p_volumes example_profile) ≫= fun v => lit "1 1 0:1 / " ++ mountTarget example_profile (v_path v) ++ lit " rw" ++ [newline]
              else []
  | [_; _; format; _] => if bool_decide (format = lit "%s") then lit "5" else lit "regular empty file|root|600"
  | [_; _; _; _; target] =>
    if mem target [lit "/brig/claude"; lit "/brig/claude/.credentials.json"] then lit "tmpfs" else lit "ext2/ext3"
  | _ => []
  end.

#[local] Instance mounted_guest : Runtime unit :=
  { Output := fun argv w => (Ok (answer argv), w); Feed := fun _ _ w => (None, w) }.

Definition example_delivery (value : gostr) : Config :=
  MkConfig example_profile {[lit "claude-credentials" := value]} [] (lit "hull") 3.

Definition example_trace (value : gostr) : list event := (deliverSecretFiles (example_delivery value) (tt, [])).2.2.

Example delivery_feeds_checked_witness :
  let fed := append_argv (lit "/brig/claude/.credentials.json") in
  let t := example_trace (lit "token") in
  nth_error t 12 = Some (Fed fed (lit "en") None) /\ fed_right (example_delivery (lit "token")) (take 12 t) fed (lit "en").
Proof.
  cbv zeta. assert (H : nth_error (example_trace (lit "token")) 12 =
    Some (Fed (append_argv (lit "/brig/claude/.credentials.json")) (lit "en") None)) by (vm_compute; reflexivity).
  split; [exact H|]. apply (delivery_feeds_checked (example_delivery (lit "token")) tt _ _ _ None (drop 13 (example_trace (lit "token")))).
  vm_compute. reflexivity.
Defined.

Example delivery_oblivious_witness :
  Oblivious (@eq unit) /\ (outline <$> example_trace (lit "token")) = (outline <$> example_trace (lit "other")).
Proof.
  assert (O : Oblivious (@eq unit)) by (split; by intros).
  split; [exact O|].
  assert (Hs : forall k, length <$> c_secrets (example_delivery (lit "token")) !! k =
    length <$> ({[lit "claude-credentials" := lit "other"]} : gmap gostr gostr) !! k).
  { intros k. unfold example_delivery. cbn [c_secrets]. destruct (decide (lit "claude-credentials" = k)) as [<-|Hne];
      [by rewrite !lookup_singleton_eq|by rewrite !lookup_singleton_ne]. }
  exact (proj2 (delivery_oblivious eq O (example_delivery (lit "token")) _ tt eq_refl Hs)).
Defined.
