(* ===== verification/Decode.v ===== *)
(** * [api/policy/v1alpha1/decode.go]: the keys of a document

    A document is decoded by the YAML library, which matches a key to a field
    without regard to case.  So it is decoded again into a tree, and the keys
    of the tree are compared with the names of the fields of its type.  The
    library's decoders are parameters; the types are values of [gotype]. *)

From stdpp Require Import prelude list strings gmap sorting.
From Stdlib Require Import ZArith Lia ZifyNat Ascii.
From S2P Require Import Prelude GoUnicode GoStrings GoNum GoJson RouteTypes.

Local Open Scope Z_scope.

(** ** Types, as [reflect] shows them *)

(** A field of a struct: its name, its json tag, whether it is embedded and
    whether it is exported. *)
Record gofield := MkField { gf_name : gostr; gf_tag : gostr; gf_anonymous : bool; gf_exported : bool }.

Inductive gotype :=
  | TStruct (fields : list (gofield * gotype))
  | TPointer (t : gotype)
  | TSlice (t : gotype)
  | TMap (t : gotype)
  | TOther.

(** The [for] loop over the pointers at the start of a walk. *)
Fixpoint deref (t : gotype) : gotype := match t with TPointer t' => deref t' | _ => t end.

(** What [jsonFields] does with one field, whose type has the fields [inner]. *)
Definition add_field (f : gofield) (t : gotype) (inner out : gmap gostr gotype) : gmap gostr gotype :=
  if bool_decide (gf_tag f = lit "-") then out
  else
    let name := (cut (gf_tag f) (lit ",")).1.1 in
    if gf_anonymous f && bool_decide (name = []) then inner ∪ out
    else if negb (gf_exported f) then out
    else <[(if bool_decide (name = []) then gf_name f else name) := t]> out.

Fixpoint jsonFields (t : gotype) : gmap gostr gotype :=
  match t with
  | TStruct fields => foldl (fun out f => add_field f.1 f.2 (jsonFields f.2) out) ∅ fields
  | _ => ∅
  end.

Definition path_join (path key : gostr) : gostr := if bool_decide (path = []) then key else path ++ lit "." ++ key.
Definition path_index (path : gostr) (i : nat) : gostr := path ++ lit "[" ++ itoa (Z.of_nat i) ++ lit "]".

Inductive key_error :=
  | UnknownField (path : gostr)
  | NoValue (path : gostr)
  | SameField (first second name : gostr).

Definition is_null (v : json) : bool := match v with JNull => true | _ => false end.
Definition is_block (t : gotype) : bool := match t with TPointer _ | TSlice _ => true | _ => false end.

(** The order in which [sort.Strings] puts the keys of an object. *)
Definition key_le {A} (x y : gostr * A) : Prop := str_le x.1 y.1.

#[export] Instance key_le_dec {A} : RelDecision (key_le (A := A)).
Proof. intros x y. unfold key_le. apply _. Defined.

Definition by_key {A} (l : list (gostr * A)) : list (gostr * A) := merge_sort key_le l.

(** The loops over the items of a list and over the members of a map: each is
    walked with its path, and the first error ends the loop. *)
Fixpoint walk_items (path : gostr) (i : nat) (l : list (gostr -> res key_error unit)) : res key_error unit :=
  match l with
  | [] => Ok tt
  | f :: l' => f (path_index path i) ;? walk_items path (S i) l'
  end.

Definition walk_map (path : gostr) (l : list (gostr * (gostr -> res key_error unit))) : res key_error unit :=
  check_all (fun m => m.2 (path_join path m.1)) l.

(** A member of a struct's object, with its key checked and then its value. *)
Definition exact_member (fields : gmap gostr gotype) (path : gostr)
    (m : gostr * (json * (gotype -> gostr -> res key_error unit))) : res key_error unit :=
  let '(k, (v, walk)) := m in
  match fields !! k with
  | None => Err (UnknownField (path_join path k))
  | Some ft =>
    fail_if (is_null v && is_block ft) (NoValue (path_join path k)) ;?
    walk ft (path_join path k)
  end.

Fixpoint exactKeys (v : json) (t : gotype) (path : gostr) : res key_error unit :=
  match deref t, v with
  | TStruct fields, JObj ms =>
    check_all (exact_member (jsonFields (TStruct fields)) path) (by_key (map (fun m => (m.1, (m.2, exactKeys m.2))) ms))
  | TSlice e, JArr items => walk_items path 0 (map (fun v => exactKeys v e) items)
  | TMap e, JObj ms => walk_map path (map (fun m => (m.1, exactKeys m.2 e)) ms)
  | _, _ => Ok tt
  end.

(** The field that a key names: its own name, or the one that folds to it. *)
Definition folded_name (fields : list gostr) (k : gostr) : gostr :=
  foldl (fun name f => if bool_decide (f = k) || (bool_decide (name = []) && equal_fold f k) then f else name) [] fields.

Fixpoint folded_members (fields : gmap gostr gotype) (path : gostr) (seen : gmap gostr gostr)
    (l : list (gostr * (gotype -> gostr -> res key_error unit))) : res key_error unit :=
  match l with
  | [] => Ok tt
  | (k, walk) :: l' =>
    let name := folded_name (map_to_list fields).*1 k in
    if bool_decide (name = []) then Err (UnknownField (path_join path k))
    else
      match seen !! name with
      | Some other => Err (SameField (path_join path other) (path_join path k) (path_join path name))
      | None =>
        walk (default TOther (fields !! name)) (path_join path k) ;?
        folded_members fields path (<[name := k]> seen) l'
      end
  end.

Fixpoint foldedKeys (v : json) (t : gotype) (path : gostr) : res key_error unit :=
  match deref t, v with
  | TStruct fields, JObj ms =>
    folded_members (jsonFields (TStruct fields)) path ∅ (by_key (map (fun m => (m.1, foldedKeys m.2)) ms))
  | TSlice e, JArr items => walk_items path 0 (map (fun v => foldedKeys v e) items)
  | TMap e, JObj ms => walk_map path (map (fun m => (m.1, foldedKeys m.2 e)) ms)
  | _, _ => Ok tt
  end.

(** ** Decoding *)

Section Decode.
(** The error of the YAML library. *)
Context {E : Type}.

Inductive decode_error := YamlError (e : E) | ManyDocuments | KeyError (e : key_error).

(** [singleDocument], over what each [Decode] of the stream gives before the
    end of it; a document that holds nothing is [JNull]. *)
Fixpoint singleDocument (n : nat) (stream : list (res E json)) : res decode_error unit :=
  match stream with
  | [] => Ok tt
  | Err e :: _ => Err (YamlError e)
  | Ok v :: stream' => if (0 <? n)%nat && negb (is_null v) then Err ManyDocuments else singleDocument (S n) stream'
  end.

Context (documents : gostr -> list (res E json)) (yaml_tree : gostr -> res E json).

(** [UnmarshalStrict] and [UnmarshalFolded], for a type [A] of Go whose shape
    is [t] and that [yaml.UnmarshalStrict] decodes as [strict] does. *)
Definition Unmarshal (keys : json -> gotype -> gostr -> res key_error unit) {A} (strict : gostr -> res E A) (t : gotype) (doc : gostr)
    : res decode_error A :=
  singleDocument 0 (documents doc) ;?
  let? into := map_err YamlError (strict doc) in
  let? tree := map_err YamlError (yaml_tree doc) in
  map_err KeyError (keys tree t []) ;?
  Ok into.

Definition UnmarshalStrict {A} := Unmarshal exactKeys (A := A).
Definition UnmarshalFolded {A} := Unmarshal foldedKeys (A := A).
End Decode.

Arguments decode_error E : clear implicits.

(** ** The types of this package *)

(** A field with a json tag. *)
Definition tagged (name tag : string) (t : gotype) : gofield * gotype := (MkField (lit name) (lit tag) false true, t).

Definition SecretRef_type := TStruct [tagged "Name" "name" TOther].
Definition CredentialRef_type :=
  TStruct [tagged "SecretRef" "secretRef" SecretRef_type; tagged "Field" "field,omitempty" TOther; tagged "Lifecycle" "lifecycle,omitempty" TOther].
Definition CertificateRef_type := TStruct [tagged "SecretRef" "secretRef" SecretRef_type].
Definition TLSInject_type :=
  TStruct [tagged "ClientCertificate" "clientCertificate,omitempty" (TPointer CertificateRef_type);
           tagged "CA" "ca,omitempty" (TPointer CertificateRef_type)].
Definition Header_type := TStruct [tagged "Name" "name" TOther; tagged "Value" "value" TOther].
Definition HeaderAllow_type := TStruct [tagged "Name" "name" TOther; tagged "Values" "values" (TSlice TOther)].
Definition HeaderInject_type :=
  TStruct [tagged "Set" "set,omitempty" (TSlice Header_type); tagged "Remove" "remove,omitempty" (TSlice TOther);
           tagged "Allow" "allow,omitempty" (TSlice HeaderAllow_type)].
Definition BasicAuth_type := TStruct [tagged "Username" "username" TOther].
Definition Inject_type :=
  TStruct [tagged "Headers" "headers,omitempty" (TPointer HeaderInject_type); tagged "BasicAuth" "basicAuth,omitempty" (TPointer BasicAuth_type);
           tagged "TLS" "tls,omitempty" (TPointer TLSInject_type)].
Definition GitGuest_type := TStruct [tagged "InsteadOf" "insteadOf,omitempty" (TSlice TOther)].
Definition Guest_type := TStruct [tagged "Env" "env,omitempty" (TMap TOther); tagged "Git" "git,omitempty" (TPointer GitGuest_type)].
Definition RequestAllow_type :=
  TStruct [tagged "Methods" "methods,omitempty" (TSlice TOther); tagged "Paths" "paths,omitempty" (TSlice TOther);
           tagged "Repos" "repos,omitempty" (TSlice TOther)].
Definition RequestPolicy_type := TStruct [tagged "Allow" "allow,omitempty" (TPointer RequestAllow_type)].
Definition Service_type := TStruct [tagged "Name" "name" TOther; tagged "Request" "request,omitempty" (TPointer RequestPolicy_type)].
Definition Route_type :=
  TStruct [tagged "Name" "name" TOther; tagged "Preset" "preset,omitempty" TOther; tagged "Mode" "mode,omitempty" TOther;
           tagged "Upstream" "upstream,omitempty" TOther; tagged "Credential" "credential,omitempty" (TPointer CredentialRef_type);
           tagged "Inject" "inject,omitempty" (TPointer Inject_type); tagged "Guest" "guest,omitempty" (TPointer Guest_type);
           tagged "Request" "request,omitempty" (TPointer RequestPolicy_type); tagged "Services" "services,omitempty" (TSlice Service_type);
           (MkField (lit "lifecycleFromPreset") [] false false, TOther)].
Definition Rule_type := TStruct [tagged "Host" "host,omitempty" TOther; tagged "CIDR" "cidr,omitempty" TOther].
Definition Egress_type :=
  TStruct [tagged "Default" "default" TOther; tagged "Allow" "allow,omitempty" (TSlice Rule_type); tagged "Deny" "deny,omitempty" (TSlice Rule_type)].
Definition TypeMeta_type := TStruct [tagged "APIVersion" "apiVersion" TOther; tagged "Kind" "kind" TOther].
Definition ObjectMeta_type :=
  TStruct [tagged "Name" "name" TOther; tagged "Description" "description,omitempty" TOther; tagged "Labels" "labels,omitempty" (TMap TOther);
           tagged "Annotations" "annotations,omitempty" (TMap TOther)].
Definition PolicySpec_type :=
  TStruct [tagged "Egress" "egress,omitempty" (TPointer Egress_type); tagged "Routes" "routes,omitempty" (TSlice Route_type)].
Definition Policy_type :=
  TStruct [(MkField (lit "TypeMeta") (lit ",inline") true true, TypeMeta_type);
           tagged "Metadata" "metadata" ObjectMeta_type; tagged "Spec" "spec" PolicySpec_type].

(** [Decode]: a policy document. *)
Definition Decode {E : Type} (documents : gostr -> list (res E json)) (yaml_tree : gostr -> res E json) (strict : gostr -> res E Policy)
    (doc : gostr) : res (decode_error E) Policy :=
  UnmarshalStrict documents yaml_tree strict (TPointer Policy_type) doc.

(** ** What the walks refuse *)

Lemma by_key_perm {A} (l : list (gostr * A)) : Permutation (by_key l) l.
Proof. apply merge_sort_Permutation. Qed.

Lemma deref_deref t : deref (deref t) = deref t.
Proof. by induction t. Qed.

Lemma walk_items_ok path i l : walk_items path i l = Ok tt <-> forall j f, l !! j = Some f -> f (path_index path (i + j)) = Ok tt.
Proof.
  revert i. induction l as [|f l IH]; intros i; [by split|]. cbn [walk_items]. rewrite seq_ok, IH. split.
  - intros [H0 H] [|j] g Hg; [injection Hg as <-; by rewrite Nat.add_0_r|].
    specialize (H j g Hg). by rewrite Nat.add_succ_comm in H.
  - intros H. split; [by rewrite <- (Nat.add_0_r i); apply (H 0%nat)|].
    intros j g Hg. rewrite Nat.add_succ_comm. by apply (H (S j)).
Qed.

(** The pairs of a value and a type that a walk comes to, when [field] is what
    it takes a key of a struct for. *)
Inductive reach (field : gmap gostr gotype -> gostr -> option gotype) : json -> gotype -> json -> gotype -> Prop :=
  | reach_here v t : reach field v t v (deref t)
  | reach_field ms t fields k x ft v' t' : deref t = TStruct fields -> (k, x) ∈ ms -> field (jsonFields (TStruct fields)) k = Some ft ->
      reach field x ft v' t' -> reach field (JObj ms) t v' t'
  | reach_item l t e x v' t' : deref t = TSlice e -> x ∈ l -> reach field x e v' t' -> reach field (JArr l) t v' t'
  | reach_member ms t e k x v' t' : deref t = TMap e -> (k, x) ∈ ms -> reach field x e v' t' -> reach field (JObj ms) t v' t'.

Definition exact_field (fields : gmap gostr gotype) (k : gostr) : option gotype := fields !! k.

(** [P] holds of every object that is decoded into a struct, and its fields. *)
Definition all_structs (field : gmap gostr gotype -> gostr -> option gotype) (P : list (gostr * json) -> gmap gostr gotype -> Prop)
    (v : json) (t : gotype) : Prop :=
  forall ms fields, reach field v t (JObj ms) (TStruct fields) -> P ms (jsonFields (TStruct fields)).

Section Structs.
Context (field : gmap gostr gotype -> gostr -> option gotype) (P : list (gostr * json) -> gmap gostr gotype -> Prop).
Local Notation all := (all_structs field P).

Ltac same_type :=
  repeat match goal with
  | H : deref ?t = _, E : deref ?t = _ |- _ => rewrite H in E; first [discriminate E | injection E as <-]
  end.

Lemma all_items l t e : deref t = TSlice e -> all (JArr l) t <-> Forall (fun x => all x e) l.
Proof.
  intros Ht. rewrite Forall_forall. split.
  - intros H x Hx ms fields R. apply H. by eapply reach_item.
  - intros H ms fields R. inversion R; subst. same_type. by eapply (H _ ltac:(eassumption) ms).
Qed.

Lemma all_members ms t e : deref t = TMap e -> all (JObj ms) t <-> Forall (fun m => all m.2 e) ms.
Proof.
  intros Ht. rewrite Forall_forall. split.
  - intros H [k x] Hx ms' fields R. apply H. by eapply reach_member.
  - intros H ms' fields R. inversion R; subst; same_type. by eapply (H _ ltac:(eassumption) ms').
Qed.

Lemma all_fields ms t fields : deref t = TStruct fields -> all (JObj ms) t <->
  P ms (jsonFields (TStruct fields)) /\
  Forall (fun m => forall ft, field (jsonFields (TStruct fields)) m.1 = Some ft -> all m.2 ft) ms.
Proof.
  intros Ht. rewrite Forall_forall. split.
  - intros H. split; [apply H; rewrite <- Ht; constructor|]. intros [k x] Hx ft Hf ms' fields' R. apply H. by eapply reach_field.
  - intros [H0 H] ms' fields' R. inversion R; subst; same_type; [|by eapply (H _ ltac:(eassumption) _ ltac:(eassumption) ms')].
    by rewrite Ht.
Qed.

Lemma all_leaf v t : (forall ms, v <> JObj ms) -> (forall l, v <> JArr l) -> all v t.
Proof. intros H1 H2 ms fields R. inversion R; subst; first [destruct (H1 _ eq_refl)|destruct (H2 _ eq_refl)]. Qed.

Lemma all_other v t : match deref t, v with TStruct _, JObj _ | TMap _, JObj _ | TSlice _, JArr _ => False | _, _ => True end -> all v t.
Proof.
  intros H ms fields R. inversion R as [? ? E1 E2 E3 E4| | |]; subst; [by rewrite E4 in H|..];
    (match goal with E : deref t = _ |- _ => by rewrite E in H end).
Qed.
End Structs.

(** Every key of an object that is decoded into a struct is one of its fields,
    with a value where the field is a block or a list. *)
Definition members_exact (ms : list (gostr * json)) (fields : gmap gostr gotype) : Prop :=
  Forall (fun m => exists ft, fields !! m.1 = Some ft /\ ~ (m.2 = JNull /\ is_block ft = true)) ms.
Definition keys_exact : json -> gotype -> Prop := all_structs exact_field members_exact.

(** Every key of an object that is decoded into a struct names one of its
    fields, and no two keys name one. *)
Definition fold_of (fields : gmap gostr gotype) (k : gostr) : gostr := folded_name (map_to_list fields).*1 k.
Definition folded_field (fields : gmap gostr gotype) (k : gostr) : option gotype := fields !! fold_of fields k.
Definition members_folded (ms : list (gostr * json)) (fields : gmap gostr gotype) : Prop :=
  Forall (fun m => fold_of fields m.1 <> []) ms /\ NoDup ((fun m => fold_of fields m.1) <$> ms).
Definition keys_folded : json -> gotype -> Prop := all_structs folded_field members_folded.

Lemma exact_member_ok fields path k v walk : exact_member fields path (k, (v, walk)) = Ok tt <->
  exists ft, fields !! k = Some ft /\ ~ (v = JNull /\ is_block ft = true) /\ walk ft (path_join path k) = Ok tt.
Proof.
  unfold exact_member. destruct (fields !! k) as [ft|]; [|by split; [|intros (? & [=] & _)]].
  rewrite seq_ok, fail_if_ok, andb_false_iff. split.
  - intros [Hn Hw]. exists ft. split_and!; [done| |done]. intros [-> Hb]. rewrite Hb in Hn. by destruct Hn.
  - intros (ft' & [= <-] & Hn & Hw). split; [|done]. destruct v; try by left. destruct (is_block ft); [exfalso; by apply Hn|by right].
Qed.


Lemma Forall_iff_in {A} (P Q : A -> Prop) l : (forall x, x ∈ l -> P x <-> Q x) -> Forall P l <-> Forall Q l.
Proof. intros H. rewrite !Forall_forall. by split; intros G x Hx; apply H, G. Qed.

Section Walk.
(** A walk over a value and its type, which is right for the parts. *)
Context (walk : json -> gotype -> gostr -> res key_error unit) (all : json -> gotype -> Prop).
Local Notation right := (fun v => forall t path, walk v t path = Ok tt <-> all v t).

Lemma items_right l e path : Forall right l -> walk_items path 0 (map (fun v => walk v e) l) = Ok tt <-> Forall (fun v => all v e) l.
Proof.
  intros IH. rewrite walk_items_ok, Forall_lookup. rewrite Forall_forall in IH. change (map ?f l) with (f <$> l). split.
  - intros H j v Hj. apply (IH v) with (path := path_index path j); [by eapply list_elem_of_lookup_2|].
    apply (H j). by rewrite list_lookup_fmap, Hj.
  - intros H j f Hf. apply list_lookup_fmap_Some in Hf as (v & -> & Hj). apply IH; [by eapply list_elem_of_lookup_2|]. by eapply H.
Qed.

Lemma members_right ms e path : Forall (fun m => right m.2) ms ->
  walk_map path (map (fun m => (m.1, walk m.2 e)) ms) = Ok tt <-> Forall (fun m => all m.2 e) ms.
Proof.
  intros IH. unfold walk_map. rewrite check_all_ok, Forall_map. rewrite Forall_forall in IH. apply Forall_iff_in.
  intros m Hm. by apply IH.
Qed.
End Walk.

Lemma exactKeys_ok v : forall t path, exactKeys v t path = Ok tt <-> keys_exact v t.
Proof.
  induction v as [| | | |l Hl|ms Hms] using json_nested_ind; intros t path; cbn [exactKeys];
    try (split; [intros _; by apply all_leaf|by destruct (deref t)]).
  - destruct (deref t) as [| |e| |] eqn:Et; try (split; [intros _; apply all_other; by rewrite Et|done]).
    rewrite (items_right exactKeys keys_exact) by done. symmetry. by apply all_items.
  - destruct (deref t) as [fields| | |e|] eqn:Et; try (split; [intros _; apply all_other; by rewrite Et|done]).
    + unfold keys_exact. rewrite (all_fields _ _ ms t fields Et). unfold members_exact. rewrite check_all_ok, by_key_perm, Forall_map, <- Forall_and.
      rewrite Forall_forall in Hms. apply Forall_iff_in. intros [k x] Hx. cbn [fst snd]. rewrite exact_member_ok. split.
      * intros (ft & Hf & Hn & Hw). split; [by exists ft|]. intros ft' Hf'. unfold exact_field in Hf'. simplify_eq.
        by apply (Hms _ Hx) in Hw.
      * intros [(ft & Hf & Hn) Hw]. exists ft. split_and!; [done..|]. apply (Hms _ Hx). by apply Hw.
    + rewrite (members_right exactKeys keys_exact) by done. symmetry. by apply all_members.
Qed.

Lemma folded_name_in l k : folded_name l k <> [] -> folded_name l k ∈ l.
Proof.
  unfold folded_name. assert (forall (acc : gostr) (l0 : list gostr), (acc = [] \/ acc ∈ l0) -> (forall x, x ∈ l -> x ∈ l0) ->
    foldl (fun name f => if bool_decide (f = k) || (bool_decide (name = []) && equal_fold f k) then f else name) acc l <> [] ->
    foldl (fun name f => if bool_decide (f = k) || (bool_decide (name = []) && equal_fold f k) then f else name) acc l ∈ l0) as G.
  { induction l as [|f l IH]; intros acc l0 Ha Hl; [by destruct Ha as [->|]|]. cbn [foldl]. apply IH.
    - destruct (_ || _); [right; apply Hl; by left|done].
    - intros x Hx. apply Hl. by right. }
  apply G; [by left|done].
Qed.

Lemma fold_of_field F k : fold_of F k <> [] -> is_Some (F !! fold_of F k).
Proof.
  intros H%folded_name_in. apply list_elem_of_fmap in H as ([n ft] & E & Hin). unfold fold_of. rewrite E.
  exists ft. by apply elem_of_map_to_list.
Qed.

Lemma folded_members_ok fields path seen l :
  folded_members fields path seen l = Ok tt <->
  Forall (fun m => fold_of fields m.1 <> [] /\ m.2 (default TOther (fields !! fold_of fields m.1)) (path_join path m.1) = Ok tt) l /\
  NoDup ((fun m => fold_of fields m.1) <$> l) /\ (forall m, m ∈ l -> seen !! fold_of fields m.1 = None).
Proof.
  revert seen. induction l as [|[k walk] l IH]; intros seen.
  - cbn. split; [|done]. intros _. split_and!; [constructor..|]. by intros m ?%elem_of_nil.
  - cbn [folded_members]. fold (fold_of fields k). rewrite Forall_cons. cbn [fmap list_fmap]. rewrite NoDup_cons. cbn [fst snd].
    destruct (bool_decide_reflect (fold_of fields k = [])) as [E|Hne]; [by split; [|intros [[[] _] _]]|].
    destruct (seen !! fold_of fields k) as [o|] eqn:Es.
    { split; [done|]. intros (_ & _ & Hs). specialize (Hs (k, walk) ltac:(by left)). cbn in Hs. congruence. }
    rewrite seq_ok, IH. split.
    + intros (Hw & Hl & Hd & Hs). split_and!; try done.
      * intros ([k' w'] & E & Hin)%list_elem_of_fmap. specialize (Hs _ Hin). cbn in E, Hs. by rewrite <- E, lookup_insert_eq in Hs.
      * intros m [->|Hin]%elem_of_cons; [done|]. specialize (Hs _ Hin). by apply lookup_insert_None in Hs as [? _].
    + intros ([[_ Hw] Hl] & [Hn Hd] & Hs). split_and!; [done..|]. intros m Hin. apply lookup_insert_None. split.
      * apply Hs. by right.
      * intros E. apply Hn. rewrite E. by apply (list_elem_of_fmap_2 (fun m => fold_of fields m.1)).
Qed.

Lemma foldedKeys_ok v : forall t path, foldedKeys v t path = Ok tt <-> keys_folded v t.
Proof.
  induction v as [| | | |l Hl|ms Hms] using json_nested_ind; intros t path; cbn [foldedKeys];
    try (split; [intros _; by apply all_leaf|by destruct (deref t)]).
  - destruct (deref t) as [| |e| |] eqn:Et; try (split; [intros _; apply all_other; by rewrite Et|done]).
    rewrite (items_right foldedKeys keys_folded) by done. symmetry. by apply all_items.
  - destruct (deref t) as [fields| | |e|] eqn:Et; try (split; [intros _; apply all_other; by rewrite Et|done]).
    + unfold keys_folded. rewrite (all_fields _ _ ms t fields Et), folded_members_ok. unfold members_folded.
      generalize (jsonFields (TStruct fields)). intros F. rewrite by_key_perm, Forall_map. cbn [fst snd].
      change (map ?f ms) with (f <$> ms). rewrite <- list_fmap_compose. unfold compose. cbn [fst].
      rewrite Forall_forall in Hms.
      assert (forall m, m ∈ ms -> fold_of F m.1 <> [] ->
        (foldedKeys m.2 (default TOther (F !! fold_of F m.1)) (path_join path m.1) = Ok tt <->
         forall ft, folded_field F m.1 = Some ft -> keys_folded m.2 ft)) as HW.
      { intros m Hm Hne. apply fold_of_field in Hne as [ft Hft]. unfold folded_field. rewrite Hft. cbn [default].
        rewrite (Hms m Hm). split; [by intros H ft' [= <-]|by intros H; apply H]. }
      rewrite !Forall_forall. split.
      * intros (H & Hd & _). split_and!; [intros m Hm; by apply (H m)|done|]. intros m Hm. apply HW; [done|..]; by apply (H m).
      * intros ((H & Hd) & Hw). split_and!; [|done|by intros]. intros m Hm. split; [by apply H|]. by apply HW; [|apply H|apply Hw].
    + rewrite (members_right foldedKeys keys_folded) by done. symmetry. by apply all_members.
Qed.

Lemma singleDocument_ok {E : Type} n (l : list (res E json)) : singleDocument n l = Ok tt <->
  exists vs, l = Ok <$> vs /\ Forall (fun v => v = JNull) (if (n =? 0)%nat then tail vs else vs).
Proof.
  revert n. induction l as [|[v|e] l IH]; intros n; cbn [singleDocument].
  - split; [|done]. intros _. exists []. split; [done|]. by destruct n.
  - destruct ((0 <? n)%nat && negb (is_null v)) eqn:Hn.
    + split; [done|]. intros ([|v' vs] & [= <- El] & H). apply andb_prop in Hn as [Hn Hv%negb_true_iff]. apply Nat.ltb_lt in Hn.
      destruct n; [lia|]. cbn in H. apply Forall_cons in H as [-> _]. done.
    + rewrite IH. cbn [Nat.eqb]. split.
      * intros (vs & -> & H). exists (v :: vs). split; [done|]. destruct n; [done|]. cbn in Hn |- *. apply negb_false_iff in Hn.
        constructor; [by destruct v|done].
      * intros ([|v' vs] & [= <- ->] & H). exists vs. split; [done|]. destruct n; [done|]. by apply Forall_cons in H as [_ H].
  - split; [done|]. by intros ([|v vs] & [=] & _).
Qed.

Lemma reach_pointer field v t v' t' : reach field v (TPointer t) v' t' <-> reach field v t v' t'.
Proof.
  split; intros R; inversion R as [|? ? ? ? ? ? ? ? Hd|? ? ? ? ? ? Hd|? ? ? ? ? ? ? Hd]; subst;
    [apply (reach_here field v' t)|by eapply reach_field|by eapply reach_item|by eapply reach_member|
     apply (reach_here field v' (TPointer t))|by eapply reach_field|by eapply reach_item|by eapply reach_member].
Qed.

(** A policy document decodes exactly when it holds one document, that
    the YAML library decodes, and each key in it, at any depth, is byte for
    byte the name of a field of the struct that it is decoded into, with a
    value where that field is a block or a list. *)
Lemma Decode_exact {E : Type} (documents : gostr -> list (res E json)) (yaml_tree : gostr -> res E json) (strict : gostr -> res E Policy)
    (doc : gostr) (p : Policy) :
  Decode documents yaml_tree strict doc = Ok p <->
  strict doc = Ok p /\
  (exists vs, documents doc = Ok <$> vs /\ Forall (fun v => v = JNull) (tail vs)) /\
  (exists v, yaml_tree doc = Ok v /\
     forall ms fields k x, reach exact_field v Policy_type (JObj ms) (TStruct fields) -> (k, x) ∈ ms ->
       exists ft, jsonFields (TStruct fields) !! k = Some ft /\ ~ (x = JNull /\ is_block ft = true)).
Proof.
  assert (forall v, keys_exact v (TPointer Policy_type) <->
    forall ms fields k x, reach exact_field v Policy_type (JObj ms) (TStruct fields) -> (k, x) ∈ ms ->
       exists ft, jsonFields (TStruct fields) !! k = Some ft /\ ~ (x = JNull /\ is_block ft = true)) as HK.
  { intros v. unfold keys_exact, all_structs, members_exact.
    split; intros H ms fields.
    - intros k x R Hx. apply reach_pointer in R. specialize (H _ _ R). rewrite Forall_forall in H. by apply (H _ Hx).
    - intros R%(proj1 (reach_pointer _ _ _ _ _)). apply Forall_forall. intros [k x] Hx. exact (H ms fields k x R Hx). }
  unfold Decode, UnmarshalStrict, Unmarshal. rewrite seq_ok, singleDocument_ok. split.
  - intros [Hd H]. apply res_bind_ok in H as (q & Hs%map_err_ok & H). apply res_bind_ok in H as (v & Hv%map_err_ok & H).
    apply seq_ok in H as [Hk%map_err_ok [= <-]]. apply exactKeys_ok in Hk. pose proof (proj1 (HK _) Hk) as Hk'. split_and!; [done..|by exists v].
  - intros (Hs & Hd & v & Hv & Hk). split; [done|]. rewrite Hs, Hv. cbn [map_err res_bind].
    pose proof (proj2 (HK v) Hk) as Hk'. apply (exactKeys_ok v _ []) in Hk'. by rewrite Hk'.
Qed.

(** ** The order of the fields *)

(** No two names fold to each other, so a key folds to at most one of them. *)
Definition folds_apart (l : list gostr) : Prop := NoDup l /\ forall f g, f ∈ l -> g ∈ l -> equal_fold f g = true -> f = g.

Lemma folded_name_spec l k f : [] ∉ l -> folds_apart l -> f <> [] ->
  folded_name l k = f <-> f ∈ l /\ equal_fold f k = true.
Proof.
  intros Hn [_ Ha] Hf. unfold folded_name.
  set (step := fun name f : gostr => if bool_decide (f = k) || (bool_decide (name = []) && equal_fold f k) then f else name).
  assert (forall l0 acc, (forall x, x ∈ l0 -> x ∈ l) -> (acc = [] \/ (acc ∈ l /\ equal_fold acc k = true)) ->
    foldl step acc l0 = f <-> acc = f \/ (acc = [] /\ f ∈ l0 /\ equal_fold f k = true)) as G.
  { induction l0 as [|g l0 IH]; intros acc Hl Hacc; cbn [foldl].
    - split; [by left|]. by intros [?|(_ & ?%elem_of_nil & _)].
    - assert (g ∈ l) as Hg by (apply Hl; by left). assert (g <> []) as Hg0 by (by intros ->).
      assert (forall x, x ∈ l0 -> x ∈ l) as Hl0 by (intros x Hx; apply Hl; by right).
      unfold step at 2. destruct (equal_fold g k) eqn:Eg.
      + destruct Hacc as [->|[Hin Hk]].
        * rewrite (bool_decide_true ([] = [])), orb_true_r by done. rewrite IH by auto. split.
          -- intros [->|[-> _]]; [|done]. right. split_and!; [done|by left|done].
          -- intros [<-|(_ & [->|Hi]%elem_of_cons & Hfk)]; [done|by left|]. left. apply Ha; [done|by apply Hl0|].
             eapply equal_fold_trans; [done|]. by rewrite equal_fold_sym.
        * assert (acc = g) as <- by (apply Ha; [done..|]; eapply equal_fold_trans; [done|]; by rewrite equal_fold_sym).
          assert (Eacc : (if bool_decide (acc = k) || (bool_decide (acc = []) && true) then acc else acc) = acc) by (by destruct (_ || _)).
          rewrite Eacc, IH by auto. split; [|tauto]. intros [?|(-> & _)]; [by left|done].
      + assert (bool_decide (g = k) = false) as -> by (apply bool_decide_eq_false; intros ->; by rewrite equal_fold_refl in Eg).
        rewrite andb_false_r. cbn. rewrite IH by auto. rewrite elem_of_cons. split.
        * intros [?|(-> & ? & ?)]; [by left|right; auto].
        * intros [?|(-> & [->|?] & ?)]; [by left|congruence|right; auto]. }
  rewrite G by auto. split; [by intros [<-|(_ & ? & ?)]|intros [? ?]; by right].
Qed.

(** So the name does not depend on the order in which a range visits them. *)
Lemma folded_name_order l l' k : [] ∉ l -> folds_apart l -> Permutation l l' -> folded_name l k = folded_name l' k.
Proof.
  intros Hn Ha Hp. assert ([] ∉ l') as Hn' by (by rewrite <- Hp). assert (folds_apart l') as Ha'.
  { destruct Ha as [Hd Ha]. split; [by rewrite <- Hp|]. intros f g. rewrite <- Hp. apply Ha. }
  destruct (decide (folded_name l' k = [])) as [E|Hne].
  - rewrite E. destruct (decide (folded_name l k = [])) as [|Hne]; [done|]. exfalso.
    pose proof (proj1 (folded_name_spec l k _ Hn Ha Hne) eq_refl) as [Hin Hk].
    assert (folded_name l k ∈ l') as Hin' by (by apply (elem_of_Permutation_proper _ _ _ Hp)).
    pose proof (proj2 (folded_name_spec l' k _ Hn' Ha' Hne) (conj Hin' Hk)) as E2. congruence.
  - pose proof (proj1 (folded_name_spec l' k _ Hn' Ha' Hne) eq_refl) as [Hin Hk]. apply folded_name_spec; [done..|].
    split; [|done]. by apply (elem_of_Permutation_proper _ _ _ Hp).
Qed.
