(* ===== verification/Allow.v ===== *)
(** * Request rules (internal/broker/allow.go)

    [allow] checks a request against the lists of [request.allow] before any
    credential is fetched.  Its refusal names the list that missed. *)

From stdpp Require Import prelude list strings.
From Stdlib Require Import ZArith Lia ZifyNat Ascii.
From S2P Require Import Prelude GoUnicode GoStrings GoPath RouteTypes.

(** The text of a refusal, before it is formatted: the verb's quoted argument
    and the list it was looked up in. *)
Inductive reason :=
  | NotInList (arg : gostr) (items : gostr)
  | NamesNoRepo (path : gostr).

Record refusal := MkRefusal { rf_field : gostr; rf_reason : reason }.

#[export] Instance reason_eq_dec : EqDecision reason.
Proof. solve_decision. Defined.
#[export] Instance refusal_eq_dec : EqDecision refusal.
Proof. solve_decision. Defined.

Definition list_text (items : list gostr) : gostr := lit "[" ++ join (lit ", ") items ++ lit "]".

(** [match]: a malformed glob matches nothing. *)
Definition match_ (glob s : gostr) : bool :=
  match Match glob s with Ok b => b | Err _ => false end.

Definition repoOf (rest : gostr) : option gostr :=
  match split_byte_n 3 slash (trim_prefix rest (lit "/")) with
  | owner :: second :: _ =>
    let name := trim_suffix second (lit ".git") in
    if bool_decide (owner = []) || bool_decide (name = []) then None
    else Some (owner ++ lit "/" ++ name)
  | _ => None
  end.

(** [len(s) > 0]. *)
Definition nonempty {A} (s : slice A) : bool := negb (is_nil (head (elems s))).

Definition allow (a : option RequestAllow) (method rest : gostr) : option refusal :=
  match a with
  | None => None
  | Some a =>
    if nonempty (ra_methods a) && negb (mem method (elems (ra_methods a)))
    then Some (MkRefusal (lit "methods") (NotInList method (list_text (elems (ra_methods a)))))
    else if nonempty (ra_paths a) && negb (existsb (fun g => match_ g rest) (elems (ra_paths a)))
    then Some (MkRefusal (lit "paths") (NotInList rest (list_text (elems (ra_paths a)))))
    else if nonempty (ra_repos a) then
      match repoOf rest with
      | None => Some (MkRefusal (lit "repos") (NamesNoRepo rest))
      | Some repo =>
        if negb (existsb (fun g => match_ g repo) (elems (ra_repos a)))
        then Some (MkRefusal (lit "repos") (NotInList repo (list_text (elems (ra_repos a)))))
        else None
      end
    else None
  end.

Definition rule (r : refusal) (owner : gostr) : gostr := owner ++ lit ".request.allow." ++ rf_field r.

Definition routeRule (route : gostr) : gostr := lit "spec.routes[" ++ route ++ lit "]".

Definition refusalBody (policy route rule_ reason_ sandbox : gostr) : gostr :=
  lit "brig broker refused this request" ++ [zb 10]
  ++ lit "policy:  " ++ policy ++ [zb 10]
  ++ lit "route:   " ++ route ++ [zb 10]
  ++ lit "rule:    " ++ rule_ ++ [zb 10]
  ++ lit "reason:  " ++ reason_ ++ [zb 10]
  ++ lit "sandbox: " ++ sandbox ++ [zb 10].

(** ** What an allowed request is *)

Lemma match_glob g s : match_ g s = true -> glob g s.
Proof. unfold match_. destruct (Match g s) as [[]|] eqn:E; [|done|done]. intros _. by apply Match_sound. Qed.

Lemma nonempty_false {A} (s : slice A) : nonempty s = false <-> elems s = [].
Proof. unfold nonempty. destruct (elems s); cbn; split; congruence. Qed.

(** The path of a git request is split at its first two slashes. *)
Lemma split_two (s a b : gostr) l :
  split_byte_n 3 slash s = a :: b :: l ->
  slash ∉ a /\ slash ∉ b /\ (s = a ++ slash :: b \/ exists t, s = a ++ slash :: b ++ slash :: t).
Proof.
  cbn [split_byte_n]. destruct (cut_at [slash] s) as [[x y]|] eqn:E; [|done].
  apply cut_at_byte_inv in E as [-> Hx].
  destruct (cut_at [slash] y) as [[x' y']|] eqn:E'.
  - apply cut_at_byte_inv in E' as [-> Hx']. intros [= -> -> _]. eauto.
  - intros [= -> -> _]. apply cut_at_byte in E'. auto.
Qed.

(** [rest] is a git path of the repository [owner/name]. *)
Definition names_repo (rest owner name : gostr) : Prop :=
  owner <> [] /\ name <> [] /\ slash ∉ owner /\ slash ∉ name /\
  exists lead git tail, rest = lead ++ owner ++ slash :: name ++ git ++ tail /\
    (lead = [] \/ lead = [slash]) /\ (git = [] \/ git = lit ".git") /\
    (tail = [] \/ head tail = Some slash).

Lemma repoOf_Some rest repo :
  repoOf rest = Some repo ->
  exists owner name, repo = owner ++ slash :: name /\ names_repo rest owner name.
Proof.
  unfold repoOf. destruct (split_byte_n 3 slash _) as [|owner [|second l]] eqn:E; [done|done|].
  apply split_two in E as (Ho & Hs & Heq).
  destruct (bool_decide (owner = [])) eqn:E1; [done|].
  destruct (bool_decide (trim_suffix second _ = [])) eqn:E2; [done|]. cbn [orb]. bool_inv.
  intros [= <-]. exists owner, (trim_suffix second (lit ".git")).
  assert (exists git, second = trim_suffix second (lit ".git") ++ git /\ (git = [] \/ git = lit ".git"))
    as (git & Hg & Hgit).
  { destruct (trim_suffix_cases second (lit ".git")) as [H| H]; [by exists (lit ".git"); auto|].
    exists []. rewrite app_nil_r. auto. }
  assert (exists lead, rest = lead ++ trim_prefix rest (lit "/") /\ (lead = [] \/ lead = [slash]))
    as (lead & Hl & Hlead).
  { destruct (trim_prefix_cases rest (lit "/")) as [H| H]; [exists [slash]; auto|]. exists []. auto. }
  assert (slash ∉ trim_suffix second (lit ".git")) as Hn.
  { rewrite Hg in Hs. rewrite not_elem_of_app in Hs. tauto. }
  split; [done|]. split_and!; try done.
  rewrite Hl. set (n := trim_suffix second (lit ".git")) in *. clearbody n. subst second.
  destruct Heq as [-> | (t & ->)].
  - exists lead, git, []. rewrite app_nil_r. split_and!; auto.
  - exists lead, git, (slash :: t). rewrite <- !app_assoc. split_and!; auto.
Qed.

(** ** Properties *)

(** C22: A request that [allow] lets through has a method of the list, a path
    that one of the globs describes, with [*] stopping at a slash, and names an
    owner/name repository that one of the repo globs describes, for each list
    that is set. *)
Theorem allow_sound (a : RequestAllow) (method rest : gostr) (H : allow (Some a) method rest = None) :
  (elems (ra_methods a) <> [] -> method ∈ elems (ra_methods a)) /\
  (elems (ra_paths a) <> [] -> exists g, g ∈ elems (ra_paths a) /\ glob g rest) /\
  (elems (ra_repos a) <> [] -> exists g owner name, g ∈ elems (ra_repos a) /\
     names_repo rest owner name /\ glob g (owner ++ slash :: name)).
Proof.
  unfold allow in H.
  destruct (nonempty (ra_methods a)) eqn:E1; [|apply nonempty_false in E1; rewrite E1 in *];
    (destruct (mem method _) eqn:Em; cbn [andb negb] in H; [|try done]);
    (destruct (nonempty (ra_paths a)) eqn:E2; [|apply nonempty_false in E2; rewrite E2 in *]);
    (destruct (existsb (fun g => match_ g rest) _) eqn:Ep; cbn [andb negb] in H; [|try done]);
    (destruct (nonempty (ra_repos a)) eqn:E3; [|apply nonempty_false in E3; rewrite E3 in *]).
  all: try (destruct (repoOf rest) as [repo|] eqn:Er; [|done];
    destruct (existsb (fun g => match_ g repo) _) eqn:Ex; [|done];
    apply repoOf_Some in Er as (owner & name & -> & Hn);
    apply existsb_true in Ex as (gr & Hgr & Hmr); apply match_glob in Hmr).
  all: try (apply existsb_true in Ep as (gp & Hgp & Hmp); apply match_glob in Hmp).
  all: try apply mem_true in Em.
  all: split_and!; intros Hne; try done; eauto 10.
Qed.

Definition example_allow : RequestAllow :=
  MkRequestAllow (Some [lit "GET"]) (Some [lit "/*/*/info/refs"]) (Some [lit "brig-sh/*"]).

Example allow_sound_witness :
  lit "GET" ∈ elems (ra_methods example_allow) /\
  exists g, g ∈ elems (ra_paths example_allow) /\ glob g (lit "/brig-sh/brig.git/info/refs").
Proof.
  destruct (allow_sound example_allow (lit "GET") (lit "/brig-sh/brig.git/info/refs")) as (H1 & H2 & _).
  - vm_compute. reflexivity.
  - split; [apply H1; discriminate | apply H2; discriminate].
Defined.

(** A path glob without a class cannot reach deeper than it is written: a
    request let through has exactly as many slashes as one of the globs. *)
Lemma allow_depth (a : RequestAllow) (method rest : gostr) (H : allow (Some a) method rest = None)
    (Hset : elems (ra_paths a) <> []) (Hplain : Forall (fun g => "["%char ∉ g) (elems (ra_paths a))) :
  exists g, g ∈ elems (ra_paths a) /\ slashes rest = slashes g.
Proof.
  assert (exists g, g ∈ elems (ra_paths a) /\ match_ g rest = true) as (g & Hg & Hm).
  { unfold allow in H. destruct (_ && negb (mem _ _)); [done|].
    destruct (nonempty (ra_paths a)) eqn:E; [|by apply nonempty_false in E].
    destruct (existsb (fun g => match_ g rest) _) eqn:Ex; [|done]. by apply existsb_true in Ex. }
  exists g. split; [done|]. rewrite Forall_forall in Hplain.
  apply glob_slashes; [by apply match_glob | by apply Hplain].
Qed.

Example allow_depth_witness :
  exists g, g ∈ elems (ra_paths example_allow) /\ slashes (lit "/brig-sh/brig.git/info/refs") = slashes g.
Proof.
  apply (allow_depth example_allow (lit "GET")).
  - vm_compute. reflexivity.
  - discriminate.
  - apply Forall_singleton. apply (proj1 (mem_false _ _)). vm_compute. reflexivity.
Defined.
