(* ===== verification/Token.v ===== *)
(** * Session tokens (internal/broker/token.go)

    [mint] signs the JSON of a token's claims, and [verify] reads a token back:
    two base64url parts, the signature over the first, and only then the JSON.
    HMAC-SHA256 and HKDF are the arguments [hmac] and [hkdf] of the sections. *)

From stdpp Require Import prelude list strings.
From Stdlib Require Import ZArith Lia ZifyNat Ascii.
From S2P Require Import Prelude GoUnicode GoStrings GoNum GoJson Base64.

Local Open Scope Z_scope.

Definition tokenType : gostr := lit "brig-route".
Definition minHostKey : nat := 32.
Definition nonceSize : nat := 16.

Definition second : Z := 1000000000.
(** [DefaultTokenTTL]: 12 hours. *)
Definition DefaultTokenTTL : Z := 12 * 3600 * second.

Record claims := Claims {
  c_sandbox : gostr;
  c_session : gostr;
  c_route : gostr;
  c_exp : Z;
  c_typ : gostr;
}.

#[export] Instance claims_eq_dec : EqDecision claims.
Proof. solve_decision. Defined.

(** The zero value the decoder fills in. *)
Definition no_claims : claims := Claims [] [] [] 0 [].

(** The failed checks of a token; each is the check field of an audit line. *)
Inductive token_error :=
  | errTokenMissing
  | errTokenSignature
  | errTokenSandbox
  | errTokenRoute
  | errTokenExpired.

#[export] Instance token_error_eq_dec : EqDecision token_error.
Proof. solve_decision. Defined.

Definition token_check (e : token_error) : gostr :=
  match e with
  | errTokenMissing => lit "token"
  | errTokenSignature => lit "signature"
  | errTokenSandbox => lit "token.sandbox"
  | errTokenRoute => lit "token.route"
  | errTokenExpired => lit "expired"
  end.

(** ** The JSON of the claims *)

(** [json.Marshal] of a [claims]. *)
Definition marshal (c : claims) : gostr :=
  lit "{" ++ json_key (lit "sandbox") ++ json_quote (c_sandbox c)
  ++ lit "," ++ json_key (lit "session") ++ json_quote (c_session c)
  ++ lit "," ++ json_key (lit "route") ++ json_quote (c_route c)
  ++ lit "," ++ json_key (lit "exp") ++ itoa (c_exp c)
  ++ lit "," ++ json_key (lit "typ") ++ json_quote (c_typ c) ++ lit "}".

(** The fields a key can name: by its exact name, then under case folding. *)
Inductive claim_field := FSandbox | FSession | FRoute | FExp | FTyp.

Definition claim_fields : list (gostr * claim_field) :=
  [(lit "sandbox", FSandbox); (lit "session", FSession); (lit "route", FRoute);
   (lit "exp", FExp); (lit "typ", FTyp)].

Definition field_named (key : gostr) : option claim_field := json_field claim_fields key.

(** A member of the object sets its field; [null] leaves it, and any other type
    than the field's is an error, as is a key that names no field. *)
Definition set_claim (c : claims) (m : gostr * json) : option claims :=
  match field_named m.1, m.2 with
  | None, _ => None
  | Some _, JNull => Some c
  | Some FExp, JNum n =>
    match parse_int 64 n with
    | Some z => Some (Claims (c_sandbox c) (c_session c) (c_route c) z (c_typ c))
    | None => None
    end
  | Some FExp, _ => None
  | Some FSandbox, JStr s => Some (Claims s (c_session c) (c_route c) (c_exp c) (c_typ c))
  | Some FSession, JStr s => Some (Claims (c_sandbox c) s (c_route c) (c_exp c) (c_typ c))
  | Some FRoute, JStr s => Some (Claims (c_sandbox c) (c_session c) s (c_exp c) (c_typ c))
  | Some FTyp, JStr s => Some (Claims (c_sandbox c) (c_session c) (c_route c) (c_exp c) s)
  | Some _, _ => None
  end.

Fixpoint set_claims (c : claims) (ms : list (gostr * json)) : option claims :=
  match ms with
  | [] => Some c
  | m :: ms' => match set_claim c m with Some c' => set_claims c' ms' | None => None end
  end.

(** [Decode] into a [claims] with unknown fields refused, then [Token] at the
    end of the input. *)
Definition decode_claims (blob : gostr) : option claims :=
  match json_parse blob with
  | Some (JObj ms) => set_claims no_claims ms
  | Some JNull => Some no_claims
  | _ => None
  end.

(** ** Times *)

Definition wrap64 (z : Z) : Z := (z + 2 ^ 63) mod 2 ^ 64 - 2 ^ 63.

(** Seconds between year 1 and 1970: [time.Unix] counts from year 1 in an
    [int64]. *)
Definition unixToInternal : Z := 62135596800.

(** [time.Unix(sec, 0)], in nanoseconds since 1970. *)
Definition time_unix (sec : Z) : Z := (wrap64 (sec + unixToInternal) - unixToInternal) * second.

(** [t.Unix()]. *)
Definition unix_of (t : Z) : Z := t / second.

(** ** Minting and verifying *)

Definition dot : gostr := lit ".".

Section Token.
Variable hmac : gostr -> gostr -> gostr.
Variable hkdf : gostr -> gostr -> gostr.

Definition sandboxKey (hostKey sandbox nonce : gostr) : gostr :=
  hkdf hostKey (lit "brig-sandbox:" ++ sandbox ++ lit ":" ++ nonce).

Definition sign (key blob : gostr) : gostr := hmac key blob.

Definition mint (key : gostr) (c : claims) : gostr :=
  let blob := marshal c in
  raw_url_encode blob ++ dot ++ raw_url_encode (sign key blob).

(** [verify(key, token, sandbox, route, now)]. *)
Definition verify (key token sandbox route : gostr) (now : Z) : res token_error claims :=
  let '(body, mac, ok) := cut token dot in
  if negb ok || bool_decide (body = []) || bool_decide (mac = []) || contains mac dot
  then Err errTokenMissing
  else
    match raw_url_decode_strict body with
    | None => Err errTokenMissing
    | Some blob =>
      match raw_url_decode_strict mac with
      | None => Err errTokenMissing
      | Some got =>
        if negb (bool_decide (got = sign key blob)) then Err errTokenSignature
        else
          match decode_claims blob with
          | None => Err errTokenSignature
          | Some c =>
            if negb (bool_decide (c_typ c = tokenType)) then Err errTokenSignature
            else if negb (bool_decide (c_sandbox c = sandbox)) then Err errTokenSandbox
            else if negb (bool_decide (c_route c = route)) then Err errTokenRoute
            else if negb (now <? time_unix (c_exp c)) then Err errTokenExpired
            else Ok c
          end
      end
    end.
End Token.

(** ** The JSON round trip *)

(** The claims as they are read back: their strings without the bytes that are
    no rune. *)
Definition valid_claims (c : claims) : claims :=
  Claims (to_valid (c_sandbox c)) (to_valid (c_session c)) (to_valid (c_route c))
    (c_exp c) (to_valid (c_typ c)).

Lemma json_parse_marshal c :
  json_parse (marshal c) = Some (JObj
    [(lit "sandbox", JStr (to_valid (c_sandbox c))); (lit "session", JStr (to_valid (c_session c)));
     (lit "route", JStr (to_valid (c_route c))); (lit "exp", JNum (itoa (c_exp c)));
     (lit "typ", JStr (to_valid (c_typ c)))]).
Proof.
  unfold json_parse.
  assert (exists k, S (2 * length (marshal c)) = 12 + k)%nat as [k ->].
  { exists (S (2 * length (marshal c)) - 12)%nat. unfold marshal. rewrite length_app. cbn [length lit String.list_ascii_of_string].
    rewrite length_app. unfold json_key, json_quote. cbn [length]. rewrite !length_app. cbn [length]. 
    cbn. lia. }
  unfold marshal. cbn [Nat.add lit String.list_ascii_of_string app].
  change (json_value (S ?n) 0 ("{"%char :: ?s))
    with (match json_members n 1 s with Some (m, r) => Some (JObj m, r) | None => None end).
  rewrite (json_members_more _ 1 (lit "sandbox") (json_quote _) (JStr (to_valid (c_sandbox c)))) by apply json_value_quote.
  rewrite (json_members_more _ 1 (lit "session") (json_quote _) (JStr (to_valid (c_session c)))) by apply json_value_quote.
  rewrite (json_members_more _ 1 (lit "route") (json_quote _) (JStr (to_valid (c_route c)))) by apply json_value_quote.
  rewrite (json_members_more _ 1 (lit "exp") (itoa _) (JNum (itoa (c_exp c)))) by (apply json_value_number; reflexivity).
  rewrite (json_members_last _ 1 (lit "typ") (json_quote _) (JStr (to_valid (c_typ c))) []) by apply json_value_quote.
  reflexivity.
Qed.

Lemma decode_marshal c :
  - 2 ^ 63 <= c_exp c < 2 ^ 63 -> decode_claims (marshal c) = Some (valid_claims c).
Proof.
  intros Hz. unfold decode_claims. rewrite json_parse_marshal.
  assert (forall x v, set_claim x (lit "exp", JNum v) = match parse_int 64 v with
    | Some z => Some (Claims (c_sandbox x) (c_session x) (c_route x) z (c_typ x))
    | None => None end) as He by reflexivity.
  set (i := itoa (c_exp c)) in *. cbn [set_claims].
  change (set_claim no_claims (lit "sandbox", JStr ?v)) with (Some (Claims v [] [] 0 [])). cbv iota.
  change (set_claim (Claims ?a [] [] 0 []) (lit "session", JStr ?v)) with (Some (Claims a v [] 0 [])). cbv iota.
  change (set_claim (Claims ?a ?b [] 0 []) (lit "route", JStr ?v)) with (Some (Claims a b v 0 [])). cbv iota.
  rewrite He. subst i. change (2 ^ 63) with (2 ^ (64 - 1)) in Hz. rewrite parse_int_itoa by exact Hz.
  cbn [c_sandbox c_session c_route c_typ].
  change (set_claim (Claims ?a ?b ?d ?e []) (lit "typ", JStr ?v)) with (Some (Claims a b d e v)). done.
Qed.

(** ** What the parts of a token hold *)

Lemma sym_not_dot v : 0 <= v < 64 -> sym url_alphabet v <> "."%char.
Proof.
  intros Hv E. assert (unsym url_alphabet "."%char = Some v) as H by (rewrite <- E; by apply unsym_sym).
  vm_compute in H. done.
Qed.

Lemma encode_raw_forall (P : byte -> Prop) s :
  (forall v, 0 <= v < 64 -> P (sym url_alphabet v)) -> Forall P (encode_raw url_alphabet s).
Proof.
  intros HP. apply Forall_forall. intros x [j Hj]%list_elem_of_lookup.
  assert (j < raw_length (length s))%nat as Hlt.
  { rewrite <- (encode_raw_length url_alphabet). by eapply lookup_lt_Some. }
  rewrite encode_raw_lookup in Hj by done. injection Hj as <-. apply HP, sextet_range.
Qed.

Lemma raw_url_encode_no_dot s : "."%char ∉ raw_url_encode s.
Proof.
  intros Hin. pose proof (encode_raw_forall (fun c => c <> "."%char) s sym_not_dot) as H.
  rewrite Forall_forall in H. by apply (H _ Hin).
Qed.

Lemma raw_url_encode_nil s : raw_url_encode s = [] -> s = [].
Proof.
  intros H. pose proof (raw_url_decode_encode s) as Hd. rewrite H in Hd. by injection Hd.
Qed.

Definition no_newline (c : byte) : Prop := is_newline c = false.

Section Verify.
Variable hmac : gostr -> gostr -> gostr.

(** What a token holds when [verify] gets to its signature. *)
Definition token_parts (token blob got : gostr) : Prop :=
  exists body mac, token = body ++ dot ++ mac /\ body <> [] /\ mac <> [] /\ "."%char ∉ body /\
    "."%char ∉ mac /\ raw_url_decode_strict body = Some blob /\ raw_url_decode_strict mac = Some got.

Definition check_claims (sandbox route : gostr) (now : Z) (c : claims) : res token_error claims :=
  if negb (bool_decide (c_typ c = tokenType)) then Err errTokenSignature
  else if negb (bool_decide (c_sandbox c = sandbox)) then Err errTokenSandbox
  else if negb (bool_decide (c_route c = route)) then Err errTokenRoute
  else if negb (now <? time_unix (c_exp c)) then Err errTokenExpired
  else Ok c.

Definition check_blob (key sandbox route : gostr) (now : Z) (blob got : gostr) : res token_error claims :=
  if negb (bool_decide (got = sign hmac key blob)) then Err errTokenSignature
  else match decode_claims blob with
       | None => Err errTokenSignature
       | Some c => check_claims sandbox route now c
       end.

Lemma verify_cases key token sandbox route now :
  (verify hmac key token sandbox route now = Err errTokenMissing /\
     forall blob got, ~ token_parts token blob got) \/
  (exists blob got, token_parts token blob got /\
     verify hmac key token sandbox route now = check_blob key sandbox route now blob got).
Proof.
  unfold verify, cut, contains, dot. change (lit ".") with ["."%char].
  destruct (cut_at ["."%char] token) as [[body mac]|] eqn:E.
  2:{ left. split; [done|]. intros blob got (b & m & -> & _ & _ & _). apply cut_at_byte in E.
      apply E. rewrite elem_of_app. right. left. }
  apply cut_at_byte_inv in E as [-> Hb]. cbn [negb orb].
  assert (forall blob got, token_parts (body ++ "."%char :: mac) blob got ->
    body <> [] /\ mac <> [] /\ "."%char ∉ mac /\ raw_url_decode_strict body = Some blob /\
    raw_url_decode_strict mac = Some got) as Hparts.
  { intros blob got (b & m & Heq & Hb0 & Hm0 & Hb' & Hm' & Hd1 & Hd2).
    change (dot ++ m) with ("."%char :: m) in Heq.
    pose proof (cut_at_byte_app "."%char body mac Hb) as H1. rewrite Heq in H1.
    rewrite (cut_at_byte_app "."%char b m Hb') in H1. injection H1 as -> ->. done. }
  destruct (bool_decide (body = [])) eqn:E1; cbn [orb].
  { apply bool_decide_eq_true in E1. left. split; [done|]. intros ? ? (? & _)%Hparts. done. }
  destruct (bool_decide (mac = [])) eqn:E2; cbn [orb].
  { apply bool_decide_eq_true in E2. left. split; [done|]. intros ? ? (_ & ? & _)%Hparts. done. }
  apply bool_decide_eq_false in E1. apply bool_decide_eq_false in E2.
  destruct (cut_at ["."%char] mac) as [[x y]|] eqn:E3.
  { left. split; [done|]. intros ? ? (_ & _ & Hm & _)%Hparts. apply cut_at_byte in Hm. congruence. }
  apply cut_at_byte in E3.
  destruct (raw_url_decode_strict body) as [blob|] eqn:Ed1.
  2:{ left. split; [done|]. intros ? ? (_ & _ & _ & ? & _)%Hparts. done. }
  destruct (raw_url_decode_strict mac) as [got|] eqn:Ed2.
  2:{ left. split; [done|]. intros ? ? (_ & _ & _ & _ & ?)%Hparts. done. }
  right. exists blob, got. split; [|done]. exists body, mac. done.
Qed.

Lemma token_parts_unique token b1 g1 b2 g2 :
  token_parts token b1 g1 -> token_parts token b2 g2 -> b1 = b2 /\ g1 = g2.
Proof.
  intros (x & y & Ht & _ & _ & Hx & _ & Hd & He) (x' & y' & Ht' & _ & _ & Hx' & _ & Hd' & He').
  pose proof (cut_at_byte_app "."%char x y Hx) as H1. pose proof (cut_at_byte_app "."%char x' y' Hx') as H2.
  rewrite Ht in Ht'. unfold dot in Ht'. cbn [app lit String.list_ascii_of_string] in Ht'.
  rewrite Ht', H2 in H1. injection H1 as -> ->. split; congruence.
Qed.

Lemma verify_parts key token sandbox route now blob got :
  token_parts token blob got ->
  verify hmac key token sandbox route now = check_blob key sandbox route now blob got.
Proof.
  intros Hp. destruct (verify_cases key token sandbox route now) as [[_ H]|(b & g & Hp' & H)].
  - exfalso. by apply (H blob got).
  - by destruct (token_parts_unique _ _ _ _ _ Hp Hp') as [-> ->].
Qed.

Context (hmac_size : forall k b, length (hmac k b) = 32%nat).

Lemma mint_parts key c : token_parts (mint hmac key c) (marshal c) (hmac key (marshal c)).
Proof using hmac_size.
  exists (raw_url_encode (marshal c)), (raw_url_encode (sign hmac key (marshal c))).
  split_and!; try apply raw_url_encode_no_dot; try apply raw_url_decode_encode; [done | |].
  - intros H%raw_url_encode_nil. unfold marshal in H. done.
  - intros H%raw_url_encode_nil. unfold sign in H. pose proof (hmac_size key (marshal c)) as Hs.
    rewrite H in Hs. done.
Qed.

Lemma verify_mint_eq key key' c sandbox route now :
  - 2 ^ 63 <= c_exp c < 2 ^ 63 ->
  verify hmac key' (mint hmac key c) sandbox route now
  = if bool_decide (hmac key (marshal c) = hmac key' (marshal c))
    then check_claims sandbox route now (valid_claims c) else Err errTokenSignature.
Proof using hmac_size.
  intros Hz. rewrite (verify_parts _ _ _ _ _ _ _ (mint_parts key c)).
  unfold check_blob, sign. rewrite decode_marshal by done.
  destruct (bool_decide _); done.
Qed.

Lemma verify_ok key token sandbox route now c :
  verify hmac key token sandbox route now = Ok c ->
  exists blob, token_parts token blob (hmac key blob) /\ decode_claims blob = Some c /\
    c_typ c = tokenType /\ c_sandbox c = sandbox /\ c_route c = route /\ now < time_unix (c_exp c).
Proof.
  intros H. destruct (verify_cases key token sandbox route now) as [[He _]|(blob & got & Hp & He)];
    rewrite He in H; [done|].
  unfold check_blob in H. destruct (negb _) eqn:E; [done|]. bool_inv. subst got.
  destruct (decode_claims blob) as [c'|] eqn:Ed; [|done]. unfold check_claims in H.
  destruct (negb (bool_decide (c_typ _ = _))) eqn:E1; [done|].
  destruct (negb (bool_decide (c_sandbox _ = _))) eqn:E2; [done|].
  destruct (negb (bool_decide (c_route _ = _))) eqn:E3; [done|].
  destruct (negb (now <? _)) eqn:E4; [done|]. injection H as ->. bool_inv. apply Z.ltb_lt in E4.
  exists blob. done.
Qed.
End Verify.

(** A part of a token is of the alphabet, or a line break. *)
Lemma decode_quanta_alphabet s t :
  decode_quanta url_alphabet s = Some t -> Forall (fun c => is_Some (unsym url_alphabet c)) s.
Proof.
  revert s t. fix IH 1. intros [|c0 [|c1 [|c2 [|c3 s]]]] t; cbn [decode_quanta]; [constructor|done| | |].
  - destruct (unsym url_alphabet c0) eqn:?, (unsym url_alphabet c1) eqn:?; try done. intros _. repeat constructor; eauto.
  - destruct (unsym url_alphabet c0) eqn:?, (unsym url_alphabet c1) eqn:?, (unsym url_alphabet c2) eqn:?; try done.
    intros _. repeat constructor; eauto.
  - destruct (unsym url_alphabet c0) eqn:?, (unsym url_alphabet c1) eqn:?, (unsym url_alphabet c2) eqn:?,
      (unsym url_alphabet c3) eqn:?, (decode_quanta url_alphabet s) as [r|] eqn:E; try done.
    intros _. apply IH in E. repeat constructor; eauto.
Qed.

Lemma decode_strict_no_comma s t : raw_url_decode_strict s = Some t -> ","%char ∉ s.
Proof.
  intros H%decode_quanta_alphabet Hin. rewrite Forall_forall in H. destruct (H ","%char) as [v Hv]; [|by vm_compute in Hv].
  apply list_elem_of_filter. done.
Qed.

(** What [verify] takes is not empty and holds no comma. *)
Lemma verify_no_comma (hmac : gostr -> gostr -> gostr) key token sandbox route now c :
  verify hmac key token sandbox route now = Ok c -> token <> [] /\ ","%char ∉ token.
Proof.
  intros (blob & (body & mac & -> & Hb & _ & _ & _ & H1 & H2) & _)%verify_ok. split.
  - destruct body; done.
  - rewrite !elem_of_app. intros [H|[H|H]].
    + by apply (decode_strict_no_comma _ _ H1).
    + apply list_elem_of_singleton in H. done.
    + by apply (decode_strict_no_comma _ _ H2).
Qed.

(** ** Properties *)

(** C19: A token that [mint] makes verifies under a key with the same signature,
    for its own sandbox and route and until its expiry, and [verify] returns
    the claims it was minted from; every other sandbox, route, time or
    signature gets the error of the first check that fails. *)
Theorem verify_mint (hmac : gostr -> gostr -> gostr) (hmac_size : forall k b, length (hmac k b) = 32%nat)
    (key key' : gostr) (c : claims) (sandbox route : gostr) (now : Z)
    (Hexp : - 2 ^ 63 <= c_exp c < 2 ^ 63) (Hvalid : valid_claims c = c) (Htyp : c_typ c = tokenType) :
  verify hmac key' (mint hmac key c) sandbox route now =
    if decide (hmac key (marshal c) = hmac key' (marshal c)) then
      if decide (c_sandbox c = sandbox) then
        if decide (c_route c = route) then
          if now <? time_unix (c_exp c) then Ok c else Err errTokenExpired
        else Err errTokenRoute
      else Err errTokenSandbox
    else Err errTokenSignature.
Proof.
  rewrite verify_mint_eq, Hvalid by done. unfold check_claims.
  rewrite (bool_decide_eq_true_2 _ Htyp). cbn [negb].
  repeat case_decide; repeat case_bool_decide; try done. by destruct (now <? _).
Qed.

(** A stand-in for HMAC-SHA256 of the right size: the key and the length of the
    text. *)
Definition example_hmac (k b : gostr) : gostr := take 32 (k ++ utoa (Z.of_nat (length b)) ++ replicate 32 "x"%char).

Lemma example_hmac_size k b : length (example_hmac k b) = 32%nat.
Proof. unfold example_hmac. rewrite length_take, !length_app, length_replicate. lia. Qed.

Definition example_claims : claims :=
  Claims (lit "s1") (lit "a <b>") (lit "anthropic") 1700000000 tokenType.

Example verify_mint_witness :
  verify example_hmac (lit "k") (mint example_hmac (lit "k") example_claims) (lit "s1") (lit "anthropic")
    1699999999999999999 = Ok example_claims.
Proof.
  rewrite (verify_mint example_hmac example_hmac_size).
  - vm_compute. reflexivity.
  - cbn. lia.
  - vm_compute. reflexivity.
  - reflexivity.
Defined.

(** C25: What [verify] accepts was signed: the token is the two base64url parts
    of some claims and of their HMAC under the sandbox's key, the claims name
    the sandbox, the route and the token type, and they have not expired.  A
    token without line breaks is the one spelling of its claims' bytes. *)
Theorem verify_sound (hmac : gostr -> gostr -> gostr) (key token sandbox route : gostr) (now : Z) (c : claims)
    (H : verify hmac key token sandbox route now = Ok c) :
  exists blob, decode_claims blob = Some c /\ token_parts token blob (hmac key blob) /\
    c_typ c = tokenType /\ c_sandbox c = sandbox /\ c_route c = route /\ now < time_unix (c_exp c) /\
    (Forall no_newline token -> token = raw_url_encode blob ++ dot ++ raw_url_encode (hmac key blob)).
Proof.
  apply verify_ok in H as (blob & Hp & Hd & Ht & Hs & Hr & He). exists blob. split_and!; try done.
  intros Hn. destruct Hp as (body & mac & -> & _ & _ & _ & _ & H1 & H2).
  apply Forall_app in Hn as [Hb Hn]. apply Forall_app in Hn as [_ Hm].
  by rewrite (raw_url_decode_canonical body blob), (raw_url_decode_canonical mac _ Hm H2).
Qed.

Example verify_sound_witness :
  exists blob, decode_claims blob = Some example_claims /\
    token_parts (mint example_hmac (lit "k") example_claims) blob (example_hmac (lit "k") blob).
Proof.
  destruct (verify_sound example_hmac (lit "k") (mint example_hmac (lit "k") example_claims)
    (lit "s1") (lit "anthropic") 1699999999999999999 example_claims) as (blob & Hd & Hp & _).
  - vm_compute. reflexivity.
  - exists blob. split; assumption.
Defined.

(** A token has more than one accepted spelling: the base64 decoder passes
    over line breaks, in strict mode too, so the same token with a line feed
    after it verifies as well. *)
Lemma verify_newline (hmac : gostr -> gostr -> gostr) (key token sandbox route : gostr) (now : Z) (c : claims)
    (H : verify hmac key token sandbox route now = Ok c) :
  verify hmac key (token ++ [zb 10]) sandbox route now = Ok c.
Proof.
  pose proof (verify_ok _ _ _ _ _ _ _ H) as (blob & Hp & _).
  rewrite <- H, (verify_parts hmac key token _ _ _ _ _ Hp). apply verify_parts.
  destruct Hp as (body & mac & -> & Hb0 & Hm0 & Hb & Hm & Hd & He).
  exists body, (mac ++ [zb 10]). split_and!; try done.
  - by rewrite <- !app_assoc.
  - by intros [_ ?]%app_eq_nil.
  - rewrite elem_of_app. intros [?|Hx]; [done|]. apply list_elem_of_singleton in Hx. done.
  - unfold raw_url_decode_strict, skip_newlines in *. rewrite filter_app.
    change (filter _ [zb 10]) with (@nil byte). by rewrite app_nil_r.
Qed.

Example verify_newline_witness :
  verify example_hmac (lit "k") (mint example_hmac (lit "k") example_claims ++ [zb 10])
    (lit "s1") (lit "anthropic") 1699999999999999999 = Ok example_claims.
Proof. apply (verify_newline example_hmac). vm_compute. reflexivity. Defined.
