(* ===== verification/Inject.v ===== *)
(** * Credentials and headers (internal/broker/inject.go)

    What a route takes from a secret, where it reads the session token of a
    request, and how it edits the headers that go upstream. *)

From stdpp Require Import prelude list strings gmap.
From Stdlib Require Import ZArith Lia ZifyNat Ascii.
From S2P Require Import Prelude GoUnicode GoStrings GoNum GoJson GoHttp Base64 RouteTypes.

Local Open Scope Z_scope.

(** [errCredentialShape] is the one error of this file. *)
Inductive shape_error := errCredentialShape.

#[export] Instance shape_error_eq_dec : EqDecision shape_error.
Proof. solve_decision. Defined.

(** ** Documents *)

(** [json.Unmarshal] into an [any] refuses a number no [float64] holds.  The
    literal's digits and decimal exponent decide: the least value refused is
    halfway above the largest double. *)
Definition float_parts (lit_ : gostr) : Z * Z :=
  let s := match lit_ with c :: t => if Ascii.eqb c "-" then t else lit_ | [] => [] end in
  let '(i, s1) := span_digits s in
  let '(f, s2) := match s1 with c :: t => if Ascii.eqb c "." then span_digits t else ([], s1) | [] => ([], []) end in
  let e := match s2 with
           | _ :: x :: t => let '(neg, d) := if is_sign x then (Ascii.eqb x "-", t) else (false, x :: t) in
                            let v := default 0 (value_of 0 d) in if (neg : bool) then - v else v
           | _ => 0
           end in
  (default 0 (value_of 0 (i ++ f)), e - Z.of_nat (length f)).

Definition float_overflow (lit_ : gostr) : bool :=
  let '(m, e) := float_parts lit_ in
  let limit := 2 ^ 1024 - 2 ^ 970 in
  if m =? 0 then false
  else if 0 <=? e then if 400 <? e then true else limit <=? m * 10 ^ e
  else limit * 10 ^ (- e) <=? m.

Fixpoint numbers_fit (v : json) : bool :=
  match v with
  | JNum n => negb (float_overflow n)
  | JArr l => (fix go l := match l with [] => true | x :: l' => numbers_fit x && go l' end) l
  | JObj ms => (fix go l := match l with [] => true | (_, x) :: l' => numbers_fit x && go l' end) ms
  | _ => true
  end.

Definition unmarshal_any (doc : gostr) : option json :=
  match json_parse doc with
  | Some v => if numbers_fit v then Some v else None
  | None => None
  end.

(** The value of a key of a decoded object: the last member of that name. *)
Definition obj_get (ms : list (gostr * json)) (key : gostr) : option json :=
  foldl (fun acc m => if bool_decide (m.1 = key) then Some m.2 else acc) None ms.

Fixpoint walkPath (node : json) (path : list gostr) : option json :=
  match path with
  | [] => Some node
  | key :: path' =>
    match node with
    | JObj ms => match obj_get ms key with Some v => walkPath v path' | None => None end
    | _ => None
    end
  end.

Definition dot_byte : byte := "."%char.

Definition asString (v : json) : res shape_error gostr :=
  match v with JStr s => Ok s | _ => Err errCredentialShape end.

(** What one member contributes to [collect]: its value, or what its rest of the
    path leads to. *)
Definition selected (name k : gostr) (v : json) : list json :=
  let '(hd, rest, dotted) := cut name (lit ".") in
  if bool_decide (k = name) then [v]
  else if dotted && bool_decide (k = hd) then
    match walkPath v (split_byte dot_byte rest) with Some got => [got] | None => [] end
  else [].

Section Field.
(** The order in which a map is ranged over: some permutation of its
    entries, which need not be the same for each map. *)
Variable order : forall A, list (gostr * A) -> list (gostr * A).

Fixpoint collect (name : gostr) (node : json) : list json :=
  match node with
  | JObj ms =>
    concat (snd <$> order (list json)
      ((fix go (ms : list (gostr * json)) : list (gostr * list json) :=
          match ms with
          | [] => []
          | (k, v) :: ms' =>
            if mem k (fst <$> ms') then go ms' else (k, selected name k v ++ collect name v) :: go ms'
          end) ms))
  | JArr l => (fix go (l : list json) : list json :=
      match l with [] => [] | v :: l' => collect name v ++ go l' end) l
  | _ => []
  end.

(** Every value found is the same string. *)
Definition one_string (found : list json) : res shape_error gostr :=
  match found with
  | [] => Err errCredentialShape
  | v :: vs =>
    match asString v with
    | Err e => Err e
    | Ok first => if forallb (fun v => bool_decide (asString v = Ok first)) vs then Ok first else Err errCredentialShape
    end
  end.

Definition field (root : json) (name : gostr) : res shape_error gostr :=
  match walkPath root (split_byte dot_byte name) with
  | Some v => asString v
  | None =>
    match (match root with JObj ms => obj_get ms name | _ => None end) with
    | Some v => asString v
    | None => one_string (collect name root)
    end
  end.

(** A byte no header value takes. *)
Definition control_byte (c : byte) : bool := (bz c <? 32) || (bz c =? 127).

Definition trim_newline (v : gostr) : gostr :=
  match strip_suffix [zb 10] v with Some s => trim_suffix s [zb 13] | None => v end.

Definition credentialValue (c : CredentialRef) (doc : gostr) : res shape_error gostr :=
  let v :=
    if bool_decide (cd_field c = []) then Ok doc
    else match unmarshal_any doc with
         | None => Err errCredentialShape
         | Some root => field root (cd_field c)
         end in
  let? v := v in
  let v := trim_newline v in
  if bool_decide (v = []) || existsb control_byte v then Err errCredentialShape else Ok v.
End Field.

(** ** The session token *)

(** [base64.StdEncoding.DecodeString]. *)
Fixpoint std_decode_quanta (s : gostr) : option gostr :=
  match s with
  | [] => Some []
  | c0 :: c1 :: c2 :: c3 :: s' =>
    match unsym std_alphabet c0, unsym std_alphabet c1 with
    | Some v0, Some v1 =>
      let b0 := zb (Z.lor (Z.shiftl v0 2) (Z.shiftr v1 4)) in
      match unsym std_alphabet c2, unsym std_alphabet c3 with
      | Some v2, Some v3 =>
        match std_decode_quanta s' with
        | Some r => Some (b0 :: zb (Z.lor (Z.shiftl v1 4) (Z.shiftr v2 2)) :: zb (Z.lor (Z.shiftl v2 6) v3) :: r)
        | None => None
        end
      | Some v2, None =>
        if Ascii.eqb c3 "=" && bool_decide (s' = [])
        then Some [b0; zb (Z.lor (Z.shiftl v1 4) (Z.shiftr v2 2))] else None
      | None, _ =>
        if Ascii.eqb c2 "=" && Ascii.eqb c3 "=" && bool_decide (s' = []) then Some [b0] else None
      end
    | _, _ => None
    end
  | _ => None
  end.
Definition std_decode (s : gostr) : option gostr := std_decode_quanta (skip_newlines s).

(** [r.BasicAuth()] of a request with this [Authorization]. *)
Definition BasicAuth_of (auth : gostr) : option (gostr * gostr) :=
  if (length auth <? 6)%nat || negb (bool_decide (lower_byte <$> take 6 auth = lit "basic ")) then None
  else match std_decode (drop 6 auth) with
       | None => None
       | Some c => cut_at (lit ":") c
       end.

Definition Authorization : gostr := lit "Authorization".

(** The bearer token of an [Authorization] value. *)
Definition bearer (auth : gostr) : option gostr :=
  match cut_at (lit " ") auth with
  | Some (scheme, tok) => if equal_fold scheme (lit "Bearer") then Some (trim_space tok) else None
  | None => None
  end.

(** The loop over [headers.set]. *)
Fixpoint set_token (vends : bool) (auth : gostr) (h : header) (set : list Header) : gostr :=
  match set with
  | [] => []
  | s :: set' =>
    if equal_fold (hd_name s) Authorization then
      if vends && bool_decide (hd_value s = PlaceholderValue) && negb (bool_decide (auth = []))
         && negb (contains auth (lit " "))
      then auth else set_token vends auth h set'
    else
      let got := h_get h (hd_name s) in
      match cut_at PlaceholderValue (hd_value s) with
      | None => set_token vends auth h set'
      | Some (prefix, suffix) =>
        if bool_decide (got = []) then set_token vends auth h set'
        else
          match strip_prefix prefix got with
          | None => set_token vends auth h set'
          | Some tok =>
            match strip_suffix suffix tok with
            | Some tok => if bool_decide (tok = []) then set_token vends auth h set' else tok
            | None => set_token vends auth h set'
            end
          end
      end
  end.

(** The [Inject] of a route that reached the broker; a nil one would panic. *)
Definition inject_of (spec : Route) : Inject := default (MkInject None None None) (rt_inject spec).
Definition set_of (i : Inject) : list Header :=
  match in_headers i with Some h => elems (hi_set h) | None => [] end.

Definition sessionToken (spec : Route) (h : header) : gostr :=
  let i := inject_of spec in
  let auth := h_get h Authorization in
  match bearer auth with
  | Some tok => tok
  | None =>
    match (if is_nil (in_basicAuth i) then None else BasicAuth_of auth) with
    | Some (_, pass) => pass
    | None => set_token (Vends spec) auth h (set_of i)
    end
  end.

(** ** Editing the headers *)

Definition droppedNames : list gostr :=
  [lit "forwarded"; lit "via"; lit "x-real-ip";
   lit "x-http-method-override"; lit "x-http-method"; lit "x-method-override";
   lit "x-original-url"; lit "x-rewrite-url"; lit "x-original-method";
   lit "accept-encoding"].

Definition fold (name : gostr) : gostr := replace_all (lit "_") (lit "-") (to_lower name).

(** The header is dropped by its name, or by a value that holds the token. *)
Definition dropped_name (rules : list gostr) (name : gostr) : bool :=
  let f := fold name in
  contains name (lit "_")
  || has_prefix f (lit "x-forwarded-") || has_prefix f (lit "x-brig-") || has_prefix f (lit "proxy-")
  || mem f droppedNames || mem f rules.

Definition holds_token (token : gostr) (values : list gostr) : bool :=
  existsb (fun v => negb (bool_decide (token = [])) && contains v token) values.

(** One turn of the range over the header, on the entry as it is by then. *)
Definition drop_turn (rules : list gostr) (token : gostr) (h : header) (name : gostr) : header :=
  match h !! name with
  | None => h
  | Some values =>
    let canon := CanonicalHeaderKey name in
    if dropped_name rules name || holds_token token values then delete name h
    else if bool_decide (canon = name) then h
    else
      let h := delete name h in
      <[canon := default [] (h !! canon) ++ values]> h
  end.

(** The loop of [filterValues]: the values kept, each once, and how many were
    dropped. *)
Definition filter_item (allowed : list gostr) (acc : list gostr * nat) (item : gostr) : list gostr * nat :=
  let '(keep, dropped) := acc in
  let item := trim_space item in
  if bool_decide (item = []) then acc
  else if mem item allowed then (if mem item keep then acc else (keep ++ [item], dropped))
  else (keep, S dropped).

Definition filterValues (h : header) (a : HeaderAllow) : header * nat :=
  let values := h_values h (ha_name a) in
  if bool_decide (values = []) then (h, 0%nat)
  else
    let '(keep, dropped) :=
      foldl (filter_item (elems (ha_values a))) ([], 0%nat) (values ≫= split_byte ","%char) in
    let h := h_del h (ha_name a) in
    (if bool_decide (keep = []) then h else h_set h (ha_name a) (join (lit ",") keep), dropped).

Definition filter_all (h : header) (allowed : list HeaderAllow) : header * gmap gostr nat :=
  foldl (fun acc a =>
    let '(h, dropped) := acc in
    let '(h', n) := filterValues h a in
    (h', if (0 <? n)%nat then <[CanonicalHeaderKey (ha_name a) := n]> dropped else dropped)) (h, ∅) allowed.

Definition drop_rules (i : Inject) : list gostr :=
  lit "authorization" ::
  match in_headers i with
  | None => []
  | Some hi => (fold <$> elems (hi_remove hi)) ++ (fold ∘ hd_name <$> elems (hi_set hi))
  end.

(** [dropGuestHeaders].  [visit] is the order in which the range visits the
    names: every name the header had, and any of those the loop added. *)
Definition dropGuestHeaders (i : Inject) (h : header) (token : gostr) (visit : list gostr)
    : header * gmap gostr nat :=
  let h := foldl (drop_turn (drop_rules i) token) h visit in
  filter_all h (match in_headers i with Some hi => elems (hi_allow hi) | None => [] end).

Definition injectCredential (i : Inject) (h : header) (value : gostr) : header :=
  let h := foldl (fun h s => h_set h (hd_name s) (replace_first PlaceholderValue value (hd_value s))) h (set_of i) in
  match in_basicAuth i with
  | Some b => h_set h Authorization (lit "Basic " ++ std_encode (ba_username b ++ lit ":" ++ value))
  | None => h
  end.

(** ** The order of a map does not matter *)

Definition permutes (order : forall A, list (gostr * A) -> list (gostr * A)) : Prop :=
  forall A l, Permutation (order A l) l.

Lemma concat_Permutation {A} (l1 l2 : list (list A)) : Permutation l1 l2 -> Permutation (concat l1) (concat l2).
Proof.
  induction 1 as [|x l1 l2 _ IH|x y l|l1 l2 l3 _ IH1 _ IH2]; cbn [concat]; [done| | |].
  - by rewrite IH.
  - rewrite !app_assoc. by rewrite (Permutation_app_comm x y).
  - by rewrite IH1.
Qed.

(** Lists of lists that agree up to the order inside each. *)
Lemma concat_Forall2 {A} (l1 l2 : list (list A)) :
  Forall2 Permutation l1 l2 -> Permutation (concat l1) (concat l2).
Proof. induction 1 as [|x y l1 l2 Hxy _ IH]; [done|]. cbn [concat]. by rewrite Hxy, IH. Qed.

Lemma collect_order o1 o2 name v :
  permutes o1 -> permutes o2 -> Permutation (collect o1 name v) (collect o2 name v).
Proof.
  intros H1 H2. induction v as [| | | |l Hl|ms Hms] using json_nested_ind; try done; cbn [collect].
  - induction Hl as [|x l Hx Hl IH]; [done|]. by rewrite Hx, IH.
  - rewrite (concat_Permutation _ _ (fmap_Permutation snd _ _ (H1 _ _))).
    rewrite (concat_Permutation _ _ (fmap_Permutation snd _ _ (H2 _ _))).
    apply concat_Forall2. induction Hms as [|[k x] ms Hx Hms IH]; [constructor|]. cbn [snd] in Hx.
    destruct (mem k (fst <$> ms)); [done|]. cbn [fmap list_fmap]. constructor; [|done]. cbn [snd]. by rewrite Hx.
Qed.

(** [one_string] sees the values found as a set. *)
Lemma one_string_Ok found s :
  one_string found = Ok s <-> found <> [] /\ Forall (fun v => asString v = Ok s) found.
Proof.
  unfold one_string. destruct found as [|v vs]; [by split; [|intros [? _]]|].
  rewrite Forall_cons. destruct (asString v) as [first|e] eqn:E.
  - destruct (forallb _ vs) eqn:Ef.
    + rewrite forallb_true in Ef. split.
      * intros [= <-]. split_and!; [done|done|]. eapply Forall_impl; [exact Ef|].
        intros x Hx. by apply bool_decide_eq_true in Hx.
      * by intros (_ & [= <-] & _).
    + split; [done|]. intros (_ & [= <-] & H). exfalso.
      assert (forallb (fun v => bool_decide (asString v = Ok first)) vs = true); [|congruence].
      apply forallb_true. eapply Forall_impl; [exact H|]. intros x Hx. by apply bool_decide_eq_true.
  - split; [done|]. intros (_ & ? & _). done.
Qed.

Lemma one_string_perm l1 l2 : Permutation l1 l2 -> one_string l1 = one_string l2.
Proof.
  intros H. destruct (one_string l2) as [s|[]] eqn:E2.
  - apply one_string_Ok in E2 as [Hne Hall]. apply one_string_Ok. split.
    + intros ->. apply Permutation_nil in H. done.
    + by rewrite H.
  - destruct (one_string l1) as [s|[]] eqn:E1; [|done]. exfalso.
    apply one_string_Ok in E1 as [Hne Hall]. assert (one_string l2 = Ok s); [|congruence].
    apply one_string_Ok. split; [|by rewrite <- H]. intros ->. by apply Permutation_sym, Permutation_nil in H.
Qed.

Lemma field_order o1 o2 root name :
  permutes o1 -> permutes o2 -> field o1 root name = field o2 root name.
Proof.
  intros H1 H2. unfold field. destruct (walkPath _ _); [done|]. case_match; [done|].
  apply one_string_perm. by apply collect_order.
Qed.

(** ** Names *)

Lemma upper_lower_byte c : lower_byte (upper_byte c) = lower_byte c.
Proof. destruct c as [[] [] [] [] [] [] [] []]; reflexivity. Qed.

Lemma canonical_bytes_lower b s : lower_byte <$> canonical_bytes b s = lower_byte <$> s.
Proof.
  revert b. induction s as [|c s IH]; intros b; [done|]. cbn [canonical_bytes fmap list_fmap]. f_equal; [|apply IH].
  destruct b; [apply upper_lower_byte|apply lower_byte_idem].
Qed.

Lemma token_byte_ascii c : token_byte c = true -> is_ascii c = true.
Proof. destruct c as [[] [] [] [] [] [] [] []]; intros H; try discriminate H; reflexivity. Qed.

Lemma token_bytes_ascii s : forallb token_byte s = true -> all_ascii s = true.
Proof.
  rewrite forallb_true, all_ascii_Forall. intros H. eapply Forall_impl; [exact H|]. apply token_byte_ascii.
Qed.

Lemma canonical_bytes_tokens b s : forallb token_byte s = true -> forallb token_byte (canonical_bytes b s) = true.
Proof.
  revert b. induction s as [|c s IH]; intros b; [done|]. cbn [forallb canonical_bytes]. intros H. bool_inv.
  rewrite IH by done. by destruct (canonical_byte_idem b c) as (-> & _); [|].
Qed.

(** A name and its canonical form read the same once folded. *)
Lemma fold_canonical name : fold (CanonicalHeaderKey name) = fold name.
Proof.
  unfold fold, CanonicalHeaderKey. destruct (forallb token_byte name) eqn:E; [|done]. f_equal.
  rewrite !to_lower_ascii; [apply canonical_bytes_lower|by apply token_bytes_ascii|].
  apply token_bytes_ascii. by apply canonical_bytes_tokens.
Qed.

Lemma underscore_canonical name : contains (CanonicalHeaderKey name) (lit "_") = contains name (lit "_").
Proof.
  unfold CanonicalHeaderKey. destruct (forallb token_byte name) eqn:E; [|done]. clear E.
  assert (forall b, "_"%char ∈ canonical_bytes b name <-> "_"%char ∈ name) as H.
  { induction name as [|c s IH]; intros b; [done|]. cbn [canonical_bytes]. rewrite !elem_of_cons, IH.
    assert ("_"%char = (if b then upper_byte c else lower_byte c) <-> "_"%char = c) as ->; [|done].
    destruct c as [[] [] [] [] [] [] [] []], b; vm_compute; split; congruence. }
  specialize (H true). unfold contains.
  destruct (cut_at (lit "_") (canonical_bytes true name)) as [[]|] eqn:E1;
    destruct (cut_at (lit "_") name) as [[]|] eqn:E2; try done; exfalso.
  - apply (cut_at_byte "_"%char) in E2. apply E2, H.
    apply (cut_at_byte_inv "_"%char) in E1 as [-> _]. rewrite elem_of_app. right. constructor.
  - apply (cut_at_byte "_"%char) in E1. apply E1, H.
    apply (cut_at_byte_inv "_"%char) in E2 as [-> _]. rewrite elem_of_app. right. constructor.
Qed.

Lemma dropped_canonical rules name : dropped_name rules (CanonicalHeaderKey name) = dropped_name rules name.
Proof. unfold dropped_name. by rewrite fold_canonical, underscore_canonical. Qed.

(** ** Parts of a text *)

Lemma split_byte_occurs c s w : w ∈ split_byte c s -> occurs w s.
Proof.
  revert w. induction s as [|d s IH]; intros w; cbn [split_byte].
  - intros ->%list_elem_of_singleton. apply occurs_refl.
  - destruct (Ascii.eqb d c).
    + intros [->|H]%elem_of_cons; [by exists [], (d :: s)|].
      change (d :: s) with ([d] ++ s). apply occurs_app_r. by apply IH.
    + destruct (split_byte c s) as [|x xs] eqn:E; [by apply split_byte_not_nil in E|].
      intros [->|H]%elem_of_cons.
      * pose proof (join_split_byte c s) as Hj. rewrite E in Hj. exists []. destruct xs as [|y ys].
        -- exists []. cbn in *. by rewrite app_nil_r, Hj.
        -- exists ([c] ++ join [c] (y :: ys)). cbn [app]. rewrite <- Hj. done.
      * change (d :: s) with ([d] ++ s). apply occurs_app_r, IH. by constructor.
Qed.

Lemma occurs_join c token l :
  c ∉ token -> token <> [] -> occurs token (join [c] l) -> exists w, w ∈ l /\ occurs token w.
Proof.
  intros Hc Hne. induction l as [|w l IH]; cbn [join].
  - intros (a & b & H). symmetry in H. apply app_eq_nil in H as [_ H]. by apply app_eq_nil in H as [? _].
  - destruct l as [|w' l]; [intros H; exists w; split; [constructor|done]|].
    intros H. apply (occurs_split c) in H as [H|H]; [| |done|done].
    + exists w. split; [constructor|done].
    + destruct (IH H) as (x & Hx & Ho). exists x. split; [by constructor|done].
Qed.

(** ** What stays in the header *)

Section Drop.
Context (rules : list gostr) (token : gostr).

Definition ok_entry (name : gostr) (values : list gostr) : Prop :=
  dropped_name rules name = false /\ CanonicalHeaderKey name = name /\ holds_token token values = false.

Definition ok_header (h : header) : Prop := map_Forall ok_entry h.

Lemma drop_turns (visit : list gostr) (h : header) :
  (forall k vs, h !! k = Some vs -> k ∈ visit \/ ok_entry k vs) ->
  ok_header (foldl (drop_turn rules token) h visit).
Proof.
  revert h. induction visit as [|n visit IH]; intros h H; cbn [foldl].
  - intros k vs Hk. by destruct (H k vs Hk) as [?%not_elem_of_nil|?].
  - apply IH. intros k vs Hk. unfold drop_turn in Hk.
    destruct (h !! n) as [values|] eqn:En.
    2:{ destruct (H k vs Hk) as [[->|?]%elem_of_cons|?]; [congruence|by left|by right]. }
    destruct (dropped_name rules n) eqn:Ed; cbn [orb] in Hk.
    { apply lookup_delete_Some in Hk as [Hne Hk].
      destruct (H k vs Hk) as [[->|?]%elem_of_cons|?]; [done|by left|by right]. }
    destruct (holds_token token values) eqn:Et.
    { apply lookup_delete_Some in Hk as [Hne Hk].
      destruct (H k vs Hk) as [[->|?]%elem_of_cons|?]; [done|by left|by right]. }
    destruct (bool_decide (CanonicalHeaderKey n = n)) eqn:Ec; bool_inv.
    { destruct (H k vs Hk) as [[->|?]%elem_of_cons|?]; [|by left|by right].
      right. rewrite En in Hk. injection Hk as <-. done. }
    apply lookup_insert_Some in Hk as [[<- <-]|[Hne Hk]].
    2:{ apply lookup_delete_Some in Hk as [Hne' Hk].
        destruct (H k vs Hk) as [[->|?]%elem_of_cons|?]; [done|by left|by right]. }
    rewrite lookup_delete_ne by congruence.
    destruct (decide (CanonicalHeaderKey n ∈ visit)) as [Hin|Hin]; [by left|]. right.
    split_and!; [by rewrite dropped_canonical|apply CanonicalHeaderKey_idem|].
    unfold holds_token in *. rewrite existsb_app, Et, orb_false_r.
    destruct (h !! CanonicalHeaderKey n) as [old|] eqn:Eo; [|done]. cbn.
    destruct (H _ _ Eo) as [[?|?]%elem_of_cons|(_ & _ & ?)]; done.
Qed.

Lemma filter_items_kept allowed items acc n :
  forall x, x ∈ (foldl (filter_item allowed) (acc, n) items).1 ->
  x ∈ acc \/ x ∈ allowed /\ exists i, i ∈ items /\ x = trim_space i.
Proof.
  revert acc n. induction items as [|i items IH]; intros acc n x; cbn [foldl]; [by left|].
  intros Hx.
  assert (forall acc' n', x ∈ (foldl (filter_item allowed) (acc', n') items).1 ->
    (x ∈ acc' -> x ∈ acc \/ x ∈ allowed /\ x = trim_space i) ->
    x ∈ acc \/ x ∈ allowed /\ exists j, j ∈ i :: items /\ x = trim_space j) as Hstep.
  { intros acc' n' H Hacc. destruct (IH _ _ _ H) as [Ha|(Ha & j & Hj & ->)].
    - destruct (Hacc Ha) as [?|[? ->]]; [by left|]. right. split; [done|]. exists i. split; [constructor|done].
    - right. split; [done|]. exists j. split; [by constructor|done]. }
  destruct (filter_item allowed (acc, n) i) as [acc' n'] eqn:Ei.
  apply (Hstep acc' n' Hx). intros Hin. unfold filter_item in Ei.
  destruct (bool_decide (trim_space i = [])); [injection Ei as <- <-; by left|].
  destruct (mem (trim_space i) allowed) eqn:Em; [|injection Ei as <- <-; by left].
  apply mem_true in Em. destruct (mem (trim_space i) acc); injection Ei as <- <-; [by left|].
  apply elem_of_app in Hin as [?|Hin]; [by left|]. apply list_elem_of_singleton in Hin. subst x. by right.
Qed.
End Drop.

Section Filter.
Context (rules : list gostr) (token : gostr) (Hcomma : ","%char ∉ token).

Lemma filterValues_ok (h : header) a :
  ok_header rules token h -> ok_header rules token (filterValues h a).1.
Proof using Hcomma.
  intros Hh. unfold filterValues. destruct (bool_decide _) eqn:Ev; [done|]. bool_inv.
  destruct (foldl _ _ _) as [keep dropped] eqn:Ef. cbn [fst].
  assert (ok_header rules token (h_del h (ha_name a))) as Hd.
  { intros k vs Hk. unfold h_del in Hk. apply lookup_delete_Some in Hk as [_ Hk]. by apply Hh. }
  destruct (bool_decide (keep = [])); [done|]. intros k vs Hk. unfold h_set in Hk.
  apply lookup_insert_Some in Hk as [[<- <-]|[_ Hk]]; [|by apply Hd].
  unfold h_values in *. destruct (h !! CanonicalHeaderKey (ha_name a)) as [values|] eqn:Eh; [|done].
  cbn [default from_option id] in *.
  destruct (Hh _ _ Eh) as (Hdrop & Hcan & Htok). split_and!; [done|done|].
  unfold holds_token in *. cbn [existsb]. rewrite orb_false_r.
  apply andb_false_iff. destruct (decide (token = [])) as [->|Hne]; [by left|]. right.
  apply contains_false. intros Ho. apply (occurs_join ","%char) in Ho as (w & Hw & Ho); [|done|done].
  pose proof (filter_items_kept (elems (ha_values a)) (values ≫= split_byte ","%char) [] 0%nat w) as Hk.
  rewrite Ef in Hk. destruct (Hk Hw) as [?%not_elem_of_nil|(_ & i & Hi & ->)]; [done|].
  apply list_elem_of_bind in Hi as (v & Hiv & Hv).
  apply existsb_false in Htok. rewrite Forall_forall in Htok. specialize (Htok v Hv).
  apply andb_false_iff in Htok as [Ht|Ht]; [bool_inv; done|]. apply contains_false in Ht. apply Ht.
  eapply occurs_trans; [exact Ho|]. eapply occurs_trans; [apply trim_space_occurs|].
  by apply split_byte_occurs in Hiv.
Qed.

Lemma filter_all_ok (h : header) allowed : ok_header rules token h -> ok_header rules token (filter_all h allowed).1.
Proof using Hcomma.
  unfold filter_all. generalize (∅ : gmap gostr nat) as d. intros d. revert h d.
  induction allowed as [|a allowed IH]; intros h d Hh; [done|]. cbn [foldl].
  destruct (filterValues h a) as [h' n] eqn:E. apply IH. pose proof (filterValues_ok h a Hh) as H.
  by rewrite E in H.
Qed.
End Filter.

Lemma dropGuestHeaders_ok (i : Inject) (h : header) (token : gostr) (visit : list gostr) :
  (forall name, is_Some (h !! name) -> name ∈ visit) -> ","%char ∉ token ->
  ok_header (drop_rules i) token (dropGuestHeaders i h token visit).1.
Proof.
  intros Hvisit Hcomma. unfold dropGuestHeaders. apply filter_all_ok; [done|]. apply drop_turns. intros k vs Hk. left. eauto.
Qed.

Lemma holds_token_false token values :
  holds_token token values = false -> token <> [] -> Forall (fun v => ~ occurs token v) values.
Proof.
  intros Ht Hne. apply existsb_false in Ht. eapply Forall_impl; [exact Ht|].
  intros v Hv. apply andb_false_iff in Hv as [Hv|Hv]; [bool_inv; done|]. by apply contains_false.
Qed.

(** ** Properties *)

(** A credential value is never empty and holds no control character, so an
    injected header is one header: a secret cannot end the line it goes in. *)
Lemma credentialValue_header (order : forall A, list (gostr * A) -> list (gostr * A))
    (c : CredentialRef) (doc v : gostr) (H : credentialValue order c doc = Ok v) :
  v <> [] /\ Forall (fun b => 32 <= bz b /\ bz b <> 127) v.
Proof.
  unfold credentialValue in H. apply res_bind_ok in H as (w & _ & H).
  destruct (bool_decide (trim_newline w = [])) eqn:E1; [done|].
  destruct (existsb control_byte (trim_newline w)) eqn:E2; [done|]. injection H as <-. bool_inv.
  split; [done|]. apply existsb_false in E2. eapply Forall_impl; [exact E2|]. intros b Hb.
  unfold control_byte in Hb. bool_inv. lia.
Qed.

Definition keep_order (A : Type) (l : list (gostr * A)) : list (gostr * A) := l.

Definition example_credential : CredentialRef :=
  MkCredentialRef (MkSecretRef (lit "claude")) (lit "oauth.accessToken") [].

Definition example_doc : gostr :=
  lit "{" ++ json_quote (lit "mcp") ++ lit ":{}," ++ json_quote (lit "oauth") ++ lit ": {"
  ++ json_quote (lit "accessToken") ++ lit ":" ++ json_quote (lit "sk-1") ++ lit "}}".

Example credentialValue_header_witness :
  lit "sk-1" <> [] /\ Forall (fun b => 32 <= bz b /\ bz b <> 127) (lit "sk-1").
Proof. apply (credentialValue_header keep_order example_credential example_doc). vm_compute. reflexivity. Defined.

(** The value a credential field names does not depend on the order in
    which Go ranges over the maps of the document: a search at depth that finds
    two different values is refused in every order. *)
Lemma credentialValue_order (o1 o2 : forall A, list (gostr * A) -> list (gostr * A))
    (H1 : permutes o1) (H2 : permutes o2) (c : CredentialRef) (doc : gostr) :
  credentialValue o1 c doc = credentialValue o2 c doc.
Proof.
  unfold credentialValue. case_if; [done|]. destruct (unmarshal_any doc) as [root|]; [|done].
  by rewrite (field_order o1 o2).
Qed.

Definition reverse_order (A : Type) (l : list (gostr * A)) : list (gostr * A) := rev l.

Example credentialValue_order_witness :
  credentialValue keep_order example_credential example_doc = Ok (lit "sk-1") /\
  credentialValue reverse_order example_credential example_doc = Ok (lit "sk-1").
Proof.
  rewrite (credentialValue_order reverse_order keep_order).
  - split; vm_compute; reflexivity.
  - intros A l. apply Permutation_sym, Permutation_rev.
  - intros A l. apply Permutation_refl.
Defined.

(** C21: The headers that go upstream hold no session token and no header the
    rules drop.  Whatever order the range takes, and whatever the guest spelled,
    no name is left that holds an underscore, that folds to a forwarding,
    override or brig header, to Authorization, or to a header the route sets or
    removes, and no value is left that holds the token. *)
Theorem dropGuestHeaders_clean (i : Inject) (h : header) (token : gostr) (visit : list gostr)
    (Hvisit : forall name, is_Some (h !! name) -> name ∈ visit) (Hcomma : ","%char ∉ token)
    (name : gostr) (values : list gostr) (H : (dropGuestHeaders i h token visit).1 !! name = Some values) :
  contains name (lit "_") = false /\
  fold name ∉ drop_rules i /\ fold name ∉ droppedNames /\
  has_prefix (fold name) (lit "x-forwarded-") = false /\ has_prefix (fold name) (lit "x-brig-") = false /\
  has_prefix (fold name) (lit "proxy-") = false /\
  (token <> [] -> Forall (fun v => ~ occurs token v) values).
Proof.
  destruct (dropGuestHeaders_ok i h token visit Hvisit Hcomma name values H) as (Hd & _ & Ht).
  unfold dropped_name in Hd. bool_inv. rewrite mem_false in *. split_and!; try done. by apply holds_token_false.
Qed.

Definition example_inject : Inject :=
  MkInject (Some (MkHeaderInject (Some [MkHeader (lit "X-Api-Key") PlaceholderValue]) (Some [lit "Authorization"])
    (Some [MkHeaderAllow (lit "Anthropic-Beta") (Some [lit "a"; lit "b"])]))) None None.

Definition example_header : header :=
  <[lit "X-Api-Key" := [lit "t.m"]]> (<[lit "x_api_key" := [lit "1"]]>
    (<[lit "Anthropic-Beta" := [lit "a,c"; lit "b"]]> ∅)).

Example dropGuestHeaders_clean_witness :
  (dropGuestHeaders example_inject example_header (lit "t.m") (h_names example_header)).1
    !! lit "Anthropic-Beta" = Some [lit "a,b"] /\
  contains (lit "Anthropic-Beta") (lit "_") = false.
Proof.
  split; [vm_compute; reflexivity|].
  apply (dropGuestHeaders_clean example_inject example_header (lit "t.m") (h_names example_header))
    with (values := [lit "a,b"]).
  - intros name Hn. by apply elem_of_h_names.
  - apply (proj1 (mem_false _ _)). vm_compute. reflexivity.
  - vm_compute. reflexivity.
Defined.
