(* ===== verification/GoNetip.v ===== *)
(** * [net/netip]: addresses and prefixes

    [ParseAddr] and [ParsePrefix], on addresses as integers. *)

From stdpp Require Import prelude list strings.
From Stdlib Require Import ZArith Lia ZifyNat Ascii.
From S2P Require Import Prelude GoUnicode GoStrings GoNum.

Local Open Scope Z_scope.

(** An address: 32 bits, or 128 bits and a zone. *)
Inductive addr :=
  | V4 (z : Z)
  | V6 (z : Z) (zone : gostr).

#[export] Instance addr_eq_dec : EqDecision addr.
Proof. solve_decision. Defined.

Definition Is6 (a : addr) : bool := match a with V6 _ _ => true | V4 _ => false end.

(** ** IPv4 *)

(** One field: digits without a leading zero, at most 255. *)
Definition parse_octet (s : gostr) : option Z :=
  match s with
  | [c] => if is_digit c then Some (bz c - 48) else None
  | c :: _ =>
    if Ascii.eqb c "0" || (3 <? length s)%nat then None
    else match parse_nat s with Some z => if z <=? 255 then Some z else None | None => None end
  | [] => None
  end.

Definition parse_ipv4 (s : gostr) : option Z :=
  match split_byte "."%char s with
  | [a; b; c; d] =>
    match parse_octet a, parse_octet b, parse_octet c, parse_octet d with
    | Some a, Some b, Some c, Some d => Some (((a * 256 + b) * 256 + c) * 256 + d)
    | _, _, _, _ => None
    end
  | _ => None
  end.

(** ** IPv6 *)

(** The hex digits in front of [s], and the rest. *)
Fixpoint span_hex (s : gostr) : list Z * gostr :=
  match s with
  | c :: s' =>
    match hex_digit_value c with
    | Some v => let '(ds, r) := span_hex s' in (v :: ds, r)
    | None => ([], s)
    end
  | [] => ([], [])
  end.

Definition hex_value (ds : list Z) : Z := foldl (fun acc d => acc * 16 + d) 0 ds.

(** The loop over the groups: [groups] are the 16-bit groups so far, and
    [ellipsis] how many of them were in front of the double colon.  Eight
    groups are read at most. *)
Fixpoint v6_groups (fuel : nat) (s : gostr) (groups : list Z) (ellipsis : option nat)
    : option (list Z * option nat) :=
  match fuel with
  | O => if bool_decide (s = []) then Some (groups, ellipsis) else None
  | S k =>
    let '(ds, rest) := span_hex s in
    if bool_decide (ds = []) || (4 <? length ds)%nat then None
    else
      match rest with
      | [] => Some (groups ++ [hex_value ds], ellipsis)
      | c :: rest' =>
        if Ascii.eqb c "." then
          if (is_nil ellipsis && negb (length groups =? 6)%nat) || (6 <? length groups)%nat then None
          else
            match parse_ipv4 s with
            | Some z => Some (groups ++ [z / 65536; z mod 65536], ellipsis)
            | None => None
            end
        else if negb (Ascii.eqb c ":") then None
        else
          let groups := groups ++ [hex_value ds] in
          match rest' with
          | [] => None
          | d :: rest'' =>
            if Ascii.eqb d ":" then
              if negb (is_nil ellipsis) then None
              else if bool_decide (rest'' = []) then Some (groups, Some (length groups))
              else v6_groups k rest'' groups (Some (length groups))
            else v6_groups k rest' groups ellipsis
          end
      end
  end.

Definition join_groups (gs : list Z) : Z := foldl (fun acc g => acc * 65536 + g) 0 gs.

Definition parse_ipv6 (s : gostr) : option addr :=
  let '(s, zone, zoned) := cut s (lit "%") in
  if zoned && bool_decide (zone = []) then None
  else
    match strip_prefix (lit "::") s with
    | Some [] => Some (V6 0 zone)
    | leading =>
      let '(s, ellipsis) := match leading with Some r => (r, Some 0%nat) | None => (s, None) end in
      match v6_groups 8 s [] ellipsis with
      | None => None
      | Some (gs, e) =>
        match e with
        | None => if (length gs =? 8)%nat then Some (V6 (join_groups gs) zone) else None
        | Some n =>
          if (length gs <? 8)%nat
          then Some (V6 (join_groups (take n gs ++ replicate (8 - length gs) 0 ++ drop n gs)) zone)
          else None
        end
      end
    end.

(** [ParseAddr]: the first dot, colon or percent decides. *)
Fixpoint addr_kind (s : gostr) : option byte :=
  match s with
  | [] => None
  | c :: s' => if Ascii.eqb c "." || Ascii.eqb c ":" || Ascii.eqb c "%" then Some c else addr_kind s'
  end.

Definition ParseAddr (s : gostr) : option addr :=
  match addr_kind s with
  | Some c =>
    if Ascii.eqb c "." then V4 <$> parse_ipv4 s
    else if Ascii.eqb c ":" then parse_ipv6 s
    else None
  | None => None
  end.

(** The literal of a bracketed host in a URL. *)
Definition ipv6_literal (s : gostr) : bool := match ParseAddr s with Some a => Is6 a | None => false end.

(** ** Prefixes *)

Record prefix := MkPrefix { pf_addr : addr; pf_bits : Z }.

#[export] Instance prefix_eq_dec : EqDecision prefix.
Proof. solve_decision. Defined.

Definition addr_bits (a : addr) : Z := if Is6 a then 128 else 32.

(** [ParsePrefix]. *)
Definition ParsePrefix (s : gostr) : option prefix :=
  match cut_at ["/"%char] (rev s) with
  | None => None
  | Some (rbits, raddr) =>
    let bits := rev rbits in
    match ParseAddr (rev raddr) with
    | None => None
    | Some a =>
      if match a with V6 _ zone => negb (bool_decide (zone = [])) | V4 _ => false end then None
      else if match bits with c :: _ :: _ => negb (in_range 49 57 (bz c)) | _ => false end then None
      else
        match parse_int 64 bits with
        | Some n => if (n <? 0) || (addr_bits a <? n) then None else Some (MkPrefix a n)
        | None => None
        end
    end
  end.

Definition addr_value (a : addr) : Z := match a with V4 z => z | V6 z _ => z end.

(** [Prefix.Contains]. *)
Definition Contains (p : prefix) (a : addr) : bool :=
  match pf_addr p, a with
  | V4 x, V4 y => Z.shiftr x (32 - pf_bits p) =? Z.shiftr y (32 - pf_bits p)
  | V6 x _, V6 y zone => bool_decide (zone = []) && (Z.shiftr x (128 - pf_bits p) =? Z.shiftr y (128 - pf_bits p))
  | _, _ => false
  end.

(** ** Addresses are of their width *)

Lemma parse_octet_range s z : parse_octet s = Some z -> 0 <= z <= 255.
Proof.
  assert (forall acc t v, 0 <= acc -> value_of acc t = Some v -> acc <= v) as Hv.
  { intros acc t. revert acc. induction t as [|c t IH]; intros acc v Ha; cbn; [intros [= <-]; lia|].
    unfold is_digit. destruct (in_range _ _ _) eqn:E; [|done]. apply in_range_true in E. intros H.
    apply IH in H; lia. }
  unfold parse_octet. destruct s as [|c [|d s]]; [done| |].
  - unfold is_digit. destruct (in_range _ _ _) eqn:E; [|done]. apply in_range_true in E. intros [= <-]. lia.
  - case_if; [done|]. destruct (parse_nat _) as [v|] eqn:E; [|done]. destruct (Z.leb_spec v 255); [|done].
    intros [= <-]. unfold parse_nat in E. apply Hv in E; lia.
Qed.

Lemma parse_ipv4_range s z : parse_ipv4 s = Some z -> 0 <= z < 2 ^ 32.
Proof.
  unfold parse_ipv4. destruct (split_byte _ s) as [|a [|b [|c [|d [|]]]]]; try done.
  destruct (parse_octet a) eqn:Ea, (parse_octet b) eqn:Eb, (parse_octet c) eqn:Ec, (parse_octet d) eqn:Ed; try done.
  apply parse_octet_range in Ea, Eb, Ec, Ed. intros [= <-]. lia.
Qed.

Example netip_1 : ParseAddr (lit "127.0.0.1") = Some (V4 2130706433).
Proof. reflexivity. Qed.
Example netip_2 : ParseAddr (lit "::ffff:1.2.3.4") = Some (V6 (65535 * 2 ^ 32 + 16909060) []).
Proof. reflexivity. Qed.
Example netip_3 : ParseAddr (lit "1::2::3") = None /\ ParseAddr (lit "01.2.3.4") = None
  /\ ParseAddr (lit "1:2:3:4:5:6:7") = None /\ ParseAddr (lit "1:2:3:4:5:6:7::8") = None
  /\ ParseAddr (lit "1:2:3:4:5:6:7::") = Some (V6 (join_groups [1; 2; 3; 4; 5; 6; 7; 0]) []).
Proof. repeat split; reflexivity. Qed.
Example netip_4 : ParsePrefix (lit "10.0.0.0/8") = Some (MkPrefix (V4 167772160) 8)
  /\ ParsePrefix (lit "10.0.0.0/08") = None /\ ParsePrefix (lit "fe80::%e/64") = None.
Proof. repeat split; reflexivity. Qed.
