(* ===== verification/GoUrl.v ===== *)
(** * [net/url]: escapes and the parse of an https origin *)

From stdpp Require Import prelude list strings.
From Stdlib Require Import ZArith Lia ZifyNat Ascii.
From S2P Require Import Prelude GoUnicode GoStrings GoNum.

Local Open Scope Z_scope.

(** The modes the program reaches. *)
Inductive encoding_mode := encodePath | encodeHost | encodeZone | encodeQueryComponent | encodeFragment.

#[export] Instance encoding_mode_eq_dec : EqDecision encoding_mode.
Proof. solve_decision. Defined.

Definition byte_in (c : byte) (s : gostr) : bool := existsb (Ascii.eqb c) s.

Definition alnum (c : byte) : bool :=
  in_range 97 122 (bz c) || in_range 65 90 (bz c) || in_range 48 57 (bz c).

Definition percent : byte := "%"%char.

(** [shouldEscape]. *)
Definition shouldEscape (c : byte) (m : encoding_mode) : bool :=
  if alnum c then false
  else if (bool_decide (m = encodeHost) || bool_decide (m = encodeZone))
          && (byte_in c (lit "!$&'()*+,;=:[]<>") || Ascii.eqb c (zb 34)) then false
  else if byte_in c (lit "-_.~") then false
  else if byte_in c (lit "$&+,/:;=?@") then
    match m with
    | encodePath => Ascii.eqb c "?"
    | encodeQueryComponent => true
    | encodeFragment => false
    | encodeHost | encodeZone => true
    end
  else if bool_decide (m = encodeFragment) && byte_in c (lit "!()*") then false
  else true.

Definition upper_hex (v : Z) : byte := nth (Z.to_nat v) (lit "0123456789ABCDEF") Ascii.zero.

Definition escape_one (m : encoding_mode) (c : byte) : gostr :=
  if Ascii.eqb c " " && bool_decide (m = encodeQueryComponent) then lit "+"
  else if shouldEscape c m
  then [percent; upper_hex (Z.shiftr (bz c) 4); upper_hex (Z.land (bz c) 15)]
  else [c].

Definition escape_url (m : encoding_mode) (s : gostr) : gostr := s ≫= escape_one m.

(** [unescape]; [None] is its error. *)
Fixpoint unescape_url (m : encoding_mode) (s : gostr) : option gostr :=
  match s with
  | [] => Some []
  | c :: s1 =>
    if Ascii.eqb c percent then
      match s1 with
      | a :: b :: s2 =>
        match hex_digit_value a, hex_digit_value b with
        | Some x, Some y =>
          let v := x * 16 + y in
          if bool_decide (m = encodeHost) && (x <? 8) && negb (v =? 37) then None
          else if bool_decide (m = encodeZone) && negb (v =? 37) && negb (v =? 32) && shouldEscape (zb v) encodeHost
          then None
          else match unescape_url m s2 with Some t => Some (zb v :: t) | None => None end
        | _, _ => None
        end
      | _ => None
      end
    else if (bool_decide (m = encodeHost) || bool_decide (m = encodeZone)) && is_ascii c && shouldEscape c m
    then None
    else
      let d := if Ascii.eqb c "+" && bool_decide (m = encodeQueryComponent) then " "%char else c in
      match unescape_url m s1 with Some t => Some (d :: t) | None => None end
  end.

Definition QueryUnescape (s : gostr) : option gostr := unescape_url encodeQueryComponent s.

(** ** A parsed URL, as far as the program reads it *)

Record url := MkURL {
  u_scheme : gostr;
  u_hasUser : bool;
  u_host : gostr;
  u_path : gostr;
  u_rawPath : gostr;
  u_forceQuery : bool;
  u_rawQuery : gostr;
  u_fragment : gostr;
}.

Definition validEncoded (s : gostr) : bool :=
  forallb (fun c => byte_in c (lit "!$&'()*+,;=:@[]%") || negb (shouldEscape c encodePath)) s.

Definition EscapedPath (u : url) : gostr :=
  if negb (bool_decide (u_rawPath u = [])) && validEncoded (u_rawPath u)
     && bool_decide (unescape_url encodePath (u_rawPath u) = Some (u_path u))
  then u_rawPath u
  else if bool_decide (u_path u = lit "*") then lit "*"
  else escape_url encodePath (u_path u).

(** [setPath]. *)
Definition set_path (p : gostr) : option (gostr * gostr) :=
  match unescape_url encodePath p with
  | None => None
  | Some path => Some (path, if bool_decide (escape_url encodePath path = p) then [] else p)
  end.

(** ** Host and port *)

(** [validOptionalPort]: nothing, or a colon and digits. *)
Definition validOptionalPort (p : gostr) : bool :=
  match p with
  | [] => true
  | c :: d => Ascii.eqb c ":" && forallb is_digit d
  end.

Definition split_host_port (hostport : gostr) : gostr * gostr :=
  let '(host, port) :=
    match cut_last ":" hostport with
    | Some (a, b) => if validOptionalPort (":"%char :: b) then (a, b) else (hostport, [])
    | None => (hostport, [])
    end in
  let host :=
    match host with
    | c :: t => if Ascii.eqb c "[" && has_suffix host (lit "]") then take (length t - 1) t else host
    | [] => host
    end in
  (host, port).

Definition Hostname (u : url) : gostr := (split_host_port (u_host u)).1.
Definition Port (u : url) : gostr := (split_host_port (u_host u)).2.

(** ** Parsing an https URL *)

(** [stringContainsCTLByte]. *)
Definition has_ctl (s : gostr) : bool := existsb (fun c => (bz c <? 32) || (bz c =? 127)) s.

Section Parse.
(** [netip.ParseAddr] of the text in brackets: whether it is an address that
    is not IPv4. *)
Variable ip_literal : gostr -> bool.

(** [parseHost]; a bracket that does not open the host is refused. *)
Definition parse_host (host : gostr) : option gostr :=
  match cut_last "[" host with
  | Some (_ :: _, _) => None
  | Some ([], after) =>
    match cut_last "]" after with
    | None => None
    | Some (name, colonPort) =>
      if negb (validOptionalPort colonPort) then None
      else
        match (match cut_at (lit "%25") name with
               | Some (a, b) =>
                 match unescape_url encodeHost a, unescape_url encodeZone (lit "%25" ++ b) with
                 | Some x, Some y => Some (x ++ y)
                 | _, _ => None
                 end
               | None => unescape_url encodeHost name
               end) with
        | Some h => if ip_literal h then Some (lit "[" ++ h ++ lit "]" ++ colonPort) else None
        | None => None
        end
    end
  | None =>
    match cut_last ":" host with
    | Some (_, port) =>
      if validOptionalPort (":"%char :: port) then unescape_url encodeHost host else None
    | None => unescape_url encodeHost host
    end
  end.

(** [parseAuthority] of the part before the last "@": the user information is
    checked and kept only as being there. *)
Definition valid_userinfo (s : gostr) : bool :=
  forallb (fun c => alnum c || byte_in c (lit "-._:~!$&'()*+,;=%@")) s
  && negb (is_nil (unescape_url encodePath s)).

(** [url.Parse] of [https://] and [rest]. *)
Definition parse_https (rest0 : gostr) : option url :=
  if has_ctl rest0 then None
  else
    let '(rest1, frag, _) := cut rest0 (lit "#") in
    match unescape_url encodeFragment frag with
    | None => None
    | Some frag =>
      let '(rest2, force, query) :=
        if has_suffix rest1 (lit "?") && (count rest1 (lit "?") =? 1)%nat
        then (trim_suffix rest1 (lit "?"), true, [])
        else let '(a, q, _) := cut rest1 (lit "?") in (a, false, q) in
      let '(authority, path) :=
        match cut_at (lit "/") rest2 with Some (a, p) => (a, lit "/" ++ p) | None => (rest2, []) end in
      let '(user, info, host) :=
        match cut_last "@" authority with Some (i, h) => (true, i, h) | None => (false, [], authority) end in
      match parse_host host, set_path path with
      | Some h, Some (p, rp) =>
        if valid_userinfo info then Some (MkURL (lit "https") user h p rp force query frag) else None
      | _, _ => None
      end
    end.

(** [url.Parse] of an origin, for the ones that start with [https://]. *)
Definition parse_origin (origin : gostr) : option url :=
  match strip_prefix (lit "https://") origin with
  | Some rest => parse_https rest
  | None => None
  end.
End Parse.

(** [(&url.URL{Scheme: "https", Host: host}).String()] for a host that is not
    empty. *)
Definition https_string (host : gostr) : gostr := lit "https://" ++ escape_url encodeHost host.

(** ** Escapes *)

Lemma hex_digit_upper v : 0 <= v < 16 -> hex_digit_value (upper_hex v) = Some v.
Proof.
  intros Hv. assert (v = 0 \/ v = 1 \/ v = 2 \/ v = 3 \/ v = 4 \/ v = 5 \/ v = 6 \/ v = 7 \/ v = 8 \/ v = 9 \/
    v = 10 \/ v = 11 \/ v = 12 \/ v = 13 \/ v = 14 \/ v = 15) as H by lia.
  repeat destruct H as [->|H]; [.. | subst v]; reflexivity.
Qed.

Lemma hex_value_range c v : hex_digit_value c = Some v -> 0 <= v < 16.
Proof.
  unfold hex_digit_value. repeat case_if; intros [= <-];
    match goal with H : in_range _ _ _ = true |- _ => apply in_range_true in H end; lia.
Qed.

(** A path reads back from its escaped form. *)
Lemma unescape_escape_path s : unescape_url encodePath (escape_url encodePath s) = Some s.
Proof.
  induction s as [|c s IH]; [done|].
  change (escape_url encodePath (c :: s)) with (escape_one encodePath c ++ escape_url encodePath s).
  unfold escape_one. destruct (Ascii.eqb c " " && bool_decide (encodePath = encodeQueryComponent)) eqn:E1.
  { rewrite andb_comm in E1. discriminate E1. }
  destruct (shouldEscape c encodePath) eqn:E2.
  - cbn [app unescape_url]. change (Ascii.eqb percent percent) with true. cbv iota.
    pose proof (bz_range c) as Hr.
    assert (0 <= Z.shiftr (bz c) 4 < 16 /\ 0 <= Z.land (bz c) 15 < 16 /\
      Z.shiftr (bz c) 4 * 16 + Z.land (bz c) 15 = bz c) as (H1 & H2 & H3).
    { rewrite Z.shiftr_div_pow2 by lia. change 15 with (Z.ones 4). rewrite Z.land_ones by lia.
      change (2 ^ 4) with 16. pose proof (Z.div_mod (bz c) 16). pose proof (Z.mod_pos_bound (bz c) 16).
      pose proof (Z.div_lt_upper_bound (bz c) 16 16). pose proof (Z.div_pos (bz c) 16). lia. }
    rewrite !hex_digit_upper, H3 by done. change (bool_decide (encodePath = encodeHost)) with false.
    change (bool_decide (encodePath = encodeZone)) with false. cbn [andb]. rewrite IH. by rewrite zb_bz.
  - cbn [app unescape_url]. destruct (Ascii.eqb_spec c percent) as [->|_]; [discriminate E2|].
    change (bool_decide (encodePath = encodeHost)) with false.
    change (bool_decide (encodePath = encodeZone)) with false.
    change (bool_decide (encodePath = encodeQueryComponent)) with false.
    cbn [orb andb]. rewrite andb_false_r. by rewrite IH.
Qed.

Lemma EscapedPath_unescape u : unescape_url encodePath (EscapedPath u) = Some (u_path u).
Proof.
  unfold EscapedPath. case_if.
  - bool_inv. done.
  - case_if; [bool_inv; by rewrite Hc0|]. apply unescape_escape_path.
Qed.

Lemma EscapedPath_ascii u : all_ascii (EscapedPath u) = true.
Proof.
  assert (forall c, shouldEscape c encodePath = false -> is_ascii c = true) as Hs.
  { intros c. destruct c as [[] [] [] [] [] [] [] []]; vm_compute; congruence. }
  unfold EscapedPath. case_if.
  - apply andb_true_iff in Hc as [Hc _]. apply andb_true_iff in Hc as [_ Hv].
    unfold validEncoded in Hv. rewrite all_ascii_Forall. rewrite forallb_true in Hv.
    eapply Forall_impl; [exact Hv|]. intros c Hc. apply orb_true_iff in Hc as [Hc|Hc].
    + destruct c as [[] [] [] [] [] [] [] []]; try reflexivity; discriminate Hc.
    + apply Hs. by apply negb_true_iff.
  - case_if; [reflexivity|]. rewrite all_ascii_Forall. apply Forall_forall. intros x Hx.
    unfold escape_url in Hx. apply list_elem_of_bind in Hx as (c & Hx & _). unfold escape_one in Hx.
    case_match; [apply list_elem_of_singleton in Hx; by subst|].
    destruct (shouldEscape c encodePath) eqn:E.
    + assert (forall v, is_ascii (upper_hex v) = true) as Hu.
      { intros v. unfold upper_hex. set (n := Z.to_nat v). clearbody n.
        do 16 (destruct n as [|n]; [reflexivity|]). destruct n; reflexivity. }
      rewrite !elem_of_cons, elem_of_nil in Hx. destruct Hx as [->|[->|[->|[]]]]; [reflexivity|apply Hu..].
    + apply list_elem_of_singleton in Hx. subst. by apply Hs.
Qed.
