(* ===== verification/RoutePath.v ===== *)
(** * Paths and queries of a request (internal/broker/proxy.go)

    How the broker splits the path of a request, and which paths it refuses
    because an upstream could read them as another one. *)

From stdpp Require Import prelude list strings.
From Stdlib Require Import ZArith Lia ZifyNat Ascii.
From S2P Require Import Prelude GoUnicode GoStrings GoNum GoHttp GoPath GoUrl RouteTypes.

Local Open Scope Z_scope.

Record routePath := MkRoutePath {
  p_sandbox : gostr;
  p_route : gostr;
  p_rest : gostr;
  p_escapedRest : gostr;
}.

#[export] Instance routePath_eq_dec : EqDecision routePath.
Proof. solve_decision. Defined.

(** [splitPrefix]: /<sandbox>/r/<route>/<rest>. *)
Definition splitPrefix (p : gostr) : option (gostr * gostr * gostr) :=
  match strip_prefix (lit "/") p with
  | None => None
  | Some s =>
    match cut_at (lit "/") s with
    | None => None
    | Some (sandbox, s) =>
      if bool_decide (sandbox = []) then None
      else
        match cut_at (lit "/") s with
        | None => None
        | Some (marker, s) =>
          if negb (bool_decide (marker = lit "r")) then None
          else
            let '(route, rest, _) := cut s (lit "/") in
            if bool_decide (route = []) then None else Some (sandbox, route, lit "/" ++ rest)
        end
    end
  end.

Definition splitRoutePath (u : url) : option routePath :=
  match splitPrefix (u_path u) with
  | None => None
  | Some (sb, rt, rest) =>
    match splitPrefix (EscapedPath u) with
    | None => None
    | Some (esb, ert, erest) =>
      if bool_decide (esb = sb) && bool_decide (ert = rt) then Some (MkRoutePath sb rt rest erest) else None
    end
  end.

(** Code points, as UTF-8. *)
Definition utf8 (l : list Z) : gostr := l ≫= encode_rune.

Definition lookalikes : gostr := Eval vm_compute in
  utf8 [65295; 65340; 65128; 65285; 65130; 8448; 8449; 8453; 8454; 8725; 8260; 10744; 10741; 10745; 8726].
Definition dots : gostr := Eval vm_compute in
  utf8 [46; 65294; 65106; 8228; 8229; 65072; 8230; 65049; 12290; 65377].
Definition semicolons : gostr := Eval vm_compute in utf8 [59; 65307; 65108; 65044; 894].

Definition escapes : list gostr :=
  [lit "%2f"; lit "%5c"; lit "%2e"; lit "%252f"; lit "%255c"; lit "%252e"].

Definition refused_byte (repos : bool) (c : byte) : bool :=
  (bz c <? 32) || (bz c =? 127) || Ascii.eqb c "\" || Ascii.eqb c percent || (repos && (128 <=? bz c)).

(** A segment without its parameter. *)
Definition segment_name (seg : gostr) : gostr := before_any seg semicolons.

(** The loop over the segments. *)
Fixpoint segments_ok (segs : list gostr) : bool :=
  match segs with
  | [] => true
  | seg :: segs' =>
    let name := segment_name seg in
    if bool_decide (name = []) && negb (bool_decide (segs' = [])) then false
    else if negb (bool_decide (name = [])) && bool_decide (trim name dots = []) then false
    else segments_ok segs'
  end.

(** [rest] starts with a slash, as [splitRoutePath] returns it. *)
Definition canonical (rest escapedRest : gostr) (repos : bool) : bool :=
  negb (existsb (contains (to_lower escapedRest)) escapes)
  && negb (existsb (refused_byte repos) rest)
  && negb (contains_any rest lookalikes)
  && segments_ok (split_byte slash (drop 1 rest)).

Definition cutService (path : gostr) : gostr * gostr :=
  let '(service, rest, _) := cut (trim_prefix path (lit "/")) (lit "/") in (service, lit "/" ++ rest).

Definition isBatch (seg : gostr) : bool := equal_fold (before_any seg semicolons) (lit "batch").

Definition queryOverrides : list gostr := [lit "$httpMethod"; lit "httpMethod"].

(** [strings.FieldsFunc] at the ampersands and the semicolons. *)
Definition query_pairs (q : gostr) : list gostr :=
  filter (fun w => w <> []) (split_byte "&"%char q ≫= split_byte ";"%char).

Definition query_key (kv : gostr) : gostr :=
  let '(key, _, _) := cut kv (lit "=") in default key (QueryUnescape key).

Fixpoint first_override (pairs : list gostr) : gostr :=
  match pairs with
  | [] => []
  | kv :: pairs' =>
    match List.find (fun name => equal_fold (query_key kv) name) queryOverrides with
    | Some name => name
    | None => first_override pairs'
    end
  end.

Definition queryOverride (rawQuery : gostr) : gostr := first_override (query_pairs rawQuery).

Definition methodOverrides : list gostr :=
  [lit "X-HTTP-Method-Override"; lit "X-HTTP-Method"; lit "X-Method-Override"].

Definition upgrade (h : header) : bool :=
  negb (bool_decide (h_values h (lit "Upgrade") = []))
  || existsb (fun tok => equal_fold (trim_space tok) (lit "upgrade"))
       (h_values h (lit "Connection") ≫= split_byte ","%char).

Definition clip (s : gostr) (n : nat) : gostr :=
  if (length s <=? n)%nat then s else take n s ++ lit "...".

(** ** Segments and escapes *)

(** The escaped segments of a path, each with the segment it decodes to. *)
Definition decodes (e s : gostr) : Prop := unescape_url encodePath e = Some s.

Lemma unescape_path_cons c s :
  unescape_url encodePath (c :: s) =
  if Ascii.eqb c percent then
    match s with
    | a :: b :: s2 =>
      match hex_digit_value a, hex_digit_value b with
      | Some x, Some y =>
        match unescape_url encodePath s2 with Some t => Some (zb (x * 16 + y) :: t) | None => None end
      | _, _ => None
      end
    | _ => None
    end
  else match unescape_url encodePath s with Some t => Some (c :: t) | None => None end.
Proof.
  cbn [unescape_url]. change (bool_decide (encodePath = encodeHost)) with false.
  change (bool_decide (encodePath = encodeZone)) with false.
  change (bool_decide (encodePath = encodeQueryComponent)) with false.
  cbn [orb andb]. rewrite andb_false_r. reflexivity.
Qed.

Lemma hex_not_slash a x : hex_digit_value a = Some x -> a <> slash.
Proof. intros H ->. discriminate H. Qed.

Lemma hex_slash a b x y :
  hex_digit_value a = Some x -> hex_digit_value b = Some y -> zb (x * 16 + y) = slash ->
  lower_byte <$> [percent; a; b] = lit "%2f".
Proof.
  intros Ha Hb Hv. pose proof (hex_value_range _ _ Ha). pose proof (hex_value_range _ _ Hb).
  apply (f_equal bz) in Hv. rewrite bz_zb_small in Hv by lia. change (bz slash) with 47 in Hv.
  assert (x = 2 /\ y = 15) as [-> ->] by lia. revert Ha Hb.
  destruct a as [[] [] [] [] [] [] [] []]; intros Ha; try discriminate Ha;
    destruct b as [[] [] [] [] [] [] [] []]; intros Hb; try discriminate Hb; reflexivity.
Qed.

Lemma split_byte_cons_ne c d s w ws :
  d <> c -> split_byte c s = w :: ws -> split_byte c (d :: s) = (d :: w) :: ws.
Proof. intros Hd E. cbn [split_byte]. destruct (Ascii.eqb_spec d c); [done|]. by rewrite E. Qed.

(** Without an escaped slash, the segments of the escaped path decode to the
    segments of the path. *)
Lemma decodes_segments e s :
  unescape_url encodePath e = Some s -> ~ occurs (lit "%2f") (lower_byte <$> e) ->
  Forall2 decodes (split_byte slash e) (split_byte slash s).
Proof.
  remember (length e) as n eqn:En. revert e s En. induction n as [n IH] using lt_wf_ind. intros e s ->.
  destruct e as [|c e]; [intros [= <-] _; repeat constructor|]. rewrite unescape_path_cons. intros H Hno.
  assert (forall k, ~ occurs (lit "%2f") (lower_byte <$> drop k (c :: e))) as Hdrop.
  { intros k Ho. apply Hno. rewrite <- (take_drop k (c :: e)), fmap_app. by apply occurs_app_r. }
  destruct (Ascii.eqb_spec c percent) as [->|Hc].
  - destruct e as [|a [|b e]]; [done|done|].
    destruct (hex_digit_value a) as [x|] eqn:Ea; [|done]. destruct (hex_digit_value b) as [y|] eqn:Eb; [|done].
    destruct (unescape_url encodePath e) as [t|] eqn:Et; [|done]. injection H as <-.
    specialize (IH (length e) ltac:(cbn; lia) e t eq_refl Et (Hdrop 3%nat)).
    assert (zb (x * 16 + y) <> slash) as Hv.
    { intros Hv. apply Hno. exists [], (lower_byte <$> e). cbn [app].
      rewrite <- (hex_slash a b x y Ea Eb Hv). done. }
    destruct (split_byte slash e) as [|w ws] eqn:Ew; [by apply split_byte_not_nil in Ew|].
    destruct (split_byte slash t) as [|u us] eqn:Eu; [by apply split_byte_not_nil in Eu|].
    apply Forall2_cons in IH as [Hd IH].
    rewrite (split_byte_cons_ne slash _ t u us Hv Eu).
    assert (split_byte slash (percent :: a :: b :: e) = (percent :: a :: b :: w) :: ws) as ->.
    { do 3 (apply split_byte_cons_ne; [try done; by eapply hex_not_slash|]). done. }
    apply Forall2_cons. split; [|done]. unfold decodes in *. rewrite unescape_path_cons.
    change (Ascii.eqb percent percent) with true. cbv iota. by rewrite Ea, Eb, Hd.
  - destruct (unescape_url encodePath e) as [t|] eqn:Et; [|done]. injection H as <-.
    specialize (IH (length e) ltac:(cbn; lia) e t eq_refl Et (Hdrop 1%nat)).
    destruct (Ascii.eqb_spec c slash) as [->|Hs].
    + cbn [split_byte]. change (Ascii.eqb slash slash) with true. cbv iota.
      apply Forall2_cons. split; [done|exact IH].
    + destruct (split_byte slash e) as [|w ws] eqn:Ew; [by apply split_byte_not_nil in Ew|].
      destruct (split_byte slash t) as [|u us] eqn:Eu; [by apply split_byte_not_nil in Eu|].
      apply Forall2_cons in IH as [Hd IH].
      rewrite (split_byte_cons_ne slash c e w ws), (split_byte_cons_ne slash c t u us) by done.
      apply Forall2_cons. split; [|done]. unfold decodes in *. rewrite unescape_path_cons.
      destruct (Ascii.eqb_spec c percent); [done|]. by rewrite Hd.
Qed.

Lemma unescape_plain s : percent ∉ s -> unescape_url encodePath s = Some s.
Proof.
  induction s as [|c s IH]; intros H; [done|]. apply not_elem_of_cons in H as [Hc H].
  rewrite unescape_path_cons. destruct (Ascii.eqb_spec c percent) as [->|_]; [done|]. by rewrite IH.
Qed.

Lemma segments_ok_spec segs :
  segments_ok segs = true ->
  (forall i seg, segs !! i = Some seg -> segment_name seg = [] -> (S i = length segs)%nat) /\
  Forall (fun seg => segment_name seg <> [] -> trim (segment_name seg) dots <> []) segs.
Proof.
  induction segs as [|x segs IH]; cbn [segments_ok]; [done|].
  destruct (bool_decide (segment_name x = []) && negb (bool_decide (segs = []))) eqn:E1; [done|].
  destruct (negb (bool_decide (segment_name x = [])) && bool_decide (trim (segment_name x) dots = [])) eqn:E2; [done|].
  intros [H1 H2]%IH. split.
  - intros [|i] seg; cbn [lookup list_lookup length].
    + intros [= ->] Hn. apply andb_false_iff in E1 as [E1|E1]; bool_inv; [done|]. by subst segs.
    + intros Hs Hn. f_equal. by eapply H1.
  - constructor; [|done]. intros Hn Ht. apply andb_false_iff in E2 as [E2|E2]; bool_inv; done.
Qed.

(** What an upstream that normalizes reads as a dot, as a semicolon, and as a
    slash, a backslash or a percent sign. *)
Definition dot_runes : list Z :=
  [0x2e; 0xff0e; 0xfe52; 0x2024; 0x2025; 0xfe30; 0x2026; 0xfe19; 0x3002; 0xff61].
Definition semicolon_runes : list Z := [0x3b; 0xff1b; 0xfe54; 0xfe14; 0x37e].
Definition lookalike_runes : list Z :=
  [0xff0f; 0xff3c; 0xfe68; 0xff05; 0xfe6a; 0x2100; 0x2101; 0x2105; 0x2106; 0x2215; 0x2044; 0x29f8; 0x29f5; 0x29f9; 0x2216].

(** The code points of a segment end, or its parameter starts. *)
Definition ends_name (rest : list Z) : Prop := rest = [] \/ exists r rest', rest = r :: rest' /\ r ∈ semicolon_runes.

(** A dot segment to such an upstream: dots alone, also with a parameter after
    them; and an empty one, also with a parameter. *)
Definition dot_segment (seg : gostr) : Prop :=
  exists ds rest, runes seg = ds ++ rest /\ ds <> [] /\ Forall (fun r => r ∈ dot_runes) ds /\ ends_name rest.
Definition empty_segment (seg : gostr) : Prop := ends_name (runes seg).

Lemma runes_app_rune s r n t :
  decode_rune s = (r, n) -> s <> [] -> r <> rune_error -> runes (take n s ++ t) = r :: runes t.
Proof.
  intros H Hs Hr. destruct (decode_rune_take s r n t H) as (Ht & Hn & H1); [|done|].
  { apply andb_false_iff. left. by apply Z.eqb_neq. }
  destruct s as [|c s]; [done|]. destruct n as [|n]; [lia|]. cbn [take app] in *. rewrite runes_cons, Ht. cbn [fst snd drop].
  rewrite drop_app_le by (rewrite length_take; cbn [length] in Hn; lia). rewrite drop_ge; [done|]. rewrite length_take. lia.
Qed.

Lemma runes_nil s : runes s = [] -> s = [].
Proof. destruct s as [|c s]; [done|]. rewrite runes_cons. done. Qed.

(** The name of a segment, by its code points. *)
Lemma before_rune_runes f ds rest : forall k s, (length s <= k)%nat -> runes s = ds ++ rest ->
  Forall (fun r => f r = false /\ r <> rune_error) ds -> (rest = [] \/ exists r rest', rest = r :: rest' /\ f r = true) ->
  runes (default s (before_rune_fuel k f s)) = ds.
Proof.
  induction ds as [|d ds IH]; intros k s Hk Hr Hd He.
  - destruct s as [|c s]; [by destruct k|]. destruct k as [|k]; [cbn in Hk; lia|]. rewrite runes_cons in Hr. cbn [before_rune_fuel].
    destruct (decode_rune (c :: s)) as [r n]. cbn [app fst] in Hr. destruct He as [->|(r' & rest' & -> & Hf)]; [done|]. injection Hr as -> _.
    by rewrite Hf.
  - destruct s as [|c s]; [done|]. destruct k as [|k]; [cbn in Hk; lia|]. rewrite runes_cons in Hr. cbn [before_rune_fuel].
    pose proof (decode_rune_width c s) as Hw. destruct (decode_rune (c :: s)) as [r n] eqn:Er. cbn [fst snd app] in *. injection Hr as -> Hr.
    apply Forall_cons in Hd as [[Hf Hne] Hd]. rewrite Hf.
    specialize (IH k (drop n (c :: s)) ltac:(rewrite length_drop; cbn [length] in *; lia) Hr Hd He).
    destruct (before_rune_fuel k f (drop n (c :: s))) as [t|]; cbn [fmap option_fmap option_map default] in *.
    + change (runes (take n (c :: s) ++ t) = d :: ds). rewrite (runes_app_rune _ d) by done. by f_equal.
    + change (runes (c :: s) = d :: ds). rewrite runes_cons, Er. by f_equal.
Qed.

Lemma trim_left_runes f s : Forall (fun r => f r = true) (runes s) -> trim_left f s = [].
Proof.
  unfold trim_left. assert (forall k s, (length s <= k)%nat -> Forall (fun r => f r = true) (runes s) -> trim_left_fuel k f s = []) as H; [|by apply H].
  clear s. induction k as [|k IH]; intros s Hk; destruct s as [|c s]; try done; [cbn in Hk; lia|].
  rewrite runes_cons. cbn [trim_left_fuel]. pose proof (decode_rune_width c s) as Hw.
  destruct (decode_rune (c :: s)) as [r n]. cbn [fst snd] in *. intros [Hf H]%Forall_cons. rewrite Hf. apply IH; [|done].
  rewrite length_drop. cbn [length] in *. lia.
Qed.

Lemma member_rune r l : existsb (Z.eqb r) l = true <-> r ∈ l.
Proof. rewrite existsb_true. split; [by intros (x & Hx & ->%Z.eqb_eq)|]. intros H. exists r. by rewrite Z.eqb_refl. Qed.

Lemma runes_dots : runes dots = dot_runes.
Proof. vm_compute. reflexivity. Qed.
Lemma runes_semicolons : runes semicolons = semicolon_runes.
Proof. vm_compute. reflexivity. Qed.
Lemma runes_lookalikes : runes lookalikes = lookalike_runes.
Proof. vm_compute. reflexivity. Qed.

Lemma segment_name_runes seg ds rest :
  runes seg = ds ++ rest -> Forall (fun r => r ∈ dot_runes) ds -> ends_name rest -> runes (segment_name seg) = ds.
Proof.
  intros Hs Hd He. unfold segment_name, before_any, before_rune. rewrite runes_semicolons. eapply before_rune_runes; [done|exact Hs| |].
  - assert (Forall (fun r => existsb (Z.eqb r) semicolon_runes = false /\ r <> rune_error) dot_runes) as H
      by (repeat (apply Forall_cons; split; [split; [reflexivity|discriminate]|]); constructor).
    rewrite Forall_forall in H. eapply Forall_impl; [exact Hd|]. exact H.
  - destruct He as [->|(r & rest' & -> & Hr)]; [by left|]. right. exists r, rest'. split; [done|]. by apply member_rune.
Qed.

Lemma dot_segment_refused seg : dot_segment seg -> segment_name seg <> [] /\ trim (segment_name seg) dots = [].
Proof.
  intros (ds & rest & Hs & Hne & Hd & He). pose proof (segment_name_runes _ _ _ Hs Hd He) as Hn. split.
  - intros E. rewrite E in Hn. by subst ds.
  - unfold trim. rewrite trim_left_runes; [done|]. rewrite Hn, runes_dots. eapply Forall_impl; [exact Hd|]. intros r. apply member_rune.
Qed.

Lemma empty_segment_name seg : empty_segment seg -> segment_name seg = [].
Proof. intros He. apply runes_nil. by eapply (segment_name_runes seg [] (runes seg)). Qed.

(** ** The prefix of a route path *)

Definition tail_ok (t : gostr) : Prop := t = [] \/ head t = Some slash.

Lemma decode_short y te s :
  tail_ok te -> unescape_url encodePath (y ++ te) = Some s ->
  (exists i, (i <= length y)%nat /\ s !! i = Some slash) \/ (length s <= length y)%nat.
Proof.
  intros Ht. remember (length y) as n eqn:En. revert y s En.
  induction n as [n IH] using lt_wf_ind. intros y s -> H. destruct y as [|c y].
  - cbn [app] in H. destruct Ht as [->|Ht]; [injection H as <-; by right|].
    destruct te as [|d te]; [done|]. injection Ht as ->. rewrite unescape_path_cons in H.
    change (Ascii.eqb slash percent) with false in H. cbv iota in H.
    destruct (unescape_url encodePath te); [|done]. injection H as <-. left. by exists 0%nat.
  - cbn [app] in H. rewrite unescape_path_cons in H.
    assert (forall k y' t v, (k < length (c :: y))%nat -> length y' = k -> unescape_url encodePath (y' ++ te) = Some t -> s = v :: t ->
      (exists i, (i <= length (c :: y))%nat /\ s !! i = Some slash) \/ (length s <= length (c :: y))%nat) as Hrec.
    { intros k y' t v Hk Hy' Hu ->. destruct (IH k Hk y' t (eq_sym Hy') Hu) as [(i & Hi & Hs)|Hl].
      - left. exists (S i). split; [lia|done].
      - right. cbn [length] in *. lia. }
    destruct (Ascii.eqb c percent).
    + destruct y as [|a [|b y]]; cbn [app] in H.
      * destruct te as [|d [|d' te]]; [done|done|]. destruct Ht as [Ht|Ht]; [done|]. injection Ht as ->. done.
      * destruct te as [|d te]; [done|]. destruct Ht as [Ht|Ht]; [done|]. injection Ht as ->.
        destruct (hex_digit_value a); done.
      * destruct (hex_digit_value a); [|done]. destruct (hex_digit_value b); [|done].
        destruct (unescape_url encodePath (y ++ te)) as [t|] eqn:Eu; [|done]. injection H as <-.
        apply (Hrec (length y) y t _ ltac:(cbn; lia) eq_refl Eu eq_refl).
    + destruct (unescape_url encodePath (y ++ te)) as [t|] eqn:Eu; [|done]. injection H as <-.
      apply (Hrec (length y) y t _ ltac:(cbn; lia) eq_refl Eu eq_refl).
Qed.

(** A segment that is the same escaped and decoded holds no escape. *)
Lemma prefix_plain x te ts :
  slash ∉ x -> tail_ok te -> unescape_url encodePath (x ++ te) = Some (x ++ ts) ->
  unescape_url encodePath te = Some ts.
Proof.
  intros Hx Ht. induction x as [|c x IH]; [done|]. apply not_elem_of_cons in Hx as [Hc Hx].
  cbn [app]. rewrite unescape_path_cons. destruct (Ascii.eqb_spec c percent) as [->|Hne].
  - intros H. exfalso.
    destruct (x ++ te) as [|a [|b e2]] eqn:Ex; [done|done|].
    destruct (hex_digit_value a) as [v1|] eqn:Ea; [|done]. destruct (hex_digit_value b) as [v2|] eqn:Eb; [|done].
    destruct (unescape_url encodePath e2) as [t|] eqn:Et; [|done]. injection H as Hv H.
    pose proof (hex_not_slash a v1 Ea) as Ha. pose proof (hex_not_slash b v2 Eb) as Hb.
    destruct x as [|a' [|b' x]]; cbn [app] in Ex.
    + destruct Ht as [->|Ht]; [done|]. rewrite Ex in Ht. by injection Ht as ->.
    + injection Ex as -> Ex. destruct Ht as [->|Ht]; [done|]. rewrite Ex in Ht. by injection Ht as ->.
    + injection Ex as -> -> Ex. subst e2. cbn [app] in H.
      destruct (decode_short x te t Ht Et) as [(i & Hi & Hs)|Hl].
      * rewrite H in Hs. destruct i as [|[|i]]; [injection Hs as ->; done|injection Hs as ->; done|].
        change ((x ++ ts) !! i = Some slash) in Hs. rewrite lookup_app_l in Hs by lia. apply Hx. rewrite !elem_of_cons. right. right.
        by eapply list_elem_of_lookup_2.
      * rewrite H in Hl. cbn [length] in Hl. rewrite length_app in Hl. lia.
  - destruct (unescape_url encodePath (x ++ te)) as [t|] eqn:Eu; [|done]. intros [= Ht']. subst t. by apply IH.
Qed.

Lemma splitPrefix_spec p sb rt rest :
  splitPrefix p = Some (sb, rt, rest) ->
  slash ∉ sb /\ slash ∉ rt /\ exists tl, p = slash :: sb ++ slash :: lit "r" ++ slash :: rt ++ tl /\
    ((tl = [] /\ rest = [slash]) \/ (tl = rest /\ head rest = Some slash)).
Proof.
  unfold splitPrefix. destruct (strip_prefix (lit "/") p) as [s|] eqn:E; [|done].
  apply strip_prefix_Some in E as ->.
  destruct (cut_at (lit "/") s) as [[a b]|] eqn:E1; [|done]. apply (cut_at_byte_inv slash) in E1 as [-> Ha].
  case_if; [done|]. destruct (cut_at (lit "/") b) as [[m s2]|] eqn:E2; [|done].
  apply (cut_at_byte_inv slash) in E2 as [-> Hm]. destruct (negb (bool_decide (m = lit "r"))) eqn:Er; [done|].
  bool_inv. subst m. unfold cut. destruct (cut_at (lit "/") s2) as [[r t]|] eqn:E3.
  - apply (cut_at_byte_inv slash) in E3 as [-> Hr]. case_if; [done|]. intros [= <- <- <-].
    split_and!; try done. exists (slash :: t). split; [done|]. right. done.
  - case_if; [done|]. intros [= <- <- <-]. apply (cut_at_byte slash) in E3. split_and!; try done.
    exists []. rewrite app_nil_r. split; [done|]. by left.
Qed.

(** The rest of the path is the decoded form of the rest of the escaped one. *)
Lemma splitRoutePath_spec u p :
  splitRoutePath u = Some p ->
  head (p_rest p) = Some slash /\ decodes (p_escapedRest p) (p_rest p) /\ all_ascii (p_escapedRest p) = true.
Proof.
  unfold splitRoutePath. pose proof (EscapedPath_unescape u) as Hu. pose proof (EscapedPath_ascii u) as Ha.
  destruct (splitPrefix (u_path u)) as [[[sb rt] rest]|] eqn:E; [|done].
  destruct (splitPrefix (EscapedPath u)) as [[[esb ert] erest]|] eqn:E'; [|done].
  case_if; [|done]. bool_inv. subst esb ert. intros [= <-]. cbn [p_rest p_escapedRest].
  apply splitPrefix_spec in E as (Hsb & Hrt & tl & Hp & Htl).
  apply splitPrefix_spec in E' as (_ & _ & tl' & Hp' & Htl').
  rewrite Hp, Hp' in Hu. rewrite Hp' in Ha.
  rewrite unescape_path_cons in Hu. change (Ascii.eqb slash percent) with false in Hu. cbv iota in Hu.
  destruct (unescape_url encodePath (sb ++ _)) as [t|] eqn:Eu; [|done]. injection Hu as ->.
  apply prefix_plain in Eu; [|done|by right].
  rewrite unescape_path_cons in Eu. change (Ascii.eqb slash percent) with false in Eu. cbv iota in Eu.
  cbn [lit String.list_ascii_of_string app] in Eu.
  rewrite unescape_path_cons in Eu. change (Ascii.eqb "r" percent) with false in Eu. cbv iota in Eu.
  rewrite unescape_path_cons in Eu. change (Ascii.eqb slash percent) with false in Eu. cbv iota in Eu.
  destruct (unescape_url encodePath (rt ++ tl')) as [t|] eqn:Et; [|done]. injection Eu as ->.
  assert (tail_ok tl') as Htok by (destruct Htl' as [[-> _]|[-> ?]]; [by left|by right]).
  apply prefix_plain in Et; [|done|done].
  assert (all_ascii erest = true) as Hae.
  { rewrite all_ascii_Forall in *. destruct Htl' as [[-> ->]|[-> _]]; [by repeat constructor|].
    apply Forall_cons in Ha as [_ Ha]. apply Forall_app in Ha as [_ Ha]. apply Forall_cons in Ha as [_ Ha].
    apply Forall_app in Ha as [_ Ha]. apply Forall_cons in Ha as [_ Ha]. by apply Forall_app in Ha as [_ Ha]. }
  destruct Htl as [[-> ->]|[-> Hh]], Htl' as [[-> ->]|[-> Hh']]; split_and!; try done.
  - exfalso. destruct erest as [|d erest]; [done|]. injection Hh' as ->. rewrite unescape_path_cons in Et.
    change (Ascii.eqb slash percent) with false in Et. cbv iota in Et. by destruct (unescape_url _ erest).
  - injection Et as <-. done.
Qed.

(** ** Properties *)

(** C23: A path that [canonical] takes reaches the upstream as it was checked,
    also where that upstream decodes twice, normalizes Unicode or strips path
    parameters.  The segments of the escaped path decode, one by one, to the
    segments of the path that request.allow reads; decoding the path a second
    time changes nothing; no segment is dots alone, or dots before a parameter,
    where a dot is any code point that normalizes to dots, and a parameter
    starts at any that normalizes to a semicolon; no segment but the last is
    empty or a parameter alone; no code point of the path looks like a slash, a
    backslash or a percent sign; it holds no control byte and no backslash; and
    on a route with repositories every byte is ASCII. *)
Theorem canonical_stable (u : url) (p : routePath) (repos : bool)
    (Hp : splitRoutePath u = Some p) (Hc : canonical (p_rest p) (p_escapedRest p) repos = true) :
  Forall2 decodes (split_byte slash (p_escapedRest p)) (split_byte slash (p_rest p)) /\
  unescape_url encodePath (p_rest p) = Some (p_rest p) /\
  Forall (fun seg => ~ dot_segment seg) (split_byte slash (p_rest p)) /\
  (forall i seg, split_byte slash (drop 1 (p_rest p)) !! i = Some seg -> empty_segment seg ->
     S i = length (split_byte slash (drop 1 (p_rest p)))) /\
  Forall (fun r => r ∉ lookalike_runes) (runes (p_rest p)) /\
  Forall (fun c => 32 <= bz c /\ bz c <> 127 /\ c <> "\"%char) (p_rest p) /\
  (repos = true -> Forall (fun c => bz c < 128) (p_rest p)).
Proof.
  unfold canonical in Hc. apply andb_true_iff in Hc as [Hc Hsegs]. apply andb_true_iff in Hc as [Hc Hlook].
  apply andb_true_iff in Hc as [Hesc Hbytes]. apply negb_true_iff in Hesc, Hbytes, Hlook.
  apply existsb_false in Hesc, Hbytes, Hlook. destruct (segments_ok_spec _ Hsegs) as [He Hd].
  destruct (splitRoutePath_spec u p Hp) as (Hhead & Hdec & Hascii).
  destruct (p_rest p) as [|c t] eqn:Ht; [done|]. injection Hhead as ->. cbn [drop] in *.
  split_and!.
  - apply decodes_segments; [done|]. rewrite Forall_forall in Hesc.
    rewrite <- to_lower_ascii by done. apply contains_false, Hesc. constructor.
  - apply unescape_plain. intros Hin. rewrite Forall_forall in Hbytes. specialize (Hbytes _ Hin).
    unfold refused_byte in Hbytes. bool_inv. done.
  - cbn [split_byte]. change (Ascii.eqb slash slash) with true. cbv iota. apply Forall_cons. split.
    + intros ([|d ds] & rest & Hr & Hne & _); done.
    + eapply Forall_impl; [exact Hd|]. intros seg Hs [H1 H2]%dot_segment_refused. by apply Hs.
  - intros i seg Hi Hn%empty_segment_name. by apply (He i seg).
  - eapply Forall_impl; [exact Hlook|]. intros r Hr Hin. rewrite runes_lookalikes in Hr. apply member_rune in Hin. congruence.
  - eapply Forall_impl; [exact Hbytes|]. intros b Hb.
    assert (b <> "\"%char) by (intros ->; revert Hb; vm_compute; done).
    unfold refused_byte in Hb. bool_inv. split_and!; [lia|lia|done].
  - intros ->. eapply Forall_impl; [exact Hbytes|]. intros b Hb. unfold refused_byte in Hb. bool_inv. lia.
Qed.

Definition example_url : url :=
  MkURL (lit "http") false (lit "brig.internal") (lit "/s1/r/gh/a b/info") [] false [] [].

Example canonical_stable_witness :
  Forall2 decodes (split_byte slash (lit "/a%20b/info")) (split_byte slash (lit "/a b/info")).
Proof.
  apply (canonical_stable example_url (MkRoutePath (lit "s1") (lit "gh") (lit "/a b/info") (lit "/a%20b/info")) false);
    vm_compute; reflexivity.
Defined.
