(* ===== verification/Spelling.v ===== *)
(** * The spellings of a session token (internal/broker/placeholder.go)

    The placeholder scan looks for a token in ten spellings: raw, percent and
    JSON escapes in either case, hex in either case, and base64 at the three
    alignments a token can have inside a longer encoded string.  The code holds
    no spelling; it computes byte [i] of one from the token ([at]).  The
    theorems say what these bytes are: each spelling is the encoding it names,
    and the base64 one occurs in the base64 of every longer string. *)

From S2P Require Import Prelude GoUnicode GoStrings Base64.
From stdpp Require Import prelude list strings.
From Stdlib Require Import ZArith Lia ZifyNat Ascii.

Local Open Scope Z_scope.

Inductive form :=
  | formRaw
  | formPercentUpper
  | formPercentLower
  | formJSONUpper
  | formJSONLower
  | formHexLower
  | formHexUpper
  | formBase64.

#[export] Instance form_eq_dec : EqDecision form.
Proof. solve_decision. Defined.

Definition upperHex : gostr := lit "0123456789ABCDEF".
Definition lowerHex : gostr := lit "0123456789abcdef".

(** [base64Skip]: the leading characters that also encode the bytes before the
    token, per alignment. *)
Definition base64Skip (align : nat) : nat :=
  match align with 0%nat => 0 | 1%nat => 2 | _ => 3 end.

Record spelling := Spelling { sp_tok : nat; sp_form : form; sp_align : nat }.

#[export] Instance spelling_eq_dec : EqDecision spelling.
Proof. solve_decision. Defined.

Definition spellingsOf (tok : nat) : list spelling :=
  [Spelling tok formRaw 0; Spelling tok formPercentUpper 0; Spelling tok formPercentLower 0;
   Spelling tok formJSONUpper 0; Spelling tok formJSONLower 0;
   Spelling tok formHexLower 0; Spelling tok formHexUpper 0]
  ++ (Spelling tok formBase64 <$> seq 0 3).

Definition encoding (s : spelling) : gostr :=
  match sp_form s with
  | formRaw => lit "raw"
  | formPercentUpper | formPercentLower => lit "percent"
  | formJSONUpper | formJSONLower => lit "json"
  | formHexLower | formHexUpper => lit "hex"
  | formBase64 => lit "base64"
  end.

(** [spelling.length], from the length of the token.  A token is never empty;
    the subtraction is on [Z] because the code's is on [int]. *)
Definition spelling_length (s : spelling) (tok : gostr) : Z :=
  let n := Z.of_nat (length tok) in
  match sp_form s with
  | formRaw => n
  | formPercentUpper | formPercentLower => 3 * n
  | formJSONUpper | formJSONLower => 6 * n
  | formHexLower | formHexUpper => 2 * n
  | formBase64 =>
      let l := Z.of_nat (sp_align s) + n in
      let full := (l * 8 + 5) / 6 in
      let full := if l mod 3 =? 0 then full else full - 1 in
      full - Z.of_nat (base64Skip (sp_align s))
  end.

(** [digits[v]] and [tok[i]]; every index the code uses is in range. *)
Definition digit (digits : gostr) (v : Z) : byte := nth (Z.to_nat v) digits Ascii.zero.
Definition tok_at (tok : gostr) (i : nat) : Z := byte_or_0 tok i.

(** The base64 case of [spelling.at] indexes the token by a signed integer and
    reads zero outside it. *)
Definition tok_at_z (tok : gostr) (x : Z) : Z :=
  if (x <? 0) || (Z.of_nat (length tok) <=? x) then 0 else byte_or_0 tok (Z.to_nat x).

(** Byte [i] of the spelling of [tok]. *)
Definition at_ (s : spelling) (tok : gostr) (i : nat) : byte :=
  match sp_form s with
  | formRaw => zb (tok_at tok i)
  | formPercentUpper | formPercentLower =>
      let digits := match sp_form s with formPercentLower => lowerHex | _ => upperHex end in
      let c := tok_at tok (i / 3) in
      match (i mod 3)%nat with
      | 0%nat => "%"%char
      | 1%nat => digit digits (Z.shiftr c 4)
      | _ => digit digits (Z.land c 15)
      end
  | formJSONUpper | formJSONLower =>
      let digits := match sp_form s with formJSONLower => lowerHex | _ => upperHex end in
      let c := tok_at tok (i / 6) in
      match (i mod 6)%nat with
      | 0%nat => "\"%char
      | 1%nat => "u"%char
      | 2%nat | 3%nat => "0"%char
      | 4%nat => digit digits (Z.shiftr c 4)
      | _ => digit digits (Z.land c 15)
      end
  | formHexLower | formHexUpper =>
      let digits := match sp_form s with formHexLower => lowerHex | _ => upperHex end in
      if (i mod 2 =? 0)%nat then digit digits (Z.shiftr (tok_at tok (i / 2)) 4)
      else digit digits (Z.land (tok_at tok (i / 2)) 15)
  | formBase64 =>
      let j := (i + base64Skip (sp_align s))%nat in
      let g := Z.of_nat (j / 4 * 3) - Z.of_nat (sp_align s) in
      let b := tok_at_z tok in
      sym std_alphabet
        (match (j mod 4)%nat with
         | 0%nat => Z.shiftr (b g) 2
         | 1%nat => Z.lor (Z.shiftl (Z.land (b g) 3) 4) (Z.shiftr (b (g + 1)) 4)
         | 2%nat => Z.lor (Z.shiftl (Z.land (b (g + 1)) 15) 2) (Z.shiftr (b (g + 2)) 6)
         | _ => Z.land (b (g + 2)) 63
         end)
  end.

(** The whole spelling, byte by byte. *)
Definition render (s : spelling) (tok : gostr) : gostr :=
  at_ s tok <$> seq 0 (Z.to_nat (spelling_length s tok)).

Lemma length_render s tok : length (render s tok) = Z.to_nat (spelling_length s tok).
Proof. unfold render. by rewrite length_fmap, length_seq. Qed.

Lemma render_lookup s tok i :
  (i < Z.to_nat (spelling_length s tok))%nat -> render s tok !! i = Some (at_ s tok i).
Proof.
  intros H. unfold render. rewrite list_lookup_fmap, lookup_seq_lt by done. done.
Qed.

(** ** What each spelling is *)

(** A byte escaped with a prefix and two hex digits. *)
Definition hex_byte (digits : gostr) (c : byte) : gostr :=
  [digit digits (Z.shiftr (bz c) 4); digit digits (Z.land (bz c) 15)].

Definition escape (prefix digits : gostr) (tok : gostr) : gostr :=
  tok ≫= fun c => prefix ++ hex_byte digits c.

(** The encoding that a form other than base64 names. *)
Definition reference (f : form) (tok : gostr) : gostr :=
  match f with
  | formRaw => tok
  | formPercentUpper => escape (lit "%") upperHex tok
  | formPercentLower => escape (lit "%") lowerHex tok
  | formJSONUpper => escape (lit "\u00") upperHex tok
  | formJSONLower => escape (lit "\u00") lowerHex tok
  | formHexLower => escape [] lowerHex tok
  | formHexUpper => escape [] upperHex tok
  | formBase64 => std_encode tok
  end.

(** A list built from chunks of one size is looked up by quotient and
    remainder. *)
Lemma bind_lookup {A B} (f : A -> list B) (k : nat) (l : list A) (i : nat) :
  (0 < k)%nat -> (forall a, length (f a) = k) ->
  (l ≫= f) !! i = (l !! (i / k)%nat) ≫= fun a => f a !! (i mod k)%nat.
Proof.
  intros Hk Hf. revert i. induction l as [|a l IH]; intros i; [done|].
  cbn [mbind list_bind]. destruct (Nat.lt_ge_cases i k) as [Hlt|Hge].
  - rewrite lookup_app_l by (rewrite Hf; done). rewrite Nat.div_small, Nat.mod_small by done. done.
  - rewrite lookup_app_r by (rewrite Hf; done). rewrite Hf, IH.
    assert (exists j, i = j + 1 * k)%nat as [j ->] by (exists (i - k)%nat; lia).
    rewrite Nat.div_add, Nat.Div0.mod_add by lia.
    replace (j + 1 * k - k)%nat with j by lia. rewrite Nat.add_comm. done.
Qed.

Lemma length_bind {A B} (f : A -> list B) (k : nat) (l : list A) :
  (forall a, length (f a) = k) -> length (l ≫= f) = (k * length l)%nat.
Proof.
  intros Hf. induction l as [|a l IH]; [simpl; lia|].
  change ((a :: l) ≫= f) with (f a ++ (l ≫= f)). rewrite length_app, Hf, IH. simpl. lia.
Qed.

Lemma escape_lookup prefix digits tok i :
  escape prefix digits tok !! i =
  (tok !! (i / (length prefix + 2))%nat) ≫= fun c =>
    (prefix ++ hex_byte digits c) !! (i mod (length prefix + 2))%nat.
Proof.
  unfold escape. apply bind_lookup; [lia|]. intros c. rewrite length_app. simpl. lia.
Qed.

Lemma length_escape prefix digits tok :
  length (escape prefix digits tok) = ((length prefix + 2) * length tok)%nat.
Proof. apply length_bind. intros c. rewrite length_app. simpl. lia. Qed.

Lemma tok_at_lookup tok i c : tok !! i = Some c -> tok_at tok i = bz c.
Proof. unfold tok_at, byte_or_0. by intros ->. Qed.

(** Byte [i] of an escaped spelling, compared with the reference. *)
Lemma list_eq_render s tok (l : gostr) :
  length l = Z.to_nat (spelling_length s tok) ->
  (forall i, (i < length l)%nat -> l !! i = Some (at_ s tok i)) -> render s tok = l.
Proof.
  intros Hlen H. apply list_eq. intros i.
  destruct (Nat.lt_ge_cases i (length l)) as [Hlt|Hge].
  - rewrite render_lookup by lia. symmetry. auto.
  - rewrite !lookup_ge_None_2; [done | lia | rewrite length_render; lia].
Qed.

Lemma render_escape s tok prefix digits k :
  k = (length prefix + 2)%nat ->
  Z.to_nat (spelling_length s tok) = (k * length tok)%nat ->
  (forall i c, tok !! (i / k)%nat = Some c ->
     (prefix ++ hex_byte digits c) !! (i mod k)%nat = Some (at_ s tok i)) ->
  render s tok = escape prefix digits tok.
Proof.
  intros -> Hlen H. apply list_eq_render; [rewrite length_escape; done|].
  intros i Hi. rewrite length_escape in Hi. rewrite escape_lookup.
  destruct (lookup_lt_is_Some_2 tok (i / (length prefix + 2))) as [c Hc].
  { apply Nat.Div0.div_lt_upper_bound. lia. }
  rewrite Hc. simpl. by apply H.
Qed.

(** The value of [i mod k] case by case, for a small [k]. *)
Ltac mod_cases i k :=
  let H := fresh in
  pose proof (Nat.mod_upper_bound i k ltac:(lia)) as H;
  destruct (i mod k)%nat as [|[|[|[|[|[|?]]]]]]; try (exfalso; lia); clear H.

Lemma render_reference tok n f : f <> formBase64 -> render (Spelling n f 0) tok = reference f tok.
Proof.
  intros Hf. destruct f; try congruence; cbn [reference].
  1:{ apply list_eq_render; cbn; [lia|]. intros i Hi.
      destruct (lookup_lt_is_Some_2 tok i Hi) as [c Hc]. rewrite Hc.
      cbn. rewrite (tok_at_lookup _ _ _ Hc). by rewrite zb_bz. }
  all: first
    [ apply (render_escape _ _ _ _ 3); [reflexivity | cbn; lia |]
    | apply (render_escape _ _ _ _ 6); [reflexivity | cbn; lia |]
    | apply (render_escape _ _ _ _ 2); [reflexivity | cbn; lia |] ];
    intros i c Hc; unfold at_; cbn [sp_form sp_align];
    rewrite (tok_at_lookup _ _ _ Hc); clear Hc.
  1,2: mod_cases i 3%nat; reflexivity.
  1,2: mod_cases i 6%nat; reflexivity.
  all: mod_cases i 2%nat; reflexivity.
Qed.

(** ** The base64 spelling inside a longer encoding *)

(** Character [4 * k + j] of the encoding of [pre ++ tok ++ post], where [pre]
    has [3 * k + align] bytes, reads the token's bytes at the offsets that [at]
    reads. *)
Lemma byte_or_0_middle pre tok post k align x :
  length pre = (3 * k + align)%nat -> (align <= x)%nat -> (x - align < length tok)%nat ->
  byte_or_0 (pre ++ tok ++ post) (3 * k + x) = tok_at_z tok (Z.of_nat x - Z.of_nat align).
Proof.
  intros Hpre Hx Hlt. unfold byte_or_0, tok_at_z.
  rewrite lookup_app_r by lia. rewrite Hpre.
  replace (3 * k + x - (3 * k + align))%nat with (x - align)%nat by lia.
  rewrite lookup_app_l by done.
  replace ((Z.of_nat x - Z.of_nat align <? 0) || (Z.of_nat (length tok) <=? Z.of_nat x - Z.of_nat align))
    with false by (symmetry; apply orb_false_iff; lia).
  unfold byte_or_0. by replace (Z.to_nat (Z.of_nat x - Z.of_nat align)) with (x - align)%nat by lia.
Qed.

Lemma sextet_shift s k j :
  sextet s (4 * k + j) =
  group_sextet (j mod 4) (byte_or_0 s (3 * k + j / 4 * 3))
    (byte_or_0 s (3 * k + (j / 4 * 3 + 1))) (byte_or_0 s (3 * k + (j / 4 * 3 + 2))).
Proof.
  unfold sextet. replace (4 * k + j)%nat with (j + k * 4)%nat by lia.
  rewrite Nat.div_add, Nat.Div0.mod_add by lia.
  do 2 f_equal; lia.
Qed.

(** The indices of a base64 spelling stay in the whole sextets of the token. *)
Lemma base64_index_bound n align i :
  (align <= 2)%nat ->
  Z.of_nat i < spelling_length (Spelling 0 formBase64 align) n ->
  let j := (i + base64Skip align)%nat in
  (j < (length n + align) / 3 * 4 + (length n + align) mod 3)%nat.
Proof.
  intros Ha. unfold spelling_length. cbn [sp_form sp_align]. intros Hi. cbn zeta.
  destruct align as [|[|[|]]]; [| | |lia]; cbn [base64Skip] in *;
    match type of Hi with context [?a =? 0] => destruct (Z.eqb_spec a 0) end; cbv iota in Hi; div_lia.
Qed.

Definition is_base64 (s : spelling) : Prop := sp_form s = formBase64.

(** The characters of a base64 spelling are the sextets of any string that
    holds the token at its alignment. *)
Lemma at_base64 n align tok pre post k i :
  (align <= 2)%nat -> length pre = (3 * k + align)%nat ->
  Z.of_nat i < spelling_length (Spelling n formBase64 align) tok ->
  at_ (Spelling n formBase64 align) tok i
  = sym std_alphabet (sextet (pre ++ tok ++ post) (4 * k + (i + base64Skip align))).
Proof.
  intros Ha Hpre Hi. pose proof (base64_index_bound tok align i Ha Hi) as Hj. cbn zeta in Hj.
  unfold at_. cbn [sp_form sp_align]. f_equal. rewrite sextet_shift.
  assert (base64Skip align <= i + base64Skip align)%nat as Hskip by lia.
  revert Hj Hskip. generalize (i + base64Skip align)%nat as j. intros j Hj Hskip.
  pose proof (Nat.mod_upper_bound j 4 ltac:(lia)) as Hm.
  pose proof (Nat.div_mod_eq j 4) as Hdm.
  set (q := (j / 4)%nat) in *. set (m := (j mod 4)%nat) in *. clearbody q m.
  assert (base64Skip align = match align with 0 => 0 | 1 => 2 | _ => 3 end)%nat as Hsk by done.
  pose proof (Nat.div_mod_eq (length tok + align) 3) as Hl.
  pose proof (Nat.mod_upper_bound (length tok + align) 3 ltac:(lia)) as Hlm.
  set (ql := ((length tok + align) / 3)%nat) in *.
  set (ml := ((length tok + align) mod 3)%nat) in *. clearbody ql ml.
  assert (forall x, (align <= q * 3 + x)%nat -> (q * 3 + x - align < length tok)%nat ->
    byte_or_0 (pre ++ tok ++ post) (3 * k + (q * 3 + x))
    = tok_at_z tok (Z.of_nat (q * 3) - Z.of_nat align + Z.of_nat x)) as Hb.
  { intros x Hx1 Hx2. rewrite (byte_or_0_middle _ _ _ _ align) by done. f_equal. lia. }
  destruct m as [|[|[|[|m]]]]; [| | | |lia]; cbn [group_sextet].
  - f_equal. rewrite <- (Nat.add_0_r (q * 3)) at 2. rewrite Hb by (destruct align as [|[|[|]]]; lia).
    f_equal. lia.
  - rewrite <- (Nat.add_0_r (q * 3)) at 3. rewrite !Hb by (destruct align as [|[|[|]]]; lia).
    do 4 f_equal; lia.
  - rewrite !Hb by (destruct align as [|[|[|]]]; lia). done.
  - rewrite !Hb by (destruct align as [|[|[|]]]; lia). done.
Qed.

(** The base64 spelling at the alignment of the token occurs in the padded
    base64 of every string that holds the token. *)
Lemma base64_occurs n tok pre post :
  (32 <= length tok)%nat ->
  occurs (render (Spelling n formBase64 (length pre mod 3)) tok) (std_encode (pre ++ tok ++ post)).
Proof.
  intros Htok. set (align := (length pre mod 3)%nat). set (k := (length pre / 3)%nat).
  assert (align <= 2)%nat as Ha.
  { subst align. pose proof (Nat.mod_upper_bound (length pre) 3 ltac:(lia)). lia. }
  assert (length pre = 3 * k + align)%nat as Hpre by apply Nat.div_mod_eq.
  clearbody align k.
  unfold std_encode. apply occurs_app_l.
  set (e := encode_raw std_alphabet (pre ++ tok ++ post)).
  set (r := render (Spelling n formBase64 align) tok).
  set (off := (4 * k + base64Skip align)%nat).
  assert (forall i, (i < length r)%nat -> e !! (off + i)%nat = r !! i) as Heq.
  { intros i Hi. subst r. rewrite length_render in Hi. rewrite render_lookup by done.
    rewrite (at_base64 _ _ _ pre post k) by (done || lia).
    subst e off. rewrite encode_raw_lookup.
    - do 3 f_equal. lia.
    - pose proof (base64_index_bound tok align i Ha ltac:(cbn in Hi |- *; lia)) as Hj. cbn zeta in Hj.
      unfold raw_length. rewrite !length_app, Hpre. div_lia. }
  exists (take off e), (drop (off + length r) e).
  rewrite <- (take_drop off e) at 1. f_equal.
  rewrite <- (take_drop (length r) (drop off e)) at 1. rewrite drop_drop. f_equal.
  apply list_eq. intros i. destruct (Nat.lt_ge_cases i (length r)) as [Hlt|Hge].
  - rewrite lookup_take_lt, lookup_drop by done. by apply Heq.
  - rewrite !lookup_ge_None_2; [done | done |]. rewrite length_take. lia.
Qed.

(** The spellings of a token: one per form, and base64 at three alignments. *)
Lemma elem_of_spellingsOf i s :
  s ∈ spellingsOf i <->
  sp_tok s = i /\
  ((sp_form s <> formBase64 /\ sp_align s = 0%nat) \/ (sp_form s = formBase64 /\ (sp_align s < 3)%nat)).
Proof.
  unfold spellingsOf. rewrite elem_of_app, list_elem_of_fmap. split.
  - intros [H|(a & -> & Ha)].
    + rewrite !elem_of_cons, elem_of_nil in H. repeat destruct H as [->|H]; try done; split; auto; by left.
    + apply elem_of_seq in Ha. split; [done|]. right. cbn. split; [done|lia].
  - destruct s as [t f a]. cbn. intros [-> [[Hf ->]|[-> Ha]]].
    + left. rewrite !elem_of_cons. destruct f; try done; tauto.
    + right. exists a. split; [done|]. rewrite !elem_of_cons, elem_of_nil. lia.
Qed.
