(* ===== verification/Matcher.v ===== *)
(** * The token matcher of the placeholder scan (internal/broker/placeholder.go)

    [find] looks for every spelling of every live token in one pass, by a
    rolling hash of 32-byte windows, a bit filter on the top hash bits, a binary
    search in the anchors sorted by hash, and a byte comparison.  The theorem of
    the file is that this is substring search: it finds a hit exactly when the
    bytes hold a spelling of at least 32 bytes. *)

From S2P Require Import Prelude GoUnicode GoStrings Base64 Spelling.
From stdpp Require Import prelude list strings gmap sorting.
From Stdlib Require Import ZArith Lia ZifyNat Ascii.

Local Open Scope Z_scope.

Definition anchorLen : nat := 32.
Definition hashBase : Z := 1099511628211.
Definition anchorBits : Z := 20.

(** [uint64] arithmetic. *)
Definition u64 (z : Z) : Z := z mod 2 ^ 64.

Record liveToken := LiveToken { lt_token : gostr; lt_route : gostr; lt_exp : Z }.

#[export] Instance liveToken_eq_dec : EqDecision liveToken.
Proof. solve_decision. Defined.

Record anchored := Anchored { a_hash : Z; a_sp : spelling }.

(** The filter is an array of [1 << anchorBits / 64] words, all zero at first;
    a word that is not in the map is zero. *)
Record matcher := Matcher {
  m_tokens : list liveToken;
  m_anchors : list anchored;
  m_filter : gmap Z Z;
  m_pow : Z;
  m_longest : Z;
}.

Record hit := Hit { hit_route : gostr; hit_encoding : gostr }.

#[export] Instance hit_eq_dec : EqDecision hit.
Proof. solve_decision. Defined.

(** One step of the hash. *)
Definition hash_step (h : Z) (c : byte) : Z := u64 (h * hashBase + bz c).

(** The hash of the last [anchorLen] bytes of a spelling of length [n]. *)
Definition anchor_hash (s : spelling) (tok : gostr) : Z :=
  let n := Z.to_nat (spelling_length s tok) in
  foldl hash_step 0 (at_ s tok <$> seq (n - anchorLen) anchorLen).

Definition filter_bit (h : Z) : Z := Z.shiftr h (64 - anchorBits).

Definition filter_set (f : gmap Z Z) (h : Z) : gmap Z Z :=
  let bit := filter_bit h in
  <[bit / 64 := Z.lor (default 0 (f !! (bit / 64))) (Z.shiftl 1 (bit mod 64))]> f.

Definition filter_test (f : gmap Z Z) (h : Z) : bool :=
  let bit := filter_bit h in
  negb (Z.land (default 0 (f !! (bit / 64))) (Z.shiftl 1 (bit mod 64)) =? 0).

(** The body of the two loops of [newMatcher]. *)
Definition add_spelling (m : matcher) (x : gostr * spelling) : matcher :=
  let '(tok, s) := x in
  let n := spelling_length s tok in
  if n <? Z.of_nat anchorLen then m
  else
    let h := anchor_hash s tok in
    Matcher (m_tokens m) (m_anchors m ++ [Anchored h s]) (filter_set (m_filter m) h)
      (m_pow m) (Z.max (m_longest m) n).

(** The spellings of the tokens, in the order the loops visit them. *)
Definition all_spellings (live : list liveToken) : list (gostr * spelling) :=
  imap (fun i l => (i, l)) live ≫= fun '(i, l) => (fun s => (lt_token l, s)) <$> spellingsOf i.

Definition hash_le (a b : anchored) : Prop := a_hash a <= a_hash b.

#[export] Instance hash_le_dec : RelDecision hash_le.
Proof. intros a b. unfold hash_le. apply _. Defined.

Definition sort_anchors (m : matcher) : matcher :=
  Matcher (m_tokens m) (merge_sort hash_le (m_anchors m)) (m_filter m) (m_pow m) (m_longest m).

Definition newMatcher (live : list liveToken) : matcher :=
  let pow := Nat.iter (anchorLen - 1) (fun p => u64 (p * hashBase)) 1 in
  sort_anchors (foldl add_spelling (Matcher live [] ∅ pow 0) (all_spellings live)).

(** [matcher.endsWith]: [b] ends with spelling [s], compared from its first
    byte. *)
Definition token_of (m : matcher) (s : spelling) : gostr :=
  match m_tokens m !! sp_tok s with Some l => lt_token l | None => [] end.

Definition endsWith (m : matcher) (b : gostr) (s : spelling) : bool :=
  let tok := token_of m s in
  let n := spelling_length s tok in
  if Z.of_nat (length b) <? n then false
  else
    let b := drop (length b - Z.to_nat n) b in
    forallb (fun i => match b !! i with Some c => Ascii.eqb c (at_ s tok i) | None => false end)
      (seq 0 (Z.to_nat n)).

(** The anchors from index [i] on, while their hash is [h]. *)
Fixpoint walk (m : matcher) (h : Z) (b : gostr) (l : list anchored) : option hit :=
  match l with
  | [] => None
  | a :: l' =>
    if a_hash a =? h then
      if endsWith m b (a_sp a)
      then Some (Hit (match m_tokens m !! sp_tok (a_sp a) with
                      | Some t => lt_route t | None => [] end) (encoding (a_sp a)))
      else walk m h b l'
    else None
  end.

(** The anchor lookup of one window: [b] is [b[:end]] and [h] the hash of its
    last [anchorLen] bytes. *)
Definition probe (m : matcher) (b : gostr) (h : Z) : option hit :=
  if filter_test (m_filter m) h then
    let i := sort_search (length (m_anchors m))
      (fun i => match m_anchors m !! i with Some a => h <=? a_hash a | None => false end) in
    walk m h b (drop i (m_anchors m))
  else None.

(** The hash of the window one byte further: [x] leaves it and [c] enters. *)
Definition roll (pow h : Z) (x c : byte) : Z := u64 ((h - bz x * pow) * hashBase + bz c).

Fixpoint find_loop (fuel : nat) (m : matcher) (b : gostr) (end_ : nat) (h : Z) : option hit :=
  match probe m (take end_ b) h with
  | Some x => Some x
  | None =>
    match fuel with
    | O => None
    | S k =>
      match b !! (end_ - anchorLen)%nat, b !! end_ with
      | Some x, Some c => find_loop k m b (S end_) (roll (m_pow m) h x c)
      | _, _ => None
      end
    end
  end.

(** [matcher.find]. *)
Definition find (m : matcher) (b : gostr) : option hit :=
  if (length b <? anchorLen)%nat || bool_decide (m_anchors m = []) then None
  else find_loop (length b - anchorLen) m b anchorLen (foldl hash_step 0 (take anchorLen b)).

(** ** What the scan looks for *)

(** [w] is a spelling of a live token, long enough to be anchored, and [h] is
    the hit that names it. *)
Definition scanned (live : list liveToken) (h : hit) (w : gostr) : Prop :=
  exists i l s, live !! i = Some l /\ s ∈ spellingsOf i /\
    Z.of_nat anchorLen <= spelling_length s (lt_token l) /\
    h = Hit (lt_route l) (encoding s) /\ w = render s (lt_token l).

(** The specification: substring search. *)
Definition holds_spelling (live : list liveToken) (b : gostr) (h : hit) : Prop :=
  exists w, scanned live h w /\ occurs w b.

(** ** The rolling hash *)

(** The hash without the 64-bit wrap-around. *)
Definition poly (b : gostr) : Z := foldl (fun h c => h * hashBase + bz c) 0 b.

Lemma u64_mul_add a k c : u64 (u64 a * k + c) = u64 (a * k + c).
Proof. unfold u64. by rewrite <- Z.add_mod_idemp_l, Z.mul_mod_idemp_l, Z.add_mod_idemp_l by done. Qed.

Lemma foldl_poly l a : foldl (fun h c => h * hashBase + bz c) a l = a * hashBase ^ Z.of_nat (length l) + poly l.
Proof.
  unfold poly. revert a. induction l as [|c l IH] using rev_ind; intros a; [cbn; lia|].
  rewrite !foldl_snoc, IH, length_app. cbn [length].
  replace (Z.of_nat (length l + 1)) with (Z.of_nat (length l) + 1) by lia.
  rewrite Z.pow_add_r by lia. lia.
Qed.

Lemma hash_poly b : foldl hash_step 0 b = u64 (poly b).
Proof.
  induction b as [|c b IH] using rev_ind; [done|].
  unfold poly in *. rewrite !foldl_snoc, IH. apply u64_mul_add.
Qed.

Lemma poly_cons x b : poly (x :: b) = bz x * hashBase ^ Z.of_nat (length b) + poly b.
Proof. unfold poly at 1. cbn [foldl]. rewrite foldl_poly. f_equal. Qed.

Lemma poly_snoc b c : poly (b ++ [c]) = poly b * hashBase + bz c.
Proof. unfold poly. by rewrite foldl_snoc. Qed.

(** [pow] is the weight of the byte that leaves the window. *)
Definition window_pow : Z := u64 (hashBase ^ Z.of_nat (anchorLen - 1)).

Lemma newMatcher_pow live : m_pow (newMatcher live) = window_pow.
Proof.
  unfold newMatcher, sort_anchors. cbn [m_pow].
  assert (forall l m, m_pow (foldl add_spelling m l) = m_pow m) as H.
  { intros l. induction l as [|[tok s] l IH]; intros m; [done|]. cbn [foldl]. rewrite IH.
    unfold add_spelling. case_match; reflexivity. }
  rewrite H. vm_compute. done.
Qed.

Lemma roll_mod M B P x y c :
  M <> 0 -> (((x * P + y) mod M - x * (P mod M)) * B + c) mod M = (y * B + c) mod M.
Proof.
  intros HM. rewrite (Z.mod_eq (x * P + y) M) by done.
  rewrite (Z.mod_eq P M) by done.
  replace ((x * P + y - M * ((x * P + y) / M) - x * (P - M * (P / M))) * B + c)
    with ((y * B + c) + ((x * (P / M) - (x * P + y) / M) * B) * M) by ring.
  by apply Z.mod_add.
Qed.

(** Rolling a window gives the hash of the next one. *)
Lemma roll_window x w c :
  length w = (anchorLen - 1)%nat ->
  roll window_pow (u64 (poly (x :: w))) x c = u64 (poly (w ++ [c])).
Proof.
  intros Hw. rewrite poly_snoc, poly_cons, Hw. unfold roll, window_pow.
  unfold u64. apply roll_mod. done.
Qed.

(** ** What [newMatcher] builds *)

Definition anchored_of (x : gostr * spelling) : anchored := Anchored (anchor_hash x.2 x.1) x.2.
Definition long (x : gostr * spelling) : Prop := Z.of_nat anchorLen <= spelling_length x.2 x.1.

#[export] Instance long_dec x : Decision (long x).
Proof. unfold long. apply _. Defined.

Lemma add_spelling_eq m x :
  add_spelling m x =
  if decide (long x)
  then Matcher (m_tokens m) (m_anchors m ++ [anchored_of x])
         (filter_set (m_filter m) (a_hash (anchored_of x))) (m_pow m)
         (Z.max (m_longest m) (spelling_length x.2 x.1))
  else m.
Proof.
  destruct x as [tok s]. unfold add_spelling, long, anchored_of. cbn [fst snd a_hash].
  destruct (Z.ltb_spec (spelling_length s tok) (Z.of_nat anchorLen)) as [Hlt|Hge].
  - rewrite decide_False; [reflexivity | by apply Z.lt_nge].
  - by rewrite decide_True.
Qed.

Lemma fold_tokens m l : m_tokens (foldl add_spelling m l) = m_tokens m.
Proof.
  revert m. induction l as [|x l IH]; intros m; [done|]. cbn [foldl].
  rewrite IH, add_spelling_eq. case_decide; done.
Qed.

Lemma fold_anchors m l :
  m_anchors (foldl add_spelling m l) = m_anchors m ++ (anchored_of <$> filter long l).
Proof.
  revert m. induction l as [|x l IH]; intros m; cbn [foldl].
  - symmetry. apply app_nil_r.
  - rewrite IH, add_spelling_eq, filter_cons.
    destruct (decide (long x)); [|reflexivity]. cbn [m_anchors].
    rewrite <- app_assoc. reflexivity.
Qed.

Lemma fold_longest m l : m_longest m <= m_longest (foldl add_spelling m l).
Proof.
  revert m. induction l as [|x l IH]; intros m; cbn [foldl]; [lia|].
  etransitivity; [|apply IH]. rewrite add_spelling_eq. case_decide; cbn; lia.
Qed.

Lemma fold_longest_bound m l x :
  x ∈ l -> long x -> spelling_length x.2 x.1 <= m_longest (foldl add_spelling m l).
Proof.
  revert m. induction l as [|y l IH]; intros m; [by intros ?%not_elem_of_nil|].
  intros [->|Hx]%elem_of_cons Hl; cbn [foldl]; [|by apply IH].
  etransitivity; [|apply fold_longest]. rewrite add_spelling_eq, decide_True by done. cbn. lia.
Qed.

(** The filter answers yes for every hash that was set. *)
Lemma filter_test_word (f : gmap Z Z) h :
  filter_test f h = Z.testbit (default 0 (f !! (filter_bit h / 64))) (filter_bit h mod 64).
Proof.
  unfold filter_test. pose proof (Z.mod_pos_bound (filter_bit h) 64 eq_refl) as Hb.
  set (w := default 0 _). set (k := filter_bit h mod 64) in *. clearbody w k.
  assert (Z.land w (Z.shiftl 1 k) = if Z.testbit w k then Z.shiftl 1 k else 0) as ->.
  { apply Z.bits_inj'. intros n Hn. rewrite Z.land_spec, Z.shiftl_1_l.
    rewrite Z.pow2_bits_eqb by lia.
    destruct (Z.eqb_spec k n) as [->|Hne].
    - destruct (Z.testbit w n) eqn:E; rewrite ?Z.bits_0, ?andb_true_r; [|done].
      rewrite Z.pow2_bits_eqb, Z.eqb_refl by lia. done.
    - rewrite andb_false_r. destruct (Z.testbit w k); rewrite ?Z.bits_0; [|done].
      rewrite Z.pow2_bits_eqb by lia. symmetry. by apply Z.eqb_neq. }
  destruct (Z.testbit w k); [|done].
  rewrite Z.shiftl_1_l. destruct (Z.eqb_spec (2 ^ k) 0); [|done].
  pose proof (Z.pow_pos_nonneg 2 k). lia.
Qed.

Lemma filter_set_same f h : filter_test (filter_set f h) h = true.
Proof.
  rewrite filter_test_word. unfold filter_set. rewrite lookup_insert_eq. unfold id; cbn [from_option].
  pose proof (Z.mod_pos_bound (filter_bit h) 64 eq_refl).
  rewrite Z.lor_spec, Z.shiftl_1_l, Z.pow2_bits_eqb, Z.eqb_refl by lia. apply orb_true_r.
Qed.

Lemma filter_set_mono f h h' : filter_test f h = true -> filter_test (filter_set f h') h = true.
Proof.
  rewrite !filter_test_word. unfold filter_set. rewrite lookup_insert. case_decide as E; [|done].
  rewrite <- E. unfold id; cbn [from_option]. rewrite Z.lor_spec. intros ->. done.
Qed.

Lemma fold_filter m l h :
  filter_test (m_filter m) h = true -> filter_test (m_filter (foldl add_spelling m l)) h = true.
Proof.
  revert m. induction l as [|x l IH]; intros m H; [done|]. cbn [foldl]. apply IH.
  rewrite add_spelling_eq. case_decide; [|done]. by apply filter_set_mono.
Qed.

Lemma fold_filter_set m l x :
  x ∈ l -> long x ->
  filter_test (m_filter (foldl add_spelling m l)) (a_hash (anchored_of x)) = true.
Proof.
  revert m. induction l as [|y l IH]; intros m; [by intros ?%not_elem_of_nil|].
  intros [->|Hx]%elem_of_cons Hl; cbn [foldl]; [|by apply IH].
  apply fold_filter. rewrite add_spelling_eq, decide_True by done. apply filter_set_same.
Qed.

Lemma elem_of_all_spellings live tok s :
  (tok, s) ∈ all_spellings live <->
  exists i l, live !! i = Some l /\ tok = lt_token l /\ s ∈ spellingsOf i.
Proof.
  unfold all_spellings. rewrite list_elem_of_bind. split.
  - intros ([i l] & Hx & Hil). apply list_elem_of_fmap in Hx as (s' & [= -> ->] & Hs).
    apply elem_of_lookup_imap in Hil as (i' & l' & [= -> ->] & Hl). eauto.
  - intros (i & l & Hl & -> & Hs). exists (i, l). split.
    + apply list_elem_of_fmap. eauto.
    + apply elem_of_lookup_imap. eauto.
Qed.

Section NewMatcher.
Context (live : list liveToken).
Let m := newMatcher live.

Lemma newMatcher_tokens : m_tokens m = live.
Proof. unfold m, newMatcher, sort_anchors. cbn [m_tokens]. by rewrite fold_tokens. Qed.

Lemma newMatcher_anchors a :
  a ∈ m_anchors m <-> exists x, x ∈ all_spellings live /\ long x /\ a = anchored_of x.
Proof.
  unfold m, newMatcher, sort_anchors. cbn [m_anchors].
  rewrite (merge_sort_Permutation hash_le), fold_anchors. cbn [m_anchors app].
  rewrite list_elem_of_fmap. setoid_rewrite list_elem_of_filter. split.
  - intros (x & -> & Hl & Hx). eauto.
  - intros (x & Hx & Hl & ->). eauto.
Qed.

Lemma newMatcher_filter a : a ∈ m_anchors m -> filter_test (m_filter m) (a_hash a) = true.
Proof.
  intros (x & Hx & Hl & ->)%newMatcher_anchors.
  unfold m, newMatcher, sort_anchors. cbn [m_filter]. by apply fold_filter_set.
Qed.

#[local] Instance hash_le_total : Total hash_le.
Proof. intros a b. unfold hash_le. lia. Qed.
#[local] Instance hash_le_trans : Transitive hash_le.
Proof. intros a b c. unfold hash_le. lia. Qed.

Lemma newMatcher_sorted : StronglySorted hash_le (m_anchors m).
Proof.
  unfold m, newMatcher, sort_anchors. cbn [m_anchors]. by apply (StronglySorted_merge_sort hash_le).
Qed.

Lemma newMatcher_longest x :
  x ∈ all_spellings live -> long x -> spelling_length x.2 x.1 <= m_longest m.
Proof. intros Hx Hl. unfold m, newMatcher, sort_anchors. cbn [m_longest]. by apply fold_longest_bound. Qed.

Lemma newMatcher_longest_nonneg : 0 <= m_longest m.
Proof.
  unfold m, newMatcher, sort_anchors. cbn [m_longest].
  etransitivity; [|apply fold_longest]. cbn. lia.
Qed.

(** The token of a spelling of the set. *)
Lemma spelling_token i s : s ∈ spellingsOf i -> sp_tok s = i.
Proof.
  unfold spellingsOf. rewrite elem_of_app, list_elem_of_fmap. intros [H|(k & -> & _)]; [|done].
  repeat (apply elem_of_cons in H as [->|H]; [done|]). by apply elem_of_nil in H.
Qed.

Lemma all_spellings_token tok s :
  (tok, s) ∈ all_spellings live -> token_of m s = tok.
Proof.
  intros (i & l & Hl & -> & Hs)%elem_of_all_spellings.
  unfold token_of. rewrite newMatcher_tokens, (spelling_token i s Hs), Hl. done.
Qed.

(** ** The byte comparison *)

Lemma endsWith_true b s : endsWith m b s = true <-> exists a, b = a ++ render s (token_of m s).
Proof.
  unfold endsWith. set (tok := token_of m s). set (n := spelling_length s tok).
  pose proof (length_render s tok) as Hr. fold n in Hr.
  destruct (Z.ltb_spec (Z.of_nat (length b)) n) as [Hlt|Hge].
  - split; [done|]. intros (a & ->). rewrite length_app in Hlt. lia.
  - rewrite forallb_true, Forall_forall.
    set (b' := drop (length b - Z.to_nat n) b).
    assert (length b' = Z.to_nat n) as Hb' by (subst b'; rewrite length_drop; lia).
    split.
    + intros H. exists (take (length b - Z.to_nat n) b).
      rewrite <- (take_drop (length b - Z.to_nat n) b) at 1. fold b'. f_equal. symmetry.
      apply list_eq_render; [done|]. intros i Hi.
      destruct (lookup_lt_is_Some_2 b' i Hi) as [c Hc]. rewrite Hc. f_equal.
      specialize (H i). rewrite Hc in H. apply Ascii.eqb_eq, H.
      apply elem_of_seq. lia.
    + intros (a & Hb) i Hi%elem_of_seq.
      assert (b' = render s tok) as ->.
      { subst b'. rewrite Hb at 2. rewrite drop_app_length'; [done|].
        rewrite Hb, length_app. lia. }
      rewrite render_lookup by (fold n; lia). apply Ascii.eqb_refl.
Qed.

(** A spelling at the end of [b] hashes as the window at the end of [b]. *)
Lemma anchor_hash_window a s tok :
  long (tok, s) ->
  anchor_hash s tok
  = u64 (poly (drop (length (a ++ render s tok) - anchorLen) (a ++ render s tok))).
Proof.
  unfold long. cbn [fst snd]. intros Hl. unfold anchor_hash. rewrite hash_poly. do 2 f_equal.
  pose proof (length_render s tok) as Hr.
  rewrite length_app, drop_app_ge by lia.
  replace (length a + length (render s tok) - anchorLen - length a)%nat
    with (length (render s tok) - anchorLen)%nat by lia.
  rewrite Hr. unfold render. rewrite <- fmap_drop, drop_seq. do 2 f_equal. lia.
Qed.

Lemma walk_Some h b l x :
  walk m h b l = Some x ->
  exists a, a ∈ l /\ endsWith m b (a_sp a) = true /\
    x = Hit (match m_tokens m !! sp_tok (a_sp a) with Some t => lt_route t | None => [] end)
          (encoding (a_sp a)).
Proof.
  induction l as [|a l IH]; [done|]. cbn [walk]. case_if; [|done]. case_if.
  - intros [= <-]. exists a. split; [constructor|done].
  - intros H. destruct (IH H) as (a' & Ha & Hrest). exists a'. split; [by constructor|done].
Qed.

Lemma walk_None h b l :
  StronglySorted hash_le l -> Forall (fun a => h <= a_hash a) l -> walk m h b l = None ->
  forall a, a ∈ l -> a_hash a = h -> endsWith m b (a_sp a) = false.
Proof.
  induction l as [|a l IH]; intros Hs Hf Hw a' Ha Hh; [by apply elem_of_nil in Ha|].
  apply StronglySorted_cons in Hs as [Hall Hs]. apply Forall_cons in Hf as [Hle Hf].
  cbn [walk] in Hw. apply elem_of_cons in Ha as [->|Ha].
  - rewrite Hh, Z.eqb_refl in Hw. by destruct (endsWith m b (a_sp a)).
  - destruct (Z.eqb_spec (a_hash a) h) as [E|E].
    + destruct (endsWith m b (a_sp a)); [done|]. by eapply IH.
    + rewrite Forall_forall in Hall. specialize (Hall a' Ha). unfold hash_le in Hall. lia.
Qed.
End NewMatcher.

#[export] Hint Resolve newMatcher_longest_nonneg : brig.

(** ** [find] is substring search *)

Section Find.
Context (live : list liveToken).
Let m := newMatcher live.

(** The hash of the window at the end of [b]. *)
Definition window_hash (b : gostr) : Z := u64 (poly (drop (length b - anchorLen) b)).

Lemma scanned_anchor x w :
  scanned live x w ->
  exists tok s, (tok, s) ∈ all_spellings live /\ long (tok, s) /\ w = render s tok /\
    x = Hit (match m_tokens m !! sp_tok s with Some t => lt_route t | None => [] end) (encoding s).
Proof.
  intros (i & l & s & Hl & Hs & Hlen & -> & ->). exists (lt_token l), s. repeat split.
  - apply elem_of_all_spellings. eauto.
  - done.
  - unfold m. rewrite newMatcher_tokens, (spelling_token i s Hs), Hl. done.
Qed.

Lemma anchor_scanned a b :
  a ∈ m_anchors m -> endsWith m b (a_sp a) = true ->
  exists w, scanned live (Hit (match m_tokens m !! sp_tok (a_sp a) with
    | Some t => lt_route t | None => [] end) (encoding (a_sp a))) w /\ exists p, b = p ++ w.
Proof.
  intros ([tok s] & Hx & Hl & ->)%newMatcher_anchors He. cbn [a_sp anchored_of snd] in *.
  apply endsWith_true in He. rewrite (all_spellings_token live tok s Hx) in He.
  exists (render s tok). split; [|exact He].
  apply elem_of_all_spellings in Hx as (i & l & Hi & -> & Hs).
  exists i, l, s. unfold m. rewrite newMatcher_tokens, (spelling_token i s Hs), Hi. done.
Qed.

Lemma probe_Some b h x :
  probe m b h = Some x -> exists w, scanned live x w /\ exists p, b = p ++ w.
Proof.
  unfold probe. case_if; [|done]. intros (a & Ha & He & ->)%walk_Some.
  apply anchor_scanned; [|done]. by apply elem_of_drop in Ha.
Qed.

Lemma anchors_from h :
  Forall (fun a => h <= a_hash a) (drop (sort_search (length (m_anchors m))
    (fun i => match m_anchors m !! i with Some a => h <=? a_hash a | None => false end)) (m_anchors m))
  /\ forall a, a ∈ m_anchors m -> a_hash a = h ->
       a ∈ drop (sort_search (length (m_anchors m))
         (fun i => match m_anchors m !! i with Some a => h <=? a_hash a | None => false end)) (m_anchors m).
Proof.
  set (f := fun i => match m_anchors m !! i with Some a => h <=? a_hash a | None => false end).
  set (r := sort_search _ f).
  destruct (sort_search_spec (length (m_anchors m)) f) as (Hle & Hlo & Hhi).
  { intros i j Hij Hj. unfold f.
    destruct (lookup_lt_is_Some_2 (m_anchors m) j Hj) as [y Hy].
    destruct (m_anchors m !! i) as [x|] eqn:Hx; [|done]. rewrite Hy, !Z.leb_le. intros H.
    destruct (Nat.eq_dec i j) as [->|Hne]; [congruence|].
    pose proof (newMatcher_sorted live) as Hs. fold m in Hs.
    assert (hash_le x y) as Hxy by (apply (StronglySorted_lookup_lt hash_le (m_anchors m) i j); try done; lia).
    unfold hash_le in Hxy. lia. }
  fold r in Hle, Hlo, Hhi. split.
  - apply Forall_lookup. intros i a Hi. rewrite lookup_drop in Hi.
    pose proof (lookup_lt_Some _ _ _ Hi). specialize (Hhi (r + i)%nat ltac:(lia)).
    unfold f in Hhi. rewrite Hi in Hhi. by apply Z.leb_le.
  - intros a (i & Hi)%list_elem_of_lookup Ha. apply list_elem_of_lookup.
    exists (i - r)%nat. rewrite lookup_drop. destruct (Nat.lt_ge_cases i r) as [Hlt|Hge].
    + specialize (Hlo i Hlt). unfold f in Hlo. rewrite Hi in Hlo. apply Z.leb_gt in Hlo. lia.
    + by replace (r + (i - r))%nat with i by lia.
Qed.

Lemma probe_None b :
  probe m b (window_hash b) = None ->
  forall x w, scanned live x w -> ~ exists p, b = p ++ w.
Proof.
  intros H x w (tok & s & Hx & Hl & -> & _)%scanned_anchor (p & ->).
  set (a := anchored_of (tok, s)).
  assert (a ∈ m_anchors m) as Ha by (apply newMatcher_anchors; eauto).
  assert (a_hash a = window_hash (p ++ render s tok)) as Hh by (by apply anchor_hash_window).
  unfold probe in H. rewrite <- Hh in H.
  pose proof (newMatcher_filter live a Ha) as Hfilter. fold m in Hfilter. rewrite Hfilter in H.
  destruct (anchors_from (a_hash a)) as [Hf Hin].
  eapply walk_None in H; [| |done| |done].
  - apply not_true_iff_false in H. apply H, endsWith_true.
    change (a_sp a) with s. unfold m. rewrite (all_spellings_token live tok s Hx). eauto.
  - apply StronglySorted_drop, newMatcher_sorted.
  - by apply Hin.
Qed.

(** The loop's hash is the hash of its window. *)
Lemma window_hash_step b end_ x c :
  (anchorLen <= end_)%nat -> b !! (end_ - anchorLen)%nat = Some x -> b !! end_ = Some c ->
  roll (m_pow m) (window_hash (take end_ b)) x c = window_hash (take (S end_) b).
Proof.
  intros He Hx Hc. pose proof (lookup_lt_Some _ _ _ Hc) as Hlt.
  unfold window_hash, m. rewrite newMatcher_pow, !length_take, !Nat.min_l by lia.
  rewrite (take_S_r b end_ c Hc).
  assert (drop (end_ - anchorLen) (take end_ b) = x :: drop (S (end_ - anchorLen)) (take end_ b)) as Hw.
  { apply drop_S. rewrite lookup_take_lt by (unfold anchorLen in *; lia). done. }
  rewrite Hw, roll_window by (rewrite length_drop, length_take; unfold anchorLen in *; lia).
  do 2 f_equal. rewrite drop_app_le by (rewrite length_take; unfold anchorLen in *; lia).
  f_equal. f_equal. unfold anchorLen in *. lia.
Qed.

Lemma find_loop_spec fuel b end_ :
  (anchorLen <= end_)%nat -> (end_ + fuel = length b)%nat ->
  match find_loop fuel m b end_ (window_hash (take end_ b)) with
  | Some x => holds_spelling live b x
  | None => forall x w e, scanned live x w -> (end_ <= e <= length b)%nat -> ~ exists p, take e b = p ++ w
  end.
Proof.
  revert end_. induction fuel as [|k IH]; intros end_ He Hf; cbn [find_loop].
  - destruct (probe m _ _) as [x|] eqn:E.
    + apply probe_Some in E as (w & Hw & p & Hp). exists w. split; [done|].
      exists p, (drop end_ b). rewrite app_assoc, <- Hp. by rewrite take_drop.
    + intros x w e Hw Hr. assert (e = end_) as -> by lia. by eapply probe_None.
  - destruct (probe m _ _) as [x|] eqn:E.
    + apply probe_Some in E as (w & Hw & p & Hp). exists w. split; [done|].
      exists p, (drop end_ b). rewrite app_assoc, <- Hp. by rewrite take_drop.
    + destruct (lookup_lt_is_Some_2 b (end_ - anchorLen)) as [x Hx]; [unfold anchorLen in *; lia|].
      destruct (lookup_lt_is_Some_2 b end_) as [c Hc]; [lia|].
      rewrite Hx, Hc, window_hash_step by done.
      specialize (IH (S end_) ltac:(lia) ltac:(lia)).
      destruct (find_loop _ _ _ _ _); [done|].
      intros y w e Hw Hr. destruct (Nat.eq_dec e end_) as [->|]; [by eapply probe_None|].
      apply (IH y w e Hw). lia.
Qed.

Lemma scanned_length x w : scanned live x w -> (anchorLen <= length w)%nat.
Proof. intros (i & l & s & _ & _ & Hlen & _ & ->). rewrite length_render. lia. Qed.

Lemma find_spec b :
  match find m b with
  | Some x => holds_spelling live b x
  | None => forall x, ~ holds_spelling live b x
  end.
Proof.
  unfold find. destruct (Nat.ltb_spec (length b) anchorLen) as [Hlt|Hge]; cbn [orb].
  { intros x (w & Hw%scanned_length & p & q & ->). rewrite !length_app in Hlt. lia. }
  case_bool_decide as Ha.
  { intros x (w & (tok & s & Hx & Hl & _)%scanned_anchor & _).
    assert (anchored_of (tok, s) ∈ m_anchors m) as Hin by (apply newMatcher_anchors; eauto).
    rewrite Ha in Hin. by apply elem_of_nil in Hin. }
  rewrite hash_poly.
  assert (u64 (poly (take anchorLen b)) = window_hash (take anchorLen b)) as ->.
  { unfold window_hash. rewrite length_take, Nat.min_l, Nat.sub_diag by done. done. }
  pose proof (find_loop_spec (length b - anchorLen) b anchorLen) as H.
  specialize (H ltac:(lia) ltac:(lia)). destruct (find_loop _ _ _ _ _); [done|].
  intros x (w & Hw & p & q & ->).
  apply (H x w (length (p ++ w)) Hw).
  - apply scanned_length in Hw. rewrite !length_app. lia.
  - exists p. rewrite app_assoc, take_app_length. done.
Qed.

Lemma find_None b : find m b = None <-> forall x, ~ holds_spelling live b x.
Proof.
  pose proof (find_spec b) as H. destruct (find m b) as [x|]; split; try done.
  intros Hn. exfalso. by apply (Hn x).
Qed.
End Find.

(** ** Properties *)

(** [matcher.find] on one buffer is substring search for the spellings of
    at least 32 bytes. *)
Lemma find_exact (tokens : list liveToken) (b : gostr) :
  match find (newMatcher tokens) b with
  | Some x => holds_spelling tokens b x
  | None => forall x, ~ holds_spelling tokens b x
  end.
Proof. exact (find_spec tokens b). Qed.
