(* ===== verification/Scan.v ===== *)
(** * The stream scan and the live tokens (internal/broker/placeholder.go)

    [scan] feeds a stream to the matcher in chunks.  It drops white space and
    the JSON escapes of line breaks, and keeps of what it read only the bytes a
    spelling that is not complete yet can start in.  The theorems say that the
    chunks do not matter: a stream is refused exactly when its squeezed bytes
    hold a spelling of a live token. *)

From stdpp Require Import prelude list strings gmap sorting.
From Stdlib Require Import ZArith Lia ZifyNat Ascii.
From S2P Require Import Prelude GoUnicode GoStrings Base64 Spelling Matcher.

Local Open Scope Z_scope.

Definition scanChunk : Z := 65536.

(** The state of a scan; the matcher is an argument of its operations. *)
Record scan := MkScan { sc_work : gostr; sc_slashes : nat }.

Definition new_scan : scan := MkScan [] 0.

Definition backslash : byte := "\"%char.
Definition is_space4 (c : byte) : bool :=
  (bz c =? 32) || (bz c =? 9) || (bz c =? 13) || (bz c =? 10).
Definition is_nrt (c : byte) : bool :=
  Ascii.eqb c "n" || Ascii.eqb c "r" || Ascii.eqb c "t".

(** The body of [squeeze]'s loop. *)
Definition squeeze_byte (s : scan) (c : byte) : scan :=
  if Ascii.eqb c backslash then MkScan (sc_work s) (S (sc_slashes s))
  else
    if (0 <? sc_slashes s)%nat && is_nrt c then MkScan (sc_work s) 0
    else if (0 <? sc_slashes s)%nat && Ascii.eqb c "/" then MkScan (sc_work s ++ ["/"%char]) 0
    else
      let work := sc_work s ++ replicate (sc_slashes s) backslash in
      MkScan (if is_space4 c then work else work ++ [c]) 0.

Definition squeeze (s : scan) (p : gostr) : scan := foldl squeeze_byte s p.

(** The turns of [write]'s loop, one per chunk of [scanChunk] bytes. *)
Fixpoint write_loop (fuel : nat) (m : matcher) (s : scan) (p : gostr) : option hit * scan :=
  match fuel with
  | O => (None, s)
  | S k =>
    match p with
    | [] => (None, s)
    | _ =>
      let n := Z.to_nat (Z.min (Z.of_nat (length p)) scanChunk) in
      let s1 := squeeze s (take n p) in
      match find m (sc_work s1) with
      | Some h => (Some h, s1)
      | None =>
        let keep := Z.max (m_longest m - 1) 0 in
        let work :=
          if Z.of_nat (length (sc_work s1)) <=? keep then sc_work s1
          else drop (length (sc_work s1) - Z.to_nat keep) (sc_work s1) in
        write_loop k m (MkScan work (sc_slashes s1)) (drop n p)
      end
    end
  end.

(** [scan.write].  A chunk is at least one byte, so the turns are at most the
    bytes. *)
Definition write (m : matcher) (s : scan) (p : gostr) : option hit * scan :=
  write_loop (length p) m s p.

(** A sequence of writes to one scan, stopped at the first hit, as the callers
    of [write] stop. *)
Fixpoint write_all (m : matcher) (s : scan) (ps : list gostr) : option hit :=
  match ps with
  | [] => None
  | p :: ps' =>
    match write m s p with
    | (Some h, _) => Some h
    | (None, s') => write_all m s' ps'
    end
  end.

(** [matcher.findString]. *)
Fixpoint findString (m : matcher) (strs : list gostr) : option hit :=
  match strs with
  | [] => None
  | str :: strs' =>
    match write m new_scan str with
    | (Some h, _) => Some h
    | (None, _) => findString m strs'
    end
  end.

(** ** The live tokens of a sandbox *)

Definition maxLive : nat := 1024.

(** The [live] and [match] fields of a sandbox. *)
Record live_state := LiveState { live : list liveToken; match_ : option matcher }.

Definition remember (st : live_state) (tok route : gostr) (exp : Z) : live_state :=
  match index_of (fun l => bool_decide (lt_token l = tok)) (live st) with
  | Some i =>
    match live st !! i with
    | Some l => LiveState (delete i (live st) ++ [l]) (match_ st)
    | None => st
    end
  | None =>
    let l := live st ++ [LiveToken tok route exp] in
    LiveState (if (maxLive <? length l)%nat then drop (length l - maxLive) l else l) None
  end.

(** [sandbox.matcher]: the tokens that expired at [now] go, and the matcher is
    built again when the set changed. *)
Definition matcher_at (st : live_state) (now : Z) : matcher * live_state :=
  let kept := filter (fun l => (now <? lt_exp l) = true) (live st) in
  let cached := if bool_decide (length kept <> length (live st)) then None else match_ st in
  let m := match cached with Some m => m | None => newMatcher kept end in
  (m, LiveState kept (Some m)).

(** ** Squeezing *)

(** The bytes a scan that has read [p] has put in its work buffer. *)
Definition squeezed (p : gostr) : gostr := sc_work (squeeze new_scan p).

Lemma squeeze_byte_app w s c :
  squeeze_byte (MkScan (w ++ sc_work s) (sc_slashes s)) c
  = MkScan (w ++ sc_work (squeeze_byte s c)) (sc_slashes (squeeze_byte s c)).
Proof.
  unfold squeeze_byte. cbn [sc_work sc_slashes].
  repeat case_if; cbn [sc_work sc_slashes]; by rewrite <- ?app_assoc.
Qed.

(** What is in the buffer already does not change what is appended. *)
Lemma squeeze_app_work w n p :
  squeeze (MkScan w n) p
  = MkScan (w ++ sc_work (squeeze (MkScan [] n) p)) (sc_slashes (squeeze (MkScan [] n) p)).
Proof.
  unfold squeeze. induction p as [|c p IH] using rev_ind; [cbn; by rewrite app_nil_r|].
  rewrite !foldl_snoc, IH.
  set (t := foldl squeeze_byte (MkScan [] n) p) in *. rewrite squeeze_byte_app. done.
Qed.

Lemma squeeze_app s p q : squeeze s (p ++ q) = squeeze (squeeze s p) q.
Proof. apply foldl_app. Qed.

(** A run of bytes that are neither white space nor a backslash goes through
    unchanged when no backslash is held. *)
Definition plain (c : byte) : Prop := is_space4 c = false /\ c <> backslash.

Lemma squeeze_plain w p :
  Forall plain p -> squeeze (MkScan w 0) p = MkScan (w ++ p) 0.
Proof.
  intros Hp. revert w. induction Hp as [|c p [Hs Hb] Hp IH]; intros w; [by rewrite app_nil_r|].
  cbn [squeeze foldl]. unfold squeeze in IH.
  assert (squeeze_byte (MkScan w 0) c = MkScan (w ++ [c]) 0) as ->.
  { unfold squeeze_byte. cbn [sc_slashes sc_work].
    destruct (Ascii.eqb_spec c backslash); [done|].
    cbn [Nat.ltb Nat.leb andb]. rewrite Hs. cbn [replicate]. by rewrite app_nil_r. }
  rewrite IH, <- app_assoc. done.
Qed.

Lemma squeezed_prefix p q : exists d, squeezed (p ++ q) = squeezed p ++ d.
Proof.
  unfold squeezed. rewrite squeeze_app. destruct (squeeze new_scan p) as [w n].
  rewrite squeeze_app_work. cbn [sc_work]. eauto.
Qed.

(** ** The scan of a stream *)

Section Stream.
Context (tokens : list liveToken).
Let m := newMatcher tokens.

Definition clean (b : gostr) : Prop := forall x, ~ holds_spelling tokens b x.

Lemma holds_spelling_app_l a b x : holds_spelling tokens a x -> holds_spelling tokens (a ++ b) x.
Proof. intros (w & Hw & Ho). exists w. split; [done|]. by apply occurs_app_l. Qed.

Lemma holds_spelling_app_r a b x : holds_spelling tokens b x -> holds_spelling tokens (a ++ b) x.
Proof. intros (w & Hw & Ho). exists w. split; [done|]. by apply occurs_app_r. Qed.

Lemma scanned_longest x w : scanned tokens x w -> Z.of_nat (length w) <= m_longest m.
Proof.
  intros (tok & s & Hin & Hl & -> & _)%scanned_anchor. unfold long in Hl. cbn [fst snd] in Hl.
  rewrite length_render. pose proof (newMatcher_longest tokens (tok, s) Hin Hl) as H.
  cbn [fst snd] in H. fold m in H. lia.
Qed.

(** A spelling in [full ++ d] that is not in [full] ends in [d], so it is in
    any end of [full ++ d] that keeps [longest - 1] bytes of [full]. *)
Lemma kept_suffix full work d x :
  clean full -> (exists pre, full = pre ++ work) ->
  (Z.of_nat (length full) <= Z.of_nat (length work)
   \/ Z.max (m_longest m - 1) 0 <= Z.of_nat (length work)) ->
  holds_spelling tokens (full ++ d) x -> holds_spelling tokens (work ++ d) x.
Proof.
  intros Hclean (pre & ->) Hkeep (w & Hw & a & b & Heq).
  exists w. split; [done|]. pose proof (scanned_longest x w Hw) as Hlen.
  rewrite length_app in Hkeep.
  destruct (Nat.le_gt_cases (length a + length w) (length (pre ++ work))) as [Hin|Hout].
  - exfalso. apply (Hclean x). exists w. split; [done|].
    assert (exists b', pre ++ work = (a ++ w) ++ b') as (b' & Hb').
    { rewrite app_assoc in Heq. apply app_eq_inv in Heq as [(k & H1 & H2)|(k & H1 & H2)].
      - exists k. done.
      - exists []. rewrite app_nil_r.
        assert (length k = 0)%nat by (apply (f_equal length) in H1; rewrite !length_app in *; lia).
        destruct k; [|done]. rewrite app_nil_r in H1. done. }
    exists a, b'. rewrite Hb', <- app_assoc. done.
  - assert (length pre <= length a)%nat as Hpre by (rewrite length_app in Hout; lia).
    rewrite <- app_assoc in Heq.
    apply app_eq_inv in Heq as [(k & H1 & H2)|(k & H1 & H2)].
    + exists k. rewrite H1, length_app in Hpre.
      assert (length k = 0)%nat by lia. destruct k; [|done]. exists b. done.
    + exists k, b. done.
Qed.

(** The invariant of a scan that has read [p] and found nothing. *)
Definition scan_inv (p : gostr) (s : scan) : Prop :=
  clean (squeezed p) /\ sc_slashes s = sc_slashes (squeeze new_scan p) /\
  (exists pre, squeezed p = pre ++ sc_work s) /\
  (Z.of_nat (length (squeezed p)) <= Z.of_nat (length (sc_work s))
   \/ Z.max (m_longest m - 1) 0 <= Z.of_nat (length (sc_work s))).

Lemma scan_inv_new : scan_inv [] new_scan.
Proof.
  split; [|split; [done|split; [by exists []|left; done]]].
  intros x (w & Hw%scanned_length & Ho). destruct Ho as (a & b & Ho).
  apply (f_equal length) in Ho. rewrite !length_app in Ho. cbn in Ho. unfold anchorLen in Hw. lia.
Qed.

(** One chunk. *)
Lemma scan_inv_chunk p q s :
  scan_inv p s ->
  match find m (sc_work (squeeze s q)) with
  | Some x => holds_spelling tokens (squeezed (p ++ q)) x
  | None =>
    let s1 := squeeze s q in
    let keep := Z.max (m_longest m - 1) 0 in
    scan_inv (p ++ q)
      (MkScan (if Z.of_nat (length (sc_work s1)) <=? keep then sc_work s1
               else drop (length (sc_work s1) - Z.to_nat keep) (sc_work s1)) (sc_slashes s1))
  end.
Proof.
  intros (Hclean & Hsl & (pre & Hpre) & Hkeep). destruct s as [work n]. cbn [sc_work sc_slashes] in *.
  rewrite squeeze_app_work. cbn [sc_work sc_slashes].
  set (d := sc_work (squeeze (MkScan [] n) q)). set (n' := sc_slashes (squeeze (MkScan [] n) q)).
  assert (squeezed (p ++ q) = squeezed p ++ d /\ sc_slashes (squeeze new_scan (p ++ q)) = n') as [Hpq Hn].
  { unfold squeezed. rewrite squeeze_app. destruct (squeeze new_scan p) as [w0 n0].
    cbn [sc_slashes] in Hsl. subst n0. rewrite squeeze_app_work. done. }
  destruct (find m (work ++ d)) as [x|] eqn:E.
  - pose proof (find_spec tokens (work ++ d)) as H. fold m in H. rewrite E in H.
    rewrite Hpq, Hpre, <- app_assoc. by apply holds_spelling_app_r.
  - pose proof (find_spec tokens (work ++ d)) as H. fold m in H. rewrite E in H.
    split; [|split; [done|]].
    + rewrite Hpq. intros x Hx. apply (H x).
      refine (kept_suffix (squeezed p) work d x Hclean _ Hkeep Hx). by exists pre.
    + cbn [sc_work]. rewrite Hpq, Hpre, <- app_assoc. cbn zeta.
      set (keep := Z.max (m_longest m - 1) 0) in *.
      destruct (Z.leb_spec (Z.of_nat (length (work ++ d))) keep) as [Hle|Hgt].
      * split; [by exists pre|].
        destruct Hkeep as [Hk|Hk]; [left|right].
        -- rewrite Hpre in Hk. rewrite !length_app in *. lia.
        -- rewrite length_app in *. lia.
      * split.
        -- exists (pre ++ take (length (work ++ d) - Z.to_nat keep) (work ++ d)).
           by rewrite <- app_assoc, take_drop.
        -- right. rewrite length_drop. lia.
Qed.

Lemma write_loop_spec fuel p q s :
  scan_inv p s -> (length q <= fuel)%nat ->
  match write_loop fuel m s q with
  | (Some x, _) => holds_spelling tokens (squeezed (p ++ q)) x
  | (None, s') => scan_inv (p ++ q) s'
  end.
Proof.
  revert p q s. induction fuel as [|k IH]; intros p q s Hs Hq; cbn [write_loop].
  - destruct q; [|cbn in Hq; lia]. by rewrite app_nil_r.
  - destruct q as [|c q]; [by rewrite app_nil_r|].
    set (n := Z.to_nat (Z.min _ scanChunk)).
    assert (1 <= n)%nat as Hn by (subst n; unfold scanChunk; cbn [length]; lia).
    pose proof (scan_inv_chunk p (take n (c :: q)) s Hs) as H.
    destruct (find m _) as [x|].
    + rewrite <- (take_drop n (c :: q)). rewrite app_assoc.
      destruct (squeezed_prefix (p ++ take n (c :: q)) (drop n (c :: q))) as [d ->].
      by apply holds_spelling_app_l.
    + cbn zeta in H. specialize (IH _ (drop n (c :: q)) _ H).
      rewrite <- app_assoc, take_drop in IH. apply IH.
      rewrite length_drop. cbn [length] in Hq |- *. lia.
Qed.

(** The scan of a stream does not depend on how the stream is cut. *)
Lemma write_all_spec p ps s :
  scan_inv p s ->
  match write_all m s ps with
  | Some x => holds_spelling tokens (squeezed (p ++ concat ps)) x
  | None => clean (squeezed (p ++ concat ps))
  end.
Proof.
  revert p s. induction ps as [|q ps IH]; intros p s Hs; cbn [write_all concat].
  - rewrite app_nil_r. apply Hs.
  - pose proof (write_loop_spec (length q) p q s Hs (le_n _)) as H. unfold write.
    destruct (write_loop _ _ _ _) as [[x|] s'].
    + rewrite app_assoc. destruct (squeezed_prefix (p ++ q) (concat ps)) as [d ->].
      by apply holds_spelling_app_l.
    + specialize (IH _ _ H). by rewrite <- app_assoc in IH.
Qed.

Lemma findString_spec strs :
  match findString m strs with
  | Some x => exists str, str ∈ strs /\ holds_spelling tokens (squeezed str) x
  | None => Forall (fun str => clean (squeezed str)) strs
  end.
Proof.
  induction strs as [|str strs IH]; cbn [findString]; [constructor|].
  pose proof (write_loop_spec (length str) [] str new_scan scan_inv_new (le_n _)) as H.
  unfold write. destruct (write_loop _ _ _ _) as [[x|] s']; cbn [app] in H.
  - exists str. split; [constructor|done].
  - destruct (findString m strs) as [x|].
    + destruct IH as (t & Ht & Hx). exists t. split; [by constructor|done].
    + constructor; [apply H|done].
Qed.

Lemma findString_hit strs str x :
  str ∈ strs -> holds_spelling tokens (squeezed str) x -> exists y, findString m strs = Some y.
Proof.
  intros Hin Hx. pose proof (findString_spec strs) as H. destruct (findString m strs) as [y|]; [eauto|].
  rewrite Forall_forall in H. exfalso. by eapply H.
Qed.
End Stream.

(** ** The live tokens *)

Section Live.
(** A permutation of the tokens does not change what the scan looks for. *)
Lemma spellingsOf_reindex i j s :
  s ∈ spellingsOf i -> exists s', s' ∈ spellingsOf j /\ sp_form s' = sp_form s /\ sp_align s' = sp_align s.
Proof.
  rewrite elem_of_spellingsOf. intros [_ Hs]. exists (Spelling j (sp_form s) (sp_align s)).
  rewrite elem_of_spellingsOf. done.
Qed.

Lemma holds_spelling_incl l1 l2 b x :
  (forall t, t ∈ l1 -> t ∈ l2) -> holds_spelling l1 b x -> holds_spelling l2 b x.
Proof.
  intros Hin (w & (i & t & s & Hi & Hs & Hlen & -> & ->) & Ho).
  assert (t ∈ l2) as Ht by (apply Hin; apply list_elem_of_lookup; eauto).
  apply list_elem_of_lookup in Ht as [j Hj].
  destruct (spellingsOf_reindex i j s Hs) as (s' & Hs' & Hf & Ha).
  assert (forall tok, spelling_length s' tok = spelling_length s tok) as Hl.
  { intros tok. unfold spelling_length. by rewrite Hf, Ha. }
  assert (render s' (lt_token t) = render s (lt_token t)) as Hr.
  { unfold render. rewrite Hl. apply list_fmap_ext. intros k ? _. unfold at_. by rewrite Hf, Ha. }
  exists (render s (lt_token t)). split; [|done]. exists j, t, s'. rewrite Hl, Hr.
  split_and!; try done. unfold encoding. by rewrite Hf.
Qed.

(** The invariant of the two fields: at most [maxLive] tokens, none twice,
    and a cached matcher was built from these tokens. *)
Definition live_inv (st : live_state) : Prop :=
  (length (live st) <= maxLive)%nat /\ NoDup (lt_token <$> live st) /\
  forall m, match_ st = Some m -> exists l, Permutation l (live st) /\ m = newMatcher l.

Lemma live_inv_init : live_inv (LiveState [] None).
Proof. split_and!; [cbn; lia | constructor | done]. Qed.

Lemma index_of_Some {A} (p : A -> bool) l i :
  index_of p l = Some i -> exists x, l !! i = Some x /\ p x = true.
Proof.
  revert i. induction l as [|x l IH]; intros i; cbn [index_of]; [done|].
  destruct (p x) eqn:E; [intros [= <-]; eauto|].
  destruct (index_of p l) as [j|]; [|done]. intros [= <-]. by apply IH.
Qed.

Lemma index_of_None {A} (p : A -> bool) l :
  index_of p l = None -> forall x, x ∈ l -> p x = false.
Proof.
  induction l as [|x l IH]; cbn [index_of]; [by intros _ ? ?%not_elem_of_nil|].
  destruct (p x) eqn:E; [done|]. destruct (index_of p l); [done|].
  intros _ y [->|Hy]%elem_of_cons; auto.
Qed.

Lemma delete_snoc_Permutation {A} (l : list A) i x :
  l !! i = Some x -> Permutation (delete i l ++ [x]) l.
Proof. intros H. rewrite (Permutation_app_comm _ [x]). cbn. symmetry. by apply delete_Permutation. Qed.

Lemma remember_found st tok route exp i :
  index_of (fun l => bool_decide (lt_token l = tok)) (live st) = Some i ->
  exists l, live st !! i = Some l /\ lt_token l = tok /\
    remember st tok route exp = LiveState (delete i (live st) ++ [l]) (match_ st).
Proof.
  intros E. destruct (index_of_Some _ _ _ E) as (l & Hl & Hp%bool_decide_eq_true).
  exists l. unfold remember. rewrite E, Hl. done.
Qed.

Lemma remember_new st tok route exp :
  index_of (fun l => bool_decide (lt_token l = tok)) (live st) = None ->
  tok ∉ (lt_token <$> live st) /\
  exists k, remember st tok route exp
    = LiveState (drop k (live st ++ [LiveToken tok route exp])) None /\
    (k = length (live st ++ [LiveToken tok route exp]) - maxLive)%nat.
Proof.
  intros E. split.
  - intros (l & Ht & Hl)%list_elem_of_fmap. pose proof (index_of_None _ _ E l Hl) as H.
    cbn in H. apply bool_decide_eq_false in H. congruence.
  - eexists. split; [|reflexivity]. unfold remember. rewrite E. f_equal.
    destruct (Nat.ltb_spec maxLive (length (live st ++ [LiveToken tok route exp]))); [done|].
    by replace (_ - maxLive)%nat with 0%nat by lia.
Qed.

Lemma NoDup_drop {A} k (l : list A) : NoDup l -> NoDup (drop k l).
Proof. intros H. rewrite <- (take_drop k l) in H. by apply NoDup_app in H as (_ & _ & ?). Qed.

Lemma remember_inv st tok route exp : live_inv st -> live_inv (remember st tok route exp).
Proof.
  intros (Hlen & Hnd & Hm).
  destruct (index_of (fun l => bool_decide (lt_token l = tok)) (live st)) as [i|] eqn:E.
  - destruct (remember_found st tok route exp i E) as (l & Hl & _ & ->).
    pose proof (delete_snoc_Permutation _ _ _ Hl) as Hp. split_and!; cbn [live match_].
    + by rewrite Hp.
    + by rewrite Hp.
    + intros m Hm'. destruct (Hm m Hm') as (l0 & Hl0 & ->). exists l0. by rewrite Hp.
  - destruct (remember_new st tok route exp E) as (Hnew & k & -> & ->).
    split_and!; cbn [live match_]; [rewrite length_drop; lia | | done].
    rewrite fmap_drop. apply NoDup_drop. rewrite fmap_app. apply NoDup_app. split_and!; [done| |].
    + intros x Hx Hx'. apply list_elem_of_singleton in Hx'. cbn in Hx'. congruence.
    + apply NoDup_singleton.
Qed.

Lemma filter_length_same {A} (P : A -> Prop) `{forall x, Decision (P x)} l :
  length (filter P l) = length l -> filter P l = l.
Proof.
  induction l as [|x l IH]; [done|]. rewrite filter_cons. destruct (decide (P x)); cbn [length].
  - intros [= Hl]. f_equal. by apply IH.
  - intros Hl. pose proof (length_filter P l). lia.
Qed.

(** The matcher in use always was built from the unexpired tokens. *)
Lemma matcher_at_spec st now :
  live_inv st ->
  let '(m, st') := matcher_at st now in
  live_inv st' /\ live st' = filter (fun l => (now <? lt_exp l) = true) (live st) /\
  exists l, Permutation l (live st') /\ m = newMatcher l.
Proof.
  intros (Hlen & Hnd & Hm). unfold matcher_at.
  set (kept := filter _ (live st)).
  assert (exists l, Permutation l kept /\
    match (if bool_decide (length kept <> length (live st)) then None else match_ st) with
    | Some m => m | None => newMatcher kept end = newMatcher l) as (l & Hl & Heq).
  { case_bool_decide as Hb; [by exists kept|].
    pose proof (filter_length_same _ _ Hb) as Hk. fold kept in Hk.
    destruct (match_ st) as [m|]; [|by exists kept].
    destruct (Hm m eq_refl) as (l & Hl & ->). exists l. by rewrite Hk. }
  split; [split_and!; cbn [live match_]|split; [done|by exists l]].
  - etransitivity; [apply length_filter | exact Hlen].
  - eapply sublist_NoDup; [exact Hnd|]. apply fmap_sublist, sublist_filter.
  - intros m [= <-]. rewrite Heq. by exists l.
Qed.
End Live.

(** Operations on the live tokens of a sandbox, in the order the mutex lets
    them run. *)
Inductive live_op :=
  | OpRemember (tok route : gostr) (exp : Z)
  | OpMatcher (now : Z).

Definition live_step (st : live_state) (o : live_op) : live_state :=
  match o with
  | OpRemember tok route exp => remember st tok route exp
  | OpMatcher now => (matcher_at st now).2
  end.

Definition live_run (ops : list live_op) : live_state := foldl live_step (LiveState [] None) ops.

Lemma live_run_inv ops : live_inv (live_run ops).
Proof.
  unfold live_run. induction ops as [|o ops IH] using rev_ind; [apply live_inv_init|].
  rewrite foldl_snoc. destruct o as [tok route exp|now]; cbn [live_step].
  - by apply remember_inv.
  - pose proof (matcher_at_spec _ now IH) as H. destruct (matcher_at _ now) as [m st']. apply H.
Qed.

Lemma holds_spelling_perm l1 l2 b x :
  Permutation l1 l2 -> holds_spelling l1 b x <-> holds_spelling l2 b x.
Proof. intros H. split; apply holds_spelling_incl; intros t; by rewrite H. Qed.

(** ** What a squeezed stream holds *)

Definition not_space (c : byte) : Prop := is_space4 c = false.

Lemma squeeze_lines p :
  Forall (fun c => c <> backslash) p -> squeezed p = filter not_space p.
Proof.
  unfold squeezed, new_scan. intros Hp.
  assert (forall w, squeeze (MkScan w 0) p = MkScan (w ++ filter not_space p) 0) as H;
    [|by rewrite H].
  induction Hp as [|c p Hc Hp IH]; intros w; [by rewrite app_nil_r|].
  unfold squeeze in *. cbn [foldl]. rewrite filter_cons.
  assert (squeeze_byte (MkScan w 0) c = MkScan (if is_space4 c then w else w ++ [c]) 0) as ->.
  { unfold squeeze_byte. cbn [sc_slashes sc_work]. destruct (Ascii.eqb_spec c backslash); [done|].
    cbn [Nat.ltb Nat.leb andb replicate]. by rewrite app_nil_r. }
  rewrite IH. destruct (decide (not_space c)) as [->|Hs]; [by rewrite <- app_assoc|].
  apply not_false_is_true in Hs. by rewrite Hs.
Qed.

(** The spelling of a token of 32 bytes or more in a form other than base64 is
    looked for, under its own name. *)
Lemma holds_reference tokens l f b :
  l ∈ tokens -> (anchorLen <= length (lt_token l))%nat -> f <> formBase64 ->
  occurs (reference f (lt_token l)) b ->
  holds_spelling tokens b (Hit (lt_route l) (encoding (Spelling 0 f 0))).
Proof.
  intros [i Hi]%list_elem_of_lookup Hlen Hf Ho.
  exists (reference f (lt_token l)). split; [|done].
  exists i, l, (Spelling i f 0). split_and!; try done.
  - apply elem_of_spellingsOf. auto.
  - unfold anchorLen, spelling_length in *. destruct f; cbn [sp_form]; (lia || done).
  - by rewrite render_reference.
Qed.

Lemma holds_base64 tokens l pre post b :
  l ∈ tokens -> (anchorLen <= length (lt_token l))%nat ->
  occurs (std_encode (pre ++ lt_token l ++ post)) b ->
  holds_spelling tokens b (Hit (lt_route l) (lit "base64")).
Proof.
  intros [i Hi]%list_elem_of_lookup Hlen Ho.
  pose proof (Nat.mod_upper_bound (length pre) 3 ltac:(lia)) as Hmod.
  exists (render (Spelling i formBase64 (length pre mod 3)) (lt_token l)). split.
  - exists i, l, (Spelling i formBase64 (length pre mod 3)). split_and!; try done.
    + apply elem_of_spellingsOf. auto.
    + unfold spelling_length, anchorLen in *. cbn [sp_form sp_align].
      destruct (length pre mod 3)%nat as [|[|[|]]]; [| | |lia]; cbn [base64Skip]; case_if; div_lia.
  - eapply occurs_trans; [|exact Ho]. by apply base64_occurs.
Qed.

(** What a scan answers, once the bytes it read hold a spelling. *)
Lemma write_all_hit tokens ps x :
  holds_spelling tokens (squeezed (concat ps)) x ->
  exists y, write_all (newMatcher tokens) new_scan ps = Some y.
Proof.
  intros H. pose proof (write_all_spec tokens [] ps new_scan (scan_inv_new tokens)) as Hs.
  destruct (write_all _ _ _) as [y|]; [eauto|]. exfalso. by apply (Hs x).
Qed.

Lemma remember_last_spec (st : live_state) (tok route : gostr) (exp : Z) :
  exists l, last (live (remember st tok route exp)) = Some l /\ lt_token l = tok /\
    ((length (live st) < maxLive)%nat -> forall t, t ∈ live st -> t ∈ live (remember st tok route exp)).
Proof.
  destruct (index_of (fun l => bool_decide (lt_token l = tok)) (live st)) as [i|] eqn:E.
  - destruct (remember_found st tok route exp i E) as (l & Hl & Ht & ->). exists l. cbn [live].
    rewrite last_snoc. split_and!; [done | done |]. intros _ t Ht'.
    by rewrite (delete_snoc_Permutation (live st) i l Hl).
  - destruct (remember_new st tok route exp E) as (_ & k & -> & ->). cbn [live].
    exists (LiveToken tok route exp). rewrite drop_app_le.
    2:{ rewrite length_app. unfold maxLive. cbn [length]. lia. }
    rewrite last_snoc. split_and!; [done | done |]. intros Hlt t Ht. apply elem_of_app. left.
    rewrite length_app. cbn [length].
    by replace (length (live st) + 1 - maxLive)%nat with 0%nat by lia.
Qed.

(** ** Properties *)

(** C6: A stream scan is substring search, and the way the stream is cut into
    writes does not matter.  For every set of live tokens and every sequence of
    writes, the scan reports a route and an encoding only when the squeezed
    bytes of the whole stream hold that spelling of a token of that route, and
    it reports nothing only when they hold no spelling of 32 bytes or more of
    any token.  The rolling hash, the bit filter, the sorted anchors and the
    bytes kept between two chunks lose nothing and add nothing. *)
Theorem scan_stream_exact (tokens : list liveToken) (ps : list gostr) :
  match write_all (newMatcher tokens) new_scan ps with
  | Some x => holds_spelling tokens (squeezed (concat ps)) x
  | None => forall x, ~ holds_spelling tokens (squeezed (concat ps)) x
  end.
Proof. exact (write_all_spec tokens [] ps new_scan (scan_inv_new tokens)). Qed.

(** A live token of 32 bytes or more is found inside the base64 of any
    text that holds it, whatever its alignment in that text, also when the
    base64 is broken into lines and the stream into writes anywhere. *)
Lemma scan_finds_base64 (tokens : list liveToken) (l : liveToken) (pre post : gostr) (ps : list gostr)
    (Hl : l ∈ tokens) (Hlen : (anchorLen <= length (lt_token l))%nat)
    (Hbs : Forall (fun c => c <> backslash) (concat ps))
    (Hps : filter not_space (concat ps) = std_encode (pre ++ lt_token l ++ post)) :
  exists x, write_all (newMatcher tokens) new_scan ps = Some x.
Proof.
  apply (write_all_hit tokens ps (Hit (lt_route l) (lit "base64"))).
  rewrite squeeze_lines, Hps by done.
  apply (holds_base64 tokens l pre post); [done | done | apply occurs_refl].
Qed.

Definition example_token : liveToken :=
  LiveToken (lit "0123456789abcdefghijklmnopqrstuvwxyz") (lit "r1") 100.

Example scan_finds_base64_witness :
  exists x, write_all (newMatcher [example_token]) new_scan
    [lit "eDAxMjM0NTY3ODlhYmNkZWZn" ++ [zb 13; zb 10]; lit "aGlqa2xtbm9wcXJzdHV2d3h5eg=="] = Some x.
Proof.
  apply (scan_finds_base64 [example_token] example_token (lit "x") []).
  - constructor.
  - cbn. unfold anchorLen. lia.
  - apply Forall_forall. intros c Hc ->. revert Hc. apply (proj1 (mem_false _ _)). vm_compute. reflexivity.
  - vm_compute. reflexivity.
Defined.

(** A live token of 32 bytes or more is found in a stream whose squeezed
    bytes hold it as it is, percent-escaped, hex-encoded or JSON-escaped. *)
Lemma scan_finds_escaped (tokens : list liveToken) (l : liveToken) (f : form) (ps : list gostr)
    (Hl : l ∈ tokens) (Hlen : (anchorLen <= length (lt_token l))%nat) (Hf : f <> formBase64)
    (Hps : occurs (reference f (lt_token l)) (squeezed (concat ps))) :
  exists x, write_all (newMatcher tokens) new_scan ps = Some x.
Proof.
  apply (write_all_hit tokens ps (Hit (lt_route l) (encoding (Spelling 0 f 0)))).
  by apply holds_reference.
Qed.

Example scan_finds_escaped_witness :
  exists x, write_all (newMatcher [example_token]) new_scan
    [lit "a 0123456789abcdefghij"; lit "klmnop" ++ lit "\nqrstuvwxyz"] = Some x.
Proof.
  apply (scan_finds_escaped [example_token] example_token formRaw).
  - constructor.
  - cbn. unfold anchorLen. lia.
  - discriminate.
  - exists (lit "a"), []. vm_compute. reflexivity.
Defined.

(** After any sequence of mints, uses and scans, a sandbox keeps at most
    1024 tokens and none twice, and the matcher a request gets, cached or new,
    scans for exactly the tokens that have not expired at its time. *)
Lemma live_matcher_current (ops : list live_op) (now : Z) (ps : list gostr) :
  let st := live_run ops in
  let '(m, st') := matcher_at st now in
  (length (live st) <= maxLive)%nat /\ NoDup (lt_token <$> live st) /\
  live st' = filter (fun l => (now <? lt_exp l) = true) (live st) /\
  match write_all m new_scan ps with
  | Some x => holds_spelling (live st') (squeezed (concat ps)) x
  | None => forall x, ~ holds_spelling (live st') (squeezed (concat ps)) x
  end.
Proof.
  cbn zeta. pose proof (live_run_inv ops) as Hinv. pose proof (matcher_at_spec _ now Hinv) as H.
  destruct (matcher_at (live_run ops) now) as [m st']. destruct H as (_ & Hlive & l & Hl & ->).
  destruct Hinv as (Hlen & Hnd & _). split_and!; [done | done | done |].
  pose proof (write_all_spec l [] ps new_scan (scan_inv_new l)) as Hs. cbn [app] in Hs.
  destruct (write_all _ _ _) as [x|].
  - by apply (holds_spelling_perm l).
  - intros x Hx. apply (Hs x). exact (proj2 (holds_spelling_perm l _ _ _ Hl) Hx).
Qed.

(** A token that is minted or used is the last of the live ones, and it
    pushes out no other token while there are fewer than 1024. *)
Lemma remember_last (st : live_state) (tok route : gostr) (exp : Z) :
  exists l, last (live (remember st tok route exp)) = Some l /\ lt_token l = tok /\
    ((length (live st) < maxLive)%nat -> forall t, t ∈ live st -> t ∈ live (remember st tok route exp)).
Proof. apply remember_last_spec. Qed.
