(* ===== verification/RouteValidate.v ===== *)
(** * Validation of routes (api/policy/v1alpha1/routevalidate.go)

    [Route.Validate] and [validateWritten], with the error of the first check
    that fails.  The YAML decoder that [CheckName] asks is an argument. *)

From stdpp Require Import prelude list strings gmap.
From Stdlib Require Import ZArith Lia ZifyNat Ascii.
From S2P Require Import Prelude GoUnicode GoStrings GoNum GoHttp GoNetip GoUrl Base64 RouteTypes Inject.

Local Open Scope Z_scope.

Inductive origin_error :=
  | NotURL | NotHTTPS | NoHost | HasUser | HasPath | HasQuery | HasFragment | HasUpper | HasWildcard | HasZone
  | EndsWithDot | EmptyPort | BadPort | NotIPv6 | NotDNSName | NotCanonical.

Inductive verror :=
  | NameRequired | NotRouteName | NotSafeName | NotYAML | ReadsAsOther | BadPreset | ServicesNeedGCP | TLSWithPreset
  | VendsUpstream | VendsInject | GCPUpstream | NoService | ServicesAllow | UnknownService (name : gostr)
  | ServiceTwice (name : gostr) | Origin (e : origin_error) | UpstreamRequired
  | SecretRequired (field : gostr) | LifecycleWritten | NotSecretName (field : gostr) | SecretTooLong (field : gostr)
  | FieldSpace | BadLifecycle | CertificateDoesNotCarry | CADoesNotCarry
  | InjectRequired | InjectBoth | InjectNothing | TLSNothing | UsernameRequired | BadUsername | NoAuthorization
  | NotHeaderName (field : gostr) | BrokerHeader (field : gostr) | SetAndRemoved | SetGuestOnly | SetTwice | SetLineBreak
  | SetValueTwice | NoValueSet | AllowAuthorization | AllowNamed | AllowTwice | AllowNoValues | AllowBadValue
  | GuestRequired | GuestEmpty | NotEnvName | EndpointOverride | CACertsVar | RegionNeedsAWS | LiteralEnv
  | InsteadOfRequired | BadInsteadOf
  | EmptyAllow (field : gostr) | AllowNothing | BadMethod | BadPath | ReposNeedPreset | BadRepo
  | ModeName (e : verror) | OfService (name : gostr) (e : verror).

Definition check : Type := res verror unit.

(** ** Grammars *)

Definition lower_letter (r : Z) : bool := in_range 97 122 r.
Definition digit (r : Z) : bool := in_range 48 57 r.
Definition letter (r : Z) : bool := lower_letter r || in_range 65 90 r.

(** The first rune and the others. *)
Definition rune_grammar (first rest : Z -> bool) (s : gostr) : bool :=
  match runes s with [] => true | r :: rs => first r && forallb rest rs end.

Definition safeName (s : gostr) : bool :=
  negb (bool_decide (s = []))
  && rune_grammar (fun r => lower_letter r || digit r)
       (fun r => lower_letter r || digit r || (r =? 46) || (r =? 45) || (r =? 95)) s.

Definition maxSecretName : nat := 128.

(** The loop of [checkSecretName]. *)
Definition secret_name_ok (s : gostr) : bool :=
  match s with
  | [] => true
  | c :: t => letter (bz c) && forallb (fun c => letter (bz c) || digit (bz c) || (bz c =? 95) || (bz c =? 45)) t
  end.

Definition checkSecretName (field name : gostr) : check :=
  fail_if (maxSecretName <? length name)%nat (SecretTooLong field) ;?
  fail_if (negb (secret_name_ok name)) (NotSecretName field).

Definition isToken (s : gostr) : bool := negb (bool_decide (s = [])) && forallb token_byte s.

Definition isEnvName (s : gostr) : bool :=
  match s with
  | [] => false
  | c :: t => (letter (bz c) || (bz c =? 95)) && forallb (fun c => letter (bz c) || (bz c =? 95) || digit (bz c)) t
  end.

Definition dns_byte (c : byte) : bool := letter (bz c) || digit (bz c) || (bz c =? 45).

Definition dns_label (l : gostr) : bool :=
  negb (bool_decide (l = [])) && negb (63 <? length l)%nat
  && negb (bool_decide (head l = Some "-"%char)) && negb (bool_decide (last l = Some "-"%char)) && forallb dns_byte l.

Definition isDNSName (s : gostr) : bool :=
  negb (bool_decide (s = [])) && negb (253 <? length s)%nat && forallb dns_label (split_byte "."%char s).

Definition containsFold (l : list gostr) (s : gostr) : bool := existsb (fun x => equal_fold x s) l.

Definition broker_headers : list gostr :=
  [lit "host"; lit "connection"; lit "content-length"; lit "transfer-encoding"; lit "upgrade"; lit "keep-alive";
   lit "te"; lit "trailer"].

Definition checkHeaderName (field name : gostr) : check :=
  fail_if (negb (isToken name)) (NotHeaderName field) ;?
  fail_if (mem (to_lower name) broker_headers || has_prefix (to_lower name) (lit "proxy-")) (BrokerHeader field).

(** ** Origins *)

Definition check_port (port : gostr) : res origin_error unit :=
  if bool_decide (port = []) then Ok tt
  else
    match parse_int 64 port with
    | Some n => fail_if ((n <? 1) || (65535 <? n) || bool_decide (head port = Some "0"%char)) BadPort
    | None => Err BadPort
    end.

Definition check_host (u : url) : res origin_error unit :=
  if has_prefix (u_host u) (lit "[") then fail_if (negb (ipv6_literal (Hostname u))) NotIPv6
  else fail_if (negb (isDNSName (Hostname u))) NotDNSName.

(** [checkOrigin].  Of an origin that does not start with [https://] it is not
    told whether it parses: both answers are [NotHTTPS]. *)
Definition checkOrigin (origin : gostr) : res origin_error unit :=
  match strip_prefix (lit "https://") origin with
  | None => Err NotHTTPS
  | Some rest =>
    match parse_https ipv6_literal rest with
    | None => Err NotURL
    | Some u =>
      let host := u_host u in
      fail_if (bool_decide (Hostname u = [])) NoHost ;?
      fail_if (u_hasUser u) HasUser ;?
      fail_if (negb (bool_decide (u_path u = [])) || negb (bool_decide (u_rawPath u = []))) HasPath ;?
      fail_if (negb (bool_decide (u_rawQuery u = [])) || u_forceQuery u) HasQuery ;?
      fail_if (negb (bool_decide (u_fragment u = [])) || contains origin (lit "#")) HasFragment ;?
      fail_if (negb (bool_decide (host = to_lower host))) HasUpper ;?
      fail_if (contains host (lit "*")) HasWildcard ;?
      fail_if (contains host (lit "%")) HasZone ;?
      fail_if (has_suffix (Hostname u) (lit ".")) EndsWithDot ;?
      fail_if (has_suffix host (lit ":")) EmptyPort ;?
      check_port (Port u) ;?
      check_host u ;?
      fail_if (negb (bool_decide (origin = https_string host))) NotCanonical
    end
  end.

(** ** The parts of a route *)

Definition credential_validate (c : CredentialRef) : check :=
  let name := sr_name (cd_secretRef c) in
  fail_if (bool_decide (name = [])) (SecretRequired (lit "credential.secretRef.name")) ;?
  checkSecretName (lit "credential.secretRef.name") name ;?
  fail_if (negb (bool_decide (trim_space (cd_field c) = cd_field c))) FieldSpace ;?
  fail_if (negb (bool_decide (cd_lifecycle c = [])) && negb (bool_decide (cd_lifecycle c = LifecycleAnthropicOAuth))) BadLifecycle.

Definition nonempty_slice {A} (s : slice A) : bool := negb (is_nil (head (elems s))).

Definition carriesCredential (i : Inject) : bool :=
  match in_headers i with Some h => nonempty_slice (hi_set h) | None => false end || negb (is_nil (in_basicAuth i)).

Definition certificate_validate (field : gostr) (c : option CertificateRef) : check :=
  match c with
  | None => Ok tt
  | Some c =>
    let name := sr_name (cr_secretRef c) in
    fail_if (bool_decide (name = [])) (SecretRequired field) ;? checkSecretName field name
  end.

Definition tls_validate (t : TLSInject) : check :=
  fail_if (is_nil (ti_clientCertificate t) && is_nil (ti_ca t)) TLSNothing ;?
  certificate_validate (lit "inject.tls.clientCertificate.secretRef.name") (ti_clientCertificate t) ;?
  certificate_validate (lit "inject.tls.ca.secretRef.name") (ti_ca t).

Definition guest_placeholders : list gostr := [PlaceholderRouteURL; PlaceholderSessionToken; PlaceholderRouteRegion].

(** The loop over [remove]; it returns the names in lower case. *)
Fixpoint check_remove (removed : list gostr) (l : list gostr) : res verror (list gostr) :=
  match l with
  | [] => Ok removed
  | name :: l' =>
    checkHeaderName (lit "inject.headers.remove") name ;?
    check_remove (to_lower name :: removed) l'
  end.

(** The body of the loop over [set]. *)
Definition check_set_one (removed set : list gostr) (hd : Header) : check :=
  let key := to_lower (hd_name hd) in
  checkHeaderName (lit "inject.headers.set") (hd_name hd) ;?
  fail_if (mem key removed && negb (equal_fold (hd_name hd) (lit "Authorization"))) SetAndRemoved ;?
  fail_if (existsb (contains (hd_value hd)) guest_placeholders) SetGuestOnly ;?
  fail_if (mem key set) SetTwice ;?
  fail_if (contains_any (hd_value hd) [zb 13; zb 10]) SetLineBreak ;?
  fail_if (1 <? count (hd_value hd) PlaceholderValue)%nat SetValueTwice.

(** It returns the names and whether a value carries the credential. *)
Fixpoint check_set (removed set : list gostr) (carries : bool) (l : list Header) : res verror (list gostr * bool) :=
  match l with
  | [] => Ok (set, carries)
  | hd :: l' =>
    check_set_one removed set hd ;?
    check_set removed (to_lower (hd_name hd) :: set)
      (carries || (count (hd_value hd) PlaceholderValue =? 1)%nat) l'
  end.

Definition check_allow_one (removed set allowed : list gostr) (a : HeaderAllow) : check :=
  let key := to_lower (ha_name a) in
  checkHeaderName (lit "inject.headers.allow") (ha_name a) ;?
  fail_if (bool_decide (key = lit "authorization")) AllowAuthorization ;?
  fail_if (mem key set || mem key removed) AllowNamed ;?
  fail_if (mem key allowed) AllowTwice ;?
  fail_if (negb (nonempty_slice (ha_values a))) AllowNoValues ;?
  fail_if (existsb (fun v => bool_decide (v = []) || contains_any v [","%char; " "%char; zb 9; zb 13; zb 10]) (elems (ha_values a)))
    AllowBadValue.

Fixpoint check_header_allow (removed set allowed : list gostr) (l : list HeaderAllow) : check :=
  match l with
  | [] => Ok tt
  | a :: l' =>
    check_allow_one removed set allowed a ;?
    check_header_allow removed set (to_lower (ha_name a) :: allowed) l'
  end.

Definition headers_validate (needsValue : bool) (h : HeaderInject) : check :=
  let? removed := check_remove [] (elems (hi_remove h)) in
  let? sc := check_set removed [] false (elems (hi_set h)) in
  fail_if (needsValue && negb sc.2) NoValueSet ;?
  check_header_allow removed sc.1 [] (elems (hi_allow h)).

Definition sets_headers (i : Inject) : bool :=
  match in_headers i with Some h => nonempty_slice (hi_set h) | None => false end.

Definition has_certificate (i : Inject) : bool :=
  match in_tls i with Some t => negb (is_nil (ti_clientCertificate t)) | None => false end.

Definition basic_validate (b : BasicAuth) : check :=
  fail_if (bool_decide (ba_username b = [])) UsernameRequired ;?
  fail_if (contains_any (ba_username b) [":"%char; zb 13; zb 10]) BadUsername.

(** [if v != nil { check it }]. *)
Definition check_opt {A} (f : A -> check) (o : option A) : check := match o with Some a => f a | None => Ok tt end.

Definition inject_validate (complete expanded : bool) (i : Inject) : check :=
  fail_if (sets_headers i && negb (is_nil (in_basicAuth i))) InjectBoth ;?
  fail_if (negb (sets_headers i) && is_nil (in_basicAuth i) && negb (has_certificate i) && complete) InjectNothing ;?
  check_opt tls_validate (in_tls i) ;?
  check_opt basic_validate (in_basicAuth i) ;?
  check_opt (headers_validate (complete && sets_headers i)) (in_headers i) ;?
  fail_if (expanded && negb (match in_headers i with
                             | Some h => containsFold (elems (hi_remove h)) (lit "Authorization")
                             | None => false
                             end)) NoAuthorization.

Definition env_validate (preset : gostr) (kv : gostr * gostr) : check :=
  let '(name, value) := kv in
  fail_if (negb (isEnvName name)) NotEnvName ;?
  fail_if (bool_decide (preset = PresetGCP) && has_prefix name GCPEndpointOverridePrefix) EndpointOverride ;?
  fail_if (bool_decide (preset = PresetGCP) && bool_decide (name = GCPCACertsVar)) CACertsVar ;?
  if bool_decide (value = PlaceholderRouteURL) || bool_decide (value = PlaceholderSessionToken) then Ok tt
  else if bool_decide (value = PlaceholderRouteRegion) then fail_if (negb (bool_decide (preset = PresetAWS))) RegionNeedsAWS
  else Err LiteralEnv.

Definition git_validate (g : GitGuest) : check :=
  fail_if (negb (nonempty_slice (gg_insteadOf g))) InsteadOfRequired ;?
  check_all (fun p => fail_if (bool_decide (p = []) || has_rune rune_space p) BadInsteadOf) (elems (gg_insteadOf g)).

Section Guest.
(** The order of the range over [guest.env]. *)
Variable visit : gmap gostr gostr -> list (gostr * gostr).

Definition guest_validate (complete : bool) (preset : gostr) (g : Guest) : check :=
  let env : gmap gostr gostr := default ∅ (gu_env g) in
  fail_if (complete && bool_decide (env = ∅) && is_nil (gu_git g)) GuestEmpty ;?
  check_all (env_validate preset) (visit env) ;?
  check_opt git_validate (gu_git g).
End Guest.

(** ** [request.allow] *)

Definition set_but_empty {A} (s : slice A) : bool := match s with Some [] => true | _ => false end.

Definition method_ok (m : gostr) : bool := bool_decide (to_upper m = m) && isToken m.
Definition path_ok (p : gostr) : bool := has_prefix p (lit "/") && negb (has_rune rune_space p).
Definition repo_ok (repo : gostr) : bool :=
  match cut_at (lit "/") repo with
  | Some (owner, name) =>
    negb (bool_decide (owner = [])) && negb (bool_decide (name = [])) && negb (contains name (lit "/"))
    && negb (has_rune rune_space repo)
  | None => false
  end.

Definition allow_validate (preset : gostr) (a : RequestAllow) : check :=
  fail_if (set_but_empty (ra_methods a)) (EmptyAllow (lit "methods")) ;?
  fail_if (set_but_empty (ra_paths a)) (EmptyAllow (lit "paths")) ;?
  fail_if (set_but_empty (ra_repos a)) (EmptyAllow (lit "repos")) ;?
  fail_if (negb (nonempty_slice (ra_methods a)) && negb (nonempty_slice (ra_paths a)) && negb (nonempty_slice (ra_repos a)))
    AllowNothing ;?
  fail_if (negb (forallb method_ok (elems (ra_methods a)))) BadMethod ;?
  fail_if (negb (forallb path_ok (elems (ra_paths a)))) BadPath ;?
  fail_if (nonempty_slice (ra_repos a) && negb (bool_decide (preset = PresetGitHubToken))) ReposNeedPreset ;?
  fail_if (negb (forallb repo_ok (elems (ra_repos a)))) BadRepo.

(** ** [Route.validate] *)

Section Route.
(** [yaml.Unmarshal] of a name into an [any]: its error, a string, or another
    value. *)
Variable yaml_scalar : gostr -> option (option gostr).
Variable visit : gmap gostr gostr -> list (gostr * gostr).

Definition CheckName (name : gostr) : check :=
  fail_if (negb (safeName name)) NotSafeName ;?
  match yaml_scalar name with
  | None => Err NotYAML
  | Some v => fail_if (negb (bool_decide (v = Some name))) ReadsAsOther
  end.

Definition CheckRouteName (name : gostr) : check :=
  fail_if (negb (rune_grammar lower_letter (fun r => lower_letter r || digit r || (r =? 45)) name)) NotRouteName ;?
  CheckName name.

Definition presets : list gostr := [PresetClaudeCode; PresetAnthropicAPIKey; PresetGitHubToken; PresetAWS; PresetGCP].

Definition no_preset (r : Route) : bool := bool_decide (rt_preset r = []).
Definition is_gcp (r : Route) : bool := bool_decide (rt_preset r = PresetGCP).

Definition request_allow_of (q : option RequestPolicy) : option RequestAllow :=
  match q with Some q => rp_allow q | None => None end.

(** The loop of [validateServices]. *)
Fixpoint check_services (seen : list gostr) (l : list Service) : check :=
  match l with
  | [] => Ok tt
  | s :: l' =>
    fail_if (is_nil (GCPServicePath (sv_name s))) (UnknownService (sv_name s)) ;?
    fail_if (mem (sv_name s) seen) (ServiceTwice (sv_name s)) ;?
    map_err (OfService (sv_name s)) (check_opt (allow_validate []) (request_allow_of (sv_request s))) ;?
    check_services (sv_name s :: seen) l'
  end.

Definition validateServices (r : Route) : check :=
  fail_if (negb (nonempty_slice (rt_services r))) NoService ;?
  fail_if (negb (is_nil (request_allow_of (rt_request r)))) ServicesAllow ;?
  check_services [] (elems (rt_services r)).

Definition inject_tls (r : Route) : option TLSInject := match rt_inject r with Some i => in_tls i | None => None end.

Definition check_upstream (expanded complete : bool) (r : Route) : check :=
  if Vends r then
    fail_if (negb (bool_decide (rt_upstream r = []))) VendsUpstream ;?
    fail_if (negb expanded && negb (is_nil (rt_inject r))) VendsInject
  else if is_gcp r then
    fail_if (negb (bool_decide (rt_upstream r = []))) GCPUpstream ;?
    validateServices r
  else if negb (bool_decide (rt_upstream r = [])) then map_err Origin (checkOrigin (rt_upstream r))
  else fail_if complete UpstreamRequired.

Definition check_credential (complete : bool) (r : Route) : check :=
  match rt_credential r with
  | None => fail_if (negb (CertificateOnly (rt_inject r))) (SecretRequired (lit "credential.secretRef.name"))
  | Some c =>
    fail_if (negb (bool_decide (cd_lifecycle c = [])) && negb (rt_lifecycleFromPreset r)) LifecycleWritten ;?
    credential_validate c ;?
    match rt_inject r with
    | Some i =>
      if complete && negb (carriesCredential i) then
        match in_tls i with
        | Some t => Err (if is_nil (ti_clientCertificate t) then CADoesNotCarry else CertificateDoesNotCarry)
        | None => Ok tt
        end
      else Ok tt
    | None => Ok tt
    end
  end.

Definition validate_route (expanded : bool) (r : Route) : check :=
  let complete := expanded || no_preset r in
  fail_if (bool_decide (rt_name r = [])) NameRequired ;?
  CheckRouteName (rt_name r) ;?
  fail_if (negb (no_preset r || mem (rt_preset r) presets)) BadPreset ;?
  fail_if (nonempty_slice (rt_services r) && negb (is_gcp r)) ServicesNeedGCP ;?
  (if negb (bool_decide (rt_mode r = [])) && negb (bool_decide (rt_mode r = ModeEndpoint))
   then map_err ModeName (CheckName (rt_mode r)) else Ok tt) ;?
  fail_if (negb (no_preset r) && negb (is_nil (inject_tls r))) TLSWithPreset ;?
  check_upstream expanded complete r ;?
  check_opt tls_validate (inject_tls r) ;?
  check_credential complete r ;?
  match rt_inject r with Some i => inject_validate complete expanded i | None => fail_if complete InjectRequired end ;?
  match rt_guest r with Some g => guest_validate visit complete (rt_preset r) g | None => fail_if complete GuestRequired end ;?
  check_opt (allow_validate (rt_preset r)) (request_allow_of (rt_request r)).

(** [Route.Validate] and [validateWritten]; the errors are wrapped in the name
    of the route. *)
Definition Validate (r : Route) : check := validate_route true r.
Definition validateWritten (r : Route) : check := validate_route false r.
End Route.

(** ** What the grammars say *)

Lemma lower_letter_range r : lower_letter r = true -> 97 <= r <= 122.
Proof. apply in_range_true. Qed.

Lemma digit_range r : digit r = true -> 48 <= r <= 57.
Proof. apply in_range_true. Qed.

(** A grammar of ASCII runes is one of bytes. *)
Lemma rune_grammar_bytes first rest s :
  (forall r, first r = true -> r < 128) -> (forall r, rest r = true -> r < 128) ->
  rune_grammar first rest s = true -> s <> [] ->
  exists c t, s = c :: t /\ first (bz c) = true /\ Forall (fun c => rest (bz c) = true) t.
Proof.
  intros Hf Hr H Hne. destruct s as [|c t]; [done|].
  assert (Forall (fun c => is_ascii c = true) (c :: t)) as Ha.
  { apply runes_all_ascii. unfold rune_grammar in H. destruct (runes (c :: t)) as [|r rs]; [constructor|].
    apply andb_true_iff in H as [H1 H2]. apply forallb_true in H2. constructor; [by apply Hf|].
    eapply Forall_impl; [exact H2|]. apply Hr. }
  exists c, t. unfold rune_grammar in H. rewrite runes_ascii in H by done. cbn [fmap list_fmap] in H.
  apply andb_true_iff in H as [H1 H2]. apply forallb_true, Forall_fmap in H2. done.
Qed.

(** A route name: one or more of letters, digits and dashes, letter first. *)
Definition route_name (s : gostr) : Prop :=
  exists c t, s = c :: t /\ lower_letter (bz c) = true /\
    Forall (fun c => lower_letter (bz c) = true \/ digit (bz c) = true \/ c = "-"%char) t.

Lemma bz_inj_dash c : bz c = 45 -> c = "-"%char.
Proof. intros H. rewrite <- (zb_bz c), H. reflexivity. Qed.

Lemma CheckRouteName_ok yaml_scalar name :
  name <> [] -> CheckRouteName yaml_scalar name = Ok tt -> route_name name /\ yaml_scalar name = Some (Some name).
Proof.
  intros Hne H. unfold CheckRouteName, CheckName in H. res_inv. split.
  - apply negb_false_iff in H. apply rune_grammar_bytes in H as (c & t & -> & Hc & Ht); [| | |done].
    + exists c, t. split_and!; [done|done|]. eapply Forall_impl; [exact Ht|]. intros d Hd. cbn in Hd.
      rewrite !orb_true_iff, Z.eqb_eq in Hd. destruct Hd as [[?|?]|?%bz_inj_dash]; auto.
    + intros r Hr%lower_letter_range. lia.
    + intros r Hr. rewrite !orb_true_iff, Z.eqb_eq in Hr.
      destruct Hr as [[?%lower_letter_range|?%digit_range]|?]; lia.
  - destruct (yaml_scalar name) as [v|]; [|done]. res_inv. bool_inv. by subst.
Qed.

(** ** Origins *)

(** What [checkOrigin] takes: the string of an https URL that is a host and
    maybe a port, and that parses back to this host. *)
Lemma checkOrigin_ok origin :
  checkOrigin origin = Ok tt ->
  exists rest u, origin = lit "https://" ++ rest /\ parse_https ipv6_literal rest = Some u /\
    origin = https_string (u_host u) /\ Hostname u <> [] /\ u_host u = to_lower (u_host u) /\ u_hasUser u = false /\
    u_path u = [] /\ u_rawPath u = [] /\ u_rawQuery u = [] /\ u_fragment u = [] /\
    check_host u = Ok tt /\ check_port (Port u) = Ok tt.
Proof.
  unfold checkOrigin. destruct (strip_prefix _ origin) as [rest|] eqn:Es; [|done].
  apply strip_prefix_Some in Es. destruct (parse_https _ _) as [u|] eqn:Ep; [|done]. cbv zeta. intros H.
  res_inv. exists rest, u. repeat match goal with x : unit |- _ => destruct x end.
  repeat match goal with H : orb _ _ = false |- _ => apply orb_false_iff in H as [? ?] end. bool_inv.
  by split_and!.
Qed.

(** ** Headers *)

(** A header that [headers.set] may hold. *)
Definition set_header_ok (hd : Header) : Prop :=
  isToken (hd_name hd) = true /\ to_lower (hd_name hd) ∉ broker_headers /\
  has_prefix (to_lower (hd_name hd)) (lit "proxy-") = false /\
  contains_any (hd_value hd) [zb 13; zb 10] = false /\
  (count (hd_value hd) PlaceholderValue <= 1)%nat /\
  Forall (fun p => ~ occurs p (hd_value hd)) guest_placeholders.

Lemma checkHeaderName_ok field name u :
  checkHeaderName field name = Ok u ->
  isToken name = true /\ to_lower name ∉ broker_headers /\ has_prefix (to_lower name) (lit "proxy-") = false.
Proof.
  unfold checkHeaderName. destruct u. intros H. res_inv. apply negb_false_iff in H.
  apply orb_false_iff in H0 as [H0 H1]. by apply mem_false in H0.
Qed.

Lemma check_set_one_ok removed set hd u :
  check_set_one removed set hd = Ok u -> set_header_ok hd /\ to_lower (hd_name hd) ∉ set.
Proof.
  unfold check_set_one, set_header_ok. destruct u. intros H. res_inv.
  repeat match goal with x : unit |- _ => destruct x end.
  match goal with H : checkHeaderName _ _ = _ |- _ => apply checkHeaderName_ok in H as (? & ? & ?) end.
  match goal with H : mem _ set = false |- _ => apply mem_false in H end.
  match goal with H : existsb _ guest_placeholders = false |- _ => apply existsb_false in H as Hp end.
  match goal with H : (1 <? _)%nat = false |- _ => apply Nat.ltb_ge in H end.
  split_and!; try done. eapply Forall_impl; [exact Hp|]. intros p. apply contains_false.
Qed.

Definition lower_names (l : list Header) : list gostr := to_lower ∘ hd_name <$> l.

Lemma check_set_ok removed set carries l set' carries' :
  check_set removed set carries l = Ok (set', carries') ->
  Forall set_header_ok l /\ NoDup (lower_names l) /\ Forall (fun n => n ∉ set) (lower_names l) /\
  carries' = carries || existsb (fun hd => (count (hd_value hd) PlaceholderValue =? 1)%nat) l.
Proof.
  revert set carries. induction l as [|hd l IH]; intros set carries; cbn [check_set].
  - intros [= <- <-]. rewrite orb_false_r. split_and!; try done; constructor.
  - intros H. res_inv. apply check_set_one_ok in H as [Hok Hnew]. apply IH in H0 as (Hall & Hnd & Hset & ->).
    cbn [lower_names fmap list_fmap existsb compose]. split_and!.
    + by constructor.
    + apply NoDup_cons. split; [|done]. intros Hin. rewrite Forall_forall in Hset. apply (Hset _ Hin). by left.
    + constructor; [done|]. eapply Forall_impl; [exact Hset|]. intros n Hn Hin. apply Hn. by right.
    + by rewrite orb_assoc.
Qed.

Lemma headers_validate_ok needs h u :
  headers_validate needs h = Ok u ->
  Forall set_header_ok (elems (hi_set h)) /\ NoDup (lower_names (elems (hi_set h))) /\
  (needs = true -> exists hd, hd ∈ elems (hi_set h) /\ count (hd_value hd) PlaceholderValue = 1%nat).
Proof.
  unfold headers_validate. destruct u. intros H. res_inv. destruct x0 as [set' carries].
  match goal with H : check_set _ _ _ _ = _ |- _ => apply check_set_ok in H as (? & ? & _ & ->) end.
  split_and!; [done|done|]. intros ->. cbn [andb snd orb] in *.
  match goal with H : negb _ = false |- _ => apply negb_false_iff, existsb_true in H as (hd & Hin & Hc) end.
  apply Nat.eqb_eq in Hc. eauto.
Qed.

(** ** The credential reaches the request *)

Lemma count_contains s sub : (0 < count s sub)%nat -> exists a b, cut_at sub s = Some (a, b).
Proof. unfold count. cbn [count_fuel]. destruct (cut_at sub s) as [[a b]|]; [eauto|lia]. Qed.

Lemma lower_canonical (b : bool) s : lower_byte <$> canonical_bytes b s = lower_byte <$> s.
Proof.
  assert (forall c, lower_byte (upper_byte c) = lower_byte c) as Hu.
  { intros c. destruct c as [[] [] [] [] [] [] [] []]; reflexivity. }
  revert b. induction s as [|c s IH]; intros b; [done|]. cbn [canonical_bytes fmap list_fmap]. f_equal; [|apply IH].
  destruct b; [apply Hu|apply lower_byte_idem].
Qed.

Lemma isToken_bytes s : isToken s = true -> forallb token_byte s = true /\ all_ascii s = true.
Proof.
  unfold isToken. intros [_ H]%andb_true_iff. split; [done|]. apply all_ascii_Forall. apply forallb_true in H.
  eapply Forall_impl; [exact H|]. intros c. destruct c as [[] [] [] [] [] [] [] []]; vm_compute; congruence.
Qed.

(** Two header names of one canonical form are one in lower case. *)
Lemma canonical_lower a b :
  isToken a = true -> isToken b = true -> CanonicalHeaderKey a = CanonicalHeaderKey b -> to_lower a = to_lower b.
Proof.
  intros [Ha Aa]%isToken_bytes [Hb Ab]%isToken_bytes. unfold CanonicalHeaderKey. rewrite Ha, Hb. intros H.
  rewrite !to_lower_ascii by done. by rewrite <- (lower_canonical true a), H, lower_canonical.
Qed.

Lemma set_headers_keep (value : gostr) (l : list Header) (h : header) (k : gostr) :
  Forall (fun s => CanonicalHeaderKey (hd_name s) <> k) l ->
  foldl (fun h s => h_set h (hd_name s) (replace_first PlaceholderValue value (hd_value s))) h l !! k = h !! k.
Proof.
  revert h. induction l as [|s l IH]; intros h H; [done|]. apply Forall_cons in H as [Hs H]. cbn [foldl].
  rewrite IH by done. unfold h_set. by rewrite lookup_insert_ne.
Qed.

(** Each header of a valid [headers.set] is on the request as it was set. *)
Lemma set_headers_lookup (value : gostr) (l : list Header) (h : header) (hd : Header) :
  Forall set_header_ok l -> NoDup (lower_names l) -> hd ∈ l ->
  foldl (fun h s => h_set h (hd_name s) (replace_first PlaceholderValue value (hd_value s))) h l
    !! CanonicalHeaderKey (hd_name hd) = Some [replace_first PlaceholderValue value (hd_value hd)].
Proof.
  revert h. induction l as [|s l IH]; intros h Hok Hnd Hin; [by apply elem_of_nil in Hin|].
  apply Forall_cons in Hok as [Hs Hok]. apply NoDup_cons in Hnd as [Hn Hnd]. cbn [foldl].
  apply elem_of_cons in Hin as [->|Hin]; [|by apply IH].
  rewrite set_headers_keep; [unfold h_set; apply lookup_insert_eq|].
  apply Forall_forall. intros s' Hs' E. rewrite Forall_forall in Hok. specialize (Hok s' Hs').
  apply Hn. apply list_elem_of_fmap. exists s'. split; [|done]. cbn.
  apply canonical_lower; [apply Hs|apply Hok|done].
Qed.

(** What a valid [inject] puts on a request. *)
Lemma inject_validate_carries i u :
  inject_validate true true i = Ok u -> carriesCredential i = true ->
  (forall (h : header) (value : gostr), exists hd pre post, hd ∈ set_of i /\ hd_value hd = pre ++ PlaceholderValue ++ post /\
     h_values (injectCredential i h value) (hd_name hd) = [pre ++ value ++ post]) \/
  (forall (h : header) (value : gostr), exists b, in_basicAuth i = Some b /\
     h_get (injectCredential i h value) Authorization = lit "Basic " ++ std_encode (ba_username b ++ lit ":" ++ value)).
Proof.
  unfold inject_validate. destruct u. intros H Hc. res_inv. repeat match goal with x : unit |- _ => destruct x end.
  destruct (in_basicAuth i) as [b|] eqn:Eb.
  { right. intros h value. exists b. split; [done|]. unfold injectCredential. rewrite Eb. apply h_get_set. }
  left. intros h value. unfold carriesCredential in Hc. rewrite Eb in Hc. cbn [is_nil negb] in Hc. rewrite orb_false_r in Hc.
  destruct (in_headers i) as [hi|] eqn:Eh; [|done].
  assert (headers_validate true hi = Ok tt) as Hv.
  { unfold sets_headers in *. rewrite Eh, Hc in *. cbn [check_opt] in *. done. }
  apply headers_validate_ok in Hv as (Hok & Hnd & Hval). destruct (Hval eq_refl) as (hd & Hin & Hcount).
  destruct (count_contains (hd_value hd) PlaceholderValue ltac:(lia)) as (pre & post & Ecut).
  exists hd, pre, post. unfold set_of, injectCredential. rewrite Eb, Eh. split_and!; [done|by apply cut_at_Some|].
  unfold h_values, set_of. rewrite Eh. rewrite set_headers_lookup by done. unfold replace_first. by rewrite Ecut.
Qed.

(** ** Services and the guest's environment *)

Lemma check_services_ok seen l u :
  check_services seen l = Ok u ->
  Forall (fun s => is_Some (GCPServicePath (sv_name s))) l /\ NoDup (sv_name <$> l) /\
  Forall (fun s => sv_name s ∉ seen) l.
Proof.
  revert seen. induction l as [|s l IH]; intros seen; cbn [check_services].
  - intros _. split_and!; constructor.
  - destruct u. intros H. res_inv. repeat match goal with x : unit |- _ => destruct x end.
    match goal with H : check_services _ _ = _ |- _ => apply IH in H as (Hk & Hnd & Hseen) end.
    match goal with H : mem _ _ = false |- _ => apply mem_false in H as Hnew end.
    match goal with H : is_nil _ = false |- _ => apply is_nil_false in H as Hknown end.
    split_and!.
    + by constructor.
    + rewrite fmap_cons. apply NoDup_cons. split; [|done]. intros (s' & E & Hin)%list_elem_of_fmap.
      rewrite Forall_forall in Hseen. apply (Hseen s' Hin). rewrite <- E. by left.
    + constructor; [done|]. eapply Forall_impl; [exact Hseen|]. intros s' Hs' Hin. apply Hs'. by right.
Qed.

Lemma env_validate_placeholder preset name value u :
  env_validate preset (name, value) = Ok u -> value ∈ guest_placeholders.
Proof.
  unfold env_validate. destruct u. intros H. res_inv. unfold guest_placeholders. rewrite !elem_of_cons.
  destruct (bool_decide (value = PlaceholderRouteURL)) eqn:E1; [bool_inv; auto|].
  destruct (bool_decide (value = PlaceholderSessionToken)) eqn:E2; [bool_inv; auto|]. cbn [orb] in *.
  destruct (bool_decide (value = PlaceholderRouteRegion)) eqn:E3; [bool_inv; auto|done].
Qed.

(** The upstream of a complete route, by its preset. *)
Definition valid_upstream (r : Route) : Prop :=
  if Vends r then rt_upstream r = []
  else if is_gcp r then
    rt_upstream r = [] /\ elems (rt_services r) <> [] /\ NoDup (sv_name <$> elems (rt_services r)) /\
    Forall (fun s => is_Some (GCPServicePath (sv_name s))) (elems (rt_services r)) /\
    request_allow_of (rt_request r) = None
  else checkOrigin (rt_upstream r) = Ok tt.

Lemma nonempty_slice_true {A} (s : slice A) : nonempty_slice s = true <-> elems s <> [].
Proof. unfold nonempty_slice. destruct (elems s); cbn; split; congruence. Qed.

Lemma check_upstream_ok r u : check_upstream true true r = Ok u -> valid_upstream r.
Proof.
  unfold check_upstream, valid_upstream. destruct u. intros H. destruct (Vends r); [res_inv; bool_inv; done|].
  destruct (is_gcp r).
  - unfold validateServices in H. res_inv. repeat match goal with x : unit |- _ => destruct x end.
    match goal with H : check_services _ _ = _ |- _ => apply check_services_ok in H as (? & ? & _) end. bool_inv.
    match goal with H : nonempty_slice _ = true |- _ => apply nonempty_slice_true in H end.
    match goal with H : is_nil _ = true |- _ => apply is_nil_true in H end. done.
  - destruct (negb _); [by apply map_err_ok in H|done].
Qed.

(** What [Validate] says of a route, past its credential. *)
Lemma Validate_ok yaml_scalar visit r :
  Validate yaml_scalar visit r = Ok tt ->
  exists i g, rt_inject r = Some i /\ rt_guest r = Some g /\ route_name (rt_name r) /\
    (elems (rt_services r) <> [] -> is_gcp r = true) /\ valid_upstream r /\
    inject_validate true true i = Ok tt /\ guest_validate visit true (rt_preset r) g = Ok tt /\
    check_credential true r = Ok tt /\ (forall a, request_allow_of (rt_request r) = Some a -> allow_validate (rt_preset r) a = Ok tt).
Proof.
  unfold Validate, validate_route. cbn [orb]. intros H. res_inv. repeat match goal with x : unit |- _ => destruct x end.
  destruct (rt_inject r) as [i|]; [|done]. destruct (rt_guest r) as [g|]; [|done]. exists i, g.
  match goal with H : CheckRouteName _ _ = _ |- _ => apply CheckRouteName_ok in H as [? _] end.
  2:{ match goal with H : bool_decide _ = false |- _ => by apply bool_decide_eq_false in H end. }
  match goal with H : check_upstream _ _ _ = _ |- _ => apply check_upstream_ok in H end.
  split_and!; try done.
  - intros Hs%nonempty_slice_true. match goal with H : _ && negb (is_gcp r) = false |- _ => rewrite Hs in H; by apply negb_false_iff in H end.
  - intros a Ha. match goal with H : check_opt (allow_validate _) _ = _ |- _ => by rewrite Ha in H end.
Qed.

(** ** Properties *)

(** A validated route sends its credential: whatever the request holds,
    injecting a value puts it in a header that the route sets, in the place of
    {value}, or in the basic authorization.  Nothing the guest sent takes its
    place. *)
Lemma Validate_carries (yaml_scalar : gostr -> option (option gostr)) (visit : gmap gostr gostr -> list (gostr * gostr))
    (r : Route) (H : Validate yaml_scalar visit r = Ok tt) (Hcred : is_Some (rt_credential r)) :
  exists i, rt_inject r = Some i /\
    ((forall (h : header) (value : gostr), exists hd pre post, hd ∈ set_of i /\ hd_value hd = pre ++ PlaceholderValue ++ post /\
        h_values (injectCredential i h value) (hd_name hd) = [pre ++ value ++ post]) \/
     (forall (h : header) (value : gostr), exists b, in_basicAuth i = Some b /\
        h_get (injectCredential i h value) Authorization = lit "Basic " ++ std_encode (ba_username b ++ lit ":" ++ value))).
Proof.
  unfold Validate, validate_route in H. cbn [orb] in H. res_inv. repeat match goal with x : unit |- _ => destruct x end.
  destruct (rt_inject r) as [i|] eqn:Ei; [|done]. exists i. split; [done|].
  destruct Hcred as [c Hc]. unfold check_credential in *. rewrite Hc, Ei in *. res_inv.
  eapply inject_validate_carries; [eassumption|].
  destruct (carriesCredential i) eqn:Ec; [done|]. cbn [andb negb] in *.
  destruct (in_tls i) eqn:Et; [done|]. exfalso.
  unfold inject_validate in *. res_inv.
  unfold carriesCredential, sets_headers, has_certificate in *. rewrite Et in *. apply orb_false_iff in Ec as [E1 E2].
  apply negb_false_iff in E2. rewrite E2 in *. destruct (in_headers i); [rewrite E1 in *|]; done.
Qed.

(** A route that [Validate] takes is safe to serve: its name is a path
    segment of lower case letters, digits and dashes; its upstream is a
    canonical https origin, the origins of wired services, or nothing when it
    vends; Authorization is removed; the headers it sets are distinct, hold no
    line break, and are none the broker sets itself; and the guest's
    environment gets placeholders alone, never a literal. *)
Lemma Validate_safe (yaml_scalar : gostr -> option (option gostr)) (visit : gmap gostr gostr -> list (gostr * gostr))
    (Hvisit : forall m, Permutation (visit m) (map_to_list m)) (r : Route) (H : Validate yaml_scalar visit r = Ok tt) :
  route_name (rt_name r) /\ valid_upstream r /\ (elems (rt_services r) <> [] -> rt_preset r = PresetGCP) /\
  (exists i hi, rt_inject r = Some i /\ in_headers i = Some hi /\
     containsFold (elems (hi_remove hi)) (lit "Authorization") = true /\
     Forall set_header_ok (elems (hi_set hi)) /\ NoDup (lower_names (elems (hi_set hi)))) /\
  (exists g, rt_guest r = Some g /\
     forall (env : gmap gostr gostr) name value, gu_env g = Some env -> env !! name = Some value -> value ∈ guest_placeholders).
Proof.
  apply Validate_ok in H as (i & g & Hi & Hg & Hname & Hsv & Hup & Hin & Hgu & _ & _). split_and!; [done|done| | |].
  - intros Hs%Hsv. by apply bool_decide_eq_true in Hs.
  - unfold inject_validate in Hin. res_inv. destruct (in_headers i) as [hi|] eqn:Eh; [|done]. exists i, hi. cbn [check_opt andb] in *.
    match goal with H : headers_validate _ _ = _ |- _ => apply headers_validate_ok in H as (? & ? & _) end.
    match goal with H : negb (containsFold _ _) = false |- _ => apply negb_false_iff in H end. done.
  - exists g. split; [done|]. intros env name value He Hv. unfold guest_validate in Hgu. rewrite He in Hgu. res_inv.
    match goal with H : Forall _ (visit _) |- _ => rename H into Hall end. rewrite Hvisit, Forall_forall in Hall.
    apply (env_validate_placeholder (rt_preset r) name value tt), Hall. by apply elem_of_map_to_list.
Qed.

(** An upstream that [checkOrigin] takes is the string of the origin the
    broker dials: it is https, a host and maybe a port, in lower case, without
    user, path, query or fragment, and parsing it and writing the host out
    again gives the same string. *)
Lemma checkOrigin_canonical (origin : gostr) (H : checkOrigin origin = Ok tt) :
  exists u, parse_origin ipv6_literal origin = Some u /\ https_string (u_host u) = origin /\
    u_host u <> [] /\ u_host u = to_lower (u_host u) /\ u_hasUser u = false /\ u_path u = [] /\ u_rawQuery u = [] /\
    u_fragment u = [] /\ (has_prefix (u_host u) (lit "[") = false -> isDNSName (Hostname u) = true) /\
    (forall n, Port u <> [] -> parse_int 64 (Port u) = Some n -> 1 <= n <= 65535).
Proof.
  apply checkOrigin_ok in H as (rest & u & Ho & Hp & Hs & Hh & Hl & Hu & H1 & H2 & H3 & H4 & H5 & H6).
  exists u. split_and!; try done.
  - unfold parse_origin. rewrite Ho, strip_prefix_app. done.
  - intros E. apply Hh. unfold Hostname. by rewrite E.
  - unfold check_host in H5. intros Hb. rewrite Hb in H5. apply fail_if_ok in H5. by apply negb_false_iff.
  - intros n Hne Hn. unfold check_port in H6. rewrite (bool_decide_eq_false_2 _ Hne), Hn in H6. apply fail_if_ok in H6.
    apply orb_false_iff in H6 as [H6 _]. apply orb_false_iff in H6 as [H6 H7]. apply Z.ltb_ge in H6, H7. lia.
Qed.

Definition example_yaml (s : gostr) : option (option gostr) := Some (Some s).

Definition valid_route : Route :=
  MkRoute (lit "anthropic") [] [] (lit "https://api.anthropic.com")
    (Some (MkCredentialRef (MkSecretRef (lit "key")) [] []))
    (Some (MkInject (Some (MkHeaderInject (Some [MkHeader (lit "x-api-key") (lit "Key {value}")]) (Some [lit "Authorization"]) None)) None None))
    (Some (MkGuest (Some {[lit "ANTHROPIC_API_KEY" := PlaceholderSessionToken]}) None)) None None false.

Example Validate_carries_witness :
  Validate example_yaml map_to_list valid_route = Ok tt /\ exists i, rt_inject valid_route = Some i.
Proof.
  assert (Validate example_yaml map_to_list valid_route = Ok tt) as H by (vm_compute; reflexivity).
  split; [exact H|]. destruct (Validate_carries example_yaml map_to_list valid_route H) as (i & Hi & _); [by eexists|].
  by exists i.
Defined.

Example Validate_safe_witness : route_name (lit "anthropic").
Proof.
  apply (Validate_safe example_yaml map_to_list (fun m => Permutation_refl _) valid_route). vm_compute. reflexivity.
Defined.

Example checkOrigin_canonical_witness :
  exists u, parse_origin ipv6_literal (lit "https://[::1]:8443") = Some u /\ u_host u = to_lower (u_host u).
Proof.
  destruct (checkOrigin_canonical (lit "https://[::1]:8443")) as (u & Hp & _ & _ & Hl & _); [vm_compute; reflexivity|].
  by exists u.
Defined.
