(* ===== verification/PolicyValidate.v ===== *)
(** * Validation of policies (api/policy/v1alpha1/validate.go)

    [Policy.Validate], [Egress.Validate] and [Rule.Validate], with the error of
    the first check that fails. *)

From stdpp Require Import prelude list strings gmap.
From Stdlib Require Import ZArith Lia ZifyNat Ascii.
From S2P Require Import Prelude GoUnicode GoStrings GoNum GoNetip RouteTypes RouteValidate.

Local Open Scope Z_scope.

Inductive policy_error :=
  | APIVersionRequired | APIVersionUnknown | KindRequired | KindUnknown | MetadataName | PolicyName (e : verror)
  | DescriptionLines | PolicyEmpty | DefaultRequired | BadDefault
  | RuleEmpty | RuleBoth | BadCIDR | BadHost
  | InRoute (e : verror) | RouteTwice (name : gostr).

Definition decimal : gostr := lit "0123456789".

(** [strings.TrimLeft(s, cutset)]. *)
Definition trim_left_set (s cutset : gostr) : gostr :=
  trim_left (fun r => existsb (Z.eqb r) (runes cutset)) s.

Definition prefixBits (cidr : gostr) : gostr :=
  let '(addr, bits, ok) := cut cidr (lit "/") in
  if negb ok || (length bits <? 2)%nat || negb (bool_decide (trim bits decimal = [])) then cidr
  else
    let trimmed := trim_left_set bits (lit "0") in
    if negb (bool_decide (trimmed = [])) then addr ++ lit "/" ++ trimmed else addr ++ lit "/0".

Definition rule_validate (r : Rule) : res policy_error unit :=
  fail_if (bool_decide (ru_host r = []) && bool_decide (ru_cidr r = [])) RuleEmpty ;?
  fail_if (negb (bool_decide (ru_host r = [])) && negb (bool_decide (ru_cidr r = []))) RuleBoth ;?
  fail_if (negb (bool_decide (ru_cidr r = [])) && is_nil (ParsePrefix (prefixBits (ru_cidr r)))) BadCIDR ;?
  fail_if (has_rune (fun c => rune_space c || rune_control c) (ru_host r)) BadHost.

Definition egress_validate (e : Egress) : res policy_error unit :=
  (if bool_decide (eg_default e = EgressAllow) || bool_decide (eg_default e = EgressDeny) then Ok tt
   else if bool_decide (eg_default e = []) then Err DefaultRequired
   else Err BadDefault) ;?
  check_all rule_validate (elems (eg_allow e)) ;?
  check_all rule_validate (elems (eg_deny e)).

Section Policy.
Variable yaml_scalar : gostr -> option (option gostr).
Variable visit : gmap gostr gostr -> list (gostr * gostr).

(** The loop over [spec.routes]. *)
Fixpoint check_routes (seen : list gostr) (l : list Route) : res policy_error unit :=
  match l with
  | [] => Ok tt
  | r :: l' =>
    map_err InRoute (validateWritten yaml_scalar visit r) ;?
    fail_if (mem (rt_name r) seen) (RouteTwice (rt_name r)) ;?
    check_routes (rt_name r :: seen) l'
  end.

(** [Policy.Validate]. *)
Definition policy_validate (p : Policy) : res policy_error unit :=
  (if bool_decide (po_apiVersion p = []) then Err APIVersionRequired
   else fail_if (negb (bool_decide (po_apiVersion p = APIVersion))) APIVersionUnknown) ;?
  (if bool_decide (po_kind p = []) then Err KindRequired
   else fail_if (negb (bool_decide (po_kind p = Kind))) KindUnknown) ;?
  fail_if (bool_decide (om_name (po_metadata p) = [])) MetadataName ;?
  map_err PolicyName (CheckName yaml_scalar (om_name (po_metadata p))) ;?
  fail_if (contains_any (om_description (po_metadata p)) [zb 13; zb 10]) DescriptionLines ;?
  fail_if (is_nil (ps_egress (po_spec p)) && negb (nonempty_slice (ps_routes (po_spec p)))) PolicyEmpty ;?
  match ps_egress (po_spec p) with Some e => egress_validate e | None => Ok tt end ;?
  check_routes [] (elems (ps_routes (po_spec p))).
End Policy.

Example prefixBits_1 : prefixBits (lit "10.0.0.0/08") = lit "10.0.0.0/8"
  /\ prefixBits (lit "0.0.0.0/00") = lit "0.0.0.0/0" /\ prefixBits (lit "10.0.0.0/8") = lit "10.0.0.0/8"
  /\ prefixBits (lit "10.0.0.0/0x8") = lit "10.0.0.0/0x8".
Proof. repeat split; vm_compute; reflexivity. Qed.

(** ** What is checked *)

Lemma trim_left_run (f : Z -> bool) (u t : gostr) :
  Forall (fun c => is_ascii c = true /\ f (bz c) = true) u ->
  (forall c, head t = Some c -> is_ascii c = true /\ f (bz c) = false) -> trim_left f (u ++ t) = t.
Proof.
  intros Hu Ht. unfold trim_left. assert (forall k, (length (u ++ t) <= k)%nat -> trim_left_fuel k f (u ++ t) = t) as H; [|by apply H].
  induction u as [|c u IH]; intros k Hk; cbn [app] in *.
  - destruct t as [|c t]; [by destruct k|]. destruct k as [|k]; [cbn in Hk; lia|]. destruct (Ht c eq_refl) as [Ha Hf].
    cbn [trim_left_fuel]. by rewrite decode_rune_ascii, Hf.
  - apply Forall_cons in Hu as [[Ha Hf] Hu]. destruct k as [|k]; [cbn in Hk; lia|]. cbn [trim_left_fuel].
    rewrite decode_rune_ascii, Hf by done. cbn [drop]. apply IH; [done|]. cbn in Hk. lia.
Qed.

Lemma decimal_runes (c : byte) : is_digit c = true -> is_ascii c = true /\ existsb (Z.eqb (bz c)) (runes decimal) = true.
Proof. by destruct c as [[] [] [] [] [] [] [] []]; vm_compute. Qed.

Lemma zero_rune (c : byte) : existsb (Z.eqb (bz c)) (runes (lit "0")) = bool_decide (bz c = 48).
Proof. by destruct c as [[] [] [] [] [] [] [] []]; vm_compute. Qed.

Lemma digits_ascii (s : gostr) : Forall (fun c => is_digit c = true) s -> Forall (fun c => is_ascii c = true) s.
Proof. intros H. eapply Forall_impl; [exact H|]. intros c Hc. by apply decimal_runes. Qed.

Lemma trim_decimal (s : gostr) : Forall (fun c => is_digit c = true) s -> trim s decimal = [].
Proof.
  intros Hs. unfold trim. rewrite <- (app_nil_r s), trim_left_run; [done| |done].
  eapply Forall_impl; [exact Hs|]. intros c Hc. by apply decimal_runes.
Qed.

Lemma utoa_0 : utoa 0 = lit "0".
Proof. reflexivity. Qed.

Lemma trim_zeros (zeros : nat) (n : Z) : 0 <= n ->
  trim_left_set (replicate zeros "0"%char ++ utoa n) (lit "0") = if n =? 0 then [] else utoa n.
Proof.
  intros Hn. unfold trim_left_set. assert (forall k, Forall (fun c => is_ascii c = true /\ existsb (Z.eqb (bz c)) (runes (lit "0")) = true)
    (replicate k "0"%char)) as Hz.
  { intros k. apply Forall_replicate. split; vm_compute; reflexivity. }
  destruct (Z.eqb_spec n 0) as [->|Hne].
  - rewrite utoa_0. rewrite <- (app_nil_r (_ ++ _)). apply trim_left_run; [|done].
    apply Forall_app. split; [apply Hz|exact (Hz 1%nat)].
  - apply trim_left_run; [apply Hz|]. intros c Hc. pose proof (utoa_digits n Hn) as Hd. destruct (utoa n) as [|d s] eqn:E; [done|].
    injection Hc as ->. apply Forall_cons in Hd as [Hd _]. split; [by apply decimal_runes|]. rewrite zero_rune.
    apply bool_decide_eq_false_2, (utoa_no_leading_zero n c s); [lia|done].
Qed.

Lemma prefixBits_zeros (addr : gostr) (zeros : nat) (n : Z) : "/"%char ∉ addr -> 0 <= n ->
  prefixBits (addr ++ lit "/" ++ replicate zeros "0"%char ++ utoa n) = addr ++ lit "/" ++ utoa n.
Proof.
  intros Ha Hn. unfold prefixBits, cut. change (lit "/" ++ ?x) with ("/"%char :: x). rewrite (cut_at_byte_app _ _ _ Ha).
  assert (Forall (fun c => is_digit c = true) (replicate zeros "0"%char ++ utoa n)) as Hd.
  { apply Forall_app. split; [by apply Forall_replicate|by apply utoa_digits]. }
  rewrite trim_decimal, (bool_decide_eq_true_2 _ (eq_refl [])), trim_zeros by done. cbn [negb orb].
  destruct (Nat.ltb_spec (length (replicate zeros "0"%char ++ utoa n)) 2) as [Hl|_]; cbn [orb].
  - destruct (utoa_cons n) as (c & s & E). rewrite length_app, length_replicate, E in Hl. cbn in Hl.
    by destruct zeros; [|lia].
  - destruct (Z.eqb_spec n 0) as [->|Hne]; [by rewrite utoa_0|]. rewrite bool_decide_eq_false_2; [done|].
    destruct (utoa_cons n) as (c & s & ->). done.
Qed.

(** What a valid rule is. *)
Definition rule_valid (r : Rule) : Prop :=
  ru_host r <> [] /\ ru_cidr r = [] /\ has_rune (fun c => rune_space c || rune_control c) (ru_host r) = false \/
  ru_host r = [] /\ ru_cidr r <> [] /\ is_Some (ParsePrefix (prefixBits (ru_cidr r))).

Lemma rule_validate_ok r u : rule_validate r = Ok u <-> rule_valid r.
Proof.
  unfold rule_validate, rule_valid. rewrite !seq_ok, !fail_if_ok, <- is_nil_false.
  destruct (bool_decide_reflect (ru_host r = [])) as [Eh|], (bool_decide_reflect (ru_cidr r = [])) as [Ec|];
    cbn [andb negb]; try naive_solver.
  rewrite Eh. naive_solver.
Qed.

Lemma egress_validate_ok e u :
  egress_validate e = Ok u <->
  (eg_default e = EgressAllow \/ eg_default e = EgressDeny) /\
  Forall rule_valid (elems (eg_allow e)) /\ Forall rule_valid (elems (eg_deny e)).
Proof.
  unfold egress_validate. rewrite !seq_ok, !check_all_ok.
  assert (forall l, Forall (fun x => rule_validate x = Ok tt) l <-> Forall rule_valid l) as H.
  { intros l. rewrite !Forall_forall. by setoid_rewrite rule_validate_ok. }
  rewrite !H. destruct (bool_decide_reflect (eg_default e = EgressAllow)), (bool_decide_reflect (eg_default e = EgressDeny));
    cbn [orb]; try naive_solver.
  destruct (bool_decide (eg_default e = [])); naive_solver.
Qed.

(** A field that is required to have one value. *)
Lemma required_ok {E} (s v : gostr) (e1 e2 : E) : v <> [] ->
  (if bool_decide (s = []) then Err e1 else fail_if (negb (bool_decide (s = v))) e2) = Ok tt <-> s = v.
Proof.
  intros Hv. destruct (bool_decide_reflect (s = [])) as [->|Hs]; [naive_solver|].
  rewrite fail_if_ok, negb_false_iff, bool_decide_eq_true. done.
Qed.

Lemma check_routes_ok yaml_scalar visit seen l u :
  check_routes yaml_scalar visit seen l = Ok u <->
  Forall (fun r => validateWritten yaml_scalar visit r = Ok tt) l /\ NoDup (rt_name <$> l) /\
  Forall (fun r => rt_name r ∉ seen) l.
Proof.
  destruct u. revert seen. induction l as [|r l IH]; intros seen; cbn [check_routes].
  { split; [|done]. intros _. repeat constructor. }
  rewrite !seq_ok, map_err_ok, fail_if_ok, mem_false, IH, !Forall_cons, fmap_cons, NoDup_cons, list_elem_of_fmap.
  assert (Forall (fun x => rt_name x ∉ rt_name r :: seen) l <->
    (~ exists y, rt_name r = rt_name y /\ y ∈ l) /\ Forall (fun x => rt_name x ∉ seen) l) as ->.
  { rewrite !Forall_forall. split.
    - intros H. split; [intros (y & E & Hy); apply (H y Hy); rewrite E; by left|].
      intros x Hx Hin. apply (H x Hx). by right.
    - intros [H1 H2] x Hx Hin. apply elem_of_cons in Hin as [E|Hin]; [apply H1; by exists x|by apply (H2 x)]. }
  generalize (exists y, rt_name r = rt_name y /\ y ∈ l). intros P.
  naive_solver.
Qed.

(** ** Properties *)

(** A policy is taken exactly when it names this version and kind, its name
    is a valid one that YAML reads back as itself, its description is one line,
    it has an egress part or a route, its egress default is allow or deny and
    each rule names one host without white space or one CIDR, and its routes
    are valid as written, under distinct names. *)
Lemma policy_validate_ok (yaml_scalar : gostr -> option (option gostr)) (visit : gmap gostr gostr -> list (gostr * gostr)) (p : Policy) :
  policy_validate yaml_scalar visit p = Ok tt <->
  po_apiVersion p = APIVersion /\ po_kind p = Kind /\ CheckName yaml_scalar (om_name (po_metadata p)) = Ok tt /\
  contains_any (om_description (po_metadata p)) [zb 13; zb 10] = false /\
  (is_Some (ps_egress (po_spec p)) \/ elems (ps_routes (po_spec p)) <> []) /\
  (forall e, ps_egress (po_spec p) = Some e -> (eg_default e = EgressAllow \/ eg_default e = EgressDeny) /\
     Forall rule_valid (elems (eg_allow e)) /\ Forall rule_valid (elems (eg_deny e))) /\
  Forall (fun r => validateWritten yaml_scalar visit r = Ok tt) (elems (ps_routes (po_spec p))) /\
  NoDup (rt_name <$> elems (ps_routes (po_spec p))).
Proof.
  unfold policy_validate. rewrite !seq_ok, map_err_ok, !fail_if_ok, check_routes_ok.
  rewrite (required_ok (po_apiVersion p)), (required_ok (po_kind p)) by done.
  assert ((is_nil (ps_egress (po_spec p)) && negb (nonempty_slice (ps_routes (po_spec p)))) = false <->
    is_Some (ps_egress (po_spec p)) \/ elems (ps_routes (po_spec p)) <> []) as ->.
  { rewrite <- is_nil_false, <- nonempty_slice_true.
    generalize (is_nil (ps_egress (po_spec p))) (nonempty_slice (ps_routes (po_spec p))). intros [] []; cbn; naive_solver. }
  assert (match ps_egress (po_spec p) with Some e => egress_validate e | None => Ok tt end = Ok tt <->
    (forall e, ps_egress (po_spec p) = Some e -> (eg_default e = EgressAllow \/ eg_default e = EgressDeny) /\
       Forall rule_valid (elems (eg_allow e)) /\ Forall rule_valid (elems (eg_deny e)))) as ->.
  { destruct (ps_egress (po_spec p)) as [e|]; [|naive_solver]. rewrite egress_validate_ok. naive_solver. }
  assert (CheckName yaml_scalar (om_name (po_metadata p)) = Ok tt -> om_name (po_metadata p) <> []) as Hn.
  { intros H E. by rewrite E in H. }
  rewrite bool_decide_eq_false. split; [naive_solver|]. intros (?&?&?&?&?&?&?&?). split_and!; try done; [by apply Hn|].
  apply Forall_forall. intros r _. apply not_elem_of_nil.
Qed.

Definition example_policy : Policy :=
  MkPolicy APIVersion Kind (MkObjectMeta (lit "base") (lit "one line") None None)
    (MkPolicySpec (Some (MkEgress EgressDeny (Some [MkRule (lit "*.example.com") []; MkRule [] (lit "10.0.0.0/08")]) None))
       (Some [valid_route])).

Example policy_1 : policy_validate example_yaml map_to_list example_policy = Ok tt.
Proof. vm_compute. reflexivity. Qed.

(** A CIDR rule written with leading zeros in its length is read as the
    same rule without them. *)
Lemma prefixBits_same (addr : gostr) (zeros : nat) (n : Z) (Ha : "/"%char ∉ addr) (Hn : 0 <= n) :
  prefixBits (addr ++ lit "/" ++ replicate zeros "0"%char ++ utoa n) = addr ++ lit "/" ++ utoa n /\
  rule_validate (MkRule [] (addr ++ lit "/" ++ replicate zeros "0"%char ++ utoa n))
    = rule_validate (MkRule [] (addr ++ lit "/" ++ utoa n)).
Proof.
  split; [by apply prefixBits_zeros|]. unfold rule_validate. cbn [ru_host ru_cidr].
  rewrite prefixBits_zeros by done. pose proof (prefixBits_zeros addr 0 n Ha Hn) as E. cbn [replicate app] in E.
  change ([] ++ utoa n) with (utoa n) in E. rewrite E.
  assert (forall s : gostr, bool_decide (addr ++ lit "/" ++ s = []) = false) as Hs.
  { intros s. apply bool_decide_eq_false_2. by destruct addr. }
  by rewrite !Hs.
Qed.
