(* ===== verification/RouteMode.v ===== *)
(** * Registered route modes (internal/routemode)

    The process-wide registry that a mode outside this build would join.  Each
    function takes the lock for its whole body, so the registry is a value that
    the calls are applied to one after another. *)

From stdpp Require Import prelude list strings gmap sorting.
From Stdlib Require Import ZArith Lia Ascii.
From S2P Require Import Prelude GoUnicode GoStrings RouteTypes RouteValidate.

(** [rm_check base written expanded] is the mode's [Check]: [None] when it
    takes the route, the text of its error otherwise. *)
Record Mode := MkMode {
  rm_name : gostr;
  rm_presets : list gostr;
  rm_check : option (Route -> Route -> Route -> option gostr);
}.

Definition modes_map : Type := gmap gostr Mode.

(** What [Register] panics with. *)
Inductive mode_panic := NotAMode | ModeBadName (e : verror) | ModeTwice.

Definition Register (yaml_scalar : gostr -> option (option gostr)) (modes : modes_map) (m : Mode) : res mode_panic modes_map :=
  fail_if (bool_decide (rm_name m = []) || bool_decide (rm_name m = ModeEndpoint)) NotAMode ;?
  map_err ModeBadName (CheckName yaml_scalar (rm_name m)) ;?
  fail_if (negb (is_nil (modes !! rm_name m))) ModeTwice ;?
  Ok (<[rm_name m := m]> modes).

(** The function [Register] returns. *)
Definition unregister (m : Mode) (modes : modes_map) : modes_map := delete (rm_name m) modes.

Definition Lookup (modes : modes_map) (name : gostr) : option Mode := modes !! name.

Definition Names (modes : modes_map) : list gostr := sort_strings (fst <$> map_to_list modes).

Definition Served (modes : modes_map) (name : gostr) : bool :=
  bool_decide (name = []) || bool_decide (name = ModeEndpoint) || negb (is_nil (Lookup modes name)).

Definition NotInBuild (name : gostr) : gostr := lit "route mode " ++ name ++ lit " is not part of this build of brig".

(** ** The registries that calls lead to *)

Inductive registry_step (yaml_scalar : gostr -> option (option gostr)) : modes_map -> modes_map -> Prop :=
  | step_register m modes modes' :
      Register yaml_scalar modes m = Ok modes' -> registry_step yaml_scalar modes modes'
  | step_unregister m modes : registry_step yaml_scalar modes (unregister m modes).

(** A registry holds modes under their own names, and never the endpoint mode
    or the empty name, which every build serves. *)
Definition registry_ok (modes : modes_map) : Prop :=
  forall name m, modes !! name = Some m -> rm_name m = name /\ name <> [] /\ name <> ModeEndpoint.

Lemma registry_step_ok yaml_scalar modes modes' :
  registry_step yaml_scalar modes modes' -> registry_ok modes -> registry_ok modes'.
Proof.
  intros [m ms ms' H|m ms] Hok name x Hx.
  - unfold Register in H. res_inv. injection H2 as <-. bool_inv.
    apply lookup_insert_Some in Hx as [[<- <-]|[_ Hx]]; [done|by apply Hok].
  - unfold unregister in Hx. apply lookup_delete_Some in Hx as [_ Hx]. by apply Hok.
Qed.

Lemma registry_reachable_ok yaml_scalar (modes : modes_map) :
  rtc (registry_step yaml_scalar) (∅ : gmap gostr Mode) modes -> registry_ok modes.
Proof.
  intros H. assert (registry_ok (∅ : gmap gostr Mode)) as Hi by done. revert Hi.
  induction H as [|x y z Hxy _ IH]; intros Hi; [done|]. apply IH. by eapply registry_step_ok.
Qed.

Lemma endpoint_not_registered modes : registry_ok modes -> Lookup modes ModeEndpoint = None /\ Lookup modes [] = None.
Proof.
  intros H. unfold Lookup. split.
  - destruct (modes !! ModeEndpoint) as [m|] eqn:E; [|done]. by apply H in E as (_ & _ & ?).
  - destruct (modes !! []) as [m|] eqn:E; [|done]. by apply H in E as (_ & ? & _).
Qed.

Lemma elem_of_Names (modes : modes_map) (name : gostr) : name ∈ Names modes <-> is_Some (modes !! name).
Proof.
  unfold Names. rewrite (sort_strings_perm (fst <$> map_to_list modes)), list_elem_of_fmap. split.
  - intros ([n m] & -> & H). apply elem_of_map_to_list in H. by exists m.
  - intros [m H]. exists (name, m). split; [done|]. by apply elem_of_map_to_list.
Qed.
