(* ===== verification/Expand.v ===== *)
(** * Expansion of routes (internal/policy/presets.go)

    How a route is filled from its preset, defaulted and validated.  The preset
    files are embedded YAML: the strict decoder is third party, so the decoded
    file of a preset name is an argument, and [shipped] is what the five files
    of this build say. *)

From stdpp Require Import prelude list strings gmap sorting.
From Stdlib Require Import ZArith Lia ZifyNat Ascii.
From S2P Require Import Prelude GoUnicode GoStrings RouteTypes RouteValidate PolicyValidate RouteMode.

(** A preset as its file writes it. *)
Record presetFile := MkPresetFile { pr_route : Route; pr_modes : list gostr; pr_name : gostr }.

Inductive preset_error :=
  | NotShipped | NotDecoded | PresetMode (m : gostr) | ModesEmpty | ModesNotServed (m : gostr) | ModesTwice (m : gostr)
  | ModesLeaveOut (m : gostr).

(** The loop of [checkModes]: [before] are the modes seen. *)
Fixpoint check_modes (modes : modes_map) (before l : list gostr) : res preset_error unit :=
  match l with
  | [] => Ok tt
  | m :: l' =>
    fail_if (negb (Served modes m)) (ModesNotServed m) ;?
    fail_if (mem m before) (ModesTwice m) ;?
    check_modes modes (before ++ [m]) l'
  end.

Definition checkModes (modes : modes_map) (p : presetFile) : res preset_error unit :=
  fail_if (negb (bool_decide (rt_mode (pr_route p) = ModeEndpoint))) (PresetMode (rt_mode (pr_route p))) ;?
  fail_if (bool_decide (pr_modes p = [])) ModesEmpty ;?
  check_modes modes [] (pr_modes p) ;?
  fail_if (negb (mem (rt_mode (pr_route p)) (pr_modes p))) (ModesLeaveOut (rt_mode (pr_route p))).

(** [presetFile.modes]: the modes of the file, then the registered modes that
    name the preset. *)
Definition modes_of (modes : modes_map) (p : presetFile) : list gostr :=
  foldl (fun out name =>
    match Lookup modes name with
    | Some m => if mem (pr_name p) (rm_presets m) && negb (mem name out) then out ++ [name] else out
    | None => out
    end) (pr_modes p) (Names modes).

Inductive expand_error :=
  | Preset (name : gostr) (e : preset_error)
  | KeepsUpstream | KeepsField
  | PresetModeUnsupported (modes : list gostr) (m : gostr)
  | ModeNeedsPreset (m : gostr)
  | ModeCheck (text : gostr)
  | VendsNoInject
  | Invalid (e : verror).

(** The names of [names] that [remove] does not hold, each added to it in turn. *)
Definition add_removed (remove : slice gostr) (names : list gostr) : slice gostr :=
  foldl (fun (rm : slice gostr) name =>
    if existsb (fun n => equal_fold n name) (elems rm) then rm else Some (elems rm ++ [name])) remove names.

Definition empty_headers : HeaderInject := MkHeaderInject None None None.
Definition empty_inject : Inject := MkInject None None None.
Definition empty_guest : Guest := MkGuest None None.

(** [if r.X != nil { out.X = r.X }]. *)
Definition or_else {A} (x y : option A) : option A := match x with Some _ => x | None => y end.
(** [if r.X != "" { out.X = r.X }]. *)
Definition or_str (x y : gostr) : gostr := if bool_decide (x = []) then y else x.

Definition overlay_credential (base r : option CredentialRef) : option CredentialRef :=
  match r with
  | None => base
  | Some rc =>
    let c := default empty_credential base in
    Some (MkCredentialRef (MkSecretRef (or_str (sr_name (cd_secretRef rc)) (sr_name (cd_secretRef c))))
            (or_str (cd_field rc) (cd_field c)) (cd_lifecycle c))
  end.

Definition overlay_headers (base r : option HeaderInject) : option HeaderInject :=
  match r with
  | None => base
  | Some rh =>
    let h := default empty_headers base in
    Some (MkHeaderInject (or_else (hi_set rh) (hi_set h)) (add_removed (hi_remove h) (elems (hi_remove rh)))
            (or_else (hi_allow rh) (hi_allow h)))
  end.

Definition overlay_inject (base r : option Inject) : option Inject :=
  match r with
  | None => base
  | Some ri =>
    let i := default empty_inject base in
    Some (MkInject (overlay_headers (in_headers i) (in_headers ri)) (or_else (in_basicAuth ri) (in_basicAuth i)) (in_tls i))
  end.

Definition overlay_guest (base r : option Guest) : option Guest :=
  match r with
  | None => base
  | Some rg =>
    let g := default empty_guest base in
    let env : gmap gostr gostr := default ∅ (gu_env rg) in
    Some (MkGuest (if bool_decide (env = ∅) then gu_env g else Some (env ∪ default ∅ (gu_env g)))
            (or_else (gu_git rg) (gu_git g)))
  end.

(** The lifecycle of a preset, when it has one. *)
Definition lifecycle_of (base : Route) : gostr :=
  match rt_credential base with Some c => cd_lifecycle c | None => [] end.

Definition field_of (r : Route) : gostr := match rt_credential r with Some c => cd_field c | None => [] end.

Definition overlay (base r : Route) : res expand_error Route :=
  (if bool_decide (lifecycle_of base = []) then Ok tt
   else
     fail_if (negb (bool_decide (rt_upstream r = [])) && negb (bool_decide (rt_upstream r = rt_upstream base))) KeepsUpstream ;?
     fail_if (negb (bool_decide (field_of r = [])) && negb (bool_decide (field_of r = field_of base))) KeepsField) ;?
  Ok (MkRoute (rt_name r) (rt_preset r) (or_str (rt_mode r) (rt_mode base)) (or_str (rt_upstream r) (rt_upstream base))
        (overlay_credential (rt_credential base) (rt_credential r))
        (overlay_inject (rt_inject base) (rt_inject r))
        (overlay_guest (rt_guest base) (rt_guest r))
        (or_else (rt_request r) (rt_request base))
        (or_else (rt_services r) (rt_services base))
        (rt_lifecycleFromPreset base)).

(** Authorization is put in front of the removed headers. *)
Definition default_remove (remove : slice gostr) : slice gostr :=
  if existsb (fun n => equal_fold n (lit "Authorization")) (elems remove) then remove
  else Some (lit "Authorization" :: elems remove).

Definition default_inject (i : Inject) : Inject :=
  let h := default empty_headers (in_headers i) in
  MkInject (Some (MkHeaderInject (hi_set h) (default_remove (hi_remove h)) (hi_allow h))) (in_basicAuth i) (in_tls i).

Definition setDefaults (r : Route) : Route :=
  MkRoute (rt_name r) (rt_preset r) (or_str (rt_mode r) ModeEndpoint) (rt_upstream r) (rt_credential r)
    (default_inject <$> rt_inject r) (rt_guest r) (rt_request r) (rt_services r) (rt_lifecycleFromPreset r).

Definition with_inject (r : Route) (i : option Inject) : Route :=
  MkRoute (rt_name r) (rt_preset r) (rt_mode r) (rt_upstream r) (rt_credential r) i (rt_guest r) (rt_request r)
    (rt_services r) (rt_lifecycleFromPreset r).

Section Expand.
(** [UnmarshalStrict] of the file of a preset: no such file, or its error, or
    the file. *)
Variable preset_file : gostr -> res preset_error presetFile.
Variable yaml_scalar : gostr -> option (option gostr).
Variable visit : gmap gostr gostr -> list (gostr * gostr).
Variable modes : modes_map.

Definition decodePreset (name : gostr) : res preset_error presetFile :=
  let? p := preset_file name in
  checkModes modes p ;?
  Ok (MkPresetFile
    (match rt_credential (pr_route p) with
     | Some c => SetLifecycleFromPreset (pr_route p) (cd_lifecycle c)
     | None => pr_route p
     end) (pr_modes p) name).

Definition PresetRoute (name : gostr) : res preset_error Route :=
  let? p := decodePreset name in Ok (setDefaults (pr_route p)).

Definition PresetModes (name : gostr) : res preset_error (list gostr) :=
  let? p := decodePreset name in Ok (modes_of modes p).

(** [ExpandRoute] after its first case. *)
Definition expand_body (r : Route) : res expand_error Route :=
  let out := default r (DeepCopy (Some r)) in
  let registered := Lookup modes (rt_mode r) in
  let? bo :=
    if negb (bool_decide (rt_preset r = [])) then
      let? base := map_err (Preset (rt_preset r)) (decodePreset (rt_preset r)) in
      let? out := overlay (pr_route base) out in
      fail_if (Served modes (rt_mode out) && negb (mem (rt_mode out) (modes_of modes base)))
        (PresetModeUnsupported (modes_of modes base) (rt_mode out)) ;?
      Ok (Some (pr_route base), out)
    else
      fail_if (negb (is_nil registered)) (ModeNeedsPreset (rt_mode r)) ;?
      Ok (None, out) in
  let '(base, out) := bo in
  match registered with
  | Some m =>
    match rm_check m with
    | Some check =>
      match check (default (MkRoute [] [] [] [] None None None None None false) base) r out with
      | Some text => Err (ModeCheck text)
      | None => Ok tt
      end
    | None => Ok tt
    end
  | None => Ok tt
  end ;?
  let out := setDefaults out in
  map_err Invalid (Validate yaml_scalar visit out) ;?
  Ok out.

(** A route that vends is expanded without its inject, and an inject that is
    not the preset's own is refused.  The second call takes no inject, so it
    is the rest of the function. *)
Definition ExpandRoute (r : Route) : res expand_error Route :=
  if Vends r && negb (is_nil (rt_inject r)) then
    let? e := expand_body (with_inject (default r (DeepCopy (Some r))) None) in
    fail_if (negb (bool_decide (rt_inject r = rt_inject e))) VendsNoInject ;?
    Ok e
  else expand_body r.

(** The routes of a policy, expanded in order. *)
Fixpoint expand_all (l : list Route) : res expand_error (list Route) :=
  match l with
  | [] => Ok []
  | r :: l' => let? e := ExpandRoute r in let? es := expand_all l' in Ok (e :: es)
  end.

Definition Expand (p : Policy) : res expand_error Policy :=
  if bool_decide (elems (ps_routes (po_spec p)) = []) then Ok p
  else
    let? routes := expand_all (elems (ps_routes (po_spec p))) in
    Ok (MkPolicy (po_apiVersion p) (po_kind p) (po_metadata p) (MkPolicySpec (ps_egress (po_spec p)) (Some routes))).
End Expand.

(** ** The presets of this build *)

Definition anthropic_betas : list gostr :=
  lit <$> ["claude-code-20250219"; "interleaved-thinking-2025-05-14"; "fine-grained-tool-streaming-2025-05-14";
    "context-1m-2025-08-07"; "context-management-2025-06-27"; "advanced-tool-use-2025-11-20"; "advisor-tool-2026-03-01";
    "afk-mode-2026-01-31"; "dangerous-tool-use-2026-09-03"; "effort-2025-11-24"; "extended-cache-ttl-2025-04-11";
    "inline-tools-2026-09-15"; "mid-conversation-system-2026-04-07"; "mid-conversation-tool-changes-2026-07-01";
    "per-turn-control-2026-07-01"; "prompt-caching-scope-2026-01-05"; "thinking-token-count-2026-05-13"]%string.

Definition env_of (l : list (string * string)) : gmap gostr gostr :=
  list_to_map ((fun p => (lit p.1, lit p.2)) <$> l).

Definition authorization : gostr := lit "Authorization".

Definition preset_route (name upstream : string) (c : option CredentialRef) (h : HeaderInject) (b : option BasicAuth)
    (g : Guest) (q : option RequestPolicy) : presetFile :=
  MkPresetFile (MkRoute (lit name) [] ModeEndpoint (lit upstream) c (Some (MkInject (Some h) b None)) (Some g) q None false)
    [ModeEndpoint] [].

Definition shipped_presets : list (gostr * presetFile) :=
  [(PresetAnthropicAPIKey, preset_route "anthropic" "https://api.anthropic.com" None
      (MkHeaderInject (Some [MkHeader (lit "x-api-key") PlaceholderValue]) (Some [authorization])
         (Some [MkHeaderAllow (lit "Anthropic-Beta") (Some anthropic_betas)])) None
      (MkGuest (Some (env_of [("ANTHROPIC_BASE_URL", "{route.url}"); ("ANTHROPIC_API_KEY", "{session.token}")]%string)) None) None);
   (PresetAWS, preset_route "aws" "" None
      (MkHeaderInject (Some [MkHeader authorization PlaceholderValue]) (Some [authorization]) None) None
      (MkGuest (Some (env_of [("AWS_CONTAINER_CREDENTIALS_FULL_URI", "{route.url}");
         ("AWS_CONTAINER_AUTHORIZATION_TOKEN", "{session.token}"); ("AWS_REGION", "{route.region}");
         ("AWS_DEFAULT_REGION", "{route.region}")]%string)) None)
      (Some (MkRequestPolicy (Some (MkRequestAllow (Some [lit "GET"]) None None)))));
   (PresetClaudeCode, preset_route "anthropic" "https://api.anthropic.com"
      (Some (MkCredentialRef (MkSecretRef []) (lit "claudeAiOauth.accessToken") LifecycleAnthropicOAuth))
      (MkHeaderInject (Some [MkHeader authorization (lit "Bearer {value}")]) (Some [authorization; lit "X-Api-Key"])
         (Some [MkHeaderAllow (lit "Anthropic-Beta") (Some (lit "oauth-2025-04-20" :: anthropic_betas))])) None
      (MkGuest (Some (env_of [("ANTHROPIC_BASE_URL", "{route.url}"); ("CLAUDE_CODE_OAUTH_TOKEN", "{session.token}")]%string)) None) None);
   (PresetGCP, preset_route "gcp" "" None
      (MkHeaderInject (Some [MkHeader authorization (lit "Bearer {value}")]) (Some [authorization]) None) None
      (MkGuest (Some (env_of [("BRIG_GCP_URL", "{route.url}"); ("BRIG_GCP_TOKEN", "{session.token}")]%string)) None) None);
   (PresetGitHubToken, preset_route "github" "https://github.com" None
      (MkHeaderInject None (Some [authorization]) None) (Some (MkBasicAuth (lit "x-access-token")))
      (MkGuest None (Some (MkGitGuest (Some [lit "https://github.com/"; lit "git@github.com:"])))) None)].

(** The five files under internal/policy/presets, decoded. *)
Definition shipped (name : gostr) : res preset_error presetFile :=
  match List.find (fun p => bool_decide (p.1 = name)) shipped_presets with
  | Some p => Ok p.2
  | None => Err NotShipped
  end.

(** The names of the embedded files without their extension. *)
Definition PresetNames : list gostr := sort_strings (fst <$> shipped_presets).

Definition written (name preset : string) (services : slice Service) : Route :=
  MkRoute (lit name) (lit preset) [] [] (Some (MkCredentialRef (MkSecretRef (lit "tok")) [] [])) None None None services false.

Definition expand0 (r : Route) : res expand_error Route := ExpandRoute shipped example_yaml map_to_list ∅ r.

Example shipped_expand :
  forallb (fun p => is_ok (expand0 (written "r" p (if bool_decide (p = "gcp"%string) then Some [MkService (lit "storage") None] else None))))
    ["anthropic-api-key"; "aws"; "claude-code"; "gcp"; "github-token"]%string = true.
Proof. vm_compute. reflexivity. Qed.

(** ** What expansion gives *)

Section ExpandFacts.
Variable preset_file : gostr -> res preset_error presetFile.
Variable yaml_scalar : gostr -> option (option gostr).
Variable visit : gmap gostr gostr -> list (gostr * gostr).
Variable modes : modes_map.

Abbreviation decode_preset := (decodePreset preset_file modes).
Abbreviation expand_in := (expand_body preset_file yaml_scalar visit modes).
Abbreviation expand_route := (ExpandRoute preset_file yaml_scalar visit modes).
Abbreviation validates := (Validate yaml_scalar visit).

(** The route over its preset, before the defaults. *)
Definition overlaid (r out : Route) (base : option Route) : Prop :=
  rt_preset r = [] /\ out = r /\ base = None /\ Lookup modes (rt_mode r) = None \/
  rt_preset r <> [] /\ exists pf, decode_preset (rt_preset r) = Ok pf /\ base = Some (pr_route pf) /\
    overlay (pr_route pf) r = Ok out /\ (Served modes (rt_mode out) = true -> rt_mode out ∈ modes_of modes pf).

Definition mode_takes (base : option Route) (r out : Route) : Prop :=
  forall m check, Lookup modes (rt_mode r) = Some m -> rm_check m = Some check ->
    check (default (MkRoute [] [] [] [] None None None None None false) base) r out = None.

Lemma expand_body_ok r e :
  expand_in r = Ok e <->
  exists out base, overlaid r out base /\ mode_takes base r out /\ e = setDefaults out /\ validates e = Ok tt.
Proof.
  unfold Expand.expand_body, overlaid, mode_takes. rewrite DeepCopy_eq.
  cbv zeta. change (default r (Some r)) with r. rewrite res_bind_ok. destruct (bool_decide_reflect (rt_preset r = [])) as [Hp|Hp]; cbn [negb].
  - split.
    + intros ([base out] & Hl & H). apply seq_ok in Hl as [Hl [= <- <-]].
      apply fail_if_ok, negb_false_iff, is_nil_true in Hl. rewrite Hl in H. cbn [res_bind] in H. apply seq_ok in H as [Hv [= <-]].
      apply map_err_ok in Hv. exists r, None. split_and!; [by left|by rewrite Hl|done|done].
    + intros (out & base & [(_ & -> & -> & Hl)|[? _]] & Hm & -> & Hv); [|done]. exists (None, r). rewrite Hl.
      split; [done|]. cbn [res_bind]. by rewrite (proj2 (map_err_ok Invalid _ tt) Hv).
  - split.
    + intros ([base out] & H & Hr). apply res_bind_ok in H as (pf & Hpf & H). apply map_err_ok in Hpf.
      apply res_bind_ok in H as (out' & Ho & H). apply seq_ok in H as [Hs [= <- <-]]. apply fail_if_ok in Hs.
      apply seq_ok in Hr as [Hc Hr]. apply seq_ok in Hr as [Hv [= <-]]. apply map_err_ok in Hv.
      exists out', (Some (pr_route pf)). split_and!; [| |done|done]; [|intros m check Hl Hk; rewrite Hl, Hk in Hc; by destruct (check _ _ _)].
      right. split; [done|]. exists pf. split_and!; try done. intros Hse. rewrite Hse in Hs. cbn [andb] in Hs.
      by apply negb_false_iff, mem_true in Hs.
    + intros (out & base & [(? & _)|(_ & pf & Hpf & -> & Ho & Hs)] & Hm & -> & Hv); [done|]. exists (Some (pr_route pf), out). split.
      * rewrite Hpf. cbn [map_err res_bind]. rewrite Ho. cbn [res_bind].
        destruct (Served modes (rt_mode out)) eqn:Es; [|done]. rewrite (proj2 (mem_true _ _) (Hs eq_refl)). done.
      * apply seq_ok. split; [|by rewrite (proj2 (map_err_ok Invalid _ tt) Hv)].
        destruct (Lookup modes (rt_mode r)) as [m|] eqn:El; [|done]. destruct (rm_check m) as [check|] eqn:Ec; [|done].
        by rewrite (Hm m check eq_refl Ec).
Qed.
End ExpandFacts.

(** ** Expanding twice *)

Lemma elems_Some {A} (l : list A) : elems (Some l) = l.
Proof. done. Qed.

Lemma or_else_absorb {A} (x y : option A) : or_else (or_else x y) y = or_else x y.
Proof. by destruct x, y. Qed.

Lemma or_str_absorb x y : or_str (or_str x y) y = or_str x y.
Proof. unfold or_str. destruct (bool_decide_reflect (x = [])); [by destruct (bool_decide (y = []))|by rewrite bool_decide_eq_false_2]. Qed.

Lemma or_str_idem x : or_str x x = x.
Proof. unfold or_str. by destruct (bool_decide (x = [])). Qed.

(** Whether [remove] holds a name, and what adding a name does to it. *)
Definition holds (remove : slice gostr) (name : gostr) : bool := existsb (fun n => equal_fold n name) (elems remove).

Definition add_name (remove : slice gostr) (name : gostr) : slice gostr :=
  if holds remove name then remove else Some (elems remove ++ [name]).

Lemma add_removed_cons rm name names : add_removed rm (name :: names) = add_removed (add_name rm name) names.
Proof. done. Qed.

Lemma add_removed_app rm l l' : add_removed rm (l ++ l') = add_removed (add_removed rm l) l'.
Proof. apply foldl_app. Qed.

Lemma holds_In rm name : name ∈ elems rm -> holds rm name = true.
Proof. intros H. apply existsb_true. exists name. split; [done|]. apply equal_fold_refl. Qed.

Lemma add_name_held rm name : holds rm name = true -> add_name rm name = rm.
Proof. unfold add_name. by intros ->. Qed.

Lemma holds_add_name rm name x : holds rm x = true -> holds (add_name rm name) x = true.
Proof.
  intros H. unfold add_name. destruct (holds rm name); [done|]. unfold holds in *. rewrite elems_Some.
  by rewrite existsb_app, H.
Qed.

Lemma holds_add_removed rm names x : holds rm x = true -> holds (add_removed rm names) x = true.
Proof.
  revert rm. induction names as [|n names IH]; intros rm H; [done|]. rewrite add_removed_cons.
  by apply IH, holds_add_name.
Qed.

Lemma add_removed_held rm names : Forall (fun n => holds rm n = true) names -> add_removed rm names = rm.
Proof.
  induction 1 as [|n names Hn _ IH]; [done|]. rewrite add_removed_cons, add_name_held by done. exact IH.
Qed.

(** Adding the names that were added, after those there were, adds them again. *)
Lemma add_removed_again rm names : add_removed rm (elems (add_removed rm names)) = add_removed rm names.
Proof.
  induction names as [|n names IH] using rev_ind.
  - apply add_removed_held, Forall_forall. intros x Hx. by apply holds_In.
  - rewrite add_removed_app. set (x := add_removed rm names) in *. change (add_removed x [n]) with (add_name x n).
    unfold add_name. destruct (holds x n) eqn:E; [done|]. rewrite !elems_Some. rewrite add_removed_app, IH.
    change (add_removed x [n]) with (add_name x n). unfold add_name. by rewrite E.
Qed.

(** A preset's list of removed headers is empty or holds Authorization. *)
Definition remove_ok (rm : slice gostr) : Prop := holds rm (lit "Authorization") = true \/ elems rm = [].

Lemma default_remove_holds rm : holds (default_remove rm) (lit "Authorization") = true.
Proof.
  unfold default_remove. fold (holds rm (lit "Authorization")). destruct (holds rm _) eqn:E; [done|].
  unfold holds. rewrite !elems_Some; cbn [existsb]. by rewrite equal_fold_refl.
Qed.

Lemma default_remove_held rm : holds rm (lit "Authorization") = true -> default_remove rm = rm.
Proof. unfold default_remove. fold (holds rm (lit "Authorization")). by intros ->. Qed.

Lemma default_remove_again rm names : remove_ok rm ->
  default_remove (add_removed rm (elems (default_remove (add_removed rm names)))) = default_remove (add_removed rm names).
Proof.
  intros Hok. set (x := add_removed rm names). destruct (holds x (lit "Authorization")) eqn:Ex.
  { rewrite (default_remove_held x Ex). unfold x at 1. rewrite add_removed_again. by apply default_remove_held. }
  destruct Hok as [Hh|He]; [exfalso; unfold x in Ex; by rewrite holds_add_removed in Ex|].
  assert (default_remove x = Some (lit "Authorization" :: elems x)) as Hd.
  { unfold default_remove. fold (holds x (lit "Authorization")). by rewrite Ex. }
  rewrite Hd. rewrite !elems_Some. rewrite add_removed_cons.
  assert (add_name rm (lit "Authorization") = Some [lit "Authorization"]) as ->.
  { unfold add_name, holds. by rewrite He. }
  assert (forall l, Forall (fun n => equal_fold n (lit "Authorization") = false) l -> forall y,
    elems (add_removed (Some (lit "Authorization" :: elems y)) l) = lit "Authorization" :: elems (add_removed y l)) as Hshift.
  { intros l. induction 1 as [|n l Hn _ IH]; intros y; [done|]. rewrite !add_removed_cons. unfold add_name, holds.
    rewrite !elems_Some; cbn [existsb]. rewrite equal_fold_sym, Hn. cbn [orb].
    fold (elems y). destruct (existsb _ (elems y)); [apply IH|]. by rewrite <- (IH (Some _)). }
  assert (Forall (fun n => equal_fold n (lit "Authorization") = false) (elems x)) as Hx by by apply existsb_false.
  assert (elems (add_removed rm (elems x)) = elems x) as Hr by (unfold x; by rewrite add_removed_again).
  specialize (Hshift _ Hx rm). rewrite He, Hr in Hshift.
  assert (forall l y, is_Some y -> is_Some (add_removed y l)) as Hsome.
  { intros l. induction l as [|n l IH]; intros y Hy; [done|]. rewrite add_removed_cons. apply IH. unfold add_name.
    by destruct (holds y n). }
  destruct (Hsome (elems x) (Some [lit "Authorization"]) (ltac:(done))) as [z Hz]. rewrite Hz in *. cbn in Hshift. rewrite Hshift.
  apply default_remove_held. apply holds_In. by left.
Qed.

Definition base_headers (bi : option Inject) : HeaderInject :=
  default empty_headers (in_headers (default empty_inject bi)).

(** An overlaid inject, with the headers of both sides filled in. *)
Lemma overlay_inject_some bi ri i : overlay_inject bi ri = Some i ->
  in_tls i = in_tls (default empty_inject bi) /\
  (exists b, in_basicAuth i = or_else b (in_basicAuth (default empty_inject bi))) /\
  exists s names a, default empty_headers (in_headers i) =
    MkHeaderInject (or_else s (hi_set (base_headers bi))) (add_removed (hi_remove (base_headers bi)) names)
      (or_else a (hi_allow (base_headers bi))).
Proof.
  intros H. assert (exists rh, in_headers i = overlay_headers (in_headers (default empty_inject bi)) rh /\
    in_tls i = in_tls (default empty_inject bi) /\ exists b, in_basicAuth i = or_else b (in_basicAuth (default empty_inject bi)))
    as (rh & Hh & Ht & Hb).
  { destruct ri as [ri|]; cbn in H.
    - injection H as <-. exists (in_headers ri). split_and!; [done|done|by exists (in_basicAuth ri)].
    - subst bi. exists None. split_and!; [done|done|by exists None]. }
  split_and!; [done|done|]. rewrite Hh. unfold base_headers. destruct rh as [rh|].
  - by exists (hi_set rh), (elems (hi_remove rh)), (hi_allow rh).
  - exists None, [], None. cbn. by destruct (default empty_headers _).
Qed.

Lemma overlay_default bi i :
  overlay_inject bi (Some (default_inject i)) =
  let h := default empty_headers (in_headers i) in
  Some (MkInject (Some (MkHeaderInject (or_else (hi_set h) (hi_set (base_headers bi)))
      (add_removed (hi_remove (base_headers bi)) (elems (default_remove (hi_remove h))))
      (or_else (hi_allow h) (hi_allow (base_headers bi)))))
    (or_else (in_basicAuth i) (in_basicAuth (default empty_inject bi))) (in_tls (default empty_inject bi))).
Proof. reflexivity. Qed.

Lemma default_inject_again bi ri : remove_ok (hi_remove (base_headers bi)) ->
  default_inject <$> overlay_inject bi (default_inject <$> overlay_inject bi ri) = default_inject <$> overlay_inject bi ri.
Proof.
  intros Hok. destruct (overlay_inject bi ri) as [i|] eqn:E.
  - destruct (overlay_inject_some bi ri i E) as (Ht & (b & Hb) & s & names & a & Hh). cbn [fmap option_fmap option_map].
    rewrite overlay_default. cbv zeta. unfold default_inject. rewrite !Hh, ?Ht, !Hb.
    cbn [fmap option_fmap option_map in_headers in_basicAuth in_tls hi_set hi_remove hi_allow default from_option].
    unfold id. cbn [hi_set hi_remove hi_allow]. by rewrite !or_else_absorb, (default_remove_again _ names Hok).
  - destruct bi, ri; try done.
Qed.

Lemma overlay_credential_again b r : overlay_credential b (overlay_credential b r) = overlay_credential b r.
Proof.
  destruct r as [rc|].
  - unfold overlay_credential. cbn [cd_secretRef cd_field cd_lifecycle sr_name]. by rewrite !or_str_absorb.
  - destruct b as [[[n] f l]|]; [|done]. unfold overlay_credential. cbn. by rewrite !or_str_idem.
Qed.

Lemma overlay_guest_again b r : overlay_guest b (overlay_guest b r) = overlay_guest b r.
Proof.
  assert (forall (g : Guest) (x : option (gmap gostr gostr)) (gg : option GitGuest),
    overlay_guest (Some g) (Some (MkGuest (match x with Some m => if bool_decide (m = ∅) then gu_env g else Some (m ∪ default ∅ (gu_env g)) | None => gu_env g end) (or_else gg (gu_git g))))
    = Some (MkGuest (match x with Some m => if bool_decide (m = ∅) then gu_env g else Some (m ∪ default ∅ (gu_env g)) | None => gu_env g end) (or_else gg (gu_git g)))) as H.
  { intros g x gg. unfold overlay_guest. cbn [default from_option id gu_env gu_git]. rewrite or_else_absorb. f_equal. f_equal.
    destruct x as [m|].
    - destruct (bool_decide_reflect (m = ∅)) as [->|Hm].
      + destruct (gu_env g) as [m'|]; cbn; [|done]. destruct (bool_decide _); [done|]. by rewrite map_union_idemp.
      + cbn [default from_option id]. rewrite bool_decide_eq_false_2.
        2:{ intros E. apply Hm. apply map_positive_l in E. done. }
        f_equal. rewrite <- map_union_assoc, map_union_idemp. done.
    - destruct (gu_env g) as [m'|]; cbn; [|done]. destruct (bool_decide _); [done|]. by rewrite map_union_idemp. }
  destruct r as [[re rg]|].
  - destruct b as [g|].
    + specialize (H g re rg). unfold overlay_guest at 2 3. cbn [gu_env gu_git default from_option id].
      destruct re as [m|]; [exact H|]. cbn. exact H.
    + specialize (H empty_guest re rg). unfold overlay_guest in *. cbn in *. destruct re as [m|]; exact H.
  - destruct b as [[be bg]|]; [|done]. specialize (H (MkGuest be bg) None None). exact H.
Qed.

Ltac route_cbn :=
  unfold setDefaults, with_inject;
  cbn [rt_name rt_preset rt_mode rt_upstream rt_credential rt_inject rt_guest rt_request rt_services rt_lifecycleFromPreset].

Lemma or_str_nonempty x y : y <> [] -> or_str x y <> [].
Proof. unfold or_str. by destruct (bool_decide_reflect (x = [])). Qed.

Lemma or_str_left x y : x <> [] -> or_str x y = x.
Proof. intros H. unfold or_str. by rewrite bool_decide_eq_false_2. Qed.

Lemma kept_again x y :
  negb (bool_decide (x = [])) && negb (bool_decide (x = y)) = false ->
  negb (bool_decide (or_str x y = [])) && negb (bool_decide (or_str x y = y)) = false.
Proof.
  unfold or_str. destruct (bool_decide_reflect (x = [])); intros H.
  - rewrite (bool_decide_eq_true_2 (y = y)) by done. apply andb_false_r.
  - rewrite (bool_decide_eq_false_2 (x = [])) by done. exact H.
Qed.

Lemma default_inject_idem i : default_inject (default_inject i) = default_inject i.
Proof.
  unfold default_inject. cbn [in_headers in_basicAuth in_tls default from_option]. unfold id.
  cbn [hi_set hi_remove hi_allow]. by rewrite (default_remove_held (default_remove _)) by apply default_remove_holds.
Qed.

Lemma setDefaults_idem r : setDefaults (setDefaults r) = setDefaults r.
Proof.
  route_cbn. rewrite (or_str_left (or_str _ _)) by by apply or_str_nonempty. f_equal.
  destruct (rt_inject r) as [i|]; [|done]. cbn [fmap option_fmap option_map]. by rewrite default_inject_idem.
Qed.

(** The route as it is or, when it had none, without its inject. *)
Definition as_sent (r e e' : Route) : Prop := e' = e \/ rt_inject r = None /\ e' = with_inject e None.

Lemma overlay_again base r out e' :
  rt_mode base <> [] -> remove_ok (hi_remove (base_headers (rt_inject base))) -> overlay base r = Ok out ->
  as_sent r (setDefaults out) e' ->
  exists out', overlay base e' = Ok out' /\ setDefaults out' = setDefaults out /\ rt_mode out' = rt_mode out /\
    rt_mode e' = rt_mode out /\ rt_preset e' = rt_preset r.
Proof.
  intros Hmode Hok H He'. unfold overlay in H. apply seq_ok in H as [Hl [= <-]].
  assert (rt_upstream e' = or_str (rt_upstream r) (rt_upstream base) /\
    rt_credential e' = overlay_credential (rt_credential base) (rt_credential r) /\
    rt_mode e' = or_str (rt_mode r) (rt_mode base) /\ rt_guest e' = overlay_guest (rt_guest base) (rt_guest r) /\
    rt_request e' = or_else (rt_request r) (rt_request base) /\ rt_services e' = or_else (rt_services r) (rt_services base) /\
    rt_name e' = rt_name r /\ rt_preset e' = rt_preset r) as (Eu & Ec & Em & Eg & Eq & Es & En & Ep).
  { assert (or_str (or_str (rt_mode r) (rt_mode base)) ModeEndpoint = or_str (rt_mode r) (rt_mode base)) as Hm.
    { by apply or_str_left, or_str_nonempty. }
    destruct He' as [->|[_ ->]]; route_cbn; by rewrite ?Hm. }
  eexists. split.
  - unfold overlay. apply seq_ok. split; [|reflexivity].
    destruct (bool_decide_reflect (lifecycle_of base = [])) as [|Hb]; [done|].
    apply seq_ok in Hl as [Hu Hf]. apply fail_if_ok in Hu, Hf. apply seq_ok. rewrite !fail_if_ok. split.
    + rewrite Eu. by apply kept_again.
    + unfold field_of in *. rewrite Ec. unfold overlay_credential.
      destruct (rt_credential r) as [rc|].
      * cbn [cd_field]. destruct (rt_credential base) as [bc|] eqn:Eb; [|by unfold lifecycle_of in Hb; rewrite Eb in Hb].
        by apply kept_again.
      * destruct (rt_credential base) as [bc|]; [|done]. rewrite (bool_decide_eq_true_2 (_ = cd_field _)) by done.
        apply andb_false_r.
  - cbn [rt_mode]. rewrite Em, or_str_absorb. split_and!; try done. route_cbn.
    rewrite Eu, Ec, Eg, Eq, Es, En, Ep, !or_str_absorb, !or_else_absorb, overlay_credential_again, overlay_guest_again. f_equal.
    destruct He' as [->|[Hi ->]]; cbn [rt_inject setDefaults with_inject].
    + by apply default_inject_again.
    + rewrite Hi. done.
Qed.

(** What a preset with a lifecycle keeps. *)
Lemma overlay_pinned base r out : lifecycle_of base <> [] -> overlay base r = Ok out ->
  rt_upstream out = rt_upstream base /\ field_of out = field_of base /\ lifecycle_of out = lifecycle_of base.
Proof.
  intros Hl H. unfold overlay in H. rewrite (bool_decide_eq_false_2 _ Hl) in H. apply seq_ok in H as [H [= <-]].
  apply seq_ok in H as [Hu Hf]. apply fail_if_ok in Hu, Hf. cbn [rt_upstream].
  assert (forall x y, negb (bool_decide (x = [])) && negb (bool_decide (x = y)) = false -> or_str x y = y) as Hk.
  { intros x y. unfold or_str. destruct (bool_decide_reflect (x = [])); cbn [negb andb]; [done|].
    intros ->%negb_false_iff%bool_decide_eq_true. done. }
  split_and!; [by apply Hk| |]; unfold field_of, lifecycle_of in *; cbn [rt_credential]; unfold overlay_credential.
  - destruct (rt_credential r) as [rc|]; [|done]. destruct (rt_credential base) as [bc|]; [|done]. by apply Hk.
  - destruct (rt_credential r) as [rc|]; [|done]. by destruct (rt_credential base) as [bc|].
Qed.

Section ExpandTwice.
Context (preset_file : gostr -> res preset_error presetFile) (yaml_scalar : gostr -> option (option gostr)).
Context (visit : gmap gostr gostr -> list (gostr * gostr)) (modes : modes_map).
Context (Hfiles : forall name pf, preset_file name = Ok pf -> remove_ok (hi_remove (base_headers (rt_inject (pr_route pf))))).
Context (Hmodes : registry_ok modes) (Hcheck : forall name m, modes !! name = Some m -> rm_check m = None).

Lemma decodePreset_ok name pf : decodePreset preset_file modes name = Ok pf ->
  rt_mode (pr_route pf) = ModeEndpoint /\ pr_name pf = name /\
  exists file, preset_file name = Ok file /\ rt_inject (pr_route pf) = rt_inject (pr_route file) /\
    rt_upstream (pr_route pf) = rt_upstream (pr_route file).
Proof.
  unfold decodePreset. intros H. res_inv. injection H1 as <-. unfold checkModes in H0. res_inv.
  apply negb_false_iff, bool_decide_eq_true in H0. cbn [pr_route pr_name].
  destruct (rt_credential (pr_route x)); split_and!; try done; by exists x.
Qed.

Lemma expand_body_again r e e' :
  expand_body preset_file yaml_scalar visit modes r = Ok e -> as_sent r e e' ->
  expand_body preset_file yaml_scalar visit modes e' = Ok e.
Proof.
  intros (out & base & Ho & _ & -> & Hv)%expand_body_ok He'. apply expand_body_ok.
  assert (forall b r0 out0, mode_takes modes b r0 out0) as Hm.
  { intros b r0 out0 m check Hl Hc. by rewrite (Hcheck _ _ Hl) in Hc. }
  destruct Ho as [(Hp & -> & -> & Hl)|(Hp & pf & Hpf & -> & Hov & Hs)].
  - assert (e' = setDefaults r) as ->.
    { destruct He' as [->|[Hi ->]]; [done|]. unfold with_inject, setDefaults. cbn. by rewrite Hi. }
    exists (setDefaults r), None. split_and!; [|apply Hm|by rewrite setDefaults_idem|done]. left. split_and!; try done.
    cbn [setDefaults rt_mode]. unfold or_str. destruct (bool_decide (rt_mode r = [])); [|done].
    by apply endpoint_not_registered.
  - destruct (decodePreset_ok _ _ Hpf) as (Hmode & _ & file & Hfile & Hi & _).
    destruct (overlay_again (pr_route pf) r out e') as (out' & Ho' & Hd & Hmo & _ & Hpr); [by rewrite Hmode|by rewrite Hi; eapply Hfiles|done|done|].
    exists out', (Some (pr_route pf)). split_and!; [|apply Hm|done|done]. right. rewrite Hpr. split; [done|].
    exists pf. split_and!; try done. by rewrite Hmo.
Qed.

Lemma expand_vends_inject r e : expand_body preset_file yaml_scalar visit modes r = Ok e -> is_Some (rt_inject e) /\ Vends e = Vends r.
Proof.
  intros (out & base & Ho & _ & -> & Hv)%expand_body_ok. split.
  - apply Validate_ok in Hv as (i & g & Hi & _). by exists i.
  - unfold Vends. destruct Ho as [(_ & -> & _)|(_ & pf & _ & _ & Hov & _)]; [done|].
    unfold overlay in Hov. apply seq_ok in Hov as [_ [= <-]]. done.
Qed.

Lemma expand_again r e :
  ExpandRoute preset_file yaml_scalar visit modes r = Ok e -> ExpandRoute preset_file yaml_scalar visit modes e = Ok e.
Proof.
  unfold ExpandRoute. rewrite !DeepCopy_eq. change (default ?x (Some ?x)) with x. destruct (Vends r) eqn:Ev; cbn [andb].
  - intros H. assert (exists r0, rt_inject r0 = None /\ Vends r0 = true /\ expand_body preset_file yaml_scalar visit modes r0 = Ok e) as (r0 & Hr0 & Hv0 & He).
    { destruct (is_nil (rt_inject r)) eqn:En; cbn [negb] in H.
      - exists r. by apply is_nil_true in En.
      - exists (with_inject r None). split_and!; [done|done|]. apply res_bind_ok in H as (e0 & H0 & H).
        apply seq_ok in H as [_ [= <-]]. done. }
    destruct (expand_vends_inject r0 e He) as [[i Hi] Hve]. rewrite Hve, Hv0, Hi. cbn [is_nil negb andb].
    rewrite (expand_body_again r0 e (with_inject e None)); [|done|by right]. cbn [res_bind].
    by rewrite Hi, bool_decide_eq_true_2.
  - intros He. destruct (expand_vends_inject r e He) as [_ Hve]. rewrite Hve, Ev. cbn [andb].
    apply (expand_body_again r e e He). by left.
Qed.
End ExpandTwice.

(** ** A route without a preset *)

Lemma rune_fold_lower c : is_ascii c = true -> rune_fold (bz (lower_byte c)) = rune_fold (bz c).
Proof. by destruct c as [[] [] [] [] [] [] [] []]; vm_compute. Qed.

Lemma equal_fold_lower s : all_ascii s = true -> equal_fold s (to_lower s) = true.
Proof.
  intros Ha. rewrite to_lower_ascii by done. apply all_ascii_Forall in Ha. apply bool_decide_eq_true.
  rewrite (runes_ascii s) by done. rewrite runes_ascii.
  - induction Ha as [|c s Hc _ IH]; [done|]. cbn [fmap list_fmap]. f_equal; [by rewrite rune_fold_lower|exact IH].
  - apply Forall_fmap. eapply Forall_impl; [exact Ha|]. intros c Hc. by apply lower_byte_ascii.
Qed.

Lemma authorization_fold name : isToken name = true -> to_lower name = lit "authorization" ->
  equal_fold name (lit "Authorization") = true.
Proof.
  intros [_ Ha]%isToken_bytes Hl. apply (equal_fold_trans _ (to_lower name)); [by apply equal_fold_lower|].
  rewrite Hl. vm_compute. reflexivity.
Qed.

Abbreviation auth_key := (lit "authorization") (only parsing).

Lemma check_remove_app acc tail l removed :
  check_remove acc l = Ok removed -> check_remove (acc ++ tail) l = Ok (removed ++ tail).
Proof.
  revert acc. induction l as [|n l IH]; intros acc; cbn [check_remove]; [by intros [= ->]|].
  intros [Hn H]%seq_ok. rewrite Hn. cbn [res_bind]. by apply (IH (to_lower n :: acc)).
Qed.

Lemma mem_app_key (removed : list gostr) key : key <> auth_key -> mem key (removed ++ [auth_key]) = mem key removed.
Proof.
  intros Hk. unfold mem. apply bool_decide_ext. rewrite elem_of_app, list_elem_of_singleton. naive_solver.
Qed.

Lemma check_set_one_auth removed set hd u :
  check_set_one removed set hd = Ok u -> check_set_one (removed ++ [auth_key]) set hd = Ok u.
Proof.
  unfold check_set_one. intros [Hn H]%seq_ok. rewrite Hn. cbn [res_bind]. apply seq_ok in H as [Hm H]. apply seq_ok. split; [|done].
  apply fail_if_ok. apply fail_if_ok in Hm. destruct (decide (to_lower (hd_name hd) = auth_key)) as [E|E].
  - apply checkHeaderName_ok in Hn as [Ht _]. rewrite (authorization_fold _ Ht E). apply andb_false_r.
  - by rewrite mem_app_key.
Qed.

Lemma check_set_auth removed set carries l r :
  check_set removed set carries l = Ok r -> check_set (removed ++ [auth_key]) set carries l = Ok r.
Proof.
  revert set carries. induction l as [|hd l IH]; intros set carries; cbn [check_set]; [done|].
  intros [H1 H2]%seq_ok. apply seq_ok. split; [by apply check_set_one_auth|by apply IH].
Qed.

Lemma check_header_allow_auth removed set allowed l :
  check_header_allow removed set allowed l = Ok tt -> check_header_allow (removed ++ [auth_key]) set allowed l = Ok tt.
Proof.
  revert allowed. induction l as [|a l IH]; intros allowed; cbn [check_header_allow]; [done|].
  intros [H1 H2]%seq_ok. apply seq_ok. split; [|by apply IH]. unfold check_allow_one in *.
  apply seq_ok in H1 as [Hn H1]. apply seq_ok in H1 as [Ha H1]. apply seq_ok in H1 as [Hm H1].
  apply seq_ok. split; [done|]. apply seq_ok. split; [done|]. apply seq_ok. split; [|done].
  apply fail_if_ok. apply fail_if_ok in Ha, Hm. apply bool_decide_eq_false in Ha. by rewrite mem_app_key.
Qed.

Lemma headers_validate_default needs h : headers_validate needs h = Ok tt ->
  headers_validate needs (MkHeaderInject (hi_set h) (default_remove (hi_remove h)) (hi_allow h)) = Ok tt.
Proof.
  unfold default_remove. destruct (existsb _ _); [by destruct h|]. unfold headers_validate. cbn [hi_set hi_remove hi_allow].
  rewrite elems_Some. intros (removed & H1 & H)%res_bind_ok. apply res_bind_ok in H as ([set c] & H2 & H).
  apply seq_ok in H as [H3 H4]. cbn [check_remove]. change (checkHeaderName (lit "inject.headers.remove") (lit "Authorization")) with (@Ok verror unit tt).
  cbn [res_bind]. change [to_lower (lit "Authorization")] with ([] ++ [auth_key]).
  rewrite (check_remove_app [] [auth_key] _ _ H1). cbn [res_bind]. rewrite (check_set_auth _ _ _ _ _ H2). cbn [res_bind].
  rewrite H3. cbn [res_bind snd fst]. by apply check_header_allow_auth.
Qed.

Lemma default_inject_valid complete i : inject_validate complete false i = Ok tt -> inject_validate complete true (default_inject i) = Ok tt.
Proof.
  unfold inject_validate, check. rewrite !seq_ok, !fail_if_ok. intros (H1 & H2 & H3 & H4 & H5 & _).
  assert (sets_headers (default_inject i) = sets_headers i) as Hs.
  { unfold sets_headers, default_inject. cbn. by destruct (in_headers i). }
  rewrite Hs. unfold has_certificate in *. cbn [default_inject in_headers in_basicAuth in_tls check_opt andb].
  split_and!; try done.
  - set (needs := complete && sets_headers i) in *. assert (headers_validate needs (default empty_headers (in_headers i)) = Ok tt) as Hh.
    { destruct (in_headers i) as [h|] eqn:E; [exact H5|]. unfold needs, sets_headers. rewrite E, andb_false_r. done. }
    exact (headers_validate_default needs _ Hh).
  - cbn [hi_remove]. apply negb_false_iff. exact (default_remove_holds _).
Qed.

Lemma written_valid yaml_scalar visit r : rt_preset r = [] ->
  validateWritten yaml_scalar visit r = Ok tt -> Validate yaml_scalar visit (setDefaults r) = Ok tt.
Proof.
  intros Hp. unfold validateWritten, Validate, validate_route, no_preset, check. route_cbn. rewrite Hp.
  rewrite (bool_decide_eq_true_2 _ (eq_refl [])). cbn [orb]. rewrite !seq_ok.
  intros (H1 & H2 & H3 & H4 & H5 & H6 & H7 & H8 & H9 & H10 & H11 & H12).
  assert (Vends r = false) as Hv by (unfold Vends; by rewrite Hp).
  split_and!; try done.
  - unfold is_gcp in *. by rewrite Hp in *.
  - unfold or_str. destruct (bool_decide_reflect (rt_mode r = [])) as [->|Hm]; [done|].
    by rewrite (bool_decide_eq_false_2 _ Hm) in *.
  - unfold check_upstream, Vends, is_gcp in *. cbn [rt_preset]. by rewrite Hp in *.
  - unfold inject_tls in *. cbn [rt_inject]. by destruct (rt_inject r).
  - unfold check_credential in *. cbn [rt_credential rt_inject rt_lifecycleFromPreset].
    assert (forall i, carriesCredential (default_inject i) = carriesCredential i) as Hc.
    { intros i. unfold carriesCredential, default_inject. cbn. by destruct (in_headers i). }
    assert (CertificateOnly (default_inject <$> rt_inject r) = CertificateOnly (rt_inject r)) as Hco.
    { destruct (rt_inject r) as [i|]; [|done]. unfold CertificateOnly, default_inject. cbn. by destruct (in_headers i). }
    rewrite Hco. destruct (rt_credential r); [|done]. apply seq_ok in H9 as [? H9]. apply seq_ok in H9 as [? H9].
    apply seq_ok. split; [done|]. apply seq_ok. split; [done|]. destruct (rt_inject r) as [i|]; [|done]. cbn [fmap option_fmap option_map].
    by rewrite Hc.
  - destruct (rt_inject r) as [i|]; [|done]. cbn [fmap option_fmap option_map]. by apply default_inject_valid.
Qed.

(** ** Properties *)

(** A route without a preset that is valid as written needs nothing but the
    defaults: it expands to itself with the endpoint mode and with
    Authorization among the removed headers. *)
Lemma ExpandRoute_written (preset_file : gostr -> res preset_error presetFile)
    (yaml_scalar : gostr -> option (option gostr)) (visit : gmap gostr gostr -> list (gostr * gostr)) (modes : modes_map)
    (r : Route) (Hpreset : rt_preset r = []) (Hmode : Lookup modes (rt_mode r) = None)
    (Hvalid : validateWritten yaml_scalar visit r = Ok tt) :
  ExpandRoute preset_file yaml_scalar visit modes r = Ok (setDefaults r).
Proof.
  unfold ExpandRoute, Vends. rewrite Hpreset. cbn [andb]. rewrite bool_decide_eq_false_2 by done. cbn [andb].
  apply expand_body_ok. exists r, None. split_and!; [by left| |done|by apply written_valid].
  intros m check Hl. congruence.
Qed.

Example ExpandRoute_written_witness :
  ExpandRoute shipped example_yaml map_to_list ∅ valid_route = Ok (setDefaults valid_route).
Proof. apply ExpandRoute_written; vm_compute; reflexivity. Defined.

(** A route of a preset that keeps its credential fresh cannot be pointed
    elsewhere: its upstream, the field the credential is read from and its
    lifecycle are the preset's, whatever the policy writes. *)
Lemma ExpandRoute_pinned (preset_file : gostr -> res preset_error presetFile)
    (yaml_scalar : gostr -> option (option gostr)) (visit : gmap gostr gostr -> list (gostr * gostr)) (modes : modes_map)
    (r e : Route) (pf : presetFile) (Hpreset : rt_preset r <> [])
    (Hpf : decodePreset preset_file modes (rt_preset r) = Ok pf) (Hl : lifecycle_of (pr_route pf) <> [])
    (H : ExpandRoute preset_file yaml_scalar visit modes r = Ok e) :
  rt_upstream e = rt_upstream (pr_route pf) /\ field_of e = field_of (pr_route pf) /\
  lifecycle_of e = lifecycle_of (pr_route pf) /\ Validate yaml_scalar visit e = Ok tt.
Proof.
  assert (exists r0, rt_preset r0 = rt_preset r /\ expand_body preset_file yaml_scalar visit modes r0 = Ok e) as (r0 & Hr0 & He).
  { unfold ExpandRoute in H. rewrite DeepCopy_eq in H. destruct (_ && _); [|by exists r].
    apply res_bind_ok in H as (e0 & H0 & H). apply seq_ok in H as [_ [= <-]]. by exists (with_inject r None). }
  apply expand_body_ok in He as (out & base & Ho & _ & -> & Hv).
  destruct Ho as [(? & _)|(_ & pf' & Hpf' & -> & Hov & _)]; [congruence|]. rewrite Hr0, Hpf in Hpf'. injection Hpf' as <-.
  destruct (overlay_pinned _ _ _ Hl Hov) as (E1 & E2 & E3). split_and!; try done.
Qed.

Definition claude_route : Route := written "r" "claude-code" None.

Example ExpandRoute_pinned_witness :
  exists e pf, ExpandRoute shipped example_yaml map_to_list ∅ claude_route = Ok e /\
    rt_upstream e = rt_upstream (pr_route pf) /\ rt_upstream e = lit "https://api.anthropic.com".
Proof.
  destruct (ExpandRoute shipped example_yaml map_to_list ∅ claude_route) as [e|] eqn:E; [|vm_compute in E; discriminate].
  destruct (decodePreset shipped ∅ PresetClaudeCode) as [pf|] eqn:Ep; [|vm_compute in Ep; discriminate].
  exists e, pf. split; [done|].
  assert (lifecycle_of (pr_route pf) <> []) as Hl by (injection Ep as <-; vm_compute; discriminate).
  destruct (ExpandRoute_pinned shipped example_yaml map_to_list ∅ claude_route e pf ltac:(discriminate) Ep Hl E) as (Hu & _).
  split; [exact Hu|]. rewrite Hu. injection Ep as <-. reflexivity.
Defined.

(** Expanding an expanded route changes nothing, so the broker can expand
    again what it is sent: an inject, a removed header or a variable that the
    preset put in is not taken for one of the policy's own. *)
Lemma ExpandRoute_idempotent (preset_file : gostr -> res preset_error presetFile)
    (yaml_scalar : gostr -> option (option gostr)) (visit : gmap gostr gostr -> list (gostr * gostr)) (modes : modes_map)
    (Hfiles : forall name pf, preset_file name = Ok pf -> remove_ok (hi_remove (base_headers (rt_inject (pr_route pf)))))
    (Hmodes : registry_ok modes) (Hcheck : forall name m, modes !! name = Some m -> rm_check m = None)
    (r e : Route) (H : ExpandRoute preset_file yaml_scalar visit modes r = Ok e) :
  ExpandRoute preset_file yaml_scalar visit modes e = Ok e.
Proof. by eapply expand_again. Qed.

Lemma shipped_remove_ok name pf : shipped name = Ok pf -> remove_ok (hi_remove (base_headers (rt_inject (pr_route pf)))).
Proof.
  unfold shipped. destruct (List.find _ _) as [p|] eqn:E; [|done]. intros [= <-]. apply List.find_some in E as [Hin _]. left.
  repeat (destruct Hin as [<-|Hin]; [vm_compute; reflexivity|]). destruct Hin.
Qed.

Lemma empty_registry_ok : registry_ok (∅ : gmap gostr Mode).
Proof. done. Qed.

Lemma empty_registry_no_check (name : gostr) (m : Mode) : (∅ : gmap gostr Mode) !! name = Some m -> rm_check m = None.
Proof. intros H. by rewrite lookup_empty in H. Qed.

Example ExpandRoute_idempotent_witness :
  exists e, ExpandRoute shipped example_yaml map_to_list ∅ claude_route = Ok e /\
    ExpandRoute shipped example_yaml map_to_list ∅ e = Ok e.
Proof.
  destruct (ExpandRoute shipped example_yaml map_to_list ∅ claude_route) as [e|] eqn:E; [|vm_compute in E; discriminate].
  exists e. split; [done|]. exact (ExpandRoute_idempotent shipped example_yaml map_to_list ∅ shipped_remove_ok
    empty_registry_ok empty_registry_no_check claude_route e E).
Defined.
