(* ===== verification/Registry.v ===== *)
(** * The sandboxes a broker serves (internal/broker/broker.go, divert.go)

    Registration of sandboxes and routes, the tokens minted for them, the
    interval between forced renewals, and the budget of held bytes. *)

From stdpp Require Import prelude list strings gmap.
From Stdlib Require Import ZArith Lia ZifyNat Ascii.
From S2P Require Import Prelude GoUnicode GoStrings GoNum GoHttp GoNetip GoUrl RouteTypes RouteValidate Token Spelling Matcher Scan.

Local Open Scope Z_scope.

(** ** Registered routes and sandboxes *)

(** A route with its upstream parsed.  [services] is nil, the [None] here, on a
    route without services. *)
Record route := MkRegistered {
  r_policy : gostr;
  r_spec : Route;
  r_upstream : option url;
  r_services : option (gmap gostr url);
  r_serviceNames : list gostr;
}.

Record sandbox := MkSandbox {
  sb_id : gostr;
  sb_profile : gostr;
  sb_key : gostr;
  sb_routes : gmap gostr route;
  sb_placeholders : Z;
  sb_live : live_state;
}.

(** [Sandbox] and [Route] of the configuration. *)
Record RouteConfig := MkRouteConfig { rc_policy : gostr; rc_route : Route }.
Record SandboxConfig := MkSandboxConfig {
  sc_id : gostr;
  sc_profile : gostr;
  sc_routes : list RouteConfig;
  sc_modes : list gostr;
}.

Inductive add_error :=
  | ErrID
  | ErrRegisteredTwice (route : gostr)
  | ErrNotExpanded (route : gostr)
  | ErrModeNotServed (route mode : gostr)
  | ErrServicesMode (route : gostr)
  | ErrServicesUpstream (route : gostr)
  | ErrServiceUnknown (route service : gostr)
  | ErrServiceTwice (route service : gostr)
  | ErrServiceOrigin (route service : gostr)
  | ErrVendsMode (route : gostr)
  | ErrUpstream (route : gostr)
  | ErrDivertedTwice (other route addr : gostr).

#[export] Instance add_error_eq_dec : EqDecision add_error.
Proof. solve_decision. Defined.

Definition maxID : nat := 255.

Definition id_rune (r : Z) : bool :=
  in_range 97 122 r || in_range 65 90 r || in_range 48 57 r || (r =? 45) || (r =? 95) || (r =? 46).

Definition ValidID (id : gostr) : bool :=
  negb (bool_decide (id = []) || bool_decide (id = lit ".") || bool_decide (id = lit "..")
        || (maxID <? length id)%nat || has_rune (fun r => negb (id_rune r)) id).

(** A mode other than endpoint. *)
Definition other_mode (m : gostr) : bool :=
  negb (bool_decide (m = [])) && negb (bool_decide (m = ModeEndpoint)).

(** ** Diverted routes *)

Definition upstreamPort (u : url) : Z :=
  match parse_int 64 (Port u) with Some p => p | None => 443 end.

Definition divert_addr (u : url) : gostr := joinHostPort (to_lower (Hostname u)) (itoa (upstreamPort u)).

(** An absent upstream would be a nil dereference; [AddSandbox] refuses the
    routes that have none. *)
Definition route_addr (rt : route) : gostr := match r_upstream rt with Some u => divert_addr u | None => [] end.

Fixpoint check_diverted (routes : gmap gostr route) (seen : gmap gostr gostr) (names : list gostr) : res add_error unit :=
  match names with
  | [] => Ok tt
  | name :: names' =>
    match routes !! name with
    | None => Ok tt
    | Some rt =>
      match seen !! route_addr rt with
      | Some other => Err (ErrDivertedTwice other name (route_addr rt))
      | None => check_diverted routes (<[route_addr rt := name]> seen) names'
      end
    end
  end.

Definition diverted_names (routes : gmap gostr route) : list gostr :=
  sort_strings (fst <$> filter (fun kv => other_mode (rt_mode (r_spec kv.2)) = true) (map_to_list routes)).

Definition checkDivertedRoutes (routes : gmap gostr route) : res add_error unit :=
  check_diverted routes ∅ (diverted_names routes).

(** ** The handler *)

Record budget := MkBudget { bu_left : Z; bu_total : Z; bu_held : gmap gostr Z }.

Record handler := MkHandler {
  h_hostKey : gostr;
  h_sandboxes : gmap gostr sandbox;
  h_forced : gmap gostr Z;
  h_replay : budget;
}.

Definition set_sandboxes (h : handler) (m : gmap gostr sandbox) : handler :=
  MkHandler (h_hostKey h) m (h_forced h) (h_replay h).

Section Registry.

(** [hmac] and [hkdf] as in Token.v, and [ip_literal] as in GoUrl.v. *)
Variable hmac : gostr -> gostr -> gostr.
Variable hkdf : gostr -> gostr -> gostr.
Variable ip_literal : gostr -> bool.

(** [url.Parse] with the checks made of it: scheme https, and a host. *)
Definition https_upstream (raw : gostr) : option url :=
  if bool_decide (lower_byte <$> take 8 raw = lit "https://") then
    match parse_https ip_literal (drop 8 raw) with
    | Some u => if bool_decide (u_host u = []) then None else Some u
    | None => None
    end
  else None.

(** The origin of a service, outside tests. *)
Definition serviceUpstream (name : gostr) : gostr := lit "https://" ++ name ++ lit ".googleapis.com".

(** The loop of [serviceUpstreams]. *)
Fixpoint service_loop (route : gostr) (acc : gmap gostr url) (names : list gostr) (svcs : list Service)
    : res add_error (gmap gostr url * list gostr) :=
  match svcs with
  | [] => Ok (acc, names)
  | svc :: svcs' =>
    if is_nil (GCPServicePath (sv_name svc)) then Err (ErrServiceUnknown route (sv_name svc))
    else if negb (is_nil (acc !! sv_name svc)) then Err (ErrServiceTwice route (sv_name svc))
    else
      match https_upstream (serviceUpstream (sv_name svc)) with
      | None => Err (ErrServiceOrigin route (sv_name svc))
      | Some u => service_loop route (<[sv_name svc := u]> acc) (names ++ [sv_name svc]) svcs'
      end
  end.

Definition serviceUpstreams (r : Route) : res add_error (gmap gostr url * list gostr) :=
  if other_mode (rt_mode r) then Err (ErrServicesMode (rt_name r))
  else if negb (bool_decide (rt_upstream r = [])) then Err (ErrServicesUpstream (rt_name r))
  else
    let? p := service_loop (rt_name r) ∅ [] (elems (rt_services r)) in
    Ok (p.1, sort_strings p.2).

(** The body of [AddSandbox]'s loop. *)
Definition add_route (modes : list gostr) (routes : gmap gostr route) (rc : RouteConfig) : res add_error (gmap gostr route) :=
  let r := rc_route rc in
  let name := rt_name r in
  fail_if (negb (is_nil (routes !! name))) (ErrRegisteredTwice name) ;?
  fail_if (is_nil (rt_inject r) || (is_nil (rt_credential r) && negb (CertificateOnly (rt_inject r)))) (ErrNotExpanded name) ;?
  fail_if (other_mode (rt_mode r) && negb (mem (rt_mode r) modes)) (ErrModeNotServed name (rt_mode r)) ;?
  let? up :=
    if negb (bool_decide (elems (rt_services r) = [])) then
      let? p := serviceUpstreams r in Ok (None, Some p.1, p.2)
    else if Vends r then
      fail_if (other_mode (rt_mode r)) (ErrVendsMode name) ;? Ok (None, None, [])
    else
      match https_upstream (rt_upstream r) with
      | Some u => Ok (Some u, None, [])
      | None => Err (ErrUpstream name)
      end in
  let '(u, services, names) := up in
  Ok (<[name := MkRegistered (rc_policy rc) (default r (DeepCopy (Some r))) u services names]> routes).

Fixpoint add_routes (modes : list gostr) (routes : gmap gostr route) (l : list RouteConfig) : res add_error (gmap gostr route) :=
  match l with
  | [] => Ok routes
  | rc :: l' => let? m := add_route modes routes rc in add_routes modes m l'
  end.

(** [AddSandbox], with the nonce it drew. *)
Definition AddSandbox (h : handler) (s : SandboxConfig) (nonce : gostr) : res add_error handler :=
  fail_if (negb (ValidID (sc_id s))) ErrID ;?
  let? routes := add_routes (sc_modes s) ∅ (sc_routes s) in
  checkDivertedRoutes routes ;?
  Ok (set_sandboxes h (<[sc_id s :=
    MkSandbox (sc_id s) (sc_profile s) (sandboxKey hkdf (h_hostKey h) (sc_id s) nonce) routes 0 (LiveState [] None)]>
    (h_sandboxes h))).

Definition RemoveSandbox (h : handler) (id : gostr) : handler := set_sandboxes h (delete id (h_sandboxes h)).

Definition find_sandbox (h : handler) (id : gostr) : option sandbox := h_sandboxes h !! id.

Definition set_live (sb : sandbox) (l : live_state) : sandbox :=
  MkSandbox (sb_id sb) (sb_profile sb) (sb_key sb) (sb_routes sb) (sb_placeholders sb) l.

(** [Placeholders]. *)
Definition Placeholders (h : handler) : gmap gostr Z :=
  omap (fun sb => if 0 <? sb_placeholders sb then Some (sb_placeholders sb) else None) (h_sandboxes h).

Inductive mint_error := ErrTTL | ErrNoSandbox | ErrNoRoute.

(** [Handler.Mint] at the time [now]. *)
Definition Mint (h : handler) (now : Z) (sandbox session route : gostr) (ttl : Z) : res mint_error (gostr * handler) :=
  if ttl <=? 0 then Err ErrTTL
  else
    match find_sandbox h sandbox with
    | None => Err ErrNoSandbox
    | Some sb =>
      if is_nil (sb_routes sb !! route) then Err ErrNoRoute
      else
        let exp := unix_of (now + ttl) in
        let tok := mint hmac (sb_key sb) (Claims sandbox session route exp tokenType) in
        Ok (tok, set_sandboxes h (<[sandbox := set_live sb (remember (sb_live sb) tok route (time_unix exp))]>
                   (h_sandboxes h)))
    end.

End Registry.

(** ** Forced renewals *)

(** [renewInterval]: one minute. *)
Definition renewInterval : Z := 60 * second.

Definition mayForceRenew (h : handler) (secret : gostr) (now : Z) : bool * handler :=
  match h_forced h !! secret with
  | Some last =>
    if now - last <? renewInterval then (false, h)
    else (true, MkHandler (h_hostKey h) (h_sandboxes h) (<[secret := now]> (h_forced h)) (h_replay h))
  | None => (true, MkHandler (h_hostKey h) (h_sandboxes h) (<[secret := now]> (h_forced h)) (h_replay h))
  end.

(** ** The replay budget *)

Definition maxReplay : Z := 8 * 2 ^ 20.
Definition maxHeld : Z := maxReplay + 1.
Definition DefaultReplayBudget : Z := 64 * 2 ^ 20.

Definition newBudget (n : Z) : budget := MkBudget n n ∅.

Definition held (b : budget) (sandbox : gostr) : Z := default 0 (bu_held b !! sandbox).

Definition take_budget (b : budget) (sandbox : gostr) (n share : Z) : bool * budget :=
  if (bu_left b <? n) || (share <? held b sandbox + n) then (false, b)
  else (true, MkBudget (bu_left b - n) (bu_total b) (<[sandbox := held b sandbox + n]> (bu_held b))).

Definition give_budget (b : budget) (sandbox : gostr) (n : Z) : budget :=
  if n =? 0 then b
  else
    let left := held b sandbox - n in
    MkBudget (bu_left b + n) (bu_total b)
      (if left <=? 0 then delete sandbox (bu_held b) else <[sandbox := left]> (bu_held b)).

Definition share (h : handler) : Z :=
  let n := Z.max (Z.of_nat (size (h_sandboxes h))) 1 in
  Z.max (bu_total (h_replay h) / n) maxHeld.

(** [workloadID]. *)
Definition workloadID (profile session : gostr) : gostr :=
  lit "spiffe://brig.local/brig/profile/" ++ profile
  ++ (if bool_decide (session = []) then [] else lit "/session/" ++ session).

(** ** What a registration holds *)

Section Registered.
Variable ip_literal : gostr -> bool.
Variable modes : list gostr.

(** The registered route of a configured one. *)
Definition registered (rc : RouteConfig) (rt : route) : Prop :=
  let r := rc_route rc in
  r_policy rt = rc_policy rc /\ r_spec rt = r /\
  (other_mode (rt_mode r) = true -> rt_mode r ∈ modes) /\
  if decide (elems (rt_services r) = []) then
    r_services rt = None /\
    if Vends r then r_upstream rt = None /\ other_mode (rt_mode r) = false
    else exists u, r_upstream rt = Some u /\ u_scheme u = lit "https" /\ u_host u <> [] /\
         https_upstream ip_literal (rt_upstream r) = Some u
  else
    other_mode (rt_mode r) = false /\ r_upstream rt = None /\
    exists m, r_services rt = Some m /\
      r_serviceNames rt = sort_strings (sv_name <$> elems (rt_services r)) /\
      (forall name, is_Some (m !! name) <-> name ∈ sv_name <$> elems (rt_services r)) /\
      (forall name u, m !! name = Some u ->
         u_scheme u = lit "https" /\ u_host u = name ++ lit ".googleapis.com" /\ is_Some (GCPServicePath name)).

Lemma parse_https_scheme rest u : parse_https ip_literal rest = Some u -> u_scheme u = lit "https".
Proof. unfold parse_https. intros H. repeat (case_match; try done). all: by injection H as <-. Qed.

Lemma https_upstream_ok raw u :
  https_upstream ip_literal raw = Some u -> u_scheme u = lit "https" /\ u_host u <> [].
Proof.
  unfold https_upstream. case_if; [|done]. destruct (parse_https _ _) as [v|] eqn:E; [|done].
  case_if; [done|]. intros [= <-]. bool_inv. split; [by eapply parse_https_scheme|done].
Qed.

(** The origin of a wired service. *)
Lemma service_origin name u :
  is_nil (GCPServicePath name) = false -> https_upstream ip_literal (serviceUpstream name) = Some u ->
  u_scheme u = lit "https" /\ u_host u = name ++ lit ".googleapis.com" /\ is_Some (GCPServicePath name).
Proof.
  rewrite is_nil_false. intros [p Hp] H. split_and!; [by eapply https_upstream_ok| |by eexists].
  unfold GCPServicePath in Hp. apply fmap_Some in Hp as ([n v] & Hf & _).
  apply List.find_some in Hf as [Hin Hn]. apply bool_decide_eq_true in Hn. cbn [fst] in Hn. subst n.
  revert H. unfold https_upstream. revert Hin. clear. intros Hin.
  repeat (destruct Hin as [[= <- <-]|Hin]; [vm_compute; intros [= <-]; reflexivity|]). destruct Hin.
Qed.

Lemma service_loop_ok route acc names svcs m ns :
  service_loop ip_literal route acc names svcs = Ok (m, ns) ->
  ns = names ++ (sv_name <$> svcs) /\
  (forall name, is_Some (m !! name) <-> is_Some (acc !! name) \/ name ∈ sv_name <$> svcs) /\
  (forall name u, m !! name = Some u -> acc !! name = Some u \/
     u_scheme u = lit "https" /\ u_host u = name ++ lit ".googleapis.com" /\ is_Some (GCPServicePath name)).
Proof.
  revert acc names. induction svcs as [|svc svcs IH]; intros acc names; cbn [service_loop fmap list_fmap].
  - intros [= <- <-]. rewrite app_nil_r. split_and!; [done | |by left].
    intros name. rewrite elem_of_nil. naive_solver.
  - destruct (is_nil (GCPServicePath _)) eqn:E1; [done|]. destruct (negb _) eqn:E2; [done|].
    destruct (https_upstream _ _) as [u|] eqn:E3; [|done]. intros H. apply IH in H as (-> & Hdom & Hval).
    pose proof (service_origin _ _ E1 E3) as Ho. split_and!.
    + by rewrite <- app_assoc.
    + intros name. rewrite Hdom, elem_of_cons. destruct (decide (name = sv_name svc)) as [->|Hne].
      * rewrite lookup_insert_eq. naive_solver.
      * rewrite lookup_insert_ne by done. naive_solver.
    + intros name v Hv. apply Hval in Hv as [Hv|Hv]; [|by right].
      apply lookup_insert_Some in Hv as [[<- <-]|[_ Hv]]; [by right|by left].
Qed.

Lemma serviceUpstreams_ok r m ns :
  serviceUpstreams ip_literal r = Ok (m, ns) ->
  other_mode (rt_mode r) = false /\ rt_upstream r = [] /\
  ns = sort_strings (sv_name <$> elems (rt_services r)) /\
  (forall name, is_Some (m !! name) <-> name ∈ sv_name <$> elems (rt_services r)) /\
  (forall name u, m !! name = Some u ->
     u_scheme u = lit "https" /\ u_host u = name ++ lit ".googleapis.com" /\ is_Some (GCPServicePath name)).
Proof.
  unfold serviceUpstreams. destruct (other_mode _); [done|]. case_if; [done|]. bool_inv. intros H. res_inv.
  destruct x as [m' ns']. injection H0 as <- <-. cbn [fst snd].
  apply service_loop_ok in H as (-> & Hdom & Hval). split_and!; try done.
  - intros name. rewrite Hdom, lookup_empty. split; [intros [[? [=]]|?]|]; auto.
  - intros name u Hu. apply Hval in Hu as [Hu|Hu]; [by rewrite lookup_empty in Hu|done].
Qed.

Lemma deep_copy_route r : default r (DeepCopy (Some r)) = r.
Proof. by rewrite DeepCopy_eq. Qed.

Lemma add_route_ok routes rc m :
  add_route ip_literal modes routes rc = Ok m ->
  routes !! rt_name (rc_route rc) = None /\
  exists rt, m = <[rt_name (rc_route rc) := rt]> routes /\ registered rc rt.
Proof.
  unfold add_route. intros H. res_inv. apply negb_false_iff, is_nil_true in H. split; [done|].
  destruct x as [[u svs] names]. rewrite deep_copy_route in H3. injection H3 as <-. eexists. split; [reflexivity|].
  unfold registered. cbn [r_policy r_spec r_upstream r_services r_serviceNames].
  split_and!; try done.
  { intros Hm. rewrite Hm in H1. cbn [andb] in H1. apply negb_false_iff in H1. by apply mem_true in H1. }
  destruct (decide _) as [Hs|Hs].
  - rewrite (bool_decide_eq_true_2 _ Hs) in H2. cbn [negb] in H2. destruct (Vends _).
    + res_inv. by injection H3 as <- <- <-.
    + destruct (https_upstream _ _) as [v|] eqn:E; [|done]. injection H2 as <- <- <-.
      split; [done|]. exists v. pose proof (https_upstream_ok _ _ E). naive_solver.
  - rewrite (bool_decide_eq_false_2 _ Hs) in H2. cbn [negb] in H2. res_inv. destruct x as [sm sn].
    injection H3 as <- <- <-. apply serviceUpstreams_ok in H2 as (? & _ & -> & ? & ?).
    split_and!; try done. by exists sm.
Qed.

Lemma add_routes_ok l routes m :
  add_routes ip_literal modes routes l = Ok m ->
  NoDup ((fun rc => rt_name (rc_route rc)) <$> l) /\
  (forall rc, rc ∈ l -> routes !! rt_name (rc_route rc) = None) /\
  (forall name rt, m !! name = Some rt -> routes !! name = Some rt \/
     exists rc, rc ∈ l /\ rt_name (rc_route rc) = name /\ registered rc rt) /\
  (forall rc, rc ∈ l -> exists rt, m !! rt_name (rc_route rc) = Some rt /\ registered rc rt) /\
  (forall name rt, routes !! name = Some rt -> m !! name = Some rt).
Proof.
  revert routes. induction l as [|rc l IH]; intros routes; cbn [add_routes fmap list_fmap].
  - intros [= <-]. split_and!; [constructor | | |  |done].
    + intros rc Hrc. by apply elem_of_nil in Hrc.
    + by left.
    + intros rc Hrc. by apply elem_of_nil in Hrc.
  - intros H. res_inv. apply add_route_ok in H as (Hfree & rt & -> & Hreg).
    apply IH in H0 as (Hnd & Hnew & Hfrom & Hall & Hkeep). split_and!.
    + apply NoDup_cons. split; [|done]. intros (rc' & Heq & Hrc')%list_elem_of_fmap.
      specialize (Hnew rc' Hrc'). rewrite <- Heq, lookup_insert_eq in Hnew. done.
    + intros rc' [->|Hrc']%elem_of_cons; [done|]. specialize (Hnew rc' Hrc').
      by apply lookup_insert_None in Hnew as [? _].
    + intros name rt' Hrt'. apply Hfrom in Hrt' as [Hrt'|(rc' & Hin & Hn & Hr)].
      * apply lookup_insert_Some in Hrt' as [[<- <-]|[_ ?]]; [|by left].
        right. exists rc. rewrite elem_of_cons. auto.
      * right. exists rc'. rewrite elem_of_cons. auto.
    + intros rc' [->|Hrc']%elem_of_cons; [|by apply Hall]. exists rt. split; [|done].
      apply Hkeep. apply lookup_insert_eq.
    + intros name rt' Hrt'. apply Hkeep. rewrite lookup_insert_ne; [done|]. intros <-. congruence.
Qed.
End Registered.

Lemma elem_of_diverted (routes : gmap gostr route) name :
  name ∈ diverted_names routes <->
  exists rt, routes !! name = Some rt /\ other_mode (rt_mode (r_spec rt)) = true.
Proof.
  unfold diverted_names. rewrite sort_strings_perm, list_elem_of_fmap. split.
  - intros ([n rt] & -> & [Hm Hin]%list_elem_of_filter). exists rt. split; [|done].
    by apply elem_of_map_to_list.
  - intros (rt & Hrt & Hm). exists (name, rt). split; [done|]. apply list_elem_of_filter.
    split; [done|]. by apply elem_of_map_to_list.
Qed.

(** The names that share no address with one another and with [seen]. *)
Lemma check_diverted_ok (routes : gmap gostr route) seen names :
  (forall n, n ∈ names -> is_Some (routes !! n)) -> NoDup names ->
  check_diverted routes seen names = Ok tt ->
  (forall n rt, n ∈ names -> routes !! n = Some rt -> seen !! route_addr rt = None) /\
  (forall n n' rt rt', n ∈ names -> n' ∈ names -> n <> n' -> routes !! n = Some rt -> routes !! n' = Some rt' ->
     route_addr rt <> route_addr rt').
Proof.
  revert seen. induction names as [|n names IH]; intros seen Hin Hnd; cbn [check_diverted].
  - intros _. split; intros n; [intros ? []%elem_of_nil | intros ? ? ? []%elem_of_nil].
  - destruct (Hin n ltac:(left)) as [rt Hrt]. rewrite Hrt.
    destruct (seen !! route_addr rt) eqn:Es; [done|]. apply NoDup_cons in Hnd as [Hn Hnd]. intros H.
    apply IH in H as [Hseen Hdis]; [ |intros m Hm; apply Hin; by right|done].
    split.
    + intros m rt' [->|Hm]%elem_of_cons Hrt'; [congruence|]. specialize (Hseen m rt' Hm Hrt').
      by apply lookup_insert_None in Hseen as [? _].
    + intros a b ra rb [->|Ha]%elem_of_cons [->|Hb]%elem_of_cons Hab Hra Hrb.
      * done.
      * specialize (Hseen b rb Hb Hrb). apply lookup_insert_None in Hseen as [_ Hne]. congruence.
      * specialize (Hseen a ra Ha Hra). apply lookup_insert_None in Hseen as [_ Hne]. congruence.
      * by apply (Hdis a b).
Qed.

Lemma diverted_NoDup (routes : gmap gostr route) : NoDup (diverted_names routes).
Proof.
  unfold diverted_names. rewrite sort_strings_perm. apply NoDup_fmap_fst.
  - intros x y1 y2 [_ H1]%list_elem_of_filter [_ H2]%list_elem_of_filter.
    apply elem_of_map_to_list in H1, H2. congruence.
  - apply NoDup_filter, NoDup_map_to_list.
Qed.

Lemma checkDivertedRoutes_ok (routes : gmap gostr route) :
  checkDivertedRoutes routes = Ok tt ->
  forall n n' rt rt', routes !! n = Some rt -> routes !! n' = Some rt' -> n <> n' ->
    other_mode (rt_mode (r_spec rt)) = true -> other_mode (rt_mode (r_spec rt')) = true ->
    route_addr rt <> route_addr rt'.
Proof.
  intros H n n' rt rt' Hn Hn' Hne Hm Hm'.
  destruct (check_diverted_ok routes ∅ (diverted_names routes)) as [_ Hd]; [ |apply diverted_NoDup|done|].
  - intros m (r & Hr & _)%elem_of_diverted. eauto.
  - apply (Hd n n'); try done; apply elem_of_diverted; eauto.
Qed.

(** ** The budget as its callers use it *)

(** A grant is what a caller took and has not given back. *)
Record ledger := Ledger { lg_budget : budget; lg_grants : list (gostr * Z) }.

Definition total_of (l : list Z) : Z := foldr Z.add 0 l.

Definition granted (sb : gostr) (l : list (gostr * Z)) : Z :=
  total_of ((fun g => if decide (g.1 = sb) then g.2 else 0) <$> l).

(** The steps of callers in any interleaving: a take with its answer, and a
    give of one grant. *)
Inductive budget_step : ledger -> ledger -> Prop :=
  | step_taken b b' gs sb n share :
      0 < n -> take_budget b sb n share = (true, b') ->
      budget_step (Ledger b gs) (Ledger b' ((sb, n) :: gs))
  | step_refused b b' gs sb n share :
      take_budget b sb n share = (false, b') -> budget_step (Ledger b gs) (Ledger b' gs)
  | step_given b gs1 gs2 sb n :
      budget_step (Ledger b (gs1 ++ (sb, n) :: gs2)) (Ledger (give_budget b sb n) (gs1 ++ gs2)).

Definition ledger_inv (total : Z) (l : ledger) : Prop :=
  bu_total (lg_budget l) = total /\
  bu_left (lg_budget l) + total_of (snd <$> lg_grants l) = total /\
  0 <= bu_left (lg_budget l) /\
  (forall g, g ∈ lg_grants l -> 0 < g.2) /\
  (forall sb, held (lg_budget l) sb = granted sb (lg_grants l)).

Lemma sum_cons x l : total_of (x :: l) = x + total_of l.
Proof. done. Qed.

Lemma sum_app l1 l2 : total_of (l1 ++ l2) = total_of l1 + total_of l2.
Proof. induction l1 as [|x l IH]; [done|]. cbn [app]. rewrite !sum_cons, IH. lia. Qed.

Lemma sum_nonneg l : Forall (fun x => 0 <= x) l -> 0 <= total_of l.
Proof. induction 1; [done|]. rewrite sum_cons. lia. Qed.

Lemma granted_cons sb g l : granted sb (g :: l) = (if decide (g.1 = sb) then g.2 else 0) + granted sb l.
Proof. done. Qed.

Lemma granted_app sb l1 l2 : granted sb (l1 ++ l2) = granted sb l1 + granted sb l2.
Proof. unfold granted. by rewrite fmap_app, sum_app. Qed.

Lemma granted_nonneg sb l : (forall g, g ∈ l -> 0 < g.2) -> 0 <= granted sb l.
Proof.
  intros H. apply sum_nonneg, Forall_fmap, Forall_forall. intros g Hg. specialize (H g Hg). cbn.
  case_decide; lia.
Qed.

Lemma held_insert left total m sb sb' z :
  held (MkBudget left total (<[sb := z]> m)) sb' = if decide (sb = sb') then z else default 0 (m !! sb').
Proof.
  unfold held. cbn [bu_held]. case_decide as E; [subst; by rewrite lookup_insert_eq|].
  by rewrite lookup_insert_ne.
Qed.

Lemma held_give b sb n sb' :
  0 < n -> n <= held b sb ->
  held (give_budget b sb n) sb' = if decide (sb = sb') then held b sb - n else held b sb'.
Proof.
  intros Hn Hh. unfold give_budget. destruct (Z.eqb_spec n 0); [lia|].
  destruct (Z.leb_spec (held b sb - n) 0) as [Hle|Hgt].
  - unfold held at 1. cbn [bu_held]. case_decide as E.
    + subst. rewrite lookup_delete_eq. cbn. lia.
    + by rewrite lookup_delete_ne.
  - rewrite held_insert. by case_decide.
Qed.

Lemma give_left b sb n :
  bu_left (give_budget b sb n) = bu_left b + n /\ bu_total (give_budget b sb n) = bu_total b.
Proof. unfold give_budget. destruct (Z.eqb_spec n 0); [subst; split; [lia|done]|done]. Qed.

Lemma budget_step_inv total l l' : budget_step l l' -> ledger_inv total l -> ledger_inv total l'.
Proof.
  intros Hstep (Ht & Hs & Hl & Hpos & Hheld). destruct Hstep as [b b' gs sb n share Hn Htake|b b' gs sb n share Htake|b gs1 gs2 sb n].
  - unfold take_budget in Htake. cbn [lg_budget lg_grants] in *.
    destruct (_ || _) eqn:E; [done|]. injection Htake as <-. bool_inv.
    apply Z.ltb_ge in H. split_and!; cbn [lg_budget lg_grants bu_left bu_total] in *.
    + done.
    + rewrite fmap_cons, sum_cons. cbn [snd]. lia.
    + lia.
    + intros g [->|Hg]%elem_of_cons; [done|by apply Hpos].
    + intros sb'. rewrite held_insert, granted_cons. cbn [fst snd]. pose proof (Hheld sb) as H1.
      pose proof (Hheld sb') as H2. unfold held in H2. case_decide; [subst; lia|]. rewrite H2. lia.
  - unfold take_budget in Htake. destruct (_ || _); [|done]. by injection Htake as <-.
  - cbn [lg_budget lg_grants] in *.
    assert (0 < n) as Hn by (apply (Hpos (sb, n)); rewrite elem_of_app, elem_of_cons; auto).
    assert (forall g, g ∈ gs1 ++ gs2 -> 0 < g.2) as Hpos'.
    { intros g Hg. apply Hpos. rewrite elem_of_app in *. rewrite elem_of_cons. tauto. }
    assert (forall s', held b s' = (if decide (sb = s') then n else 0) + granted s' (gs1 ++ gs2)) as Hh.
    { intros s'. rewrite Hheld, !granted_app, granted_cons. cbn [fst snd]. lia. }
    rewrite fmap_app, fmap_cons, sum_app, sum_cons in Hs. cbn [snd] in Hs.
    destruct (give_left b sb n) as [E1 E2]. pose proof (granted_nonneg sb _ Hpos') as Hg.
    split_and!; cbn [lg_budget lg_grants]; try done; try lia.
    + rewrite E1, fmap_app, sum_app. lia.
    + intros s'. rewrite held_give; [|lia|rewrite Hh, decide_True by done; lia].
      case_decide as E; [subst; rewrite Hh, decide_True by done; lia|]. rewrite Hh, decide_False by done. lia.
Qed.

(** ** Forced renewals in a row *)

(** Calls in the order they take the lock, each with the time it read before
    it; the calls that were granted, in that order. *)
Fixpoint renewals (h : handler) (calls : list (gostr * Z)) : list (gostr * Z) :=
  match calls with
  | [] => []
  | (s, now) :: calls' =>
    let '(ok, h') := mayForceRenew h s now in
    if ok then (s, now) :: renewals h' calls' else renewals h' calls'
  end.

Lemma mayForceRenew_forced h s now ok h' :
  mayForceRenew h s now = (ok, h') ->
  (if ok then h_forced h' = <[s := now]> (h_forced h) /\ (forall last, h_forced h !! s = Some last -> renewInterval <= now - last)
   else h' = h /\ exists last, h_forced h !! s = Some last /\ now - last < renewInterval).
Proof.
  unfold mayForceRenew. destruct (h_forced h !! s) as [last|] eqn:E.
  - destruct (Z.ltb_spec (now - last) renewInterval); intros [= <- <-]; cbn [h_forced]; [eauto|].
    split; [done|]. intros l [= ->]. lia.
  - intros [= <- <-]. cbn [h_forced]. split; [done|]. by intros l [=].
Qed.

(** The granted calls of one secret, after one at [last]. *)
Lemma renewals_after calls h s last :
  h_forced h !! s = Some last ->
  Forall (fun c => c.1 = s -> last + renewInterval <= c.2) (renewals h calls) /\
  (forall i j a b, renewals h calls !! i = Some (s, a) -> renewals h calls !! j = Some (s, b) ->
     (i < j)%nat -> a + renewInterval <= b).
Proof.
  revert h last. induction calls as [|[s' now] calls IH]; intros h last Hlast; cbn [renewals].
  - split; [constructor|]. intros i j a b H. done.
  - destruct (mayForceRenew h s' now) as [ok h'] eqn:E. apply mayForceRenew_forced in E.
    destruct ok; [|destruct E as [-> _]; by apply IH]. destruct E as [Hf Hgap].
    destruct (decide (s' = s)) as [->|Hne].
    + destruct (IH h' now) as [Hall Hord]; [rewrite Hf; apply lookup_insert_eq|].
      specialize (Hgap last Hlast). assert (0 <= renewInterval) by (vm_compute; congruence). split.
      * constructor; [cbn; lia|]. eapply Forall_impl; [exact Hall|]. cbn. intros c Hc Hs. specialize (Hc Hs). lia.
      * intros [|i] [|j] a b Ha Hb Hij; try lia; cbn in Ha, Hb.
        -- injection Ha as <-. rewrite Forall_lookup in Hall. apply (Hall _ _ Hb). done.
        -- apply (Hord i j); [done..|lia].
    + destruct (IH h' last) as [Hall Hord]; [rewrite Hf, lookup_insert_ne; done|]. split.
      * constructor; [|done]. cbn. congruence.
      * intros [|i] [|j] a b Ha Hb Hij; try lia; cbn in Ha, Hb; [congruence|]. apply (Hord i j); [done..|lia].
Qed.

Lemma renewals_spaced calls h s :
  forall i j a b, renewals h calls !! i = Some (s, a) -> renewals h calls !! j = Some (s, b) ->
    (i < j)%nat -> a + renewInterval <= b.
Proof.
  revert h. induction calls as [|[s' now] calls IH]; intros h i j a b; cbn [renewals]; [done|].
  destruct (mayForceRenew h s' now) as [ok h'] eqn:E. apply mayForceRenew_forced in E.
  destruct ok; [|destruct E as [-> _]; apply IH]. destruct E as [Hf _]. intros Ha Hb Hij.
  destruct j as [|j]; [lia|]. cbn in Hb. destruct i as [|i]; cbn in Ha; [|by eapply (IH h' i j); [..|lia]].
  injection Ha as -> ->. destruct (renewals_after calls h' s a) as [Hall _]; [rewrite Hf; apply lookup_insert_eq|].
  rewrite Forall_lookup in Hall. by apply (Hall _ _ Hb).
Qed.

(** ** Valid routes register *)

Lemma service_origin_parses (ip : gostr -> bool) (name : gostr) : is_Some (GCPServicePath name) -> is_Some (https_upstream ip (serviceUpstream name)).
Proof.
  intros [p Hp]. unfold GCPServicePath in Hp. apply fmap_Some in Hp as ([n v] & Hf & _).
  apply List.find_some in Hf as [Hin Hn]. apply bool_decide_eq_true in Hn. cbn [fst] in Hn. subst n.
  repeat (destruct Hin as [[= <- <-]|Hin]; [vm_compute; by eexists|]). destruct Hin.
Qed.

Lemma service_loop_total (ip : gostr -> bool) (route : gostr) (acc : gmap gostr url) (names : list gostr) (svcs : list Service) :
  Forall (fun s => is_Some (GCPServicePath (sv_name s))) svcs -> NoDup (sv_name <$> svcs) ->
  Forall (fun s => acc !! sv_name s = None) svcs -> is_ok (service_loop ip route acc names svcs) = true.
Proof.
  revert acc names. induction svcs as [|s svcs IH]; intros acc names Hk Hnd Hacc; [done|].
  apply Forall_cons in Hk as [Hs Hk]. rewrite fmap_cons in Hnd. apply NoDup_cons in Hnd as [Hn Hnd].
  apply Forall_cons in Hacc as [Ha Hacc]. cbn [service_loop].
  rewrite (proj2 (is_nil_false _) Hs), Ha. cbn [is_nil negb].
  destruct (service_origin_parses ip (sv_name s) Hs) as [u ->]. apply IH; [done|done|].
  apply Forall_forall. intros s' Hs'. rewrite lookup_insert_ne.
  - rewrite Forall_forall in Hacc. by apply Hacc.
  - intros E. apply Hn. rewrite E. apply list_elem_of_fmap. by exists s'.
Qed.

Lemma lower_https (s : gostr) : (lower_byte <$> take 8 (lit "https://" ++ s)) = lit "https://".
Proof. reflexivity. Qed.

Lemma checkOrigin_upstream origin : checkOrigin origin = Ok tt -> is_Some (https_upstream ipv6_literal origin).
Proof.
  intros (rest & u & -> & Hp & _ & Hh & _)%checkOrigin_ok. unfold https_upstream. rewrite lower_https.
  rewrite bool_decide_eq_true_2 by done.
  change (drop 8 (lit "https://" ++ rest)) with rest. rewrite Hp.
  rewrite bool_decide_eq_false_2; [by eexists|]. intros E. apply Hh. unfold Hostname. by rewrite E.
Qed.

Lemma add_route_total yaml_scalar visit modes routes rc :
  Validate yaml_scalar visit (rc_route rc) = Ok tt -> other_mode (rt_mode (rc_route rc)) = false ->
  routes !! rt_name (rc_route rc) = None -> is_ok (add_route ipv6_literal modes routes rc) = true.
Proof.
  intros Hv Hmode Hfree. apply Validate_ok in Hv as (i & g & Hi & _ & _ & Hsv & Hup & _ & _ & Hcred & _).
  unfold add_route. rewrite Hfree, Hi, Hmode. cbn [is_nil negb andb orb fail_if res_bind].
  assert (is_nil (rt_credential (rc_route rc)) && negb (CertificateOnly (Some i)) = false) as ->.
  { unfold check_credential in Hcred. destruct (rt_credential _); [done|]. rewrite Hi in Hcred. apply fail_if_ok in Hcred.
    by rewrite Hcred. }
  cbn [fail_if res_bind]. unfold valid_upstream in Hup. destruct (bool_decide (elems (rt_services (rc_route rc)) = [])) eqn:Es.
  - bool_inv. cbn [negb]. destruct (Vends _); [done|]. destruct (is_gcp _); [by destruct Hup as (_ & ? & _)|].
    destruct (checkOrigin_upstream _ Hup) as [u ->]. done.
  - bool_inv. cbn [negb]. specialize (Hsv Es). destruct (Vends (rc_route rc)) eqn:Ev.
    { exfalso. apply bool_decide_eq_true in Ev, Hsv. rewrite Ev in Hsv. discriminate Hsv. }
    rewrite Hsv in Hup. destruct Hup as (Hu & _ & Hnd & Hk & _). unfold serviceUpstreams. rewrite Hmode, Hu.
    rewrite (bool_decide_eq_true_2 _ (eq_refl [])). cbn [negb].
    pose proof (service_loop_total ipv6_literal (rt_name (rc_route rc)) ∅ [] _ Hk Hnd) as Hl.
    destruct (service_loop _ _ _ _ _); [done|]. exfalso. discriminate Hl.
    apply Forall_forall. intros s _. apply lookup_empty.
Qed.

Lemma add_routes_total yaml_scalar visit modes l routes :
  Forall (fun rc => Validate yaml_scalar visit (rc_route rc) = Ok tt /\ other_mode (rt_mode (rc_route rc)) = false) l ->
  NoDup ((fun rc => rt_name (rc_route rc)) <$> l) -> Forall (fun rc => routes !! rt_name (rc_route rc) = None) l ->
  is_ok (add_routes ipv6_literal modes routes l) = true.
Proof.
  revert routes. induction l as [|rc l IH]; intros routes Hv Hnd Hfree; [done|].
  apply Forall_cons in Hv as [[Hv Hm] Hvs]. rewrite fmap_cons in Hnd. apply NoDup_cons in Hnd as [Hn Hnd].
  apply Forall_cons in Hfree as [Hf Hfree]. cbn [add_routes].
  pose proof (add_route_total yaml_scalar visit modes routes rc Hv Hm Hf) as Hok.
  destruct (add_route _ _ _ _) as [m|e] eqn:E; [|done]. cbn [res_bind]. apply add_route_ok in E as (_ & rt & -> & _).
  apply IH; [done|done|]. apply Forall_forall. intros rc' Hrc'. rewrite lookup_insert_ne.
  - rewrite Forall_forall in Hfree. by apply Hfree.
  - intros E. apply Hn. rewrite E. apply list_elem_of_fmap. by exists rc'.
Qed.

Definition example_hkdf (k s : gostr) : gostr := k ++ s.
Definition empty_handler : handler := MkHandler (lit "host") ∅ ∅ (newBudget DefaultReplayBudget).

(** Routes that [Validate] takes, under distinct names and in endpoint mode,
    are taken by [AddSandbox] too: each check of the registration repeats one
    of the validation. *)
Lemma AddSandbox_valid (hkdf : gostr -> gostr -> gostr) (yaml_scalar : gostr -> option (option gostr))
    (visit : gmap gostr gostr -> list (gostr * gostr)) (h : handler) (s : SandboxConfig) (nonce : gostr)
    (Hid : ValidID (sc_id s) = true)
    (Hroutes : Forall (fun rc => Validate yaml_scalar visit (rc_route rc) = Ok tt /\
                                 other_mode (rt_mode (rc_route rc)) = false) (sc_routes s))
    (Hnames : NoDup ((fun rc => rt_name (rc_route rc)) <$> sc_routes s)) :
  exists h', AddSandbox hkdf ipv6_literal h s nonce = Ok h'.
Proof.
  unfold AddSandbox. rewrite Hid. cbn [negb fail_if res_bind].
  pose proof (add_routes_total yaml_scalar visit (sc_modes s) (sc_routes s) ∅ Hroutes Hnames) as Hok.
  destruct (add_routes _ _ _ _) as [routes|e] eqn:E.
  2:{ exfalso. discriminate Hok. apply Forall_forall. intros rc _. apply lookup_empty. }
  cbn [res_bind]. assert (diverted_names routes = []) as Hd.
  { apply add_routes_ok in E as (_ & _ & Hfrom & _). destruct (diverted_names routes) as [|n l] eqn:En; [done|].
    assert (n ∈ diverted_names routes) as Hin by (rewrite En; by left).
    apply elem_of_diverted in Hin as (rt & Hrt & Hm). destruct (Hfrom _ _ Hrt) as [Hx|(rc & Hrc & _ & Hreg)].
    { by rewrite lookup_empty in Hx. }
    destruct Hreg as (_ & Hspec & _). rewrite Hspec in Hm. rewrite Forall_forall in Hroutes.
    destruct (Hroutes _ Hrc) as [_ Hno]. congruence. }
  unfold checkDivertedRoutes. rewrite Hd. cbn [check_diverted res_bind]. eauto.
Qed.

Example valid_route_registers :
  exists h', AddSandbox example_hkdf ipv6_literal empty_handler
    (MkSandboxConfig (lit "box") (lit "default") [MkRouteConfig (lit "p") valid_route] []) (lit "n") = Ok h'.
Proof.
  apply (AddSandbox_valid example_hkdf example_yaml map_to_list).
  - vm_compute. reflexivity.
  - repeat constructor.
  - repeat constructor. apply not_elem_of_nil.
Qed.

(** ** Properties *)

(** A sandbox that [AddSandbox] takes has a valid id and serves exactly the
    configured routes, by their names, which are distinct: each is registered
    with its own policy and an unchanged copy of its document, in a mode that
    is served, with the parsed https origin of its upstream, with one
    googleapis.com origin for each of its wired services, or with none when it
    vends; no two diverted routes share a host and port; and no other sandbox
    changes. *)
Lemma AddSandbox_registers (hkdf : gostr -> gostr -> gostr) (ip_literal : gostr -> bool)
    (h h' : handler) (s : SandboxConfig) (nonce : gostr)
    (H : AddSandbox hkdf ip_literal h s nonce = Ok h') :
  ValidID (sc_id s) = true /\ NoDup ((fun rc => rt_name (rc_route rc)) <$> sc_routes s) /\
  (forall id, id <> sc_id s -> h_sandboxes h' !! id = h_sandboxes h !! id) /\
  exists sb, h_sandboxes h' !! sc_id s = Some sb /\ sb_id sb = sc_id s /\ sb_profile sb = sc_profile s /\
    sb_key sb = sandboxKey hkdf (h_hostKey h) (sc_id s) nonce /\ sb_live sb = LiveState [] None /\
    (forall name rt, sb_routes sb !! name = Some rt ->
       exists rc, rc ∈ sc_routes s /\ rt_name (rc_route rc) = name /\ registered ip_literal (sc_modes s) rc rt) /\
    (forall rc, rc ∈ sc_routes s ->
       exists rt, sb_routes sb !! rt_name (rc_route rc) = Some rt /\ registered ip_literal (sc_modes s) rc rt) /\
    (forall n n' rt rt', sb_routes sb !! n = Some rt -> sb_routes sb !! n' = Some rt' -> n <> n' ->
       other_mode (rt_mode (r_spec rt)) = true -> other_mode (rt_mode (r_spec rt')) = true ->
       route_addr rt <> route_addr rt').
Proof.
  unfold AddSandbox in H. res_inv. apply negb_false_iff in H. injection H2 as <-.
  apply add_routes_ok in H0 as (Hnd & _ & Hfrom & Hall & _). split_and!; try done.
  { intros id Hid. cbn [set_sandboxes h_sandboxes]. by rewrite lookup_insert_ne. }
  eexists. split; [apply lookup_insert_eq|]. cbn [sb_id sb_profile sb_key sb_live sb_routes].
  split_and!; try done.
  - intros name rt Hrt. apply Hfrom in Hrt as [Hrt|Hrt]; [by rewrite lookup_empty in Hrt|done].
  - by apply checkDivertedRoutes_ok.
Qed.

(** Whatever callers do with the replay budget, in any interleaving, the
    bytes left and the bytes granted add up to the total, what is left is never
    negative, and the budget's count of each sandbox is what its callers hold. *)
Lemma budget_conserved (n : Z) (gs : ledger) (Hn : 0 <= n)
    (H : rtc budget_step (Ledger (newBudget n) []) gs) :
  bu_left (lg_budget gs) + total_of (snd <$> lg_grants gs) = n /\ 0 <= bu_left (lg_budget gs) /\
  (forall sb, held (lg_budget gs) sb = granted sb (lg_grants gs)) /\
  (forall sb k share b', take_budget (lg_budget gs) sb k share = (true, b') ->
     granted sb (lg_grants gs) + k <= share /\ k <= bu_left (lg_budget gs)).
Proof.
  assert (ledger_inv n gs) as (_ & Hs & Hl & Hpos & Hheld).
  { assert (ledger_inv n (Ledger (newBudget n) [])) as Hi.
    { split_and!; cbn; try done; try lia. intros g []%elem_of_nil. }
    revert Hi. induction H as [|x y z Hxy _ IH]; [done|]. intros Hi. by eapply IH, budget_step_inv. }
  split_and!; try done. intros sb k share b'. unfold take_budget. destruct (_ || _) eqn:E; [done|]. intros _.
  apply orb_false_iff in E as [E1 E2]. apply Z.ltb_ge in E1. apply Z.ltb_ge in E2. rewrite Hheld in E2. lia.
Qed.

(** Two forced renewals of one secret are at least a minute apart, in any
    sequence of requests, whatever times they read. *)
Lemma forced_renewals_spaced (h : handler) (calls : list (gostr * Z)) (s : gostr) (i j : nat) (a b : Z)
    (Hi : renewals h calls !! i = Some (s, a)) (Hj : renewals h calls !! j = Some (s, b)) (Hij : (i < j)%nat) :
  a + renewInterval <= b.
Proof. by eapply renewals_spaced. Qed.

(** A token that [Mint] returns is for the named session and a route the
    sandbox has: [verify] takes it, with the key of its sandbox, until its
    lifetime has passed to the second, it becomes the last of the sandbox's
    live tokens, and nothing else of the handler changes. *)
Lemma Mint_verifies (hmac : gostr -> gostr -> gostr) (hmac_size : forall k b, length (hmac k b) = 32%nat)
    (h h' : handler) (now ttl t : Z) (sandbox session route tok : gostr)
    (H : Mint hmac h now sandbox session route ttl = Ok (tok, h'))
    (Hutf : valid_claims (Claims sandbox session route 0 tokenType) = Claims sandbox session route 0 tokenType)
    (Hrange : - 2 ^ 62 <= unix_of (now + ttl) < 2 ^ 62) (Ht : t < unix_of (now + ttl) * second) :
  exists sb rt, h_sandboxes h !! sandbox = Some sb /\ sb_routes sb !! route = Some rt /\
    verify hmac (sb_key sb) tok sandbox route t = Ok (Claims sandbox session route (unix_of (now + ttl)) tokenType) /\
    h' = set_sandboxes h (<[sandbox := set_live sb (remember (sb_live sb) tok route (unix_of (now + ttl) * second))]>
           (h_sandboxes h)) /\
    exists l, last (live (remember (sb_live sb) tok route (unix_of (now + ttl) * second))) = Some l /\ lt_token l = tok.
Proof.
  unfold Mint, find_sandbox in H. destruct (Z.leb_spec ttl 0); [done|].
  destruct (h_sandboxes h !! sandbox) as [sb|]; [|done].
  destruct (sb_routes sb !! route) as [rt|] eqn:Er; [|done]. cbn [is_nil] in H.
  assert (time_unix (unix_of (now + ttl)) = unix_of (now + ttl) * second) as Hu.
  { unfold time_unix, wrap64, unixToInternal. rewrite Z.mod_small by lia. lia. }
  rewrite Hu in H. injection H as <- <-. exists sb, rt. split_and!; try done.
  - rewrite verify_mint_eq by (done || cbn; lia). rewrite bool_decide_eq_true_2 by done.
    unfold valid_claims in *. cbn [c_sandbox c_session c_route c_exp c_typ] in *. injection Hutf as -> -> ->.
    unfold check_claims. cbn [c_sandbox c_session c_route c_exp c_typ]. rewrite !bool_decide_eq_true_2 by done.
    cbn [negb]. rewrite Hu. by destruct (Z.ltb_spec t (unix_of (now + ttl) * second)); [|lia].
  - edestruct remember_last_spec as (l & Hl & Hl' & _). by exists l.
Qed.

(** An endpoint route, a diverted one and two services, registered. *)
Definition example_route (name upstream mode : gostr) (services : list gostr) : RouteConfig :=
  MkRouteConfig (lit "p") (MkRoute name [] mode upstream
    (Some (MkCredentialRef (MkSecretRef (lit "s") ) [] [])) (Some (MkInject None None None)) None None
    (Some ((fun n => MkService n None) <$> services)) false).

Definition example_config : SandboxConfig :=
  MkSandboxConfig (lit "box-1") (lit "default")
    [example_route (lit "anthropic") (lit "https://api.anthropic.com") [] [];
     example_route (lit "db") (lit "https://DB.example.com:5432/x") (lit "tunnel") [];
     example_route (lit "google") [] ModeEndpoint [lit "storage"; lit "iam"]] [lit "tunnel"].

Definition example_handler : handler :=
  match AddSandbox example_hkdf (fun _ => false) empty_handler example_config (lit "n") with
  | Ok h => h
  | Err _ => empty_handler
  end.

Example AddSandbox_registers_witness :
  AddSandbox example_hkdf (fun _ => false) empty_handler example_config (lit "n") = Ok example_handler /\
  ValidID (lit "box-1") = true.
Proof.
  assert (AddSandbox example_hkdf (fun _ => false) empty_handler example_config (lit "n") = Ok example_handler) as H
    by (vm_compute; reflexivity).
  split; [exact H|].
  exact (proj1 (AddSandbox_registers example_hkdf (fun _ => false) empty_handler example_handler example_config (lit "n") H)).
Defined.

(** A take, a refused take and the give of the first. *)
Example budget_conserved_witness :
  let b := take_budget (newBudget 100) (lit "a") 60 80 in
  0 <= bu_left (lg_budget (Ledger (give_budget b.2 (lit "a") 60) [])).
Proof.
  cbv zeta. apply (budget_conserved 100); [lia|].
  eapply rtc_l; [apply (step_taken _ (take_budget (newBudget 100) (lit "a") 60 80).2 [] (lit "a") 60 80); [lia|reflexivity]|].
  eapply rtc_l; [eapply (step_refused _ (take_budget (newBudget 100) (lit "a") 60 80).2 _ (lit "b") 60 80); reflexivity|].
  eapply rtc_l; [apply (step_given _ [] [] (lit "a") 60)|]. apply rtc_refl.
Defined.

Example forced_renewals_spaced_witness : 5 + renewInterval <= 5 + renewInterval.
Proof.
  apply (forced_renewals_spaced empty_handler
    [(lit "s", 5); (lit "t", 6); (lit "s", 7); (lit "s", 5 + renewInterval)] (lit "s") 0 2);
    [vm_compute; reflexivity | vm_compute; reflexivity | lia].
Defined.

Example Mint_verifies_witness :
  exists tok h' sb, Mint example_hmac example_handler 1000000000 (lit "box-1") [] (lit "google") DefaultTokenTTL = Ok (tok, h') /\
    verify example_hmac sb tok (lit "box-1") (lit "google") 2000000000
    = Ok (Claims (lit "box-1") [] (lit "google") (unix_of (1000000000 + DefaultTokenTTL)) tokenType).
Proof.
  destruct (Mint example_hmac example_handler 1000000000 (lit "box-1") [] (lit "google") DefaultTokenTTL) as [[tok h']|e] eqn:E.
  - pose proof (Mint_verifies example_hmac example_hmac_size example_handler h' 1000000000 DefaultTokenTTL 2000000000
      (lit "box-1") [] (lit "google") tok E) as (sb & rt & _ & _ & Hv & _).
    + reflexivity.
    + vm_compute. split; congruence.
    + vm_compute. reflexivity.
    + exists tok, h', (sb_key sb). split; [reflexivity|exact Hv].
  - exfalso. revert E. vm_compute. congruence.
Defined.
