(* ===== verification/Routes.v ===== *)
(** * The routes of a run (internal/policy/presets.go)

    [Routes] expands the routes of every policy bound to a run and refuses two
    that share a name, a variable or a git prefix.  What it takes is what a
    sandbox of the broker is registered with. *)

From stdpp Require Import prelude list strings gmap sorting.
From Stdlib Require Import ZArith Lia ZifyNat Ascii.
From S2P Require Import Prelude GoUnicode GoStrings GoNetip RouteTypes RouteValidate RouteMode Expand Registry.

(** ** The routes of a run *)

(** Who declared a name: a policy and a route. *)
Abbreviation owner := (gostr * gostr)%type (only parsing).

Inductive routes_error :=
  | InPolicy (policy : gostr) (e : expand_error)
  | DeclaredTwice (route prev policy : gostr)
  | TwoServices (prev route : gostr)
  | EnvTwice (name : gostr) (prev : owner)
  | PrefixTwice (prefix : gostr) (prev : owner)
  | OverrideElsewhere (name : gostr) (o : owner).

Record owners := MkOwners {
  ow_route : gmap gostr gostr;
  ow_env : gmap gostr owner;
  ow_prefix : gmap gostr owner;
  ow_services : owner;
  ow_out : list Route;
}.

Definition sortedKeys (m : gmap gostr gostr) : list gostr := sort_strings (fst <$> map_to_list m).

Definition has_services (e : Route) : bool := nonempty_slice (rt_services e).

(** The variables that are names of a route: its [guest.env], and the gcloud
    variables of a route with services. *)
Definition route_env (e : Route) : list gostr :=
  match rt_guest e with Some g => sortedKeys (default ∅ (gu_env g)) | None => [] end
  ++ (if has_services e then GCPGuestVars (elems (rt_services e)) else []).

Definition route_prefixes (e : Route) : list gostr :=
  match rt_guest e with
  | Some g => match gu_git g with Some git => elems (gg_insteadOf git) | None => [] end
  | None => []
  end.

(** A loop that gives each name to [o], unless it has an owner. *)
Fixpoint claim (err : gostr -> owner -> routes_error) (o : owner) (m : gmap gostr owner) (names : list gostr)
    : res routes_error (gmap gostr owner) :=
  match names with
  | [] => Ok m
  | n :: names' =>
    match m !! n with
    | Some prev => Err (err n prev)
    | None => claim err o (<[n := o]> m) names'
    end
  end.

Section Routes.
Variable preset_file : gostr -> res preset_error presetFile.
Variable yaml_scalar : gostr -> option (option gostr).
Variable visit : gmap gostr gostr -> list (gostr * gostr).
Variable modes : modes_map.

(** The body of the inner loop, on a route of the policy [p]. *)
Definition routes_step (p : gostr) (st : owners) (r : Route) : res routes_error owners :=
  let? e := map_err (InPolicy p) (ExpandRoute preset_file yaml_scalar visit modes r) in
  match ow_route st !! rt_name e with
  | Some prev => Err (DeclaredTwice (rt_name e) prev p)
  | None =>
    let o := (p, rt_name e) in
    let? services :=
      if has_services e then
        if negb (bool_decide ((ow_services st).2 = [])) then Err (TwoServices (ow_services st).2 (rt_name e)) else Ok o
      else Ok (ow_services st) in
    let? env := claim EnvTwice o (ow_env st) (route_env e) in
    let? prefixes := claim PrefixTwice o (ow_prefix st) (route_prefixes e) in
    Ok (MkOwners (<[rt_name e := p]> (ow_route st)) env prefixes services (ow_out st ++ [e]))
  end.

Fixpoint routes_of_policy (p : gostr) (st : owners) (l : list Route) : res routes_error owners :=
  match l with
  | [] => Ok st
  | r :: l' => let? st := routes_step p st r in routes_of_policy p st l'
  end.

Fixpoint routes_loop (st : owners) (ps : list Policy) : res routes_error owners :=
  match ps with
  | [] => Ok st
  | p :: ps' =>
    let? st := routes_of_policy (om_name (po_metadata p)) st (elems (ps_routes (po_spec p))) in routes_loop st ps'
  end.

(** The loop over the owners of the variables, by name. *)
Definition check_override (st : owners) (name : gostr) : res routes_error unit :=
  match ow_env st !! name with
  | Some o =>
    fail_if (negb (bool_decide (o.2 = (ow_services st).2)) && has_prefix name GCPEndpointOverridePrefix) (OverrideElsewhere name o)
  | None => Ok tt
  end.

Definition no_owners : owners := MkOwners ∅ ∅ ∅ ([], []) [].

Definition Routes (ps : list Policy) : res routes_error (list Route) :=
  let? st := routes_loop no_owners ps in
  (if negb (bool_decide ((ow_services st).2 = []))
   then check_all (check_override st) (sort_strings (fst <$> map_to_list (ow_env st)))
   else Ok tt) ;?
  Ok (ow_out st).
End Routes.


(** ** What the loop keeps *)

Lemma claim_ok err o m names m' : claim err o m names = Ok m' ->
  NoDup names /\ Forall (fun n => m !! n = None) names /\
  forall n, m' !! n = if decide (n ∈ names) then Some o else m !! n.
Proof.
  revert m. induction names as [|n names IH]; intros m; cbn [claim].
  { intros [= ->]. split_and!; [constructor|constructor|]. intros n. by rewrite decide_False by apply not_elem_of_nil. }
  destruct (m !! n) as [prev|] eqn:En; [done|]. intros (Hnd & Hfree & Hm')%IH.
  assert (n ∉ names) as Hn.
  { intros Hin. rewrite Forall_forall in Hfree. specialize (Hfree n Hin). by rewrite lookup_insert_eq in Hfree. }
  split_and!.
  - by constructor.
  - constructor; [done|]. eapply Forall_impl; [exact Hfree|]. cbn. intros x Hx. by apply lookup_insert_None in Hx as [? _].
  - intros x. rewrite Hm'. destruct (decide (x = n)) as [->|Hne].
    + rewrite (decide_False (P := n ∈ names)) by done. rewrite (decide_True (P := n ∈ n :: names)) by by left.
      apply lookup_insert_eq.
    + rewrite lookup_insert_ne by done. destruct (decide (x ∈ names)).
      * by rewrite decide_True by by right.
      * rewrite decide_False; [done|]. rewrite elem_of_cons. naive_solver.
Qed.

Lemma claim_total err o m names : NoDup names -> Forall (fun n => m !! n = None) names -> is_ok (claim err o m names) = true.
Proof.
  revert m. induction names as [|n names IH]; intros m Hnd Hm; cbn [claim]; [done|].
  apply NoDup_cons in Hnd as [Hn Hnd]. apply Forall_cons in Hm as [-> Hm]. apply IH; [done|].
  rewrite Forall_forall in *. intros x Hx. rewrite lookup_insert_ne; [by apply Hm|]. by intros ->.
Qed.

(** Routes that can serve one run. *)
Definition compatible (out : list Route) : Prop :=
  NoDup (rt_name <$> out) /\ NoDup (out ≫= route_env) /\ NoDup (out ≫= route_prefixes) /\
  (length (filter (fun e => has_services e = true) out) <= 1)%nat.

Definition owners_inv (st : owners) : Prop :=
  compatible (ow_out st) /\
  (forall n : gostr, is_Some (ow_route st !! n) <-> n ∈ rt_name <$> ow_out st) /\
  (forall n x : gostr, (exists o, ow_env st !! n = Some o /\ o.2 = x) <-> exists e, e ∈ ow_out st /\ n ∈ route_env e /\ rt_name e = x) /\
  (forall n : gostr, is_Some (ow_prefix st !! n) <-> n ∈ ow_out st ≫= route_prefixes) /\
  ((ow_services st).2 = [] <-> filter (fun e => has_services e = true) (ow_out st) = []) /\
  (forall e, e ∈ ow_out st -> has_services e = true -> (ow_services st).2 = rt_name e) /\
  Forall (fun e => rt_name e <> []) (ow_out st).

Lemma owners_inv_init : owners_inv no_owners.
Proof.
  split_and!; cbn; try done.
  - split_and!; cbn; try constructor. lia.
  - intros n. rewrite lookup_empty, elem_of_nil. split; [by intros [? [=]]|done].
  - intros n x. rewrite lookup_empty. setoid_rewrite elem_of_nil. naive_solver.
  - intros n. rewrite lookup_empty, elem_of_nil. split; [by intros [? [=]]|done].
  - intros e. by rewrite elem_of_nil.
Qed.

Lemma fmap_None_notin (m : gmap gostr gostr) (P : gostr -> Prop) (n : gostr) : (is_Some (m !! n) <-> P n) -> (m !! n = None <-> ~ P n).
Proof. intros <-. by rewrite eq_None_not_Some. Qed.

(** A name that has no owner yet is no variable of the routes so far. *)
Lemma env_free st n : owners_inv st -> ow_env st !! n = None <-> n ∉ ow_out st ≫= route_env.
Proof.
  intros (_ & _ & He & _). rewrite list_elem_of_bind. split.
  - intros Hn (e & Hin & Hout). destruct (proj2 (He n (rt_name e))) as (o & Ho & _); [by exists e|]. congruence.
  - intros H. destruct (ow_env st !! n) as [o|] eqn:E; [|done]. exfalso. apply H.
    destruct (proj1 (He n o.2)) as (e & ? & ? & _); [by exists o|]. by exists e.
Qed.

Lemma prefix_free st n : owners_inv st -> ow_prefix st !! n = None <-> n ∉ ow_out st ≫= route_prefixes.
Proof. intros (_ & _ & _ & Hp & _). rewrite <- Hp. by rewrite eq_None_not_Some. Qed.

Lemma route_free st n : owners_inv st -> ow_route st !! n = None <-> n ∉ rt_name <$> ow_out st.
Proof. intros (_ & Hr & _). rewrite <- Hr. by rewrite eq_None_not_Some. Qed.

Lemma NoDup_snoc_app {A} (l l' : list A) : NoDup (l ++ l') <-> NoDup l /\ NoDup l' /\ Forall (fun x => x ∉ l) l'.
Proof. rewrite NoDup_app, Forall_forall. naive_solver. Qed.

Lemma compatible_snoc out e :
  compatible (out ++ [e]) <-> compatible out /\ rt_name e ∉ rt_name <$> out /\
    NoDup (route_env e) /\ Forall (fun n => n ∉ out ≫= route_env) (route_env e) /\
    NoDup (route_prefixes e) /\ Forall (fun n => n ∉ out ≫= route_prefixes) (route_prefixes e) /\
    (has_services e = true -> filter (fun e => has_services e = true) out = []).
Proof.
  unfold compatible. rewrite fmap_app, !bind_app, filter_app, length_app. cbn [fmap list_fmap mbind list_bind]. rewrite !app_nil_r.
  rewrite !NoDup_snoc_app, Forall_singleton. rewrite filter_cons.
  assert (forall (l : list Route) n, (length l + n <= 1)%nat -> n = 1%nat -> l = []) as Hl.
  { intros [|x l] n; cbn; [done|lia]. }
  destruct (decide (has_services e = true)) as [Hs|Hs]; cbn [length filter list_filter].
  - split.
    + intros ((? & _ & ?) & (? & ? & ?) & (? & ? & ?) & ?). split_and!; try done; try lia. intros _. by eapply Hl.
    + intros ((? & ? & ? & ?) & ? & ? & ? & ? & ? & Hf). rewrite (Hf Hs). cbn.
      split_and!; try done; try apply NoDup_singleton.
  - split.
    + intros ((? & _ & ?) & (? & ? & ?) & (? & ? & ?) & ?). split_and!; try done; try lia.
    + intros ((? & ? & ? & ?) & ? & ? & ? & ? & ? & Hf).
      split_and!; try done; try apply NoDup_singleton. lia.
Qed.

Section RoutesFacts.
Context (preset_file : gostr -> res preset_error presetFile) (yaml_scalar : gostr -> option (option gostr)).
Context (visit : gmap gostr gostr -> list (gostr * gostr)) (modes : modes_map).

Abbreviation expand_route := (ExpandRoute preset_file yaml_scalar visit modes).
Abbreviation step := (routes_step preset_file yaml_scalar visit modes).

Lemma expanded_valid r e : expand_route r = Ok e -> Validate yaml_scalar visit e = Ok tt.
Proof.
  intros H. assert (exists r0, expand_body preset_file yaml_scalar visit modes r0 = Ok e) as [r0 He].
  { unfold Expand.ExpandRoute in H. destruct (_ && _); [|by exists r].
    apply res_bind_ok in H as (e0 & H0 & H). apply seq_ok in H as [_ [= <-]]. by eexists. }
  by apply expand_body_ok in He as (_ & _ & _ & _ & _ & Hv).
Qed.

Lemma expanded_name r e : expand_route r = Ok e -> rt_name e <> [].
Proof.
  intros Hv%expanded_valid. apply Validate_ok in Hv as (_ & _ & _ & _ & Hn & _).
  intros E. rewrite E in Hn. destruct Hn as (c & t & [=] & _).
Qed.

Lemma routes_step_ok p st r st' : owners_inv st -> step p st r = Ok st' ->
  owners_inv st' /\ exists e, expand_route r = Ok e /\ ow_out st' = ow_out st ++ [e].
Proof.
  intros Hi H. unfold Routes.routes_step in H. apply res_bind_ok in H as (e & He & H). apply map_err_ok in He.
  destruct (ow_route st !! rt_name e) as [prev|] eqn:Er; [done|]. cbv zeta in H.
  apply res_bind_ok in H as (services & Hs & H). apply res_bind_ok in H as (env & Henv & H).
  apply res_bind_ok in H as (prefixes & Hpre & [= <-]). pose proof (expanded_name _ _ He) as Hne.
  apply claim_ok in Henv as (Hnd1 & Hf1 & Henv). apply claim_ok in Hpre as (Hnd2 & Hf2 & Hpre).
  split; [|by exists e]. pose proof (route_free st (rt_name e) Hi) as Hrf.
  assert (Forall (fun n => n ∉ ow_out st ≫= route_env) (route_env e)) as Hf1'.
  { eapply Forall_impl; [exact Hf1|]. cbn. intros n Hn. by apply (env_free st n Hi). }
  assert (Forall (fun n => n ∉ ow_out st ≫= route_prefixes) (route_prefixes e)) as Hf2'.
  { eapply Forall_impl; [exact Hf2|]. cbn. intros n Hn. by apply (prefix_free st n Hi). }
  destruct Hi as (Hc & Hr & Hev & Hp & Hs1 & Hs2 & Hn).
  assert ((has_services e = true -> filter (fun e => has_services e = true) (ow_out st) = [] /\ services = (p, rt_name e)) /\
    (has_services e = false -> services = ow_services st)) as [Hst Hsf].
  { destruct (has_services e); [|by injection Hs as <-]. destruct (bool_decide_reflect ((ow_services st).2 = [])); [|done].
    cbn [negb] in Hs. injection Hs as <-. split; [|done]. intros _. split; [by apply Hs1|done]. }
  split_and!; cbn [ow_out ow_route ow_env ow_prefix ow_services].
  - apply compatible_snoc. split_and!; try done; [by apply Hrf|]. intros He'. by apply Hst.
  - intros n. rewrite fmap_app, elem_of_app, <- Hr. cbn [fmap list_fmap]. rewrite list_elem_of_singleton. destruct (decide (n = rt_name e)) as [->|Hx].
    + rewrite lookup_insert_eq. split; [by right|by eexists].
    + rewrite lookup_insert_ne by done. naive_solver.
  - intros n x. rewrite Henv. assert (e ∈ ow_out st ++ [e]) as Hlast by (apply elem_of_app; right; by left).
    destruct (decide (n ∈ route_env e)) as [Hin|Hin].
    + rewrite Forall_forall in Hf1'. specialize (Hf1' n Hin). rewrite list_elem_of_bind in Hf1'. split.
      * intros (o & [= <-] & <-). by exists e.
      * intros (e' & [H1|H1]%elem_of_app & H2 & <-); [exfalso; apply Hf1'; by exists e'|].
        apply list_elem_of_singleton in H1 as ->. by exists (p, rt_name e).
    + rewrite Hev. split.
      * intros (e' & ? & ? & ?). exists e'. split_and!; try done. apply elem_of_app. by left.
      * intros (e' & [H1|H1]%elem_of_app & H2 & <-); [by exists e'|]. by apply list_elem_of_singleton in H1 as ->.
  - intros n. rewrite bind_app, elem_of_app, <- Hp, Hpre. cbn [mbind list_bind]. rewrite app_nil_r.
    destruct (decide (n ∈ route_prefixes e)); [|naive_solver]. split; [by right|by eexists].
  - rewrite filter_app, filter_cons. destruct (has_services e) eqn:Ehs.
    + rewrite decide_True by done. destruct (Hst eq_refl) as [-> ->]. cbn. done.
    + rewrite decide_False by congruence. rewrite (Hsf eq_refl), Hs1. cbn [filter list_filter]. by rewrite app_nil_r.
  - intros e' [Hin|Hin]%elem_of_app Hes.
    + destruct (has_services e) eqn:Ehs; [|rewrite (Hsf eq_refl); by apply Hs2].
      destruct (Hst eq_refl) as [Hnil _]. exfalso. eapply (not_elem_of_nil e'). rewrite <- Hnil. by apply list_elem_of_filter.
    + apply list_elem_of_singleton in Hin as ->. by destruct (Hst Hes) as [_ ->].
  - apply Forall_app. split; [done|]. by constructor.
Qed.

Lemma routes_step_total p st r e : owners_inv st -> expand_route r = Ok e -> compatible (ow_out st ++ [e]) ->
  is_ok (step p st r) = true.
Proof.
  intros Hi He Hc. apply compatible_snoc in Hc as (_ & Hn & Hnd1 & Hf1 & Hnd2 & Hf2 & Hs).
  unfold Routes.routes_step. rewrite (proj2 (map_err_ok _ _ _) He). cbn [res_bind].
  rewrite (proj2 (route_free st _ Hi) Hn). cbv zeta.
  assert (exists services, (if has_services e then if negb (bool_decide ((ow_services st).2 = [])) then Err (TwoServices (ow_services st).2 (rt_name e)) else Ok (p, rt_name e) else Ok (ow_services st)) = Ok services) as [services ->].
  { destruct (has_services e); [|by eexists]. destruct Hi as (_ & _ & _ & _ & Hs1 & _).
    rewrite (bool_decide_eq_true_2 _ (proj2 Hs1 (Hs eq_refl))). by eexists. }
  cbn [res_bind].
  pose proof (claim_total EnvTwice (p, rt_name e) (ow_env st) (route_env e) Hnd1) as H1.
  destruct (claim EnvTwice _ _ _) as [env|]; [|exfalso; discriminate H1; eapply Forall_impl; [exact Hf1|]; intros n; apply (env_free st n Hi)].
  cbn [res_bind]. pose proof (claim_total PrefixTwice (p, rt_name e) (ow_prefix st) (route_prefixes e) Hnd2) as H2.
  destruct (claim PrefixTwice _ _ _) as [pre|]; [done|]. exfalso. discriminate H2. eapply Forall_impl; [exact Hf2|].
  intros n. apply (prefix_free st n Hi).
Qed.

Lemma compatible_app_l out out' : compatible (out ++ out') -> compatible out.
Proof.
  induction out' as [|e out' IH] using rev_ind; [by rewrite app_nil_r|].
  rewrite app_assoc. intros [H _]%compatible_snoc. by apply IH.
Qed.

(** The routes of a policy, from a state that has the invariant. *)
Lemma routes_of_policy_ok p st l st' : owners_inv st -> routes_of_policy preset_file yaml_scalar visit modes p st l = Ok st' ->
  owners_inv st' /\ exists es, Forall2 (fun r e => expand_route r = Ok e) l es /\ ow_out st' = ow_out st ++ es.
Proof.
  revert st. induction l as [|r l IH]; intros st Hi; cbn [routes_of_policy].
  { intros [= <-]. split; [done|]. exists []. by rewrite app_nil_r. }
  intros (st1 & H1 & H2)%res_bind_ok. destruct (routes_step_ok _ _ _ _ Hi H1) as (Hi1 & e & He & Ho).
  destruct (IH st1 Hi1 H2) as (Hi' & es & Hes & Ho'). split; [done|]. exists (e :: es). split; [by constructor|].
  by rewrite Ho', Ho, <- app_assoc.
Qed.

Lemma routes_of_policy_total p st l es : owners_inv st -> Forall2 (fun r e => expand_route r = Ok e) l es ->
  compatible (ow_out st ++ es) -> is_ok (routes_of_policy preset_file yaml_scalar visit modes p st l) = true.
Proof.
  intros Hi Hes. revert st Hi. induction Hes as [|r e l es He Hes IH]; intros st Hi Hc; cbn [routes_of_policy]; [done|].
  assert (compatible (ow_out st ++ [e])) as Hc1.
  { apply (compatible_app_l _ es). by rewrite <- app_assoc. }
  pose proof (routes_step_total p st r e Hi He Hc1) as Hok. destruct (step p st r) as [st1|] eqn:E; [|done].
  cbn [res_bind]. destruct (routes_step_ok _ _ _ _ Hi E) as (Hi1 & e' & He' & Ho). rewrite He in He'. injection He' as <-.
  apply IH; [done|]. by rewrite Ho, <- app_assoc.
Qed.

(** All the routes written for a run, in order. *)
Definition routes_of (ps : list Policy) : list Route := ps ≫= fun p => elems (ps_routes (po_spec p)).

Lemma routes_loop_ok st ps st' : owners_inv st -> routes_loop preset_file yaml_scalar visit modes st ps = Ok st' ->
  owners_inv st' /\ exists es, Forall2 (fun r e => expand_route r = Ok e) (routes_of ps) es /\ ow_out st' = ow_out st ++ es.
Proof.
  revert st. induction ps as [|p ps IH]; intros st Hi; cbn [routes_loop].
  { intros [= <-]. split; [done|]. exists []. by rewrite app_nil_r. }
  intros (st1 & H1 & H2)%res_bind_ok. destruct (routes_of_policy_ok _ _ _ _ Hi H1) as (Hi1 & es1 & He1 & Ho1).
  destruct (IH st1 Hi1 H2) as (Hi' & es2 & He2 & Ho2). split; [done|]. exists (es1 ++ es2). split.
  - unfold routes_of. cbn [mbind list_bind]. by apply Forall2_app.
  - by rewrite Ho2, Ho1, <- app_assoc.
Qed.

Lemma routes_loop_total st ps es : owners_inv st -> Forall2 (fun r e => expand_route r = Ok e) (routes_of ps) es ->
  compatible (ow_out st ++ es) -> is_ok (routes_loop preset_file yaml_scalar visit modes st ps) = true.
Proof.
  revert st es. induction ps as [|p ps IH]; intros st es Hi Hes Hc; cbn [routes_loop]; [done|].
  unfold routes_of in Hes. cbn [mbind list_bind] in Hes. apply Forall2_app_inv_l in Hes as (es1 & es2 & H1 & H2 & ->).
  assert (compatible (ow_out st ++ es1)) as Hc1 by (apply (compatible_app_l _ es2); by rewrite <- app_assoc).
  pose proof (routes_of_policy_total (om_name (po_metadata p)) st _ es1 Hi H1 Hc1) as Hok.
  destruct (routes_of_policy _ _ _ _ _ _ _) as [st1|] eqn:E; [|done]. cbn [res_bind].
  destruct (routes_of_policy_ok _ _ _ _ Hi E) as (Hi1 & es' & He' & Ho).
  assert (es' = es1) as ->.
  { eapply Forall2_unique; [exact He'|exact H1|]. intros r e e' E1 E2. congruence. }
  apply (IH st1 es2 Hi1); [done|]. by rewrite Ho, <- app_assoc.
Qed.

(** A gcloud override of a route is on the route with services, when a run
    has one. *)
Definition overrides_owned (out : list Route) : Prop :=
  forall e e' name, e ∈ out -> has_services e = true -> e' ∈ out -> rt_name e' <> rt_name e -> name ∈ route_env e' ->
    has_prefix name GCPEndpointOverridePrefix = false.

Lemma overrides_check st : owners_inv st ->
  (if negb (bool_decide ((ow_services st).2 = []))
   then check_all (check_override st) (sort_strings (fst <$> map_to_list (ow_env st))) else Ok tt) = Ok tt <->
  overrides_owned (ow_out st).
Proof.
  intros (_ & _ & Hev & _ & Hs1 & Hs2 & _). destruct (bool_decide_reflect ((ow_services st).2 = [])) as [Hn|Hn]; cbn [negb].
  { split; [|done]. intros _ e e' name He Hes. exfalso. eapply (not_elem_of_nil e). rewrite <- (proj1 Hs1 Hn). by apply list_elem_of_filter. }
  assert (exists e0, e0 ∈ ow_out st /\ has_services e0 = true) as (e0 & He0 & Hes0).
  { destruct (filter (fun e => has_services e = true) (ow_out st)) as [|e0 l] eqn:Ef; [exfalso; by apply Hn, Hs1|].
    exists e0. assert (e0 ∈ filter (fun e => has_services e = true) (ow_out st)) as H by (rewrite Ef; by left).
    by apply list_elem_of_filter in H as [? ?]. }
  rewrite check_all_ok, Forall_forall. split.
  - intros H e e' name He Hes He' Hne Hname. destruct (proj2 (Hev name (rt_name e'))) as (o & Ho & Ho2); [by exists e'|].
    assert (name ∈ sort_strings (fst <$> map_to_list (ow_env st))) as Hin.
    { rewrite sort_strings_perm, list_elem_of_fmap. exists (name, o). split; [done|]. by apply elem_of_map_to_list. }
    specialize (H name Hin). unfold check_override in H. rewrite Ho in H. apply fail_if_ok in H. rewrite Ho2, (Hs2 e He Hes) in H.
    by rewrite (bool_decide_eq_false_2 _ Hne) in H.
  - intros H name _. unfold check_override. destruct (ow_env st !! name) as [o|] eqn:Ho; [|done]. apply fail_if_ok.
    destruct (proj1 (Hev name o.2)) as (e' & He' & Hname & Hn'); [by exists o|]. rewrite (Hs2 e0 He0 Hes0).
    destruct (bool_decide_reflect (o.2 = rt_name e0)) as [|Hne]; [done|]. cbn [negb andb].
    apply (H e0 e' name); try done. by rewrite Hn'.
Qed.
End RoutesFacts.

(** ** Properties *)

(** The routes of a run are the routes of its policies, expanded in order,
    exactly when each expands and no two share a name, a guest variable
    (the gcloud variables that brig writes itself among them) or a git prefix,
    at most one has services, and no other route sets a gcloud endpoint. *)
Lemma Routes_spec (preset_file : gostr -> res preset_error presetFile) (yaml_scalar : gostr -> option (option gostr))
    (visit : gmap gostr gostr -> list (gostr * gostr)) (modes : modes_map) (ps : list Policy) (out : list Route) :
  Routes preset_file yaml_scalar visit modes ps = Ok out <->
  Forall2 (fun r e => ExpandRoute preset_file yaml_scalar visit modes r = Ok e) (routes_of ps) out /\
  compatible out /\ overrides_owned out.
Proof.
  unfold Routes. split.
  - intros (st & Hl & H)%res_bind_ok. apply seq_ok in H as [Hc [= <-]].
    destruct (routes_loop_ok _ _ _ _ _ _ _ owners_inv_init Hl) as (Hi & es & Hes & Ho). cbn [no_owners ow_out app] in Ho.
    apply (overrides_check st Hi) in Hc. rewrite <- Ho in Hes. split_and!; [done|apply Hi|done].
  - intros (Hes & Hc & Ho).
    pose proof (routes_loop_total _ _ _ _ no_owners ps out owners_inv_init Hes Hc) as Hok.
    destruct (routes_loop _ _ _ _ _ _) as [st|] eqn:El; [|done]. cbn [res_bind].
    destruct (routes_loop_ok _ _ _ _ _ _ _ owners_inv_init El) as (Hi & es & Hes' & Hout). cbn [no_owners ow_out app] in Hout.
    assert (es = out) as ->. { eapply Forall2_unique; [exact Hes'|exact Hes|]. intros r e e' E1 E2. congruence. }
    rewrite <- Hout in Ho. apply (overrides_check st Hi) in Ho. rewrite Ho. cbn [res_bind]. by rewrite Hout.
Qed.

(** C24: Policies whose routes resolve can be run: when every resolved route is
    in mode endpoint and the sandbox has a valid id, the broker registers the
    sandbox, and what it then serves the sandbox is each resolved route under
    its own name, as it was resolved, and no other. *)
Theorem Routes_register (hkdf : gostr -> gostr -> gostr) (preset_file : gostr -> res preset_error presetFile)
    (yaml_scalar : gostr -> option (option gostr)) (visit : gmap gostr gostr -> list (gostr * gostr)) (modes : modes_map)
    (ps : list Policy) (out : list Route) (h : handler) (s : SandboxConfig) (nonce : gostr)
    (H : Routes preset_file yaml_scalar visit modes ps = Ok out) (Hmodes : Forall (fun e => other_mode (rt_mode e) = false) out)
    (Hid : ValidID (sc_id s) = true) (Hs : rc_route <$> sc_routes s = out) :
  exists h' sb, AddSandbox hkdf ipv6_literal h s nonce = Ok h' /\ h_sandboxes h' !! sc_id s = Some sb /\
    (forall r, r ∈ out -> exists rt, sb_routes sb !! rt_name r = Some rt /\ r_spec rt = r) /\
    (forall name rt, sb_routes sb !! name = Some rt -> r_spec rt ∈ out /\ rt_name (r_spec rt) = name).
Proof.
  assert (exists h', AddSandbox hkdf ipv6_literal h s nonce = Ok h') as [h' Hadd].
  2: { apply AddSandbox_registers in Hadd as Hr. destruct Hr as (_ & _ & _ & sb & Hsb & _ & _ & _ & _ & Hfrom & Hall & _).
    exists h', sb. split; [done|]. split; [done|]. rewrite <- Hs. split.
    - intros r Hr. apply list_elem_of_fmap in Hr as (rc & -> & Hr). apply Hall in Hr as (rt & Hrt & _ & Hspec & _). by exists rt.
    - intros name rt Hrt. apply Hfrom in Hrt as (rc & Hrc & Hname & _ & Hspec & _). rewrite Hspec.
      split; [|done]. by apply list_elem_of_fmap_2. }
  unfold Routes in H. apply res_bind_ok in H as (st & Hl & H). apply seq_ok in H as [_ [= Hst]].
  destruct (routes_loop_ok _ _ _ _ _ _ _ owners_inv_init Hl) as (Hi & es & Hes & Ho). cbn [no_owners ow_out app] in Ho.
  assert (Forall (fun e => Validate yaml_scalar visit e = Ok tt) out) as Hv.
  { rewrite <- Hst, Ho. clear -Hes. induction Hes as [|r e l es He _ IH]; [constructor|]. constructor; [|done]. by eapply expanded_valid. }
  destruct Hi as ((Hnd & _) & _). rewrite Hst in Hnd.
  apply (AddSandbox_valid hkdf yaml_scalar visit); [done| |].
  - rewrite <- Hs in Hv, Hmodes. rewrite Forall_fmap in Hv, Hmodes. apply Forall_and. by split.
  - rewrite <- Hs, <- list_fmap_compose in Hnd. exact Hnd.
Qed.

Definition claude_policy : Policy :=
  MkPolicy APIVersion Kind (MkObjectMeta (lit "p") [] None None) (MkPolicySpec None (Some [claude_route])).

Definition claude_routes : list Route :=
  match Routes shipped example_yaml map_to_list ∅ [claude_policy] with Ok out => out | Err _ => [] end.

Lemma claude_routes_ok :
  Routes shipped example_yaml map_to_list ∅ [claude_policy] = Ok claude_routes /\
  forallb (fun e => negb (other_mode (rt_mode e))) claude_routes = true.
Proof.
  unfold claude_routes. assert (is_ok (Routes shipped example_yaml map_to_list ∅ [claude_policy]) = true) as H.
  { vm_compute. reflexivity. }
  destruct (Routes _ _ _ _ _) as [out|] eqn:E; [|done]. split; [done|].
  assert (match Routes shipped example_yaml map_to_list ∅ [claude_policy] with
          | Ok out => forallb (fun e => negb (other_mode (rt_mode e))) out | Err _ => false end = true) as H'.
  { vm_compute. reflexivity. }
  by rewrite E in H'.
Qed.

Example Routes_register_witness :
  exists h' sb, AddSandbox example_hkdf ipv6_literal empty_handler
      (MkSandboxConfig (lit "box") (lit "default") (MkRouteConfig (lit "p") <$> claude_routes) []) (lit "n") = Ok h' /\
    h_sandboxes h' !! lit "box" = Some sb /\
    (forall r, r ∈ claude_routes -> exists rt, sb_routes sb !! rt_name r = Some rt /\ r_spec rt = r) /\
    (forall name rt, sb_routes sb !! name = Some rt -> r_spec rt ∈ claude_routes /\ rt_name (r_spec rt) = name).
Proof.
  destruct claude_routes_ok as [E Hm].
  apply (Routes_register example_hkdf shipped example_yaml map_to_list ∅ [claude_policy] claude_routes empty_handler
    (MkSandboxConfig (lit "box") (lit "default") (MkRouteConfig (lit "p") <$> claude_routes) []) (lit "n") E).
  - apply forallb_true in Hm. eapply Forall_impl; [exact Hm|]. intros e He. by apply negb_true_iff.
  - vm_compute. reflexivity.
  - cbn [sc_routes]. rewrite <- list_fmap_compose. by rewrite <- (list_fmap_id claude_routes) at 2.
Defined.
