(* ===== verification/Creds.v ===== *)
(** * [internal/creds]: which credentials reach the guest

    What a run needs is read from the store once, then each binding of the
    profile is given the first value of its chain; a preview says the same
    from a listing of the store.  The store and the shell are arguments, and a
    warning is what it says rather than its text. *)

From stdpp Require Import prelude list strings gmap sorting.
From Stdlib Require Import ZArith Lia ZifyNat Ascii.
From S2P Require Import Prelude GoUnicode GoStrings RouteTypes Profile.

Local Open Scope Z_scope.

(** ** What a run forwards *)

Record Var := MkVar { va_name : gostr; va_value : gostr; va_secret : bool }.

#[export] Instance Var_eq_dec : EqDecision Var.
Proof. solve_decision. Defined.

Inductive bind_warning :=
  | Unparsable (name : gostr) (e : ref_error)
  | EmptySecret (name secret : gostr)
  | NeverResolved (name secret : gostr)
  | OnDenylist (name profile : gostr)
  | LooksUnresolved (name : gostr) (scheme : option gostr).

(** [Set]. *)
Record VarSet := MkVarSet { vs_vars : list Var; vs_names : list gostr; vs_warnings : list bind_warning }.

Definition report_as (name reportAs : gostr) : gostr := if bool_decide (reportAs = []) then name else reportAs.

(** [Set.Add], [Set.AddSecret] and [Set.AddPlumbing]. *)
Definition set_Add (s : VarSet) (name value reportAs : gostr) : VarSet :=
  MkVarSet (vs_vars s ++ [MkVar name value false]) (vs_names s ++ [report_as name reportAs]) (vs_warnings s).
Definition set_AddSecret (s : VarSet) (name value reportAs : gostr) : VarSet :=
  MkVarSet (vs_vars s ++ [MkVar name value true]) (vs_names s ++ [report_as name reportAs]) (vs_warnings s).
Definition set_AddPlumbing (s : VarSet) (name value : gostr) : VarSet :=
  MkVarSet (vs_vars s ++ [MkVar name value false]) (vs_names s) (vs_warnings s).
Definition set_warn (s : VarSet) (w : bind_warning) : VarSet := MkVarSet (vs_vars s) (vs_names s) (vs_warnings s ++ [w]).

Definition set_Has (s : VarSet) (name : gostr) : bool := existsb (fun v => bool_decide (va_name v = name)) (vs_vars s).

Record Options := MkOptions { op_allowRefs : bool; op_allowDenied : bool }.

Definition plain_byte (c : byte) : bool :=
  let z := bz c in
  (97 <=? z) && (z <=? 122) || (48 <=? z) && (z <=? 57) || (z =? 43) || (z =? 46) || (z =? 45).

Definition plainScheme (s : gostr) : bool :=
  match s with
  | [] => false
  | c :: s' => (97 <=? bz c) && (bz c <=? 122) && forallb plain_byte s'
  end.

Definition unresolvedRef (value : gostr) : option gostr :=
  let '(scheme, rest, ok) := cut value (lit "://") in
  if negb ok || bool_decide (scheme = []) || bool_decide (rest = []) then None
  else if contains_any scheme [" "%char; zb 9] then None
  else if bool_decide (scheme = lit "http") || bool_decide (scheme = lit "https") then None
  else Some scheme.

(** The warning of a refusal, or [None]. *)
Definition admit_value (t : Profile) (name value : gostr) (fromEnv : bool) (opt : Options) : option bind_warning :=
  if Denied t name && negb (op_allowDenied opt) then Some (OnDenylist name (p_name t))
  else if fromEnv && negb (op_allowRefs opt) then
    match unresolvedRef value with
    | Some scheme => Some (LooksUnresolved name (if plainScheme scheme then Some scheme else None))
    | None => None
    end
  else None.

(** ** Bindings *)

(** Where the walk of a chain ends: at a value of the shell, at the store,
    which has the secret or not, or at nothing. *)
Inductive source_found :=
  | FromEnv (r : Ref) (value : gostr)
  | FromSecret (r : Ref) (value : gostr) (present : bool)
  | FromNowhere.

Section Bind.
Variable p : Profile.
Variable secrets : gmap gostr gostr.
Variable lookup : gostr -> option gostr.
Variable opt : Options.

Fixpoint walk_chain (refs : list gostr) : res ref_error source_found :=
  match refs with
  | [] => Ok FromNowhere
  | raw :: rest =>
    let? parsed := ParseRef raw in
    if bool_decide (rf_namespace parsed = NamespaceSecrets) then
      let v := default [] (secrets !! rf_name parsed) in
      if bool_decide (v = []) && negb (bool_decide (rest = [])) then walk_chain rest
      else Ok (FromSecret parsed v (negb (is_nil (secrets !! rf_name parsed))))
    else if bool_decide (rf_namespace parsed = NamespaceEnv) then
      match lookup (rf_name parsed) with
      | Some v => if bool_decide (v = []) then walk_chain rest else Ok (FromEnv parsed v)
      | None => walk_chain rest
      end
    else walk_chain rest
  end.

(** The body of the loop. *)
Definition bind_step (s : VarSet) (b : EnvBinding) : VarSet :=
  let found := match RefList b with [] => Ok FromNowhere | refs => walk_chain refs end in
  match found with
  | Err e => set_warn s (Unparsable (eb_name b) e)
  | Ok src =>
    let value := match src with
                 | FromEnv _ v | FromSecret _ v _ => v
                 | FromNowhere => match RefList b with [] => eb_value b | _ => [] end
                 end in
    if bool_decide (value = []) then
      match src with
      | FromSecret r _ true => set_warn s (EmptySecret (eb_name b) (rf_name r))
      | FromSecret r _ false =>
        match find_secret p (rf_name r) with Some _ => s | None => set_warn s (NeverResolved (eb_name b) (rf_name r)) end
      | _ => s
      end
    else
      match admit_value p (eb_name b) value (match src with FromEnv _ _ => true | _ => false end) opt with
      | Some warning => set_warn s warning
      | None =>
        match src with
        | FromSecret _ _ _ => set_AddSecret s (eb_name b) value (eb_name b ++ lit "(secret)")
        | _ => set_Add s (eb_name b) value (eb_name b)
        end
      end
  end.

Definition Bind (bindings : list EnvBinding) : VarSet := foldl bind_step (MkVarSet [] [] []) bindings.
End Bind.

(** ** What a run reads from the store *)

(** Why a secret has no value: [ErrNotFound], [ErrUnsupported] or another
    failure of the store. *)
Inductive reason := NotFound | Unsupported | StoreFailed (e : gostr).

Record Missing := MkMissing { mi_name : gostr; mi_required : bool; mi_importable : bool; mi_reason : reason; mi_hint : gostr; mi_create : gostr }.

Definition newMissing (d : SecretDecl) (r : reason) : Missing := MkMissing (sd_name d) (IsRequired d) (Importable d) r (HintText d) [].

(** A row of [missingBlock]: what has no value, the command that gives it one,
    and notes on it. *)
Record missing_row := MkRow { mr_left : gostr; mr_command : gostr; mr_hints : list gostr }.

Inductive resolve_warning :=
  | CouldNotRead (r : reason) (profile secret : gostr)
  | RunsWithout (profile : gostr) (count : nat) (rows : list missing_row).

Record Resolution := MkResolution { re_values : gmap gostr gostr; re_warnings : list resolve_warning }.

(** [Resolution{}]. *)
Definition no_resolution : Resolution := MkResolution ∅ [].

(** [MissingSecretsError] and [storeError]. *)
Inductive CredentialError :=
  | MissingSecrets (sandbox profile : gostr) (missing : list Missing)
  | StoreError (sandbox : gostr) (missing : list Missing) (cause : reason) (advice : gostr).

(** [MissingSecretsError.fix]: the command that supplies a secret, or what the
    store said.  [text] is the text of an error of the store. *)
Definition secret_fix (text : reason -> gostr) (profile : gostr) (m : Missing) : gostr :=
  match mi_reason m with
  | NotFound =>
    if mi_importable m then lit "import it from your host with: brig secret import " ++ profile
    else if negb (bool_decide (mi_create m = [])) then lit "create it first with: " ++ mi_create m
    else lit "create it first with: brig secret create " ++ mi_name m
  | r => lit "could not be read: " ++ text r
  end.

(** [BrokerCredentialError], and the route that the words of the broker name. *)
Record BrokerCredentialError := MkBrokerCredentialError { bc_sandbox : gostr; bc_route : gostr; bc_message : gostr }.

Definition NewBrokerCredentialError (sandbox message : gostr) : BrokerCredentialError :=
  let route :=
    match strip_prefix (lit "route ") message with
    | Some rest =>
      let '(name, _, ok) := cut rest (lit ": ") in
      if (ok : bool) && negb (contains_any name [" "%char; zb 10]) then name else []
    | None => []
    end in
  MkBrokerCredentialError sandbox route message.

Section Needed.
Variable lookup : gostr -> option gostr.

(** The loop over the chain of one binding. *)
Fixpoint wanted_of_chain (wanted : gset gostr) (refs : list gostr) : gset gostr :=
  match refs with
  | [] => wanted
  | raw :: rest =>
    match ParseRef raw with
    | Err _ => wanted_of_chain wanted rest
    | Ok r =>
      if bool_decide (rf_namespace r = NamespaceEnv) then
        match lookup (rf_name r) with
        | Some v => if bool_decide (v = []) then wanted_of_chain wanted rest else wanted
        | None => wanted_of_chain wanted rest
        end
      else wanted_of_chain ({[rf_name r]} ∪ wanted) rest
    end
  end.

Definition wanted_of_file (wanted : gset gostr) (b : FileBinding) : gset gostr :=
  match ParseRef (fb_ref b) with
  | Ok r => if bool_decide (rf_namespace r = NamespaceSecrets) then {[rf_name r]} ∪ wanted else wanted
  | Err _ => wanted
  end.

Definition Needed (p : Profile) : list SecretDecl :=
  let wanted := foldl (fun wanted b => wanted_of_chain wanted (RefList b)) ∅ (p_env p) in
  let wanted := foldl wanted_of_file wanted (p_files p) in
  foldl (fun out d => if IsRequired d || bool_decide (sd_name d ∈ wanted) then out ++ [d] else out) [] (p_secrets p).
End Needed.

(** [missingBlock]: the row of the importable secrets stands where the first of
    them does. *)
Definition missing_names (misses : list Missing) : list gostr :=
  foldl (fun names m => if mi_importable m then names ++ [mi_name m] else names) [] misses.

Definition missing_hints (misses : list Missing) : list gostr :=
  foldl (fun hints m =>
    if negb (mi_importable m) || bool_decide (mi_hint m = []) then hints
    else if (length (missing_names misses) =? 1)%nat then hints ++ [mi_hint m]
    else hints ++ [mi_name m ++ lit ": " ++ mi_hint m]) [] misses.

Definition missingBlock (p : Profile) (misses : list Missing) : resolve_warning :=
  let rows := (foldl (fun '(rows, imported) m =>
    if negb (mi_importable m) then
      (rows ++ [MkRow (mi_name m) (lit "brig secret create " ++ mi_name m) (if bool_decide (mi_hint m = []) then [] else [mi_hint m])], imported)
    else if (imported : bool) then (rows, imported)
    else (rows ++ [MkRow (join (lit ", ") (missing_names misses)) (lit "brig secret import " ++ p_name p) (missing_hints misses)], true))
    ([], false) misses).1 in
  RunsWithout (p_name p) (length misses) rows.

Definition warnOptional (p : Profile) (misses : list Missing) : list resolve_warning :=
  let '(out, absent) := foldl (fun '(out, absent) m =>
    match mi_reason m with
    | Unsupported => (out, absent)
    | NotFound => (out, absent ++ [m])
    | StoreFailed e => (out ++ [CouldNotRead (mi_reason m) (p_name p) (mi_name m)], absent)
    end) ([], []) misses in
  match absent with [] => out | _ => missingBlock p absent :: out end.

(** [envSpelling]: the variable that a secret reaches the guest as, and
    whether its chain reads the shell first. *)
Definition names_secret (raw name : gostr) : bool :=
  match ParseRef raw with
  | Ok r => bool_decide (rf_namespace r = NamespaceSecrets) && bool_decide (rf_name r = name)
  | Err _ => false
  end.

Fixpoint envSpelling_loop (l : list EnvBinding) (name : gostr) : gostr * bool :=
  match l with
  | [] => ([], false)
  | b :: l' =>
    if existsb (fun raw => names_secret raw name) (RefList b) then
      match RefList b with
      | first :: _ =>
        match ParseRef first with
        | Ok r => if bool_decide (rf_namespace r = NamespaceEnv) then (rf_name r, true) else (eb_name b, false)
        | Err _ => (eb_name b, false)
        end
      | [] => (eb_name b, false)
      end
    else envSpelling_loop l' name
  end.
Definition envSpelling (p : Profile) (name : gostr) : gostr * bool := envSpelling_loop (p_env p) name.

Definition storeAdvice (p : Profile) (missing : list Missing) (cause : reason) : gostr :=
  match cause with
  | Unsupported =>
    let '(exportable, storeOnly, suggestions) := foldl (fun '(exportable, storeOnly, suggestions) m =>
      let '(variable, first) := envSpelling p (mi_name m) in
      if bool_decide (variable = []) then (exportable, storeOnly, suggestions)
      else if (first : bool) then (exportable ++ [variable], storeOnly, suggestions)
      else (exportable, storeOnly ++ [mi_name m],
            suggestions ++ [lit "`refs: [" ++ NamespaceEnv ++ lit "." ++ variable ++ lit ", " ++ NamespaceSecrets ++ lit "." ++ mi_name m ++ lit "]`"]))
      ([], [], []) missing in
    let out := match exportable with
               | [] => []
               | _ => [lit "Export " ++ join (lit ", ") exportable ++ lit " before running brig, which this profile reads first"]
               end ++
               match storeOnly with
               | [] => []
               | _ => [lit "This profile reads " ++ join (lit ", ") storeOnly ++
                       lit " only from the store, so run it on macOS, or add " ++ join (lit ", ") suggestions ++ lit " to its env binding"]
               end in
    match out with [] => [] | _ => join (lit ". ") out ++ lit "." end
  | _ => []
  end.

(** The misses of [needed] for one reason, in two lists. *)
Definition split_misses (misses : list Missing) : list Missing * list Missing :=
  foldl (fun '(required, optional) m => if mi_required m then (required ++ [m], optional) else (required, optional ++ [m])) ([], []) misses.

Definition unavailable (p : Profile) (sandbox : gostr) (needed : list SecretDecl) (err : reason) : res CredentialError Resolution :=
  let '(required, optional) := split_misses ((fun d => newMissing d err) <$> needed) in
  if (0 <? length required)%nat then Err (StoreError sandbox required err (storeAdvice p required err))
  else Ok (MkResolution ∅ (warnOptional p optional)).

(** The read loop of [ResolveSecrets]: the values and the misses. *)
Definition read_step (store : gostr -> res reason gostr) (st : gmap gostr gostr * list Missing) (d : SecretDecl) : gmap gostr gostr * list Missing :=
  match store (sd_name d) with
  | Ok value => (<[sd_name d := value]> st.1, st.2)
  | Err e => (st.1, st.2 ++ [newMissing d e])
  end.

Definition ResolveSecrets (p : Profile) (sandbox : gostr) (open : res reason (gostr -> res reason gostr)) (lookup : gostr -> option gostr)
    : res CredentialError Resolution :=
  match Needed lookup p with
  | [] => Ok no_resolution
  | needed =>
    match open with
    | Err e => unavailable p sandbox needed e
    | Ok store =>
      let '(values, misses) := foldl (read_step store) (∅, []) needed in
      let '(missing, optional) := split_misses misses in
      if (0 <? length missing)%nat then Err (MissingSecrets sandbox (p_name p) missing)
      else Ok (MkResolution values (warnOptional p optional))
    end
  end.

(** ** The preview of a run *)

Definition DeliveryEnv : gostr := lit "env".
Definition DeliveryFile : gostr := lit "file".
Definition DeliveryNone : gostr := lit "none".
Definition SourceEnvironment : gostr := lit "environment".
Definition SourceSecret : gostr := lit "secret".

Inductive planned_state := Resolved_ | Unresolved | Withheld | Unknown.

Inductive planned_reason :=
  | NoReason
  | BadRef (e : ref_error)
  | Guarded (w : bind_warning)
  | NotStored (secret : gostr)
  | NotListed
  | NoSource.

Record Planned := MkPlanned {
  pl_name : gostr; pl_delivery : gostr; pl_source : gostr; pl_secret : gostr; pl_required : bool;
  pl_state : planned_state; pl_reason : planned_reason }.

(** [required]. *)
Definition required_secret (p : Profile) (name : gostr) : bool :=
  match find_secret p name with Some d => IsRequired d | None => false end.

Section Preview.
Variable p : Profile.
(** What a listing of the store says of a name: [None] when it did not answer. *)
Variable stored : gostr -> option bool.
Variable lookup : gostr -> option gostr.
Variable opt : Options.

(** The walk of one chain, over the row so far and whether a listing failed. *)
Fixpoint preview_chain (c : Planned) (unlisted : bool) (refs : list gostr) : Planned * bool :=
  match refs with
  | [] => (c, unlisted)
  | raw :: rest =>
    match ParseRef raw with
    | Err e => (MkPlanned (pl_name c) (pl_delivery c) (pl_source c) [] false (pl_state c) (BadRef e), false)
    | Ok r =>
      if bool_decide (rf_namespace r = NamespaceEnv) then
        match lookup (rf_name r) with
        | Some v =>
          if bool_decide (v = []) then preview_chain c unlisted rest
          else
            let '(st, why) := match admit_value p (pl_name c) v true opt with Some w => (Withheld, Guarded w) | None => (Resolved_, pl_reason c) end in
            (MkPlanned (pl_name c) (pl_delivery c) SourceEnvironment [] false st why, unlisted)
        | None => preview_chain c unlisted rest
        end
      else
        let c := MkPlanned (pl_name c) (pl_delivery c) (pl_source c) (rf_name r) (required_secret p (rf_name r)) (pl_state c) (pl_reason c) in
        match stored (rf_name r) with
        | None => preview_chain c true rest
        | Some false =>
          let why := match rest with [] => NotStored (rf_name r) | _ => pl_reason c end in
          preview_chain (MkPlanned (pl_name c) (pl_delivery c) (pl_source c) (pl_secret c) (pl_required c) (pl_state c) why) unlisted rest
        | Some true =>
          let '(st, why) := match admit_value p (pl_name c) [] false opt with Some w => (Withheld, Guarded w) | None => (Resolved_, pl_reason c) end in
          (MkPlanned (pl_name c) (pl_delivery c) SourceSecret (pl_secret c) (pl_required c) st why, unlisted)
        end
    end
  end.

Definition set_state (c : Planned) (st : planned_state) (why : planned_reason) : Planned :=
  MkPlanned (pl_name c) (pl_delivery c) (pl_source c) (pl_secret c) (pl_required c) st why.

Definition is_unresolved (c : Planned) : bool := match pl_state c with Unresolved => true | _ => false end.
Definition no_reason (c : Planned) : bool := match pl_reason c with NoReason => true | _ => false end.

Definition preview_binding (b : EnvBinding) : Planned :=
  let '(c, unlisted) := preview_chain (MkPlanned (eb_name b) DeliveryEnv [] [] false Unresolved NoReason) false (RefList b) in
  let c := if is_unresolved c && unlisted then set_state c Unknown NotListed else c in
  if is_unresolved c && no_reason c then set_state c Unresolved NoSource else c.

Definition secretRow (name delivery secretName : gostr) : Planned :=
  let '(source, st, why) := match stored secretName with
    | None => ([], Unknown, NotListed)
    | Some true => (SourceSecret, Resolved_, NoReason)
    | Some false => ([], Unresolved, NotStored secretName)
    end in
  MkPlanned name delivery source secretName (required_secret p secretName) st why.

Definition preview_env (st : list Planned * gset gostr) (b : EnvBinding) : list Planned * gset gostr :=
  match RefList b with
  | [] => st
  | _ =>
    let c := preview_binding b in
    (st.1 ++ [c], if bool_decide (pl_secret c = []) then st.2 else {[pl_secret c]} ∪ st.2)
  end.

Definition preview_file (st : list Planned * gset gostr) (b : FileBinding) : list Planned * gset gostr :=
  match ParseRef (fb_ref b) with
  | Err e => (st.1 ++ [MkPlanned (fb_path b) DeliveryFile [] [] false Unresolved (BadRef e)], st.2)
  | Ok r => (st.1 ++ [secretRow (fb_path b) DeliveryFile (rf_name r)], {[rf_name r]} ∪ st.2)
  end.

(** [Preview] before the rows are sorted by delivery and name. *)
Definition preview_rows (bindings : list EnvBinding) : list Planned :=
  let st := foldl preview_env ([], ∅) bindings in
  let st := foldl preview_file st (p_files p) in
  foldl (fun out d =>
    if IsRequired d && negb (bool_decide (sd_name d ∈ st.2)) then out ++ [secretRow (sd_name d) DeliveryNone (sd_name d)] else out)
    st.1 (p_secrets p).

Definition row_le (a b : Planned) : Prop :=
  if decide (pl_delivery a = pl_delivery b) then str_le (pl_name a) (pl_name b) else str_le (pl_delivery a) (pl_delivery b).

#[export] Instance row_le_dec : RelDecision row_le.
Proof. intros a b. unfold row_le. destruct (decide _); apply _. Defined.

Definition Preview (bindings : list EnvBinding) : list Planned := merge_sort row_le (preview_rows bindings).
End Preview.

(** ** The preview says what the run does *)

Section Agree.
Variable p : Profile.
Variable secrets : gmap gostr gostr.
Variable stored : gostr -> option bool.
Variable lookup : gostr -> option gostr.
Variable opt : Options.
(** The listing has the names whose value the run reads and finds not empty. *)
Hypothesis Hstored : forall n, stored n = Some (negb (bool_decide (default [] (secrets !! n) = []))).

(** What a row says of a value that the guards take or not. *)
Definition row_says (c : Planned) (name value : gostr) (env : bool) : Prop :=
  pl_source c = (if env then SourceEnvironment else SourceSecret) /\
  match admit_value p name value env opt with
  | Some w => pl_state c = Withheld /\ pl_reason c = Guarded w
  | None => pl_state c = Resolved_
  end.

Definition chain_agrees (name : gostr) (c : Planned) (found : res ref_error source_found) : Prop :=
  match found with
  | Ok (FromEnv _ v) => v <> [] /\ row_says c name v true
  | Ok (FromSecret _ v _) => if bool_decide (v = []) then pl_state c = Unresolved else row_says c name v false
  | Ok FromNowhere | Err _ => pl_state c = Unresolved
  end.

Lemma admitted_secret name v w : admit_value p name v false opt = admit_value p name w false opt.
Proof. reflexivity. Qed.

Lemma chains_agree refs : forall c, pl_state c = Unresolved ->
  (preview_chain p stored lookup opt c false refs).2 = false /\
  chain_agrees (pl_name c) (preview_chain p stored lookup opt c false refs).1 (walk_chain secrets lookup refs).
Proof.
  induction refs as [|raw refs IH]; intros c Hc; [done|]. cbn [preview_chain walk_chain].
  destruct (ParseRef raw) as [r|e] eqn:Er; cbn [res_bind]; [|done].
  assert (rf_namespace r = NamespaceSecrets \/ rf_namespace r = NamespaceEnv) as Hns.
  { unfold ParseRef in Er. destruct (cut raw (lit ".")) as [[ns n] ok]. destruct (negb ok); [done|]. destruct (_ || _); [done|].
    destruct (bool_decide (ns = NamespaceSecrets) || bool_decide (ns = NamespaceEnv)) eqn:E; [|done]. injection Er as <-.
    apply orb_prop in E as [E%bool_decide_eq_true|E%bool_decide_eq_true]; auto. }
  destruct Hns as [E|E]; rewrite E.
  - change (bool_decide (NamespaceSecrets = NamespaceEnv)) with false. rewrite bool_decide_true by done. rewrite Hstored.
    destruct (bool_decide_reflect (default [] (secrets !! rf_name r) = [])) as [Ev|Ev]; cbn [negb andb].
    + destruct refs as [|raw' refs].
      * cbn [bool_decide decide_rel negb]. rewrite bool_decide_true by done. cbn [negb preview_chain]. split; [done|].
        unfold chain_agrees. by rewrite Ev, bool_decide_true.
      * rewrite bool_decide_false by done. cbn [negb]. by apply (IH (MkPlanned _ _ _ _ _ _ _)).
    + unfold chain_agrees, row_says. rewrite (bool_decide_false (_ = [])) by done.
      cbn [pl_name pl_delivery pl_source pl_secret pl_required pl_state pl_reason].
      rewrite (admitted_secret (pl_name c) [] (default [] (secrets !! rf_name r))).
      destruct (admit_value p (pl_name c) _ false opt); done.
  - change (bool_decide (NamespaceEnv = NamespaceSecrets)) with false. rewrite bool_decide_true by done.
    destruct (lookup (rf_name r)) as [v|]; [|by apply IH].
    destruct (bool_decide_reflect (v = [])) as [->|Hv]; [by apply IH|]. unfold chain_agrees, row_says.
    destruct (admit_value p (pl_name c) v true opt); done.
Qed.
End Agree.

(** [brig plan] says of each binding what the run does.  With a listing
    that has the secrets whose value the run reads, a row is resolved exactly
    when the run hands the guest the variable, from the shell or as a secret
    as the row says; a row is withheld exactly when the run drops the value
    at the guard that the row names; and no row is unknown. *)
Lemma Preview_agrees (p : Profile) (secrets : gmap gostr gostr) (stored : gostr -> option bool) (lookup : gostr -> option gostr)
    (opt : Options) (s : VarSet) (b : EnvBinding)
    (Hstored : forall n, stored n = Some (negb (bool_decide (default [] (secrets !! n) = [])))) (Hb : RefList b <> []) :
  let row := preview_binding p stored lookup opt b in
  let s' := bind_step p secrets lookup opt s b in
  match pl_state row with
  | Resolved_ => exists v, v <> [] /\ vs_vars s' = vs_vars s ++ [MkVar (eb_name b) v (bool_decide (pl_source row = SourceSecret))]
  | Withheld => vs_vars s' = vs_vars s /\ exists w, pl_reason row = Guarded w /\ vs_warnings s' = vs_warnings s ++ [w]
  | Unresolved => vs_vars s' = vs_vars s
  | Unknown => False
  end.
Proof.
  cbv zeta. unfold preview_binding, bind_step.
  pose proof (chains_agree p secrets stored lookup opt Hstored (RefList b)
    (MkPlanned (eb_name b) DeliveryEnv [] [] false Unresolved NoReason) eq_refl) as [Hu Ha].
  destruct (preview_chain _ _ _ _ _ _ _) as [c u]. cbn in Hu. subst u. cbn [fst pl_name] in Ha. rewrite andb_false_r.
  destruct (RefList b) as [|raw refs] eqn:El; [done|]. rewrite <- El in *. clear Hb.
  destruct (walk_chain secrets lookup (RefList b)) as [[r v|r v pr|]|e]; cbn [chain_agrees] in Ha.
  - destruct Ha as [Hv [Hs Ha]]. rewrite (bool_decide_false (v = [])) by done. destruct (admit_value p (eb_name b) v true opt) as [w|].
    + destruct Ha as [Ha Hr]. unfold is_unresolved. rewrite Ha. cbn [andb]. rewrite Ha. split; [done|]. by exists w.
    + unfold is_unresolved. rewrite Ha. cbn [andb]. rewrite Ha, Hs. exists v. split; [done|]. by rewrite bool_decide_false.
  - destruct (bool_decide_reflect (v = [])) as [->|Hv].
    + assert (vs_vars (if pr then set_warn s (EmptySecret (eb_name b) (rf_name r)) else
        match find_secret p (rf_name r) with Some _ => s | None => set_warn s (NeverResolved (eb_name b) (rf_name r)) end) = vs_vars s) as HV
        by (destruct pr; [done|]; by destruct (find_secret p (rf_name r))).
      unfold is_unresolved. rewrite Ha. cbn [andb]. destruct (no_reason c); cbn [set_state pl_state]; [|rewrite Ha];
        (destruct pr; [done|]; by destruct (find_secret p (rf_name r))).
    + destruct Ha as [Hs Ha]. destruct (admit_value p (eb_name b) v false opt) as [w|].
      * destruct Ha as [Ha Hr]. unfold is_unresolved. rewrite Ha. cbn [andb]. rewrite Ha. split; [done|]. by exists w.
      * unfold is_unresolved. rewrite Ha. cbn [andb]. rewrite Ha, Hs. exists v. split; [done|]. by rewrite bool_decide_true.
  - unfold is_unresolved. rewrite Ha. cbn [andb].
    rewrite bool_decide_true by done. destruct (no_reason c); cbn [set_state pl_state]; [done|by rewrite Ha].
  - unfold is_unresolved. rewrite Ha. cbn [andb]. destruct (no_reason c); cbn [set_state pl_state]; [done|by rewrite Ha].
Qed.

(** ** What is read, and what it is read for *)

Lemma wanted_files_elem l w n : n ∈ foldl wanted_of_file w l <->
  n ∈ w \/ exists b r, b ∈ l /\ ParseRef (fb_ref b) = Ok r /\ rf_namespace r = NamespaceSecrets /\ rf_name r = n.
Proof.
  revert w. induction l as [|b l IH]; intros w; cbn [foldl].
  - split; [by left|]. by intros [?|(b & r & ?%elem_of_nil & _)].
  - rewrite IH. unfold wanted_of_file. split.
    + intros [Hin|(b' & r & Hb & ?)]; [|right; exists b', r; split; [by right|done]].
      destruct (ParseRef (fb_ref b)) as [r|] eqn:Er; [|by left]. case_bool_decide as Hn; [|by left].
      apply elem_of_union in Hin as [->%elem_of_singleton|?]; [|by left]. right. exists b, r. split; [by left|done].
    + intros [Hin|(b' & r & [->|Hb]%elem_of_cons & Hr & Hns & Hn)].
      * left. destruct (ParseRef (fb_ref b)); [|done]. case_bool_decide; set_solver.
      * left. rewrite Hr, bool_decide_true by done. set_solver.
      * right. by exists b', r.
Qed.

Section Wanted.
Variable lookup : gostr -> option gostr.

Lemma wanted_of_chain_acc refs : forall w, wanted_of_chain lookup w refs = wanted_of_chain lookup ∅ refs ∪ w.
Proof.
  induction refs as [|raw refs IH]; intros w; cbn [wanted_of_chain]; [set_solver|].
  destruct (ParseRef raw) as [r|e]; [|apply IH]. case_bool_decide.
  - destruct (lookup (rf_name r)) as [v|]; [|apply IH]. case_bool_decide; [apply IH|set_solver].
  - rewrite (IH ({[rf_name r]} ∪ w)), (IH ({[rf_name r]} ∪ ∅)). set_solver.
Qed.

(** What a chain wants it names. *)
Lemma wanted_of_chain_names refs n : n ∈ wanted_of_chain lookup ∅ refs ->
  exists raw r, raw ∈ refs /\ ParseRef raw = Ok r /\ rf_namespace r = NamespaceSecrets /\ rf_name r = n.
Proof.
  induction refs as [|raw refs IH]; cbn [wanted_of_chain]; [set_solver|].
  assert (n ∈ wanted_of_chain lookup ∅ refs ->
    exists raw' r, raw' ∈ raw :: refs /\ ParseRef raw' = Ok r /\ rf_namespace r = NamespaceSecrets /\ rf_name r = n) as Hrest.
  { intros (raw' & r & ? & ?)%IH. exists raw', r. split; [by right|done]. }
  destruct (ParseRef raw) as [r|e] eqn:Er; [|done]. case_bool_decide as Hns.
  - destruct (lookup (rf_name r)) as [v|]; [case_bool_decide; [done|set_solver]|done].
  - rewrite wanted_of_chain_acc, elem_of_union. intros [Hn|Hn]; [by apply Hrest|].
    exists raw, r. split; [by left|]. split; [done|]. split; [|set_solver]. apply ParseRef_ok in Er as (_ & Hs & _). by destruct Hs.
Qed.

Definition wanted_env (l : list EnvBinding) : gset gostr := foldl (fun wanted b => wanted_of_chain lookup wanted (RefList b)) ∅ l.

Lemma wanted_env_elem l n : n ∈ wanted_env l <-> exists b, b ∈ l /\ n ∈ wanted_of_chain lookup ∅ (RefList b).
Proof.
  unfold wanted_env. assert (forall w, n ∈ foldl (fun wanted b => wanted_of_chain lookup wanted (RefList b)) w l <->
    n ∈ w \/ exists b, b ∈ l /\ n ∈ wanted_of_chain lookup ∅ (RefList b)) as ->; [|set_solver].
  induction l as [|b l IH]; intros w; cbn [foldl].
  - split; [by left|]. by intros [?|(b & ?%elem_of_nil & _)].
  - rewrite IH, wanted_of_chain_acc, elem_of_union. split.
    + intros [[?|?]|(b' & Hb & ?)]; [right; exists b; split; [by left|done]|by left|right; exists b'; split; [by right|done]].
    + intros [?|(b' & [->|Hb]%elem_of_cons & ?)]; [by left; right|by left; left|right; by exists b'].
Qed.

Definition wanted (p : Profile) : gset gostr := foldl wanted_of_file (wanted_env (p_env p)) (p_files p).

Lemma Needed_elem p d : d ∈ Needed lookup p <-> d ∈ p_secrets p /\ (IsRequired d = true \/ sd_name d ∈ wanted p).
Proof.
  unfold Needed. fold (wanted_env (p_env p)). fold (wanted p).
  assert (forall out, foldl (fun out d => if IsRequired d || bool_decide (sd_name d ∈ wanted p) then out ++ [d] else out) out (p_secrets p) =
    out ++ filter (fun d => IsRequired d = true \/ sd_name d ∈ wanted p) (p_secrets p)) as ->.
  { induction (p_secrets p) as [|x l IH]; intros out; [by rewrite app_nil_r|]. cbn [foldl].
    destruct (IsRequired x || bool_decide (sd_name x ∈ wanted p)) eqn:Ex; rewrite IH.
    - rewrite filter_cons_True; [by rewrite <- app_assoc|]. apply orb_prop in Ex as [?|?%bool_decide_eq_true]; auto.
    - rewrite filter_cons_False; [done|]. apply orb_false_iff in Ex as [Ex ?%bool_decide_eq_false]. rewrite Ex. by intros [?|?]. }
  cbn [app]. rewrite list_elem_of_filter. tauto.
Qed.

(** The walk of a chain looks up what the run wants, and nothing else. *)
Lemma walk_chain_wanted (m1 m2 : gmap gostr gostr) refs :
  (forall n, n ∈ wanted_of_chain lookup ∅ refs -> m1 !! n = m2 !! n) -> walk_chain m1 lookup refs = walk_chain m2 lookup refs.
Proof.
  induction refs as [|raw refs IH]; intros H; [done|]. cbn [walk_chain wanted_of_chain] in *.
  destruct (ParseRef raw) as [r|e]; [|done]. cbn [res_bind].
  destruct (bool_decide_reflect (rf_namespace r = NamespaceSecrets)) as [E|E].
  - rewrite E in H. change (bool_decide (NamespaceSecrets = NamespaceEnv)) with false in H. cbn beta iota in H.
    rewrite wanted_of_chain_acc in H. rewrite (H (rf_name r)) by set_solver. rewrite IH; [done|]. intros n Hn. apply H. set_solver.
  - case_bool_decide.
    + destruct (lookup (rf_name r)) as [v|]; [|by apply IH]. case_bool_decide; [by apply IH|done].
    + apply IH. intros n Hn. apply H. rewrite wanted_of_chain_acc. set_solver.
Qed.

Lemma Bind_wanted (p : Profile) (opt : Options) (m1 m2 : gmap gostr gostr) (l : list EnvBinding) : (forall n, n ∈ wanted_env l -> m1 !! n = m2 !! n) ->
  Bind p m1 lookup opt l = Bind p m2 lookup opt l.
Proof.
  intros H. unfold Bind. generalize (MkVarSet [] [] []). assert (forall b, b ∈ l -> walk_chain m1 lookup (RefList b) = walk_chain m2 lookup (RefList b)) as G.
  { intros b Hb. apply walk_chain_wanted. intros n Hn. apply H. apply wanted_env_elem. by exists b. }
  clear H. induction l as [|b l IH]; intros s; [done|]. cbn [foldl]. rewrite IH by (intros b' Hb'; apply G; by right). f_equal.
  unfold bind_step. specialize (G b ltac:(by left)). by destruct (RefList b); [|rewrite G].
Qed.
End Wanted.

(** ** Reading the store *)

(** What the store has for a name, when it can be read. *)
Definition stored_value (store : gostr -> res reason gostr) (n : gostr) : option gostr :=
  match store n with Ok v => Some v | Err _ => None end.

Lemma read_loop store l st :
  let st' := foldl (read_step store) st l in
  (forall n, st'.1 !! n = if decide (n ∈ sd_name <$> l) then match store n with Ok v => Some v | Err _ => st.1 !! n end else st.1 !! n) /\
  st'.2 = st.2 ++ (l ≫= fun d => match store (sd_name d) with Ok _ => [] | Err e => [newMissing d e] end).
Proof.
  cbv zeta. revert st. induction l as [|d l IH]; intros st; [by rewrite app_nil_r|]. cbn [foldl]. destruct (IH (read_step store st d)) as [H1 H2].
  split.
  - intros n. rewrite H1. unfold read_step. cbn [fmap list_fmap]. destruct (decide (n ∈ sd_name <$> l)) as [Hin|Hin].
    + rewrite decide_True by by right. destruct (store n) eqn:En; [done|]. destruct (store (sd_name d)) eqn:Ed; [|done]. cbn.
      rewrite lookup_insert_ne; [done|]. congruence.
    + destruct (decide (n = sd_name d)) as [->|Hne].
      * rewrite decide_True by by left. destruct (store (sd_name d)); cbn [fst]; [by rewrite lookup_insert_eq|done].
      * rewrite decide_False by (by intros [?|?]%elem_of_cons). destruct (store (sd_name d)); cbn [fst]; [by rewrite lookup_insert_ne|done].
  - rewrite H2. unfold read_step. cbn [mbind list_bind]. destruct (store (sd_name d)); [done|]. cbn [snd]. by rewrite <- app_assoc.
Qed.

Lemma split_misses_eq l : split_misses l = (filter (fun m => mi_required m = true) l, filter (fun m => mi_required m <> true) l).
Proof.
  unfold split_misses. assert (forall a b, foldl (fun '(required, optional) m => if mi_required m then (required ++ [m], optional) else (required, optional ++ [m])) (a, b) l =
    (a ++ filter (fun m => mi_required m = true) l, b ++ filter (fun m => mi_required m <> true) l)) as ->; [|done].
  induction l as [|m l IH]; intros a b; [by rewrite !app_nil_r|]. cbn [foldl]. destruct (mi_required m) eqn:E; rewrite IH.
  - rewrite filter_cons_True, filter_cons_False, <- app_assoc by (done || intros H; by apply H). done.
  - rewrite filter_cons_False, filter_cons_True, <- app_assoc by (congruence || intros H; congruence). done.
Qed.

Lemma secrets_cases (p : Profile) (sandbox : gostr) (store : gostr -> res reason gostr) (lookup : gostr -> option gostr) :
  let needed := Needed lookup p in
  let misses := needed ≫= fun d => match store (sd_name d) with Ok _ => [] | Err e => [newMissing d e] end in
  let required := filter (fun m => mi_required m = true) misses in
  match ResolveSecrets p sandbox (Ok store) lookup with
  | Ok res => required = [] /\ forall n, re_values res !! n = if decide (n ∈ sd_name <$> needed) then stored_value store n else None
  | Err e => e = MissingSecrets sandbox (p_name p) required /\ required <> []
  end.
Proof.
  cbv zeta. unfold ResolveSecrets. destruct (Needed lookup p) as [|d l]; [done|].
  destruct (read_loop store (d :: l) (∅, [])) as [Hv Hm]. destruct (foldl (read_step store) (∅, []) (d :: l)) as [values misses].
  cbn [fst snd app] in Hv, Hm. rewrite Hm, split_misses_eq. destruct (filter (fun m => mi_required m = true) _) as [|m ms]; [|done].
  split; [done|]. intros n. cbn [re_values]. rewrite Hv. unfold stored_value. destruct (decide _); [|done]. by destruct (store n).
Qed.

(** A run reads from the store what it needs and nothing else. *)
Lemma ResolveSecrets_needed (p : Profile) (sandbox : gostr) (s1 s2 : gostr -> res reason gostr) (lookup : gostr -> option gostr) :
  (forall d, d ∈ Needed lookup p -> s1 (sd_name d) = s2 (sd_name d)) ->
  ResolveSecrets p sandbox (Ok s1) lookup = ResolveSecrets p sandbox (Ok s2) lookup.
Proof.
  intros H. unfold ResolveSecrets. assert (forall st, foldl (read_step s1) st (Needed lookup p) = foldl (read_step s2) st (Needed lookup p)) as E.
  { induction (Needed lookup p) as [|d l IH]; intros st; [done|]. cbn [foldl]. rewrite IH by (intros; apply H; by right).
    f_equal. unfold read_step. by rewrite (H d) by by left. }
  destruct (Needed lookup p); [done|]. by rewrite E.
Qed.

(** A run with a store goes on exactly when every required secret of the
    profile can be read, and then it holds the value of each of them; else it
    is refused once, with every required secret that could not be read and
    why, whatever optional secrets are missing. *)
Lemma ResolveSecrets_exact (p : Profile) (sandbox : gostr) (store : gostr -> res reason gostr) (lookup : gostr -> option gostr) :
  match ResolveSecrets p sandbox (Ok store) lookup with
  | Ok res => forall d, d ∈ p_secrets p -> IsRequired d = true -> exists v, store (sd_name d) = Ok v /\ re_values res !! sd_name d = Some v
  | Err e => exists ms, e = MissingSecrets sandbox (p_name p) ms /\ ms <> [] /\
      forall m, m ∈ ms <-> exists d r, d ∈ p_secrets p /\ IsRequired d = true /\ store (sd_name d) = Err r /\ m = newMissing d r
  end.
Proof.
  pose proof (secrets_cases p sandbox store lookup) as H. cbv zeta in H.
  assert (forall m, m ∈ filter (fun m => mi_required m = true) (Needed lookup p ≫= fun d => match store (sd_name d) with Ok _ => [] | Err e => [newMissing d e] end) <->
    exists d r, d ∈ p_secrets p /\ IsRequired d = true /\ store (sd_name d) = Err r /\ m = newMissing d r) as Hm.
  { intros m. rewrite list_elem_of_filter, list_elem_of_bind. split.
    - intros (Hr & d & Hin & Hd%Needed_elem). destruct (store (sd_name d)) as [|r] eqn:Es; [by apply elem_of_nil in Hin|].
      apply list_elem_of_singleton in Hin as ->. exists d, r. by destruct Hd.
    - intros (d & r & Hd & Hr & Es & ->). split; [done|]. exists d. rewrite Es. split; [by left|]. apply Needed_elem. auto. }
  destruct (ResolveSecrets p sandbox (Ok store) lookup) as [res|e].
  - destruct H as [Hnone Hv]. intros d Hd Hr. rewrite Hv, decide_True.
    2:{ apply list_elem_of_fmap. exists d. split; [done|]. apply Needed_elem. auto. }
    unfold stored_value. destruct (store (sd_name d)) as [v|r] eqn:Es; [by exists v|]. exfalso.
    assert (newMissing d r ∈ @nil Missing) as Hin by (rewrite <- Hnone; apply Hm; by exists d, r). by apply elem_of_nil in Hin.
  - destruct H as [-> Hne]. eexists. split_and!; [done|done|exact Hm].
Qed.

(** What a run does not read it does not miss.  For a profile that
    validates, the bindings of the profile give the guest the same variables
    and warnings from the secrets that the run read as from the whole store,
    although no secret is read whose binding the shell already answers. *)
Lemma resolution_enough (p : Profile) (sandbox : gostr) (store : gostr -> res reason gostr) (lookup : gostr -> option gostr)
    (opt : Options) (all : gmap gostr gostr) (res : Resolution)
    (Hv : Validate p = Ok tt) (Hall : forall n, all !! n = stored_value store n)
    (Hr : ResolveSecrets p sandbox (Ok store) lookup = Ok res) :
  Bind p (re_values res) lookup opt (p_env p) = Bind p all lookup opt (p_env p).
Proof.
  pose proof (secrets_cases p sandbox store lookup) as H. cbv zeta in H. rewrite Hr in H. destruct H as [_ Hvals].
  apply Bind_wanted. intros n Hn. rewrite Hvals, Hall. destruct (decide _) as [|Hno]; [done|]. exfalso. apply Hno.
  pose proof Hn as (b & Hb & Hc)%wanted_env_elem. destruct (Validate_env_refs p Hv b Hb n) as (d & Hd & <-).
  - by apply (wanted_of_chain_names lookup).
  - apply list_elem_of_fmap. exists d. split; [done|]. apply Needed_elem. split; [done|]. right. unfold wanted. apply wanted_files_elem. by left.
Qed.

(** ** A run *)

Definition example_store (n : gostr) : res reason gostr :=
  if bool_decide (n = lit "gh-token") then Ok (lit "ghp_x") else Err NotFound.
Definition example_shell (n : gostr) : option gostr := None.
Definition example_all : gmap gostr gostr := {[lit "gh-token" := lit "ghp_x"]}.

Lemma example_all_stored n : example_all !! n = stored_value example_store n.
Proof.
  unfold example_all, stored_value, example_store. destruct (decide (lit "gh-token" = n)) as [<-|Hne].
  - by rewrite lookup_singleton_eq, bool_decide_true.
  - by rewrite lookup_singleton_ne, bool_decide_false by congruence.
Qed.

Example resolution_enough_witness : exists res,
  ResolveSecrets example_profile (lit "brig-x") (Ok example_store) example_shell = Ok res /\
  vs_names (Bind example_profile (re_values res) example_shell (MkOptions false false) (p_env example_profile))
    = [lit "IS_SANDBOX"; lit "CLAUDE_CONFIG_DIR"; lit "GH_TOKEN(secret)"].
Proof.
  destruct (ResolveSecrets example_profile (lit "brig-x") (Ok example_store) example_shell) as [res|e] eqn:Hr.
  2:{ exfalso. assert (is_ok (ResolveSecrets example_profile (lit "brig-x") (Ok example_store) example_shell) = true) as H
        by (vm_compute; reflexivity). rewrite Hr in H. discriminate H. }
  exists res. split; [reflexivity|].
  assert (Hv : Validate example_profile = Ok tt) by (vm_compute; reflexivity).
  rewrite (resolution_enough example_profile (lit "brig-x") example_store example_shell (MkOptions false false) example_all res
             Hv example_all_stored Hr).
  vm_compute. reflexivity.
Defined.

Example Preview_agrees_witness :
  let b := MkEnvBinding (lit "GH_TOKEN") [] [] [lit "env.GH_TOKEN"; lit "secrets.gh-token"] in
  let stored n := Some (negb (bool_decide (default [] (example_all !! n) = []))) in
  (pl_state (preview_binding example_profile stored example_shell (MkOptions false false) b) = Resolved_) /\
  exists v, v <> [] /\ vs_vars (bind_step example_profile example_all example_shell (MkOptions false false) (MkVarSet [] [] []) b)
    = [MkVar (lit "GH_TOKEN") v true].
Proof.
  cbv zeta. set (b := MkEnvBinding (lit "GH_TOKEN") [] [] [lit "env.GH_TOKEN"; lit "secrets.gh-token"]).
  assert (Hb : RefList b <> []) by (vm_compute; discriminate).
  pose proof (Preview_agrees example_profile example_all (fun n => Some (negb (bool_decide (default [] (example_all !! n) = []))))
    example_shell (MkOptions false false) (MkVarSet [] [] []) b (fun n => eq_refl) Hb) as H. cbv zeta in H.
  assert (pl_state (preview_binding example_profile (fun n => Some (negb (bool_decide (default [] (example_all !! n) = [])))) example_shell
    (MkOptions false false) b) = Resolved_) as Hs by (vm_compute; reflexivity).
  assert (bool_decide (pl_source (preview_binding example_profile (fun n => Some (negb (bool_decide (default [] (example_all !! n) = [])))) example_shell
    (MkOptions false false) b) = SourceSecret) = true) as Hsrc by (vm_compute; reflexivity).
  rewrite Hs in H. rewrite Hsrc in H. split; [exact Hs|]. exact H.
Defined.
