(* ===== verification/Attach.v ===== *)
(** * [internal/policy/attachments.go], [effective.go], [bindings.go] and [coverage.go]

    What binds a policy to a run: the list of a profile, and the record of what
    was attached to a profile or to one of its sessions.  The file of the
    record is read by the YAML library, so what it holds is an argument. *)

From stdpp Require Import prelude list strings gmap sorting.
From Stdlib Require Import ZArith Lia ZifyNat Ascii.
From S2P Require Import Prelude GoUnicode GoStrings RouteTypes Profile.

(** ** The record *)

(** A map of Go that may be nil; reading a nil map is reading an empty one. *)
Notation gmaybe A := (option (gmap gostr A)) (only parsing).

Record Attachments := MkAttachments {
  at_profiles : gmaybe (list gostr);
  at_sessions : gmaybe (gmaybe (list gostr)) }.

Definition get {A} (m : gmaybe A) (k : gostr) : option A := m ≫= lookup k.
Definition names_of (o : option (list gostr)) : list gostr := default [] o.

(** What the record attaches to a profile, and to a session. *)
Definition profile_names (a : Attachments) (profile : gostr) : list gostr := names_of (get (at_profiles a) profile).
Definition session_names (a : Attachments) (profile session : gostr) : list gostr :=
  names_of (get (default None (get (at_sessions a) profile)) session).

Fixpoint addOnce_loop (l names : list gostr) (name : gostr) : list gostr :=
  match l with
  | [] => names ++ [name]
  | n :: l' => if bool_decide (n = name) then names else addOnce_loop l' names name
  end.
Definition addOnce (names : list gostr) (name : gostr) : list gostr := addOnce_loop names names name.

Definition remove (names : list gostr) (name : gostr) : list gostr * bool :=
  foldl (fun '(out, removed) n => if bool_decide (n = name) then (out, true) else (out ++ [n], removed)) ([], false) names.

Definition AttachToProfile (name profile : gostr) (a : Attachments) : Attachments :=
  let m := default ∅ (at_profiles a) in
  MkAttachments (Some (<[profile := addOnce (names_of (m !! profile)) name]> m)) (at_sessions a).

(** Stores the list, and deletes the key when nothing is left. *)
Definition put_names (k : gostr) (names : list gostr) (m : gmap gostr (list gostr)) : gmap gostr (list gostr) :=
  let m := <[k := names]> m in
  if (length (names_of (m !! k)) =? 0)%nat then delete k m else m.

Definition DetachFromProfile (name profile : gostr) (a : Attachments) : Attachments * bool :=
  match at_profiles a with
  | None => (a, false)
  | Some m =>
    let '(names, removed) := remove (names_of (m !! profile)) name in
    (MkAttachments (Some (put_names profile names m)) (at_sessions a), removed)
  end.

Definition AttachToSession (name profile session : gostr) (a : Attachments) : Attachments :=
  let m := default ∅ (at_sessions a) in
  let inner := default ∅ (default None (m !! profile)) in
  MkAttachments (at_profiles a)
    (Some (<[profile := Some (<[session := addOnce (names_of (inner !! session)) name]> inner)]> m)).

Definition DetachFromSession (name profile session : gostr) (a : Attachments) : Attachments * bool :=
  match at_sessions a, default None (get (at_sessions a) profile) with
  | Some m, Some inner =>
    let '(names, removed) := remove (names_of (inner !! session)) name in
    let inner := put_names session names inner in
    let m := <[profile := Some inner]> m in
    (MkAttachments (at_profiles a) (Some (if bool_decide (inner = ∅) then delete profile m else m)), removed)
  | _, _ => (a, false)
  end.

(** ** What a run is bound to *)

(** The loop over one list: a name already seen is not repeated. *)
Definition add_names (st : list gostr * gset gostr) (l : list gostr) : list gostr * gset gostr :=
  foldl (fun '(names, seen) name => if decide (name ∈ seen) then (names, seen) else (names ++ [name], {[name]} ∪ seen)) st l.

Definition EffectivePolicies {E : Type} (loaded : res E Attachments) (p : Profile) (session : gostr) : res E (list gostr) :=
  let? a := loaded in
  let st := add_names ([], ∅) (p_policy p) in
  let st := add_names st (profile_names a (p_name p)) in
  Ok (if bool_decide (session = []) then st else add_names st (session_names a (p_name p) session)).1.

Inductive coverage_error := CoverShell (name : gostr) | CoverGUI (name : gostr).

Definition CheckCoverage (p : Profile) : res coverage_error unit :=
  if IsShell p then Err (CoverShell (p_name p)) else if IsGUI p then Err (CoverGUI (p_name p)) else Ok tt.

(** ** What binds a policy *)

Definition InlineSuffix : gostr := lit " (inline)".
Abbreviation bindings := (gmap gostr (list gostr)) (only parsing).

Definition recordBinding (st : bindings * gset gostr) (policyName binder : gostr) : bindings * gset gostr :=
  let '(bound, seen) := st in
  if decide (policyName ∈ seen) then st
  else (<[policyName := names_of (bound !! policyName) ++ [binder]]> bound, {[policyName]} ∪ seen).

(** The loop over one source list, with its own [seen]. *)
Definition record_list (binder : gostr) (bound : bindings) (names : list gostr) : bindings :=
  (foldl (fun st name => recordBinding st name binder) (bound, ∅) names).1.

Definition name_le (p q : Profile) : Prop := str_le (p_name p) (p_name q).

#[export] Instance name_le_dec : RelDecision name_le.
Proof. intros p q. unfold name_le. apply _. Defined.

Definition sorted_keys {A} (m : gmap gostr A) : list gostr := sort_strings (map_to_list m).*1.

Definition inline_binder (p : Profile) : gostr := p_name p ++ InlineSuffix.
Definition session_binder (profile session : gostr) : gostr := profile ++ lit " -n " ++ session.

Definition Bindings {E : Type} (loaded : res E Attachments) (profiles : list Profile) : res E bindings :=
  let bound := foldl (fun bound p => record_list (inline_binder p) bound (p_policy p)) ∅ (merge_sort name_le profiles) in
  let? a := loaded in
  let bound := foldl (fun bound pr => record_list pr bound (profile_names a pr)) bound (sorted_keys (default ∅ (at_profiles a))) in
  Ok (foldl (fun bound pr =>
        foldl (fun bound s => record_list (session_binder pr s) bound (session_names a pr s)) bound
          (sorted_keys (default ∅ (default None (get (at_sessions a) pr)))))
      bound (sorted_keys (default ∅ (at_sessions a)))).

Definition Orphaned {A : Type} (bound : bindings) (entries : gmap gostr A) : list gostr :=
  sort_strings (foldl (fun orphaned x => match entries !! x.1 with Some _ => orphaned | None => orphaned ++ [x.1] end) [] (map_to_list bound)).

(** ** Attaching and detaching *)

Lemma addOnce_eq names name : addOnce names name = firsts_from names [name].
Proof.
  unfold addOnce. assert (forall l, addOnce_loop l names name = if decide (name ∈ l) then names else names ++ [name]) as ->.
  { induction l as [|n l IH]; [done|]. cbn [addOnce_loop]. destruct (bool_decide_reflect (n = name)) as [->|Hne].
    - rewrite decide_True by by left. done.
    - rewrite IH. destruct (decide (name ∈ l)); [by rewrite decide_True by by right|].
      rewrite decide_False; [done|]. by intros [->|?]%elem_of_cons. }
  done.
Qed.

Lemma remove_eq names name : remove names name = (filter (fun n => n <> name) names, bool_decide (name ∈ names)).
Proof.
  unfold remove. assert (forall out b, foldl (fun '(out, removed) n => if bool_decide (n = name) then (out, true) else (out ++ [n], removed)) (out, b) names =
    (out ++ filter (fun n => n <> name) names, b || bool_decide (name ∈ names))) as ->; [|done].
  induction names as [|n names IH]; intros out b; [by rewrite app_nil_r, orb_false_r|]. cbn [foldl].
  destruct (bool_decide_reflect (n = name)) as [->|Hne]; rewrite IH.
  - rewrite filter_cons_False by (by intros H). rewrite (bool_decide_true (name ∈ name :: names)) by by left. by rewrite orb_true_r.
  - rewrite filter_cons_True, <- app_assoc by done. f_equal. f_equal. apply bool_decide_ext. rewrite elem_of_cons. naive_solver.
Qed.

(** A list that a map of the record holds: never empty, and no name twice. *)
Definition names_ok (l : list gostr) : Prop := l <> [] /\ NoDup l.
Definition map_ok (m : gmap gostr (list gostr)) : Prop := map_Forall (fun _ => names_ok) m.
Definition record_ok (a : Attachments) : Prop :=
  map_ok (default ∅ (at_profiles a)) /\
  map_Forall (fun _ o => exists m, o = Some m /\ m <> ∅ /\ map_ok m) (default ∅ (at_sessions a)).

Lemma names_of_nodup m k : map_ok m -> NoDup (names_of (m !! k)).
Proof. intros Hm. destruct (m !! k) eqn:E; [by apply (Hm _ _ E)|constructor]. Qed.

Lemma addOnce_ok names name : NoDup names -> names_ok (addOnce names name).
Proof.
  intros Hn. rewrite addOnce_eq. split; [|by apply firsts_from_nodup].
  intros E. assert (name ∈ firsts_from names [name]) as Hin by (apply firsts_from_elem; right; by left).
  rewrite E in Hin. by apply elem_of_nil in Hin.
Qed.

Lemma map_ok_insert m k l : map_ok m -> names_ok l -> map_ok (<[k := l]> m).
Proof. intros Hm Hl. by apply map_Forall_insert_2. Qed.

Lemma put_names_lookup k names m k' :
  put_names k names m !! k' = if decide (k = k') then match names with [] => None | _ => Some names end else m !! k'.
Proof.
  unfold put_names. rewrite lookup_insert_eq. cbn [names_of default id]. destruct names as [|n l]; cbn [length Nat.eqb id].
  - destruct (decide (k = k')) as [->|Hne]; [by rewrite lookup_delete_eq|by rewrite lookup_delete_ne, lookup_insert_ne].
  - destruct (decide (k = k')) as [->|Hne]; [by rewrite lookup_insert_eq|by rewrite lookup_insert_ne].
Qed.

Lemma put_names_ok k names m : map_ok m -> NoDup names -> map_ok (put_names k names m).
Proof.
  intros Hm Hn k' l. rewrite put_names_lookup. destruct (decide (k = k')); [|by apply Hm]. destruct names; [done|]. by intros [= <-].
Qed.

Lemma remove_nodup names name : NoDup names -> NoDup (remove names name).1.
Proof. intros H. rewrite remove_eq. by apply NoDup_filter. Qed.

Lemma record_profiles a m : record_ok a -> at_profiles a = Some m -> map_ok m.
Proof. intros [H _] E. by rewrite E in H. Qed.

Lemma record_sessions a m pr inner : record_ok a -> at_sessions a = Some m -> m !! pr = Some (Some inner) -> map_ok inner.
Proof. intros [_ H] E Hl. rewrite E in H. by destruct (H _ _ Hl) as (? & [= <-] & _ & ?). Qed.

Lemma attach_profile_ok name pr a : record_ok a -> record_ok (AttachToProfile name pr a).
Proof. intros [Hp Hs]. split; [|done]. apply map_ok_insert; [done|]. by apply addOnce_ok, names_of_nodup. Qed.

Lemma detach_profile_ok name pr a : record_ok a -> record_ok (DetachFromProfile name pr a).1.
Proof.
  intros [Hp Hs]. unfold DetachFromProfile. destruct (at_profiles a) as [m|] eqn:E; [|by split; cbn [fst]; rewrite ?E].
  pose proof (remove_nodup (names_of (m !! pr)) name (names_of_nodup m pr Hp)) as Hn. destruct (remove _ name) as [names b].
  split; [|done]. by apply put_names_ok.
Qed.

Lemma attach_session_ok name pr s a : record_ok a -> record_ok (AttachToSession name pr s a).
Proof.
  intros [Hp Hs]. split; [done|]. apply map_Forall_insert_2; [|done]. eexists. split_and!; [done|by apply insert_non_empty|].
  assert (map_ok (default ∅ (default None (default ∅ (at_sessions a) !! pr)))) as Hi.
  { destruct (default ∅ (at_sessions a) !! pr) as [o|] eqn:E; [|apply map_Forall_empty]. by destruct (Hs _ _ E) as (m & -> & _ & ?). }
  apply map_ok_insert; [done|]. by apply addOnce_ok, names_of_nodup.
Qed.

Lemma detach_session_ok name pr s a : record_ok a -> record_ok (DetachFromSession name pr s a).1.
Proof.
  intros Ha. unfold DetachFromSession, get. destruct (at_sessions a) as [m|] eqn:E; [|done]. cbn [mbind option_bind].
  destruct (default None (m !! pr)) as [inner|] eqn:Ei; [|done].
  assert (m !! pr = Some (Some inner)) as El by (by destruct (m !! pr); cbn in Ei; subst).
  pose proof (record_sessions a m pr inner Ha E El) as Hi.
  pose proof (remove_nodup (names_of (inner !! s)) name (names_of_nodup inner s Hi)) as Hn. destruct (remove _ name) as [names b].
  destruct Ha as [Hp Hs]. rewrite E in Hs. split; [done|]. cbn [fst at_sessions default id]. case_bool_decide as Hz.
  - intros k o [Hne Hl]%lookup_delete_Some. rewrite lookup_insert_ne in Hl by done. by apply (Hs _ _ Hl).
  - apply map_Forall_insert_2; [|done]. eexists. split_and!; [done|done|]. by apply put_names_ok.
Qed.

Lemma profile_names_attach name pr a n pr' :
  n ∈ profile_names (AttachToProfile name pr a) pr' <-> n ∈ profile_names a pr' \/ (n = name /\ pr' = pr).
Proof.
  unfold profile_names, AttachToProfile, get. cbn [at_profiles mbind option_bind].
  assert (forall k, at_profiles a ≫= lookup k = default ∅ (at_profiles a) !! k) as -> by (intros k; by destruct (at_profiles a)).
  destruct (decide (pr' = pr)) as [->|Hne].
  - rewrite lookup_insert_eq. cbn [names_of default id]. rewrite addOnce_eq, firsts_from_elem, list_elem_of_singleton. tauto.
  - rewrite lookup_insert_ne by done. tauto.
Qed.

Lemma names_of_put names n : n ∈ names_of (match names with [] => None | _ => Some names end) <-> n ∈ names.
Proof. by destruct names. Qed.

Lemma profile_names_detach name pr a n pr' :
  n ∈ profile_names (DetachFromProfile name pr a).1 pr' <-> n ∈ profile_names a pr' /\ ~ (n = name /\ pr' = pr).
Proof.
  unfold profile_names, DetachFromProfile, get. destruct (at_profiles a) as [m|] eqn:E.
  2:{ cbn [fst]. rewrite E. cbn. rewrite elem_of_nil. tauto. }
  rewrite remove_eq. cbn [fst at_profiles mbind option_bind]. rewrite put_names_lookup. destruct (decide (pr = pr')) as [->|Hne].
  - rewrite names_of_put, list_elem_of_filter. tauto.
  - naive_solver.
Qed.

Lemma session_names_attach name pr s a n pr' s' :
  n ∈ session_names (AttachToSession name pr s a) pr' s' <-> n ∈ session_names a pr' s' \/ (n = name /\ pr' = pr /\ s' = s).
Proof.
  unfold session_names, AttachToSession, get. cbn [at_sessions mbind option_bind].
  assert (forall k, at_sessions a ≫= lookup k = default ∅ (at_sessions a) !! k) as -> by (intros k; by destruct (at_sessions a)).
  destruct (decide (pr' = pr)) as [->|Hne].
  - rewrite lookup_insert_eq. cbn [default id mbind option_bind].
    assert (default None (default ∅ (at_sessions a) !! pr) ≫= lookup s' = default ∅ (default None (default ∅ (at_sessions a) !! pr)) !! s') as ->
      by (by destruct (default None _)).
    destruct (decide (s' = s)) as [->|Hne].
    + rewrite lookup_insert_eq. cbn [names_of default id]. rewrite addOnce_eq, firsts_from_elem, list_elem_of_singleton. tauto.
    + rewrite lookup_insert_ne by done. tauto.
  - rewrite lookup_insert_ne by done. tauto.
Qed.

Lemma session_names_detach name pr s a n pr' s' :
  n ∈ session_names (DetachFromSession name pr s a).1 pr' s' <-> n ∈ session_names a pr' s' /\ ~ (n = name /\ pr' = pr /\ s' = s).
Proof.
  unfold session_names, DetachFromSession, get. destruct (at_sessions a) as [m|] eqn:E.
  2:{ cbn [fst]. rewrite E. cbn. rewrite elem_of_nil. tauto. }
  cbn [mbind option_bind]. destruct (default None (m !! pr)) as [inner|] eqn:Ei.
  2:{ cbn [fst]. rewrite E. cbn [mbind option_bind]. split; [|tauto]. intros H. split; [done|]. intros (-> & -> & ->).
      rewrite Ei in H. by apply elem_of_nil in H. }
  rewrite remove_eq. cbn [fst at_sessions mbind option_bind]. destruct (decide (pr' = pr)) as [->|Hne].
  - rewrite Ei. cbn [mbind option_bind]. case_bool_decide as Hz.
    + rewrite lookup_delete_eq. cbn. rewrite elem_of_nil. split; [done|]. intros [Hin Hn].
      assert (put_names s (filter (fun x => x <> name) (names_of (inner !! s))) inner !! s' = None) as Hl by (by rewrite Hz).
      rewrite put_names_lookup in Hl. destruct (decide (s = s')) as [->|Hs].
      * assert (n ∈ filter (fun x => x <> name) (names_of (inner !! s'))) as Hf by (apply list_elem_of_filter; tauto).
        destruct (filter _ _); [by apply elem_of_nil in Hf|done].
      * rewrite Hl in Hin. by apply elem_of_nil in Hin.
    + rewrite lookup_insert_eq. cbn [default id mbind option_bind]. rewrite put_names_lookup. destruct (decide (s = s')) as [->|Hs].
      * rewrite names_of_put, list_elem_of_filter. tauto.
      * naive_solver.
  - case_bool_decide; [rewrite lookup_delete_ne by done|]; rewrite lookup_insert_ne by done; tauto.
Qed.

Lemma detach_reports name pr s a :
  (DetachFromProfile name pr a).2 = bool_decide (name ∈ profile_names a pr) /\
  (DetachFromSession name pr s a).2 = bool_decide (name ∈ session_names a pr s).
Proof.
  unfold DetachFromProfile, DetachFromSession, profile_names, session_names, get. split.
  - destruct (at_profiles a) as [m|]; [by rewrite remove_eq|done].
  - destruct (at_sessions a) as [m|]; [|done]. cbn [mbind option_bind]. destruct (default None (m !! pr)) as [inner|]; [|done].
    by rewrite remove_eq.
Qed.

Lemma sessions_detach_profile name pr a pr' s : session_names (DetachFromProfile name pr a).1 pr' s = session_names a pr' s.
Proof. unfold DetachFromProfile. destruct (at_profiles a); [|done]. by destruct (remove _ _). Qed.

Lemma profiles_detach_session name pr s a pr' : profile_names (DetachFromSession name pr s a).1 pr' = profile_names a pr'.
Proof.
  unfold DetachFromSession. destruct (at_sessions a); [|done]. destruct (default None _); [|done]. by destruct (remove _ _).
Qed.

(** An edit of the record. *)
Inductive edit :=
  | EAttach (name profile : gostr)
  | EDetach (name profile : gostr)
  | EAttachSession (name profile session : gostr)
  | EDetachSession (name profile session : gostr).

Definition apply_edit (a : Attachments) (e : edit) : Attachments :=
  match e with
  | EAttach n pr => AttachToProfile n pr a
  | EDetach n pr => (DetachFromProfile n pr a).1
  | EAttachSession n pr s => AttachToSession n pr s a
  | EDetachSession n pr s => (DetachFromSession n pr s a).1
  end.

(** Whether [n] is attached to a profile, or to a session of it, after edits
    of a record that holds nothing: the last edit that says so decides. *)
Definition attached_step (where_ : gostr * option gostr) (n : gostr) (b : bool) (e : edit) : bool :=
  let here x pr s := bool_decide (x = n /\ where_ = (pr, s)) in
  match e with
  | EAttach x pr => b || here x pr None
  | EDetach x pr => b && negb (here x pr None)
  | EAttachSession x pr s => b || here x pr (Some s)
  | EDetachSession x pr s => b && negb (here x pr (Some s))
  end.

Definition names_at (a : Attachments) (where_ : gostr * option gostr) : list gostr :=
  match where_.2 with None => profile_names a where_.1 | Some s => session_names a where_.1 s end.

Definition no_attachments : Attachments := MkAttachments None None.

(** After any sequence of attaches and detaches, a policy is attached to a
    profile or to a session exactly when the last edit of the two together
    attached it, whatever was done to others; no list of the record is empty
    or names a policy twice; and a detach reports whether it removed one. *)
Lemma edits_exact (edits : list edit) :
  let a := foldl apply_edit no_attachments edits in
  record_ok a /\
  (forall w n, n ∈ names_at a w <-> foldl (attached_step w n) false edits = true) /\
  (forall n pr s, (DetachFromProfile n pr a).2 = bool_decide (n ∈ names_at a (pr, None)) /\
                  (DetachFromSession n pr s a).2 = bool_decide (n ∈ names_at a (pr, Some s))).
Proof.
  cbv zeta. split_and!; [| |intros n pr s; apply detach_reports].
  - induction edits as [|e edits IH] using rev_ind; [split; apply map_Forall_empty|]. rewrite foldl_app. cbn [foldl].
    destruct e; [by apply attach_profile_ok|by apply detach_profile_ok|by apply attach_session_ok|by apply detach_session_ok].
  - intros [pr o] n. induction edits as [|e edits IH] using rev_ind; [destruct o; cbn; by rewrite elem_of_nil|].
    rewrite !foldl_app. cbn [foldl]. unfold names_at in *. cbn [fst snd] in *. destruct e, o as [s|]; cbn [apply_edit attached_step];
      rewrite ?profile_names_attach, ?profile_names_detach, ?session_names_attach, ?session_names_detach,
        ?sessions_detach_profile, ?profiles_detach_session, ?orb_true_iff, ?andb_true_iff,
        ?negb_true_iff, ?bool_decide_eq_true, ?bool_decide_eq_false, ?pair_eq, ?(inj_iff Some), <- ?IH; try done; intuition (try congruence); eauto.
Qed.

(** ** What a run is bound to *)

Lemma add_names_firsts names seen l : (forall x, x ∈ seen <-> x ∈ names) ->
  (add_names (names, seen) l).1 = firsts_from names l /\ (forall x, x ∈ (add_names (names, seen) l).2 <-> x ∈ firsts_from names l).
Proof.
  revert names seen. induction l as [|y l IH]; intros names seen H; [done|]. cbn [add_names foldl]. change (firsts_from names (y :: l)) with
    (firsts_from (if decide (y ∈ names) then names else names ++ [y]) l).
  destruct (decide (y ∈ seen)) as [Hy|Hy]; rewrite H in Hy.
  - rewrite decide_True by done. by apply IH.
  - rewrite decide_False by done. apply IH. intros x. rewrite elem_of_union, elem_of_singleton, elem_of_app, list_elem_of_singleton, H. tauto.
Qed.

(** The three lists of a run, one after the other. *)
Definition run_names (a : Attachments) (p : Profile) (session : gostr) : list gostr :=
  p_policy p ++ profile_names a (p_name p) ++ (if bool_decide (session = []) then [] else session_names a (p_name p) session).

Lemma EffectivePolicies_firsts {E : Type} (a : Attachments) (p : Profile) (session : gostr) :
  EffectivePolicies (E := E) (Ok a) p session = Ok (firsts (run_names a p session)).
Proof.
  unfold EffectivePolicies, run_names, firsts. cbn [res_bind].
  destruct (add_names_firsts [] ∅ (p_policy p)) as [E1 S1]; [set_solver|]. destruct (add_names ([], ∅) (p_policy p)) as [n1 s1]. cbn in E1, S1. subst n1.
  destruct (add_names_firsts _ s1 (profile_names a (p_name p)) S1) as [E2 S2].
  destruct (add_names _ (profile_names a (p_name p))) as [n2 s2]. cbn in E2, S2. subst n2.
  unfold firsts_from in *. rewrite !foldl_app. case_bool_decide; [done|].
  by destruct (add_names_firsts _ s2 (session_names a (p_name p) session) S2) as [-> _].
Qed.

(** ** What binds a policy *)

Lemma record_list_lookup binder bound names n :
  record_list binder bound names !! n = if decide (n ∈ names) then Some (names_of (bound !! n) ++ [binder]) else bound !! n.
Proof.
  unfold record_list.
  assert (forall b seen, (foldl (fun st name => recordBinding st name binder) (b, seen) names).1 !! n =
    if decide (n ∈ seen) then b !! n else if decide (n ∈ names) then Some (names_of (b !! n) ++ [binder]) else b !! n) as ->;
    [|by rewrite decide_False by set_solver].
  induction names as [|m names IH]; intros b seen.
  - cbn. rewrite (decide_False (P := n ∈ [])) by (by intros ?%elem_of_nil). by destruct (decide _).
  - cbn [foldl recordBinding]. destruct (decide (m ∈ seen)) as [Hm|Hm]; rewrite IH.
    + destruct (decide (n ∈ seen)) as [|Hn]; [done|]. assert (n ∈ m :: names <-> n ∈ names) as He
        by (rewrite elem_of_cons; split; [|by right]; intros [->|]; done).
      destruct (decide (n ∈ names)), (decide (n ∈ m :: names)); tauto.
    + destruct (decide (n = m)) as [->|Hne].
      * rewrite decide_True by set_solver. rewrite decide_False by done. rewrite decide_True by by left. by rewrite lookup_insert_eq.
      * rewrite lookup_insert_ne by done. destruct (decide (n ∈ seen)); [by rewrite decide_True by set_solver|].
        rewrite decide_False by set_solver. assert (n ∈ m :: names <-> n ∈ names) as He
          by (rewrite elem_of_cons; split; [|by right]; intros [->|]; done).
        destruct (decide (n ∈ names)), (decide (n ∈ m :: names)); tauto.
Qed.

(** What a map of binders gains: the binders of a list, in order. *)
Definition gains (b b' : bindings) (n : gostr) (l : list gostr) : Prop :=
  b' !! n = match l with [] => b !! n | _ => Some (names_of (b !! n) ++ l) end.

Lemma gains_trans b1 b2 b3 n l1 l2 : gains b1 b2 n l1 -> gains b2 b3 n l2 -> gains b1 b3 n (l1 ++ l2).
Proof.
  unfold gains. intros H1 H2. destruct l2 as [|x l2]; [by rewrite app_nil_r, H2|]. rewrite H2, H1.
  destruct l1 as [|y l1]; [done|]. cbn [names_of default id app]. by rewrite <- app_assoc.
Qed.

Lemma gains_loop {A} (f : bindings -> A -> bindings) (g : A -> list gostr) n (l : list A) b :
  (forall x b, gains b (f b x) n (g x)) -> gains b (foldl f b l) n (l ≫= g).
Proof.
  intros H. revert b. induction l as [|x l IH]; intros b; [done|]. cbn [foldl mbind list_bind]. by eapply gains_trans.
Qed.

Lemma gains_record binder b names n : gains b (record_list binder b names) n (if decide (n ∈ names) then [binder] else []).
Proof. unfold gains. rewrite record_list_lookup. by destruct (decide (n ∈ names)). Qed.

(** The places that bind [n]. *)
Definition binders_of (a : Attachments) (profiles : list Profile) (n : gostr) : list gostr :=
  (merge_sort name_le profiles ≫= fun p => if decide (n ∈ p_policy p) then [inline_binder p] else []) ++
  (sorted_keys (default ∅ (at_profiles a)) ≫= fun pr => if decide (n ∈ profile_names a pr) then [pr] else []) ++
  (sorted_keys (default ∅ (at_sessions a)) ≫= fun pr =>
     sorted_keys (default ∅ (default None (get (at_sessions a) pr))) ≫= fun s =>
       if decide (n ∈ session_names a pr s) then [session_binder pr s] else []).

Lemma Bindings_binders {E : Type} (a : Attachments) (profiles : list Profile) : exists b,
  Bindings (E := E) (Ok a) profiles = Ok b /\
  forall n, b !! n = match binders_of a profiles n with [] => None | l => Some l end.
Proof.
  eexists. split; [unfold Bindings; cbn [res_bind]; done|]. intros n.
  match goal with |- ?b !! n = _ => assert (gains ∅ b n (binders_of a profiles n)) as G end.
  { unfold binders_of. rewrite app_assoc. eapply gains_trans; [eapply gains_trans|]; apply gains_loop; intros x b.
    - apply gains_record.
    - apply gains_record.
    - apply gains_loop. intros s b'. apply gains_record. }
  unfold gains in G. rewrite G. by destruct (binders_of a profiles n).
Qed.

Lemma sorted_keys_elem {A} (m : gmap gostr A) k : k ∈ sorted_keys m <-> is_Some (m !! k).
Proof.
  unfold sorted_keys. rewrite sort_strings_perm, list_elem_of_fmap. split.
  - intros ([k' x] & -> & H%elem_of_map_to_list). by exists x.
  - intros [x H]. exists (k, x). split; [done|]. by apply elem_of_map_to_list.
Qed.

Lemma profile_names_key a pr n : n ∈ profile_names a pr -> pr ∈ sorted_keys (default ∅ (at_profiles a)).
Proof.
  intros H. apply sorted_keys_elem. unfold profile_names, get in H. destruct (at_profiles a) as [m|]; [|by apply elem_of_nil in H].
  cbn in H |- *. destruct (m !! pr); [done|by apply elem_of_nil in H].
Qed.

Lemma session_names_key a pr s n : n ∈ session_names a pr s ->
  pr ∈ sorted_keys (default ∅ (at_sessions a)) /\ s ∈ sorted_keys (default ∅ (default None (get (at_sessions a) pr))).
Proof.
  unfold session_names, get. rewrite !sorted_keys_elem. destruct (at_sessions a) as [m|]; [|by intros ?%elem_of_nil]. cbn.
  destruct (m !! pr) as [[inner|]|]; cbn; [|by intros ?%elem_of_nil..].
  destruct (inner !! s); [by eauto|by intros ?%elem_of_nil].
Qed.

(** [Bindings] and [EffectivePolicies] agree.  A policy that is in force
    in a run of a profile is listed, under the profile's own list, the profile
    or the session; the listing shows a policy as unbound exactly when no
    list names it, and then it is in force in no run; and a run names no
    policy twice. *)
Lemma Bindings_effective {E : Type} (a : Attachments) (profiles : list Profile) (p : Profile) (session n : gostr) (Hp : p ∈ profiles) :
  exists b names, Bindings (E := E) (Ok a) profiles = Ok b /\ EffectivePolicies (E := E) (Ok a) p session = Ok names /\
    b !! n = match binders_of a profiles n with [] => None | l => Some l end /\
    (n ∈ names -> exists l, b !! n = Some l /\
       (inline_binder p ∈ l \/ p_name p ∈ l \/ (session <> [] /\ session_binder (p_name p) session ∈ l))) /\
    NoDup names /\
    (b !! n = None <-> (forall q, q ∈ profiles -> n ∉ p_policy q) /\ (forall pr, n ∉ profile_names a pr) /\ (forall pr s, n ∉ session_names a pr s)).
Proof.
  destruct (Bindings_binders (E := E) a profiles) as (b & Hb & Hl). exists b, (firsts (run_names a p session)).
  assert (forall x, x ∈ binders_of a profiles n -> exists l, b !! n = Some l /\ x ∈ l) as Hin.
  { intros x Hx. rewrite Hl. destruct (binders_of a profiles n); [by apply elem_of_nil in Hx|by eexists]. }
  assert (forall q, q ∈ profiles -> n ∈ p_policy q -> inline_binder q ∈ binders_of a profiles n) as H1.
  { intros q Hq Hn. apply elem_of_app. left. apply list_elem_of_bind. exists q. rewrite decide_True by done. split; [by left|].
    by rewrite merge_sort_Permutation. }
  assert (forall pr, n ∈ profile_names a pr -> pr ∈ binders_of a profiles n) as H2.
  { intros pr Hn. apply elem_of_app. right. apply elem_of_app. left. apply list_elem_of_bind. exists pr. rewrite decide_True by done.
    split; [by left|by eapply profile_names_key]. }
  assert (forall pr s, n ∈ session_names a pr s -> session_binder pr s ∈ binders_of a profiles n) as H3.
  { intros pr s Hn. destruct (session_names_key _ _ _ _ Hn) as [K1 K2]. apply elem_of_app. right. apply elem_of_app. right.
    apply list_elem_of_bind. exists pr. split; [|done]. apply list_elem_of_bind. exists s. rewrite decide_True by done. split; [by left|done]. }
  split_and!; [done|apply EffectivePolicies_firsts|done| |apply firsts_nodup|].
  - intros Hn. apply (proj1 (firsts_elem _ _)) in Hn. unfold run_names in Hn. rewrite !elem_of_app in Hn. destruct Hn as [Hn|[Hn|Hn]].
    + destruct (Hin _ (H1 _ Hp Hn)) as (l & ? & ?). exists l. auto.
    + destruct (Hin _ (H2 _ Hn)) as (l & ? & ?). exists l. auto.
    + case_bool_decide; [by apply elem_of_nil in Hn|]. destruct (Hin _ (H3 _ _ Hn)) as (l & ? & ?). exists l. auto.
  - split.
    + intros Hnone. assert (forall x, x ∉ binders_of a profiles n) as Hno by (intros x Hx; destruct (Hin _ Hx) as (l & ? & _); congruence).
      split_and!; [intros q Hq Hn; by eapply Hno, H1|intros pr Hn; by eapply Hno, H2|intros pr s Hn; by eapply Hno, H3].
    + intros (N1 & N2 & N3). rewrite Hl. destruct (binders_of a profiles n) as [|x l] eqn:El; [done|]. exfalso.
      assert (x ∈ binders_of a profiles n) as Hx by (rewrite El; by left). unfold binders_of in Hx. rewrite !elem_of_app in Hx.
      destruct Hx as [Hx|[Hx|Hx]]; apply list_elem_of_bind in Hx as (y & Hx & Hy).
      * rewrite merge_sort_Permutation in Hy. destruct (decide _) as [Hd|]; [by eapply N1|by apply elem_of_nil in Hx].
      * destruct (decide _) as [Hd|]; [by eapply N2|by apply elem_of_nil in Hx].
      * apply list_elem_of_bind in Hx as (s & Hx & _). destruct (decide _) as [Hd|]; [by eapply N3|by apply elem_of_nil in Hx].
Qed.

Definition example_attachments : Attachments :=
  foldl apply_edit no_attachments
    [EAttach (lit "base") (lit "claude-code"); EAttach (lit "base") (lit "claude-code"); EAttach (lit "old") (lit "codex");
     EAttachSession (lit "extra") (lit "claude-code") (lit "work"); EDetach (lit "old") (lit "codex")].

Example Bindings_effective_witness :
  example_profile ∈ [example_profile] /\
  EffectivePolicies (E := unit) (Ok example_attachments) example_profile (lit "work") = Ok [lit "base"; lit "extra"] /\
  exists b : bindings, b !! lit "extra" = Some [lit "claude-code -n work"] /\ b !! lit "old" = None.
Proof.
  assert (Hp : example_profile ∈ [example_profile]) by (apply elem_of_cons; left; reflexivity).
  split; [exact Hp|]. split; [vm_compute; reflexivity|].
  destruct (Bindings_effective (E := unit) example_attachments [example_profile] example_profile (lit "work") (lit "extra") Hp)
    as (b & names & Hb & _ & Hl & _).
  exists b. split; [rewrite Hl; vm_compute; reflexivity|].
  pose proof (f_equal (fun r => match r with Ok b => b !! lit "old" | Err _ => None end) Hb) as E. cbn beta iota in E.
  rewrite <- E. vm_compute. reflexivity.
Defined.
