(* ===== verification/Policies.v ===== *)
(** * [internal/policy/parse.go], [load.go] and [merge.go]: the policies of a run

    A policy file is parsed, in the envelope or in the retired flat form, and
    validated; a directory of them is loaded by name; and the policies that
    bind a run are folded into one rule set.  The YAML library and the file
    system are parameters. *)

From stdpp Require Import prelude list strings gmap sorting.
From Stdlib Require Import ZArith Lia ZifyNat Ascii.
From S2P Require Import Prelude GoUnicode GoStrings GoNum GoJson GoClean RouteTypes Profile Decode RouteValidate PolicyValidate RouteMode Expand Routes Attach.

Local Open Scope Z_scope.

(** ** One document *)

Record flatPolicy := MkFlat { fp_apiVersion : gostr; fp_name : gostr; fp_desc : gostr; fp_egress : Egress }.

Definition flatPolicy_type : gotype :=
  TStruct [tagged "APIVersion" "apiVersion" TOther; tagged "Name" "name" TOther; tagged "Desc" "desc,omitempty" TOther;
           tagged "Egress" "egress,omitempty" Egress_type].

Definition oneLine (s : gostr) : gostr :=
  join (lit " ") (foldl (fun lines line =>
    let line := trim_space line in if bool_decide (line = []) then lines else lines ++ [line]) [] (split_byte (zb 10) s)).

Inductive parse_error (E : Type) :=
  | TopError (e : E)
  | DecodeError (e : decode_error E)
  | PolicyError (e : policy_error)
  | RoutesError (e : routes_error).
Arguments TopError {E}.
Arguments DecodeError {E}.
Arguments PolicyError {E}.
Arguments RoutesError {E}.

(** What the YAML library makes of a document: of its top level as a map, of
    the stream, of its tree, and of the two types that brig decodes. *)
Record Yaml (E : Type) := MkYaml {
  ya_top : gostr -> res E (list (gostr * json));
  ya_documents : gostr -> list (res E json);
  ya_tree : gostr -> res E json;
  ya_policy : gostr -> res E Policy;
  ya_flat : gostr -> res E flatPolicy }.
Arguments ya_top {E}.
Arguments ya_documents {E}.
Arguments ya_tree {E}.
Arguments ya_policy {E}.
Arguments ya_flat {E}.

Section Policies.
Context {E : Type} (yaml : Yaml E).
Variable preset_file : gostr -> res preset_error presetFile.
Variable yaml_scalar : gostr -> option (option gostr).
Variable visit : gmap gostr gostr -> list (gostr * gostr).
Variable modes : modes_map.

Definition isFlat (blob : gostr) : res E bool :=
  let? top := ya_top yaml blob in Ok (negb (existsb (fun m => bool_decide (m.1 = lit "kind")) top)).

Definition decodeFlat (blob : gostr) : res (decode_error E) Policy :=
  let? f := UnmarshalFolded (ya_documents yaml) (ya_tree yaml) (ya_flat yaml) (TPointer flatPolicy_type) blob in
  Ok (MkPolicy (fp_apiVersion f) Kind (MkObjectMeta (fp_name f) (oneLine (fp_desc f)) None None) (MkPolicySpec (Some (fp_egress f)) None)).

(** [parse], and [Parse] without the form. *)
Definition parse (blob : gostr) : res (parse_error E) (Policy * bool) :=
  let? flat := map_err TopError (isFlat blob) in
  let? p := map_err DecodeError
    (if (flat : bool) then decodeFlat blob else Decode (ya_documents yaml) (ya_tree yaml) (ya_policy yaml) blob) in
  map_err PolicyError (policy_validate yaml_scalar visit p) ;?
  let? _ := map_err RoutesError (Routes preset_file yaml_scalar visit modes [p]) in
  Ok (p, flat).

Definition Parse (blob : gostr) : res (parse_error E) Policy := let? r := parse blob in Ok r.1.

(** ** The directory *)

(** A policy, the name of the file that it was read from, and whether that is
    in the flat form. *)
Record Entry := MkEntry { en_policy : Policy; en_file : gostr; en_flat : bool }.

Definition attachmentsBasename : gostr := lit "attachments.yaml".
Definition reservedBasenames (name : gostr) : bool := bool_decide (name = attachmentsBasename).
Definition IsReservedName (name : gostr) : bool := reservedBasenames (name ++ lit ".yaml").

Definition isPolicyFile (name : gostr) : bool :=
  if reservedBasenames name then false else mem (path_Ext name) [lit ".yaml"; lit ".yml"; lit ".json"].

Context {IO : Type}.
(** [os.ReadFile] of a name in the directory. *)
Variable readFile : gostr -> res IO gostr.

(** What [os.ReadDir] says: there is no directory, an error, or the entries
    with whether each is a directory. *)
Inductive listing := NoDir | DirError (e : IO) | Entries (l : list (gostr * bool)).

Definition readDirNames (l : list (gostr * bool)) : list gostr :=
  sort_strings (foldl (fun names e => if (e.2 : bool) then names else names ++ [e.1]) [] l).

Inductive file_error := ReadError (e : IO) | ParseError (e : parse_error E).

(** What is collected into the error: the files that do not load, and those
    that declare a name again, with the file that had declared it. *)
Record problems := MkProblems { pb_unusable : list (gostr * file_error); pb_duplicate : list (gostr * gostr * gostr) }.

Definition load_step (st : gmap gostr Entry * problems) (name : gostr) : gmap gostr Entry * problems :=
  let '(entries, pb) := st in
  if negb (isPolicyFile name) then st
  else
    match readFile name with
    | Err e => (entries, MkProblems (pb_unusable pb ++ [(name, ReadError e)]) (pb_duplicate pb))
    | Ok blob =>
      match parse blob with
      | Err e => (entries, MkProblems (pb_unusable pb ++ [(name, ParseError e)]) (pb_duplicate pb))
      | Ok (p, flat) =>
        let n := om_name (po_metadata p) in
        let dup := match entries !! n with Some prev => pb_duplicate pb ++ [(en_file prev, name, n)] | None => pb_duplicate pb end in
        (<[n := MkEntry p name flat]> entries, MkProblems (pb_unusable pb) dup)
      end
    end.

Inductive load_error := ListError (e : IO) | Problems (pb : problems).

(** The entries, which hold what did load, and the error beside them. *)
Definition LoadAll (dir : listing) : gmap gostr Entry * option load_error :=
  match dir with
  | NoDir => (∅, None)
  | DirError e => (∅, Some (ListError e))
  | Entries l =>
    let '(entries, pb) := foldl load_step (∅, MkProblems [] []) (readDirNames l) in
    (entries, match pb_unusable pb, pb_duplicate pb with [], [] => None | _, _ => Some (Problems pb) end)
  end.
End Policies.

(** ** The policies of a run *)

Inductive resolve_error (E L : Type) := RecordError (e : E) | Missing (names : list gostr) (because : option L).
Arguments RecordError {E L}.
Arguments Missing {E L}.

(** [ResolvePolicies]: [loaded] is what the record of attachments reads as,
    and [dir] what [LoadAll] returned. *)
Definition ResolvePolicies {E L : Type} (loaded : res E Attachments) (p : Profile) (session : gostr) (dir : gmap gostr Entry * option L)
    : res (resolve_error E L) (list Policy * list gostr) :=
  let? names := map_err RecordError (EffectivePolicies loaded p session) in
  match names with
  | [] => Ok ([], [])
  | _ =>
    let '(policies, missing) := foldl (fun '(policies, missing) name =>
      match dir.1 !! name with Some e => (policies ++ [en_policy e], missing) | None => (policies, missing ++ [name]) end) ([], []) names in
    if (0 <? length missing)%nat then Err (Missing (sort_strings missing) dir.2) else Ok (policies, names)
  end.

(** Go's [append] of the elements of a slice. *)
Definition append {A} (s t : slice A) : slice A := match elems t with [] => s | l => Some (elems s ++ l) end.

Definition unique (rules : slice Rule) : slice Rule :=
  if (length (elems rules) =? 0)%nat then None
  else Some (foldl (fun '(out, seen) r => if decide (r ∈ (seen : list Rule)) then (out, seen) else (out ++ [r], r :: seen)) ([], []) (elems rules)).1.

Definition dedupe (e : Egress) : Egress := MkEgress (eg_default e) (unique (eg_allow e)) (unique (eg_deny e)).

Definition no_egress : Egress := MkEgress [] None None.

Definition merge_step (merged : Egress) (p : Policy) : Egress :=
  match ps_egress (po_spec p) with
  | None => merged
  | Some e =>
    let d := if bool_decide (eg_default merged = []) then EgressAllow else eg_default merged in
    let d := if bool_decide (eg_default e = EgressDeny) then EgressDeny else d in
    MkEgress d (append (eg_allow merged) (eg_allow e)) (append (eg_deny merged) (eg_deny e))
  end.

Definition Merge (ps : list Policy) : Egress :=
  match ps with [] => no_egress | _ => dedupe (foldl merge_step no_egress ps) end.

Definition Resolve {E L : Type} (loaded : res E Attachments) (p : Profile) (session : gostr) (dir : gmap gostr Entry * option L)
    : res (resolve_error E L) (Egress * list gostr) :=
  let? r := ResolvePolicies loaded p session dir in Ok (Merge r.1, r.2).

(** ** What a directory loads as *)

Section Load.
Context {E IO : Type} (yaml : Yaml E).
Variable preset_file : gostr -> res preset_error presetFile.
Variable yaml_scalar : gostr -> option (option gostr).
Variable visit : gmap gostr gostr -> list (gostr * gostr).
Variable modes : modes_map.
Variable readFile : gostr -> res IO gostr.
Local Notation parsed := (parse yaml preset_file yaml_scalar visit modes).
Local Notation step := (load_step yaml preset_file yaml_scalar visit modes readFile).

(** What one file of the directory loads as. *)
Definition loads (name : gostr) (e : Entry) : Prop :=
  isPolicyFile name = true /\ exists blob, readFile name = Ok blob /\ parsed blob = Ok (en_policy e, en_flat e) /\ en_file e = name.

Definition declares (name n : gostr) : Prop := exists e, loads name e /\ om_name (po_metadata (en_policy e)) = n.

Lemma loads_fun name e e' : loads name e -> loads name e' -> e = e'.
Proof.
  intros (_ & b & Hr & Hp & Hf) (_ & b' & Hr' & Hp' & Hf'). destruct e, e'. cbn in *. congruence.
Qed.

Lemma parse_valid blob p flat : parsed blob = Ok (p, flat) ->
  policy_validate yaml_scalar visit p = Ok tt /\ exists rs, Routes preset_file yaml_scalar visit modes [p] = Ok rs.
Proof.
  unfold parse. intros H. apply res_bind_ok in H as (f & _ & H). apply res_bind_ok in H as (q & _ & H).
  apply seq_ok in H as [Hv%map_err_ok H]. apply res_bind_ok in H as (rs & Hr%map_err_ok & [= <- _]). split; [done|by exists rs].
Qed.

Lemma load_step_entries st name :
  (step st name).1 = st.1 /\ (forall e, ~ loads name e) \/
  exists e, loads name e /\ (step st name).1 = <[om_name (po_metadata (en_policy e)) := e]> st.1.
Proof.
  destruct st as [entries pb]. unfold load_step. destruct (isPolicyFile name) eqn:Ep; cbn [negb].
  2:{ left. split; [done|]. intros e [H _]. congruence. }
  destruct (readFile name) as [blob|e] eqn:Er.
  2:{ left. split; [done|]. intros e' (_ & b & H & _). congruence. }
  destruct (parsed blob) as [[p flat]|e] eqn:Ec.
  - right. exists (MkEntry p name flat). split; [|done]. split; [done|]. exists blob. done.
  - left. split; [done|]. intros e' (_ & b & H & Hc & _). congruence.
Qed.

(** The last file that declares a name wins. *)
Lemma load_entries l n e :
  (foldl step (∅, MkProblems [] []) l).1 !! n = Some e <->
  exists pre f post, l = pre ++ f :: post /\ loads f e /\ om_name (po_metadata (en_policy e)) = n /\ Forall (fun g => ~ declares g n) post.
Proof.
  induction l as [|f l IH] using rev_ind.
  - cbn. rewrite lookup_empty. split; [done|]. by intros ([|] & f & post & ? & _).
  - rewrite foldl_app. cbn [foldl]. set (st := foldl step _ l) in *. destruct (load_step_entries st f) as [[-> Hno]|(e' & He' & ->)].
    + rewrite IH. split.
      * intros (pre & g & post & -> & Hl & Hn & Hp). exists pre, g, (post ++ [f]). rewrite <- app_assoc. split_and!; [done..|].
        apply Forall_app. split; [done|]. constructor; [|done]. intros (e' & He' & _). by apply (Hno e').
      * intros (pre & g & post & El & Hl & Hn & Hp). destruct post as [|x post _] using rev_ind.
        { apply app_inj_tail in El as [-> ->]. by apply Hno in Hl. }
        rewrite app_comm_cons, app_assoc in El. apply app_inj_tail in El as [-> ->]. apply Forall_app in Hp as [Hp _].
        by exists pre, g, post.
    + destruct (decide (om_name (po_metadata (en_policy e')) = n)) as [<-|Hne].
      * rewrite lookup_insert_eq. split.
        -- intros [= <-]. exists l, f, []. split_and!; done.
        -- intros (pre & g & post & El & Hl & Hn & Hp). destruct post as [|x post _] using rev_ind.
           { apply app_inj_tail in El as [_ ->]. f_equal. by eapply loads_fun. }
           rewrite app_comm_cons, app_assoc in El. apply app_inj_tail in El as [_ ->].
           apply Forall_app in Hp as [_ Hp]. apply Forall_cons in Hp as [Hp _]. destruct Hp. by exists e'.
      * rewrite lookup_insert_ne by done. rewrite IH. split.
        -- intros (pre & g & post & -> & Hl & Hn & Hp). exists pre, g, (post ++ [f]). rewrite <- app_assoc. split_and!; [done..|].
           apply Forall_app. split; [done|]. constructor; [|done]. intros (e'' & He'' & Hn'').
           pose proof (loads_fun _ _ _ He' He''). congruence.
        -- intros (pre & g & post & El & Hl & Hn & Hp). destruct post as [|x post _] using rev_ind.
           { apply app_inj_tail in El as [-> ->]. pose proof (loads_fun _ _ _ He' Hl). congruence. }
           rewrite app_comm_cons, app_assoc in El. apply app_inj_tail in El as [-> ->]. apply Forall_app in Hp as [Hp _].
           by exists pre, g, post.
Qed.
End Load.

(** ** Which runs are refused *)

Lemma resolve_loop {L : Type} (dir : gmap gostr Entry * option L) names ps ms :
  foldl (fun '(policies, missing) name =>
    match dir.1 !! name with Some e => (policies ++ [en_policy e], missing) | None => (policies, missing ++ [name]) end) (ps, ms) names =
  (ps ++ omap (fun name => en_policy <$> dir.1 !! name) names, ms ++ filter (fun name => dir.1 !! name = None) names).
Proof.
  revert ps ms. induction names as [|n names IH]; intros ps ms; [by rewrite !app_nil_r|]. cbn [foldl omap list_omap].
  destruct (dir.1 !! n) as [e|] eqn:En; rewrite IH; cbn [fmap option_fmap option_map].
  - rewrite filter_cons_False by congruence. by rewrite <- app_assoc.
  - rewrite filter_cons_True by done. by rewrite <- app_assoc.
Qed.

Lemma resolve_cases {E L : Type} (loaded : res E Attachments) (p : Profile) (session : gostr) (dir : gmap gostr Entry * option L) (names : list gostr) :
  EffectivePolicies loaded p session = Ok names ->
  ResolvePolicies loaded p session dir =
    (if bool_decide (filter (fun name => dir.1 !! name = None) names = [])
     then Ok (omap (fun name => en_policy <$> dir.1 !! name) names, names)
     else Err (Missing (sort_strings (filter (fun name => dir.1 !! name = None) names)) dir.2)).
Proof.
  intros H. unfold ResolvePolicies. rewrite H. cbn [map_err res_bind]. destruct names as [|n names]; [done|].
  rewrite resolve_loop. cbn [app]. by destruct (filter _ (n :: names)).
Qed.

Lemma resolve_found {L : Type} (dir : gmap gostr Entry * option L) (names : list gostr) :
  filter (fun name => dir.1 !! name = None) names = [] ->
  Forall2 (fun n q => exists e, dir.1 !! n = Some e /\ en_policy e = q) names (omap (fun name => en_policy <$> dir.1 !! name) names).
Proof.
  induction names as [|n names IH]; intros H; [constructor|]. rewrite filter_cons in H. cbn [omap list_omap].
  destruct (decide (dir.1 !! n = None)) as [|Hn]; [done|]. destruct (dir.1 !! n) as [e|] eqn:En; [|done].
  cbn [fmap option_fmap option_map]. constructor; [by exists e|by apply IH].
Qed.

(** A run is refused for its policies exactly when a name that binds it
    did not load, whatever other files of the directory are broken.  The
    refusal names every such name once, in order, and carries the error of the
    load; else the run has the policies of all its names, in the order of
    [EffectivePolicies]. *)
Lemma ResolvePolicies_error {E L : Type} (a : Attachments) (p : Profile) (session : gostr) (dir : gmap gostr Entry * option L) :
  match ResolvePolicies (E := E) (Ok a) p session dir with
  | Ok (ps, names) =>
      EffectivePolicies (E := E) (Ok a) p session = Ok names /\
      Forall2 (fun n q => exists e, dir.1 !! n = Some e /\ en_policy e = q) names ps
  | Err (RecordError _) => False
  | Err (Missing ms because) =>
      ms <> [] /\ because = dir.2 /\ NoDup ms /\ StronglySorted str_le ms /\
      forall n, n ∈ ms <-> n ∈ run_names a p session /\ dir.1 !! n = None
  end.
Proof.
  rewrite (resolve_cases _ _ _ _ _ (EffectivePolicies_firsts a p session)). case_bool_decide as Hm.
  - split; [apply EffectivePolicies_firsts|by apply resolve_found].
  - split_and!.
    + intros E0. apply Hm. pose proof (sort_strings_perm (filter (fun name => dir.1 !! name = None) (firsts (run_names a p session)))) as P.
      rewrite E0 in P. by apply Permutation_nil_l in P.
    + done.
    + rewrite sort_strings_perm. apply NoDup_filter, firsts_nodup.
    + apply sort_strings_sorted.
    + intros n. rewrite sort_strings_perm, list_elem_of_filter, firsts_elem. tauto.
Qed.

(** C33: Every policy that a run gets is one that validates, with routes that
    expand, declares the name that binds it, and comes from the last file of
    the directory that declares that name. *)
Theorem Resolve_valid {E F IO : Type} (yaml : Yaml E) (preset_file : gostr -> res preset_error presetFile)
    (yaml_scalar : gostr -> option (option gostr)) (visit : gmap gostr gostr -> list (gostr * gostr)) (modes : modes_map)
    (readFile : gostr -> res IO gostr) (l : list (gostr * bool)) (loaded : res F Attachments) (p : Profile) (session : gostr)
    (ps : list Policy) (names : list gostr)
    (H : ResolvePolicies loaded p session (LoadAll yaml preset_file yaml_scalar visit modes readFile (Entries l)) = Ok (ps, names)) :
  Forall2 (fun n q =>
    om_name (po_metadata q) = n /\ policy_validate yaml_scalar visit q = Ok tt /\
    (exists rs, Routes preset_file yaml_scalar visit modes [q] = Ok rs) /\
    exists pre f post e, readDirNames l = pre ++ f :: post /\ en_policy e = q /\
      loads yaml preset_file yaml_scalar visit modes readFile f e /\
      Forall (fun g => ~ declares yaml preset_file yaml_scalar visit modes readFile g n) post) names ps.
Proof.
  destruct (EffectivePolicies loaded p session) as [names'|e] eqn:He; [|by unfold ResolvePolicies in H; rewrite He in H].
  rewrite (resolve_cases _ _ _ _ _ He) in H. case_bool_decide as Hm; [|done]. injection H as <- <-.
  apply resolve_found in Hm. eapply Forall2_impl; [exact Hm|]. cbv beta. intros n q (e & Hn & <-).
  unfold LoadAll in Hn. destruct (foldl _ _ (readDirNames l)) as [entries pb] eqn:Ef. cbn [fst] in Hn.
  assert ((foldl (load_step yaml preset_file yaml_scalar visit modes readFile) (∅, MkProblems [] []) (readDirNames l)).1 !! n = Some e) as Hn'
    by (by rewrite Ef).
  apply load_entries in Hn' as (pre & f & post & El & Hl & Hname & Hpost).
  pose proof Hl as (_ & blob & _ & Hparse & _). apply parse_valid in Hparse as [Hv Hr].
  split_and!; [done..|]. by exists pre, f, post, e.
Qed.

(** ** What several policies mean *)

Lemma unique_firsts rules : unique rules = match elems rules with [] => None | l => Some (firsts l) end.
Proof.
  unfold unique. destruct (elems rules) as [|r l]; [done|]. cbn [length Nat.eqb]. f_equal. unfold firsts.
  assert (forall out seen, (forall x, x ∈ (seen : list Rule) <-> x ∈ out) ->
    (foldl (fun '(out, seen) r => if decide (r ∈ (seen : list Rule)) then (out, seen) else (out ++ [r], r :: seen)) (out, seen) (r :: l)).1 =
    firsts_from out (r :: l)) as G; [|by apply G].
  generalize (r :: l). intros l0. induction l0 as [|x l0 IH]; intros out seen H; [done|]. cbn [foldl].
  change (firsts_from out (x :: l0)) with (firsts_from (if decide (x ∈ out) then out else out ++ [x]) l0).
  destruct (decide (x ∈ seen)) as [Hx|Hx]; rewrite H in Hx.
  - rewrite decide_True by done. by apply IH.
  - rewrite decide_False by done. apply IH. intros y. rewrite elem_of_cons, elem_of_app, list_elem_of_singleton, H. tauto.
Qed.

Lemma elems_unique rules : elems (unique rules) = firsts (elems rules).
Proof. rewrite unique_firsts. by destruct (elems rules). Qed.

Lemma elems_append {A} (s t : slice A) : elems (append s t) = elems s ++ elems t.
Proof. unfold append. destruct (elems t) eqn:E; [by rewrite app_nil_r|done]. Qed.

(** The egress blocks of the policies that have one. *)
Definition blocks (ps : list Policy) : list Egress := omap (fun p => ps_egress (po_spec p)) ps.

Lemma merge_loop ps m :
  let m' := foldl merge_step m ps in
  eg_default m' = (if bool_decide (blocks ps = []) then eg_default m
                   else if existsb (fun e => bool_decide (eg_default e = EgressDeny)) (blocks ps) then EgressDeny
                   else if bool_decide (eg_default m = []) then EgressAllow else eg_default m) /\
  elems (eg_allow m') = elems (eg_allow m) ++ (blocks ps ≫= fun e => elems (eg_allow e)) /\
  elems (eg_deny m') = elems (eg_deny m) ++ (blocks ps ≫= fun e => elems (eg_deny e)).
Proof.
  cbv zeta. revert m. induction ps as [|p ps IH]; intros m; [cbn; by rewrite !app_nil_r|]. cbn [foldl].
  destruct (IH (merge_step m p)) as (-> & -> & ->). unfold blocks. cbn [omap list_omap]. fold (blocks ps). unfold merge_step.
  destruct (ps_egress (po_spec p)) as [e|]; [|done]. cbn [eg_default eg_allow eg_deny mbind list_bind existsb].
  rewrite !elems_append, <- !app_assoc. split; [|done]. rewrite (bool_decide_false (e :: blocks ps = [])) by done.
  destruct (bool_decide_reflect (blocks ps = [])) as [->|_]; [cbn; by rewrite orb_false_r|].
  destruct (existsb _ (blocks ps)); [by rewrite orb_true_r|]. rewrite orb_false_r.
  destruct (bool_decide (eg_default e = EgressDeny)); [done|].
  destruct (bool_decide_reflect (eg_default m = [])) as [_|Hm]; [done|]. by rewrite bool_decide_false.
Qed.

Lemma Merge_eq ps :
  eg_default (Merge ps) = (if bool_decide (blocks ps = []) then []
                           else if existsb (fun e => bool_decide (eg_default e = EgressDeny)) (blocks ps) then EgressDeny else EgressAllow) /\
  elems (eg_allow (Merge ps)) = firsts (blocks ps ≫= fun e => elems (eg_allow e)) /\
  elems (eg_deny (Merge ps)) = firsts (blocks ps ≫= fun e => elems (eg_deny e)).
Proof.
  destruct ps as [|p ps]; [done|]. unfold Merge. set (l := p :: ps). destruct (merge_loop l no_egress) as (D & A & N).
  unfold dedupe. cbn [eg_default eg_allow eg_deny]. rewrite D, !elems_unique, A, N. done.
Qed.

(** The verdict of a rule set on a destination, where [hits] are the rules that
    describe it: a deny rule, then an allow rule, then the default. *)
Definition verdict (hits : Rule -> bool) (e : Egress) : bool :=
  if existsb hits (elems (eg_deny e)) then false
  else if existsb hits (elems (eg_allow e)) then true
  else negb (bool_decide (eg_default e = EgressDeny)).

Lemma existsb_firsts {A} `{EqDecision A} (f : A -> bool) l : existsb f (firsts l) = existsb f l.
Proof.
  apply eq_true_iff_eq. rewrite !existsb_exists. by split; intros (x & Hx & Hf); exists x; (split; [|done]);
    apply list_elem_of_In; apply list_elem_of_In in Hx; revert Hx; rewrite firsts_elem.
Qed.

Lemma existsb_blocks (f : Rule -> bool) (g : Egress -> list Rule) (l : list Egress) :
  existsb f (l ≫= g) = existsb (fun e => existsb f (g e)) l.
Proof. induction l as [|e l IH]; [done|]. cbn [mbind list_bind]. by rewrite existsb_app, IH. Qed.

(** The rule set of a run lets a destination through exactly when no
    policy of the run denies it and one allows it, or none of them is
    deny-by-default.  So the order of the policies does not matter, a policy
    with no egress block changes nothing, and no rule is listed twice. *)
Lemma Merge_verdict (hits : Rule -> bool) (ps : list Policy) :
  verdict hits (Merge ps) =
    forallb (fun e => negb (existsb hits (elems (eg_deny e)))) (blocks ps) &&
    (existsb (fun e => existsb hits (elems (eg_allow e))) (blocks ps) ||
     forallb (fun e => negb (bool_decide (eg_default e = EgressDeny))) (blocks ps)) /\
  NoDup (elems (eg_allow (Merge ps))) /\ NoDup (elems (eg_deny (Merge ps))) /\
  (eg_default (Merge ps) = [] <-> blocks ps = []).
Proof.
  destruct (Merge_eq ps) as (D & A & N). unfold verdict. rewrite D, A, N, !existsb_firsts, !existsb_blocks.
  assert (forall f, forallb (fun e : Egress => negb (f e)) (blocks ps) = negb (existsb f (blocks ps))) as Hneg.
  { intros f. clear D A N. induction (blocks ps) as [|e l IH]; [done|]. cbn [forallb existsb]. by rewrite negb_orb, IH. }
  split_and!; [|apply firsts_nodup..|].
  - rewrite (Hneg (fun e => existsb hits (elems (eg_deny e)))), (Hneg (fun e => bool_decide (eg_default e = EgressDeny))).
    destruct (existsb (fun e => existsb hits (elems (eg_deny e))) _); [done|]. cbn [negb andb].
    destruct (existsb (fun e => existsb hits (elems (eg_allow e))) _); [done|]. cbn [orb]. destruct (blocks ps) as [|e l]; [done|].
    rewrite (bool_decide_false (e :: l = [])) by done. by destruct (existsb (fun e => bool_decide (eg_default e = EgressDeny)) (e :: l)).
  - destruct (bool_decide_reflect (blocks ps = [])) as [->|Hne]; [done|]. by destruct (existsb _ _).
Qed.

(** ** The flat form *)

(** A flat document becomes an envelope with an egress block and no routes. *)
Lemma parse_flat {E : Type} (yaml : Yaml E) preset_file yaml_scalar visit modes blob p :
  parse yaml preset_file yaml_scalar visit modes blob = Ok (p, true) ->
  po_kind p = Kind /\ is_Some (ps_egress (po_spec p)) /\ ps_routes (po_spec p) = None /\ egress_validate (default no_egress (ps_egress (po_spec p))) = Ok tt.
Proof.
  intros H. pose proof H as [Hv _]%parse_valid. unfold parse in H. apply res_bind_ok in H as (flat & _ & H).
  apply res_bind_ok in H as (q & Hq%map_err_ok & H). apply seq_ok in H as [_ H]. apply res_bind_ok in H as (rs & _ & [= -> ->]).
  unfold decodeFlat in Hq. apply res_bind_ok in Hq as (f & _ & [= <-]). cbn in *. split_and!; [done|done|done|].
  unfold policy_validate in Hv. cbn in Hv. by repeat (apply seq_ok in Hv as [? Hv]).
Qed.

(** ** A run *)

(** A directory with one policy in two files, and a file that does not parse. *)
Definition example_files : list (gostr * bool) :=
  [(lit "z.yaml", false); (lit "base.yaml", false); (lit "attachments.yaml", false); (lit "old.yml", true); (lit "note.txt", false)].

Definition example_tree : json :=
  JObj [(lit "apiVersion", JStr APIVersion); (lit "kind", JStr Kind); (lit "metadata", JObj [(lit "name", JStr (lit "base"))]);
        (lit "spec", JObj [(lit "egress", JObj [(lit "default", JStr (lit "deny")); (lit "allow", JArr [JObj [(lit "host", JStr (lit "*.example.com"))]])])])].

Definition example_base : Policy :=
  MkPolicy APIVersion Kind (MkObjectMeta (lit "base") [] None None)
    (MkPolicySpec (Some (MkEgress EgressDeny (Some [MkRule (lit "*.example.com") []]) None)) None).

(** A library that reads the document [ok], and nothing else. *)
Definition example_library : Yaml unit :=
  let only {A} (a : A) (doc : gostr) : res unit A := if bool_decide (doc = lit "ok") then Ok a else Err tt in
  MkYaml unit (only [(lit "kind", JStr Kind)]) (fun doc => [only example_tree doc]) (only example_tree) (only example_base)
    (fun _ => Err tt).

Definition example_read (name : gostr) : res unit gostr :=
  Ok (if bool_decide (name = lit "z.yaml") then lit "broken" else lit "ok").

Definition example_dir := LoadAll example_library shipped example_yaml map_to_list ∅ example_read (Entries example_files).

Example Resolve_valid_witness :
  ResolvePolicies (E := unit) (Ok example_attachments) example_profile [] example_dir = Ok ([example_base], [lit "base"]) /\
  policy_validate example_yaml map_to_list example_base = Ok tt.
Proof.
  assert (H : ResolvePolicies (E := unit) (Ok example_attachments) example_profile [] example_dir = Ok ([example_base], [lit "base"]))
    by (vm_compute; reflexivity).
  split; [exact H|].
  pose proof (Resolve_valid _ _ _ _ _ _ _ _ _ _ _ _ H) as F. inversion F as [|? ? ? ? Hq _]. exact (proj1 (proj2 Hq)).
Defined.

(** The session also has a policy that no file declares. *)
Example session_refused :
  match ResolvePolicies (E := unit) (Ok example_attachments) example_profile (lit "work") example_dir with
  | Err (Missing ms _) => ms = [lit "extra"]
  | _ => False
  end.
Proof. vm_compute. reflexivity. Qed.
