(* ===== verification/GuestEnv.v ===== *)
(** * [internal/injector/endpoint.go]: what a guest is handed to use routes

    The variables of each route, with its URL and session token filled in, and
    the git configuration that sends a prefix to it.  The YAML reading of a
    route name, which [CheckRouteName] asks for, is a parameter. *)

From stdpp Require Import prelude list strings gmap sorting.
From Stdlib Require Import ZArith Lia ZifyNat Ascii.
From S2P Require Import Prelude GoUnicode GoStrings GoNum RouteTypes RouteValidate RouteMode Expand Registry Routes Profile Creds Volumes.

Local Open Scope Z_scope.

Inductive Transport := TransportBrigInternal | TransportDivert.

Definition BrigInternal : gostr := lit "brig.internal".
Definition LinkLocalAddr : gostr := lit "169.254.170.2:80".

Definition Base : gostr := lit "https://" ++ BrigInternal.
Definition route_URL (sandbox route : gostr) : gostr := Base ++ lit "/" ++ sandbox ++ lit "/r/" ++ route.
Definition LinkLocalURL (sandbox route : gostr) : gostr :=
  lit "http://" ++ (cut LinkLocalAddr (lit ":")).1.1 ++ lit "/" ++ sandbox ++ lit "/r/" ++ route.

Definition shellQuote (s : gostr) : gostr := lit "'" ++ replace_all (lit "'") (lit "'\''") s ++ lit "'".

(** An [int] of 64 bits. *)
Definition wrap64 (z : Z) : Z := (z + 2 ^ 63) mod 2 ^ 64 - 2 ^ 63.

Inductive guest_error :=
  | BadRouteName (route : gostr) (e : verror)
  | NoToken (route : gostr)
  | NotWired (route service : gostr)
  | NoRegion (route : gostr)
  | NotAPlaceholder (route name value : gostr)
  | NotACount (count : gostr).

Definition gitConfigCount (forwarded : list Var) : res guest_error Z :=
  let count := foldl (fun count v => if bool_decide (va_name v = lit "GIT_CONFIG_COUNT") then va_value v else count) [] forwarded in
  if bool_decide (count = []) then Ok 0
  else match parse_int 64 count with Some n => if n <? 0 then Err (NotACount count) else Ok n | None => Err (NotACount count) end.

Definition caEnv : list gostr := [lit "SSL_CERT_FILE"; lit "NODE_EXTRA_CA_CERTS"; lit "REQUESTS_CA_BUNDLE"; lit "GIT_SSL_CAINFO"].
Definition caFile (name : gostr) : gostr := if bool_decide (name = lit "NODE_EXTRA_CA_CERTS") then GuestCAPath else GuestCABundlePath.

Definition TokenVar (route : gostr) : gostr :=
  lit "BRIG_ROUTE_" ++ to_upper (replace_all (lit "-") (lit "_") route) ++ lit "_TOKEN".

Definition plain_var (name value : gostr) : Var := MkVar name value false.

Section GuestEnv.
Variable yaml_scalar : gostr -> option (option gostr).
Variable transport : Transport.
Variable sandbox : gostr.
Variables tokens regions : gmap gostr gostr.

Definition is_endpoint (r : Route) : bool := bool_decide (rt_mode r = []) || bool_decide (rt_mode r = ModeEndpoint).
Definition url_of (r : Route) : gostr := if Vends r then LinkLocalURL sandbox (rt_name r) else route_URL sandbox (rt_name r).

(** The loop over the services: one endpoint override each. *)
Fixpoint service_vars (route url : gostr) (l : list Service) : res guest_error (list Var) :=
  match l with
  | [] => Ok []
  | svc :: l' =>
    match GCPServicePath (sv_name svc) with
    | None => Err (NotWired route (sv_name svc))
    | Some path =>
      let? rest := service_vars route url l' in
      Ok (plain_var (GCPEndpointOverrideName (sv_name svc)) (url ++ lit "/" ++ sv_name svc ++ lit "/" ++ path) :: rest)
    end
  end.

(** The loop over the names of [guest.env], in order. *)
Definition env_var (r : Route) (token name : gostr) : res guest_error (list Var) :=
  let v := default [] (default ∅ (rt_guest r ≫= gu_env) !! name) in
  if bool_decide (v = PlaceholderRouteURL) then Ok (if is_endpoint r then [plain_var name (url_of r)] else [])
  else if bool_decide (v = PlaceholderSessionToken) then Ok [MkVar name token true]
  else if bool_decide (v = PlaceholderRouteRegion) then
    let region := default [] (regions !! rt_name r) in
    if bool_decide (region = []) then Err (NoRegion (rt_name r)) else Ok [plain_var name region]
  else Err (NotAPlaceholder (rt_name r) name v).

Fixpoint env_vars (r : Route) (token : gostr) (names : list gostr) : res guest_error (list Var) :=
  match names with
  | [] => Ok []
  | n :: names' => let? v := env_var r token n in let? rest := env_vars r token names' in Ok (v ++ rest)
  end.

(** The git configuration of a route: its prefixes and its credential helper,
    which reads the token from the environment. *)
Definition helper (user tokenVar : gostr) : gostr :=
  script "!f() { test `$1` = get || exit 0; printf '%s\n' " ++ shellQuote (lit "username=" ++ user) ++
  script " `password=$" ++ tokenVar ++ script "`; }; f".

Definition git_user (r : Route) : gostr :=
  match rt_inject r with
  | Some i => match in_basicAuth i with
              | Some b => if bool_decide (ba_username b = []) then lit "x-access-token" else ba_username b
              | None => lit "x-access-token"
              end
  | None => lit "x-access-token"
  end.

Definition git_entries (r : Route) (insteadOf : list gostr) : list (gostr * gostr) :=
  let prefix := url_of r ++ lit "/" in
  ((fun from => (lit "url." ++ prefix ++ lit ".insteadOf", from)) <$> insteadOf) ++
  [(lit "credential." ++ prefix ++ lit ".helper", []);
   (lit "credential." ++ prefix ++ lit ".helper", helper (git_user r) (TokenVar (rt_name r)))].

Record guest_state := MkGuestState { gs_vars : list Var; gs_git : list (gostr * gostr); gs_endpoints : nat; gs_gcloud : bool }.

(** The body of the loop over the routes. *)
Definition route_step (st : guest_state) (r : Route) : res guest_error guest_state :=
  map_err (BadRouteName (rt_name r)) (CheckRouteName yaml_scalar (rt_name r)) ;?
  let token := default [] (tokens !! rt_name r) in
  if bool_decide (token = []) then Err (NoToken (rt_name r))
  else
    let endpoint := is_endpoint r in
    let services := if endpoint then elems (rt_services r) else [] in
    let? svc := service_vars (rt_name r) (url_of r) services in
    let vars := gs_vars st ++ svc in
    let endpoints := if endpoint then S (gs_endpoints st) else gs_endpoints st in
    let gcloud := gs_gcloud st || (0 <? length services)%nat in
    match rt_guest r with
    | None => Ok (MkGuestState vars (gs_git st) endpoints gcloud)
    | Some g =>
      let? own := env_vars r token (sortedKeys (default ∅ (gu_env g))) in
      let vars := vars ++ own in
      let insteadOf := match gu_git g with Some git => elems (gg_insteadOf git) | None => [] end in
      if negb endpoint || (length insteadOf =? 0)%nat then Ok (MkGuestState vars (gs_git st) endpoints gcloud)
      else
        Ok (MkGuestState (vars ++ [MkVar (TokenVar (rt_name r)) token true]) (gs_git st ++ git_entries r insteadOf) endpoints gcloud)
    end.

Fixpoint routes_steps (st : guest_state) (l : list Route) : res guest_error guest_state :=
  match l with [] => Ok st | r :: l' => let? st := route_step st r in routes_steps st l' end.

Definition route_le (a b : Route) : Prop := str_le (rt_name a) (rt_name b).
#[export] Instance route_le_dec : RelDecision route_le.
Proof. intros a b. unfold route_le. apply _. Defined.

(** The numbered entries of the git configuration, from [base] on. *)
Definition git_pair (base : Z) (i : nat) (kv : gostr * gostr) : list Var :=
  let n := itoa (wrap64 (base + Z.of_nat i)) in
  [plain_var (lit "GIT_CONFIG_KEY_" ++ n) kv.1; plain_var (lit "GIT_CONFIG_VALUE_" ++ n) kv.2].

Definition git_vars (base : Z) (git : list (gostr * gostr)) : list Var :=
  plain_var (lit "GIT_CONFIG_COUNT") (itoa (wrap64 (base + Z.of_nat (length git)))) :: concat (imap (git_pair base) git).

Definition ca_vars (st : guest_state) : list Var :=
  match transport with
  | TransportBrigInternal =>
    if (0 <? gs_endpoints st)%nat then
      ((fun name => plain_var name (caFile name)) <$> caEnv) ++ (if gs_gcloud st then [plain_var GCPCACertsVar GuestCABundlePath] else [])
    else []
  | TransportDivert => []
  end.

Definition GuestEnv (routes : list Route) (forwarded : list Var) : res guest_error (list Var) :=
  let? st := routes_steps (MkGuestState [] [] 0 false) (merge_sort route_le routes) in
  let? git := match gs_git st with
              | [] => Ok []
              | git => let? base := gitConfigCount forwarded in Ok (git_vars base git)
              end in
  Ok (gs_vars st ++ git ++ ca_vars st).
End GuestEnv.


(** ** One variable per route *)

(** What [TokenVar] writes for a byte of a route name. *)
Definition token_byte (c : byte) : byte :=
  if Ascii.eqb c "-" then "_"%char else if in_range 97 122 (bz c) then zb (bz c - 32) else c.

Definition route_byte (c : byte) : Prop := lower_letter (bz c) = true \/ digit (bz c) = true \/ c = "-"%char.

(** The bytes of a route name are few enough to list. *)
Lemma route_byte_all (P : byte -> Prop) :
  Forall (fun z => P (zb z)) (45 :: seqZ 97 26 ++ seqZ 48 10) -> forall c, route_byte c -> P c.
Proof.
  intros HP c H. rewrite <- (zb_bz c). eapply Forall_forall in HP; [exact HP|]. apply elem_of_cons. rewrite elem_of_app, !elem_of_seqZ.
  destruct H as [H%lower_letter_range|[H%digit_range| ->]]; [lia|lia|by left].
Qed.

(** A statement of each of them, by computation. *)
Ltac listed :=
  match goal with |- Forall ?P ?l => let l' := eval vm_compute in l in change (Forall P l') end;
  repeat (apply Forall_cons_2; [vm_compute; try split; reflexivity|]); apply Forall_nil_2.

Lemma token_byte_upper c : route_byte c ->
  encode_rune (rune_upper (bz (if Ascii.eqb c "-" then "_"%char else c))) = [token_byte c] /\
  is_ascii (if Ascii.eqb c "-" then "_"%char else c) = true.
Proof. revert c. apply route_byte_all. listed. Qed.

(** The byte that [token_byte] comes from. *)
Definition byte_token (c : byte) : byte :=
  if Ascii.eqb c "_" then "-"%char else if in_range 65 90 (bz c) then zb (bz c + 32) else c.

Lemma byte_token_byte c : route_byte c -> byte_token (token_byte c) = c.
Proof. revert c. apply route_byte_all. listed. Qed.

Lemma token_byte_inj c d : route_byte c -> route_byte d -> token_byte c = token_byte d -> c = d.
Proof. intros Hc Hd E. by rewrite <- (byte_token_byte c Hc), <- (byte_token_byte d Hd), E. Qed.

Lemma token_bytes s : Forall route_byte s -> to_upper (replace_all (lit "-") (lit "_") s) = token_byte <$> s.
Proof.
  intros H. assert (replace_all (lit "-") (lit "_") s = (fun c => if Ascii.eqb c "-" then "_"%char else c) <$> s) as ->.
  { clear H. induction s as [|c s IH]; [done|]. cbn [fmap list_fmap]. destruct (Ascii.eqb_spec c "-") as [->|Hne].
    - change ("-"%char :: s) with (lit "-" ++ s). rewrite replace_all_hit by done. by rewrite IH.
    - rewrite replace_all_miss; [by f_equal|]. intros [r Hr]. by injection Hr. }
  unfold to_upper. rewrite runes_ascii.
  - induction H as [|c s Hc Hs IH]; [done|]. cbn [fmap list_fmap mbind list_bind]. destruct (token_byte_upper c Hc) as [E _].
    cbn. rewrite E. simpl. f_equal. apply IH.
  - apply Forall_fmap. eapply Forall_impl; [exact H|]. intros c Hc. apply (token_byte_upper c Hc).
Qed.

Lemma checked_bytes yaml_scalar name : CheckRouteName yaml_scalar name = Ok tt -> Forall route_byte name.
Proof.
  intros H. destruct (decide (name = [])) as [->|Hne]; [constructor|].
  apply CheckRouteName_ok in H as [(c & t & -> & Hc & Ht) _]; [|done]. constructor; [by left|exact Ht].
Qed.

(** Two routes whose names the grammar accepts never share the variable
    of a session token, although a dash reads as an underscore there. *)
Lemma TokenVar_inj (yaml_scalar : gostr -> option (option gostr)) (a b : gostr)
    (Ha : CheckRouteName yaml_scalar a = Ok tt) (Hb : CheckRouteName yaml_scalar b = Ok tt) (E : TokenVar a = TokenVar b) : a = b.
Proof.
  apply checked_bytes in Ha, Hb. unfold TokenVar in E. apply app_inv_head in E. rewrite !token_bytes in E by done.
  apply app_inv_tail in E. clear -Ha Hb E. revert b E Hb. induction Ha as [|c a Hc Ha IH]; intros [|d b] E Hb; try done.
  inversion Hb as [|? ? Hd Hb']; subst. injection E as Ec E. f_equal; [by apply token_byte_inj|by apply IH].
Qed.

(** ** Where a token can be *)

(** A variable without the value that the flag [Secret] keeps off a command
    line. *)
Definition blind (v : Var) : Var := MkVar (va_name v) (if va_secret v then [] else va_value v) (va_secret v).

Definition blinded {A : Type} (f : A -> A) (r : res guest_error A) : res guest_error A :=
  match r with Ok x => Ok (f x) | Err e => Err e end.

Definition blind_state (st : guest_state) : guest_state :=
  MkGuestState (blind <$> gs_vars st) (gs_git st) (gs_endpoints st) (gs_gcloud st).

Section Blind.
Variable yaml_scalar : gostr -> option (option gostr).
Variable transport : Transport.
Variable sandbox : gostr.
Variables t1 t2 regions : gmap gostr gostr.
(** Both maps give a token to the same routes. *)
Hypothesis same : forall n, default [] (t1 !! n) = [] <-> default [] (t2 !! n) = [].

Lemma blind_env_vars r a b names :
  blinded (fmap blind) (env_vars sandbox regions r a names) = blinded (fmap blind) (env_vars sandbox regions r b names).
Proof.
  induction names as [|n names IH]; [done|]. cbn [env_vars].
  assert (blinded (fmap blind) (env_var sandbox regions r a n) = blinded (fmap blind) (env_var sandbox regions r b n)) as Hn
    by (unfold env_var; by repeat case_bool_decide).
  destruct (env_var sandbox regions r a n) as [va|], (env_var sandbox regions r b n) as [vb|]; try discriminate Hn;
    [|by injection Hn as ->]. cbn [res_bind].
  destruct (env_vars sandbox regions r a names), (env_vars sandbox regions r b names); try discriminate IH; [|done].
  cbn [res_bind blinded] in *. rewrite !fmap_app. congruence.
Qed.

Lemma blind_route_step st1 st2 r : blind_state st1 = blind_state st2 ->
  blinded blind_state (route_step yaml_scalar sandbox t1 regions st1 r) = blinded blind_state (route_step yaml_scalar sandbox t2 regions st2 r).
Proof.
  destruct st1 as [v1 g1 e1 c1], st2 as [v2 g2 e2 c2]. unfold blind_state. cbn [gs_vars gs_git gs_endpoints gs_gcloud].
  intros [= Hv <- <- <-]. unfold route_step. cbn [gs_vars gs_git gs_endpoints gs_gcloud].
  destruct (map_err _ _); [|done]. cbn [res_bind].
  rewrite (bool_decide_ext _ (default [] (t2 !! rt_name r) = [])) by apply same. case_bool_decide; [done|].
  destruct (service_vars _ _ _) as [svc|]; [|done]. cbn [res_bind].
  destruct (rt_guest r) as [g|]; cbn [blinded]; [|unfold blind_state; cbn; by rewrite !fmap_app, Hv].
  pose proof (blind_env_vars r (default [] (t1 !! rt_name r)) (default [] (t2 !! rt_name r)) (sortedKeys (default ∅ (gu_env g)))) as He.
  destruct (env_vars _ _ _ (default [] (t1 !! _)) _), (env_vars _ _ _ (default [] (t2 !! _)) _); try discriminate He;
    [|by injection He as ->]. cbn [res_bind]. injection He as He.
  destruct (_ || _); cbn [blinded]; unfold blind_state; cbn [gs_vars gs_git gs_endpoints gs_gcloud]; rewrite !fmap_app, Hv, He; done.
Qed.

Lemma blind_steps l st1 st2 : blind_state st1 = blind_state st2 ->
  blinded blind_state (routes_steps yaml_scalar sandbox t1 regions st1 l) = blinded blind_state (routes_steps yaml_scalar sandbox t2 regions st2 l).
Proof.
  revert st1 st2. induction l as [|r l IH]; intros st1 st2 H; [cbn; by rewrite H|]. cbn [routes_steps].
  pose proof (blind_route_step st1 st2 r H) as Hs.
  destruct (route_step _ _ t1 _ _ _), (route_step _ _ t2 _ _ _); try discriminate Hs; [|by injection Hs as ->].
  cbn [res_bind]. apply IH. cbn [blinded] in Hs. congruence.
Qed.
End Blind.

(** A session token is in no variable that goes on a command line: with
    other tokens for the same routes the guest is handed the same variables in
    the same order, or refused with the same error, and only the values of
    the secret ones differ.  So no URL and no git configuration, the
    credential helper's included, has a token in it. *)
Lemma GuestEnv_tokens_secret (yaml_scalar : gostr -> option (option gostr)) (transport : Transport) (sandbox : gostr)
    (t1 t2 regions : gmap gostr gostr) (routes : list Route) (forwarded : list Var)
    (same : forall n, default [] (t1 !! n) = [] <-> default [] (t2 !! n) = []) :
  blinded (fmap blind) (GuestEnv yaml_scalar transport sandbox t1 regions routes forwarded) =
  blinded (fmap blind) (GuestEnv yaml_scalar transport sandbox t2 regions routes forwarded).
Proof.
  unfold GuestEnv. pose proof (blind_steps yaml_scalar sandbox t1 t2 regions same (merge_sort route_le routes)
    (MkGuestState [] [] 0 false) (MkGuestState [] [] 0 false) eq_refl) as H.
  destruct (routes_steps _ _ t1 _ _ _) as [[v1 g1 e1 c1]|], (routes_steps _ _ t2 _ _ _) as [[v2 g2 e2 c2]|]; try discriminate H;
    [|by injection H as ->].
  injection H as Hv <- <- <-. cbn [res_bind gs_git gs_vars].
  destruct (match g1 with [] => _ | _ => _ end) as [git|]; [|done]. cbn [res_bind blinded]. by rewrite !fmap_app, Hv.
Qed.

(** ** The git configuration that the guest reads *)

(** The value that an environment gives a name: a later variable replaces an
    earlier one. *)
Definition env_value (env : list Var) (name : gostr) : option gostr :=
  foldl (fun out v => if bool_decide (va_name v = name) then Some (va_value v) else out) None env.

Definition git_name (key : bool) (j : Z) : gostr := (if key then lit "GIT_CONFIG_KEY_" else lit "GIT_CONFIG_VALUE_") ++ itoa j.
Definition git_part (key : bool) (kv : gostr * gostr) : gostr := if key then kv.1 else kv.2.

(** What git reads of an environment, by its documentation: as many pairs as
    [GIT_CONFIG_COUNT] says, numbered from 0. *)
Definition git_reads (env : list Var) : list (option gostr * option gostr) :=
  match env_value env (lit "GIT_CONFIG_COUNT") ≫= parse_int 64 with
  | Some n => (fun j => (env_value env (git_name true j), env_value env (git_name false j))) <$> seqZ 0 n
  | None => []
  end.

Lemma env_value_app a b n : env_value (a ++ b) n = match env_value b n with Some v => Some v | None => env_value a n end.
Proof.
  unfold env_value. rewrite foldl_app. generalize (foldl (fun out v => if bool_decide (va_name v = n) then Some (va_value v) else out) None a).
  intros o. induction b as [|v b IH] using rev_ind; [done|]. rewrite !foldl_app. cbn [foldl]. by case_bool_decide.
Qed.

Lemma env_value_cons v l n : env_value (v :: l) n =
  match env_value l n with Some x => Some x | None => if decide (va_name v = n) then Some (va_value v) else None end.
Proof.
  change (v :: l) with ([v] ++ l). rewrite env_value_app. destruct (env_value l n); [done|].
  unfold env_value. cbn [foldl]. by case_bool_decide; destruct (decide _).
Qed.

Lemma git_name_inj k k' i j : 0 <= i < 2 ^ 63 -> 0 <= j < 2 ^ 63 -> git_name k i = git_name k' j -> k = k' /\ i = j.
Proof.
  intros Hi Hj E. destruct k, k'; try discriminate E; (split; [done|]);
    unfold git_name in E; apply app_inv_head in E; apply (f_equal (parse_int 64)) in E;
    rewrite !parse_int_itoa in E by lia; by injection E.
Qed.

Lemma wrap64_id z : 0 <= z < 2 ^ 63 -> wrap64 z = z.
Proof. intros H. unfold wrap64. rewrite Z.mod_small by lia. lia. Qed.

Lemma git_pair_names base i kv : 0 <= base -> base + Z.of_nat i < 2 ^ 63 ->
  git_pair base i kv = [plain_var (git_name true (base + Z.of_nat i)) kv.1; plain_var (git_name false (base + Z.of_nat i)) kv.2].
Proof. intros Hb Hi. unfold git_pair. by rewrite wrap64_id by lia. Qed.

Lemma git_pairs_value key j git base : 0 <= base -> base + Z.of_nat (length git) < 2 ^ 63 -> 0 <= j < 2 ^ 63 ->
  env_value (concat (imap (git_pair base) git)) (git_name key j) =
  if decide (base <= j) then git_part key <$> git !! Z.to_nat (j - base) else None.
Proof.
  intros Hb Hn Hj. revert base Hb Hn. induction git as [|kv git IH]; intros base Hb Hn; [by destruct (decide _)|].
  cbn [length] in Hn. rewrite imap_cons. cbn [concat]. rewrite env_value_app.
  assert (imap (git_pair base ∘ S) git = imap (git_pair (base + 1)) git) as ->.
  { apply imap_ext. intros i x Hx. cbn. unfold git_pair. by replace (base + Z.of_nat (S i)) with (base + 1 + Z.of_nat i) by lia. }
  rewrite IH by lia. rewrite git_pair_names by (cbn; lia). rewrite Z.add_0_r.
  assert (base <> j -> env_value [plain_var (git_name true base) kv.1; plain_var (git_name false base) kv.2] (git_name key j) = None) as Hother.
  { intros Hne. unfold env_value. cbn [foldl va_name plain_var]. rewrite !bool_decide_false; [done| |];
      intros [_ ?]%git_name_inj; lia. }
  destruct (decide (base + 1 <= j)) as [Hle|Hgt].
  - rewrite decide_True by lia. replace (Z.to_nat (j - base)) with (S (Z.to_nat (j - (base + 1)))) by lia. cbn [lookup list_lookup].
    rewrite Hother by lia. by destruct (git_part key <$> git !! _).
  - destruct (decide (base <= j)); [|apply Hother; lia]. replace j with base by lia. rewrite Z.sub_diag. cbn.
    unfold env_value. cbn [foldl va_name va_value plain_var].
    destruct key; cbn [git_part]; [rewrite (bool_decide_false (git_name false base = _)), bool_decide_true|rewrite bool_decide_true];
      try done; by intros [? _]%git_name_inj.
Qed.

Lemma git_vars_count base git : 0 <= base -> base + Z.of_nat (length git) < 2 ^ 63 ->
  env_value (git_vars base git) (lit "GIT_CONFIG_COUNT") = Some (itoa (base + Z.of_nat (length git))).
Proof.
  intros Hb Hn. unfold git_vars. rewrite wrap64_id by lia. set (c := plain_var _ _). rewrite env_value_cons.
  assert (env_value (concat (imap (git_pair base) git)) (lit "GIT_CONFIG_COUNT") = None) as ->; [|done].
  clear. assert (forall f : nat -> gostr * gostr -> list Var,
    (forall i kv, exists k v x y, f i kv = [plain_var (lit "GIT_CONFIG_KEY_" ++ k) x; plain_var (lit "GIT_CONFIG_VALUE_" ++ v) y]) ->
    env_value (concat (imap f git)) (lit "GIT_CONFIG_COUNT") = None) as H.
  { induction git as [|kv git IH]; intros f Hf; [done|]. rewrite imap_cons. cbn [concat]. rewrite env_value_app, IH; [|intros; apply Hf].
    by destruct (Hf 0%nat kv) as (k & v & x & y & ->). }
  apply H. intros i kv. unfold git_pair. by eexists _, _, _, _.
Qed.

Lemma gitConfigCount_value forwarded base : gitConfigCount forwarded = Ok base ->
  0 <= base /\ (base = 0 \/ env_value forwarded (lit "GIT_CONFIG_COUNT") ≫= parse_int 64 = Some base) /\
  git_reads forwarded = (fun j => (env_value forwarded (git_name true j), env_value forwarded (git_name false j))) <$> seqZ 0 base.
Proof.
  unfold gitConfigCount, git_reads. assert (foldl (fun count v => if bool_decide (va_name v = lit "GIT_CONFIG_COUNT") then va_value v else count) [] forwarded
    = default [] (env_value forwarded (lit "GIT_CONFIG_COUNT"))) as ->.
  { unfold env_value. change (@nil byte) with (default (@nil byte) None) at 1. generalize (@None gostr).
    induction forwarded as [|v l IH]; intros o; [done|]. cbn [foldl]. rewrite <- IH. by case_bool_decide. }
  destruct (env_value forwarded (lit "GIT_CONFIG_COUNT")) as [c|]; cbn [default id mbind option_bind].
  - destruct (bool_decide_reflect (c = [])) as [->|Hc]; [intros [= <-]; split_and!; [lia|by left|done]|]. destruct (parse_int 64 c) as [n|]; [|done].
    destruct (Z.ltb_spec n 0); [done|]. intros [= <-]. auto.
  - rewrite bool_decide_true by done. intros [= <-]. split_and!; [lia|by left|done].
Qed.

(** The git entries of the guest's own are kept and the routes' follow
    them: git reads, in the environment that the guest already got with the
    variables of the routes after it, exactly the pairs it read before and
    then those of the routes, in order, as long as their number fits an
    [int]. *)
Lemma git_entries_kept (forwarded : list Var) (base : Z) (git : list (gostr * gostr))
    (Hbase : gitConfigCount forwarded = Ok base) (Hfit : base + Z.of_nat (length git) < 2 ^ 63) :
  git_reads (forwarded ++ git_vars base git) = git_reads forwarded ++ ((fun kv => (Some kv.1, Some kv.2)) <$> git).
Proof.
  destruct (gitConfigCount_value forwarded base Hbase) as (Hb & _ & ->). unfold git_reads at 1.
  rewrite env_value_app, git_vars_count by done. cbn [mbind option_bind]. rewrite parse_int_itoa by (change (64 - 1) with 63; lia).
  rewrite seqZ_app, fmap_app by lia.
  assert (forall key j, 0 <= j < 2 ^ 63 -> env_value (git_vars base git) (git_name key j) =
    if decide (base <= j) then git_part key <$> git !! Z.to_nat (j - base) else None) as Hv.
  { intros key j Hj. unfold git_vars. set (c := plain_var _ _). rewrite env_value_cons, git_pairs_value by done.
    rewrite (decide_False (P := va_name c = git_name key j)) by (by destruct key). by destruct (decide _); [destruct (_ <$> _)|]. }
  f_equal.
  - apply list_fmap_ext. intros i j Hj%lookup_seqZ. rewrite !env_value_app, !Hv by lia. by rewrite !decide_False by lia.
  - apply list_eq. intros i. rewrite !list_lookup_fmap. destruct (git !! i) as [kv|] eqn:Ei.
    + pose proof (lookup_lt_Some _ _ _ Ei). assert (seqZ (0 + base) (Z.of_nat (length git)) !! i = Some (base + Z.of_nat i)) as ->
        by (apply lookup_seqZ; lia).
      cbn [fmap option_fmap option_map]. rewrite !env_value_app, !Hv by lia. rewrite !decide_True by lia.
      replace (Z.to_nat (base + Z.of_nat i - base)) with i by lia. by rewrite Ei.
    + apply lookup_ge_None in Ei. assert (seqZ (0 + base) (Z.of_nat (length git)) !! i = None) as ->; [|done].
      apply lookup_seqZ_ge. lia.
Qed.

(** ** A run with a git route *)

Definition any_name (s : gostr) : option (option gostr) := Some (Some s).

Definition git_route : Route :=
  MkRoute (lit "git-hub") [] [] (lit "https://github.com") None None
    (Some (MkGuest (Some {[lit "GH_HOST_URL" := PlaceholderRouteURL; lit "GH_TOKEN" := PlaceholderSessionToken]})
             (Some (MkGitGuest (Some [lit "https://github.com/"]))))) None None false.

Definition git_token (t : string) : gmap gostr gostr := {[lit "git-hub" := lit t]}.

Example TokenVar_inj_witness : TokenVar (lit "git-hub") <> TokenVar (lit "git").
Proof.
  intros E. discriminate (TokenVar_inj any_name (lit "git-hub") (lit "git") ltac:(vm_compute; reflexivity) ltac:(vm_compute; reflexivity) E).
Defined.

Lemma git_tokens_same n : default [] (git_token "one" !! n) = [] <-> default [] (git_token "two" !! n) = [].
Proof. unfold git_token. destruct (decide (lit "git-hub" = n)) as [<-|]; by rewrite ?lookup_singleton_eq, ?lookup_singleton_ne. Qed.

(** The two runs hand over different values and blind to the same ones. *)
Example GuestEnv_tokens_secret_witness :
  let env t := GuestEnv any_name TransportBrigInternal (lit "box") (git_token t) ∅ [git_route] [] in
  blinded (fmap blind) (env "one") = blinded (fmap blind) (env "two") /\
  match env "one", env "two" with
  | Ok a, Ok b => (length a, env_value a (lit "GH_TOKEN"), env_value b (lit "GH_TOKEN")) = (14%nat, Some (lit "one"), Some (lit "two"))
  | _, _ => False
  end.
Proof.
  cbv zeta. split; [|vm_compute; reflexivity].
  exact (GuestEnv_tokens_secret any_name TransportBrigInternal (lit "box") (git_token "one") (git_token "two") ∅ [git_route] [] git_tokens_same).
Defined.

Definition own_git : list Var := [plain_var (lit "GIT_CONFIG_COUNT") (lit "1"); plain_var (lit "GIT_CONFIG_KEY_0") (lit "user.name"); plain_var (lit "GIT_CONFIG_VALUE_0") (lit "me")].

Example git_entries_kept_witness :
  git_reads (own_git ++ git_vars 1 [(lit "a", lit "b")]) = [(Some (lit "user.name"), Some (lit "me")); (Some (lit "a"), Some (lit "b"))].
Proof.
  rewrite (git_entries_kept own_git 1 [(lit "a", lit "b")] ltac:(vm_compute; reflexivity) ltac:(cbn; lia)).
  vm_compute. reflexivity.
Defined.
