(* ===== verification/HostSide.v ===== *)
(** * [internal/wrap]: which credentials stay on the host (routes.go, config.go, run.go)

    A secret that a route injects is taken out of the profile that delivers it,
    with every binding whose chain names it, before anything is resolved; then
    the guest gets the variables of its bindings and of its routes. *)

From stdpp Require Import prelude list strings gmap sorting.
From Stdlib Require Import ZArith Lia ZifyNat Ascii.
From S2P Require Import Prelude GoUnicode GoStrings RouteTypes RouteMode Expand Registry Routes Profile Creds Volumes GuestEnv.

Local Open Scope Z_scope.

(** ** The routes of a run *)

(** [routesOf] names the policy that declares each route. *)
Definition routesOf (preset_file : gostr -> res preset_error presetFile) (yaml_scalar : gostr -> option (option gostr))
    (visit : gmap gostr gostr -> list (gostr * gostr)) (modes : modes_map) (bound : list Policy)
    : res routes_error (list Route * gmap gostr gostr) :=
  let? routes := Routes preset_file yaml_scalar visit modes bound in
  Ok (routes, foldl (fun owner p => foldl (fun owner r => <[rt_name r := om_name (po_metadata p)]> owner) owner
                (elems (ps_routes (po_spec p)))) ∅ bound).

Definition routeSecretNames (r : Route) : list gostr :=
  match rt_credential r with
  | Some c => if bool_decide (sr_name (cd_secretRef c) = []) then [] else [sr_name (cd_secretRef c)]
  | None => []
  end ++
  match rt_inject r ≫= in_tls with
  | Some t => omap (fun ref : option CertificateRef =>
                match ref with
                | Some c => if bool_decide (sr_name (cr_secretRef c) = []) then None else Some (sr_name (cr_secretRef c))
                | None => None
                end) [ti_clientCertificate t; ti_ca t]
  | None => []
  end.

Definition brokeredSecrets (routes : list Route) : gmap gostr gostr :=
  foldl (fun out r => foldl (fun out name => <[name := rt_name r]> out) out (routeSecretNames r)) ∅ routes.

Definition namesBrokered (refs : list gostr) (brokered : gmap gostr gostr) : bool :=
  existsb (fun raw =>
    match ParseRef raw with
    | Ok r => bool_decide (rf_namespace r = NamespaceSecrets) && negb (is_nil (brokered !! rf_name r))
    | Err _ => false
    end) refs.

Definition set_delivery (t : Profile) (secrets : list SecretDecl) (env : list EnvBinding) (files : list FileBinding) : Profile :=
  MkProfile (p_name t) (p_desc t) (p_binary t) (p_image t) (p_guestHome t) secrets env (p_deny t) files (p_volumes t) (p_headless t)
    (p_kind t) (p_guiTitle t) (p_mem t) (p_cpus t) (p_hypervisor t) (p_network t) (p_runtimeBin t) (p_rootfsType t) (p_genericBoot t)
    (p_staleCredentialFiles t) (p_onboarding t) (p_hostConfigDir t) (p_projectPaths t) (p_unpublished t) (p_reserved t) (p_policy t).

(** The loops that keep what does not name a brokered secret. *)
Definition keepBinding (brokered : gmap gostr gostr) (l : list EnvBinding) : list EnvBinding :=
  foldl (fun out b => if namesBrokered (RefList b) brokered then out else out ++ [b]) [] l.
Definition keepFiles (brokered : gmap gostr gostr) (l : list FileBinding) : list FileBinding :=
  foldl (fun out b => if namesBrokered [fb_ref b] brokered then out else out ++ [b]) [] l.
Definition keepSecrets (brokered : gmap gostr gostr) (l : list SecretDecl) : list SecretDecl :=
  foldl (fun out d => match brokered !! sd_name d with None => out ++ [d] | Some _ => out end) [] l.

Definition withRoutes (t : Profile) (bindings : list EnvBinding) (routes : list Route) : Profile * list EnvBinding * list gostr :=
  let brokered := brokeredSecrets routes in
  if bool_decide (brokered = ∅) then (t, bindings, [])
  else
    (set_delivery t (keepSecrets brokered (p_secrets t)) (keepBinding brokered (p_env t)) (keepFiles brokered (p_files t)),
     keepBinding brokered bindings, sort_strings (map_to_list brokered).*1).

(** ** Settings that change the bindings (config.go) *)

(** The bindings of the profile that [envOverride] keeps: all but the ones
    whose [ref:] reads the shell. *)
Definition reads_shell (b : EnvBinding) : bool :=
  match Resolved b with Ok (Some r) => bool_decide (rf_namespace r = NamespaceEnv) | _ => false end.

Definition env_binding (name : gostr) : EnvBinding := MkEnvBinding name [] (NamespaceEnv ++ lit "." ++ name) [].

(** The bindings, and the names that are ignored with a warning. *)
Definition envOverride (bindings : list EnvBinding) (names : list gostr) : list EnvBinding * list gostr :=
  match names with
  | [] => (bindings, [])
  | _ =>
    let kept := foldl (fun kept b => if reads_shell b then kept else kept ++ [b]) [] bindings in
    let bound := eb_name <$> kept in
    let '(kept, warnings, _) := foldl (fun '(kept, warnings, added) name =>
      if mem name bound then (kept, warnings ++ [name], added)
      else if mem name added then (kept, warnings, added)
      else (kept ++ [env_binding name], warnings, name :: added)) (kept, [], []) names in
    (kept, warnings)
  end.

Definition projectVar : gostr := lit "BRIG_PROJECT".

Inductive project_warning := FromProfile | FromRoute (route : gostr).

Definition drop_project (r : Route) : Route :=
  MkRoute (rt_name r) (rt_preset r) (rt_mode r) (rt_upstream r) (rt_credential r) (rt_inject r)
    ((fun g => MkGuest (delete projectVar <$> gu_env g) (gu_git g)) <$> rt_guest r)
    (rt_request r) (rt_services r) (rt_lifecycleFromPreset r).

Definition names_project (r : Route) : bool := negb (is_nil (default ∅ (rt_guest r ≫= gu_env) !! projectVar)).

Definition withoutProjectVar (bindings : list EnvBinding) (routes : list Route) : list EnvBinding * list Route * list project_warning :=
  let '(kept, warnings) := foldl (fun '(kept, warnings) b =>
    if bool_decide (eb_name b = projectVar) then (kept, warnings ++ [FromProfile]) else (kept ++ [b], warnings)) ([], []) bindings in
  let '(out, warnings) := foldl (fun '(out, warnings) r =>
    if names_project r then (out ++ [drop_project r], warnings ++ [FromRoute (rt_name r)]) else (out ++ [r], warnings)) ([], warnings) routes in
  (kept, out, warnings).

Definition bindingNames (bindings : list EnvBinding) : list gostr := foldl (fun names b => names ++ [eb_name b]) [] bindings.

(** The part of [Load] that takes the policies' routes: the profile and the
    bindings that a run delivers, its routes, the secrets that stay on the
    host, and the warnings. *)
Record loaded := MkLoaded {
  ld_profile : Profile; ld_bindings : list EnvBinding; ld_routes : list Route; ld_skipped : list gostr; ld_warnings : list project_warning }.

Definition Load_routes (got : res routes_error (list Route * gmap gostr gostr)) (t : Profile) (bindings : list EnvBinding) : loaded :=
  let routes := match got with Ok (routes, _) => routes | Err _ => [] end in
  let '(t, bindings, skipped) := match routes with [] => (t, bindings, []) | _ => withRoutes t bindings routes end in
  let '(bindings, routes, warnings) := withoutProjectVar bindings routes in
  MkLoaded t bindings routes skipped warnings.

(** ** The environment of a run (run.go) *)

(** What the guest's git is told, and [SetupGit], which may add variables. *)
Record git_settings := MkGitSettings { gi_prompt : gostr; gi_identity : bool; gi_name : gostr; gi_email : gostr }.

Inductive env_error := CredentialsRefused (e : CredentialError) | GitRefused (set : VarSet) (e : gostr).

Definition git_plumbing (g : git_settings) (s : VarSet) : VarSet :=
  let s := set_AddPlumbing s (lit "GIT_TERMINAL_PROMPT") (if bool_decide (gi_prompt g = []) then lit "0" else gi_prompt g) in
  if gi_identity g then
    let s := if bool_decide (gi_name g = []) then s
             else set_AddPlumbing (set_AddPlumbing s (lit "GIT_AUTHOR_NAME") (gi_name g)) (lit "GIT_COMMITTER_NAME") (gi_name g) in
    if bool_decide (gi_email g = []) then s
    else set_AddPlumbing (set_AddPlumbing s (lit "GIT_AUTHOR_EMAIL") (gi_email g)) (lit "GIT_COMMITTER_EMAIL") (gi_email g)
  else s.

(** [BuildEnv], with the profile and the bindings of [Load]. *)
Definition BuildEnv (ld : loaded) (sandbox : gostr) (open : res reason (gostr -> res reason gostr)) (lookup : gostr -> option gostr)
    (opt : Options) (g : git_settings) (setupGit : VarSet -> VarSet * option gostr) : res env_error (VarSet * Resolution) :=
  let? re := map_err CredentialsRefused (ResolveSecrets (ld_profile ld) sandbox open lookup) in
  let set := Bind (ld_profile ld) (re_values re) lookup opt (ld_bindings ld) in
  match setupGit (git_plumbing g set) with
  | (set, Some e) => Err (GitRefused set e)
  | (set, None) => Ok (set, re)
  end.

Definition guestEnv (set routeVars : list Var) (guestProject guestHome : gostr) : list Var :=
  let own v := negb (bool_decide (va_name v = projectVar)) in
  let vars := List.filter own set ++ List.filter own routeVars ++
              (if bool_decide (guestProject = []) then [] else [MkVar projectVar guestProject false]) in
  if bool_decide (guestHome = []) then vars
  else if existsb (fun v => bool_decide (va_name v = lit "HOME")) set then vars
  else MkVar (lit "HOME") guestHome false :: vars.

(** ** What refuses a run with routes (routes.go) *)

Definition awsShadowVars : list gostr :=
  lit <$> ["AWS_ACCESS_KEY_ID"; "AWS_SECRET_ACCESS_KEY"; "AWS_SESSION_TOKEN"; "AWS_PROFILE"; "AWS_DEFAULT_PROFILE"; "AWS_CONFIG_FILE";
           "AWS_SHARED_CREDENTIALS_FILE"; "AWS_WEB_IDENTITY_TOKEN_FILE"; "AWS_ROLE_ARN"; "AWS_CONTAINER_CREDENTIALS_RELATIVE_URI";
           "AWS_CONTAINER_CREDENTIALS_FULL_URI"; "AWS_CONTAINER_AUTHORIZATION_TOKEN"; "AWS_CONTAINER_AUTHORIZATION_TOKEN_FILE"].

Definition vends (routes : list Route) : bool := existsb Vends routes.
Definition endpointRoutes (routes : list Route) : list Route :=
  foldl (fun out r => if is_endpoint r then out ++ [r] else out) [] routes.

(** The variables that would outrank a route that vends. *)
Definition awsShadowRefusal (routes : list Route) (env : list EnvBinding) : list gostr :=
  if negb (vends routes) then []
  else foldl (fun shadow name => if mem name awsShadowVars && negb (mem name shadow) then shadow ++ [name] else shadow) [] (bindingNames env).

Definition named_in (routePolicy : gmap gostr gostr) (r : Route) : gostr :=
  default [] (routePolicy !! rt_name r) ++ lit " (route " ++ rt_name r ++ lit ")".
Definition vendList (routePolicy : gmap gostr gostr) (routes : list Route) : gostr :=
  join (lit ", ") (foldl (fun names r => if Vends r then names ++ [named_in routePolicy r] else names) [] routes).
Definition endpointList (routePolicy : gmap gostr gostr) (routes : list Route) : gostr :=
  join (lit ", ") (foldl (fun names r => names ++ [named_in routePolicy r]) [] (endpointRoutes routes)).

(** What the rest of brig answers: the conflict of the policies, the modes, the
    runtime, and the home of the guest. *)
Record run_answers := MkAnswers {
  an_routesErr : bool; an_modeRefusal : bool; an_runtime : bool; an_endpointCheck : bool; an_awsHome : bool; an_offline : bool;
  an_linkLocal : option bool }.

Inductive route_refusal :=
  | ConflictRefused | ModeRefused | EndpointRefused (routes : gostr) | ShadowRefused (routes : gostr) (names : list gostr)
  | HomeRefused | OfflineRefused | LinkLocalRefused (routes : gostr).

Definition brigInternal (a : run_answers) (routes : list Route) : bool := an_runtime a && (0 <? length (endpointRoutes routes))%nat.

Definition routeRefusal (a : run_answers) (routePolicy : gmap gostr gostr) (routes : list Route) (env : list EnvBinding) : option route_refusal :=
  if an_routesErr a then Some ConflictRefused
  else if an_modeRefusal a then Some ModeRefused
  else if (length routes =? 0)%nat || negb (an_runtime a) then None
  else if brigInternal a routes && an_endpointCheck a then Some (EndpointRefused (endpointList routePolicy routes))
  else match awsShadowRefusal routes env with
       | (_ :: _) as names => Some (ShadowRefused (vendList routePolicy routes) names)
       | [] =>
         if an_awsHome a then Some HomeRefused
         else if an_offline a then Some OfflineRefused
         else match an_linkLocal a with
              | Some refused => if vends routes && refused then Some (LinkLocalRefused (vendList routePolicy routes)) else None
              | None => None
              end
       end.


(** ** Which secrets a route keeps on the host *)

Definition route_secret (routes : list Route) (n : gostr) : Prop := exists r, r ∈ routes /\ n ∈ routeSecretNames r.

Lemma inner_insert (names : list gostr) (route : gostr) (m : gmap gostr gostr) n :
  is_Some (foldl (fun out name => <[name := route]> out) m names !! n) <-> is_Some (m !! n) \/ n ∈ names.
Proof.
  revert m. induction names as [|x names IH]; intros m; cbn [foldl].
  - rewrite elem_of_nil. tauto.
  - rewrite IH, lookup_insert_is_Some', elem_of_cons. naive_solver.
Qed.

Lemma brokered_secret routes n : is_Some (brokeredSecrets routes !! n) <-> route_secret routes n.
Proof.
  unfold brokeredSecrets, route_secret. assert (forall m, is_Some (foldl (fun out r => foldl (fun out name => <[name := rt_name r]> out) out (routeSecretNames r)) m routes !! n) <->
    is_Some (m !! n) \/ exists r, r ∈ routes /\ n ∈ routeSecretNames r) as ->.
  { induction routes as [|r routes IH]; intros m; cbn [foldl].
    - split; [by left|]. by intros [?|(r & ?%elem_of_nil & _)].
    - rewrite IH, inner_insert. split.
      + intros [[?|?]|(r' & ? & ?)]; [by left|right; exists r; split; [by left|done]|right; exists r'; split; [by right|done]].
      + intros [?|(r' & [->|?]%elem_of_cons & ?)]; [by left; left|by left; right|right; by exists r']. }
  rewrite lookup_empty. split; [by intros [[? ?]|?]|by right].
Qed.

(** What [namesBrokered] tells of a chain. *)
Definition names_one (refs : list gostr) (secret : gostr -> Prop) : Prop :=
  exists raw r, raw ∈ refs /\ ParseRef raw = Ok r /\ rf_namespace r = NamespaceSecrets /\ secret (rf_name r).

Lemma namesBrokered_true refs routes : namesBrokered refs (brokeredSecrets routes) = true <-> names_one refs (route_secret routes).
Proof.
  unfold namesBrokered, names_one. rewrite existsb_true. split.
  - intros (raw & Hin & H). destruct (ParseRef raw) as [r|] eqn:Er; [|done]. apply andb_prop in H as [H1%bool_decide_eq_true H2].
    exists raw, r. split_and!; [done..|]. apply brokered_secret. by apply is_nil_false, negb_true_iff.
  - intros (raw & r & Hin & Er & Hns & Hs). exists raw. split; [done|]. rewrite Er. rewrite bool_decide_true by done. cbn [andb].
    by apply negb_true_iff, is_nil_false, brokered_secret.
Qed.

Lemma namesBrokered_false refs routes : namesBrokered refs (brokeredSecrets routes) = false <-> ~ names_one refs (route_secret routes).
Proof. rewrite <- namesBrokered_true. by destruct (namesBrokered _ _). Qed.

Lemma keepBinding_elem routes l b : b ∈ keepBinding (brokeredSecrets routes) l <-> b ∈ l /\ ~ names_one (RefList b) (route_secret routes).
Proof.
  unfold keepBinding. rewrite (foldl_keeps (fun b => negb (namesBrokered (RefList b) (brokeredSecrets routes)))); [|by intros out x; destruct (namesBrokered _ _)].
  cbn [app]. by rewrite list_filter_elem, negb_true_iff, namesBrokered_false.
Qed.

Lemma keepFiles_elem routes l b : b ∈ keepFiles (brokeredSecrets routes) l <-> b ∈ l /\ ~ names_one [fb_ref b] (route_secret routes).
Proof.
  unfold keepFiles. rewrite (foldl_keeps (fun b => negb (namesBrokered [fb_ref b] (brokeredSecrets routes)))); [|by intros out x; destruct (namesBrokered _ _)].
  cbn [app]. by rewrite list_filter_elem, negb_true_iff, namesBrokered_false.
Qed.

Lemma keepSecrets_elem routes l d : d ∈ keepSecrets (brokeredSecrets routes) l <-> d ∈ l /\ ~ route_secret routes (sd_name d).
Proof.
  unfold keepSecrets. rewrite (foldl_keeps (fun d => is_nil (brokeredSecrets routes !! sd_name d))); [|by intros out x; destruct (_ !! _)].
  cbn [app]. rewrite list_filter_elem, <- brokered_secret, is_nil_true, eq_None_not_Some. done.
Qed.

Lemma no_brokered routes : brokeredSecrets routes = ∅ -> forall n, ~ route_secret routes n.
Proof. intros E n H%brokered_secret. rewrite E, lookup_empty in H. by destruct H. Qed.

(** What is left of a profile and of the bindings, in one statement. *)
Lemma withRoutes_keeps (t : Profile) (bindings : list EnvBinding) (routes : list Route) :
  let '(t', bindings', _) := withRoutes t bindings routes in
  (forall d, d ∈ p_secrets t' <-> d ∈ p_secrets t /\ ~ route_secret routes (sd_name d)) /\
  (forall b, b ∈ p_env t' <-> b ∈ p_env t /\ ~ names_one (RefList b) (route_secret routes)) /\
  (forall b, b ∈ p_files t' <-> b ∈ p_files t /\ ~ names_one [fb_ref b] (route_secret routes)) /\
  (forall b, b ∈ bindings' <-> b ∈ bindings /\ ~ names_one (RefList b) (route_secret routes)).
Proof.
  unfold withRoutes. case_bool_decide as E.
  - pose proof (no_brokered routes E) as Hn.
    assert (forall refs, ~ names_one refs (route_secret routes)) as Ho by (intros refs (? & ? & _ & _ & _ & H); by apply Hn in H).
    split_and!; intros x; (split; [intros H; split; [exact H|]; (apply Hn || apply Ho)|by intros [H _]]).
  - cbn. split_and!; intros x; [apply keepSecrets_elem|apply keepBinding_elem|apply keepFiles_elem|apply keepBinding_elem].
Qed.

Lemma withRoutes_skipped (t : Profile) (bindings : list EnvBinding) (routes : list Route) :
  let skipped := (withRoutes t bindings routes).2 in
  (forall n, n ∈ skipped <-> route_secret routes n) /\ NoDup skipped /\ StronglySorted str_le skipped.
Proof.
  unfold withRoutes. case_bool_decide as Hb; cbn [snd].
  - split_and!; [|constructor..]. intros n. rewrite elem_of_nil. split; [done|apply (no_brokered routes Hb)].
  - split_and!; [|rewrite sort_strings_perm; apply NoDup_fst_map_to_list|apply sort_strings_sorted].
    intros n. rewrite sort_strings_perm, <- brokered_secret, list_elem_of_fmap. split.
    + intros ([k v] & -> & Hin%elem_of_map_to_list). by exists v.
    + intros [v Hv]. exists (n, v). split; [done|]. by apply elem_of_map_to_list.
Qed.

(** A run with routes delivers exactly what names none of the secrets that
    its routes inject, their client certificates and CAs included: a secret
    declaration, a variable of the profile or of the settings, and a file are
    kept exactly when none of their references is such a secret.  The run
    says which secrets those are, each once and in order. *)
Lemma withRoutes_exact (t : Profile) (bindings : list EnvBinding) (routes : list Route) :
  let '(t', bindings', skipped) := withRoutes t bindings routes in
  (forall d, d ∈ p_secrets t' <-> d ∈ p_secrets t /\ ~ route_secret routes (sd_name d)) /\
  (forall b, b ∈ p_env t' <-> b ∈ p_env t /\ ~ names_one (RefList b) (route_secret routes)) /\
  (forall b, b ∈ p_files t' <-> b ∈ p_files t /\ ~ names_one [fb_ref b] (route_secret routes)) /\
  (forall b, b ∈ bindings' <-> b ∈ bindings /\ ~ names_one (RefList b) (route_secret routes)) /\
  (forall n, n ∈ skipped <-> route_secret routes n) /\ NoDup skipped /\ StronglySorted str_le skipped.
Proof.
  pose proof (withRoutes_keeps t bindings routes) as H. pose proof (withRoutes_skipped t bindings routes) as Hs.
  destruct (withRoutes t bindings routes) as [[t' b'] skipped]. cbn [snd] in Hs. tauto.
Qed.

(** ** The host reads none of them *)

Lemma Load_routes_profile routes owner (t : Profile) (bindings : list EnvBinding) :
  (forall d, d ∈ p_secrets (ld_profile (Load_routes (Ok (routes, owner)) t bindings)) -> ~ route_secret routes (sd_name d)).
Proof.
  unfold Load_routes. destruct routes as [|r routes].
  - intros d _ (r & Hr & _). by apply elem_of_nil in Hr.
  - pose proof (withRoutes_keeps t bindings (r :: routes)) as H. destruct (withRoutes t bindings (r :: routes)) as [[t' b'] sk].
    destruct (withoutProjectVar b' (r :: routes)) as [[b'' rs] ws]. cbn [ld_profile]. intros d Hd. exact (proj2 (proj1 (proj1 H d) Hd)).
Qed.

(** A secret that a route injects never reaches the host side of a run.
    Whatever the store holds for it, or if it holds nothing, the run reads
    the same, is refused with the same error or gets the same set of
    variables and the same warnings, and none of the values it holds is that
    of such a secret. *)
Lemma BuildEnv_oblivious (routes : list Route) (owner : gmap gostr gostr) (t : Profile) (bindings : list EnvBinding) (sandbox : gostr)
    (s1 s2 : gostr -> res reason gostr) (lookup : gostr -> option gostr) (opt : Options) (g : git_settings)
    (setupGit : VarSet -> VarSet * option gostr) (Hs : forall n, ~ route_secret routes n -> s1 n = s2 n) :
  let ld := Load_routes (Ok (routes, owner)) t bindings in
  BuildEnv ld sandbox (Ok s1) lookup opt g setupGit = BuildEnv ld sandbox (Ok s2) lookup opt g setupGit /\
  forall set re, BuildEnv ld sandbox (Ok s1) lookup opt g setupGit = Ok (set, re) -> forall n, route_secret routes n -> re_values re !! n = None.
Proof.
  cbv zeta. set (ld := Load_routes (Ok (routes, owner)) t bindings).
  assert (forall d, d ∈ Needed lookup (ld_profile ld) -> ~ route_secret routes (sd_name d)) as Hneed.
  { intros d [Hd _]%Needed_elem. by apply (Load_routes_profile routes owner t bindings). }
  split.
  - unfold BuildEnv. rewrite (ResolveSecrets_needed (ld_profile ld) sandbox s1 s2); [done|]. intros d Hd. by apply Hs, Hneed.
  - intros set re H n Hn. unfold BuildEnv in H. apply res_bind_ok in H as (re' & Hr & H). apply map_err_ok in Hr.
    destruct (setupGit _) as [set' [e|]]; [done|]. injection H as <- <-.
    pose proof (secrets_cases (ld_profile ld) sandbox s1 lookup) as Hc. cbv zeta in Hc. rewrite Hr in Hc. destruct Hc as [_ Hc].
    rewrite Hc. apply decide_False. intros (d & -> & Hd)%list_elem_of_fmap. by apply (Hneed d Hd).
Qed.

(** ** The project and the home *)

Lemma env_value_none env n : (forall v, v ∈ env -> va_name v <> n) -> env_value env n = None.
Proof.
  induction env as [|v env IH]; [done|]. intros H. rewrite env_value_cons, IH by (intros w Hw; apply H; by right).
  apply decide_False, H. by left.
Qed.

Lemma env_value_filter (p : Var -> bool) env n : (forall v, va_name v = n -> p v = true) -> env_value (List.filter p env) n = env_value env n.
Proof.
  intros Hp. induction env as [|v env IH]; [done|]. cbn [List.filter]. destruct (p v) eqn:E; rewrite ?env_value_cons, IH; [done|].
  destruct (env_value env n); [done|]. rewrite decide_False; [done|]. intros H%Hp. congruence.
Qed.

Lemma env_value_named n env : existsb (fun v => bool_decide (va_name v = n)) env = negb (is_nil (env_value env n)).
Proof.
  induction env as [|v env IH]; [done|]. cbn [existsb]. rewrite IH, env_value_cons. destruct (env_value env n); [by rewrite orb_true_r|].
  rewrite orb_false_r. by case_bool_decide; destruct (decide _).
Qed.

(** The variables before [HOME] is put in front. *)
Definition own_vars (set routeVars : list Var) (guestProject : gostr) : list Var :=
  let own v := negb (bool_decide (va_name v = projectVar)) in
  List.filter own set ++ List.filter own routeVars ++ (if bool_decide (guestProject = []) then [] else [MkVar projectVar guestProject false]).

Lemma own_vars_value set routeVars guestProject n : env_value (own_vars set routeVars guestProject) n =
  if decide (n = projectVar) then if decide (guestProject = []) then None else Some guestProject
  else match env_value routeVars n with Some v => Some v | None => env_value set n end.
Proof.
  unfold own_vars. set (own := fun v => _). rewrite !env_value_app. destruct (decide (n = projectVar)) as [->|Hne].
  - assert (forall l, env_value (List.filter own l) projectVar = None) as Hf.
    { intros l. apply env_value_none. intros v [_ Hv]%list_filter_elem. unfold own in Hv. by apply negb_true_iff, bool_decide_eq_false in Hv. }
    rewrite !Hf. destruct (decide (guestProject = [])) as [->|Hg]; [done|]. by rewrite bool_decide_false by done.
  - assert (env_value (if bool_decide (guestProject = []) then [] else [MkVar projectVar guestProject false]) n = None) as ->.
    { case_bool_decide; [done|]. rewrite env_value_cons. cbn [va_name]. by rewrite decide_False by congruence. }
    rewrite !env_value_filter; [done| |]; intros v <-; unfold own; by rewrite bool_decide_false.
Qed.

(** The guest's environment is the variables of the run with those of the
    routes over them, but for two names that are brig's: [BRIG_PROJECT] is
    the project that brig mounts and nothing when it mounts none, whatever a
    binding or a route says, and [HOME] falls back to the guest's home. *)
Lemma guestEnv_exact (set routeVars : list Var) (guestProject guestHome n : gostr) :
  env_value (guestEnv set routeVars guestProject guestHome) n =
  if decide (n = projectVar) then if decide (guestProject = []) then None else Some guestProject
  else match env_value routeVars n with
       | Some v => Some v
       | None =>
         match env_value set n with
         | Some v => Some v
         | None => if decide (n = lit "HOME" /\ guestHome <> []) then Some guestHome else None
         end
       end.
Proof.
  unfold guestEnv. fold (own_vars set routeVars guestProject). rewrite (env_value_named (lit "HOME") set).
  assert (projectVar <> lit "HOME") as Hp by (vm_compute; discriminate).
  destruct (bool_decide_reflect (guestHome = [])) as [->|Hh].
  - rewrite own_vars_value. destruct (decide (n = projectVar)); [done|]. destruct (env_value routeVars n); [done|]. destruct (env_value set n); [done|].
    rewrite decide_False; [done|]. by intros [_ ?].
  - destruct (env_value set (lit "HOME")) as [v|] eqn:Es; cbn [is_nil negb]; rewrite ?env_value_cons, own_vars_value; cbn [va_name va_value];
      (destruct (decide (n = projectVar)) as [->|]; [by destruct (decide (guestProject = []))|]); (destruct (env_value routeVars n); [done|]).
    + destruct (env_value set n) eqn:En; [done|]. rewrite decide_False; [done|]. intros [-> _]. congruence.
    + destruct (env_value set n); [done|]. destruct (decide (n = lit "HOME")) as [->|Hn]; [by rewrite !decide_True|].
      rewrite !decide_False; [done|by intros [? _]|by apply not_eq_sym].
Qed.

(** ** The names that the settings forward *)

Lemma firsts_snoc `{EqDecision A} (l : list A) x : firsts (l ++ [x]) = if decide (x ∈ firsts l) then firsts l else firsts l ++ [x].
Proof. by rewrite firsts_app. Qed.

Section Forwarded.
Variable bound : list gostr.
Definition unbound (n : gostr) : bool := negb (mem n bound).

Lemma unbound_one n : List.filter unbound [n] = if mem n bound then [] else [n].
Proof. cbn. unfold unbound. by destruct (mem n bound). Qed.

Lemma forward_loop names kept :
  exists added,
  foldl (fun '(kept, warnings, added) name =>
      if mem name bound then (kept, warnings ++ [name], added)
      else if mem name added then (kept, warnings, added)
      else (kept ++ [env_binding name], warnings, name :: added)) (kept, [], []) names =
  (kept ++ (env_binding <$> List.filter unbound (firsts names)), List.filter (fun n => mem n bound) names, added) /\
  (forall n, n ∈ added <-> n ∈ List.filter unbound (firsts names)).
Proof.
  induction names as [|x names IH] using rev_ind; [exists []; cbn; by rewrite app_nil_r|].
  destruct IH as (added & E & Ha). rewrite foldl_app, E. cbn [foldl]. rewrite firsts_snoc, List.filter_app. cbn [List.filter].
  destruct (mem x bound) eqn:Hb.
  - exists added. assert (List.filter unbound (if decide (x ∈ firsts names) then firsts names else firsts names ++ [x]) = List.filter unbound (firsts names)) as ->.
    { destruct (decide _); [done|]. rewrite List.filter_app, unbound_one, Hb. by rewrite app_nil_r. }
    by split.
  - rewrite app_nil_r. assert (mem x added = bool_decide (x ∈ firsts names)) as ->.
    { destruct (mem x added) eqn:Hm; symmetry; [apply bool_decide_eq_true|apply bool_decide_eq_false]; revert Hm.
      - rewrite mem_true, Ha, list_filter_elem. tauto.
      - rewrite mem_false, Ha, list_filter_elem. unfold unbound. rewrite Hb. tauto. }
    case_bool_decide as Hf; [rewrite decide_True by done; by exists added|]. rewrite decide_False by done. exists (x :: added).
    rewrite List.filter_app, unbound_one, Hb, fmap_app. split; [by rewrite app_assoc|].
    intros n. rewrite elem_of_cons, elem_of_app, Ha, list_elem_of_singleton. tauto.
Qed.
End Forwarded.

(** [BRIG_FORWARD_ENV] replaces the bindings that read the shell.  The
    others stay as they are and win over a name of the setting, which is
    ignored with a warning; every other name is bound once, to itself in the
    shell, in the order of its first mention. *)
Lemma envOverride_exact (bindings : list EnvBinding) (names : list gostr) :
  let kept := List.filter (fun b => negb (reads_shell b)) bindings in
  let bound := eb_name <$> kept in
  envOverride bindings names =
  match names with
  | [] => (bindings, [])
  | _ => (kept ++ (env_binding <$> List.filter (unbound bound) (firsts names)), List.filter (fun n => mem n bound) names)
  end.
Proof.
  cbv zeta. unfold envOverride. destruct names as [|x names]; [done|].
  rewrite (foldl_keeps (fun b => negb (reads_shell b))); [|by intros out b; destruct (reads_shell b)]. cbn [app].
  destruct (forward_loop (eb_name <$> List.filter (fun b => negb (reads_shell b)) bindings) (x :: names)
    (List.filter (fun b => negb (reads_shell b)) bindings)) as (added & -> & _). done.
Qed.

(** ** A run whose route injects a secret of the profile *)

Definition gh_route : Route :=
  MkRoute (lit "gh") [] [] (lit "https://api.github.com") (Some (MkCredentialRef (MkSecretRef (lit "gh-token")) [] [])) None None None None false.

Definition other_store (n : gostr) : res reason gostr := Err NotFound.

Lemma other_store_same n : ~ route_secret [gh_route] n -> example_store n = other_store n.
Proof.
  intros H. unfold example_store. rewrite bool_decide_false; [done|]. intros ->. apply H. exists gh_route.
  split; [by left|]. apply list_elem_of_singleton. reflexivity.
Qed.

Definition no_git (s : VarSet) : VarSet * option gostr := (s, None).

(** The profile of the examples runs with an empty store, without its
    [GH_TOKEN]. *)
Example BuildEnv_oblivious_witness :
  let ld := Load_routes (Ok ([gh_route], ∅)) example_profile (p_env example_profile) in
  ld_skipped ld = [lit "gh-token"] /\
  match BuildEnv ld (lit "brig-x") (Ok other_store) example_shell (MkOptions false false) (MkGitSettings [] false [] []) no_git with
  | Ok (set, _) => vs_names set = [lit "IS_SANDBOX"; lit "CLAUDE_CONFIG_DIR"]
  | Err _ => False
  end.
Proof.
  cbv zeta. split; [vm_compute; reflexivity|].
  destruct (BuildEnv_oblivious [gh_route] ∅ example_profile (p_env example_profile) (lit "brig-x") example_store other_store example_shell
    (MkOptions false false) (MkGitSettings [] false [] []) no_git other_store_same) as [<- _].
  vm_compute. reflexivity.
Defined.
