(* ===== verification/RouteStore.v ===== *)
(** * [internal/wrap]: what the store says of the routes' secrets

    routestore.go, certexpiry.go and expiry.go: before a boot brig lists the
    store, reads no value, and refuses a run whose routes inject a secret that
    the store does not hold.  A listing is an argument, and a warning is what
    it says rather than its text. *)

From stdpp Require Import prelude list strings gmap sorting.
From Stdlib Require Import ZArith Lia ZifyNat Ascii.
From S2P Require Import Prelude GoUnicode GoStrings GoNum RouteTypes Profile Creds GuestEnv HostSide.

Local Open Scope Z_scope.

(** What [List] answers: each name with the expiry of its provenance, in
    milliseconds, 0 for none. *)
Definition store_listing := list (gostr * Z).

(** A store that opens and may be able to list. *)
Definition list_store := res reason (option (res reason store_listing)).

Record routeStore := MkRouteStore { rs_missing : list gostr; rs_err : option reason; rs_certExpiry : gmap gostr Z }.

Definition no_store : routeStore := MkRouteStore [] None ∅.

(** ** certexpiry.go *)

Definition certWarnAhead : Z := 3 * 24 * 3600 * 1000.

Definition client_certificate (r : Route) : option gostr :=
  match rt_inject r ≫= in_tls with
  | Some t => (fun c => sr_name (cr_secretRef c)) <$> ti_clientCertificate t
  | None => None
  end.

Definition clientCertificateSecrets (routes : list Route) : gmap gostr (list gostr) :=
  sort_strings <$> foldl (fun out r =>
    match client_certificate r with
    | Some name => if bool_decide (name = []) then out else <[name := default [] (out !! name) ++ [rt_name r]]> out
    | None => out
    end) ∅ routes.

Definition routeNames (routes : list gostr) : gostr :=
  match routes with [r] => lit "route " ++ r | _ => lit "routes " ++ join (lit ", ") routes end.

(** A [time.Duration] of some milliseconds, in nanoseconds. *)
Definition duration (millis : Z) : Z := wrap64 (millis * 1000000).
Definition ns_minute : Z := 60 * 1000000000.
Definition ns_hour : Z := 60 * ns_minute.

Definition until (millis : Z) : gostr :=
  let d := duration millis in
  if d <? ns_hour then lit "less than an hour"
  else if d <? 24 * ns_hour then itoa (d / ns_hour) ++ lit "h"
  else itoa (d / ns_hour / 24) ++ lit "d".

(** [ago] of expiry.go. *)
Definition ago (elapsedMillis : Z) : gostr :=
  let d := duration elapsedMillis in
  if d <? ns_minute then lit "moments ago"
  else if d <? ns_hour then itoa (d / ns_minute) ++ lit "m ago"
  else if d <? 24 * ns_hour then itoa (d / ns_hour) ++ lit "h ago"
  else itoa (d / ns_hour / 24) ++ lit "d ago".

Inductive expiry_warning :=
  | CertExpired (name routes since : gostr)
  | CertExpires (name routes left : gostr)
  | ImportExpired (name profile since : gostr) (importable : bool).

Definition warnExpiringCertificates (st : routeStore) (routes : list Route) (now : Z) : list expiry_warning :=
  let names := sort_strings (foldl (fun names e => if e.2 =? 0 then names else names ++ [e.1]) [] (map_to_list (rs_certExpiry st))) in
  let by_secret := clientCertificateSecrets routes in
  foldl (fun out name =>
    let left := wrap64 (default 0 (rs_certExpiry st !! name) - now) in
    let rs := routeNames (default [] (by_secret !! name)) in
    if certWarnAhead <? left then out
    else if left <? 0 then out ++ [CertExpired name rs (ago (wrap64 (- left)))]
    else out ++ [CertExpires name rs (until left)]) [] names.

(** ** expiry.go *)

(** [listSecrets]: the last entry of a name, when the listing answers.  No
    store is opened for a profile that declares no secret. *)
Definition listSecrets (p : Profile) (open : option list_store) : option (gmap gostr Z) :=
  match p_secrets p with
  | [] => None
  | _ =>
    match open with
    | Some (Ok (Some (Ok l))) => Some (foldl (fun m e => <[e.1 := e.2]> m) ∅ l)
    | _ => None
    end
  end.

Definition warnExpiredSecrets (p : Profile) (open : option list_store) (now : Z) : list expiry_warning :=
  match listSecrets p open with
  | None => []
  | Some secrets =>
    foldl (fun out d =>
      match secrets !! sd_name d with
      | Some expires =>
        if (expires =? 0) || (now <=? expires) then out
        else out ++ [ImportExpired (sd_name d) (p_name p) (ago (wrap64 (now - expires))) (Importable d)]
      | None => out
      end) [] (p_secrets p)
  end.

(** ** routestore.go *)

Definition checkRouteStore (skipped : list gostr) (routes : list Route) (open : list_store) : routeStore :=
  match skipped with
  | [] => no_store
  | _ =>
    match open with
    | Err e => MkRouteStore [] (Some e) ∅
    | Ok None => no_store
    | Ok (Some (Err e)) => MkRouteStore [] (Some e) ∅
    | Ok (Some (Ok l)) =>
      let expiry : gmap gostr Z := foldl (fun m e => <[e.1 := e.2]> m) ∅ l in
      let certs := foldl (fun m name => match expiry !! name with Some e => <[name := e]> m | None => m end) ∅
        (map_to_list (clientCertificateSecrets routes)).*1 in
      MkRouteStore (foldl (fun missing name => match expiry !! name with Some _ => missing | None => missing ++ [name] end) [] skipped) None certs
    end
  end.

Section Run.
(** Of the [Config]: the routes, the policy of each, the profile's name and
    its declarations, the sandbox, and the secrets that the routes inject. *)
Variable routes : list Route.
Variable routePolicy : gmap gostr gostr.
Variables profile_name sandbox : gostr.
Variable routeDecls : list SecretDecl.
Variable skipped : list gostr.

Definition routeDecl (name : gostr) : SecretDecl :=
  default (MkSecretDecl name None [] [] None [] [] [] [] []) (List.find (fun d => bool_decide (sd_name d = name)) routeDecls).

Definition create_plain (name : gostr) : gostr := lit "brig secret create " ++ name.
Definition create_typed (name type : gostr) : gostr := create_plain name ++ lit " --type " ++ type ++ lit " -f <file>".

Definition ca_secret (r : Route) : option gostr :=
  match rt_inject r ≫= in_tls with
  | Some t => (fun c => sr_name (cr_secretRef c)) <$> ti_ca t
  | None => None
  end.

(** The loop, which returns at the first client certificate. *)
Fixpoint create_loop (name typ : gostr) (l : list Route) : gostr :=
  match l with
  | [] => if bool_decide (typ = []) then create_plain name else create_typed name typ
  | r :: l' =>
    if bool_decide (client_certificate r = Some name) then create_typed name (lit "tls")
    else create_loop name (if bool_decide (ca_secret r = Some name) then lit "ca" else typ) l'
  end.
Definition routeCreateCommand (name : gostr) : gostr := create_loop name [] routes.

Definition routeSecretFix (names : list gostr) : gostr :=
  join (lit ", ") (foldl (fun '(cmds, imported) name =>
    if negb (Importable (routeDecl name)) then (cmds ++ [routeCreateCommand name], imported)
    else if (imported : bool) then (cmds, imported)
    else (cmds ++ [lit "brig secret import " ++ profile_name], true)) ([], false) names).1.

Definition routedBy (names : list gostr) : gostr :=
  join (lit ", ") (foldl (fun out r =>
    if existsb (fun name => mem name (routeSecretNames r)) names then out ++ [named_in routePolicy r] else out) [] routes).

Inductive store_refusal :=
  | StoreUnavailable (by_routes names : gostr) (cause : reason) (advice : option gostr)
  | SecretsMissing (by_routes : gostr) (e : CredentialError).

(** Why the run is refused; the advice is the command to run on Linux. *)
Definition routeStoreRefusal (st : routeStore) : option store_refusal :=
  match rs_err st with
  | Some e =>
    Some (StoreUnavailable (routedBy skipped) (join (lit ", ") skipped) e
      (match e with Unsupported => Some (routeSecretFix skipped) | _ => None end))
  | None =>
    match rs_missing st with
    | [] => None
    | names =>
      let missing := foldl (fun out name =>
        out ++ [MkMissing name true (Importable (routeDecl name)) NotFound (HintText (routeDecl name)) (routeCreateCommand name)]) [] names in
      Some (SecretsMissing (routedBy names) (MissingSecrets sandbox profile_name missing))
    end
  end.

Definition routeStoreLine (st : routeStore) : list gostr :=
  match skipped with
  | [] => []
  | _ =>
    (lit "kept on the host: " ++ join (lit ", ") skipped) ::
    match rs_err st, rs_missing st with
    | Some _, _ => [lit "brig's secret store is not available on this host, so the run is refused"]
    | None, [] => []
    | None, names =>
      [lit "not in brig's secret store: " ++ join (lit ", ") names ++ lit ", so the run is refused; " ++ routeSecretFix names]
    end
  end.

Definition routeStoreFacts (st : routeStore) : list gostr * option reason * option store_refusal :=
  (rs_missing st, rs_err st, routeStoreRefusal st).
End Run.

(** ** What the listing decides *)

Lemma listed_lookup (l : store_listing) n : is_Some (foldl (fun m e => <[e.1 := e.2]> m) (∅ : gmap gostr Z) l !! n) <-> n ∈ l.*1.
Proof.
  assert (forall m : gmap gostr Z, is_Some (foldl (fun m e => <[e.1 := e.2]> m) m l !! n) <-> is_Some (m !! n) \/ n ∈ l.*1) as ->.
  { induction l as [|[k v] l IH]; intros m; cbn [foldl fmap list_fmap fst snd].
    - rewrite elem_of_nil. tauto.
    - rewrite IH, lookup_insert_is_Some', elem_of_cons. naive_solver. }
  rewrite lookup_empty. split; [by intros [[? ?]|?]|by right].
Qed.

(** The names that the store does not hold, in the order of the run's list. *)
Lemma missing_filter skipped routes l : rs_err (checkRouteStore skipped routes (Ok (Some (Ok l)))) = None /\
  rs_missing (checkRouteStore skipped routes (Ok (Some (Ok l)))) = List.filter (fun n => negb (mem n l.*1)) skipped.
Proof.
  destruct skipped as [|x skipped]; [done|]. split; [done|]. cbn [checkRouteStore rs_missing].
  rewrite (foldl_keeps (fun n => negb (mem n l.*1))); [done|]. intros out n.
  destruct (foldl _ _ l !! n) as [e|] eqn:E.
  - assert (mem n l.*1 = true) as ->; [|done]. apply mem_true, listed_lookup. by rewrite E.
  - assert (mem n l.*1 = false) as ->; [|done]. apply mem_false. rewrite <- listed_lookup, E. by intros [? ?].
Qed.

Definition missing_of (routes : list Route) (decls : list SecretDecl) (name : gostr) : Missing :=
  MkMissing name true (Importable (routeDecl decls name)) NotFound (HintText (routeDecl decls name)) (routeCreateCommand routes name).

(** The command that stores a secret as what the routes use it for: a client
    certificate before a CA. *)
Definition create_spec (routes : list Route) (name : gostr) : gostr :=
  if existsb (fun r => bool_decide (client_certificate r = Some name)) routes then create_typed name (lit "tls")
  else if existsb (fun r => bool_decide (ca_secret r = Some name)) routes then create_typed name (lit "ca")
  else create_plain name.

Lemma routeCreateCommand_spec routes name : routeCreateCommand routes name = create_spec routes name.
Proof.
  unfold routeCreateCommand, create_spec. assert (forall ca : bool, create_loop name (if ca then lit "ca" else []) routes =
    if existsb (fun r => bool_decide (client_certificate r = Some name)) routes then create_typed name (lit "tls")
    else if ca || existsb (fun r => bool_decide (ca_secret r = Some name)) routes then create_typed name (lit "ca")
    else create_plain name) as H; [|exact (H false)].
  induction routes as [|r routes IH]; intros ca; [by destruct ca|]. cbn [create_loop existsb].
  destruct (bool_decide (client_certificate r = Some name)); [done|]. cbn [orb].
  assert ((if bool_decide (ca_secret r = Some name) then lit "ca" else if ca then lit "ca" else []) =
    if bool_decide (ca_secret r = Some name) || ca then lit "ca" else []) as -> by (by destruct (bool_decide _), ca).
  rewrite IH. by rewrite (orb_comm (bool_decide _) ca), <- orb_assoc.
Qed.

(** Before it boots, a run with routes is refused for its store exactly
    when the listing lacks a secret that one of its routes injects.  The
    refusal names every such secret, each once and in order, as required and
    not found, with the command that stores it as what the route uses it
    for. *)
Lemma routeStoreRefusal_exact (t : Profile) (bindings : list EnvBinding) (routes : list Route) (routePolicy : gmap gostr gostr)
    (profile_name sandbox : gostr) (decls : list SecretDecl) (l : store_listing) :
  let skipped := (withRoutes t bindings routes).2 in
  match routeStoreRefusal routes routePolicy profile_name sandbox decls skipped (checkRouteStore skipped routes (Ok (Some (Ok l)))) with
  | None => forall n, route_secret routes n -> n ∈ l.*1
  | Some (SecretsMissing _ (MissingSecrets s p ms)) =>
      (s, p) = (sandbox, profile_name) /\ ms <> [] /\ NoDup (mi_name <$> ms) /\ StronglySorted str_le (mi_name <$> ms) /\
      (forall n, n ∈ mi_name <$> ms <-> route_secret routes n /\ n ∉ l.*1) /\
      (forall m, m ∈ ms -> mi_required m = true /\ mi_reason m = NotFound /\ mi_create m = create_spec routes (mi_name m))
  | _ => False
  end.
Proof.
  cbv zeta. pose proof (withRoutes_skipped t bindings routes) as (Hs & Hnd & Hso). set (skipped := (withRoutes t bindings routes).2) in *.
  destruct (missing_filter skipped routes l) as [He Hm]. unfold routeStoreRefusal. rewrite He, Hm.
  assert (forall n, n ∈ List.filter (fun n => negb (mem n l.*1)) skipped <-> route_secret routes n /\ n ∉ l.*1) as Hn.
  { intros n. rewrite list_filter_elem, Hs, negb_true_iff, mem_false. done. }
  destruct (List.filter _ skipped) as [|x names] eqn:E.
  - intros n Hr. destruct (decide (n ∈ l.*1)) as [|Hno]; [done|]. by apply (conj Hr), Hn, elem_of_nil in Hno.
  - rewrite (foldl_snoc_map (missing_of routes decls)). cbn [app]. rewrite <- E in *.
    assert (mi_name <$> (missing_of routes decls <$> List.filter (fun n => negb (mem n l.*1)) skipped) = List.filter (fun n => negb (mem n l.*1)) skipped) as Eq.
    { rewrite <- list_fmap_compose. apply list_fmap_id. }
    rewrite Eq. split_and!; [done|by rewrite E| | |done|].
    + by apply list_filter_NoDup.
    + by apply list_filter_sorted.
    + intros m (n & -> & _)%list_elem_of_fmap. split_and!; [done|done|apply routeCreateCommand_spec].
Qed.
