(* ===== verification/Settings.v ===== *)
(** * [internal/wrap/env.go]: the settings of a run

    A setting is looked up for the agent first and then for every agent, and
    is read as a string, a switch, a number or a list.  The environment is an
    argument. *)

From stdpp Require Import prelude list strings gmap.
From Stdlib Require Import ZArith Lia ZifyNat Ascii.
From S2P Require Import Prelude GoUnicode GoStrings GoNum GuestEnv.

Local Open Scope Z_scope.

Record Env := MkEnv { en_get : gostr -> option gostr; en_prefix : gostr }.

(** [NewEnv], with the environment that [os.LookupEnv] reads. *)
Definition NewEnv (profileName : gostr) (get : gostr -> option gostr) : Env :=
  MkEnv get (lit "BRIG_" ++ to_upper (replace_all (lit "-") (lit "_") profileName)).

Definition getNamed (e : Env) (key : gostr) : option (gostr * gostr) :=
  match en_get e (en_prefix e ++ lit "_" ++ key) with
  | Some v => Some (en_prefix e ++ lit "_" ++ key, v)
  | None =>
    match en_get e (lit "BRIG_" ++ key) with
    | Some v => Some (lit "BRIG_" ++ key, v)
    | None => None
    end
  end.

(** [Env.Get]. *)
Definition setting_of (e : Env) (key : gostr) : option gostr := snd <$> getNamed e key.

(** [Env.String]. *)
Definition String_ (e : Env) (key fallback : gostr) : gostr :=
  match setting_of e key with Some v => if bool_decide (v = []) then fallback else v | None => fallback end.

(** [Env.Bool]. *)
Definition Bool_ (e : Env) (key : gostr) (fallback : bool) : bool :=
  match setting_of e key with
  | Some v => if bool_decide (v = []) then fallback else negb (bool_decide (v = lit "0"))
  | None => fallback
  end.

(** The refusal names the variable and quotes its value. *)
Inductive setting_error := NotUnderstood (name value : gostr).

Definition on_words : list gostr := lit <$> ["1"; "true"; "yes"; "on"].
Definition off_words : list gostr := lit <$> ["0"; "false"; "no"; "off"].

Definition StrictBool (e : Env) (key : gostr) (fallback : bool) : res setting_error bool :=
  match getNamed e key with
  | None => Ok fallback
  | Some (name, v) =>
    let v := trim_space v in
    if bool_decide (v = []) then Ok fallback
    else if mem (to_lower v) on_words then Ok true
    else if mem (to_lower v) off_words then Ok false
    else Err (NotUnderstood name v)
  end.

Definition setting (e : Env) (key : gostr) : gostr :=
  match getNamed e key with Some (name, value) => name ++ lit "=" ++ value | None => lit "BRIG_" ++ key end.

Definition SettingName (e : Env) (key : gostr) : gostr :=
  match getNamed e key with Some (name, _) => name | None => lit "BRIG_" ++ key end.

(** The loop of [Env.Int], on an [int] of 64 bits; [None] is the return of the
    fallback. *)
Fixpoint int_loop (n : Z) (l : list Z) : option Z :=
  match l with
  | [] => Some n
  | r :: l' => if (r <? 48) || (57 <? r) then None else int_loop (wrap64 (wrap64 (n * 10) + (r - 48))) l'
  end.

(** [Env.Int]. *)
Definition Int_ (e : Env) (key : gostr) (fallback : Z) : Z :=
  match setting_of e key with
  | Some v =>
    if bool_decide (v = []) then fallback
    else match int_loop 0 (runes v) with Some n => if n =? 0 then fallback else n | None => fallback end
  | None => fallback
  end.

Definition Fields (e : Env) (key : gostr) (fallback : list gostr) : list gostr :=
  match setting_of e key with
  | Some v => if bool_decide (trim_space v = []) then fallback else fields v
  | None => fallback
  end.

(** ** Which setting is read *)

(** The setting of one agent wins, and the error and the reports name the
    variable that was read. *)
Lemma getNamed_agent e key v : en_get e (en_prefix e ++ lit "_" ++ key) = Some v ->
  setting_of e key = Some v /\ SettingName e key = en_prefix e ++ lit "_" ++ key.
Proof. intros H. unfold setting_of, SettingName, getNamed. by rewrite H. Qed.

(** ** Numbers *)

Lemma int_loop_ok s : forall n v, Forall (fun c => is_digit c = true) s -> 0 <= n -> value_of n s = Some v -> v < 2 ^ 63 -> int_loop n (bz <$> s) = Some v.
Proof.
  induction s as [|c s IH]; intros n v Hd Hn Hv Hmax; [done|].
  pose proof (proj1 (Forall_cons _ _ _) Hd) as [Hdc Hs]. pose proof Hdc as Hc. unfold is_digit in Hc. apply in_range_true in Hc.
  cbn [fmap list_fmap int_loop value_of] in *. rewrite Hdc in Hv.
  destruct (Z.ltb_spec (bz c) 48); [lia|]. destruct (Z.ltb_spec 57 (bz c)); [lia|]. cbn [orb].
  assert (n * 10 + (bz c - 48) <= v) as Hle.
  { clear -Hv Hs Hn Hc. assert (0 <= n * 10 + (bz c - 48)) as Hp by lia. revert Hp Hv. generalize (n * 10 + (bz c - 48)). clear -Hs.
    induction Hs as [|d s Hd Hs IH]; intros m Hm Hv; [injection Hv; lia|]. cbn [value_of] in Hv. rewrite Hd in Hv.
    unfold is_digit in Hd. apply in_range_true in Hd. apply IH in Hv; lia. }
  rewrite (wrap64_id (n * 10)) by lia. rewrite wrap64_id by lia. apply IH; [done|lia|done|done].
Qed.

(** A number that a user writes in decimal is read back as that number, for
    the agent or for every agent, up to the largest [int]; beyond that the
    value wraps. *)
Lemma Int_written (e : Env) (key : gostr) (fallback n : Z) (Hset : setting_of e key = Some (utoa n)) (Hn : 0 < n < 2 ^ 63) :
  Int_ e key fallback = n.
Proof.
  unfold Int_. rewrite Hset. destruct (utoa_cons n) as (c & s & E). rewrite bool_decide_false by (rewrite E; done).
  pose proof (utoa_digits n ltac:(lia)) as Hd. rewrite runes_ascii.
  - rewrite (int_loop_ok (utoa n) 0 n); [|done|lia|apply utoa_value; lia|lia]. destruct (Z.eqb_spec n 0); [lia|done].
  - eapply Forall_impl; [exact Hd|]. intros d Hdd. unfold is_digit in Hdd. apply in_range_true in Hdd. apply is_ascii_bz. lia.
Qed.

Definition example_env : Env := NewEnv (lit "claude-code") (fun n => if bool_decide (n = lit "BRIG_CLAUDE_CODE_CPUS") then Some (utoa 12) else None).

Example Int_written_witness : Int_ example_env (lit "CPUS") 4 = 12.
Proof. apply (Int_written example_env (lit "CPUS") 4 12); [vm_compute; reflexivity|lia]. Defined.

(** The largest [int] and one more, twice over. *)
Example Int_wraps : Int_ (MkEnv (fun _ => Some (lit "18446744073709551617")) []) (lit "CPUS") 4 = 1.
Proof. vm_compute. reflexivity. Qed.
