(* ===== verification/GitFiles.v ===== *)
(** * [internal/wrap/git.go]: the git of the guest

    Who the guest commits as, the two files that brig writes into the
    workspace, and the section that includes one of them in the [.gitconfig]
    that the agent owns.  What git and the host's files answer are
    arguments. *)

From stdpp Require Import prelude list strings gmap.
From Stdlib Require Import ZArith Lia ZifyNat Ascii.
From S2P Require Import Prelude GoUnicode GoStrings RouteTypes Profile Creds Volumes GuestEnv HostSide Settings.

Local Open Scope Z_scope.

Definition nl : byte := zb 10.
Definition tab : byte := zb 9.

Definition credentialHelper : gostr := lit ".brig-git-credential".
Definition managedGitconfigName : gostr := lit ".gitconfig.brig".
Definition includePath : gostr := lit "~/" ++ managedGitconfigName.

(** ** The identity of the host *)

(** The lines of a [bufio.Scanner], which stops at one of 64 KiB. *)
Definition scan_lines (s : gostr) : list gostr :=
  let l := split_byte nl s in
  let l := match last l with Some [] => take (length l - 1) l | _ => l end in
  (fun line => default line (strip_suffix [zb 13] line)) <$>
    (fix short l := match l with [] => [] | x :: l' => if (Z.of_nat (length x) <? 65536) then x :: short l' else [] end) l.

(** A line that starts a stanza: neither indented nor a comment. *)
Definition starts_stanza (line : gostr) : bool :=
  negb (has_prefix line (lit " ")) && negb (has_prefix line [tab]) && negb (has_prefix (trim_space line) (lit "#")).

Fixpoint gh_loop (host : gostr) (inHost : bool) (lines : list gostr) : gostr :=
  match lines with
  | [] => []
  | line :: rest =>
    if bool_decide (line = []) then gh_loop host inHost rest
    else if starts_stanza line then gh_loop host (bool_decide (trim_space line = host ++ lit ":")) rest
    else if negb inHost then gh_loop host inHost rest
    else
      let '(k, v, ok) := cut (trim_space line) (lit ":") in
      if (ok : bool) && bool_decide (k = lit "user") then trim_space v else gh_loop host inHost rest
  end.

(** How the open of [hosts.yml] ends: its text, a file that is not a regular
    one, or gh not set up. *)
Inductive hosts_file := HostsText (s : gostr) | HostsNotRegular (e : gostr) | HostsAbsent.

Definition ghHostsUser (file : hosts_file) (host : gostr) : res gostr gostr :=
  match file with
  | HostsText s => Ok (gh_loop host false (scan_lines s))
  | HostsNotRegular e => Err e
  | HostsAbsent => Ok []
  end.

Definition primaryGitHost (hosts : list gostr) : gostr := match hosts with [] => lit "github.com" | h :: _ => h end.

(** [git config --get] in the directory of the command: its output, or
    [None]. *)
Definition gitConfigValue (run : gostr -> option gostr) (key : gostr) : gostr :=
  match run key with Some out => trim_space out | None => [] end.

Definition hostGitUser (run : gostr -> option gostr) (file : hosts_file) (hosts : list gostr) : res gostr (option gostr) :=
  let u := gitConfigValue run (lit "github.user") in
  let? u := if bool_decide (u = []) then ghHostsUser file (primaryGitHost hosts) else Ok u in
  if bool_decide (u = []) || contains_any u [" "%char; tab] then Ok None else Ok (Some u).

Record git_identity := MkIdentity { id_name : gostr; id_email : gostr; id_user : gostr; id_fromHost : bool }.

Definition resolveGitIdentity (e : Env) (run : gostr -> option gostr) (file : hosts_file) (hosts : list gostr) : res gostr git_identity :=
  let name := String_ e (lit "GIT_NAME") (gitConfigValue run (lit "user.name")) in
  let email := String_ e (lit "GIT_EMAIL") (gitConfigValue run (lit "user.email")) in
  let? user := hostGitUser run file hosts in
  match user with
  | Some user => Ok (MkIdentity name email (String_ e (lit "GIT_USER") user) true)
  | None => Ok (MkIdentity name email (String_ e (lit "GIT_USER") (lit "x-access-token")) false)
  end.

(** ** The files *)

Definition line (s : string) : gostr := script s ++ [nl].

Definition credentialHelperScript : gostr :=
  line "#!/bin/sh" ++
  line "# Managed by brig -- regenerated every run, local edits are lost." ++
  line "[ `$1` = get ] || exit 0" ++
  line "[ -n `${GH_TOKEN:-}` ] || exit 0" ++
  line "printf 'username=%s\n' `${BRIG_GIT_USER:-${URUNC_GIT_USER:-x-access-token}}`" ++
  line "printf 'password=%s\n' `$GH_TOKEN`".

Definition git_host_section (guestHome host : gostr) : gostr :=
  [nl] ++ script "[url `https://" ++ host ++ script "/`]" ++ [nl] ++
  [tab] ++ lit "insteadOf = git@" ++ host ++ lit ":" ++ [nl] ++
  [tab] ++ lit "insteadOf = ssh://git@" ++ host ++ lit "/" ++ [nl] ++
  script "[credential `https://" ++ host ++ script "`]" ++ [nl] ++
  [tab] ++ lit "helper = " ++ guestHome ++ lit "/" ++ credentialHelper ++ [nl].

Definition managedGitconfig (hosts : list gostr) (guestHome : gostr) : gostr :=
  foldl (fun b host => b ++ git_host_section guestHome host)
    (line "# Managed by brig -- regenerated every run, local edits are lost." ++
     line "# Sends SSH GitHub remotes over HTTPS instead, authenticated by GH_TOKEN.") hosts.

(** The text before a comment. *)
Definition without_comment (s : gostr) : gostr :=
  if contains_any s (lit "#;") then trim_space (before_any s (lit "#;")) else s.

Fixpoint wired_loop (inInclude : bool) (lines : list gostr) : bool :=
  match lines with
  | [] => false
  | raw :: rest =>
    let line := without_comment (trim_space raw) in
    if bool_decide (line = []) then wired_loop inInclude rest
    else if has_prefix line (lit "[") then wired_loop (equal_fold (trim_space (trim line (lit "[]"))) (lit "include")) rest
    else if negb inInclude then wired_loop inInclude rest
    else
      let '(key, value, ok) := cut line (lit "=") in
      if negb ok || negb (equal_fold (trim_space key) (lit "path")) then wired_loop inInclude rest
      else if bool_decide (trim_space value = includePath) then true
      else wired_loop inInclude rest
  end.

Definition includeIsWired (blob : gostr) : bool := wired_loop false (split_byte nl blob).

Definition include_section : gostr := lit "[include]" ++ [nl; tab] ++ lit "path = " ++ includePath ++ [nl].

(** [wireInclude] on the bytes of [.gitconfig], none for a file that is not
    there: the bytes after it, and whether it warns of a broken include. *)
Definition wireInclude (existing : gostr) : gostr * bool :=
  if includeIsWired existing then (existing, false)
  else
    let existing' := match last existing with
                     | Some c => if Ascii.eqb c nl then existing else existing ++ [nl]
                     | None => existing
                     end in
    (existing' ++ include_section, contains existing managedGitconfigName).

(** [SetupGit]: the variables that it adds and how it ends.  [opened], [write]
    and [wire] are the errors of the workspace. *)
Definition SetupGit (enabled : bool) (opened : option gostr) (write : gostr -> gostr -> Z -> option gostr) (wire : option gostr)
    (id : git_identity) (hosts : list gostr) (guestHome : gostr) (set : VarSet) : VarSet * option gostr :=
  if negb enabled then (set, None)
  else match opened with
       | Some e => (set, Some e)
       | None =>
         let set := set_AddPlumbing (set_AddPlumbing set (lit "BRIG_GIT_USER") (id_user id)) (lit "URUNC_GIT_USER") (id_user id) in
         match write credentialHelper credentialHelperScript 493 with
         | Some e => (set, Some e)
         | None =>
           match write managedGitconfigName (managedGitconfig hosts guestHome) 420 with
           | Some e => (set, Some e)
           | None => (set, wire)
           end
         end
       end.

(** ** The login of one host *)

(** What [gh_loop] returns stands in the stanza of its host: under the last
    line that starts a stanza, which is that of the host. *)
Definition login_at (host : gostr) (lines : list gostr) (user : gostr) : Prop :=
  exists pre header body line post,
    lines = pre ++ header :: body ++ line :: post /\
    starts_stanza header = true /\ trim_space header = host ++ lit ":" /\
    Forall (fun l => l = [] \/ starts_stanza l = false) body /\ starts_stanza line = false /\
    exists v, cut (trim_space line) (lit ":") = (lit "user", v, true) /\ user = trim_space v.

Lemma gh_loop_login host lines : forall inHost pre header body,
  (inHost = true -> starts_stanza header = true /\ trim_space header = host ++ lit ":" /\ Forall (fun l => l = [] \/ starts_stanza l = false) body) ->
  gh_loop host inHost lines <> [] ->
  login_at host (pre ++ header :: body ++ lines) (gh_loop host inHost lines).
Proof.
  induction lines as [|l lines IH]; intros inHost pre header body Hin Hne; [done|].
  cbn [gh_loop] in *.
  assert (forall b, (b = true -> starts_stanza header = true /\ trim_space header = host ++ lit ":" /\ Forall (fun l => l = [] \/ starts_stanza l = false) (body ++ [l])) ->
    gh_loop host b lines <> [] -> login_at host (pre ++ header :: body ++ l :: lines) (gh_loop host b lines)) as Hstay.
  { intros b Hb Hn. specialize (IH b pre header (body ++ [l]) Hb Hn). by rewrite <- app_assoc in IH. }
  assert (l = [] \/ starts_stanza l = false -> inHost = true -> starts_stanza header = true /\ trim_space header = host ++ lit ":" /\
    Forall (fun l => l = [] \/ starts_stanza l = false) (body ++ [l])) as Hbody.
  { intros Hl Hi. destruct (Hin Hi) as (? & ? & ?). split_and!; [done|done|]. apply Forall_app. split; [done|]. by constructor. }
  case_bool_decide as El; [apply Hstay; [apply Hbody; by left|done]|].
  destruct (starts_stanza l) eqn:Es.
  - specialize (IH (bool_decide (trim_space l = host ++ lit ":")) (pre ++ header :: body) l []).
    rewrite <- app_assoc in IH. apply IH; [|done]. intros H%bool_decide_eq_true. split_and!; [done|done|constructor].
  - destruct inHost; cbn [negb] in *; [|by apply Hstay].
    destruct (cut (trim_space l) (lit ":")) as [[k v] ok] eqn:Ec.
    destruct (ok && bool_decide (k = lit "user")) eqn:Eu; [|apply Hstay; [intros _; apply Hbody; [by right|done]|done]].
    apply andb_prop in Eu as [-> ->%bool_decide_eq_true]. destruct (Hin eq_refl) as (? & ? & ?).
    exists pre, header, body, l, lines. split_and!; try done. by exists v.
Qed.

(** The login that brig pairs with the token of a GitHub host stands in
    the stanza of that host: the lines of [hosts.yml] before it go back to
    the line of the host with no other stanza between them.  A login of
    another host is never taken. *)
Lemma ghHostsUser_stanza (text host user : gostr) (Hu : ghHostsUser (HostsText text) host = Ok user) (Hne : user <> []) :
  login_at host (scan_lines text) user.
Proof.
  cbn [ghHostsUser] in Hu. injection Hu as <-. revert Hne. generalize (scan_lines text). intros lines Hne.
  assert (login_at host ([] ++ [] :: [] ++ lines) (gh_loop host false lines)) as H by (apply gh_loop_login; [done|done]).
  destruct H as (pre & header & body & l & post & E & Hs & H). destruct pre as [|x pre].
  - injection E as <- _. destruct H as [H _]. by destruct host.
  - injection E as _ E. exists pre, header, body, l, post. by split.
Qed.

(** ** The include *)

Lemma split_lines a b : split_byte nl (a ++ nl :: b) = split_byte nl a ++ split_byte nl b.
Proof.
  induction a as [|c a IH]; [done|]. cbn [app split_byte]. destruct (Ascii.eqb c nl); [by rewrite IH|].
  rewrite IH. pose proof (split_byte_not_nil nl a). by destruct (split_byte nl a).
Qed.

Lemma wired_loop_app b l1 l2 : (forall b', wired_loop b' l2 = true) -> wired_loop b (l1 ++ l2) = true.
Proof.
  intros H. revert b. induction l1 as [|raw l1 IH]; intros b; [apply H|]. cbn [app wired_loop].
  destruct (bool_decide _); [apply IH|]. destruct (has_prefix _ _); [apply IH|]. destruct (negb b); [apply IH|].
  destruct (cut _ _) as [[k v] ok]. destruct (_ || _); [apply IH|]. case_bool_decide; [done|apply IH].
Qed.

Lemma section_wired b : wired_loop b (split_byte nl include_section) = true.
Proof. by destruct b; vm_compute. Qed.

Lemma wired_after old : match last old with Some c => c = nl | None => True end -> includeIsWired (old ++ include_section) = true.
Proof.
  intros Hl. unfold includeIsWired. destruct old as [|x old] using rev_ind; [apply section_wired|]. rewrite last_snoc in Hl. subst x.
  rewrite <- app_assoc. cbn [app]. rewrite split_lines. apply wired_loop_app, section_wired.
Qed.

(** Brig wires its git configuration once.  After [wireInclude] git's file
    has the include in effect, as brig reads it, whatever the agent left in
    the file, every byte that was there is kept in its place, and another run
    changes nothing. *)
Lemma wireInclude_once (existing : gostr) :
  let wired := (wireInclude existing).1 in
  includeIsWired wired = true /\ (exists t, wired = existing ++ t) /\ wireInclude wired = (wired, false).
Proof.
  cbv zeta. assert (includeIsWired (wireInclude existing).1 = true /\ exists t, (wireInclude existing).1 = existing ++ t) as [Hw Ht].
  { unfold wireInclude. destruct (includeIsWired existing) eqn:E; [split; [done|exists []; by rewrite app_nil_r]|].
    cbn [fst]. destruct (last existing) as [c|] eqn:El.
    - destruct (Ascii.eqb_spec c nl) as [->|Hc].
      + split; [apply wired_after; by rewrite El|by eexists].
      + split; [apply wired_after; by rewrite last_snoc|exists ([nl] ++ include_section); by rewrite app_assoc].
    - split; [apply wired_after; by rewrite El|by eexists]. }
  split_and!; [done|done|]. unfold wireInclude at 1. by rewrite Hw.
Qed.

Definition hosts_text : gostr :=
  lit "ghe.example.com:" ++ [nl] ++ lit "    user: alice" ++ [nl] ++ lit "github.com:" ++ [nl] ++ lit "    git_protocol: https" ++ [nl] ++
  lit "    user: bob" ++ [nl].

Example ghHostsUser_stanza_witness : login_at (lit "github.com") (scan_lines hosts_text) (lit "bob").
Proof. apply (ghHostsUser_stanza hosts_text (lit "github.com") (lit "bob")); [vm_compute; reflexivity|done]. Defined.
