(* ===== verification/EgressRules.v ===== *)
(** * [internal/egress/rules.go]: the egress policy of the Linux resolver

    [Parse] reads the rules as the runtime writes them on the command line of
    the resolver, and [AllowsQuery], [DeniesQuery] and [v4CIDRs] say what they
    cover. *)

From stdpp Require Import prelude list strings.
From Stdlib Require Import ZArith Lia ZifyNat Ascii.
From S2P Require Import Prelude GoUnicode GoStrings GoNum GoPath GoNetip RouteTypes PolicyValidate.

Local Open Scope Z_scope.

(** ** Addresses and prefixes *)

Definition Is4 (a : addr) : bool := match a with V4 _ => true | V6 _ _ => false end.

(** [Addr.Is4In6]: one of ::ffff:0:0/96. *)
Definition Is4In6 (a : addr) : bool :=
  match a with V6 z _ => Z.shiftr z 32 =? 65535 | V4 _ => false end.

Definition Unmap (a : addr) : addr :=
  match a with V6 z _ => if Is4In6 a then V4 (z mod 2 ^ 32) else a | V4 _ => a end.

(** [Prefix.Masked]: the bits after the prefix are cleared. *)
Definition Masked (p : prefix) : prefix :=
  let clear w z := Z.shiftl (Z.shiftr z (w - pf_bits p)) (w - pf_bits p) in
  match pf_addr p with
  | V4 z => MkPrefix (V4 (clear 32 z)) (pf_bits p)
  | V6 z zone => MkPrefix (V6 (clear 128 z) []) (pf_bits p)
  end.

(** ** The policy *)

Record ruleSet := MkRuleSet { rs_cidrs : list prefix; rs_hosts : list gostr }.

(** [Policy]. *)
Record EgressPolicy := MkEgressPolicy { ep_default : gostr; ep_allow : ruleSet; ep_deny : ruleSet }.

Inductive egress_rule_error :=
  | NoDefault (def : gostr)
  | NotRule (rule : gostr)
  | NotCIDR (rule value : gostr)
  | EmptyGlob (rule : gostr)
  | BadGlob (rule : gostr).

Definition normalizeName (name : gostr) : gostr :=
  trim_suffix (to_lower (trim_space name)) (lit ".").

(** An IPv4-mapped prefix is kept as the IPv4 prefix it names. *)
Definition rule_prefix (pf : prefix) : prefix :=
  Masked (if Is4In6 (pf_addr pf) && (96 <=? pf_bits pf)
          then MkPrefix (Unmap (pf_addr pf)) (pf_bits pf - 96) else pf).

(** One turn of the loop of [parseRules]. *)
Definition parse_rule (set : ruleSet) (rule : gostr) : res egress_rule_error ruleSet :=
  let '(kind, value, ok) := cut rule (lit "=") in
  if negb ok then Err (NotRule rule)
  else if bool_decide (kind = lit "cidr") then
    match ParsePrefix value with
    | None => Err (NotCIDR rule value)
    | Some pf => Ok (MkRuleSet (rs_cidrs set ++ [rule_prefix pf]) (rs_hosts set))
    end
  else if bool_decide (kind = lit "host") then
    let glob := normalizeName value in
    fail_if (bool_decide (glob = [])) (EmptyGlob rule) ;?
    match Match glob (lit "example.com") with
    | Err _ => Err (BadGlob rule)
    | Ok _ => Ok (MkRuleSet (rs_cidrs set) (rs_hosts set ++ [glob]))
    end
  else Err (NotRule rule).

Fixpoint parse_rules (set : ruleSet) (rules : list gostr) : res egress_rule_error ruleSet :=
  match rules with
  | [] => Ok set
  | rule :: rules' => let? set := parse_rule set rule in parse_rules set rules'
  end.

Definition parseRules (rules : list gostr) : res egress_rule_error ruleSet := parse_rules (MkRuleSet [] []) rules.

Definition Parse (def : gostr) (allow deny : list gostr) : res egress_rule_error EgressPolicy :=
  fail_if (negb (bool_decide (def = EgressAllow) || bool_decide (def = EgressDeny))) (NoDefault def) ;?
  let? a := parseRules allow in
  let? d := parseRules deny in
  Ok (MkEgressPolicy def a d).

Definition matchesHost (r : ruleSet) (name : gostr) : bool :=
  existsb (fun glob => match Match glob name with Ok b => b | Err _ => false end) (rs_hosts r).

Definition literalHosts (r : ruleSet) : list gostr :=
  List.filter (fun glob => negb (contains_any glob (lit "*?["))) (rs_hosts r).

Definition v4CIDRs (r : ruleSet) : list prefix := List.filter (fun c => Is4 (pf_addr c)) (rs_cidrs r).

Definition Unfiltered : EgressPolicy := MkEgressPolicy [] (MkRuleSet [] []) (MkRuleSet [] []).

Definition Filters (p : EgressPolicy) : bool := negb (bool_decide (ep_default p = [])).

Definition HasHostRules (p : EgressPolicy) : bool :=
  (0 <? length (rs_hosts (ep_allow p)))%nat || (0 <? length (rs_hosts (ep_deny p)))%nat.

Definition AllowsQuery (p : EgressPolicy) (name : gostr) : bool :=
  if negb (bool_decide (ep_default p = EgressDeny)) then true
  else
    let name := normalizeName name in
    if matchesHost (ep_deny p) name then false else matchesHost (ep_allow p) name.

Definition DeniesQuery (p : EgressPolicy) (name : gostr) : bool := matchesHost (ep_deny p) (normalizeName name).

(** The spelling of a rule of a policy on the command line:
    [runtime.Rule.arg]. *)
Definition rule_arg (r : Rule) : gostr :=
  if negb (bool_decide (ru_cidr r = [])) then lit "cidr=" ++ ru_cidr r else lit "host=" ++ ru_host r.

Example egress_1 :
  Parse EgressDeny [lit "host=*.Example.com."; lit "cidr=::ffff:10.1.2.3/104"] [lit "host=bad.example.com"]
  = Ok (MkEgressPolicy EgressDeny (MkRuleSet [MkPrefix (V4 167772160) 8] [lit "*.example.com"])
      (MkRuleSet [] [lit "bad.example.com"])).
Proof. vm_compute. reflexivity. Qed.

(** ** What the rules of a parsed policy are *)

Lemma parse_rule_ok set rule set' :
  parse_rule set rule = Ok set' <->
  (exists v pf, rule = lit "cidr=" ++ v /\ ParsePrefix v = Some pf /\
     set' = MkRuleSet (rs_cidrs set ++ [rule_prefix pf]) (rs_hosts set)) \/
  (exists v, rule = lit "host=" ++ v /\ normalizeName v <> [] /\ is_ok (Match (normalizeName v) (lit "example.com")) = true /\
     set' = MkRuleSet (rs_cidrs set) (rs_hosts set ++ [normalizeName v])).
Proof.
  assert (forall w v, "="%char ∉ w -> cut (w ++ lit "=" ++ v) (lit "=") = (w, v, true)) as Hcut.
  { intros w v Hw. unfold cut. cbn. by rewrite cut_at_byte_app. }
  unfold parse_rule. split.
  - destruct (cut rule (lit "=")) as [[kind value] ok] eqn:E. unfold cut in E.
    destruct (cut_at (lit "=") rule) as [[k v]|] eqn:Ec; [|by injection E as <- <- <-]. injection E as <- <- <-. cbn [negb].
    apply cut_at_Some in Ec as ->. case_if; bool_inv.
    + subst k. destruct (ParsePrefix v) as [pf|] eqn:Ep; [|done]. intros [= <-]. left. by exists v, pf.
    + case_if; [|done]. bool_inv. subst k. intros [Hg H]%seq_ok. apply fail_if_ok in Hg. bool_inv.
      destruct (Match _ _) eqn:Em; [|done]. injection H as <-. right. exists v. by rewrite Em.
  - intros [(v & pf & -> & Hp & ->)|(v & -> & Hne & Hm & ->)].
    + change (lit "cidr=" ++ v) with (lit "cidr" ++ lit "=" ++ v). rewrite Hcut by (by apply (bool_decide_unpack _)). cbn [negb].
      by rewrite bool_decide_true, Hp by done.
    + change (lit "host=" ++ v) with (lit "host" ++ lit "=" ++ v). rewrite Hcut by (by apply (bool_decide_unpack _)). cbn [negb].
      rewrite (bool_decide_false (lit "host" = lit "cidr")), (bool_decide_true (lit "host" = lit "host")) by done.
      rewrite bool_decide_false by done. cbn [fail_if res_bind]. by destruct (Match _ _).
Qed.

Definition cidr_rule (rules : list gostr) (c : prefix) : Prop :=
  exists v pf, lit "cidr=" ++ v ∈ rules /\ ParsePrefix v = Some pf /\ c = rule_prefix pf.

Definition host_rule (rules : list gostr) (g : gostr) : Prop :=
  exists v, lit "host=" ++ v ∈ rules /\ g = normalizeName v.

Lemma parse_rules_ok set rules set' :
  parse_rules set rules = Ok set' ->
  (forall c, c ∈ rs_cidrs set' <-> c ∈ rs_cidrs set \/ cidr_rule rules c) /\
  (forall g, g ∈ rs_hosts set' <-> g ∈ rs_hosts set \/ host_rule rules g) /\
  (forall g, host_rule rules g -> g <> [] /\ is_ok (Match g (lit "example.com")) = true).
Proof.
  revert set. induction rules as [|rule rules IH]; intros set; cbn [parse_rules].
  - intros [= <-]. split_and!; [intros c|intros g|intros g (v & H & _); by apply elem_of_nil in H].
    all: split; [by left|]; intros [?|(v & H)]; [done|]. 1: destruct H as (? & H & _). 2: destruct H as (H & _).
    all: by apply elem_of_nil in H.
  - intros (set1 & H1 & H)%res_bind_ok. destruct (IH _ H) as (Hc & Hh & Hok). clear IH H.
    apply parse_rule_ok in H1 as [(v & pf & -> & Hp & ->)|(v & -> & Hne & Hm & ->)]; cbn [rs_cidrs rs_hosts] in *; split_and!.
    + intros c. rewrite Hc, elem_of_app, list_elem_of_singleton. unfold cidr_rule. split.
      * intros [[?| ->]|(w & q & Hw & ?)]; [by left| |]; right; [exists v, pf|exists w, q]; (split; [constructor|done]); done.
      * intros [?|(w & q & Hw & Hq & ->)]; [by left; left|]. apply elem_of_cons in Hw as [E|Hw]; [|right; by exists w, q].
        apply (inj (app (lit "cidr="))) in E. subst w. left. right. congruence.
    + intros g. rewrite Hh. unfold host_rule. split; [|intros [?|(w & Hw & ->)]; [by left|]].
      * intros [?|(w & Hw & ->)]; [by left|]. right. exists w. split; [by constructor|done].
      * apply elem_of_cons in Hw as [E|Hw]; [done|]. right. by exists w.
    + intros g (w & Hw & ->). apply elem_of_cons in Hw as [E|Hw]; [done|]. apply Hok. by exists w.
    + intros c. rewrite Hc. unfold cidr_rule. split; [|intros [?|(w & q & Hw & ?)]; [by left|]].
      * intros [?|(w & q & Hw & ?)]; [by left|]. right. exists w, q. split; [by constructor|done].
      * apply elem_of_cons in Hw as [E|Hw]; [done|]. right. by exists w, q.
    + intros g. rewrite Hh, elem_of_app, list_elem_of_singleton. unfold host_rule. split.
      * intros [[?| ->]|(w & Hw & ->)]; [by left| |]; right; [exists v|exists w]; (split; [constructor|done]); done.
      * intros [?|(w & Hw & ->)]; [by left; left|]. apply elem_of_cons in Hw as [E|Hw]; [|right; by exists w].
        apply (inj (app (lit "host="))) in E. subst w. left. by right.
    + intros g (w & Hw & ->). apply elem_of_cons in Hw as [E|Hw]; [|apply Hok; by exists w].
      apply (inj (app (lit "host="))) in E. by subst w.
Qed.

Lemma parseRules_ok rules set :
  parseRules rules = Ok set ->
  (forall c, c ∈ rs_cidrs set <-> cidr_rule rules c) /\ (forall g, g ∈ rs_hosts set <-> host_rule rules g) /\
  (forall g, g ∈ rs_hosts set -> is_ok (Match g (lit "example.com")) = true).
Proof.
  intros H. destruct (parse_rules_ok _ _ _ H) as (Hc & Hh & Hok). cbn [rs_cidrs rs_hosts] in *.
  assert (forall g, g ∈ rs_hosts set <-> host_rule rules g) as Hh'.
  { intros g. rewrite Hh, elem_of_nil. tauto. }
  split_and!; [|done|].
  - intros c. rewrite Hc, elem_of_nil. tauto.
  - intros g Hg. apply Hok, Hh', Hg.
Qed.

Lemma Parse_ok def allow deny p :
  Parse def allow deny = Ok p ->
  (def = EgressAllow \/ def = EgressDeny) /\ ep_default p = def /\
  parseRules allow = Ok (ep_allow p) /\ parseRules deny = Ok (ep_deny p).
Proof.
  unfold Parse. intros [Hd H]%seq_ok. apply fail_if_ok in Hd. bool_inv.
  apply res_bind_ok in H as (a & Ha & H). apply res_bind_ok in H as (d & Hd' & [= <-]).
  split_and!; try done. apply orb_true_iff in Hd as [H|H]; bool_inv; auto.
Qed.

(** ** Addresses *)

Lemma shiftr_masked z w n : 0 <= n <= w -> Z.shiftr (Z.shiftl (Z.shiftr z (w - n)) (w - n)) (w - n) = Z.shiftr z (w - n).
Proof. intros H. rewrite Z.shiftr_shiftl_l, Z.sub_diag by lia. apply Z.shiftl_0_r. Qed.

(** The IPv4-mapped form of an IPv4 address. *)
Definition mapped (z : Z) : addr := V6 (65535 * 2 ^ 32 + z) [].

(** What a written prefix says of an IPv4 address: it names the address, or
    it is one of the IPv4-mapped prefixes and names its mapped form. *)
Definition names_v4 (pf : prefix) (z : Z) : Prop :=
  Contains pf (V4 z) = true \/ (Is4In6 (pf_addr pf) = true /\ 96 <= pf_bits pf /\ Contains pf (mapped z) = true).

Lemma ParsePrefix_bits v pf : ParsePrefix v = Some pf -> 0 <= pf_bits pf <= addr_bits (pf_addr pf).
Proof.
  unfold ParsePrefix. destruct (cut_at _ _) as [[b a]|]; [|done]. destruct (ParseAddr _) as [x|]; [|done].
  case_if; [done|]. case_if; [done|]. destruct (parse_int 64 _) as [n|]; [|done].
  destruct (Z.ltb_spec n 0); [done|]. destruct (Z.ltb_spec (addr_bits x) n); [done|]. intros [= <-]. done.
Qed.

Lemma mapped_shift x y n : Z.shiftr x 32 = 65535 -> 0 <= y < 2 ^ 32 -> 0 <= n <= 32 ->
  (Z.shiftr x (32 - n) =? Z.shiftr (65535 * 2 ^ 32 + y) (32 - n)) = (Z.shiftr (x mod 2 ^ 32) (32 - n) =? Z.shiftr y (32 - n)).
Proof.
  intros Hx Hy Hn. rewrite Z.shiftr_div_pow2 in Hx by lia. rewrite !Z.shiftr_div_pow2 by lia.
  pose proof (Z.div_mod x (2 ^ 32) ltac:(lia)) as Ex. rewrite Hx in Ex.
  assert (2 ^ 32 = 2 ^ n * 2 ^ (32 - n)) as E by (rewrite <- Z.pow_add_r by lia; f_equal; lia).
  assert (forall u, (65535 * 2 ^ 32 + u) / 2 ^ (32 - n) = 65535 * 2 ^ n + u / 2 ^ (32 - n)) as Hd.
  { intros u. rewrite E, Z.mul_assoc. rewrite Z.div_add_l by lia. done. }
  rewrite Ex at 1. rewrite (Z.mul_comm (2 ^ 32) 65535), !Hd. apply eq_true_iff_eq. rewrite !Z.eqb_eq. lia.
Qed.

(** The prefix a rule is kept as holds the IPv4 addresses that it names. *)
Lemma rule_prefix_v4 pf z :
  0 <= pf_bits pf <= addr_bits (pf_addr pf) -> 0 <= z < 2 ^ 32 ->
  (Is4 (pf_addr (rule_prefix pf)) = true /\ Contains (rule_prefix pf) (V4 z) = true) <-> names_v4 pf z.
Proof.
  intros Hb Hz. unfold rule_prefix, names_v4, Contains, addr_bits in *. destruct pf as [[x|x zone] n]; cbn [pf_addr pf_bits Is6] in *.
  - cbn [Is4In6 andb Masked pf_addr pf_bits Is4]. rewrite shiftr_masked by lia. split; [by intros [_ ?]; left|].
    intros [?|[? _]]; done.
  - cbn [addr_bits Is6] in Hb. destruct (Is4In6 (V6 x zone)) eqn:E4; cbn [andb].
    + destruct (Z.leb_spec 96 n) as [Hn|Hn]; cbn [Unmap]; [rewrite E4|]; cbn [Masked pf_addr pf_bits mapped Is4].
      2: { split; [by intros [? _]|]. intros [?|(_ & ? & _)]; [done|lia]. }
      rewrite shiftr_masked by lia. unfold Is4In6 in E4. apply Z.eqb_eq in E4.
      replace (128 - n) with (32 - (n - 96)) by lia. rewrite mapped_shift by lia.
      rewrite bool_decide_true by done. cbn [andb]. split; [intros [_ ?]; by right|]. by intros [?|(_ & _ & ?)].
    + cbn [Masked pf_addr pf_bits Is4]. split; [by intros [? _]|]. intros [?|[? _]]; done.
Qed.

(** ** Names *)

Lemma normalizeName_plain name : all_ascii name = true -> slash ∉ name ->
  all_ascii (normalizeName name) = true /\ slash ∉ normalizeName name.
Proof.
  intros Ha Hs. pose proof (occurs_Forall _ _ _ (trim_space_occurs name) (proj1 (all_ascii_Forall _) Ha)) as Ha'.
  assert (Forall (fun c => c <> slash) (trim_space name)) as Hs'.
  { apply (occurs_Forall _ _ name); [apply trim_space_occurs|]. apply Forall_forall. intros c Hc ->. done. }
  unfold normalizeName. rewrite to_lower_ascii by (by apply all_ascii_Forall).
  split.
  - apply all_ascii_Forall, (occurs_Forall _ _ _ (trim_suffix_occurs _ _)). apply Forall_fmap.
    eapply Forall_impl; [exact Ha'|]. intros c. apply lower_byte_ascii.
  - enough (Forall (fun c => c <> slash) (trim_suffix (lower_byte <$> trim_space name) (lit "."))) as H.
    { rewrite Forall_forall in H. intros Hin. by apply (H _ Hin). }
    apply (occurs_Forall _ _ _ (trim_suffix_occurs _ _)). apply Forall_fmap.
    eapply Forall_impl; [exact Hs'|]. cbn. intros c Hc. unfold lower_byte.
    destruct (in_range 65 90 (bz c)) eqn:E; [|done]. apply in_range_true in E. intros H.
    apply (f_equal bz) in H. rewrite bz_zb_small in H by lia. change (bz slash) with 47 in H. lia.
Qed.

(** The rules of a parsed set describe a host name exactly when one of their
    globs does. *)
Lemma matchesHost_exact rules set name :
  parseRules rules = Ok set -> all_ascii name = true -> slash ∉ name ->
  matchesHost set name = true <-> exists g, host_rule rules g /\ glob g name.
Proof.
  intros H Ha Hs. destruct (parseRules_ok _ _ H) as (_ & Hh & Hok). unfold matchesHost. rewrite existsb_true.
  split.
  - intros (g & Hg & Hm). exists g. split; [by apply Hh|]. apply Match_sound. by destruct (Match g name) as [[]|].
  - intros (g & Hg & Hgl). exists g. apply Hh in Hg. split; [done|]. specialize (Hok g Hg).
    rewrite (Match_ok g _ name) in Hok. destruct (Match g name) as [b|] eqn:Em; [|done]. by apply (Match_exact g name b).
Qed.

(** ** Properties *)

(** A CIDR of a rule covers exactly the IPv4 addresses its text names, an
    IPv4-mapped prefix included, and nothing else is put in the sets the
    packet filter decides by. *)
Lemma Parse_covers (def : gostr) (allow deny : list gostr) (p : EgressPolicy) (z : Z)
    (H : Parse def allow deny = Ok p) (Hz : 0 <= z < 2 ^ 32) :
  let covered (set : ruleSet) := exists c, c ∈ v4CIDRs set /\ Contains c (V4 z) = true in
  let named (rules : list gostr) := exists v pf, lit "cidr=" ++ v ∈ rules /\ ParsePrefix v = Some pf /\ names_v4 pf z in
  (covered (ep_allow p) <-> named allow) /\ (covered (ep_deny p) <-> named deny).
Proof.
  assert (forall rules set, parseRules rules = Ok set ->
    (exists c, c ∈ v4CIDRs set /\ Contains c (V4 z) = true) <->
    (exists v pf, lit "cidr=" ++ v ∈ rules /\ ParsePrefix v = Some pf /\ names_v4 pf z)) as Hset.
  { intros rules set Hp. destruct (parseRules_ok _ _ Hp) as (Hc & _). unfold v4CIDRs. split.
    - intros (c & Hin & Hcov). rewrite list_elem_of_In, filter_In, <- list_elem_of_In, Hc in Hin.
      destruct Hin as [(v & pf & Hv & Hpf & ->) H4]. exists v, pf. split_and!; [done..|].
      apply rule_prefix_v4; [by eapply ParsePrefix_bits|done|done].
    - intros (v & pf & Hv & Hpf & Hn). apply rule_prefix_v4 in Hn as [H4 Hcov]; [|by eapply ParsePrefix_bits|done].
      exists (rule_prefix pf). split; [|done]. rewrite list_elem_of_In, filter_In, <- list_elem_of_In, Hc.
      split; [|done]. by exists v, pf. }
  cbv zeta. apply Parse_ok in H as (_ & _ & Ha & Hd). split; by apply Hset.
Qed.

Definition example_allow : list gostr := [lit "host=*.example.com"; lit "cidr=::ffff:10.1.2.3/104"].
Definition example_deny : list gostr := [lit "host=bad.example.com"].
Definition example_egress : EgressPolicy :=
  MkEgressPolicy EgressDeny (MkRuleSet [MkPrefix (V4 167772160) 8] [lit "*.example.com"]) (MkRuleSet [] [lit "bad.example.com"]).

Lemma example_parse : Parse EgressDeny example_allow example_deny = Ok example_egress.
Proof. vm_compute. reflexivity. Qed.

Example Parse_covers_witness :
  (exists c, c ∈ v4CIDRs (ep_allow example_egress) /\ Contains c (V4 167837955) = true) <->
  (exists v pf, lit "cidr=" ++ v ∈ example_allow /\ ParsePrefix v = Some pf /\ names_v4 pf 167837955).
Proof. exact (proj1 (Parse_covers EgressDeny example_allow example_deny example_egress 167837955 example_parse ltac:(lia))). Defined.

(** Under a deny default a host name is answered exactly when the glob of
    an allow rule describes it and the glob of no deny rule does, whatever its
    case and with a trailing dot or without; under an allow default every name
    is, and the denied ones are those a deny glob describes. *)
Lemma Parse_queries (def : gostr) (allow deny : list gostr) (p : EgressPolicy) (name : gostr)
    (H : Parse def allow deny = Ok p) (Hascii : all_ascii name = true) (Hslash : slash ∉ name) :
  let described (rules : list gostr) :=
    exists v, lit "host=" ++ v ∈ rules /\ glob (normalizeName v) (normalizeName name) in
  (AllowsQuery p name = true <-> def = EgressAllow \/ (described allow /\ ~ described deny)) /\
  (DeniesQuery p name = true <-> described deny).
Proof.
  destruct (normalizeName_plain name Hascii Hslash) as [Ha Hs]. apply Parse_ok in H as (Hdef & Hd & Hal & Hde). cbv zeta.
  assert (forall rules set, parseRules rules = Ok set -> matchesHost set (normalizeName name) = true <->
    exists v, lit "host=" ++ v ∈ rules /\ glob (normalizeName v) (normalizeName name)) as Hm.
  { intros rules set Hp. rewrite (matchesHost_exact _ _ _ Hp Ha Hs). unfold host_rule. split.
    - intros (g & (v & Hv & ->) & Hg). by exists v.
    - intros (v & Hv & Hg). exists (normalizeName v). split; [by exists v|done]. }
  split; [|by apply Hm]. unfold AllowsQuery. rewrite Hd. destruct Hdef as [->| ->].
  - rewrite bool_decide_false by done. naive_solver.
  - rewrite bool_decide_true by done. cbn [negb]. rewrite <- (Hm _ _ Hal), <- (Hm _ _ Hde).
    destruct (matchesHost (ep_deny p) _).
    + split; [done|]. intros [?|[_ Hn]]; [done|by destruct Hn].
    + split; [intros Ha'; by right; split|]. by intros [?|[? _]].
Qed.

Example Parse_queries_witness :
  DeniesQuery example_egress (lit "BAD.example.com.") = true /\
  exists v, lit "host=" ++ v ∈ example_deny /\ glob (normalizeName v) (normalizeName (lit "BAD.example.com.")).
Proof.
  assert (DeniesQuery example_egress (lit "BAD.example.com.") = true) as E by (vm_compute; reflexivity).
  split; [exact E|].
  exact (proj1 (proj2 (Parse_queries EgressDeny example_allow example_deny example_egress (lit "BAD.example.com.") example_parse
    eq_refl ltac:(by apply (bool_decide_unpack _)))) E).
Defined.

(** A CIDR that a policy may hold with leading zeros in its length, which the
    check passes over, stops the resolver. *)
Lemma zeros_refused : exists cidr : gostr,
  rule_validate (MkRule [] cidr) = Ok tt /\
  Parse EgressDeny [rule_arg (MkRule [] cidr)] [] = Err (NotCIDR (rule_arg (MkRule [] cidr)) cidr).
Proof. exists (lit "10.0.0.0/08"). vm_compute. done. Qed.
