(* ===== verification/Dns.v ===== *)
(** * [internal/egress/dns.go]: the DNS messages the resolver reads

    A message is a list of bytes.  An index out of the message is [OutOfRange],
    where the code would panic, so that the theorems can say it never does. *)

From stdpp Require Import prelude list strings.
From Stdlib Require Import ZArith Lia ZifyNat Ascii.
From S2P Require Import Prelude GoUnicode GoStrings GoNetip EgressRules.

Local Open Scope Z_scope.

Definition headerLen : nat := 12.
Definition typeA : Z := 1.
Definition typeNS : Z := 2.
Definition typeCNAME : Z := 5.
Definition typeMX : Z := 15.
Definition typeTXT : Z := 16.
Definition typeSRV : Z := 33.
Definition typeOPT : Z := 41.
Definition classIN : Z := 1.

Definition rcodeFormErr : Z := 1.
Definition rcodeServFail : Z := 2.
Definition rcodeNotImp : Z := 4.
Definition rcodeRefused : Z := 5.

Definition maxPointers : nat := 32.
Definition maxNameLen : nat := 255.

Inductive dns_error :=
  | OutOfRange | OutOfFuel
  | ErrShort
  | IsResponse | ErrOpcode (opcode : Z) | Questions (n : Z)
  | HasRecords | TrailingBytes
  | Compressed | CompressionLoop | LabelType (bits : Z) | NameTooLong
  | BadLabel (label : gostr)
  | IDMismatch | NotResponse | OtherQuestion.

#[export] Instance dns_error_eq_dec : EqDecision dns_error.
Proof. solve_decision. Defined.

(** ** Bytes of a message *)

Definition byte_at (msg : gostr) (i : nat) : res dns_error Z :=
  match msg !! i with Some c => Ok (bz c) | None => Err OutOfRange end.

(** [binary.BigEndian.Uint16(msg[i:])]. *)
Definition u16_at (msg : gostr) (i : nat) : res dns_error Z :=
  let? a := byte_at msg i in
  let? b := byte_at msg (i + 1) in
  Ok (a * 256 + b).

(** [msg[a:b]]. *)
Definition slice_at (msg : gostr) (a b : nat) : res dns_error gostr :=
  if (a <=? b)%nat && (b <=? length msg)%nat then Ok (take (b - a) (drop a msg)) else Err OutOfRange.

Definition be16 (v : Z) : gostr := [zb (v / 256); zb v].
Definition be32 (v : Z) : gostr := [zb (v / 16777216); zb (v / 65536); zb (v / 256); zb v].

(** [copy(msg[i:], bs)] of bytes that fit. *)
Definition put (msg : gostr) (i : nat) (bs : gostr) : gostr := take i msg ++ bs ++ drop (i + length bs) msg.

(** [binary.BigEndian.PutUint32(msg[i:], v)]. *)
Definition put_u32 (msg : gostr) (i : nat) (v : Z) : res dns_error gostr :=
  if (i + 4 <=? length msg)%nat then Ok (put msg i (be32 v)) else Err OutOfRange.

(** ** Names *)

Definition hostnameByte (c : byte) : bool :=
  in_range 97 122 (bz c) || in_range 65 90 (bz c) || in_range 48 57 (bz c) || Ascii.eqb c "-" || Ascii.eqb c "_".

(** The loop of [nameLabels].  A turn adds a label, of two octets or more of
    the 255 a name may have, or follows one of 32 pointers. *)
Fixpoint labels_loop (fuel : nat) (msg : gostr) (compress : bool) (off pointers wire : nat) (end_ : option nat)
    (labels : list gostr) : res dns_error (list gostr * nat) :=
  match fuel with
  | O => Err OutOfFuel
  | S k =>
    fail_if (length msg <=? off)%nat ErrShort ;?
    let? n := byte_at msg off in
    if n =? 0 then Ok (labels, default (off + 1)%nat end_)
    else if Z.land n 192 =? 192 then
      fail_if (negb compress) Compressed ;?
      fail_if (length msg <? off + 2)%nat ErrShort ;?
      let end_ := Some (default (off + 2)%nat end_) in
      fail_if (maxPointers <? pointers + 1)%nat CompressionLoop ;?
      let? v := u16_at msg off in
      labels_loop k msg compress (Z.to_nat (Z.land v 16383)) (pointers + 1) wire end_ labels
    else if negb (Z.land n 192 =? 0) then Err (LabelType (Z.land n 192))
    else
      let n := Z.to_nat n in
      fail_if (length msg <? off + 1 + n)%nat ErrShort ;?
      fail_if (maxNameLen <? wire + (1 + n))%nat NameTooLong ;?
      let? label := slice_at msg (off + 1) (off + 1 + n) in
      labels_loop k msg compress (off + (1 + n)) pointers (wire + (1 + n)) end_ (labels ++ [label])
  end.

Definition label_fuel : nat := (maxNameLen + maxPointers + 2)%nat.

Definition nameLabels (msg : gostr) (off : nat) (compress : bool) : res dns_error (list gostr * nat) :=
  labels_loop label_fuel msg compress off 0 1 None [].

Definition readName (msg : gostr) (off : nat) : res dns_error (gostr * nat) :=
  let? r := nameLabels msg off false in
  let '(labels, end_) := r in
  check_all (fun label => fail_if (negb (forallb hostnameByte label)) (BadLabel label)) labels ;?
  Ok (join (lit ".") labels, end_).

(** ** Queries *)

Record question := MkQuestion { q_name : gostr; q_qtype : Z; q_end : nat }.

Definition forwarded (q : question) : bool :=
  existsb (Z.eqb (q_qtype q)) [typeA; typeNS; typeCNAME; typeMX; typeTXT; typeSRV].

Definition readQuestion (msg : gostr) (off : nat) : res dns_error question :=
  let? r := readName msg off in
  let '(name, off) := r in
  fail_if (length msg <? off + 4)%nat ErrShort ;?
  let? qtype := u16_at msg off in
  Ok (MkQuestion name qtype (off + 4)).

(** The loop of [checkQueryTail]: the offset after [records] records. *)
Fixpoint tail_loop (records : nat) (msg : gostr) (off : nat) : res dns_error nat :=
  match records with
  | O => Ok off
  | S k =>
    let? r := nameLabels msg off false in
    let '(_, next) := r in
    fail_if (length msg <? next + 10)%nat ErrShort ;?
    let? rdlen := u16_at msg (next + 8) in
    let off := (next + 10 + Z.to_nat rdlen)%nat in
    fail_if (length msg <? off)%nat ErrShort ;?
    tail_loop k msg off
  end.

Definition checkQueryTail (msg : gostr) (off : nat) : res dns_error unit :=
  let? an := u16_at msg 6 in
  let? ns := if negb (an =? 0) then Ok 0 else u16_at msg 8 in
  fail_if (negb (an =? 0) || negb (ns =? 0)) HasRecords ;?
  let? records := u16_at msg 10 in
  let? off := tail_loop (Z.to_nat records) msg off in
  fail_if (negb (off =? length msg)%nat) TrailingBytes.

Definition parseQuery (msg : gostr) : res dns_error question :=
  fail_if (length msg <? headerLen)%nat ErrShort ;?
  let? b2 := byte_at msg 2 in
  fail_if (negb (Z.land b2 128 =? 0)) IsResponse ;?
  let opcode := Z.land (Z.shiftr b2 3) 15 in
  fail_if (negb (opcode =? 0)) (ErrOpcode opcode) ;?
  let? n := u16_at msg 4 in
  fail_if (negb (n =? 1)) (Questions n) ;?
  let? q := readQuestion msg headerLen in
  checkQueryTail msg (q_end q) ;?
  Ok q.

(** ** Replies *)

(** The octet of index [i], which the callers' messages all have. *)
Definition octet (msg : gostr) (i : nat) : Z := match msg !! i with Some c => bz c | None => 0 end.

Definition reply (query : gostr) (q : question) (rcode : Z) : gostr :=
  let out := take (q_end q) query in
  let out := put out 2 [zb (Z.lor 128 (Z.land (octet query 2) 121))] in
  let out := put out 3 [zb (Z.lor 128 (Z.land rcode 15))] in
  put (put (put (put out 4 (be16 1)) 6 (be16 0)) 8 (be16 0)) 10 (be16 0).

(** The four octets of an IPv4 address. *)
Definition as4 (z : Z) : gostr := be32 z.

Definition localAnswer (query : gostr) (q : question) (a : addr) : gostr :=
  let out := reply query q 0 in
  let out := put out 2 [zb (Z.lor (octet out 2) 4)] in
  match a with
  | V4 z =>
    if negb (q_qtype q =? typeA) then out
    else
      let out := put out 6 (be16 1) in
      out ++ (zb <$> [192; Z.of_nat headerLen; 0; typeA; 0; classIN; 0; 0; 0; 0; 0; 4]) ++ as4 z
  | V6 _ _ => out
  end.

Definition headerReply (query : gostr) (rcode : Z) : gostr :=
  let out := take headerLen query in
  let out := put out 2 [zb (Z.lor 128 (Z.land (octet query 2) 121))] in
  let out := put out 3 [zb (Z.lor 128 (Z.land rcode 15))] in
  take 4 out ++ replicate 8 (zb 0).

(** ** Examples *)

Definition wire_name (labels : list gostr) : gostr :=
  concat (map (fun l => zb (Z.of_nat (length l)) :: l) labels) ++ [zb 0].

Definition example_query : gostr :=
  (zb <$> [18; 52; 1; 0; 0; 1; 0; 0; 0; 0; 0; 0]) ++ wire_name [lit "API"; lit "example"; lit "com"] ++ be16 typeA ++ be16 classIN.

Example dns_1 : parseQuery example_query = Ok (MkQuestion (lit "API.example.com") typeA 33).
Proof. vm_compute. reflexivity. Qed.

(** ** No read out of range, and no loop without end *)

Definition sound {A} (m : res dns_error A) : Prop := m <> Err OutOfRange /\ m <> Err OutOfFuel.

Section Sound.
Context {A B : Type}.

Lemma sound_bind (m : res dns_error A) (f : A -> res dns_error B) :
  sound m -> (forall a, m = Ok a -> sound (f a)) -> sound (res_bind m f).
Proof. unfold sound. destruct m as [a|e]; cbn; [intros _ H; by apply H|]. intros [H1 H2] _. split; congruence. Qed.

Lemma sound_ok (a : A) : sound (Ok a).
Proof. done. Qed.
End Sound.

Lemma sound_fail c e : e <> OutOfRange -> e <> OutOfFuel -> sound (fail_if c e).
Proof. unfold sound. destruct c; cbn; split; congruence. Qed.

Lemma byte_at_sound msg i : (i < length msg)%nat -> sound (byte_at msg i).
Proof. intros H. unfold byte_at. destruct (lookup_lt_is_Some_2 _ _ H) as [c ->]. done. Qed.

Lemma u16_at_sound msg i : (i + 1 < length msg)%nat -> sound (u16_at msg i).
Proof.
  intros H. unfold u16_at. apply sound_bind; [apply byte_at_sound; lia|]. intros a _.
  apply sound_bind; [by apply byte_at_sound|]. done.
Qed.

Lemma slice_at_sound msg a b : (a <= b <= length msg)%nat -> sound (slice_at msg a b).
Proof. intros [H1 H2]. unfold slice_at. apply Nat.leb_le in H1, H2. by rewrite H1, H2. Qed.

Create HintDb dns discriminated.
#[export] Hint Resolve sound_ok sound_fail byte_at_sound u16_at_sound slice_at_sound : dns.

(** [dns_guard] passes a check of the code and keeps what it says. *)
Ltac dns_guard H :=
  apply sound_bind; [apply sound_fail; discriminate|]; intros [] H; apply fail_if_ok in H.

Lemma labels_loop_sound fuel msg compress off pointers wire end_ labels :
  (wire <= maxNameLen)%nat -> (pointers <= maxPointers)%nat ->
  (maxNameLen - wire + (maxPointers - pointers) < fuel)%nat ->
  sound (labels_loop fuel msg compress off pointers wire end_ labels).
Proof.
  revert off pointers wire end_ labels. induction fuel as [|k IH]; intros off pointers wire end_ labels Hw Hp Hf; [lia|].
  cbn [labels_loop]. dns_guard Ho. apply Nat.leb_gt in Ho. apply sound_bind; [eauto with dns|]. intros n Hn.
  assert (0 <= n) by (revert Hn; unfold byte_at; destruct (msg !! off) as [c|]; [|done]; intros [= <-]; apply bz_range).
  destruct (Z.eqb_spec n 0); [done|]. destruct (Z.land n 192 =? 192).
  - dns_guard Hc. dns_guard H2. apply Nat.ltb_ge in H2. dns_guard H3. apply Nat.ltb_ge in H3.
    apply sound_bind; [apply u16_at_sound; lia|]. intros v _. apply IH; lia.
  - destruct (negb _); [by split|]. dns_guard H1. dns_guard H2. apply Nat.ltb_ge in H1, H2.
    apply sound_bind; [apply slice_at_sound; lia|]. intros l _. apply IH; lia.
Qed.

Lemma nameLabels_sound msg off compress : sound (nameLabels msg off compress).
Proof. apply labels_loop_sound; unfold label_fuel, maxNameLen, maxPointers; lia. Qed.

Lemma readName_sound msg off : sound (readName msg off).
Proof.
  apply sound_bind; [apply nameLabels_sound|]. intros [labels e] _. apply sound_bind; [|done].
  induction labels as [|l labels IH]; cbn [check_all]; [done|]. by destruct (negb _).
Qed.

Lemma readQuestion_sound msg off : sound (readQuestion msg off).
Proof.
  apply sound_bind; [apply readName_sound|]. intros [name e] _. dns_guard H. apply Nat.ltb_ge in H.
  apply sound_bind; [apply u16_at_sound; lia|done].
Qed.

Lemma u16_at_Ok msg i v : u16_at msg i = Ok v -> 0 <= v < 65536.
Proof.
  unfold u16_at, byte_at. destruct (msg !! i) as [a|]; [|done]. destruct (msg !! (i + 1)%nat) as [b|]; [|done].
  cbn. intros [= <-]. pose proof (bz_range a). pose proof (bz_range b). lia.
Qed.

Lemma tail_loop_sound n msg off : sound (tail_loop n msg off).
Proof.
  revert off. induction n as [|n IH]; intros off; cbn [tail_loop]; [done|].
  apply sound_bind; [apply nameLabels_sound|]. intros [ls next] _. dns_guard H. apply Nat.ltb_ge in H.
  apply sound_bind; [apply u16_at_sound; lia|]. intros v _. dns_guard H'. apply IH.
Qed.

Lemma parseQuery_sound msg : sound (parseQuery msg).
Proof.
  unfold parseQuery, headerLen. dns_guard H. apply Nat.ltb_ge in H. apply sound_bind; [apply byte_at_sound; lia|]. intros b2 _.
  dns_guard H1. dns_guard H2. apply sound_bind; [apply u16_at_sound; lia|]. intros n _. dns_guard H3.
  apply sound_bind; [apply readQuestion_sound|]. intros q _. apply sound_bind; [|done]. unfold checkQueryTail.
  apply sound_bind; [apply u16_at_sound; lia|]. intros an _.
  apply sound_bind; [destruct (an =? 0); [apply u16_at_sound; lia|done]|]. intros ns _. dns_guard H4.
  apply sound_bind; [apply u16_at_sound; lia|]. intros r _. apply sound_bind; [apply tail_loop_sound|]. intros off _.
  by apply sound_fail.
Qed.

Lemma length_put msg i bs : (i + length bs <= length msg)%nat -> length (put msg i bs) = length msg.
Proof. intros H. unfold put. rewrite !length_app, length_take, length_drop. lia. Qed.

Lemma put_u32_Ok msg i v msg' : put_u32 msg i v = Ok msg' -> msg' = put msg i (be32 v) /\ length msg' = length msg.
Proof.
  unfold put_u32. destruct (Nat.leb_spec (i + 4) (length msg)); [|done]. intros [= <-]. split; [done|].
  apply length_put. by cbn.
Qed.

(** ** The grammar of a query *)

Definition label_ok (l : gostr) : Prop := (1 <= length l <= 63)%nat.

(** The octets of a name, its root included. *)
Definition wire_len (labels : list gostr) : nat := length (wire_name labels).

Definition name_ok (labels : list gostr) : Prop := Forall label_ok labels /\ (wire_len labels <= maxNameLen)%nat.

Lemma wire_name_cons l labels : wire_name (l :: labels) = zb (Z.of_nat (length l)) :: l ++ wire_name labels.
Proof. unfold wire_name. cbn. by rewrite <- app_assoc. Qed.

Lemma wire_len_cons l labels : wire_len (l :: labels) = (1 + length l + wire_len labels)%nat.
Proof. unfold wire_len. rewrite wire_name_cons. cbn [length]. rewrite length_app. lia. Qed.

Lemma wire_len_pos labels : (1 <= wire_len labels)%nat.
Proof. unfold wire_len, wire_name. rewrite length_app. cbn. lia. Qed.

Lemma land_192 (c : byte) : (Z.land (bz c) 192 =? 0) = (bz c <? 64).
Proof. destruct c as [[] [] [] [] [] [] [] []]; reflexivity. Qed.

Lemma byte_at_drop msg off c rest : drop off msg = c :: rest -> byte_at msg off = Ok (bz c) /\ (off < length msg)%nat.
Proof.
  intros H. assert (msg !! off = Some c) as Hl.
  { rewrite <- (Nat.add_0_r off), <- lookup_drop, H. done. }
  unfold byte_at. rewrite Hl. split; [done|]. by apply lookup_lt_Some in Hl.
Qed.

Lemma drop_drop_app {A} (msg : list A) off a b : drop off msg = a ++ b -> drop (off + length a) msg = b.
Proof. intros H. rewrite <- drop_drop, H. by rewrite drop_app_length. Qed.

Lemma slice_at_drop msg off a b : drop off msg = a ++ b -> (off <= length msg)%nat -> slice_at msg off (off + length a) = Ok a.
Proof.
  intros H Ho. assert (length (drop off msg) = length a + length b)%nat as Hl by (rewrite H, length_app; done).
  rewrite length_drop in Hl. unfold slice_at. destruct (Nat.leb_spec off (off + length a)); [|lia].
  destruct (Nat.leb_spec (off + length a) (length msg)); [|lia]. cbn [andb]. f_equal.
  replace (off + length a - off)%nat with (length a) by lia. by rewrite H, take_app_length.
Qed.

(** Reading a name of the grammar gives its labels. *)
Lemma labels_loop_read fuel msg off p wire acc labels rest :
  drop off msg = wire_name labels ++ rest -> Forall label_ok labels ->
  (wire + wire_len labels <= maxNameLen + 1)%nat -> (length labels < fuel)%nat ->
  labels_loop fuel msg false off p wire None acc = Ok (acc ++ labels, (off + wire_len labels)%nat).
Proof.
  revert off wire acc labels. induction fuel as [|k IH]; intros off wire acc labels Hd Hok Hw Hf; [lia|].
  destruct labels as [|l labels]; cbn [labels_loop].
  - cbn [wire_name map concat app] in Hd. destruct (byte_at_drop _ _ _ _ Hd) as [Hb Hl].
    apply Nat.leb_gt in Hl. rewrite Hl. cbn [fail_if res_bind]. rewrite Hb. cbn. by rewrite app_nil_r.
  - apply Forall_cons in Hok as [Hl Hok]. unfold label_ok in Hl. rewrite wire_name_cons in Hd. cbn [app] in Hd.
    destruct (byte_at_drop _ _ _ _ Hd) as [Hb Hlt]. pose proof Hlt as Hlt'. apply Nat.leb_gt in Hlt'. rewrite Hlt'.
    cbn [fail_if res_bind]. rewrite Hb. cbn [res_bind]. pose proof (land_192 (zb (Z.of_nat (length l)))) as H192.
    rewrite !bz_zb_small in * by lia. destruct (Z.ltb_spec (Z.of_nat (length l)) 64); [|lia]. apply Z.eqb_eq in H192.
    destruct (Z.eqb_spec (Z.of_nat (length l)) 0); [lia|]. rewrite H192. cbn [Z.eqb negb Pos.eqb].
    rewrite Nat2Z.id. rewrite wire_len_cons in *.
    assert (drop (off + 1) msg = l ++ wire_name labels ++ rest) as Hd1.
    { rewrite <- drop_drop, Hd. cbn [drop]. by rewrite <- app_assoc. }
    assert (off + 1 + length l <= length msg)%nat as Hlen.
    { apply (f_equal length) in Hd1. rewrite length_drop, !length_app in Hd1. lia. }
    destruct (Nat.ltb_spec (length msg) (off + 1 + length l)); [lia|]. cbn [fail_if res_bind].
    pose proof (wire_len_pos labels).
    destruct (Nat.ltb_spec maxNameLen (wire + (1 + length l))); [lia|]. cbn [fail_if res_bind].
    rewrite (slice_at_drop _ _ _ _ Hd1) by lia. cbn [res_bind].
    rewrite (IH (off + (1 + length l))%nat (wire + (1 + length l))%nat (acc ++ [l]) labels); try done; try lia.
    + rewrite <- app_assoc. cbn [app]. do 2 f_equal. lia.
    + apply drop_drop_app in Hd1. rewrite <- Hd1. f_equal. lia.
    + cbn [length] in Hf. lia.
Qed.

(** What is read as a name is one of the grammar. *)
Lemma labels_loop_inv fuel msg off p wire acc ls e :
  labels_loop fuel msg false off p wire None acc = Ok (ls, e) -> (wire <= maxNameLen)%nat ->
  exists labels rest, ls = acc ++ labels /\ drop off msg = wire_name labels ++ rest /\ Forall label_ok labels /\
    (wire + wire_len labels <= maxNameLen + 1)%nat /\ e = (off + wire_len labels)%nat /\ (e <= length msg)%nat.
Proof.
  revert off wire acc. induction fuel as [|k IH]; intros off wire acc; cbn [labels_loop]; [done|].
  intros [Ho H]%seq_ok. apply fail_if_ok, Nat.leb_gt in Ho. intros Hw.
  destruct (lookup_lt_is_Some_2 _ _ Ho) as [c Hc]. unfold byte_at in H. rewrite Hc in H. cbn [res_bind] in H.
  apply drop_S in Hc. destruct (Z.eqb_spec (bz c) 0) as [E|E].
  - cbn [default] in H. injection H as <- <-. exists [], (drop (S off) msg). rewrite app_nil_r. cbn [wire_name map concat app wire_len length].
    rewrite Hc. assert (c = zb 0) as -> by (apply bz_inj; by rewrite E). unfold wire_len, maxNameLen in *. cbn. split_and!; try (by constructor); lia.
  - destruct (Z.land (bz c) 192 =? 192); [by apply seq_ok in H as [? _]|]. rewrite land_192 in H. pose proof (bz_range c) as Hr.
    destruct (Z.ltb_spec (bz c) 64) as [Hlt|]; [|done]. cbn [negb] in H.
    apply seq_ok in H as [H1 H]. apply fail_if_ok, Nat.ltb_ge in H1. apply seq_ok in H as [H2 H]. apply fail_if_ok, Nat.ltb_ge in H2.
    apply res_bind_ok in H as (l & Hl & H). set (n := Z.to_nat (bz c)) in *.
    assert (l = take n (drop (S off) msg) /\ length l = n) as [El Eln].
    { unfold slice_at in Hl. destruct (_ && _); [|done]. injection Hl as <-. rewrite length_take, length_drop.
      replace (off + 1 + n - (off + 1))%nat with n by lia. rewrite Nat.add_1_r. split; [done|lia]. }
    destruct (IH _ _ _ H H2) as (labels & rest & -> & Hd & Hok & Hwl & -> & He).
    exists (l :: labels), rest. rewrite wire_len_cons, wire_name_cons. split_and!; try lia.
    + by rewrite <- app_assoc.
    + rewrite Hc. cbn [app]. f_equal; [apply bz_inj; rewrite bz_zb_small; lia|].
      rewrite <- app_assoc, <- Hd, El. replace (off + (1 + n))%nat with (S off + n)%nat by lia.
      by rewrite <- drop_drop, take_drop.
    + constructor; [unfold label_ok; lia|done].
Qed.

Lemma label_fuel_eq : label_fuel = (maxNameLen + maxPointers + 2)%nat.
Proof. reflexivity. Qed.

#[global] Opaque label_fuel.

Lemma nameLabels_read msg off labels rest :
  drop off msg = wire_name labels ++ rest -> name_ok labels ->
  nameLabels msg off false = Ok (labels, (off + wire_len labels)%nat).
Proof.
  intros Hd [Hok Hw]. unfold nameLabels. rewrite (labels_loop_read _ _ _ _ _ _ labels rest); try done; [lia|].
  assert (length labels <= wire_len labels)%nat as H.
  { clear. induction labels as [|l labels IH]; [cbn; lia|]. rewrite wire_len_cons. cbn [length]. lia. }
  rewrite label_fuel_eq. unfold maxPointers. lia.
Qed.

Lemma nameLabels_inv msg off labels e :
  nameLabels msg off false = Ok (labels, e) ->
  exists rest, drop off msg = wire_name labels ++ rest /\ name_ok labels /\ e = (off + wire_len labels)%nat /\ (e <= length msg)%nat.
Proof.
  intros H. unfold nameLabels in H. destruct (labels_loop_inv _ _ _ _ _ _ _ _ H) as (ls & rest & -> & Hd & Hok & Hw & He & Hl).
  { unfold maxNameLen. lia. }
  cbn [app]. exists rest. unfold name_ok. split_and!; try done. lia.
Qed.

Lemma u16_at_drop msg off a b rest : drop off msg = a :: b :: rest -> u16_at msg off = Ok (bz a * 256 + bz b).
Proof.
  intros H. unfold u16_at. destruct (byte_at_drop _ _ _ _ H) as [-> _]. cbn [res_bind].
  assert (drop (off + 1) msg = b :: rest) as H1 by (by rewrite <- drop_drop, H).
  by destruct (byte_at_drop _ _ _ _ H1) as [-> _].
Qed.

Lemma be16_value v : 0 <= v < 65536 -> bz (zb (v / 256)) * 256 + bz (zb v) = v.
Proof. intros H. rewrite !bz_zb. rewrite (Z.mod_small (v / 256)) by (split; [apply Z.div_pos; lia|apply Z.div_lt_upper_bound; lia]). pose proof (Z.div_mod v 256). lia. Qed.

Lemma be16_bytes a b : be16 (bz a * 256 + bz b) = [a; b].
Proof.
  pose proof (bz_range a). pose proof (bz_range b). unfold be16. f_equal; [|f_equal]; apply bz_inj.
  - rewrite Z.div_add_l, Z.div_small, Z.add_0_r, zb_bz by lia. done.
  - rewrite bz_zb, Z.add_comm, Z.mod_add, Z.mod_small by lia. done.
Qed.

Lemma u16_at_be16 msg off v rest : drop off msg = be16 v ++ rest -> 0 <= v < 65536 -> u16_at msg off = Ok v.
Proof. intros H Hv. cbn [be16 app] in H. rewrite (u16_at_drop _ _ _ _ _ H). by rewrite be16_value. Qed.

Lemma u16_at_inv msg off v : u16_at msg off = Ok v -> exists rest, drop off msg = be16 v ++ rest.
Proof.
  unfold u16_at, byte_at. destruct (msg !! off) as [a|] eqn:Ea; [|done]. destruct (msg !! (off + 1)%nat) as [b|] eqn:Eb; [|done].
  cbn [res_bind]. intros [= <-]. apply drop_S in Ea. rewrite Nat.add_1_r in Eb. apply drop_S in Eb. rewrite be16_bytes, Ea, Eb. by eexists.
Qed.

(** A record of the additional section: its owner, eight octets, and its data
    with their length. *)
Definition dns_record (r : gostr) : Prop :=
  exists owner fixed rdata, name_ok owner /\ length fixed = 8%nat /\ Z.of_nat (length rdata) < 65536 /\
    r = wire_name owner ++ fixed ++ be16 (Z.of_nat (length rdata)) ++ rdata.

Lemma split_length {A} n (l : list A) : (n <= length l)%nat -> exists a b, l = a ++ b /\ length a = n.
Proof. intros H. exists (take n l), (drop n l). rewrite take_drop, length_take. split; [done|lia]. Qed.

Lemma tail_loop_read recs msg off :
  drop off msg = concat recs -> (off <= length msg)%nat -> Forall dns_record recs ->
  tail_loop (length recs) msg off = Ok (length msg).
Proof.
  revert off. induction recs as [|r recs IH]; intros off Hd Ho Hall; cbn [tail_loop length].
  - apply (f_equal length) in Hd. rewrite length_drop in Hd. cbn in Hd. f_equal. lia.
  - apply Forall_cons in Hall as [(owner & fixed & rdata & Hn & Hf & Hr & ->) Hall].
    cbn [concat] in Hd. rewrite <- !app_assoc in Hd. rewrite (nameLabels_read _ _ _ _ Hd Hn). cbn [res_bind].
    pose proof (f_equal length Hd) as Hl. rewrite length_drop, !length_app in Hl. cbn [be16 length] in Hl. fold (wire_len owner) in Hl.
    destruct (Nat.ltb_spec (length msg) (off + wire_len owner + 10)); [lia|]. cbn [fail_if res_bind].
    apply drop_drop_app in Hd. fold (wire_len owner) in Hd. pose proof Hd as Hd'. apply drop_drop_app in Hd'. rewrite Hf in Hd'.
    rewrite (u16_at_be16 _ _ _ _ Hd') by lia. cbn [res_bind]. rewrite Nat2Z.id.
    destruct (Nat.ltb_spec (length msg) (off + wire_len owner + 10 + length rdata)); [lia|]. cbn [fail_if res_bind].
    apply IH; [|lia|done]. apply drop_drop_app in Hd'. cbn [be16 length] in Hd'. apply drop_drop_app in Hd'. rewrite <- Hd'. f_equal. lia.
Qed.

Lemma tail_loop_inv n msg off off' :
  tail_loop n msg off = Ok off' -> (off <= length msg)%nat ->
  exists recs rest, drop off msg = concat recs ++ rest /\ length recs = n /\ Forall dns_record recs /\
    off' = (off + length (concat recs))%nat /\ (off' <= length msg)%nat.
Proof.
  revert off. induction n as [|n IH]; intros off; cbn [tail_loop].
  - intros [= <-] Ho. exists [], (drop off msg). cbn. split_and!; [done..|lia|lia].
  - intros ([owner next] & Hn & H)%res_bind_ok Ho. apply nameLabels_inv in Hn as (rest & Hd & Hok & -> & He).
    apply seq_ok in H as [Hl H]. apply fail_if_ok, Nat.ltb_ge in Hl. apply res_bind_ok in H as (v & Hv & H).
    apply seq_ok in H as [Hl' H]. apply fail_if_ok, Nat.ltb_ge in Hl'. pose proof (u16_at_Ok _ _ _ Hv) as Hvr.
    destruct (IH _ H Hl') as (recs & rest' & Hd' & Hlen & Hall & -> & Hle). clear IH H.
    pose proof Hd as Hdn. apply drop_drop_app in Hdn. fold (wire_len owner) in Hdn. apply u16_at_inv in Hv as [rest2 Hv].
    assert (length rest = length msg - (off + wire_len owner))%nat as Hlr by (rewrite <- Hdn, length_drop; done).
    destruct (split_length 8 rest ltac:(lia)) as (fixed & rest3 & -> & Hf).
    apply drop_drop_app in Hdn. rewrite Hf, Hv in Hdn. subst rest3.
    apply drop_drop_app in Hv. cbn [be16 length] in Hv.
    assert (length rest2 = length msg - (off + wire_len owner + 8 + 2))%nat as Hlr2 by (rewrite <- Hv, length_drop; done).
    destruct (split_length (Z.to_nat v) rest2 ltac:(lia)) as (rdata & rest4 & -> & Hrd).
    apply drop_drop_app in Hv. rewrite Hrd in Hv.
    replace (off + wire_len owner + 8 + 2 + Z.to_nat v)%nat with (off + wire_len owner + 10 + Z.to_nat v)%nat in Hv by lia.
    rewrite Hd' in Hv. subst rest4.
    exists ((wire_name owner ++ fixed ++ be16 v ++ rdata) :: recs), rest'. cbn [concat length]. split_and!; [| lia | |..].
    + by rewrite Hd, <- !app_assoc.
    + constructor; [|done]. exists owner, fixed, rdata. rewrite Hrd, Z2Nat.id by lia. split_and!; [done|done|lia|done].
    + rewrite !length_app. cbn [be16 length]. fold (wire_len owner). lia.
    + done.
Qed.

(** [is_query msg q]: [msg] is a standard query with the one question [q], and
    its additional records account for every byte after it. *)
Definition is_query (msg : gostr) (q : question) : Prop :=
  exists id1 id2 flags1 flags2 labels class recs,
    msg = [id1; id2; flags1; flags2] ++ be16 1 ++ be16 0 ++ be16 0 ++ be16 (Z.of_nat (length recs)) ++
          wire_name labels ++ be16 (q_qtype q) ++ class ++ concat recs /\
    Z.land (bz flags1) 128 = 0 /\ Z.land (Z.shiftr (bz flags1) 3) 15 = 0 /\
    name_ok labels /\ Forall (fun l => forallb hostnameByte l = true) labels /\ length class = 2%nat /\
    Forall dns_record recs /\ Z.of_nat (length recs) < 65536 /\ 0 <= q_qtype q < 65536 /\
    q_name q = join (lit ".") labels /\ q_end q = (headerLen + wire_len labels + 4)%nat.

Lemma readName_read msg off labels rest :
  drop off msg = wire_name labels ++ rest -> name_ok labels -> Forall (fun l => forallb hostnameByte l = true) labels ->
  readName msg off = Ok (join (lit ".") labels, (off + wire_len labels)%nat).
Proof.
  intros Hd Hn Hh. unfold readName. rewrite (nameLabels_read _ _ _ _ Hd Hn). cbn [res_bind].
  assert (check_all (fun label => fail_if (negb (forallb hostnameByte label)) (BadLabel label)) labels = Ok tt) as ->; [|done].
  apply check_all_ok. eapply Forall_impl; [exact Hh|]. cbn. by intros l ->.
Qed.

Lemma readName_inv msg off name e :
  readName msg off = Ok (name, e) ->
  exists labels rest, drop off msg = wire_name labels ++ rest /\ name_ok labels /\
    Forall (fun l => forallb hostnameByte l = true) labels /\ name = join (lit ".") labels /\
    e = (off + wire_len labels)%nat /\ (e <= length msg)%nat.
Proof.
  unfold readName. intros ([labels e'] & Hn & H)%res_bind_ok. apply seq_ok in H as [Hc [= <- <-]].
  apply nameLabels_inv in Hn as (rest & Hd & Hok & He & Hle). exists labels, rest. split_and!; try done.
  apply check_all_ok in Hc. eapply Forall_impl; [exact Hc|]. cbn. intros l Hl. by apply fail_if_ok, negb_false_iff in Hl.
Qed.

Lemma readQuestion_inv msg off q :
  readQuestion msg off = Ok q ->
  exists labels class rest, drop off msg = wire_name labels ++ be16 (q_qtype q) ++ class ++ rest /\ length class = 2%nat /\ name_ok labels /\
    Forall (fun l => forallb hostnameByte l = true) labels /\ q_name q = join (lit ".") labels /\
    q_end q = (off + wire_len labels + 4)%nat /\ (q_end q <= length msg)%nat /\ 0 <= q_qtype q < 65536.
Proof.
  unfold readQuestion. intros ([name e] & Hn & H)%res_bind_ok. apply seq_ok in H as [Hl H]. apply fail_if_ok, Nat.ltb_ge in Hl.
  apply res_bind_ok in H as (v & Hv & [= <-]). cbn [q_name q_qtype q_end].
  apply readName_inv in Hn as (labels & rest & Hd & Hok & Hh & -> & -> & He).
  pose proof (u16_at_Ok _ _ _ Hv). apply u16_at_inv in Hv as [rest2 Hv]. pose proof Hd as Hdn. apply drop_drop_app in Hdn. fold (wire_len labels) in Hdn.
  rewrite Hv in Hdn. subst rest. apply drop_drop_app in Hv. cbn [be16 length] in Hv.
  assert (2 <= length rest2)%nat as H2 by (rewrite <- Hv, length_drop; lia).
  destruct (split_length 2 rest2 H2) as (class & rest3 & -> & Hc).
  exists labels, class, rest3. split_and!; try done; lia.
Qed.

Lemma readQuestion_read msg off labels qtype class rest :
  drop off msg = wire_name labels ++ be16 qtype ++ class ++ rest -> name_ok labels ->
  Forall (fun l => forallb hostnameByte l = true) labels -> length class = 2%nat -> 0 <= qtype < 65536 ->
  readQuestion msg off = Ok (MkQuestion (join (lit ".") labels) qtype (off + wire_len labels + 4)).
Proof.
  intros Hd Hok Hh Hc Hq. unfold readQuestion. rewrite (readName_read _ _ _ _ Hd Hok Hh). cbn [res_bind].
  pose proof (f_equal length Hd) as Hl. rewrite length_drop, !length_app, Hc in Hl. cbn [be16 length] in Hl. fold (wire_len labels) in Hl.
  destruct (Nat.ltb_spec (length msg) (off + wire_len labels + 4)); [lia|]. cbn [fail_if res_bind].
  apply drop_drop_app in Hd. fold (wire_len labels) in Hd. by rewrite (u16_at_be16 _ _ _ _ Hd Hq).
Qed.

Lemma be16_zero a b : bz a * 256 + bz b = 0 -> [a; b] = be16 0.
Proof. intros H. by rewrite <- be16_bytes, H. Qed.

(** Reads the two octets that [H] asks for. *)
Ltac read_u16 H :=
  match type of H with
  | context [u16_at ?m ?o] => erewrite (u16_at_drop m o) in H by reflexivity; cbn [res_bind] in H
  end.

(** C20: The question the policy judges is the question of the message: a
    message is taken as a query exactly when it is one of the grammar, an
    uncompressed name of plain host name labels among it, and every byte after
    the question belongs to one of its records. *)
Theorem parseQuery_exact (msg : gostr) (q : question) : parseQuery msg = Ok q <-> is_query msg q.
Proof.
  split.
  - unfold parseQuery. intros [Hl H]%seq_ok. apply fail_if_ok, Nat.ltb_ge in Hl. unfold headerLen in *.
    destruct msg as [|b0 [|b1 [|b2 [|b3 [|b4 [|b5 [|b6 [|b7 [|b8 [|b9 [|b10 [|b11 msg]]]]]]]]]]]]; try (cbn in Hl; lia).
    unfold byte_at at 1 in H. cbn [lookup list_lookup res_bind] in H.
    apply seq_ok in H as [H1 H]. apply fail_if_ok, negb_false_iff, Z.eqb_eq in H1.
    apply seq_ok in H as [H2 H]. apply fail_if_ok, negb_false_iff, Z.eqb_eq in H2.
    read_u16 H.
    apply seq_ok in H as [H3 H]. apply fail_if_ok, negb_false_iff, Z.eqb_eq in H3.
    apply res_bind_ok in H as (q' & Hq & H). apply seq_ok in H as [Ht [= ->]].
    apply readQuestion_inv in Hq as (labels & class & rest & Hd & Hc & Hok & Hh & Hn & He & Hle & Hqt).
    unfold checkQueryTail in Ht. read_u16 Ht.
    destruct (Z.eqb_spec (bz b6 * 256 + bz b7) 0) as [E6|]; cbn [negb res_bind] in Ht; [|done].
    read_u16 Ht.
    destruct (Z.eqb_spec (bz b8 * 256 + bz b9) 0) as [E8|]; cbn [negb orb fail_if res_bind] in Ht; [|done].
    read_u16 Ht.
    apply res_bind_ok in Ht as (off & Ht & Hoff). apply fail_if_ok, negb_false_iff, Nat.eqb_eq in Hoff. subst off.
    destruct (tail_loop_inv _ _ _ _ Ht Hle) as (recs & rest' & Hd' & Hlen & Hall & Heq & _).
    pose proof (bz_range b10). pose proof (bz_range b11).
    assert (rest = concat recs) as ->.
    { apply drop_drop_app in Hd. fold (wire_len labels) in Hd. apply drop_drop_app in Hd. apply drop_drop_app in Hd. rewrite Hc in Hd. cbn [be16 length] in Hd.
      replace (12 + wire_len labels + 2 + 2)%nat with (q_end q) in Hd by lia. rewrite Hd' in Hd. rewrite <- Hd.
      assert (length rest' = 0)%nat as E; [|by destruct rest'; [rewrite app_nil_r|]].
      apply (f_equal length) in Hd'. rewrite length_drop, length_app in Hd'. lia. }
    change (msg = wire_name labels ++ be16 (q_qtype q) ++ class ++ concat recs) in Hd. exists b0, b1, b2, b3, labels, class, recs. split_and!; try done.
    + rewrite Hlen, Z2Nat.id, be16_bytes by lia. rewrite <- H3, be16_bytes, <- (be16_zero _ _ E6), <- Hd.
      cbn [app]. do 8 f_equal. apply (be16_zero _ _) in E8. injection E8 as -> ->. by apply be16_zero in E6 as [= -> ->].
    + rewrite Hlen, Z2Nat.id by lia. lia.
    + lia.
    + lia.
  - intros (b0 & b1 & b2 & b3 & labels & class & recs & -> & H1 & H2 & Hok & Hh & Hc & Hall & Hlen & Hqt & Hn & He).
    set (tl := wire_name labels ++ be16 (q_qtype q) ++ class ++ concat recs).
    set (msg := [b0; b1; b2; b3] ++ _).
    assert (drop 12 msg = tl) as Hd by done.
    assert (length msg = 12 + length tl)%nat as Hlm by done.
    assert (length tl = wire_len labels + 4 + length (concat recs))%nat as Hlt.
    { unfold tl. rewrite !length_app, Hc. cbn [be16 length]. unfold wire_len. lia. }
    assert (drop (q_end q) msg = concat recs) as Hde.
    { pose proof Hd as Hd2. unfold tl in Hd2. do 3 apply drop_drop_app in Hd2. rewrite <- Hd2. f_equal. cbn [be16 length]. rewrite He, Hc. unfold headerLen, wire_len. lia. }
    assert (readQuestion msg 12 = Ok q) as Hq.
    { rewrite (readQuestion_read _ _ _ _ _ _ Hd Hok Hh Hc Hqt), <- Hn. f_equal. destruct q as [n t e]. cbn in *. subst e. done. }
    unfold parseQuery, headerLen. destruct (Nat.ltb_spec (length msg) 12); [lia|]. cbn [fail_if res_bind].
    change (byte_at msg 2) with (Ok (E:=dns_error) (bz b2)). cbn [res_bind]. rewrite H1, H2. cbn [Z.eqb negb fail_if res_bind].
    erewrite (u16_at_be16 msg 4 1) by (reflexivity || lia). cbn [res_bind Z.eqb Pos.eqb negb fail_if]. rewrite Hq. cbn [res_bind].
    unfold checkQueryTail. erewrite (u16_at_be16 msg 6 0) by (reflexivity || lia). erewrite (u16_at_be16 msg 8 0) by (reflexivity || lia).
    erewrite (u16_at_be16 msg 10 (Z.of_nat (length recs))) by (reflexivity || lia). cbn [res_bind Z.eqb negb orb fail_if].
    rewrite Nat2Z.id, (tail_loop_read _ _ _ Hde) by (done || (rewrite He; unfold headerLen; lia)).
    cbn [res_bind]. by rewrite Nat.eqb_refl.
Qed.
