(* ===== verification/DnsAnswer.v ===== *)
(** * [internal/egress/dns.go]: the answers the resolver passes on

    [inspectAnswer] reads the answer of the upstream resolver, rewrites it for
    the guest and returns the addresses in it, and [chainAddrs] follows its
    aliases. *)

From stdpp Require Import prelude list strings.
From Stdlib Require Import ZArith Lia ZifyNat Ascii.
From S2P Require Import Prelude GoUnicode GoStrings GoNetip EgressRules Dns.

Local Open Scope Z_scope.

(** ** The answer of an upstream resolver *)

(** [netip.AddrFrom4]. *)
Definition addr_from4 (bs : gostr) : addr := V4 (foldl (fun acc c => acc * 256 + bz c) 0 bs).

(** The variables of the loop over the records.  [opt] holds the bounds of the
    OPT records, which are slices of the message. *)
Record inspect_state := MkInspect {
  is_resp : gostr; is_off : nat; is_addrs : list addr; is_opt : list (nat * nat); is_cut : option nat }.

Section Inspect.
Variables (answers kept : nat) (ttl : Z).

Definition inspect_turn (i : nat) (st : inspect_state) : res dns_error inspect_state :=
  let off := is_off st in
  let resp := is_resp st in
  let cut := if (i =? kept)%nat then Some off else is_cut st in
  let? r := nameLabels resp off true in
  let '(_, next) := r in
  fail_if (length resp <? next + 10)%nat ErrShort ;?
  let? rtype := u16_at resp next in
  let? class := u16_at resp (next + 2) in
  let? rdlen := u16_at resp (next + 8) in
  let rdata := (next + 10)%nat in
  let rdlen := Z.to_nat rdlen in
  fail_if (length resp <? rdata + rdlen)%nat ErrShort ;?
  let? resp := if (0 <? ttl) && negb (rtype =? typeOPT) then put_u32 resp (next + 4) ttl else Ok resp in
  let? addrs :=
    if (i <? answers)%nat && (rtype =? typeA) && (class =? classIN) && (rdlen =? 4)%nat then
      let? bs := slice_at resp rdata (rdata + 4) in Ok (is_addrs st ++ [addr_from4 bs])
    else Ok (is_addrs st) in
  let opt := if (kept <=? i)%nat && (rtype =? typeOPT) && (next =? off + 1)%nat
             then is_opt st ++ [(off, (rdata + rdlen)%nat)] else is_opt st in
  Ok (MkInspect resp (rdata + rdlen) addrs opt cut).

(** The loop, from record [i], with [n] records to go. *)
Fixpoint inspect_loop (n i : nat) (st : inspect_state) : res dns_error inspect_state :=
  match n with
  | O => Ok st
  | S k => let? st := inspect_turn i st in inspect_loop k (S i) st
  end.
End Inspect.

(** What the guest gets: the message up to the additional section, and the OPT
    records. *)
Definition guest_answer (st : inspect_state) : gostr :=
  match is_cut st with
  | None => is_resp st
  | Some cut =>
    let out := take cut (is_resp st) ++ concat (map (fun '(a, b) => take (b - a) (drop a (is_resp st))) (is_opt st)) in
    put out 10 (be16 (Z.of_nat (length (is_opt st))))
  end.

Definition inspectAnswer (resp query : gostr) (q : question) (ttl : Z) : res dns_error (gostr * list addr) :=
  fail_if (length resp <? headerLen)%nat ErrShort ;?
  let? r0 := byte_at resp 0 in
  let? q0 := byte_at query 0 in
  let? r1 := byte_at resp 1 in
  let? q1 := byte_at query 1 in
  fail_if (negb (r0 =? q0) || negb (r1 =? q1)) IDMismatch ;?
  let? r2 := byte_at resp 2 in
  fail_if (Z.land r2 128 =? 0) NotResponse ;?
  let? n := u16_at resp 4 in
  fail_if (negb (n =? 1)) (Questions n) ;?
  let? rq := readQuestion resp headerLen in
  fail_if (negb (equal_fold (q_name rq) (q_name q)) || negb (q_qtype rq =? q_qtype q)) OtherQuestion ;?
  let? an := u16_at resp 6 in
  let? ns := u16_at resp 8 in
  let? ar := u16_at resp 10 in
  let answers := Z.to_nat an in
  let kept := (answers + Z.to_nat ns)%nat in
  let? st := inspect_loop answers kept ttl (kept + Z.to_nat ar) 0 (MkInspect resp (q_end rq) [] [] None) in
  Ok (guest_answer st, is_addrs st).

(** ** Chains of aliases *)

Definition joinLabels (labels : list gostr) : gostr := join (lit ".") (to_lower <$> labels).

(** [record]: [cr_target] is empty and [cr_addr] is [None] where the code keeps
    the zero value. *)
Record chain_record := MkChainRecord { cr_owner : gostr; cr_target : gostr; cr_addr : option addr }.

Fixpoint chain_records (n : nat) (resp : gostr) (off : nat) : res dns_error (list chain_record) :=
  match n with
  | O => Ok []
  | S k =>
    let? r := nameLabels resp off true in
    let '(owner, next) := r in
    fail_if (length resp <? next + 10)%nat ErrShort ;?
    let? rtype := u16_at resp next in
    let? class := u16_at resp (next + 2) in
    let? rdlen := u16_at resp (next + 8) in
    let rdata := (next + 10)%nat in
    let rdlen := Z.to_nat rdlen in
    fail_if (length resp <? rdata + rdlen)%nat ErrShort ;?
    let? rec :=
      if (rtype =? typeCNAME) && (class =? classIN) then
        let? t := nameLabels resp rdata true in
        Ok (MkChainRecord (joinLabels owner) (joinLabels t.1) None)
      else if (rtype =? typeA) && (class =? classIN) && (rdlen =? 4)%nat then
        let? bs := slice_at resp rdata (rdata + 4) in
        Ok (MkChainRecord (joinLabels owner) [] (Some (addr_from4 bs)))
      else Ok (MkChainRecord (joinLabels owner) [] None) in
    let? recs := chain_records k resp (rdata + rdlen) in
    Ok (rec :: recs)
  end.

(** A pass over the records, which adds the target of each alias of a name. *)
Fixpoint chain_pass (recs : list chain_record) (names : list gostr) (grew : bool) : list gostr * bool :=
  match recs with
  | [] => (names, grew)
  | r :: recs' =>
    if negb (bool_decide (cr_target r = [])) && mem (cr_owner r) names && negb (mem (cr_target r) names)
    then chain_pass recs' (names ++ [cr_target r]) true
    else chain_pass recs' names grew
  end.

Fixpoint chain_passes (n : nat) (recs : list chain_record) (names : list gostr) : list gostr :=
  match n with
  | O => names
  | S k => let '(names, grew) := chain_pass recs names false in if grew then chain_passes k recs names else names
  end.

Definition chain_out (recs : list chain_record) (names : list gostr) : list addr :=
  foldl (fun out r =>
    match cr_addr r with
    | Some a => if mem (cr_owner r) names && negb (mem a out) then out ++ [a] else out
    | None => out
    end) [] recs.

Definition chainAddrs (resp : gostr) (name : gostr) : res dns_error (list addr) :=
  fail_if (length resp <? headerLen)%nat ErrShort ;?
  let? r := nameLabels resp headerLen true in
  let? n := u16_at resp 6 in
  let? recs := chain_records (Z.to_nat n) resp (r.2 + 4) in
  Ok (chain_out recs (chain_passes (length recs) recs [normalizeName name])).

(** ** Examples *)

Definition example_response : gostr :=
  (zb <$> [18; 52; 129; 128; 0; 1; 0; 2; 0; 0; 0; 2]) ++ wire_name [lit "api"; lit "example"; lit "com"] ++ be16 typeA ++ be16 classIN
  ++ (zb <$> [192; 12]) ++ be16 typeCNAME ++ be16 classIN ++ be32 3600 ++ be16 5 ++ wire_name [lit "cdn"]
  ++ (zb <$> [192; 45]) ++ be16 typeA ++ be16 classIN ++ be32 3600 ++ be16 4 ++ be32 167837955
  ++ [zb 0] ++ be16 typeOPT ++ be16 1232 ++ be32 0 ++ be16 0
  ++ (zb <$> [192; 12]) ++ be16 typeA ++ be16 classIN ++ be32 3600 ++ be16 4 ++ be32 16909060.

Example dns_2 : is_ok (inspectAnswer example_response example_query (MkQuestion (lit "API.example.com") typeA 33) 60) = true
  /\ snd <$> (match inspectAnswer example_response example_query (MkQuestion (lit "API.example.com") typeA 33) 60 with
     | Ok r => Some r | Err _ => None end) = Some [V4 167837955].
Proof. vm_compute. done. Qed.
Example dns_3 : chainAddrs example_response (lit "api.example.com") = Ok [V4 167837955].
Proof. vm_compute. reflexivity. Qed.

(** ** No read out of range, and no loop without end *)

Lemma inspect_turn_sound answers kept ttl i st : sound (inspect_turn answers kept ttl i st).
Proof.
  unfold inspect_turn. apply sound_bind; [apply nameLabels_sound|]. intros [ls next] _. dns_guard H. apply Nat.ltb_ge in H.
  do 3 (apply sound_bind; [apply u16_at_sound; lia|]; intros ? _). dns_guard H'. apply Nat.ltb_ge in H'.
  apply sound_bind.
  - destruct (_ && _); [|done]. unfold put_u32. destruct (Nat.leb_spec (next + 4 + 4) (length (is_resp st))); [done|lia].
  - intros resp Hr. assert (length resp = length (is_resp st)) as Hl.
    { revert Hr. destruct (_ && _); [|by intros [= <-]]. intros Hr. by apply put_u32_Ok in Hr as [_ ?]. }
    apply sound_bind; [|done]. destruct (_ && _ && _ && (_ =? 4)%nat) eqn:E; [|done]. bool_inv.
    apply Nat.eqb_eq in H1. apply sound_bind; [apply slice_at_sound; lia|done].
Qed.

Lemma inspect_loop_sound answers kept ttl n i st : sound (inspect_loop answers kept ttl n i st).
Proof.
  revert i st. induction n as [|n IH]; intros i st; cbn [inspect_loop]; [done|].
  apply sound_bind; [apply inspect_turn_sound|]. intros st' _. apply IH.
Qed.

Lemma chain_records_sound n resp off : sound (chain_records n resp off).
Proof.
  revert off. induction n as [|n IH]; intros off; cbn [chain_records]; [done|].
  apply sound_bind; [apply nameLabels_sound|]. intros [ls next] _. dns_guard H. apply Nat.ltb_ge in H.
  do 3 (apply sound_bind; [apply u16_at_sound; lia|]; intros ? _). dns_guard H'. apply Nat.ltb_ge in H'.
  apply sound_bind; [|intros r _; apply sound_bind; [apply IH|done]].
  destruct (_ && _); [apply sound_bind; [apply nameLabels_sound|done]|].
  destruct (_ && _ && (_ =? 4)%nat) eqn:E; [|done]. bool_inv. apply Nat.eqb_eq in H1.
  apply sound_bind; [apply slice_at_sound; lia|done].
Qed.


(** ** The records of a message

    [rrs m o rs e]: the records [rs] are written from [o] to [e].  The owner
    of a record is skipped and not read: a pointer ends it. *)

(** [bs] is written at [n]. *)
Definition at_bytes (m : gostr) (n : nat) (bs : gostr) : Prop := take (length bs) (drop n m) = bs.

Inductive skip (m : gostr) : nat -> nat -> Prop :=
  | skip_root o : m !! o = Some (zb 0) -> skip m o (o + 1)
  | skip_pointer o c d : m !! o = Some c -> m !! (o + 1)%nat = Some d -> Z.land (bz c) 192 = 192 -> skip m o (o + 2)
  | skip_label o c e : m !! o = Some c -> 0 < bz c < 64 -> skip m (o + (1 + Z.to_nat (bz c)))%nat e -> skip m o e.

Record rr := MkRR { rr_start : nat; rr_next : nat; rr_type : Z; rr_class : Z; rr_ttl : Z; rr_data : gostr }.

Definition rr_bytes (r : rr) : gostr :=
  be16 (rr_type r) ++ be16 (rr_class r) ++ be32 (rr_ttl r) ++ be16 (Z.of_nat (length (rr_data r))) ++ rr_data r.

Definition rr_end (r : rr) : nat := (rr_next r + length (rr_bytes r))%nat.

Inductive rrs (m : gostr) : nat -> list rr -> nat -> Prop :=
  | rrs_nil o : rrs m o [] o
  | rrs_snoc o rs r : rrs m o rs (rr_start r) -> skip m (rr_start r) (rr_next r) -> at_bytes m (rr_next r) (rr_bytes r) ->
      rrs m o (rs ++ [r]) (rr_end r).

(** The address of an A record. *)
Definition rr_addr (r : rr) : option addr :=
  if (rr_type r =? typeA) && (rr_class r =? classIN) && (length (rr_data r) =? 4)%nat then Some (addr_from4 (rr_data r)) else None.

(** An OPT record of the root. *)
Definition rr_opt (r : rr) : bool := (rr_type r =? typeOPT) && (rr_next r =? rr_start r + 1)%nat.

(** *** What is written between two offsets decides its records *)

Definition agree (m m' : gostr) (o e : nat) : Prop := forall i, (o <= i < e)%nat -> m !! i = m' !! i.

Lemma agree_weaken m m' o e o' e' : agree m m' o e -> (o <= o')%nat -> (e' <= e)%nat -> agree m m' o' e'.
Proof. intros H Ho He i Hi. apply H. lia. Qed.

Lemma at_bytes_len m n bs : at_bytes m n bs -> bs <> [] -> (n + length bs <= length m)%nat.
Proof.
  unfold at_bytes. intros H Hne. apply (f_equal length) in H. rewrite length_take, length_drop in H.
  destruct bs; [done|]. cbn [length] in *. lia.
Qed.

Lemma take_drop_agree {A} (m m' : list A) n k :
  (forall i, (n <= i < n + k)%nat -> m !! i = m' !! i) -> take k (drop n m) = take k (drop n m').
Proof.
  intros H. apply list_eq. intros i. destruct (decide (i < k)%nat) as [Hi|Hi].
  - rewrite !lookup_take_lt by done. rewrite !lookup_drop. apply H. lia.
  - rewrite !lookup_take_ge by lia. done.
Qed.

Lemma at_bytes_agree m m' n bs : agree m m' n (n + length bs) -> at_bytes m n bs -> at_bytes m' n bs.
Proof. unfold at_bytes. intros Ha H. rewrite <- H at 2. symmetry. by apply take_drop_agree. Qed.

Lemma skip_after m o e : skip m o e -> (o < e)%nat.
Proof. induction 1; lia. Qed.

Lemma skip_agree m m' o e : skip m o e -> agree m m' o e -> skip m' o e.
Proof.
  induction 1 as [o H|o c d H1 H2 H3|o c e H1 H2 H3 IH]; intros Ha.
  - apply skip_root. rewrite <- Ha by lia. done.
  - apply (skip_pointer _ _ c d); [| |done]; rewrite <- Ha by lia; done.
  - pose proof (skip_after _ _ _ H3). apply (skip_label _ _ c); [|done|].
    + rewrite <- Ha by lia. done.
    + apply IH. eapply agree_weaken; [exact Ha|lia|done].
Qed.

Lemma rr_bytes_len r : length (rr_bytes r) = (10 + length (rr_data r))%nat.
Proof. unfold rr_bytes. rewrite !length_app. cbn [be16 be32 length]. lia. Qed.

Lemma rr_end_after r m : skip m (rr_start r) (rr_next r) -> (rr_start r < rr_end r)%nat.
Proof. intros H%skip_after. unfold rr_end. lia. Qed.

Lemma rrs_after m o rs e : rrs m o rs e -> (o <= e)%nat.
Proof. induction 1 as [|o rs r H IH Hs Hb]; [done|]. apply rr_end_after in Hs. lia. Qed.

Lemma rrs_agree m m' o rs e : rrs m o rs e -> agree m m' o e -> rrs m' o rs e.
Proof.
  induction 1 as [o|o rs r H IH Hs Hb]; intros Ha; [constructor|]. pose proof (rrs_after _ _ _ _ H).
  pose proof (skip_after _ _ _ Hs). pose proof (rr_end_after _ _ Hs). unfold rr_end in *. constructor.
  - apply IH. eapply agree_weaken; [exact Ha|done|lia].
  - eapply skip_agree; [exact Hs|]. eapply agree_weaken; [exact Ha|lia|lia].
  - eapply at_bytes_agree; [|exact Hb]. eapply agree_weaken; [exact Ha|lia|done].
Qed.

Lemma rrs_bound m o rs e : rrs m o rs e -> (o <= length m)%nat -> (e <= length m)%nat.
Proof.
  induction 1 as [o|o rs r H IH Hs Hb]; intros Ho; [done|]. unfold rr_end. apply at_bytes_len in Hb; [done|].
  unfold rr_bytes, be16. done.
Qed.

(** *** Writing over a message *)

Lemma lookup_put m n bs i : (n + length bs <= length m)%nat ->
  put m n bs !! i = if decide (n <= i < n + length bs)%nat then bs !! (i - n)%nat else m !! i.
Proof.
  intros H. unfold put. case_decide as Hi.
  - rewrite lookup_app_r by (rewrite length_take; lia). rewrite length_take, Nat.min_l by lia. by rewrite lookup_app_l by lia.
  - destruct (decide (i < n)%nat) as [Hlt|Hge].
    + rewrite lookup_app_l by (rewrite length_take; lia). by rewrite lookup_take_lt.
    + rewrite lookup_app_r by (rewrite length_take; lia). rewrite length_take, Nat.min_l by lia.
      rewrite lookup_app_r by lia. rewrite lookup_drop. f_equal. lia.
Qed.

Lemma put_agree m n bs o e : (n + length bs <= length m)%nat -> (e <= n \/ n + length bs <= o)%nat -> agree m (put m n bs) o e.
Proof. intros H Ho i Hi. rewrite lookup_put by done. case_decide; [lia|done]. Qed.

Lemma at_bytes_put m n x y y' z :
  at_bytes m n (x ++ y ++ z) -> length y = length y' -> (n + length (x ++ y ++ z) <= length m)%nat ->
  at_bytes (put m (n + length x) y') n (x ++ y' ++ z).
Proof.
  unfold at_bytes. intros H Hl Hb. rewrite !length_app in *. rewrite <- Hl.
  assert (drop n m = x ++ y ++ z ++ drop (n + length x + length y + length z) m) as Hd.
  { rewrite <- (take_drop (length x + (length y + length z)) (drop n m)) at 1. rewrite H, <- !app_assoc, drop_drop.
    do 4 f_equal. lia. }
  assert (drop n (put m (n + length x) y') = x ++ y' ++ z ++ drop (n + length x + length y + length z) m) as ->.
  { unfold put. rewrite drop_app_le by (rewrite length_take; lia). rewrite skipn_firstn_comm.
    replace (n + length x - n)%nat with (length x) by lia. rewrite Hd, take_app_length. do 2 f_equal.
    rewrite <- Hl, <- drop_drop, <- drop_drop, Hd, drop_app_length, drop_app_length. done. }
  rewrite (app_assoc y'), (app_assoc x). apply take_app_length'. rewrite !length_app. lia.
Qed.

(** *** A turn of the loop *)

Lemma slice_Ok m a b bs : slice_at m a b = Ok bs -> bs = take (b - a) (drop a m) /\ (a <= b <= length m)%nat.
Proof.
  unfold slice_at. destruct (Nat.leb_spec a b); [|done]. destruct (Nat.leb_spec b (length m)); [|done]. by intros [= <-].
Qed.

Lemma labels_loop_end fuel m c off p w e acc ls e' :
  labels_loop fuel m c off p w (Some e) acc = Ok (ls, e') -> e' = e.
Proof.
  revert off p w acc. induction fuel as [|k IH]; intros off p w acc; cbn [labels_loop]; [done|].
  intros [_ H]%seq_ok. apply res_bind_ok in H as (n & _ & H). destruct (n =? 0); [by injection H as _ <-|].
  destruct (Z.land n 192 =? 192).
  - apply seq_ok in H as [_ H]. apply seq_ok in H as [_ H]. apply seq_ok in H as [_ H].
    apply res_bind_ok in H as (v & _ & H). by apply IH in H.
  - destruct (negb _); [done|]. apply seq_ok in H as [_ H]. apply seq_ok in H as [_ H].
    apply res_bind_ok in H as (l & _ & H). by apply IH in H.
Qed.

Lemma labels_loop_skip fuel m c off p w acc ls e : labels_loop fuel m c off p w None acc = Ok (ls, e) -> skip m off e.
Proof.
  revert off p w acc. induction fuel as [|k IH]; intros off p w acc; cbn [labels_loop]; [done|].
  intros [Ho H]%seq_ok. apply fail_if_ok, Nat.leb_gt in Ho. destruct (lookup_lt_is_Some_2 _ _ Ho) as [b Hb].
  unfold byte_at in H. rewrite Hb in H. cbn [res_bind] in H. pose proof (bz_range b). destruct (Z.eqb_spec (bz b) 0) as [E|E].
  - injection H as <- <-. cbn [default]. apply skip_root. rewrite Hb. f_equal. apply bz_inj. by rewrite E.
  - destruct (Z.eqb_spec (Z.land (bz b) 192) 192) as [E'|E'].
    + apply seq_ok in H as [_ H]. apply seq_ok in H as [Hl H]. apply fail_if_ok, Nat.ltb_ge in Hl. apply seq_ok in H as [_ H].
      apply res_bind_ok in H as (v & _ & H). apply labels_loop_end in H as ->. cbn [default].
      destruct (lookup_lt_is_Some_2 m (off + 1)%nat ltac:(lia)) as [d Hd]. by eapply skip_pointer.
    + rewrite land_192 in H. destruct (Z.ltb_spec (bz b) 64); [|done]. cbn [negb] in H. apply seq_ok in H as [_ H].
      apply seq_ok in H as [_ H]. apply res_bind_ok in H as (l & _ & H). eapply skip_label; [exact Hb|lia|]. by eapply IH.
Qed.

Lemma u16_at_bytes m n v : u16_at m n = Ok v -> at_bytes m n (be16 v).
Proof. intros H. apply u16_at_inv in H as [rest H]. unfold at_bytes. rewrite H. by rewrite take_app_length. Qed.

Lemma at_bytes_app m n a b : at_bytes m n a -> at_bytes m (n + length a) b -> at_bytes m n (a ++ b).
Proof.
  unfold at_bytes. intros Ha Hb. rewrite length_app. rewrite <- (take_take_drop (drop n m) (length a) (length b)).
  by rewrite drop_drop, Ha, Hb.
Qed.

Lemma at_bytes_take m n k : (n + k <= length m)%nat -> at_bytes m n (take k (drop n m)).
Proof. intros H. unfold at_bytes. rewrite length_take, length_drop. f_equal. lia. Qed.

Lemma be32_bytes a b c d : be32 (((bz a * 256 + bz b) * 256 + bz c) * 256 + bz d) = [a; b; c; d].
Proof.
  pose proof (bz_range a). pose proof (bz_range b). pose proof (bz_range c). pose proof (bz_range d). unfold be32.
  repeat f_equal; apply bz_inj; rewrite bz_zb; Z.div_mod_to_equations; lia.
Qed.

Lemma four_bytes (l : gostr) : length l = 4%nat -> exists v, l = be32 v.
Proof.
  destruct l as [|a [|b [|c [|d [|]]]]]; try done. intros _. eexists. symmetry. apply be32_bytes.
Qed.

Lemma at_bytes_slice m n bs k : at_bytes m n bs -> length bs = k -> take k (drop n m) = bs.
Proof. unfold at_bytes. by intros H <-. Qed.

Lemma at_bytes_inv_app m n a b : at_bytes m n (a ++ b) -> at_bytes m n a /\ at_bytes m (n + length a) b.
Proof.
  unfold at_bytes. rewrite length_app. intros H. split.
  - apply (f_equal (take (length a))) in H. rewrite take_take, Nat.min_l, take_app_length in H by lia. done.
  - rewrite <- drop_drop. apply (f_equal (drop (length a))) in H. rewrite drop_app_length in H.
    rewrite <- H at 2. rewrite skipn_firstn_comm. f_equal. lia.
Qed.

Lemma inspect_turn_spec answers kept ttl i st st' :
  inspect_turn answers kept ttl i st = Ok st' ->
  exists r, rr_start r = is_off st /\ skip (is_resp st') (rr_start r) (rr_next r) /\
    at_bytes (is_resp st') (rr_next r) (rr_bytes r) /\ is_off st' = rr_end r /\
    length (is_resp st') = length (is_resp st) /\ agree (is_resp st) (is_resp st') 0 (is_off st) /\
    (0 < ttl -> rr_type r <> typeOPT -> rr_ttl r = ttl) /\
    is_addrs st' = is_addrs st ++ (if (i <? answers)%nat then option_list (rr_addr r) else []) /\
    is_opt st' = is_opt st ++ (if (kept <=? i)%nat && rr_opt r then [(rr_start r, rr_end r)] else []) /\
    is_cut st' = if (i =? kept)%nat then Some (is_off st) else is_cut st.
Proof.
  unfold inspect_turn. destruct st as [resp off addrs opt cut]. cbn [is_resp is_off is_addrs is_opt is_cut].
  intros ([ls next] & Hn & H)%res_bind_ok. apply labels_loop_skip in Hn as Hs. pose proof (skip_after _ _ _ Hs) as Hon.
  apply seq_ok in H as [Hl H]. apply fail_if_ok, Nat.ltb_ge in Hl.
  apply res_bind_ok in H as (t & Ht & H). apply res_bind_ok in H as (c & Hc & H). apply res_bind_ok in H as (v & Hv & H).
  apply seq_ok in H as [Hl' H]. apply fail_if_ok, Nat.ltb_ge in Hl'. pose proof (u16_at_Ok _ _ _ Hv) as Hvr.
  set (rdata := (next + 10)%nat) in *. set (n := Z.to_nat v) in *.
  destruct (four_bytes (take 4 (drop (next + 4) resp))) as [tv Htv]; [rewrite length_take, length_drop; lia|].
  set (data := take n (drop rdata resp)). assert (length data = n) as Hdl by (unfold data; rewrite length_take, length_drop; lia).
  set (r0 := fun ttl => MkRR off next t c ttl data).
  assert (forall w, length (rr_bytes (r0 w)) = (10 + n)%nat) as Hrl by (intros w; rewrite rr_bytes_len; cbn [rr_data r0]; lia).
  assert (at_bytes resp next (rr_bytes (r0 tv))) as Hb0.
  { unfold rr_bytes. cbn [r0 rr_type rr_class rr_ttl rr_data]. rewrite Hdl. unfold n. rewrite Z2Nat.id by lia.
    apply at_bytes_app; [by apply u16_at_bytes|]. apply at_bytes_app; [by apply u16_at_bytes|].
    apply at_bytes_app; [rewrite <- Htv; replace (next + length (be16 t) + length (be16 c))%nat with (next + 4)%nat by (cbn; lia); apply at_bytes_take; lia|].
    apply at_bytes_app; [replace (_ + _)%nat with (next + 8)%nat by (cbn; lia); by apply u16_at_bytes|].
    unfold data. replace (_ + _)%nat with rdata by (unfold rdata; cbn; lia). by apply at_bytes_take. }
  apply res_bind_ok in H as (resp' & Hr & H). apply res_bind_ok in H as (addrs' & Ha & [= <-]).
  cbn [is_resp is_off is_addrs is_opt is_cut].
  assert (exists w, at_bytes resp' next (rr_bytes (r0 w)) /\ length resp' = length resp /\ agree resp resp' 0 (next + 4) /\
    (0 < ttl -> t <> typeOPT -> w = ttl)) as (w & Hb & Hlen & Hag & Hw).
  { destruct ((0 <? ttl) && negb (t =? typeOPT)) eqn:E.
    - exists ttl. apply put_u32_Ok in Hr as [-> Hlen]. split_and!; [|done|apply put_agree; [cbn; lia|by left]|done].
      unfold rr_bytes in *. rewrite (app_assoc (be16 _) (be16 _)) in *.
      apply (at_bytes_put resp next (be16 t ++ be16 c) (be32 tv) (be32 ttl) _ Hb0 eq_refl).
      rewrite <- app_assoc. cbn [r0 rr_data]. rewrite !length_app, Hdl. cbn [be16 be32 length]. lia.
    - injection Hr as <-. exists tv. split_and!; [done..|]. intros H1 H2. apply Z.ltb_lt in H1. apply Z.eqb_neq in H2. by rewrite H1, H2 in E. }
  exists (r0 w). cbn [r0 rr_start rr_next rr_type]. unfold rr_end. cbn [r0 rr_next]. rewrite Hrl. split_and!; try done.
  - eapply skip_agree; [exact Hs|]. eapply agree_weaken; [exact Hag|lia|lia].
  - unfold rdata. lia.
  - eapply agree_weaken; [exact Hag|lia|lia].
  - assert (take n (drop rdata resp') = data) as Hd'.
    { unfold rr_bytes in Hb. do 4 (apply at_bytes_inv_app in Hb as [_ Hb]). cbn [r0 rr_data be16 be32 length] in Hb.
      replace (next + 2 + 2 + 4 + 2)%nat with rdata in Hb by (unfold rdata; lia). by apply at_bytes_slice. }
    unfold rr_addr. cbn [r0 rr_type rr_class rr_data]. rewrite Hdl.
    destruct (i <? answers)%nat; cbn [andb] in *; [|injection Ha as <-; by rewrite app_nil_r].
    destruct ((t =? typeA) && (c =? classIN) && (n =? 4)%nat) eqn:E.
    + apply res_bind_ok in Ha as (bs & Hbs & [= <-]). cbn [option_list]. do 3 f_equal. apply slice_Ok in Hbs as [-> _].
      apply andb_true_iff in E as [_ E]. apply Nat.eqb_eq in E. rewrite <- Hd', E. by replace (rdata + 4 - rdata)%nat with 4%nat by lia.
    + injection Ha as <-. by rewrite app_nil_r.
  - unfold rr_opt. cbn [r0 rr_type rr_next rr_start]. rewrite <- andb_assoc. replace (rdata + n)%nat with (next + (10 + n))%nat by (unfold rdata; lia).
    destruct ((kept <=? i)%nat && ((t =? typeOPT) && (next =? off + 1)%nat)); [done|by rewrite app_nil_r].
Qed.

(** *** The loop *)

Definition rewritten (ttl : Z) (r : rr) : Prop := 0 < ttl -> rr_type r <> typeOPT -> rr_ttl r = ttl.

(** The variables of the loop after the records [rs], from the offset [o]. *)
Definition inspected (answers kept : nat) (ttl : Z) (resp : gostr) (o : nat) (rs : list rr) (st : inspect_state) : Prop :=
  rrs (is_resp st) o rs (is_off st) /\ length (is_resp st) = length resp /\ agree resp (is_resp st) 0 o /\
  Forall (rewritten ttl) rs /\
  is_addrs st = omap rr_addr (take answers rs) /\
  is_opt st = (fun r => (rr_start r, rr_end r)) <$> List.filter rr_opt (drop kept rs) /\
  match is_cut st with
  | Some c => rrs (is_resp st) o (take kept rs) c /\ (kept < length rs)%nat
  | None => (length rs <= kept)%nat
  end.

Lemma omap_snoc {A B} (f : A -> option B) l x : omap f (l ++ [x]) = omap f l ++ option_list (f x).
Proof. by rewrite omap_app. Qed.

Lemma take_snoc {A} n (l : list A) x : take n (l ++ [x]) = take n l ++ (if (length l <? n)%nat then [x] else []).
Proof.
  rewrite take_app. f_equal. destruct (Nat.ltb_spec (length l) n).
  - destruct (n - length l)%nat eqn:E; [lia|]. cbn. by rewrite take_nil.
  - by replace (n - length l)%nat with 0%nat by lia.
Qed.

Lemma drop_snoc {A} n (l : list A) x : drop n (l ++ [x]) = drop n l ++ (if (n <=? length l)%nat then [x] else []).
Proof.
  rewrite drop_app. f_equal. destruct (Nat.leb_spec n (length l)).
  - by replace (n - length l)%nat with 0%nat by lia.
  - destruct (n - length l)%nat eqn:E; [lia|]. cbn. by rewrite drop_nil.
Qed.

Lemma rrs_snoc_inv m o rs r e : rrs m o (rs ++ [r]) e ->
  e = rr_end r /\ rrs m o rs (rr_start r) /\ skip m (rr_start r) (rr_next r).
Proof.
  intros H. remember (rs ++ [r]) as l eqn:El. destruct H as [o|o rs' r' H1 H2 H3]; [by destruct rs|].
  apply app_inj_2 in El as [-> [= ->]]; done.
Qed.

Lemma rrs_nil_inv m o e : rrs m o [] e -> e = o.
Proof. intros H. remember [] as l eqn:El. destruct H as [o|o rs' r']; [done|by destruct rs']. Qed.

Lemma rrs_end m o rs e e' : rrs m o rs e -> rrs m o rs e' -> e = e'.
Proof.
  destruct rs as [|r rs _] using rev_ind; intros H H'.
  - apply rrs_nil_inv in H, H'. congruence.
  - apply rrs_snoc_inv in H as [-> _]. by apply rrs_snoc_inv in H' as [-> _].
Qed.

Lemma rrs_app_le m o a b e c : rrs m o (a ++ b) e -> rrs m o a c -> (c <= e)%nat.
Proof.
  revert e. induction b as [|r b IH] using rev_ind; intros e H Ha.
  - rewrite app_nil_r in H. by rewrite (rrs_end _ _ _ _ _ H Ha).
  - rewrite app_assoc in H. apply rrs_snoc_inv in H as (-> & H & Hs). specialize (IH _ H Ha). apply rr_end_after in Hs. lia.
Qed.

Lemma inspect_step answers kept ttl resp o rs st st' :
  inspected answers kept ttl resp o rs st -> inspect_turn answers kept ttl (length rs) st = Ok st' ->
  exists r, inspected answers kept ttl resp o (rs ++ [r]) st'.
Proof.
  intros (Hrs & Hlen & Hag & Hrw & Ha & Ho & Hc) H.
  destruct (inspect_turn_spec _ _ _ _ _ _ H) as (r & Hst & Hs & Hb & Hoff & Hl & Hag' & Hw & Ha' & Ho' & Hc'). clear H.
  exists r. pose proof (rrs_after _ _ _ _ Hrs) as Hle.
  assert (rrs (is_resp st') o rs (is_off st)) as Hrs' by (eapply rrs_agree; [exact Hrs|eapply agree_weaken; [exact Hag'|lia|done]]).
  unfold inspected. split_and!.
  - rewrite Hoff. constructor; [by rewrite Hst|done|done].
  - lia.
  - intros i Hi. rewrite (Hag i Hi). apply Hag'. lia.
  - apply Forall_app. split; [done|]. by apply Forall_singleton.
  - rewrite Ha', Ha, take_snoc. destruct (length rs <? answers)%nat; [by rewrite omap_snoc|by rewrite !app_nil_r].
  - rewrite Ho', Ho, drop_snoc, List.filter_app, fmap_app. f_equal. destruct (kept <=? length rs)%nat; cbn [andb]; [|done].
    cbn [List.filter]. by destruct (rr_opt r).
  - rewrite Hc', length_app. cbn [length]. rewrite take_snoc. destruct (Nat.eqb_spec (length rs) kept) as [E|E].
    + subst kept. rewrite Nat.ltb_irrefl, app_nil_r, take_ge by done. split; [done|lia].
    + destruct (is_cut st) as [c|].
      * destruct Hc as [Hc Hk]. destruct (Nat.ltb_spec (length rs) kept); [lia|]. rewrite app_nil_r. split; [|lia].
        eapply rrs_agree; [exact Hc|]. intros i Hi. apply Hag'. split; [lia|].
        rewrite <- (take_drop kept rs) in Hrs. clear -Hrs Hc Hi. pose proof (rrs_app_le _ _ _ _ _ _ Hrs Hc). lia.
      * lia.
Qed.

Lemma inspect_loop_spec answers kept ttl resp o n rs st st' :
  inspected answers kept ttl resp o rs st -> inspect_loop answers kept ttl n (length rs) st = Ok st' ->
  exists rs', length rs' = (length rs + n)%nat /\ inspected answers kept ttl resp o rs' st'.
Proof.
  revert rs st. induction n as [|n IH]; intros rs st Hi; cbn [inspect_loop].
  - intros [= <-]. exists rs. split; [lia|done].
  - intros (st1 & H1 & H)%res_bind_ok. destruct (inspect_step _ _ _ _ _ _ _ _ Hi H1) as [r Hr].
    assert (length (rs ++ [r]) = S (length rs)) as Hlr by (rewrite length_app; cbn; lia).
    rewrite <- Hlr in H. destruct (IH _ _ Hr H) as (rs' & Hl & Hi'). exists rs'. split; [lia|done].
Qed.

Lemma inspected_start answers kept ttl resp o : inspected answers kept ttl resp o [] (MkInspect resp o [] [] None).
Proof.
  unfold inspected. cbn [is_resp is_off is_addrs is_opt is_cut length]. rewrite take_nil, drop_nil.
  split_and!; try done; first [apply rrs_nil|constructor|lia].
Qed.

(** *** What the guest gets *)

Lemma opt_slices m rs : (forall r, r ∈ rs -> skip m (rr_start r) (rr_next r) /\ at_bytes m (rr_next r) (rr_bytes r)) ->
  concat (map (fun '(a, b) => take (b - a) (drop a m)) ((fun r => (rr_start r, rr_end r)) <$> List.filter rr_opt rs))
  = concat ((fun r => zb 0 :: rr_bytes r) <$> List.filter rr_opt rs).
Proof.
  intros H. f_equal. match goal with |- map ?f _ = _ => change (map f) with (fmap (M:=list) f) end. rewrite <- list_fmap_compose. apply list_fmap_ext. intros i r Hr.
  apply list_elem_of_lookup_2 in Hr. rewrite list_elem_of_In, filter_In, <- list_elem_of_In in Hr. destruct Hr as [Hin Ho].
  destruct (H r Hin) as [Hs Hb]. unfold rr_opt in Ho. bool_inv. apply Nat.eqb_eq in H1. cbn.
  unfold rr_end. rewrite H1. replace (rr_start r + 1 + length (rr_bytes r) - rr_start r)%nat with (S (length (rr_bytes r))) by lia.
  rewrite H1 in Hs, Hb. inversion Hs as [o Hz E|o c d ? ? ? E|o c e ? ? Hk]; [|lia|apply skip_after in Hk; lia].
  apply drop_S in Hz. rewrite Hz. cbn [take]. f_equal. rewrite Nat.add_1_r in Hb. exact Hb.
Qed.

Lemma rrs_Forall m o rs e : rrs m o rs e -> Forall (fun r => skip m (rr_start r) (rr_next r) /\ at_bytes m (rr_next r) (rr_bytes r)) rs.
Proof. induction 1 as [|o rs r H IH Hs Hb]; [constructor|]. apply Forall_app. split; [done|]. by apply Forall_singleton. Qed.

Lemma rrs_split m o a b e : rrs m o (a ++ b) e -> exists c, rrs m o a c /\ rrs m c b e.
Proof.
  revert e. induction b as [|r b IH] using rev_ind; intros e H.
  - rewrite app_nil_r in H. exists e. split; [done|apply rrs_nil].
  - rewrite app_assoc in H. pose proof (rrs_Forall _ _ _ _ H) as Hf. apply Forall_app in Hf as [_ Hf]. apply Forall_singleton in Hf as [Hs Hb].
    apply rrs_snoc_inv in H as (-> & H & _). destruct (IH _ H) as (c & Ha & Hb'). exists c. split; [done|]. by constructor.
Qed.

Lemma u16_at_agree m m' i : (m !! i = m' !! i) -> (m !! (i + 1)%nat = m' !! (i + 1)%nat) -> u16_at m i = u16_at m' i.
Proof. intros H1 H2. unfold u16_at, byte_at. by rewrite H1, H2. Qed.

(** The records of what the guest gets. *)
Lemma guest_answer_spec answers kept ttl resp o rs st :
  inspected answers kept ttl resp o rs st -> (12 <= o <= length resp)%nat -> (kept <= length rs)%nat -> Z.of_nat (length rs - kept) < 65536 ->
  let out := guest_answer st in
  exists e, rrs out o (take kept rs) e /\ agree resp out 0 10 /\ agree resp out 12 o /\
    (length rs = kept \/
     exists opts, Forall (fun r => rr_type r = typeOPT) opts /\ drop e out = concat ((fun r => zb 0 :: rr_bytes r) <$> opts) /\
       u16_at out 10 = Ok (Z.of_nat (length opts))).
Proof.
  intros (Hrs & Hlen & Hag & _ & _ & Ho & Hc) Hb Hk Hn out. unfold guest_answer in out.
  pose proof (rrs_bound _ _ _ _ Hrs ltac:(lia)) as Hbound.
  destruct (is_cut st) as [c|]; cycle 1.
  { exists (is_off st). rewrite take_ge by lia. split_and!; [done| | |left; lia]; eapply agree_weaken; eauto; lia. }
  destruct Hc as [Hc Hlt]. pose proof (rrs_after _ _ _ _ Hc) as Hoc.
  assert (c <= length (is_resp st))%nat as Hcl by (eapply rrs_bound; [exact Hc|lia]).
  set (m := take c (is_resp st) ++ _) in out.
  assert (12 <= length m)%nat as Hm by (unfold m; rewrite length_app, length_take; lia).
  assert (agree (is_resp st) m 0 c) as Hagm.
  { intros i Hi. unfold m. rewrite lookup_app_l by (rewrite length_take; lia). by rewrite lookup_take_lt by lia. }
  assert (agree m out 0 10) as H10 by (apply put_agree; [cbn; lia|left; lia]).
  assert (agree m out 12 c) as H12 by (apply put_agree; [cbn; lia|right; cbn; lia]).
  exists c. split_and!.
  - eapply rrs_agree; [exact Hc|]. intros i Hi. rewrite Hagm by lia. apply H12. lia.
  - intros i Hi. rewrite Hag, Hagm by lia. apply H10. lia.
  - intros i Hi. rewrite Hag, Hagm by lia. apply H12. lia.
  - right. exists (List.filter rr_opt (drop kept rs)). split_and!.
    + apply Forall_forall. intros r Hr. rewrite list_elem_of_In, filter_In in Hr. destruct Hr as [_ Hr]. unfold rr_opt in Hr. bool_inv. by apply Z.eqb_eq in H.
    + rewrite <- (opt_slices (is_resp st)).
      * rewrite <- Ho. unfold out, put. rewrite drop_app_ge by (rewrite length_take; lia).
        rewrite length_take, Nat.min_l by lia. rewrite drop_app_ge by (cbn; lia). rewrite drop_drop.
        replace (10 + length (be16 (Z.of_nat (length (is_opt st)))) + (c - 10 - length (be16 (Z.of_nat (length (is_opt st))))))%nat with c by (cbn; lia).
        unfold m. rewrite drop_app_length' by (rewrite length_take; lia). done.
      * intros r Hr. apply rrs_Forall in Hrs. rewrite Forall_forall in Hrs. apply Hrs. by apply elem_of_drop in Hr.
    + rewrite <- (length_fmap (fun r => (rr_start r, rr_end r))). rewrite <- Ho. set (n := Z.of_nat (length (is_opt st))).
      assert (drop 10 out = be16 n ++ drop 12 m) as Hd.
      { unfold out, put. rewrite drop_app_length' by (rewrite length_take; lia). done. }
      cbn [be16 app] in Hd. rewrite (u16_at_drop _ _ _ _ _ Hd), be16_value; [done|]. unfold n. rewrite Ho, length_fmap.
      pose proof (List.filter_length_le rr_opt (drop kept rs)) as Hf. rewrite length_drop in Hf. lia.
Qed.

Lemma agree_drop m m' o x : agree m m' o (o + length x) -> (exists r, drop o m = x ++ r) -> exists r, drop o m' = x ++ r.
Proof.
  intros Ha [r Hr]. exists (drop (length x) (drop o m')). rewrite <- (take_drop (length x) (drop o m')) at 1. f_equal.
  rewrite <- (take_drop_agree m m' o (length x)) by (intros i Hi; apply Ha; lia). by rewrite Hr, take_app_length.
Qed.

Lemma byte_at_agree m m' i : m !! i = m' !! i -> byte_at m i = byte_at m' i.
Proof. intros H. unfold byte_at. by rewrite H. Qed.

(** What the guest is sent answers its question under its ID, and holds no
    address that was not returned to be pinned: the addresses returned are
    those of the A records in its answer section, each record but OPT carries
    the lifetime of a pin, and of the additional section only OPT records are
    left. *)
Lemma inspectAnswer_guest (resp query : gostr) (q : question) (ttl : Z) (out : gostr) (addrs : list addr)
    (H : inspectAnswer resp query q ttl = Ok (out, addrs)) :
  exists rq ans auth o e,
    byte_at out 0 = byte_at query 0 /\ byte_at out 1 = byte_at query 1 /\
    readQuestion out headerLen = Ok rq /\ equal_fold (q_name rq) (q_name q) = true /\ q_qtype rq = q_qtype q /\
    u16_at out 6 = Ok (Z.of_nat (length ans)) /\ u16_at out 8 = Ok (Z.of_nat (length auth)) /\
    rrs out (q_end rq) ans o /\ rrs out o auth e /\ addrs = omap rr_addr ans /\
    Forall (fun r => 0 < ttl -> rr_type r <> typeOPT -> rr_ttl r = ttl) (ans ++ auth) /\
    (u16_at resp 10 = Ok 0 \/
     exists opts, Forall (fun r => rr_type r = typeOPT) opts /\ drop e out = concat ((fun r => zb 0 :: rr_bytes r) <$> opts) /\
       u16_at out 10 = Ok (Z.of_nat (length opts))).
Proof.
  unfold inspectAnswer in H. apply seq_ok in H as [Hl H]. apply fail_if_ok, Nat.ltb_ge in Hl. unfold headerLen in *.
  apply res_bind_ok in H as (r0 & Hr0 & H). apply res_bind_ok in H as (q0 & Hq0 & H).
  apply res_bind_ok in H as (r1 & Hr1 & H). apply res_bind_ok in H as (q1 & Hq1 & H).
  apply seq_ok in H as [Hid H]. apply fail_if_ok, orb_false_iff in Hid as [Hid0 Hid1].
  apply negb_false_iff, Z.eqb_eq in Hid0, Hid1. subst q0 q1.
  apply res_bind_ok in H as (r2 & _ & H). apply seq_ok in H as [_ H]. apply res_bind_ok in H as (n & _ & H). apply seq_ok in H as [_ H].
  apply res_bind_ok in H as (rq & Hrq & H). apply seq_ok in H as [Hsame H]. apply fail_if_ok, orb_false_iff in Hsame as [Hn Hqt].
  apply negb_false_iff in Hn, Hqt. apply Z.eqb_eq in Hqt.
  apply res_bind_ok in H as (an & Han & H). apply res_bind_ok in H as (ns & Hns & H). apply res_bind_ok in H as (ar & Har & H).
  apply res_bind_ok in H as (st & Hst & [= <- <-]). pose proof (u16_at_Ok _ _ _ Han). pose proof (u16_at_Ok _ _ _ Hns). pose proof (u16_at_Ok _ _ _ Har).
  set (answers := Z.to_nat an) in *. set (kept := (answers + Z.to_nat ns)%nat) in *.
  destruct (readQuestion_inv _ _ _ Hrq) as (labels & class & rest & Hd & Hc & Hok & Hh & Hname & Hend & Hle & Hqr).
  destruct (inspect_loop_spec _ _ _ _ _ _ [] _ _ (inspected_start answers kept ttl resp (q_end rq)) Hst) as (rs & Hlrs & Hi).
  cbn [length] in Hlrs.
  destruct (guest_answer_spec _ _ _ _ _ _ _ Hi) as (e & Hrs & H10 & H12 & Hadd); [lia|lia|lia|].
  set (out := guest_answer st) in *. rewrite <- (take_drop answers (take kept rs)) in Hrs.
  rewrite take_take, Nat.min_l in Hrs by lia. destruct (rrs_split _ _ _ _ _ Hrs) as (o & Hans & Hauth).
  exists rq, (take answers rs), (drop answers (take kept rs)), o, e.
  assert (forall i, (i < 10)%nat -> out !! i = resp !! i) as Hhd by (intros i Hi'; symmetry; apply H10; lia).
  split_and!; try done.
  - rewrite Hq0, <- Hr0. apply byte_at_agree, Hhd. lia.
  - rewrite Hq1, <- Hr1. apply byte_at_agree, Hhd. lia.
  - destruct (agree_drop resp out 12 (wire_name labels ++ be16 (q_qtype rq) ++ class)) as [rest' Hd'].
    { eapply agree_weaken; [exact H12|done|]. rewrite !length_app, Hc. cbn [be16 length]. fold (wire_len labels). lia. }
    { exists rest. by rewrite <- !app_assoc. }
    rewrite <- !app_assoc in Hd'. rewrite (readQuestion_read _ _ _ _ _ _ Hd' Hok Hh Hc Hqr), <- Hname.
    f_equal. destruct rq as [nm t en]. cbn in *. by subst en.
  - rewrite length_take, Nat.min_l by lia. unfold answers. rewrite Z2Nat.id by lia. rewrite <- Han. apply u16_at_agree; apply Hhd; lia.
  - rewrite length_drop, length_take, Nat.min_l by lia. unfold kept. replace (Z.of_nat _) with ns by lia.
    rewrite <- Hns. apply u16_at_agree; apply Hhd; lia.
  - by destruct Hi as (_ & _ & _ & _ & Ha & _).
  - replace (take answers rs) with (take answers (take kept rs)) by (by rewrite take_take, Nat.min_l by lia). rewrite take_drop.
    destruct Hi as (_ & _ & _ & Hw & _). rewrite <- (take_drop kept rs) in Hw. apply Forall_app in Hw as [Hw _].
    eapply Forall_impl; [exact Hw|]. done.
  - destruct Hadd as [E|Hadd]; [left|by right]. rewrite Har. f_equal. lia.
Qed.

(** ** Chains of aliases *)

(** [x] is an alias of [y] in the records. *)
Definition alias (recs : list chain_record) (x y : gostr) : Prop :=
  exists r, r ∈ recs /\ cr_owner r = x /\ cr_target r = y /\ y <> [].

Definition closed (recs : list chain_record) (names : list gostr) : Prop :=
  forall x y, alias recs x y -> x ∈ names -> y ∈ names.

(** The records whose target has not been reached. *)
Definition missing (recs : list chain_record) (names : list gostr) : nat :=
  length (List.filter (fun r => negb (mem (cr_target r) names)) recs).

Lemma chain_pass_spec recs l names g names' g' :
  chain_pass l names g = (names', g') -> l ⊆ recs ->
  (forall x, x ∈ names -> x ∈ names') /\
  (forall x, x ∈ names' -> exists y, y ∈ names /\ rtc (alias recs) y x) /\
  (g' = false -> g = false /\ names' = names /\ closed l names) /\
  (g' = true -> g = true \/ exists r, r ∈ l /\ cr_target r ∈ names' /\ cr_target r ∉ names).
Proof.
  revert names g. induction l as [|r l IH]; intros names g; cbn [chain_pass].
  - intros [= <- <-] _. split_and!; [done|by intros x Hx; exists x|by intros ->; split_and!; [| |intros x y (r & Hr & _); by apply elem_of_nil in Hr]|by left].
  - intros H Hsub. assert (l ⊆ recs) as Hl by (intros x Hx; apply Hsub; by constructor).
    destruct (negb (bool_decide (cr_target r = [])) && mem (cr_owner r) names && negb (mem (cr_target r) names)) eqn:E.
    + bool_inv. destruct (IH _ _ H Hl) as (Hin & Hre & Hf & Ht). apply mem_true in H2. apply mem_false in H1. split_and!.
      * intros x Hx. apply Hin, elem_of_app. by left.
      * intros x Hx. destruct (Hre x Hx) as (y & Hy & Hyx). apply elem_of_app in Hy as [Hy|Hy]; [by exists y|].
        apply list_elem_of_singleton in Hy as ->. exists (cr_owner r). split; [done|]. eapply rtc_l; [|exact Hyx].
        exists r. split_and!; try done. apply Hsub. constructor.
      * intros ->. by destruct (Hf eq_refl).
      * intros _. right. exists r. split_and!; [constructor|apply Hin, elem_of_app; right; by constructor|done].
    + destruct (IH _ _ H Hl) as (Hin & Hre & Hf & Ht). split_and!; [done|done| |].
      * intros ->. destruct (Hf eq_refl) as (-> & -> & Hc). split_and!; [done..|].
        intros x y (r' & Hr' & <- & <- & Hne) Hx. apply elem_of_cons in Hr' as [->|Hr']; [|eapply Hc; [by exists r'|done]].
        apply andb_false_iff in E as [E|E]; [apply andb_false_iff in E as [E|E]|].
        -- apply negb_false_iff, bool_decide_eq_true in E. done.
        -- apply mem_false in E. done.
        -- apply negb_false_iff, mem_true in E. done.
      * intros ->. destruct (Ht eq_refl) as [?|(r' & Hr' & ?)]; [by left|]. right. exists r'. split; [by constructor|done].
Qed.

Lemma filter_length_mono {A} (p q : A -> bool) l : (forall x, x ∈ l -> p x = true -> q x = true) ->
  (length (List.filter p l) <= length (List.filter q l))%nat.
Proof.
  induction l as [|x l IH]; intros H; cbn; [done|]. specialize (IH ltac:(intros y Hy; apply H; by constructor)).
  pose proof (H x ltac:(by constructor)) as Hx. destruct (p x); [rewrite Hx by done; cbn; lia|]. destruct (q x); cbn; lia.
Qed.

Lemma filter_length_lt {A} (p q : A -> bool) l x : (forall x, x ∈ l -> p x = true -> q x = true) -> x ∈ l -> q x = true -> p x = false ->
  (length (List.filter p l) < length (List.filter q l))%nat.
Proof.
  induction l as [|y l IH]; intros H Hin Hq Hp; [by apply elem_of_nil in Hin|]. cbn.
  assert (forall z, z ∈ l -> p z = true -> q z = true) as H' by (intros z Hz; apply H; by constructor).
  apply elem_of_cons in Hin as [->|Hin].
  - rewrite Hq, Hp. cbn. pose proof (filter_length_mono p q l H'). lia.
  - specialize (IH H' Hin Hq Hp). pose proof (H y ltac:(by constructor)) as Hy. destruct (p y); [rewrite Hy by done; cbn; lia|]. destruct (q y); cbn; lia.
Qed.

Lemma chain_passes_spec n recs names :
  (missing recs names <= n)%nat ->
  let names' := chain_passes n recs names in
  (forall x, x ∈ names -> x ∈ names') /\ (forall x, x ∈ names' -> exists y, y ∈ names /\ rtc (alias recs) y x) /\ closed recs names'.
Proof.
  cbv zeta. revert names. induction n as [|n IH]; intros names Hn; cbn [chain_passes].
  - split_and!; [done|by intros x Hx; exists x|]. intros x y (r & Hr & _ & <- & _) _. apply dec_stable. intros Hnot.
    assert (r ∈ List.filter (fun r => negb (mem (cr_target r) names)) recs) as Hin.
    { rewrite list_elem_of_In, filter_In, <- list_elem_of_In. split; [done|]. apply negb_true_iff. by apply mem_false. }
    unfold missing in Hn. apply Nat.le_0_r, length_zero_iff_nil in Hn. rewrite Hn in Hin. by apply elem_of_nil in Hin.
  - destruct (chain_pass recs names false) as [names1 g] eqn:E.
    destruct (chain_pass_spec recs _ _ _ _ _ E ltac:(done)) as (Hin & Hre & Hf & Ht). destruct g.
    + destruct (Ht eq_refl) as [?|(r & Hr & Hr1 & Hr0)]; [done|].
      assert (missing recs names1 < missing recs names)%nat as Hlt.
      { unfold missing. eapply filter_length_lt; [|exact Hr| |].
        - intros x Hx. rewrite !negb_true_iff, !mem_false. naive_solver.
        - apply negb_true_iff. by apply mem_false.
        - apply negb_false_iff. by apply mem_true. }
      destruct (IH names1 ltac:(lia)) as (Hin' & Hre' & Hc). split_and!; [by auto| |done].
      intros x Hx. destruct (Hre' x Hx) as (y & Hy & Hyx). destruct (Hre y Hy) as (z & Hz & Hzy). exists z. split; [done|]. by etrans.
    + destruct (Hf eq_refl) as (_ & -> & Hc). split_and!; done.
Qed.

Lemma chain_out_spec recs names : 
  let out := chain_out recs names in
  NoDup out /\ forall a, a ∈ out <-> exists r, r ∈ recs /\ cr_addr r = Some a /\ cr_owner r ∈ names.
Proof.
  cbv zeta. unfold chain_out. induction recs as [|r recs IH] using rev_ind.
  - split; [constructor|]. intros a. cbn. rewrite elem_of_nil. split; [done|]. intros (r & H & _). by apply elem_of_nil in H.
  - rewrite foldl_snoc. set (out := foldl _ _ recs) in *. destruct IH as [Hnd Hin].
    assert (forall a, (exists r', r' ∈ recs ++ [r] /\ cr_addr r' = Some a /\ cr_owner r' ∈ names) <->
      a ∈ out \/ (cr_addr r = Some a /\ cr_owner r ∈ names)) as Hsnoc.
    { intros a. rewrite Hin. split.
      - intros (r' & [Hr|Hr]%elem_of_app & Ha & Ho); [left; by exists r'|]. apply list_elem_of_singleton in Hr as ->. by right.
      - intros [(r' & Hr & ?)|?]; [exists r'|exists r]; (split; [|done]); apply elem_of_app; [by left|right; by constructor]. }
    destruct (cr_addr r) as [b|] eqn:Eb.
    + destruct (mem (cr_owner r) names && negb (mem b out)) eqn:E.
      * bool_inv. apply mem_true in H. apply mem_false in H0. split.
        -- apply NoDup_app. split_and!; [done| |apply NoDup_singleton]. intros x Hx Hx'. apply list_elem_of_singleton in Hx' as ->. done.
        -- intros a. rewrite Hsnoc, elem_of_app, list_elem_of_singleton. naive_solver.
      * split; [done|]. intros a. rewrite Hsnoc. split; [by left|]. intros [?|([= <-] & Ho)]; [done|].
        apply mem_true in Ho. rewrite Ho in E. cbn [andb] in E. by apply negb_false_iff, mem_true in E.
    + split; [done|]. intros a. rewrite Hsnoc. naive_solver.
Qed.

(** The addresses a divert learns of a host from an answer are those of the
    A records at the end of any chain of aliases from the host, each once,
    however long the chain is and in whatever order it is written, loops
    among it. *)
Lemma chainAddrs_spec (resp name : gostr) (addrs : list addr) (H : chainAddrs resp name = Ok addrs) :
  exists n start recs, u16_at resp 6 = Ok n /\ skip resp headerLen start /\
    chain_records (Z.to_nat n) resp (start + 4) = Ok recs /\ NoDup addrs /\
    forall a, a ∈ addrs <-> exists r, r ∈ recs /\ cr_addr r = Some a /\ rtc (alias recs) (normalizeName name) (cr_owner r).
Proof.
  unfold chainAddrs in H. apply seq_ok in H as [_ H]. apply res_bind_ok in H as ([ls start] & Hs & H).
  apply res_bind_ok in H as (n & Hn & H). apply res_bind_ok in H as (recs & Hr & [= <-]). cbn [snd] in Hr.
  exists n, start, recs. apply labels_loop_skip in Hs.
  destruct (chain_passes_spec (length recs) recs [normalizeName name]) as (Hin & Hre & Hc).
  { unfold missing. apply List.filter_length_le. }
  destruct (chain_out_spec recs (chain_passes (length recs) recs [normalizeName name])) as [Hnd Hout].
  split_and!; try done. intros a. rewrite Hout. split; intros (r & Hrin & Ha & Ho); exists r; split_and!; try done.
  - destruct (Hre _ Ho) as (y & Hy & Hyx). by apply list_elem_of_singleton in Hy as ->.
  - assert (forall x y, rtc (alias recs) x y -> x ∈ chain_passes (length recs) recs [normalizeName name] ->
      y ∈ chain_passes (length recs) recs [normalizeName name]) as Hcl.
    { intros x y Hxy. induction Hxy as [|x y z Hxy _ IH]; [done|]. intros Hx. apply IH. by eapply Hc. }
    eapply Hcl; [exact Ho|]. apply Hin. by constructor.
Qed.

Example chainAddrs_spec_witness : exists recs r, r ∈ recs /\ cr_addr r = Some (V4 167837955) /\
  rtc (alias recs) (normalizeName (lit "api.example.com")) (cr_owner r).
Proof.
  destruct (chainAddrs_spec example_response (lit "api.example.com") [V4 167837955] dns_3) as (n & start & recs & _ & _ & _ & _ & Ha).
  destruct (proj1 (Ha (V4 167837955)) (list_elem_of_here _ _)) as (r & Hr). by exists recs, r.
Defined.

(** C39: No message makes the parsers read out of their buffers or loop: a name
    costs at most 255 octets and 32 pointers, wherever its pointers lead. *)
Theorem dns_reads_in_range (msg resp query name : gostr) (id1 id2 : byte) (q : question) (ttl : Z) :
  sound (parseQuery msg) /\ sound (chainAddrs resp name) /\ sound (inspectAnswer resp (id1 :: id2 :: query) q ttl).
Proof.
  split_and!; [apply parseQuery_sound| |].
  - unfold chainAddrs, headerLen. dns_guard H. apply Nat.ltb_ge in H. apply sound_bind; [apply nameLabels_sound|]. intros r _.
    apply sound_bind; [apply u16_at_sound; lia|]. intros n _. apply sound_bind; [apply chain_records_sound|done].
  - unfold inspectAnswer, headerLen. dns_guard H. apply Nat.ltb_ge in H.
    do 4 (apply sound_bind; [apply byte_at_sound; first [lia|cbn; lia]|]; intros ? _). dns_guard Hid.
    apply sound_bind; [apply byte_at_sound; lia|]. intros r2 _. dns_guard H2. apply sound_bind; [apply u16_at_sound; lia|]. intros n _.
    dns_guard Hn. apply sound_bind; [apply readQuestion_sound|]. intros rq _. dns_guard Hq.
    do 3 (apply sound_bind; [apply u16_at_sound; lia|]; intros ? _). apply sound_bind; [apply inspect_loop_sound|done].
Qed.
