(* ===== verification/Divert.v ===== *)
(** * [internal/divert/divert.go]: the diverted destinations

    The routes of a divert, the addresses each holds, and the preamble that
    starts a diverted connection. *)

From stdpp Require Import prelude list strings gmap sorting.
From Stdlib Require Import ZArith Lia ZifyNat Ascii.
From S2P Require Import Prelude GoUnicode GoStrings GoNum GoNetip EgressRules.

Local Open Scope Z_scope.

(** ** [netip.Addr.String] *)

Definition string4 (z : Z) : gostr :=
  join (lit ".") (utoa <$> [z / 2 ^ 24 mod 256; z / 2 ^ 16 mod 256; z / 2 ^ 8 mod 256; z mod 256]).

(** The 16-bit group [i] of an IPv6 address. *)
Definition v6u16 (z : Z) (i : nat) : Z := z / 2 ^ (16 * (7 - Z.of_nat i)) mod 65536.

(** Hex in lower case without leading zeros. *)
Fixpoint hex_rev (fuel : nat) (z : Z) : gostr :=
  match fuel with
  | O => []
  | S k =>
    let d := z mod 16 in
    (if d <? 10 then zb (48 + d) else zb (87 + d)) :: (if z <? 16 then [] else hex_rev k (z / 16))
  end.
Definition hex16 (z : Z) : gostr := rev (hex_rev 4 z).

(** How many groups from [i] on are zero. *)
Fixpoint zero_run (n : nat) (z : Z) (i : nat) : nat :=
  match n with O => 0 | S k => if v6u16 z i =? 0 then S (zero_run k z (S i)) else 0 end.

(** The first longest run of two zero groups or more: its start and length. *)
Definition zero_span (z : Z) : option (nat * nat) :=
  foldl (fun best i =>
    let l := zero_run (8 - i) z i in
    if (2 <=? l)%nat && (match best with Some (_, l') => l' | None => 0 end <? l)%nat then Some (i, l) else best)
    None (seq 0 8).

Fixpoint groups_from (n : nat) (z : Z) (i : nat) (span : option (nat * nat)) : gostr :=
  match n with
  | O => []
  | S k =>
    match span with
    | Some (start, len) =>
      if (i =? start)%nat then
        lit "::" ++ (if (8 <=? start + len)%nat then [] else hex16 (v6u16 z (start + len)) ++ groups_from k z (S (start + len)) None)
      else (if (0 <? i)%nat then lit ":" else []) ++ hex16 (v6u16 z i) ++ groups_from k z (S i) span
    | None =>
      if (8 <=? i)%nat then [] else (if (0 <? i)%nat then lit ":" else []) ++ hex16 (v6u16 z i) ++ groups_from k z (S i) None
    end
  end.

Definition string6 (z : Z) : gostr := groups_from 8 z 0 (zero_span z).

Definition addr_string (a : addr) : gostr :=
  match a with
  | V4 z => string4 z
  | V6 z zone =>
    let suffix := if bool_decide (zone = []) then [] else lit "%" ++ zone in
    (if Is4In6 a then lit "::ffff:" ++ string4 (z mod 2 ^ 32) else string6 z) ++ suffix
  end.

Example addr_string_1 :
  addr_string (V4 167837955) = lit "10.1.1.3" /\
  addr_string <$> ParseAddr (lit "FE80:0:0:1::2%eth0") = Some (lit "fe80:0:0:1::2%eth0") /\
  addr_string <$> ParseAddr (lit "2001:db8:0:0:1:0:0:0") = Some (lit "2001:db8:0:0:1::") /\
  addr_string <$> ParseAddr (lit "::") = Some (lit "::") /\ addr_string <$> ParseAddr (lit "1:0:2:0:3:0:4:0") = Some (lit "1:0:2:0:3:0:4:0") /\
  addr_string <$> ParseAddr (lit "::ffff:1.2.3.4") = Some (lit "::ffff:1.2.3.4") /\ addr_string <$> ParseAddr (lit "::1") = Some (lit "::1").
Proof. vm_compute. done. Qed.

(** ** Routes *)

Definition MaxAddrs : nat := 4096.

Record Route := MkDivertRoute { dr_host : gostr; dr_port : Z }.

#[export] Instance divert_route_eq_dec : EqDecision Route.
Proof. solve_decision. Defined.

(** [Route.String]. *)
Definition route_string (r : Route) : gostr := joinHostPort (dr_host r) (utoa (dr_port r)).

Definition host_byte (c : byte) : bool :=
  in_range 97 122 (bz c) || in_range 48 57 (bz c) || Ascii.eqb c "-" || Ascii.eqb c "_".

Definition Hostname (name : gostr) : bool :=
  if bool_decide (name = []) || (253 <? length name)%nat then false
  else forallb (fun label => negb (bool_decide (label = [])) && (length label <=? 63)%nat && forallb host_byte label) (split_byte "." name).

Inductive divert_error :=
  | NotHostPort | NotPort | DNSPort | NoIPv6 | NotHostName
  | NoRoute (i : Z) | SetFull
  | NoEnds | LongPreamble | NoNewline | NotPreamble | NotCanonical (addr : gostr) | NotDecimal (port : gostr).

#[export] Instance divert_error_eq_dec : EqDecision divert_error.
Proof. solve_decision. Defined.

Definition ParseRoute (s : gostr) : res divert_error Route :=
  match SplitHostPort s with
  | None => Err NotHostPort
  | Some (host, port) =>
    match parse_uint 16 port with
    | None => Err NotPort
    | Some p =>
      fail_if (p =? 0) NotPort ;?
      fail_if (p =? 53) DNSPort ;?
      match ParseAddr host with
      | Some a =>
        fail_if (negb (Is4 (Unmap a))) NoIPv6 ;?
        Ok (MkDivertRoute (addr_string (Unmap a)) p)
      | None =>
        let name := trim_suffix (to_lower host) (lit ".") in
        fail_if (negb (Hostname name)) NotHostName ;?
        Ok (MkDivertRoute name p)
      end
    end
  end.

(** ** The addresses of the routes *)

(** [Set]: the addresses of each route, in the order of the routes. *)
Record DivertSet := MkDivertSet { ds_routes : list Route; ds_addrs : list (list addr) }.

(** The keys of a map with one more address. *)
Definition add_addr (s : list addr) (a : addr) : list addr := if mem a s then s else s ++ [a].

Definition NewSet (routes : list Route) : DivertSet :=
  MkDivertSet routes
    (map (fun r => match ParseAddr (dr_host r) with Some a => if Is4 a then [a] else [] | None => [] end) routes).

Definition Lookup (s : DivertSet) (name : gostr) : list nat :=
  let name := trim_suffix (to_lower name) (lit ".") in
  List.filter (fun i => match ds_routes s !! i with Some r => bool_decide (dr_host r = name) | None => false end)
    (seq 0 (length (ds_routes s))).

(** The IPv4 addresses of [addrs], each once. *)
Definition v4_once (addrs : list addr) : list addr :=
  foldl (fun v4 a => let a := Unmap a in if Is4 a && negb (mem a v4) then v4 ++ [a] else v4) [] addrs.

Definition Add (s : DivertSet) (i : Z) (addrs : list addr) : res divert_error (list addr * DivertSet) :=
  if (i <? 0) || (Z.of_nat (length (ds_routes s)) <=? i) then Err (NoRoute i)
  else
    let v4 := v4_once addrs in
    let held := default [] (ds_addrs s !! Z.to_nat i) in
    let fresh := length (List.filter (fun a => negb (mem a held)) v4) in
    fail_if (MaxAddrs <? length held + fresh)%nat SetFull ;?
    Ok (v4, MkDivertSet (ds_routes s) (<[Z.to_nat i := foldl add_addr held v4]> (ds_addrs s))).

(** [Addr.Compare], on addresses without zones. *)
Definition addr_le (a b : addr) : Prop :=
  addr_bits a < addr_bits b \/ (addr_bits a = addr_bits b /\ addr_value a <= addr_value b).

#[export] Instance addr_le_dec a b : Decision (addr_le a b).
Proof. unfold addr_le. solve_decision. Defined.

Definition Addrs (s : DivertSet) (i : nat) : list addr := merge_sort addr_le (default [] (ds_addrs s !! i)).

(** An address and a port; [None] is the zero [netip.Addr]. *)
Record AddrPort := MkAddrPort { ap_addr : option addr; ap_port : Z }.

#[export] Instance addr_port_eq_dec : EqDecision AddrPort.
Proof. solve_decision. Defined.

Definition Match (s : DivertSet) (dst : AddrPort) : bool :=
  match ap_addr dst with
  | None => false
  | Some a =>
    existsb (fun '(r, held) => (dr_port r =? ap_port dst) && mem (Unmap a) held) (zip (ds_routes s) (ds_addrs s))
  end.

(** ** The preamble *)

Definition Magic : gostr := lit "BRIG-DIVERT/1".
Definition MaxPreamble : nat := 160.

(** [WithZone("")] of an address. *)
Definition no_zone (a : addr) : addr := match a with V6 z _ => V6 z [] | V4 _ => a end.

Definition Preamble (dst src : AddrPort) : res divert_error gostr :=
  match ap_addr dst, ap_addr src with
  | Some d, Some s =>
    fail_if ((ap_port dst =? 0) || (ap_port src =? 0)) NoEnds ;?
    let da := no_zone (Unmap d) in
    let sa := no_zone (Unmap s) in
    let line := join (lit " ") [Magic; addr_string da; utoa (ap_port dst); addr_string sa; utoa (ap_port src)] ++ [zb 10] in
    fail_if (MaxPreamble <? length line)%nat LongPreamble ;?
    Ok line
  | _, _ => Err NoEnds
  end.

Definition zone_of (a : addr) : gostr := match a with V6 _ zone => zone | V4 _ => [] end.

Definition addrPort (a port : gostr) : res divert_error AddrPort :=
  match ParseAddr a with
  | None => Err (NotCanonical a)
  | Some x =>
    fail_if (negb (bool_decide (zone_of x = [])) || negb (bool_decide (addr_string x = a))) (NotCanonical a) ;?
    match parse_uint 16 port with
    | None => Err (NotDecimal port)
    | Some p =>
      fail_if ((p =? 0) || negb (bool_decide (utoa p = port))) (NotDecimal port) ;?
      Ok (MkAddrPort (Some x) p)
    end
  end.

Definition ParsePreamble (line : gostr) : res divert_error (AddrPort * AddrPort) :=
  fail_if (MaxPreamble <? length line)%nat LongPreamble ;?
  match strip_suffix [zb 10] line with
  | None => Err NoNewline
  | Some text =>
    match split_byte " " text with
    | [magic; da; dp; sa; sp] =>
      fail_if (negb (bool_decide (magic = Magic))) NotPreamble ;?
      let? dst := addrPort da dp in
      let? src := addrPort sa sp in
      Ok (dst, src)
    | _ => Err NotPreamble
    end
  end.

Definition example_preamble : gostr := lit "BRIG-DIVERT/1 10.1.1.3 443 fd00::5 51234" ++ [zb 10].

Example divert_1 :
  ParsePreamble example_preamble = Ok (MkAddrPort (Some (V4 167837955)) 443, MkAddrPort (Some (V6 (64768 * 2 ^ 112 + 5) [])) 51234)
  /\ Preamble (MkAddrPort (Some (V4 167837955)) 443) (MkAddrPort (Some (V6 (64768 * 2 ^ 112 + 5) (lit "eth0"))) 51234) = Ok example_preamble
  /\ ParseRoute (lit "Api.Example.com.:443") = Ok (MkDivertRoute (lit "api.example.com") 443)
  /\ ParseRoute (lit "[::ffff:10.1.1.3]:8443") = Ok (MkDivertRoute (lit "10.1.1.3") 8443)
  /\ ParseRoute (lit "x:53") = Err DNSPort.
Proof. vm_compute. done. Qed.

(** ** Addresses print as they are read *)

Definition octets : list Z := seqZ 0 256.

Lemma octet_read v : 0 <= v < 256 -> parse_octet (utoa v) = Some v.
Proof.
  intros H. assert (Forall (fun v => parse_octet (utoa v) = Some v) octets) as Hall by (by apply (bool_decide_unpack _); vm_compute).
  rewrite Forall_forall in Hall. apply Hall, elem_of_seqZ. lia.
Qed.

Definition decimal_digits : gostr := lit "0123456789".

Lemma digit_elem c : is_digit c = true -> c ∈ decimal_digits.
Proof. destruct c as [[] [] [] [] [] [] [] []]; intros H; try discriminate H; by apply (bool_decide_unpack _). Qed.

(** What is read as an octet is how the octet is printed. *)
Lemma octet_canonical s v : parse_octet s = Some v -> utoa v = s.
Proof.
  intros H. pose proof H as H0. unfold parse_octet in H.
  set (ok := fun s : gostr => match parse_octet s with Some v => bool_decide (utoa v = s) | None => true end).
  assert (Forall (fun c => is_digit c = true) s /\ (1 <= length s <= 3)%nat) as [Hd Hl].
  { destruct s as [|c [|d s]]; [done| |].
    - destruct (is_digit c) eqn:E; [|done]. split; [by apply Forall_singleton|cbn; lia].
    - destruct (Ascii.eqb c "0" || (3 <? length (c :: d :: s))%nat) eqn:E; [done|]. apply orb_false_iff in E as [_ E]. apply Nat.ltb_ge in E.
      destruct (parse_nat (c :: d :: s)) as [z|] eqn:Ep; [|done]. split; [|cbn [length] in *; lia].
      clear -Ep. unfold parse_nat in Ep. revert Ep. generalize 0, (c :: d :: s). intros acc l. revert acc z.
      induction l as [|x l IH]; intros acc z; cbn [value_of]; [constructor|]. destruct (is_digit x) eqn:Ex; [|done]. intros Hz. constructor; [done|by eapply IH]. }
  assert (forallb (fun a => ok [a] && forallb (fun b => ok [a; b] && forallb (fun c => ok [a; b; c]) decimal_digits) decimal_digits)
    decimal_digits = true) as Hall by (vm_compute; reflexivity).
  rewrite forallb_true, Forall_forall in Hall.
  assert (ok s = true) as Hok; [|unfold ok in Hok; rewrite H0 in Hok; by apply bool_decide_eq_true in Hok].
  destruct s as [|a s]; [cbn in Hl; lia|]. apply Forall_cons in Hd as [Ha Hd].
  specialize (Hall a (digit_elem _ Ha)). apply andb_true_iff in Hall as [H1 Hall]. destruct s as [|b s]; [exact H1|].
  rewrite forallb_true, Forall_forall in Hall. apply Forall_cons in Hd as [Hb Hd].
  specialize (Hall b (digit_elem _ Hb)). apply andb_true_iff in Hall as [H2 Hall]. destruct s as [|c s]; [exact H2|].
  rewrite forallb_true, Forall_forall in Hall. apply Forall_cons in Hd as [Hc Hd].
  specialize (Hall c (digit_elem _ Hc)). destruct s; [exact Hall|cbn in Hl; lia].
Qed.

Lemma utoa_no_byte c z : 0 <= z -> is_digit c = false -> c ∉ utoa z.
Proof. intros Hz Hc Hin. pose proof (utoa_digits z Hz) as H. rewrite Forall_forall in H. apply H in Hin. congruence. Qed.

Definition octets_of (z : Z) : list Z := [z / 2 ^ 24 mod 256; z / 2 ^ 16 mod 256; z / 2 ^ 8 mod 256; z mod 256].

Lemma octets_range z : Forall (fun v => 0 <= v < 256) (octets_of z).
Proof. unfold octets_of. repeat constructor; apply Z.mod_pos_bound; lia. Qed.

Lemma string4_split z : split_byte "." (string4 z) = utoa <$> octets_of z.
Proof.
  unfold string4. apply split_byte_join; [done|]. apply Forall_fmap. eapply Forall_impl; [apply octets_range|].
  cbn. intros v Hv. apply utoa_no_byte; [lia|done].
Qed.

Lemma string4_bytes z c : c ∈ string4 z -> is_digit c = true \/ c = "."%char.
Proof.
  pose proof (octets_range z) as H. unfold string4. change ([_; _; _; _]) with (octets_of z).
  assert (forall l, Forall (fun v => 0 <= v < 256) l -> forall c, c ∈ join (lit ".") (utoa <$> l) -> is_digit c = true \/ c = "."%char) as Hj.
  { clear. induction 1 as [|v l Hv Hl IH]; intros c; [by intros ?%elem_of_nil|]. destruct l as [|w l].
    - cbn. intros Hc. left. pose proof (utoa_digits v ltac:(lia)) as Hd. rewrite Forall_forall in Hd. by apply Hd.
    - change (join (lit ".") (utoa <$> v :: w :: l)) with (utoa v ++ "."%char :: join (lit ".") (utoa <$> w :: l)).
      rewrite elem_of_app, elem_of_cons. intros [Hc|[->|Hc]]; [left|by right|by apply IH].
      pose proof (utoa_digits v ltac:(lia)) as Hd. rewrite Forall_forall in Hd. by apply Hd. }
  by apply Hj.
Qed.

Lemma addr_kind_dot s : Forall (fun c => is_digit c = true \/ c = "."%char) s -> "."%char ∈ s -> addr_kind s = Some "."%char.
Proof.
  induction 1 as [|c s Hc Hs IH]; [by intros ?%elem_of_nil|]. intros [<-|Hin]%elem_of_cons; [done|]. cbn [addr_kind].
  destruct Hc as [Hc| ->]; [|done]. assert (Ascii.eqb c "." || Ascii.eqb c ":" || Ascii.eqb c "%" = false) as ->; [|by apply IH].
  apply not_true_iff_false. rewrite !orb_true_iff, !Ascii.eqb_eq. intros [[->| ->]| ->]; done.
Qed.

Lemma ParseAddr_string4 z : 0 <= z < 2 ^ 32 -> ParseAddr (string4 z) = Some (V4 z).
Proof.
  intros Hz. unfold ParseAddr. rewrite (addr_kind_dot (string4 z)).
  - change (Ascii.eqb "." ".") with true. cbv iota. unfold parse_ipv4. rewrite string4_split.
    pose proof (octets_range z) as H. unfold octets_of in *. rewrite !Forall_cons in H. destruct H as (H1 & H2 & H3 & H4 & _).
    cbn [fmap list_fmap]. rewrite !octet_read by assumption. cbn [fmap option_fmap option_map]. do 2 f_equal.
    clear -Hz. change (2 ^ 24) with 16777216. change (2 ^ 16) with 65536. change (2 ^ 8) with 256. change (2 ^ 32) with 4294967296 in Hz.
    Z.div_mod_to_equations. lia.
  - apply Forall_forall. apply string4_bytes.
  - unfold string4. cbn [fmap list_fmap join]. rewrite elem_of_app. right. by constructor.
Qed.

Lemma parse_ipv4_canonical s z : parse_ipv4 s = Some z -> 0 <= z < 2 ^ 32 /\ string4 z = s.
Proof.
  intros H. split; [by apply parse_ipv4_range in H|]. unfold parse_ipv4 in H.
  pose proof (join_split_byte "." s) as Hj. destruct (split_byte "." s) as [|a [|b [|c [|d [|]]]]]; try done.
  destruct (parse_octet a) as [va|] eqn:Ea, (parse_octet b) as [vb|] eqn:Eb, (parse_octet c) as [vc|] eqn:Ec, (parse_octet d) as [vd|] eqn:Ed; try done.
  injection H as <-. rewrite <- Hj. unfold string4.
  pose proof (parse_octet_range _ _ Ea). pose proof (parse_octet_range _ _ Eb). pose proof (parse_octet_range _ _ Ec). pose proof (parse_octet_range _ _ Ed).
  apply octet_canonical in Ea as <-, Eb as <-, Ec as <-, Ed as <-. cbn [fmap list_fmap]. do 2 f_equal; [|f_equal; [|f_equal; [|f_equal]]].
  all: f_equal; change (2 ^ 24) with 16777216; change (2 ^ 16) with 65536; change (2 ^ 8) with 256; Z.div_mod_to_equations; lia.
Qed.

(** ** The address sets *)

Lemma v4_once_spec addrs : NoDup (v4_once addrs) /\ forall a, a ∈ v4_once addrs <-> Is4 a = true /\ a ∈ map Unmap addrs.
Proof.
  unfold v4_once. induction addrs as [|x addrs IH] using rev_ind.
  - cbn. split; [constructor|]. intros a. rewrite elem_of_nil. naive_solver.
  - rewrite foldl_snoc. set (v4 := foldl _ _ addrs) in *. destruct IH as [Hnd Hin]. cbv zeta.
    rewrite map_app. cbn [map].
    assert (forall a, Is4 a = true /\ a ∈ map Unmap addrs ++ [Unmap x] <-> a ∈ v4 \/ (Is4 a = true /\ a = Unmap x)) as Hs.
    { intros a. rewrite elem_of_app, list_elem_of_singleton, Hin. tauto. }
    destruct (Is4 (Unmap x) && negb (mem (Unmap x) v4)) eqn:E.
    + bool_inv. apply mem_false in H0. split.
      * apply NoDup_app. split_and!; [done| |apply NoDup_singleton]. intros y Hy Hy'. apply list_elem_of_singleton in Hy' as ->. done.
      * intros a. rewrite Hs, elem_of_app, list_elem_of_singleton. naive_solver.
    + split; [done|]. intros a. rewrite Hs. split; [by left|]. intros [?|[H4 ->]]; [done|].
      rewrite H4 in E. cbn [andb] in E. by apply negb_false_iff, mem_true in E.
Qed.

(** The variables of [Add]'s last loop. *)
Lemma add_all_spec v4 held : NoDup held ->
  NoDup (foldl add_addr held v4) /\ (forall a, a ∈ foldl add_addr held v4 <-> a ∈ held \/ a ∈ v4) /\
  (NoDup v4 -> length (foldl add_addr held v4) = length held + length (List.filter (fun a => negb (mem a held)) v4))%nat.
Proof.
  intros Hh. induction v4 as [|x v4 IH] using rev_ind; cbn [foldl].
  - split_and!; [done| |cbn; lia]. intros a. rewrite elem_of_nil. tauto.
  - rewrite foldl_snoc. destruct IH as (Hnd & Hin & Hlen). unfold add_addr at 1 3 5. rewrite List.filter_app. cbn [List.filter].
    destruct (mem x (foldl add_addr held v4)) eqn:E.
    + apply mem_true in E. split_and!; [done| |].
      * intros a. rewrite elem_of_app, list_elem_of_singleton, Hin. apply Hin in E. naive_solver.
      * intros [Hv [Hx _]]%NoDup_app. rewrite Hlen by done. apply Hin in E as [E|E].
        -- apply mem_true in E. rewrite E. cbn [negb]. by rewrite app_nil_r.
        -- exfalso. apply (Hx x E). by constructor.
    + apply mem_false in E. split_and!.
      * apply NoDup_app. split_and!; [done| |apply NoDup_singleton]. intros y Hy Hy'. apply list_elem_of_singleton in Hy' as ->. done.
      * intros a. rewrite !elem_of_app, list_elem_of_singleton, Hin. tauto.
      * intros [Hv _]%NoDup_app. rewrite !length_app, Hlen by done. assert (mem x held = false) as ->; [|cbn; lia].
        apply mem_false. intros Hx. apply E, Hin. by left.
Qed.

(** What the addresses of a route are, whatever was added. *)
Definition set_ok (s : DivertSet) : Prop :=
  length (ds_addrs s) = length (ds_routes s) /\
  Forall (fun held => NoDup held /\ (length held <= MaxAddrs)%nat /\ Forall (fun a => Is4 a = true) held) (ds_addrs s).

Lemma NewSet_ok routes : set_ok (NewSet routes).
Proof.
  unfold set_ok, NewSet. cbn [ds_addrs ds_routes]. split; [apply length_map|]. apply Forall_forall. intros held (r & <- & _)%list_elem_of_In%in_map_iff.
  destruct (ParseAddr (dr_host r)) as [a|]; [destruct (Is4 a) eqn:E|]; (split_and!; [|cbn; unfold MaxAddrs; lia|]); try constructor; try done.
  - apply not_elem_of_nil.
  - constructor.
Qed.

Lemma Add_spec s i addrs v4 s' : set_ok s -> Add s i addrs = Ok (v4, s') ->
  set_ok s' /\ v4 = v4_once addrs /\ ds_routes s' = ds_routes s /\ 0 <= i /\ (Z.to_nat i < length (ds_routes s))%nat /\
  forall j held', ds_addrs s' !! j = Some held' -> exists held, ds_addrs s !! j = Some held /\
    forall a, a ∈ held' <-> a ∈ held \/ (j = Z.to_nat i /\ a ∈ v4).
Proof.
  intros [Hl Hs] H. unfold Add in H. destruct (Z.ltb_spec i 0); [done|]. destruct (Z.leb_spec (Z.of_nat (length (ds_routes s))) i); [done|].
  cbn [orb] in H. apply seq_ok in H as [Hc [= <- <-]]. apply fail_if_ok, Nat.ltb_ge in Hc. cbn [ds_routes ds_addrs].
  assert (Z.to_nat i < length (ds_addrs s))%nat as Hi by lia. destruct (lookup_lt_is_Some_2 _ _ Hi) as [held Hheld].
  rewrite Hheld in *. change (default [] (Some held)) with held in *. pose proof (proj1 (Forall_lookup _ _) Hs _ _ Hheld) as (Hnd & Hlen & H4).
  destruct (add_all_spec (v4_once addrs) held Hnd) as (Hnd' & Hin' & Hlen'). destruct (v4_once_spec addrs) as [Hv Hvin].
  unfold set_ok. cbn [ds_addrs ds_routes]. split_and!; try done; [by rewrite length_insert| |lia|].
  - apply Forall_insert; [done|]. split_and!; [done|rewrite Hlen' by done; lia|].
    apply Forall_forall. intros a [Ha|Ha]%Hin'; [by rewrite Forall_forall in H4; apply H4|by apply Hvin in Ha as [? _]].
  - intros j held' Hj. destruct (decide (j = Z.to_nat i)) as [->|Hne].
    + rewrite list_lookup_insert_eq in Hj by done. injection Hj as <-. exists held. split; [done|]. intros a. rewrite Hin'. naive_solver.
    + rewrite list_lookup_insert_ne in Hj by done. exists held'. split; [done|]. naive_solver.
Qed.

Lemma Match_spec s dst : length (ds_addrs s) = length (ds_routes s) ->
  Match s dst = true <->
  exists a i r held, ap_addr dst = Some a /\ ds_routes s !! i = Some r /\ ds_addrs s !! i = Some held /\
    dr_port r = ap_port dst /\ Unmap a ∈ held.
Proof.
  intros Hl. unfold Match. destruct (ap_addr dst) as [a|]; [|naive_solver]. rewrite existsb_true. split.
  - intros ([r held] & [i Hi]%list_elem_of_lookup & H). bool_inv. apply Z.eqb_eq in H. apply mem_true in H0.
    rewrite lookup_zip_Some in Hi. destruct Hi. by exists a, i, r, held.
  - intros (? & i & r & held & [= <-] & Hr & Hh & Hp & Hin). exists (r, held). split.
    + apply list_elem_of_lookup. exists i. by apply lookup_zip_Some.
    + apply andb_true_iff. split; [by apply Z.eqb_eq|by apply mem_true].
Qed.

(** A history of adds: a refused one changes nothing. *)
Definition run_adds (s : DivertSet) (adds : list (Z * list addr)) : DivertSet :=
  foldl (fun s '(i, addrs) => match Add s i addrs with Ok (_, s') => s' | Err _ => s end) s adds.

Lemma run_adds_ok adds s : set_ok s -> set_ok (run_adds s adds) /\ ds_routes (run_adds s adds) = ds_routes s.
Proof.
  revert s. induction adds as [|[i addrs] adds IH]; intros s Hs; [done|]. cbn [run_adds foldl].
  destruct (Add s i addrs) as [[v4 s']|] eqn:E; [|by apply IH].
  destruct (Add_spec _ _ _ _ _ Hs E) as (Hs' & _ & Hr & _). destruct (IH s' Hs') as [H1 H2]. rewrite <- Hr. by split.
Qed.

(** ** Properties *)

(** Whatever was added before, an add to a route diverts exactly the IPv4
    addresses it names, on the port of that route, and takes nothing from what
    was diverted; a route never holds more than the 4096 addresses its set in
    the packet filter has room for. *)
Lemma Add_exact (routes : list Route) (adds : list (Z * list addr)) (i : Z) (addrs v4 : list addr) (s s' : DivertSet) (dst : AddrPort)
    (Hs : s = run_adds (NewSet routes) adds) (H : Add s i addrs = Ok (v4, s')) :
  (Match s' dst = true <-> Match s dst = true \/
     exists r a, routes !! Z.to_nat i = Some r /\ dr_port r = ap_port dst /\ ap_addr dst = Some a /\
       Is4 (Unmap a) = true /\ Unmap a ∈ map Unmap addrs) /\
  Forall (fun held => (length held <= MaxAddrs)%nat) (ds_addrs s').
Proof.
  destruct (run_adds_ok adds _ (NewSet_ok routes)) as [Hok Hr]. rewrite <- Hs in Hok, Hr. cbn [NewSet ds_routes] in Hr.
  destruct (Add_spec _ _ _ _ _ Hok H) as (Hok' & -> & Hr' & Hi & Hlt & Hheld). destruct (v4_once_spec addrs) as [_ Hv].
  pose proof Hok as [Hl _]. pose proof Hok' as [Hl' Hall]. split; [|eapply Forall_impl; [exact Hall|]; naive_solver].
  rewrite !Match_spec by done. rewrite Hr', Hr. split.
  - intros (a & j & r & held' & Ha & Hrj & Hj & Hp & Hin). destruct (Hheld _ _ Hj) as (held & Hj0 & Hel).
    destruct (proj1 (Hel _) Hin) as [Hin'|[E Hin']]; [left; by exists a, j, r, held|]. right. subst j. apply Hv in Hin' as [? ?]. by exists r, a.
  - intros [(a & j & r & held & Ha & Hrj & Hj & Hp & Hin)|(r & a & Hri & Hp & Ha & H4 & Hin)].
    + assert (j < length (ds_addrs s'))%nat as Hlt' by (apply lookup_lt_Some in Hj; congruence).
      destruct (lookup_lt_is_Some_2 _ _ Hlt') as [held' Hj']. exists a, j, r, held'. split_and!; try done.
      destruct (Hheld _ _ Hj') as (held2 & Hj2 & Hel). rewrite Hj in Hj2. injection Hj2 as <-. apply Hel. by left.
    + assert (Z.to_nat i < length (ds_addrs s'))%nat as Hlt' by congruence.
      destruct (lookup_lt_is_Some_2 _ _ Hlt') as [held' Hj']. exists a, (Z.to_nat i), r, held'. split_and!; try done.
      destruct (Hheld _ _ Hj') as (held2 & Hj2 & Hel). apply Hel. right. split; [done|]. by apply Hv.
Qed.

Definition example_routes : list Route := [MkDivertRoute (lit "10.1.1.3") 443; MkDivertRoute (lit "api.example.com") 443].

Example Add_exact_witness :
  exists s', Add (NewSet example_routes) 1 [V6 (65535 * 2 ^ 32 + 16909060) []] = Ok ([V4 16909060], s') /\
    Match s' (MkAddrPort (Some (V4 16909060)) 443) = true.
Proof.
  destruct (Add (NewSet example_routes) 1 [V6 (65535 * 2 ^ 32 + 16909060) []]) as [[v4 s']|] eqn:E; [|vm_compute in E; discriminate].
  assert (v4 = [V4 16909060]) as -> by (vm_compute in E; injection E as <- _; reflexivity). exists s'. split; [reflexivity|].
  refine (proj2 (proj1 (Add_exact example_routes [] 1 _ _ _ s' (MkAddrPort (Some (V4 16909060)) 443) eq_refl E)) _).
  right. exists (MkDivertRoute (lit "api.example.com") 443), (V4 16909060). split_and!; try reflexivity. cbn. by constructor.
Defined.

(** ** Routes and preambles read back *)

Lemma elem_of_join c sep l : c ∈ join sep l -> c ∈ sep \/ exists w, w ∈ l /\ c ∈ w.
Proof.
  induction l as [|w l IH]; [by intros ?%elem_of_nil|]. destruct l as [|w' l].
  - intros H. right. exists w. split; [by constructor|done].
  - change (join sep (w :: w' :: l)) with (w ++ sep ++ join sep (w' :: l)). rewrite !elem_of_app. intros [H|[H|H]].
    + right. exists w. split; [by constructor|done].
    + by left.
    + destruct (IH H) as [?|(x & Hx & ?)]; [by left|]. right. exists x. split; [by constructor|done].
Qed.

Lemma split_byte_snoc c r : split_byte c (r ++ [c]) = split_byte c r ++ [[]].
Proof.
  induction r as [|d r IH]; cbn [app split_byte]; [by rewrite Ascii.eqb_refl|]. rewrite IH. case_if; [done|].
  pose proof (split_byte_not_nil c r). by destruct (split_byte c r).
Qed.

Lemma Hostname_spec name : Hostname name = true ->
  name <> [] /\ Forall (fun c => host_byte c = true \/ c = "."%char) name /\ trim_suffix name (lit ".") = name.
Proof.
  unfold Hostname. destruct (bool_decide (name = []) || _) eqn:E; [done|]. apply orb_false_iff in E as [E _]. apply bool_decide_eq_false in E.
  rewrite forallb_true, Forall_forall. intros H. split_and!; [done| |].
  - apply Forall_forall. intros c Hc. rewrite <- (join_split_byte "." name) in Hc. apply elem_of_join in Hc as [Hc|(w & Hw & Hc)].
    + right. by apply list_elem_of_singleton in Hc.
    + specialize (H w Hw). apply andb_true_iff in H as [_ H]. rewrite forallb_true, Forall_forall in H. left. by apply H.
  - destruct (trim_suffix_cases name (lit ".")) as [Es|Es]; [|done]. exfalso. rewrite Es in H. rewrite split_byte_snoc in H.
    specialize (H [] ltac:(apply elem_of_app; right; by constructor)). by cbn in H.
Qed.

Lemma host_byte_plain c : host_byte c = true \/ c = "."%char ->
  is_ascii c = true /\ lower_byte c = c /\ c <> ":"%char /\ c <> "%"%char /\ c <> "["%char /\ c <> "]"%char.
Proof.
  intros [H| ->]; [|done]. destruct c as [[] [] [] [] [] [] [] []]; try discriminate H; done.
Qed.

(** A host name is in lower case without a trailing dot. *)
Lemma Hostname_lower name : Hostname name = true -> trim_suffix (to_lower name) (lit ".") = name.
Proof.
  intros H. destruct (Hostname_spec _ H) as (_ & Hb & Htrim).
  rewrite to_lower_ascii by (apply all_ascii_Forall; eapply Forall_impl; [exact Hb|]; intros c Hc; apply host_byte_plain in Hc; tauto).
  assert (lower_byte <$> name = name) as ->; [|done]. clear -Hb. induction Hb as [|c l Hc Hl IH]; [done|].
  cbn [fmap list_fmap]. apply host_byte_plain in Hc as (_ & -> & _). by f_equal.
Qed.

Lemma SplitHostPort_read host port : host <> [] -> Forall (fun c => c <> ":"%char /\ c <> "["%char /\ c <> "]"%char) host ->
  Forall (fun c => is_digit c = true) port -> SplitHostPort (joinHostPort host port) = Some (host, port).
Proof.
  intros Hne Hh Hp. assert (forall c, c = ":"%char \/ c = "["%char \/ c = "]"%char -> c ∉ host /\ c ∉ port) as Hno.
  { intros c Hc. rewrite Forall_forall in Hh, Hp. split; intros Hin; [specialize (Hh c Hin); naive_solver|].
    specialize (Hp c Hin). destruct Hc as [->|[->| ->]]; done. }
  assert (forall c s, c ∉ s -> has_byte c s = false) as Hb.
  { intros c s Hc. apply not_true_iff_false. by rewrite has_byte_true. }
  unfold joinHostPort. rewrite Hb by (apply Hno; auto). change (lit ":" ++ port) with (":"%char :: port). unfold SplitHostPort.
  rewrite cut_last_app by (apply Hno; auto). destruct host as [|c host]; [done|]. cbn [app].
  apply Forall_cons in Hh as Hc. destruct Hc as [(H1 & H2 & H3) _]. apply Ascii.eqb_neq in H2. rewrite H2.
  rewrite Hb by (apply Hno; auto). change (c :: host ++ ":"%char :: port) with ((c :: host) ++ ":"%char :: port).
  rewrite !Hb; [done| |].
  all: intros [Hin|Hin]%elem_of_app; [revert Hin; apply Hno; auto|].
  all: apply elem_of_cons in Hin as [E|Hin]; [discriminate E|revert Hin; apply Hno; auto].
Qed.

Lemma parse_uint_utoa bits p : 0 <= p < 2 ^ bits -> parse_uint bits (utoa p) = Some p.
Proof. intros H. unfold parse_uint. rewrite parse_nat_utoa by lia. destruct (Z.ltb_spec p (2 ^ bits)); [done|lia]. Qed.

Lemma value_of_nonneg acc s z : 0 <= acc -> value_of acc s = Some z -> 0 <= z.
Proof.
  revert acc. induction s as [|c s IH]; intros acc Ha; cbn [value_of]; [intros [= <-]; done|].
  destruct (is_digit c) eqn:E; [|done]. unfold is_digit in E. apply in_range_true in E. apply IH. lia.
Qed.

Lemma parse_uint_range bits s z : parse_uint bits s = Some z -> 0 <= z < 2 ^ bits.
Proof.
  unfold parse_uint, parse_nat. destruct s as [|c s]; [done|]. destruct (value_of 0 (c :: s)) as [v|] eqn:E; [|done].
  apply value_of_nonneg in E; [|lia]. destruct (Z.ltb_spec v (2 ^ bits)); [|done]. intros [= <-]. lia.
Qed.

Lemma ParseAddr_v4 s z : ParseAddr s = Some (V4 z) -> 0 <= z < 2 ^ 32 /\ string4 z = s.
Proof.
  unfold ParseAddr. destruct (addr_kind s) as [c|]; [|done]. destruct (Ascii.eqb c ".").
  - destruct (parse_ipv4 s) as [z'|] eqn:E; [|done]. intros [= <-]. by apply parse_ipv4_canonical.
  - destruct (Ascii.eqb c ":"); [|done]. unfold parse_ipv6. destruct (cut s (lit "%")) as [[s' zone] zoned].
    case_if; [done|]. destruct (strip_prefix _ s') as [[|x l]|]; [done| |].
    all: destruct (v6_groups _ _ _ _) as [[gs [n|]]|]; [| |done]; case_if; done.
Qed.

Lemma addr_kind_plain s : Forall (fun c => c <> ":"%char /\ c <> "%"%char) s -> addr_kind s = None \/ addr_kind s = Some "."%char.
Proof.
  induction 1 as [|c s [H1 H2] Hs IH]; [by left|]. cbn [addr_kind]. apply Ascii.eqb_neq in H1, H2. rewrite H1, H2, !orb_false_r.
  destruct (Ascii.eqb_spec c ".") as [->|]; [by right|done].
Qed.

Lemma Unmap_v4_range s a z : ParseAddr s = Some a -> Unmap a = V4 z -> 0 <= z < 2 ^ 32.
Proof.
  intros H Hu. destruct a as [x|x zone]; cbn [Unmap] in Hu.
  - injection Hu as ->. by apply ParseAddr_v4 in H as [? _].
  - destruct (Is4In6 _); [|done]. injection Hu as <-. apply Z.mod_pos_bound. lia.
Qed.

(** A route brig writes on a command line reads back as itself: a parsed
    route names a canonical IPv4 address or a plain host name, on a port that
    is not 0 or 53, and parses from its own text. *)
Lemma ParseRoute_String (s : gostr) (r : Route) (H : ParseRoute s = Ok r) :
  0 < dr_port r < 65536 /\ dr_port r <> 53 /\ ParseRoute (route_string r) = Ok r.
Proof.
  unfold ParseRoute in H. destruct (SplitHostPort s) as [[host port]|]; [|done]. destruct (parse_uint 16 port) as [p|] eqn:Ep; [|done].
  apply parse_uint_range in Ep. change (2 ^ 16) with 65536 in Ep. apply seq_ok in H as [H0 H]. apply seq_ok in H as [H53 H].
  pose proof H0 as H0'. pose proof H53 as H53'. apply fail_if_ok, Z.eqb_neq in H0', H53'.
  assert (forall name, name <> [] -> Forall (fun c => c <> ":"%char /\ c <> "["%char /\ c <> "]"%char) name ->
    SplitHostPort (route_string (MkDivertRoute name p)) = Some (name, utoa p)) as Hsplit.
  { intros name Hn Hb. apply SplitHostPort_read; [done|done|]. apply utoa_digits. lia. }
  assert (parse_uint 16 (utoa p) = Some p) as Hpu by (apply parse_uint_utoa; change (2 ^ 16) with 65536; lia).
  destruct (ParseAddr host) as [a|] eqn:Ea.
  - apply seq_ok in H as [H4 [= <-]]. apply fail_if_ok, negb_false_iff in H4. destruct (Unmap a) as [z|] eqn:Eu; [|done]. cbn [dr_port].
    pose proof (Unmap_v4_range _ _ _ Ea Eu) as Hz. split_and!; [lia|lia|done|]. change (addr_string (V4 z)) with (string4 z).
    assert (string4 z <> []) as Hne by (unfold string4; cbn [fmap list_fmap join]; destruct (utoa_cons (z / 2 ^ 24 mod 256)) as (? & ? & ->); done).
    unfold ParseRoute. rewrite Hsplit; [|done|].
    + rewrite Hpu, H0, H53. cbn [res_bind]. by rewrite (ParseAddr_string4 z Hz).
    + apply Forall_forall. intros c [Hc| ->]%string4_bytes; [|done]. destruct c as [[] [] [] [] [] [] [] []]; try discriminate Hc; done.
  - set (name := trim_suffix (to_lower host) (lit ".")) in *. apply seq_ok in H as [Hh [= <-]]. pose proof Hh as Hh'. apply fail_if_ok, negb_false_iff in Hh'.
    destruct (Hostname_spec _ Hh') as (Hne & Hb & Htrim). cbn [dr_port]. split_and!; [lia|lia|done|].
    unfold ParseRoute. rewrite Hsplit; [|done|eapply Forall_impl; [exact Hb|]; intros c Hc; apply host_byte_plain in Hc; tauto].
    rewrite Hpu, H0, H53. cbn [res_bind]. destruct (ParseAddr name) as [a|] eqn:En.
    + assert (exists z, a = V4 z) as [z ->].
      { assert (addr_kind name = None \/ addr_kind name = Some "."%char) as Hk.
        { apply addr_kind_plain. eapply Forall_impl; [exact Hb|]. intros c Hc. apply host_byte_plain in Hc. tauto. }
        unfold ParseAddr in En. destruct Hk as [E|E]; rewrite E in En; [done|]. change (Ascii.eqb "." ".") with true in En. cbv iota in En.
        destruct (parse_ipv4 name) as [z|]; [|discriminate En]. injection En as <-. by exists z. }
      apply ParseAddr_v4 in En as [_ En]. cbn [Unmap Is4 negb fail_if res_bind addr_string]. by rewrite En.
    + rewrite (Hostname_lower _ Hh'), Hh. done.
Qed.

Example ParseRoute_String_witness :
  ParseRoute (route_string (MkDivertRoute (lit "api.example.com") 443)) = Ok (MkDivertRoute (lit "api.example.com") 443).
Proof.
  assert (ParseRoute (lit "API.example.com.:443") = Ok (MkDivertRoute (lit "api.example.com") 443)) as E by (vm_compute; reflexivity).
  exact (proj2 (proj2 (ParseRoute_String _ _ E))).
Defined.

Lemma addrPort_ok a port x p : addrPort a port = Ok (MkAddrPort (Some x) p) <->
  ParseAddr a = Some x /\ zone_of x = [] /\ addr_string x = a /\ parse_uint 16 port = Some p /\ p <> 0 /\ utoa p = port.
Proof.
  unfold addrPort. split.
  - destruct (ParseAddr a) as [y|] eqn:Ey; [|done]. intros [Hc H]%seq_ok. apply fail_if_ok, orb_false_iff in Hc as [H1 H2].
    apply negb_false_iff, bool_decide_eq_true in H1, H2. destruct (parse_uint 16 port) as [q|]; [|done].
    apply seq_ok in H as [Hp [= -> ->]]. apply fail_if_ok, orb_false_iff in Hp as [H3 H4]. apply Z.eqb_neq in H3.
    by apply negb_false_iff, bool_decide_eq_true in H4.
  - intros (-> & Hz & Hs & -> & Hp & Hu). rewrite !bool_decide_true by done. cbn [negb orb fail_if res_bind].
    apply Z.eqb_neq in Hp. by rewrite Hp.
Qed.

Lemma addrPort_v4 z p : 0 <= z < 2 ^ 32 -> 0 < p < 65536 -> addrPort (string4 z) (utoa p) = Ok (MkAddrPort (Some (V4 z)) p).
Proof.
  intros Hz Hp. apply addrPort_ok. split_and!; [by apply ParseAddr_string4|done|done|apply parse_uint_utoa; change (2 ^ 16) with 65536; lia|lia|done].
Qed.

Lemma no_space_v4 z : " "%char ∉ string4 z.
Proof. intros H. by apply string4_bytes in H as [H|H]. Qed.

(** Between IPv4 addresses the preamble is a code: a line reads as two ends
    exactly when it is the line written for them. *)
Lemma Preamble_exact (line : gostr) (d s : Z) (dp sp : Z)
    (Hd : 0 <= d < 2 ^ 32) (Hs : 0 <= s < 2 ^ 32) (Hdp : 0 < dp < 65536) (Hsp : 0 < sp < 65536) :
  let dst := MkAddrPort (Some (V4 d)) dp in
  let src := MkAddrPort (Some (V4 s)) sp in
  ParsePreamble line = Ok (dst, src) <-> Preamble dst src = Ok line.
Proof.
  cbv zeta. unfold ParsePreamble, Preamble. cbn [ap_addr ap_port Unmap no_zone addr_string].
  destruct (Z.eqb_spec dp 0); [lia|]. destruct (Z.eqb_spec sp 0); [lia|]. cbn [orb fail_if res_bind].
  set (fields := [Magic; string4 d; utoa dp; string4 s; utoa sp]).
  assert (split_byte " " (join (lit " ") fields) = fields) as Hsplit.
  { apply split_byte_join; [done|]. repeat apply Forall_cons_2; try apply Forall_nil_2; try apply no_space_v4.
    - by apply (bool_decide_unpack _).
    - apply utoa_no_byte; [lia|done].
    - apply utoa_no_byte; [lia|done]. }
  split.
  - intros [Hl H]%seq_ok. destruct (strip_suffix [zb 10] line) as [text|] eqn:Et; [|done]. apply strip_suffix_Some in Et as ->.
    pose proof (join_split_byte " " text) as Hj. destruct (split_byte " " text) as [|m [|a [|b [|c [|e [|]]]]]]; try done.
    apply seq_ok in H as [Hm H]. apply fail_if_ok, negb_false_iff, bool_decide_eq_true in Hm as ->.
    apply res_bind_ok in H as (x & Hx & H). apply res_bind_ok in H as (y & Hy & [= -> ->]).
    apply addrPort_ok in Hx as (_ & _ & <- & _ & _ & <-). apply addrPort_ok in Hy as (_ & _ & <- & _ & _ & <-).
    cbn [addr_string] in Hj. change (join (lit " ") fields = text) in Hj. subst text. by rewrite Hl.
  - intros [Hl [= <-]]%seq_ok. apply seq_ok. split; [exact Hl|].
    match goal with |- match ?o with _ => _ end = _ =>
      assert (o = Some (join (lit " ") fields)) as -> by (by apply (proj2 (strip_suffix_Some _ _ _))) end.
    rewrite Hsplit. unfold fields.
    rewrite bool_decide_true by done. cbn [negb fail_if res_bind]. by rewrite !addrPort_v4 by done.
Qed.

Example Preamble_exact_witness :
  ParsePreamble (lit "BRIG-DIVERT/1 10.1.1.3 443 10.0.0.2 51234" ++ [zb 10]) =
  Ok (MkAddrPort (Some (V4 167837955)) 443, MkAddrPort (Some (V4 167772162)) 51234).
Proof.
  apply (Preamble_exact (lit "BRIG-DIVERT/1 10.1.1.3 443 10.0.0.2 51234" ++ [zb 10]) 167837955 167772162 443 51234);
    [lia|lia|lia|lia|vm_compute; reflexivity].
Defined.

(** A line that is read, and is not the preamble of the ends it is read as: an
    address of it is IPv4 mapped into IPv6. *)
Lemma mapped_preamble : exists line dst src,
  ParsePreamble line = Ok (dst, src) /\ is_ok (Preamble dst src) = true /\ Preamble dst src <> Ok line.
Proof.
  exists (lit "BRIG-DIVERT/1 ::ffff:1.2.3.4 443 10.0.0.2 51234" ++ [zb 10]), (MkAddrPort (Some (V6 (65535 * 2 ^ 32 + 16909060) [])) 443),
    (MkAddrPort (Some (V4 167772162)) 51234).
  split_and!; [vm_compute; reflexivity|vm_compute; reflexivity|]. intros H. vm_compute in H. discriminate H.
Qed.
