(* ===== verification/Nft.v ===== *)
(** * [internal/egress/nft.go]: the packet filter of a sandbox

    The scripts that install the table of a sandbox, pin addresses and keep the
    table alive, as text, and the elements of the network sets. *)

From stdpp Require Import prelude list strings sorting.
From Stdlib Require Import ZArith Lia ZifyNat Ascii.
From S2P Require Import Prelude GoUnicode GoStrings GoNum GoNetip RouteTypes EgressRules Divert.

Local Open Scope Z_scope.

Definition SetAllowIP : gostr := lit "allow_ip".
Definition SetDenyIP : gostr := lit "deny_ip".
Definition SetAllowHost : gostr := lit "allow_host".
Definition SetDenyHost : gostr := lit "deny_host".
Definition setAllowNet : gostr := lit "allow_net".
Definition setDenyNet : gostr := lit "deny_net".
Definition setAlive : gostr := lit "alive".
Definition setDivertPrefix : gostr := lit "divert_".
Definition DivertPort : Z := 15443.
Definition TablePrefix : gostr := lit "brig_egress_".
Definition linkLocal : prefix := MkPrefix (V4 2851995648) 16.

Inductive nft_error :=
  | BadSandboxName | BadInterface | GatewayNotIPv4 | SubnetGateway | ZeroMark | RelayPort (port : Z) | NothingToDo
  | DivertPortRefused (r : Route).

(** ** Names *)

Definition table_first (c : byte) : bool := in_range 97 122 (bz c) || in_range 48 57 (bz c).
Definition table_byte (c : byte) : bool := table_first c || mem c (lit "._-").

(** [tableNameRe]. *)
Definition table_name_ok (s : gostr) : bool :=
  match s with c :: t => table_first c && forallb table_byte t | [] => false end.

Definition TableName (sandbox : gostr) : res nft_error gostr :=
  let rest := trim_prefix sandbox (lit "brig-") in
  fail_if (negb (table_name_ok rest)) BadSandboxName ;?
  Ok (TablePrefix ++ rest).

(** [ifaceRe]. *)
Definition iface_byte (c : byte) : bool := in_range 65 90 (bz c) || table_byte c.
Definition iface_ok (s : gostr) : bool := (1 <=? length s)%nat && (length s <=? 15)%nat && forallb iface_byte s.

Definition DivertSetName (i : nat) : gostr := setDivertPrefix ++ utoa (Z.of_nat i).

(** ** The table *)

Record NftDivert := MkNftDivert { nd_routes : list Route; nd_port : Z }.

Record Network := MkNetwork {
  nw_bridge : gostr; nw_gateway : addr; nw_subnet : prefix; nw_redirect : list addr; nw_divert : NftDivert }.

Definition IsLoopback (a : addr) : bool :=
  match a with V4 z => z / 2 ^ 24 =? 127 | V6 z _ => z =? 1 end.

(** [netip.Prefix.String]. *)
Definition prefix_string (p : prefix) : gostr := addr_string (pf_addr p) ++ lit "/" ++ utoa (pf_bits p).

(** A number in four hex digits. *)
Definition hex4 (z : Z) : gostr :=
  (fun d => let v := z / 16 ^ d mod 16 in if v <? 10 then zb (48 + v) else zb (87 + v)) <$> [3; 2; 1; 0].

Definition quoted (s : gostr) : gostr := [zb 34] ++ s ++ [zb 34].

Section Ruleset.
(** [slices.SortFunc] by the length of a prefix, which leaves the order of the
    prefixes of one length open. *)
Variable sort_bits : list prefix -> list prefix.

(** The loop of [elements]: the prefixes no wider one holds. *)
Definition widest (sorted : list prefix) : list prefix :=
  foldl (fun wide p => if existsb (fun w => Contains w (pf_addr p)) wide then wide else wide ++ [p]) [] sorted.

Definition elements (prefixes : list prefix) : gostr :=
  let kept := prefix_string <$> widest (sort_bits prefixes) in
  if bool_decide (kept = []) then [] else lit " elements = { " ++ join (lit ", ") kept ++ lit " };".

(** The resolvers whose DNS is sent to the gateway: each address once. *)
Definition redirected (n : Network) : list gostr :=
  foldl (fun out a =>
    if Is4 a && negb (IsLoopback a) && negb (bool_decide (a = nw_gateway n)) && negb (mem (addr_string a) out)
    then out ++ [addr_string a] else out) [] (nw_redirect n).

Definition learns (n : Network) : bool :=
  existsb (fun r => is_nil (ParseAddr (dr_host r))) (nd_routes (nw_divert n)).

Definition indexed {A} (l : list A) : list (nat * A) := zip (seq 0 (length l)) l.

Definition tab : gostr := [zb 9].

Definition set_line (name body : gostr) : gostr := tab ++ lit "set " ++ name ++ lit " { " ++ body ++ lit " }".

(** The sets. *)
Definition set_lines (n : Network) (p : EgressPolicy) : list gostr :=
  map (fun s => set_line s (lit "type ipv4_addr; flags timeout;")) [SetAllowIP; SetDenyIP; SetAllowHost; SetDenyHost] ++
  [set_line setAllowNet (lit "type ipv4_addr; flags interval;" ++ elements (v4CIDRs (ep_allow p)));
   set_line setDenyNet (lit "type ipv4_addr; flags interval;" ++ elements (linkLocal :: v4CIDRs (ep_deny p)));
   set_line setAlive (lit "type ifname; flags timeout;")] ++
  map (fun '(i, _) => set_line (DivertSetName i) (lit "type ipv4_addr; size " ++ utoa (Z.of_nat MaxAddrs) ++ lit ";"))
    (indexed (nd_routes (nw_divert n))).

Definition br (n : Network) : gostr := quoted (nw_bridge n).
Definition gw (n : Network) : gostr := addr_string (nw_gateway n).

(** A chain: its hook and its rules. *)
Definition chain (name : gostr) (hook : option gostr) (rules : list gostr) : list gostr :=
  [tab ++ lit "chain " ++ name ++ lit " {"] ++
  match hook with Some h => [tab ++ tab ++ lit "type " ++ h ++ lit "; policy accept;"] | None => [] end ++
  map (fun r => tab ++ tab ++ r) rules ++ [tab ++ lit "}"].

Definition prerouting : gostr := lit "nat hook prerouting priority dstnat - 10".
Definition forward_hook : gostr := lit "filter hook forward priority filter - 10".
Definition input_hook : gostr := lit "filter hook input priority filter - 10".

Definition dns_lines (n : Network) : list gostr :=
  let to := lit " meta l4proto { tcp, udp } th dport 53 dnat ip to " ++ gw n ++ lit ":53" in
  if learns n then chain (lit "dns") (Some prerouting) [lit "iifname " ++ br n ++ lit " ip daddr != " ++ gw n ++ to]
  else if bool_decide (redirected n = []) then []
  else chain (lit "dns") (Some prerouting) [lit "iifname " ++ br n ++ lit " ip daddr { " ++ join (lit ", ") (redirected n) ++ lit " }" ++ to].

Definition divert_lines (n : Network) : list gostr :=
  let routes := indexed (nd_routes (nw_divert n)) in
  if bool_decide (routes = []) then []
  else
    chain (lit "divert") (Some prerouting)
      (map (fun '(i, r) => lit "iifname " ++ br n ++ lit " ip daddr @" ++ DivertSetName i ++ lit " tcp dport " ++ utoa (dr_port r) ++
         lit " dnat ip to " ++ gw n ++ lit ":" ++ utoa (nd_port (nw_divert n))) routes) ++
    chain (lit "divert_fwd") (Some forward_hook)
      ((lit "iifname != " ++ br n ++ lit " return") ::
       map (fun '(i, r) => lit "ip daddr @" ++ DivertSetName i ++ lit " meta l4proto { tcp, udp } th dport " ++ utoa (dr_port r) ++ lit " goto refuse") routes).

Definition guest_in_lines (n : Network) : list gostr :=
  let diverts := negb (bool_decide (nd_routes (nw_divert n) = [])) in
  let port := utoa (nd_port (nw_divert n)) in
  chain (lit "guest_in") (Some input_hook)
    ([lit "iifname != " ++ br n ++ lit " ip daddr " ++ gw n ++ lit " meta l4proto { tcp, udp } th dport 53 drop"] ++
     (if diverts then [lit "iifname != " ++ br n ++ lit " ip daddr " ++ gw n ++ lit " tcp dport " ++ port ++ lit " drop"] else []) ++
     [lit "iifname != " ++ br n ++ lit " return";
      lit "ip saddr != " ++ prefix_string (Masked (nw_subnet n)) ++ lit " drop";
      lit "ip daddr " ++ gw n ++ lit " meta l4proto { tcp, udp } th dport 53 accept"] ++
     (if diverts then [lit "ip daddr " ++ gw n ++ lit " tcp dport " ++ port ++ lit " ct status dnat accept"] else []) ++
     [lit "ip daddr " ++ gw n ++ lit " icmp type echo-request accept"; lit "goto refuse"]).

(** A rule on one of the address sets. *)
Definition on_set (verdict set : gostr) : gostr := lit "ip daddr @" ++ set ++ lit " goto " ++ verdict.

Definition egress_rules (n : Network) (p : EgressPolicy) (mark : Z) : list gostr :=
  [lit "iifname != " ++ br n ++ lit " return";
   lit "meta nfproto ipv6 goto refuse";
   lit "ip saddr != " ++ prefix_string (Masked (nw_subnet n)) ++ lit " drop";
   lit "ct state established,related ct mark and 0xffff0000 == 0x" ++ hex4 mark ++ lit "0000 accept";
   lit "iifname != @" ++ setAlive ++ lit " goto refuse";
   lit "meta l4proto != { tcp, udp, icmp } goto refuse"] ++
  map (on_set (lit "refuse")) [setDenyNet; SetDenyIP; SetDenyHost] ++
  map (on_set (lit "admit")) [setAllowNet; SetAllowIP; SetAllowHost] ++
  [if bool_decide (ep_default p = EgressAllow) then lit "goto admit" else lit "goto refuse"].

Definition egress_lines (n : Network) (p : EgressPolicy) (mark : Z) : list gostr :=
  if Filters p then chain (lit "egress") (Some forward_hook) (egress_rules n p mark) else [].

Definition ruleset_lines (table : gostr) (n : Network) (p : EgressPolicy) (mark : Z) : list gostr :=
  [lit "add table inet " ++ table; lit "delete table inet " ++ table; lit "table inet " ++ table ++ lit " {"] ++
  set_lines n p ++ dns_lines n ++ divert_lines n ++ guest_in_lines n ++ egress_lines n p mark ++
  chain (lit "admit") None [lit "ct mark set ct mark and 0x0000ffff or 0x" ++ hex4 mark ++ lit "0000 accept"] ++
  chain (lit "refuse") None [lit "meta l4proto tcp reject with tcp reset"; lit "drop"] ++
  [lit "}"].

Definition lines_text (lines : list gostr) : gostr := concat (map (fun l => l ++ [zb 10]) lines).

Definition Ruleset (table : gostr) (n : Network) (p : EgressPolicy) (mark : Z) : res nft_error gostr :=
  let diverts := negb (bool_decide (nd_routes (nw_divert n) = [])) in
  let port := nd_port (nw_divert n) in
  fail_if (negb (iface_ok (nw_bridge n))) BadInterface ;?
  fail_if (negb (Is4 (nw_gateway n))) GatewayNotIPv4 ;?
  fail_if (negb (Is4 (pf_addr (nw_subnet n))) || negb (Contains (nw_subnet n) (nw_gateway n))) SubnetGateway ;?
  fail_if (mark =? 0) ZeroMark ;?
  fail_if (diverts && ((port =? 0) || (port =? 53))) (RelayPort port) ;?
  fail_if (negb (Filters p) && negb diverts) NothingToDo ;?
  check_all (fun r => fail_if ((dr_port r =? 0) || (dr_port r =? 53)) (DivertPortRefused r)) (nd_routes (nw_divert n)) ;?
  Ok (lines_text (ruleset_lines table n p mark)).
End Ruleset.

(** ** The scripts of a running table *)

Definition DeleteScript (table : gostr) : gostr :=
  lines_text [lit "add table inet " ++ table; lit "delete table inet " ++ table].

Definition refreshScript (table set timed plain : gostr) : gostr :=
  lines_text [lit "add element inet " ++ table ++ lit " " ++ set ++ lit " " ++ timed;
              lit "delete element inet " ++ table ++ lit " " ++ set ++ lit " " ++ plain;
              lit "add element inet " ++ table ++ lit " " ++ set ++ lit " " ++ timed].

(** The text of each IPv4 address, once. *)
Definition plain_addrs (addrs : list addr) : list gostr :=
  foldl (fun plain a => if Is4 a && negb (mem (addr_string a) plain) then plain ++ [addr_string a] else plain) [] addrs.

Definition braces (l : list gostr) : gostr := lit "{ " ++ join (lit ", ") l ++ lit " }".

(** [secs] is the lifetime in whole seconds. *)
Definition PinScript (table set : gostr) (addrs : list addr) (secs : Z) : gostr :=
  let plain := plain_addrs addrs in
  let timed := map (fun a => a ++ lit " timeout " ++ itoa secs ++ lit "s") plain in
  if bool_decide (timed = []) then []
  else refreshScript table set (braces timed) (braces plain).

Definition DivertScript (table : gostr) (i : nat) (addrs : list addr) : gostr :=
  let plain := plain_addrs addrs in
  if bool_decide (plain = []) then []
  else lit "add element inet " ++ table ++ lit " " ++ DivertSetName i ++ lit " " ++ braces plain ++ [zb 10].

Definition HeartbeatScript (table bridge : gostr) (lapse : Z) : gostr :=
  refreshScript table setAlive (lit "{ " ++ quoted bridge ++ lit " timeout " ++ itoa lapse ++ lit "s }") (lit "{ " ++ quoted bridge ++ lit " }").

(** ** The network sets *)

Definition prefix_ok (p : prefix) : Prop := Is4 (pf_addr p) = true /\ 0 <= pf_bits p <= 32.

Definition shorter (p q : prefix) : Prop := pf_bits p <= pf_bits q.

#[export] Instance shorter_dec p q : Decision (shorter p q).
Proof. unfold shorter. apply _. Defined.

Lemma shiftr_coarse x y a b : 0 <= a <= b -> Z.shiftr x a = Z.shiftr y a -> Z.shiftr x b = Z.shiftr y b.
Proof.
  intros H E. replace b with (a + (b - a)) by lia. rewrite <- !Z.shiftr_shiftr by lia. by rewrite E.
Qed.

(** A prefix is inside a shorter one or disjoint from it. *)
Lemma prefix_nests w p z : prefix_ok w -> prefix_ok p -> shorter w p -> Contains p (V4 z) = true ->
  Contains w (V4 z) = Contains w (pf_addr p).
Proof.
  intros [Hw Hb] [Hp Hc] Hs H. unfold shorter in Hs. unfold Contains in *. destruct (pf_addr w) as [x|]; [|done].
  destruct (pf_addr p) as [y|]; [|done]. apply Z.eqb_eq in H.
  by rewrite (shiftr_coarse y z (32 - pf_bits p) (32 - pf_bits w) ltac:(lia) H).
Qed.

Definition disjoint (p q : prefix) : Prop := forall z, ~ (Contains p (V4 z) = true /\ Contains q (V4 z) = true).

Lemma widest_spec l :
  Forall prefix_ok l -> StronglySorted shorter l ->
  (forall w, w ∈ widest l -> w ∈ l) /\
  (forall p, p ∈ l -> exists w, w ∈ widest l /\ forall z, Contains p (V4 z) = true -> Contains w (V4 z) = true) /\
  (forall i j p q, widest l !! i = Some p -> widest l !! j = Some q -> i <> j -> disjoint p q).
Proof.
  unfold widest. induction l as [|p l IH] using rev_ind; intros Hok Hs.
  - split_and!; [done|by intros p ?%elem_of_nil|]. intros i j p q H. by apply list_elem_of_lookup_2, elem_of_nil in H.
  - rewrite foldl_snoc. apply Forall_app in Hok as [Hok Hp]. rewrite Forall_singleton in Hp.
    assert (StronglySorted shorter l /\ Forall (fun w => shorter w p) l) as [Hsl Hlp].
    { clear -Hs. induction l as [|x l IH]; [split; constructor|]. cbn [app] in Hs. apply StronglySorted_cons in Hs as [Hx Hs].
      apply Forall_app in Hx as [Hx Hxp]. rewrite Forall_singleton in Hxp. destruct (IH Hs) as [H1 H2]. split; [apply StronglySorted_cons; by split|apply Forall_cons; split; [exact Hxp|exact H2]]. }
    destruct (IH Hok Hsl) as (Hsub & Hcov & Hdis). set (wide := foldl _ [] l) in *. clear IH.
    rewrite Forall_forall in Hok, Hlp. destruct (existsb _ wide) eqn:E.
    + apply existsb_true in E as (w & Hw & Hc). split_and!; [intros x Hx; apply elem_of_app; left; by apply Hsub| |done].
      intros q [Hq|Hq]%elem_of_app; [by apply Hcov|]. apply list_elem_of_singleton in Hq as ->. exists w. split; [done|]. intros z Hz.
      rewrite (prefix_nests w p z); [done|by apply Hok, Hsub|done|by apply Hlp, Hsub|done].
    + apply existsb_false in E. rewrite Forall_forall in E.
      assert (forall w, w ∈ wide -> disjoint w p) as Hwp.
      { intros w Hw z [H1 H2]. rewrite (prefix_nests w p z) in H1; [by rewrite E in H1|by apply Hok, Hsub|done|by apply Hlp, Hsub|done]. }
      split_and!.
      * intros x [Hx|Hx]%elem_of_app; apply elem_of_app; [left; by apply Hsub|by right].
      * intros q [Hq|Hq]%elem_of_app.
        -- destruct (Hcov q Hq) as (w & Hw & Hz). exists w. split; [apply elem_of_app; by left|done].
        -- apply list_elem_of_singleton in Hq as ->. exists p. split; [apply elem_of_app; right; by constructor|done].
      * intros i j x y Hx Hy Hij. apply lookup_app_Some in Hx as [Hx|[Hi Hx]], Hy as [Hy|[Hj Hy]].
        -- by eapply Hdis.
        -- apply list_lookup_singleton_Some in Hy as [_ <-]. apply Hwp. by apply list_elem_of_lookup_2 in Hx.
        -- apply list_lookup_singleton_Some in Hx as [_ <-]. intros z [H1 H2]. apply list_elem_of_lookup_2 in Hy. by apply (Hwp y Hy z).
        -- apply list_lookup_singleton_Some in Hx as [Hx _]. apply list_lookup_singleton_Some in Hy as [Hy _]. lia.
Qed.

(** ** Properties *)

(** The interval set of a table holds the addresses of the rules' prefixes
    and no two of its elements overlap, which nft would refuse, in whatever
    order the sort leaves prefixes of one length. *)
Lemma elements_cover (sort_bits : list prefix -> list prefix) (prefixes : list prefix)
    (Hperm : Permutation (sort_bits prefixes) prefixes) (Hsorted : StronglySorted shorter (sort_bits prefixes))
    (Hok : Forall prefix_ok prefixes) :
  exists kept, elements sort_bits prefixes =
      (if bool_decide (prefix_string <$> kept = []) then []
       else lit " elements = { " ++ join (lit ", ") (prefix_string <$> kept) ++ lit " };") /\
    (forall z, (exists p, p ∈ kept /\ Contains p (V4 z) = true) <-> (exists p, p ∈ prefixes /\ Contains p (V4 z) = true)) /\
    (forall i j p q, kept !! i = Some p -> kept !! j = Some q -> i <> j -> disjoint p q).
Proof.
  exists (widest (sort_bits prefixes)). split; [done|].
  destruct (widest_spec (sort_bits prefixes)) as (Hsub & Hcov & Hdis); [by rewrite Hperm|done|]. split; [|done].
  intros z. split.
  - intros (p & Hp & Hz). exists p. split; [|done]. rewrite <- Hperm. by apply Hsub.
  - intros (p & Hp & Hz). rewrite <- Hperm in Hp. destruct (Hcov p Hp) as (w & Hw & Hwz). exists w. auto.
Qed.

Definition example_prefixes : list prefix := [MkPrefix (V4 167837696) 24; MkPrefix (V4 167772160) 8; MkPrefix (V4 2851995648) 16].

#[export] Instance shorter_total : Total shorter.
Proof. intros p q. unfold shorter. lia. Qed.
#[export] Instance shorter_trans : Transitive shorter.
Proof. intros p q r. unfold shorter. lia. Qed.

Example elements_cover_witness :
  elements (merge_sort shorter) example_prefixes = lit " elements = { 10.0.0.0/8, 169.254.0.0/16 };" /\
  exists kept, (forall i j p q, kept !! i = Some p -> kept !! j = Some q -> i <> j -> disjoint p q) /\
    elements (merge_sort shorter) example_prefixes =
      (if bool_decide (prefix_string <$> kept = []) then [] else lit " elements = { " ++ join (lit ", ") (prefix_string <$> kept) ++ lit " };").
Proof.
  split; [vm_compute; reflexivity|].
  destruct (elements_cover (merge_sort shorter) example_prefixes) as (kept & E & _ & Hd); [apply merge_sort_Permutation| | |].
  - apply (StronglySorted_merge_sort shorter).
  - repeat constructor; cbn; lia.
  - by exists kept.
Defined.

(** An address is listed once, so that its deletion cannot fail the script. *)
Lemma plain_addrs_once addrs : NoDup (plain_addrs addrs) /\
  forall s, s ∈ plain_addrs addrs <-> exists z, V4 z ∈ addrs /\ s = string4 z.
Proof.
  unfold plain_addrs. induction addrs as [|a addrs IH] using rev_ind.
  - cbn. split; [constructor|]. intros s. rewrite elem_of_nil. split; [done|]. by intros (z & ?%elem_of_nil & _).
  - rewrite foldl_snoc. set (plain := foldl _ [] addrs) in *. destruct IH as [Hnd Hin].
    assert (forall s, (exists z, V4 z ∈ addrs ++ [a] /\ s = string4 z) <-> s ∈ plain \/ (exists z, a = V4 z /\ s = string4 z)) as Hs.
    { intros s. rewrite Hin. setoid_rewrite elem_of_app. setoid_rewrite list_elem_of_singleton. naive_solver. }
    destruct (Is4 a && negb (mem (addr_string a) plain)) eqn:E.
    + apply andb_true_iff in E as [H4 Hm]. apply negb_true_iff, mem_false in Hm. destruct a as [z|]; [|done]. cbn [addr_string] in *. split.
      * apply NoDup_app. split_and!; [done| |apply NoDup_singleton]. intros y Hy Hy'. apply list_elem_of_singleton in Hy' as ->. done.
      * intros s. rewrite Hs, elem_of_app, list_elem_of_singleton. naive_solver.
    + split; [done|]. intros s. rewrite Hs. split; [by left|]. intros [?|(z & -> & ->)]; [done|].
      cbn [Is4 andb] in E. by apply negb_false_iff, mem_true in E.
Qed.
