(* ===== verification/NetAlloc.v ===== *)
(** * [internal/runtime]: the addresses of the sandboxes

    netalloc.go, gatewayip.go and sandboxnet.go: one allocator, kept in a
    file, hands out an address on the shared network or a network of its own
    to each sandbox.  A file is what it decodes to; the lock makes each
    operation one step. *)

From stdpp Require Import prelude list strings gmap.
From Stdlib Require Import ZArith Lia ZifyNat Ascii.
From S2P Require Import Prelude GoUnicode GoStrings GoNum GoNetip Divert Nft.

Local Open Scope Z_scope.

(** ** netalloc.go *)

Record netAlloc := MkNetAlloc { na_first : Z; na_last : Z; na_space : gostr; na_unit : gostr }.

(** The file: not there or not decoded, the JSON [null], which decodes to a nil
    map, or a map. *)
Inductive alloc_file := NoFile | NullFile | Assigned (m : gmap gostr Z).

(** [Panicked] is the write of an entry to a nil map. *)
Inductive alloc_error :=
  | LockFailed
  | WriteFailed
  | Panicked
  | SpaceFull (space : gostr) (count : nat) (unit_ : gostr) (names : list gostr).

Definition alloc_read (f : alloc_file) : gmap gostr Z := match f with Assigned m => m | _ => ∅ end.

(** The loop from [first] to [last]; the fuel is the number of slots. *)
Fixpoint free_loop (fuel : nat) (taken : gset Z) (slot : Z) : option Z :=
  match fuel with
  | O => None
  | S k => if bool_decide (slot ∈ taken) then free_loop k taken (slot + 1) else Some slot
  end.

Definition slots (a : netAlloc) : nat := Z.to_nat (na_last a - na_first a + 1).

Definition lowestFree (a : netAlloc) (assigned : gmap gostr Z) : res alloc_error Z :=
  let taken : gset Z := list_to_set (map_to_list assigned).*2 in
  match free_loop (slots a) taken (na_first a) with
  | Some slot => Ok slot
  | None =>
    let names := sort_strings (map_to_list assigned).*1 in
    Err (SpaceFull (na_space a) (length names) (na_unit a) names)
  end.

Definition in_bounds (a : netAlloc) (slot : Z) : bool := (na_first a <=? slot) && (slot <=? na_last a).

(** What the host does during one operation: whether the lock and the write
    of the file succeed. *)
Record host := MkHost { ho_lock : bool; ho_write : bool }.

(** [netAlloc.slot]: the answer, and the file after it. *)
Definition slot (a : netAlloc) (h : host) (name : gostr) (f : alloc_file) : res alloc_error Z * alloc_file :=
  if negb (ho_lock h) then (Err LockFailed, f)
  else
    let assigned := alloc_read f in
    let fresh :=
      match lowestFree a assigned with
      | Err e => (Err e, f)
      | Ok s =>
        match f with
        | NullFile => (Err Panicked, f)
        | _ => if ho_write h then (Ok s, Assigned (<[name := s]> assigned)) else (Err WriteFailed, f)
        end
      end in
    match assigned !! name with
    | Some s => if in_bounds a s then (Ok s, f) else fresh
    | None => fresh
    end.

Definition alloc_lookup (a : netAlloc) (f : alloc_file) (name : gostr) : option Z :=
  match alloc_read f !! name with Some s => if in_bounds a s then Some s else None | None => None end.

Definition release_slot (h : host) (name : gostr) (f : alloc_file) : alloc_file :=
  if negb (ho_lock h) then f
  else
    match alloc_read f !! name with
    | None => f
    | Some _ => if ho_write h then Assigned (delete name (alloc_read f)) else f
    end.

(** ** gatewayip.go and sandboxnet.go *)

Definition gatewaySubnet : gostr := lit "198.18.0.0/24".
Definition gatewayPrefix : Z := 24.
Definition firstGuestHost : Z := 2.
Definition lastGuestHost : Z := 254.

Definition sharedIPs : netAlloc := MkNetAlloc firstGuestHost lastGuestHost (lit "the sandbox network " ++ gatewaySubnet) (lit "addresses").

(** [netip.MustParsePrefix(s).Addr().As4()] with its last octet replaced. *)
Definition with_octet (s : gostr) (b : Z) : Z :=
  match ParsePrefix s with
  | Some p => let z := addr_value (pf_addr p) in z - z mod 256 + b mod 256
  | None => 0
  end.

Definition formatGatewayCIDR (host : Z) : gostr := prefix_string (MkPrefix (V4 (with_octet gatewaySubnet host)) gatewayPrefix).

Definition gatewayCIDR (h : host) (name : gostr) (f : alloc_file) : res alloc_error gostr * alloc_file :=
  let '(r, f) := slot sharedIPs h name f in
  (let? host := r in Ok (formatGatewayCIDR host), f).

Definition isolatedSpace : gostr := lit "198.18.1.0/24".
Definition sandboxNetBits : Z := 30.
Definition sandboxBlockSize : Z := 4.
Definition sandboxNets : Z := 256 / sandboxBlockSize.

Definition isolatedNets : netAlloc := MkNetAlloc 0 (sandboxNets - 1) (lit "the isolated address space " ++ isolatedSpace) (lit "networks").

Definition sandboxNet (h : host) (name : gostr) (f : alloc_file) : res alloc_error Z * alloc_file := slot isolatedNets h name f.

Definition sandboxBase (index : Z) : Z := with_octet isolatedSpace (index * sandboxBlockSize).

(** [nth]: the address some positions on.  [Next] of the last address is the
    zero [Addr], which no block reaches. *)
Definition nth_addr (a n : Z) : Z := a + n.

Definition sandboxSubnet (index : Z) : prefix := MkPrefix (V4 (sandboxBase index)) sandboxNetBits.
Definition sandboxGatewayIP (index : Z) : addr := V4 (nth_addr (sandboxBase index) 1).
Definition sandboxCIDR (index : Z) : prefix := MkPrefix (V4 (nth_addr (sandboxBase index) 2)) sandboxNetBits.

(** ** The slots of a history *)

Definition alloc_valid (a : netAlloc) (m : gmap gostr Z) : Prop :=
  (forall n s, m !! n = Some s -> in_bounds a s = true) /\ (forall n n' s, m !! n = Some s -> m !! n' = Some s -> n = n').

(** The files that brig's own operations lead to, from a host with none. *)
Inductive reached (a : netAlloc) : alloc_file -> Prop :=
  | reached_none : reached a NoFile
  | reached_slot h name f : reached a f -> reached a (slot a h name f).2
  | reached_release h name f : reached a f -> reached a (release_slot h name f).

Lemma free_loop_some fuel taken s0 s : free_loop fuel taken s0 = Some s -> s0 <= s < s0 + Z.of_nat fuel /\ s ∉ taken.
Proof.
  revert s0. induction fuel as [|k IH]; intros s0 H; [done|]. cbn [free_loop] in H. case_bool_decide.
  - apply IH in H as [? ?]. split; [lia|done].
  - injection H as <-. split; [lia|done].
Qed.

Lemma free_loop_none fuel taken s0 : free_loop fuel taken s0 = None -> forall s, s0 <= s < s0 + Z.of_nat fuel -> s ∈ taken.
Proof.
  revert s0. induction fuel as [|k IH]; intros s0 H s Hs; [lia|]. cbn [free_loop] in H. case_bool_decide; [|done].
  destruct (decide (s = s0)) as [->|]; [done|]. apply (IH _ H). lia.
Qed.

Lemma taken_elem (m : gmap gostr Z) s : s ∈ (list_to_set (map_to_list m).*2 : gset Z) <-> exists n, m !! n = Some s.
Proof.
  rewrite elem_of_list_to_set, list_elem_of_fmap. split.
  - intros ([n s'] & -> & H%elem_of_map_to_list). by exists n.
  - intros [n H]. exists (n, s). split; [done|]. by apply elem_of_map_to_list.
Qed.

Lemma in_bounds_slots a s : in_bounds a s = true <-> na_first a <= s < na_first a + Z.of_nat (slots a).
Proof. unfold in_bounds, slots. rewrite andb_true_iff, !Z.leb_le. lia. Qed.

Lemma lowestFree_spec a m :
  match lowestFree a m with
  | Ok s => in_bounds a s = true /\ forall n, m !! n <> Some s
  | Err e => (exists names, e = SpaceFull (na_space a) (length names) (na_unit a) names) /\ forall s, in_bounds a s = true -> exists n, m !! n = Some s
  end.
Proof.
  unfold lowestFree. destruct (free_loop _ _ _) as [s|] eqn:E.
  - apply free_loop_some in E as [Hs Hn]. split; [by apply in_bounds_slots|]. intros n H. apply Hn, taken_elem. by exists n.
  - split; [by eexists|]. intros s Hs%in_bounds_slots. apply taken_elem. by apply (free_loop_none _ _ _ E).
Qed.

(** What one [slot] does to the map, on a file that is not [null]. *)
Lemma slot_spec a h name f : f <> NullFile ->
  let '(r, f') := slot a h name f in
  match r with
  | Ok s =>
    in_bounds a s = true /\ alloc_read f' !! name = Some s /\
    ((f' = f /\ alloc_read f !! name = Some s) \/
     (f' = Assigned (<[name := s]> (alloc_read f)) /\ (forall n, alloc_read f !! n <> Some s)))
  | Err (SpaceFull _ _ _ _) => f' = f /\ forall s, in_bounds a s = true -> exists n, alloc_read f !! n = Some s
  | Err Panicked => False
  | Err _ => f' = f
  end.
Proof.
  intros Hf. unfold slot. destruct (negb (ho_lock h)); [done|].
  pose proof (lowestFree_spec a (alloc_read f)) as Hl.
  assert (let '(r, f') := match lowestFree a (alloc_read f) with
    | Err e => (Err e, f)
    | Ok s => match f with NullFile => (Err Panicked, f)
              | _ => if ho_write h then (Ok s, Assigned (<[name := s]> (alloc_read f))) else (Err WriteFailed, f) end
    end in
    match r with
    | Ok s => in_bounds a s = true /\ alloc_read f' !! name = Some s /\
      ((f' = f /\ alloc_read f !! name = Some s) \/ (f' = Assigned (<[name := s]> (alloc_read f)) /\ (forall n, alloc_read f !! n <> Some s)))
    | Err (SpaceFull _ _ _ _) => f' = f /\ forall s, in_bounds a s = true -> exists n, alloc_read f !! n = Some s
    | Err Panicked => False
    | Err _ => f' = f
    end) as Hfresh.
  { destruct (lowestFree a (alloc_read f)) as [s|e].
    - destruct Hl as [Hb Hn]. destruct f; [|done|]; (destruct (ho_write h); [|done]); (split_and!; [done|cbn [alloc_read]; by rewrite lookup_insert_eq|by right]).
    - by destruct Hl as [[names ->] Hl]. }
  destruct (alloc_read f !! name) as [s|] eqn:En; [|exact Hfresh].
  destruct (in_bounds a s) eqn:Hb; [|exact Hfresh]. split_and!; [done|done|by left].
Qed.

Lemma reached_valid a f : reached a f -> f <> NullFile /\ alloc_valid a (alloc_read f).
Proof.
  induction 1 as [|h name f _ [Hf [Hb Hi]]|h name f _ [Hf [Hb Hi]]].
  - split; [done|]. split; intros n; intros *; cbn; by rewrite lookup_empty.
  - pose proof (slot_spec a h name f Hf) as Hs. destruct (slot a h name f) as [r f']. cbn [snd].
    assert (f' = f \/ exists s, in_bounds a s = true /\ f' = Assigned (<[name := s]> (alloc_read f)) /\ forall n, alloc_read f !! n <> Some s) as [->|(s & Hs1 & -> & Hs2)].
    { destruct r as [s|[]]; try tauto. destruct Hs as (? & _ & [[? _]|[? ?]]); [by left|right; by exists s]. }
    + done.
    + split; [done|]. cbn [alloc_read]. split.
      * intros n t. destruct (decide (name = n)) as [<-|]; [rewrite lookup_insert_eq; by intros [= <-]|rewrite lookup_insert_ne by done; apply Hb].
      * intros n n' t. destruct (decide (name = n)) as [<-|]; destruct (decide (name = n')) as [<-|];
          rewrite ?lookup_insert_eq, ?lookup_insert_ne by done; try done.
        -- intros [= <-] H. by apply Hs2 in H.
        -- intros H [= <-]. by apply Hs2 in H.
        -- apply Hi.
  - unfold release_slot. destruct (negb (ho_lock h)); [done|]. destruct (alloc_read f !! name); [|done]. destruct (ho_write h); [|done].
    split; [done|]. cbn [alloc_read]. split.
    + intros n t [_ H]%lookup_delete_Some. by apply (Hb n).
    + intros n n' t [_ H]%lookup_delete_Some [_ H']%lookup_delete_Some. by apply (Hi n n' t).
Qed.

(** The allocator never gives two sandboxes one slot.  After any history of
    boots and removals, in any order and whatever writes failed, a boot that
    gets a slot has one in bounds that no other sandbox has, keeps the one it
    had, and leaves every other sandbox where it was; it is refused as full
    only when every slot is taken, and a failed boot changes nothing. *)
Lemma slot_exclusive (a : netAlloc) (h : host) (name : gostr) (f : alloc_file) (Hf : reached a f) :
  let '(r, f') := slot a h name f in
  (forall n, n <> name -> alloc_read f' !! n = alloc_read f !! n) /\
  match r with
  | Ok s =>
    in_bounds a s = true /\ alloc_lookup a f' name = Some s /\ (forall n, alloc_lookup a f' n = Some s -> n = name) /\
    (forall t, alloc_lookup a f name = Some t -> s = t)
  | Err (SpaceFull _ _ _ _) => f' = f /\ forall s, in_bounds a s = true -> exists n, alloc_lookup a f n = Some s
  | Err e => f' = f /\ (e = LockFailed \/ e = WriteFailed)
  end.
Proof.
  destruct (reached_valid a f Hf) as [Hnull _]. pose proof (reached_valid a _ (reached_slot a h name f Hf)) as [_ [Hb' Hi']].
  pose proof (slot_spec a h name f Hnull) as Hs.
  destruct (slot a h name f) as [r f'] eqn:E. cbn [snd] in *. destruct r as [s|e].
  - destruct Hs as (Hb & Hn & Hor). split.
    + intros n Hne. destruct Hor as [[-> _]|[-> _]]; [done|]. cbn [alloc_read]. by rewrite lookup_insert_ne.
    + unfold alloc_lookup. rewrite Hn, Hb. split_and!; [done|done| |].
      * intros n H. destruct (alloc_read f' !! n) as [t|] eqn:En; [|done]. destruct (in_bounds a t); [|done]. injection H as ->. by apply (Hi' n name s).
      * intros t H. destruct Hor as [[_ Ht]|[_ Hno]]; [rewrite Ht, Hb in H; by injection H|].
        clear -E H Hno. unfold slot in E. destruct (negb (ho_lock h)); [done|]. destruct (alloc_read f !! name) as [u|] eqn:Eu; [|done].
        destruct (in_bounds a u) eqn:Ebu; [|done]. injection H as <-. injection E as <- _. by apply Hno in Eu.
  - destruct e; try (subst f'; split; [done|]; split; [done|tauto]); [done|].
    destruct Hs as [-> Hall]. split; [done|]. split; [done|]. intros s Hs. destruct (Hall s Hs) as [n Hn]. exists n.
    unfold alloc_lookup. by rewrite Hn, Hs.
Qed.

(** ** The networks of the slots *)

Lemma isolated_base : with_octet isolatedSpace 0 = 3323068672.
Proof. reflexivity. Qed.

Lemma sandboxBase_value i : 0 <= i < sandboxNets -> sandboxBase i = 3323068672 + 4 * i.
Proof.
  intros Hi. change sandboxNets with 64 in Hi. pose proof isolated_base as E. unfold sandboxBase, with_octet in *.
  destruct (ParsePrefix isolatedSpace) as [p|]; [|discriminate E]. change sandboxBlockSize with 4. rewrite (Z.mod_small (i * 4)) by lia. rewrite Z.mod_0_l in E by lia. lia.
Qed.

Lemma sandboxSubnet_contains i x : 0 <= i < sandboxNets ->
  Contains (sandboxSubnet i) (V4 x) = true <-> 3323068672 + 4 * i <= x < 3323068672 + 4 * i + 4.
Proof.
  intros Hi. unfold sandboxSubnet, Contains. cbn [pf_addr pf_bits]. rewrite sandboxBase_value by done. change (32 - sandboxNetBits) with 2.
  rewrite !Z.shiftr_div_pow2, Z.eqb_eq by lia. change (2 ^ 2) with 4.
  replace ((3323068672 + 4 * i) / 4) with (830767168 + i) by (rewrite <- (Z.div_mul (830767168 + i) 4) by lia; f_equal; lia).
  pose proof (Z.div_mod x 4). pose proof (Z.mod_pos_bound x 4). lia.
Qed.

Definition isolated_space : prefix := MkPrefix (V4 3323068672) 24.
Definition shared_space : prefix := MkPrefix (V4 3323068416) 24.

Lemma spaces_parse : ParsePrefix isolatedSpace = Some isolated_space /\ ParsePrefix gatewaySubnet = Some shared_space.
Proof. split; reflexivity. Qed.

(** The networks of isolated sandboxes never meet.  For two sandboxes that
    have slots after any history, no address is in both their networks; each
    network holds its guest and its gateway, which differ; and every address
    of it is in brig's space for them and outside of the shared network. *)
Lemma isolated_networks_disjoint (f : alloc_file) (n m : gostr) (i j x : Z) (Hf : reached isolatedNets f)
    (Hn : alloc_lookup isolatedNets f n = Some i) (Hm : alloc_lookup isolatedNets f m = Some j) :
  (n <> m -> Contains (sandboxSubnet i) (V4 x) = true -> Contains (sandboxSubnet j) (V4 x) = false) /\
  Contains (sandboxSubnet i) (pf_addr (sandboxCIDR i)) = true /\ Contains (sandboxSubnet i) (sandboxGatewayIP i) = true /\
  pf_addr (sandboxCIDR i) <> sandboxGatewayIP i /\
  (Contains (sandboxSubnet i) (V4 x) = true -> Contains isolated_space (V4 x) = true /\ Contains shared_space (V4 x) = false).
Proof.
  destruct (reached_valid _ f Hf) as [_ [_ Hinj]].
  assert (forall n i, alloc_lookup isolatedNets f n = Some i -> alloc_read f !! n = Some i /\ 0 <= i < sandboxNets) as Hl.
  { intros n' i' H. unfold alloc_lookup in H. destruct (alloc_read f !! n') as [s|]; [|done]. destruct (in_bounds isolatedNets s) eqn:E; [|done].
    injection H as ->. split; [done|]. apply andb_true_iff in E as [E1%Z.leb_le E2%Z.leb_le]. change sandboxNets with 64. change (na_first isolatedNets) with 0 in E1. change (na_last isolatedNets) with 63 in E2. lia. }
  apply Hl in Hn as [Hn Hi], Hm as [Hm Hj]. clear Hl Hf. split_and!.
  - intros Hne Hx%sandboxSubnet_contains; [|done]. apply not_true_iff_false. intros Hy%sandboxSubnet_contains; [|done].
    apply Hne, (Hinj n m i); [done|]. rewrite Hm. f_equal. lia.
  - apply sandboxSubnet_contains; [done|]. rewrite sandboxBase_value by done. unfold nth_addr. lia.
  - apply sandboxSubnet_contains; [done|]. rewrite sandboxBase_value by done. unfold nth_addr. lia.
  - unfold sandboxCIDR, sandboxGatewayIP, nth_addr. cbn [pf_addr]. intros [= H]. lia.
  - intros Hx%sandboxSubnet_contains; [|done]. change sandboxNets with 64 in Hi. unfold Contains, isolated_space, shared_space. cbn [pf_addr pf_bits].
    change (32 - 24) with 8. rewrite Z.eqb_eq, Z.eqb_neq, !Z.shiftr_div_pow2 by lia. change (2 ^ 8) with 256.
    change (3323068672 / 256) with 12980737. change (3323068416 / 256) with 12980736. pose proof (Z.div_mod x 256). pose proof (Z.mod_pos_bound x 256). lia.
Qed.

(** The [null] file stops brig. *)
Lemma slot_null_panics : (slot isolatedNets (MkHost true true) (lit "box") NullFile).1 = Err Panicked.
Proof. vm_compute. reflexivity. Qed.

(** ** Two boots and a removal *)

Definition ok_host : host := MkHost true true.
Definition two_boots : alloc_file := (slot isolatedNets ok_host (lit "b") (slot isolatedNets ok_host (lit "a") NoFile).2).2.

Lemma two_boots_reached : reached isolatedNets two_boots.
Proof. apply reached_slot, reached_slot, reached_none. Qed.

Example slot_exclusive_witness :
  alloc_lookup isolatedNets (slot isolatedNets ok_host (lit "c") two_boots).2 (lit "c") = Some 2.
Proof.
  pose proof (slot_exclusive isolatedNets ok_host (lit "c") two_boots two_boots_reached) as H.
  assert ((slot isolatedNets ok_host (lit "c") two_boots).1 = Ok 2) as E by (vm_compute; reflexivity).
  destruct (slot isolatedNets ok_host (lit "c") two_boots) as [r f']. cbn [fst] in E. subst r. destruct H as (_ & _ & H & _). exact H.
Defined.

Example isolated_networks_disjoint_witness :
  Contains (sandboxSubnet 0) (V4 3323068674) = true /\ Contains (sandboxSubnet 1) (V4 3323068674) = false.
Proof.
  destruct (isolated_networks_disjoint two_boots (lit "a") (lit "b") 0 1 3323068674 two_boots_reached
    ltac:(vm_compute; reflexivity) ltac:(vm_compute; reflexivity)) as [H _].
  assert (Contains (sandboxSubnet 0) (V4 3323068674) = true) as Hx by (vm_compute; reflexivity).
  split; [exact Hx|]. apply H; [discriminate|exact Hx].
Defined.
