(* ===== verification/Publish.v ===== *)
(** * [internal/runtime]: the ports that a sandbox publishes

    publish.go and published.go, with [mergePublications] of
    [internal/wrap/network.go]: the grammar of a published port, what competes
    for a listener on the host, and the record of what each sandbox
    publishes. *)

From stdpp Require Import prelude list strings gmap sorting.
From Stdlib Require Import ZArith Lia ZifyNat Ascii.
From S2P Require Import Prelude GoUnicode GoStrings GoNum GoNetip Divert Nft NetAlloc.

Local Open Scope Z_scope.

(** ** publish.go *)

Record Publication := MkPublication { pb_protocol : gostr; pb_hostAddr : gostr; pb_hostPort : Z; pb_guestPort : Z }.

#[export] Instance Publication_eq_dec : EqDecision Publication.
Proof. solve_decision. Defined.

Definition loopback : gostr := lit "127.0.0.1".
Definition tcp : gostr := lit "tcp".
Definition udp : gostr := lit "udp".

Definition Addr (p : Publication) : gostr := if bool_decide (pb_hostAddr p = []) then loopback else pb_hostAddr p.
Definition Proto (p : Publication) : gostr := if bool_decide (pb_protocol p = []) then tcp else pb_protocol p.
Definition Local_ (p : Publication) : gostr := Addr p ++ lit ":" ++ itoa (pb_hostPort p).
Definition Remote (p : Publication) (guestIP : gostr) : gostr := guestIP ++ lit ":" ++ itoa (pb_guestPort p).
Definition Addressed (p : Publication) : bool := negb (bool_decide (pb_hostAddr p = [])).

Definition same_port (p q : Publication) : bool := bool_decide (Proto p = Proto q) && (pb_hostPort p =? pb_hostPort q).

Definition Matches (p q : Publication) : bool := same_port p q && (negb (Addressed q) || bool_decide (Addr p = Addr q)).
Definition Same (p q : Publication) : bool :=
  bool_decide (Proto p = Proto q) && bool_decide (Addr p = Addr q) && (pb_hostPort p =? pb_hostPort q).

(** [netip.Addr.IsUnspecified]. *)
Definition is_unspecified (a : addr) : bool := bool_decide (a = V4 0) || bool_decide (a = V6 0 []).
Definition unspecified (a : gostr) : bool := match ParseAddr a with Some a => is_unspecified a | None => false end.

Definition Overlaps (p q : Publication) : bool :=
  same_port p q && (bool_decide (Addr p = Addr q) || unspecified (Addr p) || unspecified (Addr q)).

Definition String_pub (p : Publication) : gostr :=
  let s := Addr p ++ lit ":" ++ itoa (pb_hostPort p) ++ lit ":" ++ itoa (pb_guestPort p) in
  if bool_decide (Proto p = tcp) then s else s ++ lit "/" ++ Proto p.

Definition Line (p : Publication) : gostr :=
  let line := Addr p ++ lit ":" ++ itoa (pb_hostPort p) ++ lit " -> " ++ itoa (pb_guestPort p) in
  let line := if bool_decide (Proto p = tcp) then line else line ++ lit "/" ++ Proto p in
  if bool_decide (Addr p = loopback) then line else line ++ lit " (reachable from the network this host is on)".

Inductive publish_error :=
  | EmptyPort
  | NotAProtocol (s proto : gostr)
  | NotAHostAddress (s a : gostr)
  | NotAMapping (s : gostr)
  | NotAPort (s : gostr) (host : bool) (raw : gostr)
  | BothWant (have p : Publication) (listener : gostr).

Definition port_number (s : gostr) (host : bool) (raw : gostr) : res publish_error Z :=
  match parse_int 64 raw with
  | Some n => if (n <? 1) || (65535 <? n) then Err (NotAPort s host raw) else Ok n
  | None => Err (NotAPort s host raw)
  end.

(** The parts of the mapping: the host address, the host port and the guest
    port. *)
Definition mapping_parts (s : gostr) (hostSide : bool) (spec : gostr) : res publish_error (gostr * gostr * gostr) :=
  match split_byte ":"%char spec with
  | [a] => Ok ([], a, a)
  | [a; b] => if hostSide && negb (is_nil (ParseAddr a)) then Ok (a, b, b) else Ok ([], a, b)
  | [a; b; c] => if is_nil (ParseAddr a) then Err (NotAHostAddress s a) else Ok (a, b, c)
  | _ => Err (NotAMapping s)
  end.

Definition parsePublication (s : gostr) (hostSide : bool) : res publish_error Publication :=
  let spec := trim_space s in
  if bool_decide (spec = []) then Err EmptyPort
  else
    let '(rest, proto, ok) := cut spec (lit "/") in
    let spec := if (ok : bool) then rest else spec in
    let protocol := if ok then to_lower proto else [] in
    if ok && negb (bool_decide (protocol = tcp)) && negb (bool_decide (protocol = udp)) then Err (NotAProtocol s proto)
    else
      let? parts := mapping_parts s hostSide spec in
      let '(a, hostPort, guestPort) := parts in
      let? h := port_number s true hostPort in
      let? g := port_number s false guestPort in
      Ok (MkPublication protocol a h g).

Definition ParsePublication (s : gostr) : res publish_error Publication := parsePublication s false.
Definition ParseHostSide (s : gostr) : res publish_error Publication := parsePublication s true.

(** The check of one against those before it. *)
Fixpoint first_conflict (out : list Publication) (p : Publication) : option publish_error :=
  match out with
  | [] => None
  | have :: out' =>
    if Overlaps have p then Some (BothWant have p (if unspecified (Addr have) then Local_ have else Local_ p)) else first_conflict out' p
  end.

Fixpoint parse_loop (parse : gostr -> res publish_error Publication) (out : list Publication) (specs : list gostr)
    : res publish_error (list Publication) :=
  match specs with
  | [] => Ok out
  | s :: specs' =>
    let? p := parse s in
    match first_conflict out p with Some e => Err e | None => parse_loop parse (out ++ [p]) specs' end
  end.

Definition ParsePublications (specs : list gostr) : res publish_error (list Publication) := parse_loop ParsePublication [] specs.
Definition ParseHostSides (specs : list gostr) : res publish_error (list Publication) := parse_loop ParseHostSide [] specs.

(** ** published.go *)

(** The file: not there, not readable, the JSON [null], which decodes to a nil
    map, or a map. *)
Inductive published_file := PubNone | PubUnreadable (e : gostr) | PubNull | PubMap (m : gmap gostr (list Publication)).

Inductive record_error := RecordLock | RecordRead (e : gostr) | RecordWrite | RecordPanicked.

Definition readPublished (f : published_file) : res record_error (gmap gostr (list Publication)) :=
  match f with PubNone | PubNull => Ok ∅ | PubUnreadable e => Err (RecordRead e) | PubMap m => Ok m end.

Definition nonempty_pubs (l : list Publication) : option (list Publication) := match l with [] => None | _ => Some l end.

(** What [writePublished] keeps: no empty list. *)
Definition written_record (all : gmap gostr (list Publication)) : published_file := PubMap (omap nonempty_pubs all).

Definition pub_le (p q : Publication) : Prop :=
  if decide (pb_hostPort p = pb_hostPort q) then str_le (Proto p) (Proto q) else pb_hostPort p <= pb_hostPort q.
#[export] Instance pub_le_dec : RelDecision pub_le.
Proof. intros p q. unfold pub_le. destruct (decide _); apply _. Defined.

Definition Publications (f : published_file) (name : gostr) : res record_error (list Publication) :=
  let? all := readPublished f in Ok (merge_sort pub_le (default [] (all !! name))).

(** The loop that lays one publication over a list: the first that it competes
    with is replaced. *)
Fixpoint lay_over (have : list Publication) (p : Publication) : list Publication :=
  match have with
  | [] => [p]
  | q :: have' => if Overlaps q p then p :: have' else q :: lay_over have' p
  end.

(** [mergePublications]; [RecordPublications] has the same loop. *)
Definition mergePublications (have asked : list Publication) : list Publication := foldl lay_over have asked.

(** An update of the record of one sandbox: a nil map takes no entry. *)
Definition update_record (h : host) (f : published_file) (k : gmap gostr (list Publication) -> gmap gostr (list Publication))
    : res record_error unit * published_file :=
  match f with
  | PubNull => (Err RecordPanicked, f)
  | _ =>
    match readPublished f with
    | Err e => (Err e, f)
    | Ok all => if ho_write h then (Ok tt, written_record (k all)) else (Err RecordWrite, f)
    end
  end.

Definition RecordPublications (h : host) (f : published_file) (name : gostr) (add : list Publication)
    : res record_error (list Publication) * published_file :=
  if negb (ho_lock h) then (Err RecordLock, f)
  else
    match readPublished f with
    | Err e => (Err e, f)
    | Ok all =>
      let have := mergePublications (default [] (all !! name)) add in
      let '(r, f) := update_record h f (insert name have) in
      ((let? _ := r in Ok have), f)
    end.

Definition containsSame (set : list Publication) (p : Publication) : bool := existsb (fun q => Same q p) set.

Definition ForgetSomePublications (h : host) (f : published_file) (name : gostr) (drop : list Publication)
    : res record_error (list Publication * list Publication) * published_file :=
  if negb (ho_lock h) then (Err RecordLock, f)
  else
    match readPublished f with
    | Err e => (Err e, f)
    | Ok all =>
      let '(kept, gone) := foldl (fun '(kept, gone) p => if containsSame drop p then (kept, gone ++ [p]) else (kept ++ [p], gone))
                             ([], []) (default [] (all !! name)) in
      let '(r, f) := update_record h f (insert name kept) in
      ((let? _ := r in Ok (kept, gone)), f)
    end.

(** The removals write to the file only when they drop something, and no error
    of theirs is reported. *)
Definition ForgetPublications (h : host) (f : published_file) (name : gostr) : published_file :=
  if negb (ho_lock h) then f
  else match readPublished f with
       | Ok all => match all !! name with Some _ => if ho_write h then written_record (delete name all) else f | None => f end
       | Err _ => f
       end.

Definition PrunePublications (h : host) (f : published_file) (keep : list gostr) : published_file :=
  if negb (ho_lock h) then f
  else match readPublished f with
       | Ok all =>
         let kept := filter (fun e : gostr * list Publication => e.1 ∈ keep) all in
         if bool_decide (kept = all) then f else if ho_write h then written_record kept else f
       | Err _ => f
       end.

(** [sandboxAt]: the first record of either allocator at an address. *)
Definition sandboxAt (ip : gostr) (shared isolated : alloc_file) : gostr :=
  match ParseAddr ip with
  | None => []
  | Some a =>
    let named (f : alloc_file) (cidr : Z -> gostr) (bits : Z) :=
      List.find (fun e : gostr * Z => bool_decide (cidr e.2 = prefix_string (MkPrefix (no_zone a) bits))) (map_to_list (alloc_read f)) in
    match named shared formatGatewayCIDR gatewayPrefix with
    | Some e => e.1
    | None => match named isolated (fun i => prefix_string (sandboxCIDR i)) sandboxNetBits with Some e => e.1 | None => [] end
    end
  end.

(** ** What competes for a listener *)

Definition apart (l : list Publication) : Prop := ForallOrdPairs (fun p q => Overlaps p q = false) l.

Lemma Overlaps_sym p q : Overlaps p q = Overlaps q p.
Proof.
  unfold Overlaps, same_port. rewrite (Z.eqb_sym (pb_hostPort p)).
  rewrite (bool_decide_ext (Proto p = Proto q) (Proto q = Proto p)), (bool_decide_ext (Addr p = Addr q) (Addr q = Addr p)) by (split; congruence).
  f_equal. rewrite <- !orb_assoc. f_equal. apply orb_comm.
Qed.

Lemma Overlaps_true p q : Overlaps p q = true <->
  (Proto p = Proto q /\ pb_hostPort p = pb_hostPort q) /\ (Addr p = Addr q \/ unspecified (Addr p) = true \/ unspecified (Addr q) = true).
Proof. unfold Overlaps, same_port. rewrite !andb_true_iff, !orb_true_iff, !bool_decide_eq_true, Z.eqb_eq. tauto. Qed.

(** What competes with one listener of a single address competes with every
    other that does. *)
Lemma Overlaps_trans q p r : unspecified (Addr p) = false -> Overlaps q p = true -> Overlaps p r = true -> Overlaps q r = true.
Proof.
  rewrite !Overlaps_true. intros Hp [[-> ->] H1] [[-> ->] H2]. split; [done|]. rewrite Hp in *.
  destruct H1 as [->|[?|?]]; [|by right; left|done]. destruct H2 as [->|[?|?]]; [by left|done|by right; right].
Qed.

Lemma lay_over_elem have p r : r ∈ lay_over have p -> r ∈ have \/ r = p.
Proof.
  induction have as [|q have IH]; cbn [lay_over]; [intros ->%list_elem_of_singleton; by right|].
  destruct (Overlaps q p).
  - intros [->|?]%elem_of_cons; [by right|left; by right].
  - intros [->|?%IH]%elem_of_cons; [left; by left|]. destruct H; [left; by right|by right].
Qed.

Lemma lay_over_has have p : p ∈ lay_over have p.
Proof. induction have as [|q have IH]; cbn [lay_over]; [by left|]. destruct (Overlaps q p); [by left|by right]. Qed.

Lemma lay_over_keeps have p q : q ∈ have -> Overlaps q p = false -> q ∈ lay_over have p.
Proof.
  induction have as [|x have IH]; [by intros ?%elem_of_nil|]. cbn [lay_over]. intros [->|Hin]%elem_of_cons H.
  - rewrite H. by left.
  - destruct (Overlaps x p); right; [done|by apply IH].
Qed.

Lemma lay_over_apart have p : apart have -> unspecified (Addr p) = false -> apart (lay_over have p).
Proof.
  intros H Hp. induction H as [|q have Hq Hh IH]; cbn [lay_over]; [repeat constructor|]. destruct (Overlaps q p) eqn:E.
  - constructor; [|done]. apply List.Forall_forall. intros r Hr. apply not_true_iff_false. intros Hpr.
    pose proof (proj1 (List.Forall_forall _ _) Hq r Hr). pose proof (Overlaps_trans q p r Hp E Hpr). congruence.
  - constructor; [|done]. apply List.Forall_forall. intros r [Hr| ->]%list_elem_of_In%lay_over_elem; [|done].
    by apply (proj1 (List.Forall_forall _ _) Hq), list_elem_of_In.
Qed.

(** What a sandbox will offer is what it offers with what a command asks
    laid over it.  When the asked ports name one address each and do not
    compete, all of them are in the merged set, so is every port that competes
    with none of them, nothing else is, and no two of the set compete for a
    listener. *)
Lemma mergePublications_apart (have asked : list Publication) (Hh : apart have) (Ha : apart asked)
    (Hs : Forall (fun p => unspecified (Addr p) = false) asked) :
  let merged := mergePublications have asked in
  apart merged /\ (forall p, p ∈ asked -> p ∈ merged) /\
  (forall q, q ∈ have -> (forall p, p ∈ asked -> Overlaps q p = false) -> q ∈ merged) /\
  (forall r, r ∈ merged -> r ∈ have \/ r ∈ asked).
Proof.
  cbv zeta. unfold mergePublications. revert have Hh. induction Ha as [|p asked Hp Ha IH]; intros have Hh; cbn [foldl].
  - split_and!; [done|by intros p ?%elem_of_nil|done|by left].
  - apply Forall_cons in Hs as [Hsp Hs]. destruct (IH Hs (lay_over have p) (lay_over_apart _ _ Hh Hsp)) as (H1 & H2 & H3 & H4).
    split_and!; [done| | |].
    + intros r [->|Hr]%elem_of_cons; [|by apply H2]. apply H3; [apply lay_over_has|]. intros q Hq.
      by apply (proj1 (List.Forall_forall _ _) Hp), list_elem_of_In.
    + intros q Hq Hno. apply H3; [apply lay_over_keeps; [done|]; apply Hno; by left|]. intros p' Hp'. apply Hno. by right.
    + intros r [Hr|Hr]%H4; [|right; by right]. apply lay_over_elem in Hr as [?| ->]; [by left|right; by left].
Qed.

(** A port on every address takes the place of only the first that it competes
    with. *)
Definition two_addresses : list Publication := [MkPublication [] (lit "10.0.0.5") 8080 80; MkPublication [] (lit "10.0.0.6") 8080 81].
Definition everywhere : Publication := MkPublication [] (lit "0.0.0.0") 8080 80.

Example merge_competes :
  mergePublications two_addresses [everywhere] = [everywhere; MkPublication [] (lit "10.0.0.6") 8080 81] /\
  Overlaps everywhere (MkPublication [] (lit "10.0.0.6") 8080 81) = true.
Proof. split; vm_compute; reflexivity. Qed.

(** ** The grammar *)

Definition plain_text (s : gostr) : Prop := Forall (fun c => is_ascii c = true /\ rune_space (bz c) = false) s.

Lemma trim_space_plain s : plain_text s -> trim_space s = s.
Proof.
  intros H. unfold trim_space. assert (trim_left rune_space s = s) as ->.
  { destruct s as [|c s]; [done|]. apply Forall_cons in H as [[Ha Hc] _]. unfold trim_left. cbn [length trim_left_fuel].
    by rewrite decode_rune_ascii, Hc. }
  destruct s as [|c s] using rev_ind; [done|]. unfold trim_right. rewrite length_app. cbn [length]. rewrite Nat.add_1_r.
  assert (trim_right_fuel (S (length s)) rune_space (s ++ [c]) = let '(r, n) := last_rune (s ++ [c]) in
    if rune_space r then trim_right_fuel (length s) rune_space (take (length (s ++ [c]) - n) (s ++ [c])) else s ++ [c]) as -> by (by destruct s).
  rewrite last_rune_ascii by (eapply Forall_impl; [exact H|by intros ? []]).
  apply Forall_app in H as [_ H]. apply Forall_cons in H as [[_ ->] _]. done.
Qed.

(** A publication as the grammar makes it. *)
Definition pub_ok (p : Publication) : Prop :=
  1 <= pb_hostPort p <= 65535 /\ 1 <= pb_guestPort p <= 65535 /\ (pb_protocol p = [] \/ pb_protocol p = tcp \/ pb_protocol p = udp) /\
  (pb_hostAddr p = [] \/ exists z, ParseAddr (pb_hostAddr p) = Some (V4 z)).

Lemma addr_kind_in s c : addr_kind s = Some c -> c ∈ s.
Proof.
  induction s as [|d s IH]; [done|]. cbn [addr_kind]. destruct (_ || _ || _); [intros [= ->]; by left|]. intros H. right. by apply IH.
Qed.

Lemma ParseAddr_no_colon s a : ":"%char ∉ s -> ParseAddr s = Some a -> exists z, a = V4 z.
Proof.
  intros Hs. unfold ParseAddr. destruct (addr_kind s) as [c|] eqn:E; [|done]. apply addr_kind_in in E.
  destruct (Ascii.eqb c "."); [destruct (parse_ipv4 s) as [z|]; [intros [= <-]; by exists z|done]|].
  destruct (Ascii.eqb_spec c ":") as [->|]; done.
Qed.

Lemma port_number_ok s host raw n : port_number s host raw = Ok n -> 1 <= n <= 65535.
Proof. unfold port_number. destruct (parse_int 64 raw) as [m|]; [|done]. case_if; [done|]. intros [= <-]. lia. Qed.

Lemma mapping_parts_ok s hostSide spec a h g : mapping_parts s hostSide spec = Ok (a, h, g) ->
  a = [] \/ exists z, ParseAddr a = Some (V4 z).
Proof.
  unfold mapping_parts. pose proof (split_byte_no_sep ":"%char spec) as Hn. destruct (split_byte ":"%char spec) as [|x [|y [|w [|]]]]; try done.
  - intros [= <- _ _]. by left.
  - apply Forall_cons in Hn as [Hx _]. destruct hostSide; cbn [andb]; [|intros [= <- _ _]; by left].
    destruct (ParseAddr x) as [b|] eqn:E; cbn [is_nil negb]; intros [= <- _ _]; [|by left].
    right. destruct (ParseAddr_no_colon x b Hx E) as [z ->]. by exists z.
  - apply Forall_cons in Hn as [Hx _]. destruct (ParseAddr x) as [b|] eqn:E; cbn [is_nil]; [|done]. intros [= <- _ _].
    right. destruct (ParseAddr_no_colon x b Hx E) as [z ->]. by exists z.
Qed.

Lemma parsePublication_ok s hostSide p : parsePublication s hostSide = Ok p -> pub_ok p.
Proof.
  unfold parsePublication. case_bool_decide as Hne; [done|]. destruct (cut _ _) as [[rest proto] ok].
  destruct (ok && _ && _) eqn:Ep; [done|]. intros (parts & Hm & H)%res_bind_ok. destruct parts as [[a hp] gp].
  apply res_bind_ok in H as (h & Hh & H). apply res_bind_ok in H as (g & Hg & [= <-]).
  apply port_number_ok in Hh, Hg. apply mapping_parts_ok in Hm. unfold pub_ok. cbn. split_and!; try lia; [|done].
  destruct ok; [|by left]. right. cbn [andb] in Ep. apply andb_false_iff in Ep as [Ep|Ep]; apply negb_false_iff, bool_decide_eq_true in Ep; auto.
Qed.

(** The text of a publication. *)
Lemma itoa_utoa n : 0 <= n -> itoa n = utoa n.
Proof. intros H. unfold itoa. destruct (Z.ltb_spec n 0); [lia|done]. Qed.

Definition mapping_byte (c : byte) : Prop := is_digit c = true \/ c = "."%char \/ c = ":"%char.

Lemma mapping_byte_plain c : mapping_byte c -> (is_ascii c = true /\ rune_space (bz c) = false) /\ c <> "/"%char.
Proof. intros [H|[-> | ->]]; [|done..]. revert H. by destruct c as [[] [] [] [] [] [] [] []]; vm_compute. Qed.

Lemma mapping_text_bytes a h g : Forall (fun c => is_digit c = true \/ c = "."%char) a -> 0 <= h -> 0 <= g ->
  Forall mapping_byte (a ++ lit ":" ++ utoa h ++ lit ":" ++ utoa g).
Proof.
  intros Ha Hh Hg. assert (forall n, 0 <= n -> Forall mapping_byte (utoa n)) as Hn
    by (intros n Hn; eapply Forall_impl; [by apply utoa_digits|]; intros c Hc; by left).
  assert (Forall mapping_byte (lit ":")) as Hc by (constructor; [by right; right|constructor]).
  rewrite !Forall_app. split_and!; auto. eapply Forall_impl; [exact Ha|]. intros c [?|?]; [by left|by right; left].
Qed.

Lemma mapping_text_split a h g : Forall (fun c => is_digit c = true \/ c = "."%char) a -> 0 <= h -> 0 <= g ->
  split_byte ":"%char (a ++ lit ":" ++ utoa h ++ lit ":" ++ utoa g) = [a; utoa h; utoa g].
Proof.
  intros Ha Hh Hg. change (a ++ lit ":" ++ utoa h ++ lit ":" ++ utoa g) with (a ++ ":"%char :: (utoa h ++ ":"%char :: utoa g)).
  rewrite !split_byte_app; [by rewrite split_byte_none by (by apply utoa_no_byte)|by apply utoa_no_byte|].
  intros Hin. rewrite Forall_forall in Ha. by destruct (Ha _ Hin).
Qed.

Lemma port_number_utoa s host n : 1 <= n <= 65535 -> port_number s host (utoa n) = Ok n.
Proof.
  intros H. unfold port_number. rewrite <- itoa_utoa, parse_int_itoa by lia.
  destruct (Z.ltb_spec n 1), (Z.ltb_spec 65535 n); try lia. done.
Qed.

Lemma Addr_text p : pub_ok p -> exists z, ParseAddr (Addr p) = Some (V4 z) /\ Forall (fun c => is_digit c = true \/ c = "."%char) (Addr p).
Proof.
  intros (_ & _ & _ & Ha). unfold Addr. assert (exists z, ParseAddr (if bool_decide (pb_hostAddr p = []) then loopback else pb_hostAddr p) = Some (V4 z)) as [z Hz].
  { destruct Ha as [->|[z Hz]]; [exists 2130706433; vm_compute; reflexivity|]. case_bool_decide as E; [by rewrite E in Hz|by exists z]. }
  exists z. split; [done|]. apply ParseAddr_v4 in Hz as [_ <-]. apply Forall_forall. apply string4_bytes.
Qed.

Lemma cut_none s (c : byte) : c ∉ s -> cut s [c] = (s, [], false).
Proof. intros H. unfold cut. by apply cut_at_byte in H as ->. Qed.

Lemma cut_first (c : byte) a b : c ∉ a -> cut (a ++ c :: b) [c] = (a, b, true).
Proof. intros H. unfold cut. by rewrite cut_at_byte_app. Qed.

(** The publication that the text of one reads as: every default filled in but
    that of the protocol. *)
Definition long_form (p : Publication) : Publication :=
  MkPublication (if bool_decide (Proto p = tcp) then [] else udp) (Addr p) (pb_hostPort p) (pb_guestPort p).

Lemma Proto_cases p : pub_ok p -> Proto p = tcp \/ Proto p = udp.
Proof. intros (_ & _ & H & _). unfold Proto. destruct H as [->|[->| ->]]; [by left|by left|by right]. Qed.

Lemma long_form_same p : pub_ok p -> Proto (long_form p) = Proto p /\ Addr (long_form p) = Addr p.
Proof.
  intros Hp. split.
  - unfold long_form, Proto at 1. cbn [pb_protocol]. destruct (Proto_cases p Hp) as [->| ->]; done.
  - destruct (Addr_text p Hp) as (z & Hz & _). unfold long_form, Addr at 1. cbn [pb_hostAddr].
    rewrite bool_decide_false; [done|]. intros E. by rewrite E in Hz.
Qed.

Lemma String_pub_read p : pub_ok p -> ParsePublication (String_pub p) = Ok (long_form p).
Proof.
  intros Hp. destruct (Addr_text p Hp) as (z & Hz & Ht). pose proof (Proto_cases p Hp) as Hproto. destruct Hp as (Hh & Hg & _).
  set (text := Addr p ++ lit ":" ++ utoa (pb_hostPort p) ++ lit ":" ++ utoa (pb_guestPort p)).
  assert (Forall mapping_byte text) as Hb by (apply mapping_text_bytes; [done|lia|lia]).
  assert ("/"%char ∉ text) as Hslash by (intros Hin; rewrite Forall_forall in Hb; by destruct (mapping_byte_plain _ (Hb _ Hin)) as [_ ?]).
  assert (forall s', mapping_parts s' false text = Ok (Addr p, utoa (pb_hostPort p), utoa (pb_guestPort p))) as Hm.
  { intros s'. unfold mapping_parts, text. rewrite mapping_text_split by (done || lia). by rewrite Hz. }
  assert (plain_text text) as Hplain by (eapply Forall_impl; [exact Hb|]; intros c Hc; by apply mapping_byte_plain).
  assert (text <> []) as Hne by (unfold text; by destruct (Addr p)).
  unfold String_pub, long_form. rewrite !itoa_utoa by lia. fold text.
  destruct Hproto as [->| ->]; unfold ParsePublication, parsePublication.
  - rewrite (bool_decide_true (tcp = tcp)) by done. rewrite (trim_space_plain text Hplain), (bool_decide_false (text = [])) by done.
    change (lit "/") with ["/"%char]. rewrite (cut_none text "/"%char Hslash). cbn [andb]. rewrite Hm. cbn [res_bind].
    by rewrite !port_number_utoa.
  - rewrite (bool_decide_false (udp = tcp)) by done. rewrite trim_space_plain by (apply Forall_app; split; [done|repeat constructor]).
    rewrite bool_decide_false by (by destruct text). change (lit "/") with ["/"%char]. cbn [app].
    rewrite (cut_first "/"%char text udp Hslash). change (to_lower udp) with udp. cbn [andb].
    rewrite (bool_decide_false (udp = tcp)), (bool_decide_true (udp = udp)) by done. cbn [negb andb]. rewrite Hm. cbn [res_bind].
    by rewrite !port_number_utoa.
Qed.

(** A port that brig prints is the port that it reads.  Whatever spelling
    of a published port is accepted, short or long, its text is accepted too
    and names the same protocol, host address, host port and guest port; the
    ports are between 1 and 65535, the address is one of IPv4, and it is the
    loopback address when none was written. *)
Lemma ParsePublication_String (s : gostr) (p : Publication) (Hp : ParsePublication s = Ok p) :
  pub_ok p /\ (Addressed p = false -> Addr p = loopback) /\
  exists p', ParsePublication (String_pub p) = Ok p' /\ Same p p' = true /\ pb_guestPort p' = pb_guestPort p /\ String_pub p' = String_pub p.
Proof.
  apply parsePublication_ok in Hp. split; [done|]. split.
  { unfold Addressed, Addr. by case_bool_decide. }
  exists (long_form p). destruct (long_form_same p Hp) as [Hpr Had]. split_and!; [by apply String_pub_read| |done|].
  - unfold Same. rewrite Hpr, Had, !bool_decide_true by done. apply Z.eqb_refl.
  - unfold String_pub. by rewrite Hpr, Had.
Qed.

Example ParsePublication_String_witness : exists p, ParsePublication (lit " 5353:53/UDP ") = Ok p /\ Addr p = loopback /\ pub_ok p.
Proof.
  destruct (ParsePublication (lit " 5353:53/UDP ")) as [p|e] eqn:E.
  - exists p. split; [reflexivity|]. destruct (ParsePublication_String (lit " 5353:53/UDP ") p E) as (Hok & Hlo & _).
    split; [|exact Hok]. apply Hlo. assert (ParsePublication (lit " 5353:53/UDP ") = Ok (MkPublication udp [] 5353 53)) as E' by (vm_compute; reflexivity).
    rewrite E' in E. injection E as <-. reflexivity.
  - exfalso. assert (is_ok (ParsePublication (lit " 5353:53/UDP ")) = true) as H by (vm_compute; reflexivity). rewrite E in H. discriminate H.
Defined.

Example mergePublications_apart_witness :
  apart (mergePublications two_addresses [MkPublication [] (lit "10.0.0.6") 8080 3000]).
Proof.
  assert (apart two_addresses) as Hh.
  { constructor; [constructor; [vm_compute; reflexivity|constructor]|]. constructor; constructor. }
  assert (apart [MkPublication [] (lit "10.0.0.6") 8080 3000]) as Ha by (constructor; constructor).
  assert (Forall (fun p => unspecified (Addr p) = false) [MkPublication [] (lit "10.0.0.6") 8080 3000]) as Hs
    by (constructor; [vm_compute; reflexivity|constructor]).
  destruct (mergePublications_apart two_addresses [MkPublication [] (lit "10.0.0.6") 8080 3000] Hh Ha Hs) as [H _]. exact H.
Defined.
