(* ===== verification/ProfileReg.v ===== *)
(** * The registry of profiles (internal/profile/registry.go, file.go)

    The profiles that brig ships and those of the user's directories, merged by
    name, where a file of a profile is found, removed, written and exported,
    and the names that no profile and no session may take.  The registry is a
    map from names; loading folds over the directories in the order they are
    listed.  The YAML decoder is a parameter, and so are the environment and
    the host's directories. *)

From stdpp Require Import prelude list strings gmap sorting.
From Stdlib Require Import ZArith Lia ZifyNat Ascii.
From S2P Require Import Prelude GoUnicode GoStrings GoPath GoClean Profile Volumes.

Local Open Scope Z_scope.

(** ** Files of the profile directory *)

(** [reservedBasenames]. *)
Definition reservedBasenames : list gostr := [lit "config.yaml"; lit "config.yml"; lit "config.json"].
Definition profile_exts : list gostr := [lit ".yaml"; lit ".yml"; lit ".json"].

Definition reservedName (name : gostr) : bool := existsb (fun ext => mem (name ++ ext) reservedBasenames) profile_exts.

Definition isProfileFile (name : gostr) : bool := mem (path_Ext name) profile_exts.

Definition fileSlash : byte := slash.

(** [filepath.Dir] and [filepath.Base]. *)
Definition filepath_Dir (p : gostr) : gostr :=
  path_Clean (match cut_last slash p with Some (d, _) => d ++ [slash] | None => [] end).

Definition filepath_Base (p : gostr) : gostr :=
  if bool_decide (p = []) then dot1
  else
    let q := trim_right (fun r => bool_decide (r = bz slash)) p in
    let b := match cut_last slash q with Some (_, b) => b | None => q end in
    if bool_decide (b = []) then [slash] else b.

(** [filepath.IsAbs]. *)
Definition filepath_IsAbs (p : gostr) : bool := has_prefix p [slash].

(** [extensionFor]. *)
Definition extensionFor (blob : gostr) : gostr :=
  match trim_space blob with
  | c :: _ => if Ascii.eqb c "{" then lit ".json" else lit ".yaml"
  | [] => lit ".yaml"
  end.

(** [looksLikePath]: the separator of the platform is the slash. *)
Definition looksLikePath (s : gostr) : bool :=
  has_byte slash s || has_byte fileSlash s || has_prefix s (lit ".") || has_prefix s (lit "~").

(** ** Where the directories are *)

(** The environment: an unset variable and an empty one read the same, and the
    home directory can be unknown. *)
Record environment := MkEnvironment { env_get : gostr -> gostr; env_home : option gostr }.

Definition configHome (env : environment) : gostr :=
  let dir := env_get env (lit "XDG_CONFIG_HOME") in
  if negb (bool_decide (dir = [])) && filepath_IsAbs dir then dir
  else match env_home env with
       | None => lit ".config"
       | Some home => filepath_Join home (lit ".config")
       end.

(** [profile.Dir]. *)
Definition profile_Dir (env : environment) : gostr :=
  let dir := env_get env (lit "BRIG_PROFILE_DIR") in
  if negb (bool_decide (dir = [])) then dir else filepath_Join (configHome env) (lit "brig").

Definition RemovedDirSetting (env : environment) : bool :=
  negb (bool_decide (env_get env (lit "BRIG_TEMPLATE_DIR") = [])) && bool_decide (env_get env (lit "BRIG_PROFILE_DIR") = []).

Definition LegacyDir (env : environment) : gostr :=
  match env_home env with
  | None => []
  | Some home => filepath_Join (filepath_Join (filepath_Join home (lit ".config")) (lit "brig")) (lit "templates")
  end.

(** An entry of a directory, with what reading it gives. *)
Record dirent := MkDirent { de_name : gostr; de_dir : bool; de_read : res gostr gostr }.

(** What a directory lists: its entries by name, or why it does not. *)
Inductive listing :=
  | Listed (l : list dirent)
  | NotExist
  | ListFails (e : gostr).

(** [LegacyHint]: how many profiles there are in the directory of the older
    release, when there is something to say. *)
Definition LegacyHint (env : environment) (ls : listing) : option nat :=
  let old := LegacyDir env in
  if bool_decide (old = []) || bool_decide (old = profile_Dir env) then None
  else match ls with
       | Listed l =>
         let n := length (List.filter (fun e => negb (de_dir e) && isProfileFile (de_name e)) l) in
         if (n =? 0)%nat then None else Some n
       | _ => None
       end.

(** ** Reading a profile *)

Definition with_kind (p : Profile) (k : gostr) : Profile :=
  MkProfile (p_name p) (p_desc p) (p_binary p) (p_image p) (p_guestHome p) (p_secrets p) (p_env p) (p_deny p) (p_files p)
    (p_volumes p) (p_headless p) k (p_guiTitle p) (p_mem p) (p_cpus p) (p_hypervisor p) (p_network p) (p_runtimeBin p)
    (p_rootfsType p) (p_genericBoot p) (p_staleCredentialFiles p) (p_onboarding p) (p_hostConfigDir p) (p_projectPaths p)
    (p_unpublished p) (p_reserved p) (p_policy p).

(** [removedKeys], each with what replaced it. *)
Definition removedKeys : list (gostr * gostr) :=
  [(lit "forward", lit "env:, with ref: env.<name>"); (lit "statePaths", lit "volumes:");
   (lit "shell", lit "kind: shell"); (lit "gui", lit "kind: gui")].

Definition quoted (key : gostr) : gostr := zb 34 :: key ++ [zb 34].

Inductive parse_error :=
  | DecodeFails (e : gostr)
  | RemovedKey (e key now : gostr)
  | Invalid (e : profile_error).

Section Reading.
(** The decoder: strict into a profile, or its error's text; and, for the
    hint, the keys of a document read as a map.  [order] is the order of the
    range over [removedKeys]. *)
Variable UnmarshalStrict : gostr -> res gostr Profile.
Variable top_keys : gostr -> option (list gostr).
Variable order : list (gostr * gostr).

(** [removedKeyHint]. *)
Definition removedKeyHint (err blob : gostr) : parse_error :=
  match top_keys blob with
  | None => DecodeFails err
  | Some top =>
    match List.find (fun '(key, _) => mem key top && contains err (lit "unknown field " ++ quoted key)) order with
    | Some (key, now) => RemovedKey err key now
    | None => DecodeFails err
    end
  end.

(** [profile.Parse]. *)
Definition parse_profile (blob : gostr) : res parse_error Profile :=
  match UnmarshalStrict blob with
  | Err e => Err (removedKeyHint e blob)
  | Ok p =>
    match normaliseKind p with
    | Err e => Err (Invalid e)
    | Ok k =>
      let p' := with_kind p k in
      match Validate p' with
      | Err e => Err (Invalid e)
      | Ok _ => Ok p'
      end
    end
  end.

(** ** Loading *)

Inductive Origin := OriginBuiltIn | OriginFile.
#[export] Instance Origin_eq_dec : EqDecision Origin.
Proof. solve_decision. Defined.

(** [entry]. *)
Record reg_entry := MkRegEntry {
  re_p : Profile; re_source : gostr; re_origin : Origin; re_path : gostr; re_shadowed : list gostr }.

Inductive unusable_why := UnreadableFile (e : gostr) | UnparsedFile (e : parse_error).
(** A file that was passed over, and two files of one directory with one
    name: the one before, the one that wins, the directory and the name. *)
Inductive problem :=
  | Unusable (where_ : gostr) (why : unusable_why)
  | Duplicate (before wins dir name : gostr).

(** [loadProblems]: the two kinds, each in the order of the files. *)
Record loadProblems := MkProblems { lp_unusable : list problem; lp_duplicate : list problem }.
Definition add_unusable (pr : loadProblems) (x : problem) : loadProblems := MkProblems (lp_unusable pr ++ [x]) (lp_duplicate pr).
Definition add_duplicate (pr : loadProblems) (x : problem) : loadProblems := MkProblems (lp_unusable pr) (lp_duplicate pr ++ [x]).

Notation registry := (gmap gostr reg_entry).

(** The entry that a file registers over the one before it. *)
Definition shadow (prev : option reg_entry) (path : gostr) : list gostr :=
  match prev with
  | None => []
  | Some e => re_shadowed e ++ (if bool_decide (re_path e = []) then [] else [re_path e])
  end.

Definition is_duplicate (prev : option reg_entry) (hostDir : gostr) : bool :=
  match prev with
  | None => false
  | Some e => negb (bool_decide (hostDir = [])) && bool_decide (filepath_Dir (re_path e) = hostDir)
  end.

Definition host_path (hostDir name : gostr) : gostr := if bool_decide (hostDir = []) then [] else filepath_Join hostDir name.

(** The body of the loop of [loadFS]. *)
Definition load_entry (origin : Origin) (hostDir : gostr) (st : registry * loadProblems) (e : dirent) : registry * loadProblems :=
  let '(reg, pr) := st in
  if de_dir e || negb (isProfileFile (de_name e)) || mem (de_name e) reservedBasenames then st
  else
    match de_read e with
    | Err m => (reg, add_unusable pr (Unusable (de_name e) (UnreadableFile m)))
    | Ok blob =>
      match parse_profile blob with
      | Err x =>
        (reg, add_unusable pr (Unusable (if bool_decide (hostDir = []) then de_name e else filepath_Join hostDir (de_name e)) (UnparsedFile x)))
      | Ok p =>
        let prev := reg !! p_name p in
        let path := host_path hostDir (de_name e) in
        let pr' :=
          if is_duplicate prev hostDir
          then add_duplicate pr (Duplicate (filepath_Base (from_option re_path [] prev)) (de_name e) hostDir (p_name p))
          else pr in
        (<[p_name p := MkRegEntry p blob origin path (shadow prev path)]> reg, pr')
      end
    end.

Definition loadFS (l : list dirent) (origin : Origin) (hostDir : gostr) (st : registry * loadProblems) : registry * loadProblems :=
  foldl (load_entry origin hostDir) st l.

Inductive load_error :=
  | BuiltInFails (e : gostr)
  | DirFails (dir e : gostr)
  | Problems (pr : loadProblems).

(** The loop of [Load] over the directories.  A directory that is not there
    is passed over; one that cannot be listed ends the load. *)
Fixpoint load_dirs (dirs : list (gostr * listing)) (st : registry * loadProblems) : registry * option load_error :=
  match dirs with
  | [] =>
    (st.1, match st.2 with
           | MkProblems [] [] => None
           | pr => Some (Problems pr)
           end)
  | (dir, ls) :: dirs' =>
    if bool_decide (dir = []) then load_dirs dirs' st
    else match ls with
         | NotExist => load_dirs dirs' st
         | ListFails e => (st.1, Some (DirFails dir e))
         | Listed l => load_dirs dirs' (loadFS l OriginFile dir st)
         end
  end.

Definition Load (builtin : listing) (dirs : list (gostr * listing)) : registry * option load_error :=
  match builtin with
  | Listed l => load_dirs dirs (loadFS l OriginBuiltIn [] (∅, MkProblems [] []))
  | NotExist => (∅, Some (BuiltInFails (lit "file does not exist")))
  | ListFails e => (∅, Some (BuiltInFails e))
  end.

(** ** Reading the registry *)

(** [aliases]. *)
Definition aliases : list (gostr * gostr) :=
  [(lit "claude", lit "claude-code"); (lit "desktop", lit "claude-desktop"); (lit "herd", lit "herdr")].

Definition Alias (name : gostr) : option gostr := snd <$> List.find (fun a => bool_decide (a.1 = name)) aliases.

(** [Lookup]: a registered name before an alias.  The clone it gives is a
    value of its own, as every value is here. *)
Definition profile_Lookup (reg : registry) (name : gostr) : option Profile :=
  match reg !! name with
  | Some e => Some (re_p e)
  | None =>
    match Alias name with
    | Some canonical => re_p <$> reg !! canonical
    | None => None
    end
  end.

(** [Aliases]; [range] is the order of the range over the map. *)
Definition Aliases (range : list (gostr * gostr)) (reg : registry) (canonical : gostr) : list gostr :=
  sort_strings (fst <$> List.filter (fun '(short, name) => bool_decide (name = canonical) && is_nil (reg !! short)) range).

Definition profile_le (a b : Profile) : Prop := str_leb (p_name a) (p_name b) = true.
#[export] Instance profile_le_dec a b : Decision (profile_le a b).
Proof. unfold profile_le. apply _. Defined.

(** [All] and [Names]: the names are distinct, so the sort has one result. *)
Definition All (reg : registry) : list Profile := merge_sort profile_le (re_p <$> (map_to_list reg).*2).
Definition All_names (reg : registry) : list gostr := p_name <$> All reg.

(** [lastDash], as the text after the last dash. *)
Definition lastDash (s : gostr) : option gostr := snd <$> cut_last "-" s.

(** [Reserved] and [ReservedFor]. *)
Definition Reserved (reg : registry) (slug : gostr) : option gostr :=
  p_name <$> List.find (fun p => p_reserved p && (bool_decide (slug = p_name p) || bool_decide (Some slug = lastDash (p_name p)))) (All reg).

Definition ReservedFor (reg : registry) (slug agent : gostr) : option gostr :=
  p_name <$> List.find (fun p => p_reserved p && bool_decide (agent ++ lit "-" ++ slug = p_name p)) (All reg).

Definition IsCustom (reg : registry) (name : gostr) : bool :=
  match reg !! name with Some e => bool_decide (re_origin e = OriginFile) | None => false end.

(** The built-in specs: the bytes of [specs/<name>.yaml]. *)
Definition Embedded (specs : gostr -> option gostr) (name : gostr) : bool := negb (is_nil (specs name)).
Definition OverridesBuiltIn (specs : gostr -> option gostr) (reg : registry) (name : gostr) : bool :=
  IsCustom reg name && Embedded specs name.
Definition BuiltInDeny (specs : gostr -> option gostr) (name : gostr) : list gostr :=
  match specs name with
  | None => []
  | Some blob => match parse_profile blob with Ok p => p_deny p | Err _ => [] end
  end.

Definition SourceBytes (reg : registry) (name : gostr) : option gostr :=
  match reg !! name with Some e => if bool_decide (re_source e = []) then None else Some (re_source e) | None => None end.

Definition profile_Path (reg : registry) (name : gostr) : option gostr :=
  match reg !! name with Some e => if bool_decide (re_path e = []) then None else Some (re_path e) | None => None end.

Definition Files (reg : registry) (name : gostr) : list gostr :=
  match reg !! name with
  | Some e => if bool_decide (re_path e = []) then [] else re_shadowed e ++ [re_path e]
  | None => []
  end.

(** ** Removing *)

(** The loop of [Remove] over a disk, a set of the files there are;
    [refuses] says why one cannot be removed. *)
Fixpoint remove_files (refuses : gostr -> option gostr) (disk : gset gostr) (removed files : list gostr)
  : gset gostr * (list gostr * option gostr) :=
  match files with
  | [] => (disk, (removed, None))
  | f :: files' =>
    if bool_decide (f ∈ disk) then
      match refuses f with
      | Some e => (disk, (removed, Some e))
      | None => remove_files refuses (disk ∖ {[f]}) (removed ++ [f]) files'
      end
    else remove_files refuses disk removed files'
  end.

Definition Remove (refuses : gostr -> option gostr) (reg : registry) (disk : gset gostr) (name : gostr) :=
  remove_files refuses disk [] (Files reg name).

(** ** Importing *)

(** The regular files of one directory, by name. *)
Notation folder := (gmap gostr gostr).

Inductive import_error :=
  | ImportParse (e : parse_error)
  | ImportCollides (name owner : gostr)
  | ImportReserved (name : gostr)
  | ImportMkdir (e : gostr)
  | ImportWrite (e : gostr).

Definition final_newline (blob : gostr) : gostr :=
  match rev blob with
  | [] => blob
  | c :: _ => if Ascii.eqb c newline then blob else blob ++ [newline]
  end.

(** The loop of [Import]: the files of the name in another format go. *)
Definition clear_others (dir name path : gostr) (files : folder) : folder :=
  foldl (fun fs ext => if bool_decide (filepath_Join dir (name ++ ext) = path) then fs else delete (name ++ ext) fs)
    files profile_exts.

(** [Import]: what it leaves in the directory, and the profile with its file.
    [mkdir] and [write] are the outcomes of making the directory and of
    writing the file; a write that fails leaves what [write] says. *)
Definition Import_profile (mkdir : option gostr) (write : folder -> gostr -> gostr -> folder * option gostr)
  (reg : registry) (blob dir : gostr) (files : folder) : folder * res import_error (Profile * gostr) :=
  match parse_profile blob with
  | Err e => (files, Err (ImportParse e))
  | Ok t =>
    let collides := match Reserved reg (p_name t) with
                    | Some owner => if bool_decide (p_name t = owner) then None else Some owner
                    | None => None
                    end in
    match collides with
    | Some owner => (files, Err (ImportCollides (p_name t) owner))
    | None =>
      if reservedName (p_name t) then (files, Err (ImportReserved (p_name t)))
      else
        match mkdir with
        | Some e => (files, Err (ImportMkdir e))
        | None =>
          let base := p_name t ++ extensionFor blob in
          let path := filepath_Join dir base in
          let files' := clear_others dir (p_name t) path files in
          let '(files'', failed) := write files' base (final_newline blob) in
          match failed with
          | Some e => (files'', Err (ImportWrite e))
          | None => (files'', Ok (t, path))
          end
        end
    end
  end.

(** ** Exporting *)

Inductive exportpath_error := DestPath | DestName | DestReserved (base : gostr).

(** [ExportPath]: no destination is the standard output. *)
Definition ExportPath (env : environment) (dest : gostr) (asJSON : bool) : res exportpath_error (option gostr) :=
  if bool_decide (dest = []) then Ok None
  else if looksLikePath dest then Err DestPath
  else
    let base := if isProfileFile dest then dest else dest ++ (if asJSON then lit ".json" else lit ".yaml") in
    let stem := trim_suffix base (path_Ext base) in
    if negb (safeName stem) then Err DestName
    else if mem base reservedBasenames then Err (DestReserved base)
    else Ok (Some (filepath_Join (profile_Dir env) base)).

(** [trailingComment]: from the blanks before the first number sign. *)
Fixpoint leading_blanks (s : gostr) : gostr :=
  match s with
  | c :: s' => if Ascii.eqb c " " || Ascii.eqb c (zb 9) then c :: leading_blanks s' else []
  | [] => []
  end.
Definition trailingComment (rest : gostr) : gostr :=
  match cut_at (lit "#") rest with
  | Some (a, b) => rev (leading_blanks (rev a)) ++ lit "#" ++ b
  | None => []
  end.

Definition carriage : gostr := [zb 13].

(** A line of the loop of [renameField], renamed when it is the name's. *)
Definition rename_line (name line : gostr) : option gostr :=
  let '(body, eol) := if has_suffix line carriage then (take (length line - 1) line, carriage) else (line, []) in
  match cut_at (lit ":") body with
  | Some (key, rest) => if bool_decide (key = lit "name") then Some (lit "name: " ++ name ++ trailingComment rest ++ eol) else None
  | None => None
  end.

Fixpoint rename_lines (name : gostr) (lines : list gostr) : option (list gostr) :=
  match lines with
  | [] => None
  | line :: lines' =>
    match rename_line name line with
    | Some line' => Some (line' :: lines')
    | None => cons line <$> rename_lines name lines'
    end
  end.

Definition renameField (blob name : gostr) : option gostr := join [newline] <$> rename_lines name (split_byte newline blob).

Definition with_name (p : Profile) (n : gostr) : Profile :=
  MkProfile n (p_desc p) (p_binary p) (p_image p) (p_guestHome p) (p_secrets p) (p_env p) (p_deny p) (p_files p)
    (p_volumes p) (p_headless p) (p_kind p) (p_guiTitle p) (p_mem p) (p_cpus p) (p_hypervisor p) (p_network p) (p_runtimeBin p)
    (p_rootfsType p) (p_genericBoot p) (p_staleCredentialFiles p) (p_onboarding p) (p_hostConfigDir p) (p_projectPaths p)
    (p_unpublished p) (p_reserved p) (p_policy p).

(** The encoders are parameters, and the text of the field reference after
    the first words of its first line. *)
Variable yaml_Marshal : Profile -> res gostr gostr.
Variable json_MarshalIndent : Profile -> res gostr gostr.
Variable reference : gostr.

Definition firstHeaderLine : gostr := lit "# A brig profile.".
Definition exportHeader : gostr := firstHeaderLine ++ reference.

Definition Export_profile (reg : registry) (p : Profile) : res gostr gostr :=
  match (match SourceBytes reg (p_name p) with Some b => Ok b | None => yaml_Marshal p end) with
  | Err e => Err e
  | Ok body => if has_prefix (trim_space body) firstHeaderLine then Ok body else Ok (exportHeader ++ body)
  end.

Definition ExportAs (reg : registry) (p : Profile) (name : gostr) : res gostr gostr :=
  match Export_profile reg p with
  | Err e => Err e
  | Ok blob =>
    if bool_decide (name = []) || bool_decide (name = p_name p) then Ok blob
    else
      let renamed :=
        match renameField blob name with
        | Some r => match parse_profile r with Ok got => if bool_decide (p_name got = name) then Some r else None | Err _ => None end
        | None => None
        end in
      match renamed with
      | Some r => Ok r
      | None =>
        match yaml_Marshal (with_name p name) with
        | Err e => Err e
        | Ok body => Ok (exportHeader ++ body)
        end
      end
  end.

Definition ExportJSON (p : Profile) : res gostr gostr :=
  match json_MarshalIndent p with Ok blob => Ok (blob ++ [newline]) | Err e => Err e end.
Definition ExportJSONAs (p : Profile) (name : gostr) : res gostr gostr :=
  ExportJSON (if bool_decide (name = []) then p else with_name p name).
End Reading.

(** ** Paths of a directory's files *)

Lemma Clean_not_nil p : path_Clean p <> [].
Proof.
  destruct (Clean_shape p) as [->|[(l & _ & ->)|[(l & Hl & Hn & ->)|(r & -> & _)]]]; [done|done| |done].
  by apply join_not_nil.
Qed.

Lemma filepath_Join_not_nil a b : a <> [] -> filepath_Join a b <> [].
Proof. intros Ha. unfold filepath_Join. rewrite (bool_decide_false (a = [])) by done. apply Clean_not_nil. Qed.

(** A name joined to a directory is what follows the last slash. *)
Lemma filepath_Join_shape dir a : dir <> [] -> normal a ->
  filepath_Join dir a = a \/ exists d, filepath_Join dir a = d ++ slash :: a.
Proof.
  intros Hd Ha. pose proof Ha as (Hne & _ & _ & Hs). unfold filepath_Join. rewrite !bool_decide_false by done. cbn [andb].
  unfold path_Clean. rewrite bool_decide_false by (by destruct dir).
  assert (split_byte slash (dir ++ [slash] ++ a) = split_byte slash dir ++ [a]) as ->.
  { rewrite <- (join_split_byte slash dir) at 1.
    assert (join [slash] (split_byte slash dir) ++ [slash] ++ a = join [slash] (split_byte slash dir ++ [a])) as ->.
    { by rewrite join_app by (done || apply split_byte_not_nil). }
    apply split_byte_join; [by destruct (split_byte slash dir)|]. apply Forall_app. split; [apply split_byte_no_sep|by constructor]. }
  rewrite foldl_app. set (rooted := has_prefix _ _). cbn [foldl]. set (st := foldl _ _ _).
  assert (clean_step rooted st a = a :: st) as ->.
  { unfold clean_step. destruct Ha as (_ & H1 & H2 & _). by rewrite !bool_decide_false. }
  cbn [rev]. destruct (decide (rev st = [])) as [->|Hst].
  - cbn [app join]. destruct rooted; [right; by exists []|]. left. by rewrite bool_decide_false.
  - assert (join [slash] (rev st ++ [a]) = join [slash] (rev st) ++ slash :: a) as -> by by apply join_app.
    destruct rooted; right; [by exists (slash :: join [slash] (rev st))|].
    rewrite bool_decide_false by (by destruct (join [slash] (rev st))). by eexists.
Qed.

Lemma filepath_Join_inj dir a b : dir <> [] -> normal a -> normal b -> filepath_Join dir a = filepath_Join dir b -> a = b.
Proof.
  intros Hd Ha Hb E. pose proof Ha as (_ & _ & _ & Sa). pose proof Hb as (_ & _ & _ & Sb).
  assert (forall x d, x = d ++ slash :: b -> slash ∉ x -> False) as No.
  { intros x d -> H. apply H. rewrite elem_of_app. right. constructor. }
  assert (forall x d, x = d ++ slash :: a -> slash ∉ x -> False) as No'.
  { intros x d -> H. apply H. rewrite elem_of_app. right. constructor. }
  destruct (filepath_Join_shape dir a Hd Ha) as [Ea|[d Ea]], (filepath_Join_shape dir b Hd Hb) as [Eb|[d' Eb]]; rewrite Ea, Eb in E.
  - done.
  - destruct (No _ _ E Sa).
  - symmetry in E. destruct (No' _ _ E Sb).
  - pose proof (cut_last_app slash d a Sa) as H1. rewrite E, cut_last_app in H1 by done. by injection H1.
Qed.

Lemma ext_loop_app s e t : ext_loop e = Some t -> ext_loop (s ++ e) = Some t.
Proof. intros H. induction s as [|c s IH]; [done|]. cbn [app ext_loop]. by rewrite IH. Qed.

Lemma safe_runes_bytes first l : safe_runes first l = true -> Forall (fun r => r <> 47 /\ r < 128) l.
Proof.
  revert first. induction l as [|r l IH]; intros first H; [done|]. cbn [safe_runes] in H. apply andb_true_iff in H as [H1 H2].
  constructor; [|by eapply IH]. rewrite !orb_true_iff, andb_true_iff, !orb_true_iff, !in_range_true, !bool_decide_eq_true in H1. lia.
Qed.

(** A safe name is a name of a file, whatever is put after it. *)
Lemma safeName_normal s e : safeName s = true -> slash ∉ e -> e <> [] -> normal (s ++ e) /\ normal s.
Proof.
  intros H He Hne. unfold safeName in H. apply andb_true_iff in H as [Hn Hr]. apply negb_true_iff, bool_decide_eq_false in Hn.
  pose proof (safe_runes_bytes _ _ Hr) as Hb.
  assert (Forall (fun c => is_ascii c = true) s) as Ha.
  { apply runes_all_ascii. eapply Forall_impl; [exact Hb|]. by intros r [_ ?]. }
  rewrite (runes_ascii s Ha) in Hr, Hb.
  assert (slash ∉ s) as Hs.
  { intros Hin. rewrite Forall_fmap, Forall_forall in Hb. by destruct (Hb _ Hin) as [X _]. }
  destruct s as [|c s]; [done|]. cbn [fmap list_fmap safe_runes] in Hr. apply andb_true_iff in Hr as [Hc _].
  assert (c <> "."%char) as Hdot by (intros ->; done).
  assert (forall x, (c :: s) ++ x <> dot1 /\ (c :: s) ++ x <> dot2) as Hd by (intros x; split; intros [=]; by subst c).
  split; split_and!; try done; try apply Hd.
  - rewrite elem_of_app. tauto.
  - pose proof (Hd []) as [X _]. by rewrite app_nil_r in X.
  - pose proof (Hd []) as [_ X]. by rewrite app_nil_r in X.
Qed.

(** ** What the files declare, a reference for [Load] *)

Section Registry.
Variable UnmarshalStrict : gostr -> res gostr Profile.
Variable top_keys : gostr -> option (list gostr).
Variable order : list (gostr * gostr).
Notation the_parse := (parse_profile UnmarshalStrict top_keys order).
Notation read_entry := (load_entry UnmarshalStrict top_keys order).
Notation read_dir := (loadFS UnmarshalStrict top_keys order).
Notation read_dirs := (load_dirs UnmarshalStrict top_keys order).
Notation load := (Load UnmarshalStrict top_keys order).
Notation registry := (gmap gostr reg_entry).
Notation folder := (gmap gostr gostr).

(** A profile with the file that declares it; a built-in one has no path. *)
Record decl := MkDecl { d_p : Profile; d_source : gostr; d_origin : Origin; d_path : gostr }.

Definition decl_of (origin : Origin) (hostDir : gostr) (e : dirent) : option decl :=
  if de_dir e || negb (isProfileFile (de_name e)) || mem (de_name e) reservedBasenames then None
  else match de_read e with
       | Err _ => None
       | Ok blob => match the_parse blob with
                    | Ok p => Some (MkDecl p blob origin (host_path hostDir (de_name e)))
                    | Err _ => None
                    end
       end.

Definition decls_of (origin : Origin) (hostDir : gostr) (l : list dirent) : list decl := omap (decl_of origin hostDir) l.

(** What the directories declare, up to one that cannot be listed. *)
Fixpoint dir_decls (dirs : list (gostr * listing)) : list decl :=
  match dirs with
  | [] => []
  | (dir, ls) :: dirs' =>
    if bool_decide (dir = []) then dir_decls dirs'
    else match ls with
         | NotExist => dir_decls dirs'
         | ListFails _ => []
         | Listed l => decls_of OriginFile dir l ++ dir_decls dirs'
         end
  end.

Definition named (n : gostr) (ds : list decl) : list decl := List.filter (fun d => bool_decide (p_name (d_p d) = n)) ds.
Definition paths (ds : list decl) : list gostr := List.filter (fun f => negb (bool_decide (f = []))) (d_path <$> ds).

(** The last declaration of a name, over the files of those before it. *)
Definition entry_for (ds : list decl) (n : gostr) : option reg_entry :=
  match rev (named n ds) with
  | [] => None
  | d :: before => Some (MkRegEntry (d_p d) (d_source d) (d_origin d) (d_path d) (paths (rev before)))
  end.

Definition add_decl (reg : registry) (d : decl) : registry :=
  <[p_name (d_p d) := MkRegEntry (d_p d) (d_source d) (d_origin d) (d_path d) (shadow (reg !! p_name (d_p d)) (d_path d))]> reg.

Lemma load_entry_reg origin hostDir st e :
  (read_entry origin hostDir st e).1 = match decl_of origin hostDir e with Some d => add_decl st.1 d | None => st.1 end.
Proof.
  destruct st as [reg pr]. unfold ProfileReg.load_entry, decl_of. destruct (_ || _); [done|].
  destruct (de_read e) as [blob|m]; [|done]. by destruct (the_parse blob).
Qed.

Lemma loadFS_reg l origin hostDir st : (read_dir l origin hostDir st).1 = foldl add_decl st.1 (decls_of origin hostDir l).
Proof.
  revert st. induction l as [|e l IH]; intros st; [done|]. cbn [decls_of omap list_omap].
  change (read_dir (e :: l) origin hostDir st) with (read_dir l origin hostDir (read_entry origin hostDir st e)).
  rewrite IH, load_entry_reg. by destruct (decl_of origin hostDir e).
Qed.

Lemma load_dirs_reg dirs st : (read_dirs dirs st).1 = foldl add_decl st.1 (dir_decls dirs).
Proof.
  revert st. induction dirs as [|[dir ls] dirs IH]; intros st; [done|]. cbn [ProfileReg.load_dirs dir_decls].
  case_bool_decide; [apply IH|]. destruct ls as [l| |e]; [|apply IH|done]. by rewrite IH, loadFS_reg, foldl_app.
Qed.

Lemma paths_snoc ds d : paths (ds ++ [d]) = paths ds ++ (if bool_decide (d_path d = []) then [] else [d_path d]).
Proof. unfold paths. rewrite fmap_app, List.filter_app. cbn. by destruct (bool_decide _). Qed.

Lemma named_snoc n ds d : named n (ds ++ [d]) = named n ds ++ (if bool_decide (p_name (d_p d) = n) then [d] else []).
Proof. unfold named. rewrite List.filter_app. cbn. by destruct (bool_decide _). Qed.

Lemma add_decls ds n : foldl add_decl ∅ ds !! n = entry_for ds n.
Proof.
  revert n. induction ds as [|d ds IH] using rev_ind; intros n; [done|].
  rewrite foldl_app. cbn [foldl]. unfold add_decl at 1. unfold entry_for. rewrite named_snoc.
  case_bool_decide as E.
  - subst n. rewrite lookup_insert_eq. rewrite rev_app_distr. cbn [rev app].
    do 2 f_equal. rewrite IH. unfold entry_for.
    destruct (rev (named _ ds)) as [|b before] eqn:Er; [done|].
    unfold shadow. cbn [re_shadowed re_path].
    assert (rev (b :: before) = rev before ++ [b]) as -> by done. by rewrite paths_snoc.
  - rewrite lookup_insert_ne by done. rewrite app_nil_r. apply IH.
Qed.

Lemma builtin_paths l : Forall (fun d => d_path d = [] /\ d_origin d = OriginBuiltIn) (decls_of OriginBuiltIn [] l).
Proof.
  apply Forall_forall. intros d (e & _ & H)%list_elem_of_omap. unfold decl_of in H. destruct (_ || _); [done|].
  destruct (de_read e) as [blob|]; [|done]. destruct (the_parse blob); [|done]. by injection H as <-.
Qed.

(** Where a declaration of the directories comes from. *)
Definition from_file (dirs : list (gostr * listing)) (d : decl) : Prop :=
  exists dir l e, (dir, Listed l) ∈ dirs /\ dir <> [] /\ e ∈ l /\ d_path d = filepath_Join dir (de_name e).

Lemma dir_decls_from dirs d : d ∈ dir_decls dirs -> from_file dirs d /\ d_path d <> [] /\ d_origin d = OriginFile.
Proof.
  induction dirs as [|[dir ls] dirs IH]; [by intros ?%elem_of_nil|]. cbn [dir_decls].
  assert (d ∈ dir_decls dirs -> from_file ((dir, ls) :: dirs) d /\ d_path d <> [] /\ d_origin d = OriginFile) as Later.
  { intros H. destruct (IH H) as ((dir' & l & e & H1 & H2) & H3). split; [|done]. exists dir', l, e. split; [by right|done]. }
  case_bool_decide as Hd; [done|]. destruct ls as [l| |e]; [|done|by intros ?%elem_of_nil].
  intros [H|H]%elem_of_app; [|by apply Later]. clear Later IH.
  apply list_elem_of_omap in H as (e & He & H). unfold decl_of in H. destruct (_ || _); [done|].
  destruct (de_read e) as [blob|]; [|done]. destruct (the_parse blob); [|done]. injection H as <-. cbn [d_path d_origin].
  unfold host_path. rewrite bool_decide_false by done.
  split_and!; [|by apply filepath_Join_not_nil|done]. exists dir, l, e. split_and!; [left|done|done|done].
Qed.

Lemma named_elem n ds d : d ∈ named n ds <-> d ∈ ds /\ p_name (d_p d) = n.
Proof. unfold named. by rewrite list_filter_elem, bool_decide_eq_true. Qed.

Lemma named_app n ds ds' : named n (ds ++ ds') = named n ds ++ named n ds'.
Proof. apply List.filter_app. Qed.

Lemma paths_app ds ds' : paths (ds ++ ds') = paths ds ++ paths ds'.
Proof. unfold paths. by rewrite fmap_app, List.filter_app. Qed.

Lemma paths_none ds : (forall d, d ∈ ds -> d_path d = []) -> paths ds = [].
Proof.
  induction ds as [|d ds IH]; intros H; [done|]. unfold paths. cbn. rewrite (H d) by left. cbn. apply IH. intros x Hx. apply H. by right.
Qed.

Lemma paths_elem ds f : f ∈ paths ds <-> f <> [] /\ exists d, d ∈ ds /\ d_path d = f.
Proof.
  unfold paths. rewrite list_filter_elem, negb_true_iff, bool_decide_eq_false, list_elem_of_fmap. split.
  - intros [(d & -> & Hd) Hf]. split; [done|]. by exists d.
  - intros [Hf (d & Hd & <-)]. split; [|done]. by exists d.
Qed.

Lemma named_builtin n l : paths (named n (decls_of OriginBuiltIn [] l)) = [].
Proof. apply paths_none. intros d [Hd _]%named_elem. pose proof (builtin_paths l) as H. rewrite Forall_forall in H. by apply H. Qed.

(** The entry of a name no file declares is the one of a built-in spec. *)
Lemma entry_for_builtin builtin n e : entry_for (decls_of OriginBuiltIn [] builtin) n = Some e -> re_origin e = OriginBuiltIn /\ re_path e = [].
Proof.
  unfold entry_for. destruct (rev _) as [|d before] eqn:E; [done|]. intros [= <-]. cbn.
  assert (d ∈ named n (decls_of OriginBuiltIn [] builtin)) as [Hd _]%named_elem.
  { rewrite list_elem_of_In, in_rev, E. by left. }
  pose proof (builtin_paths builtin) as H. rewrite Forall_forall in H. by apply H in Hd as [].
Qed.

Lemma load_lookup builtin dirs n :
  (load (Listed builtin) dirs).1 !! n = entry_for (decls_of OriginBuiltIn [] builtin ++ dir_decls dirs) n.
Proof. unfold Load. rewrite load_dirs_reg, loadFS_reg. cbn [fst]. by rewrite <- foldl_app, add_decls. Qed.

Lemma load_Files builtin dirs n :
  Files (load (Listed builtin) dirs).1 n = paths (named n (dir_decls dirs)).
Proof.
  unfold Files. rewrite load_lookup. unfold entry_for. rewrite named_app.
  destruct (named n (dir_decls dirs)) as [|d ds _] eqn:E using rev_ind.
  - rewrite app_nil_r. fold (entry_for (decls_of OriginBuiltIn [] builtin) n).
    destruct (entry_for _ n) as [e|] eqn:Ee; [|done]. apply entry_for_builtin in Ee as [_ Ee]. by rewrite bool_decide_true.
  - assert (d ∈ named n (dir_decls dirs)) as [Hd _]%named_elem by (rewrite E, elem_of_app; right; constructor).
    apply dir_decls_from in Hd as (_ & Hd & _).
    rewrite app_assoc, rev_app_distr. cbn [rev app re_path re_shadowed]. rewrite bool_decide_false by done.
    rewrite rev_involutive, paths_app, named_builtin, paths_snoc, bool_decide_false by done. done.
Qed.

(** What [Load] registers under a name is the last readable declaration of
    it, the built-in specs first and then the directories in their order;
    [Files] lists every file of the directories that declares the name, in
    order, even the ones that another overrides. *)
Lemma Load_exact (builtin : list dirent) (dirs : list (gostr * listing)) (n : gostr) :
  let reg := (load (Listed builtin) dirs).1 in
  reg !! n = entry_for (decls_of OriginBuiltIn [] builtin ++ dir_decls dirs) n /\
  Files reg n = paths (named n (dir_decls dirs)).
Proof. split; [apply load_lookup|apply load_Files]. Qed.

(** ** Removing a profile *)

(** What the directories list of the files that are left. *)
Definition on_disk (disk : gset gostr) (dirs : list (gostr * listing)) : list (gostr * listing) :=
  (fun '(dir, ls) =>
     (dir, match ls with
           | Listed l => Listed (List.filter (fun e => bool_decide (filepath_Join dir (de_name e) ∈ disk)) l)
           | _ => ls
           end)) <$> dirs.

Lemma omap_filter {A B} (f : A -> option B) (p : A -> bool) (q : B -> bool) l :
  (forall a b, f a = Some b -> q b = p a) -> omap f (List.filter p l) = List.filter q (omap f l).
Proof.
  intros H. induction l as [|a l IH]; [done|]. cbn [List.filter omap list_omap]. destruct (f a) as [b|] eqn:E.
  - cbn [List.filter]. rewrite (H _ _ E). destruct (p a); [|apply IH]. cbn [omap list_omap]. rewrite E. by f_equal.
  - destruct (p a); [|apply IH]. cbn [omap list_omap]. by rewrite E.
Qed.

Lemma on_disk_decls disk dirs :
  dir_decls (on_disk disk dirs) = List.filter (fun d => bool_decide (d_path d ∈ disk)) (dir_decls dirs).
Proof.
  induction dirs as [|[dir ls] dirs IH]; [done|]. cbn [on_disk fmap list_fmap dir_decls].
  case_bool_decide as Hd; [apply IH|]. destruct ls as [l| |e]; [|apply IH|done].
  rewrite List.filter_app. f_equal; [|apply IH]. apply omap_filter. intros e d H. unfold decl_of in H.
  destruct (_ || _); [done|]. destruct (de_read e) as [blob|]; [|done]. destruct (the_parse blob); [|done]. injection H as <-.
  cbn [d_path]. unfold host_path. by rewrite (bool_decide_false (dir = [])) by done.
Qed.

Lemma remove_files_all refuses disk removed files disk' removed' :
  remove_files refuses disk removed files = (disk', (removed', None)) ->
  disk' = disk ∖ list_to_set files /\ (forall f, f ∈ removed' <-> f ∈ removed \/ (f ∈ files /\ f ∈ disk)).
Proof.
  revert disk removed. induction files as [|f files IH]; intros disk removed H; cbn [remove_files] in H.
  - injection H as <- <-. split; [set_solver|]. intros f. set_solver.
  - case_bool_decide as Hf.
    + destruct (refuses f); [done|]. apply IH in H as [-> Hr]. split; [set_solver|].
      intros g. rewrite Hr. destruct (decide (g = f)) as [->|]; set_solver.
    + apply IH in H as [-> Hr]. split; [set_solver|]. intros g. rewrite Hr. destruct (decide (g = f)) as [->|]; set_solver.
Qed.

Lemma filter_none {A} (p : A -> bool) (l : list A) : (forall x, x ∈ l -> p x = false) -> List.filter p l = [].
Proof. induction l as [|x l IH]; intros H; [done|]. cbn. rewrite (H x) by left. apply IH. intros y Hy. apply H. by right. Qed.

Lemma filter_all {A} (p : A -> bool) (l : list A) : (forall x, x ∈ l -> p x = true) -> List.filter p l = l.
Proof. induction l as [|x l IH]; intros H; [done|]. cbn. rewrite (H x) by left. f_equal. apply IH. intros y Hy. apply H. by right. Qed.

Lemma filter_comm {A} (p q : A -> bool) (l : list A) : List.filter p (List.filter q l) = List.filter q (List.filter p l).
Proof. induction l as [|x l IH]; [done|]. cbn. destruct (p x) eqn:P, (q x) eqn:Q; cbn; rewrite ?P, ?Q, IH; done. Qed.

Lemma named_filter n p ds : named n (List.filter p ds) = List.filter p (named n ds).
Proof. apply filter_comm. Qed.

(** Once [Remove] has succeeded, the profile stays removed: the next
    [Load] of the same directories finds no file that declares the name, so
    the name is what the built-in specs make of it, and never custom.  Where a
    path is one file, every other name keeps its entry, and what was deleted
    is the name's files and nothing else. *)
Lemma Remove_sticks (builtin : list dirent) (dirs : list (gostr * listing)) (refuses : gostr -> option gostr)
    (disk disk' : gset gostr) (removed : list gostr) (name : gostr)
  (Hdisk : forall dir l e, (dir, Listed l) ∈ dirs -> e ∈ l -> filepath_Join dir (de_name e) ∈ disk)
  (H : Remove refuses (load (Listed builtin) dirs).1 disk name = (disk', (removed, None))) :
  let reg' := (load (Listed builtin) (on_disk disk' dirs)).1 in
  reg' !! name = entry_for (decls_of OriginBuiltIn [] builtin) name /\
  IsCustom reg' name = false /\
  (forall f, f ∈ removed <-> exists d, d ∈ dir_decls dirs /\ p_name (d_p d) = name /\ d_path d = f) /\
  ((forall d d', d ∈ dir_decls dirs -> d' ∈ dir_decls dirs -> d_path d = d_path d' -> p_name (d_p d) = p_name (d_p d')) ->
   forall m, m <> name -> reg' !! m = (load (Listed builtin) dirs).1 !! m).
Proof.
  unfold Remove in H. rewrite load_Files in H. apply remove_files_all in H as [-> Hr]. intros reg'. unfold reg'. clear reg'.
  assert (forall d, d ∈ dir_decls dirs -> d_path d ∈ disk) as Hin.
  { intros d Hd. apply dir_decls_from in Hd as [(dir & l & e & H1 & _ & H2 & ->) _]. by eapply Hdisk. }
  assert (forall d, d ∈ dir_decls dirs ->
    bool_decide (d_path d ∈ disk ∖ list_to_set (paths (named name (dir_decls dirs)))) = negb (mem (d_path d) (paths (named name (dir_decls dirs))))) as Hleft.
  { intros d Hd. apply Hin in Hd. destruct (mem _ _) eqn:E; [apply mem_true in E|apply mem_false in E].
    - apply bool_decide_eq_false. set_solver.
    - apply bool_decide_eq_true. set_solver. }
  assert ((load (Listed builtin) (on_disk (disk ∖ list_to_set (paths (named name (dir_decls dirs)))) dirs)).1 !! name
    = entry_for (decls_of OriginBuiltIn [] builtin) name) as E.
  { rewrite load_lookup, on_disk_decls. unfold entry_for. rewrite named_app, named_filter.
    rewrite filter_none; [by rewrite app_nil_r|]. intros d Hd.
    pose proof Hd as [Hd' _]%named_elem. rewrite Hleft by done. apply negb_false_iff, mem_true, paths_elem.
    split; [by apply dir_decls_from in Hd' as (_ & ? & _)|]. by exists d. }
  split_and!.
  - done.
  - unfold IsCustom. rewrite E. destruct (entry_for _ name) as [e|] eqn:Ee; [|done].
    apply entry_for_builtin in Ee as [-> _]. done.
  - intros f. rewrite Hr, paths_elem. split.
    + intros [?%elem_of_nil|[[_ (d & [Hd Hn]%named_elem & <-)] _]]; [done|]. by exists d.
    + intros (d & Hd & Hn & <-). right. split; [|by apply Hin]. split; [by apply dir_decls_from in Hd as (_ & ? & _)|].
      exists d. by rewrite named_elem.
  - intros Hone m Hm. rewrite !load_lookup, on_disk_decls. unfold entry_for. rewrite !named_app, named_filter.
    rewrite filter_all; [done|]. intros d Hd.
    apply named_elem in Hd as [Hd Hn]. rewrite Hleft by done. apply negb_true_iff, mem_false.
    intros [_ (d' & [Hd' Hn']%named_elem & Ep)]%paths_elem. apply Hm. rewrite <- Hn, <- Hn'. by apply Hone.
Qed.

(** ** Importing a profile *)

Definition file_le (a b : gostr * gostr) : Prop := str_leb a.1 b.1 = true.
#[local] Instance file_le_dec a b : Decision (file_le a b).
Proof. unfold file_le. apply _. Defined.

Definition file_entry (f : gostr * gostr) : dirent := MkDirent f.1 false (Ok f.2).

(** What a directory of readable files lists, by name. *)
Definition folder_listing (files : folder) : listing := Listed (file_entry <$> merge_sort file_le (map_to_list files)).

(** A write that succeeds. *)
Definition write_file (files : folder) (name blob : gostr) : folder * option gostr := (<[name := blob]> files, None).

Lemma parsed_name_safe blob p : the_parse blob = Ok p -> safeName (p_name p) = true.
Proof.
  unfold parse_profile. destruct (UnmarshalStrict blob) as [q|]; [|done]. destruct (normaliseKind q) as [k|]; [|done].
  destruct (Validate (with_kind q k)) as [u|] eqn:E; [|done]. intros [= <-]. unfold Validate in E.
  apply seq_ok in E as [_ E]. apply seq_ok in E as [E _]. apply fail_if_ok, negb_false_iff in E. done.
Qed.

Lemma extension_listed blob : extensionFor blob ∈ profile_exts.
Proof. unfold extensionFor. destruct (trim_space blob) as [|c l]; [set_solver|]. destruct (Ascii.eqb c "{"); set_solver. Qed.

Lemma profile_file name ext : ext ∈ profile_exts -> isProfileFile (name ++ ext) = true.
Proof.
  intros H. unfold isProfileFile. apply mem_true. unfold path_Ext.
  assert (ext_loop ext = Some ext) as E by (unfold profile_exts in H; set_unfold in H; destruct H as [->|[->|[->|[]]]]; done).
  by rewrite (ext_loop_app name ext ext E).
Qed.

Lemma reserved_file name ext : ext ∈ profile_exts -> reservedName name = false -> mem (name ++ ext) reservedBasenames = false.
Proof. intros H. unfold reservedName. rewrite existsb_false, Forall_forall. intros Hr. by apply Hr. Qed.

Lemma ext_normal name ext : safeName name = true -> ext ∈ profile_exts -> normal (name ++ ext).
Proof.
  intros Hs H. unfold profile_exts in H. set_unfold in H.
  apply safeName_normal; [done| |]; destruct H as [->|[->|[->|[]]]]; try done; by apply mem_false.
Qed.

(** The names that an import writes or removes. *)
Definition import_names (name : gostr) : list gostr := (app name) <$> profile_exts.

Lemma import_delete (dir name path : gostr) (files : folder) :
  let fs' := clear_others dir name path files in
  (forall n, n ∉ import_names name -> fs' !! n = files !! n) /\
  (forall ext, ext ∈ profile_exts -> filepath_Join dir (name ++ ext) <> path -> fs' !! (name ++ ext) = None).
Proof.
  unfold clear_others, import_names, profile_exts. cbn [foldl]. split.
  - intros n Hn. set_unfold in Hn. repeat case_bool_decide; rewrite ?lookup_delete_ne by naive_solver; done.
  - intros ext Hext Hp. set_unfold in Hext.
    destruct Hext as [->|[->|[->|[]]]]; rewrite (bool_decide_false (filepath_Join dir (name ++ _) = path) Hp);
      repeat case_bool_decide; repeat (rewrite lookup_delete_None; first [by left|right]).
Qed.

Lemma decls_named_none origin dir l n :
  (forall e d, e ∈ l -> decl_of origin dir e = Some d -> p_name (d_p d) <> n) -> named n (decls_of origin dir l) = [].
Proof.
  intros H. apply filter_none. intros d (e & He & Hd)%list_elem_of_omap. apply bool_decide_eq_false. by eapply H.
Qed.

(** The one file of a directory that declares a name. *)
Lemma folder_one dir files n base blob p :
  files !! base = Some blob -> decl_of OriginFile dir (file_entry (base, blob)) = Some p -> p_name (d_p p) = n ->
  (forall b c q, files !! b = Some c -> b <> base -> decl_of OriginFile dir (file_entry (b, c)) = Some q -> p_name (d_p q) <> n) ->
  dir <> [] -> named n (dir_decls [(dir, folder_listing files)]) = [p].
Proof.
  intros Hb Hp Hn Ho Hd. cbn [dir_decls folder_listing]. rewrite bool_decide_false, app_nil_r by done.
  pose proof (merge_sort_Permutation file_le (map_to_list files)) as Pm. set (ms := merge_sort file_le (map_to_list files)) in *.
  assert ((base, blob) ∈ ms) as Hin by (rewrite Pm; by apply elem_of_map_to_list).
  assert (NoDup ms.*1) as Hnd by (rewrite Pm; apply NoDup_fst_map_to_list).
  assert (forall b c, (b, c) ∈ ms -> files !! b = Some c) as Hl by (intros b c H; rewrite Pm in H; by apply elem_of_map_to_list in H).
  apply list_elem_of_split in Hin as (l1 & l2 & E). rewrite E in Hnd, Hl |- *. rewrite fmap_app in Hnd. cbn [fmap list_fmap fst] in Hnd.
  apply NoDup_app in Hnd as (_ & Hn1 & [Hn2 _]%NoDup_cons).
  assert (forall l', (forall b c, (b, c) ∈ l' -> (b, c) ∈ l1 ++ (base, blob) :: l2 /\ b <> base) -> named n (decls_of OriginFile dir (file_entry <$> l')) = []) as None_.
  { intros l' H. apply decls_named_none. intros e d ([b c] & -> & Hbc)%list_elem_of_fmap Hdecl. apply H in Hbc as [Hbc Hne].
    by eapply Ho; [apply Hl| |]. }
  rewrite fmap_app. unfold decls_of. rewrite omap_app. cbn [fmap list_fmap omap list_omap].
  change (list_omap _ _ (decl_of OriginFile dir)) with (omap (decl_of OriginFile dir)). rewrite Hp.
  fold (decls_of OriginFile dir (file_entry <$> l1)). rewrite named_app.
  rewrite None_; [|intros b c H; split; [apply elem_of_app; by left|intros ->; apply (Hn1 base); [apply list_elem_of_fmap; by exists (base, c)|left]]].
  cbn [app named List.filter]. rewrite bool_decide_true by done. f_equal.
  apply None_. intros b c H. split; [apply elem_of_app; right; by right|]. intros ->. apply Hn2. apply list_elem_of_fmap. by exists (base, c).
Qed.

(** What [Import] has written, [Load] reads back: the profile answers to
    its name, from the file that [Import] named and no other, provided that no
    other file of the directory declares the name; the other files of the
    directory are untouched. *)
Lemma Import_loads (builtin : list dirent) (reg : registry) (blob dir path : gostr) (files files' : folder) (t : Profile)
  (Hdir : dir <> [])
  (H : Import_profile UnmarshalStrict top_keys order None write_file reg blob dir files = (files', Ok (t, path)))
  (Hparse : the_parse (final_newline blob) = Ok t)
  (Hother : forall n b p, files !! n = Some b -> n ∉ import_names (p_name t) -> the_parse b = Ok p -> p_name p <> p_name t) :
  let reg' := (load (Listed builtin) [(dir, folder_listing files')]).1 in
  profile_Lookup reg' (p_name t) = Some t /\ IsCustom reg' (p_name t) = true /\
  Files reg' (p_name t) = [path] /\ path = filepath_Join dir (p_name t ++ extensionFor blob) /\
  (forall n, n ∉ import_names (p_name t) -> files' !! n = files !! n).
Proof.
  intros reg'. unfold Import_profile in H. destruct (the_parse blob) as [t'|] eqn:Ep; [|done].
  destruct (match Reserved reg (p_name t') with Some _ => _ | None => _ end); [done|].
  destruct (reservedName (p_name t')) eqn:Er; [done|]. cbn [write_file] in H.
  injection H as <- -> <-. pose proof (parsed_name_safe _ _ Ep) as Hs. pose proof (extension_listed blob) as Hx.
  set (base := p_name t ++ extensionFor blob) in *.
  destruct (import_delete dir (p_name t) (filepath_Join dir base) files) as [Hkeep Hgone].
  set (files1 := clear_others _ _ _ _) in *.
  assert (base ∈ import_names (p_name t)) as Hbase by (apply list_elem_of_fmap; by exists (extensionFor blob)).
  set (d := MkDecl t (final_newline blob) OriginFile (filepath_Join dir base)).
  assert (forall b c q, decl_of OriginFile dir (file_entry (b, c)) = Some q -> the_parse c = Ok (d_p q)) as Hq.
  { intros b c q Hd. unfold decl_of in Hd. destruct (_ || _); [done|]. cbn in Hd. destruct (the_parse c); [|done]. by injection Hd as <-. }
  assert (decl_of OriginFile dir (file_entry (base, final_newline blob)) = Some d) as Hd.
  { unfold decl_of. cbn [file_entry de_dir de_name de_read fst snd].
    unfold base at 1 2. rewrite profile_file, reserved_file by done. cbn. rewrite Hparse. unfold host_path. by rewrite bool_decide_false. }
  assert (named (p_name t) (dir_decls [(dir, folder_listing (<[base:=final_newline blob]> files1))]) = [d]) as Hn.
  { eapply folder_one; [apply lookup_insert_eq|exact Hd|done| |done]. intros b c q Hb Hne Hqd.
    rewrite lookup_insert_ne in Hb by done. apply Hq in Hqd. destruct (decide (b ∈ import_names (p_name t))) as [Hi|Hi].
    - exfalso. apply list_elem_of_fmap in Hi as (ext & -> & Hext). rewrite Hgone in Hb; [done|done|].
      intros X. apply Hne. apply (filepath_Join_inj dir); [done| |by apply ext_normal|done]. by apply ext_normal.
    - rewrite Hkeep in Hb by done. by eapply Hother. }
  assert (reg' !! p_name t = Some (MkRegEntry t (final_newline blob) OriginFile (filepath_Join dir base) [])) as E.
  { unfold reg'. rewrite load_lookup. unfold entry_for. rewrite named_app, Hn, rev_app_distr. cbn [rev app d d_p d_source d_origin d_path].
    rewrite rev_involutive. by rewrite named_builtin. }
  split_and!.
  - unfold profile_Lookup. by rewrite E.
  - unfold IsCustom. by rewrite E.
  - unfold Files. rewrite E. cbn. rewrite bool_decide_false; [done|]. by apply filepath_Join_not_nil.
  - done.
  - intros n Hni. rewrite lookup_insert_ne by (intros ->; done). by apply Hkeep.
Qed.

(** ** Names and aliases *)

Definition keyed (reg : registry) : Prop := forall n e, reg !! n = Some e -> p_name (re_p e) = n.

Lemma load_keyed builtin dirs : keyed (load (Listed builtin) dirs).1.
Proof.
  intros n e. rewrite load_lookup. unfold entry_for. destruct (rev _) as [|d before] eqn:E; [done|]. intros [= <-]. cbn.
  assert (d ∈ rev (named n (decls_of OriginBuiltIn [] builtin ++ dir_decls dirs))) as Hd by (rewrite E; left).
  rewrite list_elem_of_In, <- in_rev, <- list_elem_of_In in Hd. by apply named_elem in Hd as [_ Hd].
Qed.

Lemma All_elem (reg : registry) p : p ∈ All reg <-> exists n e, reg !! n = Some e /\ re_p e = p.
Proof.
  unfold All. rewrite merge_sort_Permutation, list_elem_of_fmap. split.
  - intros (e & -> & He). apply list_elem_of_fmap in He as ([n e'] & -> & H). apply elem_of_map_to_list in H. by exists n, e'.
  - intros (n & e & H & <-). exists e. split; [done|]. apply list_elem_of_fmap. exists (n, e). split; [done|]. by apply elem_of_map_to_list.
Qed.

Lemma find_some {A} (p : A -> bool) (l : list A) x : List.find p l = Some x -> x ∈ l /\ p x = true.
Proof. rewrite list_elem_of_In. apply List.find_some. Qed.

(** A session of an agent is refused exactly when the name that the pair
    makes is the name of a reserved profile, and the profile named is it. *)
Lemma ReservedFor_exact (builtin : list dirent) (dirs : list (gostr * listing)) (slug agent owner : gostr) :
  let reg := (load (Listed builtin) dirs).1 in
  ReservedFor reg slug agent = Some owner <->
  owner = agent ++ lit "-" ++ slug /\ exists e, reg !! owner = Some e /\ p_reserved (re_p e) = true.
Proof.
  intros reg. unfold ReservedFor. split.
  - intros (p & E & Ep)%fmap_Some. apply find_some in E as [Hp Hc]. apply andb_true_iff in Hc as [Hr Hc].
    apply bool_decide_eq_true in Hc. subst owner. split; [done|]. apply All_elem in Hp as (n & e & He & <-).
    exists e. split; [|done]. by rewrite (load_keyed _ _ _ _ He).
  - intros (-> & e & He & Hr). destruct (List.find _ _) as [p|] eqn:E.
    + apply find_some in E as [_ Hc]. apply andb_true_iff in Hc as [_ Hc]. apply bool_decide_eq_true in Hc. by rewrite Hc.
    + exfalso. assert (re_p e ∈ All reg) as Hp by (apply All_elem; by eexists _, _).
      apply list_elem_of_In in Hp. pose proof (List.find_none _ _ E _ Hp) as Hf. cbn in Hf.
      rewrite Hr, (load_keyed _ _ _ _ He), bool_decide_true in Hf by done. done.
Qed.

End Registry.

(** The spellings listed for a registered profile are those that reach it
    and that no profile has taken, in any order of the range. *)
Lemma Aliases_reach (reg : gmap gostr reg_entry) (range : list (gostr * gostr)) (Hrange : range ≡ₚ aliases) (short canonical : gostr) (e : reg_entry)
  (He : reg !! canonical = Some e) :
  short ∈ Aliases range reg canonical <->
  reg !! short = None /\ Alias short = Some canonical /\ profile_Lookup reg short = Some (re_p e).
Proof.
  transitivity (reg !! short = None /\ Alias short = Some canonical).
  2: { split; [|tauto]. intros [Hn Ha]. split_and!; [done|done|]. unfold profile_Lookup. by rewrite Hn, Ha, He. }
  unfold Aliases. rewrite sort_strings_perm, list_elem_of_fmap. split.
  - intros ([s c] & -> & H). apply list_filter_elem in H as [H Hc]. apply andb_true_iff in Hc as [Hc Hn].
    apply bool_decide_eq_true in Hc. apply is_nil_true in Hn. subst c. split; [done|]. rewrite Hrange in H.
    unfold aliases in H. set_unfold in H. destruct H as [[= -> ->]|[[= -> ->]|[[= -> ->]|[]]]]; done.
  - intros [Hn Ha]. exists (short, canonical). split; [done|]. apply list_filter_elem.
    rewrite bool_decide_true, Hn by done. split; [|done]. rewrite Hrange. unfold Alias in Ha.
    destruct (List.find _ aliases) as [[s c]|] eqn:E; [|done]. cbn in Ha. injection Ha as ->.
    apply find_some in E as [E Hs]. apply bool_decide_eq_true in Hs. cbn in Hs. by subst s.
Qed.

(** ** Exporting *)

Lemma ext_loop_suffix s e : ext_loop s = Some e -> exists p, s = p ++ e.
Proof.
  revert e. induction s as [|c s IH]; intros e H; [done|]. cbn [ext_loop] in H. destruct (ext_loop s) as [e'|].
  - injection H as ->. destruct (IH e eq_refl) as [p ->]. by exists (c :: p).
  - destruct (_ && _); [|done]. injection H as <-. by exists [].
Qed.

Lemma trim_suffix_app p e : trim_suffix (p ++ e) e = p.
Proof.
  unfold trim_suffix. assert (strip_suffix e (p ++ e) = Some p) as -> by by apply strip_suffix_Some. done.
Qed.

Lemma profile_Dir_not_nil env : profile_Dir env <> [].
Proof.
  unfold profile_Dir. case_bool_decide as E; cbn; [|done]. unfold filepath_Join. rewrite (bool_decide_false (lit "brig" = [])), andb_false_r by done.
  apply Clean_not_nil.
Qed.

(** A destination that is taken is a file of the profile directory itself,
    one that [Load] reads: its name is safe, it has a profile's extension and
    it is not a settings file. *)
Lemma ExportPath_loadable (env : environment) (dest path : gostr) (asJSON : bool)
  (H : ExportPath env dest asJSON = Ok (Some path)) :
  exists base, path = filepath_Join (profile_Dir env) base /\
    (path = base \/ exists d, path = d ++ slash :: base) /\
    normal base /\ isProfileFile base = true /\ mem base reservedBasenames = false /\
    (base = dest \/ base = dest ++ lit ".json" \/ base = dest ++ lit ".yaml").
Proof.
  unfold ExportPath in H. destruct (bool_decide (dest = [])); [done|]. destruct (looksLikePath dest); [done|].
  set (base := if isProfileFile dest then dest else _) in H.
  destruct (safeName _) eqn:Es; [|done]. destruct (mem base reservedBasenames) eqn:Er; [done|]. injection H as <-.
  assert (isProfileFile base = true) as Hp.
  { unfold base. destruct (isProfileFile dest) eqn:E; [done|]. destruct asJSON; apply profile_file; unfold profile_exts; set_solver. }
  assert (normal base) as Hn.
  { pose proof Hp as Hp'. unfold isProfileFile in Hp'. apply mem_true in Hp'.
    destruct (ext_loop base) as [e|] eqn:El; [|by unfold path_Ext in Hp'; rewrite El in Hp'; unfold profile_exts in Hp'; set_unfold in Hp'; destruct Hp' as [|[|[|]]]].
    assert (path_Ext base = e) as Ee by (unfold path_Ext; by rewrite El). rewrite Ee in *. apply ext_loop_suffix in El as [stem El].
    rewrite El in Es |- *. rewrite trim_suffix_app in Es. by apply ext_normal. }
  exists base. split_and!; try done.
  - apply filepath_Join_shape; [apply profile_Dir_not_nil|done].
  - unfold base. destruct (isProfileFile dest); [by left|]. destruct asJSON; tauto.
Qed.

(** ** Renaming the profile in its text *)

Lemma rename_line_some n1 n2 line : is_Some (rename_line n1 line) <-> is_Some (rename_line n2 line).
Proof.
  unfold rename_line. destruct (has_suffix line carriage); destruct (cut_at _ _) as [[key rest]|]; try case_bool_decide; by rewrite ?is_Some_alt.
Qed.

(** A line that is renamed: the name's key, and its end of line. *)
Lemma rename_line_shape n line line' : rename_line n line = Some line' ->
  exists rest eol, line = lit "name:" ++ rest ++ eol /\ line' = lit "name: " ++ n ++ trailingComment rest ++ eol /\
    (eol = carriage \/ (eol = [] /\ has_suffix line carriage = false)).
Proof.
  unfold rename_line. destruct (has_suffix line carriage) eqn:E.
  - apply has_suffix_true in E as [body ->]. rewrite length_app. cbn [carriage length].
    replace (length body + 1 - 1)%nat with (length body) by lia. rewrite take_app_length.
    destruct (cut_at _ body) as [[key rest]|] eqn:C; [|done]. case_bool_decide as K; [|done]. intros [= <-].
    apply cut_at_Some in C. subst body key. exists rest, carriage. split_and!; [|done|by left]. by rewrite <- !app_assoc.
  - destruct (cut_at _ line) as [[key rest]|] eqn:C; [|done]. case_bool_decide as K; [|done]. intros [= <-].
    apply cut_at_Some in C. subst line key. exists rest, []. split_and!; [by rewrite app_nil_r|done|]. by right.
Qed.

Lemma safeName_bytes s : safeName s = true -> Forall (fun c => c <> "#"%char /\ c <> " "%char /\ c <> zb 9 /\ c <> zb 13 /\ c <> newline) s.
Proof.
  intros H. unfold safeName in H. apply andb_true_iff in H as [_ Hr]. pose proof (safe_runes_bytes _ _ Hr) as Hb.
  assert (Forall (fun c => is_ascii c = true) s) as Ha by (apply runes_all_ascii; eapply Forall_impl; [exact Hb|]; by intros r [_ ?]).
  rewrite (runes_ascii s Ha) in Hr. clear Hb Ha. revert Hr.
  enough (forall first, safe_runes first (bz <$> s) = true -> Forall (fun c => c <> "#"%char /\ c <> " "%char /\ c <> zb 9 /\ c <> zb 13 /\ c <> newline) s) as X by apply X.
  induction s as [|c s IH]; intros first Hr; [done|]. cbn [fmap list_fmap safe_runes] in Hr. apply andb_true_iff in Hr as [Hc Hr].
  constructor; [|by eapply IH]. split_and!; intros ->; by destruct first.
Qed.

Lemma leading_blanks_app x y : Forall (fun c => c = " "%char \/ c = zb 9) x ->
  (forall c y', y = c :: y' -> c <> " "%char /\ c <> zb 9) -> leading_blanks (x ++ y) = x.
Proof.
  intros Hx Hy. induction Hx as [|c x Hc Hx IH]; cbn [app leading_blanks].
  - destruct y as [|c y]; [done|]. destruct (Hy c y eq_refl) as [H1 H2]. cbn [leading_blanks].
    destruct (Ascii.eqb_spec c " "); [done|]. destruct (Ascii.eqb_spec c (zb 9)); done.
  - assert ((Ascii.eqb c " " || Ascii.eqb c (zb 9))%bool = true) as -> by (by destruct Hc as [->| ->]). by rewrite IH.
Qed.

Lemma leading_blanks_blank s : Forall (fun c => c = " "%char \/ c = zb 9) (leading_blanks s).
Proof.
  induction s as [|c s IH]; cbn [leading_blanks]; [done|].
  destruct (Ascii.eqb_spec c " "); [cbn; constructor; [by left|done]|]. destruct (Ascii.eqb_spec c (zb 9)); cbn; [|done]. constructor; [by right|done].
Qed.

Lemma trailingComment_again n rest : safeName n = true -> trailingComment (lit " " ++ n ++ trailingComment rest) = trailingComment rest.
Proof.
  intros Hn. pose proof (safeName_bytes n Hn) as Hb. pose proof Hb as Hb'. rewrite Forall_forall in Hb'.
  assert (n <> []) as Hne by (by intros ->).
  assert ("#"%char ∉ n) as Hh by (intros H; by destruct (Hb' _ H) as [X _]).
  unfold trailingComment at 2 3. destruct (cut_at (lit "#") rest) as [[a b]|] eqn:C.
  - set (bl := leading_blanks (rev a)). assert ("#"%char ∉ rev bl) as Hbl.
    { intros H. rewrite list_elem_of_In, <- in_rev, <- list_elem_of_In in H. pose proof (leading_blanks_blank (rev a)) as X.
      rewrite Forall_forall in X. by destruct (X _ H). }
    unfold trailingComment. change (lit "#" ++ b) with ("#"%char :: b). change (lit "#") with ["#"%char].
    assert (lit " " ++ n ++ rev bl ++ "#"%char :: b = (lit " " ++ n ++ rev bl) ++ "#"%char :: b) as -> by (by rewrite <- !app_assoc).
    rewrite cut_at_byte_app by (change (lit " ") with [" "%char]; set_solver). do 2 f_equal.
    rewrite !rev_app_distr, rev_involutive, <- app_assoc.
    apply leading_blanks_app; [apply leading_blanks_blank|]. intros c y E.
    destruct n as [|d n _] using rev_ind; [done|]. rewrite rev_app_distr in E. cbn in E. injection E as <- _.
    assert (d ∈ n ++ [d]) as Hd by (rewrite elem_of_app; right; constructor). apply Hb' in Hd. tauto.
  - rewrite app_nil_r. unfold trailingComment. change (lit "#") with ["#"%char].
    assert (cut_at ["#"%char] (lit " " ++ n) = None) as ->; [|done]. apply cut_at_byte. change (lit " ") with [" "%char]. set_solver.
Qed.

Lemma has_suffix_last x y c : y <> [] -> has_suffix (x ++ y) [c] = has_suffix y [c].
Proof.
  intros Hy. destruct y as [|d y _] using rev_ind; [done|]. apply eq_true_iff_eq. rewrite !has_suffix_true, app_assoc. split.
  - intros (r & E). apply app_inj_tail in E as [_ ->]. by exists y.
  - intros (r & E). apply app_inj_tail in E as [_ ->]. by exists (x ++ y).
Qed.

Lemma rename_line_value n rest eol :
  eol = carriage \/ (eol = [] /\ has_suffix (lit "name:" ++ rest) carriage = false) ->
  rename_line n (lit "name:" ++ rest ++ eol) = Some (lit "name: " ++ n ++ trailingComment rest ++ eol).
Proof.
  intros [-> |[-> H]]; unfold rename_line.
  - rewrite app_assoc. assert (has_suffix ((lit "name:" ++ rest) ++ carriage) carriage = true) as -> by (apply has_suffix_true; by eexists).
    rewrite length_app. cbn [carriage length].
    replace (length (lit "name:" ++ rest) + 1 - 1)%nat with (length (lit "name:" ++ rest)) by lia. rewrite take_app_length.
    change (lit "name:" ++ rest) with (lit "name" ++ ":"%char :: rest). change (lit ":") with [":"%char].
    rewrite cut_at_byte_app by (by apply mem_false). by rewrite bool_decide_true.
  - rewrite !app_nil_r, H. change (lit "name:" ++ rest) with (lit "name" ++ ":"%char :: rest). change (lit ":") with [":"%char].
    rewrite cut_at_byte_app by (by apply mem_false). rewrite bool_decide_true by done. by rewrite app_nil_r.
Qed.

Lemma rename_line_again n1 n2 line line' : safeName n1 = true -> rename_line n1 line = Some line' ->
  rename_line n2 line' = rename_line n2 line.
Proof.
  intros Hn H. apply rename_line_shape in H as (rest & eol & -> & -> & He).
  rewrite rename_line_value.
  2: { destruct He as [?|[-> He]]; [by left|right]. split; [done|]. by rewrite app_nil_r in He. }
  change (lit "name: " ++ n1 ++ trailingComment rest ++ eol) with (lit "name:" ++ (lit " " ++ n1 ++ (trailingComment rest ++ eol))).
  rewrite (app_assoc n1), (app_assoc (lit " ")), rename_line_value.
  { by rewrite trailingComment_again. }
  destruct He as [?|[-> He]]; [by left|right]. split; [done|]. rewrite app_nil_r in He.
  unfold trailingComment. destruct (cut_at (lit "#") rest) as [[a b]|] eqn:C.
  - apply cut_at_Some in C. subst rest. rewrite app_assoc in He. rewrite !app_assoc, <- (app_assoc _ (lit "#") b).
    unfold carriage in *. by rewrite has_suffix_last in He |- *.
  - rewrite app_nil_r, app_assoc. unfold carriage. rewrite has_suffix_last by (by intros ->).
    destruct (has_suffix n1 [zb 13]) eqn:E; [|done]. apply has_suffix_true in E as [r ->].
    pose proof (safeName_bytes _ Hn) as Hb. apply Forall_app in Hb as [_ [(_ & _ & _ & Hb & _) _]%Forall_cons]. by destruct Hb.
Qed.

Lemma rename_lines_shape n lines lines' : rename_lines n lines = Some lines' ->
  exists before line line' after, lines = before ++ line :: after /\ lines' = before ++ line' :: after /\
    rename_line n line = Some line' /\ Forall (fun l => rename_line n l = None) before.
Proof.
  revert lines'. induction lines as [|line lines IH]; intros lines' H; [done|]. cbn [rename_lines] in H.
  destruct (rename_line n line) as [line'|] eqn:E.
  - injection H as <-. by exists [], line, line', lines.
  - apply fmap_Some in H as (tl & H & ->). destruct (IH tl H) as (before & l & l' & after & -> & -> & Hl & Hb).
    exists (line :: before), l, l', after. split_and!; [done|done|done|]. by constructor.
Qed.

Lemma rename_lines_at n before line line' after :
  Forall (fun l => rename_line n l = None) before -> rename_line n line = Some line' ->
  rename_lines n (before ++ line :: after) = Some (before ++ line' :: after).
Proof. intros Hb Hl. induction Hb as [|l before H Hb IH]; cbn [app rename_lines]; [by rewrite Hl|]. by rewrite H, IH. Qed.

Lemma trailingComment_occurs rest : trailingComment rest = [] \/ exists p, rest = p ++ trailingComment rest.
Proof.
  unfold trailingComment. destruct (cut_at _ rest) as [[a b]|] eqn:C; [|by left]. right. apply cut_at_Some in C as ->.
  assert (exists p, a = p ++ rev (leading_blanks (rev a))) as [p Hp].
  { assert (exists q, rev a = leading_blanks (rev a) ++ q) as [q E].
    { clear. induction (rev a) as [|c s [q IH]]; [by exists []|]. cbn [leading_blanks]. destruct (_ || _); [|by eexists].
      exists q. cbn. by f_equal. }
    exists (rev q). rewrite <- (rev_involutive a) at 1. rewrite E at 1. by rewrite rev_app_distr. }
  exists p. rewrite Hp at 1. by rewrite <- app_assoc.
Qed.

(** Renaming rewrites one line, the first of the top-level name, keeps
    every other line and the comment and the end of this one, and the last
    rename is the one that shows. *)
Lemma renameField_one_line (blob n out : gostr) (Hn : safeName n = true) (H : renameField blob n = Some out) :
  (exists before rest eol after,
    split_byte newline blob = before ++ (lit "name:" ++ rest ++ eol) :: after /\
    split_byte newline out = before ++ (lit "name: " ++ n ++ trailingComment rest ++ eol) :: after /\
    Forall (fun l => rename_line n l = None) before) /\
  forall n2, renameField out n2 = renameField blob n2.
Proof.
  unfold renameField in H. apply fmap_Some in H as (lines' & H & ->).
  apply rename_lines_shape in H as (before & line & line' & after & E & -> & Hl & Hb).
  pose proof (split_byte_no_sep newline blob) as Hs. rewrite E in Hs. apply Forall_app in Hs as [Hs1 [Hs2 Hs3]%Forall_cons].
  pose proof Hl as Hl'. apply rename_line_shape in Hl' as (rest & eol & -> & -> & He).
  assert (newline ∉ lit "name: " ++ n ++ trailingComment rest ++ eol) as Hnl.
  { rewrite !elem_of_app in Hs2. intros [X|[X|[X|X]%elem_of_app]%elem_of_app]%elem_of_app; [by apply mem_false in X| | |apply Hs2; by right; right].
    - pose proof (safeName_bytes n Hn) as Y. rewrite Forall_forall in Y. apply Y in X as (_ & _ & _ & _ & X). by destruct X.
    - destruct (trailingComment_occurs rest) as [Ec|[p Ec]]; [by rewrite Ec in X; apply elem_of_nil in X|].
      apply Hs2. right. left. rewrite Ec, elem_of_app. by right. }
  assert (split_byte newline (join [newline] (before ++ (lit "name: " ++ n ++ trailingComment rest ++ eol) :: after))
    = before ++ (lit "name: " ++ n ++ trailingComment rest ++ eol) :: after) as Eo.
  { apply split_byte_join; [by destruct before|]. apply Forall_app. split; [done|]. by constructor. }
  split.
  - exists before, rest, eol, after. by rewrite E, Eo.
  - intros n2. unfold renameField. rewrite E, Eo. f_equal.
    assert (Forall (fun l => rename_line n2 l = None) before) as Hb2.
    { eapply Forall_impl; [exact Hb|]. intros l X. apply eq_None_not_Some. rewrite (rename_line_some n2 n). by apply eq_None_not_Some. }
    destruct (rename_line n2 (lit "name:" ++ rest ++ eol)) as [l2|] eqn:E2.
    2: { exfalso. apply eq_None_not_Some in E2. apply E2. rewrite (rename_line_some n2 n). by eexists. }
    rewrite !(rename_lines_at _ _ _ l2); [done|done|done|done|]. by rewrite (rename_line_again n n2 _ _ Hn Hl).
Qed.

(** ** Concrete runs *)

(** A decoder for the examples: a text is the name of a profile. *)
Definition name_decoder (blob : gostr) : res gostr Profile := Ok (with_name example_profile (trim_suffix blob [newline])).
Definition no_top_keys (_ : gostr) : option (list gostr) := None.
Definition text_file (name blob : string) : dirent := MkDirent (lit name) false (Ok (lit blob)).
Notation demo_load := (Load name_decoder no_top_keys removedKeys).

Definition demo_builtin : list dirent := [text_file "codex.yaml" "codex"; text_file "claude-code.yaml" "claude-code"].
Definition demo_dir : list dirent :=
  [text_file "README.md" "x"; text_file "a.yaml" "codex"; text_file "b.yaml" "codex"; text_file "bad.yaml" "Bad name";
   text_file "c.yml" "mine"; text_file "config.yaml" "config"].

Example Load_example :
  let r := demo_load (Listed demo_builtin) [(lit "/p", Listed demo_dir); (lit "/none", NotExist)] in
  All_names r.1 = [lit "claude-code"; lit "codex"; lit "mine"] /\ Files r.1 (lit "codex") = [lit "/p/a.yaml"; lit "/p/b.yaml"] /\
  Files r.1 (lit "claude-code") = [] /\
  r.2 = Some (Problems (MkProblems [Unusable (lit "/p/bad.yaml") (UnparsedFile (Invalid (PName)))]
                          [Duplicate (lit "a.yaml") (lit "b.yaml") (lit "/p") (lit "codex")])).
Proof. vm_compute. done. Qed.

(** A directory that is spelled with a slash at its end: its two files with
    one name are not reported. *)
Example trailing_slash_silent :
  (demo_load (Listed demo_builtin) [(lit "/p/", Listed [text_file "a.yaml" "codex"; text_file "b.yaml" "codex"])]).2 = None.
Proof. vm_compute. done. Qed.

(** The current directory: a file that overrides a built-in profile is
    reported as a second file of the directory. *)
Example dot_directory_reported :
  (demo_load (Listed demo_builtin) [(lit ".", Listed [text_file "a.yaml" "codex"])]).2
  = Some (Problems (MkProblems [] [Duplicate (lit ".") (lit "a.yaml") (lit ".") (lit "codex")])).
Proof. vm_compute. done. Qed.

Definition demo_dirs : list (gostr * listing) := [(lit "/p", Listed demo_dir)].
Definition demo_disk : gset gostr := list_to_set ((fun e => filepath_Join (lit "/p") (de_name e)) <$> demo_dir).

Definition demo_removal := Remove (fun _ => None) (demo_load (Listed demo_builtin) demo_dirs).1 demo_disk (lit "codex").

Lemma pair_of {A B} (x : A * B) (b : B) : x.2 = b -> x = (x.1, b).
Proof. destruct x. by intros <-. Qed.

Lemma Remove_sticks_witness :
  IsCustom (demo_load (Listed demo_builtin) (on_disk demo_removal.1 demo_dirs)).1 (lit "codex") = false /\
  (forall f, f ∈ [lit "/p/a.yaml"; lit "/p/b.yaml"] <-> exists d, d ∈ dir_decls name_decoder no_top_keys removedKeys demo_dirs /\
     p_name (d_p d) = lit "codex" /\ d_path d = f).
Proof.
  destruct (Remove_sticks name_decoder no_top_keys removedKeys demo_builtin demo_dirs (fun _ => None) demo_disk demo_removal.1
    [lit "/p/a.yaml"; lit "/p/b.yaml"] (lit "codex")) as (_ & H1 & H2 & _).
  - intros dir l e Hd He. apply list_elem_of_singleton in Hd. injection Hd as -> ->. apply elem_of_list_to_set, list_elem_of_fmap. by exists e.
  - apply (pair_of demo_removal). vm_compute. reflexivity.
  - split; assumption.
Defined.

Definition demo_folder : gmap gostr gostr := {[ lit "old.json" := lit "other"; lit "mine.json" := lit "mine" ]}.

Definition demo_import := Import_profile name_decoder no_top_keys removedKeys None write_file ∅ (lit "mine") (lit "/p") demo_folder.

Lemma Import_loads_witness :
  let reg := (demo_load (Listed demo_builtin) [(lit "/p", folder_listing demo_import.1)]).1 in
  profile_Lookup reg (lit "mine") = Some (with_name example_profile (lit "mine")) /\ Files reg (lit "mine") = [lit "/p/mine.yaml"].
Proof.
  destruct (Import_loads name_decoder no_top_keys removedKeys demo_builtin ∅ (lit "mine") (lit "/p") (lit "/p/mine.yaml") demo_folder
    demo_import.1 (with_name example_profile (lit "mine"))) as (H1 & _ & H2 & _).
  - done.
  - apply (pair_of demo_import). vm_compute. reflexivity.
  - vm_compute. reflexivity.
  - intros n b p Hn Hi. unfold demo_folder in Hn. apply lookup_insert_Some in Hn as [[<- <-]|[_ Hn]].
    + vm_compute. intros [= <-]. done.
    + apply lookup_singleton_Some in Hn as [<- <-]. exfalso. apply Hi. by apply mem_true.
  - split; assumption.
Defined.

Lemma Aliases_reach_witness :
  lit "claude" ∈ Aliases aliases (demo_load (Listed demo_builtin) []).1 (lit "claude-code").
Proof.
  destruct ((demo_load (Listed demo_builtin) []).1 !! lit "claude-code") as [e|] eqn:E; [|vm_compute in E; discriminate].
  apply (Aliases_reach _ aliases (Permutation_refl _) _ _ e E). split; [reflexivity|]. split; [reflexivity|].
  unfold profile_Lookup. rewrite (eq_refl : (demo_load (Listed demo_builtin) []).1 !! lit "claude" = None).
  rewrite (eq_refl : Alias (lit "claude") = Some (lit "claude-code")). rewrite E. reflexivity.
Defined.

Definition demo_env : environment := MkEnvironment (fun _ => []) (Some (lit "/home/u")).

Lemma ExportPath_loadable_witness :
  ExportPath demo_env (lit "mytool") false = Ok (Some (lit "/home/u/.config/brig/mytool.yaml")) /\
  exists base, lit "/home/u/.config/brig/mytool.yaml" = filepath_Join (profile_Dir demo_env) base /\ isProfileFile base = true.
Proof.
  split; [vm_compute; reflexivity|].
  destruct (ExportPath_loadable demo_env (lit "mytool") (lit "/home/u/.config/brig/mytool.yaml") false) as (base & H1 & _ & _ & H2 & _);
    [vm_compute; reflexivity|]. exists base. split; assumption.
Defined.

Definition demo_text : gostr := lit "# a copy" ++ [newline] ++ lit "name: codex  # keep" ++ [newline] ++ lit "image: x" ++ [newline].

Lemma renameField_one_line_witness :
  renameField demo_text (lit "mine")
  = Some (lit "# a copy" ++ [newline] ++ lit "name: mine  # keep" ++ [newline] ++ lit "image: x" ++ [newline]) /\
  renameField (lit "# a copy" ++ [newline] ++ lit "name: mine  # keep" ++ [newline] ++ lit "image: x" ++ [newline]) (lit "b")
  = renameField demo_text (lit "b").
Proof.
  split; [vm_compute; reflexivity|].
  refine (proj2 (renameField_one_line demo_text (lit "mine") _ _ _) (lit "b")); vm_compute; reflexivity.
Defined.
