(* ===== verification/Session.v ===== *)
(** * Session names and refs (internal/session)

    How the name of a session becomes the text of a path ([Slug]), how an older
    release would have cut it ([LegacySlug]), and how a session is named on a
    command line ([ParseRef], [String]).  The profiles are those of
    [ProfileReg]. *)

From stdpp Require Import prelude list strings gmap.
From Stdlib Require Import ZArith Lia ZifyNat Ascii.
From S2P Require Import Prelude GoUnicode GoStrings GoPath GoClean Profile ProfileReg.

Local Open Scope Z_scope.

(** ** session.go *)

(** The body of the loop of [Slug]: one dash for a rune that is not kept. *)
Definition slug_rune (r : Z) : gostr :=
  if in_range 65 90 r then encode_rune (r + (97 - 65))
  else if in_range 97 122 r || in_range 48 57 r || bool_decide (r = 46) || bool_decide (r = 95) || bool_decide (r = 45)
  then encode_rune r
  else lit "-".

Fixpoint collapse_loop (prevDash : bool) (l : list Z) : gostr :=
  match l with
  | [] => []
  | r :: l' =>
    if bool_decide (r = 45) then (if prevDash then collapse_loop true l' else encode_rune r ++ collapse_loop true l')
    else encode_rune r ++ collapse_loop false l'
  end.
Definition collapseDashes (s : gostr) : gostr := collapse_loop false (runes s).

(** The cutset "-.". *)
Definition dash_or_dot (r : Z) : bool := bool_decide (r = 45) || bool_decide (r = 46).

Definition Slug (name : gostr) : gostr :=
  let s := collapseDashes (runes name ≫= slug_rune) in
  let s := trim_left dash_or_dot s in
  trim_right dash_or_dot s.

Definition legacyBudget : nat := 10.

Definition LegacySlug (name : gostr) : gostr :=
  let s := Slug name in
  if (length s <=? legacyBudget)%nat then s else trim_right dash_or_dot (take legacyBudget s).

Inductive resolve_error := NoUsable (name : gostr) | NameTaken (name slug owner : gostr).

(** [session.Resolve]. *)
Definition Resolve_name (reg : gmap gostr reg_entry) (agent name : gostr) : res resolve_error gostr :=
  let slug := Slug name in
  if bool_decide (slug = []) then Err (NoUsable name)
  else match ReservedFor reg slug agent with
       | Some owner => Err (NameTaken name slug owner)
       | None => Ok slug
       end.

(** ** ref.go *)

Record SessionRef := MkSessionRef { sr_agent : gostr; sr_label : gostr }.

Definition refSep : gostr := lit "@".

Inductive sessionref_error :=
  | ManySeparators (s : gostr)
  | NoAgent (s : gostr)
  | NoLabel (s : gostr)
  | LabelUnusable (label : gostr)
  | LabelRewritten (label slug : gostr)
  | LabelTaken (label owner : gostr).

(** [session.ParseRef]. *)
Definition ParseSessionRef (reg : gmap gostr reg_entry) (s : gostr) : res sessionref_error SessionRef :=
  let '(agent, label, hasLabel) := cut s refSep in
  if contains label refSep then Err (ManySeparators s)
  else if bool_decide (agent = []) then Err (NoAgent s)
  else if negb hasLabel then Ok (MkSessionRef agent [])
  else if bool_decide (label = []) then Err (NoLabel s)
  else
    let slug := Slug label in
    if negb (bool_decide (slug = label))
    then (if bool_decide (slug = []) then Err (LabelUnusable label) else Err (LabelRewritten label slug))
    else
      match (match profile_Lookup reg agent with Some p => ReservedFor reg label (p_name p) | None => None end) with
      | Some owner => Err (LabelTaken label owner)
      | None => Ok (MkSessionRef agent label)
      end.

Definition IsRefShaped (s : gostr) : bool := contains s refSep.

(** [Ref.String]. *)
Definition SessionRef_String (r : SessionRef) : gostr :=
  if bool_decide (sr_label r = []) then sr_agent r else sr_agent r ++ refSep ++ sr_label r.

Example Slug_examples :
  Slug <$> [lit "Foo"; lit "foo!"; lit "My  Session"; lit "../../etc"; lit "--x--y--"; lit ".hidden"; lit "!!!"; lit "a_b.c-d"]
  = [lit "foo"; lit "foo"; lit "my-session"; lit "etc"; lit "x-y"; lit "hidden"; []; lit "a_b.c-d"].
Proof. vm_compute. done. Qed.

(** ** Trimming ASCII text *)

Fixpoint drop_while (f : byte -> bool) (s : gostr) : gostr :=
  match s with
  | c :: s' => if f c then drop_while f s' else s
  | [] => []
  end.

Lemma trim_left_ascii f s : Forall (fun c => is_ascii c = true) s -> trim_left f s = drop_while (fun c => f (bz c)) s.
Proof.
  unfold trim_left. intros H. generalize (le_n (length s)). generalize (length s) at 2 3 as k. intros k. revert s H.
  induction k as [|k IH]; intros [|c s] H Hk; try done; [cbn in Hk; lia|].
  apply Forall_cons in H as [Hc H]. cbn [trim_left_fuel drop_while]. rewrite decode_rune_ascii by done.
  destruct (f (bz c)); [|done]. cbn [drop]. apply IH; [done|cbn in Hk; lia].
Qed.

Lemma trim_right_ascii f s : Forall (fun c => is_ascii c = true) s -> trim_right f s = rev (drop_while (fun c => f (bz c)) (rev s)).
Proof.
  unfold trim_right. intros H. generalize (le_n (length s)). generalize (length s) at 2 3 as k. intros k. revert s H.
  induction k as [|k IH]; intros s H Hk.
  - destruct s; [done|cbn in Hk; lia].
  - destruct s as [|c s _] using rev_ind; [done|]. rewrite rev_app_distr. cbn [rev app drop_while].
    assert (trim_right_fuel (S k) f (s ++ [c]) = if f (bz c) then trim_right_fuel k f s else s ++ [c]) as ->.
    { destruct (s ++ [c]) as [|x t] eqn:E; [by destruct s|]. cbn [trim_right_fuel]. rewrite <- E in *. rewrite last_rune_ascii by done.
      assert ((length (s ++ [c]) - 1)%nat = length s) as -> by (rewrite length_app; cbn; lia). by rewrite take_app_length. }
    destruct (f (bz c)); [|by rewrite <- (rev_involutive s) at 1].
    apply Forall_app in H as [H _]. apply IH; [done|]. rewrite length_app in Hk. cbn in Hk. lia.
Qed.

(** ** What a slug is *)

Definition slug_byte (c : byte) : bool :=
  in_range 97 122 (bz c) || in_range 48 57 (bz c) || Ascii.eqb c "." || Ascii.eqb c "_" || Ascii.eqb c "-".
Definition edge (c : byte) : bool := Ascii.eqb c "-" || Ascii.eqb c ".".

(** Lowercase letters, digits, dots, dashes and underscores, no two dashes
    together, and neither a dash nor a dot at an end. *)
Record slug_text (s : gostr) : Prop := {
  st_bytes : Forall (fun c => slug_byte c = true) s;
  st_dashes : ~ occurs (lit "--") s;
  st_first : forall c t, s = c :: t -> edge c = false;
  st_last : forall c t, s = t ++ [c] -> edge c = false }.

Lemma slug_byte_ascii c : slug_byte c = true -> is_ascii c = true.
Proof.
  unfold slug_byte, is_ascii. rewrite !orb_true_iff, !in_range_true, !Ascii.eqb_eq. intros [[[[?|?]|?]|?]|?]; try lia; by subst c.
Qed.

Lemma slug_bytes_ascii s : Forall (fun c => slug_byte c = true) s -> Forall (fun c => is_ascii c = true) s.
Proof. intros H. eapply Forall_impl; [exact H|]. apply slug_byte_ascii. Qed.

Lemma edge_dash_or_dot c : dash_or_dot (bz c) = edge c.
Proof.
  unfold dash_or_dot, edge. f_equal; apply eq_true_iff_eq; rewrite bool_decide_eq_true, Ascii.eqb_eq.
  - split; [intros H; apply bz_inj; by rewrite H|by intros ->].
  - split; [intros H; apply bz_inj; by rewrite H|by intros ->].
Qed.

Lemma drop_while_ext f g s : (forall c, f c = g c) -> drop_while f s = drop_while g s.
Proof. intros H. induction s as [|c s IH]; [done|]. cbn. by rewrite H, IH. Qed.

Lemma drop_while_suffix f s : exists p, s = p ++ drop_while f s /\ (forall c t, drop_while f s = c :: t -> f c = false).
Proof.
  induction s as [|c s (p & E & H)]; [by exists []|]. cbn. destruct (f c) eqn:Ec.
  - exists (c :: p). split; [cbn; by f_equal|done].
  - exists []. split; [done|]. by intros d t [= <- <-].
Qed.

Lemma drop_while_id f s : (forall c t, s = c :: t -> f c = false) -> drop_while f s = s.
Proof. destruct s as [|c s]; [done|]. intros H. cbn. by rewrite (H c s eq_refl). Qed.

(** The two trims of a slug. *)
Definition trim_edges (s : gostr) : gostr := rev (drop_while edge (rev (drop_while edge s))).

Lemma trim_edges_eq s : Forall (fun c => is_ascii c = true) s -> trim_right dash_or_dot (trim_left dash_or_dot s) = trim_edges s.
Proof.
  intros H. unfold trim_edges. rewrite trim_left_ascii by done.
  rewrite (drop_while_ext _ edge) by (intros; apply edge_dash_or_dot). rewrite trim_right_ascii.
  - by rewrite (drop_while_ext _ edge) by (intros; apply edge_dash_or_dot).
  - destruct (drop_while_suffix edge s) as (p & E & _). rewrite E in H. by apply Forall_app in H as [_ H].
Qed.

Lemma trim_edges_spec s : exists p q, s = p ++ trim_edges s ++ q /\
  (forall c t, trim_edges s = c :: t -> edge c = false) /\ (forall c t, trim_edges s = t ++ [c] -> edge c = false).
Proof.
  unfold trim_edges. destruct (drop_while_suffix edge s) as (p & E & Hf). set (d := drop_while edge s) in *.
  destruct (drop_while_suffix edge (rev d)) as (q & Er & Hl). set (e := drop_while edge (rev d)) in *.
  assert (d = rev e ++ rev q) as Ed by (rewrite <- rev_app_distr, <- Er; by rewrite rev_involutive).
  exists p, (rev q). split_and!.
  - by rewrite <- Ed.
  - intros c t H. apply (Hf c (t ++ rev q)). by rewrite Ed, H.
  - intros c t H. apply (Hl c (rev t)). rewrite <- (rev_involutive e), H, rev_app_distr. done.
Qed.

Lemma trim_edges_id s : (forall c t, s = c :: t -> edge c = false) -> (forall c t, s = t ++ [c] -> edge c = false) -> trim_edges s = s.
Proof.
  intros Hf Hl. unfold trim_edges. rewrite (drop_while_id edge s Hf), drop_while_id; [apply rev_involutive|].
  intros c t H. apply (Hl c (rev t)). rewrite <- (rev_involutive s), H. done.
Qed.

Lemma slug_rune_byte r : exists c, slug_rune r = [c] /\ slug_byte c = true /\ (forall d, slug_byte d = true -> r = bz d -> c = d).
Proof.
  assert (forall z, 0 <= z < 128 -> encode_rune z = [zb z]) as Enc.
  { intros z Hz. rewrite <- (bz_zb_small z) at 1 by lia. apply encode_rune_ascii. unfold is_ascii. rewrite bz_zb_small by lia. lia. }
  assert (forall d, slug_byte d = true -> in_range 65 90 (bz d) = false /\
    (in_range 97 122 (bz d) || in_range 48 57 (bz d) || bool_decide (bz d = 46) || bool_decide (bz d = 95) || bool_decide (bz d = 45)) = true) as Keep.
  { intros d Hd. unfold slug_byte in Hd. rewrite !orb_true_iff, !in_range_true, !Ascii.eqb_eq in Hd.
    split; [apply not_true_iff_false; rewrite in_range_true|rewrite !orb_true_iff, !in_range_true, !bool_decide_eq_true];
      destruct Hd as [[[[?|?]| ->]| ->]| ->]; try lia; try tauto; by vm_compute; intuition congruence. }
  unfold slug_rune. destruct (in_range 65 90 r) eqn:Eu.
  - pose proof Eu as Hu. apply in_range_true in Hu. exists (zb (r + (97 - 65))). split_and!; [apply Enc; lia| |].
    + unfold slug_byte. rewrite bz_zb_small by lia. assert (in_range 97 122 (r + (97 - 65)) = true) as -> by (apply in_range_true; lia). done.
    + intros d Hd ->. destruct (Keep d Hd) as [X _]. congruence.
  - destruct (_ || _) eqn:Ek.
    + assert (0 <= r < 128) as Hr.
      { rewrite !orb_true_iff, !in_range_true, !bool_decide_eq_true in Ek. lia. }
      exists (zb r). split_and!; [by apply Enc| |].
      * unfold slug_byte. rewrite bz_zb_small by lia. rewrite !orb_true_iff, !bool_decide_eq_true in Ek. rewrite !orb_true_iff.
        destruct Ek as [[[[?|?]| ->]| ->]| ->]; tauto.
      * intros d Hd ->. apply zb_bz.
    + exists "-"%char. split_and!; [done|done|]. intros d Hd ->. destruct (Keep d Hd) as [_ X]. congruence.
Qed.

Lemma occurs_dashes c s : occurs (lit "--") (c :: s) <-> (c = "-"%char /\ exists t, s = "-"%char :: t) \/ occurs (lit "--") s.
Proof.
  split.
  - intros (a & b & E). destruct a as [|x a].
    + left. injection E as -> E. split; [done|]. by exists b.
    + right. injection E as _ E. by exists a, b.
  - intros [(-> & t & ->)|(a & b & ->)]; [by exists [], t|]. by exists (c :: a), b.
Qed.

Lemma collapse_bytes prev s : Forall (fun c => slug_byte c = true) s ->
  let out := collapse_loop prev (bz <$> s) in
  Forall (fun c => slug_byte c = true) out /\ ~ occurs (lit "--") out /\ (prev = true -> forall t, out <> "-"%char :: t).
Proof.
  intros H. revert prev. induction H as [|c s Hc H IH]; intros prev; cbn [fmap list_fmap collapse_loop].
  - split_and!; [done| |done]. intros X%occurs_nil. done.
  - rewrite encode_rune_ascii by by apply slug_byte_ascii. case_bool_decide as Ec.
    + assert (c = "-"%char) as -> by (by apply bz_inj). destruct (IH true) as (H1 & H2 & H3). destruct prev; [done|].
      cbn [app]. split_and!; [by constructor| |done]. rewrite occurs_dashes. intros [(_ & t & X)|X]; [|done]. by apply (H3 eq_refl t).
    + assert (c <> "-"%char) as Hne by (intros ->; done). destruct (IH false) as (H1 & H2 & _). cbn [app].
      split_and!; [by constructor| |by intros _ t [= ]]. rewrite occurs_dashes. tauto.
Qed.

Lemma collapse_id prev s : Forall (fun c => slug_byte c = true) s -> ~ occurs (lit "--") s -> (prev = true -> forall t, s <> "-"%char :: t) ->
  collapse_loop prev (bz <$> s) = s.
Proof.
  intros H. revert prev. induction H as [|c s Hc H IH]; intros prev Hd Hp; cbn [fmap list_fmap collapse_loop]; [done|].
  rewrite encode_rune_ascii by by apply slug_byte_ascii. rewrite occurs_dashes in Hd. case_bool_decide as Ec.
  - assert (c = "-"%char) as -> by (by apply bz_inj). destruct prev; [by destruct (Hp eq_refl s)|].
    cbn [app]. f_equal. apply IH; [tauto|]. intros _ t ->. apply Hd. left. split; [done|]. by exists t.
  - cbn [app]. f_equal. apply IH; [tauto|done].
Qed.

Lemma slug_runes_bytes l : Forall (fun c => slug_byte c = true) (l ≫= slug_rune).
Proof.
  induction l as [|r l IH]; [done|]. cbn [mbind list_bind]. destruct (slug_rune_byte r) as (c & -> & Hc & _). by constructor.
Qed.

Lemma slug_runes_id s : Forall (fun c => slug_byte c = true) s -> (bz <$> s) ≫= slug_rune = s.
Proof.
  induction 1 as [|c s Hc H IH]; [done|]. cbn [fmap list_fmap mbind list_bind]. destruct (slug_rune_byte (bz c)) as (d & -> & _ & Hd).
  rewrite (Hd c Hc eq_refl). cbn. by f_equal.
Qed.

(** A piece of a slug's text that is trimmed at its ends is one. *)
Lemma slug_text_trim s t : Forall (fun c => slug_byte c = true) s -> ~ occurs (lit "--") s -> occurs t s ->
  slug_text (trim_right dash_or_dot (trim_left dash_or_dot t)).
Proof.
  intros Hb Hd Ht. pose proof (occurs_Forall _ _ _ Ht Hb) as Hbt.
  rewrite trim_edges_eq by by apply slug_bytes_ascii. destruct (trim_edges_spec t) as (p & q & E & Hf & Hl).
  assert (occurs (trim_edges t) t) as Ho by (by exists p, q).
  split; [by eapply occurs_Forall| |done|done]. intros X. apply Hd. eapply occurs_trans; [exact X|]. by eapply occurs_trans.
Qed.

Lemma Slug_safe name : slug_text (Slug name).
Proof.
  unfold Slug, collapseDashes. pose proof (slug_runes_bytes (runes name)) as Hb.
  rewrite (runes_ascii (_ ≫= _)) by by apply slug_bytes_ascii. destruct (collapse_bytes false _ Hb) as (H1 & H2 & _).
  by apply (slug_text_trim _ _ H1 H2), occurs_refl.
Qed.

Lemma Slug_fix s : slug_text s -> Slug s = s.
Proof.
  intros [Hb Hd Hf Hl]. unfold Slug, collapseDashes. rewrite (runes_ascii s) by by apply slug_bytes_ascii.
  rewrite slug_runes_id by done. rewrite (runes_ascii s) by by apply slug_bytes_ascii.
  rewrite collapse_id by done. rewrite trim_edges_eq by by apply slug_bytes_ascii. by apply trim_edges_id.
Qed.

Lemma Slug_fix_iff s : Slug s = s <-> slug_text s.
Proof. split; [intros <-; apply Slug_safe|apply Slug_fix]. Qed.

Lemma slug_without s c : slug_text s -> slug_byte c = false -> c ∉ s.
Proof. intros [Hb _ _ _] Hc Hin. rewrite Forall_forall in Hb. apply Hb in Hin. congruence. Qed.

(** A slug that is not empty is one component of a path. *)
Lemma slug_normal s : slug_text s -> s <> [] -> normal s.
Proof.
  intros Hs Hne. split_and!; [done| | |by apply slug_without].
  - intros ->. by pose proof (st_first _ Hs _ _ eq_refl).
  - intros ->. by pose proof (st_first _ Hs _ _ eq_refl).
Qed.

(** Every slug is safe text: lowercase letters, digits, dots, underscores
    and single dashes, with no dash or dot at either end, so that one that is
    not empty is a single component of a path.  A text is its own slug exactly
    when it is of that form, so slugging is idempotent.  The slug of the older
    release is of that form too, a start of this one, and the same exactly when
    this one is within the budget. *)
Lemma Slug_exact (name : gostr) :
  slug_text (Slug name) /\ (Slug name <> [] -> normal (Slug name)) /\
  (Slug name = name <-> slug_text name) /\ Slug (Slug name) = Slug name /\
  slug_text (LegacySlug name) /\ (exists r, Slug name = LegacySlug name ++ r) /\
  (LegacySlug name = Slug name <-> (length (Slug name) <= legacyBudget)%nat).
Proof.
  pose proof (Slug_safe name) as Hs.
  split_and!; [done|by apply slug_normal|apply Slug_fix_iff|by apply Slug_fix| | |]; unfold LegacySlug; destruct (Nat.leb_spec (length (Slug name)) legacyBudget) as [Hl|Hl].
  - done.
  - pose proof (take_drop legacyBudget (Slug name)) as E. set (t := take legacyBudget (Slug name)) in *.
    assert (occurs t (Slug name)) as Ho by (exists [], (drop legacyBudget (Slug name)); by rewrite E).
    assert (trim_left dash_or_dot t = t) as Et.
    { destruct t as [|c t']; [done|]. rewrite trim_left_ascii.
      - apply drop_while_id. intros d u [= <- <-]. rewrite edge_dash_or_dot. eapply (st_first _ Hs). rewrite <- E. reflexivity.
      - apply slug_bytes_ascii. by apply (occurs_Forall _ _ _ Ho), st_bytes. }
    rewrite <- Et. apply (slug_text_trim (Slug name)); [apply Hs|apply Hs|done].
  - exists []. by rewrite app_nil_r.
  - pose proof (take_drop legacyBudget (Slug name)) as E. set (t := take legacyBudget (Slug name)) in *.
    assert (Forall (fun c => is_ascii c = true) t) as Ha.
    { apply slug_bytes_ascii. apply (occurs_Forall _ _ (Slug name)); [|apply Hs]. exists [], (drop legacyBudget (Slug name)). by rewrite E. }
    rewrite trim_right_ascii by done. destruct (drop_while_suffix (fun c => dash_or_dot (bz c)) (rev t)) as (q & Eq & _).
    exists (rev q ++ drop legacyBudget (Slug name)). rewrite app_assoc, <- rev_app_distr, <- Eq, rev_involutive. by rewrite E.
  - done.
  - split; [|lia]. intros E. exfalso. pose proof (trim_right_occurs dash_or_dot (take legacyBudget (Slug name))) as (a & b & Eo).
    rewrite E in Eo. apply (f_equal length) in Eo. rewrite !length_app, length_take in Eo. lia.
Qed.

(** ** Refs *)

(** A name that can address a session of an agent. *)
Definition label_free (reg : gmap gostr reg_entry) (agent label : gostr) : Prop :=
  match profile_Lookup reg agent with Some p => ReservedFor reg label (p_name p) = None | None => True end.

Lemma sep_free s : slug_text s -> "@"%char ∉ s.
Proof. intros H. by apply slug_without. Qed.

Lemma contains_sep s : contains s refSep = false <-> "@"%char ∉ s.
Proof.
  rewrite contains_false, <- cut_at_None. change refSep with ["@"%char]. apply cut_at_byte.
Qed.

Lemma ParseSessionRef_plain reg agent : agent <> [] -> "@"%char ∉ agent -> ParseSessionRef reg agent = Ok (MkSessionRef agent []).
Proof.
  intros Hne Ha. unfold ParseSessionRef, cut. apply cut_at_byte in Ha. change refSep with ["@"%char]. rewrite Ha.
  assert (contains [] ["@"%char] = false) as -> by done. by rewrite bool_decide_false.
Qed.

Lemma ParseSessionRef_label reg agent label : agent <> [] -> "@"%char ∉ agent -> label <> [] -> slug_text label -> label_free reg agent label ->
  ParseSessionRef reg (agent ++ refSep ++ label) = Ok (MkSessionRef agent label).
Proof.
  intros Hne Ha Hl Hs Hf. unfold ParseSessionRef, cut. change (refSep ++ label) with ("@"%char :: label). change refSep with ["@"%char].
  rewrite cut_at_byte_app by done. pose proof (proj2 (contains_sep _) (sep_free _ Hs)) as Hc. change refSep with ["@"%char] in Hc. rewrite Hc.
  rewrite (bool_decide_false (agent = [])), (bool_decide_false (label = [])) by done. cbn [negb]. rewrite Slug_fix, bool_decide_true by done. cbn [negb].
  unfold label_free in Hf. destruct (profile_Lookup reg agent); [by rewrite Hf|done].
Qed.

(** A ref is accepted exactly when it is the text of an agent, or of an
    agent and a label that is its own slug and names no reserved workspace;
    what is read prints back to it. *)
Lemma ParseSessionRef_exact (reg : gmap gostr reg_entry) (s : gostr) (r : SessionRef) :
  ParseSessionRef reg s = Ok r <->
  s = SessionRef_String r /\ sr_agent r <> [] /\ "@"%char ∉ sr_agent r /\ slug_text (sr_label r) /\
  (sr_label r <> [] -> label_free reg (sr_agent r) (sr_label r)).
Proof.
  destruct r as [agent label]. unfold SessionRef_String. cbn [sr_agent sr_label]. split.
  - intros H. unfold ParseSessionRef in H. unfold cut in H. change refSep with ["@"%char] in H.
    destruct (cut_at ["@"%char] s) as [[a b]|] eqn:C.
    + apply cut_at_byte_inv in C as [-> Ca]. destruct (contains b ["@"%char]); [done|]. case_bool_decide as Ha; [done|]. cbn [negb] in H.
      case_bool_decide as Hb; [done|]. case_bool_decide as Hs; [|by cbn [negb] in H; case_bool_decide]. cbn [negb] in H.
      apply Slug_fix_iff in Hs. destruct (match profile_Lookup reg a with Some _ => _ | None => _ end) eqn:Ef; [done|].
      injection H as <- <-. rewrite bool_decide_false by done. split_and!; [done|done|done|done|]. intros _. unfold label_free.
      by destruct (profile_Lookup reg a).
    + apply cut_at_byte in C. assert (contains [] ["@"%char] = false) as X by done. rewrite X in H. case_bool_decide as Ha; [done|].
      injection H as <- <-. rewrite bool_decide_true by done. split_and!; try done. apply Slug_fix_iff. done.
  - intros (-> & Hne & Ha & Hs & Hf). case_bool_decide as Hl.
    + subst label. by apply ParseSessionRef_plain.
    + apply ParseSessionRef_label; auto.
Qed.

(** A name that [Resolve] accepts for a profile gives a slug that a ref
    addresses, under every spelling that [Lookup] reads as the profile. *)
Lemma Resolve_addressable (reg : gmap gostr reg_entry) (p : Profile) (agent name slug : gostr)
  (Hp : profile_Lookup reg agent = Some p) (Hne : agent <> []) (Ha : "@"%char ∉ agent)
  (H : Resolve_name reg (p_name p) name = Ok slug) :
  ParseSessionRef reg (SessionRef_String (MkSessionRef agent slug)) = Ok (MkSessionRef agent slug) /\ normal slug.
Proof.
  unfold Resolve_name in H. case_bool_decide as Hs; [done|]. destruct (ReservedFor reg (Slug name) (p_name p)) eqn:Er; [done|].
  injection H as <-. pose proof (Slug_safe name) as Hsafe. split; [|by apply slug_normal].
  unfold SessionRef_String. cbn [sr_agent sr_label]. rewrite bool_decide_false by done.
  apply ParseSessionRef_label; [done|done|done|done|]. unfold label_free. by rewrite Hp.
Qed.

Definition claude_registry : gmap gostr reg_entry :=
  {[ lit "claude-code" := MkRegEntry (with_name example_profile (lit "claude-code")) [] OriginBuiltIn [] [] ]}.

Lemma Resolve_addressable_witness :
  ParseSessionRef claude_registry (lit "claude@my-fix") = Ok (MkSessionRef (lit "claude") (lit "my-fix")).
Proof.
  refine (proj1 (Resolve_addressable claude_registry (with_name example_profile (lit "claude-code")) (lit "claude") (lit "My fix!") (lit "my-fix") _ _ _ _)).
  - vm_compute. reflexivity.
  - discriminate.
  - by apply mem_false.
  - vm_compute. reflexivity.
Defined.
