(* ===== verification/SessionIndex.v ===== *)
(** * What brig remembers of its sessions (internal/wrap/index.go, slugclaim.go, gitwatch.go)

    Three small files in the state directory: the session index, keyed by ref,
    the claims of session names on sandboxes, and the last look at each
    sandbox's [.git].  A file is what it decodes to: one that is missing,
    unreadable or of another shape reads as empty.  What the host refuses, to
    read a file, to write it or to remove it, is an argument of every
    operation. *)

From stdpp Require Import prelude list strings gmap sorting.
From Stdlib Require Import ZArith Lia ZifyNat Ascii.
From S2P Require Import Prelude GoUnicode GoStrings GoPath GoClean Volumes ProfileReg Session.

Local Open Scope Z_scope.

(** ** The files *)

Record sessionEntry := MkSessionEntry { se_home : gostr; se_sandbox : gostr; se_project : gostr; se_ephemeral : bool }.
#[export] Instance sessionEntry_eq_dec : EqDecision sessionEntry.
Proof. solve_decision. Defined.

Definition zero_sessionEntry : sessionEntry := MkSessionEntry [] [] [] false.

Record gitWatchEntry := MkGitWatchEntry { gw_project : gostr; gw_files : gmap gostr gostr }.
Definition zero_gitWatchEntry : gitWatchEntry := MkGitWatchEntry [] ∅.

Notation session_map := (gmap gostr sessionEntry).
Notation claim_map := (gmap gostr gostr).
Notation watch_map := (gmap gostr gitWatchEntry).

(** What a file holds.  An older release kept its claims where the sessions
    are now, so both files can hold either. *)
Inductive state_file :=
  | Absent
  | Sessions (m : session_map)
  | Claims (m : claim_map)
  | Unusable_file.

Record state := MkState { st_sessions : state_file; st_claims : state_file; st_watch : watch_map; st_legacy : bool }.

Definition sessionIndexName : gostr := lit "sessions.json".
Definition legacyWorkspaceIndexName : gostr := lit "workspaces.json".
Definition slugClaimIndexName : gostr := lit "slug-claims.json".
Definition gitWatchIndexName : gostr := lit "git-watch.json".

(** What the host lets brig do in the state directory: whether there is one,
    and, per file, to read it, to replace it, to remove it and to say that it
    is not there. *)
Record host_io := MkIo {
  io_dir : bool; io_read : gostr -> bool; io_write : gostr -> bool; io_remove : gostr -> bool; io_stat : gostr -> bool }.

(** [stateDir] and [indexPath]. *)
Definition stateDir (env : environment) : option gostr :=
  let dir := env_get env (lit "BRIG_STATE_DIR") in
  if negb (bool_decide (dir = [])) then Some dir
  else match env_home env with Some home => Some (filepath_Join home (lit ".brig")) | None => None end.

Definition indexPath (env : environment) (name : gostr) : option gostr := (fun dir => filepath_Join dir name) <$> stateDir env.

(** [readIndex] at the two types it is used at: another shape is as good as
    corrupt. *)
Definition as_sessions (f : state_file) : session_map := match f with Sessions m => m | _ => ∅ end.
Definition as_claims (f : state_file) : claim_map := match f with Claims m => m | _ => ∅ end.

Definition readSessionIndex (io : host_io) (st : state) : session_map :=
  if io_dir io && io_read io sessionIndexName then as_sessions (st_sessions st) else ∅.

(** [writeIndex]: the file is replaced, or it is as it was and there is an
    error. *)
Definition writeSessionIndex (io : host_io) (m : session_map) (st : state) : bool * state :=
  if io_dir io && io_write io sessionIndexName
  then (true, MkState (Sessions m) (st_claims st) (st_watch st) (st_legacy st))
  else (false, st).

Definition writeSlugClaimIndex (io : host_io) (m : claim_map) (st : state) : bool * state :=
  if io_dir io && io_write io slugClaimIndexName
  then (true, MkState (st_sessions st) (Claims m) (st_watch st) (st_legacy st))
  else (false, st).

Definition readGitWatch (io : host_io) (st : state) : watch_map := if io_dir io && io_read io gitWatchIndexName then st_watch st else ∅.
Definition writeGitWatch (io : host_io) (m : watch_map) (st : state) : bool * state :=
  if io_dir io && io_write io gitWatchIndexName
  then (true, MkState (st_sessions st) (st_claims st) m (st_legacy st))
  else (false, st).

Definition dropLegacyWorkspaceIndex (io : host_io) (st : state) : state :=
  if io_dir io && io_remove io legacyWorkspaceIndexName
  then MkState (st_sessions st) (st_claims st) (st_watch st) false else st.

(** ** The session index *)

Definition sessionKey (agent slug : gostr) : gostr := SessionRef_String (MkSessionRef agent slug).

(** A missing key reads as the zero entry. *)
Definition entry_at (m : session_map) (ref : gostr) : sessionEntry := default zero_sessionEntry (m !! ref).

Definition rememberedWorkspace (io : host_io) (st : state) (ref vmName : gostr) : gostr * bool :=
  let entry := entry_at (readSessionIndex io st) ref in
  if negb (bool_decide (se_sandbox entry = vmName)) then ([], false) else (se_home entry, se_ephemeral entry).

Definition rememberedProject (io : host_io) (st : state) (ref vmName : gostr) : gostr :=
  let entry := entry_at (readSessionIndex io st) ref in
  if negb (bool_decide (se_sandbox entry = vmName)) then [] else se_project entry.

(** Whether some session names a sandbox. *)
Definition names_sandbox (m : session_map) (vmName : gostr) : bool :=
  existsb (fun '(_, e) => bool_decide (se_sandbox e = vmName)) (map_to_list m).

(** [WorkspaceOfSandbox] and [RefOfSandbox]: [range] is the order of the range
    over the index. *)
Definition first_naming (range : list (gostr * sessionEntry)) (vmName : gostr) : option (gostr * sessionEntry) :=
  List.find (fun '(_, e) => bool_decide (se_sandbox e = vmName)) range.
Definition WorkspaceOfSandbox (range : list (gostr * sessionEntry)) (vmName : gostr) : gostr :=
  from_option (fun '(_, e) => se_home e) [] (first_naming range vmName).
Definition RefOfSandbox (range : list (gostr * sessionEntry)) (vmName : gostr) : gostr :=
  from_option fst [] (first_naming range vmName).

(** The loops that delete: what is kept, and whether anything was not. *)
Definition keep_entries (keep : sessionEntry -> bool) (m : session_map) : session_map * bool :=
  let m' := filter (fun kv => keep kv.2 = true) m in (m', negb (bool_decide (m' = m))).

Definition forgetGitWatch (io : host_io) (keep : gostr -> bool) (st : state) : state :=
  let index := readGitWatch io st in
  let index' := filter (fun kv : gostr * gitWatchEntry => keep kv.1 = true) index in
  if (size index' <? size index)%nat then (writeGitWatch io index' st).2 else st.

(** [ForgetSandbox]: whether an entry named the sandbox, whether the rewrite
    worked, and the files. *)
Definition ForgetSandbox (io : host_io) (vmName : gostr) (st : state) : bool * bool * state :=
  let st := forgetGitWatch io (fun name => negb (bool_decide (name = vmName))) st in
  let '(index, dropped) := keep_entries (fun e => negb (bool_decide (se_sandbox e = vmName))) (readSessionIndex io st) in
  if negb dropped then (false, true, st)
  else let '(ok, st') := writeSessionIndex io index st in (true, ok, st').

Definition PruneSessions (io : host_io) (live : list gostr) (st : state) : state :=
  let st := dropLegacyWorkspaceIndex io st in
  let index := readSessionIndex io st in
  if (size index =? 0)%nat then st
  else
    let '(index', dropped) := keep_entries (fun e => mem (se_sandbox e) live) index in
    if negb dropped then st else (writeSessionIndex io index' st).2.

(** A run, as far as the index and the claims see it. *)
Record run := MkRun {
  r_profile : gostr; r_slug : gostr; r_raw : gostr; r_vm : gostr; r_workspace : gostr; r_project : gostr; r_ephemeral : bool }.

Definition run_entry (c : run) : sessionEntry := MkSessionEntry (r_workspace c) (r_vm c) (r_project c) (r_ephemeral c).
Definition run_key (c : run) : gostr := sessionKey (r_profile c) (r_slug c).

(** [rememberSession]: whether it warns, and the files. *)
Definition rememberSession (io : host_io) (c : run) (st : state) : bool * state :=
  let st := dropLegacyWorkspaceIndex io st in
  let index := readSessionIndex io st in
  if bool_decide (entry_at index (run_key c) = run_entry c) then (false, st)
  else let '(ok, st') := writeSessionIndex io (<[run_key c := run_entry c]> index) st in (negb ok, st').

Definition SessionRefs (io : host_io) (st : state) : list gostr := sort_strings ((map_to_list (readSessionIndex io st)).*1).

(** ** The claims *)

(** [migrateSlugClaims]: nothing is deleted before it is written. *)
Definition migrateSlugClaims (io : host_io) (st : state) : state :=
  if negb (io_dir io) then st
  else
    match st_claims st with
    | Absent =>
      if negb (io_stat io slugClaimIndexName) then st
      else
        let claims := if io_read io sessionIndexName then as_claims (st_sessions st) else ∅ in
        if (size claims =? 0)%nat then st
        else
          let '(ok, st') := writeSlugClaimIndex io claims st in
          if negb ok then st'
          else if io_remove io sessionIndexName then MkState Absent (st_claims st') (st_watch st') (st_legacy st') else st'
    | _ => st
    end.

Definition readSlugClaimIndex (io : host_io) (st : state) : claim_map * state :=
  let st' := migrateSlugClaims io st in
  (if io_dir io && io_read io slugClaimIndexName then as_claims (st_claims st') else ∅, st').

Inductive claim_outcome := Claimed (warned : bool) | Refused (owner : gostr).

(** [claimSlug]. *)
Definition claimSlug (io : host_io) (c : run) (st : state) : claim_outcome * state :=
  let '(index, st) := readSlugClaimIndex io st in
  if bool_decide (r_raw c = []) then (Claimed false, st)
  else
    let owner := index !! r_vm c in
    match owner with
    | Some o =>
      if bool_decide (o = r_raw c) then (Claimed false, st) else (Refused o, st)
    | None =>
      let '(ok, st') := writeSlugClaimIndex io (<[r_vm c := r_raw c]> index) st in (Claimed (negb ok), st')
    end.

Definition ForgetSlugClaim (io : host_io) (vmName : gostr) (st : state) : state :=
  let '(index, st) := readSlugClaimIndex io st in
  match index !! vmName with
  | None => st
  | Some _ => (writeSlugClaimIndex io (delete vmName index) st).2
  end.

(** ** The looks at a project's .git *)

Section GitWatch.
(** [unicode.IsPrint] and [strconv.Quote]. *)
Variable IsPrint : Z -> bool.
Variable Quote : gostr -> gostr.
(** What is at a path on the host, and the look at a project's [.git]. *)
Variable missing : gostr -> bool.
Variable snapshotProjectGit : gostr -> res gostr (gmap gostr gostr).

Definition valid_utf8 (s : gostr) : bool := bool_decide ((runes s ≫= encode_rune) = s).

(** [guestText]. *)
Definition guestText (s : gostr) : gostr :=
  if valid_utf8 s && negb (existsb (fun r => negb (IsPrint r)) (runes s)) then s else Quote s.

Inductive watch_verb := WatchRemoved | WatchChanged | WatchAdded.
#[local] Instance watch_verb_eq_dec : EqDecision watch_verb.
Proof. solve_decision. Defined.

Definition change_le (a b : watch_verb * gostr) : Prop := str_leb (guestText a.2) (guestText b.2) = true.
#[local] Instance change_le_dec a b : Decision (change_le a b).
Proof. unfold change_le. apply _. Defined.

(** [diffGitWatch]: a line is its verb and the path it is about. *)
Definition diff_before (after : gmap gostr gostr) (x : gostr * gostr) : list (watch_verb * gostr) :=
  match after !! x.1 with
  | None => [(WatchRemoved, x.1)]
  | Some now => if bool_decide (now = x.2) then [] else [(WatchChanged, x.1)]
  end.
Definition diff_after (before : gmap gostr gostr) (x : gostr * gostr) : list (watch_verb * gostr) :=
  match before !! x.1 with None => [(WatchAdded, x.1)] | Some _ => [] end.
Definition diffGitWatch (before after : gmap gostr gostr) : list (watch_verb * gostr) :=
  merge_sort change_le ((map_to_list before ≫= diff_before after) ++ (map_to_list after ≫= diff_after before)).

Inductive watch_notice :=
  | LookFailed (project e : gostr)
  | GitChanged (vmName project : gostr) (changes : list (watch_verb * gostr))
  | HasCommondir (project : gostr)
  | LookNotRecorded (project : gostr).

Definition commondirNotice (project : gostr) (files : gmap gostr gostr) : list watch_notice :=
  match files !! lit ".git/commondir" with Some _ => [HasCommondir project] | None => [] end.

Definition recordGitWatch (io : host_io) (vmName : gostr) (index : watch_map) (project : gostr) (files : gmap gostr gostr) (st : state)
  : list watch_notice * state :=
  let '(ok, st') := writeGitWatch io (<[vmName := MkGitWatchEntry project files]> index) st in
  (if ok then [] else [LookNotRecorded project], st').

(** The look at the project of this command, after the one before it. *)
Definition look_again (io : host_io) (vmName project : gostr) (index : watch_map) (st : state) : list watch_notice * state :=
  if missing project then
    match index !! vmName with
    | Some _ => ([], forgetGitWatch io (fun name => negb (bool_decide (name = vmName))) st)
    | None => ([], st)
    end
  else
    match snapshotProjectGit project with
    | Err e => ([LookFailed project (guestText e)], st)
    | Ok now =>
      let '(ns, st') := recordGitWatch io vmName index project now st in (commondirNotice project now ++ ns, st')
    end.

(** [CheckProjectGit]: what it has to say, and the files.  [audible] is whether
    a warning is printed at all. *)
Definition CheckProjectGit (io : host_io) (audible : bool) (vmName cproject : gostr) (st : state) : list watch_notice * state :=
  if bool_decide (vmName = []) then ([], st)
  else
    let index := readGitWatch io st in
    let prev := default zero_gitWatchEntry (index !! vmName) in
    let project := if bool_decide (cproject = []) then gw_project prev else cproject in
    if bool_decide (project = []) then ([], st)
    else if negb (is_nil (index !! vmName)) && negb (bool_decide (gw_project prev = [])) && negb (missing (gw_project prev)) then
      match snapshotProjectGit (gw_project prev) with
      | Err e => ([LookFailed (gw_project prev) (guestText e)], st)
      | Ok now =>
        let changes := diffGitWatch (gw_files prev) now in
        let changed := negb (bool_decide (changes = [])) in
        if changed && negb audible then ([], st)
        else
          let said := (if changed then [GitChanged vmName (gw_project prev) changes] else []) ++ commondirNotice (gw_project prev) now in
          if bool_decide (gw_project prev = project) then
            if changed then let '(ns, st') := recordGitWatch io vmName index project now st in (said ++ ns, st') else (said, st)
          else let '(ns, st') := look_again io vmName project index st in (said ++ ns, st')
      end
    else look_again io vmName project index st.

(** [CheckSandboxGit]: by the name of the sandbox alone. *)
Definition CheckSandboxGit (io : host_io) (audible : bool) (vmName : gostr) (st : state) : list watch_notice * state :=
  CheckProjectGit io audible vmName [] st.
End GitWatch.

(** ** What the session index answers *)

(** A host that does what it is asked. *)
Record io_works (io : host_io) : Prop := {
  iw_dir : io_dir io = true; iw_read : forall n, io_read io n = true; iw_write : forall n, io_write io n = true;
  iw_remove : forall n, io_remove io n = true; iw_stat : forall n, io_stat io n = true }.

Ltac io_simpl :=
  repeat match goal with
  | W : io_works ?io |- _ => progress rewrite ?(iw_dir io W), ?(iw_read io W), ?(iw_write io W), ?(iw_remove io W), ?(iw_stat io W)
  end; cbn [andb negb].

Lemma keep_entries_lookup keep m ref e :
  (keep_entries keep m).1 !! ref = Some e <-> m !! ref = Some e /\ keep e = true.
Proof. cbn [keep_entries fst]. rewrite map_lookup_filter_Some. done. Qed.

Lemma keep_entries_dropped keep m : (keep_entries keep m).2 = false -> forall ref e, m !! ref = Some e -> keep e = true.
Proof.
  intros H ref e Hr. cbn in H. apply negb_false_iff, bool_decide_eq_true in H. rewrite <- H in Hr.
  by apply map_lookup_filter_Some in Hr as [_ Hr].
Qed.

Lemma keep_entries_some keep m : (keep_entries keep m).2 = true <-> exists ref e, m !! ref = Some e /\ keep e = false.
Proof.
  split.
  - intros H. cbn in H. apply negb_true_iff, bool_decide_eq_false in H. destruct (decide (map_Exists (fun _ e => keep e = false) m)) as [Ex|No].
    + destruct Ex as (ref & e & H1 & H2). by exists ref, e.
    + exfalso. apply H. apply map_eq. intros ref. apply option_eq. intros e. rewrite map_lookup_filter_Some. cbn. split; [tauto|].
      intros Hr. split; [done|]. destruct (keep e) eqn:K; [done|]. exfalso. apply No. by exists ref, e.
  - intros (ref & e & Hr & Hk). destruct ((keep_entries keep m).2) eqn:E; [done|]. pose proof (keep_entries_dropped _ _ E _ _ Hr). congruence.
Qed.

Lemma read_after_write io m st : io_works io -> readSessionIndex io (writeSessionIndex io m st).2 = m /\ (writeSessionIndex io m st).1 = true.
Proof. intros W. unfold readSessionIndex, writeSessionIndex. by io_simpl. Qed.

Lemma read_drop_legacy io io' st : readSessionIndex io (dropLegacyWorkspaceIndex io' st) = readSessionIndex io st.
Proof. unfold dropLegacyWorkspaceIndex. by destruct (_ && _). Qed.

Lemma read_forget_watch io io' keep st : readSessionIndex io (forgetGitWatch io' keep st) = readSessionIndex io st.
Proof. unfold forgetGitWatch, writeGitWatch. destruct (_ <? _)%nat; [|done]. by destruct (_ && _). Qed.

Lemma entry_at_Some m ref e : m !! ref = Some e -> entry_at m ref = e.
Proof. intros H. unfold entry_at. by rewrite H. Qed.

(** The entries after an operation of the index. *)
Lemma ForgetSandbox_entries io vm st ref e : io_works io ->
  readSessionIndex io (ForgetSandbox io vm st).2 !! ref = Some e <-> readSessionIndex io st !! ref = Some e /\ se_sandbox e <> vm.
Proof.
  intros W. unfold ForgetSandbox. destruct (keep_entries _ _) as [index dropped] eqn:E.
  rewrite read_forget_watch in E. pose proof (keep_entries_lookup (fun e => negb (bool_decide (se_sandbox e = vm))) (readSessionIndex io st) ref e) as L.
  pose proof (keep_entries_dropped (fun e => negb (bool_decide (se_sandbox e = vm))) (readSessionIndex io st)) as D. rewrite E in L, D. cbn [fst snd] in L, D.
  rewrite negb_true_iff, bool_decide_eq_false in L. destruct dropped; cbn [negb].
  - pose proof (read_after_write io index (forgetGitWatch io (fun name => negb (bool_decide (name = vm))) st) W) as [R _].
    destruct (writeSessionIndex _ _ _) as [ok st']. cbn [snd] in R |- *. by rewrite R.
  - cbn [snd]. rewrite read_forget_watch. split; [|tauto]. intros H. split; [done|]. apply D in H; [|done].
    by apply negb_true_iff, bool_decide_eq_false in H.
Qed.

Lemma PruneSessions_entries io live st ref e : io_works io ->
  readSessionIndex io (PruneSessions io live st) !! ref = Some e <-> readSessionIndex io st !! ref = Some e /\ se_sandbox e ∈ live.
Proof.
  intros W. unfold PruneSessions. rewrite read_drop_legacy. destruct (Nat.eqb_spec (size (readSessionIndex io st)) 0) as [Z|Z].
  - apply map_size_empty_inv in Z. rewrite read_drop_legacy, Z, lookup_empty. split; [done|by intros []].
  - destruct (keep_entries _ _) as [index dropped] eqn:E.
    pose proof (keep_entries_lookup (fun e => mem (se_sandbox e) live) (readSessionIndex io st) ref e) as L.
    pose proof (keep_entries_dropped (fun e => mem (se_sandbox e) live) (readSessionIndex io st)) as D. rewrite E in L, D. cbn [fst snd] in L, D.
    rewrite mem_true in L. destruct dropped; cbn [negb].
    + by rewrite (proj1 (read_after_write io index _ W)).
    + rewrite read_drop_legacy. split; [|tauto]. intros H. split; [done|]. apply D in H; [|done]. by apply mem_true in H.
Qed.

Lemma rememberSession_entries io c st ref : io_works io ->
  readSessionIndex io (rememberSession io c st).2 !! ref
  = (if bool_decide (ref = run_key c) then
       if bool_decide (entry_at (readSessionIndex io st) (run_key c) = run_entry c) then readSessionIndex io st !! ref else Some (run_entry c)
     else readSessionIndex io st !! ref) /\ (rememberSession io c st).1 = false.
Proof.
  intros W. unfold rememberSession. rewrite read_drop_legacy. case_bool_decide as E.
  - cbn [fst snd]. rewrite read_drop_legacy. by case_bool_decide.
  - pose proof (read_after_write io (<[run_key c:=run_entry c]> (readSessionIndex io st)) (dropLegacyWorkspaceIndex io st) W) as [R R1].
    destruct (writeSessionIndex _ _ _) as [ok st']. cbn [fst snd] in R, R1 |- *. rewrite R. subst ok. split; [|done].
    case_bool_decide as K; [subst ref; apply lookup_insert_eq|]. by apply lookup_insert_ne.
Qed.

(** ** Histories *)

(** The operations that brig commands make on the files, one after another. *)
Inductive op :=
  | Claim (c : run)
  | Remember (c : run)
  | Forget (vmName : gostr)
  | ForgetClaim (vmName : gostr)
  | Prune (live : list gostr).

Definition apply_op (io : host_io) (o : op) (st : state) : state :=
  match o with
  | Claim c => (claimSlug io c st).2
  | Remember c => (rememberSession io c st).2
  | Forget vm => (ForgetSandbox io vm st).2
  | ForgetClaim vm => ForgetSlugClaim io vm st
  | Prune live => PruneSessions io live st
  end.

Definition replay (h : list (host_io * op)) (st : state) : state := foldl (fun st '(io, o) => apply_op io o st) st h.

Lemma replay_keeps (P : state -> Prop) (ok : host_io * op -> Prop) h st :
  (forall io o st, ok (io, o) -> P st -> P (apply_op io o st)) -> Forall ok h -> P st -> P (replay h st).
Proof.
  intros Hstep Hh. revert st. induction Hh as [|[io o] h Ho Hh IH]; intros st Hst; [done|]. cbn [replay foldl].
  apply IH. by apply Hstep.
Qed.

(** *** The claims file changes with the claims alone *)

Lemma claims_write_sessions io m st : st_claims (writeSessionIndex io m st).2 = st_claims st.
Proof. unfold writeSessionIndex. by destruct (_ && _). Qed.

Lemma claims_drop io st : st_claims (dropLegacyWorkspaceIndex io st) = st_claims st.
Proof. unfold dropLegacyWorkspaceIndex. by destruct (_ && _). Qed.

Lemma claims_remember io c st : st_claims (rememberSession io c st).2 = st_claims st.
Proof.
  unfold rememberSession. case_bool_decide; [apply claims_drop|].
  pose proof (claims_write_sessions io (<[run_key c:=run_entry c]> (readSessionIndex io (dropLegacyWorkspaceIndex io st))) (dropLegacyWorkspaceIndex io st)) as Hw.
  destruct (writeSessionIndex _ _ _) as [ok st']. cbn [snd] in *. by rewrite Hw, claims_drop.
Qed.

Lemma claims_forget_watch io keep st : st_claims (forgetGitWatch io keep st) = st_claims st.
Proof. unfold forgetGitWatch, writeGitWatch. destruct (_ <? _)%nat; [|done]. by destruct (_ && _). Qed.

Lemma claims_forget io vm st : st_claims (ForgetSandbox io vm st).2 = st_claims st.
Proof.
  unfold ForgetSandbox. destruct (keep_entries _ _) as [index dropped]. destruct dropped; cbn [negb].
  - pose proof (claims_write_sessions io index (forgetGitWatch io (fun name => negb (bool_decide (name = vm))) st)) as H.
    destruct (writeSessionIndex _ _ _) as [ok st']. cbn [snd] in *. by rewrite H, claims_forget_watch.
  - apply claims_forget_watch.
Qed.

Lemma claims_prune io live st : st_claims (PruneSessions io live st) = st_claims st.
Proof.
  unfold PruneSessions. destruct (_ =? _)%nat; [apply claims_drop|]. destruct (keep_entries _ _) as [index dropped].
  destruct dropped; cbn [negb]; [rewrite claims_write_sessions|]; apply claims_drop.
Qed.

(** A host that, where it lets brig write the claims, lets it read them. *)
Definition reads_claims (io : host_io) : Prop := io_write io slugClaimIndexName = true -> io_read io slugClaimIndexName = true.

Definition owned (vm name : gostr) (st : state) : Prop := exists m, st_claims st = Claims m /\ m !! vm = Some name.

Lemma migrate_claims io m st : st_claims st = Claims m -> migrateSlugClaims io st = st.
Proof. intros H. unfold migrateSlugClaims. rewrite H. by destruct (io_dir io). Qed.

Lemma owned_write io m vm name st : owned vm name st -> m !! vm = Some name -> owned vm name (writeSlugClaimIndex io m st).2.
Proof. intros H Hm. unfold writeSlugClaimIndex. destruct (_ && _); [|done]. by exists m. Qed.

Lemma owned_claim io c vm name st : reads_claims io -> owned vm name st -> owned vm name (claimSlug io c st).2.
Proof.
  intros Hio H. pose proof H as (m & Hm & Hv). unfold claimSlug, readSlugClaimIndex. rewrite (migrate_claims io m) by done.
  rewrite Hm. cbn [as_claims]. case_bool_decide; [done|].
  destruct (io_dir io && io_read io slugClaimIndexName) eqn:E.
  - destruct (m !! r_vm c) as [o|] eqn:Eo; [by case_bool_decide|].
    pose proof (owned_write io (<[r_vm c:=r_raw c]> m) vm name st H) as K. destruct (writeSlugClaimIndex _ _ _) as [ok st']. apply K.
    rewrite lookup_insert_ne; [done|]. intros X. rewrite X in Eo. congruence.
  - rewrite lookup_empty. unfold writeSlugClaimIndex. destruct (io_dir io && io_write io slugClaimIndexName) eqn:Ew; [|done].
    apply andb_true_iff in Ew as [Ed Ew]. apply Hio in Ew. rewrite Ed, Ew in E. done.
Qed.

Lemma owned_forget_claim io vm' vm name st : vm' <> vm -> owned vm name st -> owned vm name (ForgetSlugClaim io vm' st).
Proof.
  intros Hne H. pose proof H as (m & Hm & Hv). unfold ForgetSlugClaim, readSlugClaimIndex. rewrite (migrate_claims io m), Hm by done.
  cbn [as_claims]. destruct (io_dir io && io_read io slugClaimIndexName); [|done].
  destruct (m !! vm'); [|done]. apply owned_write; [done|]. by rewrite lookup_delete_ne.
Qed.

Definition keeps_claim (vm : gostr) (x : host_io * op) : Prop :=
  match x.2 with Claim _ => reads_claims x.1 | ForgetClaim vm' => vm' <> vm | _ => True end.

Lemma owned_step vm name io o st : keeps_claim vm (io, o) -> owned vm name st -> owned vm name (apply_op io o st).
Proof.
  intros Ho (m & Hm & Hv). destruct o as [c|c|v|v|live]; cbn [keeps_claim snd fst apply_op] in *.
  - apply owned_claim; [done|]. by exists m.
  - exists m. by rewrite claims_remember.
  - exists m. by rewrite claims_forget.
  - apply owned_forget_claim; [done|]. by exists m.
  - exists m. by rewrite claims_prune.
Qed.

Lemma claim_owns io c st st' : r_raw c <> [] -> claimSlug io c st = (Claimed false, st') -> owned (r_vm c) (r_raw c) st'.
Proof.
  intros Hr. unfold claimSlug. destruct (readSlugClaimIndex io st) as [index st1] eqn:E. rewrite bool_decide_false by done.
  unfold readSlugClaimIndex in E. injection E as <- <-. set (st1 := migrateSlugClaims io st).
  destruct (io_dir io && io_read io slugClaimIndexName).
  - destruct (as_claims (st_claims st1) !! r_vm c) as [o|] eqn:Eo.
    + case_bool_decide as Ho; [|done]. intros [= <-]. subst o. unfold as_claims in Eo. destruct (st_claims st1) as [| |m|] eqn:Ec; try done.
      by exists m.
    + unfold writeSlugClaimIndex. destruct (_ && _); [|done]. intros [= <-]. eexists. split; [done|]. apply lookup_insert_eq.
  - rewrite lookup_empty. unfold writeSlugClaimIndex. destruct (_ && _); [|done]. intros [= <-]. eexists. split; [done|]. apply lookup_insert_eq.
Qed.

(** C13: Two names never share a sandbox while the claims can be read.  A named
    run has claimed its sandbox and was not warned, so the claim was written (or
    was its own already); then come claims of others, boots, removals and
    prunes, where the claim is not released and every run that claims reads the
    claims back ([keeps_claim]), and anything else of the state directory may
    fail.  Then, at a run that finds the directory and reads the claims, the
    same name is let through, an unnamed run too, and every other name is
    refused and told the owner.  A claim that could not be written only warns,
    and claims that cannot be read count as none: such a run is outside. *)
Theorem claim_exclusive (io io' : host_io) (c c' : run) (st st1 : state) (h : list (host_io * op))
  (Hname : r_raw c <> []) (H : claimSlug io c st = (Claimed false, st1))
  (Hh : Forall (keeps_claim (r_vm c)) h)
  (Hdir : io_dir io' = true) (Hread : io_read io' slugClaimIndexName = true) (Hvm : r_vm c' = r_vm c) :
  (claimSlug io' c' (replay h st1)).1
  = (if bool_decide (r_raw c' = []) || bool_decide (r_raw c' = r_raw c) then Claimed false else Refused (r_raw c)).
Proof.
  apply claim_owns in H; [|done].
  assert (owned (r_vm c) (r_raw c) (replay h st1)) as (m & Hm & Hv) by (eapply replay_keeps; [|exact Hh|exact H]; intros io0 o st0; apply owned_step).
  unfold claimSlug, readSlugClaimIndex. rewrite (migrate_claims io' m), Hm, Hdir, Hread by done. cbn [andb as_claims].
  case_bool_decide; [done|]. rewrite Hvm, Hv. cbn [orb]. case_bool_decide as E1; case_bool_decide as E2; done || congruence.
Qed.

(** ** A session is remembered until it is forgotten *)

Definition remembered (c : run) (io : host_io) (st : state) : Prop :=
  rememberedWorkspace io st (run_key c) (r_vm c) = (r_workspace c, r_ephemeral c) /\
  rememberedProject io st (run_key c) (r_vm c) = r_project c.

Definition recorded (c : run) (st : state) : Prop := exists m, st_sessions st = Sessions m /\ m !! run_key c = Some (run_entry c).

Lemma recorded_remembered c io st : io_dir io = true -> io_read io sessionIndexName = true -> recorded c st -> remembered c io st.
Proof.
  intros Hd Hr (m & Hm & He). unfold remembered, rememberedWorkspace, rememberedProject, readSessionIndex.
  rewrite Hd, Hr, Hm. cbn [andb as_sessions]. rewrite (entry_at_Some _ _ _ He). cbn [run_entry se_sandbox se_home se_project se_ephemeral].
  by rewrite bool_decide_true.
Qed.

(** A host that, where it lets brig write the index, lets it read it. *)
Definition reads_sessions (io : host_io) : Prop := io_write io sessionIndexName = true -> io_read io sessionIndexName = true.

(** What another command may do beside a session: it boots another one,
    removes another sandbox, or prunes what is not there. *)
Definition beside (c : run) (x : host_io * op) : Prop :=
  reads_sessions x.1 /\
  match x.2 with
  | Remember c' => run_key c' <> run_key c
  | Forget vm => vm <> r_vm c
  | Prune live => r_vm c ∈ live
  | Claim _ | ForgetClaim _ => True
  end.

Lemma recorded_write c io m st : m !! run_key c = Some (run_entry c) -> recorded c st -> recorded c (writeSessionIndex io m st).2.
Proof. intros Hm H. unfold writeSessionIndex. destruct (_ && _); [|done]. by exists m. Qed.

Lemma recorded_ext c st st' : st_sessions st' = st_sessions st -> recorded c st -> recorded c st'.
Proof. intros E (m & Hm & H). exists m. by rewrite E. Qed.

Lemma sessions_drop io st : st_sessions (dropLegacyWorkspaceIndex io st) = st_sessions st.
Proof. unfold dropLegacyWorkspaceIndex. by destruct (_ && _). Qed.

Lemma sessions_forget_watch io keep st : st_sessions (forgetGitWatch io keep st) = st_sessions st.
Proof. unfold forgetGitWatch, writeGitWatch. destruct (_ <? _)%nat; [|done]. by destruct (_ && _). Qed.

Lemma sessions_write_claims io m st : st_sessions (writeSlugClaimIndex io m st).2 = st_sessions st.
Proof. unfold writeSlugClaimIndex. by destruct (_ && _). Qed.

(** A migration never takes a file that holds sessions. *)
Lemma sessions_migrate io m st : st_sessions st = Sessions m -> migrateSlugClaims io st = st.
Proof.
  intros H. unfold migrateSlugClaims. destruct (io_dir io); [|done]. destruct (st_claims st); try done. cbn [negb].
  destruct (io_stat io _); [|done]. rewrite H. cbn [negb as_claims]. destruct (io_read io _); by rewrite map_size_empty.
Qed.

(** A write that the index's own read allows sees the record. *)
Lemma write_sees c io keep st : reads_sessions io -> recorded c st -> keep (run_entry c) = true ->
  recorded c (writeSessionIndex io (keep_entries keep (readSessionIndex io st)).1 st).2.
Proof.
  intros Hio H Hk. pose proof H as (m & Hm & He). unfold writeSessionIndex. destruct (io_dir io && io_write io sessionIndexName) eqn:E; [|done].
  apply andb_true_iff in E as [Ed Ew]. apply Hio in Ew. eexists. split; [done|]. apply keep_entries_lookup. split; [|done].
  unfold readSessionIndex. by rewrite Ed, Ew, Hm.
Qed.

Lemma recorded_step c io o st : beside c (io, o) -> recorded c st -> recorded c (apply_op io o st).
Proof.
  intros [Hio Ho] H. cbn [fst snd] in Hio, Ho. destruct o as [c'|c'|vm|vm|live]; cbn [apply_op].
  - unfold claimSlug, readSlugClaimIndex. destruct H as (m & Hm & He). rewrite (sessions_migrate io m) by done.
    assert (recorded c st) as H by (by exists m). case_bool_decide; [done|]. destruct (_ !! r_vm c') as [ow|]; [by case_bool_decide|].
    pose proof (sessions_write_claims io (<[r_vm c':=r_raw c']> (if io_dir io && io_read io slugClaimIndexName then as_claims (st_claims st) else ∅)) st) as Hw.
    destruct (writeSlugClaimIndex _ _ _) as [ok st']. by eapply recorded_ext.
  - unfold rememberSession. assert (recorded c (dropLegacyWorkspaceIndex io st)) as H1 by (eapply recorded_ext; [apply sessions_drop|done]).
    case_bool_decide; [done|]. unfold writeSessionIndex. destruct (io_dir io && io_write io sessionIndexName) eqn:E; [|done].
    apply andb_true_iff in E as [Ed Ew]. apply Hio in Ew. eexists. split; [done|]. rewrite lookup_insert_ne by done.
    destruct H1 as (m & Hm & He). unfold readSessionIndex. by rewrite Ed, Ew, Hm.
  - unfold ForgetSandbox. set (st1 := forgetGitWatch _ _ _).
    assert (recorded c st1) as H1 by (eapply recorded_ext; [apply sessions_forget_watch|done]).
    pose proof (write_sees c io (fun e => negb (bool_decide (se_sandbox e = vm))) st1 Hio H1) as Hw.
    destruct (keep_entries _ _) as [index dropped]. destruct dropped; [|done]. cbn [negb fst] in Hw |- *.
    destruct (writeSessionIndex _ _ _) as [ok st']. apply Hw. apply negb_true_iff, bool_decide_eq_false. cbn. congruence.
  - unfold ForgetSlugClaim, readSlugClaimIndex. destruct H as (m & Hm & He). rewrite (sessions_migrate io m) by done.
    assert (recorded c st) as H by (by exists m). destruct (_ !! vm); [|done]. eapply recorded_ext; [apply sessions_write_claims|done].
  - unfold PruneSessions. assert (recorded c (dropLegacyWorkspaceIndex io st)) as H1 by (eapply recorded_ext; [apply sessions_drop|done]).
    destruct (_ =? _)%nat; [done|]. pose proof (write_sees c io (fun e => mem (se_sandbox e) live) _ Hio H1) as Hw.
    destruct (keep_entries _ _) as [index dropped]. destruct dropped; [|done]. cbn [negb fst] in Hw |- *. apply Hw. by apply mem_true.
Qed.

(** A flagless command of a session finds the home, whether brig made it,
    and the project that the last boot recorded, after any history of what
    other sessions do; once its sandbox is forgotten it finds nothing, and no
    other session has lost its entry. *)
Lemma session_remembered (io io' : host_io) (c : run) (st : state) (h : list (host_io * op))
  (Hio : io_works io) (Hne : run_entry c <> zero_sessionEntry)
  (Hh : Forall (beside c) h) (Hio' : io_works io') :
  let st' := replay h (rememberSession io c st).2 in
  (rememberSession io c st).1 = false /\ remembered c io' st' /\
  let gone := (ForgetSandbox io' (r_vm c) st').2 in
  (ForgetSandbox io' (r_vm c) st').1 = (true, true) /\
  (forall ref, rememberedWorkspace io' gone ref (r_vm c) = ([], false)) /\
  (forall ref e, se_sandbox e <> r_vm c -> readSessionIndex io' gone !! ref = Some e <-> readSessionIndex io' st' !! ref = Some e).
Proof.
  intros st'. destruct (rememberSession_entries io c st (run_key c) Hio) as [Hl Hw].
  assert (recorded c (rememberSession io c st).2) as H0.
  { rewrite bool_decide_true in Hl by done. assert (readSessionIndex io (rememberSession io c st).2 !! run_key c = Some (run_entry c)) as Hr.
    { rewrite Hl. case_bool_decide as E; [|done]. unfold entry_at in E. destruct (readSessionIndex io st !! _) as [e|]; cbn in E; [by rewrite E|]. by destruct Hne. }
    unfold readSessionIndex in Hr. destruct (io_dir io && _); [|by rewrite lookup_empty in Hr].
    unfold as_sessions in Hr. unfold recorded. destruct (st_sessions _) as [|m| |]; try by rewrite lookup_empty in Hr. by exists m. }
  assert (recorded c st') as H1 by (eapply replay_keeps; [|exact Hh|exact H0]; intros; by apply recorded_step).
  split; [done|]. split; [apply recorded_remembered; [apply Hio'|apply Hio'|done]|]. cbv zeta. split_and!.
  - destruct H1 as (m & Hm & He). unfold ForgetSandbox. destruct (keep_entries _ _) as [index dropped] eqn:E.
    assert (dropped = true) as ->.
    { change dropped with ((index, dropped).2). rewrite <- E. apply keep_entries_some. exists (run_key c), (run_entry c).
      rewrite read_forget_watch. unfold readSessionIndex. io_simpl. rewrite Hm. split; [done|]. apply negb_false_iff, bool_decide_eq_true. done. }
    cbn [negb]. pose proof (read_after_write io' index (forgetGitWatch io' (fun name => negb (bool_decide (name = r_vm c))) st') Hio') as [_ Hok].
    destruct (writeSessionIndex _ _ _) as [ok st2]. cbn in Hok |- *. by subst ok.
  - intros ref. unfold rememberedWorkspace, entry_at.
    destruct (readSessionIndex io' (ForgetSandbox io' (r_vm c) st').2 !! ref) as [e|] eqn:E; cbn [default id].
    + apply ForgetSandbox_entries in E as [_ E]; [|done]. by rewrite bool_decide_false.
    + by destruct (negb _).
  - intros ref e He. rewrite ForgetSandbox_entries by done. tauto.
Qed.

(** ** An upgrade keeps the claims *)

(** The claims of an older release survive the first command of this one:
    a named run is held to them at once, and after the boot has written the
    session index over the file they were in, each is still there. *)
Lemma old_claims_kept (io : host_io) (c : run) (st : state) (m : gmap gostr gostr)
  (Hio : io_works io) (Hc : st_claims st = Absent) (Hs : st_sessions st = Claims m) :
  let '(outcome, st1) := claimSlug io c st in
  let st2 := (rememberSession io c st1).2 in
  outcome = match m !! r_vm c with
            | Some owner => if bool_decide (r_raw c = []) || bool_decide (owner = r_raw c) then Claimed false else Refused owner
            | None => Claimed false
            end /\
  (forall vm name, m !! vm = Some name -> owned vm name st2).
Proof.
  assert (exists st0, migrateSlugClaims io st = st0 /\ as_claims (st_claims st0) = m) as (st0 & E0 & Em).
  { eexists. split; [done|]. unfold migrateSlugClaims. rewrite Hc, Hs. io_simpl. cbn [as_claims].
    destruct (Nat.eqb_spec (size m) 0) as [Z|Z]; [apply map_size_empty_inv in Z; by rewrite Hc, Z|].
    unfold writeSlugClaimIndex. io_simpl. done. }
  assert (forall name vm st1, owned vm name st1 -> owned vm name (rememberSession io c st1).2) as Keep.
  { intros name vm st1 (x & Hx & Hv). exists x. by rewrite claims_remember. }
  assert (forall vm name, m !! vm = Some name -> owned vm name st0) as Own.
  { intros vm name Hv. unfold owned. unfold as_claims in Em. destruct (st_claims st0) as [|x|x|]; try by rewrite <- Em, lookup_empty in Hv.
    subst x. by exists m. }
  unfold claimSlug, readSlugClaimIndex. rewrite E0, Em. io_simpl. case_bool_decide as Er; cbn [orb].
  - split; [by destruct (m !! _)|]. intros vm name Hv. by apply Keep, Own.
  - destruct (m !! r_vm c) as [o|] eqn:Eo.
    + case_bool_decide; (split; [done|]); intros vm name Hv; by apply Keep, Own.
    + pose proof (owned_write io (<[r_vm c:=r_raw c]> m)) as Ow. pose proof (iw_write io Hio slugClaimIndexName) as Hwr.
      unfold writeSlugClaimIndex in *. io_simpl. rewrite (iw_dir io Hio), Hwr in Ow. cbn [andb snd negb] in Ow |- *. split; [done|].
      intros vm name Hv. apply Keep, Ow; [by apply Own|]. rewrite lookup_insert_ne; [done|]. intros X. rewrite X in Eo. congruence.
Qed.

(** ** What changed in a .git is said *)

Section GitWatchFacts.
Variable IsPrint : Z -> bool.
Variable Quote : gostr -> gostr.
Variable missing : gostr -> bool.
Variable snapshotProjectGit : gostr -> res gostr (gmap gostr gostr).
Notation diff := (diffGitWatch IsPrint Quote).
Notation check := (CheckProjectGit IsPrint Quote missing snapshotProjectGit).

Definition path_change (before after : gmap gostr gostr) (p : gostr) : option watch_verb :=
  match before !! p, after !! p with
  | Some was, Some now => if bool_decide (now = was) then None else Some WatchChanged
  | Some _, None => Some WatchRemoved
  | None, Some _ => Some WatchAdded
  | None, None => None
  end.

Lemma diff_elem before after v p : (v, p) ∈ diff before after <-> path_change before after p = Some v.
Proof.
  unfold diffGitWatch. rewrite merge_sort_Permutation, elem_of_app, !list_elem_of_bind. unfold path_change. split.
  - intros [([q x] & H & Hq)|([q x] & H & Hq)]; apply elem_of_map_to_list in Hq.
    + unfold diff_before in H. cbn [fst snd] in H. destruct (after !! q) as [y|] eqn:Ea; [case_bool_decide as E|];
        apply elem_of_nil in H || apply list_elem_of_singleton in H as [= -> ->]; try done; rewrite Hq, Ea; [|done]. by rewrite bool_decide_false.
    + unfold diff_after in H. cbn [fst] in H. destruct (before !! q) as [y|] eqn:Eb; [by apply elem_of_nil in H|].
      apply list_elem_of_singleton in H as [= -> ->]. by rewrite Eb, Hq.
  - destruct (before !! p) as [x|] eqn:Eb, (after !! p) as [y|] eqn:Ea; intros H.
    + case_bool_decide as E; [done|]. injection H as <-. left. exists (p, x). split; [|by apply elem_of_map_to_list].
      unfold diff_before. cbn. rewrite Ea, bool_decide_false by done. left.
    + injection H as <-. left. exists (p, x). split; [|by apply elem_of_map_to_list]. unfold diff_before. cbn. rewrite Ea. left.
    + injection H as <-. right. exists (p, y). split; [|by apply elem_of_map_to_list]. unfold diff_after. cbn. rewrite Eb. left.
    + done.
Qed.

Lemma diff_nil before after : diff before after = [] <-> before = after.
Proof.
  assert (forall p, path_change before after p = None <-> before !! p = after !! p) as Hp.
  { intros p. unfold path_change. destruct (before !! p), (after !! p); try done. case_bool_decide; split; congruence. }
  split.
  - intros H. apply map_eq. intros p. apply Hp. destruct (path_change before after p) as [v|] eqn:E; [|done].
    apply diff_elem in E. rewrite H in E. by apply elem_of_nil in E.
  - intros ->. destruct (diff after after) as [|[v p] l] eqn:E; [done|]. assert ((v, p) ∈ diff after after) as H by (rewrite E; left).
    apply diff_elem in H. by rewrite (proj2 (Hp p)) in H.
Qed.


(** A change in a project's .git is never taken for the new baseline
    unheard.  When what a look finds differs from the one before, a command
    that can be heard names every path that was added, changed or removed, and
    one that cannot leaves the baseline, and everything else, as it was. *)
Lemma watch_heard (io : host_io) (audible : bool) (vmName cproject : gostr) (st : state) (prev : gitWatchEntry) (now : gmap gostr gostr)
  (Hvm : vmName <> []) (Hprev : readGitWatch io st !! vmName = Some prev) (Hp : gw_project prev <> [])
  (Hthere : missing (gw_project prev) = false) (Hlook : snapshotProjectGit (gw_project prev) = Ok now) (Hchange : now <> gw_files prev) :
  let '(ns, st') := check io audible vmName cproject st in
  if audible then
    exists changes, GitChanged vmName (gw_project prev) changes ∈ ns /\
      (forall v p, (v, p) ∈ changes <-> path_change (gw_files prev) now p = Some v)
  else ns = [] /\ st' = st.
Proof.
  unfold CheckProjectGit. rewrite bool_decide_false by done. rewrite Hprev. cbn [default id is_nil negb andb].
  rewrite (bool_decide_false (gw_project prev = [])), Hthere, Hlook by done. cbn [negb andb].
  assert (diff (gw_files prev) now <> []) as Hd by (intros X%diff_nil; congruence).
  rewrite (bool_decide_false (diff _ _ = [])) by done. cbn [negb andb].
  rewrite bool_decide_false by (by case_bool_decide).
  destruct audible; cbn [negb]; [|done].
  assert (forall l, exists changes, GitChanged vmName (gw_project prev) changes ∈
    (([GitChanged vmName (gw_project prev) (diff (gw_files prev) now)] ++ commondirNotice (gw_project prev) now) ++ l) /\
    (forall v p, (v, p) ∈ changes <-> path_change (gw_files prev) now p = Some v)) as Said.
  { intros l. eexists. split; [left|]. intros v p. apply diff_elem. }
  case_bool_decide.
  - destruct (recordGitWatch _ _ _ _ _ _) as [ns st']. apply Said.
  - destruct (look_again _ _ _ _ _ _ _ _ _) as [ns st']. apply Said.
Qed.
End GitWatchFacts.

(** ** Concrete runs *)

Definition all_io : host_io := MkIo true (fun _ => true) (fun _ => true) (fun _ => true) (fun _ => true).
Lemma all_io_works : io_works all_io.
Proof. by split. Qed.

Definition empty_state : state := MkState Absent Absent ∅ true.
Definition foo_run : run :=
  MkRun (lit "claude-code") (lit "foo") (lit "Foo") (lit "brig-claude-code-foo") (lit "/h/.brig/homes/brig-claude-code-foo") (lit "/src/app") true.
Definition foo2_run : run :=
  MkRun (lit "claude-code") (lit "foo") (lit "foo!") (lit "brig-claude-code-foo") (lit "/h/.brig/homes/brig-claude-code-foo") (lit "/src/app") true.
Definition bar_run : run :=
  MkRun (lit "codex") (lit "bar") (lit "bar") (lit "brig-codex-bar") (lit "/h/.brig/homes/brig-codex-bar") [] true.

Definition between : list (host_io * op) :=
  [(all_io, Claim bar_run); (all_io, Remember bar_run); (all_io, Prune [lit "brig-claude-code-foo"]); (all_io, ForgetClaim (lit "brig-codex-bar"))].

Lemma claim_exclusive_witness :
  (claimSlug all_io foo2_run (replay between (claimSlug all_io foo_run empty_state).2)).1 = Refused (lit "Foo").
Proof.
  refine (claim_exclusive all_io all_io foo_run foo2_run empty_state _ between _ eq_refl _ eq_refl eq_refl eq_refl).
  - discriminate.
  - repeat constructor; try done; vm_compute; done.
Defined.

Lemma session_remembered_witness :
  remembered foo_run all_io (replay between (rememberSession all_io foo_run empty_state).2) /\
  readSessionIndex all_io (replay between (rememberSession all_io foo_run empty_state).2) !! lit "codex@bar" = None.
Proof.
  split; [|vm_compute; reflexivity].
  refine (proj1 (proj2 (session_remembered all_io all_io foo_run empty_state between all_io_works _ _ all_io_works))).
  - discriminate.
  - repeat constructor; try done; by vm_compute.
Defined.

Definition old_state : state := MkState (Claims {[ lit "brig-claude-code-foo" := lit "Foo" ]}) Absent ∅ false.

Lemma old_claims_kept_witness :
  (claimSlug all_io foo2_run old_state).1 = Refused (lit "Foo") /\
  owned (lit "brig-claude-code-foo") (lit "Foo") (rememberSession all_io bar_run (claimSlug all_io bar_run old_state).2).2.
Proof.
  pose proof (old_claims_kept all_io foo2_run old_state _ all_io_works eq_refl eq_refl) as H1.
  pose proof (old_claims_kept all_io bar_run old_state _ all_io_works eq_refl eq_refl) as H2.
  destruct (claimSlug all_io foo2_run old_state) as [o1 s1]. destruct (claimSlug all_io bar_run old_state) as [o2 s2].
  cbn [fst snd]. destruct H1 as [-> _]. destruct H2 as [_ H2]. split; [vm_compute; reflexivity|]. apply H2. vm_compute. reflexivity.
Defined.

Definition watch_before : gmap gostr gostr := {[ lit ".git/config" := lit "h1" ]}.
Definition watch_after : gmap gostr gostr := {[ lit ".git/config" := lit "h1"; lit ".git/hooks/post-commit" := lit "h2" ]}.
Definition watch_state : state := MkState Absent Absent {[ lit "brig-codex" := MkGitWatchEntry (lit "/src/app") watch_before ]} false.
Definition printable (r : Z) : bool := in_range 32 126 r.

Lemma watch_heard_witness :
  (exists changes, GitChanged (lit "brig-codex") (lit "/src/app") changes
     ∈ (CheckProjectGit printable (fun s => s) (fun _ => false) (fun _ => Ok watch_after) all_io true (lit "brig-codex") [] watch_state).1 /\
     (WatchAdded, lit ".git/hooks/post-commit") ∈ changes) /\
  (CheckProjectGit printable (fun s => s) (fun _ => false) (fun _ => Ok watch_after) all_io false (lit "brig-codex") [] watch_state).2 = watch_state.
Proof.
  assert (watch_after <> watch_before) as Hne by (intros H; apply (f_equal (fun m => m !! lit ".git/hooks/post-commit")) in H; vm_compute in H; discriminate).
  pose proof (fun audible => watch_heard printable (fun s => s) (fun _ => false) (fun _ => Ok watch_after) all_io audible (lit "brig-codex") [] watch_state
    (MkGitWatchEntry (lit "/src/app") watch_before) watch_after) as W.
  split.
  - specialize (W true). destruct (CheckProjectGit _ _ _ _ all_io true _ _ _) as [ns st'].
    destruct W as (changes & H1 & H2); try done. exists changes. split; [done|]. apply H2. vm_compute. reflexivity.
  - specialize (W false). destruct (CheckProjectGit _ _ _ _ all_io false _ _ _) as [ns st']. destruct W as [_ ->]; done.
Defined.
