(* ===== verification/Posture.v ===== *)
(** * The network posture of a run (internal/wrap/network.go, internal/runtime/posture.go)

    Which network a sandbox is booted on: what the command asks for, what the
    sandbox was last booted with, what the profile and the backend say, and how
    the rules and the routes of the run narrow it.  The record of the last boot
    is a file that fails closed: one that cannot be read is an error, and is
    never written over. *)

From stdpp Require Import prelude list strings gmap.
From Stdlib Require Import ZArith Lia ZifyNat Ascii.
From S2P Require Import Prelude GoUnicode GoStrings GoPath ProfileReg Session SessionIndex.

Local Open Scope Z_scope.

(** ** The postures *)

Inductive Network := NetShared | NetIsolated | NetOffline.
#[export] Instance Network_eq_dec : EqDecision Network.
Proof. solve_decision. Defined.

Definition network_text (n : Network) : gostr :=
  match n with NetShared => lit "shared" | NetIsolated => lit "isolated" | NetOffline => lit "offline" end.

Definition AllNetworks : list Network := [NetShared; NetIsolated; NetOffline].

(** [ParseNetworkStrict]: the value that is no posture goes with its source. *)
Definition ParseNetworkStrict (s : gostr) : res gostr Network :=
  if bool_decide (s = []) then Ok NetIsolated
  else if bool_decide (s = network_text NetShared) then Ok NetShared
  else if bool_decide (s = network_text NetIsolated) then Ok NetIsolated
  else if bool_decide (s = network_text NetOffline) then Ok NetOffline
  else Err s.

Definition RuntimeNet (n : Network) : gostr :=
  match n with NetOffline => lit "none" | NetIsolated => lit "isolated" | NetShared => lit "shared" end.

Definition networkFromRuntime (word : gostr) : option Network :=
  List.find (fun n => bool_decide (RuntimeNet n = word)) AllNetworks.

Definition posture_Line (n : Network) : gostr :=
  match n with
  | NetOffline => lit "offline (no egress)"
  | NetIsolated => lit "isolated (a network of this sandbox's own)"
  | NetShared => lit "shared (one network for every sandbox on this host)"
  end.

(** [sharedNetworkBackend]: [kind] is the runtime's, when there is one, [asked]
    is BRIG_RUNTIME. *)
Definition sharedNetworkBackend (kind : option gostr) (asked : gostr) (darwin : bool) (hypervisor : gostr) : gostr :=
  let kind := match kind with
              | Some k => k
              | None => if bool_decide (asked = []) && darwin then lit "hull" else asked
              end in
  if bool_decide (kind = lit "hull") then
    if bool_decide (hypervisor = []) || bool_decide (hypervisor = lit "vz") then lit "vz"
    else if bool_decide (hypervisor = lit "qemu") then lit "qemu" else []
  else [].

(** ** The record of the last boot *)

(** What the file holds: nothing, the networks by sandbox, or something that
    is no record; or it cannot be read. *)
Inductive posture_file := NoPostures | Postures (m : gmap gostr gostr) | NotPostures | PosturesFail (e : gostr).

Inductive posture_error := PostureUnreadable (e : gostr) | PostureCorrupt | PostureNoDir (e : gostr) | PostureLock (e : gostr) | PostureWrite (e : gostr).

Definition readPostures (f : posture_file) : res posture_error (gmap gostr gostr) :=
  match f with
  | NoPostures => Ok ∅
  | Postures m => Ok m
  | NotPostures => Err PostureCorrupt
  | PosturesFail e => Err (PostureUnreadable e)
  end.

(** What the host refuses: to say where the file is, to lock it, to write it. *)
Record posture_host := MkPostureHost { ph_dir : option gostr; ph_lock : option gostr; ph_write : option gostr }.

Definition writePostures (h : posture_host) (m : gmap gostr gostr) (f : posture_file) : option posture_error * posture_file :=
  match ph_write h with Some e => (Some (PostureWrite e), f) | None => (None, Postures m) end.

Definition BootedNet (h : posture_host) (f : posture_file) (name : gostr) : res posture_error gostr :=
  match ph_dir h with
  | Some e => Err (PostureNoDir e)
  | None => let? all := readPostures f in Ok (default [] (all !! name))
  end.

(** A read, a change and a write, under the lock. *)
Definition update_postures (h : posture_host) (f : posture_file) (change : gmap gostr gostr -> option (gmap gostr gostr))
  : option posture_error * posture_file :=
  match ph_dir h with
  | Some e => (Some (PostureNoDir e), f)
  | None =>
    match ph_lock h with
    | Some e => (Some (PostureLock e), f)
    | None =>
      match readPostures f with
      | Err e => (Some e, f)
      | Ok all => match change all with None => (None, f) | Some all' => writePostures h all' f end
      end
    end
  end.

Definition RecordBootedNet (h : posture_host) (f : posture_file) (name net : gostr) : option posture_error * posture_file :=
  update_postures h f (fun all => if bool_decide (default [] (all !! name) = net) then None else Some (<[name := net]> all)).

Definition ForgetBootedNet (h : posture_host) (f : posture_file) (name : gostr) : posture_file :=
  (update_postures h f (fun all => match all !! name with None => None | Some _ => Some (delete name all) end)).2.

Definition PruneBootedNets (h : posture_host) (f : posture_file) (keep : list gostr) : posture_file :=
  (update_postures h f (fun all =>
     let all' := filter (fun kv : gostr * gostr => mem kv.1 keep = true) all in
     if bool_decide (all' = all) then None else Some all')).2.

(** [rememberedNetwork]: the posture of the last boot, and whether some session
    names the sandbox. *)
Definition rememberedNetwork (io : host_io) (st : state) (h : posture_host) (f : posture_file) (ref vmName : gostr)
  : res posture_error (option Network) * bool :=
  let index := readSessionIndex io st in
  if negb (bool_decide (se_sandbox (entry_at index ref) = vmName)) then (Ok None, names_sandbox index vmName)
  else match BootedNet h f vmName with
       | Err e => (Err e, true)
       | Ok word => (Ok (networkFromRuntime word), true)
       end.

(** ** The posture of a run ([Load] of config.go) *)

Inductive recovery := NoRecovery | RecoveryUnknown | RecoveryAbsent | Recovered.
#[export] Instance recovery_eq_dec : EqDecision recovery.
Proof. solve_decision. Defined.

(** What a run says and what the host answers.  [ni_strict]: an earlier
    setting was refused.  [ni_exists], [ni_inspect]: the runtime's answers,
    when it gives any. *)
Record net_inputs := MkNetInputs {
  ni_option : gostr; ni_setting : gostr; ni_profile : gostr; ni_strict : bool;
  ni_remembered : res posture_error (option Network) * bool;
  ni_exists : option (res gostr bool); ni_inspect : option (res gostr gostr); ni_backend : gostr;
  ni_rules : bool; ni_routes : bool }.

Inductive inspect_error := ExistsFailed (e : gostr) | InspectFailed (e : gostr) | UnknownWord (word : gostr).

Record net_result := MkNetResult {
  nr_network : Network; nr_asked : Network; nr_recorded : option Network; nr_recovery : recovery;
  nr_inspectErr : option inspect_error; nr_explicit : bool; nr_fromProfile : bool; nr_refused : bool }.

(** The posture that the sandbox is known to have: the record, or what the
    runtime says of a sandbox without one. *)
Definition known_posture (i : net_inputs) : option Network * recovery * option inspect_error * bool :=
  let '(rem, knownSandbox) := ni_remembered i in
  let strict := ni_strict i || match rem with Err _ => true | Ok _ => false end in
  let recordedNet := match rem with Ok n => n | Err _ => None end in
  let '(knownSandbox, recov, ierr) :=
    if negb strict && is_nil recordedNet && negb knownSandbox then
      match ni_exists i with
      | None => (knownSandbox, NoRecovery, None)
      | Some (Err e) => (false, RecoveryUnknown, Some (ExistsFailed e))
      | Some (Ok ex) => (ex, if ex then NoRecovery else RecoveryAbsent, None)
      end
    else (knownSandbox, NoRecovery, None) in
  if negb strict && is_nil recordedNet && knownSandbox && is_nil ierr then
    match ni_inspect i with
    | None => (recordedNet, RecoveryUnknown, ierr, strict)
    | Some (Err e) => (recordedNet, RecoveryUnknown, Some (InspectFailed e), strict)
    | Some (Ok word) =>
      if bool_decide (word = []) then (recordedNet, RecoveryAbsent, ierr, strict)
      else match networkFromRuntime word with
           | Some n => (Some n, Recovered, ierr, strict)
           | None => (recordedNet, RecoveryUnknown, Some (UnknownWord word), strict)
           end
    end
  else (recordedNet, recov, ierr, strict).

(** The value that the posture is read from, and whether it is the profile's. *)
Definition net_value (i : net_inputs) (recordedNet : option Network) : gostr * bool :=
  let netValue := if bool_decide (ni_option i = []) then ni_setting i else ni_option i in
  let netValue := match recordedNet with
                  | Some n => if bool_decide (netValue = []) then network_text n else netValue
                  | None => netValue
                  end in
  let fromProfile := bool_decide (netValue = []) && negb (bool_decide (ni_profile i = [])) in
  let netValue := if fromProfile then ni_profile i else netValue in
  (if bool_decide (netValue = []) && negb (bool_decide (ni_backend i = [])) then network_text NetShared else netValue, fromProfile).

(** A policy or a route takes the posture with it. *)
Definition narrowed (i : net_inputs) (asked : Network) : Network :=
  let network := if ni_rules i && negb (bool_decide (asked = NetOffline)) then NetIsolated else asked in
  if ni_routes i && negb (bool_decide (network = NetOffline)) then NetIsolated else network.

Definition resolve_network (i : net_inputs) : net_result :=
  let netExplicit := negb (bool_decide ((if bool_decide (ni_option i = []) then ni_setting i else ni_option i) = [])) in
  let '(recordedNet, recov, ierr, strict) := known_posture i in
  let '(netValue, fromProfile) := net_value i recordedNet in
  let '(asked, bad) := match ParseNetworkStrict netValue with Ok n => (n, false) | Err _ => (NetShared, true) end in
  MkNetResult (narrowed i asked) asked recordedNet recov ierr netExplicit fromProfile (strict || bad).

(** [postureChanged]. *)
Definition postureChanged (r : net_result) : bool :=
  if bool_decide (nr_recovery r = RecoveryUnknown) then nr_explicit r
  else match nr_recorded r with Some n => negb (bool_decide (nr_asked r = n)) | None => false end.

(** [runningNet]: [stale] is the runtime's answer for shared with no rules,
    when it gives one. *)
Definition runningNet (rt : bool) (stale : option bool) (r : net_result) : option Network :=
  if negb rt then None
  else match nr_recorded r with
       | Some NetShared => if default false stale then Some NetIsolated else Some NetShared
       | n => n
       end.

(** The refusal of [sessionRefusal] over the network: the posture of a sandbox
    that exists is not known, and nothing asks for one. *)
Definition networkRefusal (r : net_result) : bool := bool_decide (nr_recovery r = RecoveryUnknown) && negb (nr_explicit r).

(** [recordPosture]: the posture that was asked for, before it was narrowed. *)
Definition recordPosture (h : posture_host) (f : posture_file) (vmName : gostr) (r : net_result) : option posture_error * posture_file :=
  RecordBootedNet h f vmName (RuntimeNet (nr_asked r)).

(** ** Words *)

Lemma networkFromRuntime_word n : networkFromRuntime (RuntimeNet n) = Some n.
Proof. by destruct n. Qed.

Lemma networkFromRuntime_Some word n : networkFromRuntime word = Some n <-> word = RuntimeNet n.
Proof.
  split; [|intros ->; apply networkFromRuntime_word]. intros H. unfold networkFromRuntime in H. apply List.find_some in H as [_ H].
  by apply bool_decide_eq_true in H.
Qed.

Lemma ParseNetworkStrict_text n : ParseNetworkStrict (network_text n) = Ok n.
Proof. by destruct n. Qed.

(** ** The record *)

Lemma update_unreadable h f change e : readPostures f = Err e -> (update_postures h f change).2 = f.
Proof. intros H. unfold update_postures. destruct (ph_dir h); [done|]. destruct (ph_lock h); [done|]. by rewrite H. Qed.

Lemma update_ok h f change m : readPostures f = Ok m -> ph_dir h = None -> ph_lock h = None -> ph_write h = None ->
  update_postures h f change = (None, match change m with None => f | Some m' => Postures m' end).
Proof. intros Hm Hd Hl Hw. unfold update_postures, writePostures. rewrite Hd, Hl, Hm, Hw. by destruct (change m). Qed.

Record host_ok (h : posture_host) : Prop := { hk_dir : ph_dir h = None; hk_lock : ph_lock h = None; hk_write : ph_write h = None }.

(** The network of a sandbox after an operation on the record. *)
Lemma BootedNet_record h f name net m name' : host_ok h -> readPostures f = Ok m ->
  BootedNet h (RecordBootedNet h f name net).2 name' = Ok (if bool_decide (name' = name) then net else default [] (m !! name')).
Proof.
  intros [Hd Hl Hw] Hm. unfold RecordBootedNet. rewrite (update_ok h f _ m) by done. cbn [snd]. unfold BootedNet. rewrite Hd.
  case_bool_decide as E.
  - rewrite Hm. cbn [res_bind]. case_bool_decide; [subst name'; by rewrite E|done].
  - cbn [readPostures res_bind]. case_bool_decide as N; [subst name'; by rewrite lookup_insert_eq|by rewrite lookup_insert_ne].
Qed.

Lemma BootedNet_forget h f name m name' : host_ok h -> readPostures f = Ok m ->
  BootedNet h (ForgetBootedNet h f name) name' = Ok (if bool_decide (name' = name) then [] else default [] (m !! name')).
Proof.
  intros [Hd Hl Hw] Hm. unfold ForgetBootedNet. rewrite (update_ok h f _ m) by done. cbn [snd]. unfold BootedNet. rewrite Hd.
  destruct (m !! name) as [x|] eqn:E.
  - cbn [readPostures res_bind]. case_bool_decide as N; [subst name'; by rewrite lookup_delete_eq|by rewrite lookup_delete_ne].
  - rewrite Hm. cbn [res_bind]. case_bool_decide; [subst name'; by rewrite E|done].
Qed.

Lemma BootedNet_prune h f keep m name' : host_ok h -> readPostures f = Ok m ->
  BootedNet h (PruneBootedNets h f keep) name' = Ok (if mem name' keep then default [] (m !! name') else []).
Proof.
  intros [Hd Hl Hw] Hm. unfold PruneBootedNets. rewrite (update_ok h f _ m) by done. cbn [snd]. unfold BootedNet. rewrite Hd.
  set (m' := filter _ m). assert (forall n, m' !! n = if mem n keep then m !! n else None) as Hl'.
  { intros n. apply option_eq. intros x. unfold m'. rewrite map_lookup_filter_Some. cbn. destruct (mem n keep); naive_solver. }
  case_bool_decide as E.
  - rewrite Hm. cbn [res_bind]. rewrite <- E at 1. rewrite Hl'. by destruct (mem name' keep).
  - cbn [readPostures res_bind]. rewrite Hl'. by destruct (mem name' keep).
Qed.

(** The record of the networks fails closed and is exact: one that cannot
    be read is never written over, by a boot, a removal or a listing; from one
    that can, a boot changes its own sandbox's network alone, a removal drops
    its own alone, and a listing drops those that are gone. *)
Lemma postures_exact (h : posture_host) (f : posture_file) (name net : gostr) (keep : list gostr) :
  match readPostures f with
  | Err e =>
    (forall n, ph_dir h = None -> BootedNet h f n = Err e) /\
    (RecordBootedNet h f name net).2 = f /\ ForgetBootedNet h f name = f /\ PruneBootedNets h f keep = f /\
    (RecordBootedNet h f name net).1 <> None
  | Ok m =>
    host_ok h -> forall n,
      BootedNet h (RecordBootedNet h f name net).2 n = Ok (if bool_decide (n = name) then net else default [] (m !! n)) /\
      BootedNet h (ForgetBootedNet h f name) n = Ok (if bool_decide (n = name) then [] else default [] (m !! n)) /\
      BootedNet h (PruneBootedNets h f keep) n = Ok (if mem n keep then default [] (m !! n) else [])
  end.
Proof.
  destruct (readPostures f) as [m|e] eqn:E.
  - intros Hh n. split_and!; [by apply BootedNet_record|by apply BootedNet_forget|by apply BootedNet_prune].
  - split_and!; try by eapply update_unreadable.
    + intros n Hd. unfold BootedNet. by rewrite Hd, E.
    + unfold RecordBootedNet, update_postures. destruct (ph_dir h); [done|]. destruct (ph_lock h); [done|]. by rewrite E.
Qed.

(** ** What a run gets *)

(** The first of the values that is not empty. *)
Definition first_value (l : list gostr) : gostr := default [] (List.find (fun v => negb (bool_decide (v = []))) l).

Lemma net_value_first i rec : (net_value i rec).1
  = first_value [ni_option i; ni_setting i; from_option network_text [] rec; ni_profile i;
                 if bool_decide (ni_backend i = []) then [] else network_text NetShared].
Proof.
  unfold net_value, first_value. cbn [fst List.find].
  destruct (ni_option i), (ni_setting i), rec as [[]|], (ni_profile i), (ni_backend i); reflexivity.
Qed.

Lemma narrowed_eq i n : narrowed i n = if (ni_rules i || ni_routes i) && negb (bool_decide (n = NetOffline)) then NetIsolated else n.
Proof. unfold narrowed. by destruct (ni_rules i), (ni_routes i), n. Qed.

(** The posture of a run is the first that something names: the option, the
    setting, what the sandbox was last booted with, the profile, shared on a
    backend that has nothing else, and isolated otherwise.  A word that is no
    posture refuses the run.  Rules and routes only narrow it: such a run is
    never on the shared network, and one that asked to be offline stays so. *)
Lemma resolve_network_exact (i : net_inputs) (H : nr_refused (resolve_network i) = false) :
  let r := resolve_network i in
  ParseNetworkStrict (first_value [ni_option i; ni_setting i; from_option network_text [] (nr_recorded r); ni_profile i;
                                   if bool_decide (ni_backend i = []) then [] else network_text NetShared]) = Ok (nr_asked r) /\
  (nr_explicit r = true <-> first_value [ni_option i; ni_setting i] <> []) /\
  (ni_rules i = true \/ ni_routes i = true -> nr_network r <> NetShared) /\
  (nr_asked r = NetOffline <-> nr_network r = NetOffline) /\
  (ni_rules i = false -> ni_routes i = false -> nr_network r = nr_asked r).
Proof.
  unfold resolve_network in *. destruct (known_posture i) as [[[rec recov] ierr] strict].
  pose proof (net_value_first i rec) as Hv. destruct (net_value i rec) as [v fp]. cbn [fst] in Hv. subst v.
  destruct (ParseNetworkStrict _) as [n|e] eqn:Ep; [|by cbn in H; rewrite orb_true_r in H]. cbn [nr_recorded nr_asked nr_network nr_explicit].
  rewrite narrowed_eq. split_and!; [done| | | |].
  - rewrite negb_true_iff, bool_decide_eq_false. unfold first_value. cbn [List.find].
    destruct (ni_option i), (ni_setting i); cbn; split; done.
  - intros [-> | ->]; [|rewrite orb_true_r]; by destruct n.
  - destruct (ni_rules i), (ni_routes i), n; cbn; split; done.
  - intros -> ->. done.
Qed.

(** *** A history of the record *)

(** What commands do to the record: a boot, a removal and a listing. *)
Inductive posture_op := PRecord (name net : gostr) | PForget (name : gostr) | PPrune (keep : list gostr).

Definition apply_posture (h : posture_host) (f : posture_file) (o : posture_op) : posture_file :=
  match o with
  | PRecord name net => (RecordBootedNet h f name net).2
  | PForget name => ForgetBootedNet h f name
  | PPrune keep => PruneBootedNets h f keep
  end.

Definition posture_history (l : list (posture_host * posture_op)) (f : posture_file) : posture_file :=
  foldl (fun f x => apply_posture x.1 f x.2) f l.

(** The command is on other sandboxes, and a listing that prunes has seen this
    one. *)
Definition spares (vm : gostr) (o : posture_op) : Prop :=
  match o with PRecord name _ => name <> vm | PForget name => name <> vm | PPrune keep => vm ∈ keep end.

Definition recorded_as (f : posture_file) (vm word : gostr) : Prop := exists m, readPostures f = Ok m /\ m !! vm = Some word.

(** A change of the record that leaves the word of a sandbox leaves it, however
    the host fails. *)
Lemma update_recorded h f change vm word :
  (forall all all', change all = Some all' -> all' !! vm = all !! vm) ->
  recorded_as f vm word -> recorded_as (update_postures h f change).2 vm word.
Proof.
  intros Hc (m & Hm & Hv). assert (recorded_as f vm word) as Same by (by exists m). unfold update_postures, writePostures.
  destruct (ph_dir h); [done|]. destruct (ph_lock h); [done|]. rewrite Hm. destruct (change m) as [all'|] eqn:Ec; [|done].
  destruct (ph_write h); [done|]. exists all'. split; [done|]. by rewrite (Hc _ _ Ec).
Qed.

Lemma apply_recorded h f o vm word : spares vm o -> recorded_as f vm word -> recorded_as (apply_posture h f o) vm word.
Proof.
  intros Sp R. destruct o as [name net|name|keep]; cbn [apply_posture spares] in *; apply update_recorded; try done; intros all all'.
  - case_bool_decide; [done|]. intros [= <-]. by rewrite lookup_insert_ne.
  - destruct (all !! name); [|done]. intros [= <-]. by rewrite lookup_delete_ne.
  - cbv zeta. case_bool_decide; [done|]. intros [= <-]. apply option_eq. intros x. rewrite map_lookup_filter_Some. cbn.
    rewrite (proj2 (mem_true vm keep)) by done. naive_solver.
Qed.

Lemma history_recorded l vm word : Forall (fun x => spares vm x.2) l -> forall f, recorded_as f vm word -> recorded_as (posture_history l f) vm word.
Proof. induction 1 as [|x l Sp _ IH]; intros f R; [done|]. cbn. by apply IH, apply_recorded. Qed.

(** A boot that said nothing of a failure is recorded. *)
Lemma recordPosture_recorded h f vm r f' : recordPosture h f vm r = (None, f') -> recorded_as f' vm (RuntimeNet (nr_asked r)).
Proof.
  unfold recordPosture, RecordBootedNet, update_postures, writePostures. destruct (ph_dir h); [done|]. destruct (ph_lock h); [done|].
  destruct (readPostures f) as [m|e] eqn:Em; [|done]. case_bool_decide as E.
  - intros [= <-]. exists m. split; [done|]. destruct (m !! vm) as [w|]; cbn in E; [by subst|by destruct (nr_asked r)].
  - destruct (ph_write h); [done|]. intros [= <-]. eexists. split; [done|]. by rewrite lookup_insert_eq.
Qed.


(** ** Concrete runs *)

Definition a_host : posture_host := MkPostureHost None None None.
Definition flagless (remembered : res posture_error (option Network) * bool) : net_inputs :=
  MkNetInputs [] [] (lit "shared") false remembered None None (lit "vz") false false.
Definition isolated_run : net_inputs := MkNetInputs (lit "isolated") [] [] false (Ok None, false) None None [] true false.
Definition booted_state : state :=
  MkState (Sessions {[ lit "codex" := MkSessionEntry (lit "/h") (lit "brig-codex") [] false ]}) Absent ∅ false.

Lemma resolve_network_exact_witness :
  ParseNetworkStrict (lit "isolated") = Ok (nr_asked (resolve_network isolated_run)) /\ nr_network (resolve_network isolated_run) <> NetShared.
Proof.
  destruct (resolve_network_exact isolated_run eq_refl) as (H1 & _ & H2 & _). split; [exact H1|]. apply H2. left. reflexivity.
Defined.

Definition full_host : posture_host := MkPostureHost None None (Some (lit "no space left on device")).
Definition other_boots : list (posture_host * posture_op) :=
  [(a_host, PRecord (lit "brig-x") (lit "shared")); (full_host, PForget (lit "brig-x")); (a_host, PPrune [lit "brig-codex"; lit "brig-y"])].


Lemma postures_exact_witness :
  BootedNet a_host (RecordBootedNet a_host NoPostures (lit "brig-codex") (lit "isolated")).2 (lit "brig-codex") = Ok (lit "isolated").
Proof.
  pose proof (postures_exact a_host NoPostures (lit "brig-codex") (lit "isolated") []) as H. cbn [readPostures] in H.
  destruct (H (Build_host_ok a_host eq_refl eq_refl eq_refl) (lit "brig-codex")) as (H1 & _). exact H1.
Defined.
