(* ===== verification/RunHome.v ===== *)
(** * The sandbox and the guest home of a run (internal/wrap/config.go, home.go)

    How a run is given the name of its sandbox and the directory that is the
    home of its guest, and which homes brig deletes.  The homes directory is
    the set of the names in it; what the host and the runtime answer are
    arguments. *)

From stdpp Require Import prelude list strings gmap.
From Stdlib Require Import ZArith Lia ZifyNat Ascii.
From S2P Require Import Prelude GoUnicode GoStrings GoPath GoClean Volumes ProfileReg Settings Session SessionIndex.

(** ** Names ([Load] of config.go) *)

Definition NamePrefix : gostr := lit "brig-".

(** The sandbox name without the slug and with it, or the refusal, with the
    name that would do. *)
Definition sandbox_name (e : Env) (profile slug : gostr) : res (gostr * gostr) (gostr * gostr) :=
  let vmName := String_ e (lit "NAME") (NamePrefix ++ profile) in
  if negb (has_prefix vmName NamePrefix) then Err (vmName, NamePrefix ++ vmName)
  else Ok (vmName, if bool_decide (slug = []) then vmName else vmName ++ lit "-" ++ slug).

(** [filepath.Abs] from a working directory. *)
Definition filepath_Abs (cwd p : gostr) : gostr := if filepath_IsAbs p then path_Clean p else filepath_Join cwd p.

(** ** Directories *)

(** [homesDir]. *)
Definition homesDirName : gostr := lit "homes".
Definition homesDir (env : environment) (cwd : gostr) : option gostr :=
  (fun dir => filepath_Abs cwd (filepath_Join dir homesDirName)) <$> stateDir env.

Definition defaultWorkspace (env : environment) (cwd vmName : gostr) : option gostr :=
  (fun dir => filepath_Join dir vmName) <$> homesDir env cwd.

Definition legacyDefaultWorkspace (env : environment) (profile slug : gostr) : gostr :=
  let home := default (lit ".") (env_home env) in
  let dir := filepath_Join (filepath_Join home (lit "brig")) profile in
  if bool_decide (slug = []) then dir else dir ++ lit "-" ++ slug.

(** The components of an absolute path. *)
Definition path_words (p : gostr) : option (list gostr) :=
  match path_Clean p with
  | c :: r => if Ascii.eqb c slash then Some (if bool_decide (r = []) then [] else split_byte slash r) else None
  | [] => None
  end.

Fixpoint strip_common (b t : list gostr) : list gostr * list gostr :=
  match b, t with
  | x :: b', y :: t' => if bool_decide (x = y) then strip_common b' t' else (b, t)
  | _, _ => (b, t)
  end.

(** [filepath.Rel] from an absolute directory, which is what [homesDir]
    gives. *)
Definition filepath_Rel (dir p : gostr) : option gostr :=
  match path_words dir, path_words p with
  | Some bw, Some tw =>
    let '(b, t) := strip_common bw tw in
    match b, t with
    | [], [] => Some dot1
    | _, _ => Some (join [slash] (repeat dot2 (length b) ++ t))
    end
  | _, _ => None
  end.

(** [homeName]: the name of a home in the homes directory. *)
Definition homeName (homes : option gostr) (home : gostr) : option (gostr * gostr) :=
  match homes with
  | None => None
  | Some dir =>
    match filepath_Rel dir home with
    | None => None
    | Some rel =>
      if bool_decide (rel = dot1) || bool_decide (rel = dot2) || has_byte slash rel then None else Some (dir, rel)
    end
  end.

(** ** The home of a run *)

(** What a run is asked: the workspaces of the option and of the setting,
    what the index remembers, whether a directory is there and whether the
    runtime holds the sandbox, when it can say. *)
Record home_inputs := MkHomeInputs {
  hi_option : gostr; hi_setting : gostr; hi_cwd : gostr; hi_remembered : gostr * bool;
  hi_isDir : gostr -> bool; hi_exists : option bool }.

Record home_choice := MkHomeChoice {
  hc_workspace : gostr; hc_ephemeral : bool; hc_remembered : bool; hc_given : bool; hc_legacy : gostr }.

(** The part of [Load] that settles the workspace; there is an error when
    there is no state directory. *)
Definition choose_home (env : environment) (profile slug vmName : gostr) (i : home_inputs) : option home_choice :=
  let '(base, given) :=
    if negb (bool_decide (hi_option i = [])) then (hi_option i, true)
    else if negb (bool_decide (hi_setting i = [])) then (hi_setting i, true) else ([], false) in
  if given then
    let base := filepath_Abs (hi_cwd i) base in
    Some (MkHomeChoice (if bool_decide (slug = []) then base else base ++ lit "-" ++ slug) false false true [])
  else
    match defaultWorkspace env (hi_cwd i) vmName with
    | None => None
    | Some workspace =>
      let '(home, eph) := hi_remembered i in
      if negb (bool_decide (home = [])) then Some (MkHomeChoice home eph true false [])
      else
        let dir := legacyDefaultWorkspace env profile slug in
        if hi_isDir i dir then
          match hi_exists i with
          | Some true => Some (MkHomeChoice dir false false false [])
          | _ => Some (MkHomeChoice workspace true false false dir)
          end
        else Some (MkHomeChoice workspace true false false [])
    end.

(** ** Deleting homes *)

(** What the host does of a deletion: opening the homes directory, which may
    not be there, and removing the tree. *)
Inductive root_answer := RootOpen | RootMissing | RootFails (e : gostr).
Record home_host := MkHomeHost { hh_root : root_answer; hh_remove : option gostr }.

Inductive home_error := NotUnderHomes (home : gostr) | RootError (e : gostr) | RemoveError (home e : gostr).

(** [removeHome]: whether something was deleted, and the homes. *)
Definition removeHome (h : home_host) (dir : option gostr) (home : gostr) (homes : gset gostr) : res home_error bool * gset gostr :=
  match homeName dir home with
  | None => (Err (NotUnderHomes home), homes)
  | Some (_, name) =>
    match hh_root h with
    | RootMissing => (Ok false, homes)
    | RootFails e => (Err (RootError e), homes)
    | RootOpen =>
      if bool_decide (name ∈ homes) then
        match hh_remove h with
        | Some e => (Err (RemoveError home e), homes)
        | None => (Ok true, homes ∖ {[name]})
        end
      else (Ok false, homes)
    end
  end.

(** [ephemeralEntry]; [range] is the order of the range over the index. *)
Definition ephemeralEntry (range : list (gostr * sessionEntry)) (vmName : gostr) : option sessionEntry :=
  snd <$> List.find (fun '(_, e) => bool_decide (se_sandbox e = vmName) && se_ephemeral e) range.

Definition EphemeralHomeOf (range : list (gostr * sessionEntry)) (there : gostr -> bool) (vmName : gostr) : gostr :=
  match ephemeralEntry range vmName with
  | Some e => if there (se_home e) then se_home e else []
  | None => []
  end.

Definition DropEphemeralHome (h : home_host) (dir : option gostr) (range : list (gostr * sessionEntry)) (vmName : gostr) (homes : gset gostr)
  : gostr * option home_error * gset gostr :=
  match ephemeralEntry range vmName with
  | None => ([], None, homes)
  | Some e =>
    let '(r, homes') := removeHome h dir (se_home e) homes in
    match r with
    | Err x => ([], Some x, homes')
    | Ok removed => (if removed then se_home e else [], None, homes')
    end
  end.

(** What the run says of its home. *)
Inductive home_notice := HomeRemoved (home : gostr) | HomeProblem (e : home_error).

(** [reapOrphanHome]: [there] is whether the workspace is on the disk,
    [exists_] what the runtime answers. *)
Definition reapOrphanHome (h : home_host) (dir : option gostr) (there : bool) (exists_ : option bool) (c : home_choice) (homes : gset gostr)
  : list home_notice * gset gostr :=
  if negb (hc_ephemeral c) || hc_remembered c || hc_given c then ([], homes)
  else if negb there then ([], homes)
  else match exists_ with
       | Some false =>
         let '(r, homes') := removeHome h dir (hc_workspace c) homes in
         (match r with Err e => [HomeProblem e] | Ok true => [HomeRemoved (hc_workspace c)] | Ok false => [] end, homes')
       | _ => ([], homes)
       end.

(** [missing]: the workspace is known not to be there. *)
Definition createsEphemeralHome (missing : bool) (c : home_choice) : bool :=
  if negb (hc_ephemeral c) || hc_remembered c || hc_given c then false else missing.

Definition dropUnbootedHome (h : home_host) (dir : option gostr) (range : list (gostr * sessionEntry)) (exists_ : option bool)
    (vmName : gostr) (c : home_choice) (homes : gset gostr) : list home_notice * gset gostr :=
  match ephemeralEntry range vmName with
  | Some _ => ([], homes)
  | None =>
    match exists_ with
    | Some false =>
      let '(r, homes') := removeHome h dir (hc_workspace c) homes in
      (match r with Err e => [HomeProblem e] | Ok true => [HomeRemoved (hc_workspace c)] | Ok false => [] end, homes')
    | _ => ([], homes)
    end
  end.

(** ** Commands on the homes *)

(** A run: the session, what the host and the runtime answer, and whether the
    sandbox booted. *)
Record boot := MkBoot {
  bo_profile : gostr; bo_slug : gostr; bo_raw : gostr; bo_vm : gostr; bo_project : gostr;
  bo_inputs : home_inputs; bo_host : home_host; bo_there : bool; bo_missing : bool; bo_range : list (gostr * sessionEntry); bo_booted : bool }.

Definition with_remembered (i : home_inputs) (r : gostr * bool) : home_inputs :=
  MkHomeInputs (hi_option i) (hi_setting i) (hi_cwd i) r (hi_isDir i) (hi_exists i).

Definition boot_choice (io : host_io) (env : environment) (b : boot) (st : state) : option home_choice :=
  choose_home env (bo_profile b) (bo_slug b) (bo_vm b)
    (with_remembered (bo_inputs b) (rememberedWorkspace io st (sessionKey (bo_profile b) (bo_slug b)) (bo_vm b))).

Definition boot_run (b : boot) (c : home_choice) : run :=
  MkRun (bo_profile b) (bo_slug b) (bo_raw b) (bo_vm b) (hc_workspace c) (bo_project b) (hc_ephemeral c).

(** The steps of [EnsureRunning] that concern the home: the orphan goes, the
    home is made, and it is recorded with the boot or dropped without. *)
Definition boot_home (io : host_io) (env : environment) (b : boot) (w : state * gset gostr) : state * gset gostr :=
  let '(st, homes) := w in
  match boot_choice io env b st with
  | None => w
  | Some c =>
    let dir := homesDir env (hi_cwd (bo_inputs b)) in
    let homes := (reapOrphanHome (bo_host b) dir (bo_there b) (hi_exists (bo_inputs b)) c homes).2 in
    let creates := createsEphemeralHome (bo_missing b) c in
    let homes := match homeName dir (hc_workspace c) with Some (_, name) => {[name]} ∪ homes | None => homes end in
    if bo_booted b then ((rememberSession io (boot_run b c) st).2, homes)
    else (st, if creates then (dropUnbootedHome (bo_host b) dir (bo_range b) (hi_exists (bo_inputs b)) (bo_vm b) c homes).2 else homes)
  end.

(** [Remove], once the runtime has removed the sandbox. *)
Definition rm_home (io : host_io) (env : environment) (cwd : gostr) (h : home_host) (range : list (gostr * sessionEntry)) (vmName : gostr)
    (w : state * gset gostr) : state * gset gostr :=
  let '(st, homes) := w in
  ((ForgetSandbox io vmName st).2, (DropEphemeralHome h (homesDir env cwd) range vmName homes).2).

Inductive home_cmd := Boot (b : boot) | Rm (cwd : gostr) (h : home_host) (range : list (gostr * sessionEntry)) (vmName : gostr).
Definition cmd_vm (x : home_cmd) : gostr := match x with Boot b => bo_vm b | Rm _ _ _ vm => vm end.
Definition apply_cmd (io : host_io) (env : environment) (x : home_cmd) (w : state * gset gostr) : state * gset gostr :=
  match x with Boot b => boot_home io env b w | Rm cwd h range vm => rm_home io env cwd h range vm w end.
Definition home_history (io : host_io) (env : environment) (l : list home_cmd) (w : state * gset gostr) : state * gset gostr :=
  foldl (fun w x => apply_cmd io env x w) w l.

Example names_example :
  let e := NewEnv (lit "claude-code") (fun n => None) in
  sandbox_name e (lit "claude-code") (lit "foo") = Ok (lit "brig-claude-code", lit "brig-claude-code-foo") /\
  homeName (Some (lit "/h/.brig/homes")) (lit "/h/.brig/homes/brig-x") = Some (lit "/h/.brig/homes", lit "brig-x") /\
  homeName (Some (lit "/h/.brig/homes")) (lit "/h/.brig/homes/a/b") = None /\
  homeName (Some (lit "/h/.brig/homes")) (lit "/h/.brig/homes") = None /\
  homeName (Some (lit "/h/.brig/homes")) (lit "/h/.brig") = None /\
  homeName (Some (lit "/h/.brig/homes")) (lit "/h/.brig/x") = None /\
  homeName (Some (lit "/h/.brig/homes")) (lit "homes/x") = None.
Proof. vm_compute. done. Qed.

(** ** Components *)

Lemma path_words_abs l : Forall normal l -> path_words (slash :: join [slash] l) = Some l.
Proof.
  intros H. unfold path_words. rewrite Clean_abs by (by exists l). rewrite Ascii.eqb_refl. f_equal. destruct l as [|w l]; [done|].
  rewrite bool_decide_false by (by apply join_not_nil). apply split_byte_join; [done|]. by apply normal_no_slash.
Qed.

Lemma path_words_normal p l : path_words p = Some l -> Forall normal l /\ path_Clean p = slash :: join [slash] l.
Proof.
  unfold path_words. intros H. destruct (Clean_shape p) as [E|[(m & Hm & E)|[(m & Hm & Hn & E)|(r & E & _)]]]; rewrite E in H.
  - done.
  - rewrite Ascii.eqb_refl in H. injection H as <-. rewrite E. destruct m as [|w m]; [by rewrite bool_decide_true|].
    rewrite bool_decide_false by (by apply join_not_nil). rewrite split_byte_join; [done|done|]. by apply normal_no_slash.
  - pose proof (join_head m Hn) as Hh. destruct (join [slash] m) as [|c r] eqn:Ej; [done|]. destruct (Ascii.eqb_spec c slash) as [->|]; [|done].
    assert (has_prefix (slash :: r) [slash] = true) as X by (apply has_prefix_true; by exists r). congruence.
  - done.
Qed.

Lemma Clean_rooted p : has_prefix p [slash] = true -> exists l, Forall normal l /\ path_Clean p = slash :: join [slash] l.
Proof.
  intros H. assert (exists r, path_Clean p = slash :: r) as [r E].
  { unfold path_Clean. rewrite bool_decide_false, H by (by intros ->). by eexists. }
  destruct (Clean_shape p) as [E'|[(m & Hm & E')|[(m & Hm & Hn & E')|(x & E' & _)]]]; rewrite E in E'.
  - done.
  - exists m. split; [done|]. by rewrite E.
  - exfalso. pose proof (join_head m Hn) as Hh. rewrite <- E' in Hh.
    assert (has_prefix (slash :: r) [slash] = true) as X by (apply has_prefix_true; by exists r). congruence.
  - done.
Qed.

Lemma strip_common_spec b t : exists c, b = c ++ (strip_common b t).1 /\ t = c ++ (strip_common b t).2.
Proof.
  revert t. induction b as [|x b IH]; intros [|y t]; try by exists []. cbn [strip_common].
  case_bool_decide as E; [|by exists []]. destruct (IH t) as (c & H1 & H2). subst y. exists (x :: c). cbn. split; by f_equal.
Qed.

Lemma strip_common_app b t : strip_common b (b ++ t) = ([], t).
Proof. induction b as [|x b IH]; [by destruct t|]. cbn. by rewrite bool_decide_true. Qed.

Lemma join_one_slash (l : list gostr) : slash ∉ join [slash] l -> l <> [] -> exists w, l = [w].
Proof.
  destruct l as [|w [|v l]]; [done|by exists w|]. intros H _. exfalso. apply H. cbn [join]. rewrite !elem_of_app. right. left. left.
Qed.

(** What a home in the homes directory is: one name below it. *)
Lemma homeName_exact bw home : Forall normal bw -> forall name d,
  homeName (Some (slash :: join [slash] bw)) home = Some (d, name) <->
  d = slash :: join [slash] bw /\ path_words home = Some (bw ++ [name]).
Proof.
  intros Hb name d. unfold homeName, filepath_Rel. rewrite path_words_abs by done. destruct (path_words home) as [tw|] eqn:Ew.
  2: { split; [done|]. by intros [_ ?]. }
  apply path_words_normal in Ew as [Hn _]. destruct (strip_common_spec bw tw) as (c & E1 & E2). split.
  - destruct (strip_common bw tw) as [b t] eqn:Es. cbn [fst snd] in E1, E2. intros H.
    assert (b = [] /\ t = [name] /\ d = slash :: join [slash] bw) as (-> & -> & ->).
    2: { rewrite app_nil_r in E1. split; [done|]. by rewrite E2, E1. }
    destruct (decide (repeat dot2 (length b) ++ t = [])) as [E|E].
    { apply app_eq_nil in E as [Eb ->]. destruct b; [|done]. done. }
    assert (Hrel : (match b, t with [], [] => Some dot1 | _, _ => Some (join [slash] (repeat dot2 (length b) ++ t)) end) =
      Some (join [slash] (repeat dot2 (length b) ++ t))) by (by destruct b, t).
    rewrite Hrel in H. destruct (bool_decide (join _ _ = dot1)); [done|]. case_bool_decide as E3; [done|].
    destruct (has_byte slash _) eqn:Eh; [done|]. cbn [orb] in H. injection H as <- <-.
    assert (slash ∉ join [slash] (repeat dot2 (length b) ++ t)) as Hs by (intros X; apply has_byte_true in X; congruence).
    destruct (join_one_slash _ Hs E) as [w Hw]. destruct b as [|x b].
    + cbn in Hw |- *. subst t. done.
    + exfalso. apply E3. cbn [length repeat app] in Hw |- *. injection Hw as _ Hw. rewrite Hw. done.
  - intros [-> [= ->]]. rewrite strip_common_app. cbn [length repeat app join].
    apply Forall_app in Hn as [_ [(H1 & H2 & H3 & H4) _]%Forall_cons]. rewrite !bool_decide_false by done.
    destruct (has_byte slash name) eqn:E; [|done]. by apply has_byte_true in E.
Qed.

Lemma split_byte_component a w : slash ∉ w -> split_byte slash (a ++ [slash] ++ w) = split_byte slash a ++ [w].
Proof.
  intros Hw. rewrite <- (join_split_byte slash a) at 1.
  assert (join [slash] (split_byte slash a) ++ [slash] ++ w = join [slash] (split_byte slash a ++ [w])) as ->.
  { by rewrite join_app by (done || apply split_byte_not_nil). }
  apply split_byte_join; [by destruct (split_byte slash a)|]. apply Forall_app. split; [apply split_byte_no_sep|by constructor].
Qed.

Lemma Join_abs bw w : Forall normal bw -> normal w -> filepath_Join (slash :: join [slash] bw) w = slash :: join [slash] (bw ++ [w]).
Proof.
  intros Hb Hw. pose proof Hw as (Hne & _ & _ & Hs). unfold filepath_Join. rewrite !bool_decide_false by done. cbn [andb].
  destruct (decide (bw = [])) as [->|Hbw].
  - assert (forall z, has_prefix (slash :: z) [slash] = true) as X by (intros z; apply has_prefix_true; by eexists).
    cbn [join app]. unfold path_Clean. rewrite bool_decide_false, X by done. f_equal.
    change (slash :: slash :: w) with ([slash] ++ [slash] ++ w). rewrite split_byte_component by done.
    change (split_byte slash [slash]) with [@nil ascii; []]. cbn [app foldl].
    change (clean_step true (clean_step true [] []) []) with (@nil gostr).
    pose proof (clean_normal true [w] [] ltac:(by constructor)) as C. cbn [foldl] in C. rewrite C. done.
  - assert ((slash :: join [slash] bw) ++ [slash] ++ w = slash :: join [slash] (bw ++ [w])) as ->.
    { by rewrite join_app. }
    apply Clean_abs. exists (bw ++ [w]). split; [|done]. apply Forall_app. split; [done|by constructor].
Qed.

Lemma words_join bw w : Forall normal bw -> normal w -> path_words (filepath_Join (slash :: join [slash] bw) w) = Some (bw ++ [w]).
Proof. intros Hb Hw. rewrite Join_abs by done. apply path_words_abs, Forall_app. split; [done|by constructor]. Qed.

(** ** The home of a run is its own *)

Lemma homesDir_abs env cwd dir : has_prefix cwd [slash] = true -> homesDir env cwd = Some dir ->
  exists bw, Forall normal bw /\ dir = slash :: join [slash] bw.
Proof.
  intros Hc. unfold homesDir. destruct (stateDir env) as [d|]; [|done]. intros [= <-]. unfold filepath_Abs, filepath_IsAbs.
  destruct (has_prefix (filepath_Join d homesDirName) [slash]) eqn:E; [by apply Clean_rooted|].
  unfold filepath_Join at 1. rewrite (bool_decide_false (cwd = [])) by (by intros ->). cbn [andb].
  case_bool_decide; [by apply Clean_rooted|]. apply Clean_rooted. apply has_prefix_true in Hc as [r ->]. apply has_prefix_true.
  exists (r ++ [slash] ++ filepath_Join d homesDirName). done.
Qed.

Lemma default_home_name env cwd vm ws : has_prefix cwd [slash] = true -> normal vm -> defaultWorkspace env cwd vm = Some ws ->
  exists d, homeName (homesDir env cwd) ws = Some (d, vm).
Proof.
  intros Hc Hn. unfold defaultWorkspace. destruct (homesDir env cwd) as [dir|] eqn:E; [|done]. intros [= <-].
  destruct (homesDir_abs _ _ _ Hc E) as (bw & Hb & ->). eexists. apply homeName_exact; [done|]. split; [done|]. by apply words_join.
Qed.

(** A workspace that the option or the setting names is the run's home and
    is not ephemeral; without one, the home that the index remembers is; and
    a home that brig makes for a sandbox is below the homes directory, under
    the sandbox's own name. *)
Lemma choose_home_exact (env : environment) (profile slug vmName : gostr) (i : home_inputs) (c : home_choice)
  (Hcwd : has_prefix (hi_cwd i) [slash] = true) (H : choose_home env profile slug vmName i = Some c) :
  (hc_given c = true <-> hi_option i <> [] \/ hi_setting i <> []) /\
  (hc_given c = true -> hc_ephemeral c = false /\ hc_remembered c = false) /\
  (hc_given c = false -> (hi_remembered i).1 <> [] -> hc_workspace c = (hi_remembered i).1 /\ hc_ephemeral c = (hi_remembered i).2) /\
  (hc_ephemeral c = true -> hc_remembered c = false -> normal vmName ->
   exists d, homeName (homesDir env (hi_cwd i)) (hc_workspace c) = Some (d, vmName)).
Proof.
  unfold choose_home in H. case_bool_decide as E1; cbn [negb] in H; [case_bool_decide as E2; cbn [negb] in H|].
  - destruct (defaultWorkspace env (hi_cwd i) vmName) as [ws|] eqn:Ed; [|done]. destruct (hi_remembered i) as [home eph].
    case_bool_decide as E3; cbn [negb] in H.
    + assert (hc_given c = false /\ hc_remembered c = false /\ (hc_ephemeral c = true -> hc_workspace c = ws)) as (Hg & Hr & Hw).
      { destruct (hi_isDir i _); [destruct (hi_exists i) as [[]|]|]; by injection H as <-. }
      rewrite Hg. cbn [fst snd]. split_and!; [naive_solver|done|naive_solver|]. intros He _ Hn. rewrite Hw by done. by eapply default_home_name.
    + injection H as <-. cbn. split_and!; [naive_solver|done|done|done].
  - injection H as <-. cbn. split_and!; [naive_solver|done|done|done].
  - injection H as <-. cbn. split_and!; [naive_solver|done|done|done].
Qed.

(** Every home that is recorded as brig's is its own sandbox's. *)
Definition own_homes (dir : option gostr) (m : gmap gostr sessionEntry) : Prop :=
  forall ref e, m !! ref = Some e -> se_ephemeral e = true -> exists d, homeName dir (se_home e) = Some (d, se_sandbox e).

Lemma removeHome_own h dir home d vm homes x :
  homeName dir home = Some (d, vm) -> x <> vm -> x ∈ homes -> x ∈ (removeHome h dir home homes).2.
Proof.
  intros Hn Hx Hin. unfold removeHome. rewrite Hn. destruct (hh_root h); [|done|done]. case_bool_decide; [|done].
  destruct (hh_remove h); [done|]. cbn. set_solver.
Qed.

Lemma boot_choice_own io env b st c : has_prefix (hi_cwd (bo_inputs b)) [slash] = true -> normal (bo_vm b) ->
  own_homes (homesDir env (hi_cwd (bo_inputs b))) (readSessionIndex io st) ->
  boot_choice io env b st = Some c -> hc_ephemeral c = true ->
  exists d, homeName (homesDir env (hi_cwd (bo_inputs b))) (hc_workspace c) = Some (d, bo_vm b).
Proof.
  intros Hc Hn Hown H He. unfold boot_choice, choose_home in H. cbn [hi_option hi_setting hi_cwd hi_remembered hi_isDir hi_exists with_remembered] in H.
  destruct (if negb (bool_decide (hi_option _ = [])) then _ else _) as [base given]. destruct given; [by injection H as <-|].
  destruct (defaultWorkspace _ _ _) as [ws|] eqn:Ed; [|done].
  destruct (rememberedWorkspace _ _ _ _) as [home eph] eqn:Er. case_bool_decide as Eh; cbn [negb] in H.
  - assert (hc_workspace c = ws) as ->; [|by eapply default_home_name].
    destruct (hi_isDir _ _); [destruct (hi_exists _) as [[]|]|]; by injection H as <-.
  - injection H as <-. cbn in He |- *. subst eph. unfold rememberedWorkspace in Er. case_bool_decide as Es; cbn [negb] in Er; [|done].
    injection Er as <- Ee. unfold entry_at in *. destruct (readSessionIndex io st !! _) as [e|] eqn:El; [|done].
    cbn [default id] in *. rewrite <- Es. by eapply Hown.
Qed.

(** What a command on one sandbox leaves of the others. *)
Definition cmd_ok (env : environment) (dir : option gostr) (vm : gostr) (x : home_cmd) : Prop :=
  cmd_vm x <> vm /\
  match x with
  | Boot b => has_prefix (hi_cwd (bo_inputs b)) [slash] = true /\ homesDir env (hi_cwd (bo_inputs b)) = dir /\ normal (bo_vm b)
  | Rm cwd _ _ _ => homesDir env cwd = dir
  end.

(** The ranges of the commands are those of the index that they read. *)
Definition cmd_reads (io : host_io) (st : state) (x : home_cmd) : Prop :=
  match x with Rm _ _ range _ => range ≡ₚ map_to_list (readSessionIndex io st) | Boot _ => True end.

Lemma cmd_keeps io env dir vm x st homes : io_works io -> cmd_ok env dir vm x -> cmd_reads io st x ->
  own_homes dir (readSessionIndex io st) -> vm ∈ homes ->
  let w := apply_cmd io env x (st, homes) in own_homes dir (readSessionIndex io w.1) /\ vm ∈ w.2.
Proof.
  intros Hio [Hne Hx] Hrd Hown Hvm. destruct x as [b|cwd h range v]; cbn [apply_cmd cmd_vm] in *.
  - destruct Hx as (Hc & <- & Hn). unfold boot_home. destruct (boot_choice io env b st) as [c|] eqn:Ec; [|done].
    pose proof (boot_choice_own io env b st c Hc Hn Hown Ec) as Hb.
    set (dir := homesDir env (hi_cwd (bo_inputs b))) in *.
    assert (forall hs : gset gostr, vm ∈ hs -> vm ∈ (reapOrphanHome (bo_host b) dir (bo_there b) (hi_exists (bo_inputs b)) c hs).2) as K1.
    { intros hs Hin. unfold reapOrphanHome. destruct (hc_ephemeral c) eqn:He; [|done]. destruct (negb true || _ || _); [done|].
      destruct (negb _); [done|]. destruct (hi_exists _) as [[]|]; try done. destruct (Hb eq_refl) as [d Hd].
      pose proof (removeHome_own (bo_host b) dir _ d (bo_vm b) hs vm Hd ltac:(done) Hin) as K. by destruct (removeHome _ _ _ _) as [r hs']. }
    assert (forall hs : gset gostr, vm ∈ hs -> vm ∈ match homeName dir (hc_workspace c) with Some (_, name) => {[name]} ∪ hs | None => hs end) as K2.
    { intros hs Hin. destruct (homeName _ _) as [[d nm]|]; set_solver. }
    destruct (bo_booted b); cbn [fst snd].
    + split; [|by apply K2, K1]. intros ref e He Heph. destruct (rememberSession_entries io (boot_run b c) st ref Hio) as [L _]. rewrite L in He.
      case_bool_decide as Ek; [|by eapply Hown]. case_bool_decide as Ee; [by eapply Hown|]. injection He as <-.
      cbn in Heph |- *. by apply Hb.
    + split; [done|]. destruct (createsEphemeralHome _ c) eqn:Ecr; [|by apply K2, K1].
      assert (hc_ephemeral c = true) as He by (unfold createsEphemeralHome in Ecr; by destruct (hc_ephemeral c)).
      set (hs := match homeName dir _ with Some _ => _ | None => _ end). assert (vm ∈ hs) as Hin by apply K2, K1, Hvm. clearbody hs.
      unfold dropUnbootedHome. destruct (ephemeralEntry _ _); [done|]. destruct (hi_exists _) as [[]|]; try done. destruct (Hb He) as [d Hd].
      pose proof (removeHome_own (bo_host b) dir _ d (bo_vm b) hs vm Hd ltac:(done) Hin) as K. by destruct (removeHome _ _ _ _) as [r hs'].
  - subst dir. unfold rm_home. cbn [fst snd]. split.
    + intros ref e He. apply ForgetSandbox_entries in He as [He _]; [|done]. by eapply Hown.
    + unfold DropEphemeralHome, ephemeralEntry. destruct (List.find _ range) as [[ref e]|] eqn:Ef; [|done]. cbn [fmap option_fmap option_map snd].
      apply List.find_some in Ef as [Hin Ef]. apply list_elem_of_In in Hin. rewrite Hrd in Hin. apply elem_of_map_to_list in Hin.
      apply andb_true_iff in Ef as [Es Ee]. apply bool_decide_eq_true in Es. destruct (Hown ref e Hin Ee) as [d Hd]. rewrite Es in Hd.
      pose proof (removeHome_own h _ _ d v homes vm Hd ltac:(done) Hvm) as K. by destruct (removeHome _ _ _ _) as [[]].
Qed.

(** The commands of a history, each read from the files as they are then. *)
Fixpoint history_ok (io : host_io) (env : environment) (dir : option gostr) (vm : gostr) (l : list home_cmd) (w : state * gset gostr) : Prop :=
  match l with
  | [] => True
  | x :: l' => cmd_ok env dir vm x /\ cmd_reads io w.1 x /\ history_ok io env dir vm l' (apply_cmd io env x w)
  end.

(** C5: No command on another sandbox deletes a sandbox's home.  The commands
    are boots, that succeed or fail, and removals, in any number and order, each
    of another sandbox ([cmd_ok]: another name, run from a rooted directory, with
    the same homes directory, and a booted name that is one path component).
    The index is read and written ([io_works]), and a removal ranges over the
    index it reads.  Where every home that is recorded as brig's is its own
    sandbox's, which holds of a fresh index, the home stays in place and the
    record stays so.  A boot under a name with a slash, which [BRIG_NAME] admits,
    is outside: [slashed_name_takes_home]. *)
Theorem home_survives (io : host_io) (env : environment) (dir : option gostr) (vm : gostr) (l : list home_cmd) (st : state) (homes : gset gostr)
  (Hio : io_works io) (Hown : own_homes dir (readSessionIndex io st)) (Hvm : vm ∈ homes) (Hl : history_ok io env dir vm l (st, homes)) :
  let w := home_history io env l (st, homes) in own_homes dir (readSessionIndex io w.1) /\ vm ∈ w.2.
Proof.
  assert (forall l w, own_homes dir (readSessionIndex io w.1) -> vm ∈ w.2 -> history_ok io env dir vm l w ->
    own_homes dir (readSessionIndex io (home_history io env l w).1) /\ vm ∈ (home_history io env l w).2) as Go.
  { clear -Hio. intros l. induction l as [|x l IH]; intros w Ho Hi Hk; [done|]. destruct Hk as (H1 & H2 & H3).
    destruct w as [st homes]. destruct (cmd_keeps io env dir vm x st homes Hio H1 H2 Ho Hi) as [Ho' Hi'].
    by apply (IH (apply_cmd io env x (st, homes))). }
  by apply (Go l (st, homes)).
Qed.

(** ** Concrete runs *)

Definition no_vars : environment := MkEnvironment (fun _ => []) (Some (lit "/h")).
Definition plain_inputs : home_inputs := MkHomeInputs [] [] (lit "/src") ([], false) (fun _ => false) (Some false).
Definition open_host : home_host := MkHomeHost RootOpen None.
Definition demo_homes : option gostr := Some (lit "/h/.brig/homes").

Lemma choose_home_exact_witness :
  exists c, choose_home no_vars (lit "codex") [] (lit "brig-codex") plain_inputs = Some c /\
    exists d, homeName (homesDir no_vars (lit "/src")) (hc_workspace c) = Some (d, lit "brig-codex").
Proof.
  eexists. split; [reflexivity|].
  refine (proj2 (proj2 (proj2 (choose_home_exact no_vars (lit "codex") [] (lit "brig-codex") plain_inputs _ eq_refl eq_refl))) eq_refl eq_refl _).
  repeat split; try discriminate. by apply mem_false.
Defined.

Definition codex_boot (booted : bool) : boot :=
  MkBoot (lit "codex") [] [] (lit "brig-codex") [] plain_inputs open_host true true [] booted.
Definition demo_cmds : list home_cmd :=
  [Boot (codex_boot false); Boot (codex_boot true);
   Rm (lit "/src") open_host [(lit "codex", MkSessionEntry (lit "/h/.brig/homes/brig-codex") (lit "brig-codex") [] true)] (lit "brig-codex")].

Lemma home_survives_witness :
  lit "brig-claude-code" ∈ (home_history all_io no_vars demo_cmds (empty_state, {[lit "brig-claude-code"]})).2.
Proof.
  refine (proj2 (home_survives all_io no_vars demo_homes (lit "brig-claude-code") demo_cmds empty_state {[lit "brig-claude-code"]} all_io_works _ _ _)).
  - intros ref e He. change ((∅ : gmap gostr sessionEntry) !! ref = Some e) in He. rewrite lookup_empty in He. discriminate.
  - set_solver.
  - assert (normal (lit "brig-codex")) as Hn by (repeat split; try discriminate; by apply mem_false).
    assert (forall b, cmd_ok no_vars demo_homes (lit "brig-claude-code") (Boot (codex_boot b))) as Hb.
    { intros b. split; [discriminate|]. split; [reflexivity|]. split; [reflexivity|exact Hn]. }
    split; [apply Hb|]. split; [exact I|]. split; [apply Hb|]. split; [exact I|]. split; [split; [discriminate|reflexivity]|]. split; [|exact I].
    apply Permutation_refl'. vm_compute. reflexivity.
Defined.

(** A sandbox name that is more than one component: the prefix is there, and
    its default home is the home of another sandbox, which is reaped when the
    runtime holds no sandbox of the longer name. *)
Example slashed_name_takes_home :
  let vm := lit "brig-/../brig-claude-code" in
  sandbox_name (NewEnv (lit "codex") (fun n => if bool_decide (n = lit "BRIG_NAME") then Some vm else None)) (lit "codex") [] = Ok (vm, vm) /\
  exists c, choose_home no_vars (lit "codex") [] vm plain_inputs = Some c /\ hc_workspace c = lit "/h/.brig/homes/brig-claude-code" /\
    (reapOrphanHome open_host demo_homes true (Some false) c {[lit "brig-claude-code"]}).2 = ∅.
Proof. split; [vm_compute; reflexivity|]. eexists. split; [reflexivity|]. split; vm_compute; reflexivity. Qed.

(** A claim is not asked of a run without a name, and a profile can be called
    what another profile's session makes: the two have one sandbox name and one
    home, and the claim lets the second through. *)
Example unnamed_run_shares_sandbox :
  let named := MkRun (lit "claude-code") (lit "refactor") (lit "refactor") (lit "brig-claude-code-refactor") [] [] true in
  let unnamed := MkRun (lit "claude-code-refactor") [] [] (lit "brig-claude-code-refactor") [] [] true in
  let e := NewEnv (lit "x") (fun _ => None) in
  sandbox_name e (lit "claude-code") (lit "refactor") = Ok (lit "brig-claude-code", r_vm named) /\
  sandbox_name e (lit "claude-code-refactor") [] = Ok (r_vm unnamed, r_vm unnamed) /\
  (claimSlug all_io unnamed (claimSlug all_io named empty_state).2).1 = Claimed false.
Proof. split_and!; vm_compute; reflexivity. Qed.
