(* ===== verification/EnsureRun.v ===== *)
(** * Bringing a sandbox up (internal/wrap/run.go, routes.go)

    [EnsureRunning], [serveRoutes], [Stop] and [Remove] as programs over what
    they ask of the outside: the runtime, the broker, the host's files.  A
    program writes a trace, the newest event first, each event with its answer;
    the outside is a function of the trace so far, so it can answer anything,
    and differently each time.  What is only printed, and the focus of a
    window, are left out. *)

From stdpp Require Import prelude list strings gmap.
From Stdlib Require Import ZArith Lia ZifyNat Ascii.
From S2P Require Import Prelude GoUnicode GoStrings GoNum RouteTypes HostSide ProfileReg Session SessionIndex Posture RunHome.

Local Open Scope Z_scope.

(** ** What is asked *)

Inductive event :=
  | ClaimName | AskBackend | AskRouteStore
  | ReapHome | AskHomeMissing | PrepareWorkspace | PrepareVolumes
  | AskRunning | AskReady | AskMounts | AskNetworkStale | AskProjectStale
  | StopSandbox | RemoveSandbox | ForgetRoutes
  | VerifyImage | VerifyAssets | ResolveAssets | CheckDigests
  | AskAddress | RegisterMode (m : gostr) | RegisterRoutes | CheckSocket | CheckCA | MintToken (route : gostr) | MakeGuestEnv
  | OpenWorkspace | RecheckWorkspace | OpenProject | RecheckProject | RecheckVolumes
  | RunSandbox | RecordPublications | RecordPosture | RememberSession | PublishLive | DeliverFiles | DropHome
  | DropEphemeral | ForgetSession | ForgetClaims | ForgetPublished | ForgetNetwork.

(** A question is answered yes or no; a step that fails says why. *)
Inductive answer := Yes | No | Fails (e : gostr).

Notation trace := (list (event * answer)).

(** What the run was resolved to. *)
Record run_config := MkRunConfig {
  rc_routes : list Route; rc_brigInternal : bool; rc_modes : list gostr; rc_routeRefusal : option route_refusal;
  rc_projectRefused : option gostr; rc_net : net_result; rc_hypervisor : gostr; rc_macos : gostr;
  rc_project : gostr; rc_home : home_choice }.

Inductive run_error :=
  | RouteRefused (e : route_refusal)
  | ProjectRefused (e : gostr)
  | NetworkUnknown (why : option inspect_error)
  | HypervisorTooOld (version : gostr)
  | SandboxAppeared
  | GatewayChanged
  | RunningUnknown (e : gostr)
  | VerifyRefused (e : gostr)
  | CouldNotStart (e : gostr)
  | NotReady
  | StillRunning (e : gostr)
  | StopUnknown (e ask : gostr)
  | Passed (at_ : event) (e : gostr).

(** ** Refusals before anything is asked *)

(** [majorVersion]: the number before the first dot. *)
Definition majorVersion (v : gostr) : option Z := parse_int 64 (trim_space (cut v (lit ".")).1.1).

Definition preflightHypervisor (hv version : gostr) : bool :=
  if negb (bool_decide (hv = lit "hvi")) then false
  else if bool_decide (version = []) then false
  else match majorVersion version with Some major => major <? 15 | None => false end.

Definition sessionRefusal (c : run_config) : option run_error :=
  match rc_routeRefusal c with
  | Some e => Some (RouteRefused e)
  | None =>
    match rc_projectRefused c with
    | Some e => Some (ProjectRefused e)
    | None => if networkRefusal (rc_net c) then Some (NetworkUnknown (nr_inspectErr (rc_net c))) else None
    end
  end.

(** [projectShareStale]: the project that the index records, and the run's. *)
Inductive project_stale := MountsAndNone (was : gostr) | NoneAndNames (now : gostr) | MountsAndNames (was now : gostr).
Definition projectShareStale (was project : gostr) : option project_stale :=
  if bool_decide (was = project) then None
  else if bool_decide (project = []) then Some (MountsAndNone was)
  else if bool_decide (was = []) then Some (NoneAndNames project)
  else Some (MountsAndNames was project).

(** [shares]: the home, then the project, then the volumes. *)
Definition shares (home guestHome project guestProject : gostr) (volumes : list (gostr * gostr)) : list (gostr * gostr) :=
  let shares := [(home, guestHome)] in
  let shares := if bool_decide (project = []) then shares else shares ++ [(project, guestProject)] in
  shares ++ volumes.

(** ** Programs *)

Section Outside.
Variable host : trace -> event -> answer.

Definition prog (A : Type) : Type := trace -> res run_error A * trace.
Definition ret {A} (a : A) : prog A := fun tr => (Ok a, tr).
Definition refuse {A} (e : run_error) : prog A := fun tr => (Err e, tr).
Definition bind {A B} (m : prog A) (k : A -> prog B) : prog B :=
  fun tr => match m tr with (Ok a, tr') => k a tr' | (Err e, tr') => (Err e, tr') end.
Notation "'do!' x <- m 'in' k" := (bind m (fun x => k)) (at level 200, x name, right associativity).
Notation "m ;; k" := (bind m (fun _ => k)) (at level 100, right associativity).

(** A step whose error is the run's, a question, and a step whose error is
    only printed. *)
Definition ask (ev : event) : prog answer := fun tr => let a := host tr ev in (Ok a, (ev, a) :: tr).
Definition step (ev : event) (err : gostr -> run_error) : prog unit :=
  do! a <- ask ev in match a with Fails e => refuse (err e) | _ => ret tt end.
Definition pass (ev : event) : prog unit := step ev (Passed ev).
Definition question (ev : event) : prog bool := do! a <- ask ev in ret (match a with Yes => true | _ => false end).
Definition note (ev : event) : prog unit := ask ev ;; ret tt.

(** A deferred call that runs when the program fails. *)
Definition on_error (m : prog unit) (cleanup : prog unit) : prog unit :=
  fun tr => match m tr with
            | (Ok a, tr') => (Ok a, tr')
            | (Err e, tr') => (Err e, (cleanup tr').2)
            end.

Definition when (b : bool) (m : prog unit) : prog unit := if b then m else ret tt.

Fixpoint each {A} (f : A -> prog unit) (l : list A) : prog unit :=
  match l with [] => ret tt | x :: l' => f x ;; each f l' end.

(** *** routes.go *)

(** [serveRoutes]. *)
Definition serveRoutes (c : run_config) : prog unit :=
  if (length (rc_routes c) =? 0)%nat then ret tt
  else
    when (rc_brigInternal c) (pass AskAddress) ;;
    each (fun m => pass (RegisterMode m)) (rc_modes c) ;;
    pass RegisterRoutes ;;
    when (rc_brigInternal c || negb (length (rc_modes c) =? 0)%nat) (pass CheckSocket) ;;
    when (rc_brigInternal c) (pass CheckCA) ;;
    each (fun r => pass (MintToken (rt_name r))) (rc_routes c) ;;
    pass MakeGuestEnv.

(** [forgetRoutes]: a failure is said, and the run goes on. *)
Definition forgetRoutes : prog unit := note ForgetRoutes.

(** *** run.go *)

(** The branch of [EnsureRunning] for a sandbox that is up and is what the run
    asks for. *)
Definition reuse (c : run_config) : prog unit :=
  when (length (rc_routes c) =? 0)%nat forgetRoutes ;;
  serveRoutes c ;;
  note RememberSession ;;
  when (bool_decide (nr_recovery (rc_net c) = Recovered)) (note RecordPosture) ;;
  pass PublishLive ;;
  pass DeliverFiles.

(** From the checks of the image to the start of the sandbox. *)
Definition start (c : run_config) : prog unit :=
  step VerifyImage VerifyRefused ;;
  step VerifyAssets VerifyRefused ;;
  step ResolveAssets CouldNotStart ;;
  step CheckDigests VerifyRefused ;;
  serveRoutes c ;;
  pass OpenWorkspace ;;
  pass RecheckWorkspace ;;
  when (negb (bool_decide (rc_project c = []))) (pass OpenProject ;; pass RecheckProject) ;;
  pass RecheckVolumes ;;
  step RunSandbox CouldNotStart.

(** A run that stops before the boot leaves the broker without the sandbox. *)
Definition boot_new (c : run_config) : prog unit :=
  note RemoveSandbox ;;
  forgetRoutes ;;
  on_error (start c) (when (negb (length (rc_routes c) =? 0)%nat) forgetRoutes) ;;
  pass RecordPublications ;;
  note RecordPosture ;;
  note RememberSession ;;
  (do! ready <- question AskReady in if ready then ret tt else refuse NotReady) ;;
  pass DeliverFiles.

(** Whether the sandbox that is up can be used as it is; one that cannot is
    stopped and removed. *)
Definition usable (c : run_config) : prog bool :=
  do! stale <- question AskProjectStale in
  do! netStale <- (if postureChanged (rc_net c) then ret true else question AskNetworkStale) in
  if netStale then
    if bool_decide (nr_recovery (rc_net c) = Recovered) && negb (nr_explicit (rc_net c)) then refuse GatewayChanged else ret false
  else
    do! ready <- question AskReady in
    if negb ready then ret false
    else
      do! mounts <- question AskMounts in
      if negb mounts then ret false else ret (negb stale).

Definition bring_up (c : run_config) : prog unit :=
  pass PrepareWorkspace ;;
  pass PrepareVolumes ;;
  do! a <- ask AskRunning in
  match a with
  | Fails e => refuse (RunningUnknown e)
  | No => boot_new c
  | Yes =>
    if bool_decide (nr_recovery (rc_net c) = RecoveryAbsent) then refuse SandboxAppeared
    else
      do! ok <- usable c in
      if ok then reuse c else note StopSandbox ;; note RemoveSandbox ;; boot_new c
  end.

Definition EnsureRunning (c : run_config) : prog unit :=
  match sessionRefusal c with
  | Some e => refuse e
  | None =>
    pass ClaimName ;;
    (if preflightHypervisor (rc_hypervisor c) (rc_macos c) then refuse (HypervisorTooOld (rc_macos c)) else ret tt) ;;
    pass AskBackend ;;
    pass AskRouteStore ;;
    note ReapHome ;;
    do! creates <- (if createsEphemeralHome true (rc_home c) then question AskHomeMissing else ret false) in
    if creates then on_error (bring_up c) (note DropHome) else bring_up c
  end.

(** [Stop]: only an answer clears a stop that failed. *)
Definition Stop_run : prog unit :=
  forgetRoutes ;;
  do! a <- ask StopSandbox in
  match a with
  | Fails e =>
    do! r <- ask AskRunning in
    match r with
    | Yes => refuse (StillRunning e)
    | No => ret tt
    | Fails x => refuse (StopUnknown e x)
    end
  | _ => ret tt
  end.

(** [Remove]: the home goes when the runtime has removed the sandbox, the
    records either way. *)
Definition Remove_run : prog unit :=
  forgetRoutes ;;
  note StopSandbox ;;
  do! a <- ask RemoveSandbox in
  (match a with Fails _ => ret tt | _ => note DropEphemeral end) ;;
  note ForgetSession ;; note ForgetClaims ;; note ForgetPublished ;; note ForgetNetwork ;;
  match a with Fails e => refuse (Passed RemoveSandbox e) | _ => ret tt end.
End Outside.

(** ** What has been seen *)

(** What a trace says, in one pass over it.  [sn_forgot] is that the broker was
    asked to forget the sandbox, whatever it answered: [forgetRoutes] only says
    a failure.  The routes and tokens of this run go only when the broker did
    it.  [sn_owed] is that it was asked for a route or a token since. *)
Record seen := MkSeen {
  sn_claimed : bool; sn_backend : bool; sn_store : bool; sn_running : option bool; sn_ready : bool; sn_mounts : bool;
  sn_stopped : bool; sn_removed : bool; sn_forgot : bool; sn_image : bool; sn_assets : bool; sn_resolved : bool; sn_digests : bool;
  sn_registered : bool; sn_minted : list gostr; sn_env : bool; sn_workspace : bool; sn_project : bool; sn_volumes : bool;
  sn_attempts : nat; sn_booted : bool; sn_delivered : bool; sn_owed : bool }.

Definition nothing_seen : seen :=
  MkSeen false false false None false false false false false false false false false false [] false false false false 0 false false false.

Definition done_ok (a : answer) : bool := match a with Fails _ => false | _ => true end.
Definition is_yes (a : answer) : bool := match a with Yes => true | _ => false end.

Definition observe (s : seen) (x : event * answer) : seen :=
  let '(MkSeen cl ba st ru re mo sp rm fo im as_ rs di rg mi en ws pr vo at_ bo de ow) := s in
  let ok := done_ok x.2 in
  match x.1 with
  | ClaimName => MkSeen ok ba st ru re mo sp rm fo im as_ rs di rg mi en ws pr vo at_ bo de ow
  | AskBackend => MkSeen cl ok st ru re mo sp rm fo im as_ rs di rg mi en ws pr vo at_ bo de ow
  | AskRouteStore => MkSeen cl ba ok ru re mo sp rm fo im as_ rs di rg mi en ws pr vo at_ bo de ow
  | AskRunning => MkSeen cl ba st (match x.2 with Yes => Some true | No => Some false | Fails _ => None end) re mo sp rm fo im as_ rs di rg mi en ws pr vo at_ bo de ow
  | AskReady => MkSeen cl ba st ru (is_yes x.2) mo sp rm fo im as_ rs di rg mi en ws pr vo at_ bo de ow
  | AskMounts => MkSeen cl ba st ru re (is_yes x.2) sp rm fo im as_ rs di rg mi en ws pr vo at_ bo de ow
  | StopSandbox => MkSeen cl ba st ru re mo true rm fo im as_ rs di rg mi en ws pr vo at_ bo de ow
  | RemoveSandbox => MkSeen cl ba st ru re mo sp true fo im as_ rs di rg mi en ws pr vo at_ bo de ow
  | ForgetRoutes => MkSeen cl ba st ru re mo sp rm true im as_ rs di (rg && negb ok) (if ok then [] else mi) (en && negb ok) ws pr vo at_ bo de false
  | RegisterMode _ => MkSeen cl ba st ru re mo sp rm fo im as_ rs di rg mi en ws pr vo at_ bo de true
  | VerifyImage => MkSeen cl ba st ru re mo sp rm fo ok as_ rs di rg mi en ws pr vo at_ bo de ow
  | VerifyAssets => MkSeen cl ba st ru re mo sp rm fo im ok rs di rg mi en ws pr vo at_ bo de ow
  | ResolveAssets => MkSeen cl ba st ru re mo sp rm fo im as_ ok di rg mi en ws pr vo at_ bo de ow
  | CheckDigests => MkSeen cl ba st ru re mo sp rm fo im as_ rs ok rg mi en ws pr vo at_ bo de ow
  | RegisterRoutes => MkSeen cl ba st ru re mo sp rm fo im as_ rs di ok [] false ws pr vo at_ bo de true
  | MintToken r => MkSeen cl ba st ru re mo sp rm fo im as_ rs di rg (if ok then mi ++ [r] else mi) en ws pr vo at_ bo de true
  | MakeGuestEnv => MkSeen cl ba st ru re mo sp rm fo im as_ rs di rg mi ok ws pr vo at_ bo de ow
  | RecheckWorkspace => MkSeen cl ba st ru re mo sp rm fo im as_ rs di rg mi en ok pr vo at_ bo de ow
  | RecheckProject => MkSeen cl ba st ru re mo sp rm fo im as_ rs di rg mi en ws ok vo at_ bo de ow
  | RecheckVolumes => MkSeen cl ba st ru re mo sp rm fo im as_ rs di rg mi en ws pr ok at_ bo de ow
  | RunSandbox => MkSeen cl ba st ru false mo sp rm fo im as_ rs di rg mi en ws pr vo (S at_) ok de ow
  | DeliverFiles => MkSeen cl ba st ru re mo sp rm fo im as_ rs di rg mi en ws pr vo at_ bo ok ow
  | _ => s
  end.

Fixpoint see (tr : trace) : seen := match tr with [] => nothing_seen | x :: tr' => observe (see tr') x end.

(** ** What may be asked when *)

(** The name is this session's, the backend can do what the run asks, and the
    store has what its routes need. *)
Definition gate (s : seen) : bool := sn_claimed s && sn_backend s && sn_store s.
(** No sandbox of the name is up, or it has been stopped. *)
Definition down (s : seen) : bool := match sn_running s with Some false => true | Some true => sn_stopped s | None => false end.
Definition verified (s : seen) : bool := sn_image s && sn_assets s && sn_resolved s && sn_digests s.
(** The sandbox that is up answers and has this workspace. *)
Definition confirmed (s : seen) : bool := bool_decide (sn_running s = Some true) && sn_ready s && sn_mounts s && negb (sn_stopped s) && negb (sn_removed s).
(** The routes are registered and each has a token of its own. *)
Definition served (c : run_config) (s : seen) : bool :=
  (length (rc_routes c) =? 0)%nat || (sn_registered s && bool_decide (sn_minted s = rt_name <$> rc_routes c) && sn_env s).
(** A boot is under way: nothing holds the name and the broker was asked to
    forget it. *)
Definition cleared (s : seen) : bool := down s && sn_removed s && sn_forgot s.
Definition rechecked (c : run_config) (s : seen) : bool :=
  sn_workspace s && sn_volumes s && (bool_decide (rc_project c = []) || sn_project s).

Definition allowed (c : run_config) (s : seen) (ev : event) : bool :=
  match ev with
  | ClaimName => true
  | AskBackend => sn_claimed s
  | AskRouteStore => sn_claimed s && sn_backend s
  | ReapHome | AskHomeMissing | PrepareWorkspace | PrepareVolumes | AskRunning | DropHome => gate s
  | AskProjectStale | AskNetworkStale | AskMounts | StopSandbox => gate s && bool_decide (sn_running s = Some true)
  | AskReady => gate s && (bool_decide (sn_running s = Some true) || sn_booted s)
  | RemoveSandbox => gate s && down s
  | ForgetRoutes => gate s && (confirmed s || (down s && sn_removed s && negb (sn_booted s)))
  | VerifyImage => gate s && cleared s
  | VerifyAssets => gate s && cleared s && sn_image s
  | ResolveAssets => gate s && cleared s && sn_image s && sn_assets s
  | CheckDigests => gate s && cleared s && sn_image s && sn_assets s && sn_resolved s
  | AskAddress | RegisterMode _ | RegisterRoutes => gate s && (confirmed s || (cleared s && verified s))
  | CheckSocket | CheckCA | MintToken _ | MakeGuestEnv => gate s && sn_registered s
  | OpenWorkspace | RecheckWorkspace | OpenProject | RecheckProject | RecheckVolumes => gate s && cleared s && verified s && served c s
  | RunSandbox => gate s && cleared s && verified s && served c s && rechecked c s && (sn_attempts s =? 0)%nat
  | RecordPublications => sn_booted s
  | RecordPosture | RememberSession => sn_booted s || confirmed s
  | PublishLive => confirmed s && served c s
  | DeliverFiles => (sn_booted s && sn_ready s) || (confirmed s && served c s)
  | DropEphemeral | ForgetSession | ForgetClaims | ForgetPublished | ForgetNetwork => false
  end.

(** Every event of a trace was allowed by what came before it. *)
Fixpoint legal (c : run_config) (tr : trace) : Prop :=
  match tr with [] => True | (ev, _) :: tr' => legal c tr' /\ allowed c (see tr') ev = true end.

Lemma legal_at c tr : legal c tr -> forall after ev a before, tr = after ++ (ev, a) :: before -> allowed c (see before) ev = true.
Proof.
  induction tr as [|[e x] tr IH]; intros H after ev a before E; [by destruct after|]. destruct H as [H1 H2].
  destruct after as [|y after]; [by injection E as <- <- <-|]. injection E as _ E. by eapply IH.
Qed.

(** ** Reasoning about programs *)

Section Wp.
Variable host : trace -> event -> answer.
Variable c : run_config.

(** From a legal trace that says [s], the program writes a legal one, and its
    result and what that one says are in [Q]. *)
Definition wp {A} (m : trace -> res run_error A * trace) (Q : res run_error A -> seen -> Prop) (s : seen) : Prop :=
  forall tr, legal c tr -> see tr = s -> legal c (m tr).2 /\ Q (m tr).1 (see (m tr).2).

Lemma wp_gives {A} (a : A) (Q : res run_error A -> seen -> Prop) s : Q (Ok a) s -> wp (ret a) Q s.
Proof. by intros H tr L <-. Qed.

Lemma wp_refuse {A} (e : run_error) (Q : res run_error A -> seen -> Prop) s : Q (Err e) s -> wp (refuse e) Q s.
Proof. by intros H tr L <-. Qed.

Lemma wp_weaken {A} (m : trace -> res run_error A * trace) (P Q : res run_error A -> seen -> Prop) s :
  wp m P s -> (forall r s', P r s' -> Q r s') -> wp m Q s.
Proof. intros H I tr L E. destruct (H tr L E) as [? ?]. split; auto. Qed.

Lemma wp_then {A B} (m : trace -> res run_error A * trace) (k : A -> trace -> res run_error B * trace) Q s :
  wp m (fun r s' => match r with Ok a => wp (k a) Q s' | Err e => Q (Err e) s' end) s -> wp (bind m k) Q s.
Proof.
  intros H tr L E. destruct (H tr L E) as [L' H']. unfold bind. destruct (m tr) as [[a|e] tr']; [|by split].
  by apply H'.
Qed.

Lemma wp_ask ev (Q : res run_error answer -> seen -> Prop) s :
  allowed c s ev = true -> (forall a, Q (Ok a) (observe s (ev, a))) -> wp (ask host ev) Q s.
Proof. intros Al H tr L <-. split; [by split|apply H]. Qed.

Lemma wp_step ev err (Q : res run_error unit -> seen -> Prop) s :
  allowed c s ev = true ->
  (forall a, done_ok a = true -> Q (Ok tt) (observe s (ev, a))) -> (forall e, Q (Err (err e)) (observe s (ev, Fails e))) ->
  wp (step host ev err) Q s.
Proof.
  intros Al H1 H2. apply wp_then, wp_ask; [done|]. intros [| |e]; [by apply wp_gives, H1..|by apply wp_refuse].
Qed.

Lemma wp_pass ev (Q : res run_error unit -> seen -> Prop) s :
  allowed c s ev = true ->
  (forall a, done_ok a = true -> Q (Ok tt) (observe s (ev, a))) -> (forall e, Q (Err (Passed ev e)) (observe s (ev, Fails e))) ->
  wp (pass host ev) Q s.
Proof. apply wp_step. Qed.

Lemma wp_question ev (Q : res run_error bool -> seen -> Prop) s :
  allowed c s ev = true -> (forall a, Q (Ok (is_yes a)) (observe s (ev, a))) -> wp (question host ev) Q s.
Proof. intros Al H. apply wp_then, wp_ask; [done|]. intros a. apply wp_gives. exact (H a). Qed.

Lemma wp_note ev (Q : res run_error unit -> seen -> Prop) s :
  allowed c s ev = true -> (forall a, Q (Ok tt) (observe s (ev, a))) -> wp (note host ev) Q s.
Proof. intros Al H. apply wp_then, wp_ask; [done|]. intros a. apply wp_gives, H. Qed.

Lemma wp_when (b : bool) m (Q : res run_error unit -> seen -> Prop) s :
  (b = true -> wp m Q s) -> (b = false -> Q (Ok tt) s) -> wp (when b m) Q s.
Proof. destruct b; intros H1 H2; [by apply H1|by apply wp_gives, H2]. Qed.

Lemma wp_on_error m cleanup (Q : res run_error unit -> seen -> Prop) s :
  wp m (fun r s' => match r with Ok _ => Q r s' | Err e => wp cleanup (fun _ s'' => Q (Err e) s'') s' end) s -> wp (on_error m cleanup) Q s.
Proof.
  intros H tr L E. destruct (H tr L E) as [L' H']. unfold on_error. destruct (m tr) as [[a|e] tr']; [by split|].
  by apply H'.
Qed.

(** A loop keeps what each of its steps keeps. *)
Lemma wp_each_keeps {A} (f : A -> trace -> res run_error unit * trace) (I : seen -> Prop) l :
  (forall x s, I s -> wp (f x) (fun _ s' => I s') s) -> forall s, I s -> wp (each f l) (fun _ s' => I s') s.
Proof.
  intros H. induction l as [|x l IH]; intros s Is; [by apply wp_gives|]. cbn [each]. apply wp_then. eapply wp_weaken; [by apply H|].
  intros [[]|e] s' Is'; [by apply IH|done].
Qed.

(** What [serveRoutes] changes. *)
Definition with_routes (s : seen) (rg : bool) (mi : list gostr) (en ow : bool) : seen :=
  let '(MkSeen cl ba st ru re mo sp rm fo im as_ rs di _ _ _ ws pr vo at_ bo de _) := s in
  MkSeen cl ba st ru re mo sp rm fo im as_ rs di rg mi en ws pr vo at_ bo de ow.

Lemma wp_mint l : forall s done, sn_registered s = true -> gate s = true -> sn_minted s = done ->
  wp (each (fun r => pass host (MintToken (rt_name r))) l)
    (fun r s' => exists mi, s' = with_routes s true mi (sn_env s) (sn_owed s') /\ (r = Ok tt -> mi = done ++ (rt_name <$> l))) s.
Proof.
  induction l as [|x l IH]; intros s done Rg Ga Mi.
  - apply wp_gives. exists done. destruct s; cbn in *. subst. by rewrite app_nil_r.
  - cbn [each]. apply wp_then, wp_pass; [by unfold allowed; rewrite Ga, Rg| |].
    + intros a Ok_a. eapply wp_weaken; [apply (IH _ (done ++ [rt_name x]))|]; [by destruct s|by destruct s|by destruct s; cbn in *; rewrite Ok_a, Mi|].
      intros r s' (mi & -> & E). exists mi. split; [by destruct s|]. intros R. by rewrite (E R), <- app_assoc.
    + intros e. exists (sn_minted s). split; [|done]. destruct s; cbn in *. by subst.
Qed.
(** Before the routes are registered a run may only come to owe the broker. *)
Definition same_routes (s s' : seen) : Prop :=
  exists ow, s' = with_routes s (sn_registered s) (sn_minted s) (sn_env s) ow.

Lemma same_routes_refl s : same_routes s s.
Proof. exists (sn_owed s). by destruct s. Qed.

Lemma same_routes_allowed s s' ev :
  same_routes s s' -> (match ev with AskAddress | RegisterMode _ | RegisterRoutes => true | _ => false end) = true ->
  gate s = true -> confirmed s || (cleared s && verified s) = true -> allowed c s' ev = true.
Proof. intros [ow ->] E Ga Go. by destruct ev, s; unfold allowed, gate, confirmed, cleared, down, verified in *; cbn in *; rewrite ?Ga, ?Go. Qed.

Lemma wp_register s :
  gate s = true -> confirmed s || (cleared s && verified s) = true ->
  wp (bind (bind (when (rc_brigInternal c) (pass host AskAddress)) (fun _ => each (fun m => pass host (RegisterMode m)) (rc_modes c)))
        (fun _ => pass host RegisterRoutes))
    (fun r s' => (exists rg mi en ow, s' = with_routes s rg mi en ow) /\ (r = Ok tt -> s' = with_routes s true [] false true)) s.
Proof.
  intros Ga Go. assert (forall s', same_routes s s' -> exists rg mi en ow, s' = with_routes s rg mi en ow) as Some_ by (intros s' [ow ->]; eauto 10).
  eapply wp_then, wp_weaken; [apply wp_then; eapply wp_weaken|].
  - apply (wp_when _ _ (fun _ s' => same_routes s s')); intros _; [|apply same_routes_refl].
    apply wp_pass; [by apply (same_routes_allowed s); [apply same_routes_refl|..]|by intros; destruct s; eexists; reflexivity..].
  - intros r s' Sa. instantiate (1 := fun _ s' => same_routes s s'). destruct r as [[]|e]; [|exact Sa].
    apply (wp_each_keeps _ (same_routes s)); [|exact Sa]. intros m s2 Sa2.
    apply wp_pass; [by apply (same_routes_allowed s)|by destruct Sa2 as [ow ->]; intros; destruct s; eexists; reflexivity..].
  - intros [[]|e] s2 Sa2; [|by split; [apply Some_|]].
    apply wp_pass; [by apply (same_routes_allowed s)| |]; destruct Sa2 as [ow ->].
    + intros a Ok_a. destruct s; cbn in *. rewrite Ok_a. split; [eauto 10|done].
    + intros e. split; [|done]. exists false, [], false, true. by destruct s.
Qed.

Lemma wp_bind_assoc {A B C} (m : trace -> res run_error A * trace) (k : A -> trace -> res run_error B * trace)
    (k' : B -> trace -> res run_error C * trace) (Q : res run_error C -> seen -> Prop) s :
  wp (bind (bind m k) k') Q s -> wp (bind m (fun a => bind (k a) k')) Q s.
Proof. intros H tr L E. specialize (H tr L E). unfold bind in *. by destruct (m tr) as [[a|e] tr']. Qed.

Lemma wp_serveRoutes s :
  gate s = true -> confirmed s || (cleared s && verified s) = true ->
  wp (serveRoutes host c)
    (fun r s' => (exists rg mi en ow, s' = with_routes s rg mi en ow) /\ (r = Ok tt -> served c s' = true) /\ (rc_routes c = [] -> s' = s)) s.
Proof.
  intros Ga Go. unfold serveRoutes. case Nat.eqb_spec; intros N.
  - apply length_zero_iff_nil in N. apply wp_gives. split_and!; [|by unfold served; rewrite N|done].
    exists (sn_registered s), (sn_minted s), (sn_env s), (sn_owed s). by destruct s.
  - assert (rc_routes c <> []) as N' by (by intros E; rewrite E in N).
    eapply wp_bind_assoc, wp_bind_assoc, wp_then, wp_weaken; [by apply wp_register|].
    intros [[]|e] s1 [Some_ E1]; [|split; [exact Some_|done]]. specialize (E1 eq_refl).
    assert (gate s1 = true /\ sn_registered s1 = true) as [Ga1 Rg1] by (by rewrite E1; destruct s).
    assert (forall ev, (match ev with CheckSocket | CheckCA | MintToken _ | MakeGuestEnv => true | _ => false end) = true -> allowed c s1 ev = true) as A2
      by (by intros [] ?; unfold allowed; rewrite ?Ga1, ?Rg1).
    eapply wp_then, wp_weaken; [apply (wp_when _ _ (fun _ s' => s' = s1)); [|done]; intros _; apply wp_pass; [by apply A2|by destruct s1..]|].
    intros [[]|e] ? ->; [|done].
    eapply wp_then, wp_weaken; [apply (wp_when _ _ (fun _ s' => s' = s1)); [|done]; intros _; apply wp_pass; [by apply A2|by destruct s1..]|].
    intros [[]|e] ? ->; [|done].
    eapply wp_then, wp_weaken; [apply (wp_mint _ _ []); [done..|by rewrite E1; destruct s]|].
    intros [[]|e] s2 (mi & E2 & Mi); rewrite E1 in E2; [specialize (Mi eq_refl); cbn in Mi|].
    2:{ split; [|done]. rewrite E2. exists true, mi, false, (sn_owed s2). by destruct s. }
    rewrite E2. apply wp_pass; [unfold allowed; destruct s; unfold gate in *; cbn in *; by rewrite Ga| |].
    + intros b Ok_b. split; [exists true, mi, true, (sn_owed s2); destruct s; cbn; by rewrite Ok_b|]. split; [|done]. intros _.
      unfold served. destruct s; cbn in *. by rewrite Ok_b, Mi, bool_decide_eq_true_2, orb_true_r.
    + intros e. split; [exists true, mi, false, (sn_owed s2); by destruct s|done].
Qed.
(** The state of a boot: nothing holds the name, the broker was asked to forget
    it and for nothing since, and nothing has been started. *)
Definition fresh (s : seen) : bool :=
  gate s && cleared s && negb (sn_owed s) && (sn_attempts s =? 0)%nat && negb (sn_booted s).

(** What a run that could not start leaves, and what one that did leaves. *)
Definition started (r : res run_error unit) (s : seen) : Prop :=
  match r with
  | Ok _ => gate s && cleared s && sn_booted s && served c s = true
  | Err _ => gate s && cleared s && negb (sn_booted s) = true /\ (rc_routes c = [] -> sn_owed s = false)
  end.

(** A step on a state written out: that it is allowed, and what it leaves. *)
Ltac written := unfold allowed, started, gate, cleared, verified, confirmed, rechecked, served, down in *; cbn in *.
Ltac settle :=
  written; repeat match goal with H : ?x = true |- context [?x] => rewrite H end;
  rewrite ?andb_true_r, ?orb_true_r; try done.
Ltac ok_answer := let a := fresh "a" in let Ok_a := fresh "Ok_a" in intros a Ok_a; cbn; rewrite ?Ok_a; cbn.

Lemma wp_start s : fresh s = true -> wp (start host c) started s.
Proof.
  destruct s as [[] [] [] ru re mo sp [] [] im as_ rs di rg0 mi0 en ws pr vo [|] [] de []]; unfold fresh, gate, cleared, down; cbn;
    rewrite ?andb_false_r; try done; intros D; rewrite !andb_true_r in D.
  unfold start.
  do 4 (apply wp_then, wp_step; [settle|ok_answer|intros e; settle]).
  eapply wp_then, wp_weaken; [apply wp_serveRoutes; settle|].
  intros [[]|e] s' ((rg & mi & en' & ow & ->) & Sv & No); cbn in *; [specialize (Sv eq_refl)|].
  2:{ split; [settle|]. intros E. injection (No E) as -> -> -> ->. settle. }
  assert (rc_routes c = [] -> ow = false) as No' by (intros E; by injection (No E) as -> -> -> ->).
  do 2 (apply wp_then, wp_pass; [settle|ok_answer|intros e; settle]).
  eapply wp_then, wp_weaken.
  - eapply (wp_when _ _ (fun r s' => match r with
      | Ok _ => exists pr', bool_decide (rc_project c = []) || pr' = true /\ s' = MkSeen true true true ru re mo sp true true true true true true rg mi en' true pr' vo 0 false de ow
      | Err _ => started r s' end)).
    + intros _. apply wp_then, wp_pass; [settle|ok_answer|intros e; settle]. apply wp_pass; [settle|ok_answer|intros e; settle]. exists true. by rewrite orb_true_r.
    + intros B. exists pr. apply negb_false_iff in B. by rewrite B.
  - intros [[]|e] s' H; [|exact H]. destruct H as (pr' & Pj & ->).
    apply wp_then, wp_pass; [settle|ok_answer|intros e; settle].
    apply wp_step; [settle|ok_answer; settle|intros e; settle].
Qed.
(** What a run that fails leaves: a sandbox it started; or, when it removed one,
    a broker that was asked to forget it and for nothing since; or, when it
    removed none, whatever there was, with nothing stopped or started. *)
Definition untroubled (s : seen) : bool :=
  sn_booted s || (if sn_removed s then sn_forgot s && negb (sn_owed s) else negb (sn_stopped s) && (sn_attempts s =? 0)%nat).

(** What a run leaves: a sandbox that answers, with its routes served and its
    files delivered; or what a run that fails leaves. *)
Definition outcome (r : res run_error unit) (s : seen) : Prop :=
  gate s = true /\
  match r with
  | Ok _ => served c s && sn_delivered s && (sn_booted s && sn_ready s || confirmed s)
  | Err _ => untroubled s
  end = true.

Lemma wp_boot_new s :
  gate s && down s && (sn_attempts s =? 0)%nat && negb (sn_booted s) = true -> wp (boot_new host c) outcome s.
Proof.
  destruct s as [[] [] [] ru re mo sp rm fo im as_ rs di rg mi en ws pr vo [|] [] de ow]; unfold gate, down; cbn;
    rewrite ?andb_false_r; try done; intros D; rewrite !andb_true_r in D.
  unfold boot_new.
  do 2 (apply wp_then, wp_note; [settle|intros ?; cbn]).
  eapply wp_then, wp_on_error, wp_weaken; [apply wp_start; unfold fresh; settle|].
  intros [[]|e] s'; cbn [started].
  - destruct s' as [[] [] [] ru' re' mo' sp' [] [] im' as_' rs' di' rg' mi' en' ws' pr' vo' at_' [] de' ow']; written; rewrite ?andb_false_r; try done.
    intros Sv. apply andb_true_iff in Sv as [D' Sv].
    apply wp_then, wp_pass; [settle|ok_answer|intros e; unfold outcome; split; settle].
    do 2 (apply wp_then, wp_note; [settle|intros ?; cbn]).
    apply wp_then, wp_then, wp_question; [settle|]. intros ready. cbn. destruct (is_yes ready); [|apply wp_refuse; by unfold outcome].
    apply wp_gives, wp_pass; [settle|ok_answer|intros e; by unfold outcome]. unfold outcome. split; settle.
  - intros [B No]. apply wp_when.
    + intros _. destruct s' as [[] [] [] ru' re' mo' sp' [] [] im' as_' rs' di' rg' mi' en' ws' pr' vo' at_' [] de' ow']; written; rewrite ?andb_false_r in B; try done.
      rewrite !andb_true_r in B.
      apply wp_note; [settle|]. intros ?. unfold outcome. by split.
    + intros E. apply negb_false_iff, Nat.eqb_eq, length_zero_iff_nil in E. unfold outcome.
      destruct s' as [[] [] [] ru' re' mo' sp' [] [] im' as_' rs' di' rg' mi' en' ws' pr' vo' at_' [] de' ow']; written; rewrite ?andb_false_r in B; try done.
      split; [done|]. unfold untroubled. cbn. by rewrite No.
Qed.

Lemma wp_reuse s :
  gate s && confirmed s && (sn_attempts s =? 0)%nat && negb (sn_booted s) = true -> wp (reuse host c) outcome s.
Proof.
  destruct s as [[] [] [] [[]|] [] [] [] [] fo im as_ rs di rg mi en ws pr vo [|] [] de ow]; unfold gate; cbn;
    rewrite ?andb_false_r; try done. intros _. unfold reuse.
  eapply wp_then, wp_weaken.
  - eapply (wp_when _ _ (fun r s' => r = Ok tt /\ exists rg' mi' en' fo' ow', s' = MkSeen true true true (Some true) true true false false fo' im as_ rs di rg' mi' en' ws pr vo 0 false de ow')).
    + intros _. apply wp_note; [settle|]. intros ?. split; [done|]. repeat eexists.
    + intros _. split; [done|]. repeat eexists.
  - intros r s' (-> & rg' & mi' & en' & fo' & ow' & ->).
    eapply wp_then, wp_weaken; [apply wp_serveRoutes; settle|].
    intros [[]|e] s' ((rg2 & mi2 & en2 & ow2 & ->) & Sv & _); cbn in *; [specialize (Sv eq_refl)|unfold outcome; split; settle].
    apply wp_then, wp_note; [settle|intros ?; cbn].
    eapply wp_then, wp_weaken; [eapply (wp_when _ _ (fun r s' => r = Ok tt /\ s' = MkSeen true true true (Some true) true true false false fo' im as_ rs di rg2 mi2 en2 ws pr vo 0 false de ow2))|].
    + intros _. apply wp_note; [settle|]. done.
    + done.
    + intros r s' (-> & ->).
      apply wp_then, wp_pass; [settle|ok_answer|intros e; unfold outcome; split; settle].
      apply wp_pass; [settle|ok_answer|intros e; unfold outcome; split; settle]. unfold outcome. split; settle.
Qed.
(** A run that has passed its gate and asked nothing of the sandbox, and one
    that has asked of a sandbox that is up. *)
Definition gated (ru : option bool) (re mo : bool) : seen :=
  MkSeen true true true ru re mo false false false false false false false false [] false false false false 0 false false false.

Lemma wp_usable :
  wp (usable host c)
    (fun r s' => exists re mo, s' = gated (Some true) re mo /\ (r = Ok true -> re = true /\ mo = true)) (gated (Some true) false false).
Proof.
  unfold usable. apply wp_then, wp_question; [done|]. intros stale. change (observe _ _) with (gated (Some true) false false).
  apply wp_then. apply (wp_weaken _ (fun r s' => (exists b, r = Ok b) /\ s' = gated (Some true) false false)).
  - destruct (postureChanged (rc_net c)); [apply wp_gives; eauto|]. apply wp_question; [done|]. intros ?. eauto.
  - intros r s' ([b ->] & ->). destruct b.
    + case_match; [apply wp_refuse|apply wp_gives]; by exists false, false.
    + apply wp_then, wp_question; [done|]. intros ready. cbn. destruct (is_yes ready); cbn [negb]; [|by apply wp_gives; exists false, false].
      apply wp_then, wp_question; [done|]. intros mounts. cbn. destruct (is_yes mounts); cbn [negb]; [|by apply wp_gives; exists true, false].
      apply wp_gives. by exists true, true.
Qed.

Lemma wp_bring_up : wp (bring_up host c) outcome (gated None false false).
Proof.
  unfold bring_up. do 2 (apply wp_then, wp_pass; [done|intros ? _|intros e; by split]).
  apply wp_then, wp_ask; [done|]. intros [| |e]; cbn [observe fst snd].
  - case_bool_decide; [apply wp_refuse; by split|]. eapply wp_then, wp_weaken; [apply wp_usable|].
    intros [b|e] s' (re & mo & -> & Q); [|by split]. destruct b.
    + destruct (Q eq_refl) as [-> ->]. by apply wp_reuse.
    + do 2 (apply wp_then, wp_note; [done|intros ?]). by apply wp_boot_new.
  - by apply wp_boot_new.
  - apply wp_refuse. by split.
Qed.
End Wp.

(** ** What a run does *)

(** What holds of a run, from the start, whatever the outside answers. *)
Lemma EnsureRunning_wp host c :
  wp c (EnsureRunning host c)
    (fun r s => match r with
      | Ok _ => outcome c r s
      | Err _ => untroubled s = true
      end) nothing_seen.
Proof.
  unfold EnsureRunning. destruct (sessionRefusal c) as [e|]; [by apply wp_refuse|].
  apply wp_then, wp_pass; [done|intros a Ok_a; cbn; rewrite Ok_a|done].
  apply wp_then. apply (wp_weaken _ _ (fun _ s' => s' = MkSeen true false false None false false false false false false false false false false [] false false false false 0 false false false)).
  { destruct (preflightHypervisor _ _); [by apply wp_refuse|by apply wp_gives]. }
  intros [[]|e] s' ->; [|done].
  apply wp_then, wp_pass; [done|intros b Ok_b; cbn; rewrite Ok_b|done].
  apply wp_then, wp_pass; [done|intros d Ok_d; cbn; rewrite Ok_d|done].
  apply wp_then, wp_note; [done|intros _a]. cbn [observe fst snd].
  apply wp_then. apply (wp_weaken _ _ (fun r s' => (exists b, r = Ok b) /\ s' = gated None false false)).
  { destruct (createsEphemeralHome _ _); [|by apply wp_gives; eauto]. apply wp_question; [done|]. eauto. }
  intros r s' ([creates ->] & ->).
  assert (wp c (bring_up host c) (fun r s => match r with Ok _ => outcome c r s | Err _ => gate s = true /\ untroubled s = true end) (gated None false false)) as Up
    by (eapply wp_weaken; [apply wp_bring_up|]; by intros [?|?] ?).
  destruct creates.
  - apply wp_on_error. eapply wp_weaken; [apply Up|]. intros [[]|e] s' H; [done|]. destruct H as [Ga H].
    apply wp_note; [done|]. intros _b. by destruct s'.
  - eapply wp_weaken; [apply Up|]. intros [[]|e] s' H; [done|by destruct H].
Qed.

(** How often a run starts a sandbox. *)
Definition boots (tr : trace) : nat := length (List.filter (fun x => match x.1 with RunSandbox => true | _ => false end) tr).

Lemma see_attempts tr : sn_attempts (see tr) = boots tr.
Proof.
  induction tr as [|[ev a] tr IH]; [done|]. unfold boots in *. cbn [see]. destruct (see tr). cbn in *. by destruct ev; cbn; rewrite IH.
Qed.

Lemma legal_boots c tr : legal c tr -> (boots tr <= 1)%nat.
Proof.
  rewrite <- see_attempts. induction tr as [|[ev a] tr IH]; [cbn; lia|]. intros [L Al]. specialize (IH L). cbn [see].
  destruct ev; try (by destruct (see tr)). cbn in Al. rewrite !andb_true_iff in Al. destruct Al as [_ Z]. apply Nat.eqb_eq in Z.
  destruct (see tr). cbn in *. lia.
Qed.

(** What asks the broker for a route or a token, and what stops, removes or
    starts a sandbox. *)
Definition asks_routes (ev : event) : bool := match ev with RegisterMode _ | RegisterRoutes | MintToken _ => true | _ => false end.
Definition touches (ev : event) : bool := match ev with StopSandbox | RemoveSandbox | RunSandbox => true | _ => false end.

(** The broker was asked to forget the sandbox, and for nothing since. *)
Definition forgotten (tr : trace) : Prop :=
  exists after a before, tr = after ++ (ForgetRoutes, a) :: before /\ Forall (fun x => asks_routes x.1 = false) after.

Lemma see_forgotten tr : sn_forgot (see tr) = true -> sn_owed (see tr) = false -> forgotten tr.
Proof.
  induction tr as [|[ev a] tr IH]; [done|]. cbn [see]. intros Fo Ow.
  assert (ev = ForgetRoutes \/ ev <> ForgetRoutes) as [->|Ef] by (destruct ev; auto; right; discriminate); [by exists [], a, tr|].
  assert (asks_routes ev = false /\ sn_forgot (see tr) = true /\ sn_owed (see tr) = false) as (Ea & Fo' & Ow')
    by (destruct (see tr), ev; cbn in *; done).
  destruct (IH Fo' Ow') as (after & b & before & -> & F). exists ((ev, a) :: after), b, before. split; [done|by constructor].
Qed.

Lemma see_untouched tr :
  sn_removed (see tr) = false -> sn_stopped (see tr) = false -> sn_attempts (see tr) = 0%nat -> Forall (fun x => touches x.1 = false) tr.
Proof.
  induction tr as [|[ev a] tr IH]; [done|]. cbn [see]. intros Rm Sp At. constructor; [by destruct (see tr), ev|].
  apply IH; by destruct (see tr), ev.
Qed.

(** *** When nothing fails *)

Section Willing.
Variable host : trace -> event -> answer.
Variable c : run_config.
Variable P : event -> Prop.
Hypothesis never_fails : forall tr ev, done_ok (host tr ev) = true.

(** A program that gives [a] and only asks what [P] holds of. *)
Definition goes {A} (m : trace -> res run_error A * trace) (a : A) : Prop :=
  forall tr, Forall (fun x => P x.1) tr -> (m tr).1 = Ok a /\ Forall (fun x => P x.1) (m tr).2.

Lemma goes_ret {A} (a : A) : goes (ret a) a.
Proof. by intros tr H. Qed.

Lemma goes_bind {A B} (m : trace -> res run_error A * trace) (k : A -> trace -> res run_error B * trace) a b :
  goes m a -> goes (k a) b -> goes (bind m k) b.
Proof. intros Hm Hk tr H. destruct (Hm tr H) as [E H']. unfold bind. destruct (m tr) as [r tr']. cbn in E. subst. by apply Hk. Qed.

Lemma goes_step ev err : P ev -> goes (step host ev err) tt.
Proof.
  intros Pe tr H. unfold step, bind, ask. pose proof (never_fails tr ev) as N. destruct (host tr ev); [..|done]; cbn; auto.
Qed.

Lemma goes_pass ev : P ev -> goes (pass host ev) tt.
Proof. apply goes_step. Qed.

Lemma goes_note ev : P ev -> goes (note host ev) tt.
Proof. intros Pe tr H. cbn. auto. Qed.

Lemma goes_question ev b : P ev -> (forall tr, is_yes (host tr ev) = b) -> goes (question host ev) b.
Proof. intros Pe E tr H. cbn. split; [by rewrite <- (E tr); destruct (host tr ev)|auto]. Qed.

Lemma goes_either {A} ev (k : bool -> trace -> res run_error A * trace) a : P ev -> (forall b, goes (k b) a) -> goes (bind (question host ev) k) a.
Proof. intros Pe G tr H. unfold bind, question, ask, ret. cbn. apply G. auto. Qed.

Lemma goes_when b m : goes m tt -> goes (when b m) tt.
Proof. destruct b; [done|]. intros _. apply goes_ret. Qed.

Lemma goes_on_error m cleanup : goes m tt -> goes (on_error m cleanup) tt.
Proof. intros Hm tr H. destruct (Hm tr H) as [E H']. unfold on_error. destruct (m tr) as [r tr']. cbn in E. by subst. Qed.

Lemma goes_each {A} (f : A -> trace -> res run_error unit * trace) l : (forall x, goes (f x) tt) -> goes (each f l) tt.
Proof. intros H. induction l; [apply goes_ret|]. eapply goes_bind; [apply H|done]. Qed.

Hypothesis P_routes : forall ev, match ev with ForgetRoutes | AskAddress | RegisterMode _ | RegisterRoutes | CheckSocket | CheckCA | MintToken _ | MakeGuestEnv => P ev | _ => True end.

Lemma goes_serveRoutes : goes (serveRoutes host c) tt.
Proof.
  unfold serveRoutes. destruct (_ =? _)%nat; [apply goes_ret|].
  pose proof (fun m => P_routes (RegisterMode m)). pose proof (fun r => P_routes (MintToken r)).
  pose proof (P_routes AskAddress). pose proof (P_routes RegisterRoutes). pose proof (P_routes CheckSocket). pose proof (P_routes CheckCA). pose proof (P_routes MakeGuestEnv).
  cbn in *. repeat first [apply goes_pass|eapply goes_bind|apply goes_when|apply goes_each; intros ?]; auto.
Qed.
End Willing.

(** A configuration that nothing refuses before the outside is asked. *)
Definition runnable (c : run_config) : bool :=
  bool_decide (sessionRefusal c = None) && negb (preflightHypervisor (rc_hypervisor c) (rc_macos c)).

Lemma goes_gate host c P :
  (forall tr ev, done_ok (host tr ev) = true) -> runnable c = true ->
  (forall ev, match ev with ClaimName | AskBackend | AskRouteStore | ReapHome | AskHomeMissing => P ev | _ => True end) ->
  goes P (bring_up host c) tt -> goes P (EnsureRunning host c) tt.
Proof.
  intros N R Pg G. unfold runnable in R. apply andb_true_iff in R as [R1 R2]. apply bool_decide_eq_true in R1. apply negb_true_iff in R2.
  pose proof (Pg ClaimName). pose proof (Pg AskBackend). pose proof (Pg AskRouteStore). pose proof (Pg ReapHome). pose proof (Pg AskHomeMissing).
  cbn in *. unfold EnsureRunning. rewrite R1, R2.
  eapply goes_bind; [by apply goes_pass|]. eapply goes_bind; [apply goes_ret|]. do 2 (eapply goes_bind; [by apply goes_pass|]).
  eapply goes_bind; [by apply goes_note|]. destruct (createsEphemeralHome _ _); [|by apply (goes_bind _ _ _ false); [apply goes_ret|]].
  apply goes_either; [done|]. intros []; [by apply goes_on_error|done].
Qed.

(** What the run asks of a sandbox that is up. *)
Definition keeps_it (c : run_config) (host : trace -> event -> answer) : Prop :=
  nr_recovery (rc_net c) <> RecoveryAbsent /\ postureChanged (rc_net c) = false /\
  forall tr, host tr AskProjectStale = No /\ host tr AskNetworkStale = No /\ host tr AskMounts = Yes.

(** What changes a sandbox or its image. *)
Definition disturbs (ev : event) : bool :=
  match ev with StopSandbox | RemoveSandbox | RunSandbox | VerifyImage | VerifyAssets | ResolveAssets | DropHome => true | _ => false end.

Lemma goes_start host c : (forall tr ev, done_ok (host tr ev) = true) -> goes (fun _ => True) (start host c) tt.
Proof.
  intros N. unfold start. do 4 (eapply goes_bind; [by apply goes_step|]). eapply goes_bind; [by apply goes_serveRoutes; [|intros []]|].
  do 2 (eapply goes_bind; [by apply goes_pass|]).
  eapply goes_bind; [by apply goes_when; eapply goes_bind; apply goes_pass|]. eapply goes_bind; [by apply goes_pass|]. by apply goes_step.
Qed.

Lemma goes_boot_new host c :
  (forall tr ev, done_ok (host tr ev) = true) -> (forall tr, host tr AskReady = Yes) -> goes (fun _ => True) (boot_new host c) tt.
Proof.
  intros N R. unfold boot_new. do 2 (eapply goes_bind; [by apply goes_note|]). eapply goes_bind; [by apply goes_on_error, goes_start|].
  eapply goes_bind; [by apply goes_pass|]. do 2 (eapply goes_bind; [by apply goes_note|]).
  eapply goes_bind; [|by apply goes_pass]. eapply goes_bind; [apply (goes_question _ _ _ true); [done|]; intros tr; by rewrite R|]. apply goes_ret.
Qed.

Lemma goes_reuse host c : (forall tr ev, done_ok (host tr ev) = true) -> goes (fun ev => disturbs ev = false) (reuse host c) tt.
Proof.
  intros N. unfold reuse. eapply goes_bind; [by apply goes_when, goes_note|]. eapply goes_bind; [by apply goes_serveRoutes; [|intros []]|].
  eapply goes_bind; [by apply goes_note|]. eapply goes_bind; [by apply goes_when, goes_note|]. eapply goes_bind; by apply goes_pass.
Qed.

Lemma goes_usable host c :
  keeps_it c host -> (forall tr, host tr AskReady = Yes) -> goes (fun ev => disturbs ev = false) (usable host c) true.
Proof.
  intros (_ & Po & An) R. unfold usable. rewrite Po.
  eapply goes_bind; [apply (goes_question _ _ _ false); [done|]; intros tr; by rewrite (proj1 (An tr))|].
  eapply goes_bind; [apply (goes_question _ _ _ false); [done|]; intros tr; by rewrite (proj1 (proj2 (An tr)))|].
  eapply goes_bind; [apply (goes_question _ _ _ true); [done|]; intros tr; by rewrite R|]. cbn [negb].
  eapply goes_bind; [apply (goes_question _ _ _ true); [done|]; intros tr; by rewrite (proj2 (proj2 (An tr)))|]. apply goes_ret.
Qed.

Lemma goes_asked host P A ev (k : answer -> trace -> res run_error A * trace) x a :
  P ev -> (forall tr, host tr ev = x) -> goes P (k x) a -> goes P (bind (ask host ev) k) a.
Proof. intros Pe E G tr H. unfold bind, ask. cbn. rewrite E. apply G. auto. Qed.

(** C3: whatever the runtime, the broker and the host answer, a run asks each
    thing only once it has earned it: the sandbox is started only after the
    name is claimed, the backend and the route store are checked, no sandbox of
    the name is up (or it was stopped), the name is cleared and the broker was
    asked to forget the sandbox, the image and the boot assets are verified,
    each route has its token, and the workspace, the project and the volumes
    are looked at again; nothing is recorded before the boot or the guest's
    own confirmation; files are delivered only to a sandbox that answers.  That
    the broker forgot is not promised: [forgetRoutes] only says a failure, and
    the run goes on. *)
Theorem EnsureRunning_guarded host c after ev a before :
  (EnsureRunning host c []).2 = after ++ (ev, a) :: before -> allowed c (see before) ev = true.
Proof.
  intros E. destruct (EnsureRunning_wp host c [] I eq_refl) as [L _].
  by apply (legal_at c _ L after ev a before).
Qed.


(** When no step fails, the sandbox answers and nothing refuses the
    configuration, a run succeeds: it boots a sandbox when none is up, and it
    leaves alone one that is up, is mounting this workspace and has this run's
    network and project, which it neither stops, removes nor starts again. *)
Lemma EnsureRunning_runs host c :
  runnable c = true -> (forall tr ev, done_ok (host tr ev) = true) -> (forall tr, host tr AskReady = Yes) ->
  ((forall tr, host tr AskRunning = No) -> (EnsureRunning host c []).1 = Ok tt) /\
  ((forall tr, host tr AskRunning = Yes) -> keeps_it c host ->
     (EnsureRunning host c []).1 = Ok tt /\ Forall (fun x => disturbs x.1 = false) (EnsureRunning host c []).2).
Proof.
  intros R N Ry. split; intros Ru.
  - apply (goes_gate host c (fun _ => True) N R (fun ev => ltac:(by destruct ev))); [|done]. unfold bring_up.
    do 2 (eapply goes_bind; [by apply goes_pass|]). by apply (goes_asked _ _ _ _ _ No); [..|apply goes_boot_new].
  - intros K. apply (goes_gate host c (fun ev => disturbs ev = false) N R (fun ev => ltac:(by destruct ev))); [|done]. unfold bring_up.
    do 2 (eapply goes_bind; [by apply goes_pass|]). apply (goes_asked _ _ _ _ _ Yes); [done..|].
    rewrite bool_decide_eq_false_2 by apply K. eapply goes_bind; [by apply goes_usable|]. by apply goes_reuse.
Qed.

(** *** Stop and Remove *)

(** A stop is reported done only when the runtime did it or says the sandbox is
    not running; the tokens are revoked first either way. *)
Lemma Stop_run_exact host :
  let '(r, tr) := Stop_run host [] in
  (r = Ok tt <-> done_ok (host [(ForgetRoutes, host [] ForgetRoutes)] StopSandbox) = true \/
     exists a, (AskRunning, No) :: a = tr) /\
  exists l a, tr = l ++ [(ForgetRoutes, a)].
Proof.
  unfold Stop_run, forgetRoutes, note, bind, ask, ret, refuse. set (h0 := host [] _). set (h1 := host _ StopSandbox).
  destruct h1 as [| |e] eqn:E1; cbn; [split; [by split; auto|by eexists [_], _]..|].
  set (h2 := host _ AskRunning). destruct h2 eqn:E2; cbn; (split; [|by eexists [_; _], _]); split; try done; eauto.
  - intros [?|[? [=]]]; done.
  - intros [?|[? [=]]]; done.
Qed.

(** The home of a sandbox is dropped only when the runtime removed it; the
    records go, and the tokens are revoked first, either way. *)
Lemma Remove_run_exact host :
  exists fo st a rest,
    Remove_run host [] = (match a with Fails e => Err (Passed RemoveSandbox e) | _ => Ok tt end, rest ++ [(RemoveSandbox, a); (StopSandbox, st); (ForgetRoutes, fo)]) /\
    rest.*1 = [ForgetNetwork; ForgetPublished; ForgetClaims; ForgetSession] ++ (if done_ok a then [DropEphemeral] else []).
Proof.
  unfold Remove_run, forgetRoutes, note, bind, ask, ret, refuse. cbn. set (fo := host [] ForgetRoutes). set (st := host _ StopSandbox).
  set (a := host _ RemoveSandbox). exists fo, st, a.
  destruct a; cbn; [by eexists [_; _; _; _; _]..|by eexists [_; _; _; _]].
Qed.

(** ** Witnesses *)

Definition example_route : Route :=
  MkRoute (lit "api") [] (lit "endpoint") (lit "https://api.example.com") None None None None None false.

(** A run with one route, whose project is shared and whose home is its own. *)
Definition example_run : run_config :=
  MkRunConfig [example_route] true [] None None (MkNetResult NetIsolated NetIsolated None RecoveryAbsent None false false false) (lit "hvi") (lit "15.1")
    (lit "/work") (MkHomeChoice (lit "/home") true false false []).

(** Every step works; no sandbox is up, and the one that is started answers. *)
Definition example_outside (tr : trace) (ev : event) : answer := match ev with AskRunning => No | _ => Yes end.

Lemma EnsureRunning_guarded_witness :
  exists after before, (EnsureRunning example_outside example_run []).2 = after ++ (RunSandbox, Yes) :: before /\
    allowed example_run (see before) RunSandbox = true.
Proof.
  set (tr := (EnsureRunning example_outside example_run []).2). exists (take 5 tr), (drop 6 tr).
  assert (tr = take 5 tr ++ (RunSandbox, Yes) :: drop 6 tr) as E by (vm_compute; reflexivity).
  split; [exact E|]. exact (EnsureRunning_guarded example_outside example_run (take 5 tr) RunSandbox Yes (drop 6 tr) E).
Defined.

(** A sandbox is up, and it is this run's. *)
Definition example_up (tr : trace) (ev : event) : answer :=
  match ev with AskProjectStale | AskNetworkStale => No | _ => Yes end.
Definition example_again : run_config :=
  MkRunConfig [example_route] true [] None None (MkNetResult NetIsolated NetIsolated (Some NetIsolated) NoRecovery None false false false) (lit "hvi") (lit "15.1")
    (lit "/work") (MkHomeChoice (lit "/home") true true false []).

Lemma EnsureRunning_runs_witness :
  (EnsureRunning example_outside example_run []).1 = Ok tt /\
  ((EnsureRunning example_up example_again []).1 = Ok tt /\ Forall (fun x => disturbs x.1 = false) (EnsureRunning example_up example_again []).2).
Proof.
  assert (runnable example_run = true) as R by (vm_compute; reflexivity).
  assert (runnable example_again = true) as R' by (vm_compute; reflexivity). split.
  - refine (proj1 (EnsureRunning_runs example_outside example_run R _ _) _); [by intros tr []|done|done].
  - refine (proj2 (EnsureRunning_runs example_up example_again R' _ _) _ _); [by intros tr []|done|done|].
    split; [discriminate|]. split; [by vm_compute|done].
Defined.
