(* ===== verification/FileSys.v ===== *)
(** * The file system that brig shares with the guest

    Inodes, the kernel's walk over a path and the walk of [os.Root] under a
    directory that is held, and the calls that brig makes
    ([internal/wrap/fdroot.go] and what [rootio.go] asks of [os]).  Before every
    call the guest may change the file system, and a call may fail. *)

From stdpp Require Import prelude list strings gmap.
From Stdlib Require Import ZArith Lia ZifyNat Ascii.
From S2P Require Import Prelude GoUnicode GoStrings GoPath GoClean Volumes ProfileReg RunHome.

(** ** The file system *)

(** What [fs.FileInfo] and access(2) say of a directory: its owner, its
    permission bits, and how the kernel answers brig's user. *)
Inductive access_answer : Set := Granted | NoAccess | ReadOnlyFs | AccessFailed.
Record dir_attr := MkDirAttr { da_uid : Z; da_perm : Z; da_access : access_answer }.

Inductive kind : Set := Fifo | Socket | Device | Regular.

(** An inode.  The entries of a directory are inode numbers, and ".." is its
    parent; the target of a link never changes. *)
Inductive node :=
  | NDir (parent : positive) (entries : gmap gostr positive) (attr : dir_attr)
  | NLink (target : gostr)
  | NFile (k : kind) (mode : Z) (content : gostr).

Notation fsys := (gmap positive node).
Definition root_ino : positive := 1%positive.

Inductive errno : Set := ENOENT | ENOTDIR | ELOOP | EEXIST | EISDIR | ESCAPES | EFAULTED (code : Z).

#[export] Instance errno_eq_dec : EqDecision errno.
Proof. solve_decision. Defined.

(** The entry of a directory. *)
Definition dir_entry (s : fsys) (d : positive) (name : gostr) : res errno positive :=
  match s !! d with
  | Some (NDir _ es _) => match es !! name with Some i => Ok i | None => Err ENOENT end
  | _ => Err ENOTDIR
  end.

(** The kernel's walk from a directory, with forty links at most; [follow]
    says whether a link at the end is followed. *)
Fixpoint kwalk (hops : nat) (follow : bool) (s : fsys) : positive -> list gostr -> res errno positive :=
  fix go (d : positive) (names : list gostr) {struct names} : res errno positive :=
    match names with
    | [] => Ok d
    | n :: rest =>
      match s !! d with
      | Some (NDir parent es _) =>
        if bool_decide (n = []) || bool_decide (n = dot1) then go d rest
        else if bool_decide (n = dot2) then go parent rest
        else
          match es !! n with
          | None => Err ENOENT
          | Some i =>
            match s !! i with
            | Some (NLink t) =>
              if bool_decide (rest = []) && negb follow then Ok i
              else
                match hops with
                | O => Err ELOOP
                | S hops' => kwalk hops' follow s (if filepath_IsAbs t then root_ino else d) (split_byte slash t ++ rest)
                end
            | _ => go i rest
            end
          end
      | _ => Err ENOTDIR
      end
    end.

Definition max_links : nat := 40.
Definition kstat (s : fsys) (path : gostr) : res errno positive := kwalk max_links true s root_ino (split_byte slash path).
Definition klstat (s : fsys) (path : gostr) : res errno positive := kwalk max_links false s root_ino (split_byte slash path).

(** Where a walk under an [os.Root] ends: on a directory it holds, or at a
    name of one, with what is there. *)
Inductive place :=
  | Here (d : positive)
  | In (d : positive) (name : gostr) (found : option positive).

(** The walk of [os.Root]: it goes up only to a directory it came down from,
    never above the root, and follows no absolute link.  The list is the
    directories it came down through, the last one first. *)
Fixpoint rwalk (hops : nat) (follow : bool) (s : fsys) : positive -> list positive -> list gostr -> res errno place :=
  fix go (d : positive) (above : list positive) (names : list gostr) {struct names} : res errno place :=
    match names with
    | [] => Ok (Here d)
    | n :: rest =>
      match s !! d with
      | Some (NDir _ es _) =>
        if bool_decide (n = []) || bool_decide (n = dot1) then go d above rest
        else if bool_decide (n = dot2) then
          match above with
          | up :: above' => go up above' rest
          | [] => Err ESCAPES
          end
        else
          match es !! n with
          | None => if bool_decide (rest = []) then Ok (In d n None) else Err ENOENT
          | Some i =>
            match s !! i with
            | Some (NLink t) =>
              if bool_decide (rest = []) && negb follow then Ok (In d n (Some i))
              else
                match hops with
                | O => Err ELOOP
                | S hops' =>
                  if filepath_IsAbs t then Err ESCAPES
                  else rwalk hops' follow s d above (split_byte slash t ++ rest)
                end
            | _ => if bool_decide (rest = []) then Ok (In d n (Some i)) else go i (d :: above) rest
            end
          end
      | _ => Err ENOTDIR
      end
    end.

(** ** Calls

    A file as [Stat] and [Lstat] tell of it, and whether two are one. *)
Record FileInfo := MkFileInfo { fi_ino : positive; fi_node : node }.
Definition SameFile (a b : FileInfo) : bool := bool_decide (fi_ino a = fi_ino b).

Definition info_of (s : fsys) (i : positive) : res errno FileInfo :=
  match s !! i with Some nd => Ok (MkFileInfo i nd) | None => Err ENOENT end.

(** The file system, how many calls were made, what it was at each, the last
    one first, and what brig's own calls made of it. *)
Record world := MkWorld { w_now : nat; w_fs : fsys; w_past : list fsys; w_acts : list (fsys * fsys) }.

(** What runs beside brig: what the guest makes of the file system before each
    call, and the calls that fail for a reason of the host. *)
Record beside := MkBeside { guest : nat -> fsys -> fsys; fault : nat -> option Z }.

Section Calls.
Variable b : beside.

Definition tick (w : world) : world :=
  let s := guest b (w_now w) (w_fs w) in MkWorld (S (w_now w)) s (s :: w_past w) (w_acts w).

Definition query {A : Type} (q : fsys -> res errno A) (w : world) : res errno A * world :=
  let w' := tick w in
  (match fault b (w_now w) with Some e => Err (EFAULTED e) | None => q (w_fs w') end, w').

(** A call that changes the file system. *)
Definition act {A : Type} (q : fsys -> res errno (A * fsys)) (w : world) : res errno A * world :=
  let w' := tick w in
  match fault b (w_now w) with
  | Some e => (Err (EFAULTED e), w')
  | None =>
    match q (w_fs w') with
    | Err e => (Err e, w')
    | Ok (a, s) => (Ok a, MkWorld (w_now w') s (w_past w') ((w_fs w', s) :: w_acts w'))
    end
  end.

Definition os_Stat (path : gostr) : world -> res errno FileInfo * world :=
  query (fun s => let? i := kstat s path in info_of s i).
Definition os_Lstat (path : gostr) : world -> res errno FileInfo * world :=
  query (fun s => let? i := klstat s path in info_of s i).
Definition os_Readlink (path : gostr) : world -> res errno gostr * world :=
  query (fun s => let? i := klstat s path in
                  match s !! i with Some (NLink t) => Ok t | _ => Err ENOENT end).

(** [syscall.Access(path, wOK)]. *)
Definition access (path : gostr) : world -> res errno access_answer * world :=
  query (fun s => let? i := kstat s path in
                  match s !! i with Some (NDir _ _ a) => Ok (da_access a) | _ => Err ENOENT end).

(** [os.OpenRoot]: a directory, by its name. *)
Definition OpenRoot (path : gostr) : world -> res errno positive * world :=
  query (fun s => let? i := kstat s path in
                  match s !! i with Some (NDir _ _ _) => Ok i | _ => Err ENOTDIR end).

Definition root_Lstat (h : positive) (name : gostr) : world -> res errno FileInfo * world :=
  query (fun s => let? i := dir_entry s h name in info_of s i).
Definition root_Readlink (h : positive) (name : gostr) : world -> res errno gostr * world :=
  query (fun s => let? i := dir_entry s h name in
                  match s !! i with Some (NLink t) => Ok t | _ => Err ENOENT end).

(** [root.OpenFile(name, syscall.O_DIRECTORY, 0)], with the number of links
    that [os.Root] follows. *)
Definition root_OpenDir (links : nat) (h : positive) (name : gostr) : world -> res errno positive * world :=
  query (fun s => let? p := rwalk links true s h [] [name] in
                  match p with
                  | Here d => Ok d
                  | In _ _ None => Err ENOENT
                  | In _ _ (Some i) => match s !! i with Some (NDir _ _ _) => Ok i | _ => Err ENOTDIR end
                  end).

(** [rootFromFile]: the descriptor opened again by the name the kernel gives
    it, which is the directory it holds. *)
Definition rootFromFile (f : positive) : world -> res errno positive * world := query (fun _ => Ok f).

(** [root.Stat(".")]. *)
Definition root_Stat (h : positive) : world -> res errno FileInfo * world := query (fun s => info_of s h).
End Calls.
