(* ===== verification/RootIO.v ===== *)
(** * Directories held open (internal/wrap/rootio.go, owner_unix.go)

    How brig reaches the workspace and the project of a run while the guest
    may rename what it can write: the prefix of the path that the guest cannot
    redirect, and the descent below it by handle.  The guest moves before every
    call. *)

From stdpp Require Import prelude list strings gmap.
From Stdlib Require Import ZArith Lia ZifyNat Ascii.
From S2P Require Import Prelude GoUnicode GoStrings GoPath GoClean Volumes ProfileReg RunHome FileSys.

(** ** The refusals *)

Inductive walk_error : Set :=
  | CwdError
  | Unread (p : gostr) (e : errno)
  | TooManyLinks (p : gostr)
  | PrefixNotDir (p : gostr)
  | CannotOpen (p : gostr) (e : errno)
  | Moving (p : gostr) (e : errno)
  | LeafIsLink (root target : gostr)
  | LinkOnTheWay (root component target : gostr)
  | NotADirectory (p described : gostr)
  | OpenFailed (p : gostr) (e : errno)
  | StatFailed (p : gostr) (e : errno)
  | ChangedBetween (p : gostr)
  | GoneAfter (e : errno)
  | NameMoved
  | MkdirFailed (e : errno).

(** The refusals that carry [errPlantedSymlink]. *)
Definition is_planted (e : walk_error) : bool :=
  match e with
  | Unread _ _ | Moving _ _ | LeafIsLink _ _ | LinkOnTheWay _ _ _ | OpenFailed _ _ | ChangedBetween _
  | GoneAfter _ | NameMoved => true
  | _ => false
  end.

(** [describeType]. *)
Definition describeType (nd : node) : gostr :=
  match nd with
  | NFile Fifo _ _ => lit "named pipe (FIFO)"
  | NFile Socket _ _ => lit "socket"
  | NFile Device _ _ => lit "device node"
  | NDir _ _ _ => lit "directory"
  | NLink _ => lit "symlink"
  | NFile Regular _ _ => lit "----------"
  end.

(** [plantedSymlinkErr]. *)
Definition plantedSymlinkErr (root component target : gostr) : walk_error :=
  if bool_decide (component = root) then LeafIsLink root target else LinkOnTheWay root component target.

(** ** Who can write a directory *)

(** [writableBy]. *)
Definition writableBy (attr : option dir_attr) (uid : Z) (acc : res errno access_answer) : bool :=
  match attr with
  | None => true
  | Some a =>
    if (uid =? 0)%Z then negb (da_uid a =? 0)%Z || negb (Z.land (da_perm a) 18 =? 0)%Z
    else if (da_uid a =? uid)%Z then true
    else match acc with Ok Granted => true | Ok NoAccess | Ok ReadOnlyFs => false | _ => true end
  end.

(** ** The trusted prefix *)

(** [pathComponents]: the path and every ancestor, the outermost first. *)
Fixpoint ancestors (fuel : nat) (path : gostr) : list gostr :=
  match fuel with
  | O => [path]
  | S fuel' =>
    let parent := filepath_Dir path in
    if bool_decide (parent = path) then [path] else ancestors fuel' parent ++ [path]
  end.
Definition pathComponents (dir : gostr) : list gostr :=
  let path := path_Clean dir in ancestors (length path) path.

Example pathComponents_example :
  pathComponents (lit "/home//u/./w/") = [lit "/"; lit "/home"; lit "/home/u"; lit "/home/u/w"].
Proof. vm_compute. reflexivity. Qed.

Section Descent.
Variable b : beside.
(** brig's user, and the links that [os.Root] follows. *)
Variable uid : Z.
Variable root_links : nat.

(** [dirWritableByUs]. *)
Definition dirWritableByUs (path : gostr) (info : FileInfo) (w : world) : bool * world :=
  let '(acc, w) := access b path w in
  (writableBy (match fi_node info with NDir _ _ a => Some a | _ => None end) uid acc, w).

(** The loop of [resolveTrusted], with the links it may still follow. *)
Fixpoint resolve_names (hops : nat) : gostr -> list gostr -> world -> res walk_error (option gostr) * world :=
  fix go (dir : gostr) (names : list gostr) (w : world) {struct names} : res walk_error (option gostr) * world :=
    match names with
    | [] => (Ok (Some dir), w)
    | n :: rest =>
      if bool_decide (n = []) || bool_decide (n = dot1) then go dir rest w
      else if bool_decide (n = dot2) then go (filepath_Dir dir) rest w
      else
        match os_Stat b dir w with
        | (Err e, w) => (Err (Unread dir e), w)
        | (Ok info, w) =>
          match dirWritableByUs dir info w with
          | (true, w) => (Ok None, w)
          | (false, w) =>
            let p := filepath_Join dir n in
            match os_Lstat b p w with
            | (Err ENOENT, w) => (Ok None, w)
            | (Err e, w) => (Err (Unread p e), w)
            | (Ok info, w) =>
              match fi_node info with
              | NLink _ =>
                match hops with
                | O => (Err (TooManyLinks p), w)
                | S hops' =>
                  match os_Readlink b p w with
                  | (Err e, w) => (Err (Unread p e), w)
                  | (Ok target, w) =>
                    resolve_names hops' (if filepath_IsAbs target then [slash] else dir)
                      (split_byte slash (path_Clean target) ++ rest) w
                  end
                end
              | NDir _ _ _ => go p rest w
              | NFile _ _ _ => (Err (PrefixNotDir p), w)
              end
            end
          end
        end
    end.

(** [resolveTrusted]: [None] where the way passes a directory that this user
    can write, or ends. *)
Definition resolveTrusted (dir name : gostr) (w : world) : res walk_error (option gostr) * world :=
  resolve_names max_links dir [name] w.

(** The loop of [trustedPrefix] over the components between the first and the
    last, from the [i]th. *)
Fixpoint trusted_loop (i k : nat) (dir : gostr) (middle : list gostr) (w : world) : res walk_error nat * world :=
  match middle with
  | [] => (Ok k, w)
  | c :: middle' =>
    if (1 <? i)%nat && (uid =? 0)%Z then (Ok k, w)
    else
      match resolveTrusted dir (filepath_Base c) w with
      | (Err e, w) => (Err e, w)
      | (Ok None, w) => (Ok k, w)
      | (Ok (Some real), w) => trusted_loop (S i) i real middle' w
      end
  end.

Definition trustedPrefix (components : list gostr) (w : world) : res walk_error nat * world :=
  trusted_loop 1 0 (default [] (head components)) (removelast (tail components)) w.

(** ** The descent *)

(** One component after another, against the directory that is held. *)
Fixpoint descend (abs : gostr) (root : positive) (tail : list gostr) (w : world) : res walk_error positive * world :=
  match tail with
  | [] => (Ok root, w)
  | p :: tail' =>
    let name := filepath_Base p in
    match root_Lstat b root name w with
    | (Err e, w) => (Err (Moving p e), w)
    | (Ok info, w) =>
      match fi_node info with
      | NLink _ =>
        let '(target, w) := root_Readlink b root name w in
        (Err (plantedSymlinkErr abs p (match target with Ok t => t | Err _ => [] end)), w)
      | NFile _ _ _ => (Err (NotADirectory p (describeType (fi_node info))), w)
      | NDir _ _ _ =>
        match root_OpenDir b root_links root name w with
        | (Err e, w) => (Err (OpenFailed p e), w)
        | (Ok opening, w) =>
          match rootFromFile b opening w with
          | (Err e, w) => (Err (CannotOpen p e), w)
          | (Ok next, w) =>
            match root_Stat b next w with
            | (Err e, w) => (Err (StatFailed p e), w)
            | (Ok opened, w) =>
              if SameFile opened info then descend abs next tail' w else (Err (ChangedBetween p), w)
            end
          end
        end
      end
    end
  end.

(** [openPathHandle]: the directory that is held and its identity.  [cwd] is
    what [os.Getwd] says. *)
Definition openPathHandle (cwd : option gostr) (path : gostr) (w : world) : res walk_error (positive * FileInfo) * world :=
  match (if filepath_IsAbs path then Some (path_Clean path) else (fun d => filepath_Join d path) <$> cwd) with
  | None => (Err CwdError, w)
  | Some abs =>
    let components := pathComponents abs in
    match trustedPrefix components w with
    | (Err e, w) => (Err e, w)
    | (Ok k, w) =>
      let prefix := nth k components [] in
      match OpenRoot b prefix w with
      | (Err e, w) => (Err (CannotOpen prefix e), w)
      | (Ok root, w) =>
        match descend abs root (drop (S k) components) w with
        | (Err e, w) => (Err e, w)
        | (Ok root, w) =>
          match root_Stat b root w with
          | (Err e, w) => (Err (StatFailed abs e), w)
          | (Ok ident, w) =>
            match os_Stat b abs w with
            | (Err e, w) => (Err (GoneAfter e), w)
            | (Ok byPath, w) => if SameFile byPath ident then (Ok (root, ident), w) else (Err NameMoved, w)
            end
          end
        end
      end
    end
  end.

(** [heldDir], and [openHeldDir]. *)
Record heldDir := MkHeldDir { hd_root : positive; hd_dir : gostr; hd_ident : FileInfo }.

Definition openHeldDir (cwd : option gostr) (dir : gostr) (w : world) : res walk_error heldDir * world :=
  match openPathHandle cwd dir w with
  | (Err e, w) => (Err e, w)
  | (Ok (root, ident), w) => (Ok (MkHeldDir root dir ident), w)
  end.

(** [verifyStillOurs]. *)
Definition verifyStillOurs (r : heldDir) (w : world) : res walk_error unit * world :=
  match os_Stat b (hd_dir r) w with
  | (Err e, w) => (Err (GoneAfter e), w)
  | (Ok now, w) => if SameFile now (hd_ident r) then (Ok tt, w) else (Err NameMoved, w)
  end.

(** [checkWorkspacePathBeforeCreate]. *)
Fixpoint check_below (workspace : gostr) (components : list gostr) (w : world) : res walk_error unit * world :=
  match components with
  | [] => (Ok tt, w)
  | p :: components' =>
    match os_Lstat b p w with
    | (Err ENOENT, w) => check_below workspace components' w
    | (Err e, w) => (Err (Unread p e), w)
    | (Ok info, w) =>
      match fi_node info with
      | NLink _ =>
        let '(target, w) := os_Readlink b p w in
        (Err (plantedSymlinkErr workspace p (match target with Ok t => t | Err _ => [] end)), w)
      | NFile _ _ _ => (Err (NotADirectory p []), w)
      | NDir _ _ _ => check_below workspace components' w
      end
    end
  end.

Definition checkWorkspacePathBeforeCreate (workspace : gostr) (w : world) : res walk_error unit * world :=
  let components := pathComponents workspace in
  match trustedPrefix components w with
  | (Err e, w) => (Err e, w)
  | (Ok k, w) => check_below (List.last components []) (drop (S k) components) w
  end.

(** [openWorkspace], and whether it came to [os.MkdirAll].  What the directories
    it makes change is a move like the guest's, since brig makes them as the
    same user. *)
Definition openWorkspace (cwd : option gostr) (mkdirAll : world -> res errno unit * world) (workspace : gostr) (w : world) :
    res walk_error heldDir * bool * world :=
  let ws := path_Clean workspace in
  match checkWorkspacePathBeforeCreate ws w with
  | (Err e, w) => (Err e, false, w)
  | (Ok _, w) =>
    match mkdirAll w with
    | (Err e, w) => (Err (MkdirFailed e), true, w)
    | (Ok _, w) =>
      match openPathHandle cwd ws w with
      | (Err e, w) => (Err e, true, w)
      | (Ok (root, ident), w) => (Ok (MkHeldDir root ws ident), true, w)
      end
    end
  end.
End Descent.

(** ** What the guest can do

    A directory that brig's user cannot write stays as it is, a new one is the
    user's, and only root gives one away; a link keeps its target, a file its
    kind, and an inode number is not used again. *)
Section Firm.
Variable uid : Z.

Definition user_writes (a : dir_attr) : bool := writableBy (Some a) uid (Ok (da_access a)).

Definition well_formed (s : fsys) : Prop :=
  (exists es a, s !! root_ino = Some (NDir root_ino es a)) /\
  forall d p es a n i, s !! d = Some (NDir p es a) -> es !! n = Some i ->
    match s !! i with Some (NDir p' _ _) => p' = d | Some _ => True | None => False end.

Definition moves (s s' : fsys) : Prop :=
  well_formed s' /\
  forall i, match s !! i with
            | Some (NDir p es a) =>
              exists p' es' a', s' !! i = Some (NDir p' es' a') /\ user_writes a' = user_writes a /\ (uid <> 0%Z -> da_uid a' = da_uid a) /\
                (user_writes a = false -> p' = p /\ es' = es /\ a' = a)
            | Some (NLink t) => s' !! i = Some (NLink t)
            | Some (NFile k _ _) => exists m c, s' !! i = Some (NFile k m c)
            | None => match s' !! i with Some (NDir _ _ a) => user_writes a = true | _ => True end
            end.

Definition evolves : fsys -> fsys -> Prop := rtc moves.

(** What the kernel makes of a sequence of names, whatever the limit of
    links. *)
Inductive resolves (s : fsys) : positive -> list gostr -> positive -> Prop :=
  | resolves_nil d : resolves s d [] d
  | resolves_skip d n rest i : n = [] \/ n = dot1 -> resolves s d rest i -> resolves s d (n :: rest) i
  | resolves_up d p es a rest i :
      s !! d = Some (NDir p es a) -> resolves s p rest i -> resolves s d (dot2 :: rest) i
  | resolves_link d p es a n rest j t i :
      n <> [] -> n <> dot1 -> n <> dot2 ->
      s !! d = Some (NDir p es a) -> es !! n = Some j -> s !! j = Some (NLink t) ->
      resolves s (if filepath_IsAbs t then root_ino else d) (split_byte slash t ++ rest) i ->
      resolves s d (n :: rest) i
  | resolves_step d p es a n rest j i :
      n <> [] -> n <> dot1 -> n <> dot2 ->
      s !! d = Some (NDir p es a) -> es !! n = Some j -> (forall t, s !! j <> Some (NLink t)) ->
      resolves s j rest i -> resolves s d (n :: rest) i.

(** A directory reached from the root through directories that the user
    cannot write, with no link on the way. *)
Inductive firm (s : fsys) : list gostr -> positive -> Prop :=
  | firm_root : firm s [] root_ino
  | firm_step l d p es a n i p' es' a' :
      firm s l d -> s !! d = Some (NDir p es a) -> user_writes a = false ->
      normal n -> es !! n = Some i -> s !! i = Some (NDir p' es' a') -> firm s (l ++ [n]) i.

Lemma kwalk_resolves hops s d names i : kwalk hops true s d names = Ok i -> resolves s d names i.
Proof.
  revert d names. induction hops as [|hops IH]; intros d names; revert d;
    (induction names as [|n rest IHn]; intros d H; cbn [kwalk] in H; [injection H as ->; constructor|]);
    destruct (s !! d) as [[p es a|t|k m c]|] eqn:Ed; try done;
    (case_bool_decide as H1; [apply resolves_skip; [by left|]; by apply IHn|]);
    (case_bool_decide as H2; [apply resolves_skip; [by right|]; by apply IHn|]); cbn [orb] in H;
    (case_bool_decide as H3; [subst n; eapply resolves_up; [done|]; by apply IHn|]);
    (destruct (es !! n) as [j|] eqn:Ej; [|done]);
    (destruct (s !! j) as [[p' es' a'|t|k m c]|] eqn:Ek;
      [ eapply resolves_step; [done..|by intros t; rewrite Ek|by apply IHn] | | eapply resolves_step; [done..|by intros t; rewrite Ek|by apply IHn]
      | eapply resolves_step; [done..|by intros t; rewrite Ek|by apply IHn]]); rewrite andb_false_r in H; [done|].
  eapply resolves_link; [done..|]. by apply IH.
Qed.

Lemma resolves_fun s d names i : resolves s d names i -> forall j, resolves s d names j -> i = j.
Proof.
  induction 1 as [d|d n rest i Hn _ IH|d p es a rest i Hd _ IH|d p es a n rest j t i H1 H2 H3 Hd Hj Ht _ IH
                 |d p es a n rest j i H1 H2 H3 Hd Hj Ht _ IH]; intros k Hk; inversion Hk; subst; try done; try naive_solver.
Qed.

Lemma moves_dir s s' i p es a :
  moves s s' -> s !! i = Some (NDir p es a) -> user_writes a = false -> s' !! i = Some (NDir p es a).
Proof.
  intros [_ H] E Ha. specialize (H i). rewrite E in H. destruct H as (p' & es' & a' & E' & _ & _ & Hs).
  by destruct (Hs Ha) as (-> & -> & ->).
Qed.

Lemma moves_is_dir s s' i p es a : moves s s' -> s !! i = Some (NDir p es a) -> exists p' es' a', s' !! i = Some (NDir p' es' a').
Proof. intros [_ H] E. specialize (H i). rewrite E in H. naive_solver. Qed.

Lemma firm_moves s s' l d : moves s s' -> firm s l d -> firm s' l d.
Proof.
  intros Hm. induction 1 as [|l d p es a n i p' es' a' _ IH Hd Ha Hn Hi Hdir]; [constructor|].
  destruct (moves_is_dir _ _ _ _ _ _ Hm Hdir) as (p2 & es2 & a2 & E2).
  eapply firm_step; [exact IH|by eapply moves_dir|done..|exact E2].
Qed.

Lemma firm_evolves s s' l d : evolves s s' -> firm s l d -> firm s' l d.
Proof. induction 1; [done|]. eauto using firm_moves. Qed.

Lemma evolves_wf s s' : evolves s s' -> well_formed s -> well_formed s'.
Proof. induction 1 as [|s s1 s2 [Hw _] _ IH]; [done|]. auto. Qed.

Lemma evolves_dir s s' i p es a :
  evolves s s' -> s !! i = Some (NDir p es a) -> user_writes a = false -> s' !! i = Some (NDir p es a).
Proof. induction 1; [done|]. eauto using moves_dir. Qed.

Lemma evolves_link s s' i t : evolves s s' -> s !! i = Some (NLink t) -> s' !! i = Some (NLink t).
Proof. induction 1 as [|s s1 s2 [_ H] _ IH]; [done|]. intros E. specialize (H i). rewrite E in H. auto. Qed.

Lemma evolves_is_dir s s' i p es a : evolves s s' -> s !! i = Some (NDir p es a) -> exists p' es' a', s' !! i = Some (NDir p' es' a').
Proof.
  intros H. revert p es a. induction H as [|s s1 s2 Hm _ IH]; [eauto|]. intros p es a E.
  destruct (moves_is_dir _ _ _ _ _ _ Hm E) as (p1 & es1 & a1 & E1). eauto.
Qed.

Lemma firm_names s l d : firm s l d -> Forall normal l.
Proof. induction 1; [done|]. apply Forall_app. split; [done|]. by constructor. Qed.

Lemma firm_dir s l d : well_formed s -> firm s l d -> exists p es a, s !! d = Some (NDir p es a).
Proof. intros [(es & a & H) _]. destruct 1; eauto. Qed.

(** The directory above is the parent. *)
Lemma firm_up s l d p es a : well_formed s -> firm s l d -> s !! d = Some (NDir p es a) -> firm s (removelast l) p.
Proof.
  intros Hw H. revert p es a. destruct H as [|l d p0 es0 a0 n i p' es' a' H Hd Ha Hn Hi Hdir]; intros p es a E.
  - destruct Hw as [(es1 & a1 & E1) _]. rewrite E1 in E. injection E as <- <- <-. constructor.
  - rewrite removelast_last. destruct Hw as [_ Hw]. specialize (Hw _ _ _ _ _ _ Hd Hi). rewrite E in Hw. by subst p.
Qed.

Lemma kwalk_step hops f s d n rest p es a i p' es' a' :
  s !! d = Some (NDir p es a) -> normal n -> es !! n = Some i -> s !! i = Some (NDir p' es' a') ->
  kwalk hops f s d (n :: rest) = kwalk hops f s i rest.
Proof.
  intros Hd (H1 & H2 & H3 & _) Hi Hi'. destruct hops; cbn [kwalk]; rewrite Hd, !bool_decide_false by done; cbn [orb];
    by rewrite Hi, Hi'.
Qed.

Lemma firm_walk hops f s l d rest : firm s l d -> kwalk hops f s root_ino (l ++ rest) = kwalk hops f s d rest.
Proof.
  intros H. revert rest. induction H as [|l d p es a n i p' es' a' _ IH Hd Ha Hn Hi Hdir]; intros rest; [done|].
  rewrite <- app_assoc, IH. cbn [app]. by eapply kwalk_step.
Qed.

(** The walk of an absolute path begins with an empty component. *)
Definition abs (l : list gostr) : gostr := slash :: join [slash] l.

Lemma split_abs l : Forall normal l -> split_byte slash (abs l) = match l with [] => [[]; []] | _ => [] :: l end.
Proof.
  intros H. unfold abs. cbn [split_byte]. rewrite Ascii.eqb_refl. destruct l as [|w l]; [done|].
  f_equal. apply split_byte_join; [done|by apply normal_no_slash].
Qed.

Lemma kwalk_empty hops f s d p es a rest : s !! d = Some (NDir p es a) -> kwalk hops f s d ([] :: rest) = kwalk hops f s d rest.
Proof. intros E. destruct hops; cbn [kwalk]; by rewrite E. Qed.

Lemma kwalk_abs hops f s l : well_formed s -> Forall normal l ->
  kwalk hops f s root_ino (split_byte slash (abs l)) = kwalk hops f s root_ino l.
Proof.
  intros [(es & a & E) _] Hl. rewrite split_abs by done. destruct l as [|w l].
  - rewrite !(kwalk_empty _ _ _ _ _ _ _ _ E). done.
  - by rewrite (kwalk_empty _ _ _ _ _ _ _ _ E).
Qed.

Lemma kstat_firm s l d : well_formed s -> firm s l d -> kstat s (abs l) = Ok d.
Proof.
  intros Hw H. unfold kstat. rewrite kwalk_abs by (done || by eapply firm_names).
  rewrite <- (app_nil_r l), (firm_walk _ _ _ _ _ _ H). by destruct max_links.
Qed.

(** The last name, looked at without following it. *)
Lemma klstat_firm s l d p es a n i : well_formed s -> firm s l d -> s !! d = Some (NDir p es a) -> normal n ->
  klstat s (abs (l ++ [n])) = Ok i -> es !! n = Some i.
Proof.
  intros Hw H Hd Hn. pose proof Hn as (H1 & H2 & H3 & _).
  unfold klstat. rewrite kwalk_abs; [|done|].
  2: { apply Forall_app. split; [by eapply firm_names|by constructor]. }
  rewrite (firm_walk _ _ _ _ _ _ H). unfold max_links. cbn [kwalk]. rewrite Hd, !bool_decide_false by done. cbn [orb].
  destruct (es !! n) as [j|]; [|done]. rewrite bool_decide_true by done. cbn [andb negb].
  destruct (s !! j) as [[]|]; congruence.
Qed.

Lemma evolves_attr s s' i p es a p' es' a' :
  evolves s s' -> s !! i = Some (NDir p es a) -> s' !! i = Some (NDir p' es' a') ->
  user_writes a' = user_writes a /\ (uid <> 0%Z -> da_uid a' = da_uid a).
Proof.
  intros H. revert p es a. induction H as [s|s s1 s2 Hm _ IH]; intros p es a E E'; [rewrite E in E'; by injection E' as <- <- <-|].
  pose proof (proj2 Hm i) as Hi. rewrite E in Hi. destruct Hi as (p1 & es1 & a1 & E1 & H1 & H2 & _).
  destruct (IH _ _ _ E1 E') as [H3 H4]. split; [congruence|]. intros Hu. by rewrite H4, H2.
Qed.

(** ** Names that a walk passes over *)

Definition skipped (n : gostr) : bool := bool_decide (n = []) || bool_decide (n = dot1).
Definition kept (names : list gostr) : list gostr := List.filter (fun n => negb (skipped n)) names.

Lemma skipped_true n : skipped n = true <-> n = [] \/ n = dot1.
Proof. unfold skipped. rewrite orb_true_iff, !bool_decide_eq_true. done. Qed.

Lemma kept_app a c : kept (a ++ c) = kept a ++ kept c.
Proof. apply List.filter_app. Qed.

Lemma kept_cons_inv n names' rest : kept names' = n :: kept rest ->
  exists before after, names' = before ++ n :: after /\ Forall (fun x => skipped x = true) before /\ kept after = kept rest.
Proof.
  induction names' as [|x names' IH]; [done|]. cbn. destruct (skipped x) eqn:Ex; cbn.
  - intros (before & after & -> & Hb & Ha)%IH. exists (x :: before), after. auto.
  - intros [= -> H]. by exists [], names'.
Qed.

Lemma resolves_skips s d before names i :
  Forall (fun x => skipped x = true) before -> resolves s d names i -> resolves s d (before ++ names) i.
Proof.
  induction 1 as [|x before Hx _ IH]; [done|]. intros H. cbn [app]. apply resolves_skip; [by apply skipped_true|auto].
Qed.

(** Empty components and "." make no difference. *)
Lemma resolves_kept s d names i : resolves s d names i -> forall names', kept names = kept names' -> resolves s d names' i.
Proof.
  assert (forall n, n <> [] -> n <> dot1 -> skipped n = false) as Hk.
  { intros n H1 H2. apply not_true_iff_false. rewrite skipped_true. naive_solver. }
  induction 1 as [d|d n rest i Hn _ IH|d p es a rest i Hd _ IH|d p es a n rest j t i H1 H2 H3 Hd Hj Ht _ IH
                 |d p es a n rest j i H1 H2 H3 Hd Hj Ht _ IH]; intros names' E.
  - cbn in E. rewrite <- (app_nil_r names'). apply resolves_skips; [|constructor].
    induction names' as [|x names' IH]; constructor; cbn in E; destruct (skipped x) eqn:Ex; try done. auto.
  - apply IH. rewrite <- E. cbn. apply skipped_true in Hn. by rewrite Hn.
  - cbn in E. symmetry in E. apply kept_cons_inv in E as (before & after & -> & Hb & Ha). apply resolves_skips; [done|].
    eapply resolves_up; [done|]. by apply IH.
  - cbn in E. rewrite Hk in E by done. symmetry in E. apply kept_cons_inv in E as (before & after & -> & Hb & Ha).
    apply resolves_skips; [done|]. eapply resolves_link; [done..|]. apply IH. by rewrite !kept_app, Ha.
  - cbn in E. rewrite Hk in E by done. symmetry in E. apply kept_cons_inv in E as (before & after & -> & Hb & Ha).
    apply resolves_skips; [done|]. eapply resolves_step; [done..|]. by apply IH.
Qed.

(** ** What [filepath.Clean] makes of a link's target

    A target whose ".."s all come before its first name is walked as it is
    written; [filepath.Clean] takes a name and the ".." after it away, and the
    kernel does not where the name is a link. *)
Definition plain_target (t : gostr) : Prop :=
  exists m l, kept (split_byte slash t) = repeat dot2 m ++ l /\ Forall normal l /\ (filepath_IsAbs t = true -> m = 0%nat).

Lemma clean_kept rooted names st : foldl (clean_step rooted) st names = foldl (clean_step rooted) st (kept names).
Proof.
  revert st. induction names as [|n names IH]; intros st; [done|]. cbn [foldl]. rewrite IH. cbn. unfold clean_step at 2.
  fold (skipped n). destruct (skipped n) eqn:E; cbn [negb]; [done|]. cbn [foldl]. f_equal. unfold clean_step. fold (skipped n). by rewrite E.
Qed.

Lemma clean_ups n m : foldl (clean_step false) (repeat dot2 n) (repeat dot2 m) = repeat dot2 (m + n).
Proof.
  revert n. induction m as [|m IH]; intros n; [done|]. cbn [repeat foldl].
  assert (clean_step false (repeat dot2 n) dot2 = repeat dot2 (S n)) as -> by by destruct n.
  rewrite IH. f_equal. lia.
Qed.

Lemma normal_kept l : Forall normal l -> kept l = l.
Proof.
  induction 1 as [|w l (H1 & H2 & _) _ IH]; [done|]. cbn. unfold skipped at 1. rewrite !bool_decide_false by done. cbn. f_equal. exact IH.
Qed.
Lemma ups_kept m l : kept (repeat dot2 m ++ l) = repeat dot2 m ++ kept l.
Proof. rewrite kept_app. f_equal. induction m as [|m IH]; [done|]. cbn. f_equal. exact IH. Qed.

Lemma kept_split_join l : Forall (fun w => slash ∉ w) l -> kept (split_byte slash (join [slash] l)) = kept l.
Proof. intros H. destruct l as [|w l]; [done|]. by rewrite split_byte_join. Qed.

Lemma plain_clean t : plain_target t ->
  filepath_IsAbs (path_Clean t) = filepath_IsAbs t /\ kept (split_byte slash (path_Clean t)) = kept (split_byte slash t).
Proof.
  intros (m & l & E & Hl & Hm). unfold path_Clean. case_bool_decide as H0; [by subst t|].
  rewrite clean_kept, E, foldl_app. unfold filepath_IsAbs in *. destruct (has_prefix t [slash]) eqn:Er.
  - rewrite (Hm eq_refl). cbn [repeat foldl app]. rewrite clean_normal, app_nil_r, rev_involutive by done.
    split; [apply has_prefix_true; by eexists|]. cbn [split_byte]. rewrite Ascii.eqb_refl. cbn.
    rewrite kept_split_join by (by apply normal_no_slash). by apply normal_kept.
  - change (@nil gostr) with (repeat dot2 0). rewrite clean_ups, Nat.add_0_r, clean_normal by done.
    rewrite rev_app_distr, rev_involutive, rev_repeat.
    assert (Forall (fun w => slash ∉ w) (repeat dot2 m ++ l)) as Hs.
    { apply Forall_app. split; [|by apply normal_no_slash]. clear. induction m as [|m IH]; constructor; [|done].
      apply not_elem_of_cons. split; [done|]. apply not_elem_of_cons. split; [done|]. apply not_elem_of_nil. }
    assert (kept (repeat dot2 m ++ l) = repeat dot2 m ++ l) as Hk by (rewrite ups_kept, normal_kept; done).
    case_bool_decide as Hn.
    + split; [done|]. rewrite <- Hk. by rewrite <- (kept_split_join _ Hs), Hn.
    + split; [|by rewrite kept_split_join].
      destruct m as [|m]; [by apply join_head|]. cbn [repeat app]. by destruct (repeat dot2 m ++ l).
Qed.

(** Links that stand where the user cannot write have such targets. *)
Definition admin_plain (s : fsys) : Prop :=
  forall d p es a n i t, s !! d = Some (NDir p es a) -> user_writes a = false -> es !! n = Some i ->
    s !! i = Some (NLink t) -> plain_target t.

Lemma admin_plain_moves s s' : well_formed s -> moves s s' -> admin_plain s -> admin_plain s'.
Proof.
  intros [_ Hw] [_ Hm] Hp d p es a n i t Hd Ha Hn Hi. pose proof (Hm d) as H. destruct (s !! d) as [[p1 es1 a1|t1|k m c]|] eqn:E.
  - destruct H as (p2 & es2 & a2 & E2 & Ho & _ & Hs). rewrite Hd in E2. injection E2 as <- <- <-. rewrite Ha in Ho.
    destruct (Hs (eq_sym Ho)) as (-> & -> & ->). pose proof (Hw _ _ _ _ _ _ E Hn) as X. pose proof (Hm i) as Y.
    destruct (s !! i) as [[p3 es3 a3|t3|k m c]|] eqn:Ei; try done.
    + destruct Y as (? & ? & ? & Y & _). congruence.
    + rewrite Hi in Y. injection Y as ->. by eapply Hp.
    + destruct Y as (? & ? & Y). congruence.
  - congruence.
  - destruct H as (? & ? & H). congruence.
  - rewrite Hd in H. congruence.
Qed.

Lemma admin_plain_evolves s s' : evolves s s' -> well_formed s -> admin_plain s -> admin_plain s'.
Proof. induction 1 as [|s s1 s2 Hm _ IH]; [done|]. intros Hw Hp. apply IH; [by destruct Hm|]. by eapply admin_plain_moves. Qed.

(** ** What a call sees *)

Variable b : beside.
Hypothesis guest_moves : forall n s, well_formed s -> moves s (guest b n s).

(** One world after another: the calls between them. *)
Definition later (w w' : world) : Prop :=
  evolves (w_fs w) (w_fs w') /\ w_past w ⊆ w_past w' /\ well_formed (w_fs w').

Lemma later_refl w : well_formed (w_fs w) -> later w w.
Proof. intros H. split; [apply rtc_refl|]. split; [done|done]. Qed.

Lemma later_trans w1 w2 w3 : later w1 w2 -> later w2 w3 -> later w1 w3.
Proof. intros (H1 & H2 & _) (H3 & H4 & H5). split; [by etrans|]. split; [set_solver|done]. Qed.

Lemma query_spec {A : Type} (q : fsys -> res errno A) w r w' : query b q w = (r, w') -> well_formed (w_fs w) ->
  later w w' /\ w_fs w' ∈ w_past w' /\ (forall a, r = Ok a -> q (w_fs w') = Ok a).
Proof.
  unfold query, tick. intros [= <- <-] Hw. cbn. specialize (guest_moves (w_now w) _ Hw). pose proof guest_moves as [Hw' _].
  split; [split; [by apply rtc_once|]; split; [set_solver|done]|]. split; [set_solver|].
  intros a. by destruct (fault b (w_now w)).
Qed.

Lemma dirWritable_spec path info w x w' : dirWritableByUs b uid path info w = (x, w') -> well_formed (w_fs w) ->
  later w w' /\ exists acc, x = writableBy (match fi_node info with NDir _ _ a => Some a | _ => None end) uid acc /\
    forall r, acc = Ok r -> exists i p es a, kstat (w_fs w') path = Ok i /\ w_fs w' !! i = Some (NDir p es a) /\ da_access a = r.
Proof.
  unfold dirWritableByUs. destruct (access b path w) as [acc w1] eqn:E. intros [= <- <-] Hw.
  apply query_spec in E as (Hl & _ & Hq); [|done]. split; [done|]. exists acc. split; [done|]. intros r ->.
  specialize (Hq r eq_refl). apply res_bind_ok in Hq as (i & Hi & Hq). destruct (w_fs w1 !! i) as [[p es a|t|k m c]|] eqn:E2; try done.
  injection Hq as <-. by exists i, p, es, a.
Qed.

(** A directory on a firm way that was found not to be the user's to write is
    not. *)
Lemma not_ours_firm l d w1 info w2 w3 :
  well_formed (w_fs w1) -> firm (w_fs w1) l d -> os_Stat b (abs l) w1 = (Ok info, w2) ->
  dirWritableByUs b uid (abs l) info w2 = (false, w3) ->
  later w1 w3 /\ exists p es a, w_fs w3 !! d = Some (NDir p es a) /\ user_writes a = false.
Proof.
  intros Hw Hf Hs Hd. apply query_spec in Hs as (L1 & _ & Hq); [|done]. pose proof L1 as (E1 & _ & W2).
  specialize (Hq info eq_refl). apply res_bind_ok in Hq as (i & Hi & Hq).
  rewrite (kstat_firm _ l d) in Hi by (done || by eapply firm_evolves). injection Hi as <-.
  destruct (firm_dir _ _ _ W2 (firm_evolves _ _ _ _ E1 Hf)) as (p & es & a & Hnode).
  unfold info_of in Hq. rewrite Hnode in Hq. injection Hq as <-.
  apply dirWritable_spec in Hd as (L2 & acc & Hx & Hacc); [|done]. cbn [fi_node] in Hx. pose proof L2 as (E2 & _ & W3).
  split; [by eapply later_trans|].
  pose proof (evolves_is_dir _ _ _ _ _ _ E2 Hnode) as (p3 & es3 & a3 & H3).
  exists p3, es3, a3. split; [done|]. destruct (evolves_attr _ _ _ _ _ _ _ _ _ E2 Hnode H3) as [Ho Hu].
  unfold user_writes, writableBy in *. destruct (Z.eqb_spec uid 0) as [_|Hz]; [by rewrite Ho|]. rewrite (Hu Hz).
  destruct (da_uid a =? uid)%Z; [done|]. destruct acc as [r|e]; [|done].
  destruct (Hacc r eq_refl) as (i & p4 & es4 & a4 & Hi & H4 & <-).
  rewrite (kstat_firm _ l d) in Hi; [|done|by eapply firm_evolves; [exact (proj1 (later_trans _ _ _ (later_trans _ _ _ (later_refl _ Hw) L1) L2))|]].
  injection Hi as <-. rewrite H3 in H4. injection H4 as <- <- <-. by destruct (da_access a3).
Qed.

Lemma Clean_abs_kept p l : has_prefix p [slash] = true -> kept (split_byte slash p) = l -> Forall normal l -> path_Clean p = abs l.
Proof.
  intros Hp E Hl. unfold path_Clean. rewrite bool_decide_false, Hp by (by intros ->). rewrite clean_kept, E.
  by rewrite clean_normal, app_nil_r, rev_involutive.
Qed.

Lemma Dir_abs l : Forall normal l -> filepath_Dir (abs l) = abs (removelast l).
Proof.
  intros H. unfold filepath_Dir. destruct l as [|n l _] using rev_ind; [done|]. rewrite removelast_last.
  apply Forall_app in H as [Hl (Hn & _)%Forall_cons]. pose proof Hn as (_ & _ & _ & Hs). unfold abs at 1.
  destruct (decide (l = [])) as [->|Hne].
  - change (slash :: join [slash] ([] ++ [n])) with ([] ++ slash :: n). by rewrite cut_last_app.
  - rewrite join_app by done. change (slash :: join [slash] l ++ slash :: join [slash] [n]) with ((slash :: join [slash] l) ++ slash :: n).
    rewrite cut_last_app by done. fold (abs l). apply Clean_abs_kept; [|
      |done].
    + apply has_prefix_true. by exists (join [slash] l ++ [slash]).
    + change (abs l ++ [slash]) with (abs l ++ [slash] ++ []). rewrite split_byte_component by apply not_elem_of_nil.
      rewrite kept_app, split_abs by done. cbn [kept List.filter skipped]. rewrite app_nil_r.
      destruct l as [|x l]; [done|]. exact (normal_kept (x :: l) Hl).
Qed.

Lemma resolve_names_cons hops dir n rest w :
  resolve_names b uid hops dir (n :: rest) w =
    if skipped n then resolve_names b uid hops dir rest w
    else if bool_decide (n = dot2) then resolve_names b uid hops (filepath_Dir dir) rest w
    else
      match os_Stat b dir w with
      | (Err e, w) => (Err (Unread dir e), w)
      | (Ok info, w) =>
        match dirWritableByUs b uid dir info w with
        | (true, w) => (Ok None, w)
        | (false, w) =>
          let p := filepath_Join dir n in
          match os_Lstat b p w with
          | (Err ENOENT, w) => (Ok None, w)
          | (Err e, w) => (Err (Unread p e), w)
          | (Ok info, w) =>
            match fi_node info with
            | NLink _ =>
              match hops with
              | O => (Err (TooManyLinks p), w)
              | S hops' =>
                match os_Readlink b p w with
                | (Err e, w) => (Err (Unread p e), w)
                | (Ok target, w) =>
                  resolve_names b uid hops' (if filepath_IsAbs target then [slash] else dir)
                    (split_byte slash (path_Clean target) ++ rest) w
                end
              end
            | NDir _ _ _ => resolve_names b uid hops p rest w
            | NFile _ _ _ => (Err (PrefixNotDir p), w)
            end
          end
        end
      end.
Proof. by destruct hops. Qed.

(** The entry that is looked at under a directory that is not the user's. *)
Lemma firm_lstat l d p es a n w info w' :
  well_formed (w_fs w) -> firm (w_fs w) l d -> w_fs w !! d = Some (NDir p es a) -> user_writes a = false -> normal n ->
  os_Lstat b (abs (l ++ [n])) w = (Ok info, w') ->
  later w w' /\ exists i, es !! n = Some i /\ w_fs w' !! i = Some (fi_node info) /\ firm (w_fs w') l d /\
    w_fs w' !! d = Some (NDir p es a).
Proof.
  intros Hw Hf Hd Ha Hn H. apply query_spec in H as (L & _ & Hq); [|done]. pose proof L as (E & _ & W).
  specialize (Hq info eq_refl). apply res_bind_ok in Hq as (i & Hi & Hq).
  pose proof (evolves_dir _ _ _ _ _ _ E Hd Ha) as Hd'. pose proof (firm_evolves _ _ _ _ E Hf) as Hf'.
  apply (klstat_firm _ l d p es a) in Hi; try done. split; [done|]. exists i. split; [done|]. split; [|done].
  unfold info_of in Hq. destruct (w_fs w' !! i); [|done]. by injection Hq as <-.
Qed.

Lemma firm_readlink l d p es a n i t w target w' :
  well_formed (w_fs w) -> firm (w_fs w) l d -> w_fs w !! d = Some (NDir p es a) -> user_writes a = false -> normal n ->
  es !! n = Some i -> w_fs w !! i = Some (NLink t) ->
  os_Readlink b (abs (l ++ [n])) w = (Ok target, w') -> later w w' /\ target = t.
Proof.
  intros Hw Hf Hd Ha Hn Hi Ht H. apply query_spec in H as (L & _ & Hq); [|done]. pose proof L as (E & _ & W).
  specialize (Hq target eq_refl). apply res_bind_ok in Hq as (j & Hj & Hq).
  apply (klstat_firm _ l d p es a) in Hj; [|done|by eapply firm_evolves|by eapply evolves_dir|done].
  rewrite Hi in Hj. injection Hj as <-. rewrite (evolves_link _ _ _ _ E Ht) in Hq. split; [done|]. by injection Hq.
Qed.

Definition resolved (w' : world) (d : positive) (names : list gostr) (r : res walk_error (option gostr)) : Prop :=
  forall real, r = Ok (Some real) ->
    exists l' d', real = abs l' /\ firm (w_fs w') l' d' /\ forall s, evolves (w_fs w') s -> resolves s d names d'.

Lemma firm_fun s l d d' : well_formed s -> firm s l d -> firm s l d' -> d = d'.
Proof. intros Hw H H'. apply kstat_firm in H, H'; [|done..]. rewrite H in H'. by injection H'. Qed.

Lemma firm_goes_up s0 l d p es a s rest i : well_formed s0 -> firm s0 l d -> s0 !! d = Some (NDir p es a) -> evolves s0 s ->
  resolves s p rest i -> resolves s d (dot2 :: rest) i.
Proof.
  intros Hw Hf Hd E0 Hr. pose proof (firm_up _ _ _ _ _ _ Hw Hf Hd) as Hf2.
  destruct (evolves_is_dir _ _ _ _ _ _ E0 Hd) as (p2 & es2 & a2 & Hd2). pose proof (evolves_wf _ _ E0 Hw) as Ws.
  pose proof (firm_up _ _ _ _ _ _ Ws (firm_evolves _ _ _ _ E0 Hf) Hd2) as Hf3.
  rewrite (firm_fun s _ _ _ Ws Hf3 (firm_evolves _ _ _ _ E0 Hf2)) in Hd2. by eapply resolves_up.
Qed.

Lemma resolve_names_firm hops l d names w r w' :
  well_formed (w_fs w) -> admin_plain (w_fs w) -> firm (w_fs w) l d -> Forall (fun n => slash ∉ n) names ->
  resolve_names b uid hops (abs l) names w = (r, w') -> later w w' /\ resolved w' d names r.
Proof.
  revert l d names w. induction hops as [hops IHh] using lt_wf_ind. intros l d names. revert l d.
  induction names as [|n rest IHn]; intros l d w Hw Hp Hf Hs H.
  { destruct hops; injection H as <- <-; (split; [by apply later_refl|]); intros real [= <-]; exists l, d; do 2 (split; [done|]); constructor. }
  apply Forall_cons in Hs as [Hsn Hs]. rewrite resolve_names_cons in H. destruct (skipped n) eqn:Hk.
  { apply (IHn l d) in H as [L R]; try done. split; [done|]. intros real E. destruct (R real E) as (l' & d' & -> & F & Q).
    exists l', d'. do 2 (split; [done|]). intros s Es. apply resolves_skip; [by apply skipped_true|auto]. }
  assert (n <> [] /\ n <> dot1) as [H1 H2].
  { apply not_true_iff_false in Hk. rewrite skipped_true in Hk. tauto. }
  case_bool_decide as H3.
  { subst n. destruct (firm_dir _ _ _ Hw Hf) as (p & es & a & Hd). rewrite Dir_abs in H by by eapply firm_names.
    pose proof (firm_up _ _ _ _ _ _ Hw Hf Hd) as Hf2. apply (IHn (removelast l) p) in H as [L R]; try done. split; [done|].
    intros real E. destruct (R real E) as (l' & d' & -> & F & Q). exists l', d'. do 2 (split; [done|]). intros s Es.
    eapply firm_goes_up; [exact Hw|exact Hf|exact Hd|etrans; [apply L|done]|by apply Q]. }
  assert (normal n) as Hn by done.
  destruct (os_Stat b (abs l) w) as [[info|e] w1] eqn:Es.
  2: { injection H as <- <-. apply query_spec in Es as (L & _ & _); done. }
  destruct (dirWritableByUs b uid (abs l) info w1) as [[|] w2] eqn:Ew.
  { injection H as <- <-. apply query_spec in Es as (L1 & _ & _); [|done]. apply dirWritable_spec in Ew as (L2 & _); [|apply L1].
    split; [by eapply later_trans|done]. }
  destruct (not_ours_firm l d w info w1 w2 Hw Hf Es Ew) as (L2 & p & es & a & Hd & Ha). pose proof L2 as (E2 & _ & W2).
  pose proof (firm_evolves _ _ _ _ E2 Hf) as Hf2. pose proof (admin_plain_evolves _ _ E2 Hw Hp) as Hp2.
  rewrite (Join_abs l n (firm_names _ _ _ Hf) Hn : filepath_Join (abs l) n = abs (l ++ [n])) in H. cbv zeta in H.
  destruct (os_Lstat b (abs (l ++ [n])) w2) as [[info2|e] w3] eqn:El.
  2: { apply query_spec in El as (L3 & _ & _); [|done]. assert (later w w') as L.
       { destruct e; injection H as <- <-; by eapply later_trans. }
       split; [done|]. intros real Er. destruct e; injection H as <- <-; done. }
  apply (firm_lstat l d p es a n) in El as (L3 & i & Hi & Hnode & Hf3 & Hd3); try done. pose proof L3 as (E3 & _ & W3).
  pose proof (admin_plain_evolves _ _ E3 W2 Hp2) as Hp3. pose proof (later_trans _ _ _ L2 L3) as L03.
  destruct (fi_node info2) as [p' es' a'|t|k m c] eqn:Enode.
  - pose proof (firm_step _ _ _ _ _ _ _ _ _ _ _ Hf3 Hd3 Ha Hn Hi Hnode) as Hf4.
    apply (IHn (l ++ [n]) i) in H as [L R]; try done. split; [by eapply later_trans|]. intros real E.
    destruct (R real E) as (l' & d' & -> & F & Q). exists l', d'. do 2 (split; [done|]). intros s Es2.
    assert (evolves (w_fs w3) s) as E4 by (etrans; [apply L|done]).
    destruct (evolves_is_dir _ _ _ _ _ _ E4 Hnode) as (? & ? & ? & Hnode').
    eapply resolves_step; [done..|by eapply evolves_dir|done|by intros t; rewrite Hnode'|by apply Q].
  - destruct hops as [|hops]; [injection H as <- <-; by split|].
    destruct (os_Readlink b (abs (l ++ [n])) w3) as [[target|e] w4] eqn:Er.
    2: { injection H as <- <-. apply query_spec in Er as (L4 & _ & _); [|done]. split; [by eapply later_trans|done]. }
    apply (firm_readlink l d p es a n i t) in Er as [L4 ->]; try done. pose proof L4 as (E4 & _ & W4).
    pose proof (evolves_dir _ _ _ _ _ _ E4 Hd3 Ha) as Hd4. pose proof (evolves_link _ _ _ _ E4 Hnode) as Hn4.
    destruct (plain_clean t) as [_ Hk2]; [by eapply (Hp3 d); eauto|].
    assert (exists l2 d2, (if filepath_IsAbs t then [slash] else abs l) = abs l2 /\ firm (w_fs w4) l2 d2 /\
              d2 = (if filepath_IsAbs t then root_ino else d)) as (l2 & d2 & El2 & Hf4 & Ed2).
    { destruct (filepath_IsAbs t); [exists [], root_ino|exists l, d]; (split; [done|]); split; try done; [constructor|by eapply firm_evolves]. }
    rewrite El2 in H. apply (IHh hops) with (d := d2) in H as [L R]; [|lia|done|by eapply admin_plain_evolves|done|].
    2: { apply Forall_app. split; [apply split_byte_no_sep|done]. }
    split; [eapply later_trans; [exact L03|by eapply later_trans]|]. intros real E.
    destruct (R real E) as (l' & d' & -> & F & Q). exists l', d'. do 2 (split; [done|]). intros s Es2.
    assert (evolves (w_fs w4) s) as E5 by (etrans; [apply L|done]).
    eapply resolves_link; [done..|by eapply evolves_dir|exact Hi|by eapply evolves_link|]. rewrite <- Ed2.
    eapply resolves_kept; [by apply Q|]. by rewrite !kept_app, Hk2.
  - injection H as <- <-. by split.
Qed.

(** ** The components of a path *)

Definition try_rune (s : gostr) (n : nat) : option (Z * nat) :=
  let t := drop (length s - n) s in
  if bool_decide (n <= length s)%nat
  then let '(r, w) := decode_rune t in if bool_decide (w = n) then Some (r, n) else None
  else None.

Lemma try_slash s k n : (1 <= k)%nat -> try_rune s k = Some (bz slash, n) -> exists s', s = s' ++ [slash].
Proof.
  unfold try_rune. intros Hk H. case_bool_decide as Hl; [|done]. destruct (decode_rune _) as [r w] eqn:E. case_bool_decide as Hw; [|done].
  injection H as -> _. subst w. destruct (drop (length s - k) s) as [|c t] eqn:Ed; [done|]. destruct (is_ascii c) eqn:Ec.
  - rewrite decode_rune_ascii in E by done. injection E as E <-.
    assert (length (c :: t) = 1%nat) as Hlen by (rewrite <- Ed, length_drop; lia). destruct t; [|done].
    exists (take (length s - 1) s). rewrite <- (take_drop (length s - 1) s) at 1. rewrite Ed. f_equal. f_equal.
    unfold bz in E. apply N2Z.inj in E. apply (f_equal ascii_of_N) in E. by rewrite !ascii_N_embedding in E.
  - pose proof (decode_rune_not_ascii c t Ec) as L. rewrite E in L. by vm_compute in L.
Qed.

Lemma last_rune_slash s n : last_rune s = (bz slash, n) -> exists s', s = s' ++ [slash].
Proof.
  intros E. assert (s <> []) as Hs by (intros ->; vm_compute in E; discriminate).
  assert (match try_rune s 4, try_rune s 3, try_rune s 2, try_rune s 1 with
          | Some x, _, _, _ => x
          | None, Some x, _, _ => x
          | None, None, Some x, _ => x
          | None, None, None, Some x => x
          | None, None, None, None => (rune_error, 1%nat)
          end = (bz slash, n)) as E2 by by destruct s.
  destruct (try_rune s 4) eqn:T4; [subst p; by apply try_slash in T4; [|lia]|].
  destruct (try_rune s 3) eqn:T3; [subst p; by apply try_slash in T3; [|lia]|].
  destruct (try_rune s 2) eqn:T2; [subst p; by apply try_slash in T2; [|lia]|].
  destruct (try_rune s 1) eqn:T1; [subst p; by apply try_slash in T1; [|lia]|]. vm_compute in E2. discriminate.
Qed.

Lemma trim_slash s : (forall s', s <> s' ++ [slash]) -> trim_right (fun r => bool_decide (r = bz slash)) s = s.
Proof.
  intros H. unfold trim_right. destruct s as [|c s]; [done|]. cbn [length trim_right_fuel]. destruct (last_rune (c :: s)) as [r n] eqn:E.
  case_bool_decide as Hr; [|done]. subst r. apply last_rune_slash in E as [s' E]. by apply H in E.
Qed.

Lemma Base_abs l n : Forall normal l -> normal n -> filepath_Base (abs (l ++ [n])) = n.
Proof.
  intros Hl Hn. pose proof Hn as (Hne & _ & _ & Hs).
  assert (exists a, abs (l ++ [n]) = a ++ slash :: n) as [a E].
  { unfold abs. destruct (decide (l = [])) as [->|Hl2]; [by exists []|]. exists (abs l). by rewrite join_app. }
  unfold filepath_Base. rewrite bool_decide_false by done. rewrite E, trim_slash.
  - rewrite cut_last_app by done. by rewrite bool_decide_false.
  - intros s' E'. destruct n as [|c n _] using rev_ind; [done|]. change (slash :: n ++ [c]) with ((slash :: n) ++ [c]) in E'.
    rewrite app_assoc in E'. apply app_inj_tail in E' as [_ ->]. apply Hs, elem_of_app. right. constructor.
Qed.

Lemma abs_inj l m : Forall normal l -> Forall normal m -> abs l = abs m -> l = m.
Proof. intros Hl Hm E. apply path_words_abs in Hl, Hm. unfold abs in E. rewrite E in Hl. congruence. Qed.

Lemma abs_length l : Forall normal l -> (length l <= length (abs l))%nat.
Proof.
  intros H. unfold abs. cbn [length]. enough (length l <= S (length (join [slash] l)))%nat by lia.
  induction H as [|w l (Hw & _) _ IH]; [cbn; lia|]. destruct l as [|v l]; [cbn; lia|].
  change (join [slash] (w :: v :: l)) with (w ++ [slash] ++ join [slash] (v :: l)). rewrite !length_app. cbn [length] in *.
  destruct w; [done|]. cbn [length]. lia.
Qed.

Lemma ancestors_abs l fuel : Forall normal l -> (length l <= fuel)%nat ->
  ancestors fuel (abs l) = (fun j => abs (take j l)) <$> seq 0 (S (length l)).
Proof.
  revert fuel. induction l as [|n l IH] using rev_ind; intros fuel Hl Hf.
  - by destruct fuel.
  - rewrite length_app in *. cbn [length] in *. destruct fuel as [|fuel]; [lia|]. cbn [ancestors].
    rewrite Dir_abs, removelast_last by done. rewrite bool_decide_false.
    2: { intros E. apply Forall_app in Hl as Hl'. apply abs_inj in E; [|by apply Hl'|done].
         apply (f_equal length) in E. rewrite length_app in E. cbn in E. lia. }
    apply Forall_app in Hl as [Hl _]. rewrite IH by (done || lia). rewrite Nat.add_1_r, (seq_S (S (length l))), fmap_app. f_equal.
    + apply list_fmap_ext. intros i x Hx. apply lookup_seq in Hx as [-> Hx]. rewrite take_app_le by lia. done.
    + cbn. by rewrite (take_ge (l ++ [n])) by (rewrite length_app; cbn; lia).
Qed.

Lemma pathComponents_abs l : Forall normal l -> pathComponents (abs l) = (fun j => abs (take j l)) <$> seq 0 (S (length l)).
Proof.
  intros H. unfold pathComponents. assert (path_Clean (abs l) = abs l) as -> by (apply Clean_abs; by exists l).
  apply ancestors_abs; [done|by apply abs_length].
Qed.

(** ** The trusted prefix *)

Lemma resolves_app s d xs e : resolves s d xs e -> forall ys i, resolves s e ys i -> resolves s d (xs ++ ys) i.
Proof.
  induction 1 as [d|d n rest i Hn _ IH|d p es a rest i Hd _ IH|d p es a n rest j t i H1 H2 H3 Hd Hj Ht _ IH
                 |d p es a n rest j i H1 H2 H3 Hd Hj Ht _ IH]; intros ys k Hk; [done| | | |].
  - apply resolves_skip; [done|by apply IH].
  - eapply resolves_up; [done|by apply IH].
  - eapply resolves_link; [done..|]. rewrite app_assoc. by apply IH.
  - eapply resolves_step; [done..|by apply IH].
Qed.

Definition prefixes (ws : list gostr) (i m : nat) : list gostr := (fun j => abs (take j ws)) <$> seq i m.

Lemma take_one_more (ws : list gostr) i n : ws !! i = Some n -> take (S i) ws = take i ws ++ [n].
Proof. apply take_S_r. Qed.

Lemma prefix_base ws i n : Forall normal ws -> ws !! i = Some n -> filepath_Base (abs (take (S i) ws)) = n.
Proof.
  intros Hw Hi. rewrite (take_one_more _ _ _ Hi). apply Base_abs; [by apply Forall_take|]. by eapply Forall_lookup_1.
Qed.

(** The directory that a sequence of names leads to now and for good. *)
Definition settled (s : fsys) (names : list gostr) (d : positive) : Prop :=
  forall s', evolves s s' -> resolves s' root_ino names d.

Lemma settled_later w w' names d : later w w' -> settled (w_fs w) names d -> settled (w_fs w') names d.
Proof. intros (E & _) H s' Hs. apply H. by etrans. Qed.

Lemma trusted_loop_firm ws m : Forall normal ws -> forall i l d w r w', (i + m <= length ws)%nat ->
  well_formed (w_fs w) -> admin_plain (w_fs w) -> firm (w_fs w) l d -> settled (w_fs w) (take i ws) d ->
  trusted_loop b uid (S i) i (abs l) (prefixes ws (S i) m) w = (r, w') ->
  later w w' /\ forall k, r = Ok k -> (i <= k <= i + m)%nat /\ (uid = 0%Z -> k <= Nat.max 1 i)%nat /\ exists d', settled (w_fs w') (take k ws) d'.
Proof.
  intros Hws. induction m as [|m IH]; intros i l d w r w' Him Hw Hp Hf Hset H.
  { injection H as <- <-. split; [by apply later_refl|]. intros k [= <-]. split; [lia|]. split; [lia|by exists d]. }
  cbn [prefixes seq fmap list_fmap trusted_loop] in H. fold (prefixes ws (S (S i)) m) in H.
  destruct ((1 <? S i)%nat && (uid =? 0)%Z) eqn:Root.
  { injection H as <- <-. split; [by apply later_refl|]. intros k [= <-]. split; [lia|]. split; [lia|by exists d]. }
  destruct (lookup_lt_is_Some_2 ws i) as [n Hn]; [lia|]. pose proof (Forall_lookup_1 _ _ _ _ Hws Hn) as Nn.
  rewrite (prefix_base _ _ _ Hws Hn) in H. unfold resolveTrusted in H.
  destruct (resolve_names b uid max_links (abs l) [n] w) as [[[real|]|e] w1] eqn:E.
  - apply (resolve_names_firm _ l d) in E as [L R]; [|done..|constructor; [apply Nn|constructor]].
    destruct (R real eq_refl) as (l' & d' & -> & F & Q). pose proof L as (L1 & _ & W1).
    apply (IH (S i) l' d') in H as [L2 K]; [|lia|done|by eapply admin_plain_evolves|done|].
    2: { intros s Es. rewrite (take_one_more _ _ _ Hn). eapply resolves_app; [|by apply Q]. apply Hset. by etrans. }
    split; [by eapply later_trans|]. intros k Hk. destruct (K k Hk) as (Hb & H0 & Hd). split; [lia|]. split; [|done].
    intros Hu. specialize (H0 Hu). rewrite Hu, andb_true_r in Root. apply Nat.ltb_ge in Root. lia.
  - injection H as <- <-. apply (resolve_names_firm _ l d) in E as [L _]; [|done..|constructor; [apply Nn|constructor]].
    split; [done|]. intros k [= <-]. split; [lia|]. split; [lia|]. exists d. by eapply settled_later.
  - injection H as <- <-. apply (resolve_names_firm _ l d) in E as [L _]; [by split|done..|constructor; [apply Nn|constructor]].
Qed.

Lemma prefixes_all ws : Forall normal ws -> pathComponents (abs ws) = abs [] :: prefixes ws 1 (length ws).
Proof. intros H. by rewrite pathComponents_abs. Qed.

Lemma removelast_prefixes ws m : removelast (prefixes ws 1 (S m)) = prefixes ws 1 m.
Proof. unfold prefixes. rewrite seq_S, fmap_app. apply removelast_last. Qed.

Lemma trustedPrefix_settled ws w r w' : Forall normal ws -> well_formed (w_fs w) -> admin_plain (w_fs w) ->
  trustedPrefix b uid (pathComponents (abs ws)) w = (r, w') ->
  later w w' /\ forall k, r = Ok k -> (k <= pred (length ws))%nat /\ (uid = 0%Z -> k <= 1)%nat /\ exists d, settled (w_fs w') (take k ws) d.
Proof.
  intros Hws Hw Hp H. unfold trustedPrefix in H. rewrite prefixes_all in H by done. cbn [head default tail] in H.
  assert (removelast (prefixes ws 1 (length ws)) = prefixes ws 1 (pred (length ws))) as Er.
  { destruct (length ws) as [|m]; [done|apply removelast_prefixes]. }
  rewrite Er in H. eapply (trusted_loop_firm ws _ Hws 0 [] root_ino) in H as [L K]; [|lia|done|done|constructor|intros s _; constructor].
  split; [done|]. intros k Hk. destruct (K k Hk) as (Hb & H0 & Hd). split; [lia|]. split; [exact H0|done].
Qed.

(** ** The descent *)

(** Each name was, when it was looked at, a directory in the one before. *)
Inductive descended (past : list fsys) : positive -> list gostr -> positive -> Prop :=
  | descended_nil d : descended past d [] d
  | descended_cons d n rest s p es a i p' es' a' j :
      s ∈ past -> s !! d = Some (NDir p es a) -> es !! n = Some i -> s !! i = Some (NDir p' es' a') ->
      descended past i rest j -> descended past d (n :: rest) j.

Lemma descended_mono past past' d names i : past ⊆ past' -> descended past d names i -> descended past' d names i.
Proof. intros H. induction 1; [constructor|]. eapply descended_cons; [by apply H|done..]. Qed.

Lemma root_Lstat_spec h name w info w' : root_Lstat b h name w = (Ok info, w') -> well_formed (w_fs w) ->
  later w w' /\ w_fs w' ∈ w_past w' /\ exists p es a, w_fs w' !! h = Some (NDir p es a) /\ es !! name = Some (fi_ino info) /\
    w_fs w' !! fi_ino info = Some (fi_node info).
Proof.
  intros H Hw. apply query_spec in H as (L & Hin & Hq); [|done]. do 2 (split; [done|]). specialize (Hq info eq_refl).
  apply res_bind_ok in Hq as (i & Hi & Hq). unfold dir_entry in Hi. destruct (w_fs w' !! h) as [[p es a|t|k m c]|] eqn:E; try done.
  exists p, es, a. split; [done|]. unfold info_of in Hq. destruct (w_fs w' !! i) as [nd|] eqn:E2; [|done]. injection Hq as <-.
  destruct (es !! name); [|done]. injection Hi as ->. done.
Qed.

Lemma root_Stat_spec h w info w' : root_Stat b h w = (Ok info, w') -> well_formed (w_fs w) ->
  later w w' /\ w_fs w' ∈ w_past w' /\ fi_ino info = h.
Proof.
  intros H Hw. apply query_spec in H as (L & Hin & Hq); [|done]. do 2 (split; [done|]). specialize (Hq info eq_refl).
  unfold info_of in Hq. destruct (w_fs w' !! h); [|done]. by injection Hq as <-.
Qed.

Lemma descend_looked links path tail names w root r w' :
  Forall2 (fun p n => filepath_Base p = n) tail names -> well_formed (w_fs w) ->
  descend b links path root tail w = (r, w') ->
  later w w' /\ forall d, r = Ok d -> descended (w_past w') root names d.
Proof.
  intros HT. revert w root. induction HT as [|p n tail names Hp _ IH]; intros w root Hw H; cbn [descend] in H.
  { injection H as <- <-. split; [by apply later_refl|]. intros d [= <-]. constructor. }
  rewrite Hp in H. destruct (root_Lstat b root n w) as [[info|e] w1] eqn:E1.
  2: { injection H as <- <-. apply query_spec in E1 as (L & _ & _); done. }
  apply root_Lstat_spec in E1 as (L1 & In1 & p0 & es & a & Hd & Hi & Hnode); [|done]. pose proof L1 as (_ & _ & W1).
  destruct (fi_node info) as [p' es' a'|t|k m c] eqn:En.
  - destruct (root_OpenDir b links root n w1) as [[opening|e] w2] eqn:E2.
    all: apply query_spec in E2 as (L2 & _ & _); [|done]; pose proof (later_trans _ _ _ L1 L2) as L12.
    2: by injection H as <- <-.
    destruct (rootFromFile b opening w2) as [[next|e] w3] eqn:E3.
    all: apply query_spec in E3 as (L3 & _ & _); [|apply L12]; pose proof (later_trans _ _ _ L12 L3) as L13.
    2: by injection H as <- <-.
    destruct (root_Stat b next w3) as [[opened|e] w4] eqn:E4.
    2: { injection H as <- <-. apply query_spec in E4 as (L4 & _ & _); [|apply L13]. split; [by eapply later_trans|done]. }
    apply root_Stat_spec in E4 as (L4 & _ & Hino); [|apply L13]. pose proof (later_trans _ _ _ L13 L4) as L14.
    unfold SameFile in H. case_bool_decide as Hs; [|by injection H as <- <-]. rewrite Hino in Hs. rewrite <- Hs in *.
    apply IH in H as [L K]; [|apply L14]. split; [by eapply later_trans|]. intros d Hr.
    eapply descended_cons; [|done..|by apply K]. apply L. apply L4. apply L3. apply L2. done.
  - destruct (root_Readlink b root n w1) as [tg w2] eqn:E2. injection H as <- <-.
    apply query_spec in E2 as (L2 & _ & _); [|done]. split; [by eapply later_trans|done].
  - injection H as <- <-. by split.
Qed.

Lemma prefixes_bases ws k : Forall normal ws ->
  Forall2 (fun p n => filepath_Base p = n) (drop k (prefixes ws 1 (length ws))) (drop k ws).
Proof.
  intros H. apply Forall2_drop. apply Forall2_same_length_lookup. unfold prefixes. split; [by rewrite length_fmap, length_seq|].
  intros i p n Hp Hn. rewrite list_lookup_fmap in Hp. apply fmap_Some in Hp as (j & Hj & ->). apply lookup_seq in Hj as [-> Hj].
  by apply prefix_base.
Qed.

Lemma nth_prefixes ws k : (k <= length ws)%nat -> nth k (abs [] :: prefixes ws 1 (length ws)) [] = abs (take k ws).
Proof.
  intros Hk. destruct k as [|k]; [done|]. cbn [nth]. apply nth_lookup_Some. unfold prefixes. rewrite list_lookup_fmap.
  by rewrite lookup_seq_lt by lia.
Qed.

Lemma kept_abs l : Forall normal l -> kept (split_byte slash (abs l)) = kept l.
Proof. intros H. rewrite split_abs by done. by destruct l. Qed.

Lemma kstat_settled s l d i : Forall normal l -> settled s l d -> kstat s (abs l) = Ok i -> i = d.
Proof.
  intros Hl Hs Hk. apply kwalk_resolves in Hk. eapply resolves_kept in Hk; [|by apply kept_abs].
  eapply resolves_fun; [exact Hk|]. apply Hs. constructor.
Qed.

(** What it is for a descent to have ended on a directory: past a prefix that
    leads to one place for good, each name was a directory when it was looked
    at.  As root the prefix is at most an entry of the root directory. *)
Definition reached (w : world) (path : gostr) (h : positive) : Prop :=
  exists ws k d,
    Forall normal ws /\ path = abs ws /\ (ws <> [] -> k < length ws)%nat /\ (uid = 0%Z -> k <= 1)%nat /\
    settled (w_fs w) (take k ws) d /\ descended (w_past w) d (drop k ws) h /\ kstat (w_fs w) path = Ok h.

Definition absolute (cwd : option gostr) (path : gostr) : option gostr :=
  if filepath_IsAbs path then Some (path_Clean path) else (fun d => filepath_Join d path) <$> cwd.

Lemma absolute_words cwd path p : (forall d, cwd = Some d -> filepath_IsAbs d = true) -> absolute cwd path = Some p ->
  exists ws, Forall normal ws /\ p = abs ws.
Proof.
  intros Hc. unfold absolute. destruct (filepath_IsAbs path) eqn:E; [intros [= <-]; by apply Clean_rooted|].
  destruct cwd as [d|]; [|done]. intros [= <-]. specialize (Hc d eq_refl). unfold filepath_Join.
  rewrite (bool_decide_false (d = [])) by (by intros ->). cbn [andb]. unfold filepath_IsAbs in Hc. apply has_prefix_true in Hc as [r ->].
  case_bool_decide; apply Clean_rooted, has_prefix_true; by eexists.
Qed.

Lemma openPathHandle_later links cwd path w r w' :
  well_formed (w_fs w) -> admin_plain (w_fs w) -> (forall d, cwd = Some d -> filepath_IsAbs d = true) ->
  openPathHandle b uid links cwd path w = (r, w') ->
  later w w' /\ forall root ident, r = Ok (root, ident) ->
    fi_ino ident = root /\ exists p, absolute cwd path = Some p /\ reached w' p root.
Proof.
  intros Hw Hp Hc H. unfold openPathHandle in H. fold (absolute cwd path) in H. destruct (absolute cwd path) as [p|] eqn:Ea.
  2: { injection H as <- <-. split; [by apply later_refl|done]. }
  destruct (absolute_words _ _ _ Hc Ea) as (ws & Hws & ->).
  destruct (trustedPrefix b uid (pathComponents (abs ws)) w) as [[k|e] w1] eqn:E1.
  all: apply trustedPrefix_settled in E1 as [L1 K]; [|done..].
  2: by injection H as <- <-.
  destruct (K k eq_refl) as (Hk & H0 & d & Hset). rewrite prefixes_all, nth_prefixes in H by (done || lia).
  destruct (OpenRoot b (abs (take k ws)) w1) as [[root|e] w2] eqn:E2.
  all: apply query_spec in E2 as (L2 & _ & Q2); [|apply L1]; pose proof (later_trans _ _ _ L1 L2) as L12.
  2: by injection H as <- <-.
  assert (root = d) as ->.
  { specialize (Q2 root eq_refl). apply res_bind_ok in Q2 as (i & Hi & Q2).
    apply (kstat_settled _ _ d) in Hi as ->; [|by apply Forall_take|exact (settled_later _ _ _ _ L2 Hset)].
    destruct (w_fs w2 !! d) as [[]|]; try done. by injection Q2. }
  change (drop (S k) (abs [] :: prefixes ws 1 (length ws))) with (drop k (prefixes ws 1 (length ws))) in H.
  destruct (descend b links (abs ws) d (drop k (prefixes ws 1 (length ws))) w2) as [[h|e] w3] eqn:E3.
  all: eapply descend_looked in E3 as [L3 K3]; [|by apply prefixes_bases|apply L12]; pose proof (later_trans _ _ _ L12 L3) as L13.
  2: by injection H as <- <-.
  destruct (root_Stat b h w3) as [[ident|e] w4] eqn:E4.
  2: { injection H as <- <-. apply query_spec in E4 as (L4 & _ & _); [|apply L13]. split; [by eapply later_trans|done]. }
  apply root_Stat_spec in E4 as (L4 & _ & Hid); [|apply L13]. pose proof (later_trans _ _ _ L13 L4) as L14.
  destruct (os_Stat b (abs ws) w4) as [[byPath|e] w5] eqn:E5.
  all: apply query_spec in E5 as (L5 & _ & Q5); [|apply L14]; pose proof (later_trans _ _ _ L14 L5) as L15.
  2: by injection H as <- <-.
  unfold SameFile in H. case_bool_decide as Hs; injection H as <- <-; [|done]. split; [done|]. intros root ident' [= <- <-].
  split; [done|]. exists (abs ws). split; [done|]. exists ws, k, d. split; [done|]. split; [done|]. split.
  { intros Hne. destruct ws; [done|]. cbn [length] in *. lia. }
  split; [exact H0|].
  split; [eapply settled_later; [eapply later_trans; [exact L2|eapply later_trans; [exact L3|by eapply later_trans]]|done]|].
  split; [eapply descended_mono; [|by apply K3]; etrans; [apply L4|apply L5]|].
  specialize (Q5 byPath eq_refl). apply res_bind_ok in Q5 as (i & Hi & Q5). unfold info_of in Q5.
  destruct (w_fs w5 !! i); [|done]. injection Q5 as <-. cbn in Hs. by rewrite Hi, Hs, Hid.
Qed.

(** What a descent that returns has reached. *)
Theorem openPathHandle_reached links cwd path w root ident w' :
  well_formed (w_fs w) -> admin_plain (w_fs w) -> (forall d, cwd = Some d -> filepath_IsAbs d = true) ->
  openPathHandle b uid links cwd path w = (Ok (root, ident), w') ->
  fi_ino ident = root /\ exists p, absolute cwd path = Some p /\ reached w' p root.
Proof. intros Hw Hp Hc H. eapply openPathHandle_later in H as [_ K]; [|done..]. by apply K. Qed.
End Firm.

(** ** A descent with nothing beside it *)

Section Quiet.
Variable b : beside.
Variable uid : Z.
Hypothesis still : forall n s, guest b n s = s.
Hypothesis no_fault : forall n, fault b n = None.

(** A directory, and no link on the way to it. *)
Inductive real (s : fsys) : list gostr -> positive -> Prop :=
  | real_root : real s [] root_ino
  | real_step l d p es a n i p' es' a' :
      real s l d -> s !! d = Some (NDir p es a) -> normal n -> es !! n = Some i -> s !! i = Some (NDir p' es' a') ->
      real s (l ++ [n]) i.

Lemma real_names s l d : real s l d -> Forall normal l.
Proof. induction 1; [done|]. apply Forall_app. split; [done|]. by constructor. Qed.

Lemma real_dir s l d : well_formed s -> real s l d -> exists p es a, s !! d = Some (NDir p es a).
Proof. intros [(es & a & H) _]. destruct 1; eauto. Qed.

Lemma real_walk hops f s l d rest : real s l d -> kwalk hops f s root_ino (l ++ rest) = kwalk hops f s d rest.
Proof.
  intros H. revert rest. induction H as [|l d p es a n i p' es' a' _ IH Hd Hn Hi Hdir]; intros rest; [done|].
  rewrite <- app_assoc, IH. cbn [app]. by eapply kwalk_step.
Qed.

Lemma real_kwalk f s l d : well_formed s -> real s l d -> kwalk max_links f s root_ino (split_byte slash (abs l)) = Ok d.
Proof.
  intros Hw H. rewrite kwalk_abs by (done || by eapply real_names). rewrite <- (app_nil_r l), (real_walk _ _ _ _ _ _ H).
  by destruct max_links.
Qed.

Lemma quiet_query {A : Type} (q : fsys -> res errno A) w : exists w', query b q w = (q (w_fs w), w') /\ w_fs w' = w_fs w.
Proof. unfold query, tick. rewrite no_fault, still. by eexists. Qed.

(** Steps through a call of a world at rest. *)
Ltac calm :=
  match goal with
  | |- context [query b ?q ?w] =>
      let w' := fresh "w" in let E := fresh "E" in let F := fresh "F" in
      destruct (quiet_query q w) as (w' & E & F); rewrite E; clear E
  end.

(** A name that is a directory is passed, or ends the trust. *)
Lemma quiet_resolve l d p es a n i p' es' a' w :
  well_formed (w_fs w) -> real (w_fs w) l d -> w_fs w !! d = Some (NDir p es a) -> normal n -> es !! n = Some i ->
  w_fs w !! i = Some (NDir p' es' a') ->
  exists r w', resolveTrusted b uid (abs l) n w = (Ok r, w') /\ w_fs w' = w_fs w /\ (r = None \/ r = Some (abs (l ++ [n]))).
Proof.
  intros Hw Hr Hd Hn Hi Hdir. pose proof Hn as (H1 & H2 & H3 & _). unfold resolveTrusted. rewrite resolve_names_cons.
  unfold skipped. rewrite !bool_decide_false by done. cbn [orb]. unfold os_Stat. calm. unfold kstat.
  rewrite (real_kwalk true _ l d) by done. cbn [res_bind]. unfold info_of. rewrite Hd. unfold dirWritableByUs, access. calm.
  rewrite F. unfold kstat. rewrite (real_kwalk true _ l d) by done. cbn [res_bind]. rewrite Hd. cbn [fi_node].
  case_if; [exists None, w1; split; [done|]; split; [congruence|by left]|].
  rewrite (Join_abs l n (real_names _ _ _ Hr) Hn : filepath_Join (abs l) n = abs (l ++ [n])). cbv zeta.
  unfold os_Lstat. calm. rewrite F0, F. unfold klstat. rewrite (real_kwalk false _ (l ++ [n]) i) by (done || by eapply real_step).
  cbn [res_bind]. unfold info_of. rewrite Hdir. cbn [fi_node]. eexists _, w2. split; [reflexivity|]. split; [congruence|by right].
Qed.

Lemma real_prefix s ws d : real s ws d -> forall i n, ws !! i = Some n -> exists e p es a j p' es' a',
  real s (take i ws) e /\ s !! e = Some (NDir p es a) /\ es !! n = Some j /\ s !! j = Some (NDir p' es' a') /\ real s (take (S i) ws) j.
Proof.
  induction 1 as [|l d p es a m i p' es' a' Hr IH Hd Hn Hi Hdir]; intros k n Hk; [done|].
  apply lookup_app_Some in Hk as [Hk|[Hl Hk]].
  - apply lookup_lt_Some in Hk as Hlt. destruct (IH k n Hk) as (e & p1 & es1 & a1 & j & p2 & es2 & a2 & H).
    exists e, p1, es1, a1, j, p2, es2, a2. rewrite !take_app_le by lia. done.
  - apply list_lookup_singleton_Some in Hk as [Hz <-]. assert (k = length l) as -> by lia.
    exists d, p, es, a, i, p', es', a'. rewrite take_app_length. rewrite (take_ge (l ++ [m])) by (rewrite length_app; cbn; lia).
    do 4 (split; [done|]). by eapply real_step.
Qed.

Lemma quiet_trusted ws d m : forall i w, real (w_fs w) ws d -> well_formed (w_fs w) -> (i + m <= length ws)%nat ->
  exists k w', trusted_loop b uid (S i) i (abs (take i ws)) (prefixes ws (S i) m) w = (Ok k, w') /\ w_fs w' = w_fs w /\
    (i <= k <= i + m)%nat.
Proof.
  induction m as [|m IH]; intros i w Hr Hw Hi; [exists i, w; split; [done|]; split; [done|lia]|].
  cbn [prefixes seq fmap list_fmap trusted_loop]. fold (prefixes ws (S (S i)) m).
  case_if; [exists i, w; split; [done|]; split; [done|lia]|]. destruct (lookup_lt_is_Some_2 ws i) as [n Hn]; [lia|].
  pose proof (real_names _ _ _ Hr) as Hws. rewrite (prefix_base _ _ _ Hws Hn).
  destruct (real_prefix _ _ _ Hr _ _ Hn) as (e & p & es & a & j & p' & es' & a' & H1 & H2 & H3 & H4 & H5).
  destruct (quiet_resolve (take i ws) e p es a n j p' es' a' w) as (r & w1 & -> & F & [-> | ->]); try done.
  { by eapply Forall_lookup_1. }
  - exists i, w1. split; [done|]. split; [done|lia].
  - rewrite <- (take_one_more _ _ _ Hn). destruct (IH (S i) w1) as (k & w2 & E & F2 & Hk); [by rewrite F|by rewrite F|lia|].
    exists k, w2. split; [done|]. split; [congruence|lia].
Qed.

Lemma rwalk_name links s h p es a n i p' es' a' :
  s !! h = Some (NDir p es a) -> normal n -> es !! n = Some i -> s !! i = Some (NDir p' es' a') ->
  rwalk links true s h [] [n] = Ok (In h n (Some i)).
Proof.
  intros Hh (H1 & H2 & H3 & _) Hi Hdir. destruct links; cbn [rwalk]; rewrite Hh, !bool_decide_false by done; cbn [orb];
    by rewrite Hi, Hdir.
Qed.

Lemma quiet_descend links path ws d m : forall i w e, real (w_fs w) ws d -> real (w_fs w) (take i ws) e -> (i + m = length ws)%nat ->
  well_formed (w_fs w) ->
  exists w', descend b links path e (prefixes ws (S i) m) w = (Ok d, w') /\ w_fs w' = w_fs w.
Proof.
  induction m as [|m IH]; intros i w e Hr He Hi Hw.
  { exists w. rewrite take_ge in He by lia. apply (real_kwalk true) in He, Hr; [|done..]. rewrite Hr in He. by injection He as <-. }
  cbn [prefixes seq fmap list_fmap descend]. fold (prefixes ws (S (S i)) m).
  destruct (lookup_lt_is_Some_2 ws i) as [n Hn]; [lia|]. pose proof (real_names _ _ _ Hr) as Hws. rewrite (prefix_base _ _ _ Hws Hn).
  destruct (real_prefix _ _ _ Hr _ _ Hn) as (e' & p & es & a & j & p' & es' & a' & H1 & H2 & H3 & H4 & H5).
  assert (e' = e) as ->. { apply (real_kwalk true) in He, H1; [|done..]. rewrite H1 in He. by injection He. }
  pose proof (Forall_lookup_1 _ _ _ _ Hws Hn) as Nn.
  unfold root_Lstat. calm. unfold dir_entry. rewrite H2, H3. cbn [res_bind]. unfold info_of. rewrite H4. cbn [fi_node].
  unfold root_OpenDir. calm. rewrite F. rewrite (rwalk_name _ _ _ _ _ _ _ _ _ _ _ H2 Nn H3 H4). cbn [res_bind]. rewrite H4.
  unfold rootFromFile. calm. unfold root_Stat. calm. rewrite F1, F0, F. unfold info_of. rewrite H4. unfold SameFile. cbn [fi_ino].
  rewrite bool_decide_true by done. assert (w_fs w3 = w_fs w) as Ew by congruence.
  destruct (IH (S i) w3 j) as (w4 & E & F4); try (rewrite Ew); try done; [lia|]. exists w4. split; [done|congruence].
Qed.

(** With nothing beside it a descent over real directories ends on the last. *)
Theorem openPathHandle_quiet links cwd path ws d w :
  well_formed (w_fs w) -> real (w_fs w) ws d -> absolute cwd path = Some (abs ws) ->
  exists nd w', openPathHandle b uid links cwd path w = (Ok (d, MkFileInfo d nd), w') /\ w_fs w !! d = Some nd.
Proof.
  intros Hw Hr Ha. pose proof (real_names _ _ _ Hr) as Hws. unfold openPathHandle. fold (absolute cwd path). rewrite Ha.
  unfold trustedPrefix. rewrite prefixes_all by done.
  change (default [] (head (abs [] :: prefixes ws 1 (length ws)))) with (abs []). cbn [tail].
  assert (removelast (prefixes ws 1 (length ws)) = prefixes ws 1 (pred (length ws))) as ->.
  { destruct (length ws) as [|m]; [done|apply removelast_prefixes]. }
  destruct (quiet_trusted ws d (pred (length ws)) 0 w) as (k & w1 & E & F1 & Hk); [done|done|lia|]. change (take 0 ws) with (@nil gostr) in E. rewrite E.
  rewrite nth_prefixes by lia.
  assert (exists e, real (w_fs w) (take k ws) e) as [e He].
  { destruct (ws !! k) as [n|] eqn:Hn; [destruct (real_prefix _ _ _ Hr _ _ Hn) as (e & ? & ? & ? & ? & ? & ? & ? & H & _); by exists e|].
    apply lookup_ge_None in Hn. rewrite take_ge by done. by exists d. }
  destruct (real_dir _ _ _ Hw He) as (p1 & es1 & a1 & Hde). destruct (real_dir _ _ _ Hw Hr) as (p & es & a & Hd).
  unfold OpenRoot. calm. rewrite F1. unfold kstat. rewrite (real_kwalk true _ _ e) by done. cbn [res_bind]. rewrite Hde.
  change (drop (S k) (abs [] :: prefixes ws 1 (length ws))) with (drop k (prefixes ws 1 (length ws))).
  assert (drop k (prefixes ws 1 (length ws)) = prefixes ws (S k) (length ws - k)) as ->.
  { unfold prefixes. rewrite <- fmap_drop. f_equal. rewrite drop_seq. f_equal. }
  assert (w_fs w0 = w_fs w) as F0 by congruence.
  destruct (quiet_descend links (abs ws) ws d (length ws - k) k w0 e) as (w2 & E2 & F2); try (rewrite F0); try done; [lia|].
  rewrite E2. unfold root_Stat. calm. unfold info_of at 1. rewrite F2, F0, Hd. unfold os_Stat. calm. unfold kstat.
  assert (w_fs w3 = w_fs w) as F5 by congruence. rewrite F5, (real_kwalk true _ _ d) by done. cbn [res_bind]. unfold info_of.
  rewrite Hd. unfold SameFile. cbn [fi_ino]. rewrite bool_decide_true by done. by eexists _, _.
Qed.
End Quiet.

(** ** Examples *)

Definition quiet : beside := MkBeside (fun _ s => s) (fun _ => None).
Definition begin (s : fsys) : world := MkWorld 0 s [] [].

Definition roots : dir_attr := MkDirAttr 0 493 NoAccess.
Definition mine : dir_attr := MkDirAttr 1000 493 Granted.
Definition dir_of (parent : positive) (a : dir_attr) (es : list (gostr * positive)) : node := NDir parent (list_to_map es) a.

(** [/home] is root's, [/home/u] the user's. *)
Definition demo_fs : fsys := list_to_map
  [(1, dir_of 1 roots [(lit "home", 2)]); (2, dir_of 1 roots [(lit "u", 3)]);
   (3, dir_of 2 mine [(lit "w", 4); (lit "dot", 5)]); (4, dir_of 3 mine []); (5, NLink (lit "/home"))]%positive.

Lemma forallb_entries {K A : Type} `{Countable K} (f : K * A -> bool) (m : gmap K A) k a :
  forallb f (map_to_list m) = true -> m !! k = Some a -> f (k, a) = true.
Proof. intros H1 H2. rewrite forallb_forall in H1. apply H1, list_elem_of_In. by apply elem_of_map_to_list. Qed.

(** What is checked of a file system in one pass over it. *)
Definition wf_check (s : fsys) : bool :=
  match s !! root_ino with Some (NDir p _ _) => bool_decide (p = root_ino) | _ => false end &&
  forallb (fun '(d, nd) =>
    match nd with
    | NDir _ es _ => forallb (fun '(_, i) => match s !! i with Some (NDir p _ _) => bool_decide (p = d) | Some _ => true | None => false end)
                       (map_to_list es)
    | _ => true
    end) (map_to_list s).

Lemma wf_check_ok s : wf_check s = true -> well_formed s.
Proof.
  unfold wf_check. intros [H1 H2]%andb_true_iff. split.
  - destruct (s !! root_ino) as [[p es a|t|k m c]|]; try done. apply bool_decide_eq_true in H1 as ->. by exists es, a.
  - intros d p es a n i Hd Hi. apply (forallb_entries _ _ _ _ H2) in Hd. apply (forallb_entries _ _ _ _ Hd) in Hi.
    destruct (s !! i) as [[]|]; try done. by apply bool_decide_eq_true in Hi.
Qed.

Definition no_admin_links (uid : Z) (s : fsys) : bool :=
  forallb (fun '(_, nd) =>
    match nd with
    | NDir _ es a => user_writes uid a || forallb (fun '(_, i) => match s !! i with Some (NLink _) => false | _ => true end) (map_to_list es)
    | _ => true
    end) (map_to_list s).

Lemma no_admin_links_ok uid s : no_admin_links uid s = true -> admin_plain uid s.
Proof.
  unfold no_admin_links. intros H d p es a n i t Hd Ha Hi Ht. apply (forallb_entries _ _ _ _ H) in Hd. cbn beta iota in Hd.
  rewrite Ha in Hd. apply (forallb_entries _ _ _ _ Hd) in Hi. cbn beta iota in Hi. by rewrite Ht in Hi.
Qed.

Lemma moves_refl uid s : well_formed s -> moves uid s s.
Proof. intros H. split; [done|]. intros i. destruct (s !! i) as [[]|]; eauto 10. Qed.

Lemma demo_wf : well_formed demo_fs.
Proof. apply wf_check_ok. vm_compute. reflexivity. Qed.

Lemma openPathHandle_reached_witness :
  exists ident w', openPathHandle quiet 1000 40 None (lit "/home/u//w") (begin demo_fs) = (Ok (4%positive, ident), w') /\
    fi_ino ident = 4%positive /\ exists p, absolute None (lit "/home/u//w") = Some p /\ reached 1000 w' p 4%positive.
Proof.
  destruct (openPathHandle quiet 1000 40 None (lit "/home/u//w") (begin demo_fs)) as [r w'] eqn:E.
  assert (exists ident, r = Ok (4%positive, ident)) as [ident ->].
  { apply (f_equal fst) in E. cbn [fst] in E. rewrite <- E. eexists. vm_compute. reflexivity. }
  exists ident, w'. split; [done|].
  apply (openPathHandle_reached 1000 quiet) in E; [done|intros n s Hs; by apply moves_refl|apply demo_wf| |done].
  apply no_admin_links_ok. vm_compute. reflexivity.
Defined.

Lemma openPathHandle_quiet_witness :
  exists nd w', openPathHandle quiet 1000 40 None (lit "/home/u/w") (begin demo_fs) = (Ok (4%positive, MkFileInfo 4 nd), w') /\
    demo_fs !! 4%positive = Some nd.
Proof.
  apply (openPathHandle_quiet quiet 1000 (fun _ _ => eq_refl) (fun _ => eq_refl) 40 None (lit "/home/u/w")
           [lit "home"; lit "u"; lit "w"] 4 (begin demo_fs) demo_wf); [|reflexivity].
  assert (forall n, n ∈ [lit "home"; lit "u"; lit "w"] -> normal n) as Hn.
  { intros n. rewrite !elem_of_cons, elem_of_nil. intros [-> | [-> | [-> | []]]]; repeat split; try done; by vm_compute; set_solver. }
  eapply (real_step _ [lit "home"; lit "u"] 3); [|by vm_compute|by apply Hn; set_solver|by vm_compute|by vm_compute].
  eapply (real_step _ [lit "home"] 2); [|by vm_compute|by apply Hn; set_solver|by vm_compute|by vm_compute].
  eapply (real_step _ [] 1); [constructor|by vm_compute|by apply Hn; set_solver|by vm_compute|by vm_compute].
Defined.

(** The guest puts a link where the directory was, before each of the calls
    there are: the handle is the directory that was checked, or there is none. *)
Definition swapped_fs : fsys := <[3%positive := dir_of 2 mine [(lit "w", 5); (lit "dot", 4)]%positive]> demo_fs.
Definition swap_at (k : nat) : beside := MkBeside (fun n s => if (n =? k)%nat then swapped_fs else s) (fun _ => None).
Definition flip_at (k : nat) : beside :=
  MkBeside (fun n s => if (n =? k)%nat then swapped_fs else if (n =? S k)%nat then demo_fs else s) (fun _ => None).
Definition outcome (b : beside) : res walk_error positive :=
  match openPathHandle b 1000 40 None (lit "/home/u/w") (begin demo_fs) with
  | (Ok (h, _), _) => Ok h
  | (Err e, _) => Err e
  end.


Example swaps_refused :
  forallb (fun k => forallb (fun b => match outcome b with Ok h => bool_decide (h = 4%positive) | Err e => is_planted e end)
                      [swap_at k; flip_at k]) (seq 0 20) = true.
Proof. vm_compute. reflexivity. Qed.

(** ** A link that [filepath.Clean] reads as another

    [/data] is an administrator's link to "x/../srv", and [/x] one to a
    directory of the user.  The kernel goes through the parent of that
    directory, which is the user's; the check of the prefix goes to [/srv]. *)
Definition spelled_fs : fsys := list_to_map
  [(1, dir_of 1 roots [(lit "home", 2); (lit "data", 5); (lit "x", 6); (lit "srv", 7); (lit "etc", 11)]);
   (2, dir_of 1 roots [(lit "u", 3)]);
   (3, dir_of 2 mine [(lit "p", 4); (lit "srv", 9)]); (4, dir_of 3 mine []);
   (5, NLink (lit "x/../srv")); (6, NLink (lit "/home/u/p")); (7, dir_of 1 roots []);
   (9, NLink (lit "/etc")); (11, dir_of 1 roots [(lit "proj", 12)]); (12, dir_of 11 roots [])]%positive.

(** The prefix is trusted to the end of [/data], and the handle is the
    directory behind the link that the guest has put at [/home/u/srv]: a target
    with ".." after a name is not checked as the kernel walks it. *)
Lemma trustedPrefix_spelling :
  well_formed spelled_fs /\ ~ plain_target (lit "x/../srv") /\
  fst (trustedPrefix quiet 1000 (pathComponents (lit "/data/proj")) (begin spelled_fs)) = Ok 1%nat /\
  fst (resolveTrusted quiet 1000 (lit "/") (lit "data") (begin spelled_fs)) = Ok (Some (lit "/srv")) /\
  dir_entry spelled_fs 3 (lit "srv") = Ok 9%positive /\ user_writes 1000 mine = true /\ kstat spelled_fs (lit "/data") = Ok 11%positive /\
  exists ident, fst (openPathHandle quiet 1000 40 None (lit "/data/proj") (begin spelled_fs)) = Ok (12%positive, ident).
Proof.
  split; [apply wf_check_ok; vm_compute; reflexivity|]. split.
  { intros (m & l & E & Hl & _). vm_compute in E. destruct m as [|m]; [|discriminate]. cbn [repeat app] in E. subst l.
    apply Forall_cons in Hl as [_ [(_ & _ & H & _) _]%Forall_cons]. by apply H. }
  do 5 (split; [vm_compute; reflexivity|]). eexists. vm_compute. reflexivity.
Qed.

(** ** The workspace and the hand-over *)

Section Workspace.
Variable b : beside.
Variable uid : Z.
Hypothesis guest_moves : forall n s, well_formed s -> moves uid s (guest b n s).

(** [verifyStillOurs]: the path names the directory that is held. *)
Lemma verifyStillOurs_now r w w' : well_formed (w_fs w) -> verifyStillOurs b r w = (Ok tt, w') ->
  kstat (w_fs w') (hd_dir r) = Ok (fi_ino (hd_ident r)).
Proof.
  intros Hw. unfold verifyStillOurs. destruct (os_Stat b (hd_dir r) w) as [[now|e] w1] eqn:E; [|done].
  unfold SameFile. case_bool_decide as Hs; [|done]. intros [= <-].
  apply (query_spec uid b guest_moves) in E as (_ & _ & Q); [|done]. specialize (Q now eq_refl).
  apply res_bind_ok in Q as (i & Hi & Q). unfold info_of in Q. destruct (w_fs w1 !! i); [|done]. injection Q as <-. by rewrite Hi, <- Hs.
Qed.

(** What the first walk finds at each component: nothing, or a directory. *)
Definition looked (past : list fsys) (p : gostr) : Prop :=
  exists s, s ∈ past /\ ((let? i := klstat s p in info_of s i) = Err ENOENT \/ exists i p' es a, klstat s p = Ok i /\ s !! i = Some (NDir p' es a)).

Lemma looked_mono past past' p : past ⊆ past' -> looked past p -> looked past' p.
Proof. intros H (s & Hs & K). exists s. split; [by apply H|done]. Qed.

Lemma lstat_look p w r w' : os_Lstat b p w = (r, w') -> well_formed (w_fs w) ->
  later uid w w' /\ ((r = Err ENOENT \/ exists info p' es a, r = Ok info /\ fi_node info = NDir p' es a) -> looked (w_past w') p).
Proof.
  intros H Hw. pose proof H as H0. apply (query_spec uid b guest_moves) in H0 as (L & Hin & Q); [|done]. split; [done|].
  intros K. exists (w_fs w'). split; [done|]. destruct K as [->|(info & p' & es & a & -> & En)].
  - left. unfold os_Lstat, query in H. destruct (fault b (w_now w)); [by injection H|].
    by injection H as H <-.
  - right. specialize (Q info eq_refl). apply res_bind_ok in Q as (i & Hi & Q). unfold info_of in Q.
    destruct (w_fs w' !! i) as [nd|] eqn:E; [|done]. injection Q as <-. cbn in En. subst nd. eauto 10.
Qed.

Lemma check_below_looked ws comps w r w' : check_below b ws comps w = (r, w') -> well_formed (w_fs w) ->
  later uid w w' /\ (r = Ok tt -> Forall (looked (w_past w')) comps).
Proof.
  revert w r w'. induction comps as [|p comps IH]; intros w r w' H Hw; cbn [check_below] in H.
  { injection H as <- <-. split; [by apply later_refl|constructor]. }
  destruct (os_Lstat b p w) as [x w1] eqn:E. pose proof (lstat_look _ _ _ _ E Hw) as [L K].
  assert (forall r1 w2, check_below b ws comps w1 = (r1, w2) -> looked (w_past w1) p ->
            later uid w w2 /\ (r1 = Ok tt -> Forall (looked (w_past w2)) (p :: comps))) as Next.
  { intros r1 w2 H2 Hp. apply IH in H2 as [L2 F]; [|apply L]. split; [by eapply later_trans|]. intros Hr.
    constructor; [eapply looked_mono; [apply L2|done]|auto]. }
  destruct x as [info|e].
  - destruct (fi_node info) as [p' es a|t|k m c] eqn:En.
    + apply Next in H; [done|]. apply K. right. by exists info, p', es, a.
    + destruct (os_Readlink b p w1) as [tg w2] eqn:E2. injection H as <- <-.
      apply (query_spec uid b guest_moves) in E2 as (L2 & _ & _); [|apply L]. split; [by eapply later_trans|done].
    + injection H as <- <-. by split.
  - destruct e; try (injection H as <- <-; by split). apply Next in H; [done|]. apply K. by left.
Qed.

(** A workspace that was opened was looked at before anything was made, down
    from a prefix that leads to one place for good, and then descended to. *)
Definition looked_before (w : world) (ws : list gostr) : Prop :=
  exists k d, (uid = 0%Z -> k <= 1)%nat /\ settled uid (w_fs w) (take k ws) d /\
    forall j, (k < j <= length ws)%nat -> looked (w_past w) (abs (take j ws)).

Lemma checkWorkspace_looked ws w r w' : Forall normal ws -> well_formed (w_fs w) -> admin_plain uid (w_fs w) ->
  checkWorkspacePathBeforeCreate b uid (abs ws) w = (r, w') -> later uid w w' /\ (r = Ok tt -> looked_before w' ws).
Proof.
  intros Hws Hw Hp H. unfold checkWorkspacePathBeforeCreate in H.
  destruct (trustedPrefix b uid (pathComponents (abs ws)) w) as [[k|e] w1] eqn:E1.
  all: apply (trustedPrefix_settled uid b guest_moves) in E1 as [L1 K]; [|done..].
  2: by injection H as <- <-.
  destruct (K k eq_refl) as (Hk & H0 & d & Hset). rewrite prefixes_all in H by done.
  change (drop (S k) (abs [] :: prefixes ws 1 (length ws))) with (drop k (prefixes ws 1 (length ws))) in H.
  apply check_below_looked in H as [L2 F]; [|apply L1]. split; [by eapply later_trans|]. intros Hr. exists k, d.
  split; [exact H0|]. split; [by eapply settled_later|]. intros j Hj. specialize (F Hr). rewrite Forall_forall in F. apply F.
  apply list_elem_of_lookup. exists (j - S k)%nat. rewrite lookup_drop. unfold prefixes. rewrite list_lookup_fmap.
  rewrite lookup_seq_lt by lia. cbn. do 3 f_equal. lia.
Qed.


End Workspace.

