(* ===== verification/RootFiles.v ===== *)
(** * The files of a workspace (internal/wrap/rootio.go)

    How brig reads and writes the files under the directory that it holds, and
    what the guest can make it change. *)

From stdpp Require Import prelude list strings gmap.
From Stdlib Require Import ZArith Lia ZifyNat Ascii.
From S2P Require Import Prelude GoUnicode GoStrings GoPath GoClean Volumes ProfileReg RunHome FileSys RootIO.

(** ** The files of the workspace *)

Inductive rooted_error : Set :=
  | Io (e : errno)
  | PlantedLink (op rel link target : gostr)
  | NotRegular (rel described : gostr)
  | LinkRefused (op rel : gostr).

Section Files.
Variable b : beside.
Variable root_links : nat.
(** The umask, and the directory that is held. *)
Variable umask : Z.
Variable h : positive.

Definition walk_from (follow : bool) (s : fsys) (rel : gostr) : res errno place :=
  rwalk root_links follow s h [] (split_byte slash rel).

Definition found (p : place) : res errno positive :=
  match p with Here d => Ok d | In _ _ (Some i) => Ok i | In _ _ None => Err ENOENT end.

(** [root.Lstat] and [root.Readlink] of a path. *)
Definition Lstat (rel : gostr) : world -> res errno FileInfo * world :=
  query b (fun s => let? p := walk_from false s rel in let? i := found p in info_of s i).
Definition Readlink (rel : gostr) : world -> res errno gostr * world :=
  query b (fun s => let? p := walk_from false s rel in let? i := found p in
                    match s !! i with Some (NLink t) => Ok t | _ => Err ENOENT end).

(** [os.O_RDONLY] and [os.O_WRONLY|os.O_TRUNC] on what is there, with
    [syscall.O_NONBLOCK]: the file is emptied as it is opened. *)
Inductive open_flag : Set := RDONLY | WRONLY_TRUNC.

Definition OpenExisting (rel : gostr) (flag : open_flag) : world -> res errno positive * world :=
  act b (fun s => let? p := walk_from true s rel in let? i := found p in
    match s !! i, flag with
    | None, _ => Err ENOENT
    | Some (NDir _ _ _), WRONLY_TRUNC => Err EISDIR
    | Some (NFile Regular m _), WRONLY_TRUNC => Ok (i, <[i := NFile Regular m []]> s)
    | Some _, _ => Ok (i, s)
    end).

(** [os.O_WRONLY|os.O_CREATE|os.O_EXCL]: a new file, where there is nothing,
    not even a link. *)
Definition CreateNew (rel : gostr) (mode : Z) : world -> res errno positive * world :=
  act b (fun s => let? p := walk_from false s rel in
    match p with
    | In d n None =>
      match s !! d with
      | Some (NDir up es a) =>
        let i := fresh (dom s) in
        Ok (i, <[i := NFile Regular (Z.land mode (Z.lnot umask)) []]> (<[d := NDir up (<[n := i]> es) a]> s))
      | _ => Err ENOTDIR
      end
    | _ => Err EEXIST
    end).

(** The calls on an open file. *)
Definition Fstat (f : positive) : world -> res errno FileInfo * world := query b (fun s => info_of s f).
Definition ReadAll (f : positive) : world -> res errno gostr * world :=
  query b (fun s => match s !! f with Some (NFile _ _ c) => Ok c | _ => Err EISDIR end).
Definition Write (f : positive) (blob : gostr) : world -> res errno unit * world :=
  act b (fun s => match s !! f with
                  | Some (NFile k m c) => Ok (tt, <[f := NFile k m (blob ++ drop (length blob) c)]> s)
                  | _ => Err EISDIR
                  end).
Definition Close (f : positive) : world -> res errno unit * world := query b (fun _ => Ok tt).

(** [root.Chmod]. *)
Definition Chmod (rel : gostr) (mode : Z) : world -> res errno unit * world :=
  act b (fun s => let? p := walk_from true s rel in let? i := found p in
    match s !! i with
    | Some (NFile k _ c) => Ok (tt, <[i := NFile k mode c]> s)
    | Some (NDir up es a) => Ok (tt, <[i := NDir up es (MkDirAttr (da_uid a) mode (da_access a))]> s)
    | _ => Err ENOENT
    end).

(** [plantedLink]: the first component that is a link, and its target. *)
Definition join_parts (parts : list gostr) : gostr :=
  let l := List.filter (fun p => negb (bool_decide (p = []))) parts in
  if bool_decide (l = []) then [] else path_Clean (join [slash] l).

Fixpoint planted_loop (i : nat) (parts : list gostr) (fuel : nat) (w : world) : option (gostr * gostr) * world :=
  match fuel with
  | O => (None, w)
  | S fuel' =>
    let prefix := join_parts (take (S i) parts) in
    match Lstat prefix w with
    | (Err _, w) => (None, w)
    | (Ok info, w) =>
      match fi_node info with
      | NLink _ =>
        match Readlink prefix w with
        | (Err _, w) => (None, w)
        | (Ok target, w) => (Some (prefix, target), w)
        end
      | _ => planted_loop (S i) parts fuel' w
      end
    end
  end.

Definition plantedLink (rel : gostr) (w : world) : option (gostr * gostr) * world :=
  let parts := split_byte slash (path_Clean rel) in planted_loop 0 parts (length parts) w.

(** [refuse] and [symlinkRefusal]. *)
Definition refuse (op rel : gostr) (e : errno) (w : world) : rooted_error * world :=
  let '(l, w) := plantedLink rel w in
  (match l with Some (link, target) => PlantedLink op rel link target | None => Io e end, w).
Definition symlinkRefusal (op rel : gostr) (w : world) : rooted_error * world :=
  let '(l, w) := plantedLink rel w in
  (match l with Some (link, target) => PlantedLink op rel link target | None => LinkRefused op rel end, w).

Definition refused {A : Type} (op rel : gostr) (e : errno) (w : world) : res rooted_error A * world :=
  let '(r, w) := refuse op rel e w in (Err r, w).

(** [openRegular]. *)
Definition openRegular (rel : gostr) (flag : open_flag) (w : world) : res rooted_error positive * world :=
  match OpenExisting rel flag w with
  | (Err e, w) => refused (lit "read") rel e w
  | (Ok f, w) =>
    match Fstat f w with
    | (Err e, w) => refused (lit "read") rel e w
    | (Ok fi, w) =>
      match fi_node fi with
      | NFile Regular _ _ => (Ok f, w)
      | nd => (Err (NotRegular rel (describeType nd)), w)
      end
    end
  end.

(** [readFile]. *)
Definition readFile (rel : gostr) (w : world) : res rooted_error gostr * world :=
  match openRegular rel RDONLY w with
  | (Err e, w) => (Err e, w)
  | (Ok f, w) =>
    match ReadAll f w with
    | (Err e, w) => refused (lit "read") rel e w
    | (Ok blob, w) => (Ok blob, w)
    end
  end.

(** [writeFile]. *)
Definition writeFile (rel blob : gostr) (mode : Z) (w : world) : res rooted_error unit * world :=
  let '(f, w) :=
    match CreateNew rel mode w with
    | (Err EEXIST, w) => openRegular rel WRONLY_TRUNC w
    | (Err e, w) => refused (lit "write") rel e w
    | (Ok f, w) => (Ok f, w)
    end in
  match f with
  | Err e => (Err e, w)
  | Ok f =>
    match Write f blob w with
    | (Err e, w) => refused (lit "write") rel e w
    | (Ok _, w) =>
      match Close f w with
      | (Err e, w) => refused (lit "write") rel e w
      | (Ok _, w) => (Ok tt, w)
      end
    end
  end.

(** [chmod]. *)
Definition chmod (rel : gostr) (mode : Z) (w : world) : res rooted_error unit * world :=
  match Chmod rel mode w with
  | (Err e, w) => refused (lit "change the mode of") rel e w
  | (Ok _, w) => (Ok tt, w)
  end.

(** [exists]: [lstat], whose error is passed on where it is not that nothing is
    there. *)
Definition exists_ (op rel : gostr) (w : world) : res rooted_error bool * world :=
  match Lstat rel w with
  | (Err e, w) =>
    match refuse (lit "read") rel e w with
    | (Io ENOENT, w) => (Ok false, w)
    | (r, w) => (Err r, w)
    end
  | (Ok info, w) =>
    match fi_node info with
    | NLink _ => let '(r, w) := symlinkRefusal op rel w in (Err r, w)
    | _ => (Ok true, w)
    end
  end.

(** [writeIfChanged]. *)
Definition writeIfChanged (rel content : gostr) (mode : Z) (w : world) : res rooted_error unit * world :=
  match exists_ (lit "write") rel w with
  | (Err e, w) => (Err e, w)
  | (Ok _, w) =>
    let '(existing, w) := readFile rel w in
    if match existing with Ok blob => bool_decide (blob = content) | Err _ => false end
    then chmod rel mode w
    else
      match writeFile rel content mode w with
      | (Err e, w) => (Err e, w)
      | (Ok _, w) => chmod rel mode w
      end
  end.
End Files.

(** ** What brig changes in the workspace *)

Section Confined.
Variable b : beside.
Variable root_links : nat.
Variable umask : Z.
Variable h : positive.

(** A file stays the kind of file it is. *)
Definition kinds (s s' : fsys) : Prop :=
  forall i k m c, s !! i = Some (NFile k m c) -> exists m' c', s' !! i = Some (NFile k m' c').
Hypothesis guest_kinds : forall n s, kinds s (guest b n s).

(** What is reached from the directory that is held, by entries only. *)
Inductive under (s : fsys) : positive -> Prop :=
  | under_here : under s h
  | under_entry d p es a n i : under s d -> s !! d = Some (NDir p es a) -> es !! n = Some i -> under s i.

(** The file systems that a world has been through. *)
Definition seen (w : world) (s : fsys) : Prop := s ∈ w_past w \/ exists s0, (s0, s) ∈ w_acts w.

(** An act makes a regular file where there was no inode; or it changes one
    that was under the directory: a new entry for a new file, an attribute, or
    the content of a regular file. *)
Definition confined (S : fsys -> Prop) (a : fsys * fsys) : Prop :=
  forall i, a.2 !! i <> a.1 !! i ->
    (a.1 !! i = None /\ exists m, a.2 !! i = Some (NFile Regular m [])) \/
    ((exists s0, S s0 /\ under s0 i) /\
     match a.1 !! i, a.2 !! i with
     | Some (NDir up es _), Some (NDir up' es' _) =>
       up' = up /\ (es' = es \/ exists n j, es !! n = None /\ a.1 !! j = None /\ es' = <[n := j]> es)
     | Some (NFile k _ c), Some (NFile k' _ c') => k' = k /\ (k = Regular \/ c' = c)
     | _, _ => False
     end).

Definition good (w : world) : Prop := forall a, a ∈ w_acts w -> confined (seen w) a.

Definition step_ok (w w' : world) : Prop :=
  (good w -> good w') /\ (forall s, seen w s -> seen w' s) /\ kinds (w_fs w) (w_fs w').

Lemma kinds_refl s : kinds s s.
Proof. intros i k m c H. eauto. Qed.
Lemma kinds_trans s1 s2 s3 : kinds s1 s2 -> kinds s2 s3 -> kinds s1 s3.
Proof. intros H1 H2 i k m c H. destruct (H1 _ _ _ _ H) as (m' & c' & H'). eauto. Qed.

Lemma step_ok_refl w : step_ok w w.
Proof. split; [done|]. split; [done|apply kinds_refl]. Qed.
Lemma step_ok_trans w1 w2 w3 : step_ok w1 w2 -> step_ok w2 w3 -> step_ok w1 w3.
Proof. intros (A1 & B1 & C1) (A2 & B2 & C2). split; [auto|]. split; [auto|by eapply kinds_trans]. Qed.

Lemma confined_mono (S S' : fsys -> Prop) a : (forall s, S s -> S' s) -> confined S a -> confined S' a.
Proof. intros H Hc i Hi. destruct (Hc i Hi) as [?|((s0 & Hs & Hu) & K)]; [by left|right]. split; [exists s0; auto|done]. Qed.

Lemma query_ok {A : Type} (q : fsys -> res errno A) w r w' : query b q w = (r, w') ->
  step_ok w w' /\ seen w' (w_fs w') /\ (forall x, r = Ok x -> q (w_fs w') = Ok x).
Proof.
  unfold query, tick. intros [= <- <-]. cbn. split; [|split].
  - assert (forall s, seen w s -> seen (MkWorld (S (w_now w)) (guest b (w_now w) (w_fs w)) (guest b (w_now w) (w_fs w) :: w_past w) (w_acts w)) s) as Hs.
    { intros s [Hs|Hs]; [left; by constructor|by right]. }
    split; [|split; [exact Hs|apply guest_kinds]]. intros Hg a Ha. eapply confined_mono; [exact Hs|by apply Hg].
  - left. constructor.
  - intros x. by destruct (fault b (w_now w)).
Qed.

(** A call that changes the file system is in order where its change is. *)
Lemma act_ok {A : Type} (q : fsys -> res errno (A * fsys)) w r w' : act b q w = (r, w') ->
  (forall w1 x s', step_ok w w1 -> seen w1 (w_fs w1) -> q (w_fs w1) = Ok (x, s') ->
     confined (seen w1) (w_fs w1, s') /\ kinds (w_fs w1) s') ->
  step_ok w w' /\ forall x, r = Ok x -> exists s, seen w' s /\ seen w' (w_fs w') /\ q s = Ok (x, w_fs w').
Proof.
  unfold act. intros H Hq. destruct (query b (fun _ : fsys => Ok tt) w) as [r0 w1] eqn:E. pose proof (query_ok _ _ _ _ E) as (L & Hs & _).
  assert (w1 = tick b w) as -> by (unfold query in E; injection E; congruence).
  destruct (fault b (w_now w)); [by injection H as <- <-|]. destruct (q (w_fs (tick b w))) as [[x s']|e] eqn:Eq; [|by injection H as <- <-].
  injection H as <- <-. destruct (Hq _ _ _ L Hs Eq) as [Hc Hk]. split.
  - eapply step_ok_trans; [exact L|]. assert (forall s, seen (tick b w) s -> seen (MkWorld (w_now (tick b w)) s' (w_past (tick b w))
      ((w_fs (tick b w), s') :: w_acts (tick b w))) s) as Hm.
    { intros s [H|[s0 H]]; [by left|]. right. exists s0. by right. }
    split; [|split; [exact Hm|exact Hk]]. intros Hg a [->|Ha]%elem_of_cons; eapply confined_mono; try exact Hm; [done|by apply Hg].
  - intros y [= <-]. exists (w_fs (tick b w)). split; [|split; [|done]].
    + destruct Hs as [Hs|[s0 Hs]]; [by left|]. right. exists s0. by right.
    + right. exists (w_fs (tick b w)). constructor.
Qed.

(** [os.Root] ends under the directory it started from. *)
Definition place_under (s : fsys) (p : place) : Prop :=
  match p with
  | Here d => under s d
  | In d n f => under s d /\ exists up es a, s !! d = Some (NDir up es a) /\ es !! n = f
  end.

Lemma rwalk_under hops follow s d above names p :
  under s d -> Forall (under s) above -> rwalk hops follow s d above names = Ok p -> place_under s p.
Proof.
  revert d above names. induction hops as [|hops IH]; intros d above names; revert d above;
    (induction names as [|n rest IHn]; intros d above Hd Hab H; cbn [rwalk] in H; [injection H as <-; done|]);
    destruct (s !! d) as [[up es a|t|k m c]|] eqn:Ed; try done;
    (destruct (bool_decide (n = []) || bool_decide (n = dot1)); [by eapply IHn|]);
    (case_bool_decide; [destruct above as [|u above]; [done|]; apply Forall_cons in Hab as [? ?]; by eapply IHn|]);
    (destruct (es !! n) as [j|] eqn:Ej;
      [|case_bool_decide; [|done]; injection H as <-; split; [done|]; by exists up, es, a]);
    assert (under s j) as Hj by (by eapply under_entry);
    (destruct (s !! j) as [[up' es' a'|t|k m c]|] eqn:Ek;
      [ case_bool_decide; [injection H as <-; split; [done|]; by exists up, es, a|eapply IHn; [exact Hj| |exact H]; by constructor]
      | case_bool_decide; cbn [andb] in H; [destruct follow; cbn [negb] in H|]
      | case_bool_decide; [injection H as <-; split; [done|]; by exists up, es, a|eapply IHn; [exact Hj| |exact H]; by constructor]
      | case_bool_decide; [injection H as <-; split; [done|]; by exists up, es, a|eapply IHn; [exact Hj| |exact H]; by constructor]]);
    try done; try (injection H as <-; split; [done|]; by exists up, es, a);
    (destruct (filepath_IsAbs t); [done|]; eapply IH; [exact Hd|exact Hab|exact H]).
Qed.

Lemma walk_under follow s rel p : walk_from root_links h follow s rel = Ok p -> place_under s p.
Proof. apply rwalk_under; constructor. Qed.

Lemma found_under s p i : place_under s p -> found p = Ok i -> under s i.
Proof.
  destruct p as [d|d n [j|]]; cbn; [by intros ? [= <-]| |done]. intros (Hd & up & es & a & E & Ej) [= <-]. by eapply under_entry.
Qed.

(** Changing one inode. *)
Lemma kinds_insert s i nd : (forall k m c, s !! i = Some (NFile k m c) -> exists m' c', nd = NFile k m' c') -> kinds s (<[i := nd]> s).
Proof.
  intros H j k m c Hj. destruct (decide (i = j)) as [<-|Hn].
  - rewrite lookup_insert_eq. destruct (H _ _ _ Hj) as (m' & c' & ->). eauto.
  - rewrite lookup_insert_ne by done. eauto.
Qed.

Lemma confined_insert (S : fsys -> Prop) s i nd s0 : S s0 -> under s0 i ->
  match s !! i, nd with
  | Some (NDir up es _), NDir up' es' _ => up' = up /\ es' = es
  | Some (NFile k _ c), NFile k' _ c' => k' = k /\ (k = Regular \/ c' = c)
  | _, _ => False
  end -> confined S (s, <[i := nd]> s).
Proof.
  intros HS Hu Hm j Hj. cbn [fst snd] in *. destruct (decide (i = j)) as [<-|Hn]; [|by rewrite lookup_insert_ne in Hj].
  right. split; [by exists s0|]. rewrite lookup_insert_eq. destruct (s !! i) as [[]|], nd; naive_solver.
Qed.

Lemma confined_same (S : fsys -> Prop) s : confined S (s, s).
Proof. intros i Hi. by destruct (Hi eq_refl). Qed.

(** What a file is that brig writes to: regular, and once under the
    directory. *)
Definition writable_file (w : world) (f : positive) : Prop :=
  (exists s, seen w s /\ under s f) /\ exists m c, w_fs w !! f = Some (NFile Regular m c).

Lemma writable_step w w' f : step_ok w w' -> writable_file w f -> writable_file w' f.
Proof.
  intros (_ & Hs & Hk) [(s & Hse & Hu) (m & c & Hf)]. split; [exists s; auto|]. by eapply Hk.
Qed.

Lemma OpenExisting_ok rel flag w r w' : OpenExisting b root_links h rel flag w = (r, w') ->
  step_ok w w' /\ forall f, r = Ok f -> exists s, seen w' s /\ under s f.
Proof.
  intros H. apply act_ok in H as [L K].
  - split; [done|]. intros f Hr. destruct (K f Hr) as (s & Hs & _ & Hq). exists s. split; [done|].
    apply res_bind_ok in Hq as (p & Hp & Hq). apply res_bind_ok in Hq as (i & Hi & Hq). apply walk_under in Hp.
    pose proof (found_under _ _ _ Hp Hi) as Hu. destruct (s !! i) as [[| |[] ? ?]|], flag; try done; by injection Hq as <- _.
  - intros w1 x s' _ Hs Hq. apply res_bind_ok in Hq as (p & Hp & Hq). apply res_bind_ok in Hq as (i & Hi & Hq).
    apply walk_under in Hp. pose proof (found_under _ _ _ Hp Hi) as Hu.
    assert (s' = w_fs w1 \/ exists m c, w_fs w1 !! i = Some (NFile Regular m c) /\ s' = <[i := NFile Regular m []]> (w_fs w1)) as [->|(m & c & E & ->)].
    { destruct (w_fs w1 !! i) as [[| |[] ? ?]|], flag; try done; injection Hq as _ <-; eauto 10. }
    + split; [apply confined_same|apply kinds_refl].
    + split.
      * eapply confined_insert; [exact Hs|exact Hu|]. rewrite E. auto.
      * apply kinds_insert. intros k m0 c0. rewrite E. intros [= <- <- <-]. eauto.
Qed.

Lemma under_grow s s' x :
  (forall d up es a, s !! d = Some (NDir up es a) -> exists up' es' a', s' !! d = Some (NDir up' es' a') /\ es ⊆ es') ->
  under s x -> under s' x.
Proof.
  intros H. induction 1 as [|d p es a n i _ IH Hd Hi]; [constructor|]. destruct (H _ _ _ _ Hd) as (up' & es' & a' & Hd' & Hes).
  eapply under_entry; [exact IH|exact Hd'|]. by eapply lookup_weaken.
Qed.

(** A file system with a new file in one directory. *)
Definition with_new (s : fsys) (d : positive) (up : positive) (es : gmap gostr positive) (a : dir_attr) (n : gostr) (i : positive) (m : Z) : fsys :=
  <[i := NFile Regular m []]> (<[d := NDir up (<[n := i]> es) a]> s).

Lemma with_new_ok s d up es a n m : let i := fresh (dom s) in
  s !! d = Some (NDir up es a) -> es !! n = None -> under s d ->
  under (with_new s d up es a n i m) i /\ kinds s (with_new s d up es a n i m) /\
  forall S : fsys -> Prop, S s -> confined S (s, with_new s d up es a n i m).
Proof.
  intros i Hd Hn Hu. assert (s !! i = None) as Hi by apply not_elem_of_dom, is_fresh.
  assert (i <> d) as Hid by congruence. unfold with_new.
  assert (forall j, j <> i -> j <> d -> <[i := NFile Regular m []]> (<[d := NDir up (<[n := i]> es) a]> s) !! j = s !! j) as Hj.
  { intros j H1 H2. by rewrite !lookup_insert_ne by done. }
  assert (<[i := NFile Regular m []]> (<[d := NDir up (<[n := i]> es) a]> s) !! d = Some (NDir up (<[n := i]> es) a)) as Hdd.
  { by rewrite lookup_insert_ne, lookup_insert_eq by done. }
  set (s1 := <[i := NFile Regular m []]> _) in *. split; [|split].
  - apply (under_entry s1 d up (<[n := i]> es) a n); [|exact Hdd|apply lookup_insert_eq]. eapply under_grow; [|exact Hu].
    intros e up' es' a' He. destruct (decide (e = d)) as [->|Hne].
    + rewrite Hd in He. injection He as <- <- <-. exists up, (<[n := i]> es), a. split; [done|]. by apply insert_subseteq.
    + exists up', es', a'. split; [|done]. rewrite Hj; [done|congruence|done].
  - intros j k m' c' E. exists m', c'. rewrite Hj; congruence.
  - intros S HS j E. cbn [fst snd] in *. destruct (decide (j = i)) as [->|H1].
    { left. split; [done|]. exists m. apply lookup_insert_eq. }
    destruct (decide (j = d)) as [->|H2]; [|by rewrite Hj in E]. right. split; [by exists s|]. rewrite Hd, Hdd.
    split; [done|]. right. by exists n, i.
Qed.

Lemma CreateNew_ok rel mode w r w' : CreateNew b root_links umask h rel mode w = (r, w') ->
  step_ok w w' /\ forall f, r = Ok f -> writable_file w' f.
Proof.
  intros H. apply act_ok in H as [L K].
  - split; [done|]. intros f Hr. destruct (K f Hr) as (s & Hs & Hs' & Hq). apply res_bind_ok in Hq as (p & Hp & Hq).
    destruct p as [d|d n [j|]]; try done. apply walk_under in Hp as (Hd & up & es & a & E & En). rewrite E in Hq. injection Hq as Hf Hw.
    destruct (with_new_ok s d up es a n (Z.land mode (Z.lnot umask)) E En Hd) as (U & _ & _). unfold with_new in U. rewrite Hw in U. subst f.
    split; [by exists (w_fs w')|]. rewrite <- Hw, lookup_insert_eq. eauto.
  - intros w1 x s' _ Hs Hq. apply res_bind_ok in Hq as (p & Hp & Hq). destruct p as [d|d n [j|]]; try done.
    apply walk_under in Hp as (Hd & up & es & a & E & En). rewrite E in Hq. injection Hq as _ <-.
    destruct (with_new_ok _ d up es a n (Z.land mode (Z.lnot umask)) E En Hd) as (_ & Hk & Hc). split; [by apply Hc|exact Hk].
Qed.

Lemma Write_ok f blob w r w' : writable_file w f -> Write b f blob w = (r, w') -> step_ok w w'.
Proof.
  intros Hf H. apply act_ok in H as [L _]; [done|]. intros w1 x s' L Hs Hq. apply (writable_step _ _ _ L) in Hf as [(s0 & H0 & Hu) (m & c & E)].
  rewrite E in Hq. injection Hq as _ <-. split.
  - eapply confined_insert; [exact H0|exact Hu|]. rewrite E. auto.
  - apply kinds_insert. intros k m0 c0. rewrite E. intros [= <- <- <-]. eauto.
Qed.

Lemma Chmod_ok rel mode w r w' : Chmod b root_links h rel mode w = (r, w') -> step_ok w w'.
Proof.
  intros H. apply act_ok in H as [L _]; [done|]. intros w1 x s' _ Hs Hq. apply res_bind_ok in Hq as (p & Hp & Hq).
  apply res_bind_ok in Hq as (i & Hi & Hq). apply walk_under in Hp. pose proof (found_under _ _ _ Hp Hi) as Hu.
  destruct (w_fs w1 !! i) as [[up es a|t|k m c]|] eqn:E; try done; injection Hq as _ <-; split;
    try (eapply confined_insert; [exact Hs|exact Hu|]; rewrite E; auto); apply kinds_insert; intros k0 m0 c0; rewrite E;
    intros [= <- <- <-]; eauto.
Qed.

(** Composition of the calls of an operation. *)
Local Hint Resolve step_ok_refl : brig.

Lemma query_step {A : Type} (q : fsys -> res errno A) w w1 w2 r : step_ok w w1 -> query b q w1 = (r, w2) -> step_ok w w2.
Proof. intros L H. apply query_ok in H as [L2 _]. by eapply step_ok_trans. Qed.

Lemma planted_loop_ok i parts fuel w r w' : planted_loop b root_links h i parts fuel w = (r, w') -> step_ok w w'.
Proof.
  revert i w. induction fuel as [|fuel IH]; intros i w H; cbn [planted_loop] in H; [injection H as _ <-; apply step_ok_refl|].
  destruct (Lstat b root_links h _ w) as [[info|e] w1] eqn:E1; pose proof (query_step _ _ _ _ _ (step_ok_refl w) E1) as L1.
  2: by injection H as _ <-.
  destruct (fi_node info); try (apply IH in H; by eapply step_ok_trans).
  destruct (Readlink b root_links h _ w1) as [[tg|e] w2] eqn:E2; pose proof (query_step _ _ _ _ _ L1 E2) as L2; by injection H as _ <-.
Qed.

Lemma refuse_ok op rel e w r w' : refuse b root_links h op rel e w = (r, w') -> step_ok w w'.
Proof. unfold refuse, plantedLink. destruct (planted_loop _ _ _ _ _ _ _) as [l w1] eqn:E. intros [= _ <-]. by eapply planted_loop_ok. Qed.

Lemma symlinkRefusal_ok op rel w r w' : symlinkRefusal b root_links h op rel w = (r, w') -> step_ok w w'.
Proof. unfold symlinkRefusal, plantedLink. destruct (planted_loop _ _ _ _ _ _ _) as [l w1] eqn:E. intros [= _ <-]. by eapply planted_loop_ok. Qed.

Lemma refused_ok {A : Type} op rel e w (r : res rooted_error A) w' : refused b root_links h op rel e w = (r, w') ->
  step_ok w w' /\ exists x, r = Err x.
Proof. unfold refused. destruct (refuse _ _ _ _ _ _ _) as [x w1] eqn:E. intros [= <- <-]. split; [by eapply refuse_ok|eauto]. Qed.

Lemma openRegular_ok rel flag w r w' : openRegular b root_links h rel flag w = (r, w') ->
  step_ok w w' /\ forall f, r = Ok f -> writable_file w' f.
Proof.
  unfold openRegular. intros H. destruct (OpenExisting b root_links h rel flag w) as [[f|e] w1] eqn:E1; apply OpenExisting_ok in E1 as [L1 K1].
  2: { apply refused_ok in H as [L [x ->]]. split; [by eapply step_ok_trans|done]. }
  destruct (Fstat b f w1) as [[fi|e] w2] eqn:E2; apply query_ok in E2 as (L2 & _ & Q2); pose proof (step_ok_trans _ _ _ L1 L2) as L12.
  2: { apply refused_ok in H as [L [x ->]]. split; [by eapply step_ok_trans|done]. }
  specialize (Q2 fi eq_refl). unfold info_of in Q2. destruct (w_fs w2 !! f) as [nd|] eqn:E; [|done]. injection Q2 as <-.
  destruct (K1 f eq_refl) as (s & Hs & Hu). cbn [fi_node] in H.
  destruct nd as [| |[] m c]; injection H as <- <-; (split; [done|]); try done. intros f' [= <-].
  split; [exists s; split; [by apply L2|done]|eauto].
Qed.

Lemma readFile_ok rel w r w' : readFile b root_links h rel w = (r, w') -> step_ok w w' /\
  forall blob, r = Ok blob -> exists f m, (exists s, seen w' s /\ under s f) /\ w_fs w' !! f = Some (NFile Regular m blob).
Proof.
  unfold readFile. intros H. destruct (openRegular b root_links h rel RDONLY w) as [[f|e] w1] eqn:E1; apply openRegular_ok in E1 as [L1 K1].
  2: by injection H as <- <-.
  destruct (ReadAll b f w1) as [[blob|e] w2] eqn:E2; apply query_ok in E2 as (L2 & _ & Q2); pose proof (step_ok_trans _ _ _ L1 L2) as L12.
  2: { apply refused_ok in H as [L [x ->]]. split; [by eapply step_ok_trans|done]. }
  injection H as <- <-. split; [done|]. intros blob' [= <-]. specialize (Q2 blob eq_refl).
  pose proof (writable_step _ _ _ L2 (K1 f eq_refl)) as [Hs (m & c & E)]. rewrite E in Q2. injection Q2 as <-. by exists f, m.
Qed.

Lemma write_rest_ok f rel blob w0 w r w' : step_ok w0 w -> writable_file w f ->
  match Write b f blob w with
  | (Err e, w) => refused b root_links h (lit "write") rel e w
  | (Ok _, w) => match Close b f w with (Err e, w) => refused b root_links h (lit "write") rel e w | (Ok _, w) => (Ok tt, w) end
  end = (r, w') -> step_ok w0 w'.
Proof.
  intros L Hf H. destruct (Write b f blob w) as [[u|e] w1] eqn:E1; apply Write_ok in E1 as L1; try done; pose proof (step_ok_trans _ _ _ L L1) as L01.
  2: { apply refused_ok in H as [L2 _]. by eapply step_ok_trans. }
  destruct (Close b f w1) as [[v|e] w2] eqn:E2; pose proof (query_step _ _ _ _ _ L01 E2) as L2.
  - by injection H as _ <-.
  - apply refused_ok in H as [L3 _]. by eapply step_ok_trans.
Qed.

Lemma writeFile_ok rel blob mode w r w' : writeFile b root_links umask h rel blob mode w = (r, w') -> step_ok w w'.
Proof.
  unfold writeFile. intros H.
  destruct (CreateNew b root_links umask h rel mode w) as [[f|e] w1] eqn:E1; apply CreateNew_ok in E1 as [L1 K1].
  { eapply write_rest_ok; [exact L1|by apply K1|exact H]. }
  destruct (match e with EEXIST => _ | _ => _ end) as [x w2] eqn:E2.
  assert (step_ok w w2 /\ forall f, x = Ok f -> writable_file w2 f) as [L2 K2].
  { destruct e; try (apply refused_ok in E2 as [L2 [y ->]]; split; [by eapply step_ok_trans|done]).
    apply openRegular_ok in E2 as [L2 K2]. split; [by eapply step_ok_trans|done]. }
  destruct x as [f|y]; [eapply write_rest_ok; [exact L2|by apply K2|exact H]|by injection H as _ <-].
Qed.

Lemma chmod_ok rel mode w r w' : chmod b root_links h rel mode w = (r, w') -> step_ok w w'.
Proof.
  unfold chmod. intros H. destruct (Chmod b root_links h rel mode w) as [[u|e] w1] eqn:E; apply Chmod_ok in E as L; [by injection H as _ <-|].
  apply refused_ok in H as [L2 _]. by eapply step_ok_trans.
Qed.

Lemma exists_ok op rel w r w' : exists_ b root_links h op rel w = (r, w') -> step_ok w w'.
Proof.
  unfold exists_. intros H. destruct (Lstat b root_links h rel w) as [[info|e] w1] eqn:E; pose proof (query_step _ _ _ _ _ (step_ok_refl w) E) as L.
  - destruct (fi_node info); try by injection H as _ <-. destruct (symlinkRefusal _ _ _ _ _ _) as [x w2] eqn:E2. injection H as _ <-.
    apply symlinkRefusal_ok in E2. by eapply step_ok_trans.
  - destruct (refuse _ _ _ _ _ _ _) as [x w2] eqn:E2. apply refuse_ok in E2. pose proof (step_ok_trans _ _ _ L E2).
    destruct x as [[]| | |]; by injection H as _ <-.
Qed.

Lemma writeIfChanged_ok rel content mode w r w' : writeIfChanged b root_links umask h rel content mode w = (r, w') -> step_ok w w'.
Proof.
  unfold writeIfChanged. intros H.
  destruct (exists_ b root_links h (lit "write") rel w) as [[u|e] w1] eqn:E1; apply exists_ok in E1 as L1; [|by injection H as _ <-].
  destruct (readFile b root_links h rel w1) as [x w2] eqn:E2. apply readFile_ok in E2 as [L2 _]. pose proof (step_ok_trans _ _ _ L1 L2) as L12.
  destruct (match x with Ok blob => _ | Err _ => _ end); [apply chmod_ok in H; by eapply step_ok_trans|].
  destruct (writeFile b root_links umask h rel content mode w2) as [[v|e] w3] eqn:E3; apply writeFile_ok in E3 as L3; pose proof (step_ok_trans _ _ _ L12 L3).
  - apply chmod_ok in H. by eapply step_ok_trans.
  - by injection H as _ <-.
Qed.

(** C18: whatever the guest does, all that brig changes as it writes a file of the
    workspace was under the directory that is held or is new there, and content
    changes in regular files only. *)
Theorem writeIfChanged_confined rel content mode w r w' :
  w_acts w = [] -> writeIfChanged b root_links umask h rel content mode w = (r, w') ->
  forall a, a ∈ w_acts w' -> confined (seen w') a.
Proof.
  intros H0 H. apply writeIfChanged_ok in H as (Hg & _). apply Hg. intros a Ha. rewrite H0 in Ha. by apply not_elem_of_nil in Ha.
Qed.

(** What is read is a regular file's, and the file was under the directory. *)
Theorem readFile_regular rel w blob w' : readFile b root_links h rel w = (Ok blob, w') ->
  exists f m s, seen w' s /\ under s f /\ w_fs w' !! f = Some (NFile Regular m blob).
Proof. intros H. apply readFile_ok in H as [_ K]. destruct (K blob eq_refl) as (f & m & (s & Hs & Hu) & E). by exists f, m, s. Qed.
End Confined.

(** ** A file of the workspace with nothing beside brig *)

Section QuietFiles.
Variable b : beside.
Variable root_links : nat.
Variable umask : Z.
Variable h : positive.
Hypothesis still : forall n s, guest b n s = s.
Hypothesis no_fault : forall n, fault b n = None.

Lemma quiet_act {A : Type} (q : fsys -> res errno (A * fsys)) w :
  exists w', (act b q w = match q (w_fs w) with Ok (x, s) => (Ok x, w') | Err e => (Err e, w') end) /\
    w_fs w' = match q (w_fs w) with Ok (_, s) => s | Err _ => w_fs w end.
Proof. unfold act, tick. rewrite no_fault, still. cbn. destruct (q (w_fs w)) as [[x s]|e]; by eexists. Qed.

Ltac calm :=
  match goal with
  | |- context [query b ?q ?w] =>
      let w' := fresh "w" in let E := fresh "E" in let F := fresh "F" in
      destruct (quiet_query b still no_fault q w) as (w' & E & F); rewrite E; clear E
  | |- context [act b ?q ?w] =>
      let w' := fresh "w" in let E := fresh "E" in let F := fresh "F" in
      destruct (quiet_act q w) as (w' & E & F); rewrite E; clear E
  end.

(** One name of the directory, where there is no link. *)
Lemma walk_name follow s up es a n : s !! h = Some (NDir up es a) -> normal n ->
  (forall i t, es !! n = Some i -> s !! i <> Some (NLink t)) -> walk_from root_links h follow s n = Ok (In h n (es !! n)).
Proof.
  intros Hh (H1 & H2 & H3 & H4) Hl. unfold walk_from. rewrite split_byte_none by done.
  destruct root_links; cbn [rwalk]; rewrite Hh, !bool_decide_false by done; cbn [orb];
    (destruct (es !! n) as [i|] eqn:Ei; [|done]); specialize (Hl i); destruct (s !! i) as [[]|] eqn:Ek; try done; exfalso; by eapply Hl.
Qed.

Definition name_is (s : fsys) (n : gostr) (i : positive) (m : Z) (c : gostr) : Prop :=
  exists up es a, s !! h = Some (NDir up es a) /\ es !! n = Some i /\ s !! i = Some (NFile Regular m c).

Lemma walk_is follow s n i m c : normal n -> name_is s n i m c -> walk_from root_links h follow s n = Ok (In h n (Some i)).
Proof.
  intros Hn (up & es & a & Hh & Hi & Hf). rewrite <- Hi. eapply walk_name; [exact Hh|done|]. intros j t Hj. congruence.
Qed.

Lemma name_insert s n i m c m' c' : name_is s n i m c -> name_is (<[i := NFile Regular m' c']> s) n i m' c'.
Proof.
  intros (up & es & a & Hh & Hi & Hf). exists up, es, a. assert (i <> h) by congruence.
  by rewrite lookup_insert_ne, lookup_insert_eq by done.
Qed.

Lemma chmod_quiet w n i m c mode : normal n -> name_is (w_fs w) n i m c ->
  exists w', chmod b root_links h n mode w = (Ok tt, w') /\ w_fs w' = <[i := NFile Regular mode c]> (w_fs w).
Proof.
  intros Hn H. unfold chmod, Chmod. calm. rewrite (walk_is _ _ _ _ _ _ Hn H) in *. cbn [res_bind found] in *.
  destruct H as (up & es & a & Hh & Hi & Hf). rewrite Hf in *. by exists w0.
Qed.

Lemma openRegular_quiet w n i m c flag : normal n -> name_is (w_fs w) n i m c ->
  exists w', openRegular b root_links h n flag w = (Ok i, w') /\
    w_fs w' = match flag with RDONLY => w_fs w | WRONLY_TRUNC => <[i := NFile Regular m []]> (w_fs w) end.
Proof.
  intros Hn H. unfold openRegular, OpenExisting. calm. rewrite (walk_is _ _ _ _ _ _ Hn H) in *. cbn [res_bind found] in *.
  destruct H as (up & es & a & Hh & Hi & Hf). rewrite Hf in *. unfold Fstat. destruct flag; calm; unfold info_of; rewrite F; cbn [fi_node].
  - rewrite Hf. cbn [fi_node]. exists w1. split; [done|congruence].
  - rewrite lookup_insert_eq. cbn [fi_node]. exists w1. split; [done|congruence].
Qed.

Lemma readFile_quiet w n i m c : normal n -> name_is (w_fs w) n i m c ->
  exists w', readFile b root_links h n w = (Ok c, w') /\ w_fs w' = w_fs w.
Proof.
  intros Hn H. unfold readFile. destruct (openRegular_quiet w n i m c RDONLY Hn H) as (w1 & -> & F1). unfold ReadAll. calm.
  destruct H as (up & es & a & Hh & Hi & Hf). rewrite F1, Hf. exists w0. split; [done|congruence].
Qed.

Lemma write_quiet w f n blob m : w_fs w !! f = Some (NFile Regular m []) ->
  exists w', (match Write b f blob w with
  | (Err e, w) => refused b root_links h (lit "write") n e w
  | (Ok _, w) => match Close b f w with (Err e, w) => refused b root_links h (lit "write") n e w | (Ok _, w) => (Ok tt, w) end
  end = (Ok tt, w')) /\ w_fs w' = <[f := NFile Regular m blob]> (w_fs w).
Proof.
  intros Hf. unfold Write. calm. rewrite Hf in *. unfold Close. calm. exists w1. split; [done|]. rewrite F0, F. by rewrite drop_nil, app_nil_r.
Qed.

Lemma writeFile_over w n i m c blob mode : normal n -> name_is (w_fs w) n i m c ->
  exists w', writeFile b root_links umask h n blob mode w = (Ok tt, w') /\ w_fs w' = <[i := NFile Regular m blob]> (w_fs w).
Proof.
  intros Hn H. unfold writeFile, CreateNew. calm. rewrite (walk_is _ _ _ _ _ _ Hn H) in *. cbn [res_bind] in *.
  rewrite <- F in H. destruct (openRegular_quiet w0 n i m c WRONLY_TRUNC Hn H) as (w1 & -> & F1).
  destruct (write_quiet w1 i n blob m) as (w2 & E2 & F2); [by rewrite F1, lookup_insert_eq|]. exists w2. split; [exact E2|].
  by rewrite F2, F1, F, insert_insert_eq.
Qed.

Definition name_absent (s : fsys) (n : gostr) (up : positive) (es : gmap gostr positive) (a : dir_attr) : Prop :=
  s !! h = Some (NDir up es a) /\ es !! n = None.

Lemma walk_absent follow s n up es a : normal n -> name_absent s n up es a -> walk_from root_links h follow s n = Ok (In h n None).
Proof. intros Hn [Hh He]. rewrite <- He. eapply walk_name; [exact Hh|done|]. intros i t Hi. congruence. Qed.

Lemma join_parts_name n : normal n -> join_parts [n] = n.
Proof.
  intros Hn. pose proof Hn as (Hne & _). unfold join_parts. cbn [List.filter]. rewrite (bool_decide_false (n = [])) by done. cbn [negb].
  rewrite bool_decide_false by done. apply Clean_rel. exists [n]. split; [done|]. split; [by constructor|done].
Qed.

Lemma refuse_absent op n e w up es a : normal n -> name_absent (w_fs w) n up es a ->
  exists w', refuse b root_links h op n e w = (Io e, w') /\ w_fs w' = w_fs w.
Proof.
  intros Hn H. unfold refuse, plantedLink.
  assert (path_Clean n = n) as -> by (apply Clean_rel; exists [n]; split; [done|]; split; [by constructor|done]).
  rewrite split_byte_none by apply Hn. cbn [length planted_loop take firstn]. rewrite join_parts_name by done. unfold Lstat. calm.
  rewrite (walk_absent _ _ _ _ _ _ Hn H). cbn [res_bind found]. by exists w0.
Qed.

Lemma readFile_absent w n up es a : normal n -> name_absent (w_fs w) n up es a ->
  exists w', readFile b root_links h n w = (Err (Io ENOENT), w') /\ w_fs w' = w_fs w.
Proof.
  intros Hn H. unfold readFile, openRegular, OpenExisting. calm. rewrite (walk_absent _ _ _ _ _ _ Hn H) in *. cbn [res_bind found] in *.
  rewrite <- F in H. destruct (refuse_absent (lit "read") n ENOENT w0 up es a Hn H) as (w1 & E & F1). unfold refused. rewrite E.
  exists w1. split; [done|congruence].
Qed.

Lemma exists_absent op w n up es a : normal n -> name_absent (w_fs w) n up es a ->
  exists w', exists_ b root_links h op n w = (Ok false, w') /\ w_fs w' = w_fs w.
Proof.
  intros Hn H. unfold exists_, Lstat. calm. rewrite (walk_absent _ _ _ _ _ _ Hn H). cbn [res_bind found]. rewrite <- F in H.
  destruct (refuse_absent (lit "read") n ENOENT w0 up es a Hn H) as (w1 & -> & F1). exists w1. split; [done|congruence].
Qed.

Lemma exists_there op w n i m c : normal n -> name_is (w_fs w) n i m c ->
  exists w', exists_ b root_links h op n w = (Ok true, w') /\ w_fs w' = w_fs w.
Proof.
  intros Hn H. unfold exists_, Lstat. calm. rewrite (walk_is _ _ _ _ _ _ Hn H). cbn [res_bind found]. unfold info_of.
  destruct H as (up & es & a & Hh & Hi & Hf). rewrite Hf. by exists w0.
Qed.

Lemma writeFile_new w n blob mode up es a : normal n -> name_absent (w_fs w) n up es a ->
  exists w' i m, writeFile b root_links umask h n blob mode w = (Ok tt, w') /\ w_fs w !! i = None /\
    w_fs w' = <[i := NFile Regular m blob]> (<[h := NDir up (<[n := i]> es) a]> (w_fs w)).
Proof.
  intros Hn H. unfold writeFile, CreateNew. calm. rewrite (walk_absent _ _ _ _ _ _ Hn H) in *. cbn [res_bind] in *.
  destruct H as [Hh He]. rewrite Hh in *. set (i := fresh (dom (w_fs w))) in *.
  destruct (write_quiet w0 i n blob (Z.land mode (Z.lnot umask))) as (w1 & E1 & F1); [by rewrite F, lookup_insert_eq|].
  exists w1, i, (Z.land mode (Z.lnot umask)). split; [exact E1|]. split; [apply not_elem_of_dom, is_fresh|].
  by rewrite F1, F, insert_insert_eq.
Qed.

(** After [writeIfChanged] the name is a regular file with the content and the
    mode, and nothing else has changed. *)
Lemma writeIfChanged_quiet w n content mode up es a :
  w_fs w !! h = Some (NDir up es a) -> normal n ->
  (es !! n = None \/ exists i m c, es !! n = Some i /\ w_fs w !! i = Some (NFile Regular m c)) ->
  exists w' i, writeIfChanged b root_links umask h n content mode w = (Ok tt, w') /\
    (es !! n = Some i \/ es !! n = None /\ w_fs w !! i = None) /\
    w_fs w' = <[i := NFile Regular mode content]> (<[h := NDir up (<[n := i]> es) a]> (w_fs w)).
Proof.
  intros Hh Hn [He|(i & m & c & He & Hf)]; unfold writeIfChanged.
  - assert (name_absent (w_fs w) n up es a) as H by done.
    destruct (exists_absent (lit "write") w n up es a Hn H) as (w1 & -> & F1). rewrite <- F1 in H.
    destruct (readFile_absent w1 n up es a Hn H) as (w2 & -> & F2). rewrite <- F2 in H.
    destruct (writeFile_new w2 n content mode up es a Hn H) as (w3 & i & m & -> & Hi & F3). rewrite F2, F1 in Hi, F3.
    assert (i <> h) as Hih by congruence.
    destruct (chmod_quiet w3 n i m content mode Hn) as (w4 & -> & F4).
    { rewrite F3. exists up, (<[n := i]> es), a.
      split; [rewrite lookup_insert_ne by done; apply lookup_insert_eq|]. split; apply lookup_insert_eq. }
    exists w4, i. split; [done|]. split; [by right|]. by rewrite F4, F3, insert_insert_eq.
  - assert (name_is (w_fs w) n i m c) as H by by exists up, es, a.
    destruct (exists_there (lit "write") w n i m c Hn H) as (w0 & -> & F). rewrite <- F in H.
    destruct (readFile_quiet w0 n i m c Hn H) as (w1 & -> & F1). rewrite <- F1 in H.
    assert (<[h := NDir up (<[n := i]> es) a]> (w_fs w) = w_fs w) as Hid by (apply insert_id; by rewrite insert_id).
    case_bool_decide as Hc.
    + subst c. destruct (chmod_quiet w1 n i m content mode Hn H) as (w2 & -> & F2). exists w2, i. split; [done|]. split; [by left|].
      by rewrite Hid, F2, F1, F.
    + destruct (writeFile_over w1 n i m c content mode Hn H) as (w2 & -> & F2).
      destruct (chmod_quiet w2 n i m content mode Hn) as (w3 & -> & F3); [rewrite F2; by eapply name_insert|].
      exists w3, i. split; [done|]. split; [by left|]. by rewrite Hid, F3, F2, F1, F, insert_insert_eq.
Qed.
End QuietFiles.

Lemma marker_normal : normal (lit "marker").
Proof. repeat split; try done. by vm_compute; set_solver. Qed.

Lemma writeIfChanged_confined_witness :
  exists w', writeIfChanged quiet 40 18 4 (lit "marker") (lit "x") 420 (begin demo_fs) = (Ok tt, w') /\ length (w_acts w') = 3%nat /\
    forall a, a ∈ w_acts w' -> confined 4 (seen w') a.
Proof.
  destruct (writeIfChanged quiet 40 18 4 (lit "marker") (lit "x") 420 (begin demo_fs)) as [r w'] eqn:E.
  assert (r = Ok tt /\ length (w_acts w') = 3%nat) as [-> Hl].
  { pose proof (f_equal fst E) as E1. pose proof (f_equal (fun x => length (w_acts (snd x))) E) as E2. cbn [fst snd] in E1, E2.
    rewrite <- E1, <- E2. split; vm_compute; reflexivity. }
  exists w'. split; [done|]. split; [done|].
  refine (writeIfChanged_confined quiet 40 18 4 _ _ _ _ (begin demo_fs) _ _ eq_refl E). intros n s i k m c H. eauto.
Defined.

Lemma writeIfChanged_quiet_witness :
  exists w' i, writeIfChanged quiet 40 18 4 (lit "marker") (lit "x") 420 (begin demo_fs) = (Ok tt, w') /\
    ((∅ : gmap gostr positive) !! lit "marker" = Some i \/ (∅ : gmap gostr positive) !! lit "marker" = None /\ demo_fs !! i = None) /\
    w_fs w' = <[i := NFile Regular 420 (lit "x")]> (<[4%positive := NDir 3 (<[lit "marker" := i]> ∅) mine]> demo_fs).
Proof.
  apply (writeIfChanged_quiet quiet 40 18 4 (fun _ _ => eq_refl) (fun _ => eq_refl) (begin demo_fs) (lit "marker") (lit "x") 420 3 ∅ mine).
  - vm_compute. reflexivity.
  - exact marker_normal.
  - left. reflexivity.
Defined.
