(* ===== verification/Verify.v ===== *)
(** * The signature of an image (internal/verify/verify.go, credhelper.go)

    Which references are brig's own, the digest that a reference names in its
    registry, and what cosign says of it.  cosign is a function of its
    arguments: its output, and whether it failed or was cut off. *)

From stdpp Require Import prelude list strings gmap.
From Stdlib Require Import ZArith Lia ZifyNat Ascii.
From S2P Require Import Prelude GoUnicode GoStrings GoNum GoJson GoPath Volumes ProfileReg.

Local Open Scope Z_scope.

(** ** Modes and policies *)

Inductive verify_mode := Off | Warn | Require_mode.
#[export] Instance verify_mode_eq_dec : EqDecision verify_mode.
Proof. solve_decision. Defined.

(** [ParseModeStrict]: what is no mode is given back. *)
Definition ParseModeStrict (s : gostr) : res gostr verify_mode :=
  let w := to_lower (trim_space s) in
  if bool_decide (w = []) || bool_decide (w = lit "warn") then Ok Warn
  else if mem w [lit "off"; lit "none"; lit "0"] then Ok Off
  else if mem w [lit "require"; lit "strict"] then Ok Require_mode
  else Err s.

Record TrustPolicy := MkTrust { tp_Registry : gostr; tp_Identity : gostr; tp_Issuer : gostr; tp_Cosign : gostr }.

Definition github_issuer : gostr := lit "https://token.actions.githubusercontent.com".

Definition DefaultPolicy : TrustPolicy :=
  MkTrust (lit "ghcr.io/brig-sh/")
    (lit "^https://github\.com/brig-sh/community-images/\.github/workflows/build-images\.yml@refs/heads/main$") github_issuer (lit "cosign").

Definition BootAssetsPolicy : TrustPolicy :=
  MkTrust (lit "ghcr.io/nofireai/")
    (lit "^https://github\.com/NOFireAI/hull-assets/\.github/workflows/build-assets\.yml@refs/heads/main$") github_issuer (lit "cosign").

(** record.go: the trust root of the Linux runtime bundle. *)
Definition RuntimeBundlePolicy : TrustPolicy :=
  MkTrust [] (lit "^https://github\.com/NOFireAI/brig-standalone-linux/\.github/workflows/release\.yml@refs/tags/") github_issuer (lit "cosign").

Definition Replaced (p : TrustPolicy) : bool :=
  negb (existsb (fun shipped => bool_decide (tp_Registry p = tp_Registry shipped) && bool_decide (tp_Identity p = tp_Identity shipped) &&
                                bool_decide (tp_Issuer p = tp_Issuer shipped)) [DefaultPolicy; BootAssetsPolicy]).

Inductive Outcome := Verified | NotOurs | NoTooling | FailedCheck | Mismatch | Unresolved.
#[export] Instance Outcome_eq_dec : EqDecision Outcome.
Proof. solve_decision. Defined.

Record Result := MkResult {
  vr_Policy : TrustPolicy; vr_Outcome : Outcome; vr_Image : gostr; vr_Digest : gostr; vr_Local : gostr; vr_Ours : bool; vr_Detail : gostr; vr_TimedOut : bool }.

(** ** References *)

Definition normalizeRef (ref : gostr) : gostr :=
  let s := trim_prefix (trim_prefix ref (lit "https://")) (lit "http://") in
  let '(host, rest, found) := cut s (lit "/") in
  if negb found then to_lower s else trim_suffix (to_lower host) (lit ":443") ++ lit "/" ++ rest.

Definition isHex (s : gostr) : bool := forallb (fun r => in_range 48 57 r || in_range 97 102 r) (runes s).

Definition isDigest (s : gostr) : bool :=
  match strip_prefix (lit "sha256:") s with Some h => (length h =? 64)%nat && isHex h | None => false end.

(** [digestFromOutput]: the first marker with a separator and 64 hex digits
    behind it. *)
Fixpoint digest_scan (fuel : nat) (out : gostr) : gostr :=
  match fuel with
  | O => []
  | S fuel' =>
    match cut_at (lit "sha256") out with
    | None => []
    | Some (_, rest) =>
      match rest with
      | sep :: h =>
        if (64 <=? length h)%nat && (Ascii.eqb sep ":" || Ascii.eqb sep "-") && isHex (take 64 h) then lit "sha256:" ++ take 64 h
        else digest_scan fuel' rest
      | [] => digest_scan fuel' rest
      end
    end
  end.
Definition digestFromOutput (out : gostr) : gostr := digest_scan (S (length out)) out.

(** [refWithDigest]: a digest in the place of the digest or of the tag. *)
Definition refWithDigest (ref digest : gostr) : gostr :=
  let base :=
    match cut_at (lit "@") ref with
    | Some (a, _) => a
    | None => match cut_last ":" ref with
              | Some (a, tag) => if contains tag (lit "/") then ref else a
              | None => ref
              end
    end in
  base ++ lit "@" ++ digest.

(** [splitRef] (bundle.go): the registry host and the repository. *)
Definition splitRef (ref : gostr) : option (gostr * gostr) :=
  let s := trim_suffix (refWithDigest (normalizeRef ref) []) (lit "@") in
  let '(host, repo, ok) := cut s (lit "/") in
  if negb ok || bool_decide (host = []) || bool_decide (repo = []) || negb (contains_any host (lit ".:")) then None else Some (host, repo).

(** ** What cosign says *)

Definition line_feed : byte := zb 10.

Definition skipped_line (line : gostr) : bool :=
  bool_decide (line = []) || has_prefix line (lit "Verification for ") || has_prefix line (lit "The following checks") || has_prefix line (lit "  - ") ||
  (has_prefix line (lit "Command " ++ [zb 34]) && contains line (lit "is deprecated")).

Inductive run_failure := TimedOut | Exited (e : gostr).

Definition failure_text (e : run_failure) : gostr := match e with TimedOut => lit "cosign did not answer" | Exited e => e end.

(** [firstLine]: the first line that says something. *)
Definition firstLine (out : gostr) (err : option run_failure) : gostr :=
  match List.find (fun line => negb (skipped_line line)) (trim_space <$> split_byte line_feed out) with
  | Some line => line
  | None => match err with Some e => failure_text e | None => lit "no detail" end
  end.

(** [firstBlobLine] (record.go). *)
Definition firstBlobLine (out : gostr) (err : option run_failure) : gostr :=
  firstLine (join [line_feed] (List.filter (fun line => negb (has_prefix (trim_space line) (lit "Flag --"))) (split_byte line_feed out))) err.

(** [unreachable] (record.go). *)
Definition unreachable (out : gostr) : bool :=
  existsb (contains out)
    [lit "dial tcp"; lit "no such host"; lit "i/o timeout"; lit "connection refused"; lit "connection reset"; lit "network is unreachable";
     lit "TLS handshake timeout"; lit "context deadline exceeded"; lit "Client.Timeout"].

Definition cosignInstallDocs : gostr := lit "https://docs.sigstore.dev/cosign/system_config/installation/".
Definition cosignNotInstalled (goos : gostr) : gostr :=
  if bool_decide (goos = lit "darwin") then lit "cosign is not installed (`brew install cosign`)"
  else if bool_decide (goos = lit "linux") then lit "cosign is not installed (Brig's install.sh brings one, or see " ++ cosignInstallDocs ++ lit ")"
  else lit "cosign is not installed (see " ++ cosignInstallDocs ++ lit ")".
Definition CosignMissing (goos : gostr) (p : TrustPolicy) : gostr :=
  if bool_decide (tp_Cosign p = tp_Cosign DefaultPolicy) then cosignNotInstalled goos
  else lit "cosign was not found at " ++ tp_Cosign p ++ lit ", where BRIG_COSIGN_BIN points".

(** *** credhelper.go *)

Record dockerConfig := MkDockerConfig { dc_CredsStore : gostr; dc_CredHelpers : gmap gostr gostr }.

(** A string, and a map of strings, decoded over what is there; [null] leaves a
    string as it is and empties a map. *)
Definition decode_string (old : gostr) (v : json) : option gostr :=
  match v with JNull => Some old | JStr s => Some s | _ => None end.
Definition decode_strings (old : gmap gostr gostr) (v : json) : option (gmap gostr gostr) :=
  match v with
  | JNull => Some ∅
  | JObj ms => set_members (fun m kv => (fun s => <[kv.1 := s]> m) <$> decode_string [] kv.2) old ms
  | _ => None
  end.

Inductive docker_field := FCredsStore | FCredHelpers.
Definition docker_fields : list (gostr * docker_field) := [(lit "credsStore", FCredsStore); (lit "credHelpers", FCredHelpers)].
Definition set_docker (c : dockerConfig) (m : gostr * json) : option dockerConfig :=
  match json_field docker_fields m.1 with
  | Some FCredsStore => (fun s => MkDockerConfig s (dc_CredHelpers c)) <$> decode_string (dc_CredsStore c) m.2
  | Some FCredHelpers => MkDockerConfig (dc_CredsStore c) <$> decode_strings (dc_CredHelpers c) m.2
  | None => Some c
  end.
Definition decode_docker (blob : gostr) : option dockerConfig :=
  match json_parse blob with
  | Some JNull => Some (MkDockerConfig [] ∅)
  | Some (JObj ms) => set_members set_docker (MkDockerConfig [] ∅) ms
  | _ => None
  end.

Definition maxDockerConfig : nat := Z.to_nat (2 ^ 20).

Section Policy.
Variable env : environment.
(** The text of a regular file, or nothing. *)
Variable readRegular : gostr -> option gostr.
Variable lookPath : gostr -> bool.
(** [run]: cosign's output, and how it failed if it did. *)
Variable run : gostr -> list gostr -> gostr * option run_failure.

(** [readSmallFile]. *)
Definition readSmallFile (path : gostr) : option gostr := take maxDockerConfig <$> readRegular path.

Definition credentialHelper (ref : gostr) : option (gostr * gostr * gostr) :=
  let dir := if bool_decide (env_get env (lit "DOCKER_CONFIG") = []) then (fun h => filepath_Join h (lit ".docker")) <$> env_home env
             else Some (env_get env (lit "DOCKER_CONFIG")) in
  match dir with
  | None => None
  | Some dir =>
    let path := filepath_Join dir (lit "config.json") in
    match readSmallFile path with
    | None => None
    | Some b =>
      match decode_docker b with
      | None => None
      | Some cfg =>
        let host := (cut (normalizeRef ref) (lit "/")).1.1 in
        let h := default [] (dc_CredHelpers cfg !! host) in
        if negb (bool_decide (h = [])) then Some (path, h, lit "credHelpers")
        else if negb (bool_decide (dc_CredsStore cfg = [])) then Some (path, dc_CredsStore cfg, lit "credsStore") else None
      end
    end
  end.

Definition timeoutDetail (ref : gostr) : gostr :=
  lit "cosign did not answer within 30s" ++
  match credentialHelper ref with
  | Some (path, helper, key) =>
    lit ". It waits on docker-credential-" ++ helper ++ lit ", set by " ++ key ++ lit " in " ++ path ++
    lit ". Start the app that helper belongs to, or run brig with DOCKER_CONFIG set to an empty directory (and restart brigd with it set, if brigd is running)"
  | None => []
  end.

Definition ours (p : TrustPolicy) (ref : gostr) : bool := has_prefix (normalizeRef ref) (tp_Registry p).

Definition verify_args (p : TrustPolicy) (subject : gostr) : list gostr :=
  [lit "verify"; lit "--certificate-identity-regexp"; tp_Identity p; lit "--certificate-oidc-issuer"; tp_Issuer p; subject].

(** [Policy.Image]: the check of a tag. *)
Definition Policy_Image (p : TrustPolicy) (ref : gostr) : Result :=
  if negb (ours p ref) then MkResult p NotOurs ref [] [] false [] false
  else if negb (lookPath (tp_Cosign p)) then MkResult p NoTooling ref [] [] false [] false
  else
    let '(out, err) := run (tp_Cosign p) (verify_args p (normalizeRef ref)) in
    match err with
    | Some TimedOut => MkResult p FailedCheck ref [] [] false (timeoutDetail ref) true
    | Some (Exited _) => MkResult p FailedCheck ref [] [] false (firstLine out err) false
    | None => MkResult p Verified ref [] [] false [] false
    end.

(** [resolveDigest]; [None] is a cosign that was cut off. *)
Definition resolveDigest (p : TrustPolicy) (ref : gostr) : res (option gostr) gostr :=
  let '(out, err) := run (tp_Cosign p) [lit "triangulate"; ref] in
  match err with
  | Some TimedOut => Err None
  | Some (Exited _) => Err (Some (firstLine out err))
  | None =>
    let d := digestFromOutput out in
    if bool_decide (d = []) then Err (Some (lit "cosign named no digest for " ++ ref)) else Ok d
  end.

(** [Policy.Verify]: the check of the digest that the registry serves. *)
Definition Policy_Verify (p : TrustPolicy) (ref localDigest : gostr) : Result :=
  if negb (ours p ref) then MkResult p NotOurs ref [] [] false [] false
  else if negb (lookPath (tp_Cosign p)) then MkResult p NoTooling ref [] [] true [] false
  else
    match resolveDigest p ref with
    | Err None => MkResult p Unresolved ref [] [] true (timeoutDetail ref) true
    | Err (Some e) => MkResult p Unresolved ref [] [] true e false
    | Ok digest =>
      let '(out, err) := run (tp_Cosign p) (verify_args p (refWithDigest ref digest)) in
      match err with
      | Some TimedOut => MkResult p FailedCheck ref digest [] true (timeoutDetail ref) true
      | Some (Exited _) => MkResult p FailedCheck ref digest [] true (firstLine out err) false
      | None =>
        if negb (bool_decide (localDigest = [])) && negb (bool_decide (localDigest = digest)) then MkResult p Mismatch ref digest localDigest true [] false
        else MkResult p Verified ref digest [] true [] false
      end
    end.

Definition blob_args (p : TrustPolicy) (file sig cert : gostr) : list gostr :=
  [lit "verify-blob"; lit "--certificate"; cert; lit "--signature"; sig; lit "--certificate-identity-regexp"; tp_Identity p;
   lit "--certificate-oidc-issuer"; tp_Issuer p; file].

(** [Policy.Blob] (record.go). *)
Definition Policy_Blob (p : TrustPolicy) (file sig cert : gostr) : Result :=
  if negb (lookPath (tp_Cosign p)) then MkResult p NoTooling file [] [] false [] false
  else
    let '(out, err) := run (tp_Cosign p) (blob_args p file sig cert) in
    match err with
    | None => MkResult p Verified file [] [] false [] false
    | Some TimedOut => MkResult p Unresolved file [] [] false (lit "cosign did not answer within 30s") true
    | Some (Exited _) =>
      let detail := firstBlobLine out err in
      if unreachable out then MkResult p Unresolved file [] [] false detail false else MkResult p FailedCheck file [] [] false detail false
    end.
End Policy.

(** [Policy.Tooling]. *)
Definition Tooling (lookPath : gostr -> option gostr) (p : TrustPolicy) : gostr * bool :=
  match lookPath (tp_Cosign p) with Some path => (path, true) | None => ([], false) end.

(** * Theorems *)

(** ** Spellings of a reference *)

Lemma trim_prefix_other p s : has_prefix s p = false -> trim_prefix s p = s.
Proof. unfold has_prefix, trim_prefix. by destruct (strip_prefix p s). Qed.

Lemma trim_prefix_app p s : trim_prefix (p ++ s) p = s.
Proof. unfold trim_prefix. by rewrite strip_prefix_app. Qed.

(** A name of a host: no port, no path. *)
Definition host_name (h : gostr) : Prop := all_ascii h = true /\ ":"%char ∉ h /\ "/"%char ∉ h.

(** What is cut off in front of a host is not a part of it. *)
Lemma scheme_stays h port rest x :
  host_name h -> port = [] \/ port = lit ":443" -> x = lit "http" \/ x = lit "https" ->
  trim_prefix (h ++ port ++ lit "/" ++ rest) (x ++ lit "://") = h ++ port ++ lit "/" ++ rest.
Proof.
  intros (_ & Hc & Hs) Hp Hx. apply trim_prefix_other. apply not_true_iff_false. intros (r & E)%has_prefix_true.
  rewrite <- app_assoc in E. change (lit "://" ++ r) with (":"%char :: "/"%char :: lit "/" ++ r) in E.
  assert (":"%char ∉ x /\ "/"%char ∉ x ++ [":"%char]) as [Nc Ns] by (destruct Hx as [-> | ->]; vm_compute; set_solver).
  destruct Hp as [-> | ->].
  - pose proof (cut_at_byte_app "/" h rest Hs) as C1.
    pose proof (cut_at_byte_app "/" (x ++ [":"%char]) (lit "/" ++ r) Ns) as C2. rewrite <- app_assoc in C2. cbn [app] in C1, C2.
    change (lit "/" ++ rest) with ("/"%char :: rest) in E. cbn [app] in E. rewrite E in C1. rewrite C1 in C2. injection C2 as -> _.
    apply Hc. set_solver.
  - pose proof (cut_at_byte_app ":" h (lit "443/" ++ rest) Hc) as C1. pose proof (cut_at_byte_app ":" x ("/"%char :: lit "/" ++ r) Nc) as C2.
    change (lit ":443" ++ lit "/" ++ rest) with (":"%char :: lit "443/" ++ rest) in E. rewrite E in C1. rewrite C1 in C2. by injection C2.
Qed.

Lemma lower_byte_colon c : lower_byte c = ":"%char -> c = ":"%char.
Proof. destruct c as [[] [] [] [] [] [] [] []]; vm_compute; congruence. Qed.

(** Every spelling of a reference is the same one: with or without a scheme,
    the host in any case, with or without the port of https. *)
Lemma normalizeRef_spelling scheme h port rest :
  scheme = [] \/ scheme = lit "http://" \/ scheme = lit "https://" -> host_name h -> port = [] \/ port = lit ":443" ->
  normalizeRef (scheme ++ h ++ port ++ lit "/" ++ rest) = (lower_byte <$> h) ++ lit "/" ++ rest.
Proof.
  intros Hm Hh Hp. unfold normalizeRef.
  assert (trim_prefix (trim_prefix (scheme ++ h ++ port ++ lit "/" ++ rest) (lit "https://")) (lit "http://") = h ++ port ++ lit "/" ++ rest) as ->.
  { pose proof (scheme_stays h port rest _ Hh Hp (or_introl eq_refl)) as S1. pose proof (scheme_stays h port rest _ Hh Hp (or_intror eq_refl)) as S2.
    change (lit "https" ++ lit "://") with (lit "https://") in S2. change (lit "http" ++ lit "://") with (lit "http://") in S1.
    destruct Hm as [-> |[-> | ->]].
    - cbn [app]. by rewrite S2, S1.
    - rewrite (trim_prefix_other (lit "https://")) by done. by rewrite trim_prefix_app.
    - by rewrite trim_prefix_app, S1. }
  destruct Hh as (Ha & Hc & Hs).
  assert ("/"%char ∉ h ++ port) as Hs' by (destruct Hp as [-> | ->]; rewrite ?app_nil_r; [done|]; vm_compute (lit ":443"); set_solver).
  unfold cut. change (lit "/") with ["/"%char]. replace (h ++ port ++ ["/"%char] ++ rest) with ((h ++ port) ++ "/"%char :: rest) by (by rewrite <- app_assoc).
  rewrite cut_at_byte_app by done. cbn [negb].
  f_equal. rewrite to_lower_ascii by (unfold all_ascii in *; rewrite forallb_app, Ha; by destruct Hp as [-> | ->]).
  rewrite fmap_app. destruct Hp as [-> | ->].
  - cbn [fmap list_fmap]. rewrite app_nil_r. destruct (trim_suffix_cases (lower_byte <$> h) (lit ":443")) as [E|E]; [|done].
    exfalso. apply Hc. assert (":"%char ∈ lower_byte <$> h) as H by (rewrite E; vm_compute (lit ":443"); set_solver).
    apply list_elem_of_fmap in H as (c & E' & H). symmetry in E'. apply lower_byte_colon in E'. by subst.
  - change (lower_byte <$> lit ":443") with (lit ":443"). apply trim_suffix_app.
Qed.

(** ** The digest in cosign's output *)

(** The marker, a separator and 64 hex digits, [i] bytes into the output. *)
Definition names_digest (out : gostr) (i : nat) (h : gostr) : Prop :=
  exists a sep b, out = a ++ lit "sha256" ++ sep :: h ++ b /\ length a = i /\ (sep = ":"%char \/ sep = "-"%char) /\ length h = 64%nat /\ isHex h = true.

(** The marker does not overlap itself. *)
Lemma marker_apart w (rest t : gostr) : lit "sha256" ++ rest = w ++ lit "sha256" ++ t -> w = [] \/ exists v, w = lit "sha256" ++ v /\ rest = v ++ lit "sha256" ++ t.
Proof.
  destruct w as [|c1 [|c2 [|c3 [|c4 [|c5 [|c6 w]]]]]]; intros E; [by left|injection E; intros; discriminate..|].
  right. exists w. injection E as <- <- <- <- <- <- E. by rewrite E.
Qed.

Lemma digest_scan_exact f out : (length out < f)%nat ->
  match digest_scan f out with
  | [] => forall i h, ~ names_digest out i h
  | d => exists i h, d = lit "sha256:" ++ h /\ names_digest out i h /\ forall j h', names_digest out j h' -> (i <= j)%nat
  end.
Proof.
  revert out. induction f as [|f IH]; intros out Hf; [lia|]. cbn [digest_scan].
  destruct (cut_at (lit "sha256") out) as [[a rest]|] eqn:C.
  2:{ intros i h (b & sep & e & -> & _). apply cut_at_None in C. apply C. by eexists _, _. }
  pose proof (cut_at_Some _ _ _ _ C) as E.
  assert (forall j h', names_digest out j h' -> (length a <= j)%nat) as First.
  { intros j h' (b & sep & e & E' & <- & _). by eapply cut_at_first. }
  destruct (match rest with sep :: h => (64 <=? length h)%nat && (Ascii.eqb sep ":" || Ascii.eqb sep "-") && isHex (take 64 h) | [] => false end) eqn:T.
  - destruct rest as [|sep h]; [done|]. rewrite T. rewrite !andb_true_iff in T. destruct T as [[T1 T2] T3]. apply Nat.leb_le in T1.
    cbn [app lit]. exists (length a), (take 64 h). split; [done|]. split; [|done].
    exists a, sep, (drop 64 h). rewrite take_drop. split; [done|]. split; [done|].
    split; [|by rewrite length_take; split; [lia|]]. apply orb_true_iff in T2 as [T2|T2]; apply Ascii.eqb_eq in T2; auto.
  - assert (match rest with sep :: h => if (64 <=? length h)%nat && (Ascii.eqb sep ":" || Ascii.eqb sep "-") && isHex (take 64 h) then lit "sha256:" ++ take 64 h else digest_scan f rest | [] => digest_scan f rest end = digest_scan f rest) as ->
      by (destruct rest; [done|]; by rewrite T).
    assert (forall j h', names_digest out j h' <-> exists k, j = (length a + 6 + k)%nat /\ names_digest rest k h') as Sh.
    { intros j h'. split.
      - intros H. specialize (First _ _ H). destruct H as (b & sep & e & E' & <- & Hs & Hl & Hx). rewrite E in E'.
        assert (b = a ++ drop (length a) b) as Eb.
        { apply (f_equal (take (length a))) in E'. rewrite take_app_length in E'. rewrite take_app_le in E' by done. rewrite E' at 1. by rewrite take_drop. }
        rewrite Eb in E'. rewrite <- app_assoc in E'. apply app_inv_head in E'. destruct (marker_apart _ _ _ E') as [W|(v & W & Er)].
        + rewrite W in E'. cbn [app] in E'. apply app_inv_head in E'. subst rest. rewrite length_app in T.
          replace (64 <=? length h' + length e)%nat with true in T by (symmetry; apply Nat.leb_le; lia). rewrite <- Hl in T at 1. rewrite take_app_length in T.
          rewrite Hx in T. by destruct Hs as [-> | ->].
        + exists (length v). split; [|by exists v, sep, e]. rewrite Eb, W, !length_app. cbn. lia.
      - intros (k & -> & b & sep & e & -> & <- & H). exists (a ++ lit "sha256" ++ b), sep, e. split; [by rewrite E, <- !app_assoc|].
        split; [rewrite !length_app; cbn; lia|done]. }
    specialize (IH rest). rewrite E, !length_app in Hf. cbn in Hf. specialize (IH ltac:(lia)). destruct (digest_scan f rest) as [|c d].
    + intros i h H. apply Sh in H as (k & _ & H). by apply IH in H.
    + destruct IH as (i & h & Ed & H & Min). exists (length a + 6 + i)%nat, h. split; [done|]. split; [apply Sh; eauto|].
      intros j h' H'. apply Sh in H' as (k & -> & H'). specialize (Min _ _ H'). lia.
Qed.

(** The digest that is read is the first that cosign names, in either of its
    spellings; nothing is read exactly when it names none. *)
Lemma digestFromOutput_exact out :
  match digestFromOutput out with
  | [] => forall i h, ~ names_digest out i h
  | d => exists i h, d = lit "sha256:" ++ h /\ names_digest out i h /\ forall j h', names_digest out j h' -> (i <= j)%nat
  end.
Proof. apply digest_scan_exact. lia. Qed.

Lemma digestFromOutput_digest out d : digestFromOutput out = d -> d <> [] -> isDigest d = true.
Proof.
  intros <- N. pose proof (digestFromOutput_exact out) as H. destruct (digestFromOutput out) as [|c d]; [done|].
  destruct H as (i & h & -> & (a & sep & b & _ & _ & _ & L & X) & _). unfold isDigest. by rewrite strip_prefix_app, L, X.
Qed.

(** ** A reference at a digest *)

Lemma refWithDigest_tag base tag d :
  "@"%char ∉ base ++ tag -> ":"%char ∉ tag -> "/"%char ∉ tag -> refWithDigest (base ++ ":"%char :: tag) d = base ++ lit "@" ++ d.
Proof.
  intros Na Nc Ns. unfold refWithDigest. change (lit "@") with ["@"%char].
  rewrite (proj2 (cut_at_byte "@" (base ++ ":"%char :: tag))) by set_solver. rewrite cut_last_app by done.
  rewrite (proj2 (contains_false tag (lit "/"))); [done|]. intros (a & b & ->). apply Ns. change (lit "/") with ["/"%char]. set_solver.
Qed.

Lemma refWithDigest_digest base old d : "@"%char ∉ base -> refWithDigest (base ++ lit "@" ++ old) d = base ++ lit "@" ++ d.
Proof. intros Na. unfold refWithDigest. change (lit "@") with ["@"%char]. cbn [app]. by rewrite cut_at_byte_app. Qed.

(** A colon in front of a slash is the port of the registry. *)
Lemma refWithDigest_plain ref d :
  "@"%char ∉ ref -> (forall a b, cut_last ":" ref = Some (a, b) -> "/"%char ∈ b) -> refWithDigest ref d = ref ++ lit "@" ++ d.
Proof.
  intros Na Nt. unfold refWithDigest. change (lit "@") with ["@"%char]. rewrite (proj2 (cut_at_byte "@" ref)) by done.
  destruct (cut_last ":" ref) as [[a b]|]; [|done]. rewrite (proj2 (contains_true b (lit "/"))); [done|].
  destruct (list_elem_of_split _ _ (Nt a b eq_refl)) as (x & y & ->). by exists x, y.
Qed.

(** ** What a check concludes *)

Section Checks.
Variable env : environment.
Variable readRegular : gostr -> option gostr.
Variable lookPath : gostr -> bool.
Variable run : gostr -> list gostr -> gostr * option run_failure.
Notation check_tag := (Policy_Image env readRegular lookPath run).
Notation check_digest := (Policy_Verify env readRegular lookPath run).

(** cosign took the signature of [subject] for one of the policy. *)
Definition signed (p : TrustPolicy) (subject : gostr) : Prop := exists out, run (tp_Cosign p) (verify_args p subject) = (out, None).

Lemma check_tag_verified p ref :
  vr_Outcome (check_tag p ref) = Verified <-> ours p ref = true /\ lookPath (tp_Cosign p) = true /\ signed p (normalizeRef ref).
Proof.
  unfold Policy_Image, signed. destruct (ours p ref); cbn [negb]; [|split; [done|by intros []]].
  destruct (lookPath (tp_Cosign p)); cbn [negb]; [|split; [done|by intros (_ & [=] & _)]].
  destruct (run _ _) as [out [[|e]|]]; (split; [done || eauto|]); [intros (_ & _ & o & [=])..|done].
Qed.

Lemma check_digest_verified p ref local :
  vr_Outcome (check_digest p ref local) = Verified <->
  ours p ref = true /\ lookPath (tp_Cosign p) = true /\
  exists d, resolveDigest run p ref = Ok d /\ signed p (refWithDigest ref d) /\ (local = [] \/ local = d) /\ vr_Digest (check_digest p ref local) = d.
Proof.
  unfold Policy_Verify, signed. destruct (ours p ref); cbn [negb]; [|split; [done|by intros []]].
  destruct (lookPath (tp_Cosign p)); cbn [negb]; [|split; [done|by intros (_ & [=] & _)]].
  destruct (resolveDigest run p ref) as [d|[e|]]; [|split; [done|intros (_ & _ & d & [=] & _)]..].
  destruct (run _ _) as [out [[|e]|]] eqn:R.
  1,2: split; [done|]; intros (_ & _ & d' & [= <-] & (o & S) & _); by rewrite R in S.
  destruct (negb _ && negb _) eqn:M.
  - split; [done|]. intros (_ & _ & d' & [= <-] & _ & L & _). apply andb_true_iff in M as [M1 M2]. apply negb_true_iff, bool_decide_eq_false in M1, M2.
    by destruct L.
  - split; [|done]. intros _. split; [done|]. split; [done|]. exists d. split; [done|]. split; [eauto|]. split; [|done].
    apply andb_false_iff in M as [M|M]; apply negb_false_iff, bool_decide_eq_true in M; auto.
Qed.

Lemma resolveDigest_digest p ref d : resolveDigest run p ref = Ok d -> isDigest d = true.
Proof.
  unfold resolveDigest. destruct (run _ _) as [out [[|e]|]]; [done..|]. case_bool_decide; [done|]. intros [= <-].
  by eapply digestFromOutput_digest.
Qed.

(** What a check of a digest can conclude, and what it says of the reference. *)
Lemma check_digest_ours p ref local :
  vr_Outcome (check_digest p ref local) = NotOurs <-> ours p ref = false.
Proof.
  unfold Policy_Verify. destruct (ours p ref); cbn [negb]; [|done].
  destruct (lookPath (tp_Cosign p)); cbn [negb]; [|done]. destruct (resolveDigest run p ref) as [d|[e|]]; [|done..].
  destruct (run _ _) as [out [[|e]|]]; [done..|]. by destruct (negb _ && negb _).
Qed.

Lemma check_tag_ours p ref : vr_Outcome (check_tag p ref) = NotOurs <-> ours p ref = false.
Proof.
  unfold Policy_Image. destruct (ours p ref); cbn [negb]; [|done].
  destruct (lookPath (tp_Cosign p)); cbn [negb]; [|done]. by destruct (run _ _) as [out [[|e]|]].
Qed.

Lemma check_digest_tooling p ref local :
  vr_Outcome (check_digest p ref local) = NoTooling <-> ours p ref = true /\ lookPath (tp_Cosign p) = false.
Proof.
  unfold Policy_Verify. destruct (ours p ref); cbn [negb]; [|by split; [|intros []]].
  destruct (lookPath (tp_Cosign p)); cbn [negb]; [|done]. destruct (resolveDigest run p ref) as [d|[e|]]; [|by split; [|intros []]..].
  destruct (run _ _) as [out [[|e]|]]; [by split; [|intros []]..|]. by destruct (negb _ && negb _); split; [|intros []| |intros []].
Qed.

Lemma check_tag_tooling p ref : vr_Outcome (check_tag p ref) = NoTooling <-> ours p ref = true /\ lookPath (tp_Cosign p) = false.
Proof.
  unfold Policy_Image. destruct (ours p ref); cbn [negb]; [|by split; [|intros []]].
  destruct (lookPath (tp_Cosign p)); cbn [negb]; [|done]. by destruct (run _ _) as [out [[|e]|]]; split; [|intros []| |intros []| |intros []].
Qed.
End Checks.

(** The bullets of cosign's banner are meant to be passed over; a line that is
    trimmed never starts like one. *)
Example banner_bullet_is_the_reason :
  firstLine (lit "Verification for x --" ++ [line_feed] ++ lit "The following checks were performed:" ++ [line_feed] ++
             lit "  - The cosign claims were validated" ++ [line_feed] ++ lit "Error: no matching signatures") (Some (Exited (lit "exit status 1")))
  = lit "- The cosign claims were validated".
Proof. vm_compute. reflexivity. Qed.

(** A tag in front of a digest stays, so it becomes part of the repository. *)
Example tag_beside_digest :
  refWithDigest (lit "ghcr.io/brig-sh/x:1@sha256:aa") (lit "sha256:bb") = lit "ghcr.io/brig-sh/x:1@sha256:bb" /\
  splitRef (lit "ghcr.io/brig-sh/x:1@sha256:aa") = Some (lit "ghcr.io", lit "brig-sh/x:1").
Proof. split; vm_compute; reflexivity. Qed.
