(* ===== verification/BundleFiles.v ===== *)
(** * What a signed digest lists (internal/verify/bundle.go, record.go)

    The digests of the files of a boot bundle: from its manifest in the
    registry, read by the digest that verified; from the record that hull keeps
    beside the files; and from the signed record of the Linux runtime bundle.
    The registry, the disk and SHA-256 are arguments. *)

From stdpp Require Import prelude list strings gmap.
From Stdlib Require Import ZArith Lia ZifyNat Ascii.
From S2P Require Import Prelude GoUnicode GoStrings GoNum GoJson GoPath GoUrl Journal Volumes ProfileReg Session Verify.

Local Open Scope Z_scope.

Notation digests := (gmap gostr gostr).

(** ** The registry *)

(** The answers that brig refuses, which no other record stands in for
    ([ManifestRefusedError]), and the requests that failed. *)
Inductive answer_refusal :=
  | RedirectTo (text : gostr) | RedirectedTooOften | TooLarge (address : gostr) | RealmRefused (realm : gostr)
  | OtherBytes (digest got : gostr) | NotJSON (digest : gostr) | NotManifest (digest media : gostr).
Inductive http_failure :=
  | NoRegistryHost (ref : gostr) | NotADigest (digest : gostr) | BadAddress (address : gostr) | Transport (e : gostr)
  | GetStatus (address text : gostr) | AskedForToken (header : gostr) | AuthScheme (scheme : gostr)
  | TokenStatus (host text : gostr) | TokenDecode (host : gostr) | NoToken (host : gostr).
Inductive http_error := RefusedAnswer (r : answer_refusal) | HttpFailed (e : http_failure).

(** What is asked for: a manifest by its address, with a token or without, or a
    token of a realm with its query. *)
Inductive target := AskManifest (address token : gostr) | AskToken (realm : url) (query : gmap gostr (list gostr)).

Record http_reply := MkReply { rp_status : Z; rp_text : gostr; rp_auth : gostr; rp_body : gostr * option gostr }.

(** What one request of a chain meets. *)
Inductive turn := NoAnswer (e : gostr) | Redirect (scheme text : gostr) | Answers (r : http_reply).

Definition maxManifest : nat := Z.to_nat (2 ^ 20).
Definition mediaOCIManifest : gostr := lit "application/vnd.oci.image.manifest.v1+json".
Definition mediaDockerManifest : gostr := lit "application/vnd.docker.distribution.manifest.v2+json".
Definition annotationTitle : gostr := lit "org.opencontainers.image.title".

(** [httpsRedirectsOnly]: [via] requests have been made. *)
Definition httpsRedirectsOnly (scheme text : gostr) (via : nat) : option http_error :=
  if negb (bool_decide (scheme = lit "https")) then Some (RefusedAnswer (RedirectTo text))
  else if (10 <=? via)%nat then Some (RefusedAnswer RedirectedTooOften) else None.

(** [io.ReadAll] of a body behind an [io.LimitReader]. *)
Definition read_limited (n : nat) (body : gostr * option gostr) : res gostr gostr :=
  if (n <=? length body.1)%nat then Ok (take n body.1)
  else match body.2 with Some e => Err e | None => Ok body.1 end.

(** [parseChallenge]: the pairs of a header; a quote that does not close takes
    the rest. *)
Fixpoint challenge_pairs (fuel : nat) (s : gostr) (out : gmap gostr gostr) : gmap gostr gostr :=
  match fuel with
  | O => out
  | S fuel' =>
    if bool_decide (s = []) then out
    else
      let s := trim_left (fun r => bool_decide (r = 32) || bool_decide (r = 44)) s in
      let '(key, rest, ok) := cut s (lit "=") in
      if negb ok then out
      else
        let '(val, s') :=
          match strip_prefix [quote] rest with
          | Some q => match cut_at [quote] q with Some (v, after) => (v, after) | None => (q, []) end
          | None => let '(v, after, _) := cut rest (lit ",") in (v, after)
          end in
        challenge_pairs fuel' s' (<[to_lower (trim_space key) := val]> out)
  end.
Definition parseChallenge (s : gostr) : gmap gostr gostr := challenge_pairs (S (length s)) s ∅.

(** *** The decoded answers *)

Record layer := MkLayer { ly_Digest : gostr; ly_Annotations : gmap gostr gostr }.
Definition zero_layer : layer := MkLayer [] ∅.

(** A slice keeps the elements that a shorter value left behind in its array,
    and a later value is decoded over them. *)
Record manifest := MkManifest { mf_MediaType : gostr; mf_array : list layer; mf_len : nat }.

Inductive layer_field := FDigest | FAnnotations.
Definition layer_fields : list (gostr * layer_field) := [(lit "digest", FDigest); (lit "annotations", FAnnotations)].
Definition set_layer (l : layer) (m : gostr * json) : option layer :=
  match json_field layer_fields m.1 with
  | Some FDigest => (fun s => MkLayer s (ly_Annotations l)) <$> decode_string (ly_Digest l) m.2
  | Some FAnnotations => MkLayer (ly_Digest l) <$> decode_strings (ly_Annotations l) m.2
  | None => Some l
  end.
Definition decode_layer (old : layer) (v : json) : option layer :=
  match v with JNull => Some old | JObj ms => set_members set_layer old ms | _ => None end.

Fixpoint decode_layers (arr : list layer) (items : list json) : option (list layer) :=
  match items with
  | [] => Some arr
  | v :: items' =>
    match decode_layer (default zero_layer (head arr)) v with
    | Some l => (cons l) <$> decode_layers (tail arr) items'
    | None => None
    end
  end.

Inductive manifest_field := FMediaType | FLayers.
Definition manifest_fields : list (gostr * manifest_field) := [(lit "mediaType", FMediaType); (lit "layers", FLayers)].
Definition set_manifest (m : manifest) (kv : gostr * json) : option manifest :=
  match json_field manifest_fields kv.1 with
  | Some FMediaType => (fun s => MkManifest s (mf_array m) (mf_len m)) <$> decode_string (mf_MediaType m) kv.2
  | Some FLayers =>
    match kv.2 with
    | JNull => Some (MkManifest (mf_MediaType m) [] 0)
    | JArr [] => Some (MkManifest (mf_MediaType m) [] 0)
    | JArr items => (fun arr => MkManifest (mf_MediaType m) arr (length items)) <$> decode_layers (mf_array m) items
    | _ => None
    end
  | None => Some m
  end.
Definition decode_manifest (body : gostr) : option manifest :=
  match json_parse body with
  | Some JNull => Some (MkManifest [] [] 0)
  | Some (JObj ms) => set_members set_manifest (MkManifest [] [] 0) ms
  | _ => None
  end.

(** The files that a manifest lists. *)
Definition list_layer (files : digests) (l : layer) : digests :=
  let name := default [] (ly_Annotations l !! annotationTitle) in
  if bool_decide (name = []) || negb (isDigest (ly_Digest l)) then files else <[name := ly_Digest l]> files.
Definition manifest_files (m : manifest) : digests := foldl list_layer ∅ (take (mf_len m) (mf_array m)).

(** The answer of a token request. *)
Definition token_fields : list (gostr * bool) := [(lit "token", true); (lit "access_token", false)].
Definition set_token_field (t : gostr * gostr) (kv : gostr * json) : option (gostr * gostr) :=
  match json_field token_fields kv.1 with
  | Some true => (fun s => (s, t.2)) <$> decode_string t.1 kv.2
  | Some false => (fun s => (t.1, s)) <$> decode_string t.2 kv.2
  | None => Some t
  end.
(** [Decoder.Decode] takes the first value of the text. *)
Definition decode_token (text : gostr) : option (gostr * gostr) :=
  match json_value (2 * length text) 0 (skip_ws text) with
  | Some (JNull, _) => Some ([], [])
  | Some (JObj ms, _) => set_members set_token_field ([], []) ms
  | _ => None
  end.

(** *** Requests *)

(** The realm, when it is an https address with a host. *)
Definition parse_realm (ip_literal : gostr -> bool) (realm : gostr) : option url :=
  if bool_decide (lower_byte <$> take 8 realm = lit "https://") then
    match parse_https ip_literal (drop 8 realm) with
    | Some u => if bool_decide (u_host u = []) then None else Some u
    | None => None
    end
  else None.

(** [url.Query]: the pairs that decode, by name. *)
Definition add_pair (q : gmap gostr (list gostr)) (kv : gostr) : gmap gostr (list gostr) :=
  if bool_decide (kv = []) || contains kv (lit ";") then q
  else
    let '(k, v, _) := cut kv (lit "=") in
    match QueryUnescape k, QueryUnescape v with
    | Some k, Some v => <[k := default [] (q !! k) ++ [v]]> q
    | _, _ => q
    end.
Definition url_query (raw : gostr) : gmap gostr (list gostr) := foldl add_pair ∅ (split_byte "&" raw).

Section Registry.
Variable ip_literal : gostr -> bool.
Variable sha256 : gostr -> gostr.
(** What the registry says to the n-th request of a chain. *)
Variable server : target -> nat -> turn.

Definition sha256Digest (b : gostr) : gostr := lit "sha256:" ++ hex_encode (sha256 b).

(** [registryDo]: the answer, and the schemes of the requests. *)
Fixpoint follow (fuel via : nat) (t : target) : res http_error http_reply * list gostr :=
  match fuel with
  | O => (Err (RefusedAnswer RedirectedTooOften), [])
  | S fuel' =>
    match server t via with
    | NoAnswer e => (Err (HttpFailed (Transport e)), [])
    | Answers r => (Ok r, [])
    | Redirect scheme text =>
      match httpsRedirectsOnly scheme text (S via) with
      | Some e => (Err e, [])
      | None => let '(r, schemes) := follow fuel' (S via) t in (r, scheme :: schemes)
      end
    end
  end.
Definition registryDo (t : target) : res http_error http_reply * list gostr :=
  let '(r, schemes) := follow 10 0 t in (r, lit "https" :: schemes).

Inductive manifest_answer := GotManifest (body : gostr) | Challenge (header : gostr) | ManifestFailed (e : http_error).

Definition getManifest (u token : gostr) : manifest_answer * list gostr :=
  match parse_origin ip_literal u with
  | None => (ManifestFailed (HttpFailed (BadAddress u)), [])
  | Some _ =>
    let '(r, schemes) := registryDo (AskManifest u token) in
    (match r with
     | Err e => ManifestFailed e
     | Ok r =>
       if (rp_status r =? 401) && bool_decide (token = []) && negb (bool_decide (rp_auth r = [])) then Challenge (rp_auth r)
       else if negb (rp_status r =? 200) then ManifestFailed (HttpFailed (GetStatus u (rp_text r)))
       else match read_limited (S maxManifest) (rp_body r) with
            | Err e => ManifestFailed (HttpFailed (Transport e))
            | Ok body =>
              if (maxManifest <? length body)%nat then ManifestFailed (RefusedAnswer (TooLarge u))
              else GotManifest body
            end
     end, schemes)
  end.

Definition anonymousToken (challenge : gostr) : res http_error gostr * list gostr :=
  let '(scheme, params, _) := cut challenge (lit " ") in
  if negb (equal_fold scheme (lit "Bearer")) then
    (Err (HttpFailed (AuthScheme scheme)), [])
  else
    let p := parseChallenge params in
    let named := default [] (p !! lit "realm") in
    match parse_realm ip_literal named with
    | None => (Err (RefusedAnswer (RealmRefused named)), [])
    | Some realm =>
      let set q k := match p !! k with Some ((_ :: _) as v) => <[k := [v]]> q | _ => q end in
      let q := set (set (url_query (u_rawQuery realm)) (lit "service")) (lit "scope") in
      let '(r, schemes) := registryDo (AskToken realm q) in
      (match r with
       | Err e => Err e
       | Ok r =>
         if negb (rp_status r =? 200) then Err (HttpFailed (TokenStatus (u_host realm) (rp_text r)))
         else match decode_token (take maxManifest (rp_body r).1) with
              | None => Err (HttpFailed (TokenDecode (u_host realm)))
              | Some (t, a) =>
                if negb (bool_decide (t = [])) then Ok t
                else if negb (bool_decide (a = [])) then Ok a
                else Err (HttpFailed (NoToken (u_host realm)))
              end
       end, schemes)
    end.

(** What the bytes of a manifest list, once they are the ones of the digest. *)
Definition read_manifest (digest body : gostr) : res http_error digests :=
  if negb (bool_decide (sha256Digest body = digest)) then
    Err (RefusedAnswer (OtherBytes digest (sha256Digest body)))
  else match decode_manifest body with
       | None => Err (RefusedAnswer (NotJSON digest))
       | Some m =>
         if bool_decide (mf_MediaType m = mediaOCIManifest) || bool_decide (mf_MediaType m = mediaDockerManifest) then Ok (manifest_files m)
         else Err (RefusedAnswer (NotManifest digest (mf_MediaType m)))
       end.

Definition BundleDigests (ref digest : gostr) : res http_error digests * list gostr :=
  match splitRef ref with
  | None => (Err (HttpFailed (NoRegistryHost ref)), [])
  | Some (host, repo) =>
    if negb (isDigest digest) then (Err (HttpFailed (NotADigest digest)), [])
    else
      let u := lit "https://" ++ host ++ lit "/v2/" ++ repo ++ lit "/manifests/" ++ digest in
      let '(a, s1) := getManifest u [] in
      match a with
      | GotManifest body => (read_manifest digest body, s1)
      | ManifestFailed e => (Err e, s1)
      | Challenge header =>
        let '(t, s2) := anonymousToken header in
        match t with
        | Err e => (Err e, s1 ++ s2)
        | Ok token =>
          let '(a, s3) := getManifest u token in
          (match a with
           | GotManifest body => read_manifest digest body
           | ManifestFailed e => Err e
           | Challenge h => Err (HttpFailed (AskedForToken h))
           end, s1 ++ s2 ++ s3)
        end
      end
  end.
End Registry.

(** ** The records beside the files *)

Inductive disk_error := NotExist | DiskFailed (e : gostr).

Inductive bundle_record_error :=
  | Unreadable (e : disk_error) | RecordNotJSON | NamesNoBundle | NamesTwo (a b : gostr) | OtherBundle (recorded verified : gostr)
  | NoBundleRecord | BadSums (line : nat) | NoSums | NoChecksums (e : disk_error) | BadChecksums (line : option nat) | Unlisted (digest : gostr) | NoSignature.

(** *** provenance.json *)

Record provenance := MkProvenance { pv_Digest : gostr; pv_Verified : gostr; pv_Files : digests }.

Inductive provenance_field := FPDigest | FPVerified | FPFiles.
Definition provenance_fields : list (gostr * provenance_field) := [(lit "digest", FPDigest); (lit "verifiedDigest", FPVerified); (lit "files", FPFiles)].

(** An entry of the files: a fresh struct with one field. *)
Definition set_sum (s : gostr) (kv : gostr * json) : option gostr :=
  match json_field [(lit "sha256", tt)] kv.1 with Some _ => decode_string s kv.2 | None => Some s end.
Definition decode_sum (v : json) : option gostr :=
  match v with JNull => Some [] | JObj ms => set_members set_sum [] ms | _ => None end.
Definition decode_files (old : digests) (v : json) : option digests :=
  match v with
  | JNull => Some ∅
  | JObj ms => set_members (fun m kv => (fun s => <[kv.1 := s]> m) <$> decode_sum kv.2) old ms
  | _ => None
  end.
Definition set_provenance (r : provenance) (kv : gostr * json) : option provenance :=
  match json_field provenance_fields kv.1 with
  | Some FPDigest => (fun s => MkProvenance s (pv_Verified r) (pv_Files r)) <$> decode_string (pv_Digest r) kv.2
  | Some FPVerified => (fun s => MkProvenance (pv_Digest r) s (pv_Files r)) <$> decode_string (pv_Verified r) kv.2
  | Some FPFiles => (fun f => MkProvenance (pv_Digest r) (pv_Verified r) f) <$> decode_files (pv_Files r) kv.2
  | None => Some r
  end.
Definition decode_provenance (raw : gostr) : option provenance :=
  match json_parse raw with
  | Some JNull => Some (MkProvenance [] [] ∅)
  | Some (JObj ms) => set_members set_provenance (MkProvenance [] [] ∅) ms
  | _ => None
  end.

(** The sums that are digests, as such. *)
Definition sum_digests (files : digests) : digests :=
  omap (fun s => let d := lit "sha256:" ++ s in if isDigest d then Some d else None) files.

(** *** SHA256SUMS *)

Definition max_token : nat := Z.to_nat (2 ^ 16).

(** [bufio.Scanner] over lines: a line that does not fit its buffer ends it,
    and the error of that is not looked at. *)
Fixpoint scanner_lines (lines : list gostr) : list gostr :=
  match lines with
  | [] => []
  | [last] => if (length last =? 0)%nat || (max_token <=? length last)%nat then [] else [trim_suffix last [zb 13]]
  | l :: lines' => if (max_token <=? length l)%nat then [] else trim_suffix l [zb 13] :: scanner_lines lines'
  end.

Definition sum_line (line : gostr) : option (gostr * gostr) :=
  let '(sum, name, ok) := cut line (lit " ") in
  let name := trim_prefix (trim_prefix name (lit " ")) (lit "*") in
  let d := lit "sha256:" ++ to_lower sum in
  if negb ok || bool_decide (name = []) || negb (isDigest d) then None else Some (name, d).

Fixpoint sum_lines (n : nat) (lines : list gostr) (files : digests) : res nat digests :=
  match lines with
  | [] => Ok files
  | line :: lines' =>
    if bool_decide (trim_space line = []) then sum_lines (S n) lines' files
    else match sum_line line with
         | None => Err n
         | Some (name, d) => sum_lines (S n) lines' (<[name := d]> files)
         end
  end.

(** [parseSums]; the error is the line, or nothing when no file is listed. *)
Definition parseSums (raw : gostr) : res (option nat) digests :=
  match sum_lines 1 (scanner_lines (split_byte line_feed raw)) ∅ with
  | Err n => Err (Some n)
  | Ok files => if bool_decide (files = ∅) then Err None else Ok files
  end.

Definition RecordFile : gostr := lit "SHA256SUMS".
Definition releaseChecksums : gostr := lit "checksums.txt".
Definition releaseSignature : gostr := lit "checksums.txt.sig".
Definition releaseCert : gostr := lit "checksums.txt.pem".
Definition recordSuffix : gostr := lit ".boot-assets.sha256".

Record BundleRecord := MkBundleRecord {
  br_Dir : gostr; br_Files : digests; br_Release : gostr; br_Checksums : gostr; br_Signature : gostr; br_Cert : gostr }.

Section Records.
Variable sha256 : gostr -> gostr.
(** What reading a path gives. *)
Variable disk : gostr -> res disk_error gostr.
(** The order of a range over a map. *)
Variable range : digests -> list (gostr * gostr).
(** Whether there is a regular file, or anything, at a path. *)
Variable regular there : gostr -> bool.

Definition FileDigest (path : gostr) : res disk_error gostr :=
  match disk path with Ok b => Ok (sha256Digest sha256 b) | Err e => Err e end.

Definition readProvenance (dir : gostr) : res bundle_record_error (gostr * gostr * digests) :=
  match disk (filepath_Join dir (lit "provenance.json")) with
  | Err e => Err (Unreadable e)
  | Ok raw =>
    match decode_provenance raw with
    | None => Err RecordNotJSON
    | Some r =>
      if bool_decide (pv_Digest r = []) && bool_decide (pv_Verified r = []) then Err NamesNoBundle
      else Ok (pv_Digest r, pv_Verified r, sum_digests (pv_Files r))
    end
  end.

Definition ProvenanceDigests (dir digest : gostr) : res bundle_record_error digests :=
  match readProvenance dir with
  | Err e => Err e
  | Ok (a, b, files) =>
    match List.find (fun d => negb (bool_decide (d = [])) && negb (bool_decide (d = digest))) [a; b] with
    | Some d => Err (OtherBundle d digest)
    | None => Ok files
    end
  end.

Definition RecordedBundle (dir : gostr) : res bundle_record_error (gostr * digests) :=
  match readProvenance dir with
  | Err e => Err e
  | Ok (a, b, files) =>
    let digest := if bool_decide (a = []) then b else a in
    if negb (bool_decide (b = [])) && negb (bool_decide (b = digest)) then Err (NamesTwo a b) else Ok (digest, files)
  end.

Definition HasBundleRecord (dir : gostr) : bool := regular (filepath_Join dir RecordFile).

Definition readRecord (dir : gostr) : res bundle_record_error (gostr * digests) :=
  match disk (filepath_Join dir RecordFile) with
  | Err NotExist => Err NoBundleRecord
  | Err e => Err (Unreadable e)
  | Ok raw =>
    match parseSums raw with
    | Ok files => Ok (raw, files)
    | Err (Some n) => Err (BadSums n)
    | Err None => Err NoSums
    end
  end.

Definition RecordDigests (dir : gostr) : res bundle_record_error digests :=
  match readRecord dir with Ok (_, files) => Ok files | Err e => Err e end.

Definition ReadBundleRecord (dir : gostr) : res bundle_record_error BundleRecord :=
  match readRecord dir with
  | Err e => Err e
  | Ok (raw, files) =>
    let sums := filepath_Join dir releaseChecksums in
    match disk sums with
    | Err e => Err (NoChecksums e)
    | Ok listRaw =>
      match parseSums listRaw with
      | Err e => Err (BadChecksums e)
      | Ok listed =>
        let digest := sha256Digest sha256 raw in
        match List.find (fun x => has_suffix x.1 recordSuffix && bool_decide (x.2 = digest)) (range listed) with
        | None => Err (Unlisted digest)
        | Some (name, _) =>
          let sig := filepath_Join dir releaseSignature in
          let cert := filepath_Join dir releaseCert in
          if there sig && there cert then Ok (MkBundleRecord dir files name sums sig cert) else Err NoSignature
        end
      end
    end
  end.
End Records.

(** * Theorems *)

(** ** Requests *)

Section Requests.
Variable ip_literal : gostr -> bool.
Variable sha256 : gostr -> gostr.
Variable server : target -> nat -> turn.
Notation https := (Forall (fun scheme => scheme = lit "https")).

Lemma follow_S f via t :
  follow server (S f) via t =
  match server t via with
  | NoAnswer e => (Err (HttpFailed (Transport e)), [])
  | Answers r => (Ok r, [])
  | Redirect scheme text =>
    match httpsRedirectsOnly scheme text (S via) with
    | Some e => (Err e, [])
    | None => let '(r, schemes) := follow server f (S via) t in (r, scheme :: schemes)
    end
  end.
Proof. done. Qed.

Lemma follow_more k n via t : (via + S n = 10)%nat -> follow server (S n + k) via t = follow server (S n) via t.
Proof.
  revert via. induction n as [|n IH]; intros via E; cbn [Nat.add]; rewrite !(follow_S _ via); (destruct (server t via) as [|scheme text|]; [done| |done]);
    unfold httpsRedirectsOnly; destruct (negb _); try done; destruct (Nat.leb_spec 10 (S via)); try done; [lia|].
  specialize (IH (S via)). cbn [Nat.add] in IH. by rewrite IH by lia.
Qed.

(** A chain of redirects ends: ten requests are as good as any larger bound. *)
Lemma follow_ends k t : follow server (10 + k) 0 t = follow server 10 0 t.
Proof. by apply (follow_more k 9 0). Qed.

Lemma follow_https fuel via t : https (follow server fuel via t).2.
Proof.
  revert via. induction fuel as [|fuel IH]; intros via; [constructor|]. cbn [follow]. destruct (server t via) as [|scheme text|]; [constructor| |constructor].
  unfold httpsRedirectsOnly. destruct (negb _) eqn:E; [constructor|]. apply negb_false_iff, bool_decide_eq_true in E.
  destruct (10 <=? S via)%nat; [constructor|]. specialize (IH (S via)). destruct (follow _ _ _ _). by constructor.
Qed.

Lemma registryDo_https t : https (registryDo server t).2.
Proof. unfold registryDo. pose proof (follow_https 10 0 t) as H. destruct (follow _ _ _ _). by constructor. Qed.

Lemma getManifest_https u token : https (getManifest ip_literal server u token).2.
Proof.
  unfold getManifest. destruct (parse_origin _ _); [|constructor]. pose proof (registryDo_https (AskManifest u token)) as H.
  by destruct (registryDo _ _).
Qed.

Lemma anonymousToken_https h : https (anonymousToken ip_literal server h).2.
Proof.
  unfold anonymousToken. destruct (cut h (lit " ")) as [[scheme params] ?]. destruct (negb _); [constructor|].
  destruct (parse_realm _ _); [|constructor]. match goal with |- context [registryDo server ?t] => pose proof (registryDo_https t) as H; by destruct (registryDo server t) end.
Qed.

Lemma getManifest_size u token body s : getManifest ip_literal server u token = (GotManifest body, s) -> (length body <= maxManifest)%nat.
Proof.
  unfold getManifest. destruct (parse_origin _ _); [|done]. destruct (registryDo _ _) as [[r|] ?]; [|done].
  destruct (_ && _); [done|]. destruct (negb _); [done|]. destruct (read_limited _ _); [|done].
  destruct (Nat.ltb_spec maxManifest (length a)); [done|]. by intros [= -> _].
Qed.
End Requests.

Lemma list_layer_digests l files : map_Forall (fun _ d => isDigest d = true) files -> map_Forall (fun _ d => isDigest d = true) (foldl list_layer files l).
Proof.
  revert files. induction l as [|x l IH]; intros files H; [done|]. apply IH. unfold list_layer.
  destruct (bool_decide _ || _) eqn:E; [done|]. apply orb_false_iff in E as [_ E]. apply negb_false_iff in E.
  by apply map_Forall_insert_2.
Qed.

(** What is read at a digest is what the bytes of that digest list, whatever
    the registry and its redirects answer, and every request of it is made over
    https. *)
Lemma BundleDigests_pinned ip_literal sha256 server ref digest :
  let '(r, schemes) := BundleDigests ip_literal sha256 server ref digest in
  Forall (fun scheme => scheme = lit "https") schemes /\
  match r with
  | Ok files =>
    (exists body m, sha256Digest sha256 body = digest /\ (length body <= maxManifest)%nat /\ decode_manifest body = Some m /\ files = manifest_files m) /\
    map_Forall (fun _ d => isDigest d = true) files
  | Err _ => True
  end.
Proof.
  assert (forall body files, (length body <= maxManifest)%nat -> read_manifest sha256 digest body = Ok files ->
    (exists body m, sha256Digest sha256 body = digest /\ (length body <= maxManifest)%nat /\ decode_manifest body = Some m /\ files = manifest_files m) /\
    map_Forall (fun _ d => isDigest d = true) files) as Rd.
  { intros body files Hl. unfold read_manifest. case_bool_decide as E; [|done]. destruct (decode_manifest body) as [m|] eqn:D; [|done].
    destruct (_ || _); [|done]. intros [= <-]. split; [by exists body, m|]. apply list_layer_digests. apply map_Forall_empty. }
  unfold BundleDigests. destruct (splitRef ref) as [[host repo]|]; [|by split]. destruct (negb _); [by split|].
  set (u := lit "https://" ++ _).
  pose proof (getManifest_https ip_literal server u []) as H1. pose proof (getManifest_size ip_literal server u []) as Z1.
  destruct (getManifest ip_literal server u []) as [[body|h|e] s1]; cbn [snd] in *.
  - split; [done|]. destruct (read_manifest _ _ _) eqn:R; [|done]. eapply Rd; [by eapply Z1|done].
  - pose proof (anonymousToken_https ip_literal server h) as H2. destruct (anonymousToken ip_literal server h) as [[token|e] s2]; cbn [snd] in *; [|by split; [apply Forall_app|]].
    pose proof (getManifest_https ip_literal server u token) as H3. pose proof (getManifest_size ip_literal server u token) as Z3.
    destruct (getManifest ip_literal server u token) as [a s3]; cbn [snd] in *. split; [by rewrite !Forall_app|].
    destruct a as [body|h'|e]; [|done..]. destruct (read_manifest _ _ _) eqn:R; [|done]. eapply Rd; [by eapply Z3|done].
  - by split.
Qed.

(** ** Texts that read back *)

(** The line of a file in sha256sum's output, in either of its modes. *)
Definition sums_line (x : gostr * bool * gostr) : gostr := x.1.1 ++ lit " " ++ (if x.1.2 then lit "*" else lit " ") ++ x.2.
Definition sums_text (l : list (gostr * bool * gostr)) : gostr := l ≫= fun x => sums_line x ++ [line_feed].

(** A sum in lower-case digits and a name that the format can carry. *)
Record sums_entry (x : gostr * bool * gostr) : Prop := {
  se_sum : length x.1.1 = 64%nat /\ Forall (fun c => is_digit c = true \/ in_range 97 102 (bz c) = true) x.1.1;
  se_name : x.2 <> [] /\ all_ascii x.2 = true /\ line_feed ∉ x.2 /\ has_prefix x.2 (lit "*") = false /\ has_suffix x.2 [zb 13] = false;
  se_length : Z.of_nat (length x.2) < 65000 }.

Lemma hex_lower s : Forall (fun c => is_digit c = true \/ in_range 97 102 (bz c) = true) s ->
  all_ascii s = true /\ to_lower s = s /\ isHex s = true.
Proof.
  intros H.
  assert (Forall (fun c => is_ascii c = true /\ lower_byte c = c /\ in_range 48 57 (bz c) || in_range 97 102 (bz c) = true) s) as H'.
  { eapply Forall_impl; [exact H|]. intros c. destruct c as [[] [] [] [] [] [] [] []]; vm_compute; intuition congruence. }
  assert (all_ascii s = true) as A.
  { unfold all_ascii. apply forallb_forall. intros c Hc. rewrite Forall_forall in H'. apply H'. by apply list_elem_of_In. }
  split; [done|]. split.
  - rewrite to_lower_ascii by done. clear H A. induction H' as [|c s (_ & E & _) _ IH]; [done|]. cbn. by rewrite E, IH.
  - unfold isHex. rewrite runes_ascii by (eapply Forall_impl; [exact H'|]; by intros c []).
    apply forallb_forall. intros r Hr. apply list_elem_of_In, list_elem_of_fmap in Hr as (c & -> & Hc). rewrite Forall_forall in H'. by apply H'.
Qed.

Lemma trim_space_nonblank c s : rune_space (bz c) = false -> all_ascii (c :: s) = true -> trim_space (c :: s) <> [].
Proof.
  intros Hc Ha. assert (Forall (fun c => is_ascii c = true) (c :: s)) as A.
  { unfold all_ascii in Ha. rewrite forallb_forall in Ha. apply Forall_forall. intros x Hx. apply Ha. by apply list_elem_of_In. }
  unfold trim_space. rewrite trim_left_ascii by done. cbn [drop_while]. rewrite Hc. rewrite trim_right_ascii by done.
  intros E. apply (f_equal (@rev _)) in E. rewrite rev_involutive in E. cbn [rev] in E. revert E.
  induction (rev s) as [|d l IH]; cbn [app drop_while rev]; [by rewrite Hc|]. by destruct (rune_space (bz d)).
Qed.

Lemma cut_space a b : " "%char ∉ a -> cut (a ++ " "%char :: b) (lit " ") = (a, b, true).
Proof. intros H. unfold cut. change (lit " ") with [" "%char]. by rewrite cut_at_byte_app. Qed.

Lemma sums_line_parts x : sums_entry x ->
  sum_line (sums_line x) = Some (x.2, lit "sha256:" ++ x.1.1) /\ line_feed ∉ sums_line x /\
  has_suffix (sums_line x) [zb 13] = false /\ trim_space (sums_line x) <> [] /\ (length (sums_line x) < max_token)%nat.
Proof.
  destruct x as [[sum bin] name]. intros [[Hl Hx] (Hn & Ha & Hf & Hs & Hr) Hz]. cbn [fst snd] in *.
  pose proof (hex_lower _ Hx) as (A & Lo & He).
  assert (forall c, c ∈ sum -> is_digit c = true \/ in_range 97 102 (bz c) = true) as Hc by (by rewrite Forall_forall in Hx).
  assert (" "%char ∉ sum) as Nsp by (intros [|]%Hc; done).
  assert (line_feed ∉ sum) as Nlf by (intros [|]%Hc; done).
  set (mark := if bin then lit "*" else lit " ").
  assert (sums_line (sum, bin, name) = sum ++ " "%char :: mark ++ name) as E by done.
  assert (line_feed ∉ mark) as Nm by (unfold mark; destruct bin; vm_compute; set_solver).
  split_and!.
  - unfold sum_line. rewrite E, cut_space by done. cbn [negb].
    assert (trim_prefix (trim_prefix (mark ++ name) (lit " ")) (lit "*") = name) as ->.
    { unfold mark. destruct bin; [by rewrite (trim_prefix_other (lit " ")), trim_prefix_app|]. rewrite trim_prefix_app. by apply trim_prefix_other. }
    rewrite bool_decide_eq_false_2 by done. rewrite Lo. unfold isDigest. by rewrite strip_prefix_app, Hl, He.
  - rewrite E. set_solver.
  - apply not_true_iff_false. intros H. unfold has_suffix in H. destruct (strip_suffix _ _) as [r|] eqn:S; [|done]. apply strip_suffix_Some in S.
    rewrite E in S. destruct (exists_last Hn) as (n' & c & ->).
    assert (c = zb 13) as ->.
    { apply (f_equal last) in S. rewrite last_app, last_cons, last_app in S. rewrite last_snoc in S. rewrite last_snoc in S. cbn in S. by injection S. }
    unfold has_suffix in Hr. by rewrite (proj2 (strip_suffix_Some _ _ n') eq_refl) in Hr.
  - rewrite E. destruct sum as [|c sum]; [done|]. cbn [app]. apply trim_space_nonblank.
    + assert (is_digit c = true \/ in_range 97 102 (bz c) = true) as H by (apply Hc; set_solver). revert H. clear.
      destruct c as [[] [] [] [] [] [] [] []]; vm_compute; intuition congruence.
    + unfold all_ascii in *. cbn [forallb] in *. apply andb_true_iff in A as [A1 A2]. rewrite A1, forallb_app, A2. cbn [forallb].
      rewrite forallb_app, Ha. unfold mark. by destruct bin.
  - rewrite E, length_app. cbn [length]. rewrite length_app, Hl. assert (length mark = 1%nat) as -> by (unfold mark; by destruct bin).
    apply Nat2Z.inj_lt. unfold max_token. rewrite Z2Nat.id by done. change (2 ^ 16) with 65536. lia.
Qed.

Lemma scan_sums l : Forall sums_entry l -> scanner_lines (split_byte line_feed (sums_text l)) = sums_line <$> l.
Proof.
  induction 1 as [|x l Hx _ IH]; [done|]. destruct (sums_line_parts x Hx) as (_ & Nf & Nr & _ & Len).
  unfold sums_text. cbn [mbind list_bind]. rewrite <- app_assoc. cbn [app]. rewrite split_byte_app by done.
  change (l ≫= fun x => sums_line x ++ [line_feed]) with (sums_text l). cbn [fmap list_fmap].
  destruct (split_byte line_feed (sums_text l)) as [|y ys] eqn:E; [by apply split_byte_not_nil in E|].
  cbn [scanner_lines]. destruct (Nat.leb_spec max_token (length (sums_line x))); [lia|].
  assert (trim_suffix (sums_line x) [zb 13] = sums_line x) as ->.
  { unfold trim_suffix. unfold has_suffix in Nr. by destruct (strip_suffix _ _). }
  f_equal. rewrite <- IH. done.
Qed.

Lemma sum_lines_entries l : forall n files, Forall sums_entry l ->
  sum_lines n (sums_line <$> l) files = Ok (foldl (fun m x => <[x.2 := lit "sha256:" ++ x.1.1]> m) files l).
Proof.
  induction l as [|x l IH]; intros n files H; [done|]. apply Forall_cons in H as [Hx H]. destruct (sums_line_parts x Hx) as (P & _ & _ & N & _).
  cbn [fmap list_fmap sum_lines foldl]. rewrite bool_decide_eq_false_2 by done. rewrite P. by apply IH.
Qed.

(** A list in the format of sha256sum reads back, the last line of a name
    standing. *)
Lemma parseSums_text l : l <> [] -> Forall sums_entry l ->
  parseSums (sums_text l) = Ok (foldl (fun m x => <[x.2 := lit "sha256:" ++ x.1.1]> m) ∅ l).
Proof.
  intros Hl H. unfold parseSums. rewrite scan_sums, sum_lines_entries by done.
  rewrite bool_decide_eq_false_2; [done|]. destruct l as [|x l _] using rev_ind; [done|]. rewrite foldl_app. cbn [foldl]. apply insert_non_empty.
Qed.

(** A pair of a challenge, as a registry writes it. *)
Definition challenge_text (l : list (gostr * gostr)) : gostr := join (lit ",") ((fun kv => kv.1 ++ lit "=" ++ [quote] ++ kv.2 ++ [quote]) <$> l).

Record challenge_pair (kv : gostr * gostr) : Prop := {
  cp_key : kv.1 <> [] /\ Forall (fun c => in_range 97 122 (bz c) = true) kv.1;
  cp_value : quote ∉ kv.2 }.

Lemma letter_facts k : Forall (fun c => in_range 97 122 (bz c) = true) k ->
  Forall (fun c => is_ascii c = true) k /\ "="%char ∉ k /\ to_lower k = k /\ (forall f, (forall r, in_range 97 122 r = true -> f r = false) -> trim_left f k = k /\ trim_right f k = k).
Proof.
  intros H.
  assert (Forall (fun c => is_ascii c = true) k) as A.
  { eapply Forall_impl; [exact H|]. intros c. destruct c as [[] [] [] [] [] [] [] []]; vm_compute; congruence. }
  split; [done|]. split; [|split].
  - intros E. rewrite Forall_forall in H. by specialize (H _ E).
  - rewrite to_lower_ascii.
    2:{ unfold all_ascii. apply forallb_forall. intros c Hc. rewrite Forall_forall in A. apply A. by apply list_elem_of_In. }
    clear A. induction H as [|c k Hc _ IH]; [done|]. cbn [fmap list_fmap]. rewrite IH. f_equal. revert Hc.
    destruct c as [[] [] [] [] [] [] [] []]; vm_compute; congruence.
  - intros f Hf. rewrite trim_left_ascii, trim_right_ascii by done. split.
    + destruct H as [|c k Hc _]; [done|]. cbn [drop_while]. by rewrite Hf.
    + destruct k as [|c k _] using rev_ind; [done|]. rewrite rev_app_distr. cbn [rev app drop_while]. apply Forall_app in H as [_ H]. apply Forall_cons in H as [Hc _].
      rewrite Hf by done. cbn [rev]. by rewrite rev_involutive.
Qed.

Lemma trim_left_cons f c s : is_ascii c = true -> trim_left f (c :: s) = if f (bz c) then trim_left f s else c :: s.
Proof. intros H. unfold trim_left. cbn [length trim_left_fuel]. rewrite decode_rune_ascii by done. by destruct (f (bz c)). Qed.

Lemma challenge_step f sep kv rest out : sep = [] \/ sep = lit "," -> challenge_pair kv ->
  challenge_pairs (S f) (sep ++ (kv.1 ++ lit "=" ++ [quote] ++ kv.2 ++ [quote]) ++ rest) out = challenge_pairs f rest (<[kv.1 := kv.2]> out).
Proof.
  destruct kv as [k v]. intros Hs [[Hk Hl] Hv]. cbn [fst snd] in *. destruct (letter_facts k Hl) as (A & Ne & Lo & Tr).
  set (t := (k ++ lit "=" ++ [quote] ++ v ++ [quote]) ++ rest).
  assert (t = k ++ "="%char :: quote :: v ++ quote :: rest) as Et by (unfold t; change (lit "=") with ["="%char]; cbn [app]; rewrite <- app_assoc; cbn [app]; by rewrite <- app_assoc).
  cbn [challenge_pairs]. rewrite bool_decide_eq_false_2 by (rewrite Et; by destruct Hs as [-> | ->], k).
  set (g := fun r : Z => bool_decide (r = 32) || bool_decide (r = 44)).
  assert (trim_left g t = t) as Tt.
  { rewrite Et. destruct k as [|c k]; [done|]. apply Forall_cons in A as [A _]. apply Forall_cons in Hl as [Hl _]. cbn [app]. rewrite trim_left_cons by done.
    assert (g (bz c) = false) as ->; [|done]. unfold g. unfold in_range in Hl. apply andb_true_iff in Hl as [H1 H2]. apply Z.leb_le in H1, H2.
    rewrite !bool_decide_eq_false_2 by lia. done. }
  assert (trim_left g (sep ++ t) = t) as ->.
  { destruct Hs as [-> | ->]; [done|]. change (lit "," ++ t) with (","%char :: t). rewrite trim_left_cons by done. done. }
  unfold cut. rewrite Et. change (lit "=") with ["="%char]. rewrite cut_at_byte_app by done. cbn [negb].
  assert (trim_space k = k) as Ts.
  { unfold trim_space. assert (forall r, in_range 97 122 r = true -> rune_space r = false) as R.
    { intros r. unfold in_range. rewrite andb_true_iff, !Z.leb_le. intros [H1 H2].
      assert (exists n, r = 97 + Z.of_nat n /\ (n < 26)%nat) as (n & -> & Hn) by (exists (Z.to_nat (r - 97)); lia).
      do 26 (destruct n as [|n]; [done|]). lia. }
    destruct (Tr _ R) as [-> ->]. done. }
  rewrite Ts, Lo. change (quote :: v ++ quote :: rest) with ([quote] ++ v ++ quote :: rest). rewrite strip_prefix_app, cut_at_byte_app by done. done.
Qed.

(** A challenge reads back as its pairs, the last value of a key standing. *)
Lemma parseChallenge_text l : Forall challenge_pair l ->
  parseChallenge (challenge_text l) = foldl (fun m kv => <[kv.1 := kv.2]> m) ∅ l.
Proof.
  intros H. unfold parseChallenge.
  assert (forall f sep out, (sep = [] \/ sep = lit ",") -> (l = [] -> sep = []) -> (length (sep ++ challenge_text l) < f)%nat ->
    challenge_pairs f (sep ++ challenge_text l) out = foldl (fun m kv => <[kv.1 := kv.2]> m) out l) as G.
  { induction H as [|kv l Hkv H IH]; intros f sep out Hs He Hf; destruct f as [|f]; try lia.
    - rewrite He by done. done.
    - destruct l as [|kv' l].
      + unfold challenge_text. cbn [fmap list_fmap join]. rewrite <- (app_nil_r (kv.1 ++ _)). rewrite challenge_step by done. by destruct f.
      + assert (challenge_text (kv :: kv' :: l) = (kv.1 ++ lit "=" ++ [quote] ++ kv.2 ++ [quote]) ++ lit "," ++ challenge_text (kv' :: l)) as E by done.
        rewrite E in *. rewrite challenge_step by done. cbn [foldl]. apply IH; [by right|done|].
        assert (1 <= length (kv.1 ++ lit "=" ++ [quote] ++ kv.2 ++ [quote]))%nat as L by (destruct Hkv as [[Hk _] _]; destruct (kv.1); [done|cbn [app length]; lia]).
        rewrite (length_app sep), (length_app (kv.1 ++ _)) in Hf. lia. }
  apply (G (S (length (challenge_text l))) []); [by left|done|]. cbn [app]. lia.
Qed.
