(* ===== verification/VerifyRun.v ===== *)
(** * Whether a run boots what it found (internal/wrap/verify.go)

    The image and the kernel of a run, from the checks of [internal/verify] to
    the decision to boot: what each mode does with each outcome, the question
    that is asked, and the comparison of the files on disk with what the signed
    bundle lists.  The registry, cosign, the disk, the fetch of the runtime and
    the person at the terminal are arguments. *)

From stdpp Require Import prelude list strings gmap.
From Stdlib Require Import ZArith Lia ZifyNat Ascii.
From S2P Require Import Prelude GoUnicode GoStrings GoJson GoPath GoClean Volumes Settings ProfileReg RunHome Verify BundleFiles.

Local Open Scope Z_scope.

(** ** The policies of a run (config.go) *)

Definition verifyPolicy (e : Env) : TrustPolicy :=
  let p := DefaultPolicy in
  MkTrust (String_ e (lit "VERIFY_REGISTRY") (tp_Registry p)) (String_ e (lit "VERIFY_IDENTITY") (tp_Identity p))
    (String_ e (lit "VERIFY_ISSUER") (tp_Issuer p)) (String_ e (lit "COSIGN_BIN") (tp_Cosign p)).
Definition runtimePolicy (e : Env) : TrustPolicy :=
  let p := RuntimeBundlePolicy in
  MkTrust (tp_Registry p) (String_ e (lit "VERIFY_RUNTIME_IDENTITY") (tp_Identity p)) (String_ e (lit "VERIFY_RUNTIME_ISSUER") (tp_Issuer p)) (tp_Cosign p).

(** ** What is decided, and what is said *)

Record BootAssets := MkBootAssets { ba_Kernel : gostr; ba_Initrd : gostr; ba_Named : bool }.

Inductive difference := IsOtherBundle (recorded verified : gostr) | FileDiffers (name got want : gostr).
Inductive unread :=
  | FoundInsideRun | NoRegistryAnswer (e : http_error) (record : option bundle_record_error) | RegistryRefused (r : answer_refusal)
  | NotListed (name : gostr) | NotHashed (path : gostr) (e : disk_error)
  | NotBeside (path : gostr) | RecordError (e : bundle_record_error) | NoCosign | NoSigstore (detail : gostr).

Inductive alert :=
  | SaidOff (kernel : bool) | SaidTagOnly | SaidResult (r : Result) | SaidNobody
  | SaidNotPublished (ref : gostr) | SaidUnchecked (r : Result)
  | SaidDiffers (dir : gostr) (d : list difference) | SaidUnread (why : unread) | SaidRecordUnread (dir : gostr) (why : unread).

Inductive question_kind := AnywayUnverified | CachedUnverified | Anyway | VerifiedDigestAnyway.

Inductive verify_refused :=
  | RefusesResult (r : Result)             (* require, with the refusal of the result *)
  | RefusesFailed | RefusesUnresolved | RefusesMismatch (ours : bool)
  | AbortedFailed | AbortedUnresolved | AbortedMismatch
  | Hung (required : bool) (detail : gostr)
  | BootNotPublished (ref : gostr) | BootUnchecked (r : Result) | BootFailed (r : Result)
  | FilesDiffer (dir : gostr) (d : list difference) | FilesUnread (why : unread) | OlderNotFetched (dir e : gostr)
  | RecordDiffers (dir : gostr) (d : list difference) | RecordNotListed (dir name : gostr) | RecordUnlisted (dir digest : gostr)
  | RecordBadSignature (dir detail : gostr) | RecordUnreadable (dir : gostr) (why : unread)
  | NotResolved (e : gostr).

(** What the checks of a run leave in it. *)
Record checks := MkChecks { ck_boot : gostr; ck_verified : list gostr; ck_said : list alert; ck_ref : gostr; ck_digest : gostr; ck_record : gostr }.
Definition no_checks : checks := MkChecks [] [] [] [] [] [].

Definition say (a : alert) (k : checks) : checks := MkChecks (ck_boot k) (ck_verified k) (ck_said k ++ [a]) (ck_ref k) (ck_digest k) (ck_record k).
Definition vouch (what : gostr) (k : checks) : checks := MkChecks (ck_boot k) (ck_verified k ++ [what]) (ck_said k) (ck_ref k) (ck_digest k) (ck_record k).
Definition pin_digest (d : gostr) (k : checks) : checks := MkChecks d (ck_verified k) (ck_said k) (ck_ref k) (ck_digest k) (ck_record k).
Definition hold_bundle (ref digest : gostr) (k : checks) : checks := MkChecks (ck_boot k) (ck_verified k) (ck_said k) ref digest (ck_record k).
Definition hold_record (dir : gostr) (k : checks) : checks := MkChecks (ck_boot k) (ck_verified k) (ck_said k) (ck_ref k) (ck_digest k) dir.

Notation decided := (option verify_refused * checks)%type.
Notation disk := (gostr -> res disk_error gostr).

(** What a run asks the checks. *)
Record verify_config := MkVerifyConfig {
  vc_mode : verify_mode; vc_policy : TrustPolicy; vc_runtime : TrustPolicy; vc_image : gostr; vc_genericBoot : bool;
  vc_pins : bool; vc_kind : gostr; vc_envelope : bool; vc_noTerminal : bool }.

Section Run.
Variable c : verify_config.
(** [checkTag], [checkDigest] and [Blob], which run cosign. *)
Variable checkTag : TrustPolicy -> gostr -> Result.
Variable checkDigest : TrustPolicy -> gostr -> gostr -> Result.
Variable checkBlob : TrustPolicy -> gostr -> gostr -> gostr -> Result.
(** What the store of the runtime holds for the image. *)
Variable localDigest : gostr.
(** Whether there is a terminal, and the line that answers a question there. *)
Variable terminal : bool.
Variable answers : question_kind -> option gostr.
(** The boot assets: the reference, the directory that was named, what the
    registry lists at a digest, and the fetch of the runtime. *)
Variable bootRef namedDir : gostr.
Variable registryDigests : gostr -> gostr -> res http_error digests.
Variable cwd : gostr.
Variable resolver : option (gostr -> bool -> disk -> res gostr BootAssets * disk).
Variable sha256 : gostr -> gostr.
Variable range : digests -> list (gostr * gostr).
Variable regular there : gostr -> bool.

(** ** The image *)

(** [confirm]: no, unless a person types yes. *)
Definition confirm (q : question_kind) (k : checks) : bool * checks :=
  if vc_noTerminal c || negb terminal then (false, say SaidNobody k)
  else match answers q with
       | None => (false, k)
       | Some line => (mem (to_lower (trim_space line)) [lit "y"; lit "yes"], k)
       end.

(** Boot on a yes, and stop with [e] otherwise. *)
Definition ask_to_boot (q : question_kind) (e : verify_refused) (k : checks) : decided :=
  let '(yes, k) := confirm q k in (if yes then None else Some e, k).

Definition required : bool := bool_decide (vc_mode c = Require_mode).

Definition cosignHung (r : Result) (q : question_kind) (k : checks) : decided :=
  if required then (Some (Hung true (vr_Detail r)), k) else ask_to_boot q (Hung false (vr_Detail r)) k.

Definition verifyTag (k : checks) : decided :=
  let r := checkTag (vc_policy c) (vc_image c) in
  match vr_Outcome r with
  | Verified => (None, vouch (lit "image") k)
  | NotOurs | NoTooling => if required then (Some (RefusesResult r), k) else (None, say (SaidResult r) k)
  | _ =>
    let k := say (SaidResult r) k in
    if vr_TimedOut r then cosignHung r AnywayUnverified k
    else if required then (Some RefusesFailed, k)
    else ask_to_boot Anyway AbortedFailed k
  end.

Definition verifyDigest (k : checks) : decided :=
  let r := checkDigest (vc_policy c) (vc_image c) localDigest in
  match vr_Outcome r with
  | Verified => (None, vouch (lit "image") (pin_digest (vr_Digest r) k))
  | NotOurs =>
    let k := pin_digest (vr_Digest r) k in
    if required then (Some (RefusesResult r), k) else (None, say (SaidResult r) k)
  | NoTooling => if required then (Some (RefusesResult r), k) else (None, say (SaidResult r) k)
  | Unresolved =>
    let k := say (SaidResult r) k in
    if vr_TimedOut r then cosignHung r CachedUnverified k
    else if required then (Some RefusesUnresolved, k)
    else ask_to_boot CachedUnverified AbortedUnresolved k
  | Mismatch =>
    let k := say (SaidResult r) (pin_digest (vr_Digest r) k) in
    if negb (vr_Ours r) then (if required then (Some (RefusesMismatch false), k) else (None, k))
    else if required then (Some (RefusesMismatch true), k)
    else ask_to_boot VerifiedDigestAnyway AbortedMismatch k
  | FailedCheck =>
    let k := say (SaidResult r) (pin_digest (vr_Digest r) k) in
    if vr_TimedOut r then cosignHung r AnywayUnverified k
    else if required then (Some RefusesFailed, k)
    else ask_to_boot Anyway AbortedFailed k
  end.

Definition verifyImage (k : checks) : decided :=
  if bool_decide (vc_mode c = Off) then (None, if vc_envelope c then k else say (SaidOff (vc_genericBoot c)) k)
  else if vc_pins c then verifyDigest k
  else verifyTag (say SaidTagOnly k).

(** ** The kernel and the initrd *)

Definition bootPolicy : TrustPolicy :=
  MkTrust (tp_Registry BootAssetsPolicy) (tp_Identity BootAssetsPolicy) (tp_Issuer BootAssetsPolicy) (tp_Cosign (vc_policy c)).

(** [verifyBootAssets]. *)
Definition verifyBootAssets (k : checks) : decided :=
  if bool_decide (vc_mode c = Off) || negb (vc_genericBoot c) then (None, k)
  else
    let dir := filepath_Abs cwd namedDir in
    if negb (bool_decide (namedDir = [])) && bool_decide (vc_kind c = lit "nerdctl") && HasBundleRecord regular dir then (None, hold_record dir k)
    else
      let r := checkDigest bootPolicy bootRef [] in
      match vr_Outcome r with
      | Verified => (None, hold_bundle bootRef (vr_Digest r) k)
      | NotOurs => if required then (Some (BootNotPublished bootRef), k) else (None, say (SaidNotPublished bootRef) k)
      | NoTooling | Unresolved => if required then (Some (BootUnchecked r), k) else (None, say (SaidUnchecked r) k)
      | _ => (Some (BootFailed r), k)
      end.

Definition verifiedBootRef (k : checks) : gostr := if bool_decide (ck_digest k = []) then [] else refWithDigest (ck_ref k) (ck_digest k).

(** [resolveBootAssets] (run.go). *)
Definition resolveBootAssets (k : checks) (d : disk) : res gostr BootAssets * disk :=
  if negb (vc_genericBoot c) then (Ok (MkBootAssets [] [] false), d)
  else match resolver with
       | None => (Ok (MkBootAssets [] [] false), d)
       | Some fetch => fetch (verifiedBootRef k) false d
       end.

(** [expectedBootDigests]: the list, and the registry's error when the list is
    hull's own. *)
Definition expectedBootDigests (d : disk) (ref digest dir : gostr) : res (difference + unread) (digests * option http_error) :=
  match registryDigests ref digest with
  | Ok files => Ok (files, None)
  | Err (RefusedAnswer r) => Err (inr (RegistryRefused r))
  | Err e =>
    match ProvenanceDigests d dir digest with
    | Ok files => Ok (files, Some e)
    | Err (OtherBundle a b) => Err (inl (IsOtherBundle a b))
    | Err p => Err (inr (NoRegistryAnswer e (Some p)))
    end
  end.

(** The files that are not the ones of a list. *)
Fixpoint file_differences (d : disk) (expected : digests) (paths : list gostr) : res unread (list difference) :=
  match paths with
  | [] => Ok []
  | path :: paths' =>
    let name := filepath_Base path in
    match expected !! name with
    | None | Some [] => Err (NotListed name)
    | Some want =>
      match FileDigest sha256 d path with
      | Err e => Err (NotHashed path e)
      | Ok got =>
        match file_differences d expected paths' with
        | Err e => Err e
        | Ok ds => Ok (if bool_decide (got = want) then ds else FileDiffers name got want :: ds)
        end
      end
    end
  end.

Definition asset_paths (a : BootAssets) : list gostr := [ba_Kernel a; ba_Initrd a].

Definition compareBootDigests (d : disk) (ref digest : gostr) (a : BootAssets) : res unread (list difference * option http_error) :=
  match expectedBootDigests d ref digest (filepath_Dir (ba_Kernel a)) with
  | Err (inl o) => Ok ([o], None)
  | Err (inr u) => Err u
  | Ok (expected, fallback) =>
    match file_differences d expected (asset_paths a) with
    | Err u => Err u
    | Ok ds => Ok (ds, fallback)
    end
  end.

(** [staleBundle]: the files are an older bundle's, in a directory brig chose. *)
Definition staleBundle (d : disk) (digest : gostr) (a : BootAssets) : bool :=
  if ba_Named a then false
  else match RecordedBundle d (filepath_Dir (ba_Kernel a)) with
       | Err _ => false
       | Ok (recorded, files) =>
         if bool_decide (recorded = digest) then false
         else forallb (fun path => match files !! filepath_Base path, FileDigest sha256 d path with
                                   | Some ((_ :: _) as want), Ok got => bool_decide (got = want)
                                   | _, _ => false
                                   end) (asset_paths a)
       end.

(** [refetchBootAssets]. *)
Definition refetchBootAssets (k : checks) (d : disk) (a : BootAssets) : option gostr * disk :=
  match resolver with
  | None => (Some (lit "this runtime cannot fetch them"), d)
  | Some fetch =>
    match fetch (verifiedBootRef k) true d with
    | (Err e, d') => (Some e, d')
    | (Ok fresh, d') =>
      (if bool_decide (ba_Kernel fresh = ba_Kernel a) && bool_decide (ba_Initrd fresh = ba_Initrd a) then None
       else Some (lit "the fetch resolved other files"), d')
    end
  end.

Definition bootAssetsDiffer (a : BootAssets) (ds : list difference) (k : checks) : decided :=
  let dir := filepath_Dir (ba_Kernel a) in
  if negb (ba_Named a) || required then (Some (FilesDiffer dir ds), k) else (None, say (SaidDiffers dir ds) k).
Definition bootDigestsUnread (u : unread) (k : checks) : decided :=
  if required then (Some (FilesUnread u), k) else (None, say (SaidUnread u) k).
Definition bundleRecordUnread (dir : gostr) (u : unread) (k : checks) : decided :=
  if required then (Some (RecordUnreadable dir u), k) else (None, say (SaidRecordUnread dir u) k).

(** [checkBundleRecord]: the signed record of the Linux runtime bundle. *)
Definition checkBundleRecord (d : disk) (a : BootAssets) (k : checks) : decided :=
  let dir := ck_record k in
  if bool_decide (ba_Kernel a = []) || bool_decide (ba_Initrd a = []) then bundleRecordUnread dir FoundInsideRun k
  else
    match List.find (fun path => negb (bool_decide (filepath_Dir path = path_Clean dir))) (asset_paths a) with
    | Some path => bundleRecordUnread dir (NotBeside path) k
    | None =>
      match RecordDigests d dir with
      | Err e => bundleRecordUnread dir (RecordError e) k
      | Ok files =>
        match file_differences d files (asset_paths a) with
        | Err (NotListed name) => (Some (RecordNotListed dir name), k)
        | Err u => bundleRecordUnread dir u k
        | Ok ((_ :: _) as ds) => (Some (RecordDiffers dir ds), k)
        | Ok [] =>
          match ReadBundleRecord sha256 d range there dir with
          | Err (Unlisted digest) => (Some (RecordUnlisted dir digest), k)
          | Err e => bundleRecordUnread dir (RecordError e) k
          | Ok rec =>
            let p := if bool_decide (tp_Identity (vc_runtime c) = []) || bool_decide (tp_Issuer (vc_runtime c) = []) then RuntimeBundlePolicy else vc_runtime c in
            let p := MkTrust (tp_Registry p) (tp_Identity p) (tp_Issuer p) (tp_Cosign (vc_policy c)) in
            let r := checkBlob p (br_Checksums rec) (br_Signature rec) (br_Cert rec) in
            match vr_Outcome r with
            | Verified => (None, vouch (lit "boot assets") k)
            | NoTooling => bundleRecordUnread dir NoCosign k
            | Unresolved => bundleRecordUnread dir (NoSigstore (vr_Detail r)) k
            | _ => (Some (RecordBadSignature dir (vr_Detail r)), k)
            end
          end
        end
      end
    end.

(** What a comparison with the bundle that verified decides. *)
Definition decide_compared (a : BootAssets) (r : res unread (list difference * option http_error)) (k : checks) : decided :=
  match r with
  | Err u => bootDigestsUnread u k
  | Ok ((_ :: _) as ds, _) => bootAssetsDiffer a ds k
  | Ok ([], Some fallback) => bootDigestsUnread (NoRegistryAnswer fallback None) k
  | Ok ([], None) => (None, vouch (lit "boot assets") k)
  end.

(** [checkBootDigests]; a fetch changes the disk. *)
Definition checkBootDigests (d : disk) (a : BootAssets) (k : checks) : decided * disk :=
  if bool_decide (vc_mode c = Off) || negb (vc_genericBoot c) then ((None, k), d)
  else if negb (bool_decide (ck_record k = [])) then (checkBundleRecord d a k, d)
  else if bool_decide (ck_digest k = []) then ((None, k), d)
  else if bool_decide (ba_Kernel a = []) || bool_decide (ba_Initrd a = []) then (bootDigestsUnread FoundInsideRun k, d)
  else
    match compareBootDigests d (ck_ref k) (ck_digest k) a with
    | Ok ((_ :: _) as ds, fb) =>
      if staleBundle d (ck_digest k) a then
        match refetchBootAssets k d a with
        | (Some e, d') => ((Some (OlderNotFetched (filepath_Dir (ba_Kernel a)) e), k), d')
        | (None, d') => (decide_compared a (compareBootDigests d' (ck_ref k) (ck_digest k) a) k, d')
        end
      else (decide_compared a (Ok (ds, fb)) k, d)
    | r => (decide_compared a r k, d)
    end.

(** The four steps of [EnsureRunning] before the boot. *)
Definition verify_run (d : disk) : decided * res gostr BootAssets * disk :=
  let no := Err [] in
  match verifyImage no_checks with
  | (Some e, k) => ((Some e, k), no, d)
  | (None, k) =>
    match verifyBootAssets k with
    | (Some e, k) => ((Some e, k), no, d)
    | (None, k) =>
      match resolveBootAssets k d with
      | (Err e, d) => ((Some (NotResolved e), k), no, d)
      | (Ok a, d) => let '(r, d) := checkBootDigests d a k in (r, Ok a, d)
      end
    end
  end.
End Run.

(** * Theorems *)

Lemma filepath_Abs_not_nil cwd p : p <> [] -> filepath_Abs cwd p <> [].
Proof.
  intros H. unfold filepath_Abs, filepath_Join. destruct (filepath_IsAbs p); [apply Clean_not_nil|].
  rewrite (bool_decide_eq_false_2 (p = [])) by done. rewrite andb_false_r. apply Clean_not_nil.
Qed.

Section Facts.
Variable c : verify_config.
Variable env : environment.
Variable readRegular : gostr -> option gostr.
Variable lookPath : gostr -> bool.
Variable cosign : gostr -> list gostr -> gostr * option run_failure.
Variable ip_literal : gostr -> bool.
Variable server : target -> nat -> turn.
Variable localDigest : gostr.
Variable terminal : bool.
Variable answers : question_kind -> option gostr.
Variable bootRef namedDir cwd : gostr.
Variable resolver : option (gostr -> bool -> disk -> res gostr BootAssets * disk).
Variable sha256 : gostr -> gostr.
Variable range : digests -> list (gostr * gostr).
Variable regular there : gostr -> bool.
Hypothesis range_entries : forall m x, x ∈ range m -> m !! x.1 = Some x.2.

Notation checkTag := (Policy_Image env readRegular lookPath cosign).
Notation checkDigest := (Policy_Verify env readRegular lookPath cosign).
Notation checkBlob := (Policy_Blob lookPath cosign).
Notation registryDigests := (fun ref digest => (BundleDigests ip_literal sha256 server ref digest).1).
Notation image := (verifyImage c checkTag checkDigest localDigest terminal answers).
Notation boot := (verifyBootAssets c checkDigest bootRef namedDir cwd regular).
Notation compared := (checkBootDigests c checkBlob registryDigests resolver sha256 range there).
Notation whole := (verify_run c checkTag checkDigest checkBlob localDigest terminal answers bootRef namedDir registryDigests cwd resolver sha256 range regular there).
Notation signed := (signed cosign).

(** cosign, run as [command], took the signature of [subject] for a certificate
    of this identity, issued by this issuer. *)
Definition took (command : list gostr) (identity issuer subject : gostr) : Prop :=
  exists out, cosign (tp_Cosign (vc_policy c))
    (command ++ [lit "--certificate-identity-regexp"; identity; lit "--certificate-oidc-issuer"; issuer; subject]) = (out, None).

(** The reference is under a registry. *)
Definition under (registry ref : gostr) : Prop := has_prefix (normalizeRef ref) registry = true.

(** The image that boots is one whose signature cosign took: by the digest that
    is booted where the runtime pins one, and by its tag otherwise. *)
Definition image_signed (pinned : gostr) : Prop :=
  let p := vc_policy c in
  under (tp_Registry p) (vc_image c) /\
  if vc_pins c then
    isDigest pinned = true /\ took [lit "verify"] (tp_Identity p) (tp_Issuer p) (refWithDigest (vc_image c) pinned) /\
    (localDigest = [] \/ localDigest = pinned)
  else took [lit "verify"] (tp_Identity p) (tp_Issuer p) (normalizeRef (vc_image c)).

(** The two files are the ones of a list. *)
Definition lists_assets (d : disk) (files : digests) (a : BootAssets) : Prop :=
  forall path, path ∈ asset_paths a -> exists want, files !! filepath_Base path = Some want /\ FileDigest sha256 d path = Ok want.

(** Whose signature the list of a release must carry: the identity that the run
    sets with its issuer, and the release's own when either is not set. *)
Definition release_signer : gostr * gostr :=
  match tp_Identity (vc_runtime c), tp_Issuer (vc_runtime c) with
  | (_ :: _) as identity, (_ :: _) as issuer => (identity, issuer)
  | _, _ => (tp_Identity RuntimeBundlePolicy, tp_Issuer RuntimeBundlePolicy)
  end.

(** The manifest of the bundle of the run has the digest that cosign took for
    the publisher of the boot assets, and lists the files. *)
Definition bundle_vouches (d : disk) (a : BootAssets) : Prop :=
  exists digest body m,
    under (tp_Registry BootAssetsPolicy) bootRef /\
    took [lit "verify"] (tp_Identity BootAssetsPolicy) (tp_Issuer BootAssetsPolicy) (refWithDigest bootRef digest) /\
    sha256Digest sha256 body = digest /\ decode_manifest body = Some m /\ lists_assets d (manifest_files m) a.

(** The files are in the directory that was named; the record there lists them,
    and a release lists the record in a list whose signature cosign took. *)
Definition record_vouches (d : disk) (a : BootAssets) : Prop :=
  let dir := filepath_Abs cwd namedDir in
  exists raw files list_raw listed name,
    (forall path, path ∈ asset_paths a -> filepath_Dir path = path_Clean dir) /\
    d (filepath_Join dir RecordFile) = Ok raw /\ parseSums raw = Ok files /\ lists_assets d files a /\
    d (filepath_Join dir releaseChecksums) = Ok list_raw /\ parseSums list_raw = Ok listed /\
    listed !! name = Some (sha256Digest sha256 raw) /\ has_suffix name recordSuffix = true /\
    took [lit "verify-blob"; lit "--certificate"; filepath_Join dir releaseCert; lit "--signature"; filepath_Join dir releaseSignature]
      release_signer.1 release_signer.2 (filepath_Join dir releaseChecksums).

Definition kernel_vouched (d : disk) (a : BootAssets) : Prop := bundle_vouches d a \/ record_vouches d a.

Lemma signed_took p subject : tp_Cosign p = tp_Cosign (vc_policy c) ->
  signed p subject -> took [lit "verify"] (tp_Identity p) (tp_Issuer p) subject.
Proof. intros E [out R]. exists out. by rewrite <- E. Qed.

(** What the check of the image says, and what is said of the boot assets. *)
Definition image_result : Result :=
  if vc_pins c then checkDigest (vc_policy c) (vc_image c) localDigest else checkTag (vc_policy c) (vc_image c).
Definition asset_alert (a : alert) : bool :=
  match a with SaidNotPublished _ | SaidUnchecked _ | SaidDiffers _ _ | SaidUnread _ | SaidRecordUnread _ _ => true | _ => false end.
Definition said_of_assets (k : checks) : Prop := exists a, asset_alert a = true /\ a ∈ ck_said k.

(** *** The image *)

Lemma confirm_keeps q k : let '(_, k') := confirm c terminal answers q k in
  ck_boot k' = ck_boot k /\ ck_verified k' = ck_verified k /\ ck_ref k' = ck_ref k /\ ck_digest k' = ck_digest k /\ ck_record k' = ck_record k /\
  (forall a, a ∈ ck_said k -> a ∈ ck_said k').
Proof.
  unfold confirm. destruct (_ || _); [split_and!; try done; cbn; set_solver|]. by destruct (answers q).
Qed.

(** What [verifyImage] leaves of what was there. *)
Definition beside_image (k k' : checks) : Prop := ck_ref k' = ck_ref k /\ ck_digest k' = ck_digest k /\ ck_record k' = ck_record k.

(** The three ways out of the check of an image. *)
Inductive image_way (k : checks) (r : decided) : Prop :=
  | way_signed : r.1 = None -> ck_verified r.2 = ck_verified k ++ [lit "image"] -> image_signed (ck_boot r.2) -> image_way k r
  | way_unchecked : ck_verified r.2 = ck_verified k -> SaidResult image_result ∈ ck_said r.2 -> vr_Outcome image_result <> Verified -> r.1 = None -> vc_mode c = Warn ->
      ours (vc_policy c) (vc_image c) = false \/ lookPath (tp_Cosign (vc_policy c)) = false \/ (exists q k1, (confirm c terminal answers q k1).1 = true) -> image_way k r
  | way_refused e : ck_verified r.2 = ck_verified k -> r.1 = Some e -> image_way k r.

Lemma ask_way q e k k0 : vr_Outcome image_result <> Verified -> vc_mode c = Warn -> ck_verified k = ck_verified k0 -> SaidResult image_result ∈ ck_said k ->
  image_way k0 (ask_to_boot c terminal answers q e k) /\ beside_image k (ask_to_boot c terminal answers q e k).2.
Proof.
  intros Nv M V S. unfold ask_to_boot. pose proof (confirm_keeps q k) as K. destruct (confirm c terminal answers q k) as [yes k'] eqn:E.
  destruct K as (_ & V' & K1 & K2 & K3 & K4). split; [|by split]. destruct yes.
  - apply way_unchecked; cbn; [congruence|auto|done|done|done|]. right. right. exists q, k. by rewrite E.
  - eapply way_refused; cbn; [congruence|done].
Qed.

Lemma hung_way r q k k0 : vr_Outcome image_result <> Verified -> vc_mode c <> Off -> ck_verified k = ck_verified k0 -> SaidResult image_result ∈ ck_said k ->
  image_way k0 (cosignHung c terminal answers r q k) /\ beside_image k (cosignHung c terminal answers r q k).2.
Proof.
  intros Nv M V S. unfold cosignHung. unfold required. case_bool_decide as R.
  - split; [by eapply way_refused|by split].
  - apply ask_way; [done|by destruct (vc_mode c)|done|done].
Qed.

Lemma mismatch_ours p ref local : vr_Outcome (checkDigest p ref local) = Mismatch -> vr_Ours (checkDigest p ref local) = true.
Proof.
  unfold Policy_Verify. destruct (ours p ref); cbn [negb]; [|done]. destruct (lookPath (tp_Cosign p)); cbn [negb]; [|done].
  destruct (resolveDigest cosign p ref) as [d|[e|]]; [|done..]. destruct (cosign _ _) as [out [[|e]|]]; [done..|]. by destruct (negb _ && negb _).
Qed.

Lemma said_say a k : a ∈ ck_said (say a k).
Proof. cbn. set_solver. Qed.

Lemma said_asset a k : asset_alert a = true -> said_of_assets (say a k).
Proof. intros A. exists a. split; [done|apply said_say]. Qed.

(** A check that could not be made is said, and stops a run that requires it. *)
Lemma unchecked_way r k k0 : r = image_result -> vr_Outcome image_result <> Verified ->
  vc_mode c <> Off -> ck_verified k = ck_verified k0 -> ours (vc_policy c) (vc_image c) = false \/ lookPath (tp_Cosign (vc_policy c)) = false ->
  let x := if required c then (Some (RefusesResult r), k) else (None, say (SaidResult r) k) in image_way k0 x /\ beside_image k x.2.
Proof.
  intros -> Nv M V O. unfold required. case_bool_decide as R; (split; [|by split]).
  - by eapply way_refused.
  - apply way_unchecked; [done|apply said_say|done|done|by destruct (vc_mode c)|tauto].
Qed.

(** A check that failed is said; it is asked about, or stops. *)
Lemma failed_way r e q q' e' k k0 : vr_Outcome image_result <> Verified -> vc_mode c <> Off -> ck_verified k = ck_verified k0 -> SaidResult image_result ∈ ck_said k ->
  let x := if vr_TimedOut r then cosignHung c terminal answers r q k else if required c then (Some e, k) else ask_to_boot c terminal answers q' e' k in
  image_way k0 x /\ beside_image k x.2.
Proof.
  intros Nv M V S. destruct (vr_TimedOut r); [by apply hung_way|]. unfold required. case_bool_decide as R.
  - split; [by eapply way_refused|by split].
  - apply ask_way; [done|by destruct (vc_mode c)|done|done].
Qed.

Lemma digest_cases k : vc_mode c <> Off -> vc_pins c = true ->
  image_way k (verifyDigest c checkDigest localDigest terminal answers k) /\
  beside_image k (verifyDigest c checkDigest localDigest terminal answers k).2.
Proof.
  intros M Pins. unfold verifyDigest. set (r := checkDigest (vc_policy c) (vc_image c) localDigest).
  pose proof (check_digest_verified env readRegular lookPath cosign (vc_policy c) (vc_image c) localDigest) as Hv.
  pose proof (check_digest_ours env readRegular lookPath cosign (vc_policy c) (vc_image c) localDigest) as Ho.
  pose proof (check_digest_tooling env readRegular lookPath cosign (vc_policy c) (vc_image c) localDigest) as Ht.
  pose proof (mismatch_ours (vc_policy c) (vc_image c) localDigest) as Hm. fold r in Hv, Ho, Ht, Hm.
  assert (image_result = r) as Er by (by unfold image_result; rewrite Pins).
  assert (forall k', SaidResult image_result ∈ ck_said (say (SaidResult r) k')) as Sr by (intros k'; rewrite Er; apply said_say).
  destruct (vr_Outcome r) eqn:O; try (assert (vr_Outcome image_result <> Verified) as Nv by (by rewrite Er, O)).
  - split; [|by split]. apply way_signed; [done..|]. destruct Hv as [Hv _]. destruct (Hv eq_refl) as (Oz & _ & d & Rd & S & L & E).
    split; [exact Oz|]. rewrite Pins. cbn [snd]. cbn. fold r in E. rewrite E.
    split; [by eapply resolveDigest_digest|]. split; [by apply signed_took|done].
  - destruct Ho as [Ho _].
    pose proof (unchecked_way r (pin_digest (vr_Digest r) k) k (eq_sym Er) Nv M eq_refl (or_introl (Ho eq_refl))) as [W B]. split; [exact W|exact B].
  - destruct Ht as [Ht _]. by apply unchecked_way; [..|right; apply Ht].
  - pose proof (failed_way r RefusesFailed AnywayUnverified Anyway AbortedFailed (say (SaidResult r) (pin_digest (vr_Digest r) k)) k Nv M eq_refl (Sr _)) as [W B].
    split; [exact W|exact B].
  - rewrite Hm by done. cbn [negb]. destruct (required c) eqn:R.
    + split; [by eapply way_refused|by split].
    + assert (vc_mode c = Warn) as Mw by (unfold required in R; apply bool_decide_eq_false in R; by destruct (vc_mode c)).
      pose proof (ask_way VerifiedDigestAnyway AbortedMismatch (say (SaidResult r) (pin_digest (vr_Digest r) k)) k Nv Mw eq_refl (Sr _)) as [W B]. split; [exact W|exact B].
  - pose proof (failed_way r RefusesUnresolved CachedUnverified CachedUnverified AbortedUnresolved (say (SaidResult r) k) k Nv M eq_refl (Sr _)) as [W B].
    split; [exact W|exact B].
Qed.

Lemma tag_cases k k1 : vc_mode c <> Off -> vc_pins c = false -> ck_verified k1 = ck_verified k ->
  image_way k (verifyTag c checkTag terminal answers k1) /\ beside_image k1 (verifyTag c checkTag terminal answers k1).2.
Proof.
  intros M Pins V1. unfold verifyTag. set (r := checkTag (vc_policy c) (vc_image c)).
  pose proof (check_tag_verified env readRegular lookPath cosign (vc_policy c) (vc_image c)) as Hv.
  pose proof (check_tag_ours env readRegular lookPath cosign (vc_policy c) (vc_image c)) as Ho.
  pose proof (check_tag_tooling env readRegular lookPath cosign (vc_policy c) (vc_image c)) as Ht. fold r in Hv, Ho, Ht.
  assert (image_result = r) as Er by (by unfold image_result; rewrite Pins).
  assert (SaidResult image_result ∈ ck_said (say (SaidResult r) k1)) as Sr by (rewrite Er; apply said_say).
  assert (vr_Outcome r <> Verified -> vr_Outcome image_result <> Verified) as Nv by (by rewrite Er).
  pose proof (fun Z => failed_way r RefusesFailed AnywayUnverified Anyway AbortedFailed (say (SaidResult r) k1) k Z M V1 Sr) as F.
  destruct (vr_Outcome r) eqn:O; try (by apply F, Nv).
  - split; [|by split]. apply way_signed; [done|by cbn; rewrite V1|]. destruct Hv as [Hv _]. destruct (Hv eq_refl) as (Oz & _ & S).
    split; [exact Oz|]. rewrite Pins. by apply signed_took.
  - destruct Ho as [Ho _]. by apply unchecked_way; [..|by apply Nv|done|done|left; apply Ho].
  - destruct Ht as [Ht _]. by apply unchecked_way; [..|by apply Nv|done|done|right; apply Ht].
Qed.

Lemma image_cases k : vc_mode c <> Off -> image_way k (image k) /\ beside_image k (image k).2.
Proof.
  intros M. unfold verifyImage. rewrite bool_decide_eq_false_2 by done. destruct (vc_pins c) eqn:Pins; [by apply digest_cases|].
  destruct (tag_cases k (say SaidTagOnly k) M Pins eq_refl) as [W B]. by split.
Qed.

(** *** The kernel and the initrd *)

(** What the check of the signature leaves to compare with. *)
Definition to_compare (k : checks) : Prop :=
  (ck_record k = filepath_Abs cwd namedDir /\ ck_record k <> []) \/
  (ck_record k = [] /\ ck_digest k <> [] /\ ck_ref k = bootRef /\ ours (bootPolicy c) bootRef = true /\
   signed (bootPolicy c) (refWithDigest bootRef (ck_digest k))).

Lemma boot_cases k : vc_mode c <> Off -> vc_genericBoot c = true -> ck_digest k = [] -> ck_record k = [] ->
  let x := boot k in
  ck_boot x.2 = ck_boot k /\ ck_verified x.2 = ck_verified k /\
  (x.1 = None -> to_compare x.2 \/ (ck_digest x.2 = [] /\ ck_record x.2 = [] /\ vc_mode c = Warn /\ said_of_assets x.2)).
Proof.
  intros M G Kd Kr. unfold verifyBootAssets. rewrite bool_decide_eq_false_2, G by done. cbn [negb orb].
  assert (required c = false -> vc_mode c = Warn) as W by (intros R; unfold required in R; apply bool_decide_eq_false in R; by destruct (vc_mode c)).
  destruct (_ && _ && _) eqn:E.
  - split_and!; [done..|]. intros _. left. left. cbn. rewrite !andb_true_iff in E. destruct E as [[E _] _]. apply negb_true_iff, bool_decide_eq_false in E.
    split; [done|]. by apply filepath_Abs_not_nil.
  - set (r := checkDigest (bootPolicy c) bootRef []). pose proof (check_digest_verified env readRegular lookPath cosign (bootPolicy c) bootRef []) as Hv. fold r in Hv.
    assert (forall e al, asset_alert al = true -> let x : decided := if required c then (Some e, k) else (None, say al k) in
      ck_boot x.2 = ck_boot k /\ ck_verified x.2 = ck_verified k /\
      (x.1 = None -> to_compare x.2 \/ (ck_digest x.2 = [] /\ ck_record x.2 = [] /\ vc_mode c = Warn /\ said_of_assets x.2))) as U.
    { intros e al Al. destruct (required c); (split_and!; [done..|]); [done|]. intros _. right. split_and!; [done|done|by apply W|by apply said_asset]. }
    destruct (vr_Outcome r) eqn:O; try (by apply U); [|by split_and!..].
    split_and!; [done..|]. intros _. left. right. destruct Hv as [Hv _]. destruct (Hv eq_refl) as (Oz & _ & d & Rd & S & _ & Ed). fold r in Ed.
    cbn. rewrite Ed. split; [done|]. split; [|done]. pose proof (resolveDigest_digest cosign _ _ _ Rd) as D. by intros ->.
Qed.

Lemma differences_none d expected paths : file_differences sha256 d expected paths = Ok [] ->
  forall path, path ∈ paths -> exists want, expected !! filepath_Base path = Some want /\ FileDigest sha256 d path = Ok want.
Proof.
  induction paths as [|p paths IH]; intros H path; [set_solver|]. cbn [file_differences] in H.
  destruct (expected !! filepath_Base p) as [[|x want]|] eqn:E; [done| |done].
  destruct (FileDigest sha256 d p) as [got|] eqn:F; [|done]. destruct (file_differences _ _ _ paths) as [ds|]; [|done].
  case_bool_decide as B; [|done]. injection H as ->. intros [-> | Hp]%elem_of_cons; [|by apply IH]. exists (x :: want). by subst.
Qed.

(** The three ways out of the comparison. *)
Inductive kernel_way (k : checks) (r : decided) (d : disk) (a : BootAssets) : Prop :=
  | way_vouched : r.1 = None -> ck_boot r.2 = ck_boot k -> ck_verified r.2 = ck_verified k ++ [lit "boot assets"] -> kernel_vouched d a -> kernel_way k r d a
  | way_said : r.1 = None -> ck_boot r.2 = ck_boot k -> ck_verified r.2 = ck_verified k -> vc_mode c = Warn -> said_of_assets r.2 -> kernel_way k r d a
  | way_stopped e : r.1 = Some e -> ck_verified r.2 = ck_verified k -> kernel_way k r d a.

Lemma unread_way u k d a : vc_mode c <> Off -> kernel_way k (bootDigestsUnread c u k) d a.
Proof.
  intros M. unfold bootDigestsUnread, required. case_bool_decide; [by eapply way_stopped|]. apply way_said; [done..| |by apply said_asset]. by destruct (vc_mode c).
Qed.

Lemma record_unread_way dir u k d a : vc_mode c <> Off -> kernel_way k (bundleRecordUnread c dir u k) d a.
Proof.
  intros M. unfold bundleRecordUnread, required. case_bool_decide; [by eapply way_stopped|]. apply way_said; [done..| |by apply said_asset]. by destruct (vc_mode c).
Qed.

Lemma differ_way ds k d a : vc_mode c <> Off -> kernel_way k (bootAssetsDiffer c a ds k) d a.
Proof.
  intros M. unfold bootAssetsDiffer, required. destruct (negb (ba_Named a)); [by eapply way_stopped|]. cbn [orb].
  case_bool_decide; [by eapply way_stopped|]. apply way_said; [done..| |by apply said_asset]. by destruct (vc_mode c).
Qed.

Lemma compare_way k d a :
  vc_mode c <> Off -> ck_ref k = bootRef -> ours (bootPolicy c) bootRef = true -> signed (bootPolicy c) (refWithDigest bootRef (ck_digest k)) ->
  kernel_way k (decide_compared c a (compareBootDigests registryDigests sha256 d (ck_ref k) (ck_digest k) a) k) d a.
Proof.
  intros M -> O S. unfold compareBootDigests, expectedBootDigests.
  pose proof (BundleDigests_pinned ip_literal sha256 server bootRef (ck_digest k)) as P.
  destruct (BundleDigests ip_literal sha256 server bootRef (ck_digest k)) as [r schemes]. cbn [fst]. destruct P as [_ P].
  destruct r as [files|[rf|f]].
  - destruct P as [(body & m & Sh & _ & D & ->) _].
    destruct (file_differences sha256 d (manifest_files m) (asset_paths a)) as [[|x ds]|u] eqn:F; cbn [decide_compared]; [|by apply differ_way|by apply unread_way].
    apply way_vouched; [done..|]. left. exists (ck_digest k), body, m.
    split; [exact O|]. split; [by apply (signed_took (bootPolicy c))|]. split_and!; [done..|]. exact (differences_none _ _ _ F).
  - by apply unread_way.
  - destruct (ProvenanceDigests d _ _) as [files|e]; [|destruct e; by (apply unread_way || apply differ_way)].
    destruct (file_differences sha256 d files (asset_paths a)) as [[|x ds]|u]; cbn [decide_compared]; by (apply unread_way || apply differ_way).
Qed.

Lemma record_way k d a : vc_mode c <> Off -> ck_record k = filepath_Abs cwd namedDir -> kernel_way k (checkBundleRecord c checkBlob sha256 range there d a k) d a.
Proof.
  intros M Dir. unfold checkBundleRecord. set (dir := ck_record k).
  destruct (_ || _); [by apply record_unread_way|]. destruct (List.find _ _) eqn:Beside; [by apply record_unread_way|].
  assert (forall path, path ∈ asset_paths a -> filepath_Dir path = path_Clean dir) as In_dir.
  { intros path Hp. pose proof (List.find_none _ _ Beside path (proj1 (list_elem_of_In _ _) Hp)) as B. by apply negb_false_iff, bool_decide_eq_true in B. }
  unfold RecordDigests, ReadBundleRecord. destruct (readRecord d dir) as [[raw files]|e] eqn:R; [|by apply record_unread_way].
  assert (d (filepath_Join dir RecordFile) = Ok raw /\ parseSums raw = Ok files) as [Draw Praw].
  { unfold readRecord in R. destruct (d _) as [raw'|[]] eqn:E; [|done..]. destruct (parseSums raw') as [f|[n|]] eqn:E'; [|done..]. injection R as -> ->. done. }
  destruct (file_differences sha256 d files (asset_paths a)) as [[|x ds]|u] eqn:F.
  2:{ by eapply way_stopped. }
  2:{ destruct u; (by apply record_unread_way) || (by eapply way_stopped). }
  destruct (d (filepath_Join dir releaseChecksums)) as [list_raw|e] eqn:L; [|by apply record_unread_way].
  destruct (parseSums list_raw) as [listed|e] eqn:Pl; [|by apply record_unread_way].
  destruct (List.find _ (range listed)) as [[name dg]|] eqn:Fi; [|by eapply way_stopped].
  apply List.find_some in Fi as [In T]. cbn [fst snd] in T. apply andb_true_iff in T as [T1 T2]. apply bool_decide_eq_true in T2.
  apply list_elem_of_In, range_entries in In. cbn [fst snd] in In.
  destruct (_ && _); [|by apply record_unread_way]. cbn [br_Checksums br_Signature br_Cert].
  match goal with |- context [Policy_Blob _ _ ?p _ _ _] => set (pol := p) end.
  unfold Policy_Blob. destruct (lookPath (tp_Cosign pol)); cbn [negb vr_Outcome]; [|by apply record_unread_way].
  destruct (cosign (tp_Cosign pol) _) as [out [[|e]|]] eqn:C; cbn [vr_Outcome].
  - by apply record_unread_way.
  - destruct (unreachable out); cbn [vr_Outcome]; [by apply record_unread_way|by eapply way_stopped].
  - apply way_vouched; [done..|]. right. unfold record_vouches. rewrite <- Dir. fold dir. exists raw, files, list_raw, listed, name.
    split; [exact In_dir|]. do 2 (split; [done|]). split; [exact (differences_none _ _ _ F)|]. do 2 (split; [done|]). split; [by rewrite <- T2|].
    split; [done|]. exists out. rewrite <- C. unfold pol, blob_args, release_signer.
    destruct (vc_runtime c) as [? [|? ?] [|? ?] ?]; cbn [tp_Identity tp_Issuer];
      rewrite ?(bool_decide_eq_false_2 (_ :: _ = [])) by done; reflexivity.
Qed.

Lemma compared_cases d a k : vc_mode c <> Off -> vc_genericBoot c = true -> to_compare k ->
  let '(r, d') := compared d a k in kernel_way k r d' a.
Proof.
  intros M G T. unfold checkBootDigests. rewrite bool_decide_eq_false_2, G by done. cbn [negb orb]. destruct T as [[Td T]|(T1 & T2 & Tr & O & S)].
  - rewrite bool_decide_eq_false_2 by done. cbn [negb]. by apply record_way.
  - rewrite T1. rewrite bool_decide_eq_true_2 by done. cbn [negb]. rewrite bool_decide_eq_false_2 by done.
    destruct (_ || _); [by apply unread_way|].
    pose proof (compare_way k d a M Tr O S) as W.
    destruct (compareBootDigests registryDigests sha256 d (ck_ref k) (ck_digest k) a) as [[[|x ds] fb]|u]; [exact W| |exact W].
    destruct (staleBundle _ _ _ _); [|exact W]. unfold refetchBootAssets. destruct resolver as [fetch|]; [|by eapply way_stopped].
    destruct (fetch _ _ _) as [[fresh|e] d']; [|by eapply way_stopped]. destruct (_ && _); [by apply compare_way|by eapply way_stopped].
Qed.

(** What was said stays on the screen. *)
Lemma say_said x a k : x ∈ ck_said k -> x ∈ ck_said (say a k).
Proof. cbn. set_solver. Qed.

Lemma boot_said x k : x ∈ ck_said k -> x ∈ ck_said (boot k).2.
Proof. intros S. unfold verifyBootAssets. repeat case_match; done || by apply say_said. Qed.

Lemma decided_said x d a r k : x ∈ ck_said k ->
  x ∈ ck_said (decide_compared c a r k).2 /\ x ∈ ck_said (checkBundleRecord c checkBlob sha256 range there d a k).2.
Proof.
  intros S. assert (forall u, x ∈ ck_said (bootDigestsUnread c u k).2) as U by (intros u; unfold bootDigestsUnread; case_match; done || by apply say_said).
  assert (forall dir u, x ∈ ck_said (bundleRecordUnread c dir u k).2) as U' by (intros dir u; unfold bundleRecordUnread; case_match; done || by apply say_said).
  split.
  - unfold decide_compared, bootAssetsDiffer. repeat case_match; done || apply U || by apply say_said.
  - unfold checkBundleRecord. repeat case_match; done || apply U'.
Qed.

Lemma compared_said x d a k : x ∈ ck_said k -> x ∈ ck_said (compared d a k).1.2.
Proof.
  intros S. unfold checkBootDigests.
  assert (forall u, x ∈ ck_said (bootDigestsUnread c u k).2) as U by (intros u; unfold bootDigestsUnread; case_match; done || by apply say_said).
  pose proof (fun r => proj1 (decided_said x d a r k S)) as D. pose proof (proj2 (decided_said x d a (Err FoundInsideRun) k S)) as R.
  repeat case_match; cbn [fst snd]; done || apply U || apply D || apply R.
Qed.

(** *** The run *)

(** What the line that a run prints says of what boots. *)
Definition says_true (k : checks) (d : disk) (a : BootAssets) : Prop :=
  (lit "image" ∈ ck_verified k -> image_signed (ck_boot k)) /\ (lit "boot assets" ∈ ck_verified k -> kernel_vouched d a).

Lemma verify_run_cases d0 k a d1 : vc_mode c <> Off -> whole d0 = ((None, k), Ok a, d1) ->
  exists k1, image_way no_checks (None, k1) /\ ck_boot k = ck_boot k1 /\ (forall x, x ∈ ck_said k1 -> x ∈ ck_said k) /\
    ((ck_verified k = ck_verified k1 /\ (vc_genericBoot c = false \/ (vc_mode c = Warn /\ said_of_assets k))) \/
     (ck_verified k = ck_verified k1 ++ [lit "boot assets"] /\ kernel_vouched d1 a)).
Proof.
  intros M E. unfold verify_run in E. pose proof (image_cases no_checks M) as [W B]. destruct (image no_checks) as [[e|] k1] eqn:Ei; [done|].
  destruct B as (Br & Bd & Bc). cbn [snd] in *. exists k1. split; [done|]. destruct (vc_genericBoot c) eqn:G.
  2:{ unfold verifyBootAssets in E. rewrite G, bool_decide_eq_false_2 in E by done. cbn [negb orb] in E.
      unfold resolveBootAssets in E. rewrite G in E. cbn [negb] in E. unfold checkBootDigests in E. rewrite G, bool_decide_eq_false_2 in E by done. cbn [negb orb] in E.
      injection E as <- _ _. auto 10. }
  pose proof (boot_cases k1 M G Bd Bc) as (Vb & Vv & Vn). pose proof (fun x => boot_said x k1) as Sb. destruct (boot k1) as [[e|] k2]; [done|]. cbn [fst snd] in *. specialize (Vn eq_refl).
  destruct (resolveBootAssets _ _ _ d0) as [[a'|e] d2]; [|done].
  destruct Vn as [T|(Dn & Rn & Mw & Sa)].
  - pose proof (compared_cases d2 a' k2 M G T) as K. pose proof (fun x => compared_said x d2 a' k2) as Sc. destruct (compared d2 a' k2) as [[r k3] d3]. injection E as -> -> -> ->.
    destruct K as [_ Kb Kv Kk|_ Kb Kv Km Ks|e Ke _]; cbn [fst snd] in *; [| |done].
    + split; [congruence|]. split; [auto|]. right. split; [congruence|done].
    + split; [congruence|]. split; [auto|]. left. split; [congruence|auto].
  - unfold checkBootDigests in E. rewrite Rn, Dn, G, !bool_decide_eq_false_2, !bool_decide_eq_true_2 in E by done. cbn in E.
    injection E as <- _ _. split; [done|]. split; [auto|]. left. auto.
Qed.
End Facts.

(** C4: when a run requires verification and boots, the image is under the
    registry of the policy, and cosign took a signature of it for the identity
    and the issuer of the policy: by the digest that the run pins, of which no
    other copy is in the store, where the runtime boots by digest, and by its
    tag where it does not.  The kernel and the initrd on the disk at that moment
    are the files that a list vouches for: the manifest of the run's bundle, by
    a digest that cosign took for the publisher of the boot assets; or, in the
    directory that was named, the record that a release lists, in a list that
    cosign took for the identity and the issuer of the release.  The registry,
    the runtime and the person at the terminal may answer anything. *)
Theorem required_run_verified c env readRegular lookPath cosign ip_literal server localDigest terminal answers bootRef namedDir cwd resolver sha256 range regular there d0 k a d1
    (range_entries : forall m x, x ∈ range m -> m !! x.1 = Some x.2) :
  vc_mode c = Require_mode ->
  verify_run c (Policy_Image env readRegular lookPath cosign) (Policy_Verify env readRegular lookPath cosign) (Policy_Blob lookPath cosign) localDigest terminal answers
    bootRef namedDir (fun ref digest => (BundleDigests ip_literal sha256 server ref digest).1) cwd resolver sha256 range regular there d0 = ((None, k), Ok a, d1) ->
  image_signed c cosign localDigest (ck_boot k) /\ (vc_genericBoot c = true -> kernel_vouched c cosign bootRef namedDir cwd sha256 d1 a).
Proof.
  intros R E. destruct (verify_run_cases c _ _ _ _ _ _ _ _ _ _ _ _ _ _ _ _ _ range_entries d0 k a d1 ltac:(by rewrite R) E) as (k1 & W & Eb & Sk & K).
  split.
  - rewrite Eb. destruct W as [_ _ W|_ _ _ _ W|e _ W]; [done|congruence|done].
  - intros G. destruct K as [[_ [K|[K _]]]|[_ K]]; [congruence..|done].
Qed.

(** C16: the line that says what verified is true in every mode that checks: a
    run that boots after it said that the image verified boots an image whose
    signature cosign took for the policy, and after it said that the boot assets
    verified, files that a signed list lists.  A run that boots an image that
    did not verify only warns, it shows the result of that very check, which is
    not that it verified, and with nobody to say yes it boots such an image only
    when it is not under the registry of the policy or there is no cosign.  A
    run that boots assets that did not verify only warns, and says so of them. *)
Theorem verified_line_true c env readRegular lookPath cosign ip_literal server localDigest terminal answers bootRef namedDir cwd resolver sha256 range regular there d0 k a d1
    (range_entries : forall m x, x ∈ range m -> m !! x.1 = Some x.2) :
  vc_mode c <> Off ->
  verify_run c (Policy_Image env readRegular lookPath cosign) (Policy_Verify env readRegular lookPath cosign) (Policy_Blob lookPath cosign) localDigest terminal answers
    bootRef namedDir (fun ref digest => (BundleDigests ip_literal sha256 server ref digest).1) cwd resolver sha256 range regular there d0 = ((None, k), Ok a, d1) ->
  (lit "image" ∈ ck_verified k -> image_signed c cosign localDigest (ck_boot k)) /\
  (lit "boot assets" ∈ ck_verified k -> kernel_vouched c cosign bootRef namedDir cwd sha256 d1 a) /\
  (lit "image" ∉ ck_verified k ->
     vc_mode c = Warn /\
     SaidResult (image_result c env readRegular lookPath cosign localDigest) ∈ ck_said k /\
     vr_Outcome (image_result c env readRegular lookPath cosign localDigest) <> Verified /\
     ((forall q k1, (confirm c terminal answers q k1).1 = false) ->
       ~ under (tp_Registry (vc_policy c)) (vc_image c) \/ lookPath (tp_Cosign (vc_policy c)) = false)) /\
  (vc_genericBoot c = true -> lit "boot assets" ∉ ck_verified k -> vc_mode c = Warn /\ said_of_assets k).
Proof.
  intros M E. destruct (verify_run_cases c _ _ _ _ _ _ _ _ _ _ _ _ _ _ _ _ _ range_entries d0 k a d1 M E) as (k1 & W & Eb & Sk & K).
  assert (lit "boot assets" <> lit "image") as Ne by (by vm_compute).
  assert (ck_verified k1 = [lit "image"] /\ image_signed c cosign localDigest (ck_boot k1) \/ ck_verified k1 = []) as V.
  { destruct W as [_ V W|V _ _ _ _ _|e _ W]; [left; by split|by right|done]. }
  split_and!.
  - intros In. rewrite Eb. destruct V as [[_ V]|V]; [done|]. exfalso. destruct K as [[K _]|[K _]]; rewrite K, V in In; set_solver.
  - intros In. destruct K as [[K _]|[_ K]]; [|done]. exfalso. rewrite K in In. destruct V as [[V _]|V]; rewrite V in In; set_solver.
  - intros Nin. destruct W as [_ Vi _|Vi Si Nv _ Mw Ow|e _ We]; [|split_and!; [done|by apply Sk|done|]|done].
    + exfalso. apply Nin. cbn in Vi. destruct K as [[K _]|[K _]]; rewrite K, Vi; set_solver.
    + intros No. destruct Ow as [O|[?|(q & k2 & Y)]]; [left|by right|by rewrite No in Y]. intros U. unfold under in U. unfold ours in O. congruence.
  - intros G Nin. destruct K as [[_ [K|K]]|[K _]]; [congruence|done|]. exfalso. apply Nin. rewrite K. set_solver.
Qed.

(** ** Witnesses *)

Definition zeros : gostr := repeat "0"%char 64.
(** A hash that knows one digest, and a cosign that names it and takes every
    signature. *)
Definition demo_sha256 (_ : gostr) : gostr := repeat (zb 0) 32.
Definition demo_cosign (bin : gostr) (args : list gostr) : gostr * option run_failure :=
  match args with
  | sub :: _ => if bool_decide (sub = lit "triangulate") then (lit "ghcr.io/x:sha256-" ++ zeros ++ lit ".sig", None) else ([], None)
  | [] => ([], None)
  end.
Definition json_pair (k v : gostr) : gostr := [quote] ++ k ++ [quote] ++ lit ":" ++ v.
Definition json_text (s : gostr) : gostr := [quote] ++ s ++ [quote].
Definition demo_layer (name : string) : gostr :=
  lit "{" ++ json_pair (lit "digest") (json_text (lit "sha256:" ++ zeros)) ++ lit "," ++
  json_pair (lit "annotations") (lit "{" ++ json_pair annotationTitle (json_text (lit name)) ++ lit "}") ++ lit "}".
Definition demo_manifest : gostr :=
  lit "{" ++ json_pair (lit "mediaType") (json_text mediaOCIManifest) ++ lit "," ++
  json_pair (lit "layers") (lit "[" ++ demo_layer "vmlinux" ++ lit "," ++ demo_layer "initrd" ++ lit "]") ++ lit "}".
(** The registry asks for a token first. *)
Definition demo_server (t : target) (n : nat) : turn :=
  match t with
  | AskManifest _ [] => Answers (MkReply 401 (lit "401 Unauthorized") (lit "Bearer " ++ challenge_text [(lit "realm", lit "https://ghcr.io/token"); (lit "service", lit "ghcr.io")]) ([], None))
  | AskManifest _ _ => Answers (MkReply 200 (lit "200 OK") [] (demo_manifest, None))
  | AskToken _ _ => Answers (MkReply 200 (lit "200 OK") [] (lit "{" ++ json_pair (lit "token") (json_text (lit "t")) ++ lit "}", None))
  end.
Definition demo_disk : disk := fun path => Ok path.
Definition demo_assets : BootAssets := MkBootAssets (lit "/a/vmlinux") (lit "/a/initrd") false.
Definition demo_config : verify_config :=
  MkVerifyConfig Require_mode DefaultPolicy RuntimeBundlePolicy (lit "ghcr.io/brig-sh/claude-code:1") true true (lit "hull") false true.
Definition demo_run : decided * res gostr BootAssets * disk :=
  verify_run demo_config (Policy_Image no_vars (fun _ => None) (fun _ => true) demo_cosign) (Policy_Verify no_vars (fun _ => None) (fun _ => true) demo_cosign)
    (Policy_Blob (fun _ => true) demo_cosign) [] false (fun _ => None) (lit "ghcr.io/nofireai/hull-assets:linux-arm64") []
    (fun ref digest => (BundleDigests (fun _ => false) demo_sha256 demo_server ref digest).1) (lit "/")
    (Some (fun _ _ d => (Ok demo_assets, d))) demo_sha256 map_to_list (fun _ => false) (fun _ => false) demo_disk.
Definition demo_checks : checks := demo_run.1.1.2.

Lemma demo_range : forall (m : gmap gostr gostr) x, x ∈ map_to_list m -> m !! x.1 = Some x.2.
Proof. intros m [k v] H. by apply elem_of_map_to_list in H. Qed.

Lemma required_run_verified_witness :
  image_signed demo_config demo_cosign [] (ck_boot demo_checks) /\
  kernel_vouched demo_config demo_cosign (lit "ghcr.io/nofireai/hull-assets:linux-arm64") [] (lit "/") demo_sha256 demo_disk demo_assets.
Proof.
  assert (demo_run = ((None, demo_checks), Ok demo_assets, demo_disk)) as E by (vm_compute; reflexivity).
  destruct (required_run_verified demo_config _ _ _ _ _ _ _ _ _ _ _ _ _ _ _ _ _ _ _ _ _ demo_range eq_refl E) as [H1 H2].
  split; [exact H1|exact (H2 eq_refl)].
Defined.

Lemma verified_line_true_witness :
  ck_verified demo_checks = [lit "image"; lit "boot assets"] /\ image_signed demo_config demo_cosign [] (ck_boot demo_checks).
Proof.
  assert (demo_run = ((None, demo_checks), Ok demo_assets, demo_disk)) as E by (vm_compute; reflexivity).
  assert (ck_verified demo_checks = [lit "image"; lit "boot assets"]) as V by (vm_compute; reflexivity).
  split; [exact V|]. refine (proj1 (verified_line_true demo_config _ _ _ _ _ _ _ _ _ _ _ _ _ _ _ _ _ _ _ _ _ demo_range _ E) _); [discriminate|].
  rewrite V. by left.
Defined.
