(* ===== verification/Resolver.v ===== *)
(** * [internal/egress/resolver.go] and [divert.go]: answering a sandbox's DNS

    [Answer] runs over the trace of what it asks of the outside: exchanges
    with the upstream servers, pins in the packet filter and adds to its
    divert sets.  What comes back is a function of the trace.  The log of a
    guest's queries is a state of its own. *)

From stdpp Require Import prelude list strings gmap sorting.
From Stdlib Require Import ZArith Lia ZifyNat Ascii.
From S2P Require Import Prelude GoUnicode GoStrings GoNum GoNetip RouteTypes EgressRules Dns DnsAnswer Divert Nft.

Local Open Scope Z_scope.

(** Lifetimes in seconds. *)
Definition PinTTL : Z := 60.
Definition PinGrace : Z := 60.

(** ** The outside *)

Inductive event :=
  | EExchange (network server msg : gostr)
  | EPin (set : gostr) (addrs : list addr) (lifetime : Z) (ok : bool)
  | ENFT (script : gostr) (ok : bool).

Record world := MkWorld { w_trace : list event; w_divert : option DivertSet }.

Record outside := MkOutside {
  o_id : list event -> byte * byte;
  o_exchange : list event -> gostr -> gostr -> gostr -> option gostr;
  o_pin : list event -> gostr -> list addr -> Z -> bool;
  o_nft : list event -> gostr -> bool }.

(** The fields of a [Resolver] that do not change. *)
Record resolver := MkResolver {
  rv_policy : EgressPolicy; rv_upstream : list gostr; rv_hosts : gmap gostr addr; rv_table : gostr }.

Definition emit (w : world) (e : event) : world := MkWorld (w_trace w ++ [e]) (w_divert w).

Section Resolver.
Variable o : outside.
Variable r : resolver.

(** ** Upstream *)

(** The loop of [forward] over the servers. *)
Fixpoint forward_loop (servers : list gostr) (network query out : gostr) (w : world) : option gostr * world :=
  match servers with
  | [] => (None, w)
  | server :: servers' =>
    let answer := o_exchange o (w_trace w) network server out in
    let w := emit w (EExchange network server out) in
    match answer with
    | Some resp =>
      if (length resp <? headerLen)%nat || negb (octet resp 0 =? octet out 0) || negb (octet resp 1 =? octet out 1)
      then forward_loop servers' network query out w
      else (Some (put resp 0 (take 2 query)), w)
    | None => forward_loop servers' network query out w
    end
  end.

Definition forward (network query : gostr) (w : world) : option gostr * world :=
  let '(a, b) := o_id o (w_trace w) in
  forward_loop (rv_upstream r) network query (put query 0 [a; b]) w.

(** ** Diverts *)

(** [Diverts.add] of route [i], which exists. *)
Definition divert_add (i : nat) (addrs : list addr) (w : world) : bool * world :=
  match w_divert w with
  | None => (true, w)
  | Some s =>
    match Add s (Z.of_nat i) addrs with
    | Err _ => (false, w)
    | Ok (v4, s') =>
      let w := MkWorld (w_trace w) (Some s') in
      let script := DivertScript (rv_table r) i v4 in
      if bool_decide (script = []) then (true, w)
      else
        let ok := o_nft o (w_trace w) script in
        (ok, emit w (ENFT script ok))
    end
  end.

Fixpoint add_routes (idx : list nat) (addrs : list addr) (w : world) : bool * world :=
  match idx with
  | [] => (true, w)
  | i :: idx' => let '(ok, w) := divert_add i addrs w in if ok then add_routes idx' addrs w else (false, w)
  end.

(** The loop of [Answered] over the routes; [seen] are the hosts done. *)
Fixpoint answered_loop (routes : list Route) (seen : list gostr) (resp : gostr) (w : world) : bool * world :=
  match routes with
  | [] => (true, w)
  | rt :: routes' =>
    if mem (dr_host rt) seen then answered_loop routes' seen resp w
    else
      let seen := dr_host rt :: seen in
      match chainAddrs resp (dr_host rt) with
      | Err _ => (false, w)
      | Ok [] => answered_loop routes' seen resp w
      | Ok addrs =>
        let idx := match w_divert w with Some s => Lookup s (dr_host rt) | None => [] end in
        let '(ok, w) := add_routes idx addrs w in
        if ok then answered_loop routes' seen resp w else (false, w)
      end
  end.

Definition Answered (resp : gostr) (w : world) : bool * world :=
  match w_divert w with
  | Some s => answered_loop (ds_routes s) [] resp w
  | None => (true, w)
  end.

(** ** [Answer] *)

Definition pinSet (q : question) : option gostr :=
  if negb (q_qtype q =? typeA) || negb (HasHostRules (rv_policy r)) then None
  else if DeniesQuery (rv_policy r) (q_name q) then Some SetDenyIP
  else if bool_decide (ep_default (rv_policy r) = EgressAllow) then None
  else Some SetAllowIP.

(** [Pins.Pin] with its event. *)
Definition pin (set : gostr) (addrs : list addr) (w : world) : bool * world :=
  let ok := o_pin o (w_trace w) set addrs (PinTTL + PinGrace) in
  (ok, emit w (EPin set addrs (PinTTL + PinGrace) ok)).

(** [Answer] from the answer of the upstream server on. *)
Definition answer_upstream (query : gostr) (q : question) (resp : gostr) (w : world) : gostr * world :=
  let servfail := reply query q rcodeServFail in
  let ttl := if HasHostRules (rv_policy r) then PinTTL else 0 in
  match inspectAnswer resp query q ttl with
  | Err _ => (servfail, w)
  | Ok (resp, addrs) =>
    let '(diverted, w) := if negb (is_nil (w_divert w)) && (q_qtype q =? typeA) then Answered resp w else (true, w) in
    if negb diverted then (servfail, w)
    else
      match pinSet q with
      | Some set =>
        if bool_decide (addrs = []) then (resp, w)
        else let '(ok, w) := pin set addrs w in if ok then (resp, w) else (servfail, w)
      | None => (resp, w)
      end
  end.

Definition Answer (network query : gostr) (w : world) : option gostr * world :=
  match parseQuery query with
  | Err e =>
    if (length query <? headerLen)%nat || negb (Z.land (octet query 2) 128 =? 0) then (None, w)
    else (Some (headerReply query (match e with ErrOpcode _ => rcodeNotImp | _ => rcodeFormErr end)), w)
  | Ok q =>
    match rv_hosts r !! trim_suffix (to_lower (q_name q)) (lit ".") with
    | Some a => (Some (localAnswer query q a), w)
    | None =>
      if negb (AllowsQuery (rv_policy r) (q_name q)) then (Some (reply query q rcodeRefused), w)
      else if negb (forwarded q) then (Some (reply query q 0), w)
      else
        let '(resp, w) := forward network query w in
        match resp with
        | None => (Some (reply query q rcodeServFail), w)
        | Some resp => let '(resp, w) := answer_upstream query q resp w in (Some resp, w)
        end
    end
  end.
End Resolver.

(** ** The log of a guest's queries *)

(** Times are in seconds. *)
Definition guestLogEvery : Z := 30.
Definition guestLogBurst : Z := 20.
Definition guestLogBytes : Z := 4194304.
Definition guestLogKeys : nat := 4096.

Record guest_log := MkGuestLog {
  gl_logged : gmap gostr Z; gl_window : Z; gl_inWindow : Z; gl_suppressed : Z; gl_size : Z }.

(** What a call writes. *)
Inductive log_line := LDropped (n : Z) | LLine (line : gostr) | LFull.

Definition logGuest (now : Z) (key line : gostr) (st : guest_log) : list log_line * guest_log :=
  let logged := if (guestLogKeys <=? size (gl_logged st))%nat then ∅ else gl_logged st in
  let fresh := guestLogEvery <=? now - gl_window st in
  let dropped := if fresh then gl_suppressed st else 0 in
  let suppressed := if fresh then 0 else gl_suppressed st in
  let window := if fresh then now else gl_window st in
  let inWindow := if fresh then 0 else gl_inWindow st in
  let due := match logged !! key with None => true | Some last => guestLogEvery <=? now - last end in
  let over := due && (guestLogBurst <=? inWindow) in
  let write := due && negb over in
  let suppressed := if over then suppressed + 1 else suppressed in
  let wasFull := guestLogBytes <=? gl_size st in
  let put := write && negb wasFull in
  let st' := MkGuestLog (if put then <[key := now]> logged else logged) window
    (if put then inWindow + 1 else inWindow) suppressed (if put then gl_size st + Z.of_nat (length line) else gl_size st) in
  let lines := if wasFull then []
    else (if 0 <? dropped then [LDropped dropped] else []) ++ (if write then [LLine line] else []) ++
         (if guestLogBytes <=? gl_size st' then [LFull] else []) in
  (lines, st').

Definition no_log : guest_log := MkGuestLog ∅ 0 0 0 0.

(** A run of calls: their times, keys and lines. *)
Fixpoint log_run (calls : list (Z * gostr * gostr)) (st : guest_log) : list log_line * guest_log :=
  match calls with
  | [] => ([], st)
  | (now, key, line) :: calls' =>
    let '(l, st) := logGuest now key line st in
    let '(ls, st) := log_run calls' st in (l ++ ls, st)
  end.

(** ** What an answer did *)

Definition event_ok (e : event) : Prop :=
  match e with EExchange _ _ _ => True | EPin _ _ _ ok => ok = true | ENFT _ ok => ok = true end.

(** [evs] are the events between two worlds. *)
Definition between (w : world) (evs : list event) (w' : world) : Prop := w_trace w' = w_trace w ++ evs.

Lemma between_refl w : between w [] w.
Proof. unfold between. by rewrite app_nil_r. Qed.

Lemma between_trans w a w1 b w2 : between w a w1 -> between w1 b w2 -> between w (a ++ b) w2.
Proof. unfold between. intros -> ->. by rewrite app_assoc. Qed.

(** The set of route [i] holds [a]. *)
Definition holds (w : world) (i : nat) (a : addr) : Prop :=
  exists s held, w_divert w = Some s /\ ds_addrs s !! i = Some held /\ a ∈ held.

(** A command that the packet filter ran puts [a] in the set of route [i]. *)
Definition nft_added (table : gostr) (i : nat) (a : addr) (e : event) : Prop :=
  exists elems,
    e = ENFT (lit "add element inet " ++ table ++ lit " " ++ DivertSetName i ++ lit " { " ++ join (lit ", ") elems ++ lit " }" ++ [zb 10]) true /\
    addr_string a ∈ elems.

(** brig and the packet filter both divert what goes to [a] for route [i]. *)
Definition diverted (table : gostr) (w : world) (evs : list event) (i : nat) (a : addr) : Prop :=
  holds w i a /\ Exists (nft_added table i a) evs.

Lemma DivertScript_adds table i addrs a : a ∈ addrs -> Is4 a = true ->
  DivertScript table i addrs <> [] /\ nft_added table i a (ENFT (DivertScript table i addrs) true).
Proof.
  intros Ha H4. destruct a as [z|]; [|done]. assert (string4 z ∈ plain_addrs addrs) as Hp by (apply plain_addrs_once; by exists z).
  unfold DivertScript. rewrite bool_decide_eq_false_2 by (intros E; rewrite E in Hp; by apply elem_of_nil in Hp). split; [done|].
  exists (plain_addrs addrs). split; [|done]. unfold braces. f_equal. change (lit " { ") with (lit " " ++ lit "{ "). by rewrite !app_assoc.
Qed.

(** The divert sets are sound, and their hosts are as [ParseRoute] leaves them. *)
Definition diverts_ok (w : world) : Prop :=
  forall s, w_divert w = Some s -> set_ok s /\ Forall (fun rt => trim_suffix (to_lower (dr_host rt)) (lit ".") = dr_host rt) (ds_routes s).

(** What adds leave: the same routes, and no address fewer. *)
Definition grows (w w' : world) : Prop :=
  (diverts_ok w -> diverts_ok w' /\ forall i a, holds w i a -> holds w' i a) /\
  (ds_routes <$> w_divert w') = (ds_routes <$> w_divert w).

Lemma grows_refl w : grows w w.
Proof. done. Qed.

Lemma grows_trans w w1 w2 : grows w w1 -> grows w1 w2 -> grows w w2.
Proof. unfold grows. intros [H1 E1] [H2 E2]. split; [|congruence]. intros H. destruct (H1 H) as [Hd Hh]. destruct (H2 Hd). auto. Qed.

Section AnswerFacts.
Variable o : outside.
Variable r : resolver.

Notation diverted := (diverted (rv_table r)).

Lemma divert_add_spec i addrs w ok w' : divert_add o r i addrs w = (ok, w') ->
  grows w w' /\ exists evs, between w evs w' /\ Forall (fun e => exists script ok', e = ENFT script ok') evs /\
    (ok = true -> Forall event_ok evs /\ (diverts_ok w -> is_Some (w_divert w) -> forall a, a ∈ addrs -> Is4 a = true -> diverted w' evs i a)).
Proof.
  unfold divert_add. destruct (w_divert w) as [s|] eqn:Ew.
  2: { intros [= <- <-]. split; [apply grows_refl|]. exists []. split_and!; [apply between_refl|constructor|]. intros _. split; [constructor|]. by intros _ [? ?]. }
  destruct (Add s (Z.of_nat i) addrs) as [[v4 s']|] eqn:Ea.
  2: { intros [= <- <-]. split; [apply grows_refl|]. exists []. split_and!; [apply between_refl|constructor|done]. }
  assert (forall t, grows w (MkWorld t (Some s'))) as Hg.
  { intros t. split; cbn [w_divert]; [|].
    - intros Hd. destruct (Hd _ Ew) as [Hok Hc]. destruct (Add_spec _ _ _ _ _ Hok Ea) as (Hok' & _ & Hr & _ & _ & Hh). split.
      + intros s2 [= <-]. by rewrite Hr.
      + intros j a (s0 & held & Hs0 & Hj & Hin). rewrite Ew in Hs0. injection Hs0 as <-.
        assert (j < length (ds_addrs s'))%nat as Hlt.
        { destruct Hok as [Hl _], Hok' as [Hl' _]. apply lookup_lt_Some in Hj. congruence. }
        destruct (lookup_lt_is_Some_2 _ _ Hlt) as [held' Hj']. exists s', held'. split_and!; [done|done|].
        destruct (Hh _ _ Hj') as (held0 & Hj0 & Hiff). rewrite Hj in Hj0. injection Hj0 as <-. apply Hiff. by left.
    - rewrite Ew. cbn. f_equal. unfold Add in Ea. destruct ((Z.of_nat i <? 0) || _); [done|]. apply seq_ok in Ea as [_ [= _ <-]]. done. }
  assert (diverts_ok w -> forall t a, a ∈ addrs -> Is4 a = true -> holds (MkWorld t (Some s')) i a) as Hheld.
  { intros Hd t a Ha H4. destruct (Hd _ Ew) as [Hok Hc]. destruct (Add_spec _ _ _ _ _ Hok Ea) as ((Hl' & _) & -> & Hr & _ & Hi & Hh).
    rewrite Nat2Z.id in *. rewrite <- Hr, <- Hl' in Hi. destruct (lookup_lt_is_Some_2 _ _ Hi) as [held' Hj']. exists s', held'. split_and!; [done|done|].
    destruct (Hh _ _ Hj') as (held0 & _ & Hiff). apply Hiff. right. split; [done|]. apply v4_once_spec.
    assert (Unmap a = a) as Hu by (by destruct a). split; [done|]. rewrite <- Hu. rewrite list_elem_of_In. apply in_map. by rewrite <- list_elem_of_In. }
  assert (diverts_ok w -> forall a, a ∈ addrs -> Is4 a = true -> DivertScript (rv_table r) i v4 <> [] /\
    nft_added (rv_table r) i a (ENFT (DivertScript (rv_table r) i v4) true)) as Hnft.
  { intros Hd a Ha H4. destruct (Hd _ Ew) as [Hok _]. destruct (Add_spec _ _ _ _ _ Hok Ea) as (_ & -> & _). apply DivertScript_adds; [|done].
    apply v4_once_spec. split; [done|]. assert (Unmap a = a) as Hu by (by destruct a). rewrite <- Hu, list_elem_of_In. apply in_map. by rewrite <- list_elem_of_In. }
  case_bool_decide as Hs.
  - intros [= <- <-]. split; [apply Hg|]. exists []. split_and!; [by unfold between; rewrite app_nil_r|constructor|]. intros _. split; [constructor|].
    intros Hd _ a Ha H4. by destruct (Hnft Hd a Ha H4).
  - intros [= <- <-]. split; [apply Hg|]. eexists [_]. split_and!; [done|apply Forall_cons; split; [by eexists _, _|constructor]|].
    intros Hok. split; [by apply Forall_cons|]. intros Hd _ a Ha H4. split; [by apply Hheld|]. rewrite Hok. apply Exists_cons_hd. by apply Hnft.
Qed.

(** What was diverted stays so while more is. *)
Lemma diverted_more w w' evs evs' i a : grows w w' -> diverts_ok w -> diverted w evs i a -> diverted w' (evs ++ evs') i a.
Proof. intros [G _] Hd [H X]. split; [by apply (G Hd)|]. apply Exists_app. by left. Qed.

Lemma diverted_after w evs evs' i a : diverted w evs' i a -> diverted w (evs ++ evs') i a.
Proof. intros [H X]. split; [done|]. apply Exists_app. by right. Qed.

Lemma add_routes_spec idx addrs w ok w' : add_routes o r idx addrs w = (ok, w') ->
  grows w w' /\ exists evs, between w evs w' /\ Forall (fun e => exists script ok', e = ENFT script ok') evs /\
    (ok = true -> Forall event_ok evs /\ (diverts_ok w -> is_Some (w_divert w) -> forall i a, i ∈ idx -> a ∈ addrs -> Is4 a = true -> diverted w' evs i a)).
Proof.
  revert w. induction idx as [|i idx IH]; intros w; cbn [add_routes].
  - intros [= <- <-]. split; [apply grows_refl|]. exists []. split_and!; [apply between_refl|constructor|]. intros _. split; [constructor|].
    by intros _ _ i a ?%elem_of_nil.
  - destruct (divert_add o r i addrs w) as [ok1 w1] eqn:E1. destruct (divert_add_spec _ _ _ _ _ E1) as (Hg1 & ev1 & Hb1 & Hn1 & Hok1).
    destruct ok1; [|intros [= <- <-]; split; [done|]; by exists ev1].
    intros H. destruct (IH _ H) as (Hg & evs & Hb & Hn & Hok). split; [by eapply grows_trans|].
    exists (ev1 ++ evs). split_and!; [by eapply between_trans|by apply Forall_app|]. intros ->.
    destruct (Hok1 eq_refl) as [He1 Hh1], (Hok eq_refl) as [He Hh]. split; [by apply Forall_app|].
    intros Hd Hs j a Hj Ha H4. destruct Hg1 as [Hg1 Er1]. destruct (Hg1 Hd) as [Hd1 Hmono1].
    assert (is_Some (w_divert w1)) as Hs1 by (destruct Hs as [s Hs]; rewrite Hs in Er1; destruct (w_divert w1); [by eexists|done]).
    apply elem_of_cons in Hj as [->|Hj]; [|by apply diverted_after, Hh]. eapply diverted_more; [done|done|]. by apply Hh1.
Qed.

Lemma chainAddrs_v4 resp name addrs : chainAddrs resp name = Ok addrs -> Forall (fun a => Is4 a = true) addrs.
Proof.
  unfold chainAddrs. intros [_ H]%seq_ok. apply res_bind_ok in H as ([ls start] & _ & H). apply res_bind_ok in H as (n & _ & H).
  apply res_bind_ok in H as (recs & Hr & [= <-]). apply Forall_forall. intros a Ha.
  apply chain_out_spec in Ha as (rec & Hin & Hrec & _). revert Hin Hrec. clear -Hr. revert Hr. cbn [snd].
  generalize (start + 4)%nat, (Z.to_nat n). intros off k. revert off recs.
  induction k as [|k IH]; intros off recs; cbn [chain_records]; [intros [= <-] H; by apply elem_of_nil in H|].
  intros ([owner next] & _ & H)%res_bind_ok. apply seq_ok in H as [_ H]. apply res_bind_ok in H as (t & _ & H).
  apply res_bind_ok in H as (c & _ & H). apply res_bind_ok in H as (v & _ & H). apply seq_ok in H as [_ H].
  apply res_bind_ok in H as (rec' & Hrec' & H). apply res_bind_ok in H as (recs' & Hrecs & [= <-]).
  intros [->|Hin]%elem_of_cons; [|by eapply IH]. intros Ha. revert Hrec'. case_if.
  - intros (? & _ & [= <-])%res_bind_ok. done.
  - case_if; [intros (bs & _ & [= <-])%res_bind_ok; by injection Ha as <-|]. intros [= <-]. done.
Qed.

Lemma answered_loop_spec routes seen resp w ok w' : answered_loop o r routes seen resp w = (ok, w') ->
  grows w w' /\ exists evs, between w evs w' /\ Forall (fun e => exists script ok', e = ENFT script ok') evs /\
    (ok = true -> Forall event_ok evs /\ forall s, diverts_ok w -> w_divert w = Some s ->
       forall rt addrs i a, rt ∈ routes -> dr_host rt ∉ seen -> chainAddrs resp (dr_host rt) = Ok addrs ->
         i ∈ Lookup s (dr_host rt) -> a ∈ addrs -> diverted w' evs i a).
Proof.
  revert seen w. induction routes as [|rt routes IH]; intros seen w; cbn [answered_loop].
  - intros [= <- <-]. split; [apply grows_refl|]. exists []. split_and!; [apply between_refl|constructor|]. intros _. split; [constructor|].
    by intros s _ _ rt addrs i a ?%elem_of_nil.
  - destruct (mem (dr_host rt) seen) eqn:Es.
    { intros H. destruct (IH _ _ H) as (Hg & evs & Hb & Hn & Hok). split; [done|]. exists evs. split_and!; [done..|]. intros ->.
      destruct (Hok eq_refl) as [He Hh]. split; [done|]. intros s Hd Hw rt' addrs i a [->|Hin]%elem_of_cons Hns Hc Hi Ha; [|by eapply Hh].
      by apply mem_true in Es. }
    destruct (chainAddrs resp (dr_host rt)) as [addrs0|] eqn:Ec; [|intros [= <- <-]; split; [apply grows_refl|]; exists []; split_and!; [apply between_refl|constructor|done]].
    assert (answered_loop o r routes (dr_host rt :: seen) resp w = (ok, w') -> addrs0 = [] ->
      grows w w' /\ exists evs, between w evs w' /\ Forall (fun e => exists script ok', e = ENFT script ok') evs /\
        (ok = true -> Forall event_ok evs /\ forall s, diverts_ok w -> w_divert w = Some s ->
          forall rt0 addrs i a, rt0 ∈ rt :: routes -> dr_host rt0 ∉ seen -> chainAddrs resp (dr_host rt0) = Ok addrs ->
            i ∈ Lookup s (dr_host rt0) -> a ∈ addrs -> diverted w' evs i a)) as Hnil.
    { intros H E0. destruct (IH _ _ H) as (Hg & evs & Hb & Hn & Hok). split; [done|]. exists evs. split_and!; [done..|]. intros ->.
      destruct (Hok eq_refl) as [He Hh]. split; [done|]. intros s Hd Hw rt' addrs i a Hin Hns Hc Hi Ha.
      destruct (decide (dr_host rt' = dr_host rt)) as [E|E]; [rewrite E, Ec in Hc; injection Hc as <-; subst addrs0; by apply elem_of_nil in Ha|].
      apply elem_of_cons in Hin as [->|Hin]; [done|]. eapply Hh; try done. apply not_elem_of_cons. by split. }
    destruct addrs0 as [|a0 addrs1]; [intros H; by apply Hnil|]. clear Hnil.
    destruct (add_routes o r _ _ w) as [ok1 w1] eqn:E1. destruct (add_routes_spec _ _ _ _ _ E1) as (Hg1 & ev1 & Hb1 & Hn1 & Hok1).
    destruct ok1; [|intros [= <- <-]; split; [done|]; by exists ev1].
    intros H. destruct (IH _ _ H) as (Hg & evs & Hb & Hn & Hok). split; [by eapply grows_trans|].
    exists (ev1 ++ evs). split_and!; [by eapply between_trans|by apply Forall_app|]. intros ->.
    destruct (Hok1 eq_refl) as [He1 Hh1], (Hok eq_refl) as [He Hh]. split; [by apply Forall_app|].
    intros s Hd Hw rt' addrs i a Hin Hns Hc Hi Ha. destruct Hg1 as [Hg1 Er1]. destruct (Hg1 Hd) as [Hd1 _].
    rewrite Hw in Er1, E1, Hh1. cbn in Er1. destruct (w_divert w1) as [s1|] eqn:Ew1; [|done]. injection Er1 as Er1.
    destruct (decide (dr_host rt' = dr_host rt)) as [E|E].
    + rewrite E, Ec in Hc. injection Hc as <-. rewrite E in Hi. eapply diverted_more; [done|done|]. apply Hh1; [done|by eexists|done|done|].
      apply chainAddrs_v4 in Ec. rewrite Forall_forall in Ec. by apply Ec.
    + apply elem_of_cons in Hin as [->|Hin]; [done|]. apply diverted_after. eapply (Hh s1); try done; [apply not_elem_of_cons; by split|].
      unfold Lookup in *. by rewrite Er1.
Qed.
End AnswerFacts.

Lemma Lookup_self s i rt : ds_routes s !! i = Some rt -> trim_suffix (to_lower (dr_host rt)) (lit ".") = dr_host rt ->
  i ∈ Lookup s (dr_host rt).
Proof.
  intros Hi Hc. unfold Lookup. rewrite list_elem_of_In, filter_In, <- list_elem_of_In. rewrite Hc, Hi. split; [|by apply bool_decide_eq_true].
  apply elem_of_seq. apply lookup_lt_Some in Hi. lia.
Qed.

Definition exchange_of (network query : gostr) (upstream : list gostr) (e : event) : Prop :=
  exists server msg, e = EExchange network server msg /\ server ∈ upstream /\ drop 2 msg = drop 2 query.

Section AnswerSafe.
Variable o : outside.
Variable r : resolver.

Lemma forward_spec network query w resp w' : (2 <= length query)%nat -> forward o r network query w = (resp, w') ->
  w_divert w' = w_divert w /\ exists evs, between w evs w' /\ Forall (exchange_of network query (rv_upstream r)) evs.
Proof.
  intros Hl. unfold forward. destruct (o_id o (w_trace w)) as [a b].
  assert (drop 2 (put query 0 [a; b]) = drop 2 query) as Hd by reflexivity.
  generalize dependent (put query 0 [a; b]). intros out Hd.
  assert (forall servers w, servers ⊆ rv_upstream r -> forward_loop o servers network query out w = (resp, w') ->
    w_divert w' = w_divert w /\ exists evs, between w evs w' /\ Forall (exchange_of network query (rv_upstream r)) evs) as Hloop; [|by apply Hloop].
  clear w. intros servers. induction servers as [|server servers IH]; intros w Hsub; cbn [forward_loop].
  - intros [= _ <-]. split; [done|]. exists []. split; [apply between_refl|constructor].
  - set (w1 := emit w _). assert (server ∈ rv_upstream r) as Hin by (apply Hsub; by constructor).
    assert (exchange_of network query (rv_upstream r) (EExchange network server out)) as He by (by exists server, out).
    assert (forward_loop o servers network query out w1 = (resp, w') -> w_divert w' = w_divert w /\
      exists evs, between w evs w' /\ Forall (exchange_of network query (rv_upstream r)) evs) as Hrest.
    { intros H. destruct (IH _ ltac:(intros x Hx; apply Hsub; by constructor) H) as (Hd' & evs & Hb & Hf). split; [done|].
      exists ([EExchange network server out] ++ evs). split; [by apply (between_trans w _ w1)|]. by apply Forall_cons. }
    destruct (o_exchange _ _ _ _ _) as [ans|]; [|done]. destruct (_ || _ || _); [done|]. intros [= _ <-]. split; [done|].
    exists [EExchange network server out]. split; [done|]. by repeat constructor.
Qed.

(** An answer of brig's own: it holds no record, or that of a host it names. *)
Definition own_reply (query : gostr) (resp : gostr) : Prop :=
  (exists rc, resp = headerReply query rc) \/
  exists q, parseQuery query = Ok q /\
    ((exists rc, resp = reply query q rc) \/
     exists a, rv_hosts r !! trim_suffix (to_lower (q_name q)) (lit ".") = Some a /\ resp = localAnswer query q a).

(** An answer passed on from upstream: the addresses in its answer section are
    pinned in the set that governs them, and those of a diverted host, through
    any chain of aliases, are in its divert set, where a command that the packet
    filter ran has put them. *)
Definition relayed (q : question) (resp : gostr) (w w' : world) : Prop :=
  exists rq ans e evs, readQuestion resp headerLen = Ok rq /\ equal_fold (q_name rq) (q_name q) = true /\ q_qtype rq = q_qtype q /\
    u16_at resp 6 = Ok (Z.of_nat (length ans)) /\ rrs resp (q_end rq) ans e /\
    (HasHostRules (rv_policy r) = true -> Forall (fun x => rr_type x <> typeOPT -> rr_ttl x = PinTTL) ans) /\
    between w evs w' /\ Forall event_ok evs /\
    (forall set, pinSet r q = Some set -> omap rr_addr ans <> [] ->
       last evs = Some (EPin set (omap rr_addr ans) (PinTTL + PinGrace) true)) /\
    (q_qtype q = typeA -> forall s i rt addrs a, w_divert w = Some s -> ds_routes s !! i = Some rt ->
       chainAddrs resp (dr_host rt) = Ok addrs -> a ∈ addrs -> diverted (rv_table r) w' evs i a).

Lemma answer_upstream_spec query q resp0 w resp w' : parseQuery query = Ok q -> diverts_ok w ->
  answer_upstream o r query q resp0 w = (resp, w') ->
  (exists evs, between w evs w' /\ Forall (fun e => forall n s m, e <> EExchange n s m) evs) /\
  (resp = reply query q rcodeServFail \/ relayed q resp w w').
Proof.
  intros Hq Hd. unfold answer_upstream. set (ttl := if HasHostRules (rv_policy r) then PinTTL else 0).
  destruct (inspectAnswer resp0 query q ttl) as [[out addrs]|] eqn:Ei.
  2: { intros [= <- <-]. split; [|by left]. exists []. split; [apply between_refl|constructor]. }
  destruct (if negb (is_nil (w_divert w)) && (q_qtype q =? typeA) then Answered o r out w else (true, w)) as [ok w1] eqn:Ea.
  assert (exists ev1, between w ev1 w1 /\ Forall (fun e => exists script ok', e = ENFT script ok') ev1 /\ (ok = true -> Forall event_ok ev1 /\
    (q_qtype q = typeA -> forall s i rt as_ a, w_divert w = Some s -> ds_routes s !! i = Some rt ->
       chainAddrs out (dr_host rt) = Ok as_ -> a ∈ as_ -> diverted (rv_table r) w1 ev1 i a))) as (ev1 & Hb1 & Hn1 & Hok1).
  { destruct (negb (is_nil (w_divert w)) && (q_qtype q =? typeA)) eqn:Ec.
    - unfold Answered in Ea. destruct (w_divert w) as [s|] eqn:Ew; [|done].
      destruct (answered_loop_spec _ _ _ _ _ _ _ _ Ea) as (_ & evs & Hb & Hn & Hok). exists evs. split_and!; [done..|]. intros ->.
      destruct (Hok eq_refl) as [He Hh]. split; [done|]. intros _ s' i rt as_ a [= <-] Hi Hc Ha. destruct (Hd _ Ew) as [_ Hcan].
      eapply (Hh s Hd Ew rt); try done; [by apply list_elem_of_lookup_2 in Hi|apply not_elem_of_nil|].
      apply Lookup_self; [done|]. rewrite Forall_lookup in Hcan. by eapply Hcan.
    - injection Ea as <- <-. exists []. split_and!; [apply between_refl|constructor|]. intros _. split; [constructor|].
      intros Hqt s i rt as_ a Hs. rewrite Hs in Ec. cbn [is_nil negb andb] in Ec. by apply Z.eqb_neq in Ec. }
  assert (Forall (fun e => forall n s m, e <> EExchange n s m) ev1) as Hne.
  { eapply Forall_impl; [exact Hn1|]. intros e (script & b & ->) n s m. done. }
  destruct ok; cbn [negb].
  2: { intros [= <- <-]. split; [|by left]. by exists ev1. }
  destruct (Hok1 eq_refl) as [He1 Hh1].
  destruct (inspectAnswer_guest _ _ _ _ _ _ Ei) as (rq & ans & auth & e1 & e2 & _ & _ & Hrq & Hnm & Hqt & Han & _ & Hrs & _ & -> & Httl & _).
  assert (HasHostRules (rv_policy r) = true -> Forall (fun x => rr_type x <> typeOPT -> rr_ttl x = PinTTL) ans) as Httl'.
  { intros Hhr. apply Forall_app in Httl as [Httl _]. eapply Forall_impl; [exact Httl|]. cbn. unfold ttl. rewrite Hhr. intros x Hx. by apply Hx. }
  destruct (pinSet r q) as [set|] eqn:Ep.
  - case_bool_decide as Hnil.
    + intros [= <- <-]. split; [by exists ev1|]. right. exists rq, ans, e1, ev1. split_and!; done.
    + unfold pin. destruct (o_pin _ _ _ _ _) eqn:Eo; intros [= <- <-].
      * assert (between w (ev1 ++ [EPin set (omap rr_addr ans) (PinTTL + PinGrace) true]) (emit w1 (EPin set (omap rr_addr ans) (PinTTL + PinGrace) true))) as Hb.
        { eapply between_trans; [exact Hb1|]. done. }
        split; [eexists; split; [exact Hb|]; apply Forall_app; split; [done|]; by repeat constructor|].
        right. exists rq, ans, e1. eexists. split_and!; try done; [apply Forall_app; split; [done|]; by apply Forall_cons| |].
        -- intros set' E _. rewrite Ep in E. injection E as <-. by rewrite last_snoc.
        -- intros Hqa s i rt as_ a Hs Hi Hc Ha. destruct (Hh1 Hqa s i rt as_ a Hs Hi Hc Ha) as [X1 X2]. split; [exact X1|]. apply Exists_app. by left.
      * split; [|by left]. exists (ev1 ++ [EPin set (omap rr_addr ans) (PinTTL + PinGrace) false]). split; [eapply between_trans; [exact Hb1|done]|].
        apply Forall_app. split; [done|]. by repeat constructor.
  - intros [= <- <-]. split; [by exists ev1|]. right. exists rq, ans, e1, ev1. split_and!; try done. intros set E. by rewrite Ep in E.
Qed.
End AnswerSafe.

(** ** Properties *)


Definition example_outside : outside :=
  MkOutside (fun _ => (zb 1, zb 2)) (fun _ _ _ msg => Some (put example_response 0 (take 2 msg))) (fun _ _ _ _ => true) (fun _ _ => true).

Definition example_resolver : resolver := MkResolver example_egress [lit "192.0.2.1:53"] ∅ (lit "brig_egress_x").

Definition example_world : world := MkWorld [] (Some (NewSet [MkDivertRoute (lit "api.example.com") 443])).

Lemma example_world_ok : diverts_ok example_world.
Proof.
  intros s [= <-]. split; [apply NewSet_ok|]. apply Forall_cons. split; [vm_compute; reflexivity|constructor].
Qed.

Definition example_answer : option gostr * world := Answer example_outside example_resolver (lit "udp") example_query example_world.


(** ** The log *)

Definition line_bytes (l : log_line) : Z := match l with LLine s => Z.of_nat (length s) | _ => 0 end.
Definition lines_of (ls : list log_line) : list gostr := omap (fun l => match l with LLine s => Some s | _ => None end) ls.
Fixpoint total (ls : list gostr) : Z := match ls with [] => 0 | s :: ls' => Z.of_nat (length s) + total ls' end.

Lemma total_app a b : total (a ++ b) = total a + total b.
Proof. induction a as [|s a IH]; cbn [app total]; lia. Qed.

Lemma logGuest_lines now key line st ls st' : logGuest now key line st = (ls, st') ->
  (lines_of ls = [] /\ gl_size st' = gl_size st) \/
  (lines_of ls = [line] /\ gl_size st < guestLogBytes /\ gl_size st' = gl_size st + Z.of_nat (length line)).
Proof.
  unfold logGuest. set (logged := if (guestLogKeys <=? _)%nat then _ else _).
  set (due := match logged !! key with None => true | Some last => _ end).
  set (inw := if guestLogEvery <=? now - gl_window st then 0 else gl_inWindow st).
  destruct (Z.leb_spec guestLogBytes (gl_size st)) as [Hf|Hf]; cbn [negb].
  - rewrite andb_false_r. intros [= <- <-]. by left.
  - rewrite andb_true_r. destruct (due && negb (due && (guestLogBurst <=? inw))) eqn:E; intros [= <- <-]; cbn [gl_size].
    + right. unfold lines_of. rewrite !omap_app. destruct (0 <? _), (guestLogBytes <=? _); cbn; done.
    + left. unfold lines_of. rewrite !omap_app. destruct (0 <? _), (guestLogBytes <=? _); cbn; done.
Qed.

(** However many queries a guest sends, the lines they cause stay within
    four megabytes of the log and one line more: nothing is written once the
    size is reached. *)
Lemma logGuest_bounded (calls : list (Z * gostr * gostr)) :
  let written := lines_of (log_run calls no_log).1 in
  forall before last, written = before ++ [last] -> total before < guestLogBytes.
Proof.
  cbv zeta.
  assert (forall st, gl_size (log_run calls st).2 = gl_size st + total (lines_of (log_run calls st).1) /\
    forall before last, lines_of (log_run calls st).1 = before ++ [last] -> gl_size st + total before < guestLogBytes) as H.
  { induction calls as [|[[now key] line] calls IH]; intros st; cbn [log_run].
    - cbn. split; [lia|]. intros before last E. by destruct before.
    - destruct (logGuest now key line st) as [l st1] eqn:E1. specialize (IH st1). destruct (log_run calls st1) as [ls st2] eqn:E2.
      cbn [fst snd] in *. destruct IH as [Hs Hb]. unfold lines_of. rewrite omap_app. fold (lines_of l) (lines_of ls).
      destruct (logGuest_lines _ _ _ _ _ _ E1) as [[-> Hz]|(-> & Hlt & Hz)]; rewrite total_app; cbn [total].
      + split; [lia|]. intros before last E. specialize (Hb _ _ E). lia.
      + split; [lia|]. intros before last E. destruct (lines_of ls) as [|x xs] eqn:El.
        * destruct before as [|y before]; [cbn [total]; lia|]. by destruct before.
        * destruct before as [|y before]; [by destruct xs|]. cbn [app] in E. injection E as <- E.
          specialize (Hb before last E). cbn [total]. lia. }
  intros before last E. apply (proj2 (H no_log)) in E. cbn in E. lia.
Qed.
