(* ===== verification/EgressMain.v ===== *)
(** * [internal/egress/main.go]: the resolver's command line and its table

    What [Main] reads from its flags, and the keeper that installs the table
    and renews its heartbeat. *)

From stdpp Require Import prelude list strings gmap sorting.
From Stdlib Require Import ZArith Lia ZifyNat Ascii.
From S2P Require Import Prelude GoUnicode GoStrings GoNum GoNetip RouteTypes EgressRules Divert Nft.

Local Open Scope Z_scope.

Inductive main_error :=
  | BadListen (s : gostr) | BadSubnet (s : gostr) | BadRedirect (s : gostr)
  | HostNotNameIP (v : gostr) | HostNotIPv4 (v : gostr) | HostTwice (v : gostr)
  | SocketNoDivert | SocketNotAbsolute | BadRelayPort | BadDivert (e : divert_error)
  | InstallFailed | HeartbeatFailed.

Fixpoint redirects (l : list gostr) : res main_error (list addr) :=
  match l with
  | [] => Ok []
  | r :: l' =>
    match ParseAddr r with
    | None => Err (BadRedirect r)
    | Some a => let? rest := redirects l' in Ok (a :: rest)
    end
  end.

Definition network (bridge listen subnet : gostr) (redirect : list gostr) : res main_error Network :=
  match ParseAddr listen with
  | None => Err (BadListen listen)
  | Some gateway =>
    match ParsePrefix subnet with
    | None => Err (BadSubnet subnet)
    | Some pf => let? l := redirects redirect in Ok (MkNetwork bridge gateway pf l (MkNftDivert [] 0))
    end
  end.

(** A turn of the loop of [hostsOf]. *)
Definition host_flag (out : gmap gostr addr) (v : gostr) : res main_error (gmap gostr addr) :=
  let '(name, ip, ok) := cut v (lit "=") in
  let name := trim_suffix (to_lower name) (lit ".") in
  fail_if (negb ok || negb (Hostname name)) (HostNotNameIP v) ;?
  match ParseAddr ip with
  | Some (V4 z) => fail_if (negb (is_nil (out !! name))) (HostTwice v) ;? Ok (<[name := V4 z]> out)
  | _ => Err (HostNotIPv4 v)
  end.

Fixpoint hosts_loop (out : gmap gostr addr) (values : list gostr) : res main_error (gmap gostr addr) :=
  match values with
  | [] => Ok out
  | v :: values' => let? out := host_flag out v in hosts_loop out values'
  end.

Definition hostsOf (values : list gostr) : res main_error (gmap gostr addr) := hosts_loop ∅ values.

Fixpoint parse_routes (l : list gostr) : res main_error (list Route) :=
  match l with
  | [] => Ok []
  | s :: l' => let? r := map_err BadDivert (ParseRoute s) in let? rest := parse_routes l' in Ok (r :: rest)
  end.

(** [filepath.IsAbs] on Unix. *)
Definition is_abs (p : gostr) : bool := has_prefix p (lit "/").

Definition divertOf (routes : list gostr) (socket : gostr) (port : Z) : res main_error NftDivert :=
  match routes with
  | [] => fail_if (negb (bool_decide (socket = []))) SocketNoDivert ;? Ok (MkNftDivert [] 0)
  | _ =>
    fail_if (negb (is_abs socket)) SocketNotAbsolute ;?
    fail_if ((port =? 0) || (65535 <? port)) BadRelayPort ;?
    let? rs := parse_routes routes in
    Ok (MkNftDivert rs port)
  end.

(** ** The table keeper *)

Inductive keeper_event := KInstall (ok : bool) | KPin | KBeat (ok : bool) | KList (ok : bool).

Section Keeper.
(** What nft answers to the install, the heartbeat and the listing of the
    table. *)
Variables install_ok beat_ok list_ok : list keeper_event -> bool.
(** The rules name hosts to pin ahead of their queries. *)
Variable pins : bool.

Definition beat (t : list keeper_event) : bool * list keeper_event :=
  let ok := beat_ok t in (ok, t ++ [KBeat ok]).

Definition install (t : list keeper_event) : res main_error unit * list keeper_event :=
  let ok := install_ok t in
  let t := t ++ [KInstall ok] in
  if negb ok then (Err InstallFailed, t)
  else
    let t := if pins then t ++ [KPin] else t in
    let '(ok, t) := beat t in
    (if ok then Ok tt else Err HeartbeatFailed, t).

(** A tick of [run]. *)
Definition keeper_tick (t : list keeper_event) : list keeper_event :=
  let '(ok, t) := beat t in
  if ok then t
  else
    let listed := list_ok t in
    let t := t ++ [KList listed] in
    if listed then t else (install t).2.

Fixpoint keeper_run (ticks : nat) (t : list keeper_event) : list keeper_event :=
  match ticks with O => t | S k => keeper_run k (keeper_tick t) end.
End Keeper.

(** A table is in place: it was installed, and its pins put in, since the last
    time it was found gone. *)
Fixpoint table_in_place (pins : bool) (t : list keeper_event) (placed : bool) : bool :=
  match t with
  | [] => placed
  | KInstall ok :: t' => table_in_place pins t' (if ok then negb pins else false)
  | KPin :: t' => table_in_place pins t' true
  | KList ok :: t' => table_in_place pins t' (ok && placed)
  | KBeat _ :: t' => table_in_place pins t' placed
  end.

Lemma in_place_app pins a b placed : table_in_place pins (a ++ b) placed = table_in_place pins b (table_in_place pins a placed).
Proof. revert placed. induction a as [|[] a IH]; intros placed; cbn; auto. Qed.

(** An install that succeeds puts the pins in ahead of the heartbeat. *)
Lemma install_in_place io bo pins t t' : install io bo pins t = (Ok tt, t') ->
  exists u, t' = u ++ [KBeat true] /\ table_in_place pins u false = true.
Proof.
  unfold install, beat. destruct (io t); cbn [negb]; [|done]. destruct pins; destruct (bo _); intros [= <-]; eexists; (split; [done|]).
  all: rewrite !in_place_app; reflexivity.
Qed.

(** ** What the flags give *)

Lemma parse_routes_ok l rs : parse_routes l = Ok rs -> Forall2 (fun s r => ParseRoute s = Ok r) l rs.
Proof.
  revert rs. induction l as [|s l IH]; intros rs; cbn [parse_routes]; [intros [= <-]; constructor|].
  intros (r & Hr & H)%res_bind_ok. apply map_err_ok in Hr. apply res_bind_ok in H as (rest & Hrest & [= <-]). constructor; [done|by apply IH].
Qed.

Lemma hostsOf_ok values out : hostsOf values = Ok out ->
  map_Forall (fun name a => Hostname name = true /\ Is4 a = true /\ trim_suffix (to_lower name) (lit ".") = name) out.
Proof.
  unfold hostsOf. assert (map_Forall (fun name a => Hostname name = true /\ Is4 a = true /\ trim_suffix (to_lower name) (lit ".") = name) (∅ : gmap gostr addr)) as H0.
  { intros name a H. by rewrite lookup_empty in H. }
  revert H0. generalize (∅ : gmap gostr addr). induction values as [|v values IH]; intros m Hm; cbn [hosts_loop]; [by intros [= <-]|].
  intros (m' & Hf & H)%res_bind_ok. apply (IH m'); [|done]. unfold host_flag in Hf. destruct (cut v (lit "=")) as [[name ip] ok].
  apply seq_ok in Hf as [Hn Hf]. apply fail_if_ok, orb_false_iff in Hn as [_ Hn]. apply negb_false_iff in Hn.
  destruct (ParseAddr ip) as [[z|]|]; [|done..]. apply seq_ok in Hf as [_ [= <-]]. apply map_Forall_insert_2; [|done].
  split_and!; [done|done|]. by apply Hostname_lower.
Qed.
