(* ===== verification/Placeholder.v ===== *)
(** * The walk over a request (internal/broker/placeholder.go)

    [findPlaceholder] looks for a live token in each part of a request, and
    [holdBody] reads and pays for the part of the body that is scanned.  The
    decoders of compress/gzip, zlib and flate are arguments of the section. *)

From stdpp Require Import prelude list strings gmap.
From Stdlib Require Import ZArith Lia ZifyNat Ascii.
From S2P Require Import Prelude GoUnicode GoStrings GoNum GoHttp GoUrl RouteTypes Inject RoutePath Spelling Matcher Scan Registry.

Local Open Scope Z_scope.

Record placeholder := MkPlaceholder { ph_route : gostr; ph_where : gostr; ph_encoding : gostr }.

Inductive scan_error := errContentEncoding | errInflated | errBudget.

#[export] Instance scan_error_eq_dec : EqDecision scan_error.
Proof. solve_decision. Defined.

Definition maxWhere : nat := 64.

Definition at_where (where_ : gostr) (h : hit) : placeholder :=
  MkPlaceholder (hit_route h) where_ (hit_encoding h).

(** ** The query *)

Fixpoint unescape_loose (s : gostr) : gostr :=
  match s with
  | [] => []
  | c :: s1 =>
    if Ascii.eqb c "+" then " "%char :: unescape_loose s1
    else if Ascii.eqb c percent then
      match s1 with
      | a :: b :: s2 =>
        match hex_digit_value a, hex_digit_value b with
        | Some hi, Some lo => zb (Z.lor (Z.shiftl hi 4) lo) :: unescape_loose s2
        | _, _ => c :: unescape_loose s1
        end
      | _ => c :: unescape_loose s1
      end
    else c :: unescape_loose s1
  end.

Definition unescapeLoose (s : gostr) : gostr :=
  if negb (contains_any s (lit "%+")) then s else unescape_loose s.

(** ** Headers *)

(** The values of a header with the carrier's token taken out of the first. *)
Definition rest_values (rests : gmap gostr gostr) (name : gostr) (values : list gostr) : list gostr :=
  match rests !! name, values with
  | Some rest, _ :: values' => rest :: values'
  | _, _ => values
  end.

Fixpoint find_values (m : matcher) (h : header) (kind : gostr) (rests : gmap gostr gostr) (names : list gostr)
    : option placeholder :=
  match names with
  | [] => None
  | name :: names' =>
    match findString m (rest_values rests name (default [] (h !! name))) with
    | Some x => Some (at_where (kind ++ lit " " ++ clip name maxWhere) x)
    | None => find_values m h kind rests names'
    end
  end.

Definition findInHeader (m : matcher) (h : header) (kind : gostr) (rests : gmap gostr gostr) : option placeholder :=
  match findString m (h_names h) with
  | Some x => Some (at_where (kind ++ lit " name") x)
  | None => find_values m h kind rests (h_names h)
  end.

(** One turn of the loop over [headers.set]. *)
Definition set_rest (vends : bool) (h : header) (auth tok : gostr) (rests : gmap gostr gostr) (s : Header)
    : gmap gostr gostr :=
  let name := CanonicalHeaderKey (hd_name s) in
  match cut_at PlaceholderValue (hd_value s) with
  | None => rests
  | Some (prefix, suffix) =>
    if bool_decide (name = Authorization) then
      if vends && bool_decide (hd_value s = PlaceholderValue) && bool_decide (auth = tok)
      then <[Authorization := []]> rests else rests
    else if bool_decide (h_get h name = prefix ++ tok ++ suffix) then <[name := prefix ++ suffix]> rests
    else rests
  end.

Definition carrierRests (spec : Route) (h : header) (tok : gostr) : gmap gostr gostr :=
  let i := inject_of spec in
  let auth := h_get h Authorization in
  let rests : gmap gostr gostr :=
    if bool_decide (bearer auth = Some tok) then {[Authorization := replace_first tok [] auth]}
    else if is_nil (in_basicAuth i) then ∅
    else
      match BasicAuth_of auth with
      | Some (user, pass) => if bool_decide (pass = tok) then {[Authorization := user]} else ∅
      | None => ∅
      end in
  foldl (set_rest (Vends spec) h auth tok) rests (set_of i).

(** ** The body *)

Record heldBody := MkHeld { hb_buf : gostr; hb_whole : bool; hb_taken : Z }.

Definition no_body : heldBody := MkHeld [] false 0.

(** The content codings of a request, in order. *)
Definition codings_of (h : header) : list gostr :=
  filter (fun c => c <> [] /\ c <> lit "identity")
    ((fun c => to_lower (trim_space c)) <$> (h_values h (lit "Content-Encoding") ≫= split_byte ","%char)).

(** What a reader can answer besides bytes. *)
Inductive read_error := EOF | UnexpectedEOF | TimedOut | OtherError.

#[export] Instance read_error_eq_dec : EqDecision read_error.
Proof. solve_decision. Defined.

Section Body.

(** A decoder in the middle of its stream: [dec_read d n] is a [Read] into [n]
    bytes, and [dec_left] the bytes of the body it has not read.  [gzip_open]
    is [gzip.NewReader] of the body: its error with the bytes left, or the
    name, the comment and the extra field of the header, and the decoder.
    [zlib_open] is [zlib.NewReader], and [flate_open] [flate.NewReader]. *)
Variable dec : Type.
Variable dec_read : dec -> Z -> gostr * option read_error * dec.
Variable dec_left : dec -> nat.
Variable gzip_open : gostr -> (read_error * nat) + (gostr * gostr * gostr * dec).
Variable zlib_open : gostr -> option dec.
Variable flate_open : gostr -> dec.

Definition scan_result : Type := (option hit * bool * option scan_error)%type.

Definition compressed (h : hit) (coding : gostr) : hit := Hit (hit_route h) (coding ++ lit "+" ++ hit_encoding h).

(** [bad]: a compressed body cut at the cap ends early there and nowhere
    else. *)
Definition bad_coding (partial : bool) (e : read_error) (unread : nat) : scan_result :=
  if partial && bool_decide (e = UnexpectedEOF) && (unread =? 0)%nat then (None, partial, None)
  else (None, partial, Some errContentEncoding).

(** A [Read] of [io.LimitReader] with [lim] bytes to go. *)
Definition limit_read (d : dec) (lim n : Z) : gostr * option read_error * dec :=
  if lim <=? 0 then ([], Some EOF, d) else dec_read d (Z.min n lim).

(** The loop over the decompressed bytes, [total] of them so far.  A decoder
    that reads a byte or more each time ends within [maxReplay + 2] turns. *)
Fixpoint inflate_loop (fuel : nat) (m : matcher) (coding : gostr) (whole : bool) (d : dec) (total : Z) (sc : scan)
    : option scan_result :=
  match fuel with
  | O => None
  | S k =>
    let partial := negb whole in
    let '(p, err, d') := limit_read d (maxReplay + 1 - total) scanChunk in
    let n := Z.of_nat (length p) in
    let over := maxReplay <? total + n in
    let n := if over then maxReplay - total else n in
    let total' := total + n in
    match write m sc (take (Z.to_nat n) p) with
    | (Some h, _) => Some (Some (compressed h coding), partial || over, None)
    | (None, sc') =>
      if over && whole then Some (None, partial, Some errInflated)
      else if over then Some (None, true, None)
      else
        match err with
        | Some EOF =>
          if partial || (0 <? dec_left d')%nat then Some (None, partial, Some errContentEncoding)
          else Some (None, partial, None)
        | Some e => Some (bad_coding partial e (dec_left d'))
        | None => inflate_loop k m coding whole d' total' sc'
        end
    end
  end.

(** The turns allowed to the loop; [None] below is a decoder that took more. *)
Variable fuel : nat.

Definition inflate (m : matcher) (coding : gostr) (whole : bool) (d : dec) : option scan_result :=
  inflate_loop fuel m coding whole d 0 new_scan.

Definition findDecompressed (m : matcher) (codings : list gostr) (held : heldBody) : option scan_result :=
  let partial := negb (hb_whole held) in
  match codings with
  | [c] =>
    let coding := trim_prefix c (lit "x-") in
    if bool_decide (coding = lit "gzip") then
      match gzip_open (hb_buf held) with
      | inl (e, unread) => Some (bad_coding partial e unread)
      | inr (name, comment, extra, d) =>
        match findString m [name; comment; extra] with
        | Some h => Some (Some (compressed h coding), partial, None)
        | None => inflate m coding (hb_whole held) d
        end
      end
    else if bool_decide (coding = lit "deflate") then
      inflate m coding (hb_whole held)
        match zlib_open (hb_buf held) with Some d => d | None => flate_open (hb_buf held) end
    else Some (None, partial, Some errContentEncoding)
  | _ => Some (None, partial, Some errContentEncoding)
  end.

Definition findInBody (m : matcher) (h : header) (held : heldBody) : option scan_result :=
  match codings_of h with
  | [] => Some ((write m new_scan (hb_buf held)).1, negb (hb_whole held), None)
  | codings =>
    match findDecompressed m codings held with
    | Some (None, partial, err) =>
      match (write m new_scan (hb_buf held)).1 with
      | Some raw => Some (Some raw, negb (hb_whole held), None)
      | None => Some (None, partial, err)
      end
    | r => r
    end
  end.

(** ** The request *)

(** The fields of an [http.Request] that are scanned. *)
Record request := MkRequest {
  rq_method : gostr;
  rq_rawQuery : gostr;
  rq_host : gostr;
  rq_header : header;
  rq_trailer : header;
}.

Definition findPlaceholder (m : matcher) (r : request) (p : routePath) (spec : Route) (tok : gostr)
    (held : option heldBody) : option (option placeholder * bool * option scan_error) :=
  match findString m [rq_method r] with
  | Some h => Some (Some (at_where (lit "method") h), false, None)
  | None =>
  match findString m [p_rest p; p_escapedRest p] with
  | Some h => Some (Some (at_where (lit "path") h), false, None)
  | None =>
  match findString m [rq_rawQuery r; unescapeLoose (rq_rawQuery r)] with
  | Some h => Some (Some (at_where (lit "query") h), false, None)
  | None =>
  match findString m [rq_host r] with
  | Some h => Some (Some (at_where (lit "header Host") h), false, None)
  | None =>
  match findInHeader m (rq_header r) (lit "header") (carrierRests spec (rq_header r) tok) with
  | Some ph => Some (Some ph, false, None)
  | None =>
  match held with
  | None => Some (None, false, None)
  | Some b =>
    match findInBody m (rq_header r) b with
    | None => None
    | Some (Some h, partial, _) => Some (Some (at_where (lit "body") h), partial, None)
    | Some (None, partial, Some err) => Some (None, partial, Some err)
    | Some (None, partial, None) =>
      if hb_whole b then Some (findInHeader m (rq_trailer r) (lit "trailer") ∅, partial, None)
      else Some (None, partial, None)
    end
  end end end end end end.

End Body.

(** ** Holding the body *)

Definition holdStep : Z := 32768.

(** A body as the answers it gives: bytes, and an error once they are read.  A
    read into [room] bytes gets as many of the first answer as fit. *)
Definition answers : Type := list (gostr * option read_error).

Definition body_read (b : answers) (room : Z) : gostr * option read_error * answers :=
  match b with
  | [] => ([], Some EOF, [])
  | (p, e) :: b' =>
    if Z.of_nat (length p) <=? room then (p, e, b')
    else (take (Z.to_nat room) p, None, (drop (Z.to_nat room) p, e) :: b')
  end.

(** What a reader of the whole body gets. *)
Fixpoint body_bytes (b : answers) : gostr :=
  match b with
  | [] => []
  | (p, None) :: b' => p ++ body_bytes b'
  | (p, Some _) :: _ => p
  end.

Inductive hold_result :=
  | Held (hb : heldBody) (rest : answers)
  | HoldBudget (hb : heldBody)
  | HoldRead (hb : heldBody) (e : read_error).

Definition held_of (r : hold_result) : heldBody :=
  match r with Held hb _ => hb | HoldBudget hb => hb | HoldRead hb _ => hb end.

(** How much a full buffer of [len] bytes grows. *)
Definition grow_step (contentLength len : Z) : Z :=
  let grow := Z.min (Z.min (Z.max (len / 2) holdStep) (2 ^ 20)) (maxHeld - len) in
  if (len =? 0) && (0 <=? contentLength) && (contentLength <? grow) then contentLength + 1 else grow.

(** The loop of [holdBody]: [cap] bytes are taken from the budget, and [grants]
    answers the takes that follow. *)
Fixpoint hold_loop (fuel : nat) (contentLength : Z) (grants : list bool) (buf : gostr) (cap : Z) (b : answers)
    : option hold_result :=
  match fuel with
  | O => None
  | S k =>
    let len := Z.of_nat (length buf) in
    if len <? maxHeld then
      let read cap grants :=
        let '(p, err, b') := body_read b (cap - len) in
        match err with
        | Some EOF => Some (Held (MkHeld (buf ++ p) true cap) b')
        | Some e => Some (HoldRead (MkHeld (buf ++ p) false cap) e)
        | None => hold_loop k contentLength grants (buf ++ p) cap b'
        end in
      if len =? cap then
        match grants with
        | true :: grants' => read (cap + grow_step contentLength len) grants'
        | _ => Some (HoldBudget (MkHeld buf false cap))
        end
      else read cap grants
    else Some (Held (MkHeld buf false cap) b)
  end.

Definition answers_size (b : answers) : nat := length b + length (b ≫= fst).

(** [holdBody] of a request that has a body.  A turn reads an answer or a byte
    of it, so the fuel is enough. *)
Definition holdBody (contentLength : Z) (grants : list bool) (b : answers) : option hold_result :=
  hold_loop (S (S (answers_size b))) contentLength grants [] 0 b.

(** The body put back for the upstream. *)
Definition put_back (hb : heldBody) (rest : answers) : gostr :=
  if hb_whole hb then hb_buf hb else hb_buf hb ++ body_bytes rest.

Definition complete (hb : heldBody) : option gostr :=
  if negb (hb_whole hb) || (maxReplay <? Z.of_nat (length (hb_buf hb))) then None else Some (hb_buf hb).

(** [release]: what it gives back, and what is left. *)
Definition release (b : budget) (sandbox : gostr) (hb : option heldBody) : budget * option heldBody :=
  match hb with
  | None => (b, None)
  | Some h => (give_budget b sandbox (hb_taken h), Some (MkHeld [] (hb_whole h) 0))
  end.

(** ** What nothing found means *)

Section Nothing.
Variable tokens : list liveToken.
Let m := newMatcher tokens.

Variable dec : Type.
Variable dec_read : dec -> Z -> gostr * option read_error * dec.
Variable dec_left : dec -> nat.
Variable gzip_open : gostr -> (read_error * nat) + (gostr * gostr * gostr * dec).
Variable zlib_open : gostr -> option dec.
Variable flate_open : gostr -> dec.

(** No spelling of a live token in a text as it is scanned. *)
Definition clean_text (s : gostr) : Prop := clean tokens (squeezed s).

(** The pieces a decoder gives, [total] bytes into its stream, with how it
    ended: its error and the bytes of the body after it, or the cap. *)
Inductive inflates : dec -> Z -> list gostr -> option (read_error * nat) -> Prop :=
  | inflates_end d total p e d' :
      limit_read dec dec_read d (maxReplay + 1 - total) scanChunk = (p, Some e, d') ->
      total + Z.of_nat (length p) <= maxReplay ->
      inflates d total [p] (Some (e, dec_left d'))
  | inflates_cap d total p e d' :
      limit_read dec dec_read d (maxReplay + 1 - total) scanChunk = (p, e, d') ->
      maxReplay < total + Z.of_nat (length p) ->
      inflates d total [take (Z.to_nat (maxReplay - total)) p] None
  | inflates_more d total p d' ps e :
      limit_read dec dec_read d (maxReplay + 1 - total) scanChunk = (p, None, d') ->
      total + Z.of_nat (length p) <= maxReplay ->
      inflates d' (total + Z.of_nat (length p)) ps e -> inflates d total (p :: ps) e.

(** The end of a stream that is let through: its own end at the end of a whole
    body, or the cap or the cut in a body that goes on. *)
Definition good_end (whole : bool) (e : option (read_error * nat)) : Prop :=
  if whole then e = Some (EOF, 0%nat) else e = None \/ e = Some (UnexpectedEOF, 0%nat).

Lemma inflate_loop_nothing fuel coding whole d total sc q partial :
  scan_inv tokens q sc ->
  inflate_loop dec dec_read dec_left fuel m coding whole d total sc = Some (None, partial, None) ->
  exists ps e, inflates d total ps e /\ good_end whole e /\ clean_text (q ++ concat ps) /\
    (partial = false -> whole = true).
Proof.
  revert d total sc q. induction fuel as [|k IH]; intros d total sc q Hsc; cbn [inflate_loop]; [done|].
  destruct (limit_read _ _ _ _ _) as [[p err] d'] eqn:Er.
  destruct (Z.ltb_spec maxReplay (total + Z.of_nat (length p))) as [Hover|Hunder].
  - pose proof (write_loop_spec tokens _ q (take (Z.to_nat (maxReplay - total)) p) sc Hsc (le_n _)) as Hw.
    unfold write, m. destruct (write_loop _ _ _ _) as [[h|] sc']; [done|].
    destruct whole; cbn [andb]; [done|]. intros [= <-].
    eexists _, _. split; [by eapply inflates_cap|]. split; [by left|]. split; [|done].
    cbn [concat]. rewrite app_nil_r. apply Hw.
  - rewrite Nat2Z.id, (take_ge p) by lia.
    pose proof (write_loop_spec tokens _ q p sc Hsc (le_n _)) as Hw.
    unfold write. fold m in Hw. destruct (write_loop _ _ _ _) as [[h|] sc']; [done|]. cbn [andb].
    destruct err as [e|].
    + intros H. assert (good_end whole (Some (e, dec_left d')) /\ (partial = false -> whole = true)) as [Hg Hp].
      { destruct e; [|unfold bad_coding in H; destruct whole; cbn in H; [done|]..].
        - destruct whole; cbn in H; [|done]. destruct (dec_left d'); [|done]. by injection H as <-.
        - destruct (Nat.eqb_spec (dec_left d') 0) as [E|]; [|done]. injection H as <-. rewrite E. split; [by right|done].
        - done.
        - done. }
      exists [p], (Some (e, dec_left d')). split; [by eapply inflates_end|]. split_and!; [done| |done].
      cbn [concat]. rewrite app_nil_r. apply Hw.
    + intros H. apply (IH _ _ _ _ Hw) in H as (ps & e & Hi & Hg & Hc & Hp).
      exists (p :: ps), e. split; [by eapply inflates_more|]. split_and!; [done| |done].
      cbn [concat]. by rewrite app_assoc.
Qed.

Lemma findString_nothing strs : findString m strs = None -> Forall clean_text strs.
Proof. intros H. pose proof (findString_spec tokens strs) as Hs. fold m in Hs. by rewrite H in Hs. Qed.

Lemma write_nothing s : (write m new_scan s).1 = None -> clean_text s.
Proof.
  intros H. pose proof (write_loop_spec tokens _ [] s new_scan (scan_inv_new tokens) (le_n _)) as Hw.
  fold m in Hw. unfold write in H. destruct (write_loop _ _ _ _) as [[x|] s']; [done|]. apply Hw.
Qed.

Lemma find_values_nothing h kind rests names :
  find_values m h kind rests names = None ->
  Forall (fun name => Forall clean_text (rest_values rests name (default [] (h !! name)))) names.
Proof.
  induction names as [|name names IH]; cbn [find_values]; [constructor|].
  destruct (findString _ _) eqn:E; [done|]. constructor; [by apply findString_nothing|by apply IH].
Qed.

(** What a header without a token holds. *)
Definition clean_header (rests : gmap gostr gostr) (h : header) : Prop :=
  forall name values, h !! name = Some values -> clean_text name /\ Forall clean_text (rest_values rests name values).

Lemma findInHeader_nothing h kind rests : findInHeader m h kind rests = None -> clean_header rests h.
Proof.
  unfold findInHeader. destruct (findString _ _) eqn:E; [done|]. intros Hv name values Hn.
  apply findString_nothing in E. apply find_values_nothing in Hv. rewrite Forall_forall in E, Hv.
  assert (name ∈ h_names h) as Hin by (apply elem_of_h_names; eauto). split; [by apply E|].
  specialize (Hv _ Hin). by rewrite Hn in Hv.
Qed.

(** What a body without a token holds: its bytes as sent are clean, and a body
    in one content coding decompresses to clean text up to a good end. *)
Definition clean_body (h : header) (b : heldBody) : Prop :=
  clean_text (hb_buf b) /\
  (codings_of h <> [] ->
     (exists c d ps e, codings_of h = [c] /\ inflates d 0 ps e /\ good_end (hb_whole b) e /\ clean_text (concat ps) /\
       ((trim_prefix c (lit "x-") = lit "gzip" /\ exists name comment extra,
           gzip_open (hb_buf b) = inr (name, comment, extra, d) /\
           clean_text name /\ clean_text comment /\ clean_text extra) \/
        (trim_prefix c (lit "x-") = lit "deflate" /\
           d = match zlib_open (hb_buf b) with Some d => d | None => flate_open (hb_buf b) end))) \/
     hb_whole b = false /\ exists c, codings_of h = [c] /\ gzip_open (hb_buf b) = inl (UnexpectedEOF, 0%nat)).

Lemma findDecompressed_nothing fuel codings held partial :
  findDecompressed dec dec_read dec_left gzip_open zlib_open flate_open fuel m codings held = Some (None, partial, None) ->
  (exists c d ps e, codings = [c] /\ inflates d 0 ps e /\ good_end (hb_whole held) e /\ clean_text (concat ps) /\
       ((trim_prefix c (lit "x-") = lit "gzip" /\ exists name comment extra,
           gzip_open (hb_buf held) = inr (name, comment, extra, d) /\
           clean_text name /\ clean_text comment /\ clean_text extra) \/
        (trim_prefix c (lit "x-") = lit "deflate" /\
           d = match zlib_open (hb_buf held) with Some d => d | None => flate_open (hb_buf held) end))) \/
  hb_whole held = false /\ exists c, codings = [c] /\ gzip_open (hb_buf held) = inl (UnexpectedEOF, 0%nat).
Proof.
  unfold findDecompressed. destruct codings as [|c [|? ?]]; [done| |done].
  case_if; [|case_if; [|done]]; bool_inv.
  - destruct (gzip_open _) as [[e unread]|[[[name comment] extra] d]] eqn:Eg.
    + unfold bad_coding. case_if; [|done]. apply andb_true_iff in Hc0 as [Hc1 Hl].
      apply andb_true_iff in Hc1 as [Hp He]. bool_inv. subst. apply Nat.eqb_eq in Hl as ->.
      right. split; [done|]. by exists c.
    + destruct (findString _ _) eqn:Ef; [done|]. intros H. unfold inflate in H.
      apply (inflate_loop_nothing _ _ _ _ _ _ [] _ (scan_inv_new tokens)) in H as (ps & e & Hi & Hg & Hcl & _).
      apply findString_nothing in Ef. rewrite !Forall_cons in Ef. destruct Ef as (H1 & H2 & H3 & _).
      left. exists c, d, ps, e. split_and!; try done. left. split; [done|]. by exists name, comment, extra.
  - intros H. unfold inflate in H.
    apply (inflate_loop_nothing _ _ _ _ _ _ [] _ (scan_inv_new tokens)) in H as (ps & e & Hi & Hg & Hcl & _).
    left. eexists c, _, ps, e. split_and!; try done. by right.
Qed.

Lemma findInBody_nothing fuel h held partial :
  findInBody dec dec_read dec_left gzip_open zlib_open flate_open fuel m h held = Some (None, partial, None) ->
  clean_body h held.
Proof.
  unfold findInBody, clean_body. destruct (codings_of h) as [|c codings].
  - intros [= H _]. split; [by apply write_nothing|done].
  - destruct (findDecompressed _ _ _ _ _ _ _ _ _ _) as [[[[x|] p] e]|] eqn:E; [done| |done].
    destruct (write _ _ _).1 eqn:Ew; [done|]. intros [= -> ->]. split; [by apply write_nothing|]. intros _.
    by apply findDecompressed_nothing in E.
Qed.
End Nothing.

(** ** The scan ends *)

Section Progress.
Variable dec : Type.
Variable dec_read : dec -> Z -> gostr * option read_error * dec.
Variable dec_left : dec -> nat.

(** A decoder gives a byte or an error on each read, as the ones of the
    standard library do. *)
Definition reads_progress : Prop :=
  forall d n p d', 0 < n -> dec_read d n = (p, None, d') -> p <> [].

Lemma inflate_loop_total (Hp : reads_progress) fuel m coding whole d total sc :
  total <= maxReplay -> maxReplay + 1 - total < Z.of_nat fuel ->
  exists r, inflate_loop dec dec_read dec_left fuel m coding whole d total sc = Some r.
Proof.
  revert d total sc. induction fuel as [|k IH]; intros d total sc Ht Hf; [lia|]. cbn [inflate_loop].
  unfold limit_read. destruct (Z.leb_spec (maxReplay + 1 - total) 0); [lia|].
  destruct (dec_read _ _) as [[p err] d'] eqn:Er.
  destruct (Z.ltb_spec maxReplay (total + Z.of_nat (length p))) as [Hover|Hunder].
  - destruct (write _ _ _) as [[h|] sc']; [eauto|]. destruct whole; cbn [andb]; eauto.
  - destruct (write _ _ _) as [[h|] sc']; [eauto|]. cbn [andb]. destruct err as [[]|]; eauto.
    { case_if; eauto. }
    assert (p <> []) as Hne by (apply (Hp d (Z.min scanChunk (maxReplay + 1 - total)) p d'); [unfold scanChunk; lia|done]).
    destruct p as [|c p]; [done|]. cbn [length] in *. apply IH; lia.
Qed.

Lemma findInBody_total (Hp : reads_progress) gzip_open zlib_open flate_open fuel m h held :
  maxReplay + 1 < Z.of_nat fuel ->
  exists r, findInBody dec dec_read dec_left gzip_open zlib_open flate_open fuel m h held = Some r.
Proof.
  intros Hf.
  assert (forall codings, exists r,
    findDecompressed dec dec_read dec_left gzip_open zlib_open flate_open fuel m codings held = Some r) as H.
  { intros codings. unfold findDecompressed, inflate. destruct codings as [|c [|? ?]]; eauto.
    assert (0 <= maxReplay) by (unfold maxReplay; lia).
    case_if; [destruct (gzip_open _) as [[]|[[[] ?] ?]]; [eauto|]; case_match; [eauto|]|case_if; eauto];
      apply inflate_loop_total; (done || lia). }
  unfold findInBody. destruct (codings_of h) as [|c codings]; [eauto|].
  destruct (H (c :: codings)) as [[[[x|] p] e] ->]; eauto. destruct (write _ _ _).1; eauto.
Qed.
End Progress.

(** ** What a carrier hides *)

(** The token taken out of the value of a header, once. *)
Definition taken_out (tok value rest : gostr) : Prop :=
  rest = value \/ exists pre post, value = pre ++ tok ++ post /\ rest = pre ++ post.

Definition carrier (spec : Route) (h : header) (tok name rest : gostr) : Prop :=
  name = Authorization /\ is_Some (in_basicAuth (inject_of spec)) /\
    BasicAuth_of (h_get h Authorization) = Some (rest, tok) \/
  (name = Authorization \/ exists s, s ∈ set_of (inject_of spec) /\ CanonicalHeaderKey (hd_name s) = name) /\
    taken_out tok (h_get h name) rest.

Lemma replace_first_taken tok value : taken_out tok value (replace_first tok [] value).
Proof.
  unfold replace_first. destruct (cut_at tok value) as [[a b]|] eqn:E; [|by left].
  right. exists a, b. split; [by apply cut_at_Some in E|done].
Qed.

Lemma set_rests_carrier spec h tok l rests :
  (forall s, s ∈ l -> s ∈ set_of (inject_of spec)) ->
  (forall name rest, rests !! name = Some rest -> carrier spec h tok name rest) ->
  forall name rest, foldl (set_rest (Vends spec) h (h_get h Authorization) tok) rests l !! name = Some rest ->
    carrier spec h tok name rest.
Proof.
  revert rests. induction l as [|s l IH]; intros rests Hin Hr; [exact Hr|]. cbn [foldl]. apply IH.
  { intros s' Hs'. apply Hin. by right. }
  intros name rest. unfold set_rest. destruct (cut_at _ _) as [[prefix suffix]|] eqn:Ec; [|apply Hr].
  case_if; [case_if|case_if]; [|apply Hr| |apply Hr].
  - apply andb_true_iff in Hc0 as [_ Ha]. bool_inv. intros [[<- <-]|[_ H]]%lookup_insert_Some; [|by apply Hr].
    right. split; [by left|]. right. exists [], []. rewrite app_nil_r. done.
  - bool_inv. intros [[<- <-]|[_ H]]%lookup_insert_Some; [|by apply Hr].
    right. split; [right; exists s; split; [apply Hin; by left|done]|]. right. by exists prefix, suffix.
Qed.

Lemma carrierRests_carrier spec h tok name rest :
  carrierRests spec h tok !! name = Some rest -> carrier spec h tok name rest.
Proof.
  unfold carrierRests. apply set_rests_carrier; [done|]. clear. intros name rest. case_if.
  - intros [<- <-]%lookup_singleton_Some. right. split; [by left|]. apply replace_first_taken.
  - destruct (in_basicAuth _) eqn:Eb; cbn [is_nil]; [|by rewrite lookup_empty].
    destruct (BasicAuth_of _) as [[user pass]|] eqn:E; [|by rewrite lookup_empty].
    case_if; [|by rewrite lookup_empty]. bool_inv. intros [<- <-]%lookup_singleton_Some. left. subst. eauto.
Qed.

(** ** The held body *)

Definition hold_inv (buf : gostr) (cap : Z) : Prop :=
  Z.of_nat (length buf) <= cap /\ cap <= maxHeld /\
  cap <= Z.of_nat (length buf) + Z.min (Z.max (Z.of_nat (length buf) / 2) holdStep) (2 ^ 20).

Lemma body_read_length b room p e b' :
  0 <= room -> body_read b room = (p, e, b') -> Z.of_nat (length p) <= room.
Proof.
  intros Hr. destruct b as [|[q e0] b]; cbn [body_read]; [intros [= <- <- <-]; cbn; lia|].
  destruct (Z.leb_spec (Z.of_nat (length q)) room); intros [= <- <- <-]; [done|]. rewrite length_take. lia.
Qed.

Lemma body_read_bytes b room p e b' :
  body_read b room = (p, e, b') -> body_bytes b = p ++ match e with None => body_bytes b' | Some _ => [] end.
Proof.
  destruct b as [|[q e0] b]; cbn [body_read]; [intros [= <- <- <-]; done|].
  case_if; intros [= <- <- <-]; cbn [body_bytes].
  - destruct e0; [by rewrite app_nil_r|done].
  - destruct e0; by rewrite ?app_assoc, take_drop.
Qed.

Lemma body_read_size b room p b' :
  0 < room -> body_read b room = (p, None, b') -> (answers_size b' < answers_size b)%nat.
Proof.
  intros Hr. destruct b as [|[q e0] b]; cbn [body_read]; [done|]. unfold answers_size.
  destruct (Z.leb_spec (Z.of_nat (length q)) room); [intros [= <- ? <-]|intros [= <- <-]];
    rewrite !bind_cons, !length_app; cbn [length fst]; rewrite ?length_drop; lia.
Qed.

Lemma grow_step_range cl buf cap :
  hold_inv buf cap -> Z.of_nat (length buf) = cap -> Z.of_nat (length buf) < maxHeld ->
  0 < grow_step cl (Z.of_nat (length buf)) /\ hold_inv buf (cap + grow_step cl (Z.of_nat (length buf))).
Proof.
  intros _ <- Hlt. unfold hold_inv, grow_step, holdStep, maxHeld, maxReplay in *. case_if.
  - apply andb_true_iff in Hc as [Hc H3%Z.ltb_lt]. apply andb_true_iff in Hc as [H1%Z.eqb_eq H2%Z.leb_le].
    rewrite H1 in *. cbn in *. lia.
  - lia.
Qed.

Lemma hold_inv_read buf cap p :
  hold_inv buf cap -> Z.of_nat (length p) <= cap - Z.of_nat (length buf) -> hold_inv (buf ++ p) cap.
Proof.
  unfold hold_inv. rewrite length_app. intros (H1 & H2 & H3) Hp.
  assert (Z.of_nat (length buf) / 2 <= Z.of_nat (length buf + length p) / 2) by (apply Z.div_le_mono; lia). lia.
Qed.

(** What [hold_loop] answers: [whole_body] is the body from its first byte. *)
Definition hold_ok (whole_body : gostr) (r : hold_result) : Prop :=
  hold_inv (hb_buf (held_of r)) (hb_taken (held_of r)) /\
  match r with
  | Held hb rest =>
    put_back hb rest = whole_body /\ (hb_whole hb = false -> Z.of_nat (length (hb_buf hb)) = maxHeld)
  | _ => exists rest, whole_body = hb_buf (held_of r) ++ rest
  end.

Lemma hold_loop_spec fuel cl grants buf cap b :
  hold_inv buf cap -> (answers_size b + 1 < fuel)%nat ->
  exists r, hold_loop fuel cl grants buf cap b = Some r /\ hold_ok (buf ++ body_bytes b) r.
Proof.
  revert grants buf cap b. induction fuel as [|k IH]; intros grants buf cap b Hinv Hf; [lia|].
  cbn [hold_loop]. destruct (Z.ltb_spec (Z.of_nat (length buf)) maxHeld) as [Hlt|Hge].
  2:{ eexists. split; [reflexivity|]. split; [done|]. split; [done|]. intros _. cbn. destruct Hinv. lia. }
  assert (forall cap grants, hold_inv buf cap -> Z.of_nat (length buf) < cap ->
    exists r, (let '(p, err, b') := body_read b (cap - Z.of_nat (length buf)) in
        match err with
        | Some EOF => Some (Held (MkHeld (buf ++ p) true cap) b')
        | Some e => Some (HoldRead (MkHeld (buf ++ p) false cap) e)
        | None => hold_loop k cl grants (buf ++ p) cap b'
        end) = Some r /\ hold_ok (buf ++ body_bytes b) r) as Hread.
  { clear grants cap Hinv. intros cap grants Hinv Hroom. destruct (body_read _ _) as [[p err] b'] eqn:Er.
    assert (0 <= cap - Z.of_nat (length buf)) as Hr0 by lia.
    pose proof (body_read_length _ _ _ _ _ Hr0 Er) as Hl. pose proof (body_read_bytes _ _ _ _ _ Er) as ->.
    pose proof (hold_inv_read _ _ _ Hinv Hl) as Hinv'. destruct err as [e|].
    - rewrite app_nil_r. destruct e; (eexists; split; [reflexivity|]; split; [exact Hinv'|]).
      + done.
      + exists []. by rewrite app_nil_r.
      + exists []. by rewrite app_nil_r.
      + exists []. by rewrite app_nil_r.
    - apply body_read_size in Er; [|lia]. rewrite app_assoc. apply IH; [done|lia]. }
  destruct (Z.eqb_spec (Z.of_nat (length buf)) cap) as [E|E].
  - destruct (grow_step_range cl buf cap Hinv E Hlt) as [Hg Hinv'].
    destruct grants as [|[] grants]; [| apply Hread; [done|lia] |];
      (eexists; split; [reflexivity|]; split; [done|]; by eexists).
  - apply Hread; [done|]. destruct Hinv. lia.
Qed.

(** ** Properties *)

(** When [findPlaceholder] finds nothing and no error, no live token is in
    the request in any spelling, outside its carriers: not in the method, the
    path in both forms, the query raw and decoded, the Host, the name or a
    value of a header, the body as sent and as it decompresses, up to the end
    of a whole body, or the trailers of a whole body. *)
Lemma findPlaceholder_nothing (tokens : list liveToken) (dec : Type)
    (dec_read : dec -> Z -> gostr * option read_error * dec) (dec_left : dec -> nat)
    (gzip_open : gostr -> (read_error * nat) + (gostr * gostr * gostr * dec))
    (zlib_open : gostr -> option dec) (flate_open : gostr -> dec) (fuel : nat)
    (r : request) (p : routePath) (spec : Route) (tok : gostr) (held : option heldBody) (partial : bool)
    (H : findPlaceholder dec dec_read dec_left gzip_open zlib_open flate_open fuel (newMatcher tokens) r p spec tok held
         = Some (None, partial, None)) :
  Forall (clean_text tokens)
    [rq_method r; p_rest p; p_escapedRest p; rq_rawQuery r; unescapeLoose (rq_rawQuery r); rq_host r] /\
  clean_header tokens (carrierRests spec (rq_header r) tok) (rq_header r) /\
  (forall b, held = Some b ->
     clean_body tokens dec dec_read dec_left gzip_open zlib_open flate_open (rq_header r) b /\
     (hb_whole b = true -> clean_header tokens ∅ (rq_trailer r))).
Proof.
  unfold findPlaceholder in H.
  destruct (findString _ [rq_method r]) eqn:E1; [done|]. destruct (findString _ [p_rest p; _]) eqn:E2; [done|].
  destruct (findString _ [rq_rawQuery r; _]) eqn:E3; [done|]. destruct (findString _ [rq_host r]) eqn:E4; [done|].
  apply findString_nothing in E1, E2, E3, E4. rewrite !Forall_cons in *.
  destruct (findInHeader _ (rq_header r) _ _) eqn:E5; [done|]. apply findInHeader_nothing in E5.
  split; [tauto|]. split; [done|]. intros b ->.
  destruct (findInBody _ _ _ _ _ _ _ _ _ _) as [[[[x|] pa] [e|]]|] eqn:E6; try done.
  apply findInBody_nothing in E6. split; [done|]. intros Hw. rewrite Hw in H. injection H as H _.
  by apply findInHeader_nothing in H.
Qed.

(** What the scan leaves out of a header is one occurrence of the verified
    token in a header the route reads a token from, or the password of a basic
    value that is the token; another token there is scanned. *)
Lemma carrierRests_sound (spec : Route) (h : header) (tok name rest : gostr)
    (H : carrierRests spec h tok !! name = Some rest) :
  carrier spec h tok name rest.
Proof. by apply carrierRests_carrier. Qed.

(** With decoders that answer each read with a byte or an error, the walk
    over a request ends: a compressed body is read at most to one byte past the
    cap. *)
Lemma findPlaceholder_total (dec : Type)
    (dec_read : dec -> Z -> gostr * option read_error * dec) (dec_left : dec -> nat)
    (gzip_open : gostr -> (read_error * nat) + (gostr * gostr * gostr * dec))
    (zlib_open : gostr -> option dec) (flate_open : gostr -> dec) (fuel : nat)
    (Hp : reads_progress dec dec_read) (Hf : maxReplay + 1 < Z.of_nat fuel)
    (m : matcher) (r : request) (p : routePath) (spec : Route) (tok : gostr) (held : option heldBody) :
  exists x, findPlaceholder dec dec_read dec_left gzip_open zlib_open flate_open fuel m r p spec tok held = Some x.
Proof.
  unfold findPlaceholder. do 4 (destruct (findString m _); [eauto|]).
  destruct (findInHeader m _ _ _); [eauto|]. destruct held as [b|]; [|eauto].
  destruct (findInBody_total dec dec_read dec_left Hp gzip_open zlib_open flate_open fuel m (rq_header r) b Hf)
    as [[[[x|] pa] [e|]] ->]; eauto. case_if; eauto.
Qed.

(** [holdBody] answers for every body and every sequence of grants.  The
    bytes it has taken from the budget cover what it holds, are never more than
    the cap and one byte, and run ahead of what has arrived by one growth step;
    a body that is held whole or to the cap goes upstream as it was sent; and
    only a body of at most the cap is kept to be sent again. *)
Lemma holdBody_accounts (contentLength : Z) (grants : list bool) (b : answers) :
  exists r, holdBody contentLength grants b = Some r /\
    let hb := held_of r in
    Z.of_nat (length (hb_buf hb)) <= hb_taken hb <= maxHeld /\
    hb_taken hb <= Z.of_nat (length (hb_buf hb)) + Z.min (Z.max (Z.of_nat (length (hb_buf hb)) / 2) holdStep) (2 ^ 20) /\
    match r with
    | Held hb rest =>
      put_back hb rest = body_bytes b /\ (hb_whole hb = false -> Z.of_nat (length (hb_buf hb)) = maxHeld) /\
      (forall body, complete hb = Some body -> body = body_bytes b /\ Z.of_nat (length body) <= maxReplay)
    | _ => exists rest, body_bytes b = hb_buf hb ++ rest
    end.
Proof.
  destruct (hold_loop_spec (S (S (answers_size b))) contentLength grants [] 0 b) as (r & Hr & Hok).
  { unfold hold_inv, holdStep, maxHeld, maxReplay. cbn. lia. }
  { lia. }
  exists r. split; [done|]. cbn [app] in Hok. destruct Hok as [(H1 & H2 & H3) Hr']. cbn zeta. split_and!; try done.
  destruct r as [hb rest|hb|hb e]; try done. destruct Hr' as [Hb Hw]. split_and!; try done.
  intros body. unfold complete. destruct (negb (hb_whole hb) || _) eqn:E; [done|]. intros [= <-].
  apply orb_false_iff in E as [E1 E2]. apply negb_false_iff in E1. apply Z.ltb_ge in E2.
  unfold put_back in Hb. rewrite E1 in Hb. done.
Qed.

(** A decoder that gives the bytes it holds, and then the end. *)
Definition plain_read (d : gostr) (n : Z) : gostr * option read_error * gostr :=
  let rest := drop (Z.to_nat n) d in
  (take (Z.to_nat n) d, if bool_decide (rest = []) then Some EOF else None, rest).

Lemma plain_read_progress : reads_progress gostr plain_read.
Proof.
  intros d n p d' Hn. unfold plain_read. destruct (bool_decide _) eqn:E; [done|]. intros [= <- _].
  bool_inv. intros Hnil. apply E. assert (length (take (Z.to_nat n) d) = 0%nat) as Hl by (by rewrite Hnil).
  rewrite length_take in Hl. apply length_zero_iff_nil. rewrite length_drop. lia.
Qed.

Definition plain_gzip (buf : gostr) : (read_error * nat) + (gostr * gostr * gostr * gostr) := inr ([], [], [], buf).

Definition example_request : request :=
  MkRequest (lit "POST") (lit "q=a%20b") (lit "box.local")
    ({[lit "X-Api-Key" := [lt_token example_token]; lit "Content-Encoding" := [lit "gzip"]]} : header) ∅.

Definition example_spec : Route :=
  MkRoute (lit "anthropic") [] [] (lit "https://api.anthropic.com") None
    (Some (MkInject (Some (MkHeaderInject (Some [MkHeader (lit "x-api-key") PlaceholderValue]) None None)) None None))
    None None None false.

Definition example_walk (spec : Route) :=
  findPlaceholder gostr plain_read (fun _ => 0%nat) plain_gzip (fun _ => None) (fun b => b) 3 (newMatcher [example_token])
    example_request (MkRoutePath (lit "b") (lit "anthropic") (lit "/v1/messages") (lit "/v1/messages"))
    spec (lt_token example_token) (Some (MkHeld (lit "{[1, 2]}") true 8)).

(** The token in its carrier passes; under a route that reads no token there,
    it is found. *)
Example example_found :
  example_walk (MkRoute (lit "anthropic") [] [] [] None None None None None false)
  = Some (Some (MkPlaceholder (lt_route example_token) (lit "header X-Api-Key") (lit "raw")), false, None).
Proof. vm_compute. reflexivity. Qed.

Example findPlaceholder_nothing_witness :
  example_walk example_spec = Some (None, false, None) /\ clean_text [example_token] (lit "box.local").
Proof.
  assert (example_walk example_spec = Some (None, false, None)) as H by (vm_compute; reflexivity).
  split; [exact H|].
  pose proof (findPlaceholder_nothing [example_token] gostr plain_read (fun _ => 0%nat) plain_gzip (fun _ => None)
    (fun b => b) 3 example_request _ _ _ _ false H) as (Hf & _ & _).
  rewrite Forall_forall in Hf. apply Hf. do 5 right. left.
Defined.

Example carrierRests_sound_witness :
  carrier example_spec (rq_header example_request) (lt_token example_token) (lit "X-Api-Key") [].
Proof. apply carrierRests_sound. vm_compute. reflexivity. Defined.

Example findPlaceholder_total_witness :
  exists x, findPlaceholder gostr plain_read (fun _ => 0%nat) plain_gzip (fun _ => None) (fun b => b)
    (Z.to_nat (maxReplay + 2)) (newMatcher [example_token]) example_request
    (MkRoutePath (lit "b") (lit "anthropic") (lit "/v1/messages") (lit "/v1/messages")) example_spec
    (lt_token example_token) (Some (MkHeld (lit "text") true 4)) = Some x.
Proof.
  apply findPlaceholder_total; [exact plain_read_progress|].
  rewrite Z2Nat.id; unfold maxReplay; lia.
Defined.
