(* ===== verification/Pipeline.v ===== *)
(** * A request through the broker (internal/broker/proxy.go, vend.go, mint.go)

    [ServeHTTP] as a program over the state of the handler, the audit line and
    the trace of what it asked of the outside: the secret store, the vendor,
    the minter, the renewer and the upstream.  Each of these is a function of
    the trace so far, so it may answer the same question in different ways. *)

From stdpp Require Import prelude list strings gmap.
From Stdlib Require Import ZArith Lia ZifyNat Ascii.
From S2P Require Import Prelude GoUnicode GoStrings GoNum GoJson Base64 GoHttp GoUrl RouteTypes Redact Allow Token Inject RoutePath Spelling Matcher Scan Registry Placeholder.

Local Open Scope Z_scope.

(** ** The audit line *)

(** The text of a rule's refusal, before it is formatted. *)
Inductive rule_reason :=
  | AllowReason (r : reason)
  | OverrideHeader (name : gostr)
  | OverrideParam (name : gostr)
  | NoService (services : gostr)
  | OtherService (name services : gostr)
  | BatchRequest.

Record auditLine := MkAudit {
  a_workload : gostr; a_sandbox : gostr; a_route : gostr; a_method : gostr; a_path : gostr;
  a_arrived : gostr;
  a_check : gostr;
  a_policy : gostr; a_rule : gostr; a_reason : option rule_reason;
  a_dropped : gmap gostr nat;
  a_renew : gostr;
  a_where : gostr; a_encoding : gostr; a_placeholder : gostr;
  a_vended : gostr;
  a_cert : gostr; a_certNotAfter : gostr;
}.

Definition new_audit (method : gostr) : auditLine :=
  MkAudit [] [] [] method [] [] [] [] [] None ∅ [] [] [] [] [] [] [].

Definition set_check (v : gostr) (a : auditLine) : auditLine :=
  MkAudit (a_workload a) (a_sandbox a) (a_route a) (a_method a) (a_path a) (a_arrived a) v (a_policy a) (a_rule a)
    (a_reason a) (a_dropped a) (a_renew a) (a_where a) (a_encoding a) (a_placeholder a) (a_vended a) (a_cert a) (a_certNotAfter a).
Definition set_arrived (v : gostr) (a : auditLine) : auditLine :=
  MkAudit (a_workload a) (a_sandbox a) (a_route a) (a_method a) (a_path a) v (a_check a) (a_policy a) (a_rule a)
    (a_reason a) (a_dropped a) (a_renew a) (a_where a) (a_encoding a) (a_placeholder a) (a_vended a) (a_cert a) (a_certNotAfter a).
Definition set_names (p : routePath) (a : auditLine) : auditLine :=
  MkAudit (a_workload a) (p_sandbox p) (p_route p) (a_method a) (p_rest p) (a_arrived a) (a_check a) (a_policy a) (a_rule a)
    (a_reason a) (a_dropped a) (a_renew a) (a_where a) (a_encoding a) (a_placeholder a) (a_vended a) (a_cert a) (a_certNotAfter a).
Definition set_workload (v : gostr) (a : auditLine) : auditLine :=
  MkAudit v (a_sandbox a) (a_route a) (a_method a) (a_path a) (a_arrived a) (a_check a) (a_policy a) (a_rule a)
    (a_reason a) (a_dropped a) (a_renew a) (a_where a) (a_encoding a) (a_placeholder a) (a_vended a) (a_cert a) (a_certNotAfter a).
Definition set_rule (policy rule_ : gostr) (r : rule_reason) (a : auditLine) : auditLine :=
  MkAudit (a_workload a) (a_sandbox a) (a_route a) (a_method a) (a_path a) (a_arrived a) (a_check a) policy rule_
    (Some r) (a_dropped a) (a_renew a) (a_where a) (a_encoding a) (a_placeholder a) (a_vended a) (a_cert a) (a_certNotAfter a).
Definition set_dropped (d : gmap gostr nat) (a : auditLine) : auditLine :=
  MkAudit (a_workload a) (a_sandbox a) (a_route a) (a_method a) (a_path a) (a_arrived a) (a_check a) (a_policy a) (a_rule a)
    (a_reason a) d (a_renew a) (a_where a) (a_encoding a) (a_placeholder a) (a_vended a) (a_cert a) (a_certNotAfter a).
Definition set_renew (v : gostr) (a : auditLine) : auditLine :=
  MkAudit (a_workload a) (a_sandbox a) (a_route a) (a_method a) (a_path a) (a_arrived a) (a_check a) (a_policy a) (a_rule a)
    (a_reason a) (a_dropped a) v (a_where a) (a_encoding a) (a_placeholder a) (a_vended a) (a_cert a) (a_certNotAfter a).
Definition set_found (ph : placeholder) (a : auditLine) : auditLine :=
  MkAudit (a_workload a) (a_sandbox a) (a_route a)
    (if bool_decide (ph_where ph = lit "method") then redacted else a_method a) redacted
    (a_arrived a) (a_check a) (a_policy a) (a_rule a)
    (a_reason a) (a_dropped a) (a_renew a) (ph_where ph) (ph_encoding ph) (a_placeholder a) (a_vended a) (a_cert a) (a_certNotAfter a).
Definition set_partial (a : auditLine) : auditLine :=
  MkAudit (a_workload a) (a_sandbox a) (a_route a) (a_method a) (a_path a) (a_arrived a) (a_check a) (a_policy a) (a_rule a)
    (a_reason a) (a_dropped a) (a_renew a) (a_where a) (a_encoding a) (lit "partial") (a_vended a) (a_cert a) (a_certNotAfter a).
Definition set_vended (v : gostr) (a : auditLine) : auditLine :=
  MkAudit (a_workload a) (a_sandbox a) (a_route a) (a_method a) (a_path a) (a_arrived a) (a_check a) (a_policy a) (a_rule a)
    (a_reason a) (a_dropped a) (a_renew a) (a_where a) (a_encoding a) (a_placeholder a) v (a_cert a) (a_certNotAfter a).
Definition set_cert (v notAfter : gostr) (a : auditLine) : auditLine :=
  MkAudit (a_workload a) (a_sandbox a) (a_route a) (a_method a) (a_path a) (a_arrived a) (a_check a) (a_policy a) (a_rule a)
    (a_reason a) (a_dropped a) (a_renew a) (a_where a) (a_encoding a) (a_placeholder a) (a_vended a) v notAfter.

Definition maxAuditMethod : nat := 16.
Definition maxAuditPath : nat := 256.

Inductive attr_value := AStr (s : gostr) | AInt (n : Z) | AReason (r : option rule_reason).

Definition attr : Type := gostr * attr_value.

Definition str_attr (key v : gostr) : list attr := if bool_decide (v = []) then [] else [(key, AStr v)].

(** [writeAudit]; [visit] is the order of the range over the dropped counts. *)
Definition writeAudit (visit : gmap gostr nat -> list (gostr * nat)) (a : auditLine) (status dur : Z) : list attr :=
  if bool_decide (a_workload a = []) then
    [(lit "method", AStr (clip (a_method a) maxAuditMethod)); (lit "status", AInt status); (lit "dur", AInt dur)]
    ++ str_attr (lit "check") (a_check a) ++ str_attr (lit "arrived") (a_arrived a)
  else
    [(lit "workload", AStr (a_workload a)); (lit "sandbox", AStr (a_sandbox a)); (lit "route", AStr (a_route a));
     (lit "method", AStr (clip (a_method a) maxAuditMethod)); (lit "path", AStr (clip (a_path a) maxAuditPath));
     (lit "status", AInt status); (lit "dur", AInt dur)]
    ++ str_attr (lit "check") (a_check a) ++ str_attr (lit "arrived") (a_arrived a)
    ++ (if bool_decide (a_rule a = []) then []
        else [(lit "policy", AStr (a_policy a)); (lit "rule", AStr (a_rule a)); (lit "reason", AReason (a_reason a))])
    ++ ((fun kv => (lit "dropped." ++ to_lower kv.1, AInt (Z.of_nat kv.2))) <$> visit (a_dropped a))
    ++ str_attr (lit "renew") (a_renew a)
    ++ (if bool_decide (a_where a = []) then []
        else [(lit "where", AStr (a_where a)); (lit "encoding", AStr (a_encoding a))])
    ++ str_attr (lit "placeholder") (a_placeholder a)
    ++ str_attr (lit "vended") (a_vended a)
    ++ (if bool_decide (a_cert a = []) then []
        else [(lit "cert", AStr (a_cert a)); (lit "cert.notAfter", AStr (a_certNotAfter a))]).

(** ** The outside *)

Record workload := MkWorkload { wl_sandbox : gostr; wl_profile : gostr; wl_session : gostr }.

(** [sandbox.workload]. *)
Definition workload_of (sb : sandbox) (session : gostr) : workload := MkWorkload (sb_id sb) (sb_profile sb) session.

Record upstream_request := MkUpstream {
  up_method : gostr;
  up_scheme : gostr;
  up_host : gostr;
  up_path : gostr;
  up_rawPath : gostr;
  up_rawQuery : gostr;
  up_header : header;
  up_body : option gostr;
}.

(** What the broker asks of the outside, in order. *)
Inductive event :=
  | EvResolve (secret : gostr) (w : workload)
  | EvVend (sandbox route doc : gostr)
  | EvMint (sandbox route doc : gostr)
  | EvForce (secret : gostr) (w : workload) (doc : gostr)
  | EvUpstream (r : upstream_request).

Definition trace := list event.

Inductive resolve_error := ErrUnsupported | ErrResolve.

(** An error of a vendor or a minter: one whose message the guest may read, or
    any other. *)
Inductive host_error := VendError (message : gostr) | HostError.

Record VendedCredentials := MkVended {
  vc_accessKeyID : gostr;
  vc_secretAccessKey : gostr;
  vc_token : gostr;
  vc_expiration : gostr;
}.

(** The checks of the TLS side, and why a round trip failed: the route is
    closed, a check of the TLS side, or anything else. *)
Inductive tls_check := tls_ca | tls_certificate | tls_expired | tls_handshake.

Definition tls_check_text (c : tls_check) : gostr :=
  match c with
  | tls_ca => lit "tls.ca"
  | tls_certificate => lit "tls.certificate"
  | tls_expired => lit "tls.expired"
  | tls_handshake => lit "tls.handshake"
  end.

Inductive send_error := errRouteClosed | tlsFailure (check : tls_check) | SendOther.

Record response := MkResponse {
  rs_status : Z;
  rs_header : header;
  rs_body : option source;
  rs_trailer : header;
}.

(** The request as the server hands it over. *)
Record http_request := MkHTTP {
  hr_method : gostr;
  hr_url : url;
  hr_host : gostr;
  hr_remoteAddr : gostr;
  hr_header : header;
  hr_trailer : header;
  hr_contentLength : Z;
  hr_body : option answers;
}.

(** The parts of [Config] that the process which hosts the handler implements.
    [cf_tls] is the transport of a route with inject.tls, with the client
    certificate it names on the audit line. *)
Record Config := MkConfig {
  cf_resolve : trace -> gostr -> workload -> res resolve_error gostr;
  cf_renewer : option (trace -> gostr -> workload -> gostr -> option gostr);
  cf_vendor : option (trace -> gostr -> gostr -> gostr -> res host_error VendedCredentials);
  cf_minter : trace -> gostr -> gostr -> gostr -> res host_error gostr;
  cf_mintDoc : option (gostr -> bool);
  cf_vendDoc : option (gostr -> bool);
  cf_arrival : gostr -> gostr -> gostr * bool;
  cf_vendOnly : option (http_request -> bool);
  cf_transport : trace -> upstream_request -> res send_error response;
  cf_tls : trace -> route -> workload -> upstream_request -> option (gostr * gostr) * res send_error response;
}.

(** The clock at the points where one request reads it. *)
Record clock := MkClock { ck_verify : Z; ck_scan : Z; ck_renew : Z }.

(** ** Answers and state *)

(** What the guest gets: a fixed text, a rule's refusal, the vended
    credentials, or the redacted response of the upstream. *)
Inductive answer :=
  | Refused (status : Z) (headers : list (gostr * gostr)) (body : gostr)
  | RuleRefused (policy route rule_ : gostr) (reason_ : rule_reason) (sandbox : gostr)
  | Vended (body : gostr)
  | Proxied (status : Z) (h : header) (body : option redactor) (trailer : header).

Definition status_of (a : answer) : Z :=
  match a with Refused s _ _ => s | RuleRefused _ _ _ _ _ => 403 | Vended _ => 200 | Proxied s _ _ _ => s end.

Record st := MkSt { st_h : handler; st_a : auditLine; st_tr : trace }.

(** A step that may end the request with an answer. *)
Definition M (A : Type) : Type := st -> res answer A * st.

Definition ret {A} (a : A) : M A := fun s => (Ok a, s).
Definition bind {A B} (m : M A) (f : A -> M B) : M B := fun s =>
  match m s with
  | (Ok a, s') => f a s'
  | (Err e, s') => (Err e, s')
  end.
Definition answer_with {A} (a : answer) : M A := fun s => (Err a, s).
Definition get_handler : M handler := fun s => (Ok (st_h s), s).
Definition put_handler (h : handler) : M unit := fun s => (Ok tt, MkSt h (st_a s) (st_tr s)).
Definition audit (f : auditLine -> auditLine) : M unit := fun s => (Ok tt, MkSt (st_h s) (f (st_a s)) (st_tr s)).
(** Asks the outside: the answer depends on what was asked before. *)
Definition ask {A} (e : event) (f : trace -> A) : M A := fun s =>
  (Ok (f (st_tr s)), MkSt (st_h s) (st_a s) (st_tr s ++ [e])).

Declare Scope broker_scope.
Delimit Scope broker_scope with broker.
Notation "'let!' x := m 'in' k" := (bind m (fun x => k))
  (at level 200, x pattern, m at level 100, k at level 200, right associativity) : broker_scope.
Notation "m ;! k" := (bind m (fun _ => k)) (at level 99, right associativity) : broker_scope.
Open Scope broker_scope.

(** [a.check = check; http.Error(w, ...); return]. *)
Definition refuse {A} (check : gostr) (status : Z) (msg : gostr) : M A :=
  audit (set_check check) ;! answer_with (Refused status [] (msg ++ [zb 10])).

Definition refuse_if (c : bool) (check : gostr) (status : Z) (msg : gostr) : M unit :=
  if c then refuse check status msg else ret tt.

Definition refuse_with {A} (headers : list (gostr * gostr)) (check : gostr) (status : Z) (msg : gostr) : M A :=
  audit (set_check check) ;! answer_with (Refused status headers (msg ++ [zb 10])).

(** [if v == nil { refuse }]. *)
Definition some_or {A} (o : option A) (check : gostr) (status : Z) (msg : gostr) : M A :=
  match o with Some a => ret a | None => refuse check status msg end.

Definition no_such_route : gostr := lit "brig broker: no such route".

(** [refuseToken], with its check. *)
Definition refuseToken {A} (check : gostr) (rt : route) : M A :=
  audit (set_check check) ;!
  answer_with (Refused 401
    (match rt_inject (r_spec rt) with
     | Some i => if is_nil (in_basicAuth i) then [] else [(lit "WWW-Authenticate", lit "Basic realm=" ++ [zb 34] ++ lit "brig" ++ [zb 34])]
     | None => []
     end) (lit "brig broker: the session token was refused" ++ [zb 10])).

Definition refuseRule {A} (rt : route) (p : routePath) (check rule_ : gostr) (reason_ : rule_reason) : M A :=
  audit (set_check check) ;! audit (set_rule (r_policy rt) rule_ reason_) ;!
  answer_with (RuleRefused (r_policy rt) (p_route p) rule_ reason_ (p_sandbox p)).

(** ** A route with services *)

Fixpoint serviceSpec (l : list Service) (name : gostr) : option Service :=
  match l with
  | [] => None
  | s :: l' => if bool_decide (sv_name s = name) then Some s else serviceSpec l' name
  end.

Definition serviceRule (route name : gostr) : gostr := routeRule route ++ lit ".services[" ++ name ++ lit "]".

Definition request_allow (r : option RequestPolicy) : option RequestAllow :=
  match r with Some r => rp_allow r | None => None end.

Definition check_allow (rt : route) (p : routePath) (r : option RequestPolicy) (method rest owner : gostr) : M unit :=
  match allow (request_allow r) method rest with
  | Some ref => refuseRule rt p (lit "request.allow." ++ rf_field ref) (rule ref owner) (AllowReason (rf_reason ref))
  | None => ret tt
  end.

Definition override_header (rt : route) (p : routePath) (h : header) : M unit :=
  match List.find (fun hdr => negb (bool_decide (h_values h hdr = []))) methodOverrides with
  | Some hdr => refuseRule rt p (lit "request.method-override") (routeRule (p_route p)) (OverrideHeader hdr)
  | None => ret tt
  end.

Definition override_param (rt : route) (p : routePath) (rawQuery : gostr) : M unit :=
  let param := queryOverride rawQuery in
  if bool_decide (param = []) then ret tt
  else refuseRule rt p (lit "request.method-override") (routeRule (p_route p)) (OverrideParam param).

Definition known_service (rt : route) (p : routePath) (services : gmap gostr url) (name : gostr) : M url :=
  match services !! name with
  | Some u => ret u
  | None =>
    refuseRule rt p (lit "request.services") (routeRule (p_route p) ++ lit ".services")
      (if bool_decide (name = []) then NoService (list_text (r_serviceNames rt))
       else OtherService name (list_text (r_serviceNames rt)))
  end.

(** The first segment after the service. *)
Definition first_segment (rest : gostr) : gostr := (cut (trim_prefix rest (lit "/")) (lit "/")).1.1.

Definition no_batch (rt : route) (p : routePath) (name rest : gostr) : M unit :=
  if isBatch (first_segment rest)
  then refuseRule rt p (lit "request.batch") (serviceRule (p_route p) name) BatchRequest else ret tt.

Definition service_allow (rt : route) (p : routePath) (method name rest : gostr) : M unit :=
  match serviceSpec (elems (rt_services (r_spec rt))) name with
  | Some svc => check_allow rt p (sv_request svc) method rest (serviceRule (p_route p) name)
  | None => ret tt
  end.

Definition serviceTarget (r : http_request) (rt : route) (services : gmap gostr url) (p : routePath) : M (url * routePath) :=
  let '(name, rest) := cutService (p_rest p) in
  let '(ename, erest) := cutService (p_escapedRest p) in
  refuse_if (negb (bool_decide (name = ename))) (lit "path") 400 (lit "brig broker: the service in the path is escaped") ;!
  override_header rt p (hr_header r) ;!
  override_param rt p (u_rawQuery (hr_url r)) ;!
  let! u := known_service rt p services name in
  no_batch rt p name rest ;!
  service_allow rt p (hr_method r) name rest ;!
  ret (u, MkRoutePath (p_sandbox p) (p_route p) rest erest).

(** ** Credentials *)

Section Serve.
Variable hmac : gostr -> gostr -> gostr.
Variable order : forall A, list (gostr * A) -> list (gostr * A).
(** The order of the range over the guest's headers. *)
Variable visit : header -> list gostr.
Variable cf : Config.

Variable dec : Type.
Variable dec_read : dec -> Z -> gostr * option read_error * dec.
Variable dec_left : dec -> nat.
Variable gzip_open : gostr -> (read_error * nat) + (gostr * gostr * gostr * dec).
Variable zlib_open : gostr -> option dec.
Variable flate_open : gostr -> dec.
Variable fuel : nat.

(** The JSON of the vended credentials. *)
Definition vend_body (c : VendedCredentials) : gostr :=
  lit "{" ++ json_key (lit "AccessKeyId") ++ json_quote (vc_accessKeyID c)
  ++ lit "," ++ json_key (lit "SecretAccessKey") ++ json_quote (vc_secretAccessKey c)
  ++ lit "," ++ json_key (lit "Token") ++ json_quote (vc_token c)
  ++ lit "," ++ json_key (lit "Expiration") ++ json_quote (vc_expiration c) ++ lit "}".

Definition vend {A} (p : routePath) (doc : gostr) : M A :=
  match cf_vendor cf with
  | None => refuse (lit "vend") 502 (lit "brig broker: route " ++ p_route p ++ lit " vends credentials and this broker has no vendor")
  | Some v =>
    let! creds := ask (EvVend (p_sandbox p) (p_route p) doc) (fun tr => v tr (p_sandbox p) (p_route p) doc) in
    match creds with
    | Err (VendError m) => refuse (lit "vend") 502 (lit "brig broker: route " ++ p_route p ++ lit ": " ++ m)
    | Err HostError =>
      refuse (lit "vend") 502 (lit "brig broker: the credentials of route " ++ p_route p ++ lit " could not be fetched; see the broker log")
    | Ok c => audit (set_vended (vc_accessKeyID c)) ;! answer_with (Vended (vend_body c))
    end
  end.

Definition mints (doc : gostr) : bool := match cf_mintDoc cf with Some f => f doc | None => false end.

Inductive credential_error := ErrShape | errGCPOnly | MintFailure (e : host_error).

(** [credential]. *)
Definition credential (p : routePath) (rt : route) (c : CredentialRef) (doc : gostr) : M (res credential_error gostr) :=
  if negb (mints doc) then ret (map_err (fun _ => ErrShape) (credentialValue order c doc))
  else if is_nil (r_services rt) then ret (Err errGCPOnly)
  else
    let! v := ask (EvMint (p_sandbox p) (p_route p) doc) (fun tr => cf_minter cf tr (p_sandbox p) (p_route p) doc) in
    ret (map_err MintFailure v).

Definition credentialRefusal {A} (p : routePath) (e : credential_error) : M A :=
  match e with
  | errGCPOnly =>
    refuse (lit "credential.gcponly") 502
      (lit "brig broker: the credential of route " ++ p_route p ++ lit " is a gcloud pointer, which only a gcp route takes")
  | MintFailure (VendError m) => refuse (lit "credential") 502 (lit "brig broker: route " ++ p_route p ++ lit ": " ++ m)
  | MintFailure HostError =>
    refuse (lit "credential") 502 (lit "brig broker: the credential of route " ++ p_route p ++ lit " could not be minted; see the broker log")
  | ErrShape =>
    refuse (lit "credential") 502 (lit "brig broker: the credential of route " ++ p_route p ++ lit " could not be resolved")
  end.

(** ** The reverse proxy *)

(** The headers of one hop, and [removeHopByHopHeaders] of net/http/httputil. *)
Definition hopHeaders : list gostr :=
  [lit "Connection"; lit "Proxy-Connection"; lit "Keep-Alive"; lit "Proxy-Authenticate"; lit "Proxy-Authorization";
   lit "Te"; lit "Trailer"; lit "Transfer-Encoding"; lit "Upgrade"].

Definition removeHopByHopHeaders (h : header) : header :=
  let named := filter (fun n => n <> [])
    ((fun n => trim n [" "%char; zb 9; zb 13; zb 10]) <$> (default [] (h !! lit "Connection") ≫= split_byte ","%char)) in
  foldl h_del (foldl h_del h named) hopHeaders.

Definition wants_trailers (h : header) : bool :=
  existsb (fun t => bool_decide (lower_byte <$> trim t [" "%char; zb 9] = lit "trailers"))
    (default [] (h !! lit "Te") ≫= split_byte ","%char).

(** The guest's header as [ReverseProxy] hands it to [Rewrite]. *)
Definition proxy_header (h : header) : header :=
  let out := removeHopByHopHeaders h in
  let out := if wants_trailers h then h_set out (lit "Te") (lit "trailers") else out in
  foldl h_del out [lit "Forwarded"; lit "X-Forwarded-For"; lit "X-Forwarded-Host"; lit "X-Forwarded-Proto"].

(** The header part of [Rewrite]: the header without what the rules drop, the
    counts, and the header that goes upstream. *)
Definition asks_identity (method : gostr) (h : header) : header :=
  if negb (bool_decide (h_get h (lit "Range") = [])) || bool_decide (method = lit "HEAD")
  then h_set h (lit "Accept-Encoding") (lit "identity") else h.

(** [ReverseProxy] sends no User-Agent of its own. *)
Definition no_user_agent (h : header) : header :=
  if is_nil (h !! lit "User-Agent") then h_set h (lit "User-Agent") [] else h.

Definition upstream_header (i : Inject) (method : gostr) (h : header) (value : gostr) : header :=
  no_user_agent (injectCredential i (asks_identity method h) value).

(** [addSecret]. *)
Definition addSecret (i : Inject) (value : gostr) (secrets : list gostr) : list gostr :=
  if bool_decide (value = []) then secrets
  else secrets ++ [value] ++
    match in_basicAuth i with
    | Some b => [std_encode (ba_username b ++ lit ":" ++ value)]
    | None => []
    end.

(** [send]. *)
Definition send (rt : route) (wl : workload) (req : upstream_request) : M (res send_error response) :=
  if is_nil (in_tls (inject_of (r_spec rt))) then ask (EvUpstream req) (fun tr => cf_transport cf tr req)
  else
    let! (cert, r) := ask (EvUpstream req) (fun tr => cf_tls cf tr rt wl req) in
    match cert with Some (c, notAfter) => audit (set_cert c notAfter) | None => ret tt end ;!
    ret r.

Definition renewable (cred : option CredentialRef) (doc : gostr) : bool :=
  match cred with
  | Some c => negb (is_nil (cf_renewer cf)) && negb (bool_decide (cd_lifecycle c = [])) && negb (mints doc)
  | None => false
  end.

(** [renewed]. *)
Definition renewed (now : Z) (cred : CredentialRef) (wl : workload) (doc : gostr) : M (option gostr) :=
  let name := sr_name (cd_secretRef cred) in
  let! h := get_handler in
  let '(may, h') := mayForceRenew h name now in
  put_handler h' ;!
  if may then
    match cf_renewer cf with
    | None => ret None
    | Some f =>
      let! fresh := ask (EvForce name wl doc) (fun tr => f tr name wl doc) in
      match fresh with
      | Some d => ret (Some d)
      | None => audit (set_renew (lit "failed")) ;! ret None
      end
    end
  else
    let! d := ask (EvResolve name wl) (fun tr => cf_resolve cf tr name wl) in
    match d with
    | Ok d => if bool_decide (d = doc) then audit (set_renew (lit "interval")) ;! ret None else ret (Some d)
    | Err _ => audit (set_renew (lit "interval")) ;! ret None
    end.

(** The request sent once more. *)
Definition retry_of (i : Inject) (req : upstream_request) (value : gostr) (body : option gostr) : upstream_request :=
  MkUpstream (up_method req) (up_scheme req) (up_host req) (up_path req) (up_rawPath req) (up_rawQuery req)
    (injectCredential i (up_header req) value) body.

(** The rest of [RoundTrip] after a 401 with [body] to send again: the renewal
    and the second request. *)
Definition renew_and_retry (now : Z) (rt : route) (wl : workload) (doc : gostr) (cred : CredentialRef)
    (secrets : list gostr) (req : upstream_request) (resp : response) (body : option gostr)
    : M (res send_error response * list gostr) :=
  let i := inject_of (r_spec rt) in
  let! fresh := renewed now cred wl doc in
  match fresh with
  | None => ret (Ok resp, secrets)
  | Some fresh =>
    match credentialValue order cred fresh with
    | Err _ => audit (set_renew (lit "failed")) ;! ret (Ok resp, secrets)
    | Ok value =>
      audit (set_renew (lit "retried")) ;!
      let! second := send rt wl (retry_of i req value body) in
      ret (second, addSecret i value secrets)
    end
  end.

(** [RoundTrip], with the strings that were injected. *)
Definition RoundTrip (now : Z) (rt : route) (wl : workload) (doc : gostr) (held : option heldBody)
    (secrets : list gostr) (req : upstream_request) : M (res send_error response * list gostr) :=
  let! first := send rt wl req in
  match first with
  | Err e => ret (Err e, secrets)
  | Ok resp =>
    if negb (rs_status resp =? 401) then ret (Ok resp, secrets)
    else
      match rt_credential (r_spec rt), renewable (rt_credential (r_spec rt)) doc with
      | Some cred, true =>
        match up_body req with
        | None => renew_and_retry now rt wl doc cred secrets req resp None
        | Some _ =>
          match held with
          | None => ret (Ok resp, secrets)
          | Some hb =>
            match complete hb with
            | None => audit (set_renew (lit "body")) ;! ret (Ok resp, secrets)
            | Some replay => renew_and_retry now rt wl doc cred secrets req resp (Some replay)
            end
          end
        end
      | _, _ => ret (Ok resp, secrets)
      end
  end.

Definition tlsBody (route : gostr) (check : tls_check) : gostr :=
  lit "brig broker: " ++
  match check with
  | tls_ca => lit "the CA of route " ++ route ++ lit " could not be used"
  | tls_expired => lit "the client certificate of route " ++ route ++ lit " has expired"
  | tls_handshake => lit "the TLS handshake with the upstream of route " ++ route ++ lit " failed"
  | tls_certificate => lit "the client certificate of route " ++ route ++ lit " could not be used"
  end
  ++ lit " (check " ++ tls_check_text check ++ lit ")".

(** The error handler of the proxy. *)
Definition upstreamError {A} (route : gostr) (e : send_error) : M A :=
  match e with
  | errRouteClosed => refuse (lit "sandbox") 404 no_such_route
  | tlsFailure check => refuse (tls_check_text check) 502 (tlsBody route check)
  | SendOther => refuse (lit "upstream") 502 (lit "brig broker: the upstream of route " ++ route ++ lit " could not be reached")
  end.

(** [redactResponse], and the answer made of its result.  An upstream that
    switches protocols is answered as one that could not be reached: the
    redacted body is no connection. *)
Definition respond {A} (route : gostr) (secrets : list gostr) (resp : response) : M A :=
  let switching := rs_status resp =? 101 in
  let h := if switching then rs_header resp else removeHopByHopHeaders (rs_header resp) in
  if encoded (negb (is_nil (rs_body resp))) h then
    refuse (lit "response.encoding") 502
      (lit "brig broker: the upstream of route " ++ route ++ lit " sent a body in an encoding the broker cannot read")
  else if switching then upstreamError route SendOther
  else
    answer_with (Proxied (rs_status resp) (response_headers secrets h)
      ((fun src => newRedactor src secrets) <$> rs_body resp)
      (drop_holding secrets (rs_trailer resp))).

(** The guest's header after [dropGuestHeaders], with the counts. *)
Definition dropped_header (i : Inject) (h : header) (token : gostr) : header * gmap gostr nat :=
  let h := proxy_header h in dropGuestHeaders i h token (visit h).

(** The request that goes upstream: [p] has the path the upstream gets. *)
Definition upstream_of (r : http_request) (p : routePath) (rt : route) (upstream : url) (token value : gostr)
    (held : option (heldBody * answers)) : upstream_request :=
  let i := inject_of (r_spec rt) in
  MkUpstream (hr_method r) (u_scheme upstream) (u_host upstream) (p_rest p) (p_escapedRest p)
    (u_rawQuery (hr_url r)) (upstream_header i (hr_method r) (dropped_header i (hr_header r) token).1 value)
    (if hr_contentLength r =? 0 then None else (fun b => put_back b.1 b.2) <$> held).

Definition forward (now : Z) (r : http_request) (p : routePath) (rt : route) (upstream : url) (token : gostr)
    (wl : workload) (doc value : gostr) (held : option (heldBody * answers)) : M unit :=
  let i := inject_of (r_spec rt) in
  audit (set_dropped (dropped_header i (hr_header r) token).2) ;!
  let! (resp, secrets) := RoundTrip now rt wl doc (fst <$> held) (addSecret i value [])
    (upstream_of r p rt upstream token value held) in
  match resp with
  | Err e => upstreamError (p_route p) e
  | Ok resp => respond (p_route p) secrets resp
  end.

(** ** [ServeHTTP] *)

(** Stores a sandbox that this request changed. *)
Definition put_sandbox (sb : sandbox) : M unit :=
  let! h := get_handler in put_handler (set_sandboxes h (<[sb_id sb := sb]> (h_sandboxes h))).

(** The checks made before the token is read. *)
Definition find_route (r : http_request) : M (routePath * sandbox * route) :=
  refuse_if (bool_decide (hr_method r = lit "CONNECT") || upgrade (hr_header r)) (lit "upgrade") 400
    (lit "brig broker: a route does not take a protocol upgrade or CONNECT") ;!
  let! p := some_or (splitRoutePath (hr_url r)) (lit "path") 404 no_such_route in
  let '(arrived, ok) := cf_arrival cf (p_sandbox p) (hr_remoteAddr r) in
  audit (set_arrived arrived) ;!
  refuse_if (negb ok) (lit "arrival") 404 no_such_route ;!
  audit (set_names p) ;!
  let! h := get_handler in
  let! sb := some_or (find_sandbox h (p_sandbox p)) (lit "sandbox") 404 no_such_route in
  let! rt := some_or (sb_routes sb !! p_route p) (lit "route") 404 no_such_route in
  refuse_if (match cf_vendOnly cf with Some f => negb (Vends (r_spec rt)) && f r | None => false end)
    (lit "route.cleartext") 404 no_such_route ;!
  refuse_if (other_mode (rt_mode (r_spec rt))) (lit "route.mode") 404 no_such_route ;!
  ret (p, sb, rt).

(** The token check. *)
Definition check_token (ck : clock) (r : http_request) (p : routePath) (sb : sandbox) (rt : route)
    : M (gostr * claims) :=
  let token := sessionToken (r_spec rt) (hr_header r) in
  if bool_decide (token = []) then refuseToken (token_check errTokenMissing) rt
  else
    match verify hmac (sb_key sb) token (p_sandbox p) (p_route p) (ck_verify ck) with
    | Err e => refuseToken (token_check e) rt
    | Ok c => ret (token, c)
    end.

(** The body is held for the scan; [grants] are the answers of the budget. *)
Definition hold_body (grants : list bool) (r : http_request) : M (option (heldBody * answers)) :=
  match hr_body r with
  | None => ret None
  | Some b =>
    match holdBody (hr_contentLength r) grants b with
    | Some (Held hb rest) => ret (Some (hb, rest))
    | Some (HoldBudget _) =>
      refuse_with [(lit "Connection", lit "close"); (lit "Retry-After", lit "1")] (lit "budget") 503
        (lit "brig broker: too many request bodies are held at once; try again")
    | Some (HoldRead _ TimedOut) =>
      refuse_with [(lit "Connection", lit "close")] (lit "body") 408 (lit "brig broker: the request body did not arrive in time")
    | Some (HoldRead _ _) | None =>
      refuse_with [(lit "Connection", lit "close")] (lit "body") 400 (lit "brig broker: the request body could not be read")
    end
  end.

(** The scan for tokens outside their carrier, at the time [now].  A decoder
    that never answers keeps the request waiting; it is the [None] of the
    walk, and ends this model of the request as a panic would. *)
Definition scan_request (now : Z) (r : http_request) (p : routePath) (sb : sandbox) (rt : route) (token : gostr)
    (held : option heldBody) : M unit :=
  let '(m, live') := matcher_at (sb_live sb) now in
  let sb := set_live sb live' in
  put_sandbox sb ;!
  match findPlaceholder dec dec_read dec_left gzip_open zlib_open flate_open fuel m
          (MkRequest (hr_method r) (u_rawQuery (hr_url r)) (hr_host r) (hr_header r) (hr_trailer r))
          p (r_spec rt) token held with
  | None => refuse (lit "panic") 500 (lit "brig broker: internal error")
  | Some (hit, partial, err) =>
    (if (partial : bool) then audit set_partial else ret tt) ;!
    match err, hit with
    | Some errInflated, _ =>
      refuse (lit "body") 413 (lit "brig broker: the request body decompresses to more than 8 MiB")
    | Some _, _ =>
      refuse (lit "content-encoding") 415 (lit "brig broker: a request body to a route is plain, gzip or deflate, and readable")
    | None, Some ph =>
      put_sandbox (MkSandbox (sb_id sb) (sb_profile sb) (sb_key sb) (sb_routes sb) (sb_placeholders sb + 1) (sb_live sb)) ;!
      audit (set_found ph) ;!
      refuse (lit "placeholder") 403
        (lit "brig: refused: the session token was sent outside its carrier (route " ++ ph_route ph ++ lit ", in "
         ++ ph_where ph ++ lit ")")
    | None, None => ret tt
    end
  end.

Definition has_repos (spec : Route) : bool :=
  match request_allow (rt_request spec) with Some a => nonempty (ra_repos a) | None => false end.

(** The checks of the path and the rules, and the upstream with the path it
    gets. *)
Definition check_rules (r : http_request) (p : routePath) (rt : route) : M (option url * routePath) :=
  let vends := Vends (r_spec rt) in
  refuse_if (vends && negb (bool_decide (p_rest p = lit "/"))) (lit "path") 404 no_such_route ;!
  refuse_if (negb vends && negb (canonical (p_rest p) (p_escapedRest p) (has_repos (r_spec rt)))) (lit "path") 400
    (lit "brig broker: the path has a dot segment, an empty segment or an escaped separator") ;!
  check_allow rt p (rt_request (r_spec rt)) (hr_method r) (p_rest p) (routeRule (p_route p)) ;!
  match r_services rt with
  | None => ret (r_upstream rt, p)
  | Some services => let! t := serviceTarget r rt services p in ret (Some t.1, t.2)
  end.

(** The credential, and what is done with it.  A route without an upstream and
    without services vends, so the [None] of the last match is not reached for
    the routes [AddSandbox] takes: there the code would dereference a nil. *)
Definition use_credential (ck : clock) (r : http_request) (p out : routePath) (rt : route) (upstream : option url)
    (token : gostr) (wl : workload) (held : option (heldBody * answers)) : M unit :=
  let go doc value :=
    match upstream with
    | Some u => forward (ck_renew ck) r out rt u token wl doc value held
    | None => refuse (lit "panic") 500 (lit "brig broker: internal error")
    end in
  match rt_credential (r_spec rt) with
  | None => go [] []
  | Some cred =>
    let name := sr_name (cd_secretRef cred) in
    let! doc := ask (EvResolve name wl) (fun tr => cf_resolve cf tr name wl) in
    match doc with
    | Err e =>
      refuse (lit "credential") 502
        (lit "brig broker: the credential of route " ++ p_route p ++ lit " could not be resolved"
         ++ match e with
            | ErrUnsupported => lit ": brig's secret store is not available on this host; see the broker log"
            | ErrResolve => []
            end)
    | Ok doc =>
      if Vends (r_spec rt) then vend p doc
      else if match cf_vendDoc cf with Some f => f doc | None => false end then
        refuse (lit "credential.vendonly") 502
          (lit "brig broker: the credential of route " ++ p_route p
           ++ lit " is for a route that vends, such as one on the aws preset")
      else
        let! v := credential p rt cred doc in
        match v with
        | Err e => credentialRefusal p e
        | Ok value => go doc value
        end
    end
  end.

(** After the token is verified. *)
Definition serve_verified (ck : clock) (grants : list bool) (r : http_request) (p : routePath) (sb : sandbox) (rt : route)
    (token : gostr) (c : claims) : M unit :=
  let wl := workload_of sb (c_session c) in
  let sb := set_live sb (remember (sb_live sb) token (c_route c) (time_unix (c_exp c))) in
  put_sandbox sb ;!
  let! held := hold_body grants r in
  (if negb (ck_scan ck <? time_unix (c_exp c)) then refuseToken (token_check errTokenExpired) rt else ret tt) ;!
  scan_request (ck_scan ck) r p sb rt token (fst <$> held) ;!
  let! (upstream, out) := check_rules r p rt in
  use_credential ck r p out rt upstream token wl held.

(** [ServeHTTP] up to its answer. *)
Definition serve (ck : clock) (grants : list bool) (r : http_request) : M unit :=
  let! (p, sb, rt) := find_route r in
  let! (token, c) := check_token ck r p sb rt in
  audit (set_workload (workloadID (sb_profile sb) (c_session c))) ;!
  serve_verified ck grants r p sb rt token c.

(** A request served: its answer, and the handler, the audit line and the trace
    after it. *)
Definition ServeHTTP (h : handler) (ck : clock) (grants : list bool) (r : http_request) : answer * st :=
  match serve ck grants r (MkSt h (new_audit (hr_method r)) []) with
  | (Err a, s) => (a, s)
  | (Ok _, s) => (Refused 200 [] [], s)
  end.

(** ** What each stage leaves behind *)

Create HintDb stage discriminated.

Lemma bind_inv {A B} (m : M A) (f : A -> M B) s x s' :
  bind m f s = (x, s') ->
  (exists e, m s = (Err e, s') /\ x = Err e) \/ (exists a s1, m s = (Ok a, s1) /\ f a s1 = (x, s')).
Proof. unfold bind. destruct (m s) as [[a|e] s1]; [eauto|]. intros [= <- <-]. eauto. Qed.

Definition is_refusal (a : answer) : bool :=
  match a with Refused _ _ _ | RuleRefused _ _ _ _ _ => true | _ => false end.

(** A stage that asks nothing of the outside and keeps the audit line of an
    unverified request one: it ends with a refusal that has its check, or goes
    on without a check. *)
Definition stage {A} (m : M A) : Prop :=
  forall s x s', m s = (x, s') ->
    st_tr s' = st_tr s /\ a_workload (st_a s') = a_workload (st_a s) /\
    match x with
    | Ok _ => a_check (st_a s') = a_check (st_a s)
    | Err a => a_check (st_a s') <> [] /\ is_refusal a = true
    end.

Lemma stage_ret {A} (a : A) : stage (ret a).
Proof. intros s x s' [= <- <-]. done. Qed.

Lemma stage_bind {A B} (m : M A) (f : A -> M B) : stage m -> (forall a, stage (f a)) -> stage (bind m f).
Proof.
  intros Hm Hf s x s' [(e & H & ->)|(a & s1 & H1 & H2)]%bind_inv; [by apply Hm in H|].
  apply Hm in H1 as (E1 & E2 & E3). apply (Hf a) in H2 as (F1 & F2 & F3). rewrite <- E1, <- E2. split_and!; try done.
  destruct x; [by rewrite F3|done].
Qed.

Lemma stage_get : stage get_handler.
Proof. intros s x s' [= <- <-]. done. Qed.

Lemma stage_put h : stage (put_handler h).
Proof. intros s x s' [= <- <-]. done. Qed.

Lemma stage_audit f :
  (forall a, a_workload (f a) = a_workload a /\ a_check (f a) = a_check a) -> stage (audit f).
Proof. intros Hf s x s' [= <- <-]. cbn. by destruct (Hf (st_a s)) as [-> ->]. Qed.

(** A check and an answer: the end of every refusal. *)
Lemma stage_refused {A} check f (a : answer) :
  check <> [] -> (forall l, a_workload (f l) = a_workload l /\ a_check (f l) = a_check l) -> is_refusal a = true ->
  stage (A := A) (audit (set_check check) ;! audit f ;! answer_with a).
Proof.
  intros Hc Hf Ha s x s' [= <- <-]. cbn. destruct (Hf (set_check check (st_a s))) as [-> ->]. done.
Qed.

Lemma stage_answer {A} check (a : answer) :
  check <> [] -> is_refusal a = true -> stage (A := A) (audit (set_check check) ;! answer_with a).
Proof. intros Hc Ha s x s' [= <- <-]. done. Qed.

Lemma stage_refuse {A} check status msg : check <> [] -> stage (A := A) (refuse check status msg).
Proof. intros H. by apply stage_answer. Qed.

Lemma stage_refuse_with {A} hs check status msg : check <> [] -> stage (A := A) (refuse_with hs check status msg).
Proof. intros H. by apply stage_answer. Qed.

Lemma stage_refuse_if c check status msg : check <> [] -> stage (refuse_if c check status msg).
Proof. intros H. unfold refuse_if. destruct c; [by apply stage_refuse|apply stage_ret]. Qed.

Lemma stage_some_or {A} (o : option A) check status msg : check <> [] -> stage (some_or o check status msg).
Proof. intros H. unfold some_or. destruct o; [apply stage_ret|by apply stage_refuse]. Qed.

Lemma stage_token {A} check rt : check <> [] -> stage (A := A) (refuseToken check rt).
Proof. intros H. by apply stage_answer. Qed.

Lemma stage_rule {A} rt p check rule_ reason_ : check <> [] -> stage (A := A) (refuseRule rt p check rule_ reason_).
Proof. intros H. by apply stage_refused. Qed.

Lemma stage_allow rt p r method rest owner : stage (check_allow rt p r method rest owner).
Proof. unfold check_allow. destruct (allow _ _ _); [by apply stage_rule|apply stage_ret]. Qed.

Lemma stage_put_sandbox sb : stage (put_sandbox sb).
Proof. apply stage_bind; [apply stage_get|]. intros h. apply stage_put. Qed.

Lemma token_check_text e : token_check e <> [].
Proof. by destruct e. Qed.

Lemma tls_check_text_some c : tls_check_text c <> [].
Proof. by destruct c. Qed.

#[local] Hint Resolve token_check_text tls_check_text_some stage_ret stage_get stage_put stage_refuse stage_refuse_with stage_refuse_if stage_some_or stage_token stage_rule
  stage_allow stage_put_sandbox : stage.

(** Splits a program into its stages. *)
Ltac stages :=
  repeat first
    [ progress (eauto with stage)
    | match goal with
      | |- stage (bind _ _) => apply stage_bind; [|intros ?]
      | |- stage (audit _) => apply stage_audit; intros ?; split; reflexivity
      | |- stage (match ?x with _ => _ end) => destruct x
      | |- stage (let '(_, _) := ?x in _) => destruct x
      end
    | discriminate ].

Lemma stage_find_route r : stage (find_route r).
Proof. unfold find_route. stages. Qed.

Lemma stage_check_token ck r p sb rt : stage (check_token ck r p sb rt).
Proof. unfold check_token. stages. Qed.

Lemma stage_hold_body grants r : stage (hold_body grants r).
Proof. unfold hold_body. stages. Qed.

Lemma stage_scan_request now r p sb rt token held : stage (scan_request now r p sb rt token held).
Proof. unfold scan_request. stages. Qed.

Lemma stage_serviceTarget r rt services p : stage (serviceTarget r rt services p).
Proof.
  unfold serviceTarget, override_header, override_param, known_service, no_batch, service_allow. stages.
Qed.

Lemma stage_check_rules r p rt : stage (check_rules r p rt).
Proof. unfold check_rules. pose proof stage_serviceTarget. stages. Qed.

(** ** What a stage that goes on has checked *)

Lemma bind_ok {A B} (m : M A) (f : A -> M B) s b s' :
  bind m f s = (Ok b, s') -> exists a s1, m s = (Ok a, s1) /\ f a s1 = (Ok b, s').
Proof. intros [(e & _ & [=])|(a & s1 & H1 & H2)]%bind_inv. eauto. Qed.

Lemma ret_ok {A} (a b : A) s s' : ret a s = (Ok b, s') -> b = a /\ s' = s.
Proof. by intros [= <- <-]. Qed.

Lemma audit_ok f s u s' : audit f s = (Ok u, s') -> s' = MkSt (st_h s) (f (st_a s)) (st_tr s).
Proof. by intros [= _ <-]. Qed.

Lemma get_ok s h s' : get_handler s = (Ok h, s') -> h = st_h s /\ s' = s.
Proof. by intros [= <- <-]. Qed.

Lemma refuse_not_ok {A} check status msg s (a : A) s' : refuse check status msg s = (Ok a, s') -> False.
Proof. done. Qed.

Lemma refuse_if_ok c check status msg s u s' : refuse_if c check status msg s = (Ok u, s') -> c = false /\ s' = s.
Proof. unfold refuse_if. destruct c; [done|]. intros [= _ <-]. done. Qed.

Lemma some_or_ok {A} (o : option A) check status msg s a s' : some_or o check status msg s = (Ok a, s') -> o = Some a /\ s' = s.
Proof. unfold some_or. destruct o; [|done]. by intros [= <- <-]. Qed.

Ltac m_inv :=
  repeat match goal with
  | H : bind _ _ _ = (Ok _, _) |- _ => apply bind_ok in H as (? & ? & ? & ?)
  | H : ret _ _ = (Ok _, _) |- _ => apply ret_ok in H as [? ?]; subst
  | H : audit _ _ = (Ok _, _) |- _ => apply audit_ok in H; subst
  | H : get_handler _ = (Ok _, _) |- _ => apply get_ok in H as [? ?]; subst
  | H : refuse_if _ _ _ _ _ = (Ok _, _) |- _ => apply refuse_if_ok in H as [? ?]; subst
  | H : some_or _ _ _ _ _ = (Ok _, _) |- _ => apply some_or_ok in H as [? ?]; subst
  | H : refuse _ _ _ _ = (Ok _, _) |- _ => destruct (refuse_not_ok _ _ _ _ _ _ H)
  end.

(** The route of a request, past the checks of where it came from and how. *)
Definition routed (h : handler) (r : http_request) (p : routePath) (sb : sandbox) (rt : route) : Prop :=
  hr_method r <> lit "CONNECT" /\ upgrade (hr_header r) = false /\
  splitRoutePath (hr_url r) = Some p /\ (cf_arrival cf (p_sandbox p) (hr_remoteAddr r)).2 = true /\
  h_sandboxes h !! p_sandbox p = Some sb /\ sb_routes sb !! p_route p = Some rt /\
  other_mode (rt_mode (r_spec rt)) = false /\
  (Vends (r_spec rt) = false -> forall f, cf_vendOnly cf = Some f -> f r = false).

Lemma find_route_ok r s p sb rt s' :
  find_route r s = (Ok (p, sb, rt), s') -> routed (st_h s) r p sb rt /\ st_h s' = st_h s.
Proof.
  unfold find_route. intros H. m_inv. destruct (cf_arrival cf _ _) as [arrived ok] eqn:Ea. m_inv. simplify_eq.
  match goal with H : orb _ _ = false |- _ => apply orb_false_iff in H as [Hm Hu] end.
  apply bool_decide_eq_false in Hm. split; [|done]. split_and!; try done.
  - rewrite Ea. by apply negb_false_iff.
  - intros Hv f Hf. rewrite Hf, Hv in *. done.
Qed.

Lemma check_token_ok ck r p sb rt s token c s' :
  check_token ck r p sb rt s = (Ok (token, c), s') ->
  token = sessionToken (r_spec rt) (hr_header r) /\
  verify hmac (sb_key sb) token (p_sandbox p) (p_route p) (ck_verify ck) = Ok c /\ s' = s.
Proof.
  unfold check_token. case_if; [done|]. destruct (verify _ _ _ _ _ _) as [c'|e] eqn:E; [|done].
  intros H. m_inv. injection H as -> ->. done.
Qed.

Lemma hold_body_ok grants r s held s' :
  hold_body grants r s = (Ok held, s') ->
  s' = s /\ match hr_body r with
            | None => held = None
            | Some b => exists hb rest, held = Some (hb, rest) /\ holdBody (hr_contentLength r) grants b = Some (Held hb rest)
            end.
Proof.
  unfold hold_body. destruct (hr_body r) as [b|]; [|intros H; m_inv; done].
  destruct (holdBody _ _ _) as [[hb rest|hb|hb []]|] eqn:E; try done. intros H. m_inv. split; [done|]. eauto.
Qed.

(** The request passed to the scan. *)
Definition scanned_request (r : http_request) : request :=
  MkRequest (hr_method r) (u_rawQuery (hr_url r)) (hr_host r) (hr_header r) (hr_trailer r).

Lemma scan_request_ok now r p sb rt token held s s' :
  scan_request now r p sb rt token held s = (Ok tt, s') ->
  exists partial, findPlaceholder dec dec_read dec_left gzip_open zlib_open flate_open fuel (matcher_at (sb_live sb) now).1
    (scanned_request r) p (r_spec rt) token held = Some (None, partial, None).
Proof.
  unfold scan_request. destruct (matcher_at _ _) as [m live']. intros H. m_inv. cbn [fst]. revert H0.
  destruct (findPlaceholder _ _ _ _ _ _ _ _ _ _ _ _ _) as [[[hit partial] err]|] eqn:E; [|done].
  intros H0. m_inv. destruct err as [[]|], hit; m_inv; try done. eauto.
Qed.

(** The upstream and the path a request of a route gets. *)
Definition target (r : http_request) (p : routePath) (rt : route) (u : option url) (out : routePath) : Prop :=
  match r_services rt with
  | None => u = r_upstream rt /\ out = p
  | Some services =>
    let '(name, rest) := cutService (p_rest p) in
    let '(ename, erest) := cutService (p_escapedRest p) in
    name = ename /\ u = services !! name /\ is_Some u /\ out = MkRoutePath (p_sandbox p) (p_route p) rest erest /\
    Forall (fun hdr => h_values (hr_header r) hdr = []) methodOverrides /\ queryOverride (u_rawQuery (hr_url r)) = [] /\
    isBatch (first_segment rest) = false /\
    (forall svc, serviceSpec (elems (rt_services (r_spec rt))) name = Some svc ->
       allow (request_allow (sv_request svc)) (hr_method r) rest = None)
  end.

(** The rules of the route let the request through. *)
Definition ruled (r : http_request) (p : routePath) (rt : route) (u : option url) (out : routePath) : Prop :=
  (if Vends (r_spec rt) then p_rest p = lit "/"
   else canonical (p_rest p) (p_escapedRest p) (has_repos (r_spec rt)) = true) /\
  allow (request_allow (rt_request (r_spec rt))) (hr_method r) (p_rest p) = None /\
  target r p rt u out.

Lemma check_allow_ok rt p q method rest owner s u s' :
  check_allow rt p q method rest owner s = (Ok u, s') -> allow (request_allow q) method rest = None /\ s' = s.
Proof. unfold check_allow. destruct (allow _ _ _); [done|]. intros H. m_inv. done. Qed.

Lemma override_header_ok rt p h s u s' :
  override_header rt p h s = (Ok u, s') -> Forall (fun hdr => h_values h hdr = []) methodOverrides /\ s' = s.
Proof.
  unfold override_header. destruct (List.find _ _) eqn:Ef; [done|]. intros H. m_inv. split; [|done].
  apply Forall_forall. intros hdr Hin. apply list_elem_of_In in Hin. pose proof (List.find_none _ _ Ef hdr Hin) as Hn.
  by apply negb_false_iff, bool_decide_eq_true in Hn.
Qed.

Lemma override_param_ok rt p q s u s' : override_param rt p q s = (Ok u, s') -> queryOverride q = [] /\ s' = s.
Proof. unfold override_param. case_if; [|done]. intros H. m_inv. bool_inv. done. Qed.

Lemma known_service_ok rt p services name s u s' :
  known_service rt p services name s = (Ok u, s') -> services !! name = Some u /\ s' = s.
Proof. unfold known_service. destruct (services !! name); [|done]. intros H. m_inv. done. Qed.

Lemma no_batch_ok rt p name rest s u s' :
  no_batch rt p name rest s = (Ok u, s') -> isBatch (first_segment rest) = false /\ s' = s.
Proof. unfold no_batch. case_if; [done|]. intros H. m_inv. done. Qed.

Lemma service_allow_ok rt p method name rest s u s' :
  service_allow rt p method name rest s = (Ok u, s') ->
  (forall svc, serviceSpec (elems (rt_services (r_spec rt))) name = Some svc ->
     allow (request_allow (sv_request svc)) method rest = None) /\ s' = s.
Proof.
  unfold service_allow. destruct (serviceSpec _ _) as [svc|]; intros H; [|by m_inv].
  apply check_allow_ok in H as [H ->]. split; [|done]. by intros ? [= <-].
Qed.

Lemma serviceTarget_ok r rt services p s u out s' :
  serviceTarget r rt services p s = (Ok (u, out), s') -> r_services rt = Some services -> target r p rt (Some u) out.
Proof.
  unfold serviceTarget, target. intros H ->. destruct (cutService (p_rest p)) as [name rest].
  destruct (cutService (p_escapedRest p)) as [ename erest]. m_inv.
  repeat match goal with
  | H : negb _ = false |- _ => apply negb_false_iff, bool_decide_eq_true in H as ->
  | H : override_header _ _ _ _ = _ |- _ => apply override_header_ok in H as [? ->]
  | H : override_param _ _ _ _ = _ |- _ => apply override_param_ok in H as [? ->]
  | H : known_service _ _ _ _ _ = _ |- _ => apply known_service_ok in H as [? ->]
  | H : no_batch _ _ _ _ _ = _ |- _ => apply no_batch_ok in H as [? ->]
  | H : service_allow _ _ _ _ _ _ = _ |- _ => apply service_allow_ok in H as [? ->]
  end.
  simplify_eq. split_and!; by eauto.
Qed.

Lemma check_rules_ok r p rt s u out s' : check_rules r p rt s = (Ok (u, out), s') -> ruled r p rt u out.
Proof.
  unfold check_rules, ruled. intros H. m_inv.
  match goal with H : check_allow _ _ _ _ _ _ _ = _ |- _ => apply check_allow_ok in H as [Ha ->] end.
  split_and!; [|done|].
  - destruct (Vends _); cbn [andb negb] in *; bool_inv; done.
  - unfold target. destruct (r_services rt) as [services|] eqn:Es.
    + m_inv. match goal with H : serviceTarget _ _ _ _ _ = (Ok ?t, _) |- _ =>
        destruct t as [v out']; apply serviceTarget_ok in H; [|done]; unfold target in H; rewrite Es in H end.
      by simplify_eq.
    + m_inv. by simplify_eq.
Qed.

(** ** What goes upstream *)

(** The answer of the upstream to a request sent after [tr]. *)
Definition upstream_answer (rt : route) (wl : workload) (tr : trace) (req : upstream_request) : res send_error response :=
  if is_nil (in_tls (inject_of (r_spec rt))) then cf_transport cf tr req else (cf_tls cf tr rt wl req).2.

(** Steps that always go on. *)
Definition goes_on {A} (m : M A) (s : st) (a : A) (evs : trace) : Prop :=
  exists h l, m s = (Ok a, MkSt h l (st_tr s ++ evs)) /\ a_check l = a_check (st_a s).

Lemma send_goes_on rt wl req s : goes_on (send rt wl req) s (upstream_answer rt wl (st_tr s) req) [EvUpstream req].
Proof.
  unfold goes_on, send, upstream_answer, bind, ask, audit, ret. destruct (is_nil _); cbn; [eauto|].
  destruct (cf_tls _ _ _ _ _) as [[[c n]|] x]; cbn; eauto.
Qed.

Definition renew_event (cred : CredentialRef) (wl : workload) (doc : gostr) (e : event) : Prop :=
  e = EvForce (sr_name (cd_secretRef cred)) wl doc \/ e = EvResolve (sr_name (cd_secretRef cred)) wl.

Lemma renewed_goes_on now cred wl doc s :
  is_Some (cf_renewer cf) -> exists o e, goes_on (renewed now cred wl doc) s o [e] /\ renew_event cred wl doc e.
Proof.
  intros [f Hf]. unfold goes_on, renewed, renew_event. rewrite Hf. unfold bind, get_handler, put_handler, ask, audit, ret.
  destruct (mayForceRenew _ _ _) as [[] h']; cbn.
  - destruct (f _ _ _ _) as [d|]; cbn; eauto 10.
  - destruct (cf_resolve _ _ _ _) as [d|e]; cbn; [|eauto 10]. destruct (bool_decide _); cbn; eauto 10.
Qed.

(** A round trip: one request, or the renewal that its 401 led to, or the
    request once more with the renewed credential. *)
Inductive round (rt : route) (wl : workload) (doc : gostr) (held : option heldBody) (secrets : list gostr)
    (req : upstream_request) (tr : trace) : trace -> list gostr -> Prop :=
  | round_once : round rt wl doc held secrets req tr [EvUpstream req] secrets
  | round_renewed cred resp e :
      rt_credential (r_spec rt) = Some cred -> renewable (Some cred) doc = true ->
      upstream_answer rt wl tr req = Ok resp -> rs_status resp = 401 -> renew_event cred wl doc e ->
      round rt wl doc held secrets req tr [EvUpstream req; e] secrets
  | round_retried cred resp e fresh value body :
      rt_credential (r_spec rt) = Some cred -> renewable (Some cred) doc = true ->
      upstream_answer rt wl tr req = Ok resp -> rs_status resp = 401 -> renew_event cred wl doc e ->
      credentialValue order cred fresh = Ok value ->
      (up_body req = None /\ body = None \/ exists hb, held = Some hb /\ is_Some (complete hb) /\ body = complete hb) ->
      round rt wl doc held secrets req tr
        [EvUpstream req; e; EvUpstream (retry_of (inject_of (r_spec rt)) req value body)]
        (addSecret (inject_of (r_spec rt)) value secrets).

Lemma bind_run {A B} (m : M A) (f : A -> M B) s a s1 : m s = (Ok a, s1) -> bind m f s = f a s1.
Proof. intros H. unfold bind. by rewrite H. Qed.

Lemma RoundTrip_goes_on now rt wl doc held secrets req s :
  exists resp secrets' evs, goes_on (RoundTrip now rt wl doc held secrets req) s (resp, secrets') evs /\
    round rt wl doc held secrets req (st_tr s) evs secrets'.
Proof.
  unfold RoundTrip. destruct (send_goes_on rt wl req s) as (h1 & l1 & H1 & Hl1).
  unfold goes_on. rewrite (bind_run _ _ _ _ _ H1).
  assert (forall x, exists resp secrets' evs,
    (exists h l, (ret (x, secrets) : M (res send_error response * list gostr)) (MkSt h1 l1 (st_tr s ++ [EvUpstream req]))
       = (Ok (resp, secrets'), MkSt h l (st_tr s ++ evs)) /\ a_check l = a_check (st_a s)) /\
    round rt wl doc held secrets req (st_tr s) evs secrets') as Hret.
  { intros x. exists x, secrets, [EvUpstream req]. split; [by exists h1, l1|constructor]. }
  destruct (upstream_answer rt wl (st_tr s) req) as [resp|e] eqn:Ea; [|apply Hret].
  destruct (Z.eqb_spec (rs_status resp) 401) as [E401|]; [cbn [negb]|apply Hret].
  destruct (rt_credential (r_spec rt)) as [cred|] eqn:Ec; [|apply Hret].
  destruct (renewable (Some cred) doc) eqn:Er; [|apply Hret].
  assert (is_Some (cf_renewer cf)) as Hrn.
  { unfold renewable in Er. destruct (cf_renewer cf); [eauto|done]. }
  set (retry := renew_and_retry now rt wl doc cred secrets req resp).
  assert (forall body, (up_body req = None /\ body = None \/ exists hb, held = Some hb /\ is_Some (complete hb) /\ body = complete hb) ->
    exists resp secrets' evs,
    (exists h l, retry body (MkSt h1 l1 (st_tr s ++ [EvUpstream req]))
       = (Ok (resp, secrets'), MkSt h l (st_tr s ++ evs)) /\ a_check l = a_check (st_a s)) /\
    round rt wl doc held secrets req (st_tr s) evs secrets') as Hretry.
  { intros body Hbody. subst retry. unfold renew_and_retry.
    destruct (renewed_goes_on now cred wl doc (MkSt h1 l1 (st_tr s ++ [EvUpstream req])) Hrn) as (o & e & (h2 & l2 & H2 & Hl2) & He).
    cbn [st_h st_a st_tr] in H2, Hl2. rewrite (bind_run _ _ _ _ _ H2), <- app_assoc. cbn [app].
    destruct o as [fresh|].
    2:{ exists (Ok resp), secrets, [EvUpstream req; e]. split; [exists h2, l2; split; [done|congruence]|]. by eapply round_renewed. }
    destruct (credentialValue order cred fresh) as [value|] eqn:Ev.
    2:{ exists (Ok resp), secrets, [EvUpstream req; e]. split; [|by eapply round_renewed].
        eexists _, _. split; [reflexivity|]. cbn [st_a a_check set_renew]. congruence. }
    destruct (send_goes_on rt wl (retry_of (inject_of (r_spec rt)) req value body)
      (MkSt h2 (set_renew (lit "retried") l2) (st_tr s ++ [EvUpstream req; e]))) as (h3 & l3 & H3 & Hl3).
    unfold bind, audit. cbn [st_h st_a st_tr]. rewrite H3. cbn [st_tr]. rewrite <- app_assoc. cbn [app].
    eexists _, _, _. split; [eexists _, _; split; [reflexivity|cbn [st_a a_check set_renew] in *; congruence]|]. by eapply round_retried. }
  clearbody retry. destruct (up_body req) as [b|] eqn:Eb; [|apply Hretry; by left].
  destruct held as [hb|]; [|apply Hret]. destruct (complete hb) as [replay|] eqn:Ep.
  - apply Hretry. right. exists hb. rewrite Ep. eauto.
  - exists (Ok resp), secrets, [EvUpstream req]. split; [|constructor]. eexists _, _. split; [reflexivity|done].
Qed.

(** Steps that end the request: a refusal has its check, and any other answer
    leaves the check as it was. *)
Definition ends {A} (m : M A) (s : st) (evs : trace) (a : answer) : Prop :=
  exists h l, m s = (Err a, MkSt h l (st_tr s ++ evs)) /\
    if is_refusal a then a_check l <> [] else a_check l = a_check (st_a s).

Lemma refuse_ends {A} check status msg s :
  check <> [] -> ends (A := A) (refuse check status msg) s [] (Refused status [] (msg ++ [zb 10])).
Proof.
  intros Hc. exists (st_h s), (set_check check (st_a s)). split; [|done].
  unfold refuse, bind, audit, answer_with. by rewrite app_nil_r.
Qed.

Lemma bind_ends {A B} (m : M A) (f : A -> M B) s a evs evs' b :
  goes_on m s a evs ->
  (forall h l, a_check l = a_check (st_a s) -> ends (f a) (MkSt h l (st_tr s ++ evs)) evs' b) ->
  ends (bind m f) s (evs ++ evs') b.
Proof.
  intros (h & l & Hm & Hl) Hf. destruct (Hf h l Hl) as (h' & l' & H & Hc). exists h', l'.
  rewrite (bind_run _ _ _ _ _ Hm), H. cbn [st_tr st_a] in *. rewrite <- app_assoc. split; [done|].
  destruct (is_refusal b); congruence.
Qed.

(** The response of the upstream as the guest gets it. *)
Definition proxied (secrets : list gostr) (resp : response) : answer :=
  Proxied (rs_status resp) (response_headers secrets (removeHopByHopHeaders (rs_header resp)))
    ((fun src => newRedactor src secrets) <$> rs_body resp) (drop_holding secrets (rs_trailer resp)).

Lemma respond_ends {A} route secrets resp :
  exists a, (forall s, ends (A := A) (respond route secrets resp) s [] a) /\
    (is_refusal a = true \/ a = proxied secrets resp).
Proof.
  unfold respond. case_if; [eexists; split; [intros s; by apply refuse_ends|by left]|].
  destruct (rs_status resp =? 101); [eexists; split; [intros s; by apply refuse_ends|by left]|].
  exists (proxied secrets resp). split; [|by right]. intros s. exists (st_h s), (st_a s). split; [|done].
  unfold answer_with. rewrite app_nil_r. by destruct s.
Qed.

Lemma upstreamError_ends {A} route e :
  exists a, (forall s, ends (A := A) (upstreamError route e) s [] a) /\ is_refusal a = true.
Proof.
  destruct e; (eexists; split; [intros s; apply refuse_ends; first [discriminate|apply tls_check_text_some]|done]).
Qed.

Lemma forward_ends now r p rt u token wl doc value held s :
  exists a evs secrets', ends (forward now r p rt u token wl doc value held) s evs a /\
    round rt wl doc (fst <$> held) (addSecret (inject_of (r_spec rt)) value [])
      (upstream_of r p rt u token value held) (st_tr s) evs secrets' /\
    (is_refusal a = true \/ exists resp, a = proxied secrets' resp).
Proof.
  destruct (RoundTrip_goes_on now rt wl doc (fst <$> held) (addSecret (inject_of (r_spec rt)) value [])
    (upstream_of r p rt u token value held)
    (MkSt (st_h s) (set_dropped (dropped_header (inject_of (r_spec rt)) (hr_header r) token).2 (st_a s)) (st_tr s)))
    as (resp & secrets' & evs & Hgo & Hround).
  assert (exists a, (forall s,
      ends (A := unit)
        match resp with Err e => upstreamError (p_route p) e | Ok resp => respond (p_route p) secrets' resp end s [] a) /\ (is_refusal a = true \/ exists resp, a = proxied secrets' resp)) as (a & Ha & Hk).
  { destruct resp as [resp|e].
    - destruct (respond_ends (A := unit) (p_route p) secrets' resp) as (a & Ha & [Hr|Hr]); eauto.
    - destruct (upstreamError_ends (A := unit) (p_route p) e) as (a & Ha & Hr); eauto. }
  exists a, evs, secrets'. split_and!; [|done|done].
  destruct Hgo as (h & l & Hm & Hl). destruct (Ha (MkSt h l (st_tr s ++ evs))) as (h' & l' & He & Hc). exists h', l'.
  unfold forward. erewrite bind_run by reflexivity. rewrite (bind_run _ _ _ _ _ Hm). cbv beta iota. cbn [st_tr st_a] in *. rewrite He.
  cbn [st_tr st_a] in *. rewrite app_nil_r. split; [done|]. destruct (is_refusal a); [done|]. by rewrite Hc, Hl.
Qed.

(** What is asked for the credential of a route, before anything goes
    upstream. *)
Inductive credential_phase (p : routePath) (rt : route) (wl : workload) : trace -> gostr -> Prop :=
  | phase_none : rt_credential (r_spec rt) = None -> credential_phase p rt wl [] []
  | phase_resolve cred doc :
      rt_credential (r_spec rt) = Some cred ->
      credential_phase p rt wl [EvResolve (sr_name (cd_secretRef cred)) wl] doc
  | phase_vend cred doc :
      rt_credential (r_spec rt) = Some cred -> Vends (r_spec rt) = true ->
      credential_phase p rt wl [EvResolve (sr_name (cd_secretRef cred)) wl; EvVend (p_sandbox p) (p_route p) doc] doc
  | phase_mint cred doc :
      rt_credential (r_spec rt) = Some cred -> Vends (r_spec rt) = false -> mints doc = true -> is_Some (r_services rt) ->
      credential_phase p rt wl [EvResolve (sr_name (cd_secretRef cred)) wl; EvMint (p_sandbox p) (p_route p) doc] doc.

(** How a request that passed its checks ends. *)
Inductive outcome (r : http_request) (p out : routePath) (rt : route) (upstream : option url) (token : gostr)
    (wl : workload) (held : option (heldBody * answers)) : trace -> answer -> Prop :=
  | outcome_refused evs doc a :
      credential_phase p rt wl evs doc -> is_refusal a = true -> outcome r p out rt upstream token wl held evs a
  | outcome_vended evs doc c :
      credential_phase p rt wl evs doc -> Vends (r_spec rt) = true ->
      outcome r p out rt upstream token wl held evs (Vended (vend_body c))
  | outcome_forwarded evs doc value u evs' secrets a :
      credential_phase p rt wl evs doc -> upstream = Some u ->
      (is_Some (rt_credential (r_spec rt)) -> Vends (r_spec rt) = false) ->
      round rt wl doc (fst <$> held) (addSecret (inject_of (r_spec rt)) value [])
        (upstream_of r out rt u token value held) evs evs' secrets ->
      (is_refusal a = true \/ exists resp, a = proxied secrets resp) ->
      outcome r p out rt upstream token wl held (evs ++ evs') a.

Lemma ask_goes_on {A} e (f : trace -> A) s : goes_on (ask e f) s (f (st_tr s)) [e].
Proof. unfold goes_on, ask. eauto. Qed.

Lemma go_ends ck r out rt upstream token wl held doc value s :
  exists a evs, ends match upstream with
    | Some u => forward (ck_renew ck) r out rt u token wl doc value held
    | None => refuse (lit "panic") 500 (lit "brig broker: internal error")
    end s evs a /\
    match upstream with
    | Some u => exists secrets', round rt wl doc (fst <$> held) (addSecret (inject_of (r_spec rt)) value [])
        (upstream_of r out rt u token value held) (st_tr s) evs secrets' /\
        (is_refusal a = true \/ exists resp, a = proxied secrets' resp)
    | None => evs = [] /\ is_refusal a = true
    end.
Proof.
  destruct upstream as [u|].
  - destruct (forward_ends (ck_renew ck) r out rt u token wl doc value held s) as (a & evs & sec & H1 & H2 & H3). eauto 10.
  - eexists _, []. split; [by apply refuse_ends|done].
Qed.

Lemma ends_run {A B} (m : M A) (f : A -> M B) s a s1 evs evs' b :
  m s = (Ok a, s1) -> st_tr s1 = st_tr s ++ evs -> a_check (st_a s1) = a_check (st_a s) ->
  ends (f a) s1 evs' b -> ends (bind m f) s (evs ++ evs') b.
Proof.
  intros Hm Ht Hl (h & l & H & Hc). exists h, l. rewrite (bind_run _ _ _ _ _ Hm), H, Ht, <- app_assoc.
  split; [done|]. destruct (is_refusal b); congruence.
Qed.

Lemma vend_ends p doc s :
  (exists status hs body, ends (A := unit) (vend p doc) s [] (Refused status hs body)) \/
  (exists status hs body, ends (A := unit) (vend p doc) s [EvVend (p_sandbox p) (p_route p) doc] (Refused status hs body)) \/
  (exists c, ends (A := unit) (vend p doc) s [EvVend (p_sandbox p) (p_route p) doc] (Vended (vend_body c))).
Proof.
  unfold vend. destruct (cf_vendor cf) as [v|].
  2:{ left. eexists _, _, _. by apply refuse_ends. }
  right. destruct (ask_goes_on (EvVend (p_sandbox p) (p_route p) doc) (fun tr => v tr (p_sandbox p) (p_route p) doc) s)
    as (h & l & Hm & Hl).
  destruct (v (st_tr s) (p_sandbox p) (p_route p) doc) as [c|[m|]].
  - right. exists c. eapply (ends_run _ _ _ _ _ [_] [] _ Hm); [done|done|].
    unfold ends, bind, audit, answer_with. cbn [st_tr st_h st_a is_refusal]. rewrite app_nil_r. eauto.
  - left. eexists _, _, _. eapply (ends_run _ _ _ _ _ [_] [] _ Hm); [done|done|]. by apply refuse_ends.
  - left. eexists _, _, _. eapply (ends_run _ _ _ _ _ [_] [] _ Hm); [done|done|]. by apply refuse_ends.
Qed.

Lemma credential_goes_on p rt cred doc s :
  (exists v, goes_on (credential p rt cred doc) s v []) \/
  (mints doc = true /\ is_Some (r_services rt) /\
   exists v, goes_on (credential p rt cred doc) s v [EvMint (p_sandbox p) (p_route p) doc]).
Proof.
  assert (forall v : res credential_error gostr, goes_on (ret v) s v []) as Hret.
  { intros v. exists (st_h s), (st_a s). rewrite app_nil_r. by destruct s. }
  unfold credential. destruct (mints doc); cbn [negb]; [|left; eauto].
  destruct (r_services rt) as [m|]; cbn [is_nil]; [|left; eauto]. right. split; [done|]. split; [eauto|].
  eexists. unfold goes_on, bind, ask, ret. eauto.
Qed.

Lemma credentialRefusal_ends p e s :
  exists status hs body, ends (A := unit) (credentialRefusal p e) s [] (Refused status hs body).
Proof. destruct e as [| |[m|]]; eexists _, _, _; by apply refuse_ends. Qed.

Lemma ends_outcome (m : M unit) s evs a : ends m s evs a -> st_tr s = [] -> exists h l, m s = (Err a, MkSt h l evs) /\
  if is_refusal a then a_check l <> [] else a_check l = a_check (st_a s).
Proof. intros (h & l & H & Hc) E. rewrite E in H. eauto. Qed.

Lemma use_credential_ends ck r p out rt upstream token wl held s :
  st_tr s = [] ->
  exists a evs, ends (use_credential ck r p out rt upstream token wl held) s evs a /\
    outcome r p out rt upstream token wl held evs a.
Proof.
  intros Htr. unfold use_credential. destruct (rt_credential (r_spec rt)) as [cred|] eqn:Ec.
  2:{ destruct (go_ends ck r out rt upstream token wl held [] [] s) as (a & evs & He & Ho).
      exists a, evs. split; [done|]. destruct upstream as [u|].
      - destruct Ho as (sec & Hround & Ha). rewrite Htr in Hround. rewrite <- (app_nil_l evs).
        eapply outcome_forwarded; [by apply phase_none|done|by rewrite Ec; intros [? ?]|done|done].
      - destruct Ho as [-> Ha]. by eapply outcome_refused; [apply phase_none|]. }
  set (name := sr_name (cd_secretRef cred)).
  destruct (ask_goes_on (EvResolve name wl) (fun tr => cf_resolve cf tr name wl) s) as (h & l & Hm & Hl).
  destruct (cf_resolve cf (st_tr s) name wl) as [doc|e].
  2:{ eexists _, [_]. split; [eapply (ends_run _ _ _ _ _ [_] [] _ Hm); [done|done|by apply refuse_ends]|].
      eapply outcome_refused; [by eapply (phase_resolve _ _ _ cred [])|done]. }
  set (s1 := MkSt h l (st_tr s ++ [EvResolve name wl])).
  assert (forall f evs a, ends (A := unit) (f (Ok doc)) s1 evs a ->
    ends (bind (ask (EvResolve name wl) (fun tr => cf_resolve cf tr name wl)) f) s (EvResolve name wl :: evs) a) as Hrun.
  { intros f evs a He. by apply (ends_run _ f _ _ _ [_] evs _ Hm). }
  destruct (Vends (r_spec rt)) eqn:Ev.
  { destruct (vend_ends p doc s1) as [(? & ? & ? & He)|[(? & ? & ? & He)|(c & He)]]; eexists _, _; (split; [apply Hrun, He|]).
    - eapply outcome_refused; [by eapply (phase_resolve _ _ _ cred doc)|done].
    - eapply outcome_refused; [by eapply (phase_vend _ _ _ cred doc)|done].
    - eapply outcome_vended; [by eapply (phase_vend _ _ _ cred doc)|done]. }
  destruct (match cf_vendDoc cf with Some f => f doc | None => false end) eqn:Evd.
  { eexists _, _. split; [apply Hrun; rewrite Evd; by apply refuse_ends|].
    eapply outcome_refused; [by eapply (phase_resolve _ _ _ cred doc)|done]. }
  assert (forall mintev v, goes_on (credential p rt cred doc) s1 v mintev ->
    credential_phase p rt wl (EvResolve name wl :: mintev) doc ->
    exists a evs, ends (bind (credential p rt cred doc) (fun v => match v with
      | Ok value => match upstream with
        | Some u => forward (ck_renew ck) r out rt u token wl doc value held
        | None => refuse (lit "panic") 500 (lit "brig broker: internal error")
        end
      | Err e => credentialRefusal p e end)) s1 evs a /\
      outcome r p out rt upstream token wl held (EvResolve name wl :: evs) a) as Hcred.
  { intros mintev v (h2 & l2 & Hm2 & Hl2) Hph. destruct v as [value|e].
    - destruct (go_ends ck r out rt upstream token wl held doc value (MkSt h2 l2 (st_tr s1 ++ mintev))) as (a & evs & He & Ho).
      exists a, (mintev ++ evs). split; [by apply (ends_run _ _ _ _ _ mintev evs _ Hm2)|].
      destruct upstream as [u|].
      + destruct Ho as (sec & Hround & Ha). change (EvResolve name wl :: mintev ++ evs) with ((EvResolve name wl :: mintev) ++ evs).
        eapply outcome_forwarded; [done|done|done| |done]. cbn [st_tr] in Hround. subst s1. cbn [st_tr] in Hround.
        by rewrite Htr in Hround.
      + destruct Ho as [-> Ha]. rewrite app_nil_r. by eapply outcome_refused.
    - destruct (credentialRefusal_ends p e (MkSt h2 l2 (st_tr s1 ++ mintev))) as (st & hs & body & He).
      eexists _, (mintev ++ []). split; [by apply (ends_run _ _ _ _ _ mintev [] _ Hm2)|]. rewrite app_nil_r.
      by eapply outcome_refused. }
  destruct (credential_goes_on p rt cred doc s1) as [[v Hgo]|(Hmint & Hsv & v & Hgo)].
  - destruct (Hcred _ _ Hgo) as (a & evs & He & Ho); [by apply (phase_resolve _ _ _ cred doc)|].
    exists a, (EvResolve name wl :: evs). split; [apply Hrun; by rewrite Evd|done].
  - destruct (Hcred _ _ Hgo) as (a & evs & He & Ho); [by apply (phase_mint _ _ _ cred doc)|].
    exists a, (EvResolve name wl :: evs). split; [apply Hrun; by rewrite Evd|done].
Qed.

(** ** The whole of a request *)

(** The request of a verified token that every check let through: [held] is its
    body, [u] its upstream and [out] the path that upstream gets. *)
Definition admitted (h : handler) (ck : clock) (grants : list bool) (r : http_request) (p : routePath) (sb : sandbox)
    (rt : route) (c : claims) (held : option (heldBody * answers)) (u : option url) (out : routePath) : Prop :=
  let token := sessionToken (r_spec rt) (hr_header r) in
  routed h r p sb rt /\
  verify hmac (sb_key sb) token (p_sandbox p) (p_route p) (ck_verify ck) = Ok c /\
  match hr_body r with
  | None => held = None
  | Some b => exists hb rest, held = Some (hb, rest) /\ holdBody (hr_contentLength r) grants b = Some (Held hb rest)
  end /\
  ck_scan ck < time_unix (c_exp c) /\
  (exists partial, findPlaceholder dec dec_read dec_left gzip_open zlib_open flate_open fuel
    (matcher_at (remember (sb_live sb) token (c_route c) (time_unix (c_exp c))) (ck_scan ck)).1
    (scanned_request r) p (r_spec rt) token (fst <$> held) = Some (None, partial, None)) /\
  ruled r p rt u out.

Lemma workloadID_some profile session : workloadID profile session <> [].
Proof. done. Qed.

Lemma stage_expiry (b : bool) rt : stage (if b then refuseToken (token_check errTokenExpired) rt else ret tt).
Proof. destruct b; [by apply stage_token|apply stage_ret]. Qed.

(** A request that ends in a stage asked nothing, and its refusal has its
    check. *)
Definition refused_early (a : answer) (s : st) : Prop :=
  st_tr s = [] /\ is_refusal a = true /\ a_check (st_a s) <> [].

Lemma serve_verified_cases ck grants r p sb rt token c s x s' :
  st_tr s = [] -> a_check (st_a s) = [] -> a_workload (st_a s) <> [] ->
  serve_verified ck grants r p sb rt token c s = (x, s') ->
  exists a, x = Err a /\ (refused_early a s' \/
    exists held u out,
      (match hr_body r with
       | None => held = None
       | Some b => exists hb rest, held = Some (hb, rest) /\ holdBody (hr_contentLength r) grants b = Some (Held hb rest)
       end) /\
      ck_scan ck < time_unix (c_exp c) /\
      (exists partial, findPlaceholder dec dec_read dec_left gzip_open zlib_open flate_open fuel
        (matcher_at (remember (sb_live sb) token (c_route c) (time_unix (c_exp c))) (ck_scan ck)).1
        (scanned_request r) p (r_spec rt) token (fst <$> held) = Some (None, partial, None)) /\
      ruled r p rt u out /\
      outcome r p out rt u token (workload_of sb (c_session c)) held (st_tr s') a /\
      if is_refusal a then a_check (st_a s') <> [] else a_check (st_a s') = []).
Proof.
  intros Htr Hck Hwl H. unfold serve_verified in H.
  assert (forall A (m : M A) s0 e s1, stage m -> m s0 = (Err e, s1) -> st_tr s0 = [] -> refused_early e s1) as Hearly.
  { intros A m s0 e s1 Hm He Ht. destruct (Hm _ _ _ He) as (E1 & _ & E2 & E3). unfold refused_early. rewrite E1. done. }
  assert (forall A (m : M A) s0 a s1, stage m -> m s0 = (Ok a, s1) -> st_tr s0 = [] -> a_check (st_a s0) = [] ->
    st_tr s1 = [] /\ a_check (st_a s1) = []) as Hon.
  { intros A m s0 a s1 Hm He Ht Hc. destruct (Hm _ _ _ He) as (E1 & _ & E2). by rewrite E1, E2. }
  apply bind_inv in H as [(e & H & ->)|([] & s1 & H1 & H)]; [by eexists; split; [|left; eapply (Hearly _ _ _ _ _ (stage_put_sandbox _))]|].
  apply (Hon _ _ _ _ _ (stage_put_sandbox _)) in H1 as [Ht1 Hc1]; [|done|done].
  apply bind_inv in H as [(e & H & ->)|(held & s2 & H2 & H)]; [by eexists; split; [|left; eapply (Hearly _ _ _ _ _ (stage_hold_body _ _))]|].
  pose proof (hold_body_ok _ _ _ _ _ H2) as [_ Hheld].
  apply (Hon _ _ _ _ _ (stage_hold_body _ _)) in H2 as [Ht2 Hc2]; [|done|done].
  apply bind_inv in H as [(e & H & ->)|([] & s3 & H3 & H)]; [by eexists; split; [|left; eapply (Hearly _ _ _ _ _ (stage_expiry _ _))]|].
  assert (ck_scan ck < time_unix (c_exp c)) as Hexp.
  { destruct (Z.ltb_spec (ck_scan ck) (time_unix (c_exp c))); [done|discriminate H3]. }
  apply (Hon _ _ _ _ _ (stage_expiry _ _)) in H3 as [Ht3 Hc3]; [|done|done].
  apply bind_inv in H as [(e & H & ->)|([] & s4 & H4 & H)];
    [by eexists; split; [|left; eapply (Hearly _ _ _ _ _ (stage_scan_request _ _ _ _ _ _ _))]|].
  pose proof (scan_request_ok _ _ _ _ _ _ _ _ _ H4) as Hscan. cbn [sb_live set_live] in Hscan.
  apply (Hon _ _ _ _ _ (stage_scan_request _ _ _ _ _ _ _)) in H4 as [Ht4 Hc4]; [|done|done].
  apply bind_inv in H as [(e & H & ->)|([u out] & s5 & H5 & H)];
    [by eexists; split; [|left; eapply (Hearly _ _ _ _ _ (stage_check_rules _ _ _))]|].
  pose proof (check_rules_ok _ _ _ _ _ _ _ H5) as Hruled.
  apply (Hon _ _ _ _ _ (stage_check_rules _ _ _)) in H5 as [Ht5 Hc5]; [|done|done].
  destruct (use_credential_ends ck r p out rt u token (workload_of sb (c_session c)) held s5 Ht5) as (a & evs & He & Ho).
  destruct He as (h' & l' & Hrun & Hcheck). rewrite Ht5 in Hrun. rewrite Hrun in H. injection H as <- <-.
  cbn [st_tr st_a app] in *. exists a. split; [done|]. right. exists held, u, out. split_and!; try done.
  rewrite Hc5 in Hcheck. done.
Qed.

(** A stage that leaves the handler as it was. *)
Definition still {A} (m : M A) : Prop := forall s x s', m s = (x, s') -> st_h s' = st_h s.

Lemma still_bind {A B} (m : M A) (f : A -> M B) : still m -> (forall a, still (f a)) -> still (bind m f).
Proof.
  intros Hm Hf s x s' [(e & H & _)|(a & s1 & H1 & H2)]%bind_inv; [by apply Hm in H|].
  apply Hm in H1. apply (Hf a) in H2. congruence.
Qed.

Lemma still_now {A} (m : M A) : (forall s, st_h (m s).2 = st_h s) -> still m.
Proof. intros H s x s' E. by rewrite <- (H s), E. Qed.

Lemma still_find_route r : still (find_route r).
Proof.
  unfold find_route. repeat first [apply still_bind; [|intros ?] | match goal with |- context [cf_arrival ?c ?x ?y] => destruct (cf_arrival c x y) end];
    apply still_now; intros s; unfold refuse_if, some_or; repeat case_match; done.
Qed.

Lemma still_check_token ck r p sb rt : still (check_token ck r p sb rt).
Proof. apply still_now. intros s. unfold check_token. repeat case_match; done. Qed.

(** How every request ends: refused before anything is asked, with the audit
    line of an unverified sender or not, or past all checks. *)
Lemma ServeHTTP_cases h ck grants r a s :
  ServeHTTP h ck grants r = (a, s) ->
  (refused_early a s /\ a_workload (st_a s) = [] /\ st_h s = h \/
   exists p sb rt c, routed h r p sb rt /\
     verify hmac (sb_key sb) (sessionToken (r_spec rt) (hr_header r)) (p_sandbox p) (p_route p) (ck_verify ck) = Ok c) /\
  (refused_early a s \/
   exists p sb rt c held u out, admitted h ck grants r p sb rt c held u out /\
     outcome r p out rt u (sessionToken (r_spec rt) (hr_header r)) (workload_of sb (c_session c)) held (st_tr s) a /\
     if is_refusal a then a_check (st_a s) <> [] else a_check (st_a s) = []).
Proof.
  unfold ServeHTTP. destruct (serve ck grants r _) as [x s'] eqn:E. unfold serve in E.
  apply bind_inv in E as [(e & H & ->)|([[p sb] rt] & s1 & H1 & E)].
  { pose proof (stage_find_route _ _ _ _ H) as (E1 & E2 & E3 & E4). intros [= <- <-].
    assert (refused_early e s') as He by (unfold refused_early; by rewrite E1). split; [left|by left].
    split_and!; [done|by rewrite E2|]. by apply still_find_route in H. }
  pose proof (stage_find_route _ _ _ _ H1) as (E1 & E2 & E3). apply find_route_ok in H1 as [Hr Hh].
  apply bind_inv in E as [(e & H & ->)|([token c] & s2 & H2 & E)].
  { pose proof (stage_check_token _ _ _ _ _ _ _ _ H) as (F1 & F2 & F3 & F4). intros [= <- <-].
    assert (refused_early e s') as He by (unfold refused_early; by rewrite F1, E1). split; [left|by left].
    split_and!; [done|by rewrite F2, E2|]. apply still_check_token in H. by rewrite H, Hh. }
  apply check_token_ok in H2 as (-> & Hv & ->). cbn [st_h] in *.
  erewrite bind_run in E by reflexivity.
  apply serve_verified_cases in E; [|exact E1|exact E3|apply workloadID_some]. destruct E
    as (a' & -> & Hcase). intros [= <- <-]. split; [right; by exists p, sb, rt, c|].
  destruct Hcase as [?|(held & u & out & Hheld & Hexp & Hscan & Hruled & Ho & Hc)]; [by left|].
  right. exists p, sb, rt, c, held, u, out. split; [|done]. by split_and!.
Qed.

(** ** What the trace of an outcome holds *)

Definition upstreams (tr : trace) : list upstream_request :=
  omap (fun e => match e with EvUpstream q => Some q | _ => None end) tr.

Lemma upstreams_app t1 t2 : upstreams (t1 ++ t2) = upstreams t1 ++ upstreams t2.
Proof. apply omap_app. Qed.

Lemma credential_phase_upstreams p rt wl evs doc : credential_phase p rt wl evs doc -> upstreams evs = [].
Proof. by destruct 1. Qed.

Lemma renew_event_upstreams cred wl doc e : renew_event cred wl doc e -> upstreams [e] = [].
Proof. by intros [-> | ->]. Qed.

Lemma addSecret_app i v l : addSecret i v l = l ++ addSecret i v [].
Proof. unfold addSecret. case_if; [by rewrite app_nil_r|done]. Qed.

(** The upstream requests of a round trip, with the values injected in them and
    the strings that are redacted. *)
Lemma round_upstreams rt wl doc held value req tr evs secrets :
  round rt wl doc held (addSecret (inject_of (r_spec rt)) value []) req tr evs secrets ->
  upstreams evs = [req] /\ secrets = addSecret (inject_of (r_spec rt)) value [] \/
  exists value' body, upstreams evs = [req; retry_of (inject_of (r_spec rt)) req value' body] /\
    secrets = addSecret (inject_of (r_spec rt)) value [] ++ addSecret (inject_of (r_spec rt)) value' [] /\
    (exists cred resp, rt_credential (r_spec rt) = Some cred /\ cd_lifecycle cred <> [] /\ mints doc = false /\
       upstream_answer rt wl tr req = Ok resp /\ rs_status resp = 401) /\
    (body = None /\ up_body req = None \/ exists hb, held = Some hb /\ is_Some (complete hb) /\ body = complete hb).
Proof.
  destruct 1 as [|cred resp e Hc Hr Ha Hs He|cred resp e fresh value' body Hc Hr Ha Hs He Hv Hb].
  - by left.
  - left. split; [|done]. destruct He as [-> | ->]; done.
  - right. exists value', body. split; [destruct He as [-> | ->]; done|]. split; [apply addSecret_app|].
    unfold renewable in Hr. apply andb_true_iff in Hr as [Hr Hm]. apply andb_true_iff in Hr as [_ Hl].
    bool_inv. split; [exists cred, resp; done|]. destruct Hb as [[? ->]|?]; [by left|by right].
Qed.

(** The header a request was sent with: [value] injected into [h0], and into
    the same header again on a retry. *)
Definition sent_with (i : Inject) (h0 : header) (q : upstream_request) (value : gostr) : Prop :=
  up_header q = upstream_header i (up_method q) h0 value \/
  exists first, up_header q = injectCredential i (upstream_header i (up_method q) h0 first) value.

(** What goes upstream for one guest request. *)
Lemma outcome_upstreams r p out rt u token wl held tr a :
  outcome r p out rt u token wl held tr a ->
  upstreams tr = [] /\ (forall st hd body trailer, a <> Proxied st hd body trailer) \/
  exists o value rest secrets,
    u = Some o /\ upstreams tr = upstream_of r out rt o token value held :: rest /\
    (is_refusal a = true \/ exists resp, a = proxied secrets resp) /\
    (rest = [] /\ secrets = addSecret (inject_of (r_spec rt)) value [] \/
     exists value' body, rest = [retry_of (inject_of (r_spec rt)) (upstream_of r out rt o token value held) value' body] /\
       secrets = addSecret (inject_of (r_spec rt)) value [] ++ addSecret (inject_of (r_spec rt)) value' []).
Proof.
  destruct 1 as [evs doc a Hph Ha|evs doc c Hph Hv|evs doc value o evs' secrets a Hph -> Hnv Hround Ha].
  - left. rewrite (credential_phase_upstreams _ _ _ _ _ Hph). split; [done|]. intros st hd body tr ->. done.
  - left. rewrite (credential_phase_upstreams _ _ _ _ _ Hph). split; done.
  - right. exists o, value. rewrite upstreams_app, (credential_phase_upstreams _ _ _ _ _ Hph). cbn [app].
    apply round_upstreams in Hround as [[-> ->]|(v' & body & -> & -> & _ & _)].
    + exists [], (addSecret (inject_of (r_spec rt)) value []). split_and!; [done|done|done|by left].
    + eexists _, _. split_and!; [done|reflexivity|exact Ha|]. right. by exists v', body.
Qed.

Lemma drop_holding_none (secrets : list gostr) (h : header) (name : gostr) (values : list gostr) (w v : gostr) :
  drop_holding secrets h !! name = Some values -> w ∈ secrets -> v ∈ values -> ~ occurs w v.
Proof.
  unfold drop_holding. intros [_ Hf]%map_lookup_filter_Some Hw Hv Ho. cbn in Hf.
  rewrite existsb_false, Forall_forall in Hf. specialize (Hf v Hv). unfold holdsAny in Hf.
  rewrite existsb_false, Forall_forall in Hf. specialize (Hf w Hw). by apply contains_false in Hf.
Qed.

Lemma response_headers_none (secrets : list gostr) (h : header) (name : gostr) (values : list gostr) (w v : gostr) :
  response_headers secrets h !! name = Some values -> w ∈ secrets -> v ∈ values -> ~ occurs w v.
Proof.
  unfold response_headers, h_del. intros [_ H]%lookup_delete_Some. by eapply drop_holding_none.
Qed.

(** ** Properties *)

(** C1: Nothing is asked of the secret store, the vendor, the minter or an
    upstream, and nothing but a refusal is answered, before every check has
    passed: no upgrade, a path that splits, an arrival the broker vouches for,
    a registered sandbox and route in endpoint mode, a token that verifies for
    both, a body within the budget, a token still valid after the body is in,
    no live token outside its carrier, a canonical path, and the rules of the
    route and of the service.  What is asked then is the credential of the
    route, for its own workload, and the round trip. *)
Theorem ServeHTTP_gate (h : handler) (ck : clock) (grants : list bool) (r : http_request) :
  let '(a, s) := ServeHTTP h ck grants r in
  st_tr s = [] /\ is_refusal a = true \/
  exists p sb rt c held u out, admitted h ck grants r p sb rt c held u out /\
    outcome r p out rt u (sessionToken (r_spec rt) (hr_header r)) (workload_of sb (c_session c)) held (st_tr s) a.
Proof.
  destruct (ServeHTTP h ck grants r) as [a s] eqn:E. apply ServeHTTP_cases in E as [_ E].
  destruct E as [(? & ? & _)|(p & sb & rt & c & held & u & out & Ha & Ho & _)]; [by left|].
  right. by exists p, sb, rt, c, held, u, out.
Qed.

(** A request is answered with a refusal exactly when its audit line names
    the check that refused it. *)
Lemma ServeHTTP_checks (h : handler) (ck : clock) (grants : list bool) (r : http_request) :
  let '(a, s) := ServeHTTP h ck grants r in is_refusal a = true <-> a_check (st_a s) <> [].
Proof.
  destruct (ServeHTTP h ck grants r) as [a s] eqn:E. apply ServeHTTP_cases in E as [_ E].
  destruct E as [(_ & Ha & Hc)|(p & sb & rt & c & held & u & out & _ & _ & Hc)]; [done|].
  destruct (is_refusal a); [done|]. rewrite Hc. done.
Qed.

(** A request whose token has not verified changes nothing in the handler,
    asks nothing, and writes an audit line of the method cut to 16 bytes, the
    status, the time, the check and the arrival: no path, sandbox, route or
    header of the sender. *)
Lemma ServeHTTP_unverified (h : handler) (ck : clock) (grants : list bool) (r : http_request)
    (range : gmap gostr nat -> list (gostr * nat)) (status dur : Z) :
  let '(a, s) := ServeHTTP h ck grants r in
  (st_h s = h /\ st_tr s = [] /\
   writeAudit range (st_a s) status dur =
     [(lit "method", AStr (clip (a_method (st_a s)) maxAuditMethod)); (lit "status", AInt status); (lit "dur", AInt dur)]
     ++ [(lit "check", AStr (a_check (st_a s)))] ++ str_attr (lit "arrived") (a_arrived (st_a s))) \/
  exists p sb rt c, routed h r p sb rt /\
    verify hmac (sb_key sb) (sessionToken (r_spec rt) (hr_header r)) (p_sandbox p) (p_route p) (ck_verify ck) = Ok c.
Proof.
  destruct (ServeHTTP h ck grants r) as [a s] eqn:E. apply ServeHTTP_cases in E as [E _].
  destruct E as [((Ht & _ & Hc) & Hw & Hh)|E]; [|by right]. left. split_and!; [done|done|].
  unfold writeAudit, str_attr. rewrite (bool_decide_eq_true_2 _ Hw), (bool_decide_eq_false_2 _ Hc). done.
Qed.

(** A guest request goes upstream at most twice, both times to the origin
    the route or the service of its path was registered with, with the guest's
    method and query and the path its rules were checked on. *)
Lemma ServeHTTP_upstream (h : handler) (ck : clock) (grants : list bool) (r : http_request) :
  let '(_, s) := ServeHTTP h ck grants r in
  (length (upstreams (st_tr s)) <= 2)%nat /\
  forall q, q ∈ upstreams (st_tr s) -> exists p sb rt c held u out,
    admitted h ck grants r p sb rt c held (Some u) out /\
    up_scheme q = u_scheme u /\ up_host q = u_host u /\ up_path q = p_rest out /\ up_rawPath q = p_escapedRest out /\
    up_method q = hr_method r /\ up_rawQuery q = u_rawQuery (hr_url r).
Proof.
  destruct (ServeHTTP h ck grants r) as [a s] eqn:E. apply ServeHTTP_cases in E as [_ E].
  destruct E as [(-> & _)|(p & sb & rt & c & held & u & out & Ha & Ho & _)].
  { cbn. split; [lia|]. intros q []%elem_of_nil. }
  apply outcome_upstreams in Ho as [[-> _]|(o & value & rest & secrets & -> & -> & _ & Hrest)].
  { cbn. split; [lia|]. intros q []%elem_of_nil. }
  destruct Hrest as [[-> _]|(v' & body & -> & _)]; (split; [cbn; lia|]); intros q Hq;
    exists p, sb, rt, c, held, o, out; (split; [done|]);
    rewrite ?elem_of_cons, elem_of_nil in Hq; naive_solver.
Qed.

(** What the injection of a value puts into a request: the value, and what the
    basic authentication of the route makes of it. *)
Definition injected_string (i : Inject) (value w : gostr) : Prop :=
  value <> [] /\
  (w = value \/ exists b, in_basicAuth i = Some b /\ w = std_encode (ba_username b ++ lit ":" ++ value)).

Lemma injected_registered i value w : injected_string i value w -> w ∈ addSecret i value [].
Proof.
  intros [Ne H]. unfold addSecret. rewrite bool_decide_eq_false_2 by done. destruct H as [->|(b & -> & ->)]; set_solver.
Qed.

Lemma std_encode_nonempty l : l <> [] -> std_encode l <> [].
Proof. unfold std_encode. destruct l as [|a [|b [|c l]]]; try done; intros _ E; apply (f_equal length) in E; vm_compute in E || cbn in E; done. Qed.

Lemma injected_not_nil i value w : injected_string i value w -> w <> [].
Proof. intros [Ne [->|(b & _ & ->)]]; [done|]. apply std_encode_nonempty. by destruct (ba_username b). Qed.

(** What a proxied response is redacted of. *)
Lemma proxied_redacted secrets resp status hd body trailer w :
  Proxied status hd body trailer = proxied secrets resp -> w ∈ secrets -> w <> [] ->
  (forall rd, body = Some rd -> w ∈ rd_secrets rd) /\
  (forall name vs v, hd !! name = Some vs -> v ∈ vs -> ~ occurs w v) /\
  (forall name vs v, trailer !! name = Some vs -> v ∈ vs -> ~ occurs w v).
Proof.
  intros [= -> -> -> ->] Hw Hne. split_and!.
  - intros rd (src & _ & ->)%fmap_Some. by apply newRedactor_secrets.
  - intros name vs v Hn Hv. by eapply response_headers_none.
  - intros name vs v Hn Hv. by eapply drop_holding_none.
Qed.

(** C2: The response the guest gets is redacted of what was injected into its
    upstream requests, the renewed credential included.  The guest's request
    reached one route of one sandbox; each upstream request carries the guest's
    own header, less what brig drops, with one value injected the way that route
    says; and each value that is not empty, and what the basic authentication of
    the route makes of it, is among the strings that the body is redacted of,
    and in no value of a header or a trailer. *)
Theorem ServeHTTP_redacted (h : handler) (ck : clock) (grants : list bool) (r : http_request) :
  let '(a, s) := ServeHTTP h ck grants r in
  forall status hd body trailer, a = Proxied status hd body trailer ->
  exists p sb rt values, routed h r p sb rt /\
    let i := inject_of (r_spec rt) in
    let h0 := (dropped_header i (hr_header r) (sessionToken (r_spec rt) (hr_header r))).1 in
    Forall2 (sent_with i h0) (upstreams (st_tr s)) values /\
    forall value w, value ∈ values -> injected_string i value w ->
      (forall rd, body = Some rd -> w ∈ rd_secrets rd) /\
      (forall name vs v, hd !! name = Some vs -> v ∈ vs -> ~ occurs w v) /\
      (forall name vs v, trailer !! name = Some vs -> v ∈ vs -> ~ occurs w v).
Proof.
  destruct (ServeHTTP h ck grants r) as [a s] eqn:E. apply ServeHTTP_cases in E as [_ E].
  intros status hd body trailer ->. destruct E as [(_ & [=] & _)|(p & sb & rt & c & held & u & out & [Hr _] & Ho & _)].
  apply outcome_upstreams in Ho as [[_ Hno]|(o & value & rest & secrets & _ & -> & Hp & Hrest)]; [by destruct (Hno status hd body trailer)|].
  destruct Hp as [[=]|(resp & Hp)]. exists p, sb, rt. set (i := inject_of (r_spec rt)) in *. set (token := sessionToken _ _) in *.
  pose proof (proxied_redacted secrets resp status hd body trailer) as Hall. specialize (fun w => Hall w Hp).
  destruct Hrest as [[-> ->]|(v' & b & -> & ->)].
  - exists [value]. split; [done|]. split; [apply Forall2_cons; split; [by left|constructor]|].
    intros v w ->%list_elem_of_singleton Hw. apply Hall; [by apply injected_registered|by eapply injected_not_nil].
  - exists [value; v']. split; [done|].
    split; [apply Forall2_cons; split; [by left|]; apply Forall2_cons; split; [right; by exists value|constructor]|].
    intros v w Hv Hw. pose proof (injected_not_nil _ _ _ Hw). apply injected_registered in Hw. apply Hall; [|done]. apply elem_of_app.
    rewrite !elem_of_cons, elem_of_nil in Hv. destruct Hv as [->|[->|[]]]; [by left|by right].
Qed.

(** The session token stays with the broker: in every upstream request the
    headers around the injected credential hold the token in no value, when the
    range over the guest's headers visits them all. *)
Lemma ServeHTTP_keeps_token (Hvisit : forall (h : header) name, is_Some (h !! name) -> name ∈ visit h)
    (h : handler) (ck : clock) (grants : list bool) (r : http_request) :
  let '(_, s) := ServeHTTP h ck grants r in
  forall q, q ∈ upstreams (st_tr s) -> exists p sb rt c value, routed h r p sb rt /\
    verify hmac (sb_key sb) (sessionToken (r_spec rt) (hr_header r)) (p_sandbox p) (p_route p) (ck_verify ck) = Ok c /\
    exists h0, sent_with (inject_of (r_spec rt)) h0 q value /\
      forall name vs, h0 !! name = Some vs -> Forall (fun v => ~ occurs (sessionToken (r_spec rt) (hr_header r)) v) vs.
Proof.
  destruct (ServeHTTP h ck grants r) as [a s] eqn:E. apply ServeHTTP_cases in E as [_ E]. intros q Hq.
  destruct E as [(Htr & _)|(p & sb & rt & c & held & u & out & (Hr & Hv & _) & Ho & _)].
  { rewrite Htr in Hq. by apply elem_of_nil in Hq. }
  cbv zeta in Hv. set (token := sessionToken _ _) in *. destruct (verify_no_comma _ _ _ _ _ _ _ Hv) as [Hne Hcomma].
  assert (forall name vs, (dropped_header (inject_of (r_spec rt)) (hr_header r) token).1 !! name = Some vs ->
    Forall (fun v => ~ occurs token v) vs) as Hfree.
  { intros name vs Hn. unfold dropped_header in Hn.
    destruct (dropGuestHeaders_ok _ _ _ _ (Hvisit _) Hcomma name vs Hn) as (_ & _ & Ht). by apply holds_token_false. }
  apply outcome_upstreams in Ho as [[Htr _]|(o & value & rest & secrets & -> & Htr & _ & Hrest)]; rewrite Htr in Hq.
  { by apply elem_of_nil in Hq. }
  apply elem_of_cons in Hq as [->|Hq].
  { exists p, sb, rt, c, value. split_and!; [done|done|]. eexists. split; [by left|exact Hfree]. }
  destruct Hrest as [[-> _]|(v' & b & -> & _)]; [by apply elem_of_nil in Hq|].
  apply list_elem_of_singleton in Hq as ->.
  exists p, sb, rt, c, v'. split_and!; [done|done|]. eexists. split; [right; by exists value|exact Hfree].
Qed.
End Serve.

(** ** A request, end to end *)

Definition api_route (mode : gostr) : RouteConfig :=
  MkRouteConfig (lit "p") (MkRoute (lit "anthropic") [] mode (lit "https://api.anthropic.com")
    (Some (MkCredentialRef (MkSecretRef (lit "key")) [] (lit "oauth")))
    (Some (MkInject (Some (MkHeaderInject (Some [MkHeader (lit "x-api-key") PlaceholderValue]) None None)) None None))
    None (Some (MkRequestPolicy (Some (MkRequestAllow (Some [lit "POST"]) (Some [lit "/v1/*"]) None)))) None false).

Definition api_handler : handler :=
  match AddSandbox example_hkdf (fun _ => false) empty_handler
          (MkSandboxConfig (lit "box") (lit "default") [api_route []] []) (lit "n") with
  | Ok h => h
  | Err _ => empty_handler
  end.

Definition api_token : gostr :=
  match Mint example_hmac api_handler 0 (lit "box") [] (lit "anthropic") DefaultTokenTTL with
  | Ok (tok, _) => tok
  | Err _ => []
  end.

Definition api_request (path : gostr) (body : gostr) : http_request :=
  MkHTTP (lit "POST") (MkURL [] false [] path [] false (lit "beta=1") []) (lit "127.0.0.1") (lit "127.0.0.1:9")
    ({[lit "X-Api-Key" := [api_token]; lit "X-Forwarded-For" := [lit "1.2.3.4"]]} : header) ∅
    (Z.of_nat (length body)) (Some [(body, None)]).

(** The store answers with another key each time, and the upstream refuses the
    first one; it reflects the key it got. *)
Definition api_config : Config :=
  MkConfig (fun _ _ _ => Ok (lit "sk-first")) (Some (fun _ _ _ _ => Some (lit "sk-second"))) None
    (fun _ _ _ _ => Err HostError) None None (fun _ _ => ([], true)) None
    (fun tr q => Ok (MkResponse (if (length tr <? 2)%nat then 401 else 200)
       ({[lit "X-Echo" := h_values (up_header q) (lit "X-Api-Key"); lit "Content-Type" := [lit "text/plain"]]} : header)
       (Some [(lit "ok", false)]) ∅))
    (fun _ _ _ _ => (None, Err SendOther)).

Definition api_serve (r : http_request) : answer * st :=
  ServeHTTP example_hmac (fun _ l => l) h_names api_config gostr plain_read (fun _ => 0%nat) plain_gzip (fun _ => None)
    (fun b => b) 3 api_handler (MkClock 1 2 3) [true] r.

(** The body, as its one chunk. *)
Definition api_summary (x : answer * st) : option (list gostr * gostr * gostr * list (gostr * list gostr)) :=
  match x.1 with
  | Proxied _ h (Some rd) _ =>
    Some (rd_secrets rd, a_renew (st_a x.2), a_check (st_a x.2), map_to_list h)
  | _ => None
  end.

Example api_retried :
  api_summary (api_serve (api_request (lit "/box/r/anthropic/v1/messages") (lit "hello")))
  = Some ([lit "sk-second"; lit "sk-first"], lit "retried", [], [(lit "Content-Type", [lit "text/plain"])]).
Proof. vm_compute. reflexivity. Qed.

Example api_refused_path :
  (api_serve (api_request (lit "/box/r/anthropic/v2/messages") (lit "hello"))).1
  = RuleRefused (lit "p") (lit "anthropic") (lit "spec.routes[anthropic].request.allow.paths")
      (AllowReason (NotInList (lit "/v2/messages") (lit "[/v1/*]"))) (lit "box").
Proof. vm_compute. reflexivity. Qed.

Example api_refused_body :
  status_of (api_serve (api_request (lit "/box/r/anthropic/v1/messages") (lit "key=" ++ api_token))).1 = 403.
Proof. vm_compute. reflexivity. Qed.

Example ServeHTTP_keeps_token_witness :
  length (upstreams (st_tr (api_serve (api_request (lit "/box/r/anthropic/v1/messages") (lit "hello"))).2)) = 2%nat /\
  let '(_, s) := api_serve (api_request (lit "/box/r/anthropic/v1/messages") (lit "hello")) in
  forall q, q ∈ upstreams (st_tr s) -> exists rt value, exists h0, sent_with (inject_of (r_spec rt)) h0 q value.
Proof.
  split; [vm_compute; reflexivity|].
  pose proof (ServeHTTP_keeps_token example_hmac (fun _ l => l) h_names api_config gostr plain_read (fun _ => 0%nat)
    plain_gzip (fun _ => None) (fun b => b) 3 (fun h name H => proj2 (elem_of_h_names h name) H)
    api_handler (MkClock 1 2 3) [true] (api_request (lit "/box/r/anthropic/v1/messages") (lit "hello"))) as H.
  unfold api_serve. destruct (ServeHTTP _ _ _ _ _ _ _ _ _ _ _ _ _ _ _) as [a s].
  intros q Hq. destruct (H q Hq) as (p & sb & rt & c & value & _ & _ & h0 & Hs & _). by exists rt, value, h0.
Defined.
