(* ===== verification/CredCache.v ===== *)
(** * Fetched credentials, per sandbox and route (internal/awscred/cache.go, internal/gcpcred/cache.go)

    The two caches of the broker are one algorithm with two margins: a call
    looks at the entry of its sandbox and route, serves what is held, or waits
    for the one fetch that runs, which goes on without its callers.  Calls,
    fetches, hang-ups and [Forget] interleave: every action below is one
    critical section, or one wake-up. *)

From stdpp Require Import prelude list strings gmap fin_maps.
From Stdlib Require Import ZArith Lia.
From S2P Require Import Prelude GoUnicode GoStrings.

Definition cache_key : Set := gostr * gostr.

Section Cache.
(** What is fetched, when it expires, what it is fetched for, and the errors of
    the host's command. *)
Context {C P Er : Type} `{EqDecision P}.
Variable expiry : C -> Z.

Record held_creds := MkHeld { he_creds : C; he_ptr : P; he_fetched : Z }.

(** [entry].  Its key is not a field in the source: an entry is made for one
    key, and the closures that use it carry that key. *)
Record cred_entry := MkEntry { en_key : cache_key; en_flight : option nat; en_held : option held_creds }.

(** [flight]: [fl_result] is [None] until [done] closes. *)
Record flight := MkFlight { fl_ptr : P; fl_entry : nat; fl_key : cache_key; fl_result : option (res Er C) }.

(** Where a call of [get] is, and how it ended: from what was held, at the time
    of the look; by a fetch; or with its context. *)
Inductive get_outcome :=
  | Served (c : C) (at_ fetched : Z)
  | Fetched (f : nat) (r : res Er C)
  | HungUp.
Inductive phase :=
  | Looking
  | Waiting (f : nat)
  | Returned (o : get_outcome).
Record call := MkCall { ca_key : cache_key; ca_ptr : P; ca_margin : Z; ca_entry : nat; ca_phase : phase }.

(** [Cache], with the entries and the flights there ever were, the calls, the
    clock, and the next number to hand out. *)
Record cache := MkCache {
  cc_map : gmap cache_key nat; cc_entries : gmap nat cred_entry; cc_flights : gmap nat flight; cc_calls : gmap nat call;
  cc_now : Z; cc_next : nat }.

Definition NewCache (now : Z) : cache := MkCache ∅ ∅ ∅ ∅ now 0.

(** [refetchFloor], in nanoseconds. *)
Definition refetchFloor : Z := (60 * 10 ^ 9)%Z.

(** [servable]. *)
Definition servable (h : held_creds) (now margin : Z) : bool :=
  let left := (expiry (he_creds h) - now)%Z in
  (margin <=? left)%Z || (((now - he_fetched h) <? refetchFloor)%Z && (0 <? left)%Z).

Inductive action :=
  | Call (k : cache_key) (p : P) (margin : Z)
  | Turn (t : nat)
  | Finish (f : nat) (r : res Er C)
  | Wake (t : nat)
  | HangUp (t : nat)
  | Forget (sandbox : gostr)
  | Clock (now : Z).

Definition set_call (c : cache) (t : nat) (ca : call) (ph : phase) : cache :=
  MkCache (cc_map c) (cc_entries c) (cc_flights c)
    (<[t := MkCall (ca_key ca) (ca_ptr ca) (ca_margin ca) (ca_entry ca) ph]> (cc_calls c)) (cc_now c) (cc_next c).

(** The head of [get]: the entry of the key, made where there is none. *)
Definition begin_call (c : cache) (k : cache_key) (p : P) (margin : Z) : cache :=
  match cc_map c !! k with
  | Some e => MkCache (cc_map c) (cc_entries c) (cc_flights c) (<[cc_next c := MkCall k p margin e Looking]> (cc_calls c)) (cc_now c) (S (cc_next c))
  | None =>
    let e := cc_next c in
    MkCache (<[k := e]> (cc_map c)) (<[e := MkEntry k None None]> (cc_entries c)) (cc_flights c)
      (<[S e := MkCall k p margin e Looking]> (cc_calls c)) (cc_now c) (S (S e))
  end.

(** A turn of the loop of [get] with the lock of the entry: serve, or wait for
    the fetch that runs, which is started where none does. *)
Definition get_turn (c : cache) (t : nat) (ca : call) (en : cred_entry) : cache :=
  let start :=
    let f := cc_next c in
    set_call (MkCache (cc_map c) (<[ca_entry ca := MkEntry (en_key en) (Some f) (en_held en)]> (cc_entries c))
      (<[f := MkFlight (ca_ptr ca) (ca_entry ca) (en_key en) None]> (cc_flights c)) (cc_calls c) (cc_now c) (S f)) t ca (Waiting f) in
  match en_flight en with
  | Some f => set_call c t ca (Waiting f)
  | None =>
    match en_held en with
    | Some h =>
      if bool_decide (he_ptr h = ca_ptr ca) && servable h (cc_now c) (ca_margin ca)
      then set_call c t ca (Returned (Served (he_creds h) (cc_now c) (he_fetched h)))
      else start
    | None => start
    end
  end.

(** The end of [fetch]. *)
Definition finish_fetch (c : cache) (f : nat) (fl : flight) (en : cred_entry) (r : res Er C) : cache :=
  let h := match r with Ok x => Some (MkHeld x (fl_ptr fl) (cc_now c)) | Err _ => None end in
  MkCache (cc_map c) (<[fl_entry fl := MkEntry (en_key en) None h]> (cc_entries c))
    (<[f := MkFlight (fl_ptr fl) (fl_entry fl) (fl_key fl) (Some r)]> (cc_flights c)) (cc_calls c) (cc_now c) (cc_next c).

(** What an action makes of the cache, where it can happen. *)
Definition cache_step (c : cache) (a : action) : option cache :=
  match a with
  | Call k p margin => Some (begin_call c k p margin)
  | Turn t =>
    match cc_calls c !! t with
    | Some ca => match ca_phase ca with
                 | Looking => get_turn c t ca <$> cc_entries c !! ca_entry ca
                 | _ => None
                 end
    | None => None
    end
  | Finish f r =>
    match cc_flights c !! f with
    | Some fl => match fl_result fl with
                 | None => (fun en => finish_fetch c f fl en r) <$> cc_entries c !! fl_entry fl
                 | Some _ => None
                 end
    | None => None
    end
  | Wake t =>
    match cc_calls c !! t with
    | Some ca =>
      match ca_phase ca with
      | Waiting f =>
        match cc_flights c !! f with
        | Some fl =>
          match fl_result fl with
          | Some r => Some (set_call c t ca (if bool_decide (fl_ptr fl = ca_ptr ca) then Returned (Fetched f r) else Looking))
          | None => None
          end
        | None => None
        end
      | _ => None
      end
    | None => None
    end
  | HangUp t =>
    match cc_calls c !! t with
    | Some ca => match ca_phase ca with Waiting _ => Some (set_call c t ca (Returned HungUp)) | _ => None end
    | None => None
    end
  | Forget sandbox =>
    Some (MkCache (filter (fun kv => kv.1.1 <> sandbox) (cc_map c)) (cc_entries c) (cc_flights c) (cc_calls c) (cc_now c) (cc_next c))
  | Clock now => Some (MkCache (cc_map c) (cc_entries c) (cc_flights c) (cc_calls c) now (cc_next c))
  end.

Fixpoint cache_run (c : cache) (l : list action) : option cache :=
  match l with
  | [] => Some c
  | a :: l' => match cache_step c a with Some c' => cache_run c' l' | None => None end
  end.

(** ** The invariant *)

(** Keys that are held were fetched for their pointer, at that entry. *)
Definition from_flight (c : cache) (e : nat) (k : cache_key) (p : P) (x : C) : Prop :=
  exists f fl, cc_flights c !! f = Some fl /\ fl_result fl = Some (Ok x) /\ fl_ptr fl = p /\ fl_entry fl = e /\ fl_key fl = k.

Definition entry_inv (c : cache) : Prop := forall e en, cc_entries c !! e = Some en ->
  (e < cc_next c)%nat /\
  (forall f, en_flight en = Some f -> exists fl, cc_flights c !! f = Some fl /\ fl_result fl = None /\ fl_entry fl = e) /\
  (forall h, en_held en = Some h -> from_flight c e (en_key en) (he_ptr h) (he_creds h)).

Definition flight_inv (c : cache) : Prop := forall f fl, cc_flights c !! f = Some fl ->
  (fl_entry fl < f < cc_next c)%nat /\
  exists en, cc_entries c !! fl_entry fl = Some en /\ en_key en = fl_key fl /\
    (fl_result fl = None -> en_flight en = Some f).

(** What is known of a call. *)
Definition call_ok (c : cache) (t : nat) (ca : call) : Prop :=
  (ca_entry ca < cc_next c /\ t < cc_next c)%nat /\
  (exists en, cc_entries c !! ca_entry ca = Some en /\ en_key en = ca_key ca) /\
  match ca_phase ca with
  | Looking | Returned HungUp => True
  | Waiting f => exists fl, cc_flights c !! f = Some fl /\ fl_entry fl = ca_entry ca
  | Returned (Served x now fetched) =>
    from_flight c (ca_entry ca) (ca_key ca) (ca_ptr ca) x /\ servable (MkHeld x (ca_ptr ca) fetched) now (ca_margin ca) = true
  | Returned (Fetched f r) => exists fl, cc_flights c !! f = Some fl /\ fl_result fl = Some r /\ fl_entry fl = ca_entry ca /\
                                fl_key fl = ca_key ca /\ fl_ptr fl = ca_ptr ca
  end.

Definition call_inv (c : cache) : Prop := forall t ca, cc_calls c !! t = Some ca -> call_ok c t ca.

Definition map_inv (c : cache) : Prop := forall k e, cc_map c !! k = Some e ->
  exists en, cc_entries c !! e = Some en /\ en_key en = k.

Definition cache_inv (c : cache) : Prop := entry_inv c /\ flight_inv c /\ call_inv c /\ map_inv c.

Lemma new_cache_inv now : cache_inv (NewCache now).
Proof. split; [|split; [|split]]; intros x y Hm; cbn in Hm; by rewrite lookup_empty in Hm. Qed.

(** What holds of a flight goes on to hold: it keeps its pointer and entry, and
    a result stays. *)
Definition flights_grow (c c' : cache) : Prop :=
  forall f fl, cc_flights c !! f = Some fl -> exists fl', cc_flights c' !! f = Some fl' /\
    fl_ptr fl' = fl_ptr fl /\ fl_entry fl' = fl_entry fl /\ fl_key fl' = fl_key fl /\
    (forall r, fl_result fl = Some r -> fl_result fl' = Some r).
Definition entries_grow (c c' : cache) : Prop :=
  forall e en, cc_entries c !! e = Some en -> exists en', cc_entries c' !! e = Some en' /\ en_key en' = en_key en.

Lemma from_flight_grow c c' e k p x : flights_grow c c' -> from_flight c e k p x -> from_flight c' e k p x.
Proof. intros H (f & fl & Hf & Hr & Hp & He & Hk). destruct (H _ _ Hf) as (fl' & Hf' & ? & ? & ? & Hr'). exists f, fl'. naive_solver. Qed.

Lemma call_ok_grow c c' t ca : flights_grow c c' -> entries_grow c c' -> (cc_next c <= cc_next c')%nat -> call_ok c t ca -> call_ok c' t ca.
Proof.
  intros Hf He Hn (Hlt & (en & Hen & Hk) & Hph). split; [lia|]. split.
  { destruct (He _ _ Hen) as (en' & H & H2). exists en'. split; [done|congruence]. }
  destruct (ca_phase ca) as [|f|[x now fetched|f r|]]; try done.
  - destruct Hph as (fl & H & E). destruct (Hf _ _ H) as (fl' & H' & _ & E' & _). exists fl'. split; [done|congruence].
  - destruct Hph as [H Hs]. split; [by eapply from_flight_grow|done].
  - destruct Hph as (fl & H & Hr & E & K & Hp). destruct (Hf _ _ H) as (fl' & H' & Hp' & E' & K' & Hr').
    exists fl'. split; [done|]. split; [auto|]. split; [congruence|]. split; congruence.
Qed.

Lemma grow_refl c : flights_grow c c /\ entries_grow c c.
Proof. split; [intros f fl H; exists fl; eauto|intros e en H; eauto]. Qed.

(** ** Each action keeps it *)

(** A call that changes its phase alone. *)
Lemma set_call_inv c t ca ph : cache_inv c -> cc_calls c !! t = Some ca ->
  call_ok c t (MkCall (ca_key ca) (ca_ptr ca) (ca_margin ca) (ca_entry ca) ph) -> cache_inv (set_call c t ca ph).
Proof.
  intros (HE & HF & HC & HM) Ht Hok. split; [exact HE|]. split; [exact HF|]. split; [|exact HM]. intros t' ca' H. cbn in H.
  destruct (decide (t = t')) as [<-|Hne].
  - rewrite lookup_insert_eq in H. injection H as <-. exact Hok.
  - rewrite lookup_insert_ne in H by done. exact (HC _ _ H).
Qed.

Lemma begin_call_inv c k p margin : cache_inv c -> cache_inv (begin_call c k p margin).
Proof.
  intros (HE & HF & HC & HM). unfold begin_call. destruct (cc_map c !! k) as [e|] eqn:Ek.
  - destruct (HM _ _ Ek) as (en & Hen & Hk). destruct (HE _ _ Hen) as (Hlt & Hx). split; [|split; [|split]].
    + intros e' en' H. destruct (HE _ _ H) as (H1 & H2 & H3). split; [cbn; lia|done].
    + intros f fl H. destruct (HF _ _ H) as (H1 & H2). split; [cbn; lia|done].
    + intros t ca H. cbn in H. destruct (decide (cc_next c = t)) as [<-|Hne].
      * rewrite lookup_insert_eq in H. injection H as <-. split; [cbn; lia|]. split; [by exists en|done].
      * rewrite lookup_insert_ne in H by done. eapply call_ok_grow; [apply (grow_refl c)|apply (grow_refl c)| |by apply HC]. cbn; lia.
    + exact HM.
  - set (e := cc_next c). assert (cc_entries c !! e = None) as Hfresh.
    { destruct (cc_entries c !! e) as [en|] eqn:E0; [|done]. destruct (HE _ _ E0) as [H _]. subst e. lia. }
    set (c' := MkCache _ _ _ _ _ _).
    assert (entries_grow c c') as Ge.
    { intros e' en H. exists en. split; [|done]. cbn. rewrite lookup_insert_ne; [done|]. intros ->. congruence. }
    assert (flights_grow c c') as Gf by (intros f fl H; exists fl; eauto).
    split; [|split; [|split]].
    + intros e' en H. cbn in H. destruct (decide (e = e')) as [<-|Hne].
      * rewrite lookup_insert_eq in H. injection H as <-. split; [cbn; lia|]. by split; intros ? [=].
      * rewrite lookup_insert_ne in H by done. destruct (HE _ _ H) as (H1 & H2 & H3). split; [cbn; lia|]. split; [exact H2|].
        intros h Hh. eapply from_flight_grow; [exact Gf|auto].
    + intros f fl H. destruct (HF _ _ H) as (H1 & en & H2 & H3). split; [cbn; lia|]. exists en. split; [|done].
      cbn. rewrite lookup_insert_ne; [done|]. intros E0. rewrite <- E0 in H2. congruence.
    + intros t ca H. cbn in H. destruct (decide (S e = t)) as [<-|Hne].
      * rewrite lookup_insert_eq in H. injection H as <-. split; [cbn; lia|]. split; [|done]. eexists. cbn. by rewrite lookup_insert_eq.
      * rewrite lookup_insert_ne in H by done. eapply call_ok_grow; [exact Gf|exact Ge| |by apply HC]. cbn; lia.
    + intros k' e' H. cbn in H. destruct (decide (k = k')) as [<-|Hne].
      * rewrite lookup_insert_eq in H. injection H as <-. eexists. cbn. by rewrite lookup_insert_eq.
      * rewrite lookup_insert_ne in H by done. destruct (HM _ _ H) as (en & H1 & H2). destruct (Ge _ _ H1) as (en' & H3 & H4).
        exists en'. split; [done|congruence].
Qed.

(** The cache with a fetch started at the entry of a call. *)
Definition with_flight (c : cache) (ca : call) (en : cred_entry) : cache :=
  MkCache (cc_map c) (<[ca_entry ca := MkEntry (en_key en) (Some (cc_next c)) (en_held en)]> (cc_entries c))
    (<[cc_next c := MkFlight (ca_ptr ca) (ca_entry ca) (en_key en) None]> (cc_flights c)) (cc_calls c) (cc_now c) (S (cc_next c)).

Lemma flight_fresh c : flight_inv c -> cc_flights c !! cc_next c = None.
Proof. intros HF. destruct (cc_flights c !! cc_next c) as [fl|] eqn:E0; [|done]. destruct (HF _ _ E0) as [H _]. lia. Qed.

Lemma with_flight_inv c t ca en : cache_inv c -> cc_calls c !! t = Some ca -> cc_entries c !! ca_entry ca = Some en ->
  en_flight en = None -> cache_inv (with_flight c ca en) /\ flights_grow c (with_flight c ca en) /\ entries_grow c (with_flight c ca en).
Proof.
  intros (HE & HF & HC & HM) Ht Hen Hno. pose proof (flight_fresh c HF) as Hfr. set (c' := with_flight c ca en).
  assert (flights_grow c c') as Gf.
  { intros f fl H. exists fl. split; [|done]. cbn. rewrite lookup_insert_ne; [done|]. intros E0. rewrite <- E0 in H. congruence. }
  assert (entries_grow c c') as Ge.
  { intros e en' H. cbn. destruct (decide (ca_entry ca = e)) as [<-|Hne].
    - rewrite Hen in H. injection H as <-. eexists. by rewrite lookup_insert_eq.
    - exists en'. by rewrite lookup_insert_ne. }
  destruct (HE _ _ Hen) as (Hlt & _ & Hheld). split; [|done]. split; [|split; [|split]].
  - intros e en' H. cbn in H. destruct (decide (ca_entry ca = e)) as [<-|Hne].
    + rewrite lookup_insert_eq in H. injection H as <-. split; [cbn; lia|]. split.
      * intros f [= <-]. eexists. cbn. by rewrite lookup_insert_eq.
      * intros h Hh. eapply from_flight_grow; [exact Gf|]. by apply Hheld.
    + rewrite lookup_insert_ne in H by done. destruct (HE _ _ H) as (H1 & H2 & H3). split; [cbn; lia|]. split.
      * intros f Hf. destruct (H2 _ Hf) as (fl & H4 & H5). exists fl. split; [|done]. cbn. rewrite lookup_insert_ne; [done|congruence].
      * intros h Hh. eapply from_flight_grow; [exact Gf|auto].
  - intros f fl H. cbn in H. destruct (decide (cc_next c = f)) as [<-|Hne].
    + rewrite lookup_insert_eq in H. injection H as <-. split; [cbn; lia|]. eexists. cbn. by rewrite lookup_insert_eq.
    + rewrite lookup_insert_ne in H by done. destruct (HF _ _ H) as (H1 & en' & H2 & H3 & H4). split; [cbn; lia|].
      destruct (decide (ca_entry ca = fl_entry fl)) as [E0|Hne'].
      * eexists. cbn. rewrite <- E0, lookup_insert_eq. split; [done|]. rewrite <- E0, Hen in H2. injection H2 as <-.
        split; [done|]. intros Hr. rewrite (H4 Hr) in Hno. done.
      * exists en'. cbn. rewrite lookup_insert_ne by done. done.
  - intros t' ca' H. eapply call_ok_grow; [exact Gf|exact Ge| |by apply HC]. cbn; lia.
  - intros k e H. destruct (HM _ _ H) as (en' & H1 & H2). destruct (Ge _ _ H1) as (en2 & H3 & H4). exists en2. split; [done|congruence].
Qed.

Lemma get_turn_inv c t ca en : cache_inv c -> cc_calls c !! t = Some ca -> cc_entries c !! ca_entry ca = Some en ->
  cache_inv (get_turn c t ca en).
Proof.
  intros H Ht Hen. pose proof H as (HE & HF & HC & HM). destruct (HC _ _ Ht) as (Hlt & (en0 & Hen0 & Hk) & _).
  rewrite Hen in Hen0. injection Hen0 as <-. destruct (HE _ _ Hen) as (_ & Hfl & Hheld).
  assert (en_flight en = None -> cache_inv (set_call (with_flight c ca en) t ca (Waiting (cc_next c)))) as Start.
  { intros Hno. destruct (with_flight_inv c t ca en H Ht Hen Hno) as (H' & Gf & Ge). apply set_call_inv; [exact H'|exact Ht|].
    split; [cbn; lia|]. split; [destruct (Ge _ _ Hen) as (en' & ? & ?); exists en'; split; [done|cbn; congruence]|]. cbn.
    eexists. by rewrite lookup_insert_eq. }
  unfold get_turn. destruct (en_flight en) as [f|] eqn:Ef.
  - apply set_call_inv; [done..|]. split; [done|]. split; [by exists en|]. destruct (Hfl f eq_refl) as (fl & ? & _ & ?). by exists fl.
  - destruct (en_held en) as [h|] eqn:Eh; [|rewrite <- Eh; by apply Start].
    case_bool_decide as Hp; cbn [andb]; [|rewrite <- Eh; by apply Start].
    destruct (servable h (cc_now c) (ca_margin ca)) eqn:Es; [|rewrite <- Eh; by apply Start].
    apply set_call_inv; [done..|]. split; [done|]. split; [by exists en|]. cbn. rewrite <- Hk, <- Hp. split; [by apply Hheld|by destruct h].
Qed.

Lemma finish_inv c f fl en r : cache_inv c -> cc_flights c !! f = Some fl -> fl_result fl = None ->
  cc_entries c !! fl_entry fl = Some en -> cache_inv (finish_fetch c f fl en r).
Proof.
  intros (HE & HF & HC & HM) Hf Hr Hen. destruct (HF _ _ Hf) as (Hlt & en0 & Hen0 & Hk & Hmine). rewrite Hen in Hen0. injection Hen0 as <-.
  specialize (Hmine Hr). set (c' := finish_fetch c f fl en r).
  assert (flights_grow c c') as Gf.
  { intros g gl Hg. cbn. destruct (decide (f = g)) as [<-|Hne].
    - rewrite Hf in Hg. injection Hg as <-. eexists. rewrite lookup_insert_eq. split; [done|]. do 3 (split; [done|]). intros r' Hr'. congruence.
    - exists gl. by rewrite lookup_insert_ne. }
  assert (entries_grow c c') as Ge.
  { intros e en' He. cbn. destruct (decide (fl_entry fl = e)) as [<-|Hne].
    - rewrite Hen in He. injection He as <-. eexists. by rewrite lookup_insert_eq.
    - exists en'. by rewrite lookup_insert_ne. }
  split; [|split; [|split]].
  - intros e en' He. cbn in He. destruct (decide (fl_entry fl = e)) as [<-|Hne].
    + rewrite lookup_insert_eq in He. injection He as <-. split; [cbn; lia|]. split; [by intros g [=]|].
      intros h Hh. cbn [en_held] in Hh. destruct r as [x|]; [|done]. injection Hh as <-. exists f. eexists. cbn. rewrite lookup_insert_eq. done.
    + rewrite lookup_insert_ne in He by done. destruct (HE _ _ He) as (H1 & H2 & H3). split; [exact H1|]. split.
      * intros g Hg. destruct (H2 _ Hg) as (gl & H4 & H5 & H6). exists gl. cbn. rewrite lookup_insert_ne; [done|congruence].
      * intros h Hh. eapply from_flight_grow; [exact Gf|auto].
  - intros g gl Hg. cbn in Hg. destruct (decide (f = g)) as [<-|Hne].
    + rewrite lookup_insert_eq in Hg. injection Hg as <-. split; [exact Hlt|]. eexists. cbn. by rewrite lookup_insert_eq.
    + rewrite lookup_insert_ne in Hg by done. destruct (HF _ _ Hg) as (H1 & en' & H2 & H3 & H4). split; [exact H1|]. cbn.
      destruct (decide (fl_entry fl = fl_entry gl)) as [E0|Hne'].
      * rewrite <- E0, Hen in H2. injection H2 as <-. eexists. rewrite <- E0, lookup_insert_eq. split; [done|]. split; [done|].
        intros Hr'. specialize (H4 Hr'). congruence.
      * exists en'. by rewrite lookup_insert_ne.
  - intros t ca Ht. eapply call_ok_grow; [exact Gf|exact Ge|done|by apply HC].
  - intros k e Hm. destruct (HM _ _ Hm) as (en' & H1 & H2). destruct (Ge _ _ H1) as (en2 & H3 & H4). exists en2. split; [done|congruence].
Qed.

Lemma step_inv c a c' : cache_inv c -> cache_step c a = Some c' -> cache_inv c'.
Proof.
  intros H Hs. destruct a as [k p m|t|f r|t|t|s|now]; cbn [cache_step] in Hs.
  - injection Hs as <-. by apply begin_call_inv.
  - destruct (cc_calls c !! t) as [ca|] eqn:Ht; [|done]. destruct (ca_phase ca) eqn:Ep; try done.
    destruct (cc_entries c !! ca_entry ca) as [en|] eqn:Hen; [|done]. injection Hs as <-. by apply get_turn_inv.
  - destruct (cc_flights c !! f) as [fl|] eqn:Hf; [|done]. destruct (fl_result fl) eqn:Hr; [done|].
    destruct (cc_entries c !! fl_entry fl) as [en|] eqn:Hen; [|done]. injection Hs as <-. by apply finish_inv.
  - destruct (cc_calls c !! t) as [ca|] eqn:Ht; [|done]. destruct (ca_phase ca) as [|f|] eqn:Ep; try done.
    destruct (cc_flights c !! f) as [fl|] eqn:Hf; [|done]. destruct (fl_result fl) as [r|] eqn:Hr; [|done]. injection Hs as <-.
    pose proof H as (HE & HF & HC & _). destruct (HC _ _ Ht) as (H1 & (en & H2 & H3) & H4). rewrite Ep in H4.
    destruct H4 as (fl0 & H4 & H5). rewrite Hf in H4. injection H4 as <-. apply set_call_inv; [done..|].
    split; [done|]. split; [by exists en|]. cbn. case_bool_decide as Hp; [|done]. exists fl. do 3 (split; [done|]). split; [|done].
    destruct (HF _ _ Hf) as (_ & en' & H6 & H7 & _). rewrite H5, H2 in H6. injection H6 as <-. congruence.
  - destruct (cc_calls c !! t) as [ca|] eqn:Ht; [|done]. destruct (ca_phase ca) as [|f|] eqn:Ep; try done. injection Hs as <-.
    pose proof H as (_ & _ & HC & _). destruct (HC _ _ Ht) as (H1 & H2 & _). apply set_call_inv; [done..|]. by split.
  - injection Hs as <-. destruct H as (HE & HF & HC & HM). split; [exact HE|]. split; [exact HF|]. split; [exact HC|].
    intros k e Hk. cbn in Hk. apply map_lookup_filter_Some in Hk as [Hk _]. exact (HM _ _ Hk).
  - by injection Hs as <-.
Qed.

Lemma run_inv l c c' : cache_inv c -> cache_run c l = Some c' -> cache_inv c'.
Proof.
  revert c. induction l as [|a l IH]; intros c H Hr; cbn in Hr; [by injection Hr as <-|].
  destruct (cache_step c a) as [c1|] eqn:E1; [|done]. eapply IH; [by eapply step_inv|exact Hr].
Qed.

(** ** When what is held arrived *)

Lemma run_app l1 l2 c : cache_run c (l1 ++ l2) = match cache_run c l1 with Some c' => cache_run c' l2 | None => None end.
Proof. revert c. induction l1 as [|a l1 IH]; intros c; [done|]. cbn. destruct (cache_step c a); [apply IH|done]. Qed.

Lemma finish_grow c f fl en r : cc_flights c !! f = Some fl -> fl_result fl = None -> flights_grow c (finish_fetch c f fl en r).
Proof.
  intros Hf Hr g gl Hg. cbn. destruct (decide (f = g)) as [<-|Hne].
  - rewrite Hf in Hg. injection Hg as <-. eexists. rewrite lookup_insert_eq. split; [done|]. do 3 (split; [done|]). intros r' Hr'. congruence.
  - exists gl. by rewrite lookup_insert_ne.
Qed.

(** The clock after some actions, from [now]. *)
Definition clock_after (now : Z) (l : list action) : Z :=
  foldl (fun t a => match a with Clock t' => t' | _ => t end) now l.

(** The fetch [f], for the key [k] and the pointer [p], ended with [x] when [l1]
    had happened, and [l2] came after. *)
Definition arrived (c : cache) (l1 l2 : list action) (k : cache_key) (p : P) (x : C) (l : list action) : Prop :=
  exists f fl, l = l1 ++ Finish f (Ok x) :: l2 /\ cc_flights c !! f = Some fl /\ fl_result fl = Some (Ok x) /\ fl_ptr fl = p /\ fl_key fl = k.

(** Keys in memory carry the time their fetch ended, and keys that were served
    from memory were looked at after that. *)
Definition timed (now : Z) (l : list action) (c : cache) : Prop :=
  cc_now c = clock_after now l /\
  (forall e en h, cc_entries c !! e = Some en -> en_held en = Some h ->
     exists l1 l2, arrived c l1 l2 (en_key en) (he_ptr h) (he_creds h) l /\ he_fetched h = clock_after now l1) /\
  (forall t ca x at_ fetched, cc_calls c !! t = Some ca -> ca_phase ca = Returned (Served x at_ fetched) ->
     exists l1 l2 l3, arrived c l1 (l2 ++ Turn t :: l3) (ca_key ca) (ca_ptr ca) x l /\
       fetched = clock_after now l1 /\ at_ = clock_after fetched l2).

Lemma arrived_grow c c' l1 l2 k p x l a :
  flights_grow c c' -> arrived c l1 l2 k p x l -> arrived c' l1 (l2 ++ [a]) k p x (l ++ [a]).
Proof.
  intros G (f & fl & -> & Hf & Hr & Hp & Hk). destruct (G _ _ Hf) as (fl' & Hf' & Hp' & _ & Hk' & Hr').
  exists f, fl'. split; [by rewrite <- app_assoc|]. split; [done|]. split; [auto|]. split; congruence.
Qed.

Lemma clock_after_app now l1 l2 : clock_after now (l1 ++ l2) = clock_after (clock_after now l1) l2.
Proof. apply foldl_app. Qed.

(** What an action adds: what it holds anew has just arrived, and what it
    serves from memory was held. *)
Lemma timed_step now l c a c' :
  timed now l c -> flights_grow c c' -> cc_now c' = clock_after (cc_now c) [a] ->
  (forall e en h, cc_entries c' !! e = Some en -> en_held en = Some h ->
     (exists en0, cc_entries c !! e = Some en0 /\ en_held en0 = Some h /\ en_key en0 = en_key en) \/
     (he_fetched h = cc_now c /\ exists f fl, a = Finish f (Ok (he_creds h)) /\ cc_flights c' !! f = Some fl /\
        fl_result fl = Some (Ok (he_creds h)) /\ fl_ptr fl = he_ptr h /\ fl_key fl = en_key en)) ->
  (forall t ca x at_ fetched, cc_calls c' !! t = Some ca -> ca_phase ca = Returned (Served x at_ fetched) ->
     cc_calls c !! t = Some ca \/
     (a = Turn t /\ at_ = cc_now c /\ exists e en h, cc_entries c !! e = Some en /\ en_held en = Some h /\
        he_creds h = x /\ he_ptr h = ca_ptr ca /\ en_key en = ca_key ca /\ fetched = he_fetched h)) ->
  timed now (l ++ [a]) c'.
Proof.
  intros (Tn & Th & Tc) G Hn Hh Hc. split; [by rewrite Hn, Tn, clock_after_app|]. split.
  - intros e en h He Hheld. destruct (Hh _ _ _ He Hheld) as [(en0 & H0 & H1 & H2)|(Ht & f & fl & -> & Hf & Hr & Hp & Hk)].
    + destruct (Th _ _ _ H0 H1) as (l1 & l2 & Ha & Hs). exists l1, (l2 ++ [a]). rewrite <- H2. split; [by eapply arrived_grow|done].
    + exists l, []. split; [by exists f, fl|congruence].
  - intros t ca x at_ fetched Ht Hp.
    destruct (Hc _ _ _ _ _ Ht Hp) as [H0|(-> & -> & e & en & h & He & Hheld & <- & Hptr & Hk & ->)].
    + destruct (Tc _ _ _ _ _ H0 Hp) as (l1 & l2 & l3 & Ha & Hs). exists l1, l2, (l3 ++ [a]). split; [|done].
      apply (arrived_grow _ _ _ _ _ _ _ _ a G) in Ha. by rewrite <- app_assoc in Ha.
    + destruct (Th _ _ _ He Hheld) as (l1 & l2 & Ha & Hs). exists l1, l2, []. rewrite <- Hptr, <- Hk.
      split; [by eapply arrived_grow|]. split; [done|]. rewrite Tn, Hs. destruct Ha as (f & fl & -> & _).
      by rewrite clock_after_app.
Qed.

Lemma set_call_timed now l c c1 t ca ph a :
  timed now l c -> flights_grow c c1 -> cc_now c1 = cc_now c -> clock_after (cc_now c) [a] = cc_now c -> cc_calls c1 = cc_calls c ->
  (forall e en h, cc_entries c1 !! e = Some en -> en_held en = Some h ->
     exists en0, cc_entries c !! e = Some en0 /\ en_held en0 = Some h /\ en_key en0 = en_key en) ->
  (forall x at_ fetched, ph <> Returned (Served x at_ fetched)) -> timed now (l ++ [a]) (set_call c1 t ca ph).
Proof.
  intros T G Hn Ha Hcalls Hh Hph. eapply timed_step; [exact T|exact G|cbn [set_call cc_now]; congruence| |].
  - intros e en h He Hheld. left. by eapply Hh.
  - intros t' ca' x at_ fetched Ht Hp. cbn [set_call cc_calls] in Ht. destruct (decide (t = t')) as [<-|Hne].
    + rewrite lookup_insert_eq in Ht. injection Ht as <-. by apply Hph in Hp.
    + rewrite lookup_insert_ne, Hcalls in Ht by done. by left.
Qed.

Lemma get_turn_timed now l c t ca en : cache_inv c -> timed now l c -> cc_calls c !! t = Some ca ->
  cc_entries c !! ca_entry ca = Some en -> timed now (l ++ [Turn t]) (get_turn c t ca en).
Proof.
  intros I T Ht Hen. pose proof I as (_ & _ & HC & _). destruct (HC _ _ Ht) as (_ & (en0 & Hen0 & Hk) & _).
  rewrite Hen in Hen0. injection Hen0 as <-.
  assert (en_flight en = None -> timed now (l ++ [Turn t]) (set_call (with_flight c ca en) t ca (Waiting (cc_next c)))) as Start.
  { intros Hno. destruct (with_flight_inv c t ca en I Ht Hen Hno) as (_ & Gf & _).
    apply (set_call_timed _ _ c); [exact T|exact Gf|done..| |done]. intros e en' h He Hh. cbn in He.
    destruct (decide (ca_entry ca = e)) as [<-|Hne].
    - rewrite lookup_insert_eq in He. injection He as <-. by exists en.
    - rewrite lookup_insert_ne in He by done. by exists en'. }
  assert (forall f, timed now (l ++ [Turn t]) (set_call c t ca (Waiting f))) as Wait.
  { intros f. apply (set_call_timed _ _ c); [exact T|exact (proj1 (grow_refl c))|done..| |done]. intros e en' h He Hh. by exists en'. }
  unfold get_turn. destruct (en_flight en) as [f|] eqn:Ef; [apply Wait|].
  destruct (en_held en) as [h|] eqn:Eh; [|rewrite <- Eh; by apply Start].
  case_bool_decide as Hp; cbn [andb]; [|rewrite <- Eh; by apply Start].
  destruct (servable h (cc_now c) (ca_margin ca)); [|rewrite <- Eh; by apply Start].
  eapply timed_step; [exact T|exact (proj1 (grow_refl c))|done|intros e en' h' He Hh; left; by exists en'|].
  intros t' ca' x at_ fetched Ht' Hph. cbn [set_call cc_calls] in Ht'. destruct (decide (t = t')) as [<-|Hne].
  - rewrite lookup_insert_eq in Ht'. injection Ht' as <-. cbn in Hph. injection Hph as <- <- <-. right.
    split; [done|]. split; [done|]. by exists (ca_entry ca), en, h.
  - rewrite lookup_insert_ne in Ht' by done. by left.
Qed.

Lemma finish_timed now l c f fl en r : cache_inv c -> timed now l c -> cc_flights c !! f = Some fl -> fl_result fl = None ->
  cc_entries c !! fl_entry fl = Some en -> timed now (l ++ [Finish f r]) (finish_fetch c f fl en r).
Proof.
  intros (_ & HF & _) T Hf Hr Hen. destruct (HF _ _ Hf) as (_ & en0 & Hen0 & Hk & _). rewrite Hen in Hen0. injection Hen0 as <-.
  eapply timed_step; [exact T|by apply finish_grow|done| |intros t ca x at_ fetched Ht _; by left].
  intros e en' h He Hh. cbn in He. destruct (decide (fl_entry fl = e)) as [<-|Hne].
  - rewrite lookup_insert_eq in He. injection He as <-. cbn in Hh. destruct r as [x|]; [|done]. injection Hh as <-. right.
    split; [done|]. exists f. eexists. split; [done|]. cbn. by rewrite lookup_insert_eq.
  - rewrite lookup_insert_ne in He by done. left. by exists en'.
Qed.

Lemma step_timed now l c a c' : cache_inv c -> timed now l c -> cache_step c a = Some c' -> timed now (l ++ [a]) c'.
Proof.
  intros I T Hs. pose proof I as (HE & HF & HC & HM). destruct a as [k p m|t|f r|t|t|s|now']; cbn [cache_step] in Hs.
  - injection Hs as <-. unfold begin_call. destruct (cc_map c !! k) as [e0|] eqn:Ek.
    + eapply timed_step; [exact T|exact (proj1 (grow_refl c))|done|intros e en h He Hh; left; by exists en|].
      intros t ca x at_ fetched Ht Hp. cbn in Ht. destruct (decide (cc_next c = t)) as [<-|Hne].
      * rewrite lookup_insert_eq in Ht. by injection Ht as <-.
      * rewrite lookup_insert_ne in Ht by done. by left.
    + eapply timed_step; [exact T|exact (proj1 (grow_refl c))|done| |].
      * intros e en h He Hh. cbn in He. destruct (decide (cc_next c = e)) as [<-|Hne].
        -- rewrite lookup_insert_eq in He. by injection He as <-.
        -- rewrite lookup_insert_ne in He by done. left. by exists en.
      * intros t ca x at_ fetched Ht Hp. cbn in Ht. destruct (decide (S (cc_next c) = t)) as [<-|Hne].
        -- rewrite lookup_insert_eq in Ht. by injection Ht as <-.
        -- rewrite lookup_insert_ne in Ht by done. by left.
  - destruct (cc_calls c !! t) as [ca|] eqn:Ht; [|done]. destruct (ca_phase ca) eqn:Ep; try done.
    destruct (cc_entries c !! ca_entry ca) as [en|] eqn:Hen; [|done]. injection Hs as <-. by apply get_turn_timed.
  - destruct (cc_flights c !! f) as [fl|] eqn:Hf; [|done]. destruct (fl_result fl) eqn:Hr; [done|].
    destruct (cc_entries c !! fl_entry fl) as [en|] eqn:Hen; [|done]. injection Hs as <-. by apply finish_timed.
  - destruct (cc_calls c !! t) as [ca|] eqn:Ht; [|done]. destruct (ca_phase ca) as [|f|] eqn:Ep; try done.
    destruct (cc_flights c !! f) as [fl|] eqn:Hf; [|done]. destruct (fl_result fl) as [r|] eqn:Hr; [|done]. injection Hs as <-.
    apply (set_call_timed _ _ c); [exact T|exact (proj1 (grow_refl c))|done..|intros e en h He Hh; by exists en|by case_bool_decide].
  - destruct (cc_calls c !! t) as [ca|] eqn:Ht; [|done]. destruct (ca_phase ca) as [|f|] eqn:Ep; try done. injection Hs as <-.
    apply (set_call_timed _ _ c); [exact T|exact (proj1 (grow_refl c))|done..|intros e en h He Hh; by exists en|done].
  - injection Hs as <-. eapply timed_step; [exact T|exact (proj1 (grow_refl c))|done|intros e en h He Hh; left; by exists en|by left].
  - injection Hs as <-. eapply timed_step; [exact T|exact (proj1 (grow_refl c))|done|intros e en h He Hh; left; by exists en|by left].
Qed.

Lemma run_timed now l c : cache_run (NewCache now) l = Some c -> timed now l c.
Proof.
  revert c. induction l as [|a l IH] using rev_ind; intros c H.
  { cbn in H. injection H as <-. split; [done|]. split; intros ? ? * Hm; cbn in Hm; by rewrite lookup_empty in Hm. }
  rewrite run_app in H. destruct (cache_run (NewCache now) l) as [c0|] eqn:E0; [|done]. cbn in H.
  destruct (cache_step c0 a) as [c1|] eqn:E1; [|done]. injection H as <-.
  eapply step_timed; [by eapply run_inv; [apply new_cache_inv|]|by apply IH|done].
Qed.

(** ** What a call is given *)

(** What was returned to a call, and by which way. *)
Definition given (ca : call) (x : C) : Prop :=
  (exists now fetched, ca_phase ca = Returned (Served x now fetched)) \/ (exists f, ca_phase ca = Returned (Fetched f (Ok x))).

(** C31: whatever calls, fetches, hang-ups and [Forget]s interleave, keys are
    given to a call only that were fetched for its sandbox, its route and its
    pointer; what is served from memory is what such a fetch ended with, and at
    the look has the margin left, or the fetch ended within the floor before the
    look and the keys have not expired; and at most one fetch of an entry
    runs. *)
Theorem cache_vends (l : list action) (now : Z) (c : cache) :
  cache_run (NewCache now) l = Some c ->
  (forall t ca x, cc_calls c !! t = Some ca -> given ca x ->
     exists f fl, cc_flights c !! f = Some fl /\ fl_result fl = Some (Ok x) /\ fl_ptr fl = ca_ptr ca /\ fl_key fl = ca_key ca) /\
  (forall t ca x at_ fetched, cc_calls c !! t = Some ca -> ca_phase ca = Returned (Served x at_ fetched) ->
     exists f fl l1 l2 l3, l = l1 ++ Finish f (Ok x) :: l2 ++ Turn t :: l3 /\
       cc_flights c !! f = Some fl /\ fl_ptr fl = ca_ptr ca /\ fl_key fl = ca_key ca /\
       let ended := clock_after now l1 in let looked := clock_after ended l2 in
       (ca_margin ca <= expiry x - looked)%Z \/ (looked - ended < refetchFloor /\ looked < expiry x)%Z) /\
  (forall f g fl gl, cc_flights c !! f = Some fl -> cc_flights c !! g = Some gl -> fl_result fl = None -> fl_result gl = None ->
     fl_entry fl = fl_entry gl -> f = g).
Proof.
  intros Hr. apply run_timed in Hr as Ht. destruct Ht as (_ & _ & HT).
  apply run_inv in Hr as (HE & HF & HC & HM); [|apply new_cache_inv]. split; [|split].
  - intros t ca x Ht Hg. destruct (HC _ _ Ht) as (_ & _ & Hph). destruct Hg as [(at_ & fetched & E0)|(f & E0)]; rewrite E0 in Hph.
    + destruct Hph as [(f & fl & ? & ? & ? & ? & ?) _]. by exists f, fl.
    + destruct Hph as (fl & ? & ? & ? & ? & ?). by exists f, fl.
  - intros t ca x at_ fetched Ht E0. destruct (HC _ _ Ht) as (_ & _ & Hph). rewrite E0 in Hph. destruct Hph as [_ Hs].
    destruct (HT _ _ _ _ _ Ht E0) as (l1 & l2 & l3 & (f & fl & -> & Hf & _ & Hp & Hk) & -> & ->).
    exists f, fl, l1, l2, l3. do 4 (split; [done|]). cbv zeta. unfold servable in Hs. cbn in Hs.
    apply orb_true_iff in Hs as [Hs|Hs]; [left; lia|right]. apply andb_true_iff in Hs. lia.
  - intros f g fl gl Hf Hg Rf Rg E0. destruct (HF _ _ Hf) as (_ & en & H1 & _ & H2). destruct (HF _ _ Hg) as (_ & en' & H3 & _ & H4).
    rewrite E0, H3 in H1. injection H1 as <-. specialize (H2 Rf). specialize (H4 Rg). congruence.
Qed.

(** ** [Forget] *)

(** What is held for a sandbox since the numbers from [n] on. *)
Definition since (n : nat) (s : gostr) (c : cache) : Prop :=
  (n <= cc_next c)%nat /\
  (forall k e, cc_map c !! k = Some e -> k.1 = s -> (n <= e)%nat) /\
  (forall t ca, cc_calls c !! t = Some ca -> (n <= t)%nat -> (ca_key ca).1 = s -> (n <= ca_entry ca)%nat).

Lemma set_call_since n s c t ca ph : cc_calls c !! t = Some ca -> since n s c -> since n s (set_call c t ca ph).
Proof.
  intros Ht (Hn & Hm & Hc). split; [done|]. split; [done|]. intros t' ca' H. cbn in H. destruct (decide (t = t')) as [<-|Hne].
  - rewrite lookup_insert_eq in H. injection H as <-. cbn. by apply Hc.
  - rewrite lookup_insert_ne in H by done. by apply Hc.
Qed.

Lemma begin_call_since n s c k p m : since n s c -> since n s (begin_call c k p m).
Proof.
  intros (Hn & Hm & Hc). unfold begin_call. destruct (cc_map c !! k) as [e|] eqn:Ek; (split; [cbn; lia|]); split.
  - exact Hm.
  - intros t ca H. cbn in H. destruct (decide (cc_next c = t)) as [<-|Hne].
    + rewrite lookup_insert_eq in H. injection H as <-. intros _ Hs. by apply (Hm k).
    + rewrite lookup_insert_ne in H by done. by apply Hc.
  - intros k' e H Hs. cbn in H. destruct (decide (k = k')) as [<-|Hne].
    + rewrite lookup_insert_eq in H. injection H as <-. done.
    + rewrite lookup_insert_ne in H by done. by eapply Hm.
  - intros t ca H. cbn in H. destruct (decide (S (cc_next c) = t)) as [<-|Hne].
    + rewrite lookup_insert_eq in H. injection H as <-. cbn. done.
    + rewrite lookup_insert_ne in H by done. by apply Hc.
Qed.

Lemma get_turn_since n s c t ca en : cc_calls c !! t = Some ca -> since n s c -> since n s (get_turn c t ca en).
Proof.
  intros Ht H. assert (since n s (set_call (with_flight c ca en) t ca (Waiting (cc_next c)))) as Hw.
  { apply set_call_since; [exact Ht|]. destruct H as (Hn & Hm & Hc). split; [cbn; lia|done]. }
  unfold get_turn. destruct (en_flight en); [by apply set_call_since|]. destruct (en_held en) as [h|] eqn:Eh; [|by rewrite <- Eh].
  destruct (bool_decide _ && servable _ _ _); [by apply set_call_since|by rewrite <- Eh].
Qed.

Lemma step_since n s c a c' : since n s c -> cache_step c a = Some c' -> since n s c'.
Proof.
  intros H Hs. destruct a as [k p m|t|f r|t|t|s'|now]; cbn [cache_step] in Hs.
  - injection Hs as <-. by apply begin_call_since.
  - destruct (cc_calls c !! t) as [ca|] eqn:Ht; [|done]. destruct (ca_phase ca); try done.
    destruct (cc_entries c !! ca_entry ca); [|done]. injection Hs as <-. by apply get_turn_since.
  - destruct (cc_flights c !! f) as [fl|]; [|done]. destruct (fl_result fl); [done|].
    destruct (cc_entries c !! fl_entry fl); [|done]. by injection Hs as <-.
  - destruct (cc_calls c !! t) as [ca|] eqn:Ht; [|done]. destruct (ca_phase ca) as [|f|]; try done.
    destruct (cc_flights c !! f) as [fl|]; [|done]. destruct (fl_result fl); [|done]. injection Hs as <-. by apply set_call_since.
  - destruct (cc_calls c !! t) as [ca|] eqn:Ht; [|done]. destruct (ca_phase ca); try done. injection Hs as <-. by apply set_call_since.
  - injection Hs as <-. destruct H as (Hn & Hm & Hc). split; [done|]. split; [|done]. intros k e Hk. cbn in Hk.
    apply map_lookup_filter_Some in Hk as [Hk _]. by eapply Hm.
  - by injection Hs as <-.
Qed.

Lemma run_since n s l c c' : since n s c -> cache_run c l = Some c' -> since n s c'.
Proof.
  revert c. induction l as [|a l IH]; intros c H Hr; cbn in Hr; [by injection Hr as <-|].
  destruct (cache_step c a) as [c1|] eqn:E1; [|done]. eapply IH; [by eapply step_since|exact Hr].
Qed.

(** A call that begins after its sandbox was forgotten is given nothing that was
    fetched, or was being fetched, before. *)
Lemma forgotten_keys (l1 l2 : list action) (now : Z) (s : gostr) (c1 c2 : cache) :
  cache_run (NewCache now) (l1 ++ [Forget s]) = Some c1 -> cache_run c1 l2 = Some c2 ->
  forall t ca x, cc_calls c2 !! t = Some ca -> (cc_next c1 <= t)%nat -> (ca_key ca).1 = s -> given ca x ->
  exists f fl, (cc_next c1 <= f)%nat /\ cc_flights c2 !! f = Some fl /\ fl_result fl = Some (Ok x).
Proof.
  intros H1 H2 t ca x Ht Hge Hs Hg. pose proof (run_inv _ _ _ (new_cache_inv now) H1) as I1. pose proof (run_inv _ _ _ I1 H2) as (_ & HF & HC & _).
  assert (since (cc_next c1) s c1) as S1.
  { rewrite run_app in H1. destruct (cache_run (NewCache now) l1) as [c|]; [|done]. cbn in H1. injection H1 as <-. split; [done|]. split.
    - intros k e Hk Hks. cbn in Hk. apply map_lookup_filter_Some in Hk as [_ Hk]. by destruct Hk.
    - intros t' ca' Ht' Hge'. destruct I1 as (_ & _ & HC1 & _). destruct (HC1 _ _ Ht') as ((_ & Hlt) & _). lia. }
  pose proof (run_since _ _ _ _ _ S1 H2) as (_ & _ & Hce). specialize (Hce _ _ Ht Hge Hs). destruct (HC _ _ Ht) as (_ & _ & Hph).
  destruct Hg as [(at_ & fetched & E0)|(f & E0)]; rewrite E0 in Hph.
  - destruct Hph as [(f & fl & Hf & Hr & _ & He & _) _]. exists f, fl. destruct (HF _ _ Hf) as ((H3 & _) & _). split; [lia|done].
  - destruct Hph as (fl & Hf & Hr & He & _ & _). exists f, fl. destruct (HF _ _ Hf) as ((H3 & _) & _). split; [lia|done].
Qed.

(** ** A call is never stuck *)

Lemma waiting_returns c t ca f fl (r : res Er C) : cache_inv c -> cc_calls c !! t = Some ca -> ca_phase ca = Waiting f ->
  cc_flights c !! f = Some fl -> fl_ptr fl = ca_ptr ca ->
  exists l c' ca', cache_run c l = Some c' /\ cc_calls c' !! t = Some ca' /\ (exists o, ca_phase ca' = Returned o) /\ (length l <= 2)%nat.
Proof.
  intros (HE & HF & HC & HM) Ht Hp Hf Hptr. destruct (HF _ _ Hf) as (_ & en & Hen & _ & _).
  destruct (fl_result fl) as [r0|] eqn:Hr.
  - exists [Wake t]. eexists _, _. cbn [cache_run cache_step]. rewrite Ht, Hp, Hf, Hr, bool_decide_true by done.
    split; [reflexivity|]. split; [cbn; by rewrite lookup_insert_eq|]. split; [by eexists|cbn; lia].
  - exists [Finish f r; Wake t]. eexists _, _. cbn [cache_run cache_step]. rewrite Hf, Hr, Hen. cbn [fmap option_fmap option_map].
    cbn [finish_fetch cc_calls cc_flights]. rewrite Ht, Hp, lookup_insert_eq. cbn [fl_result fl_ptr]. rewrite bool_decide_true by done.
    split; [reflexivity|]. split; [cbn; by rewrite lookup_insert_eq|]. split; [by eexists|cbn; lia].
Qed.
End Cache.

Arguments Call {C P Er} k p margin.
Arguments Turn {C P Er} t.
Arguments Finish {C P Er} f r.
Arguments Wake {C P Er} t.
Arguments HangUp {C P Er} t.
Arguments Forget {C P Er} sandbox.
Arguments Clock {C P Er} now.

(** ** The two caches

    [awscred] asks of what it holds twenty minutes for a guest and fifteen for
    a registration, [gcpcred] two for both. *)
Definition minute : Z := (60 * 10 ^ 9)%Z.
Definition getMargin : Z := (20 * minute)%Z.
Definition ensureMargin : Z := (15 * minute)%Z.
Definition gcp_margin : Z := (2 * minute)%Z.

Definition aws_Get {C P Er : Type} (sandbox route : gostr) (p : P) : @action C P Er := Call (sandbox, route) p getMargin.
Definition aws_Ensure {C P Er : Type} (sandbox route : gostr) (p : P) : @action C P Er := Call (sandbox, route) p ensureMargin.
Definition gcp_Get {C P Er : Type} (sandbox route : gostr) (p : P) : @action C P Er := Call (sandbox, route) p gcp_margin.

(** Two calls share a fetch, a third with another pointer waits for it and then
    fetches its own, and the first pointer is fetched again. *)
Definition demo_calls : list (@action Z bool unit) :=
  [aws_Get (lit "a") (lit "aws") true; Turn 1; aws_Ensure (lit "a") (lit "aws") true; Turn 3; aws_Get (lit "a") (lit "aws") false; Turn 4;
   Finish 2 (Ok (30 * minute)%Z); Wake 1; HangUp 3; Wake 4; Turn 4; Finish 5 (Ok (40 * minute)%Z); Wake 4;
   Clock (3 * minute)%Z; aws_Get (lit "a") (lit "aws") false; Turn 6; aws_Get (lit "a") (lit "aws") true; Turn 7].

Example demo_phases :
  (fun c => (fun tc => (tc.1, ca_phase tc.2)) <$> map_to_list (cc_calls c)) <$> cache_run (fun x : Z => x) (NewCache 0) demo_calls
  = Some [(6%nat, Returned (Served (40 * minute)%Z (3 * minute)%Z 0)); (4%nat, Returned (Fetched 5 (Ok (40 * minute)%Z)));
          (7%nat, Waiting 8); (3%nat, Returned HungUp); (1%nat, Returned (Fetched 2 (Ok (30 * minute)%Z)))].
Proof. vm_compute. reflexivity. Qed.

Definition demo_cache : @cache Z bool unit := default (NewCache 0) (cache_run (fun x : Z => x) (NewCache 0) demo_calls).

Lemma cache_vends_witness :
  exists ca f fl, cc_calls demo_cache !! 6%nat = Some ca /\ ca_ptr ca = false /\ cc_flights demo_cache !! f = Some fl /\
    fl_result fl = Some (Ok (40 * minute)%Z) /\ fl_ptr fl = ca_ptr ca /\ fl_key fl = ca_key ca.
Proof.
  assert (cache_run (fun x : Z => x) (NewCache 0) demo_calls = Some demo_cache) as R by (vm_compute; reflexivity).
  pose proof (cache_vends (fun x : Z => x) demo_calls 0 demo_cache R) as (V & _ & _).
  assert (exists ca, cc_calls demo_cache !! 6%nat = Some ca /\ ca_ptr ca = false /\ given ca (40 * minute)%Z) as (ca & Hc & Hp & Hg).
  { eexists. split; [vm_compute; reflexivity|]. split; [reflexivity|]. left. eexists _, _. reflexivity. }
  destruct (V _ _ _ Hc Hg) as (f & fl & Hf & Hr & H1 & H2). exists ca, f, fl. repeat split; assumption.
Defined.
