(* ===== verification/CloudCred.v ===== *)
(** * What the pointers to the clouds' credentials share (internal/awscred, internal/gcpcred: pointer.go, cli.go)

    The character classes of the patterns, the readings of a JSON document, and
    what running a command comes to. *)

From stdpp Require Import prelude list strings.
From Stdlib Require Import ZArith Lia ZifyNat Ascii.
From S2P Require Import Prelude GoUnicode GoStrings GoNum GoJson Verify.

(** ** The character classes of the patterns *)

Definition is_lower (c : byte) : bool := in_range 97 122 (bz c).
Definition is_upper (c : byte) : bool := in_range 65 90 (bz c).
Definition is_digit_byte (c : byte) : bool := in_range 48 57 (bz c).
Definition is_alnum (c : byte) : bool := is_lower c || is_upper c || is_digit_byte c.
Definition among (set : string) (c : byte) : bool := existsb (Ascii.eqb c) (lit set).

(** A first byte of one class, and the rest of another. *)
Definition first_rest (first rest : byte -> bool) (s : gostr) : bool :=
  match s with c :: s' => first c && forallb rest s' | [] => false end.

(** The bytes of a class that a string starts with, and what follows. *)
Fixpoint span_class (p : byte -> bool) (s : gostr) : gostr * gostr :=
  match s with
  | c :: s' => if p c then let '(a, b) := span_class p s' in (c :: a, b) else ([], s)
  | [] => ([], [])
  end.

(** [Decoder.More] at the top of a text: what follows the value, a closing
    bracket apart. *)
Definition more (rest : gostr) : bool :=
  match skip_ws rest with
  | [] => false
  | c :: _ => negb (Ascii.eqb c "]" || Ascii.eqb c "}")
  end.

(** [Decoder.Decode] with [DisallowUnknownFields] into a struct, and what
    follows the value. *)
Definition decode_struct {A} (set : A -> gostr * json -> option A) (zero : A) (doc : gostr) : option (A * gostr) :=
  match json_value (S (2 * length doc)) 0 doc with
  | Some (JNull, r) => Some (zero, r)
  | Some (JObj ms, r) => (fun a => (a, r)) <$> set_members set zero ms
  | _ => None
  end.

(** [json.Unmarshal] into a struct, whose unknown fields are passed over. *)
Definition unmarshal_struct {A} (set : A -> gostr * json -> option A) (zero : A) (doc : gostr) : option A :=
  match json_parse doc with
  | Some JNull => Some zero
  | Some (JObj ms) => set_members set zero ms
  | _ => None
  end.

(** An [int] field. *)
Definition decode_int (old : Z) (v : json) : option Z :=
  match v with JNull => Some old | JNum n => parse_int 64 n | _ => None end.

(** The first bytes of a message. *)
Definition maxStderr : nat := 400.
Definition clip_stderr (stderr : gostr) : gostr :=
  let msg := trim_space stderr in
  if (maxStderr <? length msg)%nat then take maxStderr msg ++ lit "..." else msg.

(** What running a command comes to: its standard output; a failure with what
    it printed as an error; or the bound on the time. *)
Inductive ran := Printed (stdout : gostr) | Failed (stderr : gostr) | TimedOut.

(** [cmdName]. *)
Definition cmdName (args : list gostr) : gostr :=
  match args with a :: b :: _ => a ++ lit " " ++ b | _ => join (lit " ") args end.

(** ** What holds of a pointer *)

(** A value on a command line that is not read as a flag. *)
Definition no_flag (s : gostr) : Prop := head s <> Some "-"%char.

Lemma first_rest_head first rest s : first_rest first rest s = true -> exists c, head s = Some c /\ first c = true.
Proof. destruct s as [|c s]; [done|]. cbn. intros [H _]%andb_true_iff. by exists c. Qed.

Lemma first_rest_no_flag first rest s : first "-"%char = false -> first_rest first rest s = true -> no_flag s.
Proof. intros Hf H E. apply first_rest_head in H as (c & Hc & Hfc). rewrite E in Hc. injection Hc as <-. congruence. Qed.
