(* ===== verification/AwsCred.v ===== *)
(** * AWS credentials (internal/awscred: pointer.go, cli.go)

    What a stored pointer names, what is asked of [aws] for it, and what is
    taken of its answer.  The command is a function of its arguments. *)

From stdpp Require Import prelude list strings.
From Stdlib Require Import ZArith Lia ZifyNat Ascii.
From S2P Require Import Prelude GoUnicode GoStrings GoNum GoJson Verify CloudCred.

Record Pointer := MkPointer {
  pt_kind : gostr; pt_profile : gostr; pt_mode : gostr; pt_role : gostr; pt_source : gostr; pt_seconds : Z }.
Definition zero_pointer : Pointer := MkPointer [] [] [] [] [] 0.

Definition DefaultSessionSeconds : Z := 1800.
Definition MinSessionSeconds : Z := 25 * 60.
Definition MaxSessionSeconds : Z := 3600.

(** [Pointer.Session]. *)
Definition Session (p : Pointer) : Z := if (pt_seconds p =? 0)%Z then DefaultSessionSeconds else pt_seconds p.

Definition profileRE (s : gostr) : bool :=
  first_rest (fun c => is_alnum c || among "_.+" c) (fun c => is_alnum c || among "_.+-" c) s.

Definition roleARNRE (s : gostr) : bool :=
  match strip_prefix (lit "arn:aws") s with
  | None => false
  | Some s1 =>
    match strip_prefix (lit ":iam::") (span_class (fun c => is_lower c || is_upper c || among "-" c) s1).2 with
    | None => false
    | Some s2 =>
      match strip_prefix (lit ":role/") (span_class is_digit_byte s2).2 with
      | None => false
      | Some s3 => negb (bool_decide (s3 = [])) && forallb (fun c => is_alnum c || among "/_+=,.@-" c) s3
      end
    end
  end.

Definition session_char (c : byte) : bool := is_alnum c || among "+=,.@_-" c.
Definition identityRE (s : gostr) : bool := forallb session_char s && (2 <=? length s)%nat && (length s <=? 64)%nat.

Inductive pointer_error : Set :=
  | BadJSON | TrailingData | BadKind (k : gostr) | BadProfile (p : gostr) | BadRole (r : gostr)
  | SelfRole | SelfSource | SelfSeconds | BadMode (m : gostr) | BadSource (s : gostr) | BadSeconds (n : Z).

(** [Pointer.Validate]. *)
Definition Validate (p : Pointer) : res pointer_error unit :=
  if negb (bool_decide (pt_kind p = lit "aws")) then Err (BadKind (pt_kind p))
  else if negb (profileRE (pt_profile p)) then Err (BadProfile (pt_profile p))
  else
    (if bool_decide (pt_mode p = lit "role") then fail_if (negb (roleARNRE (pt_role p))) (BadRole (pt_role p))
     else if bool_decide (pt_mode p = lit "self") then
       fail_if (negb (bool_decide (pt_role p = []))) SelfRole ;?
       fail_if (negb (bool_decide (pt_source p = []))) SelfSource ;?
       fail_if (negb (pt_seconds p =? 0)%Z) SelfSeconds
     else Err (BadMode (pt_mode p))) ;?
    fail_if (negb (bool_decide (pt_source p = [])) && negb (identityRE (pt_source p))) (BadSource (pt_source p)) ;?
    fail_if (negb (pt_seconds p =? 0)%Z && ((pt_seconds p <? MinSessionSeconds)%Z || (MaxSessionSeconds <? pt_seconds p)%Z))
      (BadSeconds (pt_seconds p)).

Inductive field := FKind | FProfile | FMode | FRole | FSource | FSeconds.
Definition fields : list (gostr * field) :=
  [(lit "kind", FKind); (lit "awsProfile", FProfile); (lit "mode", FMode); (lit "roleArn", FRole);
   (lit "sourceIdentity", FSource); (lit "sessionSeconds", FSeconds)].

Definition set_field (p : Pointer) (kv : gostr * json) : option Pointer :=
  let '(MkPointer k pr m r s n) := p in
  match json_field fields kv.1 with
  | Some FKind => (fun x => MkPointer x pr m r s n) <$> decode_string k kv.2
  | Some FProfile => (fun x => MkPointer k x m r s n) <$> decode_string pr kv.2
  | Some FMode => (fun x => MkPointer k pr x r s n) <$> decode_string m kv.2
  | Some FRole => (fun x => MkPointer k pr m x s n) <$> decode_string r kv.2
  | Some FSource => (fun x => MkPointer k pr m r x n) <$> decode_string s kv.2
  | Some FSeconds => (fun x => MkPointer k pr m r s x) <$> decode_int n kv.2
  | None => None
  end.

(** [ParsePointer]. *)
Definition ParsePointer (doc : gostr) : res pointer_error Pointer :=
  match decode_struct set_field zero_pointer doc with
  | None => Err BadJSON
  | Some (p, rest) => if more rest then Err TrailingData else let? _ := Validate p in Ok p
  end.

(** [SessionName]. *)
Definition session_rune (r : Z) : byte :=
  if (r <? 128)%Z && session_char (zb r) then zb r else "-"%char.
Definition SessionName (sandboxID : gostr) : gostr := take 64 (session_rune <$> runes sandboxID).

(** [SourceIdentityFrom]. *)
Definition SourceIdentityFrom (callerARN : gostr) : option gostr :=
  match cut_last "/" callerARN with
  | Some (_, tail) => if identityRE tail then Some tail else None
  | None => None
  end.

(** [Environ]. *)
Definition Environ (environ : list gostr) : list gostr := List.filter (fun kv => negb (has_prefix kv (lit "AWS_"))) environ.

Definition ssoMarkers : list gostr :=
  [lit "Token has expired"; lit "The SSO session associated with this profile has expired"; lit "Error loading SSO Token"].

Inductive fetch_error : Set :=
  | Invalid (e : pointer_error)
  | ErrSSOExpired (profile : gostr)
  | TimedOutAt (cmd : gostr)
  | CommandFailed (cmd msg : gostr)
  | NotJSON (cmd : gostr) | NoCredentials (cmd : gostr) | NoAccessKey (cmd : gostr) | NoExpiration (cmd : gostr)
  | NoRegion (profile : gostr) (cause : option fetch_error)
  | NoArn.

Section Cli.
(** What the command says to its arguments, and [time.Parse(time.RFC3339, _)]. *)
Variable run : list gostr -> ran.
Variable rfc3339 : gostr -> option Z.

(** [CLI.output]. *)
Definition output (profile : gostr) (args : list gostr) : res fetch_error gostr :=
  match run args with
  | Printed stdout => Ok stdout
  | TimedOut => Err (TimedOutAt (cmdName args))
  | Failed stderr =>
    if existsb (contains stderr) ssoMarkers then Err (ErrSSOExpired profile)
    else Err (CommandFailed (cmdName args) (clip_stderr stderr))
  end.

Record Credentials := MkCredentials { cr_id : gostr; cr_secret : gostr; cr_token : gostr; cr_expiration : Z }.

(** The arguments of [CLI.Fetch]. *)
Definition fetch_args (p : Pointer) (sessionName : gostr) : list gostr :=
  if bool_decide (pt_mode p = lit "role") then
    [lit "sts"; lit "assume-role"; lit "--profile"; pt_profile p; lit "--role-arn"; pt_role p; lit "--role-session-name"; sessionName] ++
    (if bool_decide (pt_source p = []) then [] else [lit "--source-identity"; pt_source p]) ++
    [lit "--duration-seconds"; itoa (Session p); lit "--output"; lit "json"]
  else [lit "configure"; lit "export-credentials"; lit "--profile"; pt_profile p; lit "--format"; lit "process"].

(** The four fields, at the top and under [Credentials]. *)
Definition four : Type := gostr * gostr * gostr * gostr.
Definition no_four : four := ([], [], [], []).
Inductive key_field := KId | KSecret | KToken | KExpiration.
Definition key_fields : list (gostr * key_field) :=
  [(lit "AccessKeyId", KId); (lit "SecretAccessKey", KSecret); (lit "SessionToken", KToken); (lit "Expiration", KExpiration)].
Definition set_four (f : key_field) (q : four) (v : json) : option four :=
  let '(i, s, t, x) := q in
  match f with
  | KId => (fun y => (y, s, t, x)) <$> decode_string i v
  | KSecret => (fun y => (i, y, t, x)) <$> decode_string s v
  | KToken => (fun y => (i, s, y, x)) <$> decode_string t v
  | KExpiration => (fun y => (i, s, t, y)) <$> decode_string x v
  end.
Definition set_key (q : four) (kv : gostr * json) : option four :=
  match json_field key_fields kv.1 with Some f => set_four f q kv.2 | None => Some q end.

Definition out_fields : list (gostr * option key_field) :=
  (lit "Credentials", None) :: ((fun f => (f.1, Some f.2)) <$> key_fields).
Definition set_out (d : option four * four) (kv : gostr * json) : option (option four * four) :=
  match json_field out_fields kv.1 with
  | Some (Some f) => (fun q => (d.1, q)) <$> set_four f d.2 kv.2
  | Some None =>
    match kv.2 with
    | JNull => Some (None, d.2)
    | JObj ms => (fun q => (Some q, d.2)) <$> set_members set_key (default no_four d.1) ms
    | _ => None
    end
  | None => Some d
  end.

(** What [CLI.Fetch] takes of the output. *)
Definition read_keys (p : Pointer) (cmd out : gostr) : res fetch_error Credentials :=
  match unmarshal_struct set_out (None, no_four) out with
  | None => Err (NotJSON cmd)
  | Some (nested, top) =>
    let? keys := (if bool_decide (pt_mode p = lit "role") then match nested with Some q => Ok q | None => Err (NoCredentials cmd) end else Ok top) in
    let '(i, s, t, x) := keys in
    if bool_decide (i = []) || bool_decide (s = []) then Err (NoAccessKey cmd)
    else match rfc3339 x with None => Err (NoExpiration cmd) | Some e => Ok (MkCredentials i s t e) end
  end.

(** [CLI.Fetch]. *)
Definition Fetch (p : Pointer) (sessionName : gostr) : res fetch_error Credentials :=
  let? _ := map_err Invalid (Validate p) in
  let args := fetch_args p sessionName in
  let? out := output (pt_profile p) args in
  read_keys p (cmdName args) out.

(** [CLI.Region]. *)
Definition Region (profile : gostr) : res fetch_error gostr :=
  match output profile [lit "configure"; lit "get"; lit "region"; lit "--profile"; profile] with
  | Err (ErrSSOExpired q) => Err (ErrSSOExpired q)
  | Err e => Err (NoRegion profile (Some e))
  | Ok out => let r := trim_space out in if bool_decide (r = []) then Err (NoRegion profile None) else Ok r
  end.

(** [CLI.CallerARN]. *)
Definition CallerARN (profile : gostr) : res fetch_error gostr :=
  let? out := output profile [lit "sts"; lit "get-caller-identity"; lit "--profile"; profile; lit "--output"; lit "json"] in
  match unmarshal_struct (fun a kv => match json_field [(lit "Arn", tt)] kv.1 with Some _ => decode_string a kv.2 | None => Some a end) [] out with
  | Some ((_ :: _) as arn) => Ok arn
  | _ => Err NoArn
  end.
End Cli.

(** ** What holds of them *)

Lemma role_no_flag s : roleARNRE s = true -> no_flag s.
Proof.
  unfold roleARNRE. destruct (strip_prefix (lit "arn:aws") s) as [s1|] eqn:E; [|done]. intros _ H. destruct s as [|c s]; [done|].
  cbn in H. injection H as ->. vm_compute in E. discriminate.
Qed.

Lemma pointer_cases p u : Validate p = Ok u ->
  pt_kind p = lit "aws" /\ profileRE (pt_profile p) = true /\
  ((pt_mode p = lit "role" /\ roleARNRE (pt_role p) = true) \/
   (pt_mode p = lit "self" /\ pt_role p = [] /\ pt_source p = [] /\ pt_seconds p = 0%Z)) /\
  (pt_source p = [] \/ identityRE (pt_source p) = true) /\
  (pt_seconds p = 0 \/ MinSessionSeconds <= pt_seconds p <= MaxSessionSeconds)%Z.
Proof.
  unfold Validate. case_bool_decide as Hk; [|done]. cbn [negb]. destruct (profileRE (pt_profile p)) eqn:Hp; [|done]. cbn [negb].
  intros H. apply seq_ok in H as [Hm H]. apply seq_ok in H as [Hs Hn]. apply fail_if_ok in Hs, Hn. split; [done|]. split; [done|].
  split; [|split].
  - destruct (decide (pt_mode p = lit "role")) as [Hr|Hr].
    + rewrite bool_decide_true in Hm by done. apply fail_if_ok, negb_false_iff in Hm. by left.
    + rewrite bool_decide_false in Hm by done. right.
      destruct (decide (pt_mode p = lit "self")) as [Hse|Hse]; [|by rewrite bool_decide_false in Hm by done].
      rewrite bool_decide_true in Hm by done. res_inv. bool_inv.
      repeat match goal with H : negb _ = false |- _ => apply negb_false_iff in H end. bool_inv.
      split; [done|]. split; [done|]. split; [done|]. lia.
  - destruct (decide (pt_source p = [])) as [He|He]; [by left|]. rewrite bool_decide_false in Hs by done. cbn in Hs.
    apply negb_false_iff in Hs. by right.
  - destruct (Z.eqb_spec (pt_seconds p) 0) as [He|He]; [by left|]. cbn in Hn. apply orb_false_iff in Hn. right. lia.
Qed.

(** Keys that are taken come of a pointer that is valid, whose profile and
    role cannot be flags of the command, for a session within the bounds; and
    they are an access key, its secret and a time of expiry. *)
Lemma Fetch_exact (run : list gostr -> ran) (rfc3339 : gostr -> option Z) (p : Pointer) (name : gostr) (c : Credentials) :
  Fetch run rfc3339 p name = Ok c ->
  no_flag (pt_profile p) /\ (pt_mode p = lit "role" -> no_flag (pt_role p) /\ (MinSessionSeconds <= Session p <= MaxSessionSeconds)%Z) /\
  (exists out, run (fetch_args p name) = Printed out) /\
  cr_id c <> [] /\ cr_secret c <> [] /\ (exists x, rfc3339 x = Some (cr_expiration c)).
Proof.
  unfold Fetch. intros H. apply res_bind_ok in H as ([] & Hv & H). apply map_err_ok in Hv.
  apply pointer_cases in Hv as (_ & Hp & Hm & _ & Hn). apply res_bind_ok in H as (out & Ho & H).
  split; [by eapply first_rest_no_flag; [|exact Hp]|]. split.
  { intros Hr. destruct Hm as [[_ Hm]|[Hm _]]; [|rewrite Hm in Hr; discriminate]. split; [by apply role_no_flag|].
    unfold Session. destruct Hn as [->|Hn]; [vm_compute; split; congruence|]. unfold MinSessionSeconds in *.
    destruct (Z.eqb_spec (pt_seconds p) 0); lia. }
  split.
  { unfold output in Ho. destruct (run (fetch_args p name)) as [o|e|]; [by exists o| |done].
    by destruct (existsb (contains e) ssoMarkers). }
  unfold read_keys in H. destruct (unmarshal_struct set_out (None, no_four) out) as [[nested top]|]; [|done].
  apply res_bind_ok in H as ([[[i s] t] x] & _ & H). destruct (decide (i = [])) as [->|Hi]; [done|].
  rewrite (bool_decide_false (i = [])) in H by done. case_bool_decide as Hs; [done|]. cbn [orb] in H.
  destruct (rfc3339 x) as [e|] eqn:Ex; [|done]. injection H as <-. cbn. split; [done|]. split; [done|]. by exists x.
Qed.

(** A session name is one that AWS takes, and a short name of such bytes is its
    own. *)
Lemma SessionName_ok id : forallb session_char (SessionName id) = true /\ (length (SessionName id) <= 64)%nat.
Proof.
  unfold SessionName. split; [|rewrite length_take; lia]. apply forallb_true. apply Forall_take. apply Forall_fmap, Forall_true.
  intros r. cbn. unfold session_rune. destruct (r <? 128)%Z; [|done]. cbn. destruct (session_char (zb r)) eqn:E; [exact E|done].
Qed.

(** A source identity may be a flag. *)
Definition flag_pointer : Pointer := MkPointer (lit "aws") (lit "dev") (lit "role") (lit "arn:aws:iam::1:role/r") (lit "--debug") 0.
Example source_is_a_flag : Validate flag_pointer = Ok tt /\ lit "--debug" ∈ fetch_args flag_pointer (lit "s").
Proof. split; [vm_compute; reflexivity|]. apply list_elem_of_lookup. exists 9%nat. vm_compute. reflexivity. Qed.

Definition demo_answer : gostr :=
  lit "{" ++ json_key (lit "Credentials") ++ lit "{" ++ json_key (lit "AccessKeyId") ++ json_quote (lit "AKIA") ++ lit "," ++
  json_key (lit "SecretAccessKey") ++ json_quote (lit "s") ++ lit "," ++ json_key (lit "Expiration") ++ json_quote (lit "T") ++ lit "}}".

Lemma Fetch_exact_witness :
  Fetch (fun _ => Printed demo_answer) (fun _ => Some 7%Z) flag_pointer (lit "s") = Ok (MkCredentials (lit "AKIA") (lit "s") [] 7) /\
  no_flag (lit "dev").
Proof.
  assert (Fetch (fun _ => Printed demo_answer) (fun _ => Some 7%Z) flag_pointer (lit "s") = Ok (MkCredentials (lit "AKIA") (lit "s") [] 7)) as E
    by (vm_compute; reflexivity).
  split; [exact E|]. exact (proj1 (Fetch_exact _ _ _ _ _ E)).
Defined.
