(* ===== verification/GcpCred.v ===== *)
(** * Google Cloud tokens (internal/gcpcred: pointer.go, cli.go)

    What a stored pointer names, what is asked of [gcloud] for it, and what is
    taken of its answer.  The command, and Google's tokeninfo, are functions of
    what they are given. *)

From stdpp Require Import prelude list strings.
From Stdlib Require Import ZArith Lia ZifyNat Ascii.
From S2P Require Import Prelude GoUnicode GoStrings GoNum GoJson Verify CloudCred.

Record Pointer := MkPointer { pt_kind : gostr; pt_configuration : gostr; pt_mode : gostr; pt_service : gostr; pt_account : gostr }.
Definition zero_pointer : Pointer := MkPointer [] [] [] [] [].

Definition impersonate : gostr := lit "impersonate".
Definition self : gostr := lit "self".

Definition configurationRE (s : gostr) : bool :=
  first_rest is_lower (fun c => is_lower c || is_digit_byte c || among "-" c) s && (length s <=? 63)%nat.

Definition low_digit (c : byte) : bool := is_lower c || is_digit_byte c.
Definition serviceAccountRE (s : gostr) : bool :=
  match cut s (lit "@") with
  | (user, domain, true) =>
    first_rest low_digit (fun c => low_digit c || among "-" c) user &&
    match strip_prefix (rev (lit ".gserviceaccount.com")) (rev domain) with
    | Some d => first_rest low_digit (fun c => low_digit c || among ".-" c) (rev d)
    | None => false
    end
  | _ => false
  end.
Definition accountRE (s : gostr) : bool :=
  match cut s (lit "@") with
  | (user, domain, true) =>
    first_rest (fun c => is_alnum c || among "._%+" c) (fun c => is_alnum c || among "._%+-" c) user &&
    first_rest is_alnum (fun c => is_alnum c || among ".-" c) domain
  | _ => false
  end.

(** [IsPointer]. *)
Definition set_kind (k : gostr) (kv : gostr * json) : option gostr :=
  match json_field [(lit "kind", tt)] kv.1 with Some _ => decode_string k kv.2 | None => Some k end.
Definition IsPointer (doc : gostr) : bool :=
  match unmarshal_struct set_kind [] doc with Some k => bool_decide (k = lit "gcloud") | None => false end.

Inductive pointer_error : Set :=
  | BadJSON | TrailingData | BadKind (k : gostr) | BadConfiguration (c : gostr) | BadService (s : gostr)
  | TakesNoAccount | SelfService | BadAccount (a : gostr) | BadMode (m : gostr).

(** [Pointer.Validate]. *)
Definition Validate (p : Pointer) : res pointer_error unit :=
  if negb (bool_decide (pt_kind p = lit "gcloud")) then Err (BadKind (pt_kind p))
  else if negb (configurationRE (pt_configuration p)) then Err (BadConfiguration (pt_configuration p))
  else if bool_decide (pt_mode p = impersonate) then
    fail_if (negb (serviceAccountRE (pt_service p))) (BadService (pt_service p)) ;?
    fail_if (negb (bool_decide (pt_account p = []))) TakesNoAccount
  else if bool_decide (pt_mode p = self) then
    fail_if (negb (bool_decide (pt_service p = []))) SelfService ;?
    fail_if (negb (accountRE (pt_account p))) (BadAccount (pt_account p))
  else Err (BadMode (pt_mode p)).

Inductive field := FKind | FConfiguration | FMode | FService | FAccount.
Definition fields : list (gostr * field) :=
  [(lit "kind", FKind); (lit "configuration", FConfiguration); (lit "mode", FMode); (lit "serviceAccount", FService);
   (lit "account", FAccount)].
Definition set_field (p : Pointer) (kv : gostr * json) : option Pointer :=
  let '(MkPointer k c m s a) := p in
  match json_field fields kv.1 with
  | Some FKind => (fun x => MkPointer x c m s a) <$> decode_string k kv.2
  | Some FConfiguration => (fun x => MkPointer k x m s a) <$> decode_string c kv.2
  | Some FMode => (fun x => MkPointer k c x s a) <$> decode_string m kv.2
  | Some FService => (fun x => MkPointer k c m x a) <$> decode_string s kv.2
  | Some FAccount => (fun x => MkPointer k c m s x) <$> decode_string a kv.2
  | None => None
  end.

(** [ParsePointer]. *)
Definition ParsePointer (doc : gostr) : res pointer_error Pointer :=
  match decode_struct set_field zero_pointer doc with
  | None => Err BadJSON
  | Some (p, rest) => if more rest then Err TrailingData else let? _ := Validate p in Ok p
  end.

Definition droppedEnv : list gostr :=
  [lit "CLOUDSDK_CORE_ACCOUNT"; lit "CLOUDSDK_ACTIVE_CONFIG_NAME"; lit "CLOUDSDK_CORE_LOG_HTTP"; lit "CLOUDSDK_CORE_VERBOSITY";
   lit "CLOUDSDK_CORE_DISABLE_PROMPTS"; lit "GOOGLE_APPLICATION_CREDENTIALS"; lit "CLOUDSDK_CONFIG"].

Definition env_name (kv : gostr) : gostr := (cut kv (lit "=")).1.1.

(** [Environ]. *)
Definition dropped_env (kv : gostr) : bool := mem (env_name kv) droppedEnv || has_prefix (env_name kv) (lit "CLOUDSDK_AUTH_").
Definition Environ (environ : list gostr) : list gostr :=
  List.filter (fun kv => negb (dropped_env kv)) environ ++ [lit "CLOUDSDK_CORE_DISABLE_PROMPTS=1"].

(** [lapsedLogin]. *)
Definition lapsedLogin (stderr : gostr) : bool :=
  contains stderr (lit "Reauthentication failed") ||
  match cut stderr (lit "Please run:") with (_, after, true) => contains after (lit "gcloud auth login") | _ => false end.

Inductive gcloud_error : Set :=
  | Invalid (e : pointer_error)
  | ErrLoginExpired (configuration account : gostr)
  | ErrCannotImpersonate (service : gostr)
  | TimedOutAt (cmd : gostr)
  | CommandFailed (cmd msg : gostr)
  | NotJSON (cmd : gostr) | NoTokenPrinted (cmd : gostr)
  | InfoFailed | InfoTooLong | InfoRefused (status : gostr) | InfoNotJSON | InfoNoExpiry
  | OtherService (email service : gostr)
  | OtherAccount (configuration email account : gostr)
  | BadName (configuration : gostr).

(** The answer of tokeninfo: none, or a status and a body. *)
Record info_answer := MkInfoAnswer { ia_code : Z; ia_status : gostr; ia_body : gostr }.

Definition maxOutput : nat := 65536.

Section Cli.
Variable run : list gostr -> ran.
(** What tokeninfo answers to a token, and the clock after it did. *)
Variable info : gostr -> option info_answer.
Variable now : Z.

(** [CLI.output]. *)
Definition output (p : Pointer) (args : list gostr) : res gcloud_error gostr :=
  match run args with
  | Printed stdout => Ok stdout
  | TimedOut => Err (TimedOutAt (cmdName args))
  | Failed stderr =>
    if lapsedLogin stderr then Err (ErrLoginExpired (pt_configuration p) (pt_account p))
    else if bool_decide (pt_mode p = impersonate) && contains stderr (lit "iam.serviceAccounts.getAccessToken")
    then Err (ErrCannotImpersonate (pt_service p))
    else Err (CommandFailed (cmdName args) (clip_stderr stderr))
  end.

(** [json.RawMessage] keeps the text of a member, of which only its string or
    number is used here. *)
Definition set_info (d : json * gostr) (kv : gostr * json) : option (json * gostr) :=
  match json_field [(lit "expires_in", true); (lit "email", false)] kv.1 with
  | Some true => Some (kv.2, d.2)
  | Some false => (fun e => (d.1, e)) <$> decode_string d.2 kv.2
  | None => Some d
  end.

(** The seconds of [expires_in], as a string or as a number.  The source reads
    the text of a string, where an escaped digit is not one. *)
Definition info_seconds (v : json) : option Z :=
  match v with
  | JStr s | JNum s => match parse_int 64 s with Some n => if (n <=? 0)%Z then None else Some n | None => None end
  | _ => None
  end.

Definition nano : Z := (10 ^ 9)%Z.

(** [time.Duration] is 64 bits. *)
Definition wrap_duration (z : Z) : Z := ((z + 2 ^ 63) mod 2 ^ 64 - 2 ^ 63)%Z.

(** [CLI.tokenInfo]: the life that is left, and whose token it is. *)
Definition tokenInfo (token : gostr) : res gcloud_error (Z * gostr) :=
  match info token with
  | None => Err InfoFailed
  | Some a =>
    if (maxOutput <? length (ia_body a))%nat then Err InfoTooLong
    else if negb (ia_code a =? 200)%Z then Err (InfoRefused (ia_status a))
    else
      match unmarshal_struct set_info (JNull, []) (ia_body a) with
      | None => Err InfoNotJSON
      | Some (v, email) =>
        match info_seconds v with None => Err InfoNoExpiry | Some n => Ok (wrap_duration (n * nano), email) end
      end
  end.

Record Token := MkToken { tk_value : gostr; tk_expiry : Z; tk_email : gostr }.

Definition mint_args (p : Pointer) : list gostr :=
  [lit "auth"; lit "print-access-token"] ++ (if bool_decide (pt_mode p = self) then [pt_account p] else []) ++
  [lit "--configuration"; pt_configuration p] ++
  (if bool_decide (pt_mode p = impersonate) then [lit "--impersonate-service-account"; pt_service p] else []) ++
  [lit "--format=json"; lit "--no-log-http"; lit "--verbosity=error"].

(** [CLI.Mint]. *)
Definition Mint (p : Pointer) : res gcloud_error Token :=
  let? _ := map_err Invalid (Validate p) in
  let args := mint_args p in
  let? out := output p args in
  match unmarshal_struct (fun t kv => match json_field [(lit "token", tt)] kv.1 with Some _ => decode_string t kv.2 | None => Some t end) [] out with
  | None => Err (NotJSON (cmdName args))
  | Some [] => Err (NoTokenPrinted (cmdName args))
  | Some token =>
    let? le := tokenInfo token in
    let '(life, email) := le in
    if bool_decide (pt_mode p = impersonate) && negb (bool_decide (email = [])) && negb (equal_fold email (pt_service p))
    then Err (OtherService email (pt_service p))
    else if bool_decide (pt_mode p = self) && (bool_decide (email = []) || negb (equal_fold email (pt_account p)))
    then Err (OtherAccount (pt_configuration p) email (pt_account p))
    else Ok (MkToken token (now + life) email)
  end.

(** [CLI.Account]. *)
Definition Account (configuration : gostr) : res gcloud_error gostr :=
  if negb (configurationRE configuration) then Err (BadName configuration)
  else
    let? out := output (MkPointer [] configuration [] [] [])
      [lit "config"; lit "get-value"; lit "account"; lit "--configuration"; configuration; lit "--verbosity=error"] in
    Ok (trim_space out).
End Cli.

(** ** What holds of them *)

Lemma gcloud_pointer_cases p u : Validate p = Ok u ->
  pt_kind p = lit "gcloud" /\ configurationRE (pt_configuration p) = true /\
  ((pt_mode p = impersonate /\ serviceAccountRE (pt_service p) = true /\ pt_account p = []) \/
   (pt_mode p = self /\ accountRE (pt_account p) = true /\ pt_service p = [])).
Proof.
  unfold Validate. case_bool_decide as Hk; [|done]. cbn [negb]. destruct (configurationRE (pt_configuration p)); [|done]. cbn [negb].
  intros H. split; [done|]. split; [done|]. destruct (decide (pt_mode p = impersonate)) as [Hi|Hi].
  - rewrite bool_decide_true in H by done. left. res_inv. bool_inv. done.
  - rewrite bool_decide_false in H by done. right. destruct (decide (pt_mode p = self)) as [Hs|Hs]; [|by rewrite bool_decide_false in H by done].
    rewrite bool_decide_true in H by done. res_inv. bool_inv. done.
Qed.

Lemma account_no_flag s : accountRE s = true -> no_flag s.
Proof.
  unfold accountRE, cut. destruct (cut_at (lit "@") s) as [[user domain]|] eqn:E; [|done]. intros [H _]%andb_true_iff.
  apply first_rest_head in H as (c & Hc & Hf). destruct user as [|u user]; [done|]. cbn in Hc. injection Hc as ->.
  apply cut_at_Some in E. rewrite E. intros Hh. cbn in Hh. injection Hh as ->. vm_compute in Hf. discriminate.
Qed.

Lemma service_no_flag s : serviceAccountRE s = true -> no_flag s.
Proof.
  unfold serviceAccountRE, cut. destruct (cut_at (lit "@") s) as [[user domain]|] eqn:E; [|done]. intros [H _]%andb_true_iff.
  apply first_rest_head in H as (c & Hc & Hf). destruct user as [|u user]; [done|]. cbn in Hc. injection Hc as ->.
  apply cut_at_Some in E. rewrite E. intros Hh. cbn in Hh. injection Hh as ->. vm_compute in Hf. discriminate.
Qed.

(** C32: a token that is taken is one that [gcloud] printed for a valid pointer,
    none of whose values can be a flag, and whose identity tokeninfo named: a
    user's token is the recorded account's, and a service account's is named
    for no other. *)
Theorem Mint_identity (run : list gostr -> ran) (info : gostr -> option info_answer) (now : Z) (p : Pointer) (t : Token) :
  Mint run info now p = Ok t ->
  tk_value t <> [] /\ (exists out, run (mint_args p) = Printed out) /\
  (exists life, tokenInfo info (tk_value t) = Ok (life, tk_email t) /\ tk_expiry t = (now + life)%Z) /\
  no_flag (pt_configuration p) /\
  ((pt_mode p = self /\ no_flag (pt_account p) /\ tk_email t <> [] /\ equal_fold (tk_email t) (pt_account p) = true) \/
   (pt_mode p = impersonate /\ no_flag (pt_service p) /\ (tk_email t = [] \/ equal_fold (tk_email t) (pt_service p) = true))).
Proof.
  unfold Mint. intros H. apply res_bind_ok in H as ([] & Hv & H). apply map_err_ok in Hv. apply gcloud_pointer_cases in Hv as (_ & Hc & Hm).
  apply res_bind_ok in H as (out & Ho & H). assert (exists o, run (mint_args p) = Printed o) as Hrun.
  { unfold output in Ho. destruct (run (mint_args p)) as [o|e|]; [by exists o| |done]. destruct (lapsedLogin e); [done|].
    by destruct (bool_decide (pt_mode p = impersonate) && contains e (lit "iam.serviceAccounts.getAccessToken")). }
  destruct (unmarshal_struct _ _ out) as [[|x token]|]; [done| |done]. apply res_bind_ok in H as ([life email] & Hi & H).
  assert (no_flag (pt_configuration p)) as Hnf.
  { unfold configurationRE in Hc. apply andb_true_iff in Hc as [Hc _]. by eapply first_rest_no_flag; [|exact Hc]. }
  destruct Hm as [(Hmode & Hs & _)|(Hmode & Ha & _)]; rewrite Hmode in H |- *.
  - rewrite (bool_decide_true (impersonate = impersonate)), (bool_decide_false (impersonate = self)) in H by (done || by vm_compute).
    cbn [andb] in H. destruct (negb (bool_decide (email = [])) && negb (equal_fold email (pt_service p))) eqn:E; [done|].
    injection H as <-. cbn. split; [done|]. split; [done|]. split; [by exists life|]. split; [done|]. right. split; [done|].
    split; [by apply service_no_flag|]. apply andb_false_iff in E as [E|E]; apply negb_false_iff in E; [left; by apply bool_decide_eq_true in E|by right].
  - rewrite (bool_decide_false (self = impersonate)), (bool_decide_true (self = self)) in H by (done || by vm_compute).
    cbn [andb] in H. destruct (bool_decide (email = []) || negb (equal_fold email (pt_account p))) eqn:E; [done|].
    injection H as <-. cbn. split; [done|]. split; [done|]. split; [by exists life|]. split; [done|]. left. split; [done|].
    split; [by apply account_no_flag|]. apply orb_false_iff in E as [E1 E2]. apply bool_decide_eq_false in E1. apply negb_false_iff in E2. done.
Qed.

(** ** What is a pointer *)

Lemma kind_field key : json_field [(lit "kind", tt)] key = Some tt <-> json_field fields key = Some FKind.
Proof.
  unfold json_field, fields. cbn [List.find fst snd fmap option_fmap option_map].
  destruct (bool_decide (lit "kind" = key)) eqn:E0; [done|].
  destruct (decide (key = lit "configuration")) as [->|N1]; [vm_compute; split; done|].
  destruct (decide (key = lit "mode")) as [->|N2]; [vm_compute; split; done|].
  destruct (decide (key = lit "serviceAccount")) as [->|N3]; [vm_compute; split; done|].
  destruct (decide (key = lit "account")) as [->|N4]; [vm_compute; split; done|].
  rewrite (bool_decide_false (lit "configuration" = key)), (bool_decide_false (lit "mode" = key)),
    (bool_decide_false (lit "serviceAccount" = key)), (bool_decide_false (lit "account" = key)) by congruence.
  destruct (equal_fold (lit "kind") key); [done|]. split; [done|].
  destruct (equal_fold (lit "configuration") key); [done|]. destruct (equal_fold (lit "mode") key); [done|].
  destruct (equal_fold (lit "serviceAccount") key); [done|]. by destruct (equal_fold (lit "account") key).
Qed.

Lemma set_members_kind ms p p' : set_members set_field p ms = Some p' -> set_members set_kind (pt_kind p) ms = Some (pt_kind p').
Proof.
  revert p. induction ms as [|[key v] ms IH]; intros p; cbn [set_members]; [by intros [= ->]|].
  destruct (set_field p (key, v)) as [p1|] eqn:E; [|done]. intros H. apply IH in H.
  assert (set_kind (pt_kind p) (key, v) = Some (pt_kind p1)) as ->; [|done].
  unfold set_kind, set_field in *. destruct p as [k c m s a]. cbn [fst snd pt_kind] in *.
  destruct (json_field fields key) as [[]|] eqn:F; try done.
  { assert (json_field [(lit "kind", tt)] key = Some tt) as -> by by apply kind_field.
    destruct (decode_string k v); [|done]. by injection E as <-. }
  all: assert (json_field [(lit "kind", tt)] key = None) as ->
    by (destruct (json_field [(lit "kind", tt)] key) as [[]|] eqn:G; [apply kind_field in G; congruence|done]).
  all: destruct (decode_string _ v); [|done]; by injection E as <-.
Qed.

(** A document that parses as a pointer, and ends with it, is taken for one. *)
Lemma ParsePointer_is_pointer doc p v : ParsePointer doc = Ok p -> json_parse doc = Some v -> IsPointer doc = true.
Proof.
  unfold ParsePointer, decode_struct, IsPointer, unmarshal_struct. intros H J. rewrite J. unfold json_parse in J.
  destruct (json_value (S (2 * length doc)) 0 doc) as [[v0 r]|]; [|done]. destruct (skip_ws r) as [|c r'] eqn:Er; [|done]. injection J as ->.
  assert (more r = false) as Hm by (unfold more; by rewrite Er).
  destruct v as [| | | | |ms]; try done.
  - rewrite Hm in H. apply res_bind_ok in H as ([] & Hv & _). vm_compute in Hv. discriminate.
  - destruct (set_members set_field zero_pointer ms) as [q|] eqn:E; [|done]. cbn [fmap option_fmap option_map] in H. rewrite Hm in H.
    apply res_bind_ok in H as ([] & Hv & [= ->]). apply gcloud_pointer_cases in Hv as (Hk & _).
    apply set_members_kind in E. cbn [zero_pointer pt_kind] in E. rewrite E. by apply bool_decide_eq_true.
Qed.

Definition demo_doc : gostr :=
  lit "{" ++ json_key (lit "kind") ++ json_quote (lit "gcloud") ++ lit "," ++ json_key (lit "configuration") ++ json_quote (lit "dev") ++ lit "," ++
  json_key (lit "mode") ++ json_quote (lit "self") ++ lit "," ++ json_key (lit "account") ++ json_quote (lit "a@b.c") ++ lit "}".

(** A closing bracket after the document is not data to [Decoder.More]: the
    document is a pointer to one and a raw token to the other. *)
Example pointer_and_token :
  is_ok (ParsePointer (demo_doc ++ lit "} x")) = true /\ IsPointer (demo_doc ++ lit "} x") = false /\
  is_ok (ParsePointer demo_doc) = true /\ IsPointer demo_doc = true /\ ParsePointer (demo_doc ++ lit " x") = Err TrailingData.
Proof. repeat split; vm_compute; reflexivity. Qed.

Definition demo_pointer : Pointer := MkPointer (lit "gcloud") (lit "dev") self [] (lit "a@b.c").
Definition demo_info (_ : gostr) : option info_answer :=
  Some (MkInfoAnswer 200 (lit "200 OK") (lit "{" ++ json_key (lit "expires_in") ++ json_quote (lit "3600") ++ lit "," ++
    json_key (lit "email") ++ json_quote (lit "A@b.c") ++ lit "}")).
Definition demo_run (_ : list gostr) : ran := Printed (lit "{" ++ json_key (lit "token") ++ json_quote (lit "ya29") ++ lit "}").

Lemma Mint_identity_witness :
  Mint demo_run demo_info 5 demo_pointer = Ok (MkToken (lit "ya29") (5 + 3600 * nano) (lit "A@b.c")) /\ equal_fold (lit "A@b.c") (lit "a@b.c") = true.
Proof.
  assert (Mint demo_run demo_info 5 demo_pointer = Ok (MkToken (lit "ya29") (5 + 3600 * nano) (lit "A@b.c"))) as E by (vm_compute; reflexivity).
  split; [exact E|]. destruct (Mint_identity _ _ _ _ _ E) as (_ & _ & _ & _ & [(_ & _ & _ & H)|(H & _)]); [exact H|discriminate].
Defined.
