(* ===== verification/BrokerServer.v ===== *)
(** * The control API of the broker (cmd/brig-broker: server.go, aws.go, gcp.go, briginternal.go, linklocal.go)

    What a broker holds of its sandboxes, and what each control request makes
    of it.  A registration is several steps, between which anything else runs:
    it looks at each route that vends or mints without the lock of the server,
    and is settled under it. *)

From stdpp Require Import prelude list strings gmap.
From Stdlib Require Import ZArith Lia Ascii.
From S2P Require Import Prelude GoUnicode GoStrings GoNum GoJson GoNetip EgressRules Divert RouteTypes RouteValidate RouteMode Expand Token Scan.
From S2P Require Import AwsCred GcpCred CredCache Registry.

(** ** Addresses and arrivals *)

(** [Addr.IsUnspecified], [Addr.IsLoopback] and [Addr.IsMulticast]. *)
Definition IsUnspecified (a : addr) : bool :=
  match a with V4 z => (z =? 0)%Z | V6 z zone => (z =? 0)%Z && bool_decide (zone = []) end.
Definition is_loopback (a : addr) : bool :=
  match Unmap a with V4 z => (Z.shiftr z 24 =? 127)%Z | V6 z _ => (z =? 1)%Z end.
Definition IsMulticast (a : addr) : bool :=
  match Unmap a with V4 z => (Z.shiftr z 28 =? 14)%Z | V6 z _ => (Z.shiftr z 120 =? 255)%Z end.

(** [brigInternalAddr]: [None] is an error, and [Some None] no address. *)
Definition brigInternalAddr (s : gostr) : option (option addr) :=
  if bool_decide (s = []) then Some None
  else
    match ParseAddr s with
    | None => None
    | Some a =>
      if negb (bool_decide (zone_of a = [])) || negb (bool_decide (addr_string a = s)) || IsUnspecified a || is_loopback a || IsMulticast a
      then None
      else Some (Some (Unmap a))
    end.

Definition divertArrival : gostr := lit "divert:".
Definition linkLocalArrival : gostr := lit "link-local:".

(** [AddrPort.String], and [arrivalAddr.String]. *)
Definition addr_port_string (a : AddrPort) : gostr :=
  match ap_addr a with
  | None => lit "invalid AddrPort"
  | Some (V4 z) => addr_string (V4 z) ++ lit ":" ++ utoa (ap_port a)
  | Some (V6 z zone) => lit "[" ++ addr_string (V6 z zone) ++ lit "]:" ++ utoa (ap_port a)
  end.
Definition arrival_string (prefix sandbox : gostr) (src : AddrPort) : gostr := prefix ++ sandbox ++ lit "/" ++ addr_port_string src.

(** How a connection reached the broker, as its context says; and [vendOnly]. *)
Inductive arrived_by := ByLoopback | ByBrigInternal | ByLinkLocal.
Definition divertContext (prefix : gostr) : arrived_by := if bool_decide (prefix = divertArrival) then ByBrigInternal else ByLinkLocal.
Definition vendOnly (a : option arrived_by) : bool := match a with Some ByLoopback | Some ByBrigInternal => false | _ => true end.

(** ** The state *)

(** [awsVendor] and [gcpMinter]: the cache, the routes whose last fetch failed,
    and the calls that requests of a guest wait for. *)
Record vendor (C P E : Type) := MkVendor { ve_cache : @cache C P E; ve_failing : gset gostr; ve_serving : gset nat }.
Arguments MkVendor {C P E} _ _ _.
Arguments ve_cache {C P E} _.
Arguments ve_failing {C P E} _.
Arguments ve_serving {C P E} _.
Definition aws_vendor : Type := vendor AwsCred.Credentials AwsCred.Pointer AwsCred.fetch_error.
Definition gcp_minter : Type := vendor GcpCred.Token GcpCred.Pointer GcpCred.gcloud_error.

Record VendInfo := MkVendInfo { vi_mode : gostr; vi_profile : gostr; vi_role : gostr }.
Record vendRoute := MkVendRoute { vr_region : gostr; vr_info : VendInfo }.

(** [divertSandbox], as far as the server reads it. *)
Record divertSandbox := MkDivert { dv_path : gostr; dv_internal : option addr }.

#[export] Instance aws_pointer_eq_dec : EqDecision AwsCred.Pointer.
Proof. solve_decision. Defined.
#[export] Instance gcp_pointer_eq_dec : EqDecision GcpCred.Pointer.
Proof. solve_decision. Defined.

(** A look at a route that a registration makes, with the secret it reads. *)
Inductive check :=
  | VendCheck (route secret : gostr)
  | MintCheck (route secret : gostr).

(** What a look tells the registration: an error of its own, the hint to
    install the command, or a text that is logged as well. *)
Inductive vend_failure (E : Type) := VendError (e : E) | InstallHint | Logged (e : E).
Arguments VendError {E} _.
Arguments InstallHint {E}.
Arguments Logged {E} _.
Inductive aws_error := AwsPointer (e : AwsCred.pointer_error) | AwsFetch (e : AwsCred.fetch_error) | AwsContext.
Inductive gcp_error := GcpPointer (e : GcpCred.pointer_error) | GcpMint (e : GcpCred.gcloud_error) | GcpContext.
Inductive check_error :=
  | Unresolved (route : gostr)
  | AwsCheck (route : gostr) (e : vend_failure aws_error)
  | GcpCheck (route : gostr) (e : vend_failure gcp_error).

Inductive reg_refusal :=
  | BadID | BadInternal (addr : gostr) | ModeNotInBuild (mode : gostr) | ModeSettings (mode text : gostr)
  | BadRoute (e : expand_error) | NotEncoded
  | Credential (e : check_error)
  | Stopping
  | NoRenewer (route : gostr)
  | NotAdded (e : add_error)
  | DivertNotOpen.

(** [AddResponse], and the secrets whose journals are recovered. *)
Record AddResponse := MkAddResponse { ar_socket : gostr; ar_ca : bool; ar_vends : gmap gostr vendRoute; ar_recover : list gostr }.
Inductive answer := Refused (r : reg_refusal) | Added (r : AddResponse).

Inductive reg_phase :=
  | Looks
  | AwsWaits (t : nat) (route : gostr)
  | GcpWaits (t : nat) (route : gostr)
  | Fails (e : check_error)
  | Settled (a : answer).
Record registration := MkRegistration {
  rg_sandbox : SandboxConfig; rg_internal : option addr; rg_key : gostr; rg_todo : list check;
  rg_vends : gmap gostr vendRoute; rg_phase : reg_phase }.

Record server := MkServer {
  s_handler : handler;
  s_sandboxes : gmap gostr gostr;
  s_diverts : gmap gostr divertSandbox;
  s_vends : gmap gostr (gmap gostr vendRoute);
  s_stopping : bool;
  s_caches : gmap gostr gostr;
  s_aws : aws_vendor;
  s_gcp : gcp_minter;
  s_regs : gmap nat registration;
}.

Definition set_handler (s : server) (h : handler) : server :=
  MkServer h (s_sandboxes s) (s_diverts s) (s_vends s) (s_stopping s) (s_caches s) (s_aws s) (s_gcp s) (s_regs s).
Definition set_sandbox_keys (s : server) (m : gmap gostr gostr) : server :=
  MkServer (s_handler s) m (s_diverts s) (s_vends s) (s_stopping s) (s_caches s) (s_aws s) (s_gcp s) (s_regs s).
Definition set_diverts (s : server) (m : gmap gostr divertSandbox) : server :=
  MkServer (s_handler s) (s_sandboxes s) m (s_vends s) (s_stopping s) (s_caches s) (s_aws s) (s_gcp s) (s_regs s).
Definition set_vend_routes (s : server) (m : gmap gostr (gmap gostr vendRoute)) : server :=
  MkServer (s_handler s) (s_sandboxes s) (s_diverts s) m (s_stopping s) (s_caches s) (s_aws s) (s_gcp s) (s_regs s).
Definition set_stopping (s : server) (b : bool) : server :=
  MkServer (s_handler s) (s_sandboxes s) (s_diverts s) (s_vends s) b (s_caches s) (s_aws s) (s_gcp s) (s_regs s).
Definition set_caches (s : server) (m : gmap gostr gostr) : server :=
  MkServer (s_handler s) (s_sandboxes s) (s_diverts s) (s_vends s) (s_stopping s) m (s_aws s) (s_gcp s) (s_regs s).
Definition set_vendors (s : server) (a : aws_vendor) (g : gcp_minter) : server :=
  MkServer (s_handler s) (s_sandboxes s) (s_diverts s) (s_vends s) (s_stopping s) (s_caches s) a g (s_regs s).
Definition set_reg (s : server) (n : nat) (r : registration) : server :=
  MkServer (s_handler s) (s_sandboxes s) (s_diverts s) (s_vends s) (s_stopping s) (s_caches s) (s_aws s) (s_gcp s) (<[n := r]> (s_regs s)).

(** [newServer]. *)
Definition newServer (hostKey : gostr) (now : Z) : server :=
  MkServer (MkHandler hostKey ∅ ∅ (newBudget DefaultReplayBudget)) ∅ ∅ ∅ false ∅
    (MkVendor (NewCache now) ∅ ∅) (MkVendor (NewCache now) ∅ ∅) ∅.

(** [server.arrival]. *)
Definition arrival (s : server) (sandbox remoteAddr : gostr) : gostr * bool :=
  match strip_prefix divertArrival remoteAddr with
  | Some rest => let id := (cut rest (lit "/")).1.1 in (id, bool_decide (id = sandbox))
  | None =>
    match strip_prefix linkLocalArrival remoteAddr with
    | Some rest => let id := (cut rest (lit "/")).1.1 in (id, bool_decide (id = sandbox))
    | None =>
      match s_diverts s !! sandbox with
      | None => ([], true)
      | Some d => ([], is_nil (dv_internal d))
      end
    end
  end.

(** ** The vendors *)

Definition failing_name (sandbox route : gostr) : gostr := sandbox ++ lit "/" ++ route.

Section Vendor.
Context {C P E : Type} `{EqDecision P}.
Variable expiry : C -> Z.

Definition ve_fail (v : vendor C P E) (sandbox route : gostr) : vendor C P E :=
  MkVendor (ve_cache v) ({[failing_name sandbox route]} ∪ ve_failing v) (ve_serving v).
(** [succeeded]. *)
Definition ve_succeed (v : vendor C P E) (sandbox route : gostr) : vendor C P E :=
  MkVendor (ve_cache v) (ve_failing v ∖ {[failing_name sandbox route]}) (ve_serving v).

(** An action on the cache. *)
Definition ve_act (v : vendor C P E) (a : @action C P E) : option (vendor C P E) :=
  (fun c => MkVendor c (ve_failing v) (ve_serving v)) <$> cache_step expiry (ve_cache v) a.

(** A call of the cache, and its number. *)
Definition ve_call (v : vendor C P E) (sandbox route : gostr) (p : P) (margin : Z) : nat * vendor C P E :=
  let c := begin_call (ve_cache v) (sandbox, route) p margin in
  (Nat.pred (cc_next c), MkVendor c (ve_failing v) (ve_serving v)).

(** [forget]. *)
Definition ve_forget (v : vendor C P E) (sandbox : gostr) : vendor C P E :=
  MkVendor (default (ve_cache v) (cache_step expiry (ve_cache v) (Forget sandbox)))
    (filter (fun k => has_prefix k (sandbox ++ lit "/") = false) (ve_failing v)) (ve_serving v).

(** What a call of the cache returned: nothing yet; its context's error; an
    error of the fetch; or what was fetched. *)
Definition returned (v : vendor C P E) (t : nat) : option (call * option (res E C)) :=
  match cc_calls (ve_cache v) !! t with
  | Some ca =>
    match ca_phase ca with
    | Returned (Served x _ _) => Some (ca, Some (Ok x))
    | Returned (Fetched _ r) => Some (ca, Some r)
    | Returned HungUp => Some (ca, None)
    | _ => None
    end
  | None => None
  end.
End Vendor.

Definition aws_expiry (c : AwsCred.Credentials) : Z := AwsCred.cr_expiration c.
Definition gcp_expiry (t : GcpCred.Token) : Z := GcpCred.tk_expiry t.

(** [errors.As] of an [ErrSSOExpired]. *)
Fixpoint sso_expired (e : AwsCred.fetch_error) : option gostr :=
  match e with
  | AwsCred.ErrSSOExpired p => Some p
  | AwsCred.NoRegion _ (Some c) => sso_expired c
  | _ => None
  end.

(** [failed] of the two vendors: [installed] is whether the command is on the
    PATH. *)
Definition aws_failed (installed : bool) (e : aws_error) (ranAWS : bool) : vend_failure aws_error :=
  match match e with AwsFetch f => sso_expired f | _ => None end with
  | Some p => VendError (AwsFetch (AwsCred.ErrSSOExpired p))
  | None => if ranAWS && negb installed then InstallHint else Logged e
  end.
Definition gcp_failed (installed : bool) (e : gcp_error) (ranGCloud : bool) : vend_failure gcp_error :=
  match e with
  | GcpMint (GcpCred.ErrLoginExpired _ _) | GcpMint (GcpCred.ErrCannotImpersonate _) => VendError e
  | _ => if ranGCloud && negb installed then InstallHint else Logged e
  end.

(** ** Registration *)

Definition secret_name (r : Route) : gostr :=
  match rt_credential r with Some c => sr_name (cd_secretRef c) | None => [] end.
Definition lifecycle_name (r : Route) : gostr := match rt_credential r with Some c => cd_lifecycle c | None => [] end.

(** The routes that [checkVends] looks at, and those of [checkMints].  A route
    that vends has a credential once it is expanded. *)
Definition vend_checks (sb : SandboxConfig) : list check :=
  omap (fun rc => let r := rc_route rc in if Vends r then Some (VendCheck (rt_name r) (secret_name r)) else None) (sc_routes sb).
Definition mint_checks (sb : SandboxConfig) : list check :=
  omap (fun rc => let r := rc_route rc in
    if bool_decide (elems (rt_services r) = []) || is_nil (rt_credential r) then None else Some (MintCheck (rt_name r) (secret_name r)))
    (sc_routes sb).

Record request := MkRequest {
  rq_id : gostr; rq_profile : gostr; rq_routes : list RouteConfig; rq_internal : gostr; rq_modes : gmap gostr gostr }.

Section Server.
Variable hmac hkdf : gostr -> gostr -> gostr.
(** What [ExpandRoute] reads, as in Expand.v. *)
Variable preset_file : gostr -> res preset_error presetFile.
Variable yaml_scalar : gostr -> option (option gostr).
Variable visit : gmap gostr gostr -> list (gostr * gostr).
Variable modes : modes_map.
(** [divertModes]: the check of a mode's settings, with the text of an error. *)
Variable divertModes : gostr -> option (gostr -> gostr -> option gostr).
(** What [json.Marshal] writes of a registration after its opening brace. *)
Variable members : SandboxConfig -> gostr -> gmap gostr gostr -> option gostr.

Definition lifecycleRenewer (l : gostr) : bool := bool_decide (l = LifecycleAnthropicOAuth).

Fixpoint check_settings (id : gostr) (settings : gmap gostr gostr) (names : list gostr) : res reg_refusal unit :=
  match names with
  | [] => Ok tt
  | m :: names' =>
    match divertModes m with
    | None => Err (ModeNotInBuild m)
    | Some check =>
      match check id (default [] (settings !! m)) with
      | Some text => Err (ModeSettings m text)
      | None => check_settings id settings names'
      end
    end
  end.

Fixpoint expand_routes (l : list RouteConfig) : res reg_refusal (list RouteConfig) :=
  match l with
  | [] => Ok []
  | rc :: l' =>
    let? e := map_err BadRoute (ExpandRoute preset_file yaml_scalar visit modes (rc_route rc)) in
    let? es := expand_routes l' in
    Ok (MkRouteConfig (rc_policy rc) e :: es)
  end.

(** [addSandbox] up to its first look at a vendor. *)
Definition prepare (q : request) : res reg_refusal registration :=
  fail_if (negb (ValidID (rq_id q))) BadID ;?
  let? internal := match brigInternalAddr (rq_internal q) with Some a => Ok a | None => Err (BadInternal (rq_internal q)) end in
  let names := sort_strings (fst <$> map_to_list (rq_modes q)) in
  check_settings (rq_id q) (rq_modes q) names ;?
  let? routes := expand_routes (rq_routes q) in
  let sb := MkSandboxConfig (rq_id q) (rq_profile q) routes names in
  match members sb (rq_internal q) (rq_modes q) with
  | None => Err NotEncoded
  | Some m => Ok (MkRegistration sb internal (lit "{" ++ m) (vend_checks sb ++ mint_checks sb) ∅ Looks)
  end.

Definition with_phase (rg : registration) (p : reg_phase) : registration :=
  MkRegistration (rg_sandbox rg) (rg_internal rg) (rg_key rg) (rg_todo rg) (rg_vends rg) p.
Definition checked (rg : registration) (vends : gmap gostr vendRoute) : registration :=
  MkRegistration (rg_sandbox rg) (rg_internal rg) (rg_key rg) (tail (rg_todo rg)) vends Looks.

(** The start of the look at the next route, at what its secret resolved to:
    the pointer is parsed, and the cache is asked. *)
Definition look (s : server) (n : nat) (rg : registration) (doc : option gostr) (installed : bool) : option server :=
  let id := sc_id (rg_sandbox rg) in
  match rg_phase rg, rg_todo rg with
  | Looks, VendCheck route _ :: _ =>
    match doc with
    | None => Some (set_reg s n (with_phase rg (Fails (Unresolved route))))
    | Some d =>
      match AwsCred.ParsePointer d with
      | Err e =>
        Some (set_reg (set_vendors s (ve_fail (s_aws s) id route) (s_gcp s)) n
          (with_phase rg (Fails (AwsCheck route (aws_failed installed (AwsPointer e) false)))))
      | Ok p =>
        let '(t, v) := ve_call (s_aws s) id route p ensureMargin in
        Some (set_reg (set_vendors s v (s_gcp s)) n (with_phase rg (AwsWaits t route)))
      end
    end
  | Looks, MintCheck route _ :: _ =>
    match doc with
    | None => Some (set_reg s n (checked rg (rg_vends rg)))
    | Some d =>
      if negb (GcpCred.IsPointer d) then Some (set_reg s n (checked rg (rg_vends rg)))
      else
        match GcpCred.ParsePointer d with
        | Err e =>
          Some (set_reg (set_vendors s (s_aws s) (ve_fail (s_gcp s) id route)) n
            (with_phase rg (Fails (GcpCheck route (gcp_failed installed (GcpPointer e) false)))))
        | Ok p =>
          let '(t, v) := ve_call (s_gcp s) id route p gcp_margin in
          Some (set_reg (set_vendors s (s_aws s) v) n (with_phase rg (GcpWaits t route)))
        end
    end
  | _, _ => None
  end.

(** Its end, once the call of the cache returned: [region] is what the profile's
    region is. *)
Definition look_ends (s : server) (n : nat) (rg : registration) (region : res AwsCred.fetch_error gostr) (installed : bool) : option server :=
  let id := sc_id (rg_sandbox rg) in
  let aws_fails route e := set_reg (set_vendors s (ve_fail (s_aws s) id route) (s_gcp s)) n
    (with_phase rg (Fails (AwsCheck route (aws_failed installed e true)))) in
  let gcp_fails route e := set_reg (set_vendors s (s_aws s) (ve_fail (s_gcp s) id route)) n
    (with_phase rg (Fails (GcpCheck route (gcp_failed installed e true)))) in
  match rg_phase rg with
  | AwsWaits t route =>
    match returned (s_aws s) t with
    | None => None
    | Some (_, None) => Some (aws_fails route AwsContext)
    | Some (_, Some (Err e)) => Some (aws_fails route (AwsFetch e))
    | Some (ca, Some (Ok _)) =>
      match region with
      | Err e => Some (aws_fails route (AwsFetch e))
      | Ok r =>
        let p := ca_ptr ca in
        let info := MkVendInfo (AwsCred.pt_mode p) (AwsCred.pt_profile p) (AwsCred.pt_role p) in
        Some (set_reg (set_vendors s (ve_succeed (s_aws s) id route) (s_gcp s)) n
          (checked rg (<[route := MkVendRoute r info]> (rg_vends rg))))
      end
    end
  | GcpWaits t route =>
    match returned (s_gcp s) t with
    | None => None
    | Some (_, None) => Some (gcp_fails route GcpContext)
    | Some (_, Some (Err e)) => Some (gcp_fails route (GcpMint e))
    | Some (_, Some (Ok _)) => Some (set_reg (set_vendors s (s_aws s) (ve_succeed (s_gcp s) id route)) n (checked rg (rg_vends rg)))
    end
  | _ => None
  end.

(** What [forget] leaves of both vendors. *)
Definition forget (s : server) (id : gostr) : server :=
  set_vendors s (ve_forget aws_expiry (s_aws s) id) (ve_forget gcp_expiry (s_gcp s) id).
Definition forget_unregistered (s : server) (id : gostr) : server :=
  if is_nil (s_sandboxes s !! id) then forget s id else s.

(** [setVends] and [added]. *)
Definition setVends (s : server) (id : gostr) (vends : gmap gostr vendRoute) : server :=
  set_vend_routes s (if bool_decide (vends = ∅) then delete id (s_vends s) else <[id := vends]> (s_vends s)).
Definition added (s : server) (id : gostr) (recovers : list gostr) : answer :=
  let '(path, ca) := match s_diverts s !! id with Some d => (dv_path d, negb (is_nil (dv_internal d))) | None => ([], false) end in
  Added (MkAddResponse path ca (default ∅ (s_vends s !! id)) recovers).

(** [credentials.track] and [credentials.untrack]. *)
Definition track (caches : gmap gostr gostr) (name l : gostr) : option (bool * gmap gostr gostr) :=
  if bool_decide (l = []) then Some (false, caches)
  else if negb (is_nil (caches !! name)) then Some (false, caches)
  else if lifecycleRenewer l then Some (true, <[name := l]> caches)
  else None.
Definition untrack (caches : gmap gostr gostr) (names : list gostr) : gmap gostr gostr :=
  foldl (fun m name => delete name m) caches names.

(** The routes of a registration are tracked in turn: the route that could not
    be, the names that were, and the caches. *)
Fixpoint track_routes (caches : gmap gostr gostr) (tracked : list gostr) (l : list RouteConfig) : option gostr * list gostr * gmap gostr gostr :=
  match l with
  | [] => (None, tracked, caches)
  | rc :: l' =>
    if is_nil (rt_credential (rc_route rc)) then track_routes caches tracked l'
    else
      match track caches (secret_name (rc_route rc)) (lifecycle_name (rc_route rc)) with
      | None => (Some (rt_name (rc_route rc)), tracked, caches)
      | Some (created, caches') =>
        track_routes caches' (if created then tracked ++ [secret_name (rc_route rc)] else tracked) l'
      end
  end.

(** [addSandbox] under the lock, after the looks went well: [nonce] is the one
    the handler draws, and [opened] the divert socket, if it opens. *)
Definition register (s : server) (rg : registration) (nonce : gostr) (opened : option gostr) : answer * server :=
  let sb := rg_sandbox rg in
  let id := sc_id sb in
  if s_stopping s then (Refused Stopping, s)
  else if bool_decide (default [] (s_sandboxes s !! id) = rg_key rg) then
    let s := setVends s id (rg_vends rg) in (added s id [], s)
  else
    let '(untrackable, tracked, caches) := track_routes (s_caches s) [] (sc_routes sb) in
    let refused r := (Refused r, forget_unregistered (set_caches s (untrack caches tracked)) id) in
    match untrackable with
    | Some route => refused (NoRenewer route)
    | None =>
      match AddSandbox hkdf ipv6_literal (s_handler s) sb nonce with
      | Err e => refused (NotAdded e)
      | Ok h =>
        let s := set_diverts (set_handler (set_caches s caches) h) (delete id (s_diverts s)) in
        let finish s :=
          let s := setVends (set_sandbox_keys s (<[id := rg_key rg]> (s_sandboxes s))) id (rg_vends rg) in
          (added s id tracked, s) in
        if negb (is_nil (rg_internal rg)) || negb (bool_decide (sc_modes sb = [])) then
          match opened with
          | Some path => finish (set_diverts s (<[id := MkDivert path (rg_internal rg)]> (s_diverts s)))
          | None =>
            let s := set_sandbox_keys (set_handler s (RemoveSandbox (s_handler s) id)) (delete id (s_sandboxes s)) in
            let s := forget (set_vend_routes s (delete id (s_vends s))) id in
            (Refused DivertNotOpen, set_caches s (untrack (s_caches s) tracked))
          end
        else finish s
      end
    end.

(** The end of a registration, in either case. *)
Definition settle_reg (s : server) (n : nat) (rg : registration) (nonce : gostr) (opened : option gostr) : option server :=
  match rg_phase rg, rg_todo rg with
  | Fails e, _ =>
    Some (set_reg (forget_unregistered s (sc_id (rg_sandbox rg))) n (with_phase rg (Settled (Refused (Credential e)))))
  | Looks, [] => let '(a, s') := register s rg nonce opened in Some (set_reg s' n (with_phase rg (Settled a)))
  | _, _ => None
  end.

(** ** The other requests *)

(** [removeSandbox] of a valid id: whether it was there, and how many are. *)
Definition removeSandbox (s : server) (id : gostr) : (bool * nat) * server :=
  let s' := forget (set_vend_routes (set_sandbox_keys (set_handler s (RemoveSandbox (s_handler s) id)) (delete id (s_sandboxes s)))
    (delete id (s_vends s))) id in
  ((negb (is_nil (s_sandboxes s !! id)), size (s_sandboxes s')), set_diverts s' (delete id (s_diverts s))).

Definition TokenTTL : Z := (12 * 3600 * second)%Z.

(** [server.mint]: the lifetime that is asked for, in 64 bits, and the token.
    The server can stop, and the sandbox go, between the check and the mint,
    so [stopping] is what was read before. *)
Definition mint_ttl (seconds : Z) : Z :=
  let ttl := wrap64 (seconds * second) in if (ttl <=? 0)%Z || (TokenTTL <? ttl)%Z then TokenTTL else ttl.
Inductive mint_refusal := MintBadID | MintStopping | NotMinted (e : mint_error).
Definition mint_token (s : server) (stopping : bool) (now : Z) (sandbox session route : gostr) (seconds : Z) : res mint_refusal (gostr * server) :=
  fail_if (negb (ValidID sandbox)) MintBadID ;?
  fail_if stopping MintStopping ;?
  let? th := map_err NotMinted (Registry.Mint hmac (s_handler s) now sandbox session route (mint_ttl seconds)) in
  Ok (th.1, set_handler s th.2).

(** [status]: the sandboxes, the blocks on placeholders, and the routes whose
    last fetch failed. *)
Definition status (s : server) : list gostr * gmap gostr Z * list gostr :=
  (sort_strings (fst <$> map_to_list (s_sandboxes s)), Placeholders (s_handler s),
   sort_strings (sort_strings (elements (ve_failing (s_aws s))) ++ sort_strings (elements (ve_failing (s_gcp s))))).

(** [stopRequest]: the answer, and whether the server is told to stop. *)
Definition stopRequest (s : server) (ifIdle : bool) : (bool * bool) * server :=
  let ok := negb ifIdle || bool_decide (s_sandboxes s = ∅) in
  ((ok, ok && negb (s_stopping s)), if ok then set_stopping s true else s).

(** [awsVendor.Vend] and [gcpMinter.Mint], from the pointer to the call of the
    cache, and from its return to the answer. *)
Definition aws_vend (s : server) (sandbox route doc : gostr) : server :=
  match AwsCred.ParsePointer doc with
  | Err _ => set_vendors s (ve_fail (s_aws s) sandbox route) (s_gcp s)
  | Ok p =>
    let '(t, v) := ve_call (s_aws s) sandbox route p getMargin in
    set_vendors s (MkVendor (ve_cache v) (ve_failing v) ({[t]} ∪ ve_serving v)) (s_gcp s)
  end.
Definition gcp_vend (s : server) (sandbox route doc : gostr) : server :=
  match GcpCred.ParsePointer doc with
  | Err _ => set_vendors s (s_aws s) (ve_fail (s_gcp s) sandbox route)
  | Ok p =>
    let '(t, v) := ve_call (s_gcp s) sandbox route p gcp_margin in
    set_vendors s (s_aws s) (MkVendor (ve_cache v) (ve_failing v) ({[t]} ∪ ve_serving v))
  end.
Definition vended {C P E : Type} (v : vendor C P E) (t : nat) : option (vendor C P E) :=
  if bool_decide (t ∈ ve_serving v) then
    match returned v t with
    | None => None
    | Some (ca, r) =>
      let v := MkVendor (ve_cache v) (ve_failing v) (ve_serving v ∖ {[t]}) in
      let '(sandbox, route) := ca_key ca in
      Some (match r with Some (Ok _) => ve_succeed v sandbox route | _ => ve_fail v sandbox route end)
    end
  else None.

(** ** Every interleaving *)

(** A cache that moves by itself: what is not the start of a call, nor [Forget]. *)
Definition moves_alone {C P E : Type} (a : @action C P E) : bool :=
  match a with Call _ _ _ | Forget _ => false | _ => true end.

Inductive event :=
  | Begin (n : nat) (q : request)
  | Look (n : nat) (doc : option gostr) (installed : bool)
  | Looked (n : nat) (region : res AwsCred.fetch_error gostr) (installed : bool)
  | Settle (n : nat) (nonce : gostr) (opened : option gostr)
  | Remove (id : gostr)
  | MintToken (stopping : bool) (now : Z) (sandbox session route : gostr) (seconds : Z)
  | StopRequest (ifIdle : bool)
  | Signal
  | Close
  | AwsVend (sandbox route doc : gostr)
  | AwsVended (t : nat)
  | GcpVend (sandbox route doc : gostr)
  | GcpVended (t : nat)
  | AwsMoves (a : @action AwsCred.Credentials AwsCred.Pointer AwsCred.fetch_error)
  | GcpMoves (a : @action GcpCred.Token GcpCred.Pointer GcpCred.gcloud_error).

Definition server_step (s : server) (e : event) : option server :=
  match e with
  | Begin n q =>
    if is_nil (s_regs s !! n) then match prepare q with Ok rg => Some (set_reg s n rg) | Err _ => Some s end else None
  | Look n doc installed => rg ← s_regs s !! n; look s n rg doc installed
  | Looked n region installed => rg ← s_regs s !! n; look_ends s n rg region installed
  | Settle n nonce opened => rg ← s_regs s !! n; settle_reg s n rg nonce opened
  | Remove id => Some (if ValidID id then (removeSandbox s id).2 else s)
  | MintToken stopping now sandbox session route seconds =>
    Some (match mint_token s stopping now sandbox session route seconds with Ok (_, s') => s' | Err _ => s end)
  | StopRequest ifIdle => Some (stopRequest s ifIdle).2
  | Signal => Some (set_stopping s true)
  | Close => Some (set_diverts s ∅)
  | AwsVend sandbox route doc => Some (aws_vend s sandbox route doc)
  | AwsVended t => (fun v => set_vendors s v (s_gcp s)) <$> vended (s_aws s) t
  | GcpVend sandbox route doc => Some (gcp_vend s sandbox route doc)
  | GcpVended t => (fun v => set_vendors s (s_aws s) v) <$> vended (s_gcp s) t
  | AwsMoves a => if moves_alone a then (fun v => set_vendors s v (s_gcp s)) <$> ve_act aws_expiry (s_aws s) a else None
  | GcpMoves a => if moves_alone a then (fun v => set_vendors s (s_aws s) v) <$> ve_act gcp_expiry (s_gcp s) a else None
  end.

Fixpoint server_run (s : server) (l : list event) : option server :=
  match l with
  | [] => Some s
  | e :: l' => match server_step s e with Some s' => server_run s' l' | None => None end
  end.

(** ** What the parts agree on *)

Definition tracked_routes (h : handler) (caches : gmap gostr gostr) : Prop :=
  forall id sb name rt, h_sandboxes h !! id = Some sb -> sb_routes sb !! name = Some rt ->
    lifecycle_name (r_spec rt) <> [] -> is_Some (caches !! secret_name (r_spec rt)).

Definition core_ok (s : server) : Prop :=
  (forall id, is_Some (s_sandboxes s !! id) <-> is_Some (h_sandboxes (s_handler s) !! id)) /\
  (forall id, is_Some (s_vends s !! id) -> is_Some (s_sandboxes s !! id)) /\
  (forall id, is_Some (s_diverts s !! id) -> is_Some (s_sandboxes s !! id)) /\
  tracked_routes (s_handler s) (s_caches s).

(** What is kept under the lock, the vendors and the registrations apart. *)
Definition same_core (s s' : server) : Prop :=
  s_handler s' = s_handler s /\ s_sandboxes s' = s_sandboxes s /\ s_diverts s' = s_diverts s /\ s_vends s' = s_vends s /\
  s_caches s' = s_caches s /\ s_stopping s' = s_stopping s.

Lemma same_core_ok s s' : same_core s s' -> core_ok s -> core_ok s'.
Proof. unfold core_ok. intros (-> & -> & -> & -> & -> & _). done. Qed.

Definition keys_ok (s : server) : Prop := forall n rg, s_regs s !! n = Some rg -> rg_key rg <> [].
Definition server_ok (s : server) : Prop := core_ok s /\ keys_ok s.

Lemma new_server_ok key now : server_ok (newServer key now).
Proof.
  split; [split; [|split; [|split]]|].
  - intros id. cbn. by rewrite !lookup_empty.
  - intros id [? H]. cbn in H. by rewrite lookup_empty in H.
  - intros id [? H]. cbn in H. by rewrite lookup_empty in H.
  - intros id sb name rt H. cbn in H. by rewrite lookup_empty in H.
  - intros n rg H. cbn in H. by rewrite lookup_empty in H.
Qed.

(** *** Tracking *)

Lemma untrack_lookup names caches x : untrack caches names !! x = if decide (x ∈ names) then None else caches !! x.
Proof.
  unfold untrack. revert caches. induction names as [|n names IH]; intros caches; cbn [foldl].
  - rewrite decide_False; [done|]. by intros H%elem_of_nil.
  - rewrite IH. destruct (decide (x ∈ names)) as [Hin|Hin].
    + rewrite decide_True; [done|]. by right.
    + destruct (decide (n = x)) as [->|Hne].
      * rewrite lookup_delete_eq, decide_True; [done|]. by left.
      * rewrite lookup_delete_ne by done. rewrite decide_False; [done|]. intros [?|?]%elem_of_cons; [congruence|done].
Qed.

Lemma track_cases caches name l created caches' : track caches name l = Some (created, caches') ->
  (created = false /\ caches' = caches /\ (l = [] \/ is_Some (caches !! name))) \/
  (created = true /\ caches !! name = None /\ l = LifecycleAnthropicOAuth /\ caches' = <[name := l]> caches).
Proof.
  unfold track. case_bool_decide as Hl; [intros [= <- <-]; auto|].
  destruct (caches !! name) as [c|] eqn:E; cbn [is_nil negb].
  - intros [= <- <-]. left. eauto.
  - unfold lifecycleRenewer. case_bool_decide as Hr; [|done]. intros [= <- <-]. auto.
Qed.

Lemma track_routes_spec l caches tracked r tracked' caches' :
  track_routes caches tracked l = (r, tracked', caches') ->
  exists new, tracked' = tracked ++ new /\ caches ⊆ caches' /\
    (forall x, x ∈ new -> caches !! x = None) /\ (forall x, is_Some (caches' !! x) -> x ∈ new \/ caches' !! x = caches !! x) /\
    (r = None -> forall rc, rc ∈ l -> lifecycle_name (rc_route rc) <> [] -> is_Some (caches' !! secret_name (rc_route rc))).
Proof.
  revert caches tracked. induction l as [|rc l IH]; intros caches tracked; cbn [track_routes].
  - intros [= <- <- <-]. exists []. rewrite app_nil_r. split; [done|]. split; [done|]. split; [by intros x H%elem_of_nil|].
    split; [auto|]. by intros _ rc H%elem_of_nil.
  - destruct (rt_credential (rc_route rc)) as [cd|] eqn:Ec; cbn [is_nil].
    + destruct (track _ _ _) as [[created caches1]|] eqn:Et.
      * intros H. apply IH in H as (new & -> & Hsub & Hnew & Hold & Hall). apply track_cases in Et as [(-> & -> & Hl)|(-> & Hno & _ & ->)].
        { exists new. split; [done|]. split; [done|]. split; [done|]. split; [done|]. intros Hr rc' [->|Hin]%elem_of_cons Hlc; [|by apply Hall].
          destruct Hl as [?|[v Hv]]; [done|]. exists v. by eapply lookup_weaken. }
        { exists (secret_name (rc_route rc) :: new). rewrite <- app_assoc. split; [done|].
          assert (caches ⊆ caches') as Hs by (etrans; [by apply insert_subseteq|exact Hsub]). split; [exact Hs|]. split; [|split].
          - intros x [->|Hx]%elem_of_cons; [done|]. specialize (Hnew x Hx). by apply lookup_insert_None in Hnew as [? _].
          - intros x Hx. rewrite elem_of_cons. destruct (decide (x = secret_name (rc_route rc))) as [->|Hne]; [auto|].
            destruct (Hold x Hx) as [?|Heq]; [auto|]. rewrite lookup_insert_ne in Heq by done. auto.
          - intros Hr rc' [->|Hin]%elem_of_cons Hlc; [|by apply Hall]. eexists. eapply lookup_weaken; [|exact Hsub]. apply lookup_insert_eq. }
      * intros [= <- <- <-]. exists []. rewrite app_nil_r. split; [done|]. split; [done|]. split; [by intros x H%elem_of_nil|]. split; [auto|done].
    + intros H. apply IH in H as (new & -> & Hsub & Hnew & Hold & Hall). exists new. do 4 (split; [done|]).
      intros Hr rc' [->|Hin]%elem_of_cons Hlc; [|by apply Hall]. unfold lifecycle_name in Hlc. by rewrite Ec in Hlc.
Qed.

(** What a registration tracked, and untracks, leaves the caches as they were. *)
Lemma untrack_tracked l caches r tracked caches' : track_routes caches [] l = (r, tracked, caches') -> untrack caches' tracked = caches.
Proof.
  intros H. apply track_routes_spec in H as (new & -> & Hsub & Hnew & Hold & _). cbn [app]. apply map_eq. intros x.
  rewrite untrack_lookup. destruct (decide (x ∈ new)) as [Hin|Hin]; [by rewrite Hnew|].
  destruct (caches' !! x) as [v|] eqn:E.
  - destruct (Hold x) as [?|Heq]; [by eexists|done|]. by rewrite <- Heq, E.
  - destruct (caches !! x) as [v|] eqn:E2; [|done]. pose proof (lookup_weaken _ _ _ _ E2 Hsub). congruence.
Qed.

Lemma set_caches_same s : set_caches s (s_caches s) = s.
Proof. by destruct s. Qed.

(** *** Registering *)

Lemma AddSandbox_cases h sb nonce h' : AddSandbox hkdf ipv6_literal h sb nonce = Ok h' ->
  exists reg, h_sandboxes h' = <[sc_id sb := reg]> (h_sandboxes h) /\ sb_id reg = sc_id sb /\
    forall name rt, sb_routes reg !! name = Some rt -> exists rc, rc ∈ sc_routes sb /\ r_spec rt = rc_route rc.
Proof.
  unfold AddSandbox. intros H. apply seq_ok in H as [_ H]. apply res_bind_ok in H as (routes & Hr & H). apply seq_ok in H as [_ H].
  injection H as <-. eexists. split; [reflexivity|]. split; [done|]. cbn. intros name rt Hrt.
  apply add_routes_ok in Hr as (_ & _ & Hfrom & _). destruct (Hfrom _ _ Hrt) as [Hn|(rc & Hin & _ & Hreg)]; [by rewrite lookup_empty in Hn|].
  exists rc. split; [done|]. by destruct Hreg as (_ & -> & _).
Qed.

(** What is kept of one sandbox under the lock. *)
Definition view (s : server) (id : gostr) : option gostr * option sandbox * option divertSandbox * option (gmap gostr vendRoute) :=
  (s_sandboxes s !! id, h_sandboxes (s_handler s) !! id, s_diverts s !! id, s_vends s !! id).

Lemma forget_core s id : same_core s (forget s id).
Proof. done. Qed.
Lemma forget_unregistered_core s id : same_core s (forget_unregistered s id).
Proof. unfold forget_unregistered. by destruct (is_nil _). Qed.
Lemma forget_unregistered_regs s id : s_regs (forget_unregistered s id) = s_regs s.
Proof. unfold forget_unregistered. by destruct (is_nil _). Qed.

(** Whether a registration needs a divert socket: it has an address of its own
    for [brig.internal], or modes besides endpoint. *)
Definition needs_socket (rg : registration) : Prop := is_Some (rg_internal rg) \/ sc_modes (rg_sandbox rg) <> [].

(** Every way in which [register] ends. *)
Inductive registers (s : server) (rg : registration) (nonce : gostr) (opened : option gostr) : answer -> server -> Prop :=
  | RegStopping : s_stopping s = true -> registers s rg nonce opened (Refused Stopping) s
  | RegSame : s_stopping s = false -> default [] (s_sandboxes s !! sc_id (rg_sandbox rg)) = rg_key rg ->
      registers s rg nonce opened (added (setVends s (sc_id (rg_sandbox rg)) (rg_vends rg)) (sc_id (rg_sandbox rg)) [])
        (setVends s (sc_id (rg_sandbox rg)) (rg_vends rg))
  | RegRefused r : s_stopping s = false -> default [] (s_sandboxes s !! sc_id (rg_sandbox rg)) <> rg_key rg -> (forall n, r <> Credential n) -> r <> DivertNotOpen -> r <> Stopping ->
      registers s rg nonce opened (Refused r) (forget_unregistered s (sc_id (rg_sandbox rg)))
  | RegNotOpen h : s_stopping s = false -> default [] (s_sandboxes s !! sc_id (rg_sandbox rg)) <> rg_key rg -> needs_socket rg -> AddSandbox hkdf ipv6_literal (s_handler s) (rg_sandbox rg) nonce = Ok h -> opened = None ->
      forall s', s_caches s' = s_caches s -> s_handler s' = RemoveSandbox h (sc_id (rg_sandbox rg)) ->
      s_sandboxes s' = delete (sc_id (rg_sandbox rg)) (s_sandboxes s) -> s_diverts s' = delete (sc_id (rg_sandbox rg)) (s_diverts s) ->
      s_vends s' = delete (sc_id (rg_sandbox rg)) (s_vends s) -> s_stopping s' = false -> s_regs s' = s_regs s ->
      s_aws s' = s_aws (forget s (sc_id (rg_sandbox rg))) -> s_gcp s' = s_gcp (forget s (sc_id (rg_sandbox rg))) ->
      registers s rg nonce opened (Refused DivertNotOpen) s'
  | RegAdded h tracked caches : s_stopping s = false -> default [] (s_sandboxes s !! sc_id (rg_sandbox rg)) <> rg_key rg -> AddSandbox hkdf ipv6_literal (s_handler s) (rg_sandbox rg) nonce = Ok h ->
      track_routes (s_caches s) [] (sc_routes (rg_sandbox rg)) = (None, tracked, caches) ->
      forall s' d, s_caches s' = caches -> s_handler s' = h ->
      s_sandboxes s' = <[sc_id (rg_sandbox rg) := rg_key rg]> (s_sandboxes s) ->
      s_diverts s' = partial_alter (fun _ => d) (sc_id (rg_sandbox rg)) (s_diverts s) ->
      match d with Some d => needs_socket rg /\ dv_internal d = rg_internal rg /\ opened = Some (dv_path d)
              | None => rg_internal rg = None /\ sc_modes (rg_sandbox rg) = [] end ->
      s_vends s' = (if bool_decide (rg_vends rg = ∅) then delete (sc_id (rg_sandbox rg)) (s_vends s)
                    else <[sc_id (rg_sandbox rg) := rg_vends rg]> (s_vends s)) ->
      s_stopping s' = false -> s_regs s' = s_regs s -> s_aws s' = s_aws s -> s_gcp s' = s_gcp s ->
      registers s rg nonce opened (added s' (sc_id (rg_sandbox rg)) tracked) s'.

Lemma register_registers s rg nonce opened a s' : register s rg nonce opened = (a, s') -> registers s rg nonce opened a s'.
Proof.
  unfold register. destruct (s_stopping s) eqn:Es; [intros [= <- <-]; by constructor|].
  case_bool_decide as Hk; [intros [= <- <-]; by constructor|].
  destruct (track_routes _ _ _) as [[untrackable tracked] caches] eqn:Et. pose proof (untrack_tracked _ _ _ _ _ Et) as Hu.
  destruct untrackable as [route|]; [intros [= <- <-]; rewrite Hu, set_caches_same; by constructor|].
  destruct (AddSandbox _ _ _ _ _) as [h|e] eqn:Ea; [|intros [= <- <-]; rewrite Hu, set_caches_same; by constructor].
  destruct (negb (is_nil (rg_internal rg)) || negb (bool_decide (sc_modes (rg_sandbox rg) = []))) eqn:Ed.
  - assert (needs_socket rg) as Hn.
    { apply orb_true_iff in Ed as [E1|E1]; [left; by destruct (rg_internal rg)|right].
      apply negb_true_iff in E1. by apply bool_decide_eq_false in E1. }
    destruct opened as [path|]; intros [= <- <-].
    + eapply (RegAdded s rg nonce _ h tracked caches) with (d := Some (MkDivert path (rg_internal rg))); try done.
      cbn. apply map_eq. intros x. destruct (decide (sc_id (rg_sandbox rg) = x)) as [<-|Hne].
      * by rewrite lookup_insert_eq, lookup_partial_alter_eq.
      * by rewrite lookup_insert_ne, lookup_delete_ne, lookup_partial_alter_ne by done.
    + by eapply RegNotOpen.
  - intros [= <- <-]. apply orb_false_iff in Ed as [E1 E2]. apply negb_false_iff in E1, E2. apply bool_decide_eq_true in E2.
    eapply (RegAdded s rg nonce _ h tracked caches) with (d := None); try done. split; [|done]. by destruct (rg_internal rg).
Qed.

Lemma registers_core s rg nonce opened a s' : core_ok s -> rg_key rg <> [] -> registers s rg nonce opened a s' -> core_ok s'.
Proof.
  intros Hok Hkey H. pose proof Hok as (Hsb & Hv & Hd & Htr).
  destruct H as [|Hst Hsame|r Hst Hk|h Hst Hk Hn Ha Ho s' Ec Eh Es Ed Ev|h tracked caches Hst Hk Ha Ht s' d Ec Eh Es Ed Hdv Ev].
  - done.
  - assert (is_Some (s_sandboxes s !! sc_id (rg_sandbox rg))) as Hin.
    { destruct (s_sandboxes s !! sc_id (rg_sandbox rg)) as [k|]; [by eexists|]. destruct Hkey. symmetry. exact Hsame. }
    split; [exact Hsb|]. split; [|split; [exact Hd|exact Htr]]. intros id Hid. cbn in Hid.
    case_bool_decide; [apply lookup_delete_is_Some in Hid as [_ Hid]; by apply Hv|].
    destruct (decide (sc_id (rg_sandbox rg) = id)) as [<-|Hne]; [done|]. rewrite lookup_insert_ne in Hid by done. by apply Hv.
  - eapply same_core_ok; [apply forget_unregistered_core|done].
  - apply AddSandbox_cases in Ha as (reg & Hreg & _ & _). unfold core_ok. rewrite Ec, Eh, Es, Ed, Ev. unfold RemoveSandbox. cbn.
    rewrite Hreg. split; [|split; [|split]].
    + intros id. rewrite delete_insert_eq. rewrite !lookup_delete_is_Some. by rewrite Hsb.
    + intros id. rewrite !lookup_delete_is_Some. intros [? ?]. auto.
    + intros id. rewrite !lookup_delete_is_Some. intros [? ?]. auto.
    + intros id sb name rt. cbn. rewrite delete_insert_eq. intros [_ Hx]%lookup_delete_Some. by eapply Htr.
  - apply AddSandbox_cases in Ha as (reg & Hreg & _ & Hroutes). unfold core_ok. rewrite Ec, Eh, Es, Ed, Ev, Hreg.
    apply track_routes_spec in Ht as (new & _ & Hsub & _ & _ & Hall). split; [|split; [|split]].
    + intros id. rewrite !lookup_insert_is_Some'. by rewrite Hsb.
    + intros id Hid. rewrite lookup_insert_is_Some'. case_bool_decide.
      * apply lookup_delete_is_Some in Hid as [_ Hid]. right. by apply Hv.
      * rewrite lookup_insert_is_Some' in Hid. destruct Hid as [?|?]; [by left|right; by apply Hv].
    + intros id Hid. rewrite lookup_insert_is_Some'. destruct (decide (sc_id (rg_sandbox rg) = id)) as [->|Hne]; [by left|].
      rewrite lookup_partial_alter_ne in Hid by done. right. by apply Hd.
    + intros id sb name rt Hsbx Hrt Hlc. rewrite Hreg in Hsbx. apply lookup_insert_Some in Hsbx as [[_ <-]|[_ Hsbx]].
      * destruct (Hroutes _ _ Hrt) as (rc & Hin & Hspec). rewrite Hspec in Hlc |- *. by apply Hall.
      * destruct (Htr _ _ _ _ Hsbx Hrt Hlc) as [v Hval]. exists v. by eapply lookup_weaken.
Qed.

Lemma prepare_key q rg : prepare q = Ok rg -> rg_key rg <> [].
Proof.
  unfold prepare. intros H. apply seq_ok in H as [_ H]. apply res_bind_ok in H as (i & _ & H). apply seq_ok in H as [_ H].
  apply res_bind_ok in H as (routes & _ & H). destruct (members _ _ _); [|done]. by injection H as <-.
Qed.

(** The looks change the vendors and their registration. *)
Ltac same_core := split; [done|eexists; split; reflexivity].
Lemma look_core s n rg doc installed s' : look s n rg doc installed = Some s' ->
  same_core s s' /\ exists rg', s_regs s' = <[n := rg']> (s_regs s) /\ rg_key rg' = rg_key rg.
Proof.
  unfold look. intros H. destruct (rg_phase rg); try done. destruct (rg_todo rg) as [|[route secret|route secret] todo]; [done| |].
  - destruct doc as [d|]; [|injection H as <-; same_core]. destruct (AwsCred.ParsePointer d) as [p|e]; [|injection H as <-; same_core].
    destruct (ve_call _ _ _ _ _) as [t v]. injection H as <-. same_core.
  - destruct doc as [d|]; [|injection H as <-; same_core]. destruct (negb (GcpCred.IsPointer d)); [injection H as <-; same_core|].
    destruct (GcpCred.ParsePointer d) as [p|e]; [|injection H as <-; same_core].
    destruct (ve_call _ _ _ _ _) as [t v]. injection H as <-. same_core.
Qed.

Lemma look_ends_core s n rg region installed s' : look_ends s n rg region installed = Some s' ->
  same_core s s' /\ exists rg', s_regs s' = <[n := rg']> (s_regs s) /\ rg_key rg' = rg_key rg.
Proof.
  unfold look_ends. intros H. destruct (rg_phase rg) as [|t route|t route|e|a]; try done.
  - destruct (returned (s_aws s) t) as [[ca [[x|e]|]]|]; [| | |done].
    + destruct region; injection H as <-; same_core.
    + injection H as <-; same_core.
    + injection H as <-; same_core.
  - destruct (returned (s_gcp s) t) as [[ca [[x|e]|]]|]; [| | |done]; injection H as <-; same_core.
Qed.

Lemma registers_regs s rg nonce opened a s' : registers s rg nonce opened a s' -> s_regs s' = s_regs s.
Proof. intros []; try done. apply forget_unregistered_regs. Qed.

Lemma keys_insert s s' n rg : keys_ok s -> s_regs s' = <[n := rg]> (s_regs s) -> rg_key rg <> [] -> keys_ok s'.
Proof. intros H E Hk m r. rewrite E. intros [[_ <-]|[_ Hm]]%lookup_insert_Some; [done|by eapply H]. Qed.

Lemma settle_reg_cases s n rg nonce opened s' : settle_reg s n rg nonce opened = Some s' ->
  (exists e, rg_phase rg = Fails e /\
     s' = set_reg (forget_unregistered s (sc_id (rg_sandbox rg))) n (with_phase rg (Settled (Refused (Credential e))))) \/
  (exists a s1, rg_phase rg = Looks /\ rg_todo rg = [] /\ registers s rg nonce opened a s1 /\ s' = set_reg s1 n (with_phase rg (Settled a))).
Proof.
  unfold settle_reg. destruct (rg_phase rg) as [|t route|t route|e|a0]; try done.
  - destruct (rg_todo rg); [|done]. destruct (register s rg nonce opened) as [a s1] eqn:E. intros [= <-]. right.
    exists a, s1. split; [done|]. split; [done|]. split; [by apply register_registers|done].
  - intros H. left. exists e. split; [done|]. destruct (rg_todo rg); by injection H as <-.
Qed.

Lemma mint_token_core s stopping now sandbox session route seconds t s' :
  mint_token s stopping now sandbox session route seconds = Ok (t, s') ->
  s_sandboxes s' = s_sandboxes s /\ s_diverts s' = s_diverts s /\ s_vends s' = s_vends s /\ s_caches s' = s_caches s /\
  s_stopping s' = s_stopping s /\ s_regs s' = s_regs s /\ s_aws s' = s_aws s /\ s_gcp s' = s_gcp s /\
  exists sb l, h_sandboxes (s_handler s) !! sandbox = Some sb /\
    h_sandboxes (s_handler s') = <[sandbox := set_live sb l]> (h_sandboxes (s_handler s)).
Proof.
  unfold mint_token. intros H. apply seq_ok in H as [_ H]. apply seq_ok in H as [_ H]. apply res_bind_ok in H as ([tok h] & Hm & H).
  injection H as <- <-. do 8 (split; [done|]). apply map_err_ok in Hm. unfold Registry.Mint, find_sandbox in Hm.
  destruct (mint_ttl seconds <=? 0)%Z; [done|]. destruct (h_sandboxes (s_handler s) !! sandbox) as [sb|] eqn:E; [|done].
  destruct (is_nil _); [done|]. injection Hm as <- <-. eauto.
Qed.

Lemma step_ok s e s' : server_ok s -> server_step s e = Some s' -> server_ok s'.
Proof.
  intros [Hc Hk] H. pose proof Hc as (Hsb & Hv & Hd & Htr).
  destruct e as [n q|n doc inst|n region inst|n nonce opened|id|stopping now sandbox session route secs|idle| | |sb route doc|t|sb route doc|t|a|a];
    cbn [server_step] in H.
  - destruct (is_nil _); [|done]. destruct (prepare q) as [rg|] eqn:Eq; injection H as <-; [|done].
    split; [exact Hc|]. eapply keys_insert; [exact Hk|reflexivity|by eapply prepare_key].
  - apply bind_Some in H as (rg & Hn & H). apply look_core in H as (Hs & rg' & Hr & E). split; [by eapply same_core_ok|].
    eapply keys_insert; [exact Hk|exact Hr|]. rewrite E. by eapply Hk.
  - apply bind_Some in H as (rg & Hn & H). apply look_ends_core in H as (Hs & rg' & Hr & E). split; [by eapply same_core_ok|].
    eapply keys_insert; [exact Hk|exact Hr|]. rewrite E. by eapply Hk.
  - apply bind_Some in H as (rg & Hn & H). pose proof (Hk _ _ Hn) as Hkey.
    apply settle_reg_cases in H as [(e & _ & ->)|(a & s1 & _ & _ & Hr & ->)].
    + split; [exact (same_core_ok _ _ (forget_unregistered_core s _) Hc)|].
      eapply (keys_insert s _ n (with_phase rg _)); [exact Hk| |exact Hkey]. cbn [s_regs set_reg]. rewrite forget_unregistered_regs. reflexivity.
    + split; [exact (registers_core _ _ _ _ _ _ Hc Hkey Hr)|]. eapply (keys_insert s _ n (with_phase rg _)); [exact Hk| |exact Hkey].
      cbn [s_regs set_reg]. rewrite (registers_regs _ _ _ _ _ _ Hr). reflexivity.
  - destruct (ValidID id); injection H as <-; [|done]. split; [|exact Hk]. split; [|split; [|split]].
    + intros i. cbn. rewrite !lookup_delete_is_Some. by rewrite Hsb.
    + intros i. cbn. rewrite !lookup_delete_is_Some. intros [? ?]. auto.
    + intros i. cbn. rewrite !lookup_delete_is_Some. intros [? ?]. auto.
    + intros i sb name rt Hi. cbn in Hi. apply lookup_delete_Some in Hi as [_ Hi]. exact (Htr _ _ _ _ Hi).
  - destruct (mint_token _ _ _ _ _ _ _) as [[t s1]|] eqn:Em; injection H as <-; [|done].
    apply mint_token_core in Em as (E1 & E2 & E3 & E4 & _ & E6 & _ & _ & sb & l & Hs & E5). split; [|intros n rg; rewrite E6; apply Hk].
    unfold core_ok. rewrite E1, E2, E3, E4, E5. split; [|split; [exact Hv|split; [exact Hd|]]].
    + intros i. rewrite Hsb, lookup_insert_is_Some'. split; [by right|]. intros [<-|?]; [by eexists|done].
    + intros i sb' name rt Hi. rewrite E5 in Hi. apply lookup_insert_Some in Hi as [[_ <-]|[_ Hi]]; [|exact (Htr _ _ _ _ Hi)].
      exact (Htr _ _ _ _ Hs).
  - injection H as <-. unfold stopRequest. cbn. by destruct (negb idle || _).
  - by injection H as <-.
  - injection H as <-. split; [|exact Hk]. split; [exact Hsb|]. split; [exact Hv|]. split; [|exact Htr].
    intros i [? Hi]. cbn in Hi. by rewrite lookup_empty in Hi.
  - injection H as <-. unfold aws_vend. destruct (AwsCred.ParsePointer doc); [|done]. by destruct (ve_call _ _ _ _ _).
  - apply fmap_Some in H as (v & _ & ->). done.
  - injection H as <-. unfold gcp_vend. destruct (GcpCred.ParsePointer doc); [|done]. by destruct (ve_call _ _ _ _ _).
  - apply fmap_Some in H as (v & _ & ->). done.
  - destruct (moves_alone a); [|done]. apply fmap_Some in H as (v & _ & ->). done.
  - destruct (moves_alone a); [|done]. apply fmap_Some in H as (v & _ & ->). done.
Qed.

Lemma run_ok l s s' : server_ok s -> server_run s l = Some s' -> server_ok s'.
Proof.
  revert s. induction l as [|e l IH]; intros s Hs H; cbn [server_run] in H; [by injection H as <-|].
  destruct (server_step s e) as [s1|] eqn:E; [|done]. eapply IH; [by eapply step_ok|exact H].
Qed.

(** ** What holds of every run *)

(** What a registration leaves of its own sandbox. *)
Lemma registers_view_other s rg nonce opened a s' id : registers s rg nonce opened a s' -> id <> sc_id (rg_sandbox rg) -> view s' id = view s id.
Proof.
  intros H Hne. unfold view.
  destruct H as [|Hst Hsame|r Hst Hk|h Hst Hk Hn Ha Ho s' Ec Eh Es Ed Ev|h tracked caches Hst Hk Ha Ht s' d Ec Eh Es Ed Hdv Ev].
  - done.
  - cbn. case_bool_decide; [by rewrite lookup_delete_ne|by rewrite lookup_insert_ne].
  - destruct (forget_unregistered_core s (sc_id (rg_sandbox rg))) as (-> & -> & -> & -> & _). done.
  - apply AddSandbox_cases in Ha as (reg & Hreg & _ & _). rewrite Eh, Es, Ed, Ev. unfold RemoveSandbox. cbn. rewrite Hreg.
    by rewrite !lookup_delete_ne, lookup_insert_ne by done.
  - apply AddSandbox_cases in Ha as (reg & Hreg & _ & _). rewrite Eh, Es, Ed, Ev, Hreg.
    rewrite !lookup_insert_ne, lookup_partial_alter_ne by done. case_bool_decide; [by rewrite lookup_delete_ne|by rewrite lookup_insert_ne].
Qed.

Definition unregistered : option gostr * option sandbox * option divertSandbox * option (gmap gostr vendRoute) := (None, None, None, None).

Lemma view_unregistered s id : core_ok s -> s_sandboxes s !! id = None -> view s id = unregistered.
Proof.
  intros (Hsb & Hv & Hd & _) Hno. unfold view, unregistered. specialize (Hsb id). specialize (Hv id). specialize (Hd id). rewrite Hno in *.
  destruct (h_sandboxes (s_handler s) !! id); [by destruct (proj2 Hsb)|]. destruct (s_diverts s !! id); [by destruct Hd|].
  destruct (s_vends s !! id); [by destruct Hv|]. done.
Qed.

(** The sandbox that a new registration leaves with the handler: a key drawn
    anew, so that no token minted before is good, nothing minted or learned
    yet, and the routes of the registration, each under its name. *)
Definition starts_anew (h : handler) (sc : SandboxConfig) (nonce : gostr) (sb : sandbox) : Prop :=
  sb_key sb = sandboxKey hkdf (h_hostKey h) (sc_id sc) nonce /\ sb_live sb = LiveState [] None /\
  (forall rc, rc ∈ sc_routes sc -> exists rt, sb_routes sb !! rt_name (rc_route rc) = Some rt /\ r_spec rt = rc_route rc) /\
  (forall name rt, sb_routes sb !! name = Some rt -> exists rc, rc ∈ sc_routes sc /\ rt_name (rc_route rc) = name /\ r_spec rt = rc_route rc).

Lemma AddSandbox_anew h sb nonce h' : AddSandbox hkdf ipv6_literal h sb nonce = Ok h' ->
  exists reg, h_sandboxes h' !! sc_id sb = Some reg /\ starts_anew h sb nonce reg.
Proof.
  intros (_ & _ & _ & reg & Hreg & _ & _ & Hkey & Hlive & Hfrom & Hall & _)%AddSandbox_registers.
  exists reg. split; [done|]. split; [done|]. split; [done|]. split.
  - intros rc (rt & Hrt & _ & Hspec & _)%Hall. by exists rt.
  - intros name rt (rc & Hrc & Hname & _ & Hspec & _)%Hfrom. by exists rc.
Qed.

Definition kept_vends (rg : registration) : option (gmap gostr vendRoute) :=
  if bool_decide (rg_vends rg = ∅) then None else Some (rg_vends rg).

Lemma setVends_at s rg : s_vends (setVends s (sc_id (rg_sandbox rg)) (rg_vends rg)) !! sc_id (rg_sandbox rg) = kept_vends rg.
Proof. unfold setVends, kept_vends. cbn. case_bool_decide; [apply lookup_delete_eq|apply lookup_insert_eq]. Qed.

(** What the answer to a registration that was taken says of its socket, of the
    certificate authority, and of its routes that vend. *)
Lemma added_answer s rg recovers r : added s (sc_id (rg_sandbox rg)) recovers = Added r ->
  s_vends s !! sc_id (rg_sandbox rg) = kept_vends rg ->
  ar_vends r = rg_vends rg /\ ar_socket r = default [] (dv_path <$> s_diverts s !! sc_id (rg_sandbox rg)) /\
  ar_ca r = negb (is_nil (s_diverts s !! sc_id (rg_sandbox rg) ≫= dv_internal)).
Proof.
  unfold added. intros H Hv. rewrite Hv in H. unfold kept_vends in H.
  destruct (s_diverts s !! sc_id (rg_sandbox rg)) as [d|]; injection H as <-; cbn; (split; [|done]); case_bool_decide; done.
Qed.

(** C35: what registering a sandbox comes to.  No other sandbox changes, and no
    credential that was tracked is dropped.  A refusal tracks nothing; it
    leaves a sandbox that was not registered unregistered, and one that was
    either as it was or, where its divert socket did not open, unregistered;
    only a broker that is stopping answers so.  The same registration again
    leaves the handler, so the tokens and the routes, and the socket alone.
    Any other replaces the sandbox: under a new key, with no token, with its
    own routes each under its name, and with a divert socket exactly when it
    has an address or modes, which is then the one that opened.  Either way
    what its routes vend is what its looks learned, and the answer says so. *)
Theorem register_outcome (key : gostr) (now : Z) (l : list event) (s : server) (rg : registration) (nonce : gostr) (opened : option gostr)
    (a : answer) (s' : server) :
  server_run (newServer key now) l = Some s -> register s rg nonce opened = (a, s') ->
  let id := sc_id (rg_sandbox rg) in
  (forall id', id' <> id -> view s' id' = view s id') /\ s_caches s ⊆ s_caches s' /\
  (a = Refused Stopping <-> s_stopping s = true) /\
  (forall r, a = Refused r -> s_caches s' = s_caches s /\
     (view s' id = view s id \/ (r = DivertNotOpen /\ needs_socket rg /\ opened = None /\ view s' id = unregistered)) /\
     (s_sandboxes s !! id = None -> view s' id = unregistered)) /\
  (forall r, a = Added r ->
     s_vends s' !! id = kept_vends rg /\ ar_vends r = rg_vends rg /\
     ar_socket r = default [] (dv_path <$> s_diverts s' !! id) /\ ar_ca r = negb (is_nil (s_diverts s' !! id ≫= dv_internal)) /\
     (default [] (s_sandboxes s !! id) = rg_key rg ->
        s_handler s' = s_handler s /\ s_sandboxes s' = s_sandboxes s /\ s_diverts s' = s_diverts s) /\
     (default [] (s_sandboxes s !! id) <> rg_key rg ->
        s_sandboxes s' !! id = Some (rg_key rg) /\
        (exists sb, h_sandboxes (s_handler s') !! id = Some sb /\ starts_anew (s_handler s) (rg_sandbox rg) nonce sb) /\
        (needs_socket rg -> exists path, opened = Some path /\ s_diverts s' !! id = Some (MkDivert path (rg_internal rg))) /\
        (~ needs_socket rg -> s_diverts s' !! id = None))).
Proof.
  intros Hr H id. subst id. apply run_ok in Hr as [Hok _]; [|apply new_server_ok]. apply register_registers in H.
  split; [intros id'; by eapply registers_view_other|].
  destruct H as [Hst|Hst Hsame|r Hst Hk Hc1 Hc2 Hc3|h Hst Hk Hn Ha Ho s' Ec Eh Es Ed Ev|h tracked caches Hst Hk Ha Ht s' d Ec Eh Es Ed Hdv Ev].
  - split; [done|]. split; [done|]. split; [|done]. intros r _. split; [done|]. split; [by left|]. by apply view_unregistered.
  - split; [done|]. split; [rewrite Hst; split; [unfold added; by destruct (match _ with Some d => _ | None => _ end)|done]|].
    split; [unfold added; by destruct (match _ with Some d => _ | None => _ end)|].
    intros r Hadd. pose proof (setVends_at s rg) as Hv. destruct (added_answer _ _ _ _ Hadd Hv) as (A1 & A2 & A3).
    do 4 (split; [done|]). split; [done|]. by intros Hne.
  - set (id := sc_id (rg_sandbox rg)). destruct (forget_unregistered_core s id) as (E1 & E2 & E3 & E4 & E5 & _).
    assert (view (forget_unregistered s id) id = view s id) as Ev by (unfold view; by rewrite E1, E2, E3, E4).
    rewrite E5, Ev. split; [done|]. split; [rewrite Hst; split; [congruence|done]|]. split; [|done].
    intros r' _. split; [done|]. split; [by left|]. by apply view_unregistered.
  - apply AddSandbox_cases in Ha as (reg & Hreg & _ & _).
    assert (view s' (sc_id (rg_sandbox rg)) = unregistered) as Hview.
    { unfold view, unregistered. rewrite Eh, Es, Ed, Ev. unfold RemoveSandbox. cbn. by rewrite !lookup_delete_eq. }
    rewrite Ec, Hview, Hst. split; [done|]. split; [done|]. split; [|done]. intros r [= <-]. split; [done|]. split; [by right|done].
  - apply track_routes_spec in Ht as (new & _ & Hsub & _).
    rewrite Ec, Hst. split; [exact Hsub|]. split; [split; [unfold added; by destruct (match _ with Some d => _ | None => _ end)|done]|].
    split; [unfold added; by destruct (match _ with Some d => _ | None => _ end)|].
    intros r Hadd. assert (s_vends s' !! sc_id (rg_sandbox rg) = kept_vends rg) as Hv.
    { rewrite Ev. unfold kept_vends. case_bool_decide; [apply lookup_delete_eq|apply lookup_insert_eq]. }
    destruct (added_answer _ _ _ _ Hadd Hv) as (A1 & A2 & A3). do 4 (split; [done|]). split; [done|]. intros _.
    rewrite Es, Eh, lookup_insert_eq. split; [done|]. split; [by apply AddSandbox_anew|].
    rewrite Ed, lookup_partial_alter_eq. destruct d as [d|].
    + destruct Hdv as (Hn & <- & ->). split; [intros _; exists (dv_path d); split; [done|by destruct d]|done].
    + destruct Hdv as [Hi Hm]. split; [|done]. intros [[x Hx]|Hx]; [congruence|done].
Qed.

(** *** Stopping *)

Lemma step_stopped s e s' : server_step s e = Some s' -> core_ok s -> s_stopping s = true -> s_sandboxes s = ∅ ->
  s_stopping s' = true /\ s_sandboxes s' = ∅.
Proof.
  intros H Hok Hst Hemp.
  destruct e as [n q|n doc inst|n region inst|n nonce opened|id|stopping now sandbox session route secs|idle| | |sb route doc|t|sb route doc|t|a|a];
    cbn [server_step] in H.
  - destruct (is_nil _); [|done]. destruct (prepare q); by injection H as <-.
  - apply bind_Some in H as (rg & Hn & H). apply look_core in H as ((_ & E & _ & _ & _ & E2) & _). by rewrite E, E2.
  - apply bind_Some in H as (rg & Hn & H). apply look_ends_core in H as ((_ & E & _ & _ & _ & E2) & _). by rewrite E, E2.
  - apply bind_Some in H as (rg & Hn & H). apply settle_reg_cases in H as [(e & _ & ->)|(a & s1 & _ & _ & Hr & ->)]; cbn [s_stopping s_sandboxes set_reg].
    + destruct (forget_unregistered_core s (sc_id (rg_sandbox rg))) as (_ & -> & _ & _ & _ & ->). done.
    + destruct Hr; try congruence. done.
  - destruct (ValidID id); injection H as <-; [|done]. cbn. by rewrite Hemp, delete_empty.
  - destruct (mint_token _ _ _ _ _ _ _) as [[t s1]|] eqn:Em; injection H as <-; [|done].
    apply mint_token_core in Em as (E1 & _ & _ & _ & E5 & _). by rewrite E1, E5.
  - injection H as <-. unfold stopRequest. cbn. by destruct (negb idle || _).
  - by injection H as <-.
  - by injection H as <-.
  - injection H as <-. unfold aws_vend. destruct (AwsCred.ParsePointer doc); [|done]. by destruct (ve_call _ _ _ _ _).
  - by apply fmap_Some in H as (v & _ & ->).
  - injection H as <-. unfold gcp_vend. destruct (GcpCred.ParsePointer doc); [|done]. by destruct (ve_call _ _ _ _ _).
  - by apply fmap_Some in H as (v & _ & ->).
  - destruct (moves_alone a); [|done]. by apply fmap_Some in H as (v & _ & ->).
  - destruct (moves_alone a); [|done]. by apply fmap_Some in H as (v & _ & ->).
Qed.

Lemma run_stopped l s s' : server_ok s -> s_stopping s = true -> s_sandboxes s = ∅ -> server_run s l = Some s' -> s_sandboxes s' = ∅.
Proof.
  revert s. induction l as [|e l IH]; intros s Hok Hst Hemp H; cbn [server_run] in H; [by injection H as <-|].
  destruct (server_step s e) as [s1|] eqn:E; [|done]. destruct (step_stopped _ _ _ E (proj1 Hok) Hst Hemp) as [? ?].
  eapply (IH s1); try done. by eapply step_ok.
Qed.

(** A broker that agreed to stop because it is idle never has a sandbox
    again, whatever registrations were under way. *)
Lemma idle_stop_final (key : gostr) (now : Z) (l1 l2 : list event) (s1 s2 s3 : server) (first : bool) :
  server_run (newServer key now) l1 = Some s1 -> stopRequest s1 true = ((true, first), s2) -> server_run s2 l2 = Some s3 ->
  s_sandboxes s3 = ∅ /\ h_sandboxes (s_handler s3) = ∅.
Proof.
  intros H1 Hstop H3. apply run_ok in H1 as Hok1; [|apply new_server_ok]. unfold stopRequest in Hstop. cbn [negb orb] in Hstop.
  case_bool_decide as Hemp; [|done]. injection Hstop as _ <-.
  assert (server_ok (set_stopping s1 true)) as Hok2 by exact Hok1.
  pose proof (run_stopped l2 _ _ Hok2 eq_refl Hemp H3) as Hend.
  split; [exact Hend|]. pose proof (run_ok _ _ _ Hok2 H3) as [(Hsb & _) _]. apply map_empty. intros id.
  destruct (h_sandboxes (s_handler s3) !! id) as [sb|] eqn:E; [|done]. destruct (proj2 (Hsb id)) as [k Hk]; [by rewrite E|].
  by rewrite Hend, lookup_empty in Hk.
Qed.

(** *** Keys and tokens *)

(** A vendor's cache went from one state to another by its own actions. *)
Definition moves {C P E : Type} `{EqDecision P} (expiry : C -> Z) (v v' : vendor C P E) : Prop :=
  exists l, cache_run expiry (ve_cache v) l = Some (ve_cache v').

Section Moves.
Context {C P E : Type} `{EqDecision P}.
Variable expiry : C -> Z.
Implicit Types v : vendor C P E.

Lemma moves_same v v' : ve_cache v' = ve_cache v -> moves expiry v v'.
Proof. intros Heq. exists []. cbn. by rewrite Heq. Qed.

Lemma moves_trans v1 v2 v3 : moves expiry v1 v2 -> moves expiry v2 v3 -> moves expiry v1 v3.
Proof. intros [l1 H1] [l2 H2]. exists (l1 ++ l2). by rewrite CredCache.run_app, H1. Qed.

Lemma ve_call_moves v sandbox route p margin t v' : ve_call v sandbox route p margin = (t, v') -> moves expiry v v'.
Proof. intros [= _ <-]. by exists [Call (sandbox, route) p margin]. Qed.

Lemma ve_forget_moves v sandbox : moves expiry v (ve_forget expiry v sandbox).
Proof. by exists [Forget sandbox]. Qed.

Lemma ve_act_moves v a v' : ve_act expiry v a = Some v' -> moves expiry v v'.
Proof. unfold ve_act. intros (c & Hc & ->)%fmap_Some. exists [a]. cbn. by rewrite Hc. Qed.

Lemma vended_moves v t v' : vended v t = Some v' -> moves expiry v v'.
Proof.
  unfold vended. case_bool_decide; [|done]. destruct (returned v t) as [[ca r]|]; [|done]. destruct (ca_key ca) as [sandbox route].
  intros [= <-]. apply moves_same. by destruct r as [[]|].
Qed.

(** A call of a sandbox that begins in a cache after [c1] is given only what a
    fetch that began after it brought. *)
Definition fresh_keys (c1 c2 : @cache C P E) (sandbox : gostr) : Prop :=
  forall t ca x, cc_calls c2 !! t = Some ca -> (cc_next c1 <= t)%nat -> (ca_key ca).1 = sandbox -> given ca x ->
    exists f fl, (cc_next c1 <= f)%nat /\ cc_flights c2 !! f = Some fl /\ fl_result fl = Some (Ok x).

Lemma moves_fresh now v v1 v2 sandbox : moves expiry (MkVendor (NewCache now) ∅ ∅) v ->
  ve_cache v1 = ve_cache (ve_forget expiry v sandbox) -> moves expiry v1 v2 -> fresh_keys (ve_cache v1) (ve_cache v2) sandbox.
Proof.
  intros [l1 H1] Hf [l2 H2]. unfold fresh_keys. eapply (forgotten_keys expiry l1 l2 now sandbox); [|exact H2].
  rewrite CredCache.run_app. cbn [ve_cache] in H1. rewrite H1, Hf. done.
Qed.
End Moves.

Definition both_move (s s' : server) : Prop := moves aws_expiry (s_aws s) (s_aws s') /\ moves gcp_expiry (s_gcp s) (s_gcp s').

Lemma both_same s s' : s_aws s' = s_aws s -> s_gcp s' = s_gcp s -> both_move s s'.
Proof. unfold both_move. intros -> ->. split; by apply moves_same. Qed.

Lemma forget_moves s id : both_move s (forget s id).
Proof. split; apply ve_forget_moves. Qed.
Lemma forget_unregistered_moves s id : both_move s (forget_unregistered s id).
Proof. unfold forget_unregistered. destruct (is_nil _); [apply forget_moves|by apply both_same]. Qed.

Lemma registers_moves s rg nonce opened a s' : registers s rg nonce opened a s' -> both_move s s'.
Proof.
  intros [|?|r| |]; try by apply both_same.
  - apply forget_unregistered_moves.
  - pose proof (forget_moves s (sc_id (rg_sandbox rg))) as [Ha Hg]. unfold both_move. split; [|]; (match goal with E : _ = s_aws _ |- moves _ (s_aws _) _ => rewrite E | E : _ = s_gcp _ |- _ => rewrite E end); done.
Qed.

Lemma aws_moves s v s' : moves aws_expiry (s_aws s) v -> s_aws s' = v -> s_gcp s' = s_gcp s -> both_move s s'.
Proof. intros H <- E. split; [exact H|]. by apply moves_same; rewrite E. Qed.
Lemma gcp_moves s v s' : moves gcp_expiry (s_gcp s) v -> s_gcp s' = v -> s_aws s' = s_aws s -> both_move s s'.
Proof. intros H <- E. split; [|exact H]. by apply moves_same; rewrite E. Qed.

Lemma look_moves s n rg doc inst s' : look s n rg doc inst = Some s' -> both_move s s'.
Proof.
  unfold look. intros H. destruct (rg_phase rg); try done. destruct (rg_todo rg) as [|[route secret|route secret] todo]; [done| |].
  - destruct doc as [d|]; [|injection H as <-; by apply both_same].
    destruct (AwsCred.ParsePointer d) as [p|e]; [|injection H as <-; eapply aws_moves; [|done..]; by apply moves_same].
    destruct (ve_call _ _ _ _ _) as [t v] eqn:Ev. injection H as <-. eapply aws_moves; [|done..]. by eapply ve_call_moves.
  - destruct doc as [d|]; [|injection H as <-; by apply both_same]. destruct (negb (GcpCred.IsPointer d)); [injection H as <-; by apply both_same|].
    destruct (GcpCred.ParsePointer d) as [p|e]; [|injection H as <-; eapply gcp_moves; [|done..]; by apply moves_same].
    destruct (ve_call _ _ _ _ _) as [t v] eqn:Ev. injection H as <-. eapply gcp_moves; [|done..]. by eapply ve_call_moves.
Qed.

Lemma look_ends_moves s n rg region inst s' : look_ends s n rg region inst = Some s' -> both_move s s'.
Proof.
  unfold look_ends. intros H. destruct (rg_phase rg) as [|t route|t route|e|a]; try done.
  - destruct (returned (s_aws s) t) as [[ca [[x|e]|]]|]; [destruct region| | |done]; injection H as <-;
      (eapply aws_moves; [|done..]; by apply moves_same).
  - destruct (returned (s_gcp s) t) as [[ca [[x|e]|]]|]; [| | |done]; injection H as <-; (eapply gcp_moves; [|done..]; by apply moves_same).
Qed.

Lemma step_moves s e s' : server_step s e = Some s' -> both_move s s'.
Proof.
  intros H.
  destruct e as [n q|n doc inst|n region inst|n nonce opened|id|stopping now sandbox session route secs|idle| | |sb route doc|t|sb route doc|t|a|a];
    cbn [server_step] in H.
  - destruct (is_nil _); [|done]. destruct (prepare q); injection H as <-; by apply both_same.
  - apply bind_Some in H as (rg & Hn & H). by eapply look_moves.
  - apply bind_Some in H as (rg & Hn & H). by eapply look_ends_moves.
  - apply bind_Some in H as (rg & Hn & H). apply settle_reg_cases in H as [(e & _ & ->)|(a & s1 & _ & _ & Hr & ->)].
    + exact (forget_unregistered_moves s _).
    + exact (registers_moves _ _ _ _ _ _ Hr).
  - destruct (ValidID id); injection H as <-; [exact (forget_moves s id)|by apply both_same].
  - destruct (mint_token _ _ _ _ _ _ _) as [[t s1]|] eqn:Em; injection H as <-; [|by apply both_same].
    apply mint_token_core in Em as (_ & _ & _ & _ & _ & _ & E1 & E2 & _). by apply both_same.
  - injection H as <-. unfold stopRequest. cbn. destruct (negb idle || _); by apply both_same.
  - injection H as <-. by apply both_same.
  - injection H as <-. by apply both_same.
  - injection H as <-. unfold aws_vend. destruct (AwsCred.ParsePointer doc); [|eapply aws_moves; [|done..]; by apply moves_same].
    destruct (ve_call _ _ _ _ _) as [t v] eqn:Ev. eapply aws_moves; [|done..]. exact (ve_call_moves _ _ _ _ _ _ _ _ Ev).
  - apply fmap_Some in H as (v & Hv & ->). eapply aws_moves; [|done..]. by eapply vended_moves.
  - injection H as <-. unfold gcp_vend. destruct (GcpCred.ParsePointer doc); [|eapply gcp_moves; [|done..]; by apply moves_same].
    destruct (ve_call _ _ _ _ _) as [t v] eqn:Ev. eapply gcp_moves; [|done..]. exact (ve_call_moves _ _ _ _ _ _ _ _ Ev).
  - apply fmap_Some in H as (v & Hv & ->). eapply gcp_moves; [|done..]. by eapply vended_moves.
  - destruct (moves_alone a); [|done]. apply fmap_Some in H as (v & Hv & ->). eapply aws_moves; [|done..]. by eapply ve_act_moves.
  - destruct (moves_alone a); [|done]. apply fmap_Some in H as (v & Hv & ->). eapply gcp_moves; [|done..]. by eapply ve_act_moves.
Qed.

Lemma both_trans s1 s2 s3 : both_move s1 s2 -> both_move s2 s3 -> both_move s1 s3.
Proof. intros [? ?] [? ?]. split; by eapply moves_trans. Qed.

Lemma run_moves l s s' : server_run s l = Some s' -> both_move s s'.
Proof.
  revert s. induction l as [|e l IH]; intros s H; cbn [server_run] in H; [injection H as <-; by apply both_same|].
  destruct (server_step s e) as [s1|] eqn:E; [|done]. eapply both_trans; [by eapply step_moves|by apply IH].
Qed.

(** An event [e] of [s], leading to [s1], with which the sandbox [id] is gone:
    it is removed; or a registration of it is refused, for whatever reason but
    that the broker is stopping, when it was not registered or with the refusal
    that unregisters it. *)
Definition forgets (s : server) (e : event) (s1 : server) (id : gostr) : Prop :=
  (e = Remove id /\ ValidID id = true) \/
  (exists n nonce opened rg r, e = Settle n nonce opened /\ s_regs s1 !! n = Some rg /\ rg_phase rg = Settled (Refused r) /\
     sc_id (rg_sandbox rg) = id /\ r <> Stopping /\ (s_sandboxes s !! id = None \/ r = DivertNotOpen)).

(** What the two vendors then are. *)
Definition vendors_forgot (s s1 : server) (id : gostr) : Prop := s_aws s1 = s_aws (forget s id) /\ s_gcp s1 = s_gcp (forget s id).

Lemma forget_unregistered_none s id : s_sandboxes s !! id = None -> forget_unregistered s id = forget s id.
Proof. intros H. unfold forget_unregistered. by rewrite H. Qed.

Lemma not_refused s id recovers r : added s id recovers <> Refused r.
Proof. unfold added. by destruct (match _ with Some d => _ | None => _ end). Qed.

Lemma forgets_vendors s e id s1 : forgets s e s1 id -> server_step s e = Some s1 -> vendors_forgot s s1 id.
Proof.
  intros [[-> Hid]|(n & nonce & opened & rg & r & -> & Hn & Hp & <- & Hr & Hno)] H; cbn [server_step] in H.
  { rewrite Hid in H. by injection H as <-. }
  apply bind_Some in H as (rg0 & Hn0 & H). apply settle_reg_cases in H as [(e & Hf & ->)|(a & s2 & _ & _ & Ha & ->)];
    cbn [s_regs set_reg] in Hn; rewrite lookup_insert_eq in Hn; injection Hn as <-; injection Hp as Hp; cbn [rg_sandbox with_phase] in *.
  { subst r. destruct Hno as [Hno|?]; [|done]. by rewrite forget_unregistered_none. }
  subst a. unfold vendors_forgot. cbn [s_aws s_gcp set_reg].
  remember (Refused r) as a eqn:Ea. destruct Ha as [| |r' ? ? ? Hopen| |]; try by apply not_refused in Ea.
  - by injection Ea as <-.
  - injection Ea as ->. destruct Hno as [Hno| ->]; [|done]. by rewrite forget_unregistered_none.
  - done.
Qed.

(** Neither vendor holds anything of a sandbox: no entry of its cache, and no
    mark that a fetch of a route of it failed. *)
Definition holds_none {C P E : Type} (v : vendor C P E) (id : gostr) : Prop :=
  (forall route, cc_map (ve_cache v) !! (id, route) = None) /\ (forall route, failing_name id route ∉ ve_failing v).

Lemma ve_forget_holds {C P E : Type} `{EqDecision P} (expiry : C -> Z) (v : vendor C P E) id : holds_none (ve_forget expiry v id) id.
Proof.
  split; intros route.
  - cbn. apply map_lookup_filter_None. right. intros e _ H. by apply H.
  - unfold ve_forget. cbn [ve_failing]. intros [H _]%elem_of_filter.
    assert (has_prefix (failing_name id route) (id ++ lit "/") = true) as Hp; [|congruence].
    apply has_prefix_true. exists route. unfold failing_name. by rewrite <- app_assoc.
Qed.

(** C36: once a sandbox is removed, or a registration of it is refused that
    leaves it unregistered -- at its looks, under the lock, or because its
    divert socket does not open, but not because the broker is stopping --
    neither vendor holds keys, a token or a failing mark of it, and no later
    call for its id is given keys or a token that was fetched, or was being
    fetched, before. *)
Theorem removed_keys (key : gostr) (now : Z) (l1 l2 : list event) (e : event) (s s1 s2 : server) (id : gostr) :
  server_run (newServer key now) l1 = Some s -> server_step s e = Some s1 -> forgets s e s1 id -> server_run s1 l2 = Some s2 ->
  holds_none (s_aws s1) id /\ holds_none (s_gcp s1) id /\
  fresh_keys (ve_cache (s_aws s1)) (ve_cache (s_aws s2)) id /\ fresh_keys (ve_cache (s_gcp s1)) (ve_cache (s_gcp s2)) id.
Proof.
  intros H1 Hs Hf H2. apply run_moves in H1 as [Ha Hg]. apply run_moves in H2 as [Ha2 Hg2].
  destruct (forgets_vendors _ _ _ _ Hf Hs) as [Ea Eg].
  split; [rewrite Ea; apply ve_forget_holds|]. split; [rewrite Eg; apply ve_forget_holds|]. split.
  - eapply (moves_fresh _ now); [exact Ha|by rewrite Ea|exact Ha2].
  - eapply (moves_fresh _ now); [exact Hg|by rewrite Eg|exact Hg2].
Qed.

(** *** What is kept, and since when *)

(** What a vendor holds anew is of the sandbox [id], if there is one. *)
Definition adds {C P E : Type} (v v' : vendor C P E) (id : option gostr) : Prop :=
  (forall k, is_Some (cc_map (ve_cache v') !! k) -> is_Some (cc_map (ve_cache v) !! k) \/ id = Some k.1) /\
  (forall k, k ∈ ve_failing v' -> k ∈ ve_failing v \/ exists i route, id = Some i /\ k = failing_name i route).

Section Adds.
Context {C P E : Type} `{EqDecision P}.
Variable expiry : C -> Z.
Implicit Types v : vendor C P E.

Lemma adds_same v v' id : ve_cache v' = ve_cache v -> ve_failing v' = ve_failing v -> adds v v' id.
Proof. unfold adds. intros -> ->. auto. Qed.

Lemma ve_fail_adds v sandbox route : adds v (ve_fail v sandbox route) (Some sandbox).
Proof. split; [auto|]. intros k. cbn. rewrite elem_of_union, elem_of_singleton. intros [->|?]; [right; by exists sandbox, route|auto]. Qed.

Lemma ve_succeed_adds v sandbox route id : adds v (ve_succeed v sandbox route) id.
Proof. split; [auto|]. intros k. cbn. rewrite elem_of_difference. tauto. Qed.

Lemma ve_call_adds v v' sandbox route p margin t serving : ve_call v sandbox route p margin = (t, v') ->
  adds v (MkVendor (ve_cache v') (ve_failing v') serving) (Some sandbox).
Proof.
  intros [= _ <-]. split; [|auto]. intros k. cbn [ve_cache]. unfold begin_call.
  case_match; [auto|]. cbn [cc_map]. rewrite lookup_insert_is_Some'. intros [<-|?]; auto.
Qed.

Lemma ve_forget_adds v sandbox id : adds v (ve_forget expiry v sandbox) id.
Proof.
  split.
  - intros k [e He]. cbn in He. apply map_lookup_filter_Some in He as [He _]. left. by exists e.
  - intros k. unfold ve_forget. cbn [ve_failing]. intros [_ H]%elem_of_filter. auto.
Qed.

Lemma cache_step_alone (c c' : @cache C P E) a : moves_alone a = true -> cache_step expiry c a = Some c' -> cc_map c' = cc_map c.
Proof.
  intros Ha H. destruct a as [k p m|t|f r|t|t|sb|now]; try discriminate Ha; cbn [cache_step] in H.
  - destruct (cc_calls c !! t) as [ca|]; [|done]. destruct (ca_phase ca); try done.
    apply fmap_Some in H as (en & _ & ->). unfold get_turn. destruct (en_flight en); [done|].
    destruct (en_held en) as [h|]; [|done]. by destruct (_ && _).
  - destruct (cc_flights c !! f) as [fl|]; [|done]. destruct (fl_result fl); [done|]. by apply fmap_Some in H as (en & _ & ->).
  - destruct (cc_calls c !! t) as [ca|]; [|done]. destruct (ca_phase ca) as [|f|]; try done.
    destruct (cc_flights c !! f) as [fl|]; [|done]. destruct (fl_result fl); [|done]. by injection H as <-.
  - destruct (cc_calls c !! t) as [ca|]; [|done]. destruct (ca_phase ca); try done. by injection H as <-.
  - by injection H as <-.
Qed.

Lemma ve_act_adds v v' a id : moves_alone a = true -> ve_act expiry v a = Some v' -> adds v v' id.
Proof. unfold ve_act. intros Ha (c & Hc & ->)%fmap_Some. split; [|auto]. intros k. cbn. rewrite (cache_step_alone _ _ _ Ha Hc). auto. Qed.

Lemma vended_adds v v' t : vended v t = Some v' ->
  exists ca, cc_calls (ve_cache v) !! t = Some ca /\ adds v v' (Some (ca_key ca).1).
Proof.
  unfold vended. case_bool_decide; [|done]. destruct (returned v t) as [[ca r]|] eqn:Er; [|done].
  assert (cc_calls (ve_cache v) !! t = Some ca) as Hca.
  { unfold returned in Er. destruct (cc_calls (ve_cache v) !! t) as [ca'|]; [|done].
    destruct (ca_phase ca') as [| |[]]; try done; by injection Er as <- _. }
  intros Hv. exists ca. split; [exact Hca|]. destruct (ca_key ca) as [sandbox route]. cbn [fst]. injection Hv as <-.
  set (v0 := MkVendor _ _ _). assert (forall id v2, adds v0 v2 id -> adds v v2 id) as W by done. apply W.
  destruct r as [[]|]; [apply ve_succeed_adds|apply ve_fail_adds|apply ve_fail_adds].
Qed.
End Adds.

Definition both_add (s s' : server) (id : option gostr) : Prop := adds (s_aws s) (s_aws s') id /\ adds (s_gcp s) (s_gcp s') id.

(** An event of [s] that asks a vendor for a route of the sandbox [id], or says
    how that went: a look of a registration of it, or a request of its guest. *)
Definition asks (s : server) (e : event) (id : gostr) : Prop :=
  match e with
  | Look n _ _ | Looked n _ _ => exists rg, s_regs s !! n = Some rg /\ sc_id (rg_sandbox rg) = id
  | AwsVend sandbox _ _ | GcpVend sandbox _ _ => sandbox = id
  | AwsVended t => exists ca, cc_calls (ve_cache (s_aws s)) !! t = Some ca /\ (ca_key ca).1 = id
  | GcpVended t => exists ca, cc_calls (ve_cache (s_gcp s)) !! t = Some ca /\ (ca_key ca).1 = id
  | _ => False
  end.

Lemma both_add_same s s' id : s_aws s' = s_aws s -> s_gcp s' = s_gcp s -> both_add s s' id.
Proof. unfold both_add. intros -> ->. split; by apply adds_same. Qed.
Lemma aws_adds s v id : adds (s_aws s) v id -> both_add s (set_vendors s v (s_gcp s)) id.
Proof. intros H. split; [exact H|by apply adds_same]. Qed.
Lemma gcp_adds s v id : adds (s_gcp s) v id -> both_add s (set_vendors s (s_aws s) v) id.
Proof. intros H. split; [by apply adds_same|exact H]. Qed.
Lemma forget_adds s id : both_add s (forget s id) None.
Proof. split; apply ve_forget_adds. Qed.
Lemma forget_unregistered_adds s id : both_add s (forget_unregistered s id) None.
Proof. unfold forget_unregistered. destruct (is_nil _); [apply forget_adds|by apply both_add_same]. Qed.

Lemma ve_call_adds_vendor {C P E : Type} (v v' : vendor C P E) sandbox route p margin t :
  ve_call v sandbox route p margin = (t, v') -> adds v v' (Some sandbox).
Proof. intros H. apply (ve_call_adds _ _ _ _ _ _ _ (ve_serving v')) in H. by destruct v'. Qed.

Lemma look_adds s n rg doc inst s' : look s n rg doc inst = Some s' -> both_add s s' (Some (sc_id (rg_sandbox rg))).
Proof.
  unfold look. intros H. destruct (rg_phase rg); try done. destruct (rg_todo rg) as [|[route secret|route secret] todo]; [done| |].
  - destruct doc as [d|]; [|injection H as <-; by apply both_add_same].
    destruct (AwsCred.ParsePointer d) as [p|e]; [|injection H as <-; exact (aws_adds _ _ _ (ve_fail_adds _ _ _))].
    destruct (ve_call _ _ _ _ _) as [t v] eqn:Ev. injection H as <-. exact (aws_adds _ _ _ (ve_call_adds_vendor _ _ _ _ _ _ _ Ev)).
  - destruct doc as [d|]; [|injection H as <-; by apply both_add_same].
    destruct (negb (GcpCred.IsPointer d)); [injection H as <-; by apply both_add_same|].
    destruct (GcpCred.ParsePointer d) as [p|e]; [|injection H as <-; exact (gcp_adds _ _ _ (ve_fail_adds _ _ _))].
    destruct (ve_call _ _ _ _ _) as [t v] eqn:Ev. injection H as <-. exact (gcp_adds _ _ _ (ve_call_adds_vendor _ _ _ _ _ _ _ Ev)).
Qed.

Lemma look_ends_adds s n rg region inst s' : look_ends s n rg region inst = Some s' -> both_add s s' (Some (sc_id (rg_sandbox rg))).
Proof.
  unfold look_ends. intros H. destruct (rg_phase rg) as [|t route|t route|e|a]; try done.
  - destruct (returned (s_aws s) t) as [[ca [[x|e]|]]|]; [destruct region| | |done]; injection H as <-;
      (exact (aws_adds _ _ _ (ve_fail_adds _ _ _)) || exact (aws_adds _ _ _ (ve_succeed_adds _ _ _ _))).
  - destruct (returned (s_gcp s) t) as [[ca [[x|e]|]]|]; [| | |done]; injection H as <-;
      (exact (gcp_adds _ _ _ (ve_fail_adds _ _ _)) || exact (gcp_adds _ _ _ (ve_succeed_adds _ _ _ _))).
Qed.

Lemma registers_adds s rg nonce opened a s' : registers s rg nonce opened a s' -> both_add s s' None.
Proof.
  intros [|?|r|h ? ? ? ? ? s1 ? ? ? ? ? ? ? Ea Eg|]; try by apply both_add_same.
  - apply forget_unregistered_adds.
  - unfold both_add. rewrite Ea, Eg. apply forget_adds.
Qed.
(** What an event adds to the vendors is of a sandbox that it asks for. *)
Lemma step_adds s e s' : server_step s e = Some s' ->
  both_add s s' None \/ exists id, asks s e id /\ both_add s s' (Some id).
Proof.
  intros H.
  destruct e as [n q|n doc inst|n region inst|n nonce opened|id|stopping now sandbox session route secs|idle| | |sb route doc|t|sb route doc|t|a|a];
    cbn [server_step] in H.
  - left. destruct (is_nil _); [|done]. destruct (prepare q); injection H as <-; by apply both_add_same.
  - right. apply bind_Some in H as (rg & Hn & H). exists (sc_id (rg_sandbox rg)). split; [by exists rg|by eapply look_adds].
  - right. apply bind_Some in H as (rg & Hn & H). exists (sc_id (rg_sandbox rg)). split; [by exists rg|by eapply look_ends_adds].
  - left. apply bind_Some in H as (rg & Hn & H). apply settle_reg_cases in H as [(e & _ & ->)|(a & s1 & _ & _ & Hr & ->)].
    + exact (forget_unregistered_adds s _).
    + exact (registers_adds _ _ _ _ _ _ Hr).
  - left. destruct (ValidID id); injection H as <-; [exact (forget_adds s id)|by apply both_add_same].
  - left. destruct (mint_token _ _ _ _ _ _ _) as [[t s1]|] eqn:Em; injection H as <-; [|by apply both_add_same].
    apply mint_token_core in Em as (_ & _ & _ & _ & _ & _ & E1 & E2 & _). by apply both_add_same.
  - left. injection H as <-. unfold stopRequest. cbn. destruct (negb idle || _); by apply both_add_same.
  - left. injection H as <-. by apply both_add_same.
  - left. injection H as <-. by apply both_add_same.
  - right. exists sb. split; [done|]. injection H as <-. unfold aws_vend.
    destruct (AwsCred.ParsePointer doc); [|exact (aws_adds _ _ _ (ve_fail_adds _ _ _))].
    destruct (ve_call _ _ _ _ _) as [t v] eqn:Ev. exact (aws_adds _ _ _ (ve_call_adds _ _ _ _ _ _ _ _ Ev)).
  - right. apply fmap_Some in H as (v & Hv & ->). apply vended_adds in Hv as (ca & Hca & Hv).
    exists (ca_key ca).1. split; [by exists ca|by apply aws_adds].
  - right. exists sb. split; [done|]. injection H as <-. unfold gcp_vend.
    destruct (GcpCred.ParsePointer doc); [|exact (gcp_adds _ _ _ (ve_fail_adds _ _ _))].
    destruct (ve_call _ _ _ _ _) as [t v] eqn:Ev. exact (gcp_adds _ _ _ (ve_call_adds _ _ _ _ _ _ _ _ Ev)).
  - right. apply fmap_Some in H as (v & Hv & ->). apply vended_adds in Hv as (ca & Hca & Hv).
    exists (ca_key ca).1. split; [by exists ca|by apply gcp_adds].
  - left. destruct (moves_alone a) eqn:Ea; [|done]. apply fmap_Some in H as (v & Hv & ->). apply aws_adds. by eapply ve_act_adds.
  - left. destruct (moves_alone a) eqn:Ea; [|done]. apply fmap_Some in H as (v & Hv & ->). apply gcp_adds. by eapply ve_act_adds.
Qed.

(** In the events [l] from [s0], something asked for the sandbox [id], and
    nothing after it was such that the sandbox is gone. *)
Definition asked_since (s0 : server) (l : list event) (id : gostr) : Prop :=
  exists l1 e l2 s1, l = l1 ++ e :: l2 /\ server_run s0 l1 = Some s1 /\ asks s1 e id /\
    forall l3 e' l4 s3 s4, l2 = l3 ++ e' :: l4 -> server_run s0 (l1 ++ e :: l3) = Some s3 -> server_step s3 e' = Some s4 ->
      ~ forgets s3 e' s4 id.

(** What a vendor holds -- the entries of its cache, and the failing marks --
    is of sandboxes that were asked for and have not gone since. *)
Definition held_asked {C P E : Type} (s0 : server) (l : list event) (v : vendor C P E) : Prop :=
  (forall id route, is_Some (cc_map (ve_cache v) !! (id, route)) -> asked_since s0 l id) /\
  (forall k, k ∈ ve_failing v -> exists id route, k = failing_name id route /\ asked_since s0 l id).

Lemma server_run_snoc s0 l e s : server_run s0 (l ++ [e]) = Some s ->
  exists s1, server_run s0 l = Some s1 /\ server_step s1 e = Some s.
Proof.
  revert s0. induction l as [|e0 l IH]; intros s0; cbn [app server_run].
  - destruct (server_step s0 e) as [s1|] eqn:E; [|done]. intros [= <-]. by exists s0.
  - destruct (server_step s0 e0) as [s1|]; [apply IH|done].
Qed.

Lemma asked_now s0 l s e id : server_run s0 l = Some s -> asks s e id -> asked_since s0 (l ++ [e]) id.
Proof. intros Hr Ha. exists l, e, [], s. do 3 (split; [done|]). intros l3 e' l4 s3 s4 H. by destruct l3. Qed.

Lemma asked_before s0 l s e s' id : server_run s0 l = Some s -> server_step s e = Some s' -> ~ forgets s e s' id ->
  asked_since s0 l id -> asked_since s0 (l ++ [e]) id.
Proof.
  intros Hr Hs Hno (l1 & e1 & l2 & s1 & -> & H1 & Ha & Hall). exists l1, e1, (l2 ++ [e]), s1. split; [by rewrite <- app_assoc|].
  do 2 (split; [done|]). intros l3 e' l4 s3 s4 Hl H3 H4. destruct l4 as [|x l4 _] using rev_ind.
  - apply app_inj_tail in Hl as [<- <-]. rewrite Hr in H3. injection H3 as <-. rewrite Hs in H4. by injection H4 as <-.
  - rewrite app_comm_cons, app_assoc in Hl. apply app_inj_tail in Hl as [-> _]. by eapply Hall.
Qed.

Lemma held_step {C P E : Type} s0 l s e s' (v v' : vendor C P E) id :
  server_run s0 l = Some s -> server_step s e = Some s' -> (forall i, id = Some i -> asks s e i) ->
  adds v v' id -> (forall i, forgets s e s' i -> holds_none v' i) -> held_asked s0 l v -> held_asked s0 (l ++ [e]) v'.
Proof.
  intros Hr Hs Hask [Hm Hk] Hf [Am Ak]. split.
  - intros i route Hi. destruct (Hm _ Hi) as [H|H].
    + eapply asked_before; [exact Hr|exact Hs| |by eapply Am]. intros Hg. apply Hf in Hg as [Hg _]. rewrite (Hg route) in Hi. by destruct Hi.
    + eapply asked_now; [exact Hr|by apply Hask].
  - intros k Hin. destruct (Hk _ Hin) as [H|(i & route & H & ->)].
    + destruct (Ak _ H) as (i & route & -> & Hi). exists i, route. split; [done|].
      eapply asked_before; [exact Hr|exact Hs| |exact Hi]. intros Hg. apply Hf in Hg as [_ Hg]. by apply (Hg route).
    + exists i, route. split; [done|]. eapply asked_now; [exact Hr|by apply Hask].
Qed.

Lemma run_held (key : gostr) (now : Z) l s : server_run (newServer key now) l = Some s ->
  held_asked (newServer key now) l (s_aws s) /\ held_asked (newServer key now) l (s_gcp s).
Proof.
  revert s. induction l as [|e l IH] using rev_ind; intros s' H.
  { injection H as <-. split; split; cbn; [intros ? ? [? H]; by rewrite lookup_empty in H|intros k Hk; by apply not_elem_of_empty in Hk|
      intros ? ? [? H]; by rewrite lookup_empty in H|intros k Hk; by apply not_elem_of_empty in Hk]. }
  apply server_run_snoc in H as (s & Hr & Hs). destruct (IH _ Hr) as [Ha Hg].
  assert (forall i, forgets s e s' i -> holds_none (s_aws s') i /\ holds_none (s_gcp s') i) as Hf.
  { intros i Hi. destruct (forgets_vendors _ _ _ _ Hi Hs) as [-> ->]. split; apply ve_forget_holds. }
  assert (exists id, (forall i, id = Some i -> asks s e i) /\ both_add s s' id) as (id & Hask & Aa & Ag).
  { destruct (step_adds _ _ _ Hs) as [H|(i & Hi & H)]; [by exists None|]. exists (Some i). split; [by intros ? [= <-]|done]. }
  split; (eapply held_step; [exact Hr|exact Hs|exact Hask|done| |done]); intros i Hi; by destruct (Hf i Hi).
Qed.

(** C34: whatever requests and looks interleave, the sandboxes of the control
    API are those of the handler; routes that vend and divert sockets are kept
    of registered sandboxes alone; a registered route whose credential is
    renewed has the cache that renews it; and what a vendor holds of a sandbox
    -- keys, a token, a failing mark -- a look of a registration or a request
    of the guest asked for since the sandbox was last removed or refused. *)
Theorem server_agrees (key : gostr) (now : Z) (l : list event) (s : server) :
  server_run (newServer key now) l = Some s ->
  (forall id, is_Some (s_sandboxes s !! id) <-> is_Some (h_sandboxes (s_handler s) !! id)) /\
  (forall id, is_Some (s_vends s !! id) \/ is_Some (s_diverts s !! id) -> is_Some (s_sandboxes s !! id)) /\
  (forall id sb name rt, h_sandboxes (s_handler s) !! id = Some sb -> sb_routes sb !! name = Some rt ->
     lifecycle_name (r_spec rt) <> [] -> is_Some (s_caches s !! secret_name (r_spec rt))) /\
  held_asked (newServer key now) l (s_aws s) /\ held_asked (newServer key now) l (s_gcp s).
Proof.
  intros H. apply run_held in H as Hh. apply run_ok in H as [(Hsb & Hv & Hd & Htr) _]; [|apply new_server_ok].
  split; [exact Hsb|]. split; [intros id [Hid|Hid]; auto|]. split; [exact Htr|exact Hh].
Qed.

End Server.

(** *** Arrivals *)

Lemma strip_arrival sandbox src : strip_prefix divertArrival (arrival_string linkLocalArrival sandbox src) = None.
Proof. done. Qed.

Lemma valid_id_no_slash id : ValidID id = true -> "/"%char ∉ id.
Proof.
  unfold ValidID. rewrite negb_true_iff. intros H Hin. apply orb_false_iff in H as [_ H].
  assert (Forall (fun r => id_rune r = true) (runes id)) as Hall.
  { apply Forall_forall. intros r Hr. destruct (id_rune r) eqn:Er; [done|].
    assert (existsb (fun r => negb (id_rune r)) (runes id) = true) as Hx; [|unfold has_rune in H; congruence].
    apply existsb_exists. exists r. split; [by apply list_elem_of_In|by rewrite Er]. }
  assert (Forall (fun c => is_ascii c = true) id) as Hascii.
  { apply runes_all_ascii. eapply Forall_impl; [exact Hall|]. intros r Hr. unfold id_rune, in_range in Hr.
    repeat (apply orb_true_iff in Hr as [Hr|Hr]); rewrite ?andb_true_iff in Hr; lia. }
  rewrite (runes_ascii _ Hascii) in Hall. rewrite Forall_fmap, Forall_forall in Hall. specialize (Hall _ Hin). by vm_compute in Hall.
Qed.

(** A request that comes on a divert socket is of the sandbox of the socket
    and of no other, over TLS or in the clear; one that comes over loopback is
    served for a sandbox unless it has an address of its own; and what is
    neither of the two marked ways is in the clear. *)
Lemma arrival_exact (s : server) (prefix owner sandbox port : gostr) (src : AddrPort) :
  ValidID owner = true -> prefix = divertArrival \/ prefix = linkLocalArrival ->
  arrival s sandbox (arrival_string prefix owner src) = (owner, bool_decide (owner = sandbox)) /\
  (arrival s sandbox (lit "127.0.0.1:" ++ port)).2 = is_nil (s_diverts s !! sandbox ≫= dv_internal) /\
  vendOnly (Some (divertContext prefix)) = bool_decide (prefix = linkLocalArrival).
Proof.
  intros Hid Hp. apply valid_id_no_slash in Hid.
  assert (forall rest, (cut (owner ++ lit "/" ++ rest) (lit "/")).1.1 = owner) as Hcut.
  { intros rest. unfold cut. change (lit "/") with ["/"%char]. cbn [app]. by rewrite (cut_at_byte_app _ _ _ Hid). }
  split; [|split].
  - unfold arrival. destruct Hp as [->| ->]; [|rewrite strip_arrival]; unfold arrival_string; rewrite strip_prefix_app; cbv beta iota zeta; by rewrite !Hcut.
  - unfold arrival. destruct (s_diverts s !! sandbox) as [d|]; reflexivity.
  - by destruct Hp as [->| ->].
Qed.

(** ** On concrete input *)

Lemma default_some {A : Type} (d : A) (o : option A) : is_some o = true -> o = Some (default d o).
Proof. by destruct o. Qed.

Definition demo_hkdf (salt info : gostr) : gostr := salt ++ info.
Definition demo_members (sb : SandboxConfig) (internal : gostr) (settings : gmap gostr gostr) : option gostr :=
  Some (join (lit ",") (sc_id sb :: internal :: ((fun rc => rt_name (rc_route rc)) <$> sc_routes sb)) ++ lit "}").
Definition demo_prepare (q : request) : res reg_refusal registration :=
  prepare shipped example_yaml map_to_list ∅ (fun _ => None) demo_members q.
Definition demo_step (s : server) (l : list event) : option server :=
  server_run demo_hkdf demo_hkdf shipped example_yaml map_to_list ∅ (fun _ => None) demo_members s l.
Definition demo_start : server := newServer (lit "host key") 0.

Definition demo_request (name internal : gostr) (routes : list Route) : request :=
  MkRequest name (lit "dev") (MkRouteConfig (lit "p") <$> routes) internal ∅.
Definition demo_aws_doc : gostr :=
  lit "{" ++ json_key (lit "kind") ++ json_quote (lit "aws") ++ lit "," ++ json_key (lit "awsProfile") ++ json_quote (lit "dev") ++ lit "," ++
  json_key (lit "mode") ++ json_quote (lit "self") ++ lit "}".
Definition demo_keys : AwsCred.Credentials := AwsCred.MkCredentials (lit "AKIA") (lit "s") [] (30 * minute).

(** Two registrations, one of which vends, and the first again; the vendor's
    sandbox goes. *)
Definition demo_events : list event :=
  [Begin 0 (demo_request (lit "vm1") (lit "10.1.1.3") [written "r" "claude-code" None]); Begin 1 (demo_request (lit "vm2") [] [written "a" "aws" None]);
   Look 1 (Some demo_aws_doc) true; Settle 0 (lit "n") (Some (lit "/s.sock")); AwsMoves (Turn 1); AwsMoves (Finish 2 (Ok demo_keys)); AwsMoves (Wake 1);
   Looked 1 (Ok (lit "eu-west-1")) true; Settle 1 (lit "n") None; Begin 2 (demo_request (lit "vm1") (lit "10.1.1.3") [written "r" "claude-code" None]);
   Settle 2 (lit "other") None].

Definition demo_server : server := default demo_start (demo_step demo_start demo_events).

Example demo_state :
  demo_step demo_start demo_events = Some demo_server /\ status demo_server = ([lit "vm1"; lit "vm2"], ∅, []) /\
  (arrival demo_server (lit "vm1") (lit "127.0.0.1:5")).2 = false /\ (arrival demo_server (lit "vm2") (lit "127.0.0.1:5")).2 = true /\
  (vr_region <$> (s_vends demo_server !! lit "vm2" ≫= (.!! lit "a"))) = Some (lit "eu-west-1") /\
  map_to_list (s_caches demo_server) = [(lit "tok", LifecycleAnthropicOAuth)].
Proof.
  split; [by apply default_some; vm_compute|]. split_and!; vm_compute; reflexivity.
Qed.

(** The unspecified address passes in its mapped spelling. *)
Lemma unspecified_mapped : brigInternalAddr (lit "0.0.0.0") = None /\ brigInternalAddr (lit "::ffff:0.0.0.0") = Some (Some (V4 0)).
Proof. split; vm_compute; reflexivity. Qed.

Lemma server_agrees_witness :
  demo_step demo_start demo_events = Some demo_server /\ is_Some (h_sandboxes (s_handler demo_server) !! lit "vm1").
Proof.
  assert (demo_step demo_start demo_events = Some demo_server) as R
    by (apply default_some; vm_compute; reflexivity).
  split; [exact R|]. destruct (server_agrees _ _ _ _ _ _ _ _ _ _ _ _ R) as (H & _). apply H. vm_compute. by eexists.
Defined.


(** Two sandboxes without routes, and one of them anew: its socket does not
    open. *)
Definition demo_plain : list event :=
  [Begin 0 (demo_request (lit "vm1") (lit "10.1.1.3") []); Settle 0 (lit "n") (Some (lit "/s.sock"));
   Begin 1 (demo_request (lit "vm2") [] []); Settle 1 (lit "n") None].
Definition demo_two : server := default demo_start (demo_step demo_start demo_plain).
Definition demo_again : registration :=
  default (MkRegistration (MkSandboxConfig [] [] [] []) None [] [] ∅ Looks)
    (match demo_prepare (demo_request (lit "vm1") (lit "10.1.1.4") []) with Ok rg => Some rg | Err _ => None end).

Lemma register_outcome_witness :
  (register demo_hkdf demo_two demo_again (lit "n") None).1 = Refused DivertNotOpen /\
  view (register demo_hkdf demo_two demo_again (lit "n") None).2 (lit "vm2") = view demo_two (lit "vm2") /\
  view (register demo_hkdf demo_two demo_again (lit "n") None).2 (lit "vm1") = unregistered.
Proof.
  assert (demo_step demo_start demo_plain = Some demo_two) as R
    by (apply default_some; vm_compute; reflexivity).
  assert ((register demo_hkdf demo_two demo_again (lit "n") None).1 = Refused DivertNotOpen) as A by (vm_compute; reflexivity).
  split; [exact A|].
  destruct (register_outcome _ _ _ _ _ _ _ _ _ _ _ _ demo_again (lit "n") None (Refused DivertNotOpen)
    (register demo_hkdf demo_two demo_again (lit "n") None).2 R) as (H1 & _ & _ & _).
  { rewrite <- A. by destruct (register demo_hkdf demo_two demo_again (lit "n") None). }
  split; [apply H1; by vm_compute|]. vm_compute. reflexivity.
Defined.

(** Both go, the broker agrees to stop, and a third registers too late. *)
Definition demo_empty : list event := demo_plain ++ [Remove (lit "vm1"); Remove (lit "vm2")].
Definition demo_none : server := default demo_start (demo_step demo_start demo_empty).
Definition demo_later : list event := [Begin 3 (demo_request (lit "vm3") [] []); Settle 3 (lit "n") None; Remove (lit "vm2")].
Definition demo_end : server := default demo_start (demo_step (stopRequest demo_none true).2 demo_later).

Lemma idle_stop_final_witness :
  (stopRequest demo_two true).1 = (false, false) /\ (stopRequest demo_none true).1 = (true, true) /\ s_sandboxes demo_end = ∅.
Proof.
  assert (demo_step demo_start demo_empty = Some demo_none) as R
    by (apply default_some; vm_compute; reflexivity).
  assert (demo_step (stopRequest demo_none true).2 demo_later = Some demo_end) as R2
    by (apply default_some; vm_compute; reflexivity).
  split; [vm_compute; reflexivity|]. split; [vm_compute; reflexivity|].
  assert (stopRequest demo_none true = ((true, true), (stopRequest demo_none true).2)) as S by (vm_compute; reflexivity).
  exact (proj1 (idle_stop_final _ _ _ _ _ _ _ _ _ _ _ _ _ _ _ true R S R2)).
Defined.

(** A sandbox that vends is removed and registered again: its keys are fetched
    anew. *)
Definition demo_vm2 : request := demo_request (lit "vm2") [] [written "a" "aws" None].
Definition demo_vends : list event :=
  [Begin 1 demo_vm2; Look 1 (Some demo_aws_doc) true; AwsMoves (Turn 1); AwsMoves (Finish 2 (Ok demo_keys)); AwsMoves (Wake 1);
   Looked 1 (Ok (lit "eu-west-1")) true; Settle 1 (lit "n") None].
Definition demo_before : server := default demo_start (demo_step demo_start demo_vends).
Definition demo_removed : server := (removeSandbox demo_before (lit "vm2")).2.
Definition demo_refetch : list event :=
  [Begin 3 demo_vm2; Look 3 (Some demo_aws_doc) true; AwsMoves (Turn 4); AwsMoves (Finish 5 (Ok demo_keys)); AwsMoves (Wake 4)].
Definition demo_refetched : server := default demo_start (demo_step demo_removed demo_refetch).

Lemma removed_keys_witness :
  exists f fl, (cc_next (ve_cache (s_aws demo_removed)) <= f)%nat /\ cc_flights (ve_cache (s_aws demo_refetched)) !! f = Some fl /\
    fl_result fl = Some (Ok demo_keys).
Proof.
  assert (demo_step demo_start demo_vends = Some demo_before) as R
    by (apply default_some; vm_compute; reflexivity).
  assert (demo_step demo_removed demo_refetch = Some demo_refetched) as R2
    by (apply default_some; vm_compute; reflexivity).
  destruct (removed_keys demo_hkdf demo_hkdf shipped example_yaml map_to_list ∅ (fun _ => None) demo_members (lit "host key") 0
    demo_vends demo_refetch (Remove (lit "vm2")) demo_before demo_removed demo_refetched (lit "vm2") R) as (_ & _ & H & _).
  - reflexivity.
  - left. split; [reflexivity|vm_compute; reflexivity].
  - exact R2.
  - assert (exists ca, cc_calls (ve_cache (s_aws demo_refetched)) !! 4%nat = Some ca /\ (ca_key ca).1 = lit "vm2" /\ given ca demo_keys)
      as (ca & Hc & Hk & Hg).
    { eexists. split; [vm_compute; reflexivity|]. split; [reflexivity|]. right. eexists. reflexivity. }
    refine (H 4%nat ca demo_keys Hc _ Hk Hg). vm_compute. lia.
Defined.

Lemma arrival_exact_witness :
  ValidID (lit "vm1") = true /\
  arrival demo_server (lit "vm2") (arrival_string divertArrival (lit "vm1") (MkAddrPort (Some (V4 0)) 7)) = (lit "vm1", false).
Proof.
  assert (ValidID (lit "vm1") = true) as V by (vm_compute; reflexivity). split; [exact V|].
  rewrite (proj1 (arrival_exact demo_server divertArrival (lit "vm1") (lit "vm2") [] (MkAddrPort (Some (V4 0)) 7) V (or_introl eq_refl))).
  vm_compute. reflexivity.
Defined.
