(* ===== verification/RuntimeCaps.v ===== *)
(** * [internal/runtime]: what a run path enforces

    [capability.go], [routemode.go], [isolation.go] and the parts of
    [runtime.go], [nerdctl.go], [boot.go] and [nerdctlbriginternal.go] that
    answer whether a run may be booted on a runtime.  The process environment
    is a function, the registered route modes and the rows registered with
    them are arguments. *)

From stdpp Require Import prelude list strings gmap sorting.
From Stdlib Require Import ZArith Lia Ascii.
From S2P Require Import Prelude GoUnicode GoStrings GoNum GoNetip GoPath GoClean RouteTypes RouteValidate RouteMode Profile Creds ProfileReg Publish Verify BundleFiles VerifyRun.

Local Open Scope Z_scope.

(** ** isolation.go *)

Inductive Boundary := BoundaryVM | BoundaryContainer | BoundaryUnknown.

#[export] Instance Boundary_eq_dec : EqDecision Boundary.
Proof. solve_decision. Defined.

Definition boundary_string (b : Boundary) : gostr :=
  match b with BoundaryVM => lit "microVM" | BoundaryContainer => lit "container" | BoundaryUnknown => lit "unknown" end.

Record Isolation := MkIsolation { is_boundary : Boundary; is_detail : gostr }.

Definition isolation_line (i : Isolation) : gostr := boundary_string (is_boundary i) ++ lit " (" ++ is_detail i ++ lit ")".

Definition uruncShim : gostr := lit "io.containerd.urunc.v2".
Definition uruncShimBinary : gostr := lit "containerd-shim-urunc-v2".
Definition sharedKernelShims : list gostr := [lit "containerd-shim-runc-v1"; lit "containerd-shim-runc-v2"].
Definition sharedKernelRuntimes : list gostr := [lit "runc"; lit "crun"].
Definition containerdPrefix : gostr := lit "io.containerd.".

Definition shimBinary (name : gostr) : gostr :=
  let parts := split_byte "." name in
  if contains name [slash] then []
  else match rev parts with
       | y :: x :: _ =>
         if bool_decide (head parts = Some []) then [] else lit "containerd-shim-" ++ x ++ lit "-" ++ y
       | _ => []
       end.

Definition shimBoundary (shim : gostr) : Boundary :=
  if has_prefix shim containerdPrefix then
    if bool_decide (shimBinary shim = uruncShimBinary) then BoundaryVM
    else if mem (shimBinary shim) sharedKernelShims then BoundaryContainer
    else BoundaryUnknown
  else if contains shim [slash] || negb (contains shim (lit ".")) then
    if mem (filepath_Base shim) sharedKernelRuntimes || mem (filepath_Base shim) sharedKernelShims
    then BoundaryContainer else BoundaryUnknown
  else if mem (shimBinary shim) sharedKernelShims then BoundaryContainer
  else BoundaryUnknown.

Definition sharesHostKernel (shim : gostr) : bool := bool_decide (shimBoundary shim = BoundaryContainer).

Definition orDefault (v fallback : gostr) : gostr := if bool_decide (v = []) then fallback else v.

Definition containerdIsolation (driver shim named monitor rootfs : gostr) : Isolation :=
  let over := driver ++ lit " over containerd" in
  match shimBoundary shim with
  | BoundaryVM =>
    let detail := over ++ lit ", " ++ named ++ lit ", hypervisor " ++ orDefault monitor (lit "urunc default") in
    MkIsolation BoundaryVM (if bool_decide (rootfs = []) then detail else detail ++ lit ", rootfs " ++ rootfs)
  | BoundaryContainer =>
    MkIsolation BoundaryContainer (over ++ lit ", " ++ named ++ lit ": the guest shares the host kernel")
  | BoundaryUnknown =>
    MkIsolation BoundaryUnknown
      (over ++ lit ", " ++ named ++ lit ": brig cannot tell whether that shim boots a kernel of its own")
  end.

(** ** capability.go *)

Inductive Capability := Enforced | CannotEnforce | Unknown.

#[export] Instance Capability_eq_dec : EqDecision Capability.
Proof. solve_decision. Defined.

Definition capability_string (c : Capability) : gostr :=
  match c with Enforced => lit "enforced" | CannotEnforce => lit "cannot enforce" | Unknown => lit "unknown" end.

Definition EgressProperty : gostr := lit "egress policy".

Record RunPath := MkRunPath { rp_runtime : gostr; rp_backend : gostr }.

#[export] Instance RunPath_eq_dec : EqDecision RunPath.
Proof. solve_decision. Defined.

Definition anyBackend : gostr := [].

Definition runpath_string (p : RunPath) : gostr :=
  if bool_decide (rp_backend p = anyBackend) then rp_runtime p else rp_runtime p ++ lit " on " ++ rp_backend p.

(** [Record] of the source. *)
Record CapRecord := MkCapRecord {
  cr_property : gostr; cr_path : RunPath; cr_state : Capability; cr_why : gostr; cr_remedy : gostr }.

Definition hull_path (hv : string) : RunPath := MkRunPath (lit "hull") (lit hv).

Definition vmnet_why (hv : string) : gostr :=
  lit hv ++ lit " takes its network from vmnet, which brig does not filter. brig enforces a policy at the user-mode network gateway that only the hvi backend uses".
Definition hvi_remedy : gostr := lit "Run it on hvi (BRIG_HYPERVISOR=hvi), or detach the policy".
Definition dockerWhy : gostr :=
  lit "brig enforces a policy on nerdctl's container network, and does not filter docker's".

Definition records : list CapRecord := [
  MkCapRecord EgressProperty (hull_path "hvi") Enforced
    (lit "brig puts the rules on the user-mode network gateway that is this sandbox's only way out") [];
  MkCapRecord EgressProperty (hull_path "vz") CannotEnforce (vmnet_why "vz") hvi_remedy;
  MkCapRecord EgressProperty (hull_path "qemu") CannotEnforce (vmnet_why "qemu") hvi_remedy;
  MkCapRecord EgressProperty (MkRunPath (lit "nerdctl") anyBackend) Enforced
    (lit "brig puts the rules in nftables on the bridge of the sandbox's own network, and answers its DNS") [];
  MkCapRecord EgressProperty (MkRunPath (lit "docker") anyBackend) CannotEnforce dockerWhy
    (lit "Use nerdctl (BRIG_RUNTIME_BIN=nerdctl), or detach the policy")].

Definition Records (p : gostr) : list CapRecord := filter (fun r => cr_property r = p) records.

(** The two passes over a table: the row of the path itself, then the row of
    every backend of its runtime. *)
Section Table.
Context {R : Type} (path_of : R -> RunPath) (about : R -> bool).

Definition row_matches (exact : bool) (key : RunPath) (r : R) : bool :=
  about r && bool_decide (rp_runtime (path_of r) = rp_runtime key) &&
  (if exact then bool_decide (rp_backend (path_of r) = rp_backend key)
   else bool_decide (rp_backend (path_of r) = anyBackend)).

Definition find_row (key : RunPath) (table : list R) : option R :=
  match list_find (fun r => row_matches true key r = true) table with
  | Some (_, r) => Some r
  | None => snd <$> list_find (fun r => row_matches false key r = true) table
  end.

Lemma find_row_about key table r :
  find_row key table = Some r ->
  r ∈ table /\ about r = true /\ rp_runtime (path_of r) = rp_runtime key /\
  (rp_backend (path_of r) = rp_backend key \/ rp_backend (path_of r) = anyBackend).
Proof.
  assert (forall b i, list_find (fun r => row_matches b key r = true) table = Some (i, r) ->
    r ∈ table /\ about r = true /\ rp_runtime (path_of r) = rp_runtime key /\
    (rp_backend (path_of r) = rp_backend key \/ rp_backend (path_of r) = anyBackend)) as Hb.
  { intros b i H. apply list_find_Some in H as (Hi & Hm & _). split; [by eapply list_elem_of_lookup_2|].
    unfold row_matches in Hm. apply andb_true_iff in Hm as [Hm H3]. apply andb_true_iff in Hm as [H1 H2].
    apply bool_decide_eq_true in H2. split_and!; [done..|]. destruct b; apply bool_decide_eq_true in H3; tauto. }
  unfold find_row. destruct (list_find _ table) as [[i r']|] eqn:E; [intros [= ->]; by eapply Hb|].
  destruct (list_find (fun r => row_matches false key r = true) table) as [[i r']|] eqn:E'; [|done].
  intros [= ->]. by eapply Hb.
Qed.

Lemma find_row_general key table :
  Forall (fun r => row_matches true key r = false) table ->
  find_row key table = snd <$> list_find (fun r => row_matches false key r = true) table.
Proof.
  intros H. unfold find_row.
  assert (list_find (fun r => row_matches true key r = true) table = None) as ->; [|done].
  apply list_find_None. eapply Forall_impl; [exact H|]. intros r Hr. by rewrite Hr.
Qed.

(** Rows that are not about the question change no answer. *)
Lemma find_row_app_none key table rest :
  Forall (fun r => about r = false) rest -> find_row key (table ++ rest) = find_row key table.
Proof.
  intros H. assert (forall b, list_find (fun r => row_matches b key r = true) rest = None) as Hn.
  { intros b. apply list_find_None. eapply Forall_impl; [exact H|]. intros r Hr. unfold row_matches. rewrite Hr. done. }
  assert (forall b, snd <$> list_find (fun r => row_matches b key r = true) (table ++ rest) =
    snd <$> list_find (fun r => row_matches b key r = true) table) as Hf.
  { intros b. specialize (Hn b). induction table as [|t table IH]; simpl; [by rewrite Hn|].
    destruct (decide (row_matches b key t = true)); [done|].
    destruct (list_find _ (table ++ rest)) as [[??]|], (list_find _ table) as [[??]|]; simpl in *; congruence. }
  unfold find_row. pose proof (Hf true) as H1. pose proof (Hf false) as H2.
  destruct (list_find _ (table ++ rest)) as [[??]|], (list_find (fun r => row_matches true key r = true) table) as [[??]|];
    simpl in *; congruence.
Qed.
End Table.

Definition capability_Answer (p : gostr) (path : RunPath) : CapRecord :=
  match find_row cr_path (fun r => bool_decide (cr_property r = p)) path records with
  | Some r => MkCapRecord (cr_property r) path (cr_state r) (cr_why r) (cr_remedy r)
  | None =>
    MkCapRecord p path Unknown (lit "brig holds no answer for this run path")
      (lit "Run it on hull's hvi backend (BRIG_HYPERVISOR=hvi), or detach the policy")
  end.

Record CapabilityError := MkCapabilityError {
  ce_property : gostr; ce_path : RunPath; ce_state : Capability; ce_why : gostr; ce_remedy : gostr; ce_err : option gostr }.

Definition capability_error_text (e : CapabilityError) : gostr :=
  let head :=
    if bool_decide (ce_state e = CannotEnforce)
    then lit "a policy applies to this sandbox, and " ++ runpath_string (ce_path e) ++ lit " cannot enforce the " ++ ce_property e
    else lit "a policy applies to this sandbox, and whether " ++ runpath_string (ce_path e) ++ lit " enforces the " ++
         ce_property e ++ lit " is " ++ capability_string Unknown in
  head ++ lit ": " ++ ce_why e ++ (match ce_err e with Some t => lit ": " ++ t | None => [] end) ++
  lit ". " ++ ce_remedy e ++ lit ". brig will not boot a sandbox under a policy nothing enforces".

(** ** runtime.go: the request to boot a sandbox *)

Record Share := MkShare { sh_Host : gostr; sh_Guest : gostr; sh_ReadOnly : bool }.

Record DivertRoute := MkDivertRoute { dr_Host : gostr; dr_Port : Z; dr_Mode : gostr }.
Record DivertSpec := MkDivertSpec { ds_Routes : list DivertRoute; ds_Socket : gostr; ds_BrigInternal : bool }.
Record EgressSpec := MkEgressSpec { es_Default : gostr; es_Allow : list Rule; es_Deny : list Rule; es_Divert : DivertSpec }.

(** [Setup] is an interface: the type of its values is a parameter. *)
Record RunSpec {Setup : Type} := MkRunSpec {
  rs_Name : gostr; rs_Image : gostr; rs_Digest : gostr; rs_Pull : gostr; rs_Net : gostr;
  rs_Mem : Z; rs_CPUs : Z; rs_Shares : list Share; rs_Env : list Var;
  rs_GUI : bool; rs_GUITitle : gostr; rs_Hypervisor : gostr; rs_RootfsType : gostr; rs_RootfsMode : gostr;
  rs_Tmpfs : list gostr; rs_GenericBoot : bool; rs_BootAssets : BootAssets;
  rs_Egress : EgressSpec; rs_Setup : list Setup; rs_Publish : list Publication; rs_Counted : bool }.
Arguments RunSpec : clear implicits.

Record ExecSpec := MkExecSpec {
  xs_Name : gostr; xs_Cmd : list gostr; xs_Cwd : gostr; xs_TTY : bool; xs_Env : list Var;
  xs_Counted : bool; xs_User : gostr }.

Definition BrigInternalName : gostr := lit "brig.internal".
Definition BrigInternalPort : Z := 443.
Definition LinkLocalDivert : DivertRoute := MkDivertRoute (lit "169.254.170.2") 80 [].

(** [netip.Addr.IsLinkLocalUnicast]: 169.254.0.0/16, also as an IPv4-mapped
    IPv6 address, and fe80::/10. *)
Definition IsLinkLocalUnicast (a : addr) : bool :=
  match a with
  | V4 z => Z.shiftr z 16 =? 43518
  | V6 z _ => if Z.shiftr z 32 =? 65535 then Z.shiftr (Z.land z 4294967295) 16 =? 43518 else Z.shiftr z 118 =? 1018
  end.

Definition divert_linkLocal (d : DivertSpec) : bool :=
  existsb (fun r => match ParseAddr (dr_Host r) with Some a => IsLinkLocalUnicast a | None => false end) (ds_Routes d).

(** [Divert.on]; [gw] is the gateway's address as [netip.Addr.String] writes
    it. *)
Definition divert_on (d : DivertSpec) (gw : gostr) : list DivertRoute :=
  if ds_BrigInternal d then ds_Routes d ++ [MkDivertRoute gw BrigInternalPort []] else ds_Routes d.

Definition Requested (d : DivertSpec) : bool := negb (bool_decide (ds_Routes d = [])) || ds_BrigInternal d.
Definition Filtered (e : EgressSpec) : bool := negb (bool_decide (es_Default e = [])).

(** ** routemode.go *)

Definition RouteModeProperty (m : gostr) : gostr := lit "route mode " ++ m.

Definition divert_refusal (d : DivertSpec) : gostr * gostr :=
  match list_find (fun r => dr_Mode r <> []) (ds_Routes d) with
  | Some (_, r) => (RouteModeProperty (dr_Mode r), lit "use mode: endpoint")
  | None => (RouteModeProperty ModeEndpoint, lit "detach the policy")
  end.

Record ModeRecord := MkModeRecord {
  mr_mode : gostr; mr_path : RunPath; mr_state : Capability; mr_why : gostr; mr_note : gostr;
  mr_remedy : gostr; mr_transport : gostr }.

Definition mode_record_line (r : ModeRecord) : gostr :=
  capability_string (mr_state r) ++
  (if bool_decide (mr_why r = []) then [] else lit ": " ++ mr_why r) ++
  (if bool_decide (mr_note r = []) then [] else lit "; " ++ mr_note r) ++
  (if bool_decide (mr_transport r = []) || negb (bool_decide (mr_state r = Enforced)) then []
   else lit "; transport: " ++ mr_transport r).

Definition EndpointHviWhy : gostr :=
  lit "hull's gateway answers brig.internal with its own address and diverts port 443 of it to the broker, which serves it with TLS under the brig CA".
Definition EndpointNerdctlWhy : gostr :=
  lit "the sandbox's resolver answers brig.internal with its bridge's own address, and its nftables table diverts port 443 of it to the broker, which serves it with TLS under the brig CA".
Definition endpointVmnetWhy (hv : string) : gostr :=
  lit hv ++ lit " takes its network from vmnet, and brig routes brig.internal at the user-mode network gateway that only the hvi backend uses".
Definition endpointDockerWhy : gostr :=
  lit "brig routes brig.internal with nftables on nerdctl's bridge, and docker manages its own bridges and firewall".
Definition endpointGuestRemedy : gostr := lit "Detach the policy".
Definition endpointOfflineWhy : gostr :=
  lit "the guest reaches brig.internal over its network, and this run has none (BRIG_NETWORK=offline)".
Definition otherModeRemedy : gostr := lit "Use mode: endpoint, or detach the policy".
Definition runcBackend : gostr := lit "runc".

Definition modeRecords : list ModeRecord := [
  MkModeRecord ModeEndpoint (hull_path "hvi") Enforced EndpointHviWhy [] hvi_remedy BrigInternalName;
  MkModeRecord ModeEndpoint (hull_path "vz") CannotEnforce (endpointVmnetWhy "vz") [] hvi_remedy [];
  MkModeRecord ModeEndpoint (hull_path "qemu") CannotEnforce (endpointVmnetWhy "qemu") [] hvi_remedy [];
  MkModeRecord ModeEndpoint (MkRunPath (lit "nerdctl") uruncShim) Enforced EndpointNerdctlWhy [] endpointGuestRemedy BrigInternalName;
  MkModeRecord ModeEndpoint (MkRunPath (lit "nerdctl") runcBackend) CannotEnforce
    (lit "brig boots no shim that gives the guest the host's own kernel, so there is no guest to route brig.internal to") []
    (lit "Unset BRIG_CONTAINERD_RUNTIME to use urunc, or detach the policy") [];
  MkModeRecord ModeEndpoint (MkRunPath (lit "docker") anyBackend) CannotEnforce endpointDockerWhy []
    (lit "Use nerdctl (BRIG_RUNTIME_BIN=nerdctl), or detach the policy") []].

(** [RegisterModeRecords]: the rows go after those already there. *)
Definition RegisterModeRecords (table rs : list ModeRecord) : list ModeRecord := table ++ rs.

Definition ModeRecords (table : list ModeRecord) (m : gostr) : list ModeRecord := filter (fun r => mr_mode r = m) table.

Definition modeKey (path : RunPath) : RunPath :=
  if negb (bool_decide (rp_runtime path = lit "nerdctl")) then path
  else match shimBoundary (rp_backend path) with
       | BoundaryContainer => MkRunPath (rp_runtime path) runcBackend
       | BoundaryVM => MkRunPath (rp_runtime path) uruncShim
       | BoundaryUnknown => path
       end.

Section Modes.
(** The registered modes, and the rows of the table. *)
Variable modes : modes_map.
Variable table : list ModeRecord.

Definition ModeAnswer (m : gostr) (path : RunPath) : ModeRecord :=
  if negb (Served modes m) then MkModeRecord m path CannotEnforce (NotInBuild m) [] otherModeRemedy []
  else match find_row mr_path (fun r => bool_decide (mr_mode r = m)) (modeKey path) table with
       | Some r => MkModeRecord (mr_mode r) path (mr_state r) (mr_why r) (mr_note r) (mr_remedy r) (mr_transport r)
       | None =>
         MkModeRecord m path Unknown (lit "brig holds no answer for this run path") []
           (if bool_decide (m = ModeEndpoint) then endpointGuestRemedy else otherModeRemedy) []
       end.

Definition ServedModes (path : RunPath) : list gostr :=
  filter (fun m => mr_state (ModeAnswer m path) = Enforced) (ModeEndpoint :: Names modes).

(** Why a runtime refuses a run: its texts are the constructors' arguments. *)
Inductive runtime_error :=
  | CapabilityRefused (e : CapabilityError)
  | GUINeedsVz (hv : gostr)
  | DivertNeedsHvi (hv : gostr)
  | PublishNeedsHvi (p : Publication) (hv : gostr)
  | IsolatedNeedsHvi (hv : gostr)
  | OfflinePublish (p : option Publication)
  | SharedKernel (shim : gostr)
  | NoDisplay (driver : gostr)
  | DockerDiverts (bin : gostr)
  | GenericBootOnDocker
  | NotAMonitor (hv : gostr)
  | NotARootfsMode (asked : gostr)
  | RootfsNotGeneric (asked : gostr)
  | RootfsTypeClash (asked type : gostr)
  | NoOverlayHost (asked why : gostr)
  | SecretInArgv (name : gostr)
  | SetupRefused (text : gostr)
  | OtherRefusal (text : gostr).

Definition RequireRouteMode (m : gostr) (path : RunPath) : res runtime_error unit :=
  let r := ModeAnswer m path in
  if bool_decide (mr_state r = Enforced) then Ok tt
  else
    let why := if bool_decide (mr_note r = []) then mr_why r else mr_why r ++ lit "; " ++ mr_note r in
    Err (CapabilityRefused (MkCapabilityError (RouteModeProperty m) path (mr_state r) why (mr_remedy r) None)).

Definition requireEgress {Setup} (spec : RunSpec Setup) (path : RunPath) : res runtime_error unit :=
  if negb (Filtered (rs_Egress spec)) || bool_decide (rs_Net spec = lit "none") then Ok tt
  else
    let r := capability_Answer EgressProperty path in
    if bool_decide (cr_state r = Enforced) then Ok tt
    else Err (CapabilityRefused (MkCapabilityError EgressProperty path (cr_state r) (cr_why r) (cr_remedy r) None)).

Definition offline_divert (m : gostr) (path : RunPath) : CapabilityError :=
  MkCapabilityError (RouteModeProperty m) path CannotEnforce
    (lit "the runtime diverts the route's connections on the guest's network, and this run has none (BRIG_NETWORK=offline)")
    otherModeRemedy None.

Definition requireDiverts {Setup} (spec : RunSpec Setup) (path : RunPath) : res runtime_error unit :=
  check_all (fun r =>
    if bool_decide (dr_Mode r = []) then Ok tt
    else RequireRouteMode (dr_Mode r) path ;?
         fail_if (bool_decide (rs_Net spec = lit "none")) (CapabilityRefused (offline_divert (dr_Mode r) path)))
    (ds_Routes (es_Divert (rs_Egress spec))).

(** [CheckBrigInternal]: whether the runtime reports the address of
    [brig.internal], and the answer of its probe when it has one. *)
Definition CheckBrigInternal (router : bool) (probe : option (res runtime_error unit)) (path : RunPath) (net : gostr) :
  res runtime_error unit :=
  let refuse state why remedy :=
    Err (CapabilityRefused (MkCapabilityError (RouteModeProperty ModeEndpoint) path state why remedy None)) in
  RequireRouteMode ModeEndpoint path ;?
  if bool_decide (net = lit "none") then
    refuse CannotEnforce endpointOfflineWhy (lit "Run it with a network, or detach the policy")
  else if bool_decide (rp_runtime path = lit "nerdctl") && negb (bool_decide (net = lit "isolated")) then
    refuse CannotEnforce
      (lit "brig routes brig.internal on a network of the sandbox's own, and the run asks for the " ++ net ++ lit " network")
      (lit "Run it with --network isolated, or detach the policy")
  else if negb router then
    refuse Unknown (lit "brig cannot ask this runtime where its guest reaches brig.internal") endpointGuestRemedy
  else default (Ok tt) probe.
End Modes.

(** ** nerdctl.go: the shim and the driver *)

Section Host.
(** [os.Getenv]. *)
Variable getenv : gostr -> gostr.

Definition containerdRuntime : gostr := orDefault (getenv (lit "BRIG_CONTAINERD_RUNTIME")) uruncShim.

Definition refuseSharedKernel : res runtime_error unit :=
  fail_if (sharesHostKernel containerdRuntime) (SharedKernel containerdRuntime).

(** The nerdctl adapter, by the binary it drives. *)
Definition isDocker (bin : gostr) : bool := bool_decide (filepath_Base bin = lit "docker").
Definition driver (bin : gostr) : gostr := if isDocker bin then lit "docker" else lit "nerdctl".

(** A [Runtime] as [RoutePath] tells them apart. *)
Inductive runtime := NerdctlRuntime (bin : gostr) | OtherRuntime (kind : gostr).

Definition hypervisorOrDefault (hv : gostr) : gostr := orDefault hv (lit "vz").

Definition RoutePath (rt : runtime) (hypervisor : gostr) : RunPath :=
  match rt with
  | NerdctlRuntime bin => MkRunPath (driver bin) containerdRuntime
  | OtherRuntime kind =>
    if bool_decide (kind = lit "hull") then MkRunPath kind (hypervisorOrDefault hypervisor)
    else if bool_decide (kind = lit "nerdctl") then MkRunPath kind containerdRuntime
    else MkRunPath kind anyBackend
  end.

(** [nerdctl.ProbeBrigInternal]; [nft] is whether [lookNFT] finds one. *)
Definition nerdctl_ProbeBrigInternal (bin : gostr) (nft : bool) : res runtime_error unit :=
  let refuse why remedy :=
    Err (CapabilityRefused (MkCapabilityError (RouteModeProperty ModeEndpoint) (MkRunPath (driver bin) containerdRuntime)
      CannotEnforce why remedy None)) in
  if isDocker bin then refuse endpointDockerWhy (lit "Point BRIG_RUNTIME_BIN at nerdctl, or detach the policy")
  else if negb nft then
    refuse (lit "brig diverts brig.internal to the broker with nftables, and nft is not installed")
      (lit "Install nftables, or detach the policy")
  else Ok tt.

(** ** boot.go: the monitor of a generic boot *)

Definition linuxMonitor (hv : gostr) : res runtime_error gostr :=
  if mem hv [[]; lit "vz"] then Ok (lit "hvi")
  else if mem hv [lit "hvi"; lit "cloud-hypervisor"; lit "qemu"; lit "firecracker"] then Ok hv
  else Err (NotAMonitor hv).

Definition nerdctl_monitor {Setup} (bin : gostr) (spec : RunSpec Setup) : res runtime_error gostr :=
  if negb (rs_GenericBoot spec) || isDocker bin then Ok [] else linuxMonitor (rs_Hypervisor spec).

Definition nerdctl_Backend {Setup} (bin : gostr) (spec : RunSpec Setup) : gostr :=
  match nerdctl_monitor bin spec with Ok m => m | Err _ => rs_Hypervisor spec end.
End Host.

(** ** Lemmas *)

Lemma shimBinary_dotted (name : gostr) :
  shimBinary name <> [] -> contains name [slash] = false /\ contains name (lit ".") = true.
Proof.
  unfold shimBinary. intros H. destruct (contains name [slash]) eqn:E; [done|]. split; [done|].
  apply not_false_iff_true. intros Hd. apply contains_false in Hd.
  rewrite split_byte_none in H; [done|]. intros Hin. apply Hd.
  apply list_elem_of_split in Hin as (a & b & ->). by exists a, b.
Qed.

(** What [shimBoundary] takes for a container on the host's kernel. *)
Definition shares_kernel (shim : gostr) : Prop :=
  shimBinary shim ∈ sharedKernelShims \/
  (~ (exists rest, shim = containerdPrefix ++ rest) /\ (occurs [slash] shim \/ ~ occurs (lit ".") shim) /\
   filepath_Base shim ∈ sharedKernelRuntimes ++ sharedKernelShims).

Lemma urunc_not_shared : uruncShimBinary ∉ sharedKernelShims.
Proof. by apply mem_false. Qed.

Lemma shimBoundary_container shim : shimBoundary shim = BoundaryContainer <-> shares_kernel shim.
Proof.
  unfold shimBoundary, shares_kernel. split.
  - destruct (has_prefix shim containerdPrefix) eqn:Hp.
    { case_bool_decide; [done|]. destruct (mem _ sharedKernelShims) eqn:M; [|done]. left. by apply mem_true. }
    destruct (contains shim [slash] || negb (contains shim (lit "."))) eqn:Hc.
    + destruct (mem _ _ || mem _ _) eqn:M; [|done]. intros _. right. split_and!.
      * intros Hr. apply has_prefix_true in Hr. congruence.
      * apply orb_true_iff in Hc as [Hc|Hc]; [left; by apply contains_true|].
        right. apply negb_true_iff in Hc. by apply contains_false.
      * apply elem_of_app. apply orb_true_iff in M as [M|M]; apply mem_true in M; tauto.
    + destruct (mem (shimBinary shim) sharedKernelShims) eqn:M; [|done]. left. by apply mem_true.
  - intros [H|(Hp & Hc & H)].
    + destruct (shimBinary_dotted shim) as [Hs Hd].
      { intros E. rewrite E in H. by apply mem_true in H. }
      rewrite Hs, Hd. simpl. apply mem_true in H as Hm. rewrite Hm.
      destruct (has_prefix shim containerdPrefix); [|done].
      rewrite bool_decide_false; [done|]. intros E. rewrite E in H. by apply urunc_not_shared in H.
    + destruct (has_prefix shim containerdPrefix) eqn:E; [by apply has_prefix_true in E|].
      assert (contains shim [slash] || negb (contains shim (lit ".")) = true) as ->.
      { apply orb_true_iff. destruct Hc as [Hc|Hc]; [left; by apply contains_true|right].
        apply negb_true_iff. by apply contains_false. }
      assert (mem (filepath_Base shim) sharedKernelRuntimes || mem (filepath_Base shim) sharedKernelShims = true) as ->; [|done].
      apply orb_true_iff. rewrite !mem_true. by apply elem_of_app.
Qed.

Lemma runtimeless_key path : rp_runtime (modeKey path) = rp_runtime path.
Proof. unfold modeKey. case_bool_decide; simpl; [|done]. by destruct (shimBoundary _). Qed.

Lemma Served_endpoint modes : Served modes ModeEndpoint = true.
Proof. unfold Served. rewrite (bool_decide_true (ModeEndpoint = ModeEndpoint)) by done. by rewrite orb_true_r. Qed.

(** A runtime name that nerdctl hands to containerd, with no path in it, and
    for which containerd starts [containerd-shim-urunc-v2]: the last two parts
    of the name are [urunc] and [v2]. *)
Definition names_urunc (shim : gostr) : Prop :=
  (exists rest, shim = lit "io.containerd." ++ rest) /\ (exists pre, shim = pre ++ lit ".urunc.v2") /\ ~ occurs [slash] shim.

(** Where a guest reaches the broker. *)
Definition reaches_broker (path : RunPath) : Prop :=
  path = hull_path "hvi" \/ (rp_runtime path = lit "nerdctl" /\ names_urunc (rp_backend path)).

Lemma split_byte_cat (c : byte) (a b : gostr) : split_byte c (a ++ c :: b) = split_byte c a ++ split_byte c b.
Proof.
  induction a as [|d a IH]; cbn [app split_byte]; [by rewrite Ascii.eqb_refl|].
  destruct (Ascii.eqb d c); [by rewrite IH|]. rewrite IH. pose proof (split_byte_not_nil c a). by destruct (split_byte c a).
Qed.

Lemma join_two_after (c : byte) (ws : list gostr) (x y : gostr) :
  ws <> [] -> join [c] (ws ++ [x; y]) = join [c] ws ++ c :: x ++ c :: y.
Proof.
  intros Hws. induction ws as [|w ws IH]; [done|]. destruct ws as [|w' ws]; [done|].
  change (join [c] ((w :: w' :: ws) ++ [x; y])) with (w ++ c :: join [c] ((w' :: ws) ++ [x; y])).
  change (join [c] (w :: w' :: ws)) with (w ++ c :: join [c] (w' :: ws)). rewrite IH by done. by rewrite <- app_assoc.
Qed.

Lemma urunc_parts (x y : gostr) : x ++ lit "-" ++ y = lit "urunc-v2" -> x = lit "urunc" /\ y = lit "v2".
Proof.
  intros H. do 8 (destruct x as [|? x]; cbn in H; [try discriminate H; injection H as H; subst; try done|injection H as -> H]).
  destruct x; discriminate H.
Qed.

(** The binary containerd starts for a name nerdctl hands it is urunc's exactly
    when the name ends so. *)
Lemma urunc_binary (s : gostr) :
  has_prefix s containerdPrefix = true -> shimBinary s = uruncShimBinary <-> names_urunc s.
Proof.
  intros Hp. apply has_prefix_true in Hp as Hr. unfold names_urunc. split.
  - intros H. split; [exact Hr|]. destruct (shimBinary_dotted s) as [Hs _]; [by rewrite H|].
    split; [|by apply contains_false]. unfold shimBinary in H. rewrite Hs in H.
    destruct (rev (split_byte "." s)) as [|y [|x ws]] eqn:E; [done..|]. case_bool_decide; [done|].
    change uruncShimBinary with (lit "containerd-shim-" ++ lit "urunc-v2") in H. apply app_inv_head in H. apply urunc_parts in H as [-> ->].
    apply (f_equal (@rev _)) in E. rewrite rev_involutive in E. cbn [rev] in E. rewrite <- app_assoc in E. cbn [app] in E.
    rewrite <- (join_split_byte "." s), E. destruct (decide (rev ws = [])) as [Hw|Hw].
    + rewrite Hw in E. rewrite <- (join_split_byte "." s), E in Hp. discriminate Hp.
    + exists (join ["."%char] (rev ws)). by rewrite join_two_after.
  - intros (_ & [pre Hpre] & Hs). apply contains_false in Hs. unfold shimBinary. rewrite Hs.
    assert (rev (split_byte "." s) = lit "v2" :: lit "urunc" :: rev (split_byte "." pre)) as E.
    { rewrite Hpre. change (lit ".urunc.v2") with ("."%char :: lit "urunc.v2"). rewrite split_byte_cat, rev_app_distr. done. }
    rewrite E. rewrite bool_decide_false; [done|]. destruct Hr as [rest ->].
    change (containerdPrefix ++ rest) with (lit "io" ++ "."%char :: (lit "containerd." ++ rest)).
    rewrite split_byte_app; [done|]. by apply mem_false.
Qed.

Lemma shimBoundary_VM (s : gostr) : shimBoundary s = BoundaryVM <-> names_urunc s.
Proof.
  unfold shimBoundary. destruct (has_prefix s containerdPrefix) eqn:Hp.
  - rewrite <- urunc_binary by done. case_bool_decide; [tauto|]. destruct (mem _ _); split; (done || tauto).
  - split; [|intros ([rest Hr] & _)].
    + destruct (_ || _); [destruct (_ || _)|destruct (mem _ _)]; done.
    + apply not_true_iff_false in Hp. destruct Hp. apply has_prefix_true. by exists rest.
Qed.

Lemma builtin_row key :
  mr_state <$> find_row mr_path (fun r => bool_decide (mr_mode r = ModeEndpoint)) key modeRecords = Some Enforced <->
  key = hull_path "hvi" \/ key = MkRunPath (lit "nerdctl") uruncShim.
Proof.
  split.
  - destruct (find_row _ _ key modeRecords) as [r|] eqn:E; [|done]. simpl. intros [= Hs].
    apply find_row_about in E as (Hin & _ & Hr & Hb). destruct key as [rt b]. simpl in *.
    unfold modeRecords in Hin. rewrite !elem_of_cons, elem_of_nil in Hin.
    destruct Hin as [->|[->|[->|[->|[->|[->|[]]]]]]]; simpl in *; try discriminate Hs; destruct Hb as [<-|Hb]; try discriminate Hb;
      subst rt; tauto.
  - intros [->| ->]; reflexivity.
Qed.

Lemma modeKey_reaches path :
  modeKey path = hull_path "hvi" \/ modeKey path = MkRunPath (lit "nerdctl") uruncShim <-> reaches_broker path.
Proof.
  unfold reaches_broker. rewrite <- shimBoundary_VM. destruct path as [rt b]. simpl. unfold modeKey. simpl.
  destruct (decide (rt = lit "nerdctl")) as [->|Hne].
  - rewrite bool_decide_true by done. simpl. destruct (shimBoundary b) eqn:E; simpl.
    + split; [|tauto]. intros _. by right.
    + split; [|intros [H|[_ H]]; [discriminate H|done]]. intros [H|H]; discriminate H.
    + split; [|intros [H|[_ H]]; [discriminate H|done]].
      intros [H|H]; [discriminate H|]. injection H as ->. discriminate E.
  - rewrite bool_decide_false by done. simpl. split; [|intros [H|[H _]]; [by left|done]].
    intros [H|H]; [by left|]. injection H as ->. done.
Qed.

Lemma endpoint_answer (modes : modes_map) rows path :
  Forall (fun r => mr_mode r <> ModeEndpoint) rows ->
  mr_state (ModeAnswer modes (RegisterModeRecords modeRecords rows) ModeEndpoint path) = Enforced <-> reaches_broker path.
Proof.
  intros Hrows. rewrite <- modeKey_reaches, <- builtin_row. unfold ModeAnswer, RegisterModeRecords.
  rewrite Served_endpoint. cbn [negb]. rewrite find_row_app_none.
  - destruct (find_row _ _ _ modeRecords) as [r|]; simpl; [|done]. split; [congruence|]. intros [= ?]. done.
  - eapply Forall_impl; [exact Hrows|]. intros r Hr. by apply bool_decide_eq_false.
Qed.

Lemma RequireRouteMode_ok modes table m path :
  RequireRouteMode modes table m path = Ok tt <-> mr_state (ModeAnswer modes table m path) = Enforced.
Proof. unfold RequireRouteMode. case_bool_decide; [tauto|]. split; [done|tauto]. Qed.

Lemma requireEgress_ok {Setup} (spec : RunSpec Setup) path :
  requireEgress spec path = Ok tt <->
  (Filtered (rs_Egress spec) = true -> rs_Net spec <> lit "none" ->
   path = hull_path "hvi" \/ rp_runtime path = lit "nerdctl").
Proof.
  unfold requireEgress. destruct (Filtered (rs_Egress spec)); simpl; [|done].
  destruct (decide (rs_Net spec = lit "none")) as [Hn|Hn]; [by rewrite bool_decide_true|]. rewrite (bool_decide_false _ Hn).
  assert (cr_state (capability_Answer EgressProperty path) = Enforced <->
    path = hull_path "hvi" \/ rp_runtime path = lit "nerdctl") as Ha.
  { unfold capability_Answer. destruct path as [rt b]. split.
    - destruct (find_row _ _ _ records) as [r|] eqn:E; [|done]. simpl. intros Hs.
      apply find_row_about in E as (Hin & _ & Hr & Hb). simpl in *.
      unfold records in Hin. rewrite !elem_of_cons, elem_of_nil in Hin.
      destruct Hin as [->|[->|[->|[->|[->|[]]]]]]; simpl in *; try discriminate Hs; subst rt; [|tauto].
      destruct Hb as [<-|Hb]; [tauto|discriminate Hb].
    - intros [H|H]; [injection H as -> ->; reflexivity|]. simpl in H. subst rt.
      destruct (decide (b = [])) as [->|Hb]; [reflexivity|].
      rewrite find_row_general; [reflexivity|]. repeat constructor; unfold row_matches; simpl; try done.
      rewrite (bool_decide_false (anyBackend = b)); [done|]. unfold anyBackend. congruence. }
  case_bool_decide as Hs; [split; [intros _ _ _; tauto|done]|].
  split; [done|]. intros H'. rewrite Ha in Hs. tauto.
Qed.

(** ** Properties *)

(** Whichever name [BRIG_CONTAINERD_RUNTIME] gives, brig refuses the boot
    exactly when the name is one that containerd resolves to a runc shim,
    whatever stands before its last two parts, or one that nerdctl runs as the
    runc shim's binary and whose file name is runc, crun or that shim's own;
    no such name is ever credited as a microVM. *)
Lemma shared_kernel_refused (getenv : gostr -> gostr) (shim : gostr) :
  orDefault (getenv (lit "BRIG_CONTAINERD_RUNTIME")) uruncShim = shim ->
  (refuseSharedKernel getenv = Err (SharedKernel shim) <-> shares_kernel shim) /\
  (shares_kernel shim -> forall driver named monitor rootfs,
     is_boundary (containerdIsolation driver shim named monitor rootfs) = BoundaryContainer).
Proof.
  intros H. unfold refuseSharedKernel, containerdRuntime. rewrite H. rewrite <- shimBoundary_container.
  unfold sharesHostKernel, containerdIsolation. split.
  - unfold fail_if. case_bool_decide; done.
  - intros -> *. done.
Qed.

Definition crun_env (name : gostr) : gostr :=
  if bool_decide (name = lit "BRIG_CONTAINERD_RUNTIME") then lit "io.containerd.urunc.runc.v2" else [].

Lemma shared_kernel_refused_witness :
  refuseSharedKernel crun_env = Err (SharedKernel (lit "io.containerd.urunc.runc.v2")) /\ shares_kernel (lit "io.containerd.urunc.runc.v2").
Proof.
  assert (shares_kernel (lit "io.containerd.urunc.runc.v2")) as H by (left; by apply mem_true).
  split; [|exact H]. apply (proj1 (shared_kernel_refused crun_env (lit "io.containerd.urunc.runc.v2") eq_refl)). exact H.
Defined.

(** C29: a route in mode endpoint is let onto [brig.internal] only where the
    guest reaches the broker over a network of its own: on hull with hvi, or
    on nerdctl with a name nerdctl hands to containerd whose last parts are
    [urunc] and [v2], so that containerd starts urunc's shim, and the isolated
    posture; a run with no network, docker, vz, qemu, runc and every shim brig
    does not know are refused, whatever rows other modes registered. *)
Theorem brig_internal_boundary (modes : modes_map) (rows : list ModeRecord) (router : bool)
    (probe : option (res runtime_error unit)) (path : RunPath) (net : gostr) :
  Forall (fun r => mr_mode r <> ModeEndpoint) rows ->
  CheckBrigInternal modes (RegisterModeRecords modeRecords rows) router probe path net = Ok tt <->
  reaches_broker path /\ net <> lit "none" /\ (rp_runtime path = lit "nerdctl" -> net = lit "isolated") /\
  router = true /\ (forall answer, probe = Some answer -> answer = Ok tt).
Proof.
  intros Hrows. unfold CheckBrigInternal.
  pose proof (endpoint_answer modes rows path Hrows) as Ha.
  rewrite <- (RequireRouteMode_ok modes) in Ha.
  destruct (RequireRouteMode _ _ _ _) as [[]|e]; cbn [res_bind]; [|split; [done|intros (Hb & _); apply Ha in Hb; done]].
  destruct (decide (net = lit "none")) as [->|Hnet].
  { rewrite bool_decide_true by done. split; [done|]. by intros (_ & ? & _). }
  rewrite (bool_decide_false (net = lit "none")) by done.
  destruct (bool_decide (rp_runtime path = lit "nerdctl") && negb (bool_decide (net = lit "isolated"))) eqn:Hi.
  { apply andb_true_iff in Hi as [H1 H2]. apply bool_decide_eq_true in H1. apply negb_true_iff, bool_decide_eq_false in H2.
    split; [done|]. intros (_ & _ & Hx & _). destruct (H2 (Hx H1)). }
  assert (rp_runtime path = lit "nerdctl" -> net = lit "isolated") as Hiso.
  { intros Hn. rewrite (bool_decide_true _ Hn) in Hi. apply negb_false_iff, bool_decide_eq_true in Hi. done. }
  destruct router; simpl; [|split; [done|by intros (_ & _ & _ & ? & _)]].
  destruct probe as [[[]|e]|]; simpl.
  - split; [|done]. intros _. split_and!; [by apply Ha|done..|]. by intros ? [= <-].
  - split; [done|]. intros (_ & _ & _ & _ & Hp). by specialize (Hp _ eq_refl).
  - split; [|done]. intros _. split_and!; [by apply Ha|done..].
Qed.

Lemma brig_internal_boundary_witness :
  CheckBrigInternal ∅ (RegisterModeRecords modeRecords []) true (Some (Ok tt)) (MkRunPath (lit "nerdctl") uruncShim) (lit "isolated") = Ok tt.
Proof.
  apply (proj2 (brig_internal_boundary ∅ [] true (Some (Ok tt)) _ _ (Forall_nil_2 _))). split_and!; [right; split; [done|]; by apply shimBoundary_VM|discriminate|done|done|].
  intros answer H. injection H as <-. done.
Defined.
