(* ===== verification/RuntimeArgs.v ===== *)
(** * [internal/runtime]: the command lines and the environment of a sandbox

    How [runtime.go], [rootfsmode.go], [boot.go], [hull.go] and [nerdctl.go]
    turn a request to boot or to run something into the argument vector and
    the environment of the runtime process, and which requests they refuse.
    The process environment, the files a generic boot needs and the setup that
    a registered route mode adds are arguments. *)

From stdpp Require Import prelude list strings gmap sorting.
From Stdlib Require Import ZArith Lia Ascii.
From S2P Require Import Prelude GoUnicode GoStrings GoNum GoNetip GoPath GoClean RouteTypes RouteValidate RouteMode Profile Creds Volumes ProfileReg NetAlloc Publish Verify BundleFiles VerifyRun RuntimeCaps.

Local Open Scope Z_scope.

(** ** runtime.go: variables for the guest *)

Definition runtimeReads (name : gostr) : bool :=
  mem name [lit "HOME"; lit "PATH"; lit "TMPDIR"] || has_prefix name (lit "XDG_").

(** [name + "=" + value]. *)
Definition env_entry (name value : gostr) : gostr := name ++ lit "=" ++ value.

Section Env.
(** [os.Getenv]. *)
Variable getenv : gostr -> gostr.

Definition envInArgv : bool := bool_decide (getenv (lit "BRIG_ENV_ARGV") = lit "1").

Definition hatchExposes (v : Var) : bool := envInArgv && negb (va_secret v) && negb (runtimeReads (va_name v)).

Definition inArgv (v : Var) : bool := (runtimeReads (va_name v) && negb (va_secret v)) || hatchExposes v.

Definition ArgvExposed (vars : list Var) : list gostr := va_name <$> List.filter hatchExposes vars.

Fixpoint splitEnv (flag : gostr) (vars : list Var) : res runtime_error (list gostr * list gostr) :=
  match vars with
  | [] => Ok ([], [])
  | v :: vars' =>
    if va_secret v && runtimeReads (va_name v) then Err (SecretInArgv (va_name v))
    else
      let? rest := splitEnv flag vars' in
      if inArgv v then Ok ([flag; env_entry (va_name v) (va_value v)] ++ rest.1, rest.2)
      else Ok ([flag; va_name v] ++ rest.1, env_entry (va_name v) (va_value v) :: rest.2)
  end.

Definition withDigest (image digest : gostr) : gostr :=
  if bool_decide (digest = []) then image
  else
    let image :=
      match cut_at (lit "@") image with
      | Some (a, _) => a
      | None =>
        match cut_last ":" image with
        | Some (a, b) => if contains b (lit "/") then image else a
        | None => image
        end
      end in
    image ++ lit "@" ++ digest.

(** [telemetryEnv]; [counting] and [version] are [telemetry.Counting] and
    [telemetry.Version]. *)
Definition telemetryEnv (counting : bool) (version : gostr) (counted : bool) : list gostr :=
  lit "HULL_TELEMETRY_PRODUCT=brig" ::
  (if counted && counting then [lit "HULL_TELEMETRY_SUPPRESS=command"; lit "HULL_TELEMETRY_VERSION=" ++ version]
   else [lit "HULL_TELEMETRY_SUPPRESS=1"]).

(** The name of an entry of an environment, when it has one. *)
Definition env_key (kv : gostr) : option gostr := fst <$> cut_at (lit "=") kv.

(** The entries of the current environment, with the last index of each name. *)
Fixpoint seen_from (i : nat) (env : list gostr) (seen : gmap gostr nat) : gmap gostr nat :=
  match env with
  | [] => seen
  | kv :: env' => seen_from (S i) env' (match env_key kv with Some k => <[k := i]> seen | None => seen end)
  end.

Definition mergeEnv_step (st : list gostr * gmap gostr nat) (kv : gostr) : list gostr * gmap gostr nat :=
  match env_key kv with
  | None => st
  | Some k =>
    match st.2 !! k with
    | Some i => (<[i := kv]> st.1, st.2)
    | None => (st.1 ++ [kv], <[k := length st.1]> st.2)
    end
  end.

(** [mergeEnv]; [environ] is [os.Environ]. *)
Definition mergeEnv (environ : list gostr) (additions : list (list gostr)) : list gostr :=
  (foldl mergeEnv_step (environ, seen_from 0 environ ∅) (concat additions)).1.

Definition withoutEnv (env : list gostr) (key : gostr) : list gostr :=
  filter (fun kv => (cut kv (lit "=")).1.1 <> key) env.

(** ** rootfsmode.go *)

Record OverlayRoot := MkOverlayRoot { or_Available : bool; or_Why : gostr }.

Definition RootfsModeOverlayBlock : gostr := lit "overlay-block".
Definition RootfsModeVirtiofs : gostr := lit "virtiofs".

Definition rootfsModeFor {Setup} (spec : RunSpec Setup) (monitor : bool) (host : OverlayRoot) : res runtime_error gostr :=
  let asked := rs_RootfsMode spec in
  let explicit := negb (bool_decide (asked = [])) in
  if bool_decide (asked = RootfsModeVirtiofs) then Ok []
  else if negb (mem asked [[]; RootfsModeOverlayBlock]) then Err (NotARootfsMode asked)
  else if negb (rs_GenericBoot spec) then
    (if explicit then Err (RootfsNotGeneric asked) else Ok [])
  else if negb (mem (rs_RootfsType spec) [[]; RootfsModeVirtiofs]) then
    (if explicit then Err (RootfsTypeClash asked (rs_RootfsType spec)) else Ok [])
  else if negb (or_Available host) then
    (if explicit then Err (NoOverlayHost asked (or_Why host)) else Ok [])
  else if negb explicit && negb monitor then Ok []
  else Ok RootfsModeOverlayBlock.

Definition hullMke2fs : gostr := lit "/opt/homebrew/opt/e2fsprogs/sbin/mke2fs".

(** [hullOverlayRoot]; [executable] is [isExecutable]. *)
Definition hullOverlayRoot (executable : gostr -> bool) : OverlayRoot :=
  if executable hullMke2fs then MkOverlayRoot true []
  else MkOverlayRoot false
    (lit "install e2fsprogs (brew install e2fsprogs): hull formats the disks with " ++ hullMke2fs).

Definition hullOverlayMonitor (hv : gostr) : bool * gostr :=
  if negb (mem hv [lit "vz"; lit "hvi"]) then (false, lit "hull's " ++ hv ++ lit " backend takes no overlay root")
  else if negb (bool_decide (getenv (lit "HULL_ROOTFS_MODE") = [])) then
    (false, lit "HULL_ROOTFS_MODE is set and chooses the root itself")
  else if negb (bool_decide (getenv (lit "HULL_HVI_ROOTFS_UPPER") = [])) then
    (false, lit "HULL_HVI_ROOTFS_UPPER is set and chooses the root itself")
  else (true, []).

Definition hullRootfsMode {Setup} (executable : gostr -> bool) (spec : RunSpec Setup) (hv : gostr) : res runtime_error gostr :=
  rootfsModeFor spec (hullOverlayMonitor hv).1 (hullOverlayRoot executable).

Definition uruncOverlayMonitors : list gostr := [lit "hvi"; lit "cloud-hypervisor"; lit "qemu"].

Definition isUruncShim (shim : gostr) : bool :=
  has_prefix shim containerdPrefix && bool_decide (shimBinary shim = uruncShimBinary).

(** [tomlSnapshotter] over the lines of the file. *)
Definition toml_value (val : gostr) : gostr :=
  let val := trim_space val in
  match val with
  | q :: rest =>
    if has_byte q [zb 34; zb 39] then match cut_at [q] rest with Some (v, _) => v | None => [] end
    else trim_space (cut val (lit "#")).1.1
  | [] => []
  end.

Fixpoint toml_lines (lines : list gostr) : gostr :=
  match lines with
  | [] => []
  | l :: lines' =>
    let line := trim_space l in
    if has_prefix line (lit "[") then []
    else
      let '(key, val, ok) := cut line (lit "=") in
      if negb ok || negb (bool_decide (trim_space key = lit "snapshotter")) then toml_lines lines' else toml_value val
  end.

(** [read path] is the content of a file that opens. *)
Definition tomlSnapshotter (read : gostr -> option gostr) (path : gostr) : gostr :=
  if bool_decide (path = []) then []
  else match read path with Some content => toml_lines (scanner_lines (split_byte line_feed content)) | None => [] end.

(** [nerdctlToml]: [root] is [os.Geteuid() == 0] and [home] the user's. *)
Definition nerdctlToml (root : bool) (home : option gostr) : gostr :=
  if negb (bool_decide (getenv (lit "NERDCTL_TOML") = [])) then getenv (lit "NERDCTL_TOML")
  else if root then lit "/etc/nerdctl/nerdctl.toml"
  else
    let under dir := filepath_Join (filepath_Join dir (lit "nerdctl")) (lit "nerdctl.toml") in
    if negb (bool_decide (getenv (lit "XDG_CONFIG_HOME") = [])) then under (getenv (lit "XDG_CONFIG_HOME"))
    else match home with Some h => under (filepath_Join h (lit ".config")) | None => [] end.

Record toml_host := MkTomlHost { th_root : bool; th_home : option gostr; th_read : gostr -> option gostr; th_mke2fs : bool }.

Definition containerdSnapshotter (h : toml_host) : gostr * gostr :=
  let v := getenv (lit "CONTAINERD_SNAPSHOTTER") in
  if negb (bool_decide (v = [])) then (v, lit "CONTAINERD_SNAPSHOTTER")
  else
    let path := nerdctlToml (th_root h) (th_home h) in
    let v := tomlSnapshotter (th_read h) path in
    if negb (bool_decide (v = [])) then (v, path) else (lit "overlayfs", lit "nerdctl's default").

Definition nerdctl_overlayRoot (bin : gostr) (h : toml_host) : OverlayRoot :=
  let shim := containerdRuntime getenv in
  let '(snap, from) := containerdSnapshotter h in
  if isDocker bin then MkOverlayRoot false (lit "docker does not carry the rootfs mode to urunc; use nerdctl")
  else if negb (isUruncShim shim) then
    MkOverlayRoot false (lit "BRIG_CONTAINERD_RUNTIME=" ++ shim ++ lit " is not urunc, which builds the overlay root")
  else if negb (bool_decide (snap = lit "overlayfs")) then
    MkOverlayRoot false (lit "the containerd snapshotter is " ++ snap ++ lit " (" ++ from ++
      lit "), and urunc builds the overlay root from overlayfs only")
  else if negb (th_mke2fs h) then
    MkOverlayRoot false (lit "install e2fsprogs: urunc formats the disks with mke2fs, and there is none on PATH or in /usr/sbin")
  else MkOverlayRoot true [].

Definition nerdctl_overlayMonitor {Setup} (bin : gostr) (spec : RunSpec Setup) : bool :=
  match nerdctl_monitor bin spec with Err _ => false | Ok m => mem m uruncOverlayMonitors end.

Definition nerdctl_rootfsMode {Setup} (bin : gostr) (h : toml_host) (spec : RunSpec Setup) : res runtime_error gostr :=
  rootfsModeFor spec (nerdctl_overlayMonitor bin spec) (nerdctl_overlayRoot bin h).
End Env.

(** ** boot.go: the files of a generic boot *)

(** What [os.Stat] says of a file: whether it is a directory, and its size. *)
Definition file_stat : Type := gostr -> option (bool * Z).

Inductive boot_error :=
  | NoAssetsDir (why : gostr)
  | ChosenDirEmpty (explicit : gostr)
  | CannotFetch (dir : gostr)
  | FetchFailed (why : gostr)
  | StillMissing (path : gostr)
  | EmptyFile (path : gostr).

Definition asset_usable (stat : file_stat) (path : gostr) : bool :=
  match stat path with Some (isdir, size) => negb isdir && negb (size =? 0) | None => false end.

Definition bootArtifactsPresent (stat : file_stat) (kernel initrd : gostr) : bool :=
  asset_usable stat kernel && asset_usable stat initrd.

Definition bootInitrdName : gostr := lit "container-initrd".
Definition bootKernelName (goarch : gostr) : gostr := if bool_decide (goarch = lit "amd64") then lit "bzImage" else lit "Image".

Section Boot.
Variable getenv : gostr -> gostr.
(** [filepath.Abs], [defaultBootAssetsDir] and [goruntime.GOARCH]. *)
Variable abs : gostr -> res gostr gostr.
Variable defaultBootAssetsDir : res gostr gostr.
Variable goarch : gostr.
(** What the locator answers, when there is one and it does. *)
Variable located : option gostr.

Definition bootAssetsDir : res boot_error (gostr * gostr) :=
  let explicit := getenv (lit "BRIG_BOOT_ASSETS") in
  if negb (bool_decide (explicit = [])) then
    let? dir := map_err NoAssetsDir (abs explicit) in Ok (dir, explicit)
  else
    match located with
    | Some (c :: l) => Ok (c :: l, [])
    | _ => let? dir := map_err NoAssetsDir defaultBootAssetsDir in Ok (dir, [])
    end.

Definition check_asset (stat : file_stat) (path : gostr) : res boot_error unit :=
  match stat path with
  | None => Err (StillMissing path)
  | Some (isdir, size) => fail_if (isdir || (size =? 0)) (EmptyFile path)
  end.

(** [fetch dir] is the file system after a fetch into [dir], or why it
    failed.  The first result is the directory a fetch was made into. *)
Definition replaceBootArtifacts (stat : file_stat) (fetch : option (gostr -> res gostr file_stat)) (replace : bool) :
  option gostr * res boot_error (gostr * gostr) :=
  match bootAssetsDir with
  | Err e => (None, Err e)
  | Ok (dir, explicit) =>
    let kernel := filepath_Join dir (bootKernelName goarch) in
    let initrd := filepath_Join dir bootInitrdName in
    let checked stat :=
      check_asset stat kernel ;? check_asset stat initrd ;? Ok (kernel, initrd) in
    if negb (bootArtifactsPresent stat kernel initrd) || (replace && bool_decide (explicit = [])) then
      if negb (bool_decide (explicit = [])) then (None, Err (ChosenDirEmpty explicit))
      else match fetch with
           | None => (None, Err (CannotFetch dir))
           | Some f =>
             match f dir with
             | Err why => (Some dir, Err (FetchFailed why))
             | Ok stat' => (Some dir, checked stat')
             end
           end
    else (None, checked stat)
  end.

Definition bootArtifacts (stat : file_stat) (fetch : option (gostr -> res gostr file_stat)) :=
  replaceBootArtifacts stat fetch false.

Definition runtime_resolveBootAssets (stat : file_stat) (fetch : option (gostr -> res gostr file_stat)) (replace : bool) :
  option gostr * res boot_error BootAssets :=
  let '(fetched, r) := replaceBootArtifacts stat fetch replace in
  (fetched,
   let? files := r in
   Ok (MkBootAssets files.1 files.2 (negb (bool_decide (getenv (lit "BRIG_BOOT_ASSETS") = []))))).
End Boot.

Definition boot_given (b : BootAssets) : bool := negb (bool_decide (ba_Kernel b = [])) && negb (bool_decide (ba_Initrd b = [])).

(** [bootAnnotations]; [artifacts] is what [bootArtifacts] comes to. *)
Definition bootAnnotations (given : BootAssets) (artifacts : res boot_error (gostr * gostr)) : res boot_error (list gostr) :=
  let? files := if boot_given given then Ok (ba_Kernel given, ba_Initrd given) else artifacts in
  Ok [env_entry (lit "com.urunc.unikernel.bootKernel") files.1; env_entry (lit "com.urunc.unikernel.bootInitrd") files.2].

(** ** gateway.go: where the shared gateway listens *)

Definition sandboxSocketName (sock : gostr) : bool :=
  let base := to_lower (filepath_Base sock) in
  has_prefix base (lit "sandbox-") && has_suffix base (lit ".sock").

Definition socketTag (subnet : gostr) : gostr :=
  (fun c => if Ascii.eqb c "/" then "_"%char else if Ascii.eqb c "." then "-"%char else c) <$> subnet.

Definition gatewayDir (getenv : gostr -> gostr) (home : option gostr) : res runtime_error gostr :=
  let d := getenv (lit "BRIG_GATEWAY_DIR") in
  let s := getenv (lit "BRIG_GATEWAY_SOCK") in
  if negb (bool_decide (d = [])) then Ok d
  else if negb (bool_decide (s = [])) then Ok (filepath_Dir s)
  else match home with
       | Some h => Ok (filepath_Join h (lit ".brig"))
       | None => Err (OtherRefusal (lit "no home directory to place the gateway sockets in"))
       end.

Definition gatewaySocket (getenv : gostr -> gostr) (home : option gostr) : res runtime_error gostr :=
  let s := getenv (lit "BRIG_GATEWAY_SOCK") in
  if negb (bool_decide (s = [])) then
    fail_if (sandboxSocketName s) (OtherRefusal (lit "BRIG_GATEWAY_SOCK uses a name reserved for isolated gateways")) ;? Ok s
  else
    let? dir := gatewayDir getenv home in
    Ok (filepath_Join dir (lit "gateway-" ++ socketTag gatewaySubnet ++ lit ".sock")).

(** ** hull.go and nerdctl.go *)

(** The host a run is checked on. *)
Record run_host := MkRunHost {
  rh_env : gostr -> gostr;                   (* os.Getenv *)
  rh_home : option gostr;                    (* os.UserHomeDir *)
  rh_executable : gostr -> bool;             (* isExecutable *)
  rh_toml : toml_host;
  rh_artifacts : res boot_error (gostr * gostr)   (* what bootArtifacts comes to *) }.

Definition hullNet (net : gostr) : gostr := if bool_decide (net = lit "none") then lit "none" else lit "shared".

Definition isolatedNet (net : gostr) (policy : EgressSpec) : bool :=
  bool_decide (net = lit "isolated") || Filtered policy || Requested (es_Divert policy).

Definition boot_refusal (e : boot_error) : runtime_error :=
  OtherRefusal
    match e with
    | NoAssetsDir why => why
    | ChosenDirEmpty d => d
    | CannotFetch d => d
    | FetchFailed why => why
    | StillMissing p => p
    | EmptyFile p => p
    end.

Section Runtimes.
(** A route mode's setup: its [Check] and its [Args]. *)
Context {Setup : Type}.
Variable Check_ : Setup -> RunPath -> RunSpec Setup -> res runtime_error unit.
Variable Args : Setup -> RunPath -> res runtime_error (list gostr).
Variable modes : modes_map.
Variable table : list ModeRecord.
Variable host : run_host.

Local Notation getenv := (rh_env host).

Definition checkSetup (spec : RunSpec Setup) (path : RunPath) : res runtime_error unit :=
  check_all (fun s => Check_ s path spec) (rs_Setup spec).

Fixpoint setup_args (l : list Setup) (path : RunPath) : res runtime_error (list gostr) :=
  match l with
  | [] => Ok []
  | s :: l' => let? a := Args s path in let? rest := setup_args l' path in Ok (a ++ rest)
  end.

Definition setupArgs (spec : RunSpec Setup) (path : RunPath) : res runtime_error (list gostr) := setup_args (rs_Setup spec) path.

Definition offlinePublishError (ports : list Publication) : runtime_error := OfflinePublish (head ports).

Definition brig_internal_check (spec : RunSpec Setup) (path : RunPath) : res runtime_error unit :=
  if ds_BrigInternal (es_Divert (rs_Egress spec)) then
    RequireRouteMode modes table ModeEndpoint path ;?
    fail_if (bool_decide (rs_Net spec = lit "none"))
      (CapabilityRefused (MkCapabilityError (RouteModeProperty ModeEndpoint) path CannotEnforce endpointOfflineWhy
        (lit "Run it with a network, or detach the policy") None))
  else Ok tt.

Definition publish_check (spec : RunSpec Setup) (hv : gostr) : res runtime_error unit :=
  match rs_Publish spec with
  | [] => Ok tt
  | p :: _ =>
    fail_if (negb (bool_decide (hv = lit "hvi"))) (PublishNeedsHvi p hv) ;?
    fail_if (bool_decide (rs_Net spec = lit "none")) (offlinePublishError (rs_Publish spec))
  end.

Definition supports (spec : RunSpec Setup) (hv : gostr) : res runtime_error unit :=
  let path := MkRunPath (lit "hull") hv in
  let hvi := bool_decide (hv = lit "hvi") in
  fail_if (rs_GUI spec && negb (bool_decide (hv = lit "vz"))) (GUINeedsVz hv) ;?
  requireEgress spec path ;?
  requireDiverts modes table spec path ;?
  fail_if (negb (bool_decide (ds_Routes (es_Divert (rs_Egress spec)) = [])) && negb hvi) (DivertNeedsHvi hv) ;?
  checkSetup spec path ;?
  hullRootfsMode getenv (rh_executable host) spec hv ;?
  brig_internal_check spec path ;?
  publish_check spec hv ;?
  fail_if (bool_decide (rs_Net spec = lit "isolated") && negb hvi) (IsolatedNeedsHvi hv) ;?
  if hvi && negb (bool_decide (rs_Net spec = lit "none")) then gatewaySocket getenv (rh_home host) ;? Ok tt else Ok tt.

Definition hull_CanRun (spec : RunSpec Setup) : res runtime_error unit := supports spec (hypervisorOrDefault (rs_Hypervisor spec)).

(** The mount of a share, as both runtimes take it. *)
Definition share_arg (s : Share) : gostr :=
  sh_Host s ++ lit ":" ++ sh_Guest s ++ (if sh_ReadOnly s then lit ":ro" else []).

Definition flagged (flag : string) (l : list gostr) : list gostr := l ≫= fun x => [lit flag; x].

Definition annotations_of (spec : RunSpec Setup) : res runtime_error (list gostr) :=
  map_err boot_refusal (bootAnnotations (rs_BootAssets spec) (rh_artifacts host)).

Definition hull_runArgs (spec : RunSpec Setup) (hv net gatewaySock gatewayCidr : gostr) : res runtime_error (list gostr * list gostr) :=
  let start :=
    [lit "run"; lit "--detach"; lit "--name"; rs_Name spec; lit "--hypervisor"; hv] ++
    [lit "--net"; hullNet net; lit "--pull"; orDefault (rs_Pull spec) (lit "missing")] ++
    [lit "--mem"; itoa (rs_Mem spec); lit "--cpus"; itoa (rs_CPUs spec)] ++
    (if bool_decide (rs_RootfsType spec = []) then [] else [lit "--rootfs-type"; rs_RootfsType spec]) in
  let? annotations := if rs_GenericBoot spec then annotations_of spec else Ok [] in
  let gateway := if bool_decide (gatewaySock = []) then []
                 else [lit "--gateway-sock"; gatewaySock; lit "--gateway-cidr"; gatewayCidr] in
  let? setup := setupArgs spec (MkRunPath (lit "hull") hv) in
  let gui := if rs_GUI spec
             then lit "--gui" :: (if bool_decide (rs_GUITitle spec = []) then [] else [lit "--gui-title"; rs_GUITitle spec])
             else [] in
  let? e := splitEnv getenv (lit "--env") (rs_Env spec) in
  let? mode := hullRootfsMode getenv (rh_executable host) spec hv in
  Ok (start ++ flagged "--annotation" annotations ++ gateway ++ flagged "--shared-dir" (share_arg <$> rs_Shares spec) ++
        setup ++ gui ++ e.1 ++ [withDigest (rs_Image spec) (rs_Digest spec)],
      e.2 ++ (if bool_decide (mode = []) then [] else [env_entry (lit "HULL_ROOTFS_MODE") mode])).

Definition opt_arg (flag : string) (v : gostr) : list gostr := if bool_decide (v = []) then [] else [lit flag; v].

Definition hull_execArgs (spec : ExecSpec) : res runtime_error (list gostr * list gostr) :=
  let? e := splitEnv getenv (lit "--env") (xs_Env spec) in
  Ok ([lit "exec"] ++ (if xs_TTY spec then [lit "-t"] else []) ++ opt_arg "--cwd" (xs_Cwd spec) ++
        opt_arg "-u" (xs_User spec) ++ e.1 ++ [xs_Name spec; lit "--"] ++ xs_Cmd spec, e.2).

(** The nerdctl adapter, driving [bin]. *)
Section Nerdctl.
Variable bin : gostr.

Definition nerdctl_path : RunPath := MkRunPath (driver bin) (containerdRuntime getenv).

Definition nerdctl_CanRun (spec : RunSpec Setup) : res runtime_error unit :=
  let offline := bool_decide (rs_Net spec = lit "none") in
  refuseSharedKernel getenv ;?
  fail_if (rs_GUI spec) (NoDisplay (driver bin)) ;?
  requireEgress spec nerdctl_path ;?
  fail_if (negb (bool_decide (rs_Publish spec = [])) && offline) (offlinePublishError (rs_Publish spec)) ;?
  fail_if (Requested (es_Divert (rs_Egress spec)) && negb offline && isDocker bin) (DockerDiverts bin) ;?
  checkSetup spec nerdctl_path ;?
  nerdctl_rootfsMode getenv bin (rh_toml host) spec ;?
  if rs_GenericBoot spec then linuxMonitor (rs_Hypervisor spec) ;? Ok tt else Ok tt.

Definition refuseGenericBootOnDocker : res runtime_error unit := fail_if (isDocker bin) GenericBootOnDocker.

Definition nerdctl_annotations (spec : RunSpec Setup) : res runtime_error (list gostr) :=
  if negb (rs_GenericBoot spec) then Ok []
  else
    refuseGenericBootOnDocker ;?
    let? annotations := annotations_of spec in
    let? monitor := nerdctl_monitor bin spec in
    let? mode := nerdctl_rootfsMode getenv bin (rh_toml host) spec in
    Ok (annotations ++ [env_entry (lit "com.urunc.unikernel.hypervisor") monitor] ++
        (if bool_decide (mode = []) then [] else [env_entry (lit "com.urunc.unikernel.rootfsMode") mode])).

Definition publish_arg (p : Publication) : gostr :=
  Addr p ++ lit ":" ++ itoa (pb_hostPort p) ++ lit ":" ++ itoa (pb_guestPort p) ++ lit "/" ++ Proto p.

Definition nerdctl_runArgs (spec : RunSpec Setup) : res runtime_error (list gostr * list gostr) :=
  let start :=
    [lit "run"; lit "--detach"; lit "--name"; rs_Name spec; lit "--runtime"; containerdRuntime getenv] ++
    [lit "--memory"; itoa (rs_Mem spec) ++ lit "m"; lit "--cpus"; itoa (rs_CPUs spec)] ++
    (if mem (rs_Pull spec) [lit "always"; lit "never"; lit "missing"] then [lit "--pull"; rs_Pull spec] else []) ++
    (if bool_decide (rs_Net spec = lit "none") then [lit "--network"; lit "none"]
     else if bool_decide (rs_Net spec = lit "isolated") then [lit "--network"; rs_Name spec] else []) in
  let? annotations := nerdctl_annotations spec in
  let? setup := setupArgs spec nerdctl_path in
  let? e := splitEnv getenv (lit "-e") (rs_Env spec) in
  Ok (start ++ flagged "--publish" (publish_arg <$> rs_Publish spec) ++ flagged "--annotation" annotations ++ setup ++
        flagged "-v" (share_arg <$> rs_Shares spec) ++ flagged "--tmpfs" (rs_Tmpfs spec) ++ e.1 ++
        [withDigest (rs_Image spec) (rs_Digest spec); lit "sleep"; lit "infinity"], e.2).

Definition nerdctl_execArgs (spec : ExecSpec) : res runtime_error (list gostr * list gostr) :=
  let? e := splitEnv getenv (lit "-e") (xs_Env spec) in
  Ok ([lit "exec"; lit "-i"] ++ (if xs_TTY spec then [lit "-t"] else []) ++ opt_arg "-w" (xs_Cwd spec) ++
        opt_arg "-u" (xs_User spec) ++ e.1 ++ [xs_Name spec] ++ xs_Cmd spec, e.2).

Definition nerdctl_Isolation (spec : RunSpec Setup) : Isolation :=
  let shim := containerdRuntime getenv in
  let named := if bool_decide (getenv (lit "BRIG_CONTAINERD_RUNTIME") = []) then shim
               else lit "BRIG_CONTAINERD_RUNTIME=" ++ shim in
  let monitor := match nerdctl_monitor bin spec with Ok m => m | Err _ => rs_Hypervisor spec end in
  let rootfs :=
    if rs_GenericBoot spec && negb (isDocker bin) then
      orDefault (match nerdctl_rootfsMode getenv bin (rh_toml host) spec with Ok m => m | Err _ => rs_RootfsMode spec end)
        (lit "urunc default")
    else [] in
  containerdIsolation (driver bin) shim named monitor rootfs.
End Nerdctl.

Definition hull_Isolation (spec : RunSpec Setup) : Isolation :=
  let hv := hypervisorOrDefault (rs_Hypervisor spec) in
  let mode := match hullRootfsMode getenv (rh_executable host) spec hv with Ok m => m | Err _ => rs_RootfsMode spec end in
  let rootfs := if bool_decide (mode = []) then orDefault (rs_RootfsType spec) (lit "hull default") else mode in
  MkIsolation BoundaryVM (lit "hull, " ++ hv ++ lit " backend, rootfs " ++ rootfs).
End Runtimes.

(** ** Lemmas: the environment of a process *)

(** The value of [k] in an entry that is one of [k]. *)
Definition value_in (k kv : gostr) : option gostr :=
  match cut_at (lit "=") kv with Some (k', v) => if decide (k' = k) then Some v else None | None => None end.

(** What a process started with [env] reads of [k]: of two entries the later
    one counts. *)
Definition env_lookup (env : list gostr) (k : gostr) : option gostr := last (omap (value_in k) env).

Lemma value_in_key k kv : is_Some (value_in k kv) <-> env_key kv = Some k.
Proof.
  unfold value_in, env_key. destruct (cut_at _ kv) as [[k' v]|]; simpl; [|split; [by intros []|done]].
  destruct (decide (k' = k)) as [->|]; split; [done|done|by intros []|congruence].
Qed.

Lemma value_in_other k k' kv : env_key kv = Some k' -> k' <> k -> value_in k kv = None.
Proof.
  intros H Hne. destruct (value_in k kv) eqn:E; [|done].
  assert (env_key kv = Some k) as H' by (apply value_in_key; by eexists). congruence.
Qed.

Lemma value_in_entry k v : "="%char ∉ k -> value_in k (env_entry k v) = Some v.
Proof.
  intros H. unfold value_in, env_entry, lit. simpl. rewrite cut_at_byte_app by done. by rewrite decide_True.
Qed.

Lemma env_lookup_app a b k : env_lookup (a ++ b) k = match env_lookup b k with Some v => Some v | None => env_lookup a k end.
Proof. unfold env_lookup. rewrite omap_app, last_app. done. Qed.

(** No entry of [env] is one of [k]. *)
Definition no_entry (k : gostr) (env : list gostr) : Prop := Forall (fun kv => value_in k kv = None) env.

Lemma env_lookup_none k env : no_entry k env -> env_lookup env k = None.
Proof. intros H. unfold env_lookup. induction H as [|kv env Hk _ IH]; [done|]. cbn [omap list_omap]. by rewrite Hk. Qed.

Lemma env_lookup_last a kv b k : no_entry k b -> is_Some (value_in k kv) -> env_lookup (a ++ kv :: b) k = value_in k kv.
Proof.
  intros Hb [v Hv]. change (a ++ kv :: b) with (a ++ [kv] ++ b). rewrite !env_lookup_app, env_lookup_none by done.
  unfold env_lookup. cbn [omap list_omap]. by rewrite Hv.
Qed.

Lemma env_lookup_skip a kv b k : value_in k kv = None -> env_lookup (a ++ kv :: b) k = env_lookup (a ++ b) k.
Proof. intros H. unfold env_lookup. rewrite !omap_app. cbn [omap list_omap]. by rewrite H. Qed.

(** [seen] holds, for each name of an entry, the last index of it. *)
Definition seen_ok (out : list gostr) (seen : gmap gostr nat) : Prop :=
  forall k, match seen !! k with
            | Some i => exists a kv b, out = a ++ kv :: b /\ length a = i /\ env_key kv = Some k /\ no_entry k b
            | None => no_entry k out
            end.

Lemma no_key k kv : env_key kv <> Some k -> value_in k kv = None.
Proof. intros H. destruct (value_in k kv) eqn:E; [|done]. destruct H. apply value_in_key. by eexists. Qed.

Lemma seen_ok_snoc out seen kv :
  seen_ok out seen ->
  seen_ok (out ++ [kv]) (match env_key kv with Some k => <[k := length out]> seen | None => seen end).
Proof.
  intros H k. specialize (H k).
  destruct (decide (env_key kv = Some k)) as [E|E].
  - rewrite E, lookup_insert_eq. exists out, kv, []. split_and!; try done. by constructor.
  - assert (match env_key kv with Some k' => <[k' := length out]> seen | None => seen end !! k = seen !! k) as ->.
    { destruct (env_key kv) as [k'|]; [|done]. apply lookup_insert_ne. congruence. }
    assert (no_entry k [kv]) as Hkv by (constructor; [by apply no_key|done]).
    destruct (seen !! k) as [i|].
    + destruct H as (a & x & b & -> & Ha & Hx & Hb). exists a, x, (b ++ [kv]). rewrite <- app_assoc. split_and!; try done.
      by apply Forall_app.
    + by apply Forall_app.
Qed.

Lemma seen_from_ok env pre seen : seen_ok pre seen -> seen_ok (pre ++ env) (seen_from (length pre) env seen).
Proof.
  revert pre seen. induction env as [|kv env IH]; intros pre seen H; simpl; [by rewrite app_nil_r|].
  specialize (IH (pre ++ [kv]) _ (seen_ok_snoc pre seen kv H)).
  rewrite <- app_assoc, length_app, Nat.add_comm in IH. exact IH.
Qed.

(** An entry written over the last one of its name. *)
Lemma seen_ok_over a x b seen kv k0 :
  seen_ok (a ++ x :: b) seen -> seen !! k0 = Some (length a) -> env_key x = Some k0 -> env_key kv = Some k0 -> no_entry k0 b ->
  seen_ok (a ++ kv :: b) seen.
Proof.
  intros H Es Hx E Hb k. pose proof (H k) as Hk. destruct (decide (k = k0)) as [->|Hne].
  { rewrite Es. by exists a, kv, b. }
  assert (value_in k kv = None) as Hkv by (apply no_key; congruence).
  assert (a ++ kv :: b = <[length a := kv]> (a ++ x :: b)) as -> by by rewrite insert_app_r_alt, Nat.sub_diag by lia.
  destruct (seen !! k) as [j|]; [|by apply Forall_insert].
  destruct Hk as (a' & y & b' & Heq & <- & Hy & Hb').
  destruct (Nat.lt_trichotomy (length a) (length a')) as [Hlt|[Hl|Hgt]].
  - exists (<[length a := kv]> a'), y, b'. rewrite length_insert. split_and!; try done. rewrite Heq. by rewrite insert_app_l by done.
  - apply app_inj_1 in Heq as [-> Heq]; [|done]. injection Heq as -> ->. destruct Hne. congruence.
  - exists a', y, (<[(length a - S (length a'))%nat := kv]> b'). split_and!; try done; [|by apply Forall_insert].
    rewrite Heq, insert_app_r_alt by lia. by replace (length a - length a')%nat with (S (length a - S (length a')))%nat by lia.
Qed.

Lemma merge_step_ok out seen kv :
  seen_ok out seen ->
  seen_ok (mergeEnv_step (out, seen) kv).1 (mergeEnv_step (out, seen) kv).2 /\
  forall k, env_lookup (mergeEnv_step (out, seen) kv).1 k = env_lookup (out ++ [kv]) k.
Proof.
  intros H. unfold mergeEnv_step. destruct (env_key kv) as [k0|] eqn:E; simpl.
  2:{ split; [done|]. intros k. by rewrite env_lookup_skip, app_nil_r by (apply no_key; congruence). }
  pose proof (H k0) as H0. destruct (seen !! k0) as [i|] eqn:Es; simpl.
  2:{ split; [|done]. pose proof (seen_ok_snoc out seen kv H) as Hs. by rewrite E in Hs. }
  destruct H0 as (a & x & b & -> & <- & Hx & Hb).
  rewrite insert_app_r_alt, Nat.sub_diag by lia. simpl. split; [by eapply seen_ok_over|].
  intros k. destruct (decide (k = k0)) as [->|Hne].
  - assert (is_Some (value_in k0 kv)) as Hv by by apply value_in_key.
    rewrite (env_lookup_last _ _ [] _ (Forall_nil_2 _) Hv). by apply env_lookup_last.
  - rewrite (env_lookup_skip _ kv []), app_nil_r by (apply no_key; congruence).
    by rewrite !env_lookup_skip by (apply no_key; congruence).
Qed.

Lemma merge_steps_ok l out seen :
  seen_ok out seen -> forall k, env_lookup (foldl mergeEnv_step (out, seen) l).1 k = env_lookup (out ++ l) k.
Proof.
  revert out seen. induction l as [|kv l IH]; intros out seen H k; cbn [foldl]; [by rewrite app_nil_r|].
  destruct (merge_step_ok out seen kv H) as [Hok Hl].
  destruct (mergeEnv_step (out, seen) kv) as [out' seen'] eqn:E. simpl in Hok, Hl.
  rewrite (IH out' seen' Hok k). change (out ++ kv :: l) with (out ++ [kv] ++ l). rewrite app_assoc.
  by rewrite (env_lookup_app out' l), (env_lookup_app (out ++ [kv]) l), Hl.
Qed.

(** [mergeEnv] reads as the additions after the current environment do. *)
Lemma mergeEnv_lookup environ additions k :
  env_lookup (mergeEnv environ additions) k = env_lookup (environ ++ concat additions) k.
Proof.
  unfold mergeEnv. apply merge_steps_ok. apply (seen_from_ok environ [] ∅). intros k'. rewrite lookup_empty. by constructor.
Qed.

(** ** Lemmas: variables on the command line *)

(** The arguments and the environment of a variable. *)
Definition arg_of (getenv : gostr -> gostr) (flag : gostr) (v : Var) : list gostr :=
  [flag; if inArgv getenv v then env_entry (va_name v) (va_value v) else va_name v].
Definition kept_env (getenv : gostr -> gostr) (v : Var) : list gostr :=
  if inArgv getenv v then [] else [env_entry (va_name v) (va_value v)].

Lemma splitEnv_Ok getenv flag vars args env :
  splitEnv getenv flag vars = Ok (args, env) <->
  args = vars ≫= arg_of getenv flag /\ env = vars ≫= kept_env getenv /\
  Forall (fun v => va_secret v && runtimeReads (va_name v) = false) vars.
Proof.
  revert args env. induction vars as [|v vars IH]; intros args env; cbn [splitEnv].
  { split; [intros [= <- <-]; done|]. by intros (-> & -> & _). }
  rewrite Forall_cons. destruct (va_secret v && runtimeReads (va_name v)) eqn:E.
  { split; [done|]. by intros (_ & _ & ? & _). }
  change ((v :: vars) ≫= arg_of getenv flag) with (arg_of getenv flag v ++ (vars ≫= arg_of getenv flag)).
  change ((v :: vars) ≫= kept_env getenv) with (kept_env getenv v ++ (vars ≫= kept_env getenv)).
  destruct (splitEnv getenv flag vars) as [[a e]|x]; cbn [res_bind fst snd].
  - destruct (proj1 (IH a e) eq_refl) as (-> & -> & Hall).
    generalize (vars ≫= arg_of getenv flag), (vars ≫= kept_env getenv). intros A E'. unfold arg_of, kept_env.
    destruct (inArgv getenv v); split.
    + intros [= <- <-]. split_and!; done.
    + intros (-> & -> & _). done.
    + intros [= <- <-]. split_and!; done.
    + intros (-> & -> & _). done.
  - split; [done|]. intros (_ & _ & _ & Hall). discriminate (proj2 (IH _ _) (conj eq_refl (conj eq_refl Hall))).
Qed.

(** Two variables that differ in the value of a stored secret at most. *)
Definition same_but_secret (v w : Var) : Prop :=
  va_name v = va_name w /\ va_secret v = va_secret w /\ (va_secret v = false -> va_value v = va_value w).

Definition argv_of (r : res runtime_error (list gostr * list gostr)) : res runtime_error (list gostr) := let? x := r in Ok x.1.

Lemma same_inArgv getenv v w : same_but_secret v w -> inArgv getenv v = inArgv getenv w.
Proof. intros (Hn & Hs & _). unfold inArgv, hatchExposes. by rewrite Hn, Hs. Qed.

Lemma secret_not_inArgv getenv v : va_secret v = true -> inArgv getenv v = false.
Proof. intros H. unfold inArgv, hatchExposes. rewrite H. simpl. by rewrite !andb_false_r. Qed.

(** The command line, and the refusal, do not depend on a stored secret. *)
Lemma splitEnv_blind getenv flag vars vars' :
  Forall2 same_but_secret vars vars' -> argv_of (splitEnv getenv flag vars) = argv_of (splitEnv getenv flag vars').
Proof.
  induction 1 as [|v w vars vars' Hvw _ IH]; [done|]. cbn [splitEnv].
  rewrite <- (same_inArgv getenv v w Hvw). destruct Hvw as (Hn & Hs & Hv). rewrite <- Hn, <- Hs.
  destruct (va_secret v && runtimeReads (va_name v)); [done|]. unfold argv_of in *.
  destruct (splitEnv getenv flag vars) as [[a e]|x], (splitEnv getenv flag vars') as [[a' e']|x'];
    simpl in IH |- *; try discriminate IH.
  - injection IH as ->. destruct (inArgv getenv v) eqn:E; [|done].
    destruct (va_secret v) eqn:Hsec; [by rewrite secret_not_inArgv in E|]. simpl. by rewrite Hv.
  - injection IH as ->. by destruct (inArgv getenv v).
Qed.

(** A spec with other variables. *)
Definition with_env {Setup} (spec : RunSpec Setup) (env : list Var) : RunSpec Setup :=
  MkRunSpec Setup (rs_Name spec) (rs_Image spec) (rs_Digest spec) (rs_Pull spec) (rs_Net spec) (rs_Mem spec) (rs_CPUs spec)
    (rs_Shares spec) env (rs_GUI spec) (rs_GUITitle spec) (rs_Hypervisor spec) (rs_RootfsType spec) (rs_RootfsMode spec)
    (rs_Tmpfs spec) (rs_GenericBoot spec) (rs_BootAssets spec) (rs_Egress spec) (rs_Setup spec) (rs_Publish spec) (rs_Counted spec).
Definition exec_with_env (spec : ExecSpec) (env : list Var) : ExecSpec :=
  MkExecSpec (xs_Name spec) (xs_Cmd spec) (xs_Cwd spec) (xs_TTY spec) env (xs_Counted spec) (xs_User spec).

Lemma argv_bind (r r' : res runtime_error (list gostr * list gostr)) (k k' : list gostr * list gostr -> res runtime_error (list gostr * list gostr)) :
  argv_of r = argv_of r' -> (forall a e e', argv_of (k (a, e)) = argv_of (k' (a, e'))) -> argv_of (res_bind r k) = argv_of (res_bind r' k').
Proof.
  destruct r as [[a e]|x], r' as [[a' e']|x']; simpl; intros H Hk; try discriminate H; [|by injection H as ->].
  injection H as ->. apply Hk.
Qed.

Lemma argv_same {A} (r : res runtime_error A) (k k' : A -> res runtime_error (list gostr * list gostr)) :
  (forall x, argv_of (k x) = argv_of (k' x)) -> argv_of (res_bind r k) = argv_of (res_bind r k').
Proof. intros H. destruct r; simpl; [apply H|done]. Qed.

Section Blind.
Context {Setup : Type}.
Variable Args : Setup -> RunPath -> res runtime_error (list gostr).
Variable host : run_host.

(** C26: no stored secret's value reaches a command line that any process of
    the host could read: whatever the escape hatch says, the argument vector
    brig hands hull or nerdctl to boot a sandbox or to run something in one,
    and whether it refuses instead, is the same for every value of the
    secrets. *)
Theorem argv_secret_blind (spec : RunSpec Setup) (espec : ExecSpec) (vars vars' : list Var) :
  Forall2 same_but_secret vars vars' ->
  (forall hv net sock cidr,
     argv_of (hull_runArgs Args host (with_env spec vars) hv net sock cidr) =
     argv_of (hull_runArgs Args host (with_env spec vars') hv net sock cidr)) /\
  (forall bin, argv_of (nerdctl_runArgs Args host bin (with_env spec vars)) = argv_of (nerdctl_runArgs Args host bin (with_env spec vars'))) /\
  argv_of (hull_execArgs host (exec_with_env espec vars)) = argv_of (hull_execArgs host (exec_with_env espec vars')) /\
  argv_of (nerdctl_execArgs host (exec_with_env espec vars)) = argv_of (nerdctl_execArgs host (exec_with_env espec vars')).
Proof.
  intros H. split_and!; intros.
  - unfold hull_runArgs. cbv zeta. apply argv_same. intros ann. apply argv_same. intros setup.
    apply argv_bind; [by apply splitEnv_blind|]. intros a e e'. by apply argv_same.
  - unfold nerdctl_runArgs. cbv zeta. apply argv_same. intros ann. apply argv_same. intros setup.
    apply argv_bind; [by apply splitEnv_blind|]. done.
  - apply argv_bind; [by apply splitEnv_blind|]. done.
  - apply argv_bind; [by apply splitEnv_blind|]. done.
Qed.
End Blind.

(** ** Lemmas: what the guest is given *)

(** The variables a runtime gives the guest for pairs of a flag and a text, as
    both runtimes document the flag: [NAME=value] as it is, and the value of a
    bare [NAME] from the runtime's own environment. *)
Fixpoint guest_reads (own : list gostr) (args : list gostr) (k : gostr) (acc : option gostr) : option gostr :=
  match args with
  | _ :: x :: args' =>
    guest_reads own args' k
      (match cut_at (lit "=") x with
       | Some (k', v) => if decide (k' = k) then Some v else acc
       | None => if decide (x = k) then env_lookup own k else acc
       end)
  | _ => acc
  end.

Definition plain_name (v : Var) : Prop := "="%char ∉ va_name v.

Lemma cut_plain (k : gostr) : "="%char ∉ k -> cut_at (lit "=") k = None.
Proof. intros H. apply cut_at_None. intros (a & b & ->). apply H. set_solver. Qed.

Lemma cut_entry (k v : gostr) : "="%char ∉ k -> cut_at (lit "=") (env_entry k v) = Some (k, v).
Proof. intros H. unfold env_entry. change (lit "=") with ["="%char]. by apply cut_at_byte_app. Qed.

Section Delivery.
Variable getenv : gostr -> gostr.
Variable flag : gostr.

Lemma guest_reads_app own vars b k acc :
  guest_reads own ((vars ≫= arg_of getenv flag) ++ b) k acc =
  guest_reads own b k (guest_reads own (vars ≫= arg_of getenv flag) k acc).
Proof. revert acc. induction vars as [|v vars IH]; intros acc; [done|]. apply IH. Qed.

Lemma guest_reads_other own vars k acc :
  Forall plain_name vars -> Forall (fun v => va_name v <> k) vars -> guest_reads own (vars ≫= arg_of getenv flag) k acc = acc.
Proof.
  intros Hp Hk. revert acc. induction vars as [|v vars IH]; intros acc; [done|].
  apply Forall_cons in Hp as [Hp Hps], Hk as [Hk Hks].
  change ((v :: vars) ≫= arg_of getenv flag) with (arg_of getenv flag v ++ (vars ≫= arg_of getenv flag)).
  unfold arg_of at 1. cbn [app guest_reads]. destruct (inArgv getenv v).
  - rewrite cut_entry by done. rewrite decide_False by done. by apply IH.
  - rewrite cut_plain by done. rewrite decide_False by done. by apply IH.
Qed.

Lemma kept_other vars k :
  Forall plain_name vars -> Forall (fun v => va_name v <> k) vars -> no_entry k (vars ≫= kept_env getenv).
Proof.
  intros Hp Hk. unfold no_entry. apply Forall_bind. rewrite Forall_forall in Hp, Hk. apply Forall_forall. intros v Hv.
  unfold compose, kept_env. destruct (inArgv getenv v); [constructor|]. constructor; [|constructor].
  apply no_key. unfold env_key. rewrite cut_entry by by apply Hp. intros [= E]. by eapply Hk.
Qed.

(** C28: every variable reaches the guest, and none of them changes the
    runtime: with the command line and the environment brig hands it, the
    runtime gives the guest the last value asked for each name and nothing for
    a name not asked for, a stored secret included, while the names the
    runtime reads for itself keep, in its own environment, the values they had
    without the guest's variables. *)
Theorem env_delivered (vars : list Var) (args env environ telemetry : list gostr) :
  Forall plain_name vars -> splitEnv getenv flag vars = Ok (args, env) ->
  let own := mergeEnv environ [telemetry; env] in
  (forall l v l', vars = l ++ v :: l' -> Forall (fun w => va_name w <> va_name v) l' ->
     guest_reads own args (va_name v) None = Some (va_value v)) /\
  (forall k, Forall (fun v => va_name v <> k) vars -> guest_reads own args k None = None) /\
  (forall k, runtimeReads k = true -> env_lookup own k = env_lookup (mergeEnv environ [telemetry]) k).
Proof.
  intros Hp H. apply splitEnv_Ok in H as (-> & -> & Hs). cbv zeta. split_and!.
  - intros l v l' -> Hl'. apply Forall_app in Hp as [Hpl Hp]. apply Forall_cons in Hp as [Hpv Hpl'].
    set (own := mergeEnv environ _). rewrite bind_app.
    change ((v :: l') ≫= arg_of getenv flag) with (arg_of getenv flag v ++ (l' ≫= arg_of getenv flag)).
    rewrite guest_reads_app. generalize (guest_reads own (l ≫= arg_of getenv flag) (va_name v) None).
    intros acc. unfold arg_of at 1. cbn [app guest_reads]. rewrite guest_reads_other by done.
    destruct (inArgv getenv v) eqn:E; [by rewrite cut_entry, decide_True|]. rewrite cut_plain, decide_True by done.
    unfold own. rewrite mergeEnv_lookup. cbn [concat]. rewrite app_nil_r, bind_app.
    change ((v :: l') ≫= kept_env getenv) with (kept_env getenv v ++ (l' ≫= kept_env getenv)).
    unfold kept_env at 2. rewrite E. cbn [app]. rewrite !app_assoc.
    rewrite env_lookup_last; [by apply value_in_entry|by apply kept_other|]. rewrite value_in_entry by done. by eexists.
  - intros k Hk. by apply guest_reads_other.
  - intros k Hk. rewrite !mergeEnv_lookup. cbn [concat]. rewrite !app_nil_r, app_assoc, env_lookup_app.
    rewrite (env_lookup_none k); [done|]. unfold no_entry. apply Forall_bind. rewrite Forall_forall in Hs, Hp.
    apply Forall_forall. intros v Hv. unfold compose, kept_env. destruct (inArgv getenv v) eqn:E; [constructor|].
    constructor; [|constructor]. apply no_key. unfold env_key. rewrite cut_entry by by apply Hp. intros [= E'].
    specialize (Hs v Hv). unfold inArgv in E. rewrite E', Hk in Hs, E. destruct (va_secret v); done.
Qed.
End Delivery.

(** ** Lemmas: which runs are refused *)

Lemma any_ok {A B} (m : res runtime_error A) (k : res runtime_error B) b :
  res_bind m (fun _ => k) = Ok b <-> is_ok m = true /\ k = Ok b.
Proof. destruct m; simpl; [tauto|]. split; [done|by intros []]. Qed.

Lemma guard_ok (c d : bool) (e : runtime_error) : fail_if (c && negb d) e = Ok tt <-> (c = true -> d = true).
Proof. rewrite fail_if_ok. destruct c, d; simpl; intuition done. Qed.

Lemma eqb_hv (hv : gostr) (s : string) : bool_decide (hv = lit s) = true <-> hv = lit s.
Proof. apply bool_decide_eq_true. Qed.

Lemma nonempty {A} (l : list A) `{!Decision (l = [])} : negb (bool_decide (l = [])) = true <-> l <> [].
Proof. rewrite negb_true_iff. apply bool_decide_eq_false. Qed.

Section Refusals.
Context {Setup : Type}.
Variable Check_ : Setup -> RunPath -> RunSpec Setup -> res runtime_error unit.
Variable modes : modes_map.
Variable rows : list ModeRecord.
Variable host : run_host.
Hypothesis rows_other : Forall (fun r => mr_mode r <> ModeEndpoint) rows.

Local Notation table := (RegisterModeRecords modeRecords rows).

Definition setup_agrees (spec : RunSpec Setup) (path : RunPath) : Prop :=
  Forall (fun s => Check_ s path spec = Ok tt) (rs_Setup spec).

(** Every diverted destination that a mode asked for is served, over a
    network. *)
Definition diverts_served (spec : RunSpec Setup) (path : RunPath) : Prop :=
  Forall (fun r => dr_Mode r <> [] ->
    mr_state (ModeAnswer modes table (dr_Mode r) path) = Enforced /\ rs_Net spec <> lit "none")
    (ds_Routes (es_Divert (rs_Egress spec))).

Lemma requireDiverts_ok (spec : RunSpec Setup) path : requireDiverts modes table spec path = Ok tt <-> diverts_served spec path.
Proof.
  unfold requireDiverts, diverts_served. rewrite check_all_ok. apply Forall_proper; [|done]. intros r.
  destruct (decide (dr_Mode r = [])) as [E|E]; [by rewrite bool_decide_true|]. rewrite bool_decide_false by done.
  rewrite seq_ok, RequireRouteMode_ok, fail_if_ok, bool_decide_eq_false. tauto.
Qed.

Lemma brig_internal_check_ok (spec : RunSpec Setup) path :
  brig_internal_check modes table spec path = Ok tt <->
  (ds_BrigInternal (es_Divert (rs_Egress spec)) = true -> reaches_broker path /\ rs_Net spec <> lit "none").
Proof.
  unfold brig_internal_check. destruct (ds_BrigInternal _); [|done].
  rewrite seq_ok, RequireRouteMode_ok, fail_if_ok, bool_decide_eq_false.
  rewrite (endpoint_answer modes rows path rows_other). tauto.
Qed.

Lemma publish_check_ok (spec : RunSpec Setup) hv :
  publish_check spec hv = Ok tt <-> (rs_Publish spec <> [] -> hv = lit "hvi" /\ rs_Net spec <> lit "none").
Proof.
  unfold publish_check. destruct (rs_Publish spec); [done|].
  rewrite seq_ok, !fail_if_ok, negb_false_iff, eqb_hv, bool_decide_eq_false. intuition done.
Qed.

Lemma hull_reaches hv : reaches_broker (MkRunPath (lit "hull") hv) <-> hv = lit "hvi".
Proof.
  unfold reaches_broker. simpl. split; [|by intros ->; left]. intros [H|[H _]]; [|discriminate H].
  by injection H as ->.
Qed.

(** C27: hull is handed a run exactly when its backend keeps every promise the
    run makes: a window only on vz; a policy, a divert, a route to the broker,
    a published port and a network of its own only on hvi, where brig owns the
    gateway; nothing that needs a network on a run that has none; no diverted
    route in a mode the path does not serve; and only when every registered
    setup, the rootfs mode and the gateway's socket allow it. *)
Theorem hull_boots_enforced (spec : RunSpec Setup) (hv : gostr) :
  supports Check_ modes table host spec hv = Ok tt <->
  (rs_GUI spec = true -> hv = lit "vz") /\
  (Filtered (rs_Egress spec) = true -> rs_Net spec <> lit "none" -> hv = lit "hvi") /\
  (ds_Routes (es_Divert (rs_Egress spec)) <> [] -> hv = lit "hvi") /\
  (ds_BrigInternal (es_Divert (rs_Egress spec)) = true -> hv = lit "hvi" /\ rs_Net spec <> lit "none") /\
  (rs_Publish spec <> [] -> hv = lit "hvi" /\ rs_Net spec <> lit "none") /\
  (rs_Net spec = lit "isolated" -> hv = lit "hvi") /\
  diverts_served spec (MkRunPath (lit "hull") hv) /\ setup_agrees spec (MkRunPath (lit "hull") hv) /\
  is_ok (hullRootfsMode (rh_env host) (rh_executable host) spec hv) = true /\
  (hv = lit "hvi" -> rs_Net spec <> lit "none" -> is_ok (gatewaySocket (rh_env host) (rh_home host)) = true).
Proof.
  unfold supports, checkSetup. cbv zeta.
  rewrite !seq_ok, any_ok, !seq_ok, !guard_ok, !eqb_hv, nonempty, check_all_ok, requireEgress_ok, requireDiverts_ok,
    brig_internal_check_ok, publish_check_ok, hull_reaches.
  assert ((Filtered (rs_Egress spec) = true -> rs_Net spec <> lit "none" ->
     MkRunPath (lit "hull") hv = hull_path "hvi" \/ rp_runtime (MkRunPath (lit "hull") hv) = lit "nerdctl") <->
    (Filtered (rs_Egress spec) = true -> rs_Net spec <> lit "none" -> hv = lit "hvi")) as ->.
  { assert (MkRunPath (lit "hull") hv = hull_path "hvi" \/ rp_runtime (MkRunPath (lit "hull") hv) = lit "nerdctl" <-> hv = lit "hvi") as H;
      [|by rewrite H].
    rewrite <- hull_reaches. unfold reaches_broker. simpl. split; [|tauto]. intros [H|H]; [by left|discriminate H]. }
  assert ((if bool_decide (hv = lit "hvi") && negb (bool_decide (rs_Net spec = lit "none"))
           then gatewaySocket (rh_env host) (rh_home host) ;? Ok tt else Ok tt) = Ok tt <->
    (hv = lit "hvi" -> rs_Net spec <> lit "none" -> is_ok (gatewaySocket (rh_env host) (rh_home host)) = true)) as ->.
  { do 2 case_bool_decide; cbn [andb negb]; rewrite ?any_ok; tauto. }
  unfold setup_agrees. tauto.
Qed.

(** Nerdctl is handed a run only when the shim is not one brig knows to
    share the host's kernel, and exactly when what the run asks for can be
    kept: no window; no policy and no divert on docker, unless the run has no
    network; no published port on such a run; a monitor urunc runs; and every
    setup and the rootfs mode allow it. *)
Lemma nerdctl_boots_enforced (bin : gostr) (spec : RunSpec Setup) :
  nerdctl_CanRun Check_ host bin spec = Ok tt <->
  ~ shares_kernel (containerdRuntime (rh_env host)) /\ rs_GUI spec = false /\
  (rs_Net spec <> lit "none" ->
     (Filtered (rs_Egress spec) = true -> filepath_Base bin <> lit "docker") /\
     (Requested (es_Divert (rs_Egress spec)) = true -> filepath_Base bin <> lit "docker")) /\
  (rs_Publish spec <> [] -> rs_Net spec <> lit "none") /\
  setup_agrees spec (nerdctl_path host bin) /\
  is_ok (nerdctl_rootfsMode (rh_env host) bin (rh_toml host) spec) = true /\
  (rs_GenericBoot spec = true ->
     rs_Hypervisor spec ∈ lit <$> [""; "vz"; "hvi"; "cloud-hypervisor"; "qemu"; "firecracker"]).
Proof.
  unfold nerdctl_CanRun, checkSetup, refuseSharedKernel. cbv zeta.
  rewrite !seq_ok, any_ok, ?seq_ok, !fail_if_ok, check_all_ok, requireEgress_ok.
  assert (sharesHostKernel (containerdRuntime (rh_env host)) = false <-> ~ shares_kernel (containerdRuntime (rh_env host))) as ->.
  { unfold sharesHostKernel. rewrite bool_decide_eq_false, shimBoundary_container. done. }
  assert (nerdctl_path host bin = hull_path "hvi" \/ rp_runtime (nerdctl_path host bin) = lit "nerdctl" <->
    filepath_Base bin <> lit "docker") as ->.
  { unfold nerdctl_path, driver, isDocker. case_bool_decide as E; simpl.
    - split; [|done]. intros [H|H]; discriminate H.
    - tauto. }
  assert (negb (bool_decide (rs_Publish spec = [])) && bool_decide (rs_Net spec = lit "none") = false <->
    (rs_Publish spec <> [] -> rs_Net spec <> lit "none")) as ->.
  { do 2 case_bool_decide; simpl; intuition done. }
  assert (Requested (es_Divert (rs_Egress spec)) && negb (bool_decide (rs_Net spec = lit "none")) && isDocker bin = false <->
    (rs_Net spec <> lit "none" -> Requested (es_Divert (rs_Egress spec)) = true -> filepath_Base bin <> lit "docker")) as ->.
  { unfold isDocker. destruct (Requested _); do 2 case_bool_decide; simpl; intuition done. }
  assert ((if rs_GenericBoot spec then linuxMonitor (rs_Hypervisor spec) ;? Ok tt else Ok tt) = Ok tt <->
    (rs_GenericBoot spec = true -> rs_Hypervisor spec ∈ lit <$> [""; "vz"; "hvi"; "cloud-hypervisor"; "qemu"; "firecracker"])) as ->.
  { destruct (rs_GenericBoot spec); [|done]. unfold linuxMonitor.
    assert (rs_Hypervisor spec ∈ lit <$> [""; "vz"; "hvi"; "cloud-hypervisor"; "qemu"; "firecracker"] <->
      mem (rs_Hypervisor spec) [[]; lit "vz"] = true \/
      mem (rs_Hypervisor spec) [lit "hvi"; lit "cloud-hypervisor"; lit "qemu"; lit "firecracker"] = true) as ->.
    { rewrite !mem_true, <- elem_of_app. done. }
    rewrite any_ok. destruct (mem _ [[]; _]), (mem _ _); simpl; intuition done. }
  unfold setup_agrees. intuition done.
Qed.
End Refusals.

(** ** The boot files, the root and the pinned reference *)

Lemma check_asset_ok stat path : check_asset stat path = Ok tt <-> asset_usable stat path = true.
Proof.
  unfold check_asset, asset_usable. destruct (stat path) as [[d n]|]; [|done]. rewrite fail_if_ok. destruct d, (n =? 0); done.
Qed.

(** A generic boot is handed a kernel and an initrd that are there and not
    empty, in the file system as it is when they are handed over, and in the
    directory that was asked for; nothing is ever fetched into a directory the
    user chose, and nothing is fetched over files that are there unless asked. *)
Lemma boot_assets_usable (getenv : gostr -> gostr) (abs : gostr -> res gostr gostr) (defaultBootAssetsDir : res gostr gostr)
    (goarch : gostr) (located : option gostr) (stat : file_stat) (fetch : option (gostr -> res gostr file_stat)) (replace : bool)
    (fetched : option gostr) (r : res boot_error (gostr * gostr)) :
  replaceBootArtifacts getenv abs defaultBootAssetsDir goarch located stat fetch replace = (fetched, r) ->
  (forall kernel initrd, r = Ok (kernel, initrd) -> exists dir explicit now,
     bootAssetsDir getenv abs defaultBootAssetsDir located = Ok (dir, explicit) /\
     kernel = filepath_Join dir (bootKernelName goarch) /\ initrd = filepath_Join dir bootInitrdName /\
     asset_usable now kernel = true /\ asset_usable now initrd = true /\
     (fetched = None /\ now = stat \/ exists f, fetched = Some dir /\ fetch = Some f /\ f dir = Ok now)) /\
  (getenv (lit "BRIG_BOOT_ASSETS") <> [] -> fetched = None) /\
  (forall dir explicit, bootAssetsDir getenv abs defaultBootAssetsDir located = Ok (dir, explicit) ->
     asset_usable stat (filepath_Join dir (bootKernelName goarch)) = true -> asset_usable stat (filepath_Join dir bootInitrdName) = true ->
     replace = false -> fetched = None /\ is_ok r = true).
Proof.
  unfold replaceBootArtifacts. destruct (bootAssetsDir getenv abs defaultBootAssetsDir located) as [[dir explicit]|e] eqn:D.
  2:{ intros [= <- <-]. split_and!; done. }
  assert (getenv (lit "BRIG_BOOT_ASSETS") <> [] -> explicit <> []) as Hex.
  { intros H. unfold bootAssetsDir in D. rewrite bool_decide_false in D by done. simpl in D.
    destruct (abs _); simpl in D; [by injection D as _ <-|done]. }
  set (kernel := filepath_Join dir (bootKernelName goarch)). set (initrd := filepath_Join dir bootInitrdName).
  assert (forall now k i, (check_asset now kernel ;? check_asset now initrd ;? Ok (kernel, initrd)) = @Ok boot_error _ (k, i) ->
    k = kernel /\ i = initrd /\ asset_usable now kernel = true /\ asset_usable now initrd = true) as Hc.
  { intros now k i H. res_inv. rewrite check_asset_ok in *. by simplify_eq. }
  destruct (negb (bootArtifactsPresent stat kernel initrd) || _) eqn:B; cbn zeta.
  - assert (forall dir' explicit', @Ok boot_error _ (dir, explicit) = Ok (dir', explicit') ->
      asset_usable stat (filepath_Join dir' (bootKernelName goarch)) = true -> asset_usable stat (filepath_Join dir' bootInitrdName) = true ->
      replace = false -> False) as Hno.
    { intros dir' explicit' [= <- <-] H1 H2 ->. unfold bootArtifactsPresent, kernel, initrd in B. by rewrite H1, H2 in B. }
    destruct (negb (bool_decide (explicit = []))) eqn:E.
    { intros [= <- <-]. split_and!; [done|done|]. intros d x H1 H2 H3 H4. by destruct (Hno d x H1 H2 H3 H4). }
    assert (getenv (lit "BRIG_BOOT_ASSETS") = []) as Hg.
    { apply negb_false_iff, bool_decide_eq_true in E. destruct (decide (getenv (lit "BRIG_BOOT_ASSETS") = [])); [done|]. by destruct Hex. }
    destruct fetch as [f|].
    2:{ intros [= <- <-]. split_and!; [done|done|]. intros d x H1 H2 H3 H4. by destruct (Hno d x H1 H2 H3 H4). }
    destruct (f dir) as [now|why] eqn:F; intros [= <- <-]; (split_and!; [|by rewrite Hg|intros d x H1 H2 H3 H4; by destruct (Hno d x H1 H2 H3 H4)]).
    + intros k i H. destruct (Hc _ _ _ H) as (-> & -> & ? & ?). exists dir, explicit, now. split_and!; try done. right. by exists f.
    + done.
  - intros [= <- <-]. apply orb_false_iff in B as [B _]. apply negb_false_iff in B. unfold bootArtifactsPresent in B.
    apply andb_true_iff in B as [U1 U2]. split_and!; [|done|].
    + intros k i H. destruct (Hc _ _ _ H) as (-> & -> & ? & ?). exists dir, explicit, stat. split_and!; try done. by left.
    + intros d x _ _ _ _. split; [done|]. by rewrite (proj2 (check_asset_ok _ _) U1), (proj2 (check_asset_ok _ _) U2).
Qed.

(** An overlay root is handed over only to a generic boot that the host can
    build one for, and only when it was asked for or the monitor takes one;
    asked for, it is handed over or refused. *)
Lemma rootfs_mode_exact {Setup} (spec : RunSpec Setup) monitor host :
  (forall m, rootfsModeFor spec monitor host = Ok m -> m = [] \/
     (m = RootfsModeOverlayBlock /\ rs_GenericBoot spec = true /\ or_Available host = true /\
      rs_RootfsType spec ∈ [[]; RootfsModeVirtiofs] /\ (rs_RootfsMode spec = RootfsModeOverlayBlock \/ monitor = true))) /\
  (rs_RootfsMode spec = RootfsModeOverlayBlock -> rootfsModeFor spec monitor host <> Ok []).
Proof.
  unfold rootfsModeFor. split.
  - intros m. destruct (decide (rs_RootfsMode spec = RootfsModeVirtiofs)) as [->|Hv].
    { rewrite bool_decide_true by done. intros [= <-]. by left. }
    rewrite (bool_decide_false (rs_RootfsMode spec = RootfsModeVirtiofs)) by done.
    destruct (mem (rs_RootfsMode spec) _) eqn:M; cbn [negb]; [|done]. apply mem_true in M.
    destruct (rs_GenericBoot spec); cbn [negb]; [|case_bool_decide; simpl; [intros [= <-]; by left|done]].
    destruct (mem (rs_RootfsType spec) _) eqn:T; cbn [negb]; [|case_bool_decide; simpl; [intros [= <-]; by left|done]].
    apply mem_true in T.
    destruct (or_Available host); cbn [negb]; [|case_bool_decide; simpl; [intros [= <-]; by left|done]].
    case_bool_decide as E; cbn [negb andb].
    + destruct monitor; cbn [negb]; intros [= <-]; [right|by left]. split_and!; try done. by right.
    + intros [= <-]. right. split_and!; try done. left. set_solver.
  - intros H. rewrite H. rewrite !bool_decide_false by done. cbn [negb].
    change (mem RootfsModeOverlayBlock [[]; RootfsModeOverlayBlock]) with true. cbn [negb].
    destruct (rs_GenericBoot spec); [|done]. cbn [negb]. destruct (mem (rs_RootfsType spec) _); [|done]. cbn [negb].
    by destruct (or_Available host).
Qed.

(** A reference pinned twice is pinned to the second digest. *)
Lemma withDigest_again image d1 d2 :
  d1 <> [] -> d2 <> [] -> withDigest (withDigest image d1) d2 = withDigest image d2.
Proof.
  intros H1 H2. unfold withDigest. rewrite !(bool_decide_false (_ = [])) by done. cbv zeta.
  set (base := match cut_at (lit "@") image with Some (a, _) => a | None => _ end).
  assert ("@"%char ∉ base) as Hb.
  { assert (forall s, cut_at (lit "@") s = None -> "@"%char ∉ s) as Hno.
    { intros s Hs Hin. apply cut_at_None in Hs. apply Hs. apply list_elem_of_split in Hin as (a & b & ->). by exists a, b. }
    unfold base. destruct (cut_at (lit "@") image) as [[a b]|] eqn:E.
    - intros Hin. pose proof (cut_at_Some _ _ _ _ E) as Hs. apply list_elem_of_split in Hin as (x & y & ->).
      pose proof (cut_at_first _ _ _ _ x (y ++ lit "@" ++ b) E) as Hl. rewrite length_app in Hl. simpl in Hl.
      assert (length x + S (length y) <= length x)%nat; [|lia]. apply Hl. rewrite Hs, <- app_assoc. done.
    - specialize (Hno _ E). destruct (cut_last ":" image) as [[a b]|] eqn:L; [|done]. destruct (contains b _); [done|].
      unfold cut_last in L. destruct (cut_at [":"%char] (rev image)) as [[u v]|] eqn:R; [|done]. injection L as <- <-.
      apply cut_at_Some in R. intros Hin. apply Hno. rewrite <- (rev_involutive image), R, rev_app_distr, rev_app_distr.
      apply elem_of_app. left. apply elem_of_app. by left. }
  change (lit "@") with ["@"%char]. cbn [app]. by rewrite (cut_at_byte_app _ _ _ Hb).
Qed.

(** ** On concrete input *)

Definition no_env (name : gostr) : gostr := [].
Definition hatch_env (name : gostr) : gostr := if bool_decide (name = lit "BRIG_ENV_ARGV") then lit "1" else [].

Definition demo_host : run_host :=
  MkRunHost hatch_env (Some (lit "/home/u")) (fun _ => true) (MkTomlHost false None (fun _ => None) true)
    (Ok (lit "/a/Image", lit "/a/container-initrd")).

Definition no_divert : DivertSpec := MkDivertSpec [] [] false.
Definition demo_spec : RunSpec Empty_set :=
  MkRunSpec Empty_set (lit "brig-a") (lit "reg:5000/img:1") (lit "sha256:ab") [] (lit "isolated") 2048 2
    [MkShare (lit "/w") (lit "/workspace") false] [MkVar (lit "TOKEN") (lit "s3cret") true] false [] (lit "hvi") [] [] []
    true (MkBootAssets [] [] false) (MkEgressSpec (lit "deny") [] [] no_divert) [] [] false.
Definition demo_exec : ExecSpec := MkExecSpec (lit "brig-a") [lit "claude"] (lit "/workspace") true [] false [].
Definition no_args (s : Empty_set) (_ : RunPath) : res runtime_error (list gostr) := match s with end.
Definition no_check (s : Empty_set) (_ : RunPath) (_ : RunSpec Empty_set) : res runtime_error unit := match s with end.

Example demo_argv :
  (fun x => join (lit " ") x.1) <$> (match hull_runArgs no_args demo_host demo_spec (lit "hvi") (lit "isolated") (lit "/s") (lit "198.18.0.5/24") with
                                      | Ok x => Some x | Err _ => None end) =
  Some (lit "run --detach --name brig-a --hypervisor hvi --net shared --pull missing --mem 2048 --cpus 2 --annotation com.urunc.unikernel.bootKernel=/a/Image --annotation com.urunc.unikernel.bootInitrd=/a/container-initrd --gateway-sock /s --gateway-cidr 198.18.0.5/24 --shared-dir /w:/workspace --env TOKEN reg:5000/img@sha256:ab").
Proof. vm_compute. reflexivity. Qed.

Definition token (value : string) : Var := MkVar (lit "TOKEN") (lit value) true.

Lemma argv_secret_blind_witness :
  argv_of (hull_execArgs demo_host (exec_with_env demo_exec [token "one"; MkVar (lit "A") (lit "b") false])) =
  argv_of (hull_execArgs demo_host (exec_with_env demo_exec [token "two"; MkVar (lit "A") (lit "b") false])) /\
  is_ok (hull_execArgs demo_host (exec_with_env demo_exec [token "one"; MkVar (lit "A") (lit "b") false])) = true.
Proof.
  split; [|vm_compute; reflexivity].
  apply (argv_secret_blind no_args demo_host demo_spec demo_exec).
  constructor; [by split_and!|]. constructor; [by split_and!|constructor].
Defined.

Definition demo_vars : list Var :=
  [MkVar (lit "HOME") (lit "/workspace") false; token "old"; MkVar (lit "A") (lit "b=c") false; token "new"].

Lemma env_delivered_witness :
  exists args env, splitEnv hatch_env (lit "--env") demo_vars = Ok (args, env) /\
    guest_reads (mergeEnv [lit "HOME=/root"; lit "TOKEN=x"] [[]; env]) args (lit "TOKEN") None = Some (lit "new") /\
    env_lookup (mergeEnv [lit "HOME=/root"; lit "TOKEN=x"] [[]; env]) (lit "HOME") =
    env_lookup (mergeEnv [lit "HOME=/root"; lit "TOKEN=x"] [[]]) (lit "HOME").
Proof.
  assert (Forall plain_name demo_vars) as P.
  { unfold plain_name. repeat constructor; simpl; set_solver. }
  eexists _, _. split; [reflexivity|].
  destruct (env_delivered hatch_env (lit "--env") demo_vars _ _ [lit "HOME=/root"; lit "TOKEN=x"] [] P eq_refl) as (H1 & _ & H3).
  split; [|by apply H3]. apply (H1 (take 3 demo_vars) (token "new") []); [reflexivity|constructor].
Defined.

Lemma hull_boots_enforced_witness :
  supports no_check ∅ (RegisterModeRecords modeRecords []) demo_host demo_spec (lit "hvi") = Ok tt.
Proof.
  apply (proj2 (hull_boots_enforced no_check ∅ [] demo_host (Forall_nil_2 _) demo_spec (lit "hvi"))).
  split_and!; try done; constructor.
Defined.

Definition two_files (path : gostr) : option (bool * Z) :=
  if mem path [lit "/a/Image"; lit "/a/container-initrd"] then Some (false, 10) else None.

Lemma boot_assets_usable_witness :
  replaceBootArtifacts no_env (fun p => Ok p) (Ok (lit "/a")) (lit "arm64") None (fun _ => None) (Some (fun _ => Ok two_files)) false =
    (Some (lit "/a"), Ok (lit "/a/Image", lit "/a/container-initrd")) /\
  exists now, asset_usable now (lit "/a/Image") = true.
Proof.
  assert (replaceBootArtifacts no_env (fun p => Ok p) (Ok (lit "/a")) (lit "arm64") None (fun _ => None) (Some (fun _ => Ok two_files)) false =
    (Some (lit "/a"), Ok (lit "/a/Image", lit "/a/container-initrd"))) as R by (vm_compute; reflexivity).
  split; [exact R|].
  destruct (boot_assets_usable _ _ _ _ _ _ _ _ _ _ R) as (H & _).
  destruct (H _ _ eq_refl) as (_ & _ & now & _ & _ & _ & U & _). by exists now.
Defined.
