(* ===== verification/CommandLine.v ===== *)
(** * The command line of brig (cmd/brig/main.go)

    The table of brig's flags and where each is legal, the split of a line into
    brig's own arguments, the ref, the project and the agent's tail, and what
    the flags come to.  Go's [flag] package is modelled as far as brig uses it.
    The registry of profiles, which [session.ParseRef] reads, is an argument. *)

From stdpp Require Import prelude list strings gmap.
From Stdlib Require Import ZArith Lia Ascii.
From S2P Require Import Prelude GoUnicode GoStrings GoNum Profile ProfileReg Session.

Local Open Scope Z_scope.

(** ** The table *)

Inductive position := posGlobal | posRun | posPublish | posAny.

#[export] Instance position_eq_dec : EqDecision position.
Proof. solve_decision. Defined.

Record flag_row := MkFlagRow {
  fr_long : gostr; fr_short : gostr; fr_value : bool; fr_position : position; fr_undocumented : bool; fr_runOnly : bool }.

Definition row (long short : string) (value : bool) (at_ : position) (undocumented runOnly : bool) : flag_row :=
  MkFlagRow (lit long) (lit short) value at_ undocumented runOnly.

Definition brigFlags : list flag_row := [
  row "image" "" true posRun false false;
  row "home" "" true posRun false false;
  row "mem" "" true posRun false false;
  row "memory" "" true posRun true false;
  row "cpus" "" true posRun false false;
  row "no-project" "" false posRun false true;
  row "detach" "d" false posRun false true;
  row "skills" "" false posRun false false;
  row "network" "" true posRun false false;
  row "offline" "" false posRun false false;
  row "publish" "" true posRun false false;
  row "all" "" false posPublish false false;
  row "verbose" "" false posGlobal false false;
  row "quiet" "q" false posGlobal false false;
  row "json" "" false posGlobal false false;
  row "json" "" false posRun false false;
  row "json" "" false posPublish false false].

(** [removedFlags], as an association list: its keys differ. *)
Definition removedFlags : list (gostr * (gostr * gostr)) :=
  (fun x => (lit x.1.1, (lit x.1.2, lit x.2))) <$> [
    ("-t", "-t", "--image"); ("-m", "-m", "--mem"); ("-n", "-n", "<agent>@<label>");
    ("--name", "--name", "<agent>@<label>"); ("-w", "-w", "--home"); ("--workspace", "--workspace", "--home");
    ("-q", "brig <verb> <ref> -q", "brig -q <verb> <ref>");
    ("--quiet", "brig <verb> <ref> --quiet", "brig --quiet <verb> <ref>")]%string.

Definition assoc {A} (k : gostr) (l : list (gostr * A)) : option A := snd <$> head (List.filter (fun x => bool_decide (x.1 = k)) l).

(** The name of a token, and whether it carries its value. *)
Definition flag_spelling (arg : gostr) : gostr := (cut arg (lit "=")).1.1.
Definition inline (arg : gostr) : bool := (cut arg (lit "=")).2.

Definition spelled (name : gostr) (f : flag_row) : bool :=
  bool_decide (name = lit "--" ++ fr_long f) || (negb (bool_decide (fr_short f = [])) && bool_decide (name = lit "-" ++ fr_short f)).

Definition legal_at (at_ : position) (f : flag_row) : bool := bool_decide (at_ = posAny) || bool_decide (fr_position f = at_).

Definition oursAt (arg : gostr) (at_ : position) : option (bool * position) :=
  match List.filter (fun f => legal_at at_ f && spelled (flag_spelling arg) f) brigFlags with
  | f :: _ => Some (fr_value f && negb (inline arg), fr_position f)
  | [] => None
  end.

(** Whether the token is brig's, and whether it takes the next argument. *)
Definition ours_flag (arg : gostr) (at_ : position) : option bool := fst <$> oursAt arg at_.

(** ** The verbs *)

Definition is_verb (verb : gostr) (l : list string) : bool := mem verb (lit <$> l).

Definition verbSpelling (arg : gostr) : bool := is_verb arg ["-h"; "--help"; "--version"]%string.
Definition forwardsTail (verb : gostr) : bool := is_verb verb ["run"; "sh"; "exec"]%string.
Definition takesPorts (verb : gostr) : bool := is_verb verb ["network publish"; "network unpublish"]%string.
Definition onPortLine (verb : gostr) : bool := takesPorts verb || is_verb verb ["network ls"]%string.
Definition readsProject (verb : gostr) : bool := is_verb verb ["run"; "plan"]%string.

Inductive flag_error :=
  | BadSyntax (s : gostr)
  | NotDefined (name : gostr)
  | HelpAsked
  | NeedsArgument (name : gostr)
  | InvalidBool (value name : gostr).

Inductive cli_error :=
  | UnknownGlobal (a : gostr)
  | QuietAndVerbose
  | UnreadableRef (e : sessionref_error)
  | RemovedFlag (was now : gostr)
  | UnknownFlag (a : gostr)
  | UnknownPortFlag (a verb : gostr)
  | UnexpectedArgument (a verb : gostr) (project : bool)
  | UnknownNetworkSub (a : gostr)
  | NeedsValue (flag : gostr)
  | TakesBool (flag value : gostr)
  | FlagRefused (e : flag_error)
  | NotPositive (flag raw : gostr)
  | OfflineAnd (network : gostr).

Definition dashed (a : gostr) : bool := has_prefix a (lit "-").
Definition dashdash : gostr := lit "--".

(** ** The global position *)

Fixpoint splitGlobal (args : list gostr) : res cli_error (list gostr * list gostr) :=
  match args with
  | [] => Ok ([], [])
  | a :: args' =>
    if negb (dashed a) || verbSpelling a then Ok ([], args)
    else match ours_flag a posGlobal with
         | None => Err (UnknownGlobal a)
         | Some takesValue =>
           match takesValue, args' with
           | true, v :: args'' => let? x := splitGlobal args'' in Ok (a :: v :: x.1, x.2)
           | _, _ => let? x := splitGlobal args' in Ok (a :: x.1, x.2)
           end
         end
  end.

Definition helpFlagTakesValue (verb name : gostr) : bool :=
  if bool_decide (verb = lit "logs") then bool_decide (name = lit "--tail") else default false (ours_flag name posRun).

Fixpoint helpRequested (verb : gostr) (rest : list gostr) : bool :=
  match rest with
  | [] => false
  | a :: rest' =>
    if bool_decide (a = dashdash) || negb (dashed a) then false
    else if is_verb a ["--help"; "-h"]%string then true
    else if negb (inline a) && helpFlagTakesValue verb (flag_spelling a)
    then match rest' with _ :: rest'' => helpRequested verb rest'' | [] => false end
    else helpRequested verb rest'
  end.

(** [networkSub]: [None] when it printed the help text. *)
Definition networkSub (rest : list gostr) : res cli_error (option gostr) :=
  match rest with
  | [] => Ok None
  | a :: _ =>
    if is_verb a ["-h"; "--help"; "help"]%string then Ok None
    else if is_verb a ["ls"; "publish"; "unpublish"]%string then Ok (Some a)
    else Err (UnknownNetworkSub a)
  end.

(** ** The tail *)

Definition honorsRunLine (verb long : gostr) : bool :=
  if bool_decide (verb = lit "run") then true
  else if bool_decide (long = lit "no-project") && readsProject verb then true
  else negb (existsb (fun f => bool_decide (fr_long f = long) && bool_decide (fr_position f = posRun) && fr_runOnly f) brigFlags).

(** Where the verb would read the flag, when it does. *)
Definition tailAdvice (verb arg : gostr) : option gostr :=
  let rows := List.filter (spelled (flag_spelling arg)) brigFlags in
  if existsb (fun f => bool_decide (fr_position f = posRun) && honorsRunLine verb (fr_long f)) rows then Some (lit "before the profile")
  else if existsb (fun f => bool_decide (fr_position f = posGlobal)) rows then Some (lit "before the command")
  else None.

(** A notice names a flag and where to put it, when there is a place. *)
Record tail_notice := MkTailNotice { tn_flag : gostr; tn_where : option gostr }.

Definition tail_word (verb a : gostr) : option tail_notice :=
  match oursAt a posAny with
  | None => None
  | Some (_, found) =>
    if bool_decide (found = posPublish) && negb (takesPorts verb) then None
    else Some (MkTailNotice (flag_spelling a) (tailAdvice verb a))
  end.

(** What [agentTail] says; the tail it returns is the one it was given. *)
Definition agentTail (verb : gostr) (tail : list gostr) : list tail_notice :=
  if negb (forwardsTail verb) || bool_decide (verb = lit "sh") then [] else omap (tail_word verb) tail.

Definition rejectTail (verb : gostr) (tail : list gostr) : res cli_error unit :=
  if forwardsTail verb || takesPorts verb then Ok tt
  else match tail with [] => Ok tt | a :: _ => Err (UnexpectedArgument a verb (readsProject verb)) end.

(** ** The run line *)

Record line := MkLine { ln_mine : list gostr; ln_ref : SessionRef; ln_word : gostr; ln_tail : list gostr; ln_notices : list tail_notice }.

Definition no_ref : SessionRef := MkSessionRef [] [].
Definition with_mine (l : line) (mine : list gostr) : line := MkLine (mine ++ ln_mine l) (ln_ref l) (ln_word l) (ln_tail l) (ln_notices l).
Definition with_port (l : line) (a : gostr) : line := MkLine (ln_mine l) (ln_ref l) (ln_word l) (a :: ln_tail l) (ln_notices l).

Section Line.
(** The registry of profiles. *)
Variable reg : gmap gostr reg_entry.
Variable verb : gostr.

Definition at_of : position := if onPortLine verb then posPublish else posRun.

(** The loop of [split]: [ref] is the ref once it is passed, [word] the
    project.  What the loop appends to its results is put before those of the
    rest of the line. *)
Fixpoint split_loop (ref : option SessionRef) (word : gostr) (args : list gostr) : res cli_error line :=
  let ends tail notices := Ok (MkLine [] (default no_ref ref) word tail notices) in
  match args with
  | [] => ends [] []
  | a :: args' =>
    if bool_decide (a = dashdash) then ends args' []
    else if negb (dashed a) then
      match ref with
      | None => let? r := map_err UnreadableRef (ParseSessionRef reg a) in split_loop (Some r) word args'
      | Some _ =>
        if readsProject verb && bool_decide (word = []) then split_loop ref a args'
        else if takesPorts verb then let? l := split_loop ref word args' in Ok (with_port l a)
        else ends args (agentTail verb args)
      end
    else
      match (if bool_decide (at_of = posRun) && is_nil ref then assoc (flag_spelling a) removedFlags else None) with
      | Some (was, now) => Err (RemovedFlag was now)
      | None =>
        match ours_flag a at_of with
        | None =>
          if is_nil ref then Err (UnknownFlag a)
          else if takesPorts verb then Err (UnknownPortFlag a verb)
          else ends args (agentTail verb args)
        | Some takesValue =>
          match takesValue, args' with
          | true, v :: args'' => let? l := split_loop ref word args'' in Ok (with_mine l [a; v])
          | _, _ => let? l := split_loop ref word args' in Ok (with_mine l [a])
          end
        end
      end
  end.

Definition split (args : list gostr) : res cli_error line := split_loop None [] args.
End Line.

(** ** Go's flag package *)

Inductive flag_kind := BoolFlag | ValueFlag.

Definition parseBool (s : gostr) : option bool :=
  if is_verb s ["1"; "t"; "T"; "true"; "TRUE"; "True"]%string then Some true
  else if is_verb s ["0"; "f"; "F"; "false"; "FALSE"; "False"]%string then Some false
  else None.

(** The name after the dashes, and its value. *)
Definition flag_token (name : gostr) : gostr * option gostr :=
  match name with
  | [] => ([], None)
  | c :: rest => match cut_at (lit "=") rest with Some (a, v) => (c :: a, Some v) | None => (name, None) end
  end.

(** The name of a token that is a flag: [None] when it ends the flags. *)
Definition flag_name (s : gostr) : option gostr :=
  match s with
  | "-"%char :: "-"%char :: [] => None
  | "-"%char :: "-"%char :: name => Some name
  | "-"%char :: c :: name => Some (c :: name)
  | _ => None
  end.

Section FlagSet.
(** The flags that are registered. *)
Variable formal : gostr -> option flag_kind.

(** [FlagSet.Parse]: the flags that are set, in order, with their values, and
    the arguments that are left. *)
Fixpoint flags_Parse (args : list gostr) : res flag_error (list (gostr * gostr) * list gostr) :=
  match args with
  | [] => Ok ([], [])
  | s :: args' =>
    match flag_name s with
    | None => Ok ([], if bool_decide (s = dashdash) then args' else args)
    | Some name =>
      if bool_decide (name = []) || has_prefix name (lit "-") || has_prefix name (lit "=") then Err (BadSyntax s)
      else
        let '(name, value) := flag_token name in
        match formal name with
        | None => if is_verb name ["help"; "h"]%string then Err HelpAsked else Err (NotDefined name)
        | Some BoolFlag =>
          let v := default (lit "true") value in
          match parseBool v with
          | None => Err (InvalidBool v name)
          | Some _ => let? rest := flags_Parse args' in Ok ((name, v) :: rest.1, rest.2)
          end
        | Some ValueFlag =>
          match value, args' with
          | Some v, _ => let? rest := flags_Parse args' in Ok ((name, v) :: rest.1, rest.2)
          | None, v :: args'' => let? rest := flags_Parse args'' in Ok ((name, v) :: rest.1, rest.2)
          | None, [] => Err (NeedsArgument name)
          end
        end
    end
  end.
End FlagSet.

(** ** The global flags *)

Record globals := MkGlobals { gl_quiet : bool; gl_verbose : bool; gl_json : bool }.

Inductive verbosity := Quiet | Verbose | NormalVerbosity.

Definition globals_verbosity (g : globals) : verbosity :=
  if gl_quiet g then Quiet else if gl_verbose g then Verbose else NormalVerbosity.

Definition spell (name : gostr) : gostr :=
  let name := trim_left (fun r => bool_decide (r = 45)) name in
  if (length name =? 1)%nat then lit "-" ++ name else lit "--" ++ name.

Definition rewriteFlagError (e : flag_error) : cli_error :=
  match e with
  | NeedsArgument name => NeedsValue (spell name)
  | InvalidBool value name => TakesBool (spell name) value
  | e => FlagRefused e
  end.

Definition global_formal (name : gostr) : option flag_kind :=
  if is_verb name ["verbose"; "quiet"; "q"; "json"]%string then Some BoolFlag else None.

(** The last value of a boolean flag, under any of its names. *)
Definition bool_of (names : list string) (settings : list (gostr * gostr)) : bool :=
  match last (List.filter (fun s => is_verb s.1 names) settings) with
  | Some (_, v) => default false (parseBool v)
  | None => false
  end.

Definition parseGlobal (args : list gostr) : res cli_error (globals * list gostr) :=
  let? x := splitGlobal args in
  let? set := map_err rewriteFlagError (flags_Parse global_formal x.1) in
  let settings := set.1 in
  let g := MkGlobals (bool_of ["quiet"; "q"]%string settings) (bool_of ["verbose"]%string settings) (bool_of ["json"]%string settings) in
  if gl_quiet g && gl_verbose g then Err QuietAndVerbose else Ok (g, x.2).

(** ** The flags of the run line *)

Record options := MkOptions {
  op_Project : gostr; op_Image : gostr; op_Workspace : gostr; op_Mem : Z; op_CPUs : Z; op_Skills : bool; op_NoProject : bool;
  op_Network : gostr; op_Publish : list gostr; op_Name : gostr; op_nameGiven : bool; op_detach : bool; op_offline : bool;
  op_json : bool; op_all : bool }.

Definition run_formal (name : gostr) : option flag_kind :=
  if is_verb name ["image"; "home"; "mem"; "memory"; "cpus"; "network"; "publish"]%string then Some ValueFlag
  else if is_verb name ["detach"; "d"; "skills"; "no-project"; "offline"; "json"; "all"]%string then Some BoolFlag
  else None.

Definition last_of (names : list string) (settings : list (gostr * gostr)) : option (gostr * gostr) :=
  last (List.filter (fun s => is_verb s.1 names) settings).
Definition string_of (name : string) (settings : list (gostr * gostr)) : gostr := default [] (snd <$> last_of [name] settings).

(** A count that was given under one of its names. *)
Definition number_of (names : list string) (settings : list (gostr * gostr)) : res cli_error Z :=
  match last_of names settings with
  | None => Ok 0
  | Some (name, raw) =>
    match parse_int 64 raw with
    | Some n => if n <=? 0 then Err (NotPositive (spell name) raw) else Ok n
    | None => Err (NotPositive (spell name) raw)
    end
  end.

Definition parse_line (reg : gmap gostr reg_entry) (verb : gostr) (args : list gostr) :
  res cli_error (options * gostr * list gostr) :=
  let? l := split reg verb args in
  let? set := map_err rewriteFlagError (flags_Parse run_formal (ln_mine l)) in
  let settings := set.1 in
  let? mem := number_of ["mem"; "memory"]%string settings in
  let? cpus := number_of ["cpus"]%string settings in
  let offline := bool_of ["offline"]%string settings in
  let network := string_of "network" settings in
  fail_if (offline && negb (bool_decide (network = [])) && negb (bool_decide (network = lit "offline"))) (OfflineAnd network) ;?
  Ok (MkOptions (ln_word l) (string_of "image" settings) (string_of "home" settings) mem cpus
        (bool_of ["skills"]%string settings) (bool_of ["no-project"]%string settings)
        (if offline then lit "offline" else network)
        (snd <$> List.filter (fun s => is_verb s.1 ["publish"]%string) settings)
        (sr_label (ln_ref l)) (negb (bool_decide (sr_label (ln_ref l) = [])))
        (bool_of ["detach"; "d"]%string settings) offline (bool_of ["json"]%string settings) (bool_of ["all"]%string settings),
      sr_agent (ln_ref l), ln_tail l).

Example split_run :
  split ∅ (lit "run") (lit <$> ["--image"; "x"; "claude"; "~/p"; "-d"; "-p"; "hi"; "--mem"]) =
  Ok (MkLine (lit <$> ["--image"; "x"; "-d"]) (MkSessionRef (lit "claude") []) (lit "~/p") (lit <$> ["-p"; "hi"; "--mem"])
        [MkTailNotice (lit "--mem") (Some (lit "before the profile"))]).
Proof. vm_compute. reflexivity. Qed.

(** ** Lemmas: the boundary *)

(** [pre] is a shuffle of two lists, each in its order. *)
Inductive interleaved {A} : list A -> list A -> list A -> Prop :=
  | il_nil : interleaved [] [] []
  | il_left x l m pre : interleaved l m pre -> interleaved (x :: l) m (x :: pre)
  | il_right x l m pre : interleaved l m pre -> interleaved l (x :: m) (x :: pre).

#[local] Hint Constructors interleaved : core.

Definition project (l : line) : list gostr := if decide (ln_word l = []) then [] else [ln_word l].

(** The bare words that brig reads past the ref: the ports, which lead the
    tail, or, on a verb that reads one, the project after any number of empty
    words. *)
Definition words_read (verb word : gostr) (l : line) (words rest : list gostr) : Prop :=
  if takesPorts verb then ln_word l = word /\ ln_tail l = words ++ rest
  else ln_tail l = rest /\
       if decide (word = []) then (exists n, words = replicate n [] ++ project l) /\ (readsProject verb = false -> words = [] /\ ln_word l = [])
       else words = [] /\ ln_word l = word.

(** Where brig stops: at the end of the line, after [--], or at a word that is
    not its own. *)
Definition boundary (verb word : gostr) (rest : list gostr) : Prop :=
  match rest with
  | [] => True
  | t :: _ =>
    t <> dashdash /\
    (dashed t = true /\ ours_flag t (at_of verb) = None \/
     dashed t = false /\ takesPorts verb = false /\ (readsProject verb = true -> word <> []))
  end.

(** Brig's own arguments: flags of the position, each with the argument it
    takes. *)
Inductive own_args (at_ : position) : list gostr -> Prop :=
  | own_nil : own_args at_ []
  | own_flag a l : dashed a = true -> a <> dashdash -> ours_flag a at_ = Some false -> own_args at_ l -> own_args at_ (a :: l)
  | own_value a v l : dashed a = true -> a <> dashdash -> ours_flag a at_ = Some true -> own_args at_ l -> own_args at_ (a :: v :: l)
  | own_last a : dashed a = true -> a <> dashdash -> ours_flag a at_ = Some true -> own_args at_ [a].

Section Accounts.
Variable reg : gmap gostr reg_entry.
Variable verb : gostr.

(** What became of the words [bare] of a line, read after [ref] and [word]. *)
Definition bare_read (ref : option SessionRef) (word : gostr) (l : line) (bare rest : list gostr) : Prop :=
  match ref with
  | Some r => ln_ref l = r /\ words_read verb word l bare rest
  | None =>
    (bare = [] /\ ln_ref l = no_ref /\ ln_word l = word /\ ln_tail l = rest) \/
    (exists r words, bare = r :: words /\ ParseSessionRef reg r = Ok (ln_ref l) /\ words_read verb word l words rest)
  end.

Definition accounted (ref : option SessionRef) (word : gostr) (args : list gostr) (l : line) : Prop :=
  exists pre bare rest,
    (args = pre ++ rest /\ boundary verb (ln_word l) rest \/ args = pre ++ dashdash :: rest) /\
    interleaved (ln_mine l) bare pre /\ own_args (at_of verb) (ln_mine l) /\ bare_read ref word l bare rest.

Lemma ports_no_project : takesPorts verb = true -> readsProject verb = false.
Proof.
  unfold takesPorts, readsProject, is_verb. rewrite mem_true, mem_false. intros H. set_unfold. naive_solver.
Qed.

(** The end of the loop. *)
Lemma ends_read ref word rest notices :
  bare_read ref word (MkLine [] (default no_ref ref) word rest notices) [] rest.
Proof.
  unfold bare_read. destruct ref as [r|]; [|by left]. split; [done|]. unfold words_read. simpl.
  destruct (takesPorts verb); [done|]. split; [done|]. destruct (decide (word = [])) as [->|]; [|done]. split; [|done]. by exists O.
Qed.

Lemma mine_read ref word l mine bare rest : bare_read ref word l bare rest -> bare_read ref word (with_mine l mine) bare rest.
Proof. done. Qed.

(** A bare word past the ref. *)
Lemma word_read r word a l bare rest :
  bare_read (Some r) (if readsProject verb && bool_decide (word = []) then a else word) l bare rest ->
  readsProject verb && bool_decide (word = []) = true ->
  bare_read (Some r) word l (a :: bare) rest.
Proof.
  intros H E. rewrite E in H. apply andb_true_iff in E as [Ep E]. apply bool_decide_eq_true in E as ->.
  destruct H as [<- H]. split; [done|]. unfold words_read in *.
  destruct (takesPorts verb) eqn:T; [by rewrite ports_no_project in Ep|]. destruct H as [-> H]. split; [done|].
  rewrite decide_True by done. split; [|by rewrite Ep]. destruct (decide (a = [])) as [->|Ha].
  - destruct H as [[n ->] _]. by exists (S n).
  - destruct H as [-> Hw]. exists O. unfold project. rewrite Hw. by rewrite decide_False.
Qed.

Lemma port_read r word a l bare rest :
  takesPorts verb = true -> bare_read (Some r) word l bare rest -> bare_read (Some r) word (with_port l a) (a :: bare) rest.
Proof.
  intros T [<- H]. split; [done|]. unfold words_read in *. rewrite T in *. destruct H as [<- H]. split; [done|]. simpl. by rewrite H.
Qed.

Lemma accounted_step ref word args l pre0 :
  (exists args', args = pre0 ++ args' /\ accounted ref word args' l) ->
  own_args (at_of verb) (pre0 ++ ln_mine l) -> accounted ref word args (with_mine l pre0).
Proof.
  intros (args' & -> & pre & bare & rest & Hargs & Hi & _ & Hb) Hown. exists (pre0 ++ pre), bare, rest. split_and!; [|..].
  - rewrite <- !app_assoc. destruct Hargs as [[-> Hbd]| ->]; [left|right]; by rewrite ?app_assoc.
  - simpl. clear -Hi. induction pre0; simpl; auto.
  - done.
  - by apply mine_read.
Qed.

Lemma loop_accounts ref word args l : split_loop reg verb ref word args = Ok l -> accounted ref word args l.
Proof.
  remember (length args) as n eqn:Hn. revert ref word args l Hn.
  induction (lt_wf n) as [n _ IH]. intros ref word args l -> H.
  assert (forall rest notices, args = rest -> boundary verb word rest ->
    accounted ref word args (MkLine [] (default no_ref ref) word rest notices)) as Hend.
  { intros rest notices -> Hb. exists [], [], rest. split_and!; [by left|constructor|constructor|apply ends_read]. }
  destruct args as [|a args]; [injection H as <-; by apply Hend|]. cbn [split_loop] in H.
  destruct (decide (a = dashdash)) as [->|Ha].
  { rewrite bool_decide_true in H by done. injection H as <-. exists [], [], args.
    split_and!; [by right|constructor|constructor|apply ends_read]. }
  rewrite (bool_decide_false (a = dashdash)) in H by done.
  destruct (dashed a) eqn:Da; cbn [negb] in H.
  2:{ destruct ref as [r|].
      - destruct (readsProject verb && bool_decide (word = [])) eqn:Ep.
        + destruct (IH (length args) (Nat.lt_succ_diag_r _) (Some r) a args l eq_refl H) as (pre & bare & rest & Hargs & Hi & Ho & Hb).
          exists (a :: pre), (a :: bare), rest. split_and!; [|by constructor|done|].
          * destruct Hargs as [[-> Hbd]| ->]; [by left|by right].
          * apply word_read; [by rewrite Ep|done].
        + destruct (takesPorts verb) eqn:T.
          * apply res_bind_ok in H as (l' & H & [= <-]).
            destruct (IH (length args) (Nat.lt_succ_diag_r _) (Some r) word args l' eq_refl H) as (pre & bare & rest & Hargs & Hi & Ho & Hb).
            exists (a :: pre), (a :: bare), rest. split_and!; [|by constructor|done|by apply port_read].
            destruct Hargs as [[-> Hbd]| ->]; [by left|by right].
          * injection H as <-. apply Hend; [done|]. split; [done|]. right. split_and!; [done..|].
            intros Hp -> . by rewrite Hp in Ep.
      - apply res_bind_ok in H as (r & Hr & H). apply map_err_ok in Hr.
        destruct (IH (length args) (Nat.lt_succ_diag_r _) (Some r) word args l eq_refl H) as (pre & bare & rest & Hargs & Hi & Ho & Hb).
        exists (a :: pre), (a :: bare), rest. split_and!; [|by constructor|done|].
        * destruct Hargs as [[-> Hbd]| ->]; [by left|by right].
        * destruct Hb as [Hr' Hb]. right. exists a, bare. split_and!; [done|by rewrite Hr'|done]. }
  destruct (if bool_decide (at_of verb = posRun) && is_nil ref then assoc (flag_spelling a) removedFlags else None) as [[was now]|]; [done|].
  destruct (ours_flag a (at_of verb)) as [v|] eqn:O.
  2:{ destruct ref as [r|]; [|done]. cbn [is_nil] in H. destruct (takesPorts verb); [done|]. injection H as <-.
      apply Hend; [done|]. split; [done|]. by left. }
  destruct v; [destruct args as [|b args]|].
  - injection H as <-. apply (accounted_step _ _ _ (MkLine [] (default no_ref ref) word [] [])); [|by apply own_last].
    exists []. split; [done|]. exists [], [], []. split_and!; [by left|constructor|constructor|apply ends_read].
  - apply res_bind_ok in H as (l' & H & [= <-]).
    pose proof (IH (length args) ltac:(simpl; lia) ref word args l' eq_refl H) as Hacc.
    apply accounted_step; [by exists args|]. apply own_value; [done..|]. by destruct Hacc as (? & ? & ? & _ & _ & ? & _).
  - apply res_bind_ok in H as (l' & H & [= <-]).
    pose proof (IH (length args) (Nat.lt_succ_diag_r _) ref word args l' eq_refl H) as Hacc.
    apply accounted_step; [by exists args|]. apply own_flag; [done..|]. by destruct Hacc as (? & ? & ? & _ & _ & ? & _).
Qed.
End Accounts.

(** ** Lemmas: the table and the registrations *)

Definition registered (at_ : position) (formal : gostr -> option flag_kind) : Prop :=
  at_ = posGlobal /\ formal = global_formal \/ (at_ = posRun \/ at_ = posPublish) /\ formal = run_formal.

Lemma cut_inline a : a = flag_spelling a ++ (if inline a then lit "=" ++ (cut a (lit "=")).1.2 else []).
Proof.
  unfold flag_spelling, inline, cut. destruct (cut_at (lit "=") a) as [[x y]|] eqn:E; simpl.
  - by apply cut_at_Some in E.
  - by rewrite app_nil_r.
Qed.

Lemma ours_row a at_ v :
  ours_flag a at_ = Some v ->
  exists f, f ∈ brigFlags /\ legal_at at_ f = true /\ spelled (flag_spelling a) f = true /\ v = fr_value f && negb (inline a).
Proof.
  unfold ours_flag, oursAt. destruct (List.filter _ brigFlags) as [|f fs] eqn:E; [done|]. intros [= <-]. exists f.
  assert (In f (List.filter (fun f => legal_at at_ f && spelled (flag_spelling a) f) brigFlags)) as Hin by (rewrite E; by left).
  apply filter_In in Hin as [Hin Hf]. apply andb_true_iff in Hf as [Hl Hs]. split_and!; try done. by apply list_elem_of_In.
Qed.

(** What the flag package makes of a token of brig's. *)
Definition reads_as (formal : gostr -> option flag_kind) (a : gostr) (v : bool) : Prop :=
  exists name nm val kind, flag_name a = Some name /\
    bool_decide (name = []) || has_prefix name (lit "-") || has_prefix name (lit "=") = false /\
    flag_token name = (nm, val) /\ formal nm = Some kind /\
    v = match kind, val with ValueFlag, None => true | _, _ => false end.

Lemma row_reads at_ formal f sp (val : option gostr) :
  registered at_ formal -> f ∈ brigFlags -> legal_at at_ f = true -> spelled sp f = true ->
  reads_as formal (sp ++ match val with Some v => lit "=" ++ v | None => [] end) (fr_value f && is_nil val).
Proof.
  intros Hr Hf Hl Hs. unfold spelled in Hs. apply orb_true_iff in Hs.
  assert (sp = lit "--" ++ fr_long f \/ fr_short f <> [] /\ sp = lit "-" ++ fr_short f) as Hsp.
  { destruct Hs as [H|H]; [left; by apply bool_decide_eq_true in H|right].
    apply andb_true_iff in H as [H1 H2]. apply negb_true_iff, bool_decide_eq_false in H1. by apply bool_decide_eq_true in H2. }
  unfold brigFlags in Hf. rewrite !elem_of_cons, elem_of_nil in Hf. unfold registered in Hr.
  repeat (destruct Hf as [->|Hf]); [..|done];
    destruct Hr as [[-> ->]|[[->| ->] ->]]; try discriminate Hl;
    destruct Hsp as [->|[Hne ->]]; try (by destruct Hne); destruct val as [v|];
    (eexists _, _, _, _; split_and!; reflexivity).
Qed.

Lemma ours_reads at_ formal a v : registered at_ formal -> ours_flag a at_ = Some v -> reads_as formal a v.
Proof.
  intros Hr H. apply ours_row in H as (f & Hf & Hl & Hs & ->). rewrite (cut_inline a) at 1.
  pose proof (row_reads at_ formal f (flag_spelling a) (if inline a then Some (cut a (lit "=")).1.2 else None) Hr Hf Hl Hs) as H.
  by destruct (inline a).
Qed.

(** All of brig's own arguments are read, or one of them lacks its value or
    has one that is no truth value. *)
Definition all_read (r : res flag_error (list (gostr * gostr) * list gostr)) : Prop :=
  match r with
  | Ok x => x.2 = []
  | Err (NeedsArgument _) | Err (InvalidBool _ _) => True
  | Err _ => False
  end.

Lemma own_args_read at_ formal mine : registered at_ formal -> own_args at_ mine -> all_read (flags_Parse formal mine).
Proof.
  intros Hr H.
  assert (forall r s, all_read r -> all_read (let? rest := r in Ok (s :: rest.1, rest.2))) as Hb.
  { intros r s Hx. destruct r as [x|e]; [exact Hx|]. by destruct e. }
  induction H as [|a l Hd Hne O _ IH|a v l Hd Hne O _ IH|a Hd Hne O]; [done|..];
    destruct (ours_reads _ _ _ _ Hr O) as (name & nm & val & kind & Hn & Hs & Ht & Hf & Hv); cbn [flags_Parse]; rewrite Hn, Hs, Ht, Hf.
  - destruct kind; [destruct (parseBool _); [by apply Hb|done]|]. destruct val; [by apply Hb|done].
  - destruct kind; [done|]. destruct val; [done|]. by apply Hb.
  - destruct kind; [done|]. by destruct val.
Qed.

Lemma splitGlobal_accounts args mine rest :
  splitGlobal args = Ok (mine, rest) ->
  args = mine ++ rest /\ own_args posGlobal mine /\ (forall t rest', rest = t :: rest' -> dashed t = false \/ verbSpelling t = true).
Proof.
  remember (length args) as n eqn:Hn. revert args mine Hn. induction (lt_wf n) as [n _ IH]. intros args mine -> H.
  destruct args as [|a args]; cbn [splitGlobal] in H; [injection H as <- <-; split_and!; [done|constructor|done]|].
  destruct (negb (dashed a) || verbSpelling a) eqn:E.
  { injection H as <- <-. split_and!; [done|constructor|]. intros t r [= <- <-].
    apply orb_true_iff in E as [E|E]; [left; by apply negb_true_iff|by right]. }
  apply orb_false_iff in E as [Da _]. apply negb_false_iff in Da.
  destruct (ours_flag a posGlobal) as [v|] eqn:O; [|done].
  assert (a <> dashdash) as Hne by by intros ->.
  destruct v; [destruct args as [|b args]|].
  - injection H as <- <-. split_and!; [done|by apply own_last|done].
  - apply res_bind_ok in H as ([m r] & H & [= <- <-]).
    destruct (IH (length args) ltac:(simpl; lia) args m eq_refl H) as (-> & Ho & Hr). split_and!; [done|by apply own_value|done].
  - apply res_bind_ok in H as ([m r] & H & [= <- <-]).
    destruct (IH (length args) (Nat.lt_succ_diag_r _) args m eq_refl H) as (-> & Ho & Hr). split_and!; [done|by apply own_flag|done].
Qed.

Lemma split_not_refused reg verb ref word args e : split_loop reg verb ref word args <> Err (FlagRefused e).
Proof.
  remember (length args) as n eqn:Hn. revert ref word args Hn. induction (lt_wf n) as [n _ IH]. intros ref word args -> H.
  assert (forall (r : option SessionRef) (w : gostr) (t : list gostr), (length t < length args)%nat -> split_loop reg verb r w t <> Err (FlagRefused e)) as Hrec
    by (intros; by eapply IH).
  clear IH. destruct args as [|a args]; [done|]. cbn [split_loop] in H.
  pose proof (fun (r : option SessionRef) (w : gostr) => Hrec r w args (Nat.lt_succ_diag_r _)) as H1.
  assert (forall (b : gostr) (args' : list gostr), args = b :: args' -> forall (r : option SessionRef) (w : gostr), split_loop reg verb r w args' <> Err (FlagRefused e)) as H2
    by (intros b args' -> r w; apply Hrec; simpl; lia).
  clear Hrec. case_bool_decide; [done|]. destruct (dashed a); cbn [negb] in H.
  - destruct (if bool_decide (at_of verb = posRun) && is_nil ref then assoc (flag_spelling a) removedFlags else None) as [[was now]|]; [done|].
    destruct (ours_flag a (at_of verb)) as [v|]; [|by destruct (is_nil ref), (takesPorts verb)].
    destruct v; [destruct args as [|b args]|].
    + done.
    + specialize (H2 b args eq_refl ref word). destruct (split_loop _ _ _ _ args); [done|]. injection H as ->. done.
    + specialize (H1 ref word). destruct (split_loop _ _ _ _ args); [done|]. injection H as ->. done.
  - destruct ref as [r|].
    + destruct (_ && _); [by apply H1 in H|]. destruct (takesPorts verb); [|done].
      specialize (H1 (Some r) word). destruct (split_loop _ _ _ _ args); [done|]. injection H as ->. done.
    + destruct (ParseSessionRef reg a); [by apply H1 in H|done].
Qed.

Lemma splitGlobal_not_refused args e : splitGlobal args <> Err (FlagRefused e).
Proof.
  remember (length args) as n eqn:Hn. revert args Hn. induction (lt_wf n) as [n _ IH]. intros args -> H.
  destruct args as [|a args]; [done|]. cbn [splitGlobal] in H. destruct (_ || _); [done|].
  destruct (ours_flag a posGlobal) as [v|]; [|done].
  pose proof (IH (length args) (Nat.lt_succ_diag_r _) args eq_refl) as H1.
  destruct v; [destruct args as [|b args]|].
  - done.
  - pose proof (IH (length args) ltac:(simpl; lia) args eq_refl) as H2.
    destruct (splitGlobal args); [done|]. injection H as ->. done.
  - destruct (splitGlobal args); [done|]. injection H as ->. done.
Qed.

(** ** Properties *)

(** C37: no word of a line is repeated or moved, and none is lost but empty words
    between the ref and the project on a verb that reads one, and the [--] that
    ends brig's part.  A line that is split is a shuffle of brig's own arguments
    and of the bare words brig reads -- the ref, then the ports, or the project
    after any number of empty words, which are dropped -- and then the tail,
    word for word, up to the end of the line or after [--]; brig's own arguments
    are flags of the position of that verb with the values they take, of which
    [-q] is none, and without [--] the tail begins only at a word that is not
    brig's there. *)
Theorem split_accounts (reg : gmap gostr reg_entry) (verb : gostr) (args : list gostr) (l : line) :
  split reg verb args = Ok l -> accounted reg verb None [] args l.
Proof. intros H. by apply loop_accounts. Qed.

Lemma split_accounts_witness :
  accounted ∅ (lit "run") None [] (lit <$> ["--mem"; "4096"; "claude"; "-d"; "~/p"; "-p"; "--detach"])
    (MkLine (lit <$> ["--mem"; "4096"; "-d"]) (MkSessionRef (lit "claude") []) (lit "~/p") (lit <$> ["-p"; "--detach"])
       [MkTailNotice (lit "--detach") (Some (lit "before the profile"))]).
Proof. apply split_accounts. vm_compute. reflexivity. Defined.

(** C38: the table and the registrations agree: what brig takes for its own
    flags, in the global position and on the run line, the flag package reads
    without meeting a flag it does not know, bad syntax or a request for help,
    so the words it was given are the only reason for it to refuse. *)
Theorem flags_registered (reg : gmap gostr reg_entry) (verb : gostr) (args : list gostr) (e : flag_error) :
  parse_line reg verb args <> Err (FlagRefused e) /\ parseGlobal args <> Err (FlagRefused e).
Proof.
  assert (forall r : res flag_error (list (gostr * gostr) * list gostr), all_read r -> map_err rewriteFlagError r <> Err (FlagRefused e)) as Hr.
  { intros [x|x] H; [done|]. by destruct x. }
  assert (forall names s, number_of names s <> Err (FlagRefused e)) as Hn.
  { intros names s. unfold number_of. destruct (last_of names s) as [[name raw]|]; [|done].
    destruct (parse_int 64 raw) as [n|]; [|done]. by destruct (n <=? 0). }
  split.
  - unfold parse_line. destruct (split reg verb args) as [l|x] eqn:E; [|intros [= ->]; by apply split_not_refused in E].
    cbn [res_bind]. assert (all_read (flags_Parse run_formal (ln_mine l))) as A.
    { destruct (loop_accounts reg verb None [] args l E) as (? & ? & ? & _ & _ & Ho & _).
      apply (own_args_read (at_of verb)); [|done]. right. split; [|done]. unfold at_of. destruct (onPortLine verb); tauto. }
    destruct (map_err _ _) as [set|x] eqn:M; [|intros [= ->]; by apply (Hr _ A)]. cbn [res_bind].
    destruct (number_of ["mem"; "memory"]%string set.1) as [mem|x] eqn:N; [|intros [= ->]; by apply Hn in N]. cbn [res_bind].
    destruct (number_of ["cpus"]%string set.1) as [cpus|x] eqn:N'; [|intros [= ->]; by apply Hn in N']. cbn [res_bind].
    unfold fail_if. destruct (_ && _ && _); done.
  - unfold parseGlobal. destruct (splitGlobal args) as [[mine rest]|x] eqn:E.
    + cbn [res_bind fst]. assert (all_read (flags_Parse global_formal mine)) as A.
      { destruct (splitGlobal_accounts args mine rest E) as (_ & Ho & _). apply (own_args_read posGlobal); [by left|done]. }
      destruct (map_err _ _) as [set|x] eqn:M; [|intros [= ->]; by apply (Hr _ A)]. cbn [res_bind]. cbv zeta. by case_match.
    + intros [= ->]. by apply splitGlobal_not_refused in E.
Qed.

(** Past the ref [-q] is the agent's, although the comment on [split] gives it
    as a flag that brig still reads there. *)
Lemma quiet_forwarded :
  split ∅ (lit "run") (lit <$> ["claude"; "-q"]) =
  Ok (MkLine [] (MkSessionRef (lit "claude") []) [] [lit "-q"] [MkTailNotice (lit "-q") (Some (lit "before the command"))]).
Proof. vm_compute. reflexivity. Qed.

(** An empty word after the ref is neither the project nor the agent's. *)
Lemma empty_word_dropped :
  split ∅ (lit "run") (lit <$> ["claude"; ""; "a"; "b"]) =
  Ok (MkLine [] (MkSessionRef (lit "claude") []) (lit "a") [lit "b"] []).
Proof. vm_compute. reflexivity. Qed.
